(* ===== verification/_CoqProject ===== *)
-Q . S2P
Prelude.v
Errors.v
Retry.v
SlotTable.v
Xdr4.v
Acl4.v
Attrs4.v
Compound41.v
V42.v
Response41.v
Session.v
Engine41.v
Layout.v
Device.v
Gates.v
LayoutMgr.v
Callback.v
PnfsIo.v
State41.v
Compound40.v
Lease40.v
Lanes40.v
Rpc.v
ClientCore.v
WriteOwner.v
FileIo.v
Callback40.v
Mux.v
Listing.v
Ops41.v
Ops42.v
Entry.v
Fs41.v
FsInfo.v
MountTrait.v
Ops40.v
Recover40.v
Args3.v
Nfs3.v
Mount3.v
Pnfs41.v
Recall41.v
Teardown41.v
PyFile.v
Owned42.v
Wrapper41.v
