(* ===== verification/Prelude.v ===== *)
(** * Verification of nfs-rs, an NFS client library

    nfs-rs is an asynchronous NFS client for protocol versions 3, 4.0, 4.1 and
    4.2. This library models the parts that carry its correctness arguments and
    proves the properties those parts promise to each other and to a caller.

    ** How the program is put together

    A call of the public API is admitted by the client core ([client_core.rs]),
    which counts what is in flight so that a close can wait for it. The protocol
    engines build a COMPOUND request, send it through the RPC transport
    ([rpc/mod.rs]) and decode the reply. NFSv4.1 requests pass through a session
    slot ([nfs41/session.rs]), whose sequence number makes a resend detectable;
    NFSv4.0 requests that change open or lock state carry the sequence number of
    their owner ([nfs40/state.rs], [nfs40/mount.rs]) under a lease
    ([nfs40/lease.rs]). With pNFS, data moves to data servers under layouts
    ([nfs41/layout.rs], [nfs41/pnfs_io.rs]) that the server may recall on the
    backchannel ([nfs41/callback.rs]). Writes are cut into chunks and committed
    ([fileio.rs], [nfs41/write_owner.rs]). Failures are classified by whether a
    request may have taken effect ([error.rs], [retry.rs]).

    ** Conventions

    - A Rust [Result] is [outcome]: [Ok], [Err], or [Panic] for an index out of
      range, an overflow or an assertion that fails. The reader's primitives
      panic where the [bytes] crate does.
    - Integers are [Z], with the wrap-around, saturation or check of the source
      written out; [usize] is 64 bits wide. Bytes are lists of [Byte.byte].
    - A map is a [gmap] keyed by its Rust key; a [Vec] whose order matters is a
      list. A shared mutable object is a reference into a heap in the state.
    - Code that runs concurrently is a step relation in which every access to a
      shared cell is a step of its own; interleavings are sequentially
      consistent. Where a lock is held over several accesses they are one step.
    - The clock, random numbers, sockets, the server and the outcome of a
      reconnection are arguments, chosen by the environment. Texts of standard
      library errors are elided; logging and [debug_assert] are left out.

    ** Files, and what they model

    - Prelude: outcomes, machine integers, bytes, the read cursor and its rules,
      number parsing and printing, sums over lists.
    - Errors ([error.rs], statuses of [nfs4/xdr/nfs4.x]) and Retry ([retry.rs]).
    - Xdr4 ([nfs4/compound.rs], [rpc/header.rs], [rpc/auth.rs],
      [nfs4/stateid.rs]), Acl4 ([nfs4/acl.rs]), Attrs4 ([nfs4/attrs.rs]).
    - Compound41 and Response41 ([nfs41/compound.rs]), V42 ([nfs41/v42_ops.rs],
      [nfs41/v42_xattr.rs]).
    - SlotTable and Session ([nfs41/session.rs], [nfs41/lease.rs]).
    - Engine41 ([compound_budgeted] and [compound_ds_budgeted] of
      [nfs41/mount.rs]), over the class [EnvLaws] of the rest of the mount.
    - Layout, Device, Gates and LayoutMgr ([nfs41/layout.rs]); PnfsIo
      ([nfs41/pnfs_io.rs]); Callback ([nfs41/callback.rs]).
    - State41 ([nfs41/state.rs]); WriteOwner ([nfs41/write_owner.rs] and [write]
      of [nfs41/mount.rs]).
    - Compound40 ([nfs40/compound.rs]); Lease40 ([nfs40/lease.rs]); Lanes40
      ([nfs40/state.rs], and OPEN, CLOSE, LOCK and LOCKU of [nfs40/mount.rs]).
    - Rpc ([rpc/mod.rs]); ClientCore ([client_core.rs]); FileIo ([fileio.rs]).
    - Callback40 ([nfs40/callback.rs]): delegations, the recall worker and the
      callback connection. Mux ([StreamMux] of [rpc/mod.rs]): the multiplexer.
    - Listing: directory pages and streams of all versions ([mount.rs],
      [nfs41/readdir.rs], [nfs40/mount.rs], [nfs3/]).
    - Ops41 and Ops42: the operations of [nfs41/lookup.rs], [getattr.rs],
      [read.rs], [write.rs], [setattr.rs], [dir_ops.rs], [acl_ops.rs],
      [xattr.rs], [v42_ops.rs] and [v42_xattr.rs], over a record [Engine] of what
      the request engine offers. Fs41: a reference file server for them.
    - FsInfo: limits, statistics and path limits of a file system
      ([nfs40/mount.rs], [nfs41/mount.rs]). MountTrait: opening a path with options
      over any mount ([mount.rs]), and the state monad the operations use.
    - Ops40: the operations of [nfs40/mount.rs], over a record [Engine40] of the
      transport. Recover40: its recovery after the server has lost the client.
    - Entry ([lib.rs]): URLs, versions, source ports, [split_path].
    - Args3, Nfs3 ([nfs3/mod.rs] and the procedures of [nfs3/]): requests, calls
      and procedures of NFSv3. Mount3 ([nfs3/mount.rs], [acl.rs], [export.rs]).
    - Pnfs41 (the methods of [Mount41] in [nfs41/pnfs_io.rs], [write_pnfs] of
      [nfs41/write.rs]): layouts, devices, data servers, reading, writing and
      committing retained writes over the world of Ops41 with a layout manager.
    - Recall41 ([nfs41/mount.rs], [nfs41/lease.rs]): answering recalls, renewing
      the lease and mounting, over the interface of Engine41. Teardown41
      ([teardown] of [nfs41/mount.rs]): unmounting, over the world of Pnfs41.
    - Owned42 ([run_owned] of [nfs41/v42_ops.rs]): the locks and tasks of NFSv4.2
      mutations. Wrapper41 ([Mount41Wrapper] of [nfs41/mount.rs]): the public mount.
    - PyFile ([python_adapter.rs]): the file objects of the Python adapter, their
      registry and the events of abandoned operations.

    ** What the theorems show

    - A request is sent again only when that cannot repeat an effect: Engine41,
      Response41 and Compound40 decide from the reply, Errors keeps an uncertain
      mutation from looking like backpressure, Rpc says truthfully that a call
      was not sent unless it was resent and a record was malformed, and SlotTable
      never reuses a fenced slot.
    - Engine41's transmissions refine an abstract slot protocol, in which a slot
      whose SEQUENCE was acknowledged is advanced before it is given back, and its
      loops end. Lanes40 keeps the owner sequence numbers in step with a server
      that reads them from the encoded requests, for replies that arrive and get
      past PUTFH, and refines the specification of a lock table.
    - Requests that wait for readiness are not stranded by a lost connection (Mux);
      an NFSv4.0 recall is tracked to its return while generations only grow
      (Callback40).
    - A successful write is durable and a failed one reports the bytes its last
      attempt has acknowledged (FileIo, PnfsIo), an abandoned one is settled
      or reported (WriteOwner), a dirty range survives a concurrent LAYOUTCOMMIT
      (LayoutMgr), and reads return exactly the file's bytes (FileIo, PnfsIo).
    - Nothing of an older session, lease or layout generation becomes visible
      (LayoutMgr, State41, Lease40), callbacks take effect once (Callback), and
      closing a client waits for its work and never gets stuck (ClientCore).
    - Decoders never panic on any input and read back what the protocol lays out
      (Response41, Attrs4, Acl4, Layout, Compound40, Rpc).
    - Path operations act on the objects a walk of the path reaches (Fs41); a
      listing yields every entry once and ends (Listing); extended attributes are
      read back as written and a copy is durable (Ops42).

    - An NFSv4.0 mutation takes effect at most once (Ops40), and a recovery gives
      the client all its open files and locks back, with the state ids and numbers
      of the new server (Recover40). Opening a path
      with options leaks no handle (MountTrait). Limits and statistics are read
      back as the server laid them out (FsInfo).
    - An NFSv3 request means on the wire what was asked (Args3), a mutation takes
      effect at most once and its errors tell (Nfs3), operations by a path below the
      mount act on the entry it leads to (Nfs3), and ACLs and exports are read back (Mount3).
    - A pNFS read returns the bytes of the file, a pNFS write that is made again
      has stored nothing, retained writes are settled or marked, and a layout is
      returned after what was written through it is committed (Pnfs41, Recall41).
    - The recall worker and the renewal task keep the engine's slot protocol; the
      RECLAIM_COMPLETE of a new session does not, as examples show. A mount has a
      session bound in both directions (Recall41), and an unmount makes every request it
      owes the servers (Teardown41).
    - Mutations that lock two files never deadlock and lose no uncertain outcome
      (Owned42); a file with an abandoned write is neither written, copied, closed nor
      committed with success again, and a lock token is used only where it was
      issued (Wrapper41).
    - A Python file object behaves as a plain file with a position; once a write
      has made the position uncertain, reads, writes and relative seeks refuse to
      use it, while tell and truncate without a size go on with the last certain
      one; the file is closed at most once (PyFile).
    - A mount takes the first version that works, and a path is split into the
      directory and name of its normal form (Entry).

    ** Fuel and bounds

    Loops over untrusted input take the length of the input, or the source's own
    limit, as fuel, and the theorems show that it suffices: 65537 turns for a
    directory page (its limit is 65536 entries), the remaining bytes for the
    fragments of a record, the bytes asked for in a read or write loop, the
    length for splitting a range into stripes, 17 turns for RECLAIM_COMPLETE and
    busy retries, and the retry budget plus 16 recoveries plus one for the
    request engine. [call_loop] takes the policy's number of attempts.

    ** Not modelled

    The rest of the Python adapter, which converts values and waits on Python
    threads, and the benchmarks; the generated XDR code of NFSv3; sockets and the executor; the url,
    percent-encoding and path-clean crates. The notes of PROJECT.json say for each part what is left. *)
From Stdlib Require Import Strings.Byte.
From stdpp Require Import base list numbers strings gmap.

#[global] Open Scope Z_scope.

(** * Outcomes: a Rust [Result] together with panics *)

Inductive outcome (E A : Type) : Type :=
| Ok (a : A)
| Err (e : E)
| Panic.
Arguments Ok {E A} a.
Arguments Err {E A} e.
Arguments Panic {E A}.

Definition obind {E A B : Type} (c : outcome E A) (k : A -> outcome E B) : outcome E B :=
  match c with
  | Ok a => k a
  | Err e => Err e
  | Panic => Panic
  end.

Declare Scope nfs_scope.
Delimit Scope nfs_scope with nfs.
#[global] Open Scope nfs_scope.

Notation "'let*' x ':=' c 'in' k" := (obind c (fun x => k))
  (at level 10, x pattern, c at level 100, k at level 200) : nfs_scope.

(** [wpo o Q]: the computation does not panic and its successful result
    satisfies [Q]; errors are allowed. *)
Definition wpo {E A : Type} (o : outcome E A) (Q : A -> Prop) : Prop :=
  match o with
  | Ok a => Q a
  | Err _ => True
  | Panic => False
  end.

Definition map_err {E F A : Type} (f : E -> F) (o : outcome E A) : outcome F A :=
  match o with
  | Ok a => Ok a
  | Err e => Err (f e)
  | Panic => Panic
  end.

Definition is_ok {E A : Type} (o : outcome E A) : bool :=
  match o with Ok _ => true | _ => false end.

Section Wpo.
Context {E A B : Type}.

Lemma wpo_no_panic (o : outcome E A) Q : wpo o Q -> o <> Panic.
Proof. by destruct o. Qed.

Lemma wpo_ok (o : outcome E A) Q a : wpo o Q -> o = Ok a -> Q a.
Proof. by intros H ->. Qed.

Lemma wpo_mono (o : outcome E A) (P Q : A -> Prop) :
  wpo o P -> (forall a, P a -> Q a) -> wpo o Q.
Proof. destruct o; simpl; auto. Qed.

Lemma wpo_bind (c : outcome E A) (k : A -> outcome E B) Q :
  wpo c (fun a => wpo (k a) Q) -> wpo (obind c k) Q.
Proof. by destruct c. Qed.

Lemma wpo_ret (a : A) (Q : A -> Prop) : Q a -> wpo (@Ok E A a) Q.
Proof. done. Qed.

Lemma wpo_err (e : E) (Q : A -> Prop) : wpo (@Err E A e) Q.
Proof. done. Qed.

Lemma wpo_if (b : bool) (c d : outcome E A) Q :
  (b = true -> wpo c Q) -> (b = false -> wpo d Q) -> wpo (if b then c else d) Q.
Proof. destruct b; auto. Qed.

Lemma obind_ok_inv (c : outcome E A) (k : A -> outcome E B) b :
  obind c k = Ok b -> exists a, c = Ok a /\ k a = Ok b.
Proof. destruct c; simpl; try done. eauto. Qed.
End Wpo.

Lemma wpo_map_err {E F A} (f : E -> F) (o : outcome E A) (Q : A -> Prop) :
  wpo o Q -> wpo (map_err f o) Q.
Proof. by destruct o. Qed.

(** * Machine integers *)

Definition is_u8 (z : Z) : Prop := 0 <= z < 2 ^ 8.
Definition is_u32 (z : Z) : Prop := 0 <= z < 2 ^ 32.
Definition is_u64 (z : Z) : Prop := 0 <= z < 2 ^ 64.

Definition u32_max : Z := 4294967295.
Definition u64_max : Z := 18446744073709551615.

Definition wrap32 (z : Z) : Z := z mod 2 ^ 32.
Definition wrap64 (z : Z) : Z := z mod 2 ^ 64.

(** [u64::saturating_add], [checked_add] and their 32-bit counterparts. *)
Definition sat_add64 (a b : Z) : Z := Z.min (a + b) u64_max.
Definition checked_add64 (a b : Z) : option Z :=
  if a + b <=? u64_max then Some (a + b) else None.

(** Two's complement reading of a 32-bit and a 64-bit word. *)
Definition as_i32 (z : Z) : Z := if z <? 2 ^ 31 then z else z - 2 ^ 32.
Definition as_i64 (z : Z) : Z := if z <? 2 ^ 63 then z else z - 2 ^ 64.

Definition b2z (b : bool) : Z := if b then 1 else 0.

Ltac unfold_int :=
  unfold is_u8, is_u32, is_u64, wrap32, wrap64, sat_add64, u32_max, u64_max in *.
Tactic Notation "ilia" := unfold_int; simpl in *; lia.

(** * Bytes and big-endian words *)

Abbreviation byte := Init.Byte.byte.
Abbreviation bytes := (list byte).

#[global] Instance byte_eq_dec : EqDecision byte := Byte.byte_eq_dec.
#[global] Instance byte_countable : Countable byte :=
  inj_countable Byte.to_N Byte.of_N Byte.of_to_N.

Definition byte_val (b : byte) : Z := Z.of_N (Byte.to_N b).
Definition byte_of (z : Z) : byte :=
  match Byte.of_N (Z.to_N (z mod 256)) with
  | Some b => b
  | None => x00
  end.

Lemma byte_val_range b : 0 <= byte_val b < 256.
Proof. unfold byte_val. pose proof (Byte.to_N_bounded b). lia. Qed.

Lemma byte_val_of z : byte_val (byte_of z) = z mod 256.
Proof.
  unfold byte_val, byte_of.
  pose proof (Z.mod_pos_bound z 256 ltac:(lia)).
  destruct (Byte.of_N _) eqn:E.
  - apply Byte.to_of_N in E. rewrite E. lia.
  - apply Byte.of_N_None_iff in E. lia.
Qed.

Lemma byte_of_val b : byte_of (byte_val b) = b.
Proof.
  unfold byte_of, byte_val. pose proof (Byte.to_N_bounded b).
  rewrite Z.mod_small by lia. rewrite N2Z.id, Byte.of_to_N. done.
Qed.

(** [be_bytes n z] is [to_be_bytes] of the low [8 * n] bits of [z]. *)
Fixpoint be_bytes (n : nat) (z : Z) : bytes :=
  match n with
  | O => []
  | S m => byte_of (z / 256 ^ Z.of_nat m) :: be_bytes m z
  end.

Definition be_acc (acc : Z) (l : bytes) : Z :=
  fold_left (fun a b => a * 256 + byte_val b) l acc.
Definition be_val (l : bytes) : Z := be_acc 0 l.

Lemma length_be_bytes n z : length (be_bytes n z) = n.
Proof. induction n; simpl; auto. Qed.

Lemma be_acc_shift l acc : be_acc acc l = acc * 256 ^ Z.of_nat (length l) + be_val l.
Proof.
  unfold be_val. revert acc. induction l as [|b l IH]; intros acc.
  - simpl. lia.
  - change (be_acc acc (b :: l)) with (be_acc (acc * 256 + byte_val b) l).
    change (be_acc 0 (b :: l)) with (be_acc (0 * 256 + byte_val b) l).
    rewrite IH, (IH (0 * 256 + _)). simpl length.
    rewrite Nat2Z.inj_succ, Z.pow_succ_r by lia. ring.
Qed.

Lemma be_val_cons b l : be_val (b :: l) = byte_val b * 256 ^ Z.of_nat (length l) + be_val l.
Proof.
  unfold be_val at 1. change (be_acc 0 (b :: l)) with (be_acc (0 * 256 + byte_val b) l).
  by rewrite be_acc_shift.
Qed.

Lemma be_val_bytes n z : be_val (be_bytes n z) = z mod 256 ^ Z.of_nat n.
Proof.
  induction n as [|n IH]; [by rewrite Z.mod_1_r|].
  simpl be_bytes. rewrite be_val_cons, IH, byte_val_of, length_be_bytes.
  rewrite Nat2Z.inj_succ, Z.pow_succ_r by lia.
  pose proof (Z.pow_pos_nonneg 256 (Z.of_nat n) ltac:(lia) ltac:(lia)).
  rewrite (Z.mul_comm 256), Z.rem_mul_r by lia. ring.
Qed.

Lemma be_val_range l : 0 <= be_val l < 256 ^ Z.of_nat (length l).
Proof.
  induction l as [|b l IH]; [by vm_compute|].
  rewrite be_val_cons. simpl length. rewrite Nat2Z.inj_succ, Z.pow_succ_r by lia.
  pose proof (byte_val_range b). nia.
Qed.

Lemma be_bytes_val l n : length l = n -> be_bytes n (be_val l) = l.
Proof.
  revert l. induction n as [|n IH]; intros [|b l]; simpl; try done.
  intros [= Hl]. rewrite be_val_cons, Hl.
  pose proof (be_val_range l) as Hr. rewrite Hl in Hr.
  pose proof (byte_val_range b).
  f_equal.
  - pose proof (Z.pow_pos_nonneg 256 (Z.of_nat n) ltac:(lia) ltac:(lia)).
    rewrite Z.div_add_l, Z.div_small by lia. by rewrite Z.add_0_r, byte_of_val.
  - rewrite <- (IH l Hl) at 2.
    assert (Hmod : forall m a c, (m <= n)%nat ->
      be_bytes m (a * 256 ^ Z.of_nat n + c) = be_bytes m c).
    { intros m a c Hm. clear -Hm. induction m as [|m IHm]; simpl; [done|].
      rewrite IHm by lia. f_equal.
      replace n with (S m + (n - S m))%nat by lia.
      rewrite Nat2Z.inj_add, Z.pow_add_r by lia.
      replace (a * (256 ^ Z.of_nat (S m) * 256 ^ Z.of_nat (n - S m)) + c)
        with (c + (a * 256 ^ Z.of_nat (n - S m) * 256) * 256 ^ Z.of_nat m)
        by (rewrite Nat2Z.inj_succ, Z.pow_succ_r by lia; ring).
      rewrite Z.div_add by (apply Z.pow_nonzero; lia). unfold byte_of.
      by rewrite Z.mod_add by lia. }
    by rewrite Hmod.
Qed.

(** * The read cursor: [bytes::Bytes] used through [Buf] *)

Definition remaining (buf : bytes) : Z := Z.of_nat (length buf).

Section Cursor.
Context {E : Type}.

(** [if buf.remaining() < n { return Err(e) }] *)
Definition require (n : Z) (e : E) (buf : bytes) : outcome E () :=
  if remaining buf <? n then Err e else Ok ().

(** [Bytes::split_to(n)]; [Bytes::slice(..n)] followed by [advance(n)]. *)
Definition split_to (n : Z) (buf : bytes) : outcome E (bytes * bytes) :=
  if remaining buf <? n then Panic
  else Ok (firstn (Z.to_nat n) buf, skipn (Z.to_nat n) buf).

Definition advance (n : Z) (buf : bytes) : outcome E bytes :=
  if remaining buf <? n then Panic else Ok (skipn (Z.to_nat n) buf).

(** [buf.slice(..n)]: the cursor does not move. *)
Definition slice_to (n : Z) (buf : bytes) : outcome E bytes :=
  if remaining buf <? n then Panic else Ok (firstn (Z.to_nat n) buf).

Definition get_uint (n : nat) (buf : bytes) : outcome E (Z * bytes) :=
  if remaining buf <? Z.of_nat n then Panic
  else Ok (be_val (firstn n buf), skipn n buf).

Definition get_u32 : bytes -> outcome E (Z * bytes) := get_uint 4.
Definition get_u64 : bytes -> outcome E (Z * bytes) := get_uint 8.
Definition get_i64 (buf : bytes) : outcome E (Z * bytes) :=
  let* (v, buf) := get_u64 buf in Ok (as_i64 v, buf).
End Cursor.

Lemma remaining_nonneg buf : 0 <= remaining buf.
Proof. unfold remaining. lia. Qed.

Lemma remaining_app a b : remaining (a ++ b) = remaining a + remaining b.
Proof. unfold remaining. rewrite length_app. lia. Qed.

Lemma remaining_nil : remaining [] = 0.
Proof. done. Qed.

Lemma remaining_be n z : remaining (be_bytes n z) = Z.of_nat n.
Proof. unfold remaining. by rewrite length_be_bytes. Qed.

Lemma remaining_skipn n buf :
  0 <= n <= remaining buf -> remaining (skipn (Z.to_nat n) buf) = remaining buf - n.
Proof. unfold remaining. rewrite length_skipn. lia. Qed.

Lemma remaining_firstn n buf :
  0 <= n <= remaining buf -> remaining (firstn (Z.to_nat n) buf) = n.
Proof. unfold remaining. rewrite length_firstn. lia. Qed.

Lemma suffix_skipn {A} n (l : list A) : skipn n l `suffix_of` l.
Proof. exists (firstn n l). by rewrite take_drop. Qed.

(** ** Rules of the cursor primitives *)

Create HintDb nfs_wp.
Create Rewrite HintDb nlen.

Section CursorRules.
Context {E : Type}.

Lemma wpo_require n (e : E) buf (Q : () -> Prop) :
  (n <= remaining buf -> Q ()) -> wpo (require n e buf) Q.
Proof. unfold require. intros HQ. destruct (Z.ltb_spec (remaining buf) n); simpl; auto. Qed.

Lemma wpo_get_uint n buf (Q : Z * bytes -> Prop) :
  Z.of_nat n <= remaining buf ->
  (forall v rest, 0 <= v < 256 ^ Z.of_nat n -> rest `suffix_of` buf ->
     remaining rest = remaining buf - Z.of_nat n -> Q (v, rest)) ->
  wpo (@get_uint E n buf) Q.
Proof.
  intros Hn HQ. unfold get_uint. destruct (Z.ltb_spec (remaining buf) (Z.of_nat n)); [lia|].
  simpl. apply HQ.
  - pose proof (be_val_range (firstn n buf)) as H1. rewrite length_firstn in H1.
    unfold remaining in *. rewrite Nat.min_l in H1 by lia. done.
  - apply suffix_skipn.
  - unfold remaining in *. rewrite length_skipn. lia.
Qed.

Lemma wpo_get_u32 buf (Q : Z * bytes -> Prop) :
  4 <= remaining buf ->
  (forall v rest, is_u32 v -> rest `suffix_of` buf ->
     remaining rest = remaining buf - 4 -> Q (v, rest)) ->
  wpo (@get_u32 E buf) Q.
Proof. intros. by apply (wpo_get_uint 4). Qed.

Lemma wpo_get_u64 buf (Q : Z * bytes -> Prop) :
  8 <= remaining buf ->
  (forall v rest, is_u64 v -> rest `suffix_of` buf ->
     remaining rest = remaining buf - 8 -> Q (v, rest)) ->
  wpo (@get_u64 E buf) Q.
Proof. intros. by apply (wpo_get_uint 8). Qed.

Lemma wpo_get_i64 buf (Q : Z * bytes -> Prop) :
  8 <= remaining buf ->
  (forall v rest, - 2 ^ 63 <= v < 2 ^ 63 -> rest `suffix_of` buf ->
     remaining rest = remaining buf - 8 -> Q (v, rest)) ->
  wpo (@get_i64 E buf) Q.
Proof.
  intros H HQ. apply wpo_bind, wpo_get_u64; [done|]. intros v rest Hv Hs Hr.
  simpl. apply HQ; [|done|done]. unfold as_i64. unfold_int.
  destruct (Z.ltb_spec v (2 ^ 63)); lia.
Qed.

Lemma wpo_split_to n buf (Q : bytes * bytes -> Prop) :
  0 <= n <= remaining buf ->
  (forall a rest, buf = a ++ rest -> remaining a = n -> rest `suffix_of` buf ->
     remaining rest = remaining buf - n -> Q (a, rest)) ->
  wpo (@split_to E n buf) Q.
Proof.
  intros Hn HQ. unfold split_to. destruct (Z.ltb_spec (remaining buf) n); [lia|].
  simpl. apply HQ; [by rewrite take_drop|by apply remaining_firstn|apply suffix_skipn|
                    by apply remaining_skipn].
Qed.

Lemma wpo_advance n buf (Q : bytes -> Prop) :
  0 <= n <= remaining buf ->
  (forall rest, rest `suffix_of` buf -> remaining rest = remaining buf - n -> Q rest) ->
  wpo (@advance E n buf) Q.
Proof.
  intros Hn HQ. unfold advance. destruct (Z.ltb_spec (remaining buf) n); [lia|].
  simpl. apply HQ; [apply suffix_skipn|by apply remaining_skipn].
Qed.

Lemma wpo_slice_to n buf (Q : bytes -> Prop) :
  0 <= n <= remaining buf ->
  (forall a, a `prefix_of` buf -> remaining a = n -> Q a) ->
  wpo (@slice_to E n buf) Q.
Proof.
  intros Hn HQ. unfold slice_to. destruct (Z.ltb_spec (remaining buf) n); [lia|].
  simpl. apply HQ; [apply prefix_take|by apply remaining_firstn].
Qed.

(** Reading back what a writer produced. *)
Lemma require_ok n (e : E) buf : n <= remaining buf -> require n e buf = Ok ().
Proof. unfold require. intros ?. destruct (Z.ltb_spec (remaining buf) n); [lia|done]. Qed.

Lemma get_uint_be n v rest :
  0 <= v < 256 ^ Z.of_nat n -> @get_uint E n (be_bytes n v ++ rest) = Ok (v, rest).
Proof.
  intros Hv. unfold get_uint.
  destruct (Z.ltb_spec (remaining (be_bytes n v ++ rest)) (Z.of_nat n)) as [H|_].
  { rewrite remaining_app, remaining_be in H. pose proof (remaining_nonneg rest). lia. }
  rewrite take_app_length', drop_app_length' by (by rewrite length_be_bytes).
  by rewrite be_val_bytes, Z.mod_small.
Qed.

Lemma get_u32_be v rest : is_u32 v -> @get_u32 E (be_bytes 4 v ++ rest) = Ok (v, rest).
Proof. intros. by apply get_uint_be. Qed.

Lemma get_u64_be v rest : is_u64 v -> @get_u64 E (be_bytes 8 v ++ rest) = Ok (v, rest).
Proof. intros. by apply get_uint_be. Qed.

Lemma get_i64_be v rest :
  - 2 ^ 63 <= v < 2 ^ 63 -> @get_i64 E (be_bytes 8 v ++ rest) = Ok (v, rest).
Proof.
  intros Hv. unfold get_i64, get_u64, get_uint.
  destruct (Z.ltb_spec (remaining (be_bytes 8 v ++ rest)) (Z.of_nat 8)) as [H|_].
  { rewrite remaining_app, remaining_be in H. pose proof (remaining_nonneg rest). lia. }
  rewrite take_app_length', drop_app_length' by (by rewrite length_be_bytes).
  rewrite be_val_bytes. change (256 ^ Z.of_nat 8) with (2 ^ 64). cbn [obind]. unfold as_i64.
  do 2 f_equal. destruct (Z.ltb_spec (v mod 2 ^ 64) (2 ^ 63)); Z.to_euclidean_division_equations; lia.
Qed.

Lemma split_to_app n a b : remaining a = n -> @split_to E n (a ++ b) = Ok (a, b).
Proof.
  intros <-. unfold split_to.
  destruct (Z.ltb_spec (remaining (a ++ b)) (remaining a)) as [H|_].
  { rewrite remaining_app in H. pose proof (remaining_nonneg b). lia. }
  unfold remaining. rewrite Nat2Z.id, take_app_length, drop_app_length. done.
Qed.

Lemma advance_app n a b : remaining a = n -> @advance E n (a ++ b) = Ok b.
Proof.
  intros <-. unfold advance.
  destruct (Z.ltb_spec (remaining (a ++ b)) (remaining a)) as [H|_].
  { rewrite remaining_app in H. pose proof (remaining_nonneg b). lia. }
  unfold remaining. by rewrite Nat2Z.id, drop_app_length.
Qed.

Lemma slice_to_app n a b : remaining a = n -> @slice_to E n (a ++ b) = Ok a.
Proof.
  intros <-. unfold slice_to.
  destruct (Z.ltb_spec (remaining (a ++ b)) (remaining a)) as [H|_].
  { rewrite remaining_app in H. pose proof (remaining_nonneg b). lia. }
  unfold remaining. by rewrite Nat2Z.id, take_app_length.
Qed.
End CursorRules.

(** ** XDR padding *)

(** [(len + 3) & !3], the decoders' rounding of an opaque length read as a
    [u32] and widened to a 64-bit [usize]. *)
Definition padded (len : Z) : Z := Z.land (len + 3) (Z.lnot 3).

(** [(4 - len % 4) % 4], the encoders' count of zero bytes. *)
Definition pad_len (len : Z) : Z := (4 - len mod 4) mod 4.

Definition zeros (n : Z) : bytes := replicate (Z.to_nat n) x00.

Lemma padded_alt len : padded len = (len + 3) / 4 * 4.
Proof.
  unfold padded. rewrite <- Z.ldiff_land. change 3 with (Z.ones 2) at 2.
  rewrite Z.ldiff_ones_r, Z.shiftr_div_pow2, Z.shiftl_mul_pow2 by lia. done.
Qed.

Lemma padded_pad_len len : padded len = len + pad_len len.
Proof. rewrite padded_alt. unfold pad_len. Z.to_euclidean_division_equations; lia. Qed.

Lemma pad_len_range len : 0 <= pad_len len < 4.
Proof. unfold pad_len. Z.to_euclidean_division_equations; lia. Qed.

Lemma padded_ge len : len <= padded len < len + 4.
Proof. rewrite padded_pad_len. pose proof (pad_len_range len). lia. Qed.

Lemma remaining_zeros n : 0 <= n -> remaining (zeros n) = n.
Proof. intros. unfold remaining, zeros. rewrite length_replicate. lia. Qed.

#[global] Opaque padded pad_len.

(** * Bounded loops *)

(** [for _ in 0..n { s = body(s)?; }] over a machine integer. Recursion on the
    binary representation leaves at the first error, as [?] does. *)
Section Loops.
Context {E S : Type}.

Fixpoint loop_nat (n : nat) (body : S -> outcome E S) (s : S) : outcome E S :=
  match n with
  | O => Ok s
  | Datatypes.S m => let* s := body s in loop_nat m body s
  end.

Fixpoint loop_pos (p : positive) (body : S -> outcome E S) (s : S) : outcome E S :=
  match p with
  | xH => body s
  | xO q => let* s := loop_pos q body s in loop_pos q body s
  | xI q => let* s := body s in let* s := loop_pos q body s in loop_pos q body s
  end.

Definition for_count (n : Z) (body : S -> outcome E S) (s : S) : outcome E S :=
  match n with
  | Zpos p => loop_pos p body s
  | _ => Ok s
  end.

Lemma loop_nat_add a b body s :
  loop_nat (a + b) body s = let* s := loop_nat a body s in loop_nat b body s.
Proof.
  revert s. induction a as [|a IH]; intros s; simpl; [done|].
  destruct (body s); simpl; auto.
Qed.

Lemma loop_pos_nat p body s : loop_pos p body s = loop_nat (Pos.to_nat p) body s.
Proof.
  revert s. induction p as [p IH|p IH|]; intros s; cbn [loop_pos].
  - rewrite Pos2Nat.inj_xI. cbn [loop_nat]. destruct (body s) as [s'|e|]; cbn [obind]; try done.
    rewrite IH. replace (2 * Pos.to_nat p)%nat with (Pos.to_nat p + Pos.to_nat p)%nat by lia.
    rewrite loop_nat_add. destruct (loop_nat _ _ _); cbn [obind]; auto.
  - rewrite IH, Pos2Nat.inj_xO.
    replace (2 * Pos.to_nat p)%nat with (Pos.to_nat p + Pos.to_nat p)%nat by lia.
    rewrite loop_nat_add. destruct (loop_nat _ _ _); cbn [obind]; auto.
  - change (Pos.to_nat 1) with 1%nat. cbn [loop_nat]. by destruct (body s).
Qed.

Lemma for_count_nat n body s : for_count n body s = loop_nat (Z.to_nat n) body s.
Proof. destruct n; cbn; [done| |done]. apply loop_pos_nat. Qed.

(** Loop rule: [I] is an invariant of the body. *)
Lemma wpo_for_count n body (I : S -> Prop) s (Q : S -> Prop) :
  I s -> (forall s, I s -> wpo (body s) I) -> (forall s, I s -> Q s) ->
  wpo (for_count n body s) Q.
Proof.
  intros HI Hb HQ. rewrite for_count_nat. revert s HI.
  induction (Z.to_nat n) as [|m IH]; intros s HI; simpl; [auto|].
  apply wpo_bind. eapply wpo_mono; [by apply Hb|]. auto.
Qed.
End Loops.

(** Skipping a sequence of encoded items. *)
Lemma for_count_skip {E A} (enc : A -> bytes) (f : bytes -> outcome E bytes) l rest :
  (forall a rest, In a l -> f (enc a ++ rest) = Ok rest) ->
  for_count (Z.of_nat (length l)) f (concat (map enc l) ++ rest) = Ok rest.
Proof.
  intros Hf. rewrite for_count_nat, Nat2Z.id. induction l as [|a l IH]; simpl; [done|].
  rewrite <- app_assoc, Hf by (by left). cbn [obind]. apply IH. intros; apply Hf; by right.
Qed.

(** [for _ in 0..n { v.push(item(buf)?); }] *)
Definition collect {E A : Type} (n : Z) (item : bytes -> outcome E (A * bytes)) (buf : bytes)
    : outcome E (list A * bytes) :=
  for_count n (fun '(acc, buf) => let* (a, buf) := item buf in Ok (acc ++ [a], buf)) ([], buf).

Section Collect.
Context {E A : Type}.

Lemma collect_nat n (item : bytes -> outcome E (A * bytes)) buf :
  collect n item buf =
  loop_nat (Z.to_nat n) (fun '(acc, buf) => let* (a, buf) := item buf in Ok (acc ++ [a], buf))
    ([], buf).
Proof. apply for_count_nat. Qed.

(** Reading back a sequence of encoded items. *)
Lemma collect_encoded (enc : A -> bytes) (item : bytes -> outcome E (A * bytes)) l rest :
  (forall a rest, In a l -> item (enc a ++ rest) = Ok (a, rest)) ->
  collect (Z.of_nat (length l)) item (concat (map enc l) ++ rest) = Ok (l, rest).
Proof.
  intros Hitem. rewrite collect_nat, Nat2Z.id.
  enough (Hgen : forall acc, loop_nat (length l) (fun '(acc, buf) =>
      let* (a, buf) := item buf in Ok (acc ++ [a], buf))
      (acc, concat (map enc l) ++ rest) = Ok (acc ++ l, rest)) by apply (Hgen []).
  revert Hitem. induction l as [|a l IH]; intros Hitem acc; simpl.
  - by rewrite app_nil_r.
  - rewrite <- app_assoc, Hitem by (by left). cbn [obind].
    rewrite IH by (intros; apply Hitem; by right). by rewrite <- app_assoc.
Qed.

Lemma wpo_collect n (item : bytes -> outcome E (A * bytes)) (P : A -> Prop) buf
    (Q : list A * bytes -> Prop) :
  (forall b, b `suffix_of` buf ->
     wpo (item b) (fun '(a, rest) => P a /\ rest `suffix_of` b)) ->
  (forall l rest, Forall P l -> rest `suffix_of` buf -> Q (l, rest)) ->
  wpo (collect n item buf) Q.
Proof.
  intros Hitem HQ. unfold collect.
  apply wpo_for_count with (I := fun '(l, b) => Forall P l /\ b `suffix_of` buf).
  - split; [constructor|done].
  - intros [l b] [HP Hb]. apply wpo_bind. eapply wpo_mono; [by apply Hitem|].
    intros [a rest] [Ha Hr]. simpl. split.
    + apply Forall_app; auto.
    + by etrans.
  - intros [l b] [? ?]. auto.
Qed.

Lemma collect_length n (item : bytes -> outcome E (A * bytes)) buf l rest :
  0 <= n -> collect n item buf = Ok (l, rest) -> Z.of_nat (length l) = n.
Proof.
  intros Hn. rewrite collect_nat.
  assert (Hgen : forall m acc b, loop_nat m (fun '(acc, buf) =>
      let* (a, buf) := item buf in Ok (acc ++ [a], buf)) (acc, b) = Ok (l, rest) ->
      length l = (length acc + m)%nat).
  { induction m as [|m IH]; intros acc b; simpl.
    - intros [= <- _]. lia.
    - destruct (item b) as [[a b']|e|]; simpl; try done.
      intros H. apply IH in H. rewrite length_app in H. simpl in H. lia. }
  intros H. apply Hgen in H. simpl in H. lia.
Qed.
End Collect.

(** * Automation for the wire codecs *)

Lemma suffix_trans' {A} (a b c : list A) : a `suffix_of` b -> b `suffix_of` c -> a `suffix_of` c.
Proof. intros. by etrans. Qed.

#[export] Hint Rewrite @length_app @length_be_bytes @length_skipn @length_firstn
  @length_replicate @length_map @length_nil @length_cons : nlen.

(** Linear arithmetic over buffer lengths and machine integers. *)
Ltac rlia :=
  unfold remaining in *; unfold_int; autorewrite with nlen in *; simpl in *; lia.

Ltac suffix_chain :=
  match goal with
  | H : ?a `suffix_of` ?c |- ?a `suffix_of` ?c => exact H
  | |- ?a `suffix_of` ?a => reflexivity
  | |- skipn _ ?a `suffix_of` ?a => apply suffix_skipn
  | H : ?a `suffix_of` _ |- ?a `suffix_of` _ => apply (suffix_trans' _ _ _ H); suffix_chain
  end.
Ltac suffix_tac := cbv beta in *; solve [suffix_chain | eauto using suffix_trans' with nfs_wp].

#[export] Hint Resolve suffix_skipn : nfs_wp.
#[export] Hint Extern 1 (_ `suffix_of` _) => reflexivity : nfs_wp.

Ltac wp_side := first [ done | rlia ].

(** One structural step of a [wpo] goal. *)
Ltac wp_step :=
  lazymatch goal with
  | |- wpo (obind _ _) _ => apply wpo_bind
  | |- wpo (Ok _) _ => apply wpo_ret
  | |- wpo (Err _) _ => exact I
  | |- wpo (require _ _ _) _ => apply wpo_require; intros ?
  | |- wpo (get_u32 _) _ => apply wpo_get_u32; [wp_side|intros ? ? ? ? ?]
  | |- wpo (get_u64 _) _ => apply wpo_get_u64; [wp_side|intros ? ? ? ? ?]
  | |- wpo (get_i64 _) _ => apply wpo_get_i64; [wp_side|intros ? ? ? ? ?]
  | |- wpo (split_to _ _) _ => apply wpo_split_to; [wp_side|intros ? ? ? ? ? ?]
  | |- wpo (advance _ _) _ => apply wpo_advance; [wp_side|intros ? ? ?]
  | |- wpo (slice_to _ _) _ => apply wpo_slice_to; [wp_side|intros ? ? ?]
  | |- wpo (map_err _ _) _ => apply wpo_map_err
  | |- wpo (if _ then _ else _) _ => apply wpo_if; intros ?
  | |- wpo (match ?x with Some _ => _ | None => _ end) _ => destruct x eqn:?
  | |- wpo (let _ := _ in _) _ => cbv zeta
  | |- wpo ((fun _ => _) _) _ => cbv beta
  | |- wpo (match ?x with pair _ _ => _ end) _ => destruct x
  end.
Ltac wp := repeat (wp_step; cbv beta iota).

(** Turn boolean tests recorded by [wp] into propositions. *)
Ltac bool_hyps :=
  repeat match goal with
  | H : (_ <? _) = true |- _ => apply Z.ltb_lt in H
  | H : (_ <? _) = false |- _ => apply Z.ltb_ge in H
  | H : (_ <=? _) = true |- _ => apply Z.leb_le in H
  | H : (_ <=? _) = false |- _ => apply Z.leb_gt in H
  | H : (_ =? _) = true |- _ => apply Z.eqb_eq in H
  | H : (_ =? _) = false |- _ => apply Z.eqb_neq in H
  | H : negb _ = true |- _ => apply negb_true_iff in H
  | H : negb _ = false |- _ => apply negb_false_iff in H
  | H : (_ || _) = false |- _ => apply orb_false_iff in H as [? ?]
  | H : (_ && _) = true |- _ => apply andb_true_iff in H as [? ?]
  end.

(** [wp] followed by a known specification [H] of the next call. *)
Ltac wp_call H := eapply wpo_mono; [eapply H|].

(** Reduce reads from concrete encodings. *)
Ltac wire_side := first [ done | rlia ].
Ltac wire_step :=
  first
    [ rewrite require_ok by wire_side
    | rewrite get_u32_be by wire_side
    | rewrite get_u64_be by wire_side
    | rewrite split_to_app by wire_side
    | rewrite advance_app by wire_side
    | rewrite slice_to_app by wire_side ];
  cbn [obind].
Ltac wire := rewrite <- ?app_assoc; repeat (wire_step; rewrite <- ?app_assoc).

(** * Decimal text: [u32::to_string], [str::parse::<u32>] and [format!] *)

Fixpoint dec_rev (fuel : nat) (z : Z) : bytes :=
  match fuel with
  | O => []
  | S f => byte_of (48 + z mod 10) :: (if z <? 10 then [] else dec_rev f (z / 10))
  end.

(** Twenty digits hold every [u64]. *)
Definition dec (z : Z) : bytes := rev (dec_rev 20 z).

Definition digit_of (b : byte) : option Z :=
  let v := byte_val b - 48 in if (0 <=? v) && (v <=? 9) then Some v else None.

Fixpoint parse_digits (max acc : Z) (s : bytes) : option Z :=
  match s with
  | [] => Some acc
  | b :: s =>
      match digit_of b with
      | Some d => if acc * 10 + d <=? max then parse_digits max (acc * 10 + d) s else None
      | None => None
      end
  end.

(** [s.parse::<uN>()] for an unsigned type with the given maximum: an optional
    leading [+], then at least one decimal digit, without overflow. *)
Definition parse_unsigned (max : Z) (s : bytes) : option Z :=
  match s with
  | [] => None
  | x2b :: [] => None
  | x2b :: ds => parse_digits max 0 ds
  | ds => parse_digits max 0 ds
  end.
Definition parse_u32 : bytes -> option Z := parse_unsigned u32_max.
Definition parse_u8 : bytes -> option Z := parse_unsigned 255.

Definition to_str (s : bytes) : string := String.string_of_list_byte s.
Definition of_str (s : string) : bytes := String.list_byte_of_string s.
Definition fmtZ (z : Z) : string := to_str (dec z).

Lemma digit_of_digit d : 0 <= d <= 9 -> digit_of (byte_of (48 + d)) = Some d.
Proof.
  intros Hd. unfold digit_of. rewrite byte_val_of, Z.mod_small by lia.
  destruct (Z.leb_spec 0 (48 + d - 48)), (Z.leb_spec (48 + d - 48) 9); simpl; try lia.
  f_equal. lia.
Qed.

Lemma dec_rev_digits fuel z : Forall (fun b => digit_of b <> None) (dec_rev fuel z).
Proof.
  revert z. induction fuel as [|f IH]; intros z; simpl; constructor.
  - rewrite digit_of_digit; [done|]. pose proof (Z.mod_pos_bound z 10). lia.
  - destruct (z <? 10); [constructor|apply IH].
Qed.

Lemma parse_dec_rev max fuel z tail :
  0 <= z <= max -> z < 10 ^ Z.of_nat fuel ->
  parse_digits max 0 (rev (dec_rev fuel z) ++ tail) = parse_digits max z tail.
Proof.
  revert z tail. induction fuel as [|f IH]; intros z tail Hz Hf.
  { change (10 ^ Z.of_nat 0) with 1 in Hf. replace z with 0 by lia. done. }
  rewrite Nat2Z.inj_succ, Z.pow_succ_r in Hf by lia.
  pose proof (Z.div_mod z 10 ltac:(lia)) as Hdm.
  pose proof (Z.mod_pos_bound z 10 ltac:(lia)) as Hm.
  assert (Hlast : forall q, q * 10 + z mod 10 = z ->
    parse_digits max q (byte_of (48 + z mod 10) :: tail) = parse_digits max z tail).
  { intros q Hq. simpl. rewrite digit_of_digit by lia. rewrite Hq.
    destruct (Z.leb_spec z max); [done|lia]. }
  cbn [dec_rev]. destruct (Z.ltb_spec z 10) as [Hlt|Hge]; cbn [rev].
  - apply Hlast. lia.
  - rewrite <- app_assoc, IH.
    + apply Hlast. lia.
    + split; [apply Z.div_pos; lia|]. nia.
    + apply Z.div_lt_upper_bound; lia.
Qed.

Lemma parse_unsigned_digit max b ds :
  digit_of b <> None -> parse_unsigned max (b :: ds) = parse_digits max 0 (b :: ds).
Proof. intros H. destruct b; try reflexivity. by destruct H. Qed.

(** Printing a number and parsing it back is the identity. *)
Lemma parse_unsigned_dec max z :
  0 <= z <= max -> max <= u64_max -> parse_unsigned max (dec z) = Some z.
Proof.
  intros Hz Hmax. pose proof (dec_rev_digits 20 z) as Hd.
  pose proof (parse_dec_rev max 20 z [] Hz ltac:(unfold u64_max in *; lia)) as Hp.
  rewrite app_nil_r in Hp. unfold dec.
  destruct (rev (dec_rev 20 z)) as [|b ds] eqn:E.
  { apply (f_equal length) in E. rewrite length_rev in E. done. }
  rewrite parse_unsigned_digit; [exact Hp|].
  apply Forall_rev in Hd. rewrite E in Hd. by inversion Hd.
Qed.

(** * UTF-8 validation: [String::from_utf8], [std::str::from_utf8] *)

Definition in_range (lo hi : Z) (b : byte) : bool := (lo <=? byte_val b) && (byte_val b <=? hi).
Definition cont_byte : byte -> bool := in_range 0x80 0xBF.

Fixpoint utf8_valid (s : bytes) : bool :=
  match s with
  | [] => true
  | b :: s1 =>
      if in_range 0x00 0x7F b then utf8_valid s1
      else match s1 with
      | [] => false
      | c1 :: s2 =>
          if in_range 0xC2 0xDF b then cont_byte c1 && utf8_valid s2
          else match s2 with
          | [] => false
          | c2 :: s3 =>
              if in_range 0xE0 0xEF b then
                (if in_range 0xE0 0xE0 b then in_range 0xA0 0xBF c1
                 else if in_range 0xED 0xED b then in_range 0x80 0x9F c1
                 else cont_byte c1) && cont_byte c2 && utf8_valid s3
              else match s3 with
              | [] => false
              | c3 :: s4 =>
                  in_range 0xF0 0xF4 b &&
                  (if in_range 0xF0 0xF0 b then in_range 0x90 0xBF c1
                   else if in_range 0xF4 0xF4 b then in_range 0x80 0x8F c1
                   else cont_byte c1) && cont_byte c2 && cont_byte c3 && utf8_valid s4
              end
          end
      end
  end.

Lemma utf8_valid_ascii s : Forall (fun b => byte_val b <= 127) s -> utf8_valid s = true.
Proof.
  induction 1 as [|b s Hb _ IH]; [done|].
  cbn [utf8_valid]. unfold in_range at 1.
  pose proof (byte_val_range b).
  destruct (Z.leb_spec 0 (byte_val b)), (Z.leb_spec (byte_val b) 127); simpl; try lia. done.
Qed.

Lemma dec_ascii z : Forall (fun b => byte_val b <= 127) (dec z).
Proof.
  unfold dec. apply Forall_rev. eapply Forall_impl; [apply dec_rev_digits|].
  intros b Hb. unfold digit_of in Hb.
  destruct (Z.leb_spec 0 (byte_val b - 48)), (Z.leb_spec (byte_val b - 48) 9);
    simpl in Hb; try done. lia.
Qed.

(** ** Sums over the elements of a list *)

Definition wsum {A : Type} (f : A -> Z) (l : list A) : Z := foldr (fun p a => f p + a) 0 l.

Lemma wsum_cons {A} (f : A -> Z) x l : wsum f (x :: l) = f x + wsum f l.
Proof. done. Qed.
Lemma wsum_app {A} (f : A -> Z) a b : wsum f (a ++ b) = wsum f a + wsum f b.
Proof. induction a as [|x a IH]; [done|]. rewrite <- app_comm_cons, !wsum_cons, IH. lia. Qed.
Lemma wsum_map {A} (f : A -> Z) (g : A -> A) l : (forall x, f (g x) = f x) -> wsum f (map g l) = wsum f l.
Proof. intros H. induction l as [|x l IH]; [done|]. cbn [map]. by rewrite !wsum_cons, IH, H. Qed.
Lemma wsum_nonneg {A} (f : A -> Z) l : (forall x, 0 <= f x) -> 0 <= wsum f l.
Proof. intros H. induction l as [|x l IH]; [done|]. rewrite wsum_cons. specialize (H x). lia. Qed.
Lemma wsum_le {A} (f g : A -> Z) l : (forall x, f x <= g x) -> wsum f l <= wsum g l.
Proof. intros H. induction l as [|x l IH]; [done|]. rewrite !wsum_cons. specialize (H x). lia. Qed.
Lemma wsum_elem {A} (f : A -> Z) x l : (forall x, 0 <= f x) -> x ∈ l -> f x <= wsum f l.
Proof.
  intros H (a & b & ->)%list_elem_of_split. rewrite wsum_app, wsum_cons.
  pose proof (wsum_nonneg f a H). pose proof (wsum_nonneg f b H). lia.
Qed.
Lemma wsum_pos {A} (f : A -> Z) l : (forall x, 0 <= f x) -> 0 < wsum f l -> exists x, x ∈ l /\ 0 < f x.
Proof.
  intros H. induction l as [|x l IH]; [done|]. rewrite wsum_cons. intros Hp. destruct (decide (0 < f x)).
  - exists x. split; [by left|done].
  - destruct IH as (y & ? & ?); [specialize (H x); lia|]. exists y. split; [by right|done].
Qed.
