(* ===== verification/Errors.v ===== *)
(** * Status codes and structured errors

    Models [src/src/nfs4/xdr/nfs4.x] (the [nfsstat4] registry) and
    [src/src/error.rs]: the [NfsError] type, the send-boundary evidence it
    carries, the server-busy and connection-lost tests, and the classification
    of a failed request by retry safety. *)
From S2P Require Import Prelude.
From stdpp Require Import base list numbers strings.
#[local] Open Scope Z_scope.

(** ** The [nfsstat4] registry *)

Module Nfsstat4.

Inductive nfsstat4 : Type :=
| NFS4_OK
| NFS4ERR_PERM
| NFS4ERR_NOENT
| NFS4ERR_IO
| NFS4ERR_NXIO
| NFS4ERR_ACCESS
| NFS4ERR_EXIST
| NFS4ERR_XDEV
| NFS4ERR_NOTDIR
| NFS4ERR_ISDIR
| NFS4ERR_INVAL
| NFS4ERR_FBIG
| NFS4ERR_NOSPC
| NFS4ERR_ROFS
| NFS4ERR_MLINK
| NFS4ERR_NAMETOOLONG
| NFS4ERR_NOTEMPTY
| NFS4ERR_DQUOT
| NFS4ERR_STALE
| NFS4ERR_BADHANDLE
| NFS4ERR_BAD_COOKIE
| NFS4ERR_NOTSUPP
| NFS4ERR_TOOSMALL
| NFS4ERR_SERVERFAULT
| NFS4ERR_BADTYPE
| NFS4ERR_DELAY
| NFS4ERR_SAME
| NFS4ERR_DENIED
| NFS4ERR_EXPIRED
| NFS4ERR_LOCKED
| NFS4ERR_GRACE
| NFS4ERR_FHEXPIRED
| NFS4ERR_SHARE_DENIED
| NFS4ERR_WRONGSEC
| NFS4ERR_CLID_INUSE
| NFS4ERR_MOVED
| NFS4ERR_NOFILEHANDLE
| NFS4ERR_MINOR_VERS_MISMATCH
| NFS4ERR_STALE_CLIENTID
| NFS4ERR_STALE_STATEID
| NFS4ERR_OLD_STATEID
| NFS4ERR_BAD_STATEID
| NFS4ERR_BAD_SEQID
| NFS4ERR_NOT_SAME
| NFS4ERR_LOCK_RANGE
| NFS4ERR_SYMLINK
| NFS4ERR_RESTOREFH
| NFS4ERR_LEASE_MOVED
| NFS4ERR_ATTRNOTSUPP
| NFS4ERR_NO_GRACE
| NFS4ERR_RECLAIM_BAD
| NFS4ERR_RECLAIM_CONFLICT
| NFS4ERR_BADXDR
| NFS4ERR_LOCKS_HELD
| NFS4ERR_OPENMODE
| NFS4ERR_BADOWNER
| NFS4ERR_BADCHAR
| NFS4ERR_BADNAME
| NFS4ERR_BAD_RANGE
| NFS4ERR_LOCK_NOTSUPP
| NFS4ERR_OP_ILLEGAL
| NFS4ERR_DEADLOCK
| NFS4ERR_FILE_OPEN
| NFS4ERR_ADMIN_REVOKED
| NFS4ERR_CB_PATH_DOWN
| NFS4ERR_BADIOMODE
| NFS4ERR_BADLAYOUT
| NFS4ERR_BAD_SESSION_DIGEST
| NFS4ERR_BADSESSION
| NFS4ERR_BADSLOT
| NFS4ERR_COMPLETE_ALREADY
| NFS4ERR_CONN_NOT_BOUND_TO_SESSION
| NFS4ERR_DELEG_ALREADY_WANTED
| NFS4ERR_BACK_CHAN_BUSY
| NFS4ERR_LAYOUTTRYLATER
| NFS4ERR_LAYOUTUNAVAILABLE
| NFS4ERR_NOMATCHING_LAYOUT
| NFS4ERR_RECALLCONFLICT
| NFS4ERR_UNKNOWN_LAYOUTTYPE
| NFS4ERR_SEQ_MISORDERED
| NFS4ERR_SEQUENCE_POS
| NFS4ERR_REQ_TOO_BIG
| NFS4ERR_REP_TOO_BIG
| NFS4ERR_REP_TOO_BIG_TO_CACHE
| NFS4ERR_RETRY_UNCACHED_REP
| NFS4ERR_UNSAFE_COMPOUND
| NFS4ERR_TOO_MANY_OPS
| NFS4ERR_OP_NOT_IN_SESSION
| NFS4ERR_HASH_ALG_UNSUPP
| NFS4ERR_CLIENTID_BUSY
| NFS4ERR_PNFS_IO_HOLE
| NFS4ERR_SEQ_FALSE_RETRY
| NFS4ERR_BAD_HIGH_SLOT
| NFS4ERR_DEADSESSION
| NFS4ERR_ENCR_ALG_UNSUPP
| NFS4ERR_PNFS_NO_LAYOUT
| NFS4ERR_NOT_ONLY_OP
| NFS4ERR_WRONG_CRED
| NFS4ERR_WRONG_TYPE
| NFS4ERR_DIRDELEG_UNAVAIL
| NFS4ERR_REJECT_DELEG
| NFS4ERR_RETURNCONFLICT
| NFS4ERR_DELEG_REVOKED
| NFS4ERR_PARTNER_NOTSUPP
| NFS4ERR_PARTNER_NO_AUTH
| NFS4ERR_UNION_NOTSUPP
| NFS4ERR_OFFLOAD_DENIED
| NFS4ERR_WRONG_LFS
| NFS4ERR_BADLABEL
| NFS4ERR_OFFLOAD_NO_REQS
| NFS4ERR_NOXATTR
| NFS4ERR_XATTR2BIG.

Definition to_u32 (s : nfsstat4) : Z :=
  match s with
  | NFS4_OK => 0
  | NFS4ERR_PERM => 1
  | NFS4ERR_NOENT => 2
  | NFS4ERR_IO => 5
  | NFS4ERR_NXIO => 6
  | NFS4ERR_ACCESS => 13
  | NFS4ERR_EXIST => 17
  | NFS4ERR_XDEV => 18
  | NFS4ERR_NOTDIR => 20
  | NFS4ERR_ISDIR => 21
  | NFS4ERR_INVAL => 22
  | NFS4ERR_FBIG => 27
  | NFS4ERR_NOSPC => 28
  | NFS4ERR_ROFS => 30
  | NFS4ERR_MLINK => 31
  | NFS4ERR_NAMETOOLONG => 63
  | NFS4ERR_NOTEMPTY => 66
  | NFS4ERR_DQUOT => 69
  | NFS4ERR_STALE => 70
  | NFS4ERR_BADHANDLE => 10001
  | NFS4ERR_BAD_COOKIE => 10003
  | NFS4ERR_NOTSUPP => 10004
  | NFS4ERR_TOOSMALL => 10005
  | NFS4ERR_SERVERFAULT => 10006
  | NFS4ERR_BADTYPE => 10007
  | NFS4ERR_DELAY => 10008
  | NFS4ERR_SAME => 10009
  | NFS4ERR_DENIED => 10010
  | NFS4ERR_EXPIRED => 10011
  | NFS4ERR_LOCKED => 10012
  | NFS4ERR_GRACE => 10013
  | NFS4ERR_FHEXPIRED => 10014
  | NFS4ERR_SHARE_DENIED => 10015
  | NFS4ERR_WRONGSEC => 10016
  | NFS4ERR_CLID_INUSE => 10017
  | NFS4ERR_MOVED => 10019
  | NFS4ERR_NOFILEHANDLE => 10020
  | NFS4ERR_MINOR_VERS_MISMATCH => 10021
  | NFS4ERR_STALE_CLIENTID => 10022
  | NFS4ERR_STALE_STATEID => 10023
  | NFS4ERR_OLD_STATEID => 10024
  | NFS4ERR_BAD_STATEID => 10025
  | NFS4ERR_BAD_SEQID => 10026
  | NFS4ERR_NOT_SAME => 10027
  | NFS4ERR_LOCK_RANGE => 10028
  | NFS4ERR_SYMLINK => 10029
  | NFS4ERR_RESTOREFH => 10030
  | NFS4ERR_LEASE_MOVED => 10031
  | NFS4ERR_ATTRNOTSUPP => 10032
  | NFS4ERR_NO_GRACE => 10033
  | NFS4ERR_RECLAIM_BAD => 10034
  | NFS4ERR_RECLAIM_CONFLICT => 10035
  | NFS4ERR_BADXDR => 10036
  | NFS4ERR_LOCKS_HELD => 10037
  | NFS4ERR_OPENMODE => 10038
  | NFS4ERR_BADOWNER => 10039
  | NFS4ERR_BADCHAR => 10040
  | NFS4ERR_BADNAME => 10041
  | NFS4ERR_BAD_RANGE => 10042
  | NFS4ERR_LOCK_NOTSUPP => 10043
  | NFS4ERR_OP_ILLEGAL => 10044
  | NFS4ERR_DEADLOCK => 10045
  | NFS4ERR_FILE_OPEN => 10046
  | NFS4ERR_ADMIN_REVOKED => 10047
  | NFS4ERR_CB_PATH_DOWN => 10048
  | NFS4ERR_BADIOMODE => 10049
  | NFS4ERR_BADLAYOUT => 10050
  | NFS4ERR_BAD_SESSION_DIGEST => 10051
  | NFS4ERR_BADSESSION => 10052
  | NFS4ERR_BADSLOT => 10053
  | NFS4ERR_COMPLETE_ALREADY => 10054
  | NFS4ERR_CONN_NOT_BOUND_TO_SESSION => 10055
  | NFS4ERR_DELEG_ALREADY_WANTED => 10056
  | NFS4ERR_BACK_CHAN_BUSY => 10057
  | NFS4ERR_LAYOUTTRYLATER => 10058
  | NFS4ERR_LAYOUTUNAVAILABLE => 10059
  | NFS4ERR_NOMATCHING_LAYOUT => 10060
  | NFS4ERR_RECALLCONFLICT => 10061
  | NFS4ERR_UNKNOWN_LAYOUTTYPE => 10062
  | NFS4ERR_SEQ_MISORDERED => 10063
  | NFS4ERR_SEQUENCE_POS => 10064
  | NFS4ERR_REQ_TOO_BIG => 10065
  | NFS4ERR_REP_TOO_BIG => 10066
  | NFS4ERR_REP_TOO_BIG_TO_CACHE => 10067
  | NFS4ERR_RETRY_UNCACHED_REP => 10068
  | NFS4ERR_UNSAFE_COMPOUND => 10069
  | NFS4ERR_TOO_MANY_OPS => 10070
  | NFS4ERR_OP_NOT_IN_SESSION => 10071
  | NFS4ERR_HASH_ALG_UNSUPP => 10072
  | NFS4ERR_CLIENTID_BUSY => 10074
  | NFS4ERR_PNFS_IO_HOLE => 10075
  | NFS4ERR_SEQ_FALSE_RETRY => 10076
  | NFS4ERR_BAD_HIGH_SLOT => 10077
  | NFS4ERR_DEADSESSION => 10078
  | NFS4ERR_ENCR_ALG_UNSUPP => 10079
  | NFS4ERR_PNFS_NO_LAYOUT => 10080
  | NFS4ERR_NOT_ONLY_OP => 10081
  | NFS4ERR_WRONG_CRED => 10082
  | NFS4ERR_WRONG_TYPE => 10083
  | NFS4ERR_DIRDELEG_UNAVAIL => 10084
  | NFS4ERR_REJECT_DELEG => 10085
  | NFS4ERR_RETURNCONFLICT => 10086
  | NFS4ERR_DELEG_REVOKED => 10087
  | NFS4ERR_PARTNER_NOTSUPP => 10088
  | NFS4ERR_PARTNER_NO_AUTH => 10089
  | NFS4ERR_UNION_NOTSUPP => 10090
  | NFS4ERR_OFFLOAD_DENIED => 10091
  | NFS4ERR_WRONG_LFS => 10092
  | NFS4ERR_BADLABEL => 10093
  | NFS4ERR_OFFLOAD_NO_REQS => 10094
  | NFS4ERR_NOXATTR => 10095
  | NFS4ERR_XATTR2BIG => 10096
  end.

(** The XDR enum decoder: an unregistered discriminant is rejected. *)
Definition try_from (v : Z) : option nfsstat4 :=
  match v with
  | 0 => Some NFS4_OK
  | 1 => Some NFS4ERR_PERM
  | 2 => Some NFS4ERR_NOENT
  | 5 => Some NFS4ERR_IO
  | 6 => Some NFS4ERR_NXIO
  | 13 => Some NFS4ERR_ACCESS
  | 17 => Some NFS4ERR_EXIST
  | 18 => Some NFS4ERR_XDEV
  | 20 => Some NFS4ERR_NOTDIR
  | 21 => Some NFS4ERR_ISDIR
  | 22 => Some NFS4ERR_INVAL
  | 27 => Some NFS4ERR_FBIG
  | 28 => Some NFS4ERR_NOSPC
  | 30 => Some NFS4ERR_ROFS
  | 31 => Some NFS4ERR_MLINK
  | 63 => Some NFS4ERR_NAMETOOLONG
  | 66 => Some NFS4ERR_NOTEMPTY
  | 69 => Some NFS4ERR_DQUOT
  | 70 => Some NFS4ERR_STALE
  | 10001 => Some NFS4ERR_BADHANDLE
  | 10003 => Some NFS4ERR_BAD_COOKIE
  | 10004 => Some NFS4ERR_NOTSUPP
  | 10005 => Some NFS4ERR_TOOSMALL
  | 10006 => Some NFS4ERR_SERVERFAULT
  | 10007 => Some NFS4ERR_BADTYPE
  | 10008 => Some NFS4ERR_DELAY
  | 10009 => Some NFS4ERR_SAME
  | 10010 => Some NFS4ERR_DENIED
  | 10011 => Some NFS4ERR_EXPIRED
  | 10012 => Some NFS4ERR_LOCKED
  | 10013 => Some NFS4ERR_GRACE
  | 10014 => Some NFS4ERR_FHEXPIRED
  | 10015 => Some NFS4ERR_SHARE_DENIED
  | 10016 => Some NFS4ERR_WRONGSEC
  | 10017 => Some NFS4ERR_CLID_INUSE
  | 10019 => Some NFS4ERR_MOVED
  | 10020 => Some NFS4ERR_NOFILEHANDLE
  | 10021 => Some NFS4ERR_MINOR_VERS_MISMATCH
  | 10022 => Some NFS4ERR_STALE_CLIENTID
  | 10023 => Some NFS4ERR_STALE_STATEID
  | 10024 => Some NFS4ERR_OLD_STATEID
  | 10025 => Some NFS4ERR_BAD_STATEID
  | 10026 => Some NFS4ERR_BAD_SEQID
  | 10027 => Some NFS4ERR_NOT_SAME
  | 10028 => Some NFS4ERR_LOCK_RANGE
  | 10029 => Some NFS4ERR_SYMLINK
  | 10030 => Some NFS4ERR_RESTOREFH
  | 10031 => Some NFS4ERR_LEASE_MOVED
  | 10032 => Some NFS4ERR_ATTRNOTSUPP
  | 10033 => Some NFS4ERR_NO_GRACE
  | 10034 => Some NFS4ERR_RECLAIM_BAD
  | 10035 => Some NFS4ERR_RECLAIM_CONFLICT
  | 10036 => Some NFS4ERR_BADXDR
  | 10037 => Some NFS4ERR_LOCKS_HELD
  | 10038 => Some NFS4ERR_OPENMODE
  | 10039 => Some NFS4ERR_BADOWNER
  | 10040 => Some NFS4ERR_BADCHAR
  | 10041 => Some NFS4ERR_BADNAME
  | 10042 => Some NFS4ERR_BAD_RANGE
  | 10043 => Some NFS4ERR_LOCK_NOTSUPP
  | 10044 => Some NFS4ERR_OP_ILLEGAL
  | 10045 => Some NFS4ERR_DEADLOCK
  | 10046 => Some NFS4ERR_FILE_OPEN
  | 10047 => Some NFS4ERR_ADMIN_REVOKED
  | 10048 => Some NFS4ERR_CB_PATH_DOWN
  | 10049 => Some NFS4ERR_BADIOMODE
  | 10050 => Some NFS4ERR_BADLAYOUT
  | 10051 => Some NFS4ERR_BAD_SESSION_DIGEST
  | 10052 => Some NFS4ERR_BADSESSION
  | 10053 => Some NFS4ERR_BADSLOT
  | 10054 => Some NFS4ERR_COMPLETE_ALREADY
  | 10055 => Some NFS4ERR_CONN_NOT_BOUND_TO_SESSION
  | 10056 => Some NFS4ERR_DELEG_ALREADY_WANTED
  | 10057 => Some NFS4ERR_BACK_CHAN_BUSY
  | 10058 => Some NFS4ERR_LAYOUTTRYLATER
  | 10059 => Some NFS4ERR_LAYOUTUNAVAILABLE
  | 10060 => Some NFS4ERR_NOMATCHING_LAYOUT
  | 10061 => Some NFS4ERR_RECALLCONFLICT
  | 10062 => Some NFS4ERR_UNKNOWN_LAYOUTTYPE
  | 10063 => Some NFS4ERR_SEQ_MISORDERED
  | 10064 => Some NFS4ERR_SEQUENCE_POS
  | 10065 => Some NFS4ERR_REQ_TOO_BIG
  | 10066 => Some NFS4ERR_REP_TOO_BIG
  | 10067 => Some NFS4ERR_REP_TOO_BIG_TO_CACHE
  | 10068 => Some NFS4ERR_RETRY_UNCACHED_REP
  | 10069 => Some NFS4ERR_UNSAFE_COMPOUND
  | 10070 => Some NFS4ERR_TOO_MANY_OPS
  | 10071 => Some NFS4ERR_OP_NOT_IN_SESSION
  | 10072 => Some NFS4ERR_HASH_ALG_UNSUPP
  | 10074 => Some NFS4ERR_CLIENTID_BUSY
  | 10075 => Some NFS4ERR_PNFS_IO_HOLE
  | 10076 => Some NFS4ERR_SEQ_FALSE_RETRY
  | 10077 => Some NFS4ERR_BAD_HIGH_SLOT
  | 10078 => Some NFS4ERR_DEADSESSION
  | 10079 => Some NFS4ERR_ENCR_ALG_UNSUPP
  | 10080 => Some NFS4ERR_PNFS_NO_LAYOUT
  | 10081 => Some NFS4ERR_NOT_ONLY_OP
  | 10082 => Some NFS4ERR_WRONG_CRED
  | 10083 => Some NFS4ERR_WRONG_TYPE
  | 10084 => Some NFS4ERR_DIRDELEG_UNAVAIL
  | 10085 => Some NFS4ERR_REJECT_DELEG
  | 10086 => Some NFS4ERR_RETURNCONFLICT
  | 10087 => Some NFS4ERR_DELEG_REVOKED
  | 10088 => Some NFS4ERR_PARTNER_NOTSUPP
  | 10089 => Some NFS4ERR_PARTNER_NO_AUTH
  | 10090 => Some NFS4ERR_UNION_NOTSUPP
  | 10091 => Some NFS4ERR_OFFLOAD_DENIED
  | 10092 => Some NFS4ERR_WRONG_LFS
  | 10093 => Some NFS4ERR_BADLABEL
  | 10094 => Some NFS4ERR_OFFLOAD_NO_REQS
  | 10095 => Some NFS4ERR_NOXATTR
  | 10096 => Some NFS4ERR_XATTR2BIG
  | _ => None
  end.

Lemma try_from_to_u32 s : try_from (to_u32 s) = Some s.
Proof. by destruct s. Qed.

#[global] Instance to_u32_inj : Inj (=) (=) to_u32.
Proof. intros s t H. apply (f_equal try_from) in H. rewrite !try_from_to_u32 in H. congruence. Qed.

#[global] Instance nfsstat4_eq_dec : EqDecision nfsstat4.
Proof.
  intros s t. destruct (decide (to_u32 s = to_u32 t)) as [H|H].
  - left. by apply (inj to_u32).
  - right. by intros ->.
Defined.

Lemma to_u32_range s : is_u32 (to_u32 s).
Proof. destruct s; unfold is_u32; simpl; lia. Qed.

End Nfsstat4.
Export Nfsstat4.

(** ** Protocol version and I/O error kinds *)

(** [NFSVersion] of [mount.rs]. *)
Inductive NFSVersion : Type :=
| VersionUnknown
| NFSv3
| NFSv4p0
| NFSv4
| NFSv4p1
| NFSv4p2.
#[global] Instance NFSVersion_eq_dec : EqDecision NFSVersion.
Proof. solve_decision. Defined.

(** The [std::io::ErrorKind] values the crate names. *)
Inductive ErrorKind : Type :=
| AddrInUse | AddrNotAvailable | BrokenPipe | ConnectionAborted | ConnectionRefused
| ConnectionReset | HostUnreachable | Interrupted | InvalidData | InvalidInputKind
| NetworkUnreachable | NotConnected | Other | PermissionDenied | TimedOut | UnexpectedEof
| UnsupportedKind | WouldBlock.
#[global] Instance ErrorKind_eq_dec : EqDecision ErrorKind.
Proof. solve_decision. Defined.

(** ** [error.rs]: dispositions *)

Inductive OperationOutcomeKind : Type := DefiniteFailure | SafeToRetry | Uncertain.
#[global] Instance OperationOutcomeKind_eq_dec : EqDecision OperationOutcomeKind.
Proof. solve_decision. Defined.

Inductive OperationClass : Type := ReadOnly | SessionControl | ReplaySensitive.
#[global] Instance OperationClass_eq_dec : EqDecision OperationClass.
Proof. solve_decision. Defined.

Inductive RecoveryAction : Type := Retry | Reopen | Remount | VerifyThenResume | DoNotRetry.
#[global] Instance RecoveryAction_eq_dec : EqDecision RecoveryAction.
Proof. solve_decision. Defined.

Inductive RetryExhaustion : Type := RetryLimit | Deadline.

Inductive RequestTransmission : Type := NotSent | Sent.
#[global] Instance RequestTransmission_eq_dec : EqDecision RequestTransmission.
Proof. solve_decision. Defined.

Inductive RequestIdKind : Type :=
| Nfs40Owner (owner sequence_id : Z)
| Nfs41Session (session_id : bytes) (slot_id sequence_id : Z).

Record RequestContext : Type := {
  operation : string;
  protocol : NFSVersion;
  request_id : option RequestIdKind;
}.

(** [ServerBusyError], [OperationOutcomeError] and [FileCloseFailure] box a
    source error; [A] is that error's type. *)
Record ServerBusyError (A : Type) : Type := {
  sb_context : RequestContext;
  sb_retries : Z;
  sb_elapsed : Z;
  sb_reason : RetryExhaustion;
  sb_source : A;
}.
Arguments sb_context {A}. Arguments sb_retries {A}. Arguments sb_elapsed {A}.
Arguments sb_reason {A}. Arguments sb_source {A}.

Record OperationOutcomeError (A : Type) : Type := {
  outcome_kind : OperationOutcomeKind;
  operation_class : OperationClass;
  transmission : RequestTransmission;
  recovery : RecoveryAction;
  completed_bytes : option Z;
  source : A;
  context : RequestContext;
}.
Arguments outcome_kind {A}. Arguments operation_class {A}. Arguments transmission {A}.
Arguments recovery {A}. Arguments completed_bytes {A}. Arguments source {A}.
Arguments context {A}.

(** What an [std::io::Error] carries: a message, the crate's
    [TransportFailure], or another error. *)
Inductive IoPayload (A : Type) : Type :=
| IoMessage (m : string)
| IoTransport (t : RequestTransmission) (src : A)
| IoCustom (src : A).
Arguments IoMessage {A}. Arguments IoTransport {A}. Arguments IoCustom {A}.

Inductive NfsError : Type :=
| ServerBusy (d : ServerBusyError NfsError)
| Io (k : ErrorKind) (p : IoPayload NfsError)
| Nfs3 (code : Z)
| Nfs4 (code : nfsstat4)
| LockDenied (lock_type offset length : Z) (owner : bytes)
| Mount (code : Z)
| Rpc (m : string)
| Xdr (m : string)
| Unsupported (m : string)
| InvalidInput (m : string)
| ClosedResource (m : string)
| ModeViolation (m : string)
| ClientClosed (m : string)
| PositionUncertain (m : string)
| LostOpenState (m : string)
| FileClose (failures : list (string * NfsError))
| RdattrError (code : Z)
| OperationOutcome (d : OperationOutcomeError NfsError).

Abbreviation result A := (outcome NfsError A).

(** [OperationOutcomeError::new] *)
Definition OperationOutcomeError_new (o : OperationOutcomeKind) (c : OperationClass)
    (r : RecoveryAction) (ctx : RequestContext) (src : NfsError) : OperationOutcomeError NfsError :=
  {| outcome_kind := o; operation_class := c; transmission := Sent; recovery := r;
     completed_bytes := None; source := src; context := ctx |}.

(** [with_completed_bytes] *)
Definition with_completed_bytes (d : OperationOutcomeError NfsError) (n : Z)
    : OperationOutcomeError NfsError :=
  {| outcome_kind := outcome_kind d; operation_class := operation_class d;
     transmission := transmission d; recovery := recovery d; completed_bytes := Some n;
     source := source d; context := context d |}.

(** ** Methods of [NfsError] *)

Fixpoint transport_error_kind (e : NfsError) : option ErrorKind :=
  match e with
  | Io k _ => Some k
  | OperationOutcome d => transport_error_kind (source d)
  | _ => None
  end.

Definition is_connection_lost (e : NfsError) : bool :=
  match transport_error_kind e with
  | Some (BrokenPipe | ConnectionReset | ConnectionAborted | UnexpectedEof | NotConnected
         | ConnectionRefused) => true
  | _ => false
  end.

Fixpoint contains_uncertain_outcome (e : NfsError) : bool :=
  match e with
  | OperationOutcome d =>
      bool_decide (outcome_kind d = Uncertain) || contains_uncertain_outcome (source d)
  | FileClose failures => existsb (fun f => contains_uncertain_outcome f.2) failures
  | ServerBusy d => contains_uncertain_outcome (sb_source d)
  | _ => false
  end.

(** [nfsstat3] NFS3ERR_JUKEBOX. *)
Definition NFS3ERR_JUKEBOX : Z := 10008.

Fixpoint is_server_busy (e : NfsError) : bool :=
  if contains_uncertain_outcome e then false
  else match e with
  | ServerBusy _ => true
  | Nfs3 code => code =? NFS3ERR_JUKEBOX
  | Nfs4 code => (to_u32 code =? 10008) || (to_u32 code =? 10013)
  | OperationOutcome d =>
      negb (bool_decide (outcome_kind d = Uncertain)) && is_server_busy (source d)
  | FileClose failures =>
      negb (contains_uncertain_outcome e) && existsb (fun f => is_server_busy f.2) failures
  | _ => false
  end.

(** [NfsError::kind] *)
Definition error_kind (e : NfsError) : ErrorKind :=
  match e with
  | ServerBusy _ => WouldBlock
  | Io k _ => k
  | Nfs3 _ | Nfs4 _ => Other
  | LockDenied _ _ _ _ => WouldBlock
  | Mount _ | Rpc _ | Xdr _ => Other
  | Unsupported _ => UnsupportedKind
  | InvalidInput _ => InvalidInputKind
  | ClosedResource _ => NotConnected
  | ModeViolation _ => PermissionDenied
  | ClientClosed _ => NotConnected
  | PositionUncertain _ | LostOpenState _ | FileClose _ => Other
  | RdattrError _ => Other
  | OperationOutcome _ => Other
  end.

(** [NfsError::transport] *)
Definition transport (t : RequestTransmission) (src : NfsError) : NfsError :=
  Io (error_kind src) (IoTransport t src).

Definition request_transmission (e : NfsError) : option RequestTransmission :=
  match e with
  | Io _ (IoTransport t _) => Some t
  | Io _ _ => None
  | OperationOutcome d => Some (transmission d)
  | _ => None
  end.

Definition before_send_failure (c : OperationClass) (ctx : RequestContext)
    (completed : option Z) (src : NfsError) : NfsError :=
  OperationOutcome
    {| outcome_kind := DefiniteFailure; operation_class := c; transmission := NotSent;
       recovery := Retry; completed_bytes := completed; source := src; context := ctx |}.

Fixpoint operation_outcome (e : NfsError) : option (OperationOutcomeError NfsError) :=
  match e with
  | OperationOutcome d => Some d
  | FileClose failures =>
      (fix find_map (l : list (string * NfsError)) :=
         match l with
         | [] => None
         | f :: l =>
             match operation_outcome f.2 with
             | Some d => Some d
             | None => find_map l
             end
         end) failures
  | _ => None
  end.

(** ** Classification of a failed request *)

Definition classify_non_authoritative_error (c : OperationClass) (ctx : RequestContext)
    (src : NfsError) (replay_protocol_error : bool) : NfsError :=
  if bool_decide (request_transmission src = Some NotSent)
  then before_send_failure c ctx None src
  else
    let lacks_authoritative_result :=
      replay_protocol_error
      || bool_decide (request_transmission src = Some Sent)
      || match src with Io _ _ | Rpc _ | Xdr _ => true | _ => false end in
    if negb lacks_authoritative_result then src
    else
      let '(o, r) :=
        match c with
        | ReadOnly => (SafeToRetry, Retry)
        | SessionControl => (Uncertain, Remount)
        | ReplaySensitive => (Uncertain, VerifyThenResume)
        end in
      OperationOutcome (OperationOutcomeError_new o c r ctx src).

Definition classify_sent_nfs41_error (c : OperationClass) (ctx : RequestContext)
    (src : NfsError) : NfsError :=
  let replay_protocol_error :=
    match src with
    | Nfs4 NFS4ERR_RETRY_UNCACHED_REP | Nfs4 NFS4ERR_SEQ_FALSE_RETRY => true
    | _ => false
    end in
  classify_non_authoritative_error c ctx src replay_protocol_error.

Definition classify_sent_nfs3_error (c : OperationClass) (ctx : RequestContext)
    (src : NfsError) : NfsError :=
  classify_non_authoritative_error c ctx src false.

Definition classify_sent_nfs40_error (c : OperationClass) (ctx : RequestContext)
    (src : NfsError) : NfsError :=
  classify_non_authoritative_error c ctx src false.

Definition is_exist (e : NfsError) : bool :=
  match e with
  | Nfs3 17 | Nfs4 NFS4ERR_EXIST => true
  | _ => false
  end.

Definition is_not_found (e : NfsError) : bool :=
  match e with
  | Nfs3 2 | Nfs4 NFS4ERR_NOENT | Nfs4 NFS4ERR_NOXATTR => true
  | _ => false
  end.

Definition is_bad_directory_cookie (e : NfsError) : bool :=
  match e with
  | Nfs3 10003 | Nfs4 NFS4ERR_BAD_COOKIE | Nfs4 NFS4ERR_NOT_SAME => true
  | _ => false
  end.

(** ** Properties *)

(** [Nested e e']: [e'] is [e] or one of the errors it wraps through an
    operation outcome, an exhausted retry or a close failure. *)
Inductive Nested : NfsError -> NfsError -> Prop :=
| nested_refl e : Nested e e
| nested_outcome d e : Nested (source d) e -> Nested (OperationOutcome d) e
| nested_busy d e : Nested (sb_source d) e -> Nested (ServerBusy d) e
| nested_close l f e : In f l -> Nested f.2 e -> Nested (FileClose l) e.

Lemma contains_uncertain_nested e d :
  Nested e (OperationOutcome d) -> outcome_kind d = Uncertain ->
  contains_uncertain_outcome e = true.
Proof.
  intros Hn Hd. remember (OperationOutcome d) as t eqn:Ht. induction Hn; subst; simpl.
  - apply orb_true_iff. left. by apply bool_decide_eq_true.
  - rewrite IHHn by done. apply orb_true_r.
  - auto.
  - apply existsb_exists. eauto.
Qed.

Lemma uncertain_not_busy e : contains_uncertain_outcome e = true -> is_server_busy e = false.
Proof. intros H. destruct e; cbn [is_server_busy]; by rewrite H. Qed.

(** An error that the retry code may treat as server backpressure wraps no
    uncertain operation outcome at any depth, whatever mixture of operation
    outcomes, exhausted retries and close failures it is made of. *)
Theorem server_busy_hides_no_uncertain_mutation e d :
  is_server_busy e = true -> Nested e (OperationOutcome d) -> outcome_kind d <> Uncertain.
Proof.
  intros Hb Hn Hd. pose proof (contains_uncertain_nested e d Hn Hd) as Hc.
  apply uncertain_not_busy in Hc. congruence.
Qed.

Lemma server_busy_hides_no_uncertain_mutation_witness :
  let d := OperationOutcomeError_new SafeToRetry ReadOnly Retry
             {| operation := "READ"; protocol := NFSv4p1; request_id := None |}
             (Nfs4 NFS4ERR_DELAY) in
  outcome_kind d <> Uncertain.
Proof.
  intros d. apply (server_busy_hides_no_uncertain_mutation (FileClose [("a"%string, OperationOutcome d)]));
    [reflexivity|].
  apply (nested_close _ ("a"%string, OperationOutcome d)); [by left|apply nested_refl].
Defined.

(** When a request that changes server state (or the session) failed and
    its classified error still counts as server backpressure, then either the
    request provably never reached the transport, or the error is the server's
    own busy status, passed on unchanged. A lost, garbled or uncached reply of
    such a request is never retried as backpressure. *)
Theorem classified_busy_is_replay_safe c ctx src :
  c <> ReadOnly -> is_server_busy (classify_sent_nfs41_error c ctx src) = true ->
  request_transmission src = Some NotSent \/
  (classify_sent_nfs41_error c ctx src = src /\ is_server_busy src = true /\
   request_transmission src = None).
Proof.
  intros Hc. unfold classify_sent_nfs41_error, classify_non_authoritative_error.
  case_bool_decide as Hn; [by left|].
  destruct (negb _) eqn:Hl.
  - intros Hb. right. split_and!; [done|done|].
    destruct (request_transmission src) as [[]|]; [done| |done].
    rewrite !bool_decide_eq_true_2, !orb_true_r in Hl by done. done.
  - intros Hb. exfalso. destruct c; [done| |]; by rewrite uncertain_not_busy in Hb.
Qed.

Lemma classified_busy_is_replay_safe_witness :
  let ctx := {| operation := "WRITE"; protocol := NFSv4p1; request_id := None |} in
  request_transmission (Nfs4 NFS4ERR_DELAY) = Some NotSent \/
  (classify_sent_nfs41_error ReplaySensitive ctx (Nfs4 NFS4ERR_DELAY) = Nfs4 NFS4ERR_DELAY /\
   is_server_busy (Nfs4 NFS4ERR_DELAY) = true /\
   request_transmission (Nfs4 NFS4ERR_DELAY) = None).
Proof.
  intros ctx. apply (classified_busy_is_replay_safe ReplaySensitive ctx); [discriminate|reflexivity].
Defined.
