(* ===== verification/Retry.v ===== *)
(** * Bounded server-busy retries

    Models [src/src/retry.rs]: the per-operation budget of 16 retries and 60
    seconds, jittered exponential backoff, and the task-local scope that makes
    nested calls share one budget. Instants and durations are milliseconds;
    what the clock and the random source return during a call is an input. *)
From S2P Require Import Prelude Errors.
From stdpp Require Import base list numbers strings.
#[local] Open Scope Z_scope.

Definition MAX_RETRIES : Z := 16.
Definition MAX_ELAPSED : Z := 60000.
Definition BASE_MS : Z := 200.
Definition CAP_MS : Z := 5000.

(** ** State *)

Record Budget : Type := { started : Z; deadline : Z; retries : Z }.

(** The task-local values in scope: [BUDGET], [CALLER_DEADLINE], and whether
    [READ_CANCEL] is set. *)
Record TaskLocals : Type := { tl_budget : option Budget; tl_caller : option Z }.

(** What one call of [backoff] observes: the clock at entry, when the sleep is
    armed and after it; whether the read waiter is cancelled (before or during
    the sleep). *)
Record Observed : Type := { now_entry : Z; now_armed : Z; now_after : Z; cancelled : bool }.

(** ** Operations *)

Definition cap_deadline (tl : TaskLocals) (d : Z) : Z :=
  let d := match tl_budget tl with Some b => Z.min d (deadline b) | None => d end in
  match tl_caller tl with Some c => Z.min d c | None => d end.

Definition budget_new (tl : TaskLocals) (now : Z) : Budget :=
  {| started := now; deadline := cap_deadline tl (now + MAX_ELAPSED); retries := 0 |}.

(** [Budget::exhausted] at time [now]. *)
Definition exhausted (b : Budget) (now : Z) (ctx : RequestContext) (src : NfsError)
    (reason : RetryExhaustion) : NfsError :=
  ServerBusy {| sb_context := ctx; sb_retries := retries b; sb_elapsed := now - started b;
                sb_reason := reason; sb_source := src |}.

Definition cancelled_read : NfsError :=
  transport NotSent
    (Io Interrupted (IoMessage "read waiter cancelled during server-busy backoff")).

(** The upper end of the delay before retry number [attempt] (from 0). *)
Definition max_delay (attempt : Z) : Z :=
  Z.min (Z.min (BASE_MS * Z.shiftl 1 attempt) u64_max) CAP_MS.

(** [rand::random_range(lo..hi)] panics on an empty range. *)
Definition random_range (rand : Z -> Z -> Z) (lo hi : Z) : result Z :=
  if hi <=? lo then Panic else Ok (rand lo hi).

(** [Budget::backoff]: the new budget, the instant the sleep ends, and the
    result. *)
Definition backoff (rand : Z -> Z -> Z) (tl : TaskLocals) (b : Budget) (ctx : RequestContext)
    (src : NfsError) (o : Observed) : result (option Z) * Budget :=
  let dl := cap_deadline tl (deadline b) in
  if dl <=? now_entry o then (Err (exhausted b (now_entry o) ctx src Deadline), b)
  else
    let attempt := retries b in
    if negb (attempt <? MAX_RETRIES)
    then (Err (exhausted b (now_entry o) ctx src RetryLimit), b)
    else
      let b := {| started := started b; deadline := deadline b; retries := attempt + 1 |} in
      let maximum := max_delay attempt in
      (let* wait := random_range rand (maximum / 2) maximum in
       let wake := now_armed o + wait in
       if cancelled o then Err cancelled_read
       else if dl <=? now_after o then Err (exhausted b (now_after o) ctx src Deadline)
       else Ok (Some (Z.min wake dl)), b).

(** [scope]: nested calls keep the budget in scope. *)
Definition scope_budget (tl : TaskLocals) (now : Z) : TaskLocals :=
  {| tl_budget := Some (match tl_budget tl with Some b => b | None => budget_new tl now end);
     tl_caller := tl_caller tl |}.

(** [with_timeout]: the caller's own deadline, captured before spawning. *)
Definition with_timeout (tl : TaskLocals) (timeout : option Z) (now : Z) : TaskLocals :=
  match timeout with
  | Some d => {| tl_budget := tl_budget tl; tl_caller := Some (cap_deadline tl (now + d)) |}
  | None => tl
  end.

(** [cleanup]: a fresh budget and deadline. *)
Definition cleanup_locals (now : Z) : TaskLocals :=
  {| tl_budget := Some {| started := now; deadline := now + MAX_ELAPSED; retries := 0 |};
     tl_caller := Some (now + MAX_ELAPSED) |}.

(** [inherit]: a detached task runs with the values of its creator. *)
Definition inherit (creator : TaskLocals) (detached : TaskLocals) : TaskLocals :=
  {| tl_budget := match tl_budget creator with Some b => Some b | None => tl_budget detached end;
     tl_caller := match tl_caller creator with Some c => Some c | None => tl_caller detached end |}.

(** The caller's loop around one operation: [step n] is the [n]-th attempt,
    [obs n] what the backoff after it observes; busy errors are retried until
    the budget refuses. *)
Fixpoint retry_loop {A : Type} (fuel : nat) (rand : Z -> Z -> Z) (tl : TaskLocals)
    (ctx : RequestContext) (step : nat -> result A) (obs : nat -> Observed) (n : nat) (b : Budget)
    : option (result A) * nat :=
  match fuel with
  | O => (None, n)
  | S fuel =>
      match step n with
      | Err e =>
          if is_server_busy e then
            match backoff rand tl b ctx e (obs n) with
            | (Ok _, b) => retry_loop fuel rand tl ctx step obs (S n) b
            | (Err e, _) => (Some (Err e), S n)
            | (Panic, _) => (Some Panic, S n)
            end
          else (Some (Err e), S n)
      | r => (Some r, S n)
      end
  end.

(** ** Properties *)

Section Backoff.
Context (rand : Z -> Z -> Z).
Context (Hrand : forall lo hi, lo < hi -> lo <= rand lo hi < hi).

Lemma max_delay_bounds attempt : 0 <= attempt -> BASE_MS <= max_delay attempt <= CAP_MS.
Proof using Type.
  intros Ha. unfold max_delay, BASE_MS, CAP_MS, u64_max. rewrite Z.shiftl_1_l.
  assert (1 <= 2 ^ attempt) by (apply Z.lt_pred_le, Z.pow_pos_nonneg; lia). lia.
Qed.

Lemma max_delay_mono a b : 0 <= a <= b -> max_delay a <= max_delay b.
Proof using Type.
  intros Hab. unfold max_delay. rewrite !Z.shiftl_1_l.
  assert (2 ^ a <= 2 ^ b) by (apply Z.pow_le_mono_r; lia). unfold BASE_MS. lia.
Qed.

(** A successful backoff. *)
Lemma backoff_ok tl b ctx src o w b' :
  0 <= retries b -> backoff rand tl b ctx src o = (Ok w, b') ->
  retries b' = retries b + 1 /\ retries b < MAX_RETRIES /\
  started b' = started b /\ deadline b' = deadline b /\
  now_after o < cap_deadline tl (deadline b).
Proof using Type.
  intros Hr. unfold backoff.
  destruct (Z.leb_spec (cap_deadline tl (deadline b)) (now_entry o)); [done|].
  destruct (Z.ltb_spec (retries b) MAX_RETRIES); [|done]. cbn [negb].
  destruct (random_range _ _ _); cbn [obind]; [|done|done].
  destruct (cancelled o); [done|].
  destruct (Z.leb_spec (cap_deadline tl (deadline b)) (now_after o)); [done|].
  intros [= <- <-]. cbn. lia.
Qed.

Lemma backoff_no_panic tl b ctx src o : 0 <= retries b -> (backoff rand tl b ctx src o).1 <> Panic.
Proof using Type.
  intros Hr. unfold backoff. destruct (_ <=? _); [done|].
  destruct (Z.ltb_spec (retries b) MAX_RETRIES); [|done]. cbn [negb fst].
  unfold random_range. pose proof (max_delay_bounds (retries b) Hr) as [Hm _]. unfold BASE_MS in Hm.
  destruct (Z.leb_spec (max_delay (retries b)) (max_delay (retries b) / 2)) as [Hle|].
  { exfalso. revert Hle. apply Z.lt_nge, Z.div_lt; lia. }
  cbn [obind]. destruct (cancelled o); [done|]. by destruct (_ <=? _).
Qed.
End Backoff.

Lemma retry_loop_bound {A} rand tl ctx (step : nat -> result A) obs fuel n b :
  0 <= retries b <= MAX_RETRIES -> MAX_RETRIES - retries b < Z.of_nat fuel ->
  exists r k, retry_loop fuel rand tl ctx step obs n b = (Some r, (n + k)%nat) /\
    Z.of_nat k <= MAX_RETRIES - retries b + 1.
Proof.
  revert n b. induction fuel as [|fuel IH]; intros n b Hb Hf; [lia|].
  cbn [retry_loop].
  assert (Hone : forall r : result A, exists r' k, (Some r, S n) = (Some r', (n + k)%nat) /\
    Z.of_nat k <= MAX_RETRIES - retries b + 1).
  { intros r. exists r, 1%nat. split; [f_equal; lia|lia]. }
  destruct (step n) as [a|e|]; [apply Hone| |apply Hone].
  destruct (is_server_busy e); [|apply Hone].
  destruct (backoff rand tl b ctx e (obs n)) as [[w|e'|] b'] eqn:E; [|apply Hone|apply Hone].
  apply backoff_ok in E as (H1 & H2 & _); [|lia].
  destruct (IH (S n) b') as (r & k & Hr & Hk); [lia|lia|].
  exists r, (S k). rewrite Hr. split; [f_equal; lia|lia].
Qed.

(** An operation that the server keeps rejecting as busy stops: with a
    fresh budget it makes at most seventeen attempts (the first one and sixteen
    retries) and then returns, whatever the server, the clock and the random
    source do. *)
Theorem busy_retries_terminate {A} rand tl ctx (step : nat -> result A) obs now :
  exists r attempts,
    retry_loop 17 rand tl ctx step obs 0 (budget_new tl now) = (Some r, attempts) /\
    Z.of_nat attempts <= MAX_RETRIES + 1.
Proof.
  destruct (retry_loop_bound rand tl ctx step obs 17 0 (budget_new tl now)) as (r & k & H1 & H2);
    [cbn; unfold MAX_RETRIES; lia|cbn; unfold MAX_RETRIES; lia|].
  exists r, k. split; [exact H1|]. cbn in H2. unfold MAX_RETRIES in *. lia.
Qed.

(** A backoff that lets the operation continue has counted one more retry,
    ends strictly before the operation's and the caller's deadlines, and waits
    at least half and less than the whole of a delay that doubles from 200 ms
    and is capped at 5 s; no backoff panics on an empty jitter range. *)
Theorem backoff_delay_bounded rand tl b ctx src o :
  (forall lo hi, lo < hi -> lo <= rand lo hi < hi) -> 0 <= retries b ->
  (backoff rand tl b ctx src o).1 <> Panic /\
  (forall w b', backoff rand tl b ctx src o = (Ok (Some w), b') ->
     (retries b' = retries b + 1 /\ retries b' <= MAX_RETRIES) /\
     now_after o < cap_deadline tl (deadline b) /\
     exists wait, w = Z.min (now_armed o + wait) (cap_deadline tl (deadline b)) /\
       max_delay (retries b) / 2 <= wait < max_delay (retries b) /\ max_delay (retries b) <= CAP_MS).
Proof.
  intros Hrand Hr. split; [by apply backoff_no_panic|]. intros w b' H.
  pose proof (backoff_ok _ _ _ _ _ _ _ _ Hr H) as (H1 & H2 & _ & _ & H5).
  split_and!; [lia|lia|done|]. revert H. unfold backoff.
  destruct (_ <=? _); [done|]. destruct (negb _); [done|]. unfold random_range.
  destruct (Z.leb_spec (max_delay (retries b)) (max_delay (retries b) / 2)) as [|Hlt]; [done|].
  cbn [obind]. destruct (cancelled o); [done|]. destruct (_ <=? _); [done|]. intros [= <- _].
  exists (rand (max_delay (retries b) / 2) (max_delay (retries b))). split; [done|].
  pose proof (Hrand _ _ Hlt). pose proof (max_delay_bounds (retries b) Hr). lia.
Qed.

Lemma backoff_delay_bounded_witness :
  (backoff (fun lo hi => lo) {| tl_budget := None; tl_caller := None |}
     {| started := 0; deadline := 60000; retries := 3 |}
     {| operation := "READ"; protocol := NFSv4p1; request_id := None |} (Nfs4 NFS4ERR_DELAY)
     {| now_entry := 10; now_armed := 11; now_after := 900; cancelled := false |}).1 <> Panic /\
  (forall w b', backoff (fun lo hi => lo) {| tl_budget := None; tl_caller := None |}
     {| started := 0; deadline := 60000; retries := 3 |}
     {| operation := "READ"; protocol := NFSv4p1; request_id := None |} (Nfs4 NFS4ERR_DELAY)
     {| now_entry := 10; now_armed := 11; now_after := 900; cancelled := false |} = (Ok (Some w), b') ->
     (retries b' = 3 + 1 /\ retries b' <= MAX_RETRIES) /\ 900 < 60000 /\
     exists wait, w = Z.min (11 + wait) 60000 /\
       max_delay 3 / 2 <= wait < max_delay 3 /\ max_delay 3 <= CAP_MS).
Proof.
  apply (backoff_delay_bounded (fun lo hi => lo) {| tl_budget := None; tl_caller := None |}
     {| started := 0; deadline := 60000; retries := 3 |}); [intros; lia|simpl; lia].
Defined.
