(* ===== verification/SlotTable.v ===== *)
(** * The session slot table

    Models [SlotTable] and [AcquiredSlot] of [src/src/nfs41/session.rs]. Every
    atomic access of the code (semaphore permit, free-pool mutex, bitmap,
    counters) is one operation on the shared [SlotTable] record; [step]
    interleaves the operations of any number of tasks in the order in which
    [acquire], [release] and [Drop] perform them. *)
From S2P Require Import Prelude Errors.
From stdpp Require Import base list numbers strings relations.
#[local] Open Scope Z_scope.

(** ** State *)

(** [slots] holds each slot's [sequence_id]; [permits] and [closed] are the
    semaphore's state. *)
Record SlotTable : Type := {
  slots : list Z;
  free_pool : list Z;
  permits : Z;
  closed : bool;
  fenced_slots : Z;
  target_highest_slot_id : Z;
  active_or_fenced_slots : Z;
}.

Inductive SlotDisposition : Type := Release | Fence.
#[global] Instance SlotDisposition_eq_dec : EqDecision SlotDisposition.
Proof. solve_decision. Defined.

Record AcquiredSlot : Type := {
  slot_id : Z;
  sequence_id : Z;
  disposition : SlotDisposition;
}.

(** [SlotTable::new] *)
Definition new (num_slots : Z) : SlotTable :=
  {| slots := replicate (Z.to_nat num_slots) 1;
     free_pool := seqZ 0 num_slots;
     permits := num_slots;
     closed := false;
     fenced_slots := 0;
     target_highest_slot_id := Z.max 0 (num_slots - 1);
     active_or_fenced_slots := 0 |}.

(** ** Field updates *)

Definition set_pool (t : SlotTable) (p : list Z) : SlotTable :=
  {| slots := slots t; free_pool := p; permits := permits t; closed := closed t;
     fenced_slots := fenced_slots t; target_highest_slot_id := target_highest_slot_id t;
     active_or_fenced_slots := active_or_fenced_slots t |}.
Definition set_permits (t : SlotTable) (p : Z) : SlotTable :=
  {| slots := slots t; free_pool := free_pool t; permits := p; closed := closed t;
     fenced_slots := fenced_slots t; target_highest_slot_id := target_highest_slot_id t;
     active_or_fenced_slots := active_or_fenced_slots t |}.
Definition set_active (t : SlotTable) (m : Z) : SlotTable :=
  {| slots := slots t; free_pool := free_pool t; permits := permits t; closed := closed t;
     fenced_slots := fenced_slots t; target_highest_slot_id := target_highest_slot_id t;
     active_or_fenced_slots := m |}.
Definition set_target (t : SlotTable) (x : Z) : SlotTable :=
  {| slots := slots t; free_pool := free_pool t; permits := permits t; closed := closed t;
     fenced_slots := fenced_slots t; target_highest_slot_id := x;
     active_or_fenced_slots := active_or_fenced_slots t |}.
Definition set_fenced (t : SlotTable) (c : bool) (n : Z) : SlotTable :=
  {| slots := slots t; free_pool := free_pool t; permits := permits t; closed := c;
     fenced_slots := n; target_highest_slot_id := target_highest_slot_id t;
     active_or_fenced_slots := active_or_fenced_slots t |}.
Definition set_slots (t : SlotTable) (s : list Z) : SlotTable :=
  {| slots := s; free_pool := free_pool t; permits := permits t; closed := closed t;
     fenced_slots := fenced_slots t; target_highest_slot_id := target_highest_slot_id t;
     active_or_fenced_slots := active_or_fenced_slots t |}.

(** ** Atomic operations *)

(** [1u64.checked_shl(slot_id)] *)
Definition slot_mask (id : Z) : option Z := if id <? 64 then Some (Z.shiftl 1 id) else None.

(** [semaphore.acquire()]: [None] while it would block. *)
Definition sem_acquire (t : SlotTable) : option (result SlotTable) :=
  if closed t then Some (Err (Rpc "session slot table closed"))
  else if permits t <=? 0 then None
  else Some (Ok (set_permits t (permits t - 1))).

Definition add_permit (t : SlotTable) : SlotTable := set_permits t (permits t + 1).

(** [pool.iter().position(|id| id <= target).and_then(|p| pool.remove(p))] *)
Fixpoint pool_take (target : Z) (pool : list Z) : option (Z * list Z) :=
  match pool with
  | [] => None
  | id :: pool =>
      if id <=? target then Some (id, pool)
      else match pool_take target pool with
           | Some (x, rest) => Some (x, id :: rest)
           | None => None
           end
  end.

(** [SlotTable::acquired]: marks the slot active and reads its sequence id. *)
Definition acquired (t : SlotTable) (id : Z) : result (AcquiredSlot * SlotTable) :=
  match slot_mask id with
  | None => Err (Rpc ("slot ID " +:+ fmtZ id +:+ " exceeds bitmap bound"))
  | Some mask =>
      let t := set_active t (Z.lor (active_or_fenced_slots t) mask) in
      match slots t !! Z.to_nat id with
      | None => Panic
      | Some seq => Ok ({| slot_id := id; sequence_id := seq; disposition := Release |}, t)
      end
  end.

(** [SlotTable::update_target_highest_slot_id] *)
Definition update_target_highest_slot_id (t : SlotTable) (target : Z) : result SlotTable :=
  let n := Z.of_nat (length (slots t)) in
  if u32_max <? n then Err (Rpc "slot table size exceeds u32")
  else if n <? 1 then Err (Rpc "session negotiated zero fore-channel slots")
  else
    let maximum := n - 1 in
    if maximum <? target
    then Err (Xdr ("SEQUENCE target_highest_slotid " +:+ fmtZ target +:+
                   " exceeds negotiated maximum " +:+ fmtZ maximum))
    else Ok (set_target t target).

(** The three effects of [SlotTable::release], in order. *)
Definition release_mask (t : SlotTable) (id : Z) : SlotTable :=
  match slot_mask id with
  | Some mask => set_active t (Z.ldiff (active_or_fenced_slots t) mask)
  | None => t
  end.
Definition release_push (t : SlotTable) (id : Z) : SlotTable :=
  set_pool t (free_pool t ++ [id]).
Definition release (t : SlotTable) (id : Z) : SlotTable :=
  add_permit (release_push (release_mask t id) id).

(** [SlotTable::highest_slot_id]; [63 - leading_zeros] is [Z.log2]. *)
Definition highest_slot_id (t : SlotTable) : Z :=
  let active := active_or_fenced_slots t in
  let highest_active := if active =? 0 then 0 else Z.log2 active in
  Z.max highest_active (target_highest_slot_id t).

(** [AcquiredSlot]'s methods. *)
Definition fence_on_drop (s : AcquiredSlot) : AcquiredSlot :=
  {| slot_id := slot_id s; sequence_id := sequence_id s; disposition := Fence |}.
Definition resolve (s : AcquiredSlot) : AcquiredSlot :=
  {| slot_id := slot_id s; sequence_id := sequence_id s; disposition := Release |}.
Definition advance_slot (t : SlotTable) (s : AcquiredSlot) : SlotTable :=
  set_slots t (alter (fun q => wrap32 (q + 1)) (Z.to_nat (slot_id s)) (slots t)).
Definition current_sequence_id (t : SlotTable) (s : AcquiredSlot) : option Z :=
  slots t !! Z.to_nat (slot_id s).

(** The fencing half of [Drop::drop]: the counter, then the closing test. *)
Definition fence_count (t : SlotTable) : Z * SlotTable :=
  let fenced := fenced_slots t + 1 in (fenced, set_fenced t (closed t) fenced).
Definition fence_close (t : SlotTable) (fenced : Z) : SlotTable :=
  if Z.of_nat (length (slots t)) <=? fenced
  then set_fenced t true (fenced_slots t) else t.

(** [Drop::drop] without interleaving. *)
Definition drop_slot (t : SlotTable) (s : AcquiredSlot) : SlotTable :=
  match disposition s with
  | Release => release t (slot_id s)
  | Fence => let '(fenced, t) := fence_count t in fence_close t fenced
  end.

(** One uninterrupted round of the loop in [acquire]; [None] while it waits. *)
Definition acquire_round (t : SlotTable) : option (result (AcquiredSlot * SlotTable)) :=
  match sem_acquire t with
  | None => None
  | Some (Err e) => Some (Err e)
  | Some Panic => Some Panic
  | Some (Ok t) =>
      match pool_take (target_highest_slot_id t) (free_pool t) with
      | None => None
      | Some (id, pool) => Some (acquired (set_pool t pool) id)
      end
  end.

(** [Session::update_sequence_slot_limits] *)
Definition max_requests (t : SlotTable) : Z := Z.min (Z.of_nat (length (slots t))) u32_max.
Definition update_sequence_slot_limits (t : SlotTable) (highest target : Z) : result SlotTable :=
  if max_requests t <? 1 then Err (Rpc "session negotiated zero fore-channel slots")
  else
    let maximum := max_requests t - 1 in
    if (maximum <? highest) || (maximum <? target)
    then Err (Xdr ("SEQUENCE slot limits highest=" +:+ fmtZ highest +:+ " target=" +:+
                   fmtZ target +:+ " exceed negotiated maximum " +:+ fmtZ maximum))
    else update_target_highest_slot_id t (Z.min target highest).

(** ** Interleaving *)

(** Where a task stands inside [acquire], its use of the slot, and [Drop]. *)
Inductive phase : Type :=
| Idle
| HasPermit
| Loaded (target : Z)
| NoSlot
| Waiting
| Taken (id : Z)
| Holding (s : AcquiredSlot)
| Unmasked (id : Z)
| Pushed
| Counted (fenced : Z).

(** [fenced_ids] records which slots were fenced; the code keeps only their
    number. *)
Record config : Type := { table : SlotTable; tasks : list phase; fenced_ids : list Z }.

Definition initial (num_slots : Z) : config :=
  {| table := new num_slots; tasks := []; fenced_ids := [] |}.

(** One atomic access by one task. *)
Inductive task_step : SlotTable -> phase -> SlotTable -> phase -> list Z -> Prop :=
| step_permit t t' : sem_acquire t = Some (Ok t') -> task_step t Idle t' HasPermit []
| step_load t : task_step t HasPermit t (Loaded (target_highest_slot_id t)) []
| step_take t target id pool : pool_take target (free_pool t) = Some (id, pool) ->
    task_step t (Loaded target) (set_pool t pool) (Taken id) []
| step_none t target : pool_take target (free_pool t) = None ->
    task_step t (Loaded target) t NoSlot []
| step_drop_permit t : task_step t NoSlot (add_permit t) Waiting []
| step_wake t : task_step t Waiting t Idle []
| step_acquired t id s t' : acquired t id = Ok (s, t') -> task_step t (Taken id) t' (Holding s) []
| step_fence_on_drop t s : task_step t (Holding s) t (Holding (fence_on_drop s)) []
| step_resolve t s : task_step t (Holding s) t (Holding (resolve s)) []
| step_advance t s : task_step t (Holding s) (advance_slot t s) (Holding s) []
| step_unmask t s : disposition s = Release ->
    task_step t (Holding s) (release_mask t (slot_id s)) (Unmasked (slot_id s)) []
| step_push t id : task_step t (Unmasked id) (release_push t id) Pushed []
| step_permit_back t : task_step t Pushed (add_permit t) Idle []
| step_fence t s fenced t' : disposition s = Fence -> fence_count t = (fenced, t') ->
    task_step t (Holding s) t' (Counted fenced) [slot_id s]
| step_close t fenced : task_step t (Counted fenced) (fence_close t fenced) Idle []
| step_limits t p highest target t' : 0 <= highest -> 0 <= target ->
    update_sequence_slot_limits t highest target = Ok t' -> task_step t p t' p [].

Inductive step : config -> config -> Prop :=
| step_spawn c : step c {| table := table c; tasks := Idle :: tasks c; fenced_ids := fenced_ids c |}
| step_task t p t' p' new_fenced l1 l2 fenced :
    task_step t p t' p' new_fenced ->
    step {| table := t; tasks := l1 ++ p :: l2; fenced_ids := fenced |}
         {| table := t'; tasks := l1 ++ p' :: l2; fenced_ids := new_fenced ++ fenced |}.

Definition reachable (num_slots : Z) (c : config) : Prop := rtc step (initial num_slots) c.

(** ** The invariant *)

Definition owned (p : phase) : list Z :=
  match p with
  | Taken id | Unmasked id => [id]
  | Holding s => [slot_id s]
  | _ => []
  end.
Definition active (p : phase) : list Z :=
  match p with Holding s => [slot_id s] | _ => [] end.
Definition permit_debt (p : phase) : Z :=
  match p with HasPermit | Loaded _ | NoSlot | Pushed => 1 | _ => 0 end.

Definition all_owned (ps : list phase) : list Z := concat (map owned ps).
Definition all_active (ps : list phase) : list Z := concat (map active ps).
Definition all_debt (ps : list phase) : Z := foldr Z.add 0 (map permit_debt ps).

Record Inv (n : Z) (c : config) : Prop := {
  inv_slots : Z.of_nat (length (slots (table c))) = n;
  inv_partition : free_pool (table c) ++ all_owned (tasks c) ++ fenced_ids c ≡ₚ seqZ 0 n;
  inv_permits : 0 <= permits (table c) /\
    permits (table c) + all_debt (tasks c) = Z.of_nat (length (free_pool (table c)));
  inv_target : 0 <= target_highest_slot_id (table c) < n;
  inv_active : 0 <= active_or_fenced_slots (table c) /\
    forall i, 0 <= i -> Z.testbit (active_or_fenced_slots (table c)) i = true <->
              In i (all_active (tasks c) ++ fenced_ids c);
  inv_fenced : fenced_slots (table c) = Z.of_nat (length (fenced_ids c));
  inv_closing : n <= fenced_slots (table c) ->
    closed (table c) = true \/ In (Counted n) (tasks c);
  inv_closed : closed (table c) = true -> n <= fenced_slots (table c);
  inv_counted : forall f, In (Counted f) (tasks c) -> f <= fenced_slots (table c);
}.

Section Lists.
Lemma all_owned_mid l1 p l2 : all_owned (l1 ++ p :: l2) ≡ₚ owned p ++ all_owned (l1 ++ l2).
Proof.
  unfold all_owned. rewrite !map_app, !concat_app. simpl. rewrite !app_assoc.
  apply Permutation_app_tail, Permutation_app_comm.
Qed.

Lemma all_active_mid l1 p l2 : all_active (l1 ++ p :: l2) ≡ₚ active p ++ all_active (l1 ++ l2).
Proof.
  unfold all_active. rewrite !map_app, !concat_app. simpl. rewrite !app_assoc.
  apply Permutation_app_tail, Permutation_app_comm.
Qed.

Lemma all_debt_mid l1 p l2 : all_debt (l1 ++ p :: l2) = permit_debt p + all_debt (l1 ++ l2).
Proof. unfold all_debt. induction l1 as [|q l1 IH]; simpl in *; lia. Qed.

Lemma all_debt_nonneg ps : 0 <= all_debt ps.
Proof. unfold all_debt. induction ps as [|[] ps IH]; simpl; lia. Qed.

Lemma active_owned ps i : In i (all_active ps) -> In i (all_owned ps).
Proof.
  unfold all_active, all_owned. rewrite !in_concat. intros (l & Hl & Hi).
  apply in_map_iff in Hl as (p & <- & Hp). exists (owned p). split; [by apply in_map|].
  by destruct p.
Qed.

Lemma pool_take_perm target pool id rest :
  pool_take target pool = Some (id, rest) -> pool ≡ₚ id :: rest.
Proof.
  revert id rest. induction pool as [|x pool IH]; simpl; [done|]. intros id rest.
  destruct (x <=? target); [by intros [= <- <-]|].
  destruct (pool_take target pool) as [[y r]|]; [|done]. intros [= <- <-].
  rewrite (IH y r) by done. apply Permutation_swap.
Qed.

Lemma pool_take_none target pool id :
  pool_take target pool = None -> In id pool -> target < id.
Proof.
  induction pool as [|x pool IH]; simpl; [done|].
  destruct (Z.leb_spec x target); [done|].
  destruct (pool_take target pool) as [[y r]|]; [done|]. intros _ [<-|Hin]; [done|auto].
Qed.
End Lists.

Lemma in_seqZ_range n l i : l ≡ₚ seqZ 0 n -> In i l -> 0 <= i < n.
Proof.
  intros Hp Hi. apply (Permutation_in _ Hp) in Hi. apply list_elem_of_In, elem_of_seqZ in Hi. lia.
Qed.

(** Every owned slot is a slot of the table. *)
Lemma inv_owned_range n c i :
  Inv n c -> In i (all_owned (tasks c) ++ fenced_ids c) -> 0 <= i < n.
Proof.
  intros HI Hi. apply (in_seqZ_range n _ i (inv_partition n c HI)).
  rewrite in_app_iff. by right.
Qed.

Lemma testbit_mask i j : 0 <= i -> 0 <= j -> Z.testbit (Z.shiftl 1 i) j = bool_decide (i = j).
Proof.
  intros Hi Hj. rewrite Z.shiftl_spec by lia. case_bool_decide as H.
  - subst. by rewrite Z.sub_diag.
  - destruct (Z.ltb_spec (j - i) 0) as [Hlt|Hge].
    + by rewrite Z.testbit_neg_r.
    + apply Z.bits_above_log2; simpl; lia.
Qed.

Lemma initial_inv n : 1 <= n <= 64 -> Inv n (initial n).
Proof.
  intros Hn. constructor; cbn [initial new table tasks fenced_ids slots free_pool permits closed
    fenced_slots target_highest_slot_id active_or_fenced_slots].
  - rewrite length_replicate. lia.
  - by rewrite app_nil_r.
  - rewrite length_seqZ. unfold all_debt. simpl. lia.
  - lia.
  - split; [done|]. intros i Hi. rewrite Z.testbit_0_l. simpl. intuition congruence.
  - done.
  - simpl. lia.
  - done.
  - done.
Qed.

(** The invariant does not depend on the order of the tasks. *)
#[global] Instance all_owned_proper : Proper ((≡ₚ) ==> (≡ₚ)) all_owned.
Proof.
  intros ps qs H. induction H; unfold all_owned in *; simpl.
  - done.
  - by apply Permutation_app_head.
  - rewrite !app_assoc. apply Permutation_app_tail, Permutation_app_comm.
  - by etrans.
Qed.

#[global] Instance all_active_proper : Proper ((≡ₚ) ==> (≡ₚ)) all_active.
Proof.
  intros ps qs H. induction H; unfold all_active in *; simpl.
  - done.
  - by apply Permutation_app_head.
  - rewrite !app_assoc. apply Permutation_app_tail, Permutation_app_comm.
  - by etrans.
Qed.

#[global] Instance all_debt_proper : Proper ((≡ₚ) ==> (=)) all_debt.
Proof. intros ps qs H. induction H; unfold all_debt in *; simpl; lia. Qed.

Lemma inv_perm n t ps qs f :
  ps ≡ₚ qs -> Inv n {| table := t; tasks := ps; fenced_ids := f |} ->
  Inv n {| table := t; tasks := qs; fenced_ids := f |}.
Proof.
  intros Hp [H1 H2 H3 H4 [H5 H5'] H6 H7 H8 H9]. cbn [table tasks fenced_ids] in *.
  constructor; cbn [table tasks fenced_ids]; try done.
  - by rewrite <- Hp.
  - by rewrite <- Hp.
  - split; [done|]. intros i Hi. rewrite H5' by done. rewrite <- !list_elem_of_In. by rewrite Hp.
  - intros Hf. destruct (H7 Hf) as [Hc|Hc]; [by left|right]. by apply (Permutation_in _ Hp).
  - intros g Hg. apply H9. by apply (Permutation_in _ (Permutation_sym Hp)).
Qed.

Lemma all_owned_cons p ps : all_owned (p :: ps) = owned p ++ all_owned ps.
Proof. done. Qed.
Lemma all_active_cons p ps : all_active (p :: ps) = active p ++ all_active ps.
Proof. done. Qed.
Lemma all_debt_cons p ps : all_debt (p :: ps) = permit_debt p + all_debt ps.
Proof. done. Qed.

(** Steps that change neither the pool, the bitmap nor the fencing state: only
    the permit accounting has to balance. *)
Lemma inv_permit_step n t p t' p' ps f :
  Inv n {| table := t; tasks := p :: ps; fenced_ids := f |} ->
  length (slots t') = length (slots t) -> free_pool t' = free_pool t ->
  active_or_fenced_slots t' = active_or_fenced_slots t ->
  fenced_slots t' = fenced_slots t -> closed t' = closed t ->
  0 <= target_highest_slot_id t' < n ->
  0 <= permits t' -> permits t' + permit_debt p' = permits t + permit_debt p ->
  owned p' = owned p -> active p' = active p ->
  (forall g, p' = Counted g -> p = Counted g) -> (p = Counted n -> p' = Counted n) ->
  Inv n {| table := t'; tasks := p' :: ps; fenced_ids := f |}.
Proof.
  intros [H1 H2 H3 H4 H5 H6 H7 H8 H9] E1 E2 E3 E4 E5 Ht Hp Hd Ho Ha Hc1 Hc2.
  cbn [table tasks fenced_ids] in *. rewrite all_owned_cons in *. rewrite all_active_cons in *.
  rewrite all_debt_cons in *.
  constructor; cbn [table tasks fenced_ids];
    rewrite ?all_owned_cons, ?all_active_cons, ?all_debt_cons, ?E1, ?E2, ?E3, ?E4, ?E5, ?Ho, ?Ha;
    try done.
  - lia.
  - intros Hf. destruct (H7 Hf) as [Hc|[Hc|Hc]]; [by left|right; left; auto|right; by right].
  - intros g [Hg|Hg]; [apply H9; left; auto|apply H9; by right].
Qed.

(** [update_sequence_slot_limits] only moves the target, within bounds. *)
Lemma update_limits_ok t highest target t' :
  0 <= highest -> 0 <= target -> update_sequence_slot_limits t highest target = Ok t' ->
  t' = set_target t (Z.min target highest) /\ Z.min target highest < Z.of_nat (length (slots t)).
Proof.
  intros Hh Ht. unfold update_sequence_slot_limits, update_target_highest_slot_id, max_requests.
  destruct (Z.ltb_spec (Z.min (Z.of_nat (length (slots t))) u32_max) 1); [done|].
  destruct (_ || _); [done|].
  destruct (Z.ltb_spec u32_max (Z.of_nat (length (slots t)))); [done|].
  destruct (Z.ltb_spec (Z.of_nat (length (slots t))) 1); [done|].
  destruct (Z.ltb_spec (Z.of_nat (length (slots t)) - 1) (Z.min target highest)); [done|].
  intros [= <-]. split; [done|lia].
Qed.

Lemma acquired_ok t id s t' :
  acquired t id = Ok (s, t') ->
  id < 64 /\ slot_id s = id /\ disposition s = Release /\ slots t !! Z.to_nat id = Some (sequence_id s) /\
  t' = set_active t (Z.lor (active_or_fenced_slots t) (Z.shiftl 1 id)).
Proof.
  unfold acquired, slot_mask. destruct (Z.ltb_spec id 64); [|done].
  cbn [slots set_active]. destruct (slots t !! Z.to_nat id) eqn:E; [|done].
  by intros [= <- <-].
Qed.

Ltac inv_open H :=
  destruct H as [H1 H2 H3 H4 [H5 H5'] H6 H7 H8 H9]; cbn [table tasks fenced_ids] in *;
  rewrite ?all_owned_cons in *; rewrite ?all_active_cons in *; rewrite ?all_debt_cons in *;
  constructor; cbn [table tasks fenced_ids set_pool set_active set_permits set_target set_fenced
    set_slots slots free_pool permits closed fenced_slots target_highest_slot_id
    active_or_fenced_slots add_permit release_push];
  rewrite ?all_owned_cons, ?all_active_cons, ?all_debt_cons; cbn [owned active permit_debt app] in *;
  try done.

(** [In (Counted _)] facts survive a step between phases that are not [Counted]. *)
Ltac counted H7 H9 :=
  match goal with
  | |- _ -> _ = true \/ _ =>
      intros Hf; destruct (H7 Hf) as [?|[?|?]]; [by left|done|right; by right]
  | |- forall _, _ -> _ <= _ => intros ? [?|?]; [done|apply H9; by right]
  end.

Section Preservation.
Context (n : Z) (Hn : 1 <= n <= 64).

Lemma inv_take t target id pool ps f :
  Inv n {| table := t; tasks := Loaded target :: ps; fenced_ids := f |} ->
  pool_take target (free_pool t) = Some (id, pool) ->
  Inv n {| table := set_pool t pool; tasks := Taken id :: ps; fenced_ids := f |}.
Proof using Hn.
  intros HI Hp. apply pool_take_perm in Hp. inv_open HI; try counted H7 H9.
  - rewrite <- H2, Hp. symmetry. apply Permutation_middle.
  - apply Permutation_length in Hp. simpl in Hp. lia.
Qed.

Lemma inv_acquired t id s t' ps f :
  Inv n {| table := t; tasks := Taken id :: ps; fenced_ids := f |} ->
  acquired t id = Ok (s, t') ->
  Inv n {| table := t'; tasks := Holding s :: ps; fenced_ids := f |}.
Proof using Hn.
  intros HI Ha. apply acquired_ok in Ha as (Hid & <- & _ & _ & ->).
  assert (Hr : 0 <= slot_id s < n).
  { apply (inv_owned_range n _ _ HI). simpl. by left. }
  inv_open HI; try counted H7 H9. split.
  - apply Z.lor_nonneg. split; [done|]. apply Z.shiftl_nonneg. lia.
  - intros i Hi. rewrite Z.lor_spec, orb_true_iff, H5', testbit_mask, bool_decide_eq_true by lia.
    simpl. intuition.
Qed.

Lemma inv_unmask t s ps f :
  Inv n {| table := t; tasks := Holding s :: ps; fenced_ids := f |} ->
  Inv n {| table := release_mask t (slot_id s); tasks := Unmasked (slot_id s) :: ps;
           fenced_ids := f |}.
Proof using Hn.
  intros HI.
  assert (Hr : 0 <= slot_id s < n).
  { apply (inv_owned_range n _ _ HI). simpl. by left. }
  unfold release_mask, slot_mask. destruct (Z.ltb_spec (slot_id s) 64); [|lia].
  inv_open HI; try counted H7 H9. split.
  - apply Z.ldiff_nonneg. by left.
  - intros i Hi. rewrite Z.ldiff_spec, andb_true_iff, H5', testbit_mask by lia.
    rewrite negb_true_iff, bool_decide_eq_false.
    assert (Hnd : ~ In (slot_id s) (all_active ps ++ f)).
    { assert (Hd : NoDup (slot_id s :: all_owned ps ++ f)).
      { eapply NoDup_app. change (slot_id s :: all_owned ps ++ f)
          with ((slot_id s :: all_owned ps) ++ f). rewrite H2. apply NoDup_seqZ. }
      apply NoDup_cons in Hd as [Hd _]. rewrite list_elem_of_In in Hd. intros Hx. apply Hd.
      rewrite in_app_iff in *. destruct Hx as [Hx|Hx]; [left; by apply active_owned|by right]. }
    simpl. split; [intros [[Hx|Hx] Hne]; [congruence|done]|].
    intros Hx. split; [by right|]. intros Heq. apply Hnd. by rewrite Heq.
Qed.

Lemma inv_push t id ps f :
  Inv n {| table := t; tasks := Unmasked id :: ps; fenced_ids := f |} ->
  Inv n {| table := release_push t id; tasks := Pushed :: ps; fenced_ids := f |}.
Proof using Hn.
  intros HI. inv_open HI; try counted H7 H9.
  - rewrite <- H2, <- app_assoc. done.
  - rewrite length_app. simpl. lia.
Qed.

Lemma inv_fence t s fenced t' ps f :
  Inv n {| table := t; tasks := Holding s :: ps; fenced_ids := f |} ->
  fence_count t = (fenced, t') ->
  Inv n {| table := t'; tasks := Counted fenced :: ps; fenced_ids := slot_id s :: f |}.
Proof using Hn.
  intros HI [= <- <-].
  assert (Hlen : (S (length f) <= Z.to_nat n)%nat).
  { pose proof (Permutation_length (inv_partition _ _ HI)) as Hl.
    rewrite length_seqZ in Hl. cbn [tasks fenced_ids table] in Hl.
    rewrite all_owned_cons, !length_app in Hl. simpl in Hl. lia. }
  inv_open HI.
  - rewrite <- H2. apply Permutation_app_head. rewrite (Permutation_middle (all_owned ps)). done.
  - split; [done|]. intros i Hi. rewrite H5' by done. simpl. rewrite !in_app_iff. simpl.
    intuition.
  - simpl. lia.
  - intros Hf. right. left. f_equal. lia.
  - intros Hc. specialize (H8 Hc). lia.
  - intros g [[= <-]|Hg]; [lia|]. specialize (H9 g (or_intror Hg)). lia.
Qed.

Lemma inv_close t fenced ps f :
  Inv n {| table := t; tasks := Counted fenced :: ps; fenced_ids := f |} ->
  Inv n {| table := fence_close t fenced; tasks := Idle :: ps; fenced_ids := f |}.
Proof using Hn.
  intros HI. unfold fence_close.
  destruct (Z.leb_spec (Z.of_nat (length (slots t))) fenced) as [Hle|Hgt]; inv_open HI.
  - intros _. by left.
  - intros _. specialize (H9 fenced (or_introl eq_refl)). lia.
  - intros g [?|?]; [done|apply H9; by right].
  - intros Hf. destruct (H7 Hf) as [?|[[= Hx]|?]]; [by left|lia|right; by right].
  - intros g [?|?]; [done|apply H9; by right].
Qed.

Lemma inv_task_step t p t' p' g ps f :
  task_step t p t' p' g ->
  Inv n {| table := t; tasks := p :: ps; fenced_ids := f |} ->
  Inv n {| table := t'; tasks := p' :: ps; fenced_ids := g ++ f |}.
Proof using Hn.
  intros Hs HI. pose proof (inv_permits _ _ HI) as Hperm. pose proof (inv_target _ _ HI) as Htgt.
  cbn [table] in Hperm, Htgt.
  destruct Hs; simpl app;
    eauto using inv_take, inv_acquired, inv_unmask, inv_push, inv_fence, inv_close.
  all: try (eapply inv_permit_step;
            [exact HI|done|done|done|done|done|done|simpl; lia|simpl; lia|done|done|done|done]).
  - unfold sem_acquire in H. destruct (closed t) eqn:Ec; [done|].
    destruct (Z.leb_spec (permits t) 0); [done|]. injection H as <-.
    eapply inv_permit_step;
      [exact HI|done|done|done|done|done|done|simpl; lia|simpl; lia|done|done|done|done].
  - eapply inv_permit_step; [exact HI|by apply length_alter|done|done|done|done|done|simpl; lia|
      simpl; lia|done|done|done|done].
  - apply update_limits_ok in H1 as [-> Hb]; [|done|done].
    pose proof (inv_slots _ _ HI) as Hsl. cbn [table] in Hsl.
    eapply inv_permit_step;
      [exact HI|done|done|done|done|done|simpl in *; lia|simpl; lia|simpl; lia|done|done|by intros|done].
Qed.

Lemma inv_step c c' : step c c' -> Inv n c -> Inv n c'.
Proof using Hn.
  intros Hs HI. destruct Hs as [[t ps f]|t p t' p' g l1 l2 f Hs].
  - inv_open HI.
    + intros Hf. destruct (H7 Hf); [by left|right; by right].
    + intros g [?|?]; [done|auto].
  - eapply inv_perm; [apply Permutation_middle|].
    eapply inv_task_step; [exact Hs|]. eapply inv_perm; [|exact HI].
    symmetry. apply Permutation_middle.
Qed.

Lemma reachable_inv c : reachable n c -> Inv n c.
Proof using Hn.
  intros Hr. unfold reachable in Hr. remember (initial n) as c0 eqn:Hc0.
  assert (HI : Inv n c0) by (subst; by apply initial_inv). clear Hc0.
  induction Hr; eauto using inv_step.
Qed.
End Preservation.

(** ** Properties of every interleaving *)

Section Reachable.
Context (n : Z) (Hn : 1 <= n <= 64).

Lemma inv_nodup c : Inv n c -> NoDup (free_pool (table c) ++ all_owned (tasks c) ++ fenced_ids c).
Proof using Type. intros HI. rewrite (inv_partition _ _ HI). apply NoDup_seqZ. Qed.

Lemma owned_in c i p id : tasks c !! i = Some p -> In id (owned p) -> In id (all_owned (tasks c)).
Proof using Type.
  intros Hi Hid. unfold all_owned. apply in_concat. exists (owned p). split; [|done].
  apply in_map, list_elem_of_In. by eapply list_elem_of_lookup_2.
Qed.

Lemma nodup_owned_inj ps i j p q id :
  NoDup (all_owned ps) -> ps !! i = Some p -> ps !! j = Some q ->
  In id (owned p) -> In id (owned q) -> i = j.
Proof using Type.
  revert i j. induction ps as [|x ps IH]; intros i j Hnd Hi Hj Hp Hq; [done|].
  rewrite all_owned_cons in Hnd. apply NoDup_app in Hnd as (_ & Hd & Hnd).
  assert (Htail : forall k r, ps !! k = Some r -> In id (owned r) -> id ∈ all_owned ps).
  { intros k r Hk Hr. apply list_elem_of_In.
    apply (owned_in {| table := new 1; tasks := ps; fenced_ids := [] |} k r id Hk Hr). }
  destruct i as [|i], j as [|j]; simpl in Hi, Hj; simplify_eq.
  - done.
  - exfalso. eapply Hd; [by apply list_elem_of_In|]. eauto.
  - exfalso. eapply Hd; [by apply list_elem_of_In|]. eauto.
  - f_equal. by eapply IH.
Qed.

Lemma fenced_not_owned c id :
  Inv n c -> In id (fenced_ids c) -> ~ In id (all_owned (tasks c)).
Proof using Type.
  intros HI Hf Ho. pose proof (inv_nodup c HI) as Hnd.
  apply NoDup_app in Hnd as (_ & _ & Hnd). apply NoDup_app in Hnd as (_ & Hd & _).
  eapply Hd; by apply list_elem_of_In.
Qed.

(** A step keeps every fenced slot fenced and its sequence id unchanged. *)
Lemma step_fenced_frozen c c' id :
  Inv n c -> step c c' -> In id (fenced_ids c) ->
  In id (fenced_ids c') /\ slots (table c') !! Z.to_nat id = slots (table c) !! Z.to_nat id.
Proof using Hn.
  intros HI Hs Hf. pose proof (fenced_not_owned c id HI Hf) as Hno.
  assert (Hid : 0 <= id < n).
  { apply (inv_owned_range n c id HI). rewrite in_app_iff. by right. }
  destruct Hs as [c|t p t' p' g l1 l2 f Hs]; [done|]. cbn [table fenced_ids tasks] in *. split.
  { rewrite in_app_iff. by right. }
  destruct Hs; try done.
  - unfold sem_acquire in H. repeat case_match; naive_solver.
  - apply acquired_ok in H as (_ & _ & _ & _ & ->). done.
  - cbn [advance_slot set_slots slots]. apply list_lookup_alter_ne. intros Heq.
    apply Hno. rewrite all_owned_mid. simpl. left.
    assert (0 <= slot_id s < n); [|lia].
    apply (inv_owned_range n _ _ HI). cbn [tasks]. rewrite all_owned_mid. simpl. by left.
  - unfold release_mask. by destruct (slot_mask _).
  - by injection H0 as <- <-.
  - unfold fence_close. by destruct (_ <=? _).
  - by apply update_limits_ok in H1 as [-> _].
Qed.
End Reachable.

(** A concrete run used by the witnesses: a task acquires slot 0 of two, a
    second task takes slot 1 and is about to publish it. *)
Definition demo_slot : AcquiredSlot := {| slot_id := 0; sequence_id := 1; disposition := Release |}.
Definition demo_table : SlotTable :=
  {| slots := [1; 1]; free_pool := []; permits := 0; closed := false; fenced_slots := 0;
     target_highest_slot_id := 1; active_or_fenced_slots := 1 |}.
Definition demo : config :=
  {| table := demo_table; tasks := [Taken 1; Holding demo_slot]; fenced_ids := [] |}.

(** Extend a concrete run by one access of the task after [l1]. *)
Ltac run_task l1 rule :=
  eapply rtc_l; [eapply (step_task _ _ _ _ _ l1); eapply rule; reflexivity|cbn].
Ltac run_spawn := eapply rtc_l; [apply step_spawn|cbn].

Lemma demo_reachable : reachable 2 demo.
Proof.
  unfold reachable. run_spawn. run_task (@nil phase) step_permit. run_task (@nil phase) step_load.
  run_task (@nil phase) step_take. run_task (@nil phase) step_acquired. run_spawn.
  run_task (@nil phase) step_permit. run_task (@nil phase) step_load.
  run_task (@nil phase) step_take. apply rtc_refl.
Qed.

(** The slot of [demo], marked for fencing, dropped, and counted. *)
Definition demo_fenced : config :=
  {| table := set_fenced demo_table false 1; tasks := [Taken 1; Counted 1]; fenced_ids := [0] |}.

Lemma demo_fenced_reachable : reachable 2 demo_fenced.
Proof.
  unfold reachable. etrans; [apply demo_reachable|].
  run_task [Taken 1] step_fence_on_drop. run_task [Taken 1] step_fence. apply rtc_refl.
Qed.

(** C5: in every interleaving, two tasks never hold (or are acquiring or
    releasing) the same slot, so a slot's sequence id is used by one request
    at a time. *)
Theorem slots_exclusive n c i j p q id :
  1 <= n <= 64 -> reachable n c -> tasks c !! i = Some p -> tasks c !! j = Some q ->
  In id (owned p) -> In id (owned q) -> i = j.
Proof.
  intros Hn Hr Hi Hj Hp Hq. pose proof (inv_nodup n c (reachable_inv n Hn c Hr)) as Hnd.
  apply NoDup_app in Hnd as (_ & _ & Hnd). apply NoDup_app in Hnd as (Hnd & _ & _).
  by eapply (nodup_owned_inj (tasks c)).
Qed.

Lemma slots_exclusive_witness :
  reachable 2 demo /\ tasks demo !! 1%nat = Some (Holding demo_slot) /\ In 0 (owned (Holding demo_slot)) /\
  (forall j q, tasks demo !! j = Some q -> In 0 (owned q) -> j = 1%nat).
Proof.
  split_and!; [apply demo_reachable|reflexivity|by left|]. intros j q Hj Hq.
  apply (slots_exclusive 2 demo j 1 q (Holding demo_slot) 0);
    [lia|apply demo_reachable|exact Hj|reflexivity|exact Hq|by left].
Defined.

(** A slot that was fenced after an ambiguous request stays fenced for the
    rest of the session: its sequence id never changes and no task ever
    acquires it again. *)
Theorem fenced_slot_never_reused n c c' id :
  1 <= n <= 64 -> reachable n c -> rtc step c c' -> In id (fenced_ids c) ->
  In id (fenced_ids c') /\
  slots (table c') !! Z.to_nat id = slots (table c) !! Z.to_nat id /\
  (forall i p, tasks c' !! i = Some p -> ~ In id (owned p)).
Proof.
  intros Hn Hr Hs Hf. pose proof (reachable_inv n Hn c Hr) as HI. clear Hr.
  induction Hs as [c|c c1 c' Hs Hs' IH].
  - split_and!; [done|done|]. intros i p Hi Hp.
    by eapply (fenced_not_owned n c id HI Hf), owned_in.
  - destruct (step_fenced_frozen n Hn c c1 id HI Hs Hf) as [Hf1 He].
    destruct IH as (H1 & H2 & H3); [done|by eapply inv_step|]. by rewrite <- He.
Qed.

Lemma fenced_slot_never_reused_witness :
  In 0 (fenced_ids demo_fenced) /\
  slots (table demo_fenced) !! Z.to_nat 0 = slots (table demo_fenced) !! Z.to_nat 0 /\
  (forall i p, tasks demo_fenced !! i = Some p -> ~ In 0 (owned p)).
Proof.
  apply (fenced_slot_never_reused 2 demo_fenced demo_fenced 0);
    [lia|apply demo_fenced_reachable|apply rtc_refl|by left].
Defined.

(** Once a task has taken a slot from the pool, [acquired] succeeds: the
    bitmap shift is in range and the slot index is inside the table. *)
Theorem acquired_succeeds n c i id :
  1 <= n <= 64 -> reachable n c -> tasks c !! i = Some (Taken id) ->
  exists s t', acquired (table c) id = Ok (s, t') /\ slot_id s = id /\
    slots (table c) !! Z.to_nat id = Some (sequence_id s).
Proof.
  intros Hn Hr Hi. pose proof (reachable_inv n Hn c Hr) as HI.
  assert (Hid : 0 <= id < n).
  { apply (inv_owned_range n c id HI). rewrite in_app_iff. left. eapply owned_in; [done|]. by left. }
  unfold acquired, slot_mask. destruct (Z.ltb_spec id 64); [|lia]. cbn [set_active slots].
  destruct (lookup_lt_is_Some_2 (slots (table c)) (Z.to_nat id)) as [q Hq].
  { pose proof (inv_slots _ _ HI). lia. }
  rewrite Hq. eauto 6.
Qed.

Lemma acquired_succeeds_witness :
  exists s t', acquired (table demo) 1 = Ok (s, t') /\ slot_id s = 1 /\
    slots (table demo) !! Z.to_nat 1 = Some (sequence_id s).
Proof. apply (acquired_succeeds 2 demo 0 1); [lia|apply demo_reachable|reflexivity]. Defined.

(** The highest slot id sent in SEQUENCE bounds every slot in use and is
    itself a slot of the negotiated table. *)
Theorem highest_slot_id_covers_active n c i s :
  1 <= n <= 64 -> reachable n c -> tasks c !! i = Some (Holding s) ->
  0 <= slot_id s <= highest_slot_id (table c) /\ highest_slot_id (table c) < n.
Proof.
  intros Hn Hr Hi. pose proof (reachable_inv n Hn c Hr) as HI.
  pose proof (inv_target _ _ HI) as Ht. destruct (inv_active _ _ HI) as [Ha Hb].
  assert (Hin : In (slot_id s) (all_active (tasks c) ++ fenced_ids c)).
  { rewrite in_app_iff. left. unfold all_active. apply in_concat. exists [slot_id s].
    split; [|by left]. change [slot_id s] with (active (Holding s)).
    apply in_map, list_elem_of_In. by eapply list_elem_of_lookup_2. }
  assert (Hrange : forall j, In j (all_active (tasks c) ++ fenced_ids c) -> 0 <= j < n).
  { intros j Hj. apply (inv_owned_range n c j HI). rewrite in_app_iff in *.
    destruct Hj; [left; by apply active_owned|by right]. }
  pose proof (Hrange _ Hin) as Hs. apply Hb in Hin; [|lia].
  unfold highest_slot_id. set (a := active_or_fenced_slots (table c)) in *.
  destruct (Z.eqb_spec a 0) as [E|E]; [by rewrite E, Z.testbit_0_l in Hin|].
  assert (Hle : slot_id s <= Z.log2 a).
  { destruct (Z.le_gt_cases (slot_id s) (Z.log2 a)); [done|].
    rewrite Z.bits_above_log2 in Hin by lia. done. }
  assert (Hlog : Z.log2 a < n).
  { apply Hrange, Hb; [apply Z.log2_nonneg|]. apply Z.bit_log2. lia. }
  lia.
Qed.

Lemma highest_slot_id_covers_active_witness :
  0 <= slot_id demo_slot <= highest_slot_id (table demo) /\ highest_slot_id (table demo) < 2.
Proof.
  apply (highest_slot_id_covers_active 2 demo 1 demo_slot); [lia|apply demo_reachable|reflexivity].
Defined.

(** No slot or permit leaks: when no task is inside [acquire], [Drop] or
    holding a slot, every slot is either free or fenced, the semaphore has
    exactly one permit per free slot, and it is closed exactly when all slots
    are fenced, so that [acquire] then fails instead of waiting forever. *)
Theorem quiescent_slots_conserved n c :
  1 <= n <= 64 -> reachable n c -> (forall p, In p (tasks c) -> p = Idle \/ p = Waiting) ->
  free_pool (table c) ++ fenced_ids c ≡ₚ seqZ 0 n /\
  permits (table c) = Z.of_nat (length (free_pool (table c))) /\
  permits (table c) = n - fenced_slots (table c) /\
  (closed (table c) = true <-> fenced_slots (table c) = n).
Proof.
  intros Hn Hr Hq. pose proof (reachable_inv n Hn c Hr) as HI.
  assert (Ho : all_owned (tasks c) = [] /\ all_debt (tasks c) = 0).
  { revert Hq. generalize (tasks c). induction l as [|p l IH]; [done|]. intros Hq.
    destruct IH as [IH1 IH2]; [auto with datatypes|].
    rewrite all_owned_cons, all_debt_cons, IH1, IH2.
    by destruct (Hq p (or_introl eq_refl)) as [-> | ->]. }
  destruct Ho as [Ho Hd]. destruct HI as [H1 H2 H3 H4 H5 H6 H7 H8 H9].
  rewrite Ho in H2. rewrite Hd in H3. cbn [app] in H2.
  pose proof (Permutation_length H2) as Hl. rewrite length_app, length_seqZ in Hl.
  split_and!; [done|lia|lia|]. split; [intros Hc; specialize (H8 Hc); lia|].
  intros Hf. destruct (H7 ltac:(lia)) as [Hc|Hc]; [done|].
  destruct (Hq _ Hc); done.
Qed.

Lemma quiescent_slots_conserved_witness :
  free_pool (table (initial 4)) ++ fenced_ids (initial 4) ≡ₚ seqZ 0 4 /\
  permits (table (initial 4)) = Z.of_nat (length (free_pool (table (initial 4)))) /\
  permits (table (initial 4)) = 4 - fenced_slots (table (initial 4)) /\
  (closed (table (initial 4)) = true <-> fenced_slots (table (initial 4)) = 4).
Proof.
  apply (quiescent_slots_conserved 4 (initial 4)); [lia|apply rtc_refl|by intros p []].
Defined.

(** A task that got a permit while the target admits every slot always
    finds a free slot: the permit count never runs ahead of the pool. *)
Theorem permit_implies_free_slot n c i :
  1 <= n <= 64 -> reachable n c -> tasks c !! i = Some (Loaded (n - 1)) ->
  exists id pool, pool_take (n - 1) (free_pool (table c)) = Some (id, pool).
Proof.
  intros Hn Hr Hi. pose proof (reachable_inv n Hn c Hr) as HI.
  destruct (pool_take (n - 1) (free_pool (table c))) as [[id pool]|] eqn:E; [eauto|]. exfalso.
  pose proof (inv_permits _ _ HI) as [Hp Hs].
  apply list_elem_of_split_length in Hi as (l1 & l2 & Hl & _).
  rewrite Hl, all_debt_mid in Hs. pose proof (all_debt_nonneg (l1 ++ l2)). simpl in Hs.
  destruct (free_pool (table c)) as [|id pool] eqn:Ep; [simpl in Hs; lia|].
  pose proof (pool_take_none _ _ id E (or_introl eq_refl)).
  assert (0 <= id < n); [|lia].
  apply (in_seqZ_range n _ id (inv_partition _ _ HI)). rewrite Ep. by left.
Qed.

Definition demo_loaded : config :=
  {| table := set_permits (new 2) 1; tasks := [Loaded 1]; fenced_ids := [] |}.

Lemma permit_implies_free_slot_witness :
  exists id pool, pool_take (2 - 1) (free_pool (table demo_loaded)) = Some (id, pool).
Proof.
  apply (permit_implies_free_slot 2 demo_loaded 0); [lia| |reflexivity].
  unfold reachable. run_spawn. run_task (@nil phase) step_permit.
  run_task (@nil phase) step_load. apply rtc_refl.
Defined.
