(* ===== verification/Xdr4.v ===== *)
(** * Minor-version-independent COMPOUND primitives

    Models [src/src/nfs4/compound.rs] (XDR writers and readers, the v4.0
    builder and the navigation reply), [src/src/nfs4/stateid.rs], and the RPC
    call header and credentials of [src/src/rpc/header.rs] and
    [src/src/rpc/auth.rs]. Writers that append to a buffer are functions from
    values to the bytes they append. *)
From S2P Require Import Prelude Errors.
From stdpp Require Import base list numbers strings.
#[local] Open Scope Z_scope.

(** ** XDR writers *)

Definition xdr_u32 (v : Z) : bytes := be_bytes 4 v.
Definition xdr_u64 (v : Z) : bytes := be_bytes 8 v.
Definition xdr_i64 (v : Z) : bytes := be_bytes 8 v.
Definition xdr_bool (v : bool) : bytes := xdr_u32 (if v then 1 else 0).

(** [xdr_opaque]: length, data, zero padding to a multiple of four. *)
Definition xdr_opaque (value : bytes) : bytes :=
  xdr_u32 (remaining value) ++ value ++ zeros (pad_len (remaining value)).

Definition xdr_bitmap (bitmap : list Z) : bytes :=
  xdr_u32 (Z.of_nat (length bitmap)) ++ concat (map xdr_u32 bitmap).

(** ** XDR readers *)

Definition take_u32 (buf : bytes) (what : string) : result (Z * bytes) :=
  let* _ := require 4 (Xdr (what +:+ " truncated")) buf in
  get_u32 buf.

(** The [checked_add] of the source cannot fail on a 32-bit length held in a
    64-bit [usize]; it is kept as the test it performs. *)
Definition take_opaque (buf : bytes) (what : string) : result (bytes * bytes) :=
  let* (len, buf) := take_u32 buf (what +:+ " length") in
  match checked_add64 len 3 with
  | None => Err (Xdr (what +:+ " length overflow"))
  | Some v =>
      let padded := Z.land v (Z.lnot 3) in
      let* _ := require padded (Xdr (what +:+ " data truncated")) buf in
      let* value := slice_to len buf in
      let* buf := advance padded buf in
      Ok (value, buf)
  end.

Definition check_status (status : Z) : result () :=
  if status =? 0 then Ok ()
  else match try_from status with
       | Some s => Err (Nfs4 s)
       | None => Err (Xdr "invalid NFSv4 status")
       end.

Definition response_ops (buf : bytes) : result (Z * bytes) :=
  let* (status, buf) := take_u32 buf "COMPOUND status" in
  let* _ := check_status status in
  let* (_, buf) := take_opaque buf "COMPOUND tag" in
  let* (count, buf) := take_u32 buf "COMPOUND result count" in
  Ok (count, buf).

Definition OP_GETFH : Z := 10.
Definition OP_LOOKUP : Z := 15.
Definition OP_PUTFH : Z := 22.
Definition OP_PUTROOTFH : Z := 24.

Fixpoint check_navigation (expected_ops : list Z) (buf : bytes) : result bytes :=
  match expected_ops with
  | [] => Ok buf
  | expected_opcode :: expected_ops =>
      let* (opcode, buf) := take_u32 buf "navigation opcode" in
      if negb (opcode =? expected_opcode)
      then Err (Xdr ("navigation opcode " +:+ fmtZ opcode +:+ " does not match " +:+
                     fmtZ expected_opcode))
      else
        let* (status, buf) := take_u32 buf "navigation operation status" in
        let* _ := check_status status in
        check_navigation expected_ops buf
  end.

Definition decode_navigation_response (buf : bytes) (component_count : nat)
    : result (bytes * bytes) :=
  let* (count, buf) := response_ops buf in
  let expected := Z.of_nat component_count + 2 in
  if negb (count =? expected)
  then Err (Xdr ("navigation response has " +:+ fmtZ count +:+ " operations, expected " +:+
                 fmtZ expected))
  else
    let* buf := check_navigation
                  ([OP_PUTROOTFH] ++ replicate component_count OP_LOOKUP ++ [OP_GETFH]) buf in
    take_opaque buf "GETFH filehandle".

(** ** The minor-version-independent builder *)

Module Builder40.

Record CompoundBuilder : Type := {
  tag : bytes;
  minor_version : Z;
  ops : list (Z * bytes);
}.

Definition new (tag : bytes) (minor_version : Z) : CompoundBuilder :=
  {| tag := tag; minor_version := minor_version; ops := [] |}.

Definition operation (b : CompoundBuilder) (opcode : Z) (args : bytes) : CompoundBuilder :=
  {| tag := tag b; minor_version := minor_version b; ops := ops b ++ [(opcode, args)] |}.

Definition putrootfh (b : CompoundBuilder) : CompoundBuilder := operation b OP_PUTROOTFH [].
Definition putfh (b : CompoundBuilder) (fh : bytes) : CompoundBuilder :=
  operation b OP_PUTFH (xdr_opaque fh).
Definition lookup (b : CompoundBuilder) (name : bytes) : CompoundBuilder :=
  operation b OP_LOOKUP (xdr_opaque name).
Definition getfh (b : CompoundBuilder) : CompoundBuilder := operation b OP_GETFH [].

Definition encode_body (b : CompoundBuilder) : bytes :=
  xdr_opaque (tag b) ++ xdr_u32 (minor_version b) ++ xdr_u32 (Z.of_nat (length (ops b))) ++
  concat (map (fun '(opcode, args) => xdr_u32 opcode ++ args) (ops b)).

End Builder40.

(** ** Credentials and the RPC call header *)

Inductive AuthFlavor : Type := Null | Unix.
Definition flavor_u32 (f : AuthFlavor) : Z := match f with Null => 0 | Unix => 1 end.

Record Auth : Type := { flavor : AuthFlavor; uid : Z; gid : Z; body : bytes }.

Definition new_null : Auth := {| flavor := Null; uid := 0; gid := 0; body := [] |}.

Record AuthUnix : Type := {
  stamp : Z; machinename : bytes; unix_uid : Z; unix_gid : Z; gids : list Z
}.

Definition AuthUnix_encode (a : AuthUnix) : bytes :=
  be_bytes 4 (stamp a) ++ be_bytes 4 (remaining (machinename a)) ++ machinename a ++
  zeros (pad_len (remaining (machinename a))) ++
  be_bytes 4 (unix_uid a) ++ be_bytes 4 (unix_gid a) ++
  be_bytes 4 (Z.of_nat (length (gids a))) ++ concat (map (be_bytes 4) (gids a)).

(** [Auth::new_unix]; [stamp] is the current time, read by the caller. *)
Definition new_unix (stamp : Z) (machinename : bytes) (uid gid : Z) : Auth :=
  {| flavor := Unix; uid := uid; gid := gid;
     body := AuthUnix_encode {| stamp := stamp; machinename := machinename;
                                unix_uid := uid; unix_gid := gid; gids := [] |} |}.

Definition Auth_encode (a : Auth) : bytes :=
  be_bytes 4 (flavor_u32 (flavor a)) ++ be_bytes 4 (remaining (body a)) ++ body a ++
  zeros (pad_len (remaining (body a))).

Record Header : Type := {
  rpcvers : Z; prog : Z; vers : Z; proc : Z; cred : Auth; verf : Auth
}.

Definition Header_encode (h : Header) : bytes :=
  be_bytes 4 (rpcvers h) ++ be_bytes 4 (prog h) ++ be_bytes 4 (vers h) ++ be_bytes 4 (proc h) ++
  Auth_encode (cred h) ++ Auth_encode (verf h).

Definition RPC_VERSION : Z := 2.

Definition rpc_header (prog vers proc : Z) (cred : Auth) : Header :=
  {| rpcvers := RPC_VERSION; prog := prog; vers := vers; proc := proc; cred := cred;
     verf := new_null |}.

Definition encode_with_header40 (b : Builder40.CompoundBuilder) (auth : Auth) : bytes :=
  Header_encode (rpc_header 100003 4 1 auth) ++ Builder40.encode_body b.

(** ** State ids *)

Record StateId : Type := { raw : bytes; generation : Z }.
#[global] Instance StateId_eq_dec : EqDecision StateId.
Proof. solve_decision. Defined.

Definition anonymous : StateId := {| raw := zeros 16; generation := 0 |}.
Definition from_bytes_at (b : bytes) (generation : Z) : StateId :=
  {| raw := b; generation := generation |}.

(** ** Codecs *)

(** What a writer and a reader of one XDR type promise each other: the reader
    gives back the value and leaves what follows it, on every well-formed
    value and whatever bytes follow. *)
Class Codec (A : Type) : Type := {
  encode : A -> bytes;
  decode : bytes -> result (A * bytes);
  encodable : A -> Prop;
  decode_encode : forall a rest, encodable a -> decode (encode a ++ rest) = Ok (a, rest);
}.

(** A counted sequence of values with a codec. *)
Lemma collect_codec `{Codec A} (l : list A) rest :
  Forall encodable l ->
  collect (Z.of_nat (length l)) decode (concat (map encode l) ++ rest) = Ok (l, rest).
Proof.
  intros Hl. apply collect_encoded. intros a r Ha. apply decode_encode.
  rewrite Forall_forall in Hl. apply Hl. by apply list_elem_of_In.
Qed.

Lemma remaining_xdr_u32 v : remaining (xdr_u32 v) = 4.
Proof. apply (remaining_be 4). Qed.
Lemma remaining_xdr_u64 v : remaining (xdr_u64 v) = 8.
Proof. apply (remaining_be 8). Qed.

Lemma remaining_xdr_opaque v : remaining (xdr_opaque v) = 4 + padded (remaining v).
Proof.
  unfold xdr_opaque. rewrite !remaining_app, remaining_xdr_u32, remaining_zeros, padded_pad_len;
    [lia|]. pose proof (pad_len_range (remaining v)). lia.
Qed.

Lemma remaining_concat_u32 l : remaining (concat (map xdr_u32 l)) = 4 * Z.of_nat (length l).
Proof.
  induction l as [|x l IH]; [done|]. cbn [map concat]. rewrite remaining_app, remaining_xdr_u32, IH.
  cbn [length]. lia.
Qed.

(** A buffer that starts with [a] has room for [n <= |a|] bytes. *)
Lemma require_app (n : Z) (e : NfsError) a b :
  n <= remaining a -> require n e (a ++ b) = Ok ().
Proof.
  intros H. apply require_ok. rewrite remaining_app. pose proof (remaining_nonneg b). lia.
Qed.

Lemma take_u32_enc v what rest :
  is_u32 v -> take_u32 (xdr_u32 v ++ rest) what = Ok (v, rest).
Proof.
  intros Hv. unfold take_u32. rewrite require_app by (by rewrite remaining_xdr_u32).
  by apply get_u32_be.
Qed.

(** The body of an opaque, once its length is known. *)
Lemma opaque_body (v rest : bytes) :
  let buf := v ++ zeros (pad_len (remaining v)) ++ rest in
  (forall e : NfsError, require (padded (remaining v)) e buf = Ok ()) /\
  slice_to (E := NfsError) (remaining v) buf = Ok v /\
  advance (E := NfsError) (padded (remaining v)) buf = Ok rest.
Proof.
  intros buf. unfold buf. pose proof (pad_len_range (remaining v)) as Hp.
  assert (Hl : remaining (v ++ zeros (pad_len (remaining v))) = padded (remaining v)).
  { rewrite remaining_app, remaining_zeros, padded_pad_len; lia. }
  split_and!.
  - intros e. rewrite app_assoc. apply require_app. lia.
  - by apply slice_to_app.
  - rewrite app_assoc. by apply advance_app.
Qed.

Lemma checked_pad len : is_u32 len -> checked_add64 len 3 = Some (len + 3).
Proof. intros H. unfold checked_add64. destruct (Z.leb_spec (len + 3) u64_max); [done|ilia]. Qed.

Lemma take_opaque_eq buf what :
  take_opaque buf what =
  let* (len, buf) := take_u32 buf (what +:+ " length") in
  let* _ := require (padded len) (Xdr (what +:+ " data truncated")) buf in
  let* value := slice_to len buf in
  let* buf := advance (padded len) buf in
  Ok (value, buf).
Proof.
  unfold take_opaque, take_u32, require.
  destruct (Z.ltb_spec (remaining buf) 4) as [|Hr]; [done|]. cbn [obind].
  pose proof (wpo_get_u32 (E := NfsError) buf (fun '(v, _) => is_u32 v) Hr
    ltac:(by intros v rest Hv _ _)) as Hw.
  destruct (get_u32 buf) as [[len rest]| |]; cbn [obind]; [|done|done].
  by rewrite (checked_pad len Hw).
Qed.

Lemma take_opaque_enc v what rest :
  remaining v < 2 ^ 32 -> take_opaque (xdr_opaque v ++ rest) what = Ok (v, rest).
Proof.
  intros Hv. rewrite take_opaque_eq. unfold xdr_opaque. rewrite <- !app_assoc.
  rewrite take_u32_enc by (pose proof (remaining_nonneg v); ilia). cbn [obind].
  destruct (opaque_body v rest) as (H1 & H2 & H3). by rewrite H1; cbn; rewrite H2; cbn; rewrite H3.
Qed.

#[global] Instance u32_codec : Codec Z :=
  {| encode := xdr_u32; decode := fun b => take_u32 b "u32"; encodable := is_u32;
     decode_encode := fun v rest H => take_u32_enc v "u32" rest H |}.

#[global] Instance opaque_codec : Codec bytes :=
  {| encode := xdr_opaque; decode := fun b => take_opaque b "opaque";
     encodable := fun v => remaining v < 2 ^ 32;
     decode_encode := fun v rest H => take_opaque_enc v "opaque" rest H |}.

(** Readers do not panic on any input, and consume a prefix of it. *)
Lemma wpo_take_u32 buf what :
  wpo (take_u32 buf what) (fun '(v, rest) =>
    is_u32 v /\ rest `suffix_of` buf /\ remaining rest = remaining buf - 4).
Proof. unfold take_u32. wp. auto. Qed.

Lemma wpo_take_opaque buf what :
  wpo (take_opaque buf what) (fun '(v, rest) =>
    remaining v < 2 ^ 32 /\ rest `suffix_of` buf /\
    remaining rest = remaining buf - 4 - padded (remaining v)).
Proof.
  rewrite take_opaque_eq. apply wpo_bind. wp_call wpo_take_u32. intros [len rest] (Hl & Hs & Hr).
  pose proof (padded_ge len). wp. subst. repeat split; [ilia|suffix_tac|rlia].
Qed.
