(* ===== verification/Acl4.v ===== *)
(** * NFSv4 access control lists

    Models [src/src/nfs4/acl.rs], the ACL types of [src/src/mount.rs], and the
    two readers of [src/src/nfs4/attrs.rs] that the ACL code shares
    ([decode_utf8str], [decode_getattr_envelope]). *)
From S2P Require Import Prelude Errors Xdr4.
From stdpp Require Import base list numbers strings.
#[local] Open Scope Z_scope.

(** ** Readers shared with the attribute decoder *)

(** [decode_utf8str]; the text of the standard library's UTF-8 error is not
    part of the message. *)
Definition decode_utf8str (buf : bytes) : result (bytes * bytes) :=
  let* _ := require 4 (Xdr "utf8str length truncated") buf in
  let* (len, buf) := get_u32 buf in
  let* _ := require (padded len) (Xdr "utf8str data truncated") buf in
  let* s := slice_to len buf in
  let* buf := advance (padded len) buf in
  if utf8_valid s then Ok (s, buf) else Err (Xdr "invalid UTF-8 in string attribute").

Definition bitmap_word (buf : bytes) : result (Z * bytes) :=
  let* _ := require 4 (Xdr "GETATTR bitmap word truncated") buf in
  get_u32 buf.

(** Result: bitmap, attribute values, rest of the buffer. *)
Definition decode_getattr_envelope (data : bytes) : result (list Z * bytes * bytes) :=
  let* _ := require 4 (Xdr "GETATTR bitmap length truncated") data in
  let* (bitmap_len, data) := get_u32 data in
  if 16 <? bitmap_len
  then Err (Xdr ("GETATTR bitmap has " +:+ fmtZ bitmap_len +:+ " words, max 16"))
  else
    let* (bitmap, data) := collect bitmap_len bitmap_word data in
    let* _ := require 4 (Xdr "GETATTR attr_vals length truncated") data in
    let* (vals_len, data) := get_u32 data in
    let* _ := require vals_len (Xdr "GETATTR attr_vals truncated") data in
    let* (vals, data) := split_to vals_len data in
    let pad := pad_len vals_len in
    if pad <=? remaining data
    then let* data := advance pad data in Ok (bitmap, vals, data)
    else Ok (bitmap, vals, data).

(** ** Data *)

Inductive AceType : Type := AccessAllowed | AccessDenied | SystemAudit | SystemAlarm.
#[global] Instance AceType_eq_dec : EqDecision AceType.
Proof. solve_decision. Defined.

Definition AceType_u32 (t : AceType) : Z :=
  match t with AccessAllowed => 0 | AccessDenied => 1 | SystemAudit => 2 | SystemAlarm => 3 end.

Definition AceType_try_from (v : Z) : result AceType :=
  match v with
  | 0 => Ok AccessAllowed
  | 1 => Ok AccessDenied
  | 2 => Ok SystemAudit
  | 3 => Ok SystemAlarm
  | _ => Err (Xdr ("unknown ACE type " +:+ fmtZ v))
  end.

(** [AceFlags] and [AceMask] are their 32-bit words. *)
Record NfsAce : Type := { ace_type : AceType; flags : Z; access_mask : Z; who : bytes }.
#[global] Instance NfsAce_eq_dec : EqDecision NfsAce.
Proof. solve_decision. Defined.

Record Acl : Type := { aces : list NfsAce }.
#[global] Instance Acl_eq_dec : EqDecision Acl.
Proof. solve_decision. Defined.

Record NfsAcl41 : Type := { acl41_flags : Z; acl41_aces : list NfsAce }.

Definition MAX_ACES : Z := 8192.

(** [AceFlags::contains], [AceMask::contains], [AclSupport::supports]. *)
Definition contains (word flag : Z) : bool := negb (Z.land word flag =? 0).

(** ** Decoding *)

Definition decode_nfsace4 (buf : bytes) : result (NfsAce * bytes) :=
  let* _ := require 12 (Xdr "nfsace4 truncated") buf in
  let* (t, buf) := get_u32 buf in
  let* t := AceType_try_from t in
  let* (f, buf) := get_u32 buf in
  let* (m, buf) := get_u32 buf in
  let* (w, buf) := decode_utf8str buf in
  Ok ({| ace_type := t; flags := f; access_mask := m; who := w |}, buf).

Definition decode_acl (buf : bytes) : result (Acl * bytes) :=
  let* _ := require 4 (Xdr "ACL count truncated") buf in
  let* (count, buf) := get_u32 buf in
  if MAX_ACES <? count
  then Err (Xdr ("ACL has " +:+ fmtZ count +:+ " entries, max " +:+ fmtZ MAX_ACES))
  else
    let* (l, buf) := collect count decode_nfsace4 buf in
    Ok ({| aces := l |}, buf).

Definition skip_nfsace4 (buf : bytes) : result bytes :=
  let* _ := require 12 (Xdr "nfsace4 truncated") buf in
  let* buf := advance 12 buf in
  let* _ := require 4 (Xdr "nfsace4 who length truncated") buf in
  let* (len, buf) := get_u32 buf in
  let* _ := require (padded len) (Xdr "nfsace4 who data truncated") buf in
  advance (padded len) buf.

Definition skip_acl (buf : bytes) : result bytes :=
  let* _ := require 4 (Xdr "ACL count truncated") buf in
  let* (count, buf) := get_u32 buf in
  if MAX_ACES <? count
  then Err (Xdr ("ACL has " +:+ fmtZ count +:+ " entries, max " +:+ fmtZ MAX_ACES))
  else for_count count skip_nfsace4 buf.

Definition skip_acl41 (buf : bytes) : result bytes :=
  let* _ := require 4 (Xdr "NFSv4.1 ACL flags truncated") buf in
  let* buf := advance 4 buf in
  skip_acl buf.

(** ** Encoding *)

Definition encode_nfsace4 (a : NfsAce) : bytes :=
  be_bytes 4 (AceType_u32 (ace_type a)) ++ be_bytes 4 (flags a) ++ be_bytes 4 (access_mask a) ++
  be_bytes 4 (remaining (who a)) ++ who a ++ zeros (pad_len (remaining (who a))).

Definition encode_acl (acl : Acl) : bytes :=
  be_bytes 4 (Z.of_nat (length (aces acl))) ++ concat (map encode_nfsace4 (aces acl)).

Definition attrnum_ACL : Z := 12.
Definition attrnum_ACLSUPPORT : Z := 13.
Definition attrnum_DACL : Z := 58.
Definition attrnum_SACL : Z := 59.
Definition attrnum_FILEHANDLE : Z := 19.
Definition attrnum_FILEID : Z := 20.
Definition attrnum_MODE : Z := 33.

Definition encode_setattr_acl (acl : Acl) : list Z * bytes :=
  ([Z.shiftl 1 attrnum_ACL], encode_acl acl).

(** [debug_assert!] panics only in debug builds and is not modelled. *)
Definition encode_setattr_acl41 (acl : NfsAcl41) (attribute : Z) : list Z * bytes :=
  ([0; Z.shiftl 1 (attribute - 32)],
   be_bytes 4 (acl41_flags acl) ++ encode_acl {| aces := acl41_aces acl |}).

(** ** GETATTR replies *)

Definition first_word (bitmap : list Z) : Z := default 0 (bitmap !! 0%nat).

Definition decode_getattr_acl (data : bytes) : result (Acl * bytes) :=
  let* (bitmap, vals, data) := decode_getattr_envelope data in
  let word0 := first_word bitmap in
  if Z.land word0 (Z.shiftl 1 attrnum_ACL) =? 0
  then Err (Xdr "server did not return FATTR4_ACL")
  else if negb (Z.land word0 (Z.shiftl 1 attrnum_ACL - 1) =? 0)
  then Err (Xdr "server returned unexpected attributes before FATTR4_ACL")
  else let* (acl, _) := decode_acl vals in Ok (acl, data).

Definition decode_getattr_aclsupport (data : bytes) : result (Z * bytes) :=
  let* (bitmap, vals, data) := decode_getattr_envelope data in
  let word0 := first_word bitmap in
  if Z.land word0 (Z.shiftl 1 attrnum_ACLSUPPORT) =? 0
  then Err (Xdr "server did not return FATTR4_ACLSUPPORT")
  else if negb (Z.land word0 (Z.shiftl 1 attrnum_ACLSUPPORT - 1) =? 0)
  then Err (Xdr "server returned unexpected attributes before FATTR4_ACLSUPPORT")
  else
    let* _ := require 4 (Xdr "ACLSUPPORT value truncated") vals in
    let* (v, _) := get_u32 vals in Ok (v, data).

Definition decode_getattr_acl41 (data : bytes) (attribute : Z) : result (NfsAcl41 * bytes) :=
  let* (bitmap, vals, data) := decode_getattr_envelope data in
  let word1 := default 0 (bitmap !! 1%nat) in
  let bit := Z.shiftl 1 (attribute - 32) in
  if Z.land word1 bit =? 0
  then Err (Unsupported ("server does not support NFSv4.1 ACL attribute " +:+ fmtZ attribute))
  else
    let* _ := require 4 (Xdr "NFSv4.1 ACL flags truncated") vals in
    let* (f, vals) := get_u32 vals in
    let* (acl, _) := decode_acl vals in
    Ok ({| acl41_flags := f; acl41_aces := aces acl |}, data).

(** [attrnotsupp_as_unsupported] *)
Definition attrnotsupp_as_unsupported {T : Type} (operation : string) (r : result T) : result T :=
  match r with
  | Err (Nfs4 NFS4ERR_ATTRNOTSUPP) =>
      Err (Unsupported (operation +:+
        " is unavailable for this request: server returned NFS4ERR_ATTRNOTSUPP"))
  | other => other
  end.

(** ** Reading back encodings *)

Lemma decode_utf8str_enc s rest :
  utf8_valid s = true -> remaining s < 2 ^ 32 ->
  decode_utf8str (xdr_opaque s ++ rest) = Ok (s, rest).
Proof.
  intros Hu Hs. unfold decode_utf8str, xdr_opaque. rewrite <- !app_assoc.
  rewrite require_app by (by rewrite remaining_xdr_u32). cbn [obind].
  unfold xdr_u32. rewrite get_u32_be by (pose proof (remaining_nonneg s); ilia). cbn [obind].
  destruct (opaque_body s rest) as (H1 & H2 & H3).
  rewrite H1; cbn [obind]. rewrite H2; cbn [obind]. rewrite H3; cbn [obind]. by rewrite Hu.
Qed.

Definition ace_ok (a : NfsAce) : Prop :=
  is_u32 (flags a) /\ is_u32 (access_mask a) /\ utf8_valid (who a) = true /\
  remaining (who a) < 2 ^ 32.

Lemma AceType_round t : AceType_try_from (AceType_u32 t) = Ok t.
Proof. by destruct t. Qed.

Lemma encode_nfsace4_alt a :
  encode_nfsace4 a = be_bytes 4 (AceType_u32 (ace_type a)) ++ be_bytes 4 (flags a) ++
                     be_bytes 4 (access_mask a) ++ xdr_opaque (who a).
Proof. unfold encode_nfsace4, xdr_opaque, xdr_u32. by rewrite <- ?app_assoc. Qed.

Lemma decode_nfsace4_enc a rest :
  ace_ok a -> decode_nfsace4 (encode_nfsace4 a ++ rest) = Ok (a, rest).
Proof.
  intros (Hf & Hm & Hu & Hw). unfold decode_nfsace4. rewrite encode_nfsace4_alt, <- !app_assoc.
  rewrite require_ok by (rewrite !remaining_app, !remaining_be;
    pose proof (remaining_nonneg (xdr_opaque (who a)));
    pose proof (remaining_nonneg rest); lia).
  cbn [obind]. rewrite get_u32_be by (destruct (ace_type a); ilia). cbn [obind].
  rewrite AceType_round. cbn [obind]. rewrite get_u32_be by done. cbn [obind].
  rewrite get_u32_be by done. cbn [obind]. rewrite decode_utf8str_enc by done.
  by destruct a.
Qed.

#[global] Instance ace_codec : Codec NfsAce :=
  {| encode := encode_nfsace4; decode := decode_nfsace4; encodable := ace_ok;
     decode_encode := decode_nfsace4_enc |}.

Definition acl_ok (acl : Acl) : Prop :=
  Z.of_nat (length (aces acl)) <= MAX_ACES /\ Forall ace_ok (aces acl).

Lemma decode_acl_enc acl rest :
  acl_ok acl -> decode_acl (encode_acl acl ++ rest) = Ok (acl, rest).
Proof.
  intros [Hl Ha]. unfold decode_acl, encode_acl, MAX_ACES in *. rewrite <- app_assoc.
  rewrite require_app by (by rewrite remaining_be). cbn [obind].
  rewrite get_u32_be by ilia. cbn [obind].
  destruct (Z.ltb_spec 8192 (Z.of_nat (length (aces acl)))); [lia|].
  pose proof (collect_codec (H := ace_codec) (aces acl) rest Ha) as Hc. cbn in Hc.
  rewrite Hc. by destruct acl.
Qed.

#[global] Instance acl_codec : Codec Acl :=
  {| encode := encode_acl; decode := decode_acl; encodable := acl_ok;
     decode_encode := decode_acl_enc |}.

Lemma bitmap_word_enc w rest : is_u32 w -> bitmap_word (xdr_u32 w ++ rest) = Ok (w, rest).
Proof.
  intros Hw. unfold bitmap_word. rewrite require_app by (by rewrite remaining_xdr_u32).
  by apply get_u32_be.
Qed.

(** A [fattr4] written as a bitmap followed by an opaque is split correctly. *)
Lemma decode_getattr_envelope_enc bitmap vals rest :
  (length bitmap <= 16)%nat -> Forall is_u32 bitmap -> remaining vals < 2 ^ 32 ->
  decode_getattr_envelope (xdr_bitmap bitmap ++ xdr_opaque vals ++ rest) = Ok (bitmap, vals, rest).
Proof.
  intros Hn Hb Hv. pose proof (remaining_nonneg vals). pose proof (pad_len_range (remaining vals)).
  unfold decode_getattr_envelope, xdr_bitmap. rewrite <- !app_assoc.
  rewrite require_app by (by rewrite remaining_xdr_u32). cbn [obind].
  unfold xdr_u32 at 1. rewrite get_u32_be by ilia. cbn [obind].
  destruct (Z.ltb_spec 16 (Z.of_nat (length bitmap))); [lia|].
  rewrite (collect_encoded xdr_u32).
  2:{ intros a r Ha. apply bitmap_word_enc. rewrite Forall_forall in Hb.
      apply Hb. by apply list_elem_of_In. }
  cbn [obind]. unfold xdr_opaque. rewrite <- !app_assoc.
  rewrite require_app by (by rewrite remaining_xdr_u32). cbn [obind].
  unfold xdr_u32. rewrite get_u32_be by ilia. cbn [obind].
  rewrite require_app by lia. cbn [obind]. rewrite split_to_app by done. cbn [obind].
  destruct (Z.leb_spec (pad_len (remaining vals))
    (remaining (zeros (pad_len (remaining vals)) ++ rest))) as [_|Hlt].
  - by rewrite advance_app by (apply remaining_zeros; lia).
  - rewrite remaining_app, remaining_zeros in Hlt by lia. pose proof (remaining_nonneg rest). lia.
Qed.

(** ** Totality of the decoders *)

Lemma wpo_decode_utf8str buf :
  wpo (decode_utf8str buf) (fun '(s, rest) =>
    utf8_valid s = true /\ remaining s < 2 ^ 32 /\ rest `suffix_of` buf).
Proof.
  unfold decode_utf8str. wp. pose proof (padded_ge v). wp. repeat split; [done|ilia|suffix_tac].
Qed.

Lemma wpo_AceType v : wpo (AceType_try_from v) (fun _ => True).
Proof. unfold AceType_try_from. repeat case_match; done. Qed.

Lemma wpo_decode_nfsace4 buf :
  wpo (decode_nfsace4 buf) (fun '(a, rest) => ace_ok a /\ rest `suffix_of` buf).
Proof.
  unfold decode_nfsace4. wp. wp_call wpo_AceType. intros t _. wp.
  wp_call wpo_decode_utf8str. intros [w r] (Hu & Hl & Hs). wp.
  split; [unfold ace_ok; auto|suffix_tac].
Qed.

Lemma wpo_decode_acl buf :
  wpo (decode_acl buf) (fun '(acl, rest) => acl_ok acl /\ rest `suffix_of` buf).
Proof.
  unfold decode_acl. wp. bool_hyps.
  destruct (collect v decode_nfsace4 rest) as [[l r]| |] eqn:E; cbn.
  - pose proof (collect_length v _ _ l r ltac:(ilia) E) as Hlen.
    pose proof (wpo_collect v decode_nfsace4 ace_ok rest
      (fun '(l, r) => Forall ace_ok l /\ r `suffix_of` rest)
      ltac:(intros; apply wpo_decode_nfsace4) ltac:(done)) as Hw.
    rewrite E in Hw. destruct Hw. split; [split; [cbn [aces]; lia|done]|suffix_tac].
  - done.
  - pose proof (wpo_collect v decode_nfsace4 ace_ok rest (fun _ => True)
      ltac:(intros; apply wpo_decode_nfsace4) ltac:(done)) as Hw. by rewrite E in Hw.
Qed.

Lemma wpo_skip_nfsace4 buf : wpo (skip_nfsace4 buf) (fun rest => rest `suffix_of` buf).
Proof. unfold skip_nfsace4. wp. pose proof (padded_ge v). wp. suffix_tac. Qed.

Lemma wpo_skip_acl buf : wpo (skip_acl buf) (fun rest => rest `suffix_of` buf).
Proof.
  unfold skip_acl. wp. apply wpo_for_count with (I := fun b => b `suffix_of` buf).
  - suffix_tac.
  - intros b Hb. wp_call wpo_skip_nfsace4. intros r Hr. suffix_tac.
  - done.
Qed.

Lemma wpo_skip_acl41 buf : wpo (skip_acl41 buf) (fun rest => rest `suffix_of` buf).
Proof. unfold skip_acl41. wp. wp_call wpo_skip_acl. intros r Hr. suffix_tac. Qed.

Lemma wpo_bitmap_word buf :
  wpo (bitmap_word buf) (fun '(w, rest) => is_u32 w /\ rest `suffix_of` buf).
Proof. unfold bitmap_word. wp. auto. Qed.

Lemma wpo_decode_getattr_envelope data :
  wpo (decode_getattr_envelope data) (fun '(bitmap, vals, rest) =>
    Forall is_u32 bitmap /\ rest `suffix_of` data).
Proof.
  unfold decode_getattr_envelope. wp.
  apply wpo_collect with (P := is_u32); [intros; apply wpo_bitmap_word|].
  intros l r Hl Hr. pose proof pad_len_range as Hp. wp; try (split; [done|suffix_tac]).
  specialize (Hp v0). bool_hyps. wp. split; [done|suffix_tac].
Qed.

(** Skipping one ACE leaves the same rest as decoding it. *)
Lemma skip_nfsace4_decode buf a rest :
  decode_nfsace4 buf = Ok (a, rest) -> skip_nfsace4 buf = Ok rest.
Proof.
  unfold decode_nfsace4, skip_nfsace4, require.
  destruct (Z.ltb_spec (remaining buf) 12) as [|H12]; [done|]. cbn [obind].
  unfold get_u32, get_uint, advance.
  destruct (Z.ltb_spec (remaining buf) (Z.of_nat 4)); [done|]. cbn [obind].
  destruct (AceType_try_from _); cbn [obind]; try done.
  destruct (Z.ltb_spec (remaining (skipn 4 buf)) (Z.of_nat 4)); [done|]. cbn [obind].
  destruct (Z.ltb_spec (remaining (skipn 4 (skipn 4 buf))) (Z.of_nat 4)); [done|]. cbn [obind].
  destruct (Z.ltb_spec (remaining buf) 12); [lia|]. cbn [obind].
  rewrite !drop_drop. change (Z.to_nat 12) with (4 + 4 + 4)%nat. cbn [Nat.add].
  unfold decode_utf8str, require, get_u32, get_uint, slice_to, advance.
  destruct (Z.ltb_spec (remaining (skipn 12 buf)) 4); [done|]. cbn [obind].
  destruct (Z.ltb_spec (remaining (skipn 12 buf)) (Z.of_nat 4)); [done|]. cbn [obind].
  set (len := be_val _). destruct (Z.ltb_spec (remaining (skipn 4 (skipn 12 buf))) (padded len));
    [done|]. cbn [obind].
  destruct (_ <? len); [done|]. cbn [obind]. destruct (utf8_valid _); [|done]. cbn [obind].
  rewrite drop_drop in *. cbn [Nat.add] in *.
  destruct (Z.ltb_spec (remaining (skipn 16 buf)) (padded len)); [lia|]. cbn [obind].
  by intros [= _ <-].
Qed.

Lemma skip_loop_decode n acc buf l rest :
  loop_nat n (fun '(acc, buf) => let* (a, buf) := decode_nfsace4 buf in Ok (acc ++ [a], buf))
    (acc, buf) = Ok (l, rest) ->
  loop_nat n skip_nfsace4 buf = Ok rest.
Proof.
  revert acc buf. induction n as [|n IH]; intros acc buf; simpl.
  - by intros [= _ <-].
  - destruct (decode_nfsace4 buf) as [[a b]| |] eqn:E; simpl; try done.
    intros H. rewrite (skip_nfsace4_decode _ _ _ E). simpl. eauto.
Qed.

Lemma skip_acl_decode buf acl rest : decode_acl buf = Ok (acl, rest) -> skip_acl buf = Ok rest.
Proof.
  unfold decode_acl, skip_acl. destruct (require _ _ _); simpl; try done.
  destruct (get_u32 buf) as [[count b]| |]; simpl; try done.
  destruct (MAX_ACES <? count); [done|].
  rewrite collect_nat, for_count_nat. intros H.
  destruct (loop_nat _ _ _) as [[l r]| |] eqn:E; simpl in H; try done.
  injection H as _ <-. by eapply skip_loop_decode.
Qed.

(** ** Properties *)

(** An ACL that SETATTR writes is read back unchanged from a GETATTR reply
    carrying the same attribute, for every ACL of at most 8192 entries with
    valid UTF-8 principals. *)
Theorem acl_setattr_getattr_roundtrip acl rest :
  acl_ok acl -> remaining (encode_acl acl) < 2 ^ 32 ->
  let '(mask, vals) := encode_setattr_acl acl in
  decode_getattr_acl (xdr_bitmap mask ++ xdr_opaque vals ++ rest) = Ok (acl, rest).
Proof.
  intros Hok Hlen. unfold encode_setattr_acl, decode_getattr_acl.
  rewrite decode_getattr_envelope_enc; [|simpl; lia|repeat constructor; by vm_compute|done].
  cbn [obind]. pose proof (decode_acl_enc acl [] Hok) as Hd. rewrite app_nil_r in Hd.
  change (first_word [Z.shiftl 1 attrnum_ACL]) with 4096. cbn -[decode_acl encode_acl].
  by rewrite Hd.
Qed.

Definition demo_acl : Acl :=
  {| aces := [{| ace_type := AccessAllowed; flags := 0; access_mask := 1; who := of_str "OWNER@" |};
              {| ace_type := AccessDenied; flags := 64; access_mask := 2; who := of_str "a" |}] |}.

Lemma acl_setattr_getattr_roundtrip_witness :
  decode_getattr_acl (xdr_bitmap (encode_setattr_acl demo_acl).1 ++
                      xdr_opaque (encode_setattr_acl demo_acl).2 ++ []) = Ok (demo_acl, []).
Proof.
  apply (acl_setattr_getattr_roundtrip demo_acl []).
  - split; [by vm_compute|]. repeat constructor; cbn; unfold is_u32; try lia; reflexivity.
  - by vm_compute.
Defined.

(** Wherever decoding an ACL succeeds, skipping it (as is done for DACL
    and SACL values that are not requested) leaves exactly the same remaining
    input, so the attributes after it stay aligned. *)
Theorem skip_acl41_agrees_with_decode buf acl rest :
  4 <= remaining buf -> decode_acl (skipn 4 buf) = Ok (acl, rest) -> skip_acl41 buf = Ok rest.
Proof.
  intros Hf Hd. unfold skip_acl41, require, advance.
  destruct (Z.ltb_spec (remaining buf) 4); [lia|]. cbn [obind].
  change (Z.to_nat 4) with 4%nat. by eapply skip_acl_decode.
Qed.

Lemma skip_acl41_agrees_with_decode_witness :
  skip_acl41 (be_bytes 4 1 ++ encode_acl demo_acl ++ zeros 3) = Ok (zeros 3).
Proof.
  apply (skip_acl41_agrees_with_decode _ demo_acl); by vm_compute.
Defined.
