(* ===== verification/Attrs4.v ===== *)
(** * File attributes

    Models [src/src/nfs4/attrs.rs]: the GETATTR bitmap, the SETATTR encoder and
    the [fattr4] decoder, which reads the attributes present in a bitmap in
    increasing attribute number, keeping those of [Attr] and skipping the rest.
    [Attr] and [Time] are those of [src/src/mount.rs] and [src/src/shared.rs]. *)
From S2P Require Import Prelude Errors Xdr4 Acl4.
From stdpp Require Import base list numbers strings.
#[local] Open Scope Z_scope.

(** ** Data *)

Record Time : Type := { seconds : Z; nseconds : Z }.

Record Attr : Type := {
  a_type_ : Z;
  a_file_mode : Z;
  a_nlink : Z;
  a_uid : Z;
  a_gid : Z;
  a_filesize : Z;
  a_used : Z;
  a_spec_data : Z * Z;
  a_fsid : Z;
  a_fileid : Z;
  a_atime : Time;
  a_mtime : Time;
  a_ctime : Time;
  a_acl : option Acl;
  a_owner : bytes;
  a_owner_group : bytes;
  a_filehandle : bytes;
}.

Definition time_zero : Time := {| seconds := 0; nseconds := 0 |}.

Definition Attr_default : Attr :=
  {| a_type_ := 0; a_file_mode := 0; a_nlink := 0; a_uid := 0; a_gid := 0; a_filesize := 0;
     a_used := 0; a_spec_data := (0, 0); a_fsid := 0; a_fileid := 0; a_atime := time_zero;
     a_mtime := time_zero; a_ctime := time_zero; a_acl := None; a_owner := [];
     a_owner_group := []; a_filehandle := [] |}.

(** Field assignments of the decoder. *)
Definition set_type (v : Z) (a : Attr) : Attr :=
  {| a_type_ := v; a_file_mode := a_file_mode a; a_nlink := a_nlink a; a_uid := a_uid a;
     a_gid := a_gid a; a_filesize := a_filesize a; a_used := a_used a;
     a_spec_data := a_spec_data a; a_fsid := a_fsid a; a_fileid := a_fileid a;
     a_atime := a_atime a; a_mtime := a_mtime a; a_ctime := a_ctime a; a_acl := a_acl a;
     a_owner := a_owner a; a_owner_group := a_owner_group a; a_filehandle := a_filehandle a |}.

Definition set_filesize (v : Z) (a : Attr) : Attr :=
  {| a_type_ := a_type_ a; a_file_mode := a_file_mode a; a_nlink := a_nlink a; a_uid := a_uid a;
     a_gid := a_gid a; a_filesize := v; a_used := a_used a; a_spec_data := a_spec_data a;
     a_fsid := a_fsid a; a_fileid := a_fileid a; a_atime := a_atime a; a_mtime := a_mtime a;
     a_ctime := a_ctime a; a_acl := a_acl a; a_owner := a_owner a;
     a_owner_group := a_owner_group a; a_filehandle := a_filehandle a |}.

Definition set_fsid (v : Z) (a : Attr) : Attr :=
  {| a_type_ := a_type_ a; a_file_mode := a_file_mode a; a_nlink := a_nlink a; a_uid := a_uid a;
     a_gid := a_gid a; a_filesize := a_filesize a; a_used := a_used a;
     a_spec_data := a_spec_data a; a_fsid := v; a_fileid := a_fileid a; a_atime := a_atime a;
     a_mtime := a_mtime a; a_ctime := a_ctime a; a_acl := a_acl a; a_owner := a_owner a;
     a_owner_group := a_owner_group a; a_filehandle := a_filehandle a |}.

Definition set_acl (v : Acl) (a : Attr) : Attr :=
  {| a_type_ := a_type_ a; a_file_mode := a_file_mode a; a_nlink := a_nlink a; a_uid := a_uid a;
     a_gid := a_gid a; a_filesize := a_filesize a; a_used := a_used a;
     a_spec_data := a_spec_data a; a_fsid := a_fsid a; a_fileid := a_fileid a;
     a_atime := a_atime a; a_mtime := a_mtime a; a_ctime := a_ctime a; a_acl := Some v;
     a_owner := a_owner a; a_owner_group := a_owner_group a; a_filehandle := a_filehandle a |}.

Definition set_filehandle (v : bytes) (a : Attr) : Attr :=
  {| a_type_ := a_type_ a; a_file_mode := a_file_mode a; a_nlink := a_nlink a; a_uid := a_uid a;
     a_gid := a_gid a; a_filesize := a_filesize a; a_used := a_used a;
     a_spec_data := a_spec_data a; a_fsid := a_fsid a; a_fileid := a_fileid a;
     a_atime := a_atime a; a_mtime := a_mtime a; a_ctime := a_ctime a; a_acl := a_acl a;
     a_owner := a_owner a; a_owner_group := a_owner_group a; a_filehandle := v |}.

Definition set_fileid (v : Z) (a : Attr) : Attr :=
  {| a_type_ := a_type_ a; a_file_mode := a_file_mode a; a_nlink := a_nlink a; a_uid := a_uid a;
     a_gid := a_gid a; a_filesize := a_filesize a; a_used := a_used a;
     a_spec_data := a_spec_data a; a_fsid := a_fsid a; a_fileid := v; a_atime := a_atime a;
     a_mtime := a_mtime a; a_ctime := a_ctime a; a_acl := a_acl a; a_owner := a_owner a;
     a_owner_group := a_owner_group a; a_filehandle := a_filehandle a |}.

Definition set_mode (v : Z) (a : Attr) : Attr :=
  {| a_type_ := a_type_ a; a_file_mode := v; a_nlink := a_nlink a; a_uid := a_uid a;
     a_gid := a_gid a; a_filesize := a_filesize a; a_used := a_used a;
     a_spec_data := a_spec_data a; a_fsid := a_fsid a; a_fileid := a_fileid a;
     a_atime := a_atime a; a_mtime := a_mtime a; a_ctime := a_ctime a; a_acl := a_acl a;
     a_owner := a_owner a; a_owner_group := a_owner_group a; a_filehandle := a_filehandle a |}.

Definition set_nlink (v : Z) (a : Attr) : Attr :=
  {| a_type_ := a_type_ a; a_file_mode := a_file_mode a; a_nlink := v; a_uid := a_uid a;
     a_gid := a_gid a; a_filesize := a_filesize a; a_used := a_used a;
     a_spec_data := a_spec_data a; a_fsid := a_fsid a; a_fileid := a_fileid a;
     a_atime := a_atime a; a_mtime := a_mtime a; a_ctime := a_ctime a; a_acl := a_acl a;
     a_owner := a_owner a; a_owner_group := a_owner_group a; a_filehandle := a_filehandle a |}.

Definition set_owner (n : Z) (s : bytes) (a : Attr) : Attr :=
  {| a_type_ := a_type_ a; a_file_mode := a_file_mode a; a_nlink := a_nlink a; a_uid := n;
     a_gid := a_gid a; a_filesize := a_filesize a; a_used := a_used a;
     a_spec_data := a_spec_data a; a_fsid := a_fsid a; a_fileid := a_fileid a;
     a_atime := a_atime a; a_mtime := a_mtime a; a_ctime := a_ctime a; a_acl := a_acl a;
     a_owner := s; a_owner_group := a_owner_group a; a_filehandle := a_filehandle a |}.

Definition set_group (n : Z) (s : bytes) (a : Attr) : Attr :=
  {| a_type_ := a_type_ a; a_file_mode := a_file_mode a; a_nlink := a_nlink a; a_uid := a_uid a;
     a_gid := n; a_filesize := a_filesize a; a_used := a_used a; a_spec_data := a_spec_data a;
     a_fsid := a_fsid a; a_fileid := a_fileid a; a_atime := a_atime a; a_mtime := a_mtime a;
     a_ctime := a_ctime a; a_acl := a_acl a; a_owner := a_owner a; a_owner_group := s;
     a_filehandle := a_filehandle a |}.

Definition set_rawdev (v : (Z * Z)) (a : Attr) : Attr :=
  {| a_type_ := a_type_ a; a_file_mode := a_file_mode a; a_nlink := a_nlink a; a_uid := a_uid a;
     a_gid := a_gid a; a_filesize := a_filesize a; a_used := a_used a; a_spec_data := v;
     a_fsid := a_fsid a; a_fileid := a_fileid a; a_atime := a_atime a; a_mtime := a_mtime a;
     a_ctime := a_ctime a; a_acl := a_acl a; a_owner := a_owner a;
     a_owner_group := a_owner_group a; a_filehandle := a_filehandle a |}.

Definition set_used (v : Z) (a : Attr) : Attr :=
  {| a_type_ := a_type_ a; a_file_mode := a_file_mode a; a_nlink := a_nlink a; a_uid := a_uid a;
     a_gid := a_gid a; a_filesize := a_filesize a; a_used := v; a_spec_data := a_spec_data a;
     a_fsid := a_fsid a; a_fileid := a_fileid a; a_atime := a_atime a; a_mtime := a_mtime a;
     a_ctime := a_ctime a; a_acl := a_acl a; a_owner := a_owner a;
     a_owner_group := a_owner_group a; a_filehandle := a_filehandle a |}.

Definition set_atime (v : Time) (a : Attr) : Attr :=
  {| a_type_ := a_type_ a; a_file_mode := a_file_mode a; a_nlink := a_nlink a; a_uid := a_uid a;
     a_gid := a_gid a; a_filesize := a_filesize a; a_used := a_used a;
     a_spec_data := a_spec_data a; a_fsid := a_fsid a; a_fileid := a_fileid a; a_atime := v;
     a_mtime := a_mtime a; a_ctime := a_ctime a; a_acl := a_acl a; a_owner := a_owner a;
     a_owner_group := a_owner_group a; a_filehandle := a_filehandle a |}.

Definition set_ctime (v : Time) (a : Attr) : Attr :=
  {| a_type_ := a_type_ a; a_file_mode := a_file_mode a; a_nlink := a_nlink a; a_uid := a_uid a;
     a_gid := a_gid a; a_filesize := a_filesize a; a_used := a_used a;
     a_spec_data := a_spec_data a; a_fsid := a_fsid a; a_fileid := a_fileid a;
     a_atime := a_atime a; a_mtime := a_mtime a; a_ctime := v; a_acl := a_acl a;
     a_owner := a_owner a; a_owner_group := a_owner_group a; a_filehandle := a_filehandle a |}.

Definition set_mtime (v : Time) (a : Attr) : Attr :=
  {| a_type_ := a_type_ a; a_file_mode := a_file_mode a; a_nlink := a_nlink a; a_uid := a_uid a;
     a_gid := a_gid a; a_filesize := a_filesize a; a_used := a_used a;
     a_spec_data := a_spec_data a; a_fsid := a_fsid a; a_fileid := a_fileid a;
     a_atime := a_atime a; a_mtime := v; a_ctime := a_ctime a; a_acl := a_acl a;
     a_owner := a_owner a; a_owner_group := a_owner_group a; a_filehandle := a_filehandle a |}.

(** ** Bitmaps *)

Definition standard_getattr_bitmap : list Z :=
  [Z.lor (Z.lor (Z.lor (Z.lor (Z.lor (Z.shiftl 1 1) (Z.shiftl 1 4)) (Z.shiftl 1 8))
     (Z.shiftl 1 attrnum_ACL)) (Z.shiftl 1 attrnum_FILEHANDLE)) (Z.shiftl 1 attrnum_FILEID);
   foldr Z.lor 0 (map (Z.shiftl 1) [1; 3; 4; 5; 9; 13; 15; 20; 21])].

Definition bitmap_has (bitmap : list Z) (attr_num : Z) : bool :=
  let word_idx := attr_num / 32 in
  let bit_idx := attr_num mod 32 in
  match bitmap !! Z.to_nat word_idx with
  | None => false
  | Some w => negb (Z.land w (Z.shiftl 1 bit_idx) =? 0)
  end.

(** ** Writing attributes *)

Definition encode_owner_value (v : option Z) (bit : Z) (s : Z * bytes) : Z * bytes :=
  match v with
  | None => s
  | Some v => (Z.lor s.1 (Z.shiftl 1 bit), s.2 ++ xdr_opaque (dec v))
  end.

(** [SET_TO_CLIENT_TIME4] followed by the time. *)
Definition encode_time_value (v : option Time) (bit : Z) (s : Z * bytes) : Z * bytes :=
  match v with
  | None => s
  | Some t => (Z.lor s.1 (Z.shiftl 1 bit),
               s.2 ++ be_bytes 4 1 ++ be_bytes 8 (seconds t) ++ be_bytes 4 (nseconds t))
  end.

Definition encode_setattr (mode uid gid size : option Z) (atime mtime : option Time)
    : list Z * bytes :=
  let '(word0, values) :=
    match size with Some v => (Z.shiftl 1 4, be_bytes 8 v) | None => (0, []) end in
  let s := match mode with
           | Some v => (Z.shiftl 1 1, values ++ be_bytes 4 v)
           | None => (0, values)
           end in
  let s := encode_owner_value uid 4 s in
  let s := encode_owner_value gid 5 s in
  let s := encode_time_value atime 16 s in
  let '(word1, values) := encode_time_value mtime 22 s in
  let mask := if negb (word1 =? 0) then [word0; word1]
              else if negb (word0 =? 0) then [word0] else [] in
  (mask, values).

(** ** Readers *)

Definition envelope_word (data : bytes) : result (Z * bytes) := get_u32 data.

Definition decode_fattr4_envelope (data : bytes) (label : string)
    : result (list Z * bytes * bytes) :=
  let* _ := require 4 (Xdr (label +:+ " bitmap length truncated")) data in
  let* (count, data) := get_u32 data in
  if (16 <? count) || (remaining data <? count * 4)
  then Err (Xdr (label +:+ " bitmap is invalid"))
  else
    let* (bitmap, data) := collect count envelope_word data in
    let* _ := require 4 (Xdr (label +:+ " value length truncated")) data in
    let* (length, data) := get_u32 data in
    let* _ := require length (Xdr (label +:+ " values truncated")) data in
    let* (vals, data) := split_to length data in
    Ok (bitmap, vals, data).

Definition skip_fixed (n : Z) (attr_name : string) (vals : bytes) : result bytes :=
  let* _ := require n (Xdr ("fattr4 " +:+ attr_name +:+ " truncated (need " +:+ fmtZ n +:+
                            " have " +:+ fmtZ (remaining vals) +:+ ")")) vals in
  advance n vals.

Definition skip_settime4 (attr_name : string) (vals : bytes) : result bytes :=
  let* _ := require 4 (Xdr ("fattr4 " +:+ attr_name +:+ " settime4 truncated")) vals in
  let* (how, vals) := get_u32 vals in
  if how =? 1 then skip_fixed 12 attr_name vals else Ok vals.

Definition decode_opaque (attr_name : string) (vals : bytes) : result (bytes * bytes) :=
  let* _ := require 4 (Xdr ("fattr4 " +:+ attr_name +:+ " opaque length truncated")) vals in
  let* (len, vals) := get_u32 vals in
  let* _ := require (padded len)
              (Xdr ("fattr4 " +:+ attr_name +:+ " opaque data truncated (need " +:+
                    fmtZ (padded len) +:+ " have " +:+ fmtZ (remaining vals) +:+ ")")) vals in
  let* data := slice_to len vals in
  let* vals := advance (padded len) vals in
  Ok (data, vals).

Definition skip_bitmap4 (attr_name : string) (vals : bytes) : result bytes :=
  let* _ := require 4 (Xdr ("fattr4 " +:+ attr_name +:+ " bitmap count truncated")) vals in
  let* (count, vals) := get_u32 vals in
  skip_fixed (count * 4) attr_name vals.

Definition skip_utf8str (vals : bytes) : result bytes :=
  let* (_, vals) := decode_utf8str vals in Ok vals.

Definition skip_strings (what : string) (vals : bytes) : result bytes :=
  let* _ := require 4 (Xdr what) vals in
  let* (n, vals) := get_u32 vals in
  for_count n skip_utf8str vals.

Definition skip_fs_location (vals : bytes) : result bytes :=
  let* vals := skip_strings "fattr4 fs_location4 server count truncated" vals in
  skip_strings "fattr4 fs_location4 rootpath count truncated" vals.

Definition skip_fs_locations (vals : bytes) : result bytes :=
  let* vals := skip_strings "fattr4 fs_locations root truncated" vals in
  let* _ := require 4 (Xdr "fattr4 fs_locations locations count truncated") vals in
  let* (loc_count, vals) := get_u32 vals in
  for_count loc_count skip_fs_location vals.

(** Times outside the [u32] range are clamped. *)
Definition clamp_seconds (s : Z) : Z :=
  if s <? 0 then 0 else if u32_max <? s then u32_max else s.

Definition decode_nfstime4 (buf : bytes) : result (Time * bytes) :=
  let* _ := require 12 (Xdr "nfstime4 truncated") buf in
  let* (s, buf) := get_i64 buf in
  let* (n, buf) := get_u32 buf in
  Ok ({| seconds := clamp_seconds s; nseconds := n |}, buf).

(** The part of [s] before the first ['@'] (byte 64). *)
Fixpoint before_at (s : bytes) : bytes :=
  match s with
  | [] => []
  | b :: s => if byte_val b =? 64 then [] else b :: before_at s
  end.

Definition parse_numeric_owner (s : bytes) : Z :=
  match parse_u32 s with
  | Some n => n
  | None =>
      let name := before_at s in
      match parse_u32 name with
      | Some n => n
      | None => if bool_decide (name = of_str "root") then 0 else 65534
      end
  end.

(** ** The attribute decoder

    One entry per attribute: its number and what the decoder does with the
    value when the bitmap has it. The state is the [Attr] under construction
    and the unread values. *)

Definition attr_step : Type := Attr * bytes -> result (Attr * bytes).

(** An attribute whose value is skipped. *)
Definition skips (f : bytes -> result bytes) : attr_step :=
  fun '(attr, vals) => let* vals := f vals in Ok (attr, vals).

(** An attribute whose value is read by [f] and stored by [g]. *)
Definition stores {A : Type} (f : bytes -> result (A * bytes)) (g : A -> Attr -> Attr) : attr_step :=
  fun '(attr, vals) => let* (v, vals) := f vals in Ok (g v attr, vals).

Definition fixed_u32 (what : string) (vals : bytes) : result (Z * bytes) :=
  let* _ := require 4 (Xdr ("fattr4 " +:+ what +:+ " truncated")) vals in get_u32 vals.
Definition fixed_u64 (what : string) (vals : bytes) : result (Z * bytes) :=
  let* _ := require 8 (Xdr ("fattr4 " +:+ what +:+ " truncated")) vals in get_u64 vals.

Definition decode_fsid (vals : bytes) : result (Z * bytes) :=
  let* _ := require 16 (Xdr "fattr4 fsid truncated") vals in
  let* (major, vals) := get_u64 vals in
  let* (_, vals) := get_u64 vals in
  Ok (major, vals).

Definition check_rdattr_error (vals : bytes) : result bytes :=
  let* _ := require 4 (Xdr "fattr4 rdattr_error truncated") vals in
  let* (code, vals) := get_u32 vals in
  if negb (code =? 0) then Err (RdattrError code) else Ok vals.

(** The owner's text is kept next to the number it parses to. *)
Definition store_owner (s : bytes) : Attr -> Attr := set_owner (parse_numeric_owner s) s.
Definition store_group (s : bytes) : Attr -> Attr := set_group (parse_numeric_owner s) s.

Definition decode_rawdev (vals : bytes) : result (Z * Z * bytes) :=
  let* _ := require 8 (Xdr "fattr4 rawdev truncated") vals in
  let* (a, vals) := get_u32 vals in
  let* (b, vals) := get_u32 vals in
  Ok (a, b, vals).

(** Attributes 0 to 15. *)
Definition word0_low_steps : list (Z * attr_step) :=
  [(0, skips (skip_bitmap4 "supported_attrs"));
   (1, stores (fixed_u32 "type") set_type);
   (2, skips (skip_fixed 4 "fh_expire_type"));
   (3, skips (skip_fixed 8 "change"));
   (4, stores (fixed_u64 "size") set_filesize);
   (5, skips (skip_fixed 4 "link_support"));
   (6, skips (skip_fixed 4 "symlink_support"));
   (7, skips (skip_fixed 4 "named_attr"));
   (8, stores decode_fsid set_fsid);
   (9, skips (skip_fixed 4 "unique_handles"));
   (10, skips (skip_fixed 4 "lease_time"));
   (11, skips check_rdattr_error);
   (attrnum_ACL, stores decode_acl set_acl);
   (attrnum_ACLSUPPORT, skips (skip_fixed 4 "aclsupport"));
   (14, skips (skip_fixed 4 "archive"));
   (15, skips (skip_fixed 4 "cansettime"))].

(** Attributes 16 to 31. *)
Definition word0_high_steps : list (Z * attr_step) :=
  [(16, skips (skip_fixed 4 "case_insensitive"));
   (17, skips (skip_fixed 4 "case_preserving"));
   (18, skips (skip_fixed 4 "chown_restricted"));
   (attrnum_FILEHANDLE, stores (decode_opaque "filehandle") set_filehandle);
   (attrnum_FILEID, stores (fixed_u64 "fileid") set_fileid);
   (21, skips (skip_fixed 8 "files_avail"));
   (22, skips (skip_fixed 8 "files_free"));
   (23, skips (skip_fixed 8 "files_total"));
   (24, skips skip_fs_locations);
   (25, skips (skip_fixed 4 "hidden"));
   (26, skips (skip_fixed 4 "homogeneous"));
   (27, skips (skip_fixed 8 "maxfilesize"));
   (28, skips (skip_fixed 4 "maxlink"));
   (29, skips (skip_fixed 4 "maxname"));
   (30, skips (skip_fixed 8 "maxread"));
   (31, skips (skip_fixed 8 "maxwrite"))].

(** Attributes 32 to 45. *)
Definition word1_low_steps : list (Z * attr_step) :=
  [(32, skips skip_utf8str);
   (attrnum_MODE, stores (fixed_u32 "mode") set_mode);
   (34, skips (skip_fixed 4 "no_trunc"));
   (35, stores (fixed_u32 "numlinks") set_nlink);
   (36, stores decode_utf8str store_owner);
   (37, stores decode_utf8str store_group);
   (38, skips (skip_fixed 8 "quota_avail_hard"));
   (39, skips (skip_fixed 8 "quota_avail_soft"));
   (40, skips (skip_fixed 8 "quota_used"));
   (41, stores decode_rawdev set_rawdev);
   (42, skips (skip_fixed 8 "space_avail"));
   (43, skips (skip_fixed 8 "space_free"));
   (44, skips (skip_fixed 8 "space_total"));
   (45, stores (fixed_u64 "space_used") set_used)].

(** Attributes 46 to 60. *)
Definition word1_high_steps : list (Z * attr_step) :=
  [(46, skips (skip_fixed 4 "system"));
   (47, stores decode_nfstime4 set_atime);
   (48, skips (skip_settime4 "time_access_set"));
   (49, skips (skip_fixed 12 "time_backup"));
   (50, skips (skip_fixed 12 "time_create"));
   (51, skips (skip_fixed 12 "time_delta"));
   (52, stores decode_nfstime4 set_ctime);
   (53, stores decode_nfstime4 set_mtime);
   (54, skips (skip_settime4 "time_modify_set"));
   (55, skips (skip_fixed 8 "mounted_on_fileid"));
   (56, skips (skip_fixed 12 "dir_notif_delay"));
   (57, skips (skip_fixed 12 "dirent_notif_delay"));
   (58, skips skip_acl41);
   (59, skips skip_acl41);
   (60, skips (skip_fixed 16 "change_policy"))].

(** [if bitmap_has(bitmap, n) { step }], for each entry in order. *)
Fixpoint run_steps (bitmap : list Z) (steps : list (Z * attr_step)) (s : Attr * bytes)
    : result (Attr * bytes) :=
  match steps with
  | [] => Ok s
  | (n, f) :: steps =>
      let* s := (if bitmap_has bitmap n then f s else Ok s) in
      run_steps bitmap steps s
  end.

Definition fattr4_steps : list (Z * attr_step) :=
  word0_low_steps ++ word0_high_steps ++ word1_low_steps ++ word1_high_steps.

Definition decode_fattr4_to_attr (bitmap : list Z) (vals : bytes) : result (Attr * bytes) :=
  run_steps bitmap fattr4_steps (Attr_default, vals).

(** The diagnostic logged on failure is not modelled. *)
Definition decode_getattr_response (data : bytes) : result (Attr * bytes) :=
  let* (bitmap, vals, data) := decode_getattr_envelope data in
  let* (attr, _) := decode_fattr4_to_attr bitmap vals in
  Ok (attr, data).

(** ** Totality *)

(** A step that does not panic and consumes a prefix of its input. *)
Definition total_step (f : attr_step) : Prop :=
  forall a v, wpo (f (a, v)) (fun '(_, rest) => rest `suffix_of` v).

Lemma skips_total f :
  (forall v, wpo (f v) (fun rest => rest `suffix_of` v)) -> total_step (skips f).
Proof. intros Hf a v. unfold skips. apply wpo_bind. wp_call Hf. done. Qed.

Lemma stores_total {A} (f : bytes -> result (A * bytes)) g :
  (forall v, wpo (f v) (fun '(_, rest) => rest `suffix_of` v)) -> total_step (stores f g).
Proof. intros Hf a v. unfold stores. apply wpo_bind. wp_call Hf. by intros [x r]. Qed.

Lemma wpo_skip_fixed n name v : 0 <= n -> wpo (skip_fixed n name v) (fun r => r `suffix_of` v).
Proof. intros Hn. unfold skip_fixed. wp. done. Qed.

Lemma wpo_skip_settime4 name v : wpo (skip_settime4 name v) (fun r => r `suffix_of` v).
Proof.
  unfold skip_settime4. wp; [|done]. wp_call wpo_skip_fixed; [lia|]. intros r Hr. suffix_tac.
Qed.

Lemma wpo_decode_opaque name v : wpo (decode_opaque name v) (fun '(_, r) => r `suffix_of` v).
Proof. unfold decode_opaque. wp. pose proof (padded_ge v0). wp. suffix_tac. Qed.

Lemma wpo_skip_bitmap4 name v : wpo (skip_bitmap4 name v) (fun r => r `suffix_of` v).
Proof.
  unfold skip_bitmap4. wp. wp_call wpo_skip_fixed; [ilia|]. intros r Hr. suffix_tac.
Qed.

Lemma wpo_skip_utf8str v : wpo (skip_utf8str v) (fun r => r `suffix_of` v).
Proof.
  unfold skip_utf8str. wp. wp_call wpo_decode_utf8str. intros [s r] (_ & _ & Hr). done.
Qed.

Lemma wpo_for_suffix n (f : bytes -> result bytes) v :
  (forall v, wpo (f v) (fun r => r `suffix_of` v)) ->
  wpo (for_count n f v) (fun r => r `suffix_of` v).
Proof.
  intros Hf. apply wpo_for_count with (I := fun r => r `suffix_of` v); [done| |done].
  intros s Hs. wp_call Hf. intros r Hr. suffix_tac.
Qed.

Lemma wpo_skip_strings what v : wpo (skip_strings what v) (fun r => r `suffix_of` v).
Proof.
  unfold skip_strings. wp. wp_call wpo_for_suffix; [apply wpo_skip_utf8str|].
  intros r Hr. suffix_tac.
Qed.

Lemma wpo_skip_fs_location v : wpo (skip_fs_location v) (fun r => r `suffix_of` v).
Proof.
  unfold skip_fs_location. wp. wp_call wpo_skip_strings. intros r Hr.
  wp_call wpo_skip_strings. intros r' Hr'. suffix_tac.
Qed.

Lemma wpo_skip_fs_locations v : wpo (skip_fs_locations v) (fun r => r `suffix_of` v).
Proof.
  unfold skip_fs_locations. wp. wp_call wpo_skip_strings. intros r Hr. wp.
  wp_call wpo_for_suffix; [apply wpo_skip_fs_location|]. intros r' Hr'. suffix_tac.
Qed.

Lemma wpo_decode_nfstime4 v : wpo (decode_nfstime4 v) (fun '(t, r) =>
  is_u32 (seconds t) /\ is_u32 (nseconds t) /\ r `suffix_of` v).
Proof.
  unfold decode_nfstime4. wp. repeat split; try (by unfold_int; cbn; lia); [| |suffix_tac];
    unfold clamp_seconds; cbn [seconds]; repeat case_match; bool_hyps; ilia.
Qed.

Lemma wpo_fixed_u32 what v : wpo (fixed_u32 what v) (fun '(x, r) => is_u32 x /\ r `suffix_of` v).
Proof. unfold fixed_u32. wp. done. Qed.
Lemma wpo_fixed_u64 what v : wpo (fixed_u64 what v) (fun '(x, r) => is_u64 x /\ r `suffix_of` v).
Proof. unfold fixed_u64. wp. done. Qed.
Lemma wpo_decode_fsid v : wpo (decode_fsid v) (fun '(x, r) => is_u64 x /\ r `suffix_of` v).
Proof. unfold decode_fsid. wp. split; [done|suffix_tac]. Qed.
Lemma wpo_check_rdattr_error v : wpo (check_rdattr_error v) (fun r => r `suffix_of` v).
Proof. unfold check_rdattr_error. wp. done. Qed.
Lemma wpo_decode_rawdev v : wpo (decode_rawdev v) (fun '(_, r) => r `suffix_of` v).
Proof. unfold decode_rawdev. wp. suffix_tac. Qed.

Lemma fattr4_steps_total : Forall (fun '(_, f) => total_step f) fattr4_steps.
Proof.
  repeat constructor; try (apply skips_total; intros v); try (apply stores_total; intros v).
  all: try apply wpo_skip_bitmap4; try apply wpo_skip_settime4; try apply wpo_decode_opaque;
       try apply wpo_skip_utf8str; try apply wpo_skip_fs_locations; try apply wpo_skip_acl41;
       try apply wpo_check_rdattr_error; try apply wpo_decode_rawdev;
       try (apply wpo_skip_fixed; lia).
  all: eapply wpo_mono;
       [first [apply wpo_fixed_u32|apply wpo_fixed_u64|apply wpo_decode_fsid|apply wpo_decode_acl
              |apply wpo_decode_utf8str|apply wpo_decode_nfstime4]|].
  all: by intros [? ?]; intuition.
Qed.

Lemma wpo_run_steps bitmap steps a v :
  Forall (fun '(_, f) => total_step f) steps ->
  wpo (run_steps bitmap steps (a, v)) (fun '(_, rest) => rest `suffix_of` v).
Proof.
  revert a v. induction steps as [|[n f] steps IH]; intros a v Hs; simpl; [done|].
  apply Forall_cons in Hs as [Hf Hs]. apply wpo_bind.
  destruct (bitmap_has bitmap n).
  - wp_call Hf. intros [a' v'] Hv. wp_call IH; [done|]. intros [a'' r] Hr. suffix_tac.
  - simpl. auto.
Qed.

(** ** Wire layout of an attribute (RFC 7530, section 5) *)

Definition xdr_strings (l : list bytes) : bytes :=
  xdr_u32 (Z.of_nat (length l)) ++ concat (map xdr_opaque l).
Definition string_ok (s : bytes) : Prop := utf8_valid s = true /\ remaining s < 2 ^ 32.
Definition strings_ok (l : list bytes) : Prop :=
  Z.of_nat (length l) < 2 ^ 32 /\ Forall string_ok l.

(** Attributes that the decoder skips and that have a fixed length. *)
Definition fixed_len (n : Z) : option Z :=
  match n with
  | 2 | 5 | 6 | 7 | 9 | 10 | 13 | 14 | 15 | 16 | 17 | 18 | 25 | 26 | 28 | 29 | 34 | 46 => Some 4
  | 3 | 21 | 22 | 23 | 27 | 30 | 31 | 38 | 39 | 40 | 42 | 43 | 44 | 55 => Some 8
  | 49 | 50 | 51 | 56 | 57 => Some 12
  | 60 => Some 16
  | _ => None
  end.

Definition i64_ok (s : Z) : Prop := - 2 ^ 63 <= s < 2 ^ 63.
Definition wire_time (s ns : Z) : bytes := be_bytes 8 s ++ be_bytes 4 ns.
Definition stored_time (s ns : Z) : Time := {| seconds := clamp_seconds s; nseconds := ns |}.

(** [attr_value n b g]: [b] is an encoding of a value of attribute [n], and [g]
    stores that value in an [Attr] (the identity for values not kept). *)
Inductive attr_value : Z -> bytes -> (Attr -> Attr) -> Prop :=
| av_fixed n len b : fixed_len n = Some len -> remaining b = len -> attr_value n b (fun a => a)
| av_supported l : Z.of_nat (length l) < 2 ^ 32 -> attr_value 0 (xdr_bitmap l) (fun a => a)
| av_type v : is_u32 v -> attr_value 1 (be_bytes 4 v) (set_type v)
| av_size v : is_u64 v -> attr_value 4 (be_bytes 8 v) (set_filesize v)
| av_fsid major minor : is_u64 major -> is_u64 minor ->
    attr_value 8 (be_bytes 8 major ++ be_bytes 8 minor) (set_fsid major)
| av_no_error : attr_value 11 (be_bytes 4 0) (fun a => a)
| av_acl acl : acl_ok acl -> attr_value 12 (encode_acl acl) (set_acl acl)
| av_filehandle fh : remaining fh < 2 ^ 32 -> attr_value 19 (xdr_opaque fh) (set_filehandle fh)
| av_fileid v : is_u64 v -> attr_value 20 (be_bytes 8 v) (set_fileid v)
| av_fs_locations root (locs : list (list bytes * list bytes)) :
    strings_ok root -> Z.of_nat (length locs) < 2 ^ 32 ->
    Forall (fun l => strings_ok l.1 /\ strings_ok l.2) locs ->
    attr_value 24 (xdr_strings root ++ xdr_u32 (Z.of_nat (length locs)) ++
                   concat (map (fun l => xdr_strings l.1 ++ xdr_strings l.2) locs)) (fun a => a)
| av_mimetype s : string_ok s -> attr_value 32 (xdr_opaque s) (fun a => a)
| av_mode v : is_u32 v -> attr_value 33 (be_bytes 4 v) (set_mode v)
| av_numlinks v : is_u32 v -> attr_value 35 (be_bytes 4 v) (set_nlink v)
| av_owner s : string_ok s -> attr_value 36 (xdr_opaque s) (store_owner s)
| av_group s : string_ok s -> attr_value 37 (xdr_opaque s) (store_group s)
| av_rawdev a b : is_u32 a -> is_u32 b ->
    attr_value 41 (be_bytes 4 a ++ be_bytes 4 b) (set_rawdev (a, b))
| av_space_used v : is_u64 v -> attr_value 45 (be_bytes 8 v) (set_used v)
| av_atime s ns : i64_ok s -> is_u32 ns -> attr_value 47 (wire_time s ns) (set_atime (stored_time s ns))
| av_ctime s ns : i64_ok s -> is_u32 ns -> attr_value 52 (wire_time s ns) (set_ctime (stored_time s ns))
| av_mtime s ns : i64_ok s -> is_u32 ns -> attr_value 53 (wire_time s ns) (set_mtime (stored_time s ns))
| av_settime_server n : n = 48 \/ n = 54 -> attr_value n (be_bytes 4 0) (fun a => a)
| av_settime_client n s ns : n = 48 \/ n = 54 ->
    attr_value n (be_bytes 4 1 ++ wire_time s ns) (fun a => a)
| av_acl41 n f acl : n = 58 \/ n = 59 -> acl_ok acl ->
    attr_value n (be_bytes 4 f ++ encode_acl acl) (fun a => a).

(** [f] reads exactly the value [b] and applies [g]. *)
Definition reads (f : attr_step) (b : bytes) (g : Attr -> Attr) : Prop :=
  forall a rest, f (a, b ++ rest) = Ok (g a, rest).

Lemma skips_reads f b : (forall rest, f (b ++ rest) = Ok rest) -> reads (skips f) b (fun a => a).
Proof. intros H a rest. unfold skips. by rewrite H. Qed.

Lemma stores_reads {A} (f : bytes -> result (A * bytes)) g b v :
  (forall rest, f (b ++ rest) = Ok (v, rest)) -> reads (stores f g) b (g v).
Proof. intros H a rest. unfold stores. by rewrite H. Qed.

Section ReadBack.
Context (rest : bytes).

Lemma skip_fixed_enc n name b : remaining b = n -> skip_fixed n name (b ++ rest) = Ok rest.
Proof using Type.
  intros H. unfold skip_fixed. rewrite require_app by lia. by apply advance_app.
Qed.

Lemma fixed_u32_enc what v : is_u32 v -> fixed_u32 what (be_bytes 4 v ++ rest) = Ok (v, rest).
Proof using Type.
  intros H. unfold fixed_u32. rewrite require_app by (by rewrite remaining_be). by apply get_u32_be.
Qed.

Lemma fixed_u64_enc what v : is_u64 v -> fixed_u64 what (be_bytes 8 v ++ rest) = Ok (v, rest).
Proof using Type.
  intros H. unfold fixed_u64. rewrite require_app by (by rewrite remaining_be). by apply get_u64_be.
Qed.

Lemma skip_bitmap4_enc name l :
  Z.of_nat (length l) < 2 ^ 32 -> skip_bitmap4 name (xdr_bitmap l ++ rest) = Ok rest.
Proof using Type.
  intros H. unfold skip_bitmap4, xdr_bitmap. rewrite <- app_assoc.
  rewrite require_app by (by rewrite remaining_xdr_u32). cbn [obind].
  unfold xdr_u32 at 1. rewrite get_u32_be by ilia. cbn [obind].
  apply skip_fixed_enc. rewrite remaining_concat_u32. lia.
Qed.

Lemma decode_fsid_enc major minor : is_u64 major -> is_u64 minor ->
  decode_fsid ((be_bytes 8 major ++ be_bytes 8 minor) ++ rest) = Ok (major, rest).
Proof using Type.
  intros H1 H2. unfold decode_fsid.
  rewrite require_app by (by rewrite remaining_app, !remaining_be). cbn [obind].
  rewrite <- app_assoc, get_u64_be by done. cbn [obind]. by rewrite get_u64_be.
Qed.

Lemma decode_rawdev_enc a b : is_u32 a -> is_u32 b ->
  decode_rawdev ((be_bytes 4 a ++ be_bytes 4 b) ++ rest) = Ok (a, b, rest).
Proof using Type.
  intros H1 H2. unfold decode_rawdev.
  rewrite require_app by (by rewrite remaining_app, !remaining_be). cbn [obind].
  rewrite <- app_assoc, get_u32_be by done. cbn [obind]. by rewrite get_u32_be.
Qed.

Lemma decode_nfstime4_enc s ns : i64_ok s -> is_u32 ns ->
  decode_nfstime4 (wire_time s ns ++ rest) = Ok (stored_time s ns, rest).
Proof using Type.
  intros H1 H2. unfold decode_nfstime4, wire_time.
  rewrite require_app by (by rewrite remaining_app, !remaining_be). cbn [obind].
  rewrite <- app_assoc, get_i64_be by done. cbn [obind]. by rewrite get_u32_be.
Qed.

Lemma decode_opaque_enc name v :
  remaining v < 2 ^ 32 -> decode_opaque name (xdr_opaque v ++ rest) = Ok (v, rest).
Proof using Type.
  intros Hv. unfold decode_opaque, xdr_opaque. rewrite <- !app_assoc.
  rewrite require_app by (by rewrite remaining_xdr_u32). cbn [obind].
  unfold xdr_u32. rewrite get_u32_be by (pose proof (remaining_nonneg v); ilia). cbn [obind].
  destruct (opaque_body v rest) as (H1 & H2 & H3).
  rewrite H1; cbn [obind]. rewrite H2; cbn [obind]. by rewrite H3.
Qed.

Lemma skip_acl41_enc f acl :
  acl_ok acl -> skip_acl41 ((be_bytes 4 f ++ encode_acl acl) ++ rest) = Ok rest.
Proof using Type.
  intros H. unfold skip_acl41. rewrite <- app_assoc.
  rewrite require_app by (by rewrite remaining_be). cbn [obind].
  rewrite advance_app by (by rewrite remaining_be). cbn [obind].
  apply (skip_acl_decode _ acl). by apply decode_acl_enc.
Qed.

Lemma skip_settime4_enc name b s ns :
  b = be_bytes 4 0 \/ b = be_bytes 4 1 ++ wire_time s ns ->
  skip_settime4 name (b ++ rest) = Ok rest.
Proof using Type.
  intros [-> | ->]; unfold skip_settime4; rewrite <- ?app_assoc;
    rewrite require_app by (by rewrite remaining_be); cbn [obind];
    rewrite get_u32_be by ilia; cbn [obind].
  - done.
  - apply skip_fixed_enc. unfold wire_time. by rewrite remaining_app, !remaining_be.
Qed.
End ReadBack.

Lemma skip_utf8str_enc s rest : string_ok s -> skip_utf8str (xdr_opaque s ++ rest) = Ok rest.
Proof. intros [H1 H2]. unfold skip_utf8str. by rewrite decode_utf8str_enc. Qed.

Lemma skip_strings_enc what l rest :
  strings_ok l -> skip_strings what (xdr_strings l ++ rest) = Ok rest.
Proof.
  intros [Hn Hl]. unfold skip_strings, xdr_strings. rewrite <- app_assoc.
  rewrite require_app by (by rewrite remaining_xdr_u32). cbn [obind].
  unfold xdr_u32 at 1. rewrite get_u32_be by ilia. cbn [obind].
  apply for_count_skip. intros s r Hs. apply skip_utf8str_enc.
  rewrite Forall_forall in Hl. apply Hl. by apply list_elem_of_In.
Qed.

Lemma skip_fs_locations_enc root (locs : list (list bytes * list bytes)) rest :
  strings_ok root -> Z.of_nat (length locs) < 2 ^ 32 ->
  Forall (fun l => strings_ok l.1 /\ strings_ok l.2) locs ->
  skip_fs_locations ((xdr_strings root ++ xdr_u32 (Z.of_nat (length locs)) ++
    concat (map (fun l => xdr_strings l.1 ++ xdr_strings l.2) locs)) ++ rest) = Ok rest.
Proof.
  intros Hr Hn Hl. unfold skip_fs_locations. rewrite <- !app_assoc.
  rewrite skip_strings_enc by done. cbn [obind].
  rewrite require_app by (by rewrite remaining_xdr_u32). cbn [obind].
  unfold xdr_u32 at 1. rewrite get_u32_be by ilia. cbn [obind].
  apply for_count_skip. intros l r Hin. unfold skip_fs_location.
  rewrite Forall_forall in Hl. destruct (Hl l) as [H1 H2]; [by apply list_elem_of_In|].
  rewrite <- app_assoc, skip_strings_enc by done. cbn [obind]. by apply skip_strings_enc.
Qed.

Lemma check_rdattr_ok rest : check_rdattr_error (be_bytes 4 0 ++ rest) = Ok rest.
Proof.
  unfold check_rdattr_error. rewrite require_app by (by rewrite remaining_be). cbn [obind].
  by rewrite get_u32_be by ilia.
Qed.

Ltac read_one :=
  intros b g H;
  cbv [attrnum_ACL attrnum_ACLSUPPORT attrnum_FILEHANDLE attrnum_FILEID attrnum_MODE] in H;
  inversion H; subst;
  try match goal with E : fixed_len _ = Some _ |- _ => cbn in E; 
    first [discriminate E|injection E as E] end;
  try match goal with E : _ \/ _ |- _ => destruct E as [E|E]; try discriminate E end;
  lazymatch goal with
  | |- reads (skips _) _ _ => apply skips_reads; intros rest
  | |- reads (stores _ _) _ _ => apply stores_reads; intros rest
  end;
  lazymatch goal with
  | |- skip_fixed _ _ _ = _ => apply skip_fixed_enc; first [assumption|symmetry; assumption]
  | |- skip_bitmap4 _ _ = _ => apply skip_bitmap4_enc; assumption
  | |- check_rdattr_error _ = _ => apply check_rdattr_ok
  | |- skip_fs_locations _ = _ => apply skip_fs_locations_enc; assumption
  | |- skip_utf8str _ = _ => apply skip_utf8str_enc; assumption
  | |- skip_acl41 _ = _ => apply skip_acl41_enc; assumption
  | |- skip_settime4 _ (be_bytes 4 0 ++ _) = _ => apply (skip_settime4_enc _ _ _ 0 0); by left
  | |- skip_settime4 _ _ = _ => eapply skip_settime4_enc; right; reflexivity
  | |- fixed_u32 _ _ = _ => apply fixed_u32_enc; assumption
  | |- fixed_u64 _ _ = _ => apply fixed_u64_enc; assumption
  | |- decode_fsid _ = _ => apply decode_fsid_enc; assumption
  | |- decode_rawdev _ = _ => apply decode_rawdev_enc; assumption
  | |- decode_nfstime4 _ = _ => apply decode_nfstime4_enc; assumption
  | |- decode_opaque _ _ = _ => apply decode_opaque_enc; assumption
  | |- decode_acl _ = _ => apply decode_acl_enc; assumption
  | |- decode_utf8str _ = _ =>
      apply decode_utf8str_enc; match goal with E : string_ok _ |- _ => by destruct E end
  end.

Lemma word0_reads :
  Forall (fun '(n, f) => forall b g, attr_value n b g -> reads f b g)
    (word0_low_steps ++ word0_high_steps).
Proof. repeat apply List.Forall_cons; [read_one..|constructor]. Qed.

Lemma word1_reads :
  Forall (fun '(n, f) => forall b g, attr_value n b g -> reads f b g)
    (word1_low_steps ++ word1_high_steps).
Proof. repeat apply List.Forall_cons; [read_one..|constructor]. Qed.

Lemma fattr4_reads n f b g : In (n, f) fattr4_steps -> attr_value n b g -> reads f b g.
Proof.
  intros Hin. pose proof word0_reads as H0. pose proof word1_reads as H1.
  rewrite List.Forall_forall in H0, H1. unfold fattr4_steps in Hin.
  rewrite !app_assoc, <- app_assoc in Hin. apply in_app_or in Hin as [Hin|Hin].
  - apply (H0 _ Hin).
  - apply (H1 _ Hin).
Qed.

(** What a server sends for [bitmap]: the values of the attributes it has, in
    the order of their numbers. *)
Definition wire_attrs (bitmap : list Z) (steps : list (Z * attr_step)) (wire : Z -> bytes) : bytes :=
  concat (map (fun '(n, _) => if bitmap_has bitmap n then wire n else []) steps).
Definition stored_attrs (bitmap : list Z) (steps : list (Z * attr_step))
    (upd : Z -> Attr -> Attr) (a : Attr) : Attr :=
  fold_left (fun a '(n, _) => if bitmap_has bitmap n then upd n a else a) steps a.

Lemma run_steps_wire bitmap steps wire upd a rest :
  (forall n f, In (n, f) steps -> bitmap_has bitmap n = true -> reads f (wire n) (upd n)) ->
  run_steps bitmap steps (a, wire_attrs bitmap steps wire ++ rest) =
  Ok (stored_attrs bitmap steps upd a, rest).
Proof.
  revert a. induction steps as [|[n f] steps IH]; intros a Hr; [done|].
  unfold wire_attrs, stored_attrs in *. cbn [map concat fold_left run_steps].
  assert (IH' := fun a => IH a (fun m g H => Hr m g (or_intror H))).
  destruct (bitmap_has bitmap n) eqn:E.
  - rewrite <- app_assoc, (Hr n f (or_introl eq_refl) E). cbn [obind]. apply IH'.
  - cbn [obind app]. apply IH'.
Qed.

(** ** Properties *)

(** Decoding a GETATTR reply terminates without panic on every byte
    sequence: every slice, split and read is guarded. *)
Theorem decode_getattr_response_no_panic data : decode_getattr_response data <> Panic.
Proof.
  apply (wpo_no_panic _ (fun _ => True)). unfold decode_getattr_response. wp.
  wp_call wpo_decode_getattr_envelope. intros [[bitmap vals] rest] _. wp.
  wp_call wpo_run_steps; [apply fattr4_steps_total|]. intros [attr r] _. done.
Qed.

(** For every bitmap and every choice of attribute values laid out as RFC
    7530 prescribes, the decoder stores each kept attribute, skips exactly the
    bytes of the others, and stops at the end of the values, whichever subset
    of the 61 attributes the server returned. *)
Theorem decode_fattr4_layout bitmap wire upd rest :
  (forall n, 0 <= n <= 60 -> bitmap_has bitmap n = true -> attr_value n (wire n) (upd n)) ->
  decode_fattr4_to_attr bitmap (wire_attrs bitmap fattr4_steps wire ++ rest) =
  Ok (stored_attrs bitmap fattr4_steps upd Attr_default, rest).
Proof.
  intros Hv. apply run_steps_wire. intros n f Hin Hb. apply (fattr4_reads n); [done|].
  apply Hv; [|done].
  assert (Hall : Forall (fun '(n, _) => 0 <= n <= 60) fattr4_steps)
    by (repeat constructor; by vm_compute).
  rewrite List.Forall_forall in Hall. apply (Hall _ Hin).
Qed.

(** A reply with a skipped attribute (change) between two kept ones. *)
Definition demo_wire (n : Z) : bytes :=
  if n =? 1 then be_bytes 4 2 else if n =? 3 then be_bytes 8 77 else be_bytes 8 4096.
Definition demo_upd (n : Z) : Attr -> Attr :=
  if n =? 1 then set_type 2 else if n =? 3 then (fun a => a) else set_filesize 4096.

Lemma decode_fattr4_layout_witness :
  decode_fattr4_to_attr [26] (wire_attrs [26] fattr4_steps demo_wire ++ []) =
  Ok (stored_attrs [26] fattr4_steps demo_upd Attr_default, []).
Proof.
  apply decode_fattr4_layout. intros n Hn Hb.
  assert (n = 1 \/ n = 3 \/ n = 4) as [-> |[-> | ->]].
  { assert (Hall : forallb (fun n => negb (bitmap_has [26] n) || (n =? 1) || (n =? 3) || (n =? 4))
              (seqZ 0 61) = true) by reflexivity.
    rewrite forallb_forall in Hall. specialize (Hall n).
    rewrite Hb in Hall. cbn [negb orb] in Hall.
    assert (Hin : In n (seqZ 0 61)) by (apply list_elem_of_In, elem_of_seqZ; lia).
    specialize (Hall Hin). apply orb_true_iff in Hall as [Hall|Hall];
      [apply orb_true_iff in Hall as [Hall|Hall]|]; apply Z.eqb_eq in Hall; auto. }
  - apply av_type. unfold is_u32. lia.
  - by eapply av_fixed.
  - apply av_size. unfold is_u64. lia.
Defined.

(** The value of each attribute SETATTR can carry. *)
Definition setattr_wire (mode uid gid size : option Z) (atime mtime : option Time) (n : Z) : bytes :=
  if n =? 4 then be_bytes 8 (default 0 size)
  else if n =? 33 then be_bytes 4 (default 0 mode)
  else if n =? 36 then xdr_opaque (dec (default 0 uid))
  else if n =? 37 then xdr_opaque (dec (default 0 gid))
  else let t := default time_zero (if n =? 48 then atime else mtime) in
       be_bytes 4 1 ++ wire_time (seconds t) (nseconds t).
Definition setattr_upd (mode uid gid size : option Z) (n : Z) : Attr -> Attr :=
  if n =? 4 then set_filesize (default 0 size)
  else if n =? 33 then set_mode (default 0 mode)
  else if n =? 36 then store_owner (dec (default 0 uid))
  else if n =? 37 then store_group (dec (default 0 gid))
  else fun a => a.

Definition opt_if {A} (b : bool) (v : A) : option A := if b then Some v else None.

(** The six flags determine the mask. *)
Definition setattr_mask (m u g s a t : bool) : list Z :=
  (encode_setattr (opt_if m 0) (opt_if u 0) (opt_if g 0) (opt_if s 0) (opt_if a time_zero)
    (opt_if t time_zero)).1.

Definition given {A} (o : option A) : bool := match o with Some _ => true | None => false end.

Lemma encode_setattr_mask mode uid gid size atime mtime :
  (encode_setattr mode uid gid size atime mtime).1 =
  setattr_mask (given mode) (given uid) (given gid) (given size) (given atime) (given mtime).
Proof. by destruct mode, uid, gid, size, atime, mtime. Qed.

(** Which attributes a mask announces. *)
Definition setattr_has (m u g s a t : bool) (n : Z) : bool :=
  match n with
  | 4 => s | 33 => m | 36 => u | 37 => g | 48 => a | 54 => t
  | _ => false
  end.

Lemma setattr_mask_has m u g s a t n :
  0 <= n <= 60 -> bitmap_has (setattr_mask m u g s a t) n = setattr_has m u g s a t n.
Proof.
  intros Hn.
  assert (Hall : forallb (fun n => Bool.eqb (bitmap_has (setattr_mask m u g s a t) n)
                                    (setattr_has m u g s a t n)) (seqZ 0 61) = true)
    by (destruct m, u, g, s, a, t; vm_compute; reflexivity).
  rewrite forallb_forall in Hall. apply Bool.eqb_prop, Hall, list_elem_of_In, elem_of_seqZ. lia.
Qed.

Lemma dec_length v : remaining (dec v) <= 20.
Proof.
  unfold dec, remaining. rewrite length_rev.
  enough (H : forall f z, (length (dec_rev f z) <= f)%nat) by (pose proof (H 20%nat v); lia).
  induction f as [|f IH]; intros z; simpl; [done|]. destruct (z <? 10); simpl; [lia|].
  specialize (IH (z / 10)). lia.
Qed.

Lemma dec_string_ok v : string_ok (dec v).
Proof. split; [apply utf8_valid_ascii, dec_ascii|]. pose proof (dec_length v). lia. Qed.

Lemma parse_owner_dec v : is_u32 v -> parse_numeric_owner (dec v) = v.
Proof.
  intros Hv. unfold parse_numeric_owner, parse_u32. rewrite parse_unsigned_dec; [done|ilia|ilia].
Qed.

Lemma wire_attrs_ext bitmap has wire :
  (forall n, 0 <= n <= 60 -> bitmap_has bitmap n = has n) ->
  wire_attrs bitmap fattr4_steps wire =
  concat (map (fun n => if has n then wire n else []) (seqZ 0 61)).
Proof.
  intros Hh. change (seqZ 0 61) with (map fst fattr4_steps). unfold wire_attrs.
  rewrite map_map. f_equal. apply map_ext_in. intros [n f] Hin. cbn [fst].
  rewrite Hh; [done|]. apply (in_map fst) in Hin. change (map fst fattr4_steps) with (seqZ 0 61) in Hin.
  apply list_elem_of_In, elem_of_seqZ in Hin. cbn in Hin. lia.
Qed.

Lemma stored_attrs_ext bitmap has upd a :
  (forall n, 0 <= n <= 60 -> bitmap_has bitmap n = has n) ->
  stored_attrs bitmap fattr4_steps upd a =
  fold_left (fun a n => if has n then upd n a else a) (seqZ 0 61) a.
Proof.
  intros Hh. unfold stored_attrs.
  assert (Hr : Forall (fun '(n, _) => 0 <= n <= 60) fattr4_steps)
    by (repeat constructor; by vm_compute).
  change (seqZ 0 61) with (map fst fattr4_steps). revert a Hr. generalize fattr4_steps.
  induction l as [|[n f] l IH]; intros a Hr; [done|]. apply Forall_cons in Hr as [Hn Hr].
  cbn [fold_left map fst]. rewrite Hh by done. by apply IH.
Qed.

Definition opt_ok {A} (P : A -> Prop) (o : option A) : Prop :=
  match o with Some v => P v | None => True end.

(** The attributes SETATTR announces are exactly the ones whose values it
    writes, in increasing order of attribute number. *)
Lemma encode_setattr_values mode uid gid size atime mtime :
  (encode_setattr mode uid gid size atime mtime).2 =
  wire_attrs (encode_setattr mode uid gid size atime mtime).1 fattr4_steps
    (setattr_wire mode uid gid size atime mtime).
Proof.
  rewrite encode_setattr_mask. erewrite wire_attrs_ext by (intros; by apply setattr_mask_has).
  let l := eval vm_compute in (seqZ 0 61) in change (seqZ 0 61) with l.
  destruct mode, uid, gid, size, atime, mtime;
    cbn -[be_bytes xdr_opaque dec wire_time]; unfold wire_time;
    rewrite ?app_nil_r, <- ?app_assoc; reflexivity.
Qed.

(** The mask and values that SETATTR sends describe each other: decoding
    them as an [fattr4] succeeds, consumes all values, and gives back the size
    and mode and, through their decimal text, the owner and group ids. *)
Theorem setattr_encoding_decodes mode uid gid size atime mtime :
  opt_ok is_u32 mode -> opt_ok is_u32 uid -> opt_ok is_u32 gid -> opt_ok is_u64 size ->
  let '(mask, values) := encode_setattr mode uid gid size atime mtime in
  exists attr, decode_fattr4_to_attr mask values = Ok (attr, []) /\
    a_file_mode attr = default 0 mode /\ a_uid attr = default 0 uid /\
    a_gid attr = default 0 gid /\ a_filesize attr = default 0 size.
Proof.
  intros Hm Hu Hg Hs. pose proof (encode_setattr_mask mode uid gid size atime mtime) as Hmask.
  pose proof (encode_setattr_values mode uid gid size atime mtime) as Hvals.
  destruct (encode_setattr mode uid gid size atime mtime) as [mask values]. cbn [fst snd] in *.
  pose proof (decode_fattr4_layout mask (setattr_wire mode uid gid size atime mtime)
    (setattr_upd mode uid gid size) []) as Hd.
  rewrite app_nil_r, <- Hvals in Hd. eexists. split.
  - apply Hd. intros n Hn. rewrite Hmask, setattr_mask_has by done. intros Hb.
    destruct (decide (n = 4)) as [->|]; [|destruct (decide (n = 33)) as [->|];
      [|destruct (decide (n = 36)) as [->|]; [|destruct (decide (n = 37)) as [->|];
      [|destruct (decide (n = 48)) as [->|]; [|destruct (decide (n = 54)) as [->|]]]]]].
    + destruct size; [|done]. by apply av_size.
    + destruct mode; [|done]. by apply av_mode.
    + apply av_owner, dec_string_ok.
    + apply av_group, dec_string_ok.
    + apply av_settime_client. by left.
    + apply av_settime_client. by right.
    + exfalso. unfold setattr_has in Hb. repeat case_match; congruence.
  - erewrite stored_attrs_ext by (intros; rewrite Hmask; by apply setattr_mask_has).
    let l := eval vm_compute in (seqZ 0 61) in change (seqZ 0 61) with l.
    clear Hd Hmask Hvals. destruct mode, uid, gid, size; destruct atime, mtime;
      cbn -[dec parse_numeric_owner]; rewrite ?parse_owner_dec by done; done.
Qed.

Lemma setattr_encoding_decodes_witness :
  let '(mask, values) := encode_setattr (Some 420) (Some 1000) None (Some 4096) None
                           (Some {| seconds := 5; nseconds := 6 |}) in
  exists attr, decode_fattr4_to_attr mask values = Ok (attr, []) /\
    a_file_mode attr = 420 /\ a_uid attr = 1000 /\ a_gid attr = 0 /\ a_filesize attr = 4096.
Proof.
  apply (setattr_encoding_decodes (Some 420) (Some 1000) None (Some 4096) None
           (Some {| seconds := 5; nseconds := 6 |})); unfold opt_ok, is_u32, is_u64; lia.
Defined.
