(* ===== verification/Compound41.v ===== *)
(** * COMPOUND requests of NFSv4.1 and v4.2

    Models the request half of [src/src/nfs41/compound.rs]: operation numbers
    and their replay class, the builder with one definition per operation, the
    reply-cache policy of SEQUENCE, the busy-retry decision and the encoding of
    the request. *)
From S2P Require Import Prelude Errors Xdr4.
From stdpp Require Import base list numbers strings.
#[local] Open Scope Z_scope.

Definition MAX_COMPOUND_OPS : Z := 256.
Definition MAX_BITMAP_WORDS : Z := 16.
Definition MAX_ENTRY4_PER_PAGE : Z := 65536.
Definition MAX_LAYOUT_SEGMENTS : Z := 1024.

(** ** Operation numbers *)

Module OpNum.
Inductive t : Type :=
| Access | Close | Commit | Create | GetAttr | GetFh | Link | Lookup | Lookupp | Open | PutFh
| PutRootFh | Read | ReadDir | ReadLink | Remove | Rename | RestoreFh | SaveFh | SetAttr | Write
| OpenAttr | Lock | Lockt | Locku | LayoutGet | LayoutCommit | LayoutReturn | GetDeviceInfo
| ExchangeId | CreateSession | DestroySession | BindConnToSession | Sequence | ReclaimComplete
| DestroyClientId | DelegReturn | TestStateId | FreeStateId | Allocate | Copy | Deallocate
| OffloadCancel | ReadPlus | Seek | Clone | GetXattr | SetXattr | ListXattrs | RemoveXattr.
#[global] Instance t_eq_dec : EqDecision t.
Proof. solve_decision. Defined.
End OpNum.

(** [OpNum as u32] *)
Definition op_u32 (o : OpNum.t) : Z :=
  match o with
  | OpNum.Access => 3 | OpNum.Close => 4 | OpNum.Commit => 5 | OpNum.Create => 6
  | OpNum.GetAttr => 9 | OpNum.GetFh => OP_GETFH | OpNum.Link => 11 | OpNum.Lookup => OP_LOOKUP
  | OpNum.Lookupp => 16 | OpNum.Open => 18 | OpNum.PutFh => 22 | OpNum.PutRootFh => OP_PUTROOTFH
  | OpNum.Read => 25 | OpNum.ReadDir => 26 | OpNum.ReadLink => 27 | OpNum.Remove => 28
  | OpNum.Rename => 29 | OpNum.RestoreFh => 31 | OpNum.SaveFh => 32 | OpNum.SetAttr => 34
  | OpNum.Write => 38 | OpNum.OpenAttr => 20 | OpNum.Lock => 12 | OpNum.Lockt => 13
  | OpNum.Locku => 14 | OpNum.LayoutGet => 50 | OpNum.LayoutCommit => 49
  | OpNum.LayoutReturn => 51 | OpNum.GetDeviceInfo => 47 | OpNum.ExchangeId => 42
  | OpNum.CreateSession => 43 | OpNum.DestroySession => 44 | OpNum.BindConnToSession => 41
  | OpNum.Sequence => 53 | OpNum.ReclaimComplete => 58 | OpNum.DestroyClientId => 57
  | OpNum.DelegReturn => 8 | OpNum.TestStateId => 55 | OpNum.FreeStateId => 56
  | OpNum.Allocate => 59 | OpNum.Copy => 60 | OpNum.Deallocate => 62 | OpNum.OffloadCancel => 66
  | OpNum.ReadPlus => 68 | OpNum.Seek => 69 | OpNum.Clone => 71 | OpNum.GetXattr => 72
  | OpNum.SetXattr => 73 | OpNum.ListXattrs => 74 | OpNum.RemoveXattr => 75
  end.

(** [OpNum::class]; the two [OperationClass] enums of the crate have the same
    variants and the conversion between them is the identity here. *)
Definition class (o : OpNum.t) : OperationClass :=
  match o with
  | OpNum.Access | OpNum.GetAttr | OpNum.GetFh | OpNum.GetDeviceInfo | OpNum.Lockt | OpNum.Lookup
  | OpNum.Lookupp | OpNum.PutFh | OpNum.PutRootFh | OpNum.Read | OpNum.ReadDir | OpNum.ReadLink
  | OpNum.RestoreFh | OpNum.SaveFh | OpNum.TestStateId | OpNum.ReadPlus | OpNum.Seek
  | OpNum.GetXattr | OpNum.ListXattrs => ReadOnly
  | OpNum.BindConnToSession | OpNum.CreateSession | OpNum.DestroyClientId | OpNum.DestroySession
  | OpNum.ExchangeId | OpNum.ReclaimComplete | OpNum.Sequence => SessionControl
  | OpNum.Close | OpNum.Commit | OpNum.Create | OpNum.DelegReturn | OpNum.FreeStateId
  | OpNum.LayoutCommit | OpNum.LayoutGet | OpNum.LayoutReturn | OpNum.Link | OpNum.Lock
  | OpNum.Locku | OpNum.Open | OpNum.OpenAttr | OpNum.Remove | OpNum.Rename | OpNum.SetAttr
  | OpNum.Write | OpNum.Allocate | OpNum.Deallocate | OpNum.Copy | OpNum.Clone
  | OpNum.OffloadCancel | OpNum.SetXattr | OpNum.RemoveXattr => ReplaySensitive
  end.

(** The derived [Ord] of [OperationClass]. *)
Definition class_rank (c : OperationClass) : Z :=
  match c with ReadOnly => 0 | SessionControl => 1 | ReplaySensitive => 2 end.
Definition class_max (a b : OperationClass) : OperationClass :=
  if class_rank a <=? class_rank b then b else a.

(** [iter().max().unwrap_or(SessionControl)] *)
Definition max_class (l : list OperationClass) : OperationClass :=
  match l with
  | [] => SessionControl
  | c :: l => fold_left class_max l c
  end.

(** ** The builder *)

Record EncodedOp : Type := { opcode : OpNum.t; args : bytes }.

Record CompoundBuilder : Type := {
  tag : bytes;
  ops : list EncodedOp;
  required_generation : option Z;
}.

Definition push (b : CompoundBuilder) (o : OpNum.t) (a : bytes) : CompoundBuilder :=
  {| tag := tag b; ops := ops b ++ [{| opcode := o; args := a |}];
     required_generation := required_generation b |}.

Definition builder_new (t : bytes) : CompoundBuilder :=
  {| tag := t; ops := []; required_generation := None |}.

Definition op_count (b : CompoundBuilder) : Z := Z.of_nat (length (ops b)).

Definition enforce_max_operations (b : CompoundBuilder) (maximum : Z) : result () :=
  let count := op_count b in
  if u32_max <? count then Err (Rpc "COMPOUND operation count exceeds u32")
  else if (count =? 0) || (maximum <? count)
  then Err (Rpc ("COMPOUND contains " +:+ fmtZ count +:+ " operations; channel maximum is " +:+
                 fmtZ maximum))
  else Ok ().

Definition operation_class_of (b : CompoundBuilder) : OperationClass :=
  max_class (map (fun op => class (opcode op)) (skipn 1 (ops b))).

Definition requires_original_session (b : CompoundBuilder) : bool :=
  existsb (fun op => match opcode op with
                     | OpNum.Allocate | OpNum.Deallocate | OpNum.Copy | OpNum.Clone
                     | OpNum.OffloadCancel | OpNum.SetXattr | OpNum.RemoveXattr => true
                     | _ => false
                     end) (ops b).

Definition require_generation (b : CompoundBuilder) (generation : Z) : CompoundBuilder :=
  {| tag := tag b; ops := ops b;
     required_generation := if negb (generation =? 0) then Some generation
                            else required_generation b |}.

(** *** Session operations *)

Definition sequence_args (session_id : bytes) (sequence_id slot_id highest_slot_id : Z) : bytes :=
  session_id ++ xdr_u32 sequence_id ++ xdr_u32 slot_id ++ xdr_u32 highest_slot_id ++ xdr_bool false.
Definition sequence (session_id : bytes) (sequence_id slot_id highest_slot_id : Z)
    (b : CompoundBuilder) : CompoundBuilder :=
  push b OpNum.Sequence (sequence_args session_id sequence_id slot_id highest_slot_id).

Definition exchange_id (co_verifier co_ownerid : bytes) (flags : Z) (impl_domain impl_name : bytes)
    (b : CompoundBuilder) : CompoundBuilder :=
  push b OpNum.ExchangeId
    (co_verifier ++ xdr_opaque co_ownerid ++ xdr_u32 flags ++ xdr_u32 0 ++ xdr_u32 1 ++
     xdr_opaque impl_domain ++ xdr_opaque impl_name ++ xdr_i64 0 ++ xdr_u32 0).

Record ChannelAttrsArgs : Type := {
  headerpadsize : Z; maxrequestsize : Z; maxresponsesize : Z; maxresponsesize_cached : Z;
  maxoperations : Z; maxrequests : Z
}.

Definition ChannelAttrsArgs_encode (c : ChannelAttrsArgs) : bytes :=
  xdr_u32 (headerpadsize c) ++ xdr_u32 (maxrequestsize c) ++ xdr_u32 (maxresponsesize c) ++
  xdr_u32 (maxresponsesize_cached c) ++ xdr_u32 (maxoperations c) ++ xdr_u32 (maxrequests c) ++
  xdr_u32 0.

Definition create_session (client_id sequence_id flags : Z) (fore back : ChannelAttrsArgs)
    (cb_program : Z) (b : CompoundBuilder) : CompoundBuilder :=
  push b OpNum.CreateSession
    (xdr_u64 client_id ++ xdr_u32 sequence_id ++ xdr_u32 flags ++ ChannelAttrsArgs_encode fore ++
     ChannelAttrsArgs_encode back ++ xdr_u32 cb_program ++ xdr_u32 1 ++ xdr_u32 0).

Definition destroy_session (session_id : bytes) (b : CompoundBuilder) : CompoundBuilder :=
  push b OpNum.DestroySession session_id.
Definition bind_conn_to_session (session_id : bytes) (dir : Z) (rdma : bool)
    (b : CompoundBuilder) : CompoundBuilder :=
  push b OpNum.BindConnToSession (session_id ++ xdr_u32 dir ++ xdr_bool rdma).
Definition reclaim_complete (one_fs : bool) (b : CompoundBuilder) : CompoundBuilder :=
  push b OpNum.ReclaimComplete (xdr_bool one_fs).
Definition destroy_client_id (client_id : Z) (b : CompoundBuilder) : CompoundBuilder :=
  push b OpNum.DestroyClientId (xdr_u64 client_id).

(** *** Filehandle operations *)

Definition putrootfh (b : CompoundBuilder) : CompoundBuilder := push b OpNum.PutRootFh [].
Definition putfh (fh : bytes) (b : CompoundBuilder) : CompoundBuilder :=
  push b OpNum.PutFh (xdr_opaque fh).
Definition getfh (b : CompoundBuilder) : CompoundBuilder := push b OpNum.GetFh [].
Definition savefh (b : CompoundBuilder) : CompoundBuilder := push b OpNum.SaveFh [].
Definition restorefh (b : CompoundBuilder) : CompoundBuilder := push b OpNum.RestoreFh [].
Definition openattr (create_dir : bool) (b : CompoundBuilder) : CompoundBuilder :=
  push b OpNum.OpenAttr (xdr_bool create_dir).

(** *** File operations *)

Definition lookup_name (name : bytes) (b : CompoundBuilder) : CompoundBuilder :=
  push b OpNum.Lookup (xdr_opaque name).
Definition lookupp (b : CompoundBuilder) : CompoundBuilder := push b OpNum.Lookupp [].
Definition getattr (bitmap : list Z) (b : CompoundBuilder) : CompoundBuilder :=
  push b OpNum.GetAttr (xdr_bitmap bitmap).
Definition setattr (stateid : bytes) (attrmask : list Z) (attr_vals : bytes) (b : CompoundBuilder)
    : CompoundBuilder :=
  push b OpNum.SetAttr (stateid ++ xdr_bitmap attrmask ++ xdr_opaque attr_vals).
Definition access (access_mask : Z) (b : CompoundBuilder) : CompoundBuilder :=
  push b OpNum.Access (xdr_u32 access_mask).
Definition read (stateid : bytes) (offset count : Z) (b : CompoundBuilder) : CompoundBuilder :=
  push b OpNum.Read (stateid ++ xdr_u64 offset ++ xdr_u32 count).
Definition write (stateid : bytes) (offset stable : Z) (data : bytes) (b : CompoundBuilder)
    : CompoundBuilder :=
  push b OpNum.Write (stateid ++ xdr_u64 offset ++ xdr_u32 stable ++ xdr_opaque data).
Definition write_header (stateid : bytes) (offset stable data_len : Z) (b : CompoundBuilder)
    : CompoundBuilder :=
  push b OpNum.Write (stateid ++ xdr_u64 offset ++ xdr_u32 stable ++ xdr_u32 data_len).
Definition commit (offset count : Z) (b : CompoundBuilder) : CompoundBuilder :=
  push b OpNum.Commit (xdr_u64 offset ++ xdr_u32 count).
Definition readdir (cookie : Z) (cookieverf : bytes) (dircount maxcount : Z)
    (attr_request : list Z) (b : CompoundBuilder) : CompoundBuilder :=
  push b OpNum.ReadDir (xdr_u64 cookie ++ cookieverf ++ xdr_u32 dircount ++ xdr_u32 maxcount ++
                        xdr_bitmap attr_request).
Definition readlink (b : CompoundBuilder) : CompoundBuilder := push b OpNum.ReadLink [].

Definition OPEN4_SHARE_ACCESS_WANT_NO_DELEG : Z := 1024.
Definition OPEN4_SHARE_ACCESS_WANT_WRITE_DELEG : Z := 512.

Record OpenArgs : Type := {
  oa_seqid : Z; oa_share_access : Z; oa_share_deny : Z; oa_client_id : Z; oa_owner : bytes;
  oa_create : bool; oa_create_attrs_mask : list Z; oa_create_attrs_vals : bytes;
  oa_claim_file : bytes; oa_want_no_delegation : bool
}.

Definition encode_create (o : OpenArgs) (guarded : bool) : bytes :=
  let share_access :=
    if oa_want_no_delegation o
    then Z.lor (oa_share_access o) OPEN4_SHARE_ACCESS_WANT_NO_DELEG
    else Z.lor (oa_share_access o) OPEN4_SHARE_ACCESS_WANT_WRITE_DELEG in
  xdr_u32 (oa_seqid o) ++ xdr_u32 share_access ++ xdr_u32 (oa_share_deny o) ++
  xdr_u64 (oa_client_id o) ++ xdr_opaque (oa_owner o) ++
  (if oa_create o
   then xdr_u32 1 ++ xdr_u32 (b2z guarded) ++ xdr_bitmap (oa_create_attrs_mask o) ++
        xdr_opaque (oa_create_attrs_vals o)
   else xdr_u32 0) ++
  xdr_u32 0 ++ xdr_opaque (oa_claim_file o).

Definition open (o : OpenArgs) (b : CompoundBuilder) : CompoundBuilder :=
  push b OpNum.Open (encode_create o false).
Definition open_guarded (o : OpenArgs) (b : CompoundBuilder) : CompoundBuilder :=
  push b OpNum.Open (encode_create o true).
Definition close (seqid : Z) (stateid : bytes) (b : CompoundBuilder) : CompoundBuilder :=
  push b OpNum.Close (xdr_u32 seqid ++ stateid).
Definition create (objtype : Z) (name : bytes) (attrmask : list Z) (attr_vals : bytes)
    (b : CompoundBuilder) : CompoundBuilder :=
  push b OpNum.Create (xdr_u32 objtype ++ xdr_opaque name ++ xdr_bitmap attrmask ++
                       xdr_opaque attr_vals).
Definition create_symlink (name link_target : bytes) (attrmask : list Z) (attr_vals : bytes)
    (b : CompoundBuilder) : CompoundBuilder :=
  push b OpNum.Create (xdr_u32 5 ++ xdr_opaque link_target ++ xdr_opaque name ++
                       xdr_bitmap attrmask ++ xdr_opaque attr_vals).
Definition remove (name : bytes) (b : CompoundBuilder) : CompoundBuilder :=
  push b OpNum.Remove (xdr_opaque name).
Definition rename (oldname newname : bytes) (b : CompoundBuilder) : CompoundBuilder :=
  push b OpNum.Rename (xdr_opaque oldname ++ xdr_opaque newname).
Definition link (newname : bytes) (b : CompoundBuilder) : CompoundBuilder :=
  push b OpNum.Link (xdr_opaque newname).

(** *** pNFS operations *)

Definition layoutget (signal : bool) (layout_type iomode offset len min_length : Z)
    (stateid : bytes) (max_count : Z) (b : CompoundBuilder) : CompoundBuilder :=
  push b OpNum.LayoutGet
    (xdr_bool signal ++ xdr_u32 layout_type ++ xdr_u32 iomode ++ xdr_u64 offset ++ xdr_u64 len ++
     xdr_u64 min_length ++ stateid ++ xdr_u32 max_count).
Definition layoutcommit (offset len : Z) (reclaim : bool) (stateid : bytes)
    (last_write_offset : option Z) (layout_type : Z) (b : CompoundBuilder) : CompoundBuilder :=
  push b OpNum.LayoutCommit
    (xdr_u64 offset ++ xdr_u64 len ++ xdr_bool reclaim ++ stateid ++
     match last_write_offset with
     | Some off => xdr_bool true ++ xdr_u64 off
     | None => xdr_bool false
     end ++ xdr_u32 0 ++ xdr_u32 layout_type ++ xdr_u32 0).
Definition layoutreturn (reclaim : bool) (layout_type iomode return_type offset len : Z)
    (stateid : bytes) (b : CompoundBuilder) : CompoundBuilder :=
  push b OpNum.LayoutReturn
    (xdr_bool reclaim ++ xdr_u32 layout_type ++ xdr_u32 iomode ++ xdr_u32 return_type ++
     (if return_type =? 1
      then xdr_u64 offset ++ xdr_u64 len ++ stateid ++ xdr_u32 0
      else [])).
Definition getdeviceinfo (device_id : bytes) (layout_type max_count : Z) (b : CompoundBuilder)
    : CompoundBuilder :=
  push b OpNum.GetDeviceInfo
    (device_id ++ xdr_u32 layout_type ++ xdr_u32 max_count ++ xdr_u32 1 ++
     xdr_u32 (Z.lor (Z.shiftl 1 1) (Z.shiftl 1 2))).

(** *** Lock operations *)

Definition lock (lock_type : Z) (reclaim : bool) (offset len : Z) (new_lock_owner : bool)
    (open_stateid : bytes) (lock_seqid open_seqid : Z) (lock_owner : bytes) (client_id : Z)
    (b : CompoundBuilder) : CompoundBuilder :=
  push b OpNum.Lock
    (xdr_u32 lock_type ++ xdr_bool reclaim ++ xdr_u64 offset ++ xdr_u64 len ++
     (if new_lock_owner
      then xdr_bool true ++ xdr_u32 open_seqid ++ open_stateid ++ xdr_u32 lock_seqid ++
           xdr_u64 client_id ++ xdr_opaque lock_owner
      else xdr_bool false ++ open_stateid ++ xdr_u32 lock_seqid)).
Definition lockt (lock_type offset len : Z) (lock_owner : bytes) (client_id : Z)
    (b : CompoundBuilder) : CompoundBuilder :=
  push b OpNum.Lockt (xdr_u32 lock_type ++ xdr_u64 offset ++ xdr_u64 len ++ xdr_u64 client_id ++
                      xdr_opaque lock_owner).
Definition locku (lock_type seqid : Z) (lock_stateid : bytes) (offset len : Z)
    (b : CompoundBuilder) : CompoundBuilder :=
  push b OpNum.Locku (xdr_u32 lock_type ++ xdr_u32 seqid ++ lock_stateid ++ xdr_u64 offset ++
                      xdr_u64 len).
Definition test_stateid (stateids : list bytes) (b : CompoundBuilder) : CompoundBuilder :=
  push b OpNum.TestStateId (xdr_u32 (Z.of_nat (length stateids)) ++ concat stateids).
Definition delegreturn (stateid : bytes) (b : CompoundBuilder) : CompoundBuilder :=
  push b OpNum.DelegReturn stateid.
Definition free_stateid (stateid : bytes) (b : CompoundBuilder) : CompoundBuilder :=
  push b OpNum.FreeStateId stateid.

(** *** NFSv4.2 operations *)

Inductive SeekContent : Type := SeekData | SeekHole.
Definition SeekContent_u32 (w : SeekContent) : Z := match w with SeekData => 0 | SeekHole => 1 end.
Inductive XattrSetMode : Type := XattrEither | XattrCreate | XattrReplace.
Definition XattrSetMode_u32 (m : XattrSetMode) : Z :=
  match m with XattrEither => 0 | XattrCreate => 1 | XattrReplace => 2 end.

Definition space (allocate : bool) (stateid : bytes) (offset len : Z) (b : CompoundBuilder)
    : CompoundBuilder :=
  push b (if allocate then OpNum.Allocate else OpNum.Deallocate)
    (stateid ++ xdr_u64 offset ++ xdr_u64 len).
Definition seek (stateid : bytes) (offset : Z) (what : SeekContent) (b : CompoundBuilder)
    : CompoundBuilder :=
  push b OpNum.Seek (stateid ++ xdr_u64 offset ++ xdr_u32 (SeekContent_u32 what)).
Definition read_plus (stateid : bytes) (offset count : Z) (b : CompoundBuilder) : CompoundBuilder :=
  push b OpNum.ReadPlus (stateid ++ xdr_u64 offset ++ xdr_u32 count).
Definition copy_range (clone : bool) (src dst : bytes) (src_offset dst_offset count : Z)
    (b : CompoundBuilder) : CompoundBuilder :=
  push b (if clone then OpNum.Clone else OpNum.Copy)
    (src ++ dst ++ xdr_u64 src_offset ++ xdr_u64 dst_offset ++ xdr_u64 count ++
     (if negb clone then xdr_bool true ++ xdr_bool true ++ xdr_u32 0 else [])).
Definition offload_cancel (stateid : bytes) (b : CompoundBuilder) : CompoundBuilder :=
  push b OpNum.OffloadCancel stateid.
Definition getxattr (name : bytes) (b : CompoundBuilder) : CompoundBuilder :=
  push b OpNum.GetXattr (xdr_opaque name).
Definition setxattr (name value : bytes) (mode : XattrSetMode) (b : CompoundBuilder)
    : CompoundBuilder :=
  push b OpNum.SetXattr (xdr_u32 (XattrSetMode_u32 mode) ++ xdr_opaque name ++ xdr_opaque value).
Definition listxattrs (cookie maxcount : Z) (b : CompoundBuilder) : CompoundBuilder :=
  push b OpNum.ListXattrs (xdr_u64 cookie ++ xdr_u32 maxcount).
Definition removexattr (name : bytes) (b : CompoundBuilder) : CompoundBuilder :=
  push b OpNum.RemoveXattr (xdr_opaque name).

(** ** Encoding *)

Inductive MinorVersion : Type := V1 | V2.
#[global] Instance MinorVersion_eq_dec : EqDecision MinorVersion.
Proof. solve_decision. Defined.
Definition MinorVersion_u32 (v : MinorVersion) : Z := match v with V1 => 1 | V2 => 2 end.

Definition encode_op (op : EncodedOp) : bytes := xdr_u32 (op_u32 (opcode op)) ++ args op.

Definition encode_body_for_version (b : CompoundBuilder) (minor_version : MinorVersion) : bytes :=
  xdr_opaque (tag b) ++ xdr_u32 (MinorVersion_u32 minor_version) ++
  xdr_u32 (Z.of_nat (length (ops b))) ++ concat (map encode_op (ops b)).

Definition NFS4_PROGRAM : Z := 100003.
Definition NFS4_VERSION : Z := 4.
Definition NFS4_COMPOUND_PROC : Z := 1.

Definition encode_with_header (b : CompoundBuilder) (auth : Auth) (minor_version : MinorVersion)
    : bytes :=
  Header_encode (rpc_header NFS4_PROGRAM NFS4_VERSION NFS4_COMPOUND_PROC auth) ++
  encode_body_for_version b minor_version.

(** ** Reply-cache policy *)

Definition SEQUENCE_CACHE_THIS_OFFSET : Z := 28.
Definition MIN_RPC_REPLY_ENVELOPE_SIZE : Z := 24.
Definition MIN_COMPOUND_REPLY_ENVELOPE_SIZE : Z := 12.
Definition SEQUENCE_SUCCESS_REPLY_SIZE : Z := 44.
Definition MIN_OPERATION_REPLY_SIZE : Z := 8.

Definition extra_cached_size (o : OpNum.t) : Z :=
  match o with
  | OpNum.Copy => 32
  | OpNum.SetXattr | OpNum.RemoveXattr => 20
  | _ => 0
  end.

(** [saturating_mul] on a 64-bit [usize]. *)
Definition sat_mul64 (a b : Z) : Z := Z.min (a * b) u64_max.

Definition minimum_cached_response_size (b : CompoundBuilder) : Z :=
  let padded_tag_len := Z.land (sat_add64 (remaining (tag b)) 3) (Z.lnot 3) in
  let remaining_ops := Z.max 0 (op_count b - 1) in
  let extra := foldr Z.add 0 (map (fun op => extra_cached_size (opcode op)) (ops b)) in
  let size :=
    sat_add64 (sat_add64 (sat_add64 (sat_add64 (sat_add64 MIN_RPC_REPLY_ENVELOPE_SIZE
      MIN_COMPOUND_REPLY_ENVELOPE_SIZE) padded_tag_len) SEQUENCE_SUCCESS_REPLY_SIZE)
      (sat_mul64 remaining_ops MIN_OPERATION_REPLY_SIZE)) extra in
  if size <=? u32_max then size else u32_max.

(** Overwrite [args[28..32]]. *)
Definition set_cachethis (a : bytes) (v : Z) : bytes :=
  firstn 28 a ++ be_bytes 4 v ++ skipn 32 a.

Definition apply_sequence_cache_policy (b : CompoundBuilder) (max_cached_response_size : Z)
    : result CompoundBuilder :=
  let c := max_class (map (fun op => class (opcode op)) (skipn 1 (ops b))) in
  let cachethis := bool_decide (c = ReplaySensitive) in
  let required_minimum := minimum_cached_response_size b in
  if cachethis && (max_cached_response_size <? required_minimum)
  then Err (Rpc ("replay-sensitive COMPOUND requires at least " +:+ fmtZ required_minimum +:+
                 " cached response bytes, server negotiated " +:+ fmtZ max_cached_response_size))
  else match ops b with
       | [] => Err (Rpc "COMPOUND has no SEQUENCE operation")
       | s :: rest =>
           if negb (op_u32 (opcode s) =? op_u32 OpNum.Sequence)
              || (remaining (args s) <? SEQUENCE_CACHE_THIS_OFFSET + 4)
           then Err (Rpc "COMPOUND first operation is not a valid SEQUENCE")
           else Ok {| tag := tag b;
                      ops := {| opcode := opcode s;
                                args := set_cachethis (args s) (b2z cachethis) |} :: rest;
                      required_generation := required_generation b |}
       end.
