(* ===== verification/V42.v ===== *)
(** * NFSv4.2 reply decoding

    Models the wire decoders and the READ_PLUS clipping of
    [src/src/nfs41/v42_ops.rs], the LISTXATTRS decoder and name check of
    [src/src/nfs41/v42_xattr.rs], the result types of [src/src/nfs42.rs] and
    [WriteCommitted] of [src/src/mount.rs]. *)
From S2P Require Import Prelude Errors Xdr4.
From stdpp Require Import base list numbers strings.
#[local] Open Scope Z_scope.

(** ** Data *)

Inductive WriteCommitted : Type := Unstable | DataSync | FileSync.
#[global] Instance WriteCommitted_eq_dec : EqDecision WriteCommitted.
Proof. solve_decision. Defined.

Definition WriteCommitted_try_from (v : Z) : result WriteCommitted :=
  match v with
  | 0 => Ok Unstable
  | 1 => Ok DataSync
  | 2 => Ok FileSync
  | _ => Err (Xdr ("invalid WRITE committed value: " +:+ fmtZ v))
  end.

Inductive ReadPlusContent : Type :=
| Data (offset : Z) (data : bytes)
| Hole (offset len : Z).

Record ReadPlusResult : Type := { rp_eof : bool; rp_contents : list ReadPlusContent }.

Record CopyReply : Type := {
  callback : option bytes;
  copy_count : Z;
  committed : WriteCommitted;
  copy_verifier : bytes;
  consecutive : bool;
  synchronous : bool;
}.

(** ** Decoders *)

Definition word (buf : bytes) : result (Z * bytes) :=
  let* _ := require 4 (Xdr "NFSv4.2 u32 truncated") buf in get_u32 buf.

Definition decode_u64 (buf : bytes) : result (Z * bytes) :=
  let* _ := require 8 (Xdr "NFSv4.2 u64 truncated") buf in get_u64 buf.

Definition decode_bool (buf : bytes) : result (bool * bytes) :=
  let* (w, buf) := word buf in
  match w with
  | 0 => Ok (false, buf)
  | 1 => Ok (true, buf)
  | _ => Err (Xdr "invalid NFSv4.2 XDR boolean")
  end.

Definition opaque (buf : bytes) : result (bytes * bytes) := take_opaque buf "NFSv4.2 opaque".

Definition decode_callback_stateid (buf : bytes) : result (option bytes * bytes) :=
  let* (n, buf) := word buf in
  if n =? 0 then Ok (None, buf)
  else if (n =? 1) && (16 <=? remaining buf)
  then let* (id, buf) := split_to 16 buf in Ok (Some id, buf)
  else Err (Xdr "invalid COPY callback stateid array").

Definition decode_copy (buf : bytes) : result (CopyReply * bytes) :=
  let* (cb, buf) := decode_callback_stateid buf in
  let* (count, buf) := decode_u64 buf in
  let* (w, buf) := word buf in
  let* c := WriteCommitted_try_from w in
  let* _ := require 8 (Xdr "COPY verifier truncated") buf in
  let* (verifier, buf) := split_to 8 buf in
  let* (consec, buf) := decode_bool buf in
  let* (sync, buf) := decode_bool buf in
  Ok ({| callback := cb; copy_count := count; committed := c; copy_verifier := verifier;
         consecutive := consec; synchronous := sync |}, buf).

Definition decode_read_plus_content (buf : bytes) : result (ReadPlusContent * bytes) :=
  let* (kind, buf) := word buf in
  let* (offset, buf) := decode_u64 buf in
  match kind with
  | 0 => let* (data, buf) := opaque buf in Ok (Data offset data, buf)
  | 1 => let* (len, buf) := decode_u64 buf in Ok (Hole offset len, buf)
  | _ => Err (Xdr "READ_PLUS unknown content kind")
  end.

Definition decode_read_plus (buf : bytes) : result (ReadPlusResult * bytes) :=
  let* (eof, buf) := decode_bool buf in
  let* (count, buf) := word buf in
  if (4096 <? count) || (remaining buf / 16 <? count)
  then Err (Xdr "READ_PLUS excessive/truncated contents array")
  else
    let* (contents, buf) := collect count decode_read_plus_content buf in
    Ok ({| rp_eof := eof; rp_contents := contents |}, buf).

Definition has_nul (s : bytes) : bool := existsb (fun b => byte_val b =? 0) s.

Definition validate_name (name : bytes) : result () :=
  if (remaining name =? 0) || has_nul name || (u32_max <? remaining name)
  then Err (InvalidInput "xattr name must be nonempty text without NUL") else Ok ().

Definition decode_xattr_name (buf : bytes) : result (bytes * bytes) :=
  let* (raw, buf) := opaque buf in
  if negb (utf8_valid raw) then Err (Xdr "LISTXATTRS key is not UTF-8")
  else if (remaining raw =? 0) || has_nul raw then Err (Xdr "LISTXATTRS invalid key")
  else Ok (raw, buf).

Definition decode_list (buf : bytes) : result (Z * list bytes * bool * bytes) :=
  let* (cookie, buf) := decode_u64 buf in
  let* (count, buf) := word buf in
  if (65536 <? count) || (Z.max 0 (remaining buf - 4) / 4 <? count)
  then Err (Xdr "LISTXATTRS excessive/truncated name array")
  else
    let* (names, buf) := collect count decode_xattr_name buf in
    let* (eof, buf) := decode_bool buf in
    Ok (cookie, names, eof, buf).

(** ** READ_PLUS clipping *)

Record ClipState : Type := {
  cursor : Z;
  previous_end : option Z;
  clipped_eof : bool;
  clipped : list ReadPlusContent;
}.

Definition extent_start (e : ReadPlusContent) : Z :=
  match e with Data o _ => o | Hole o _ => o end.
Definition extent_length (e : ReadPlusContent) : Z :=
  match e with Data _ d => remaining d | Hole _ l => l end.
Definition is_data (e : ReadPlusContent) : bool :=
  match e with Data _ _ => true | Hole _ _ => false end.

(** One iteration over the extents of the reply. *)
Definition clip_extent (offset end_ : Z) (extent : ReadPlusContent) (s : ClipState)
    : result ClipState :=
  let start := extent_start extent in
  let len := extent_length extent in
  match checked_add64 start len with
  | None => Err (Xdr "READ_PLUS extent overflow")
  | Some extent_end =>
      if (len =? 0)
         || match previous_end s with Some last => negb (last =? start) | None => false end
         || (cursor s <? start) || (extent_end <=? cursor s) || (cursor s =? end_)
      then Err (Xdr "READ_PLUS gaps, overlaps or zero progress")
      else if is_data extent && ((start <? offset) || (end_ <? extent_end))
      then Err (Xdr "READ_PLUS data outside requested range")
      else
        let clipped_end := Z.min extent_end end_ in
        Ok {| cursor := clipped_end; previous_end := Some extent_end;
              clipped_eof := if end_ <? extent_end then false else clipped_eof s;
              clipped := clipped s ++
                [match extent with
                 | Data _ data => Data (cursor s) data
                 | Hole _ _ => Hole (cursor s) (clipped_end - cursor s)
                 end] |}
  end.

Fixpoint clip_extents (offset end_ : Z) (l : list ReadPlusContent) (s : ClipState)
    : result ClipState :=
  match l with
  | [] => Ok s
  | e :: l => let* s := clip_extent offset end_ e s in clip_extents offset end_ l s
  end.

Definition clip_read_plus (reply : ReadPlusResult) (offset count : Z) : result ReadPlusResult :=
  match checked_add64 offset count with
  | None => Err (InvalidInput "READ_PLUS range overflow")
  | Some end_ =>
      let* s := clip_extents offset end_ (rp_contents reply)
                  {| cursor := offset; previous_end := None; clipped_eof := rp_eof reply;
                     clipped := [] |} in
      if match clipped s with [] => true | _ => false end && negb (rp_eof reply) && negb (count =? 0)
      then Err (Xdr "READ_PLUS empty non-EOF response")
      else Ok {| rp_eof := clipped_eof s; rp_contents := clipped s |}
  end.

(** ** Totality *)

Lemma wpo_word buf : wpo (word buf) (fun '(v, rest) =>
  is_u32 v /\ rest `suffix_of` buf /\ remaining rest = remaining buf - 4).
Proof. unfold word. wp. done. Qed.

Lemma wpo_decode_u64 buf : wpo (decode_u64 buf) (fun '(v, rest) =>
  is_u64 v /\ rest `suffix_of` buf).
Proof. unfold decode_u64. wp. done. Qed.

Lemma wpo_decode_bool buf : wpo (decode_bool buf) (fun '(_, rest) => rest `suffix_of` buf).
Proof.
  unfold decode_bool. wp. wp_call wpo_word. intros [v r] (_ & Hr & _).
  repeat case_match; done.
Qed.

Lemma wpo_opaque buf : wpo (opaque buf) (fun '(v, rest) =>
  remaining v < 2 ^ 32 /\ rest `suffix_of` buf).
Proof. unfold opaque. wp_call wpo_take_opaque. intros [v r]. tauto. Qed.

Lemma wpo_decode_copy buf : wpo (decode_copy buf) (fun '(_, rest) => rest `suffix_of` buf).
Proof.
  unfold decode_copy, decode_callback_stateid. apply wpo_bind.
  eapply wpo_mono with (P := fun '(_, rest) => rest `suffix_of` buf).
  { wp. wp_call wpo_word. intros [n r] (_ & Hr & _). wp; bool_hyps; try done.
    wp. suffix_tac. }
  intros [cb b1] Hb1. wp. wp_call wpo_decode_u64. intros [c b2] [_ Hb2]. wp.
  wp_call wpo_word. intros [w b3] (_ & Hb3 & _). wp.
  apply wpo_mono with (P := fun _ => True); [unfold WriteCommitted_try_from; repeat case_match; done|].
  intros cm _. wp. wp_call wpo_decode_bool. intros [x b4] Hb4. wp.
  wp_call wpo_decode_bool. intros [y b5] Hb5. wp. suffix_tac.
Qed.

Lemma wpo_decode_read_plus_content buf :
  wpo (decode_read_plus_content buf) (fun '(e, rest) =>
    (is_u64 (extent_start e) /\ is_u64 (extent_length e)) /\ rest `suffix_of` buf).
Proof.
  unfold decode_read_plus_content. wp. wp_call wpo_word. intros [k b1] (_ & Hb1 & _). wp.
  wp_call wpo_decode_u64. intros [o b2] [Ho Hb2].
  destruct (decide (k = 0)) as [->|]; [|destruct (decide (k = 1)) as [->|]].
  - wp. wp_call wpo_opaque. intros [d r] [Hd Hr]. wp. cbn.
    pose proof (remaining_nonneg d). repeat split; try (unfold_int; lia). suffix_tac.
  - wp. wp_call wpo_decode_u64. intros [l r] [Hl Hr]. wp. cbn. repeat split; try (unfold_int; lia).
    suffix_tac.
  - repeat case_match; try done; lia.
Qed.

Lemma wpo_decode_read_plus buf : wpo (decode_read_plus buf) (fun '(r, rest) =>
  Forall (fun e => is_u64 (extent_start e) /\ is_u64 (extent_length e)) (rp_contents r) /\
  rest `suffix_of` buf).
Proof.
  unfold decode_read_plus. wp. wp_call wpo_decode_bool. intros [e b1] Hb1. wp.
  wp_call wpo_word. intros [c b2] (_ & Hb2 & _). wp.
  apply wpo_collect with (P := fun e => is_u64 (extent_start e) /\ is_u64 (extent_length e)).
  - intros b _. apply wpo_decode_read_plus_content.
  - intros l r Hl Hr. wp. split; [done|suffix_tac].
Qed.

Lemma wpo_decode_xattr_name buf : wpo (decode_xattr_name buf) (fun '(n, rest) =>
  (utf8_valid n = true /\ validate_name n = Ok ()) /\ rest `suffix_of` buf).
Proof.
  unfold decode_xattr_name. wp. wp_call wpo_opaque. intros [n r] [Hn Hr]. wp. bool_hyps.
  split; [|done]. split; [done|]. unfold validate_name.
  destruct (Z.eqb_spec (remaining n) 0); [lia|]. rewrite H1. cbn [orb].
  destruct (Z.ltb_spec u32_max (remaining n)); [ilia|done].
Qed.

Lemma wpo_decode_list buf : wpo (decode_list buf) (fun '(_, names, _, rest) =>
  Forall (fun n => utf8_valid n = true /\ validate_name n = Ok ()) names /\
  rest `suffix_of` buf).
Proof.
  unfold decode_list. wp. wp_call wpo_decode_u64. intros [c b1] [_ Hb1]. wp.
  wp_call wpo_word. intros [n b2] (_ & Hb2 & _). wp.
  apply wpo_collect with (P := fun n => utf8_valid n = true /\ validate_name n = Ok ()).
  - intros b _. apply wpo_decode_xattr_name.
  - intros l r Hl Hr. wp. wp_call wpo_decode_bool. intros [e b3] Hb3. wp. split; [done|suffix_tac].
Qed.

(** ** Properties *)

(** [tiles a l b]: the extents of [l] cover [a, b) in order, without gap,
    overlap or empty extent. *)
Inductive tiles : Z -> list ReadPlusContent -> Z -> Prop :=
| tiles_nil a : tiles a [] a
| tiles_snoc a l e b : tiles a l b -> extent_start e = b -> 0 < extent_length e ->
    tiles a (l ++ [e]) (b + extent_length e).

(** What holds after some extents of [all] were clipped. *)
Record clip_inv (offset end_ : Z) (eof : bool) (all : list ReadPlusContent) (s : ClipState) : Prop := {
  ci_tiles : tiles offset (clipped s) (cursor s);
  ci_bound : cursor s <= end_;
  ci_prev : match previous_end s with
            | Some last => cursor s = Z.min last end_
            | None => cursor s = offset
            end;
  ci_data : forall o d, In (Data o d) (clipped s) -> In (Data o d) all;
  ci_eof : clipped_eof s = true -> eof = true;
}.

Lemma clip_extent_inv offset end_ eof all e s s' :
  In e all -> clip_inv offset end_ eof all s -> clip_extent offset end_ e s = Ok s' ->
  clip_inv offset end_ eof all s'.
Proof.
  intros Hin [Ht Hb Hp Hd He]. unfold clip_extent, checked_add64.
  set (st := extent_start e) in *. set (len := extent_length e) in *.
  destruct (Z.leb_spec (st + len) u64_max); [|done].
  destruct (_ || _ || _ || _ || _) eqn:Hbad; [done|].
  destruct (is_data e && _) eqn:Hrange; [done|]. intros [= <-]. bool_hyps.
  assert (Hend : cursor s < Z.min (st + len) end_) by lia.
  (* the data of an extent starts at the cursor *)
  assert (Hst : is_data e = true -> cursor s = st /\ st + len <= end_).
  { intros Hde. rewrite Hde in Hrange. cbn [andb] in Hrange. bool_hyps.
    destruct (previous_end s); bool_hyps; lia. }
  assert (Hlen : forall x, extent_start x = cursor s ->
    extent_length x = Z.min (st + len) end_ - cursor s ->
    tiles offset (clipped s ++ [x]) (Z.min (st + len) end_)).
  { intros x Hx Hl. replace (Z.min (st + len) end_) with (cursor s + extent_length x) by lia.
    apply tiles_snoc; [done|done|lia]. }
  constructor; cbn [clipped cursor previous_end clipped_eof].
  - apply Hlen; destruct e as [o d|o l]; cbn in *; try done.
    destruct (Hst eq_refl). lia.
  - lia.
  - done.
  - intros o d Hi. apply in_app_or in Hi as [Hi|[Hi|[]]]; [by apply Hd|].
    destruct e as [o' d'|o' l']; [|done]. injection Hi as <- <-.
    destruct (Hst eq_refl) as [-> _]. exact Hin.
  - destruct (end_ <? st + len); [done|auto].
Qed.

Lemma clip_extents_inv offset end_ eof all l s s' :
  (forall e, In e l -> In e all) -> clip_inv offset end_ eof all s ->
  clip_extents offset end_ l s = Ok s' -> clip_inv offset end_ eof all s'.
Proof.
  revert s. induction l as [|e l IH]; intros s Hl Hi; simpl; [by intros [= <-]|].
  intros H. apply obind_ok_inv in H as (s1 & H1 & H2).
  apply (IH s1); [intros; apply Hl; by right| |done].
  eapply clip_extent_inv; [apply Hl; by left|done|done].
Qed.

(** An accepted READ_PLUS reply is returned as extents that tile a prefix
    of the requested interval without gap or overlap; every data extent keeps
    the offset and the bytes the server sent, and end-of-file is reported only
    if the server reported it. *)
Theorem clip_read_plus_sound reply offset count r :
  0 <= count -> clip_read_plus reply offset count = Ok r ->
  exists stop, tiles offset (rp_contents r) stop /\ stop <= offset + count /\
    (forall o d, In (Data o d) (rp_contents r) -> In (Data o d) (rp_contents reply)) /\
    (rp_eof r = true -> rp_eof reply = true).
Proof.
  intros Hc. unfold clip_read_plus, checked_add64.
  destruct (Z.leb_spec (offset + count) u64_max); [|done]. intros Hr.
  apply obind_ok_inv in Hr as (s & Hs & Hr).
  destruct (_ && _ && _); [done|]. injection Hr as <-.
  apply (clip_extents_inv _ _ (rp_eof reply) (rp_contents reply)) in Hs as [H1 H2 _ H4 H5]; [|done|].
  - exists (cursor s). auto.
  - constructor; cbn; try done; [constructor|lia].
Qed.

Lemma clip_read_plus_sound_witness :
  exists stop, tiles 8 [Hole 8 2; Data 10 (of_str "abc")] stop /\ stop <= 8 + 100 /\
    (forall o d, In (Data o d) [Hole 8 2; Data 10 (of_str "abc")] ->
                 In (Data o d) [Hole 0 10; Data 10 (of_str "abc")]) /\
    (true = true -> true = true).
Proof.
  apply (clip_read_plus_sound
    {| rp_eof := true; rp_contents := [Hole 0 10; Data 10 (of_str "abc")] |} 8 100
    {| rp_eof := true; rp_contents := [Hole 8 2; Data 10 (of_str "abc")] |});
    [lia|reflexivity].
Defined.
