(* ===== verification/Response41.v ===== *)
(** * COMPOUND replies of NFSv4.1 and v4.2

    Models the reply half of [src/src/nfs41/compound.rs]: [CompoundResponse]
    and its decoder, which has to skip every operation's result to find the
    next one, and the busy-retry decision that compares a reply with its
    request. *)
From S2P Require Import Prelude Errors Xdr4 Acl4 Compound41 V42.
From stdpp Require Import base list numbers strings.
#[local] Open Scope Z_scope.

(** ** Data *)

Record OpResponse : Type := { op_opcode : Z; op_status : nfsstat4; op_data : bytes }.

Record CompoundResponse : Type := {
  resp_tag : bytes;
  resp_status : nfsstat4;
  results : list OpResponse;
  session_generation : Z;
}.

(** ** Skipping helpers *)

Definition decode_nfsstat4 (val : Z) : result nfsstat4 :=
  match try_from val with
  | Some s => Ok s
  | None => Err (Xdr ("invalid nfsstat4 " +:+ fmtZ val))
  end.

Definition decode_string (buf : bytes) : result (bytes * bytes) :=
  let* _ := require 4 (Xdr "string length truncated") buf in
  let* (len, buf) := get_u32 buf in
  let* _ := require (padded len) (Xdr "string data truncated") buf in
  let* s := slice_to len buf in
  if negb (utf8_valid s) then Err (Xdr "invalid UTF-8 in string")
  else let* buf := advance (padded len) buf in Ok (s, buf).

Definition skip_var_bytes (buf : bytes) : result bytes :=
  let* _ := require 4 (Xdr "opaque length truncated") buf in
  let* (len, buf) := get_u32 buf in
  let* _ := require (padded len) (Xdr "opaque data truncated") buf in
  advance (padded len) buf.

Definition skip_bitmap (buf : bytes) : result bytes :=
  let* _ := require 4 (Xdr "bitmap length truncated") buf in
  let* (n, buf) := get_u32 buf in
  if MAX_BITMAP_WORDS <? n
  then Err (Xdr ("bitmap has " +:+ fmtZ n +:+ " words, max " +:+ fmtZ MAX_BITMAP_WORDS))
  else
    let* _ := require (n * 4) (Xdr "bitmap data truncated") buf in
    advance (n * 4) buf.

Definition skip_fattr4 (buf : bytes) : result bytes :=
  let* buf := skip_bitmap buf in skip_var_bytes buf.

(** [if buf.remaining() < n { return Err } buf.advance(n)] *)
Definition skip_bytes (n : Z) (what : string) (buf : bytes) : result bytes :=
  let* _ := require n (Xdr what) buf in advance n buf.

Definition skip_change_info (buf : bytes) : result bytes :=
  skip_bytes 20 "change_info truncated" buf.

Definition skip_stateid4 (buf : bytes) : result bytes := skip_bytes 16 "stateid4 truncated" buf.

Definition skip_word (what : string) (buf : bytes) : result (Z * bytes) :=
  let* _ := require 4 (Xdr what) buf in get_u32 buf.

(** [dirlist4]: entries are at most [MAX_ENTRY4_PER_PAGE]; [fuel] is one more
    than the entries still allowed, and [count] the entries seen. *)
Definition skip_entry4 (buf : bytes) : result bytes :=
  let* buf := skip_bytes 8 "entry4 cookie truncated" buf in
  let* buf := skip_var_bytes buf in
  skip_fattr4 buf.

Fixpoint skip_entry4_loop (fuel : nat) (count : Z) (buf : bytes) : result bytes :=
  match fuel with
  | O => Panic
  | S fuel =>
      let* (has_entry, buf) := skip_word "entry4 list truncated" buf in
      if has_entry =? 0 then skip_bytes 4 "dirlist4 eof truncated" buf
      else if MAX_ENTRY4_PER_PAGE <? count + 1
      then Err (Xdr ("entry4 list exceeds max " +:+ fmtZ MAX_ENTRY4_PER_PAGE))
      else let* buf := skip_entry4 buf in skip_entry4_loop fuel (count + 1) buf
  end.

Definition skip_entry4_list (buf : bytes) : result bytes :=
  skip_entry4_loop (Z.to_nat (MAX_ENTRY4_PER_PAGE + 1)) 0 buf.

Definition skip_space_limit (buf : bytes) : result bytes :=
  let* (limit_by, buf) := skip_word "space_limit type truncated" buf in
  match limit_by with
  | 1 => skip_bytes 8 "space_limit size truncated" buf
  | 2 => skip_bytes 8 "space_limit blocks truncated" buf
  | _ => Err (Xdr ("unknown limit_by " +:+ fmtZ limit_by))
  end.

Definition skip_open_delegation (buf : bytes) : result bytes :=
  let* (deleg_type, buf) := skip_word "open_delegation type truncated" buf in
  match deleg_type with
  | 0 => Ok buf
  | 1 =>
      let* buf := skip_stateid4 buf in
      let* buf := skip_bytes 4 "delegation recall truncated" buf in
      let* (_, buf) := decode_nfsace4 buf in Ok buf
  | 2 =>
      let* buf := skip_stateid4 buf in
      let* buf := skip_bytes 4 "delegation recall truncated" buf in
      let* buf := skip_space_limit buf in
      let* (_, buf) := decode_nfsace4 buf in Ok buf
  | 3 =>
      let* (why, buf) := skip_word "why_no_deleg truncated" buf in
      match why with
      | 1 | 2 => skip_bytes 4 "why_no_deleg bool truncated" buf
      | _ => Ok buf
      end
  | _ => Err (Xdr ("unknown delegation type " +:+ fmtZ deleg_type))
  end.

Definition skip_state_protect (buf : bytes) : result bytes :=
  let* (sp, buf) := skip_word "state_protect4_r type truncated" buf in
  match sp with
  | 0 => Ok buf
  | 1 => let* buf := skip_bitmap buf in skip_bitmap buf
  | 2 =>
      let* buf := skip_bitmap buf in
      let* buf := skip_bitmap buf in
      let* buf := skip_bytes 16 "SP4_SSV fields truncated" buf in
      let* (nh, buf) := skip_word "SP4_SSV gss_handles len truncated" buf in
      if 64 <? nh
      then Err (Xdr ("SP4_SSV has " +:+ fmtZ nh +:+ " gss_handles, max 64"))
      else for_count nh skip_var_bytes buf
  | _ => Err (Xdr ("unsupported state_protect type " +:+ fmtZ sp))
  end.

Definition skip_impl_id (buf : bytes) : result bytes :=
  let* buf := skip_var_bytes buf in
  let* buf := skip_var_bytes buf in
  skip_bytes 12 "impl_id time truncated" buf.

Definition skip_exchange_id_result (buf : bytes) : result bytes :=
  let* buf := skip_bytes 16 "EXCHANGE_ID result truncated" buf in
  let* buf := skip_state_protect buf in
  let* buf := skip_bytes 8 "server_owner minor_id truncated" buf in
  let* buf := skip_var_bytes buf in
  let* buf := skip_var_bytes buf in
  let* (n, buf) := skip_word "impl_id array len truncated" buf in
  if 1 <? n
  then Err (Xdr ("nfs_impl_id4 has " +:+ fmtZ n +:+ " elements, max 1"))
  else for_count n skip_impl_id buf.

(** The [checked_mul] of the source cannot fail on a 64-bit [usize]. *)
Definition skip_channel_attrs (buf : bytes) : result bytes :=
  let* buf := skip_bytes 24 "channel_attrs truncated" buf in
  let* (n, buf) := skip_word "ca_rdma_ird length truncated" buf in
  skip_bytes (n * 4) "ca_rdma_ird data truncated" buf.

Definition skip_create_session_result (buf : bytes) : result bytes :=
  let* buf := skip_bytes 24 "CREATE_SESSION result truncated" buf in
  for_count 2 skip_channel_attrs buf.

(** ** Skipping one operation's result *)

Definition all_ops : list OpNum.t :=
  [OpNum.Access; OpNum.Close; OpNum.Commit; OpNum.Create; OpNum.GetAttr; OpNum.GetFh; OpNum.Link;
   OpNum.Lookup; OpNum.Lookupp; OpNum.Open; OpNum.PutFh; OpNum.PutRootFh; OpNum.Read;
   OpNum.ReadDir; OpNum.ReadLink; OpNum.Remove; OpNum.Rename; OpNum.RestoreFh; OpNum.SaveFh;
   OpNum.SetAttr; OpNum.Write; OpNum.OpenAttr; OpNum.Lock; OpNum.Lockt; OpNum.Locku;
   OpNum.LayoutGet; OpNum.LayoutCommit; OpNum.LayoutReturn; OpNum.GetDeviceInfo;
   OpNum.ExchangeId; OpNum.CreateSession; OpNum.DestroySession; OpNum.BindConnToSession;
   OpNum.Sequence; OpNum.ReclaimComplete; OpNum.DestroyClientId; OpNum.DelegReturn;
   OpNum.TestStateId; OpNum.FreeStateId; OpNum.Allocate; OpNum.Copy; OpNum.Deallocate;
   OpNum.OffloadCancel; OpNum.ReadPlus; OpNum.Seek; OpNum.Clone; OpNum.GetXattr; OpNum.SetXattr;
   OpNum.ListXattrs; OpNum.RemoveXattr].

(** The operation a reply's opcode names: [op == OpNum::X as u32]. *)
Definition op_of_u32 (v : Z) : option OpNum.t :=
  find (fun o => op_u32 o =? v) all_ops.

(** A failed operation: only COPY, SETATTR and LOCK carry data. *)
Definition skip_error_result (opcode status : Z) (buf : bytes) : result bytes :=
  let* buf :=
    (if (opcode =? op_u32 OpNum.Copy) && (status =? 10094)
     then let* (_, buf) := decode_bool buf in let* (_, buf) := decode_bool buf in Ok buf
     else Ok buf) in
  let* buf := (if opcode =? op_u32 OpNum.SetAttr then skip_bitmap buf else Ok buf) in
  if (opcode =? op_u32 OpNum.Lock) && (status =? 10012) && (28 <=? remaining buf)
  then let* buf := advance 28 buf in skip_var_bytes buf
  else Ok buf.

(** NFSv4.2 operations, then those without data. *)
Definition skip_v42_result (o : OpNum.t) (buf : bytes) : option (result bytes) :=
  match o with
  | OpNum.Allocate | OpNum.Deallocate | OpNum.Clone | OpNum.OffloadCancel => Some (Ok buf)
  | OpNum.Copy => Some (let* (_, buf) := decode_copy buf in Ok buf)
  | OpNum.Seek =>
      Some (let* (_, buf) := decode_bool buf in let* (_, buf) := decode_u64 buf in Ok buf)
  | OpNum.ReadPlus => Some (let* (_, buf) := decode_read_plus buf in Ok buf)
  | OpNum.GetXattr => Some (skip_var_bytes buf)
  | OpNum.SetXattr | OpNum.RemoveXattr =>
      Some (let* (_, buf) := decode_bool buf in
            let* (_, buf) := decode_u64 buf in
            let* (_, buf) := decode_u64 buf in Ok buf)
  | OpNum.ListXattrs => Some (let* (_, _, _, buf) := decode_list buf in Ok buf)
  | OpNum.PutRootFh | OpNum.PutFh | OpNum.SaveFh | OpNum.RestoreFh | OpNum.Lookup | OpNum.Lookupp
  | OpNum.ReclaimComplete | OpNum.DestroySession | OpNum.DestroyClientId | OpNum.DelegReturn =>
      Some (Ok buf)
  | _ => None
  end.

(** SEQUENCE and the data operations. *)
Definition skip_data_result (o : OpNum.t) (buf : bytes) : option (result bytes) :=
  match o with
  | OpNum.Sequence => Some (skip_bytes 36 "SEQUENCE result truncated" buf)
  | OpNum.GetFh => Some (skip_var_bytes buf)
  | OpNum.GetAttr => Some (skip_fattr4 buf)
  | OpNum.SetAttr => Some (skip_bitmap buf)
  | OpNum.Access => Some (skip_bytes 8 "ACCESS result truncated" buf)
  | OpNum.Read =>
      Some (let* buf := skip_bytes 4 "READ result truncated" buf in skip_var_bytes buf)
  | OpNum.Write => Some (skip_bytes 16 "WRITE result truncated" buf)
  | OpNum.Commit => Some (skip_bytes 8 "COMMIT result truncated" buf)
  | OpNum.ReadDir =>
      Some (let* buf := skip_bytes 8 "READDIR result truncated" buf in skip_entry4_list buf)
  | OpNum.ReadLink => Some (skip_var_bytes buf)
  | OpNum.OpenAttr => Some (Ok buf)
  | OpNum.Open =>
      Some (let* buf := skip_stateid4 buf in
            let* buf := skip_change_info buf in
            let* buf := skip_bytes 4 "OPEN rflags truncated" buf in
            let* buf := skip_bitmap buf in
            skip_open_delegation buf)
  | _ => None
  end.

(** State, name-space and session operations. *)
Definition skip_state_result (o : OpNum.t) (buf : bytes) : option (result bytes) :=
  match o with
  | OpNum.Close | OpNum.Lock | OpNum.Locku => Some (skip_stateid4 buf)
  | OpNum.Lockt | OpNum.FreeStateId => Some (Ok buf)
  | OpNum.TestStateId =>
      Some (let* (n, buf) := skip_word "TEST_STATEID result truncated" buf in
            skip_bytes (n * 4) "TEST_STATEID statuses truncated" buf)
  | OpNum.Create => Some (let* buf := skip_change_info buf in skip_bitmap buf)
  | OpNum.Remove | OpNum.Link => Some (skip_change_info buf)
  | OpNum.Rename => Some (let* buf := skip_change_info buf in skip_change_info buf)
  | OpNum.ExchangeId => Some (skip_exchange_id_result buf)
  | OpNum.CreateSession => Some (skip_create_session_result buf)
  | _ => None
  end.

Definition skip_layout4 (buf : bytes) : result bytes :=
  let* buf := skip_bytes 24 "layout4 segment truncated" buf in skip_var_bytes buf.

Definition skip_layoutget_result (buf : bytes) : result bytes :=
  let* _ := require 20 (Xdr "LAYOUTGET result truncated") buf in
  let* buf := advance 4 buf in
  let* buf := skip_stateid4 buf in
  let* (n, buf) := skip_word "LAYOUTGET segments len truncated" buf in
  if MAX_LAYOUT_SEGMENTS <? n
  then Err (Xdr ("LAYOUTGET has " +:+ fmtZ n +:+ " segments, max " +:+ fmtZ MAX_LAYOUT_SEGMENTS))
  else for_count n skip_layout4 buf.

(** pNFS operations and BIND_CONN_TO_SESSION. *)
Definition skip_pnfs_result (o : OpNum.t) (buf : bytes) : option (result bytes) :=
  match o with
  | OpNum.LayoutGet => Some (skip_layoutget_result buf)
  | OpNum.LayoutCommit =>
      Some (let* (has_newsize, buf) := skip_word "LAYOUTCOMMIT result truncated" buf in
            if negb (has_newsize =? 0) && (8 <=? remaining buf) then advance 8 buf else Ok buf)
  | OpNum.LayoutReturn =>
      Some (let* (has_stateid, buf) := skip_word "LAYOUTRETURN result truncated" buf in
            if negb (has_stateid =? 0) then skip_stateid4 buf else Ok buf)
  | OpNum.GetDeviceInfo =>
      Some (let* buf := skip_bytes 4 "GETDEVICEINFO layout_type truncated" buf in
            let* buf := skip_var_bytes buf in skip_bitmap buf)
  | OpNum.BindConnToSession => Some (skip_bytes 24 "BIND_CONN_TO_SESSION result truncated" buf)
  | _ => None
  end.

(** The first table that has the operation. *)
Definition first_some (l : list (option (result bytes))) (d : result bytes) : result bytes :=
  fold_right (fun o d => match o with Some r => r | None => d end) d l.

Definition skip_op_result (opcode status : Z) (buf : bytes) : result bytes :=
  if negb (status =? 0) then skip_error_result opcode status buf
  else
    let unknown := Err (Xdr ("unknown op " +:+ fmtZ opcode +:+
                             " in COMPOUND response, cannot skip")) in
    match op_of_u32 opcode with
    | None => unknown
    | Some o => first_some [skip_v42_result o buf; skip_data_result o buf;
                            skip_state_result o buf; skip_pnfs_result o buf] unknown
    end.

(** ** Decoding a reply *)

Definition decode_op (buf : bytes) : result (OpResponse * bytes) :=
  let* _ := require 8 (Xdr "COMPOUND response truncated at op header") buf in
  let* (opcode, buf) := get_u32 buf in
  let* (status_val, buf) := get_u32 buf in
  let* status := decode_nfsstat4 status_val in
  let* rest := skip_op_result opcode status_val buf in
  Ok ({| op_opcode := opcode; op_status := status; op_data := buf |}, rest).

Definition decode_response (buf : bytes) : result (CompoundResponse * bytes) :=
  let* _ := require 4 (Xdr "COMPOUND response too short") buf in
  let* (status_val, buf) := get_u32 buf in
  let* status := decode_nfsstat4 status_val in
  let* (tag, buf) := decode_string buf in
  let* _ := require 4 (Xdr "COMPOUND response missing resarray length") buf in
  let* (num_results, buf) := get_u32 buf in
  if MAX_COMPOUND_OPS <? num_results
  then Err (Xdr ("COMPOUND response has " +:+ fmtZ num_results +:+ " ops, max " +:+
                 fmtZ MAX_COMPOUND_OPS))
  else
    let* (l, buf) := collect num_results decode_op buf in
    Ok ({| resp_tag := tag; resp_status := status; results := l; session_generation := 0 |}, buf).

Definition check_resp_status (r : CompoundResponse) : result () :=
  if bool_decide (resp_status r = NFS4_OK) then Ok () else Err (Nfs4 (resp_status r)).

Definition op_ok (r : CompoundResponse) (index : nat) : result OpResponse :=
  match results r !! index with
  | None => Err (Xdr ("COMPOUND response missing op at index " +:+ fmtZ (Z.of_nat index)))
  | Some op =>
      if negb (bool_decide (op_status op = NFS4_OK)) then Err (Nfs4 (op_status op)) else Ok op
  end.

(** [v42_ops::result_data] *)
Definition result_data (r : CompoundResponse) (index : nat) (opcode : Z) : result bytes :=
  let* op := op_ok r index in
  if negb (op_opcode op =? opcode) then Err (Xdr "NFSv4.2 response opcode mismatch")
  else Ok (op_data op).

(** ** May a busy COMPOUND be sent again? *)

(** The loop over request and reply pairs; [nres] is the number of results. *)
Fixpoint busy_scan (nres : nat) (status : nfsstat4) (index : nat)
    (pairs : list (EncodedOp * OpResponse)) (safe : bool) : result bool :=
  match pairs with
  | [] => Err (Xdr "busy COMPOUND omitted its failing operation")
  | (request, reply) :: pairs =>
      if negb (op_u32 (opcode request) =? op_opcode reply)
      then Err (Xdr "busy COMPOUND opcode mismatch")
      else if negb (bool_decide (op_status reply = NFS4_OK))
      then if negb (index + 1 =? nres)%nat || negb (bool_decide (op_status reply = status))
           then Err (Xdr "busy COMPOUND status mismatch")
           else Ok safe
      else busy_scan nres status (S index) pairs
             (if bool_decide (class (opcode request) = ReplaySensitive) then false else safe)
  end.

Definition can_retry_busy (b : CompoundBuilder) (r : CompoundResponse) : result bool :=
  if bool_decide (results r = []) || (length (ops b) <? length (results r))%nat
  then Err (Xdr "invalid busy COMPOUND result count")
  else busy_scan (length (results r)) (resp_status r) 0 (zip (ops b) (results r)) true.

(** ** Totality *)

(** A skipper that does not panic and consumes a prefix of its input. *)
Definition total_skip (f : bytes -> result bytes) : Prop :=
  forall buf, wpo (f buf) (fun rest => rest `suffix_of` buf).

Lemma total_skip_bytes n what : 0 <= n -> total_skip (skip_bytes n what).
Proof. intros Hn buf. unfold skip_bytes. wp. done. Qed.

Lemma total_bind f g : total_skip f -> total_skip g -> total_skip (fun b => let* b := f b in g b).
Proof.
  intros Hf Hg buf. apply wpo_bind. wp_call Hf. intros r Hr. wp_call Hg. intros r' Hr'. suffix_tac.
Qed.

Lemma total_ret : total_skip (fun b => Ok b).
Proof. intros buf. by apply wpo_ret. Qed.

Lemma wpo_skip_word what buf : wpo (skip_word what buf) (fun '(v, rest) =>
  is_u32 v /\ rest `suffix_of` buf /\ remaining rest = remaining buf - 4).
Proof. unfold skip_word. wp. done. Qed.

Lemma total_word what (k : Z -> bytes -> result bytes) :
  (forall v, is_u32 v -> total_skip (k v)) ->
  total_skip (fun b => let* (v, b) := skip_word what b in k v b).
Proof.
  intros Hk buf. apply wpo_bind. wp_call wpo_skip_word. intros [v r] (Hv & Hr & _).
  wp_call (Hk v Hv). intros r' Hr'. suffix_tac.
Qed.

Lemma total_drop {A} (f : bytes -> result (A * bytes)) (k : bytes -> result bytes) :
  (forall b, wpo (f b) (fun '(_, rest) => rest `suffix_of` b)) -> total_skip k ->
  total_skip (fun b => let* (_, b) := f b in k b).
Proof.
  intros Hf Hk buf. apply wpo_bind. wp_call Hf. intros [a r] Hr.
  wp_call Hk. intros r' Hr'. suffix_tac.
Qed.

Lemma total_for n f : total_skip f -> total_skip (for_count n f).
Proof.
  intros Hf buf. apply wpo_for_count with (I := fun r => r `suffix_of` buf); [done| |done].
  intros s Hs. wp_call Hf. intros r Hr. suffix_tac.
Qed.

Lemma total_if (c : bool) f g : total_skip f -> total_skip g ->
  total_skip (fun b => if c then f b else g b).
Proof. intros Hf Hg buf. destruct c; [apply Hf|apply Hg]. Qed.

Lemma total_err e : total_skip (fun _ => Err e).
Proof. intros buf. done. Qed.

Lemma total_skip_var_bytes : total_skip skip_var_bytes.
Proof. intros buf. unfold skip_var_bytes. wp. pose proof (padded_ge v). wp. suffix_tac. Qed.

Lemma total_skip_bitmap : total_skip skip_bitmap.
Proof. intros buf. unfold skip_bitmap. wp. suffix_tac. Qed.

Create HintDb total.
#[local] Hint Resolve total_skip_bytes total_ret total_skip_var_bytes total_skip_bitmap total_err
  total_for total_if : total.

Lemma total_skip_fattr4 : total_skip skip_fattr4.
Proof. apply total_bind; auto with total. Qed.
Lemma total_skip_change_info : total_skip skip_change_info.
Proof. apply total_skip_bytes. lia. Qed.
Lemma total_skip_stateid4 : total_skip skip_stateid4.
Proof. apply total_skip_bytes. lia. Qed.
#[local] Hint Resolve total_skip_fattr4 total_skip_change_info total_skip_stateid4 : total.

Lemma total_skip_entry4 : total_skip skip_entry4.
Proof. repeat apply total_bind; auto with total lia. Qed.

(** The fuel covers every page the entry limit admits. *)
Lemma total_skip_entry4_loop fuel count :
  MAX_ENTRY4_PER_PAGE - count < Z.of_nat fuel -> count <= MAX_ENTRY4_PER_PAGE ->
  total_skip (skip_entry4_loop fuel count).
Proof.
  revert count. induction fuel as [|fuel IH]; intros count Hf Hc; [lia|].
  apply (total_word _ (fun v buf => if v =? 0 then _ else _)). intros v _. apply total_if.
  { apply total_skip_bytes. lia. }
  intros buf. destruct (Z.ltb_spec MAX_ENTRY4_PER_PAGE (count + 1)); [done|].
  apply (total_bind skip_entry4 (skip_entry4_loop fuel (count + 1))); [apply total_skip_entry4|].
  apply IH; lia.
Qed.

Lemma total_skip_entry4_list : total_skip skip_entry4_list.
Proof. apply total_skip_entry4_loop; unfold MAX_ENTRY4_PER_PAGE; lia. Qed.

Lemma total_decode_ace : total_skip (fun b => let* (_, b) := decode_nfsace4 b in Ok b).
Proof.
  apply total_drop; [|apply total_ret]. intros b. wp_call wpo_decode_nfsace4. by intros [a r] [_ ?].
Qed.

Lemma total_skip_space_limit : total_skip skip_space_limit.
Proof.
  apply (total_word _ (fun v b => match v with 1 => _ | 2 => _ | _ => _ end)). intros v _ buf.
  repeat case_match; try done; apply total_skip_bytes; lia.
Qed.

Lemma total_skip_open_delegation : total_skip skip_open_delegation.
Proof.
  apply (total_word _ (fun v b => match v with 0 => _ | 1 => _ | 2 => _ | 3 => _ | _ => _ end)).
  intros v _. destruct v as [|v|v]; [apply total_ret| |apply total_err].
  destruct v as [[v|v|]|[v|v|]|]; try apply total_err.
  - apply (total_word _ (fun v b => match v with 1 | 2 => _ | _ => _ end)). intros w _ buf.
    repeat case_match; try (by apply wpo_ret); apply total_skip_bytes; lia.
  - apply total_bind; [auto with total|]. apply total_bind; [apply total_skip_bytes; lia|].
    apply total_bind; [apply total_skip_space_limit|apply total_decode_ace].
  - apply total_bind; [auto with total|]. apply total_bind; [apply total_skip_bytes; lia|].
    apply total_decode_ace.
Qed.

Lemma total_skip_state_protect : total_skip skip_state_protect.
Proof.
  apply (total_word _ (fun v b => match v with 0 => _ | 1 => _ | 2 => _ | _ => _ end)).
  intros v _. destruct v as [|v|v]; [apply total_ret| |apply total_err].
  destruct v as [v|[v|v|]|]; try apply total_err.
  - apply total_bind; [auto with total|]. apply total_bind; [auto with total|].
    apply total_bind; [apply total_skip_bytes; lia|].
    apply (total_word _ (fun nh b => if 64 <? nh then _ else _)). intros nh _.
    apply total_if; auto with total.
  - apply total_bind; auto with total.
Qed.

Lemma total_skip_exchange_id : total_skip skip_exchange_id_result.
Proof.
  apply total_bind; [apply total_skip_bytes; lia|].
  apply total_bind; [apply total_skip_state_protect|].
  apply total_bind; [apply total_skip_bytes; lia|].
  apply total_bind; [auto with total|]. apply total_bind; [auto with total|].
  apply (total_word _ (fun n b => if 1 <? n then _ else _)). intros n _.
  apply total_if; [auto with total|]. apply total_for.
  apply total_bind; [auto with total|]. apply total_bind; [auto with total|].
  apply total_skip_bytes. lia.
Qed.

Lemma total_skip_create_session : total_skip skip_create_session_result.
Proof.
  apply total_bind; [apply total_skip_bytes; lia|]. apply total_for.
  apply total_bind; [apply total_skip_bytes; lia|].
  apply (total_word _ (fun n b => skip_bytes (n * 4) _ b)). intros n Hn.
  apply total_skip_bytes. ilia.
Qed.

Lemma total_v42_bool : total_skip (fun b => let* (_, b) := decode_bool b in Ok b).
Proof. apply total_drop; [apply wpo_decode_bool|apply total_ret]. Qed.

Lemma suffix_decode_u64 b : wpo (decode_u64 b) (fun '(_, rest) => rest `suffix_of` b).
Proof. wp_call wpo_decode_u64. by intros [v r] [_ ?]. Qed.

Lemma total_skip_v42 o buf r : skip_v42_result o buf = Some r -> wpo r (fun rest => rest `suffix_of` buf).
Proof.
  destruct o; cbn [skip_v42_result]; intros [= <-]; try (by apply wpo_ret).
  - apply (total_drop decode_copy (fun b => Ok b)); [apply wpo_decode_copy|apply total_ret].
  - apply (total_drop decode_read_plus (fun b => Ok b)); [|apply total_ret].
    intros b. wp_call wpo_decode_read_plus. by intros [a r] [_ ?].
  - apply (total_drop decode_bool (fun b => let* (_, b) := decode_u64 b in Ok b));
      [apply wpo_decode_bool|]. apply total_drop; [apply suffix_decode_u64|apply total_ret].
  - apply total_skip_var_bytes.
  - apply (total_drop decode_bool (fun b => let* (_, b) := decode_u64 b in
      let* (_, b) := decode_u64 b in Ok b)); [apply wpo_decode_bool|].
    apply total_drop; [apply suffix_decode_u64|].
    apply total_drop; [apply suffix_decode_u64|apply total_ret].
  - apply wpo_bind. wp_call wpo_decode_list. intros [[[c n] e] r] [_ Hr]. by apply wpo_ret.
  - apply (total_drop decode_bool (fun b => let* (_, b) := decode_u64 b in
      let* (_, b) := decode_u64 b in Ok b)); [apply wpo_decode_bool|].
    apply total_drop; [apply suffix_decode_u64|].
    apply total_drop; [apply suffix_decode_u64|apply total_ret].
Qed.

Lemma total_skip_data o buf r : skip_data_result o buf = Some r -> wpo r (fun rest => rest `suffix_of` buf).
Proof.
  destruct o; cbn [skip_data_result]; intros [= <-]; try (apply total_skip_bytes; lia);
    try apply total_skip_var_bytes; try apply total_skip_bitmap; try apply total_skip_fattr4;
    try (by apply wpo_ret).
  - apply (total_bind skip_stateid4 (fun b => let* b := skip_change_info b in
      let* b := skip_bytes 4 "OPEN rflags truncated" b in let* b := skip_bitmap b in
      skip_open_delegation b)); [auto with total|].
    apply total_bind; [auto with total|]. apply total_bind; [apply total_skip_bytes; lia|].
    apply total_bind; [auto with total|apply total_skip_open_delegation].
  - apply (total_bind (skip_bytes 4 _) skip_var_bytes); [apply total_skip_bytes; lia|auto with total].
  - apply (total_bind (skip_bytes 8 _) skip_entry4_list);
      [apply total_skip_bytes; lia|apply total_skip_entry4_list].
Qed.

Lemma total_skip_state o buf r : skip_state_result o buf = Some r -> wpo r (fun rest => rest `suffix_of` buf).
Proof.
  destruct o; cbn [skip_state_result]; intros [= <-]; try apply total_skip_stateid4;
    try apply total_skip_change_info; try apply total_skip_exchange_id;
    try apply total_skip_create_session; try (by apply wpo_ret).
  - apply (total_bind skip_change_info skip_bitmap); auto with total.
  - apply (total_bind skip_change_info skip_change_info); auto with total.
  - apply (total_word _ (fun n b => skip_bytes (n * 4) _ b)). intros n Hn.
    apply total_skip_bytes. ilia.
Qed.

Lemma total_skip_pnfs o buf r : skip_pnfs_result o buf = Some r -> wpo r (fun rest => rest `suffix_of` buf).
Proof.
  destruct o; cbn [skip_pnfs_result]; intros [= <-]; try (apply total_skip_bytes; lia).
  - unfold skip_layoutget_result. wp. wp_call total_skip_stateid4. intros r Hr. wp.
    wp_call wpo_skip_word. intros [n r'] (_ & Hr' & _). wp.
    wp_call total_for; [apply total_bind; [apply total_skip_bytes; lia|auto with total]|].
    intros r'' Hr''. suffix_tac.
  - wp. wp_call wpo_skip_word. intros [n r] (_ & Hr & _). wp; [|suffix_tac].
    bool_hyps. wp. suffix_tac.
  - wp. wp_call wpo_skip_word. intros [n r] (_ & Hr & _). wp; [|suffix_tac].
    wp_call total_skip_stateid4. intros r' Hr'. suffix_tac.
  - apply (total_bind (skip_bytes 4 _) (fun b => let* b := skip_var_bytes b in skip_bitmap b));
      [apply total_skip_bytes; lia|]. apply total_bind; auto with total.
Qed.

Lemma total_skip_error opc st : total_skip (skip_error_result opc st).
Proof.
  apply (total_bind (fun b => if _ : bool then _ else _)
           (fun b => let* b := (if _ : bool then _ else _) in _)).
  - apply total_if; [|apply total_ret].
    apply total_drop; [apply wpo_decode_bool|apply total_v42_bool].
  - apply (total_bind (fun b => if _ : bool then _ else _) (fun b => if _ : bool then _ else _)).
    + apply total_if; auto with total.
    + intros buf. wp; [|done]. bool_hyps. wp. wp_call total_skip_var_bytes. intros r Hr. suffix_tac.
Qed.

Lemma total_skip_op_result opc st : total_skip (skip_op_result opc st).
Proof.
  intros buf. unfold skip_op_result. destruct (negb _); [apply total_skip_error|].
  destruct (op_of_u32 opc) as [o|]; [|done]. cbn [first_some fold_right].
  destruct (skip_v42_result o buf) eqn:E1; [by eapply total_skip_v42|].
  destruct (skip_data_result o buf) eqn:E2; [by eapply total_skip_data|].
  destruct (skip_state_result o buf) eqn:E3; [by eapply total_skip_state|].
  destruct (skip_pnfs_result o buf) eqn:E4; [by eapply total_skip_pnfs|]. done.
Qed.

Lemma wpo_decode_nfsstat4 v : wpo (decode_nfsstat4 v) (fun _ => True).
Proof. unfold decode_nfsstat4. by destruct (try_from v). Qed.

Lemma wpo_decode_op buf :
  wpo (decode_op buf) (fun '(op, rest) => op_data op `suffix_of` buf /\ rest `suffix_of` buf).
Proof.
  unfold decode_op. wp. wp_call wpo_decode_nfsstat4. intros st _. wp.
  wp_call total_skip_op_result. intros r Hr. wp. split; suffix_tac.
Qed.

Lemma wpo_decode_string buf : wpo (decode_string buf) (fun '(s, rest) =>
  utf8_valid s = true /\ rest `suffix_of` buf).
Proof.
  unfold decode_string. wp. pose proof (padded_ge v). wp. bool_hyps. split; [done|suffix_tac].
Qed.

(** ** The wire layout of results *)

(** [result_layout o status b]: [b] is an encoding of the data that follows the
    opcode and status of a result of [o]. *)
Inductive result_layout : OpNum.t -> Z -> bytes -> Prop :=
| rl_void o : In o [OpNum.PutRootFh; OpNum.PutFh; OpNum.SaveFh; OpNum.RestoreFh; OpNum.Lookup;
                    OpNum.Lookupp; OpNum.ReclaimComplete; OpNum.DestroySession;
                    OpNum.DestroyClientId; OpNum.DelegReturn; OpNum.OpenAttr; OpNum.Lockt;
                    OpNum.FreeStateId; OpNum.Allocate; OpNum.Deallocate; OpNum.Clone;
                    OpNum.OffloadCancel] -> result_layout o 0 []
| rl_fixed o n b : In (o, n) [(OpNum.Sequence, 36); (OpNum.Access, 8); (OpNum.Write, 16);
                              (OpNum.Commit, 8); (OpNum.Close, 16); (OpNum.Lock, 16);
                              (OpNum.Locku, 16); (OpNum.Remove, 20); (OpNum.Link, 20);
                              (OpNum.BindConnToSession, 24)] ->
    remaining b = n -> result_layout o 0 b
| rl_opaque o v : In o [OpNum.GetFh; OpNum.ReadLink; OpNum.GetXattr] -> remaining v < 2 ^ 32 ->
    result_layout o 0 (xdr_opaque v)
| rl_rename b c : remaining b = 20 -> remaining c = 20 -> result_layout OpNum.Rename 0 (b ++ c)
| rl_getattr bm v : (length bm <= 16)%nat -> remaining v < 2 ^ 32 ->
    result_layout OpNum.GetAttr 0 (xdr_bitmap bm ++ xdr_opaque v)
| rl_setattr st bm : (length bm <= 16)%nat -> result_layout OpNum.SetAttr st (xdr_bitmap bm)
| rl_create ci bm : remaining ci = 20 -> (length bm <= 16)%nat ->
    result_layout OpNum.Create 0 (ci ++ xdr_bitmap bm)
| rl_read eof v : remaining v < 2 ^ 32 -> result_layout OpNum.Read 0 (xdr_bool eof ++ xdr_opaque v)
| rl_readdir verf (entries : list (bytes * bytes * list Z * bytes)) eof :
    remaining verf = 8 -> Z.of_nat (length entries) <= MAX_ENTRY4_PER_PAGE ->
    Forall (fun '(cookie, name, bm, v) => remaining cookie = 8 /\ remaining name < 2 ^ 32 /\
              (length bm <= 16)%nat /\ remaining v < 2 ^ 32) entries ->
    result_layout OpNum.ReadDir 0
      (verf ++ concat (map (fun '(cookie, name, bm, v) =>
         xdr_bool true ++ cookie ++ xdr_opaque name ++ xdr_bitmap bm ++ xdr_opaque v) entries) ++
       xdr_bool false ++ xdr_bool eof)
| rl_open sid ci rflags bm : remaining sid = 16 -> remaining ci = 20 -> (length bm <= 16)%nat ->
    result_layout OpNum.Open 0 (sid ++ ci ++ xdr_u32 rflags ++ xdr_bitmap bm ++ xdr_u32 0)
| rl_error o st : st <> 0 -> o <> OpNum.SetAttr -> o <> OpNum.Copy -> o <> OpNum.Lock ->
    result_layout o st [].

(** [f] skips exactly [b]. *)
Definition skips_exactly (f : bytes -> result bytes) (b : bytes) : Prop :=
  forall rest, f (b ++ rest) = Ok rest.

Lemma skip_bytes_exact n what b : remaining b = n -> skips_exactly (skip_bytes n what) b.
Proof.
  intros Hb rest. unfold skip_bytes. rewrite require_app by lia. by apply advance_app.
Qed.

Lemma skip_var_bytes_exact v : remaining v < 2 ^ 32 -> skips_exactly skip_var_bytes (xdr_opaque v).
Proof.
  intros Hv rest. unfold skip_var_bytes, xdr_opaque. rewrite <- !app_assoc.
  rewrite require_app by (by rewrite remaining_xdr_u32). cbn [obind].
  unfold xdr_u32. rewrite get_u32_be by (pose proof (remaining_nonneg v); ilia). cbn [obind].
  destruct (opaque_body v rest) as (H1 & _ & H3). by rewrite H1; cbn [obind]; rewrite H3.
Qed.

Lemma skip_bitmap_exact bm : (length bm <= 16)%nat -> skips_exactly skip_bitmap (xdr_bitmap bm).
Proof.
  intros Hl rest. unfold skip_bitmap, xdr_bitmap, MAX_BITMAP_WORDS. rewrite <- app_assoc.
  rewrite require_app by (by rewrite remaining_xdr_u32). cbn [obind].
  unfold xdr_u32 at 1. rewrite get_u32_be by ilia. cbn [obind].
  destruct (Z.ltb_spec 16 (Z.of_nat (length bm))); [lia|].
  rewrite require_app by (rewrite remaining_concat_u32; lia). cbn [obind].
  apply advance_app. rewrite remaining_concat_u32. lia.
Qed.

Lemma bind_exact f g a b : skips_exactly f a -> skips_exactly g b ->
  skips_exactly (fun x => let* x := f x in g x) (a ++ b).
Proof. intros Hf Hg rest. rewrite <- app_assoc, Hf. cbn [obind]. apply Hg. Qed.

Lemma skip_word_bool what b rest : skip_word what (xdr_bool b ++ rest) = Ok (b2z b, rest).
Proof.
  unfold skip_word, xdr_bool. rewrite require_app by (by rewrite remaining_xdr_u32). cbn [obind].
  unfold xdr_u32. destruct b; rewrite get_u32_be by ilia; done.
Qed.

Lemma skip_entries_exact (entries : list (bytes * bytes * list Z * bytes)) eof fuel count :
  Z.of_nat (length entries) < Z.of_nat fuel ->
  count + Z.of_nat (length entries) <= MAX_ENTRY4_PER_PAGE ->
  Forall (fun '(cookie, name, bm, v) => remaining cookie = 8 /\ remaining name < 2 ^ 32 /\
            (length bm <= 16)%nat /\ remaining v < 2 ^ 32) entries ->
  skips_exactly (skip_entry4_loop fuel count)
    (concat (map (fun '(cookie, name, bm, v) =>
       xdr_bool true ++ cookie ++ xdr_opaque name ++ xdr_bitmap bm ++ xdr_opaque v) entries) ++
     xdr_bool false ++ xdr_bool eof).
Proof.
  revert fuel count. induction entries as [|[[[cookie name] bm] v] entries IH];
    intros fuel count Hf Hc Hall rest; (destruct fuel as [|fuel]; [simpl in Hf; lia|]);
    cbn [map concat app skip_entry4_loop].
  - rewrite <- app_assoc, skip_word_bool. cbn [obind b2z Z.eqb].
    apply skip_bytes_exact. apply remaining_xdr_u32.
  - apply Forall_cons in Hall as [(H1 & H2 & H3 & H4) Hall]. cbn [length] in *.
    rewrite <- !app_assoc, skip_word_bool. cbn [obind b2z Z.eqb].
    destruct (Z.ltb_spec MAX_ENTRY4_PER_PAGE (count + 1)); [lia|].
    unfold skip_entry4. rewrite (skip_bytes_exact 8 _ cookie H1). cbn [obind].
    rewrite (skip_var_bytes_exact name H2). cbn [obind]. unfold skip_fattr4.
    rewrite (skip_bitmap_exact bm H3). cbn [obind]. rewrite (skip_var_bytes_exact v H4).
    cbn [obind]. rewrite !app_assoc, <- (app_assoc _ (xdr_bool false)). apply IH; [lia|lia|done].
Qed.

(** A success result is skipped by the first table that has its operation. *)
Lemma skip_success o b rest :
  skip_op_result (op_u32 o) 0 (b ++ rest) =
  first_some [skip_v42_result o (b ++ rest); skip_data_result o (b ++ rest);
              skip_state_result o (b ++ rest); skip_pnfs_result o (b ++ rest)]
    (Err (Xdr ("unknown op " +:+ fmtZ (op_u32 o) +:+ " in COMPOUND response, cannot skip"))).
Proof. by destruct o. Qed.

Lemma skip_error_void o st rest : st <> 0 -> o <> OpNum.SetAttr -> o <> OpNum.Copy ->
  o <> OpNum.Lock -> skip_op_result (op_u32 o) st rest = Ok rest.
Proof.
  intros Hs H1 H2 H3. unfold skip_op_result, skip_error_result.
  destruct (Z.eqb_spec st 0); [done|]. cbn [negb]. by destruct o.
Qed.

Lemma skip_setattr st bm : (length bm <= 16)%nat ->
  skips_exactly (skip_op_result (op_u32 OpNum.SetAttr) st) (xdr_bitmap bm).
Proof.
  intros Hl rest. destruct (Z.eqb_spec st 0) as [->|Hs].
  - rewrite skip_success. by apply skip_bitmap_exact.
  - unfold skip_op_result. destruct (Z.eqb_spec st 0); [done|]. cbn [negb].
    unfold skip_error_result. cbn -[skip_bitmap xdr_bitmap].
    by rewrite (skip_bitmap_exact bm Hl).
Qed.

(** Every result is skipped exactly. *)
Lemma result_layout_skipped o st b :
  result_layout o st b -> skips_exactly (skip_op_result (op_u32 o) st) b.
Proof.
  intros H rest. destruct H.
  - rewrite skip_success. simpl in H. decompose [or] H; subst; done.
  - rewrite skip_success. simpl in H.
    decompose [or] H; try contradiction; simplify_eq; by apply skip_bytes_exact.
  - rewrite skip_success. simpl in H. decompose [or] H; subst; try contradiction;
      by apply skip_var_bytes_exact.
  - rewrite skip_success. apply (bind_exact skip_change_info skip_change_info);
      by apply skip_bytes_exact.
  - rewrite skip_success. apply (bind_exact skip_bitmap skip_var_bytes);
      [by apply skip_bitmap_exact|by apply skip_var_bytes_exact].
  - by apply skip_setattr.
  - rewrite skip_success. apply (bind_exact skip_change_info skip_bitmap);
      [by apply skip_bytes_exact|by apply skip_bitmap_exact].
  - rewrite skip_success. apply (bind_exact (skip_bytes 4 _) skip_var_bytes);
      [apply skip_bytes_exact, remaining_xdr_u32|by apply skip_var_bytes_exact].
  - rewrite skip_success. apply (bind_exact (skip_bytes 8 _) skip_entry4_list);
      [by apply skip_bytes_exact|].
    apply skip_entries_exact; [unfold MAX_ENTRY4_PER_PAGE in *; lia|lia|done].
  - rewrite skip_success.
    apply (bind_exact skip_stateid4 (fun b => let* b := skip_change_info b in
      let* b := skip_bytes 4 "OPEN rflags truncated" b in let* b := skip_bitmap b in
      skip_open_delegation b)); [by apply skip_bytes_exact|].
    apply (bind_exact skip_change_info (fun b => 
      let* b := skip_bytes 4 "OPEN rflags truncated" b in let* b := skip_bitmap b in
      skip_open_delegation b)); [by apply skip_bytes_exact|].
    apply (bind_exact (skip_bytes 4 _) (fun b => let* b := skip_bitmap b in
      skip_open_delegation b)); [apply skip_bytes_exact, remaining_xdr_u32|].
    apply (bind_exact skip_bitmap skip_open_delegation); [by apply skip_bitmap_exact|].
    intros r. unfold skip_open_delegation. by rewrite (skip_word_bool _ false).
  - by apply skip_error_void.
Qed.

(** ** Properties of the decoder *)

(** Decoding a COMPOUND reply never panics, whatever bytes the server
    sent (the entry limit bounds the directory loop); an accepted reply has at
    most 256 results and each result's data lies inside the reply. *)
Theorem decode_response_safe buf :
  decode_response buf <> Panic /\
  (forall r rest, decode_response buf = Ok (r, rest) ->
     Z.of_nat (length (results r)) <= MAX_COMPOUND_OPS /\
     Forall (fun op => op_data op `suffix_of` buf) (results r)).
Proof.
  enough (H : wpo (decode_response buf) (fun '(r, _) =>
    Z.of_nat (length (results r)) <= MAX_COMPOUND_OPS /\
    Forall (fun op => op_data op `suffix_of` buf) (results r))).
  { split; [by eapply wpo_no_panic|]. intros r rest Hr. by rewrite Hr in H. }
  unfold decode_response. wp. wp_call wpo_decode_nfsstat4. intros st _. wp.
  wp_call wpo_decode_string. intros [tag b] [_ Hb]. wp. bool_hyps.
  pose proof (wpo_collect v0 decode_op (fun op => op_data op `suffix_of` buf) rest0
    (fun '(l, _) => Forall (fun op => op_data op `suffix_of` buf) l)) as Hc.
  destruct (collect v0 decode_op rest0) as [[l r]| |] eqn:E; cbn.
  - apply collect_length in E; [|ilia]. split; [lia|]. apply Hc; [|done].
    intros b' Hb'. wp_call wpo_decode_op. intros [op r'] [Ho Hr']. split; [suffix_tac|done].
  - done.
  - apply Hc; [|done].
    intros b' Hb'. wp_call wpo_decode_op. intros [op r'] [Ho Hr']. split; [suffix_tac|done].
Qed.

(** What a server writes for one result. *)
Definition wire_result (x : OpNum.t * nfsstat4 * bytes) : bytes :=
  let '(o, st, b) := x in xdr_u32 (op_u32 o) ++ xdr_u32 (to_u32 st) ++ b.

Lemma op_u32_range o : is_u32 (op_u32 o).
Proof. destruct o; split; by vm_compute. Qed.

Lemma decode_op_wire o st b rest :
  result_layout o (to_u32 st) b ->
  decode_op (wire_result (o, st, b) ++ rest) =
  Ok ({| op_opcode := op_u32 o; op_status := st; op_data := b ++ rest |}, rest).
Proof.
  intros Hl. unfold decode_op, wire_result. rewrite <- !app_assoc.
  rewrite require_ok.
  2:{ rewrite !remaining_app, !remaining_xdr_u32. pose proof (remaining_nonneg b).
      pose proof (remaining_nonneg rest). lia. }
  cbn [obind]. unfold xdr_u32. rewrite get_u32_be by apply op_u32_range. cbn [obind].
  rewrite get_u32_be by apply to_u32_range. cbn [obind].
  unfold decode_nfsstat4. rewrite try_from_to_u32. cbn [obind].
  by rewrite (result_layout_skipped o (to_u32 st) b Hl).
Qed.

(** The data of each result: its own bytes and everything after it. *)
Fixpoint op_responses (l : list (OpNum.t * nfsstat4 * bytes)) (rest : bytes) : list OpResponse :=
  match l with
  | [] => []
  | (o, st, b) :: l =>
      {| op_opcode := op_u32 o; op_status := st;
         op_data := b ++ concat (map wire_result l) ++ rest |} :: op_responses l rest
  end.

Lemma collect_ops_wire l rest :
  Forall (fun '(o, st, b) => result_layout o (to_u32 st) b) l ->
  collect (Z.of_nat (length l)) decode_op (concat (map wire_result l) ++ rest) =
  Ok (op_responses l rest, rest).
Proof.
  intros Hl. rewrite collect_nat, Nat2Z.id.
  enough (H : forall acc, loop_nat (length l) (fun '(acc, buf) =>
      let* (a, buf) := decode_op buf in Ok (acc ++ [a], buf))
      (acc, concat (map wire_result l) ++ rest) = Ok (acc ++ op_responses l rest, rest))
    by apply (H []).
  induction l as [|[[o st] b] l IH]; intros acc; cbn [length loop_nat map concat op_responses].
  - by rewrite app_nil_r.
  - apply Forall_cons in Hl as [Hb Hl]. rewrite <- app_assoc, decode_op_wire by done.
    cbn [obind]. rewrite IH by done. by rewrite <- app_assoc.
Qed.

Lemma decode_string_enc s rest :
  utf8_valid s = true -> remaining s < 2 ^ 32 ->
  decode_string (xdr_opaque s ++ rest) = Ok (s, rest).
Proof.
  intros Hu Hs. unfold decode_string, xdr_opaque. rewrite <- !app_assoc.
  rewrite require_app by (by rewrite remaining_xdr_u32). cbn [obind].
  unfold xdr_u32. rewrite get_u32_be by (pose proof (remaining_nonneg s); ilia). cbn [obind].
  destruct (opaque_body s rest) as (H1 & H2 & H3).
  rewrite H1; cbn [obind]. rewrite H2; cbn [obind]. rewrite Hu. cbn [negb]. by rewrite H3.
Qed.

(** A reply written as RFC 5661 lays it out is decoded into its status,
    tag and results in order; the data handed to the typed decoder of the i-th
    operation starts with exactly that operation's result, whatever results
    precede it. *)
Theorem decode_response_layout status tag l rest :
  utf8_valid tag = true -> remaining tag < 2 ^ 32 -> Z.of_nat (length l) <= MAX_COMPOUND_OPS ->
  Forall (fun '(o, st, b) => result_layout o (to_u32 st) b) l ->
  decode_response (xdr_u32 (to_u32 status) ++ xdr_opaque tag ++
                   xdr_u32 (Z.of_nat (length l)) ++ concat (map wire_result l) ++ rest) =
  Ok ({| resp_tag := tag; resp_status := status; results := op_responses l rest;
         session_generation := 0 |}, rest).
Proof.
  intros Hu Ht Hl Hall. unfold decode_response, MAX_COMPOUND_OPS in *.
  rewrite require_app by (by rewrite remaining_xdr_u32). cbn [obind].
  unfold xdr_u32 at 1. rewrite get_u32_be by apply to_u32_range. cbn [obind].
  unfold decode_nfsstat4. rewrite try_from_to_u32. cbn [obind].
  rewrite decode_string_enc by done. cbn [obind].
  rewrite require_app by (by rewrite remaining_xdr_u32). cbn [obind].
  unfold xdr_u32 at 1. rewrite get_u32_be by ilia. cbn [obind].
  destruct (Z.ltb_spec 256 (Z.of_nat (length l))); [lia|].
  by rewrite collect_ops_wire.
Qed.

Definition demo_results : list (OpNum.t * nfsstat4 * bytes) :=
  [(OpNum.Sequence, NFS4_OK, zeros 36); (OpNum.PutFh, NFS4_OK, []);
   (OpNum.GetAttr, NFS4_OK, xdr_bitmap [2] ++ xdr_opaque (be_bytes 4 1));
   (OpNum.SetAttr, NFS4ERR_DELAY, xdr_bitmap [])].

Lemma demo_results_ok : Forall (fun '(o, st, b) => result_layout o (to_u32 st) b) demo_results.
Proof.
  apply Forall_cons; split; [eapply rl_fixed; [by left|by vm_compute]|].
  apply Forall_cons; split; [apply rl_void; right; by left|].
  apply Forall_cons; split; [apply rl_getattr; [simpl; lia|by vm_compute]|].
  apply Forall_cons; split; [apply rl_setattr; simpl; lia|constructor].
Qed.

Lemma decode_response_layout_witness :
  decode_response (xdr_u32 (to_u32 NFS4ERR_DELAY) ++ xdr_opaque (of_str "t") ++
                   xdr_u32 (Z.of_nat (length demo_results)) ++
                   concat (map wire_result demo_results) ++ []) =
  Ok ({| resp_tag := of_str "t"; resp_status := NFS4ERR_DELAY;
         results := op_responses demo_results []; session_generation := 0 |}, []).
Proof.
  apply (decode_response_layout NFS4ERR_DELAY (of_str "t") demo_results []);
    [reflexivity|by vm_compute|by vm_compute|apply demo_results_ok].
Defined.

(** ** Properties of the retry decision *)

Lemma busy_scan_safe nres status pairs index safe res :
  (index + length pairs = nres)%nat -> busy_scan nres status index pairs safe = Ok res ->
  (res = true <->
   safe = true /\ forall i q p, pairs !! i = Some (q, p) -> op_status p = NFS4_OK ->
     class (opcode q) <> ReplaySensitive) /\
  exists q p, last pairs = Some (q, p) /\ op_status p = status /\ status <> NFS4_OK.
Proof.
  revert index safe. induction pairs as [|[q p] pairs IH]; intros index safe Hn; simpl; [done|].
  destruct (negb (op_u32 _ =? _)); [done|].
  case_bool_decide as Hs; cbn [negb].
  - intros H. destruct (IH (S index) _ ltac:(simpl in Hn; lia) H) as [-> (q' & p' & Hl & Hp)]. split.
    + case_bool_decide as Hc.
      * split; [by intros [? _]|]. intros [_ H']. exfalso. by apply (H' 0%nat q p).
      * split.
        -- intros [-> H']. split; [done|]. intros [|i] q1 p1; simpl; [by intros [= <- <-]|by apply H'].
        -- intros [-> H']. split; [done|]. intros i q1 p1 Hi. by apply (H' (S i)).
    + exists q', p'. split; [|done]. destruct pairs; [done|]. by rewrite <- Hl.
  - destruct (negb _ || negb _) eqn:E; [done|]. intros [= ->]. bool_hyps.
    apply Nat.eqb_eq in H. apply bool_decide_eq_true in H0.
    destruct pairs; [|simpl in Hn; lia]. split.
    + split; [|tauto]. intros ->. split; [done|]. intros [|i] q1 p1; simpl; [|done].
      by intros [= <- <-].
    + exists q, p. by subst.
Qed.

(** The scan of a whole reply. *)
Lemma can_retry_busy_scan b r res :
  can_retry_busy b r = Ok res ->
  (res = true <-> forall i q p, ops b !! i = Some q -> results r !! i = Some p ->
     op_status p = NFS4_OK -> class (opcode q) <> ReplaySensitive) /\
  exists q p, last (zip (ops b) (results r)) = Some (q, p) /\ op_status p = resp_status r /\
    resp_status r <> NFS4_OK.
Proof.
  unfold can_retry_busy. destruct (_ || _) eqn:E; [done|]. apply orb_false_iff in E as [_ Hlen].
  apply Nat.ltb_ge in Hlen. intros H. apply busy_scan_safe in H as [H1 Hlast].
  2:{ rewrite length_zip_with. lia. }
  split; [|done]. rewrite H1. split.
  - intros [_ H] i q' p' Hq Hp'. apply (H i). apply lookup_zip_with_Some. eauto.
  - intros H. split; [done|]. intros i q' p' Hi.
    apply lookup_zip_with_Some in Hi as (x & y & [= <- <-] & Hx & Hy). eauto.
Qed.

(** C6: a COMPOUND that failed with a busy status is declared safe to send
    again exactly when every operation that the server completed before the
    failing one is free of side effects; a decision is only made when the reply
    ends in the failing operation with the status of the whole COMPOUND. *)
Theorem can_retry_busy_exact b r res :
  can_retry_busy b r = Ok res ->
  (res = true <-> forall i q p, ops b !! i = Some q -> results r !! i = Some p ->
     op_status p = NFS4_OK -> class (opcode q) <> ReplaySensitive) /\
  (exists p, last (results r) = Some p /\ op_status p = resp_status r /\
     resp_status r <> NFS4_OK).
Proof.
  intros H. destruct (can_retry_busy_scan _ _ _ H) as [H1 (q & p & Hl & Hp)]. split; [done|].
  unfold can_retry_busy in H. destruct (_ || _) eqn:E; [done|]. apply orb_false_iff in E as [_ Hlen].
  apply Nat.ltb_ge in Hlen.
  exists p. split; [|done]. rewrite last_lookup in Hl. rewrite last_lookup.
  apply lookup_zip_with_Some in Hl as (x & y & [= <- <-] & Hx & Hy).
  rewrite <- Hy. f_equal. rewrite length_zip_with. lia.
Qed.

(** A PUTFH that succeeded before a delayed GETATTR. *)
Definition demo_request : CompoundBuilder :=
  getattr [2] (putfh [] (sequence (zeros 16) 1 0 0 (builder_new []))).
Definition demo_busy : CompoundResponse :=
  {| resp_tag := []; resp_status := NFS4ERR_DELAY;
     results := [{| op_opcode := 53; op_status := NFS4_OK; op_data := [] |};
                 {| op_opcode := 22; op_status := NFS4_OK; op_data := [] |};
                 {| op_opcode := 9; op_status := NFS4ERR_DELAY; op_data := [] |}];
     session_generation := 0 |}.

Lemma can_retry_busy_exact_witness :
  (true = true <-> forall i q p, ops demo_request !! i = Some q ->
     results demo_busy !! i = Some p -> op_status p = NFS4_OK ->
     class (opcode q) <> ReplaySensitive) /\
  (exists p, last (results demo_busy) = Some p /\ op_status p = resp_status demo_busy /\
     resp_status demo_busy <> NFS4_OK).
Proof. apply (can_retry_busy_exact demo_request demo_busy true). reflexivity. Defined.

(** ** The reply-cache flag *)

Lemma class_max_mutation a b :
  class_max a b = ReplaySensitive <-> a = ReplaySensitive \/ b = ReplaySensitive.
Proof. destruct a, b; cbn; intuition congruence. Qed.

Lemma max_class_mutation l :
  max_class l = ReplaySensitive <-> In ReplaySensitive l.
Proof.
  destruct l as [|c l]; [done|]. cbn [max_class]. revert c.
  induction l as [|d l IH]; intros c; cbn [fold_left In]; [intuition|].
  rewrite IH. cbn [In]. rewrite class_max_mutation. intuition.
Qed.

(** When the reply-cache policy accepts a request, SEQUENCE asks the server
    to cache the reply exactly when some later operation has side effects, all
    other arguments stay as built, and in that case the negotiated cache holds
    at least the smallest possible reply. *)
Theorem cache_policy_exact tag_ sid sq slot hi tail gen max_cached b' :
  remaining sid = 16 ->
  apply_sequence_cache_policy
    {| tag := tag_; ops := {| opcode := OpNum.Sequence; args := sequence_args sid sq slot hi |} :: tail;
       required_generation := gen |} max_cached = Ok b' ->
  exists cache, b' =
    {| tag := tag_;
       ops := {| opcode := OpNum.Sequence;
                 args := sid ++ xdr_u32 sq ++ xdr_u32 slot ++ xdr_u32 hi ++ xdr_bool cache |} :: tail;
       required_generation := gen |} /\
    (cache = true <-> exists op, In op tail /\ class (opcode op) = ReplaySensitive) /\
    (cache = true -> minimum_cached_response_size b' <= max_cached).
Proof.
  intros Hsid. unfold apply_sequence_cache_policy. cbn [ops skipn opcode args tag required_generation].
  set (c := bool_decide _). set (m := minimum_cached_response_size _).
  destruct (c && (max_cached <? m)) eqn:Ec; [done|].
  destruct (negb _ || _); [done|]. intros [= <-]. exists c. split_and!.
  - do 3 f_equal. set (p := sid ++ xdr_u32 sq ++ xdr_u32 slot ++ xdr_u32 hi).
    assert (Hl : length p = 28%nat).
    { unfold p, xdr_u32, remaining in *. rewrite !length_app, !length_be_bytes. lia. }
    assert (Ha : forall x, sid ++ xdr_u32 sq ++ xdr_u32 slot ++ xdr_u32 hi ++ x = p ++ x)
      by (intros; unfold p; by rewrite <- !app_assoc).
    unfold set_cachethis, sequence_args. rewrite !Ha.
    rewrite (take_app_length' _ _ 28), skipn_all2, app_nil_r; [by destruct c| |done].
    rewrite length_app, Hl. by vm_compute.
  - unfold c. rewrite bool_decide_eq_true, max_class_mutation, in_map_iff. naive_solver.
  - intros Hc. rewrite Hc in Ec. bool_hyps. cbn [andb] in Ec. bool_hyps. exact Ec.
Qed.

Definition demo_tail : list EncodedOp :=
  [{| opcode := OpNum.PutFh; args := xdr_opaque [] |};
   {| opcode := OpNum.Remove; args := xdr_opaque (of_str "a") |}].

Lemma cache_policy_exact_witness :
  exists cache,
    {| tag := [];
       ops := {| opcode := OpNum.Sequence;
                 args := zeros 16 ++ xdr_u32 1 ++ xdr_u32 0 ++ xdr_u32 0 ++ xdr_bool true |} :: demo_tail;
       required_generation := None |} =
    {| tag := [];
       ops := {| opcode := OpNum.Sequence;
                 args := zeros 16 ++ xdr_u32 1 ++ xdr_u32 0 ++ xdr_u32 0 ++ xdr_bool cache |} :: demo_tail;
       required_generation := None |} /\
    (cache = true <-> exists op, In op demo_tail /\ class (opcode op) = ReplaySensitive) /\
    (cache = true -> minimum_cached_response_size
       {| tag := [];
          ops := {| opcode := OpNum.Sequence;
                    args := zeros 16 ++ xdr_u32 1 ++ xdr_u32 0 ++ xdr_u32 0 ++ xdr_bool true |} :: demo_tail;
          required_generation := None |} <= 4096).
Proof.
  apply (cache_policy_exact [] (zeros 16) 1 0 0 demo_tail None 4096); [reflexivity|by vm_compute].
Defined.

(** NFS4ERR_DENIED is 10010, but the LOCK arm tests for 10012 (NFS4ERR_LOCKED):
    the LOCK4denied body that follows a denied LOCK is not skipped. *)
Lemma lock_denied_body_not_skipped body :
  skip_op_result (op_u32 OpNum.Lock) (to_u32 NFS4ERR_DENIED) body = Ok body.
Proof. reflexivity. Qed.
