(* ===== verification/Session.v ===== *)
(** * Session establishment and validation

    Models the rest of [src/src/nfs41/session.rs]: SEQUENCE result validation,
    channel attribute negotiation, EXCHANGE_ID, CREATE_SESSION and
    RECLAIM_COMPLETE, and the generation-checked session holder; and the pure
    checks of [src/src/nfs41/lease.rs]. The RPC client is a parameter: [call]
    takes the client's state and an encoded request to a reply. *)
From S2P Require Import Prelude Errors Retry SlotTable Xdr4 Acl4 Compound41 V42 Response41.
From stdpp Require Import base list numbers strings relations.
#[local] Open Scope Z_scope.

(** ** Data *)

Record ChannelAttrs : Type := {
  header_pad_size : Z;
  max_request_size : Z;
  max_response_size : Z;
  max_cached_response_size : Z;
  max_ops : Z;
  ca_max_requests : Z;
}.

Record Session : Type := {
  s_minor_version : MinorVersion;
  s_generation : Z;
  session_id : bytes;
  client_id : Z;
  slot_table : SlotTable;
  s_max_request_size : Z;
  s_max_response_size : Z;
  s_max_cached_response_size : Z;
  s_max_operations : Z;
  backchannel_max_requests : Z;
  backchannel_max_request_size : Z;
  backchannel_max_operations : Z;
  s_pnfs_mds : bool;
}.

Definition with_table (s : Session) (t : SlotTable) : Session :=
  {| s_minor_version := s_minor_version s; s_generation := s_generation s;
     session_id := session_id s; client_id := client_id s; slot_table := t;
     s_max_request_size := s_max_request_size s; s_max_response_size := s_max_response_size s;
     s_max_cached_response_size := s_max_cached_response_size s;
     s_max_operations := s_max_operations s;
     backchannel_max_requests := backchannel_max_requests s;
     backchannel_max_request_size := backchannel_max_request_size s;
     backchannel_max_operations := backchannel_max_operations s; s_pnfs_mds := s_pnfs_mds s |}.

Definition with_generation (s : Session) (g : Z) : Session :=
  {| s_minor_version := s_minor_version s; s_generation := g;
     session_id := session_id s; client_id := client_id s; slot_table := slot_table s;
     s_max_request_size := s_max_request_size s; s_max_response_size := s_max_response_size s;
     s_max_cached_response_size := s_max_cached_response_size s;
     s_max_operations := s_max_operations s;
     backchannel_max_requests := backchannel_max_requests s;
     backchannel_max_request_size := backchannel_max_request_size s;
     backchannel_max_operations := backchannel_max_operations s; s_pnfs_mds := s_pnfs_mds s |}.

Record ClientIdentity : Type := {
  ci_minor_version : MinorVersion; owner_id : bytes; verifier : bytes
}.

Record SequenceResult : Type := {
  sr_highest_slot_id : Z; sr_target_highest_slot_id : Z; sr_status_flags : Z
}.

(** ** SEQUENCE results *)

Definition validate_sequence_result (op : OpResponse) (expected_session_id : bytes)
    (expected_sequence_id expected_slot_id : Z) : result SequenceResult :=
  if negb (op_opcode op =? op_u32 OpNum.Sequence) || negb (bool_decide (op_status op = NFS4_OK))
  then Err (Xdr "response does not contain a successful SEQUENCE result")
  else
    let* _ := require 36 (Xdr "SEQUENCE result truncated") (op_data op) in
    let* (sid, data) := split_to 16 (op_data op) in
    let* (seq, data) := get_u32 data in
    let* (slot, data) := get_u32 data in
    let* (highest, data) := get_u32 data in
    let* (target, data) := get_u32 data in
    let* (flags, _) := get_u32 data in
    if negb (bool_decide (sid = expected_session_id)) || negb (seq =? expected_sequence_id)
       || negb (slot =? expected_slot_id)
    then Err (Xdr ("SEQUENCE identity mismatch: expected seq=" +:+ fmtZ expected_sequence_id +:+
                   " slot=" +:+ fmtZ expected_slot_id))
    else Ok {| sr_highest_slot_id := highest; sr_target_highest_slot_id := target;
               sr_status_flags := flags |}.

(** ** Channel negotiation *)

Definition decode_channel_attrs (data : bytes) : result (ChannelAttrs * bytes) :=
  let* _ := require 24 (Xdr "channel_attrs truncated") data in
  let* (pad, data) := get_u32 data in
  let* (req, data) := get_u32 data in
  let* (resp, data) := get_u32 data in
  let* (cached, data) := get_u32 data in
  let* (ops, data) := get_u32 data in
  let* (reqs, data) := get_u32 data in
  let* _ := require 4 (Xdr "ca_rdma_ird length truncated") data in
  let* (n, data) := get_u32 data in
  if 1 <? n
  then Err (Xdr ("ca_rdma_ird count " +:+ fmtZ n +:+ " exceeds protocol bound 1"))
  else
    let* _ := require (n * 4) (Xdr "ca_rdma_ird data truncated") data in
    let* data := advance (n * 4) data in
    Ok ({| header_pad_size := pad; max_request_size := req; max_response_size := resp;
           max_cached_response_size := cached; max_ops := ops; ca_max_requests := reqs |}, data).

(** One row of the table of fields: name, whether zero is allowed, value and
    offered maximum. *)
Fixpoint check_attr_rows (name : string) (rows : list (string * bool * Z * Z)) : result () :=
  match rows with
  | [] => Ok ()
  | (field, zero_ok, value, maximum) :: rows =>
      if (negb zero_ok && (value =? 0)) || (maximum <? value)
      then Err (Rpc ("invalid " +:+ name +:+ "-channel " +:+ field +:+ " " +:+ fmtZ value +:+
                     "; offered range is 1..=" +:+ fmtZ maximum))
      else check_attr_rows name rows
  end.

Definition validate_channel_attrs (name : string) (attrs : ChannelAttrs)
    (offered : ChannelAttrsArgs) : result () :=
  let* _ := check_attr_rows name
    [("headerpadsize"%string, true, header_pad_size attrs, headerpadsize offered);
     ("maxrequestsize"%string, false, max_request_size attrs, maxrequestsize offered);
     ("maxresponsesize"%string, false, max_response_size attrs, maxresponsesize offered);
     ("maxresponsesize_cached"%string, true, max_cached_response_size attrs,
        maxresponsesize_cached offered);
     ("maxoperations"%string, false, max_ops attrs, maxoperations offered);
     ("maxrequests"%string, false, ca_max_requests attrs, maxrequests offered)] in
  if max_response_size attrs <? max_cached_response_size attrs
  then Err (Rpc ("invalid " +:+ name +:+ "-channel cached response maximum " +:+
                 fmtZ (max_cached_response_size attrs) +:+ " exceeds response maximum " +:+
                 fmtZ (max_response_size attrs)))
  else Ok ().

Definition fore_attrs : ChannelAttrsArgs :=
  {| headerpadsize := 0; maxrequestsize := 1048576; maxresponsesize := 1048576;
     maxresponsesize_cached := 4096; maxoperations := 16; maxrequests := 64 |}.
Definition back_attrs : ChannelAttrsArgs :=
  {| headerpadsize := 0; maxrequestsize := 4096; maxresponsesize := 4096;
     maxresponsesize_cached := 4096; maxoperations := 2; maxrequests := 1 |}.

Definition EXCHGID4_FLAG_USE_PNFS_MDS : Z := 131072.
Definition EXCHGID4_FLAG_USE_PNFS_DS : Z := 262144.

(** ** Setup calls *)

(** The decoders of the two setup replies. *)
Definition decode_exchange_id (data : bytes) : result (Z * Z * Z) :=
  let* _ := require 16 (Xdr "EXCHANGE_ID result too short") data in
  let* (cid, data) := get_u64 data in
  let* (seq, data) := get_u32 data in
  let* (flags, _) := get_u32 data in
  Ok (cid, seq, flags).

Definition decode_create_session (data : bytes) : result (bytes * ChannelAttrs * ChannelAttrs) :=
  let* _ := require 24 (Xdr "CREATE_SESSION result too short") data in
  let* (sid, data) := split_to 16 data in
  let* (_, data) := get_u32 data in
  let* (_, data) := get_u32 data in
  let* (fore, data) := decode_channel_attrs data in
  let* (back, _) := decode_channel_attrs data in
  let* _ := validate_channel_attrs "fore" fore fore_attrs in
  let* _ := validate_channel_attrs "back" back back_attrs in
  Ok (sid, fore, back).

Section Client.
Context {St : Type}.
Context (call : St -> bytes -> result bytes * St).
Context (auth : Auth).
Context (CB_PROGRAM : Z).

Definition send_compound (st : St) (b : CompoundBuilder) (v : MinorVersion)
    : result CompoundResponse * St :=
  let '(r, st) := call st (encode_with_header b auth v) in
  (let* reply := r in let* (resp, _) := decode_response reply in Ok resp, st).

(** Result of a reply-consuming continuation, with the client's state. *)
Definition then_ {A B : Type} (r : result A * St) (k : A -> St -> result B * St) : result B * St :=
  match r with
  | (Ok a, st) => k a st
  | (Err e, st) => (Err e, st)
  | (Panic, st) => (Panic, st)
  end.

Definition exchange_id_step (st : St) (ci : ClientIdentity) (flags : Z) : result (Z * Z * Z) * St :=
  let flags := Z.lor flags (if bool_decide (ci_minor_version ci = V2) then 4 else 0) in
  let b := exchange_id (verifier ci) (owner_id ci) flags (of_str "nfs-rs")
             (of_str "nfs-rs NFSv4.1/v4.2 client") (builder_new (of_str "exchange_id")) in
  then_ (send_compound st b (ci_minor_version ci)) (fun resp st =>
    (let* _ := check_resp_status resp in
     let* op := op_ok resp 0 in
     decode_exchange_id (op_data op), st)).

Definition create_session_step (st : St) (client_id create_seq_id : Z) (v : MinorVersion)
    (csa_flags : Z) : result (bytes * ChannelAttrs * ChannelAttrs) * St :=
  let b := create_session client_id create_seq_id csa_flags fore_attrs back_attrs CB_PROGRAM
             (builder_new (of_str "create_session")) in
  then_ (send_compound st b v) (fun resp st =>
    (let* _ := check_resp_status resp in
     let* op := op_ok resp 0 in
     decode_create_session (op_data op), st)).

Definition send_compound_on_session (st : St) (b : CompoundBuilder) (s : Session)
    : result CompoundResponse * St :=
  match enforce_max_operations b (s_max_operations s) with
  | Err e => (Err e, st)
  | Panic => (Panic, st)
  | Ok _ =>
      let requested_ops := op_count b in
      let buf := encode_with_header b auth (s_minor_version s) in
      let request_size := remaining buf + 8 in
      if s_max_request_size s <? request_size
      then (Err (Rpc ("session request size " +:+ fmtZ request_size +:+
                      " exceeds negotiated maximum " +:+ fmtZ (s_max_request_size s))), st)
      else
        then_ (call st buf) (fun reply st =>
          let response_size := remaining reply + 24 in
          if s_max_response_size s <? response_size
          then (Err (Rpc ("session response size " +:+ fmtZ response_size +:+
                          " exceeds negotiated maximum " +:+ fmtZ (s_max_response_size s))), st)
          else
            (let* (resp, _) := decode_response reply in
             let n := Z.of_nat (length (results resp)) in
             if (requested_ops <? n) || (s_max_operations s <? n)
             then Err (Xdr "session response operation count exceeds negotiated/requested bound")
             else Ok resp, st))
  end.

(** *** RECLAIM_COMPLETE *)

Inductive reclaim_status : Type :=
| Done (s : Session)
| Busy (e : NfsError) (s : Session).

(** One turn of the loop: SEQUENCE and RECLAIM_COMPLETE on the held slot. *)
Definition reclaim_round (st : St) (s : Session) (slot : AcquiredSlot)
    : result reclaim_status * St :=
  match current_sequence_id (slot_table s) slot with
  | None => (Panic, st)
  | Some seq =>
      let b := reclaim_complete false
                 (sequence (session_id s) seq (slot_id slot) (highest_slot_id (slot_table s))
                    (builder_new (of_str "reclaim_complete"))) in
      then_ (send_compound_on_session st b s) (fun resp st =>
        (let* s :=
           match op_ok resp 0 with
           | Ok op =>
               let* r := validate_sequence_result op (session_id s) seq (slot_id slot) in
               let* t := update_sequence_slot_limits (slot_table s) (sr_highest_slot_id r)
                           (sr_target_highest_slot_id r) in
               Ok (with_table s (advance_slot t slot))
           | _ => Ok s
           end in
         match check_resp_status resp with
         | Ok _ =>
             let* _ := op_ok resp 1 in
             Ok (Done (with_table s (drop_slot (slot_table s) slot)))
         | Err e => if is_server_busy e then Ok (Busy e s) else Err e
         | Panic => Panic
         end, st))
  end.

(** The backoff between turns; [obs n] is what the [n]-th one observes. *)
Context (rand : Z -> Z -> Z) (tl : TaskLocals) (obs : nat -> Observed).

Definition reclaim_context (v : MinorVersion) : RequestContext :=
  {| operation := "reclaim_complete";
     protocol := match v with V1 => NFSv4p1 | V2 => NFSv4p2 end; request_id := None |}.

Fixpoint reclaim_loop (fuel n : nat) (budget : Budget) (st : St) (s : Session)
    (slot : AcquiredSlot) : option (result Session * St) :=
  match fuel with
  | O => None
  | S fuel =>
      match reclaim_round st s slot with
      | (Ok (Done s), st) => Some (Ok s, st)
      | (Ok (Busy e s), st) =>
          match backoff rand tl budget (reclaim_context (s_minor_version s)) e (obs n) with
          | (Ok _, budget) => reclaim_loop fuel (S n) budget st s slot
          | (Err e, _) => Some (Err e, st)
          | (Panic, _) => Some (Panic, st)
          end
      | (Err e, st) => Some (Err e, st)
      | (Panic, st) => Some (Panic, st)
      end
  end.

(** [None] while the loop needs more fuel. *)
Definition establish_budgeted (fuel : nat) (budget : Budget) (st : St) (ci : ClientIdentity)
    : option (result Session * St) :=
  match exchange_id_step st ci EXCHGID4_FLAG_USE_PNFS_MDS with
  | (Ok (cid, seq, eir_flags), st) =>
      let pnfs := negb (Z.land eir_flags EXCHGID4_FLAG_USE_PNFS_MDS =? 0) in
      match create_session_step st cid seq (ci_minor_version ci) 2 with
      | (Ok (sid, fore, back), st) =>
          let s := {| s_minor_version := ci_minor_version ci; s_generation := 1; session_id := sid;
                      client_id := cid; slot_table := new (ca_max_requests fore);
                      s_max_request_size := max_request_size fore;
                      s_max_response_size := max_response_size fore;
                      s_max_cached_response_size := max_cached_response_size fore;
                      s_max_operations := max_ops fore;
                      backchannel_max_requests := ca_max_requests back;
                      backchannel_max_request_size := max_request_size back;
                      backchannel_max_operations := max_ops back; s_pnfs_mds := pnfs |} in
          match acquire_round (slot_table s) with
          | None => None
          | Some (Ok (slot, t)) => reclaim_loop fuel 0 budget st (with_table s t) slot
          | Some (Err e) => Some (Err e, st)
          | Some Panic => Some (Panic, st)
          end
      | (Err e, st) => Some (Err e, st)
      | (Panic, st) => Some (Panic, st)
      end
  | (Err e, st) => Some (Err e, st)
  | (Panic, st) => Some (Panic, st)
  end.

(** *** Data-server sessions *)

Definition ds_identity_v41 (ci : ClientIdentity) : ClientIdentity :=
  {| ci_minor_version := V1; owner_id := owner_id ci ++ of_str "-ds-v4.1"; verifier := verifier ci |}.

Definition ds_exchange_id (st : St) (ci : ClientIdentity)
    : result (Z * Z * Z * ClientIdentity) * St :=
  match exchange_id_step st ci EXCHGID4_FLAG_USE_PNFS_DS with
  | (Err (Nfs4 NFS4ERR_MINOR_VERS_MISMATCH), st) =>
      if bool_decide (ci_minor_version ci = V2) then
        then_ (exchange_id_step st (ds_identity_v41 ci) EXCHGID4_FLAG_USE_PNFS_DS)
          (fun r st => (Ok (r, ds_identity_v41 ci), st))
      else (Err (Nfs4 NFS4ERR_MINOR_VERS_MISMATCH), st)
  | r => then_ r (fun r st => (Ok (r, ci), st))
  end.

Definition establish_ds (st : St) (ci : ClientIdentity) : result Session * St :=
  then_ (ds_exchange_id st ci) (fun '(cid, seq, _, ci) st =>
    then_ (create_session_step st cid seq (ci_minor_version ci) 0) (fun '(sid, fore, _) st =>
      (Ok {| s_minor_version := ci_minor_version ci; s_generation := 1; session_id := sid;
             client_id := cid; slot_table := new (ca_max_requests fore);
             s_max_request_size := max_request_size fore;
             s_max_response_size := max_response_size fore;
             s_max_cached_response_size := max_cached_response_size fore;
             s_max_operations := max_ops fore; backchannel_max_requests := 1;
             backchannel_max_request_size := 4096; backchannel_max_operations := 2;
             s_pnfs_mds := false |}, st))).
End Client.

(** ** The session holder *)

Record SessionHolder : Type := { inner : Session; holder_pnfs_mds : bool }.

Definition holder_new (s : Session) : SessionHolder :=
  {| inner := with_generation s 1; holder_pnfs_mds := s_pnfs_mds s |}.

(** [replace_with_callback_if_current]; [update_session] is the callback state's
    own update, which may refuse the negotiated back channel. *)
Definition replace_if_current {Cb : Type}
    (update_session : Cb -> bytes -> Z -> Z -> Z -> Z -> result Cb)
    (h : SessionHolder) (cb : Cb) (expected : Z) (s : Session) : result bool * SessionHolder * Cb :=
  if negb (s_generation (inner h) =? expected) then (Ok false, h, cb)
  else
    let s := with_generation s (sat_add64 expected 1) in
    match update_session cb (session_id s) (s_generation s) (backchannel_max_requests s)
            (backchannel_max_request_size s) (backchannel_max_operations s) with
    | Ok cb => (Ok true, {| inner := s; holder_pnfs_mds := s_pnfs_mds s |}, cb)
    | Err e => (Err e, h, cb)
    | Panic => (Panic, h, cb)
    end.

(** ** Lease renewal checks *)

Inductive LeaseHealth : Type :=
| Healthy | TransportFailure | ProtocolFailure | IdentityMismatch | SessionFailure.

(** [str::contains] *)
Definition str_contains (needle hay : string) : bool :=
  match String.index 0 needle hay with Some _ => true | None => false end.

Definition health_from_error (e : NfsError) : LeaseHealth :=
  match e with
  | Nfs4 (NFS4ERR_BADSESSION | NFS4ERR_DEADSESSION | NFS4ERR_SEQ_MISORDERED | NFS4ERR_BADSLOT) =>
      SessionFailure
  | Io _ _ | Rpc _ => TransportFailure
  | Xdr m => if str_contains "mismatch" m then IdentityMismatch else ProtocolFailure
  | _ => ProtocolFailure
  end.

Definition validate_renewal_wire_bounds (request_len response_len max_req max_resp : Z) : result () :=
  match checked_add64 request_len 8 with
  | None => Err (Rpc "renewal request size overflow")
  | Some request_len =>
      match checked_add64 response_len 24 with
      | None => Err (Rpc "renewal response size overflow")
      | Some response_len =>
          if (max_req <? request_len) || (max_resp <? response_len)
          then Err (Rpc ("lease renewal exceeds negotiated channel bounds: request " +:+
                         fmtZ request_len +:+ "/" +:+ fmtZ max_req +:+ ", response " +:+
                         fmtZ response_len +:+ "/" +:+ fmtZ max_resp))
          else Ok ()
      end
  end.

Definition validate_renewal_response (r : CompoundResponse) (sid : bytes) (seq slot : Z)
    : result SequenceResult :=
  let* _ := check_resp_status r in
  if negb (bool_decide (resp_tag r = of_str "renew")) then Err (Xdr "renewal tag mismatch")
  else if negb (length (results r) =? 1)%nat
  then Err (Xdr ("renewal response has " +:+ fmtZ (Z.of_nat (length (results r))) +:+
                 " operations, expected 1"))
  else
    let* op := op_ok r 0 in
    if negb (op_opcode op =? op_u32 OpNum.Sequence)
    then Err (Xdr ("renewal result 0 opcode mismatch: got " +:+ fmtZ (op_opcode op) +:+
                   ", expected " +:+ fmtZ (op_u32 OpNum.Sequence)))
    else if negb (remaining (op_data op) =? 36)
    then Err (Xdr ("renewal SEQUENCE result length " +:+ fmtZ (remaining (op_data op)) +:+
                   ", expected 36"))
    else validate_sequence_result op sid seq slot.

(** ** SEQUENCE identity *)

Definition sequence_wire (sid : bytes) (seq slot highest target flags : Z) : bytes :=
  sid ++ be_bytes 4 seq ++ be_bytes 4 slot ++ be_bytes 4 highest ++ be_bytes 4 target ++
  be_bytes 4 flags.

Lemma get_u32_inv (buf : bytes) v rest :
  get_u32 (E := NfsError) buf = Ok (v, rest) -> is_u32 v /\ buf = be_bytes 4 v ++ rest.
Proof.
  unfold get_u32, get_uint. destruct (Z.ltb_spec (remaining buf) (Z.of_nat 4)) as [|Hl]; [done|].
  intros [= <- <-]. unfold remaining in Hl.
  assert (Hn : length (firstn 4 buf) = 4%nat) by (rewrite length_firstn; lia). split.
  - pose proof (be_val_range (firstn 4 buf)) as H. rewrite Hn in H. exact H.
  - rewrite be_bytes_val by done. by rewrite take_drop.
Qed.

Lemma split_to_inv n (buf a rest : bytes) :
  0 <= n -> split_to (E := NfsError) n buf = Ok (a, rest) -> buf = a ++ rest /\ remaining a = n.
Proof.
  intros Hn. unfold split_to. destruct (Z.ltb_spec (remaining buf) n); [done|].
  intros [= <- <-]. rewrite take_drop. split; [done|]. apply remaining_firstn. lia.
Qed.

Ltac ok_step H :=
  let x := fresh "x" in let Hx := fresh "Hx" in
  apply obind_ok_inv in H as (x & Hx & H); cbv beta in H.

(** A SEQUENCE result is accepted exactly when it is a successful SEQUENCE
    whose data begins with the session id, sequence id and slot id of the
    request; the three limits it returns are the ones on the wire. *)
Theorem validate_sequence_identity op sid seq slot r :
  remaining sid = 16 -> is_u32 seq -> is_u32 slot ->
  validate_sequence_result op sid seq slot = Ok r <->
  op_opcode op = op_u32 OpNum.Sequence /\ op_status op = NFS4_OK /\
  is_u32 (sr_highest_slot_id r) /\ is_u32 (sr_target_highest_slot_id r) /\
  is_u32 (sr_status_flags r) /\
  exists tail, op_data op =
    sequence_wire sid seq slot (sr_highest_slot_id r) (sr_target_highest_slot_id r)
      (sr_status_flags r) ++ tail.
Proof.
  intros Hsid Hseq Hslot. unfold validate_sequence_result, sequence_wire. split.
  - destruct (negb _ || negb _) eqn:E1; [done|]. apply orb_false_iff in E1 as [E1 E2].
    apply negb_false_iff, Z.eqb_eq in E1. apply negb_false_iff, bool_decide_eq_true in E2.
    intros H. ok_step H. ok_step H. destruct x0 as [sid' d0]. apply split_to_inv in Hx0 as [Hd0 _]; [|lia].
    ok_step H. destruct x0 as [v1 d1]. apply get_u32_inv in Hx0 as [_ ->].
    ok_step H. destruct x0 as [v2 d2]. apply get_u32_inv in Hx0 as [_ ->].
    ok_step H. destruct x0 as [v3 d3]. apply get_u32_inv in Hx0 as [H3 ->].
    ok_step H. destruct x0 as [v4 d4]. apply get_u32_inv in Hx0 as [H4 ->].
    ok_step H. destruct x0 as [v5 d5]. apply get_u32_inv in Hx0 as [H5 ->].
    destruct (_ || _) eqn:E; [done|]. bool_hyps. apply bool_decide_eq_true in H0.
    injection H as <-. subst. cbn. split_and!; try done.
    exists d5. rewrite Hd0, <- !app_assoc. done.
  - intros (H1 & H2 & H3 & H4 & H5 & tail & Hd). rewrite H1, Z.eqb_refl, H2.
    rewrite bool_decide_eq_true_2 by done. cbn [negb orb]. rewrite Hd, <- !app_assoc.
    rewrite require_ok by (rewrite !remaining_app, !remaining_be; pose proof (remaining_nonneg tail); lia).
    cbn [obind]. rewrite split_to_app by done. cbn [obind].
    do 5 (rewrite get_u32_be by done; cbn [obind]).
    rewrite bool_decide_eq_true_2, !Z.eqb_refl by done. by destruct r.
Qed.

Lemma validate_sequence_identity_witness :
  validate_sequence_result
    {| op_opcode := 53; op_status := NFS4_OK; op_data := sequence_wire (zeros 16) 7 3 63 63 0 |}
    (zeros 16) 7 3 =
    Ok {| sr_highest_slot_id := 63; sr_target_highest_slot_id := 63; sr_status_flags := 0 |} <->
  53 = op_u32 OpNum.Sequence /\ NFS4_OK = NFS4_OK /\ is_u32 63 /\ is_u32 63 /\ is_u32 0 /\
  exists tail, sequence_wire (zeros 16) 7 3 63 63 0 = sequence_wire (zeros 16) 7 3 63 63 0 ++ tail.
Proof.
  apply (validate_sequence_identity
    {| op_opcode := 53; op_status := NFS4_OK; op_data := sequence_wire (zeros 16) 7 3 63 63 0 |}
    (zeros 16) 7 3
    {| sr_highest_slot_id := 63; sr_target_highest_slot_id := 63; sr_status_flags := 0 |});
    [reflexivity|unfold is_u32; lia|unfold is_u32; lia].
Defined.

(** ** Negotiated bounds *)

Record negotiated (a : ChannelAttrs) (o : ChannelAttrsArgs) : Prop := {
  ng_request : 1 <= max_request_size a <= maxrequestsize o;
  ng_response : 1 <= max_response_size a <= maxresponsesize o;
  ng_cached : 0 <= max_cached_response_size a <= maxresponsesize_cached o;
  ng_cached_fits : max_cached_response_size a <= max_response_size a;
  ng_ops : 1 <= max_ops a <= maxoperations o;
  ng_requests : 1 <= ca_max_requests a <= maxrequests o;
}.

Definition attrs_u32 (a : ChannelAttrs) : Prop :=
  is_u32 (header_pad_size a) /\ is_u32 (max_request_size a) /\ is_u32 (max_response_size a) /\
  is_u32 (max_cached_response_size a) /\ is_u32 (max_ops a) /\ is_u32 (ca_max_requests a).

Lemma validate_channel_attrs_ok name a o :
  attrs_u32 a -> validate_channel_attrs name a o = Ok () -> negotiated a o.
Proof.
  intros (H1 & H2 & H3 & H4 & H5 & H6). unfold validate_channel_attrs, check_attr_rows.
  cbn [negb andb].
  repeat (destruct (_ || _) eqn:?; [done|]; bool_hyps). cbn [obind].
  destruct (_ <? _) eqn:?; [done|]. intros _. bool_hyps. unfold_int. constructor; lia.
Qed.

Lemma wpo_decode_channel_attrs data :
  wpo (decode_channel_attrs data) (fun '(a, rest) => attrs_u32 a /\ rest `suffix_of` data).
Proof.
  unfold decode_channel_attrs. wp. split; [by unfold attrs_u32|suffix_tac].
Qed.

(** What an accepted CREATE_SESSION reply guarantees. *)
Lemma decode_create_session_ok data :
  wpo (decode_create_session data) (fun '(sid, fore, back) =>
    remaining sid = 16 /\ negotiated fore fore_attrs /\ negotiated back back_attrs).
Proof.
  unfold decode_create_session. wp. wp_call wpo_decode_channel_attrs. intros [fore d1] [Hf _]. wp.
  wp_call wpo_decode_channel_attrs. intros [back d2] [Hb _]. cbv beta iota. wp.
  destruct (validate_channel_attrs "fore" fore fore_attrs) as [[]| |] eqn:E1; [|done|].
  2:{ revert E1. unfold validate_channel_attrs, check_attr_rows.
      repeat (destruct (_ || _); [done|]). cbn [obind]. by destruct (_ <? _). }
  cbn [wpo]. wp.
  destruct (validate_channel_attrs "back" back back_attrs) as [[]| |] eqn:E2; [|done|].
  2:{ revert E2. unfold validate_channel_attrs, check_attr_rows.
      repeat (destruct (_ || _); [done|]). cbn [obind]. by destruct (_ <? _). }
  cbn [wpo]. split_and!; [done|by eapply validate_channel_attrs_ok|by eapply validate_channel_attrs_ok].
Qed.

(** ** Establishment *)

(** The session's table after some atomic operations by the one task that
    establishes it, standing in phase [p]. *)
Definition table_at (n : Z) (t : SlotTable) (p : phase) : Prop :=
  reachable n {| table := t; tasks := [p]; fenced_ids := [] |}.

Lemma table_step n t p t' p' : table_at n t p -> task_step t p t' p' [] -> table_at n t' p'.
Proof.
  intros Hr Hs. unfold table_at, reachable in *. eapply rtc_r; [exact Hr|].
  exact (step_task t p t' p' [] [] [] [] Hs).
Qed.

Lemma acquire_round_at n slot t :
  acquire_round (new n) = Some (Ok (slot, t)) -> table_at n t (Holding slot).
Proof.
  assert (H0 : table_at n (new n) Idle)
    by (unfold table_at, reachable; eapply rtc_l; [apply step_spawn|apply rtc_refl]).
  unfold acquire_round. destruct (sem_acquire (new n)) as [[t1|e|]|] eqn:E1; [|done|done|done].
  destruct (pool_take _ _) as [[id pool]|] eqn:E2; [|done]. intros [= E3].
  pose proof (table_step _ _ _ _ _ H0 (step_permit _ _ E1)) as H1.
  pose proof (table_step _ _ _ _ _ H1 (step_load _)) as H2.
  pose proof (table_step _ _ _ _ _ H2 (step_take _ _ _ _ E2)) as H3.
  exact (table_step _ _ _ _ _ H3 (step_acquired _ _ _ _ E3)).
Qed.

Lemma acquire_round_fresh n :
  1 <= n <= 64 -> exists slot t, acquire_round (new n) = Some (Ok (slot, t)) /\
    disposition slot = Release /\ slot_id slot = 0.
Proof.
  intros Hn. unfold acquire_round, sem_acquire. cbn [closed new permits].
  destruct (Z.leb_spec n 0); [lia|]. cbn [target_highest_slot_id set_permits free_pool new].
  rewrite (seqZ_cons 0 n) by lia. cbn [pool_take].
  destruct (Z.leb_spec 0 (Z.max 0 (n - 1))); [|lia].
  unfold acquired. cbn [slot_mask Z.ltb Z.compare slots set_active set_pool set_permits new].
  replace (Z.to_nat n) with (S (Z.to_nat (n - 1))) by lia. cbn. eauto 6.
Qed.

Section Establish.
Context {St : Type} (call : St -> bytes -> result bytes * St) (auth : Auth) (CB_PROGRAM : Z).
Context (rand : Z -> Z -> Z) (tl : TaskLocals) (obs : nat -> Observed).

Lemma then_ok {A B} (r : result A * St) (k : A -> St -> result B * St) b st :
  then_ r k = (Ok b, st) -> exists a st', r = (Ok a, st') /\ k a st' = (Ok b, st).
Proof using Type. destruct r as [[a|e|] st']; cbn; [eauto|done|done]. Qed.

Lemma wpo_validate_sequence op sid seq slot :
  wpo (validate_sequence_result op sid seq slot) (fun r =>
    is_u32 (sr_highest_slot_id r) /\ is_u32 (sr_target_highest_slot_id r)).
Proof using Type. unfold validate_sequence_result. wp. by split. Qed.

(** One turn keeps the table among the states the slot protocol can reach, and
    gives the slot back when it is the last. *)
Lemma reclaim_round_at n st s slot r st' :
  disposition slot = Release -> table_at n (slot_table s) (Holding slot) ->
  reclaim_round call auth st s slot = (Ok r, st') ->
  match r with
  | Done s' => table_at n (slot_table s') Idle
  | Busy _ s' => table_at n (slot_table s') (Holding slot)
  end.
Proof using Type.
  intros Hd Ht. unfold reclaim_round.
  destruct (current_sequence_id _ _) as [seq|]; [|done]. intros H.
  apply then_ok in H as (resp & st1 & _ & H). injection H as H _.
  apply obind_ok_inv in H as (s1 & Hs1 & H).
  assert (H1 : table_at n (slot_table s1) (Holding slot)).
  { destruct (op_ok resp 0) as [op|e|]; [|by injection Hs1 as <-|by injection Hs1 as <-].
    apply obind_ok_inv in Hs1 as (lim & Hv & Hs1). apply obind_ok_inv in Hs1 as (t & Hl & Hs1).
    injection Hs1 as <-. pose proof (wpo_validate_sequence op (session_id s) seq (slot_id slot)) as Hw.
    rewrite Hv in Hw. destruct Hw as [Hw1 Hw2]. cbn [slot_table with_table].
    eapply table_step; [|apply step_advance].
    eapply table_step; [exact Ht|eapply step_limits; [| |exact Hl]; ilia]. }
  destruct (check_resp_status resp) as [[]|e|]; [| |done].
  - apply obind_ok_inv in H as (op & _ & H). injection H as <-. cbn [slot_table with_table].
    unfold drop_slot. rewrite Hd. unfold release.
    eapply table_step; [|apply step_permit_back]. eapply table_step; [|apply step_push].
    eapply table_step; [exact H1|by apply step_unmask].
  - destruct (is_server_busy e); [|done]. by injection H as <-.
Qed.

Lemma reclaim_loop_at fuel : forall n i budget st s slot s' st',
  disposition slot = Release -> table_at n (slot_table s) (Holding slot) ->
  reclaim_loop call auth rand tl obs fuel i budget st s slot = Some (Ok s', st') ->
  table_at n (slot_table s') Idle.
Proof using Type.
  induction fuel as [|fuel IH]; intros n i budget st s slot s' st' Hd Ht; [done|].
  cbn [reclaim_loop].
  destruct (reclaim_round call auth st s slot) as [[[s1|e s1]|e|] st1] eqn:E; [| |done|done].
  - intros [= <- _]. by apply (reclaim_round_at n) in E.
  - destruct (backoff _ _ _ _ _ _) as [[w|e'|] b']; [|done|done].
    intros H. eapply IH; [exact Hd| |exact H]. by apply (reclaim_round_at n) in E.
Qed.

(** The budget bounds the turns of the loop. *)
Lemma reclaim_loop_returns fuel : forall i budget st s slot,
  0 <= retries budget <= MAX_RETRIES -> MAX_RETRIES - retries budget < Z.of_nat fuel ->
  reclaim_loop call auth rand tl obs fuel i budget st s slot <> None.
Proof using Type.
  induction fuel as [|fuel IH]; intros i budget st s slot Hb Hf; [lia|]. cbn [reclaim_loop].
  destruct (reclaim_round call auth st s slot) as [[[s1|e s1]|e|] st1]; try done.
  destruct (backoff _ _ _ _ _ _) as [[w|e'|] b'] eqn:E; try done.
  apply backoff_ok in E as (H1 & H2 & _); [|lia]. apply IH; lia.
Qed.

Lemma create_session_step_ok st cid seq v f sid fore back st' :
  create_session_step call auth CB_PROGRAM st cid seq v f = (Ok (sid, fore, back), st') ->
  remaining sid = 16 /\ negotiated fore fore_attrs /\ negotiated back back_attrs.
Proof using Type.
  unfold create_session_step. intros H. apply then_ok in H as (resp & st1 & _ & H).
  injection H as H _. apply obind_ok_inv in H as (? & _ & H).
  apply obind_ok_inv in H as (op & _ & H). pose proof (decode_create_session_ok (op_data op)) as Hw.
  by rewrite H in Hw.
Qed.
End Establish.

(** What a mounted client relies on: a slot table of 1 to 64 slots in a state
    that the slot protocol reaches with no slot held, and limits inside what
    was offered. *)
Record session_ready (s : Session) : Prop := {
  sr_id : remaining (session_id s) = 16;
  sr_slots : exists n, 1 <= n <= 64 /\ table_at n (slot_table s) Idle;
  sr_ops : 1 <= s_max_operations s <= 16;
  sr_request : 1 <= s_max_request_size s <= 1048576;
  sr_cache : s_max_cached_response_size s <= s_max_response_size s <= 1048576;
  sr_back : backchannel_max_requests s = 1;
}.

Definition fixed_fields (s s' : Session) : Prop :=
  session_id s' = session_id s /\ s_max_operations s' = s_max_operations s /\
  s_max_request_size s' = s_max_request_size s /\
  s_max_cached_response_size s' = s_max_cached_response_size s /\
  s_max_response_size s' = s_max_response_size s /\
  backchannel_max_requests s' = backchannel_max_requests s.

Lemma reclaim_round_fields {St} (call : St -> bytes -> result bytes * St) auth st s slot r st' :
  reclaim_round call auth st s slot = (Ok r, st') ->
  match r with Done s' | Busy _ s' => fixed_fields s s' end.
Proof.
  unfold reclaim_round. destruct (current_sequence_id _ _); [|done]. intros H.
  apply then_ok in H as (resp & st1 & _ & H). injection H as H _.
  apply obind_ok_inv in H as (s1 & Hs1 & H).
  assert (H1 : fixed_fields s s1).
  { destruct (op_ok resp 0); [|by injection Hs1 as <-|by injection Hs1 as <-].
    apply obind_ok_inv in Hs1 as (? & _ & Hs1). apply obind_ok_inv in Hs1 as (? & _ & Hs1).
    by injection Hs1 as <-. }
  destruct (check_resp_status resp) as [[]|e|]; [| |done].
  - apply obind_ok_inv in H as (? & _ & H). by injection H as <-.
  - destruct (is_server_busy e); [|done]. by injection H as <-.
Qed.

Lemma reclaim_loop_fields {St} (call : St -> bytes -> result bytes * St) auth rand tl obs fuel :
  forall i budget st s slot s' st',
  reclaim_loop call auth rand tl obs fuel i budget st s slot = Some (Ok s', st') ->
  fixed_fields s s'.
Proof.
  induction fuel as [|fuel IH]; intros i budget st s slot s' st'; [done|]. cbn [reclaim_loop].
  destruct (reclaim_round call auth st s slot) as [[[s1|e s1]|e|] st1] eqn:E; [| |done|done].
  - intros [= <- _]. by apply reclaim_round_fields in E.
  - destruct (backoff _ _ _ _ _ _) as [[w|e'|] b']; [|done|done]. intros H.
    apply IH in H. apply reclaim_round_fields in E. unfold fixed_fields in *. intuition congruence.
Qed.

(** With a fresh budget, establishing a session always returns (seventeen
    RECLAIM_COMPLETE turns at most, whatever the server answers); when it
    returns a session, that session has 1 to 64 slots with none held, every
    slot-table theorem applies to it, and all negotiated limits lie within what
    the client offered. *)
Theorem establish_returns_ready_session {St} (call : St -> bytes -> result bytes * St) auth
    CB_PROGRAM rand tl obs now st ci :
  establish_budgeted call auth CB_PROGRAM rand tl obs 17 (budget_new tl now) st ci <> None /\
  (forall s st',
     establish_budgeted call auth CB_PROGRAM rand tl obs 17 (budget_new tl now) st ci =
       Some (Ok s, st') -> session_ready s).
Proof.
  unfold establish_budgeted.
  destruct (exchange_id_step _ _ _ _ _) as [[[[cid seq] fl]|e|] st1]; [|done|done].
  destruct (create_session_step _ _ _ _ _ _ _ _) as [[[[sid fore] back]|e|] st2] eqn:Ec;
    [|done|done].
  apply create_session_step_ok in Ec as (Hsid & [F1 F2 F3 F4 F5 F6] & [B1 B2 B3 B4 B5 B6]).
  cbn [maxrequests maxoperations maxrequestsize maxresponsesize maxresponsesize_cached
       fore_attrs back_attrs] in *. cbn [slot_table].
  destruct (acquire_round_fresh (ca_max_requests fore)) as (slot & t & Ha & Hd & _); [lia|].
  rewrite Ha. split.
  - apply reclaim_loop_returns; cbn; unfold MAX_RETRIES; lia.
  - intros s st' H. pose proof H as H'. apply reclaim_loop_fields in H' as (E1 & E2 & E3 & E4 & E5 & E6).
    cbn [session_id s_max_operations s_max_request_size s_max_cached_response_size
         s_max_response_size backchannel_max_requests with_table] in *.
    constructor; try (rewrite ?E1, ?E2, ?E3, ?E4, ?E5, ?E6; cbn; lia).
    exists (ca_max_requests fore). split; [lia|].
    eapply reclaim_loop_at; [exact Hd| |exact H]. cbn [slot_table with_table].
    by apply acquire_round_at.
Qed.

(** *** A run against a small server *)

Definition demo_reply (st : nat) : bytes :=
  match st with
  | 0%nat => (* EXCHANGE_ID *)
      xdr_u32 0 ++ xdr_opaque [] ++ xdr_u32 1 ++ xdr_u32 42 ++ xdr_u32 0 ++ xdr_u64 9 ++ xdr_u32 1 ++
      xdr_u32 131072 ++ xdr_u32 0 ++ xdr_u64 0 ++ xdr_opaque [] ++ xdr_opaque [] ++ xdr_u32 0
  | 1%nat => (* CREATE_SESSION *)
      xdr_u32 0 ++ xdr_opaque [] ++ xdr_u32 1 ++ xdr_u32 43 ++ xdr_u32 0 ++ zeros 16 ++ xdr_u32 1 ++
      xdr_u32 2 ++ ChannelAttrsArgs_encode fore_attrs ++ ChannelAttrsArgs_encode back_attrs
  | 2%nat => (* RECLAIM_COMPLETE: delayed *)
      xdr_u32 10008 ++ xdr_opaque [] ++ xdr_u32 2 ++ xdr_u32 53 ++ xdr_u32 0 ++
      sequence_wire (zeros 16) 1 0 63 63 0 ++ xdr_u32 58 ++ xdr_u32 10008
  | _ => (* RECLAIM_COMPLETE *)
      xdr_u32 0 ++ xdr_opaque [] ++ xdr_u32 2 ++ xdr_u32 53 ++ xdr_u32 0 ++
      sequence_wire (zeros 16) 2 0 63 63 0 ++ xdr_u32 58 ++ xdr_u32 0
  end.
Definition demo_call (st : nat) (_ : bytes) : result bytes * nat := (Ok (demo_reply st), S st).

Example establish_demo :
  match establish_budgeted demo_call new_null 1 (fun lo _ => lo)
          {| tl_budget := None; tl_caller := None |}
          (fun _ => {| now_entry := 1; now_armed := 1; now_after := 200; cancelled := false |}) 17
          (budget_new {| tl_budget := None; tl_caller := None |} 0) 0%nat
          {| ci_minor_version := V1; owner_id := of_str "nfs-rs"; verifier := zeros 8 |} with
  | Some (Ok s, 4%nat) =>
      (client_id s =? 9) && s_pnfs_mds s && (permits (slot_table s) =? 64) &&
      bool_decide (slots (slot_table s) !! 0%nat = Some 3)
  | _ => false
  end = true.
Proof. vm_compute. reflexivity. Qed.

(** Publishing a replacement session succeeds only on the generation it was
    built for; it then raises the generation by one (so a second replacement
    for the old generation is refused), and a refusal or a failing callback
    update leaves the published session untouched. *)
Theorem holder_replacement_once {Cb} (upd : Cb -> bytes -> Z -> Z -> Z -> Z -> result Cb)
    h cb expected s r h' cb' :
  0 <= expected < u64_max -> replace_if_current upd h cb expected s = (r, h', cb') ->
  match r with
  | Ok true => s_generation (inner h) = expected /\ s_generation (inner h') = expected + 1 /\
      session_id (inner h') = session_id s /\
      (forall s2, replace_if_current upd h' cb' expected s2 = (Ok false, h', cb'))
  | _ => h' = h /\ cb' = cb
  end.
Proof.
  intros He. unfold replace_if_current.
  destruct (Z.eqb_spec (s_generation (inner h)) expected) as [Hg|]; cbn [negb]; [|by intros [= <- <- <-]].
  destruct (upd _ _ _ _ _ _) as [cb1|e|]; intros [= <- <- <-]; try done.
  cbn [inner s_generation with_generation session_id]. unfold sat_add64.
  rewrite Z.min_l by lia. split_and!; try done.
  intros s2. destruct (Z.eqb_spec (expected + 1) expected); [lia|done].
Qed.

Definition demo_session : Session :=
  {| s_minor_version := V1; s_generation := 1; session_id := zeros 16; client_id := 1;
     slot_table := new 1; s_max_request_size := 4096; s_max_response_size := 4096;
     s_max_cached_response_size := 512; s_max_operations := 16; backchannel_max_requests := 1;
     backchannel_max_request_size := 4096; backchannel_max_operations := 2; s_pnfs_mds := false |}.

Lemma holder_replacement_once_witness :
  let upd := fun (cb : nat) (_ : bytes) (_ _ _ _ : Z) => Ok (S cb) in
  let h := holder_new demo_session in
  let h' := {| inner := with_generation demo_session 2; holder_pnfs_mds := false |} in
  s_generation (inner h) = 1 /\ s_generation (inner h') = 1 + 1 /\
  session_id (inner h') = session_id demo_session /\
  (forall s2, replace_if_current upd h' 1%nat 1 s2 = (Ok false, h', 1%nat)).
Proof.
  intros upd h h'.
  apply (holder_replacement_once upd h 0%nat 1 demo_session (Ok true) h' 1%nat);
    [unfold u64_max; lia|reflexivity].
Defined.
