(* ===== verification/Engine41.v ===== *)
(** * The COMPOUND engine

    Models the request engine of [src/src/nfs41/mount.rs]: one NFSv4.1 COMPOUND
    on a session slot, its size and operation limits, the SEQUENCE checks, the
    retries after server backpressure and session loss ([compound_budgeted]),
    the data-server variant ([compound_ds_budgeted]), and the reaction to the
    SEQUENCE status flags ([handle_seq_status]).

    Everything the engine shares with other tasks is reached through an
    interface, [Env]: the session holder, the slot tables, the RPC client, the
    retry budget and recovery. Its operations take and return an abstract state,
    so each of them may also include what other tasks do meanwhile. [EnvLaws] is
    what the engine relies on. The events the engine causes are recorded in a
    trace. *)
From S2P Require Import Prelude Errors Retry SlotTable Xdr4 Acl4 Compound41 Response41 Session.
From stdpp Require Import base list numbers strings.
#[local] Open Scope Z_scope.

Definition DELAY_RETRY_MAX : Z := MAX_RETRIES.
Definition RPC_CALL_PREFIX_SIZE : Z := 8.
Definition MIN_RPC_REPLY_ENVELOPE_SIZE : Z := 24.

(** ** Limits *)

Definition enforce_encoded_size (kind : string) (actual maximum : Z) : result () :=
  if maximum <? actual
  then Err (Rpc ("encoded COMPOUND " +:+ kind +:+ " size " +:+ fmtZ actual +:+
                 " exceeds channel maximum " +:+ fmtZ maximum))
  else Ok ().

(** [checked_add] chains on [usize]. *)
Definition checked_sum (l : list Z) : option Z :=
  foldl (fun acc x => match acc with Some a => checked_add64 a x | None => None end) (Some 0) l.

Definition enforce_request_size (s : Session) (header_len data_len : Z) : result () :=
  match checked_sum [header_len; RPC_CALL_PREFIX_SIZE; data_len; pad_len data_len] with
  | None => Err (Rpc "encoded COMPOUND request size overflow")
  | Some encoded => enforce_encoded_size "request" encoded (s_max_request_size s)
  end.

Definition enforce_response_size (s : Session) (response_len : Z) : result () :=
  match checked_add64 response_len MIN_RPC_REPLY_ENVELOPE_SIZE with
  | None => Err (Rpc "encoded COMPOUND response size overflow")
  | Some encoded => enforce_encoded_size "response" encoded (s_max_response_size s)
  end.

Definition enforce_response_operations (s : Session) (r : CompoundResponse) (requested : Z)
    : result () :=
  let n := Z.of_nat (length (results r)) in
  if (s_max_operations s <? n) || (requested <? n)
  then Err (Xdr ("COMPOUND response contains " +:+ fmtZ n +:+ " operations; requested " +:+
                 fmtZ requested +:+ ", channel maximum " +:+ fmtZ (s_max_operations s)))
  else Ok ().

(** ** Request identity and errors *)

(** Tags are ASCII literals of the callers: their characters are their bytes. *)
Definition request_context (tag : bytes) (s : Session) (slot_id sequence_id : Z) : RequestContext :=
  {| operation := to_str (firstn 64 tag);
     protocol := match s_minor_version s with V1 => NFSv4p1 | V2 => NFSv4p2 end;
     request_id := Some (Nfs41Session (session_id s) slot_id sequence_id) |}.

Definition sent_error (c : OperationClass) (ctx : RequestContext) (e : NfsError) : NfsError :=
  classify_sent_nfs41_error c ctx e.

Definition uncertain_error (c : OperationClass) (ctx : RequestContext) (e : NfsError) : NfsError :=
  OperationOutcome (OperationOutcomeError_new Uncertain c VerifyThenResume ctx e).

Definition stale_generation_error (c : OperationClass) (ctx : RequestContext) (required active : Z)
    : NfsError :=
  OperationOutcome (OperationOutcomeError_new DefiniteFailure c Reopen ctx
    (Rpc ("stale session generation " +:+ fmtZ required +:+ ", active " +:+ fmtZ active))).

(** ** SEQUENCE status flags *)

Definition SEQ4_STATUS_CB_PATH_DOWN : Z := 0x1.
Definition SEQ4_STATUS_EXPIRED_ALL_STATE_REVOKED : Z := 0x8.
Definition SEQ4_STATUS_EXPIRED_SOME_STATE_REVOKED : Z := 0x10.
Definition SEQ4_STATUS_ADMIN_STATE_REVOKED : Z := 0x20.
Definition SEQ4_STATUS_RECALLABLE_STATE_REVOKED : Z := 0x40.
Definition SEQ4_STATUS_RESTART_RECLAIM_NEEDED : Z := 0x100.
Definition SEQ4_STATUS_DEVID_CHANGED : Z := 0x800.
Definition SEQ4_STATUS_DEVID_DELETED : Z := 0x1000.

Definition SEQ4_STATUS_STATE_REVOKED : Z :=
  Z.lor (Z.lor (Z.lor SEQ4_STATUS_EXPIRED_ALL_STATE_REVOKED SEQ4_STATUS_EXPIRED_SOME_STATE_REVOKED)
    SEQ4_STATUS_ADMIN_STATE_REVOKED) SEQ4_STATUS_RECALLABLE_STATE_REVOKED.

(** What the client does about them; the backchannel and LEASE_MOVED flags are
    only logged. *)
Inductive SeqAction : Type := ClearState | ClearLayouts | SpawnReclaimComplete.
#[global] Instance SeqAction_eq_dec : EqDecision SeqAction.
Proof. solve_decision. Defined.

Definition has_flag (flags mask : Z) : bool := negb (Z.land flags mask =? 0).

Definition handle_seq_status (flags : Z) : list SeqAction :=
  if flags =? 0 then []
  else
    (if has_flag flags SEQ4_STATUS_STATE_REVOKED then [ClearState] else []) ++
    (if has_flag flags (Z.lor SEQ4_STATUS_DEVID_CHANGED SEQ4_STATUS_DEVID_DELETED)
     then [ClearLayouts] else []) ++
    (if has_flag flags SEQ4_STATUS_RESTART_RECLAIM_NEEDED
     then [ClearState; ClearLayouts; SpawnReclaimComplete] else []).

(** ** The interface to the rest of the mount *)

Record Env (St : Type) : Type := {
  get_session : St -> Session * St;
  acquire_slot : Session -> St -> result AcquiredSlot * St;
  sequence_now : Session -> AcquiredSlot -> St -> Z;
  highest_now : Session -> St -> Z;
  update_limits : Session -> Z -> Z -> St -> result () * St;
  advance_now : Session -> AcquiredSlot -> St -> St;
  drop_now : Session -> AcquiredSlot -> St -> St;
  rpc_call : bytes -> option bytes -> St -> result bytes * St;
  budget_backoff : RequestContext -> NfsError -> St -> result () * St;
  seq_action : SeqAction -> St -> St;
  establish : St -> result Session * St;
  (** [state.transition_to] and [layout_manager.transition_to]. *)
  transition : Z -> St -> St;
  publish_session : Z -> Session -> St -> result bool * St;
  (** [Display for NfsError], which only reaches error texts. *)
  show_error : NfsError -> string;
}.
Arguments get_session {St}. Arguments acquire_slot {St}. Arguments sequence_now {St}.
Arguments highest_now {St}. Arguments update_limits {St}. Arguments advance_now {St}.
Arguments drop_now {St}. Arguments rpc_call {St}. Arguments budget_backoff {St}.
Arguments seq_action {St}. Arguments establish {St}. Arguments transition {St}.
Arguments publish_session {St}. Arguments show_error {St}.

(** What happened, in order: a request sent under an identity with the outcome
    of its reply, a slot's sequence advanced, a slot given back or fenced. *)
Inductive event : Type :=
| EvSent (sid : bytes) (slot seq : Z) (b : CompoundBuilder) (payload : option bytes)
    (reply : result CompoundResponse)
| EvAdvanced (sid : bytes) (slot : Z)
| EvDropped (sid : bytes) (slot : Z) (d : SlotDisposition).

Definition with_session_generation (r : CompoundResponse) (g : Z) : CompoundResponse :=
  {| resp_tag := resp_tag r; resp_status := resp_status r; results := results r;
     session_generation := g |}.

Definition delay_or_grace (s : nfsstat4) : bool :=
  match s with NFS4ERR_DELAY | NFS4ERR_GRACE => true | _ => false end.
Definition session_lost (s : nfsstat4) : bool :=
  match s with NFS4ERR_BADSESSION | NFS4ERR_DEADSESSION | NFS4ERR_SEQ_MISORDERED => true
  | _ => false end.

(** The reply is a SEQUENCE alone, refused for the moment. *)
Definition sequence_busy (r : CompoundResponse) : bool :=
  match results r with
  | [op] => (op_opcode op =? op_u32 OpNum.Sequence) && delay_or_grace (op_status op) &&
            bool_decide (resp_status r = op_status op)
  | _ => false
  end.

Section Engine.
Context {St : Type} (env : Env St) (auth : Auth).

(** The engine's state: the shared state and the trace. *)
Abbreviation W := (St * list event)%type.
Definition emit (e : event) (w : W) : W := (w.1, w.2 ++ [e]).
Definition on {A : Type} (f : St -> A * St) (w : W) : A * W :=
  let '(a, st) := f w.1 in (a, (st, w.2)).
Definition on_ (f : St -> St) (w : W) : W := (f w.1, w.2).

Definition give_back (s : Session) (slot : AcquiredSlot) (w : W) : W :=
  on_ (drop_now env s slot) (emit (EvDropped (session_id s) (slot_id slot) (disposition slot)) w).

(** What a request in flight carries: fixed for all its transmissions. *)
Record request : Type := {
  rq_session : Session;
  rq_seq : Z;
  rq_builder : CompoundBuilder;
  rq_class : OperationClass;
  rq_context : RequestContext;
  rq_payload : option bytes;
}.

(** One transmission and the checks on its reply. *)
Definition transmit (q : request) (slot : AcquiredSlot) (w : W) : result CompoundResponse * W :=
  let s := rq_session q in
  let wrap := sent_error (rq_class q) (rq_context q) in
  let buf := encode_with_header (rq_builder q) auth (s_minor_version s) in
  let '(r, w) := on (rpc_call env buf (rq_payload q)) w in
  let reply :=
    let* reply := map_err wrap r in
    let* _ := map_err wrap (enforce_response_size s (remaining reply)) in
    let* (d, _) := map_err wrap (decode_response reply) in
    let* _ := map_err wrap (enforce_response_operations s d (op_count (rq_builder q))) in
    Ok d in
  (reply, emit (EvSent (session_id s) (slot_id slot) (rq_seq q) (rq_builder q) (rq_payload q) reply) w).

(** The inner loop: retransmit on the same slot while the server refuses the
    SEQUENCE itself. [None] when the fuel runs out. *)
Fixpoint exchange (fuel : nat) (q : request) (slot : AcquiredSlot) (w : W)
    : option (result CompoundResponse * AcquiredSlot * W) :=
  match fuel with
  | O => None
  | S fuel =>
      let slot := if bool_decide (rq_class q = ReadOnly) then slot else fence_on_drop slot in
      let '(r, w) := transmit q slot w in
      match r with
      | Ok d =>
          if sequence_busy d then
            let slot := resolve slot in
            let '(r, w) := on (budget_backoff env (rq_context q) (Nfs4 (resp_status d))) w in
            match r with
            | Ok _ => exchange fuel q slot w
            | Err e => Some (Err e, slot, w)
            | Panic => Some (Panic, slot, w)
            end
          else Some (Ok d, slot, w)
      | _ => Some (r, slot, w)
      end
  end.

(** How a turn of the outer loop ends. *)
Inductive turn_result : Type :=
| Return (r : result CompoundResponse)
| Reissue (attempt : Z).

Definition return_after (s : Session) (slot : AcquiredSlot) (r : result CompoundResponse) (w : W)
    : turn_result * W := (Return r, give_back s slot w).

Definition apply_status (flags : Z) (w : W) : W :=
  foldl (fun w a => on_ (seq_action env a) w) w (handle_seq_status flags).

(** The reply's SEQUENCE: its identity is checked before the slot's limits or
    sequence change. *)
Definition check_sequence (q : request) (slot : AcquiredSlot) (resp : CompoundResponse) (w : W)
    : result (option SequenceResult) * W :=
  let s := rq_session q in
  match results resp with
  | op :: _ =>
      if (op_opcode op =? op_u32 OpNum.Sequence) && bool_decide (op_status op = NFS4_OK) then
        match validate_sequence_result op (session_id s) (rq_seq q) (slot_id slot) with
        | Ok sq =>
            let '(r, w) := on (update_limits env s (sr_highest_slot_id sq)
                                 (sr_target_highest_slot_id sq)) w in
            match r with
            | Ok _ => (Ok (Some sq),
                       on_ (advance_now env s slot) (emit (EvAdvanced (session_id s) (slot_id slot)) w))
            | Err e => (Err e, w)
            | Panic => (Panic, w)
            end
        | Err e => (Err e, w)
        | Panic => (Panic, w)
        end
      else (Ok None, w)
  | [] => (Ok None, w)
  end.

(** Recovery after the session was lost; the slot is already given back. *)
Definition recover (s : Session) (attempt : Z) (w : W) : turn_result * W :=
  let expected := s_generation s in
  let '(current, w) := on (get_session env) w in
  if negb (s_generation current =? expected) then (Reissue attempt, w)
  else
    let '(r, w) := on (establish env) w in
    match r with
    | Err e => (Return (Err (Rpc ("session re-establishment failed: " +:+ show_error env e))), w)
    | Panic => (Return Panic, w)
    | Ok fresh =>
        let w := on_ (transition env (sat_add64 expected 1)) w in
        let '(r, w) := on (publish_session env expected fresh) w in
        match r with
        | Ok true => (Reissue attempt, w)
        | Ok false => (Return (Err (Rpc "session generation changed during recovery publication")), w)
        | Err e => (Return (Err e), w)
        | Panic => (Return Panic, w)
        end
    end.

(** A reply that says DELAY or GRACE after the SEQUENCE. *)
Definition settle_busy (q : request) (slot : AcquiredSlot) (resp : CompoundResponse) (attempt : Z)
    (w : W) : turn_result * W :=
  let s := rq_session q in
  let slot := resolve slot in
  match can_retry_busy (rq_builder q) resp with
  | Err e => return_after s slot (Err (sent_error (rq_class q) (rq_context q) e)) w
  | Panic => return_after s slot Panic w
  | Ok false =>
      return_after s slot
        (Err (uncertain_error (rq_class q) (rq_context q) (Nfs4 (resp_status resp)))) w
  | Ok true =>
      let w := give_back s slot w in
      let '(r, w) := on (budget_backoff env (rq_context q) (Nfs4 (resp_status resp))) w in
      match r with
      | Ok _ => (Reissue attempt, w)
      | Err e => (Return (Err e), w)
      | Panic => (Return Panic, w)
      end
  end.

(** An error that ends the operation. *)
Definition settle_error (q : request) (slot : AcquiredSlot) (e : NfsError) (w : W)
    : turn_result * W :=
  let e := sent_error (rq_class q) (rq_context q) e in
  let slot := match operation_outcome e with None => resolve slot | Some _ => slot end in
  return_after (rq_session q) slot (Err e) w.

(** [op_ok(index).is_ok()] for the optional progress index. *)
Definition progressed (progress : option nat) (resp : CompoundResponse) : bool :=
  match progress with
  | Some i => is_ok (op_ok resp i)
  | None => false
  end.

(** Everything after the inner loop delivered a reply. *)
Definition settle (q : request) (progress : option nat) (slot : AcquiredSlot)
    (resp : CompoundResponse) (attempt : Z) (w : W) : turn_result * W :=
  let s := rq_session q in
  let wrap := sent_error (rq_class q) (rq_context q) in
  let resp := with_session_generation resp (s_generation s) in
  let '(sq, w) := check_sequence q slot resp w in
  match sq with
  | Err e => return_after s (fence_on_drop slot) (Err (wrap e)) w
  | Panic => return_after s slot Panic w
  | Ok sq =>
      match sq, progressed progress resp with
      | Some sq, true => return_after s (resolve slot) (Ok resp) (apply_status (sr_status_flags sq) w)
      | _, _ =>
          match check_resp_status resp with
          | Err (Nfs4 st as e) =>
              if delay_or_grace st then settle_busy q slot resp attempt w
              else if session_lost st && requires_original_session (rq_builder q)
              then return_after s slot (Err (uncertain_error (rq_class q) (rq_context q) e)) w
              else if session_lost st && (attempt <? DELAY_RETRY_MAX)
              then recover s (attempt + 1) (give_back s (resolve slot) w)
              else settle_error q slot e w
          | Err e => settle_error q slot e w
          | Panic => return_after s slot Panic w
          | Ok _ =>
              match op_ok resp 0 with
              | Err e => return_after s slot (Err (wrap e)) w
              | Panic => return_after s slot Panic w
              | Ok _ =>
                  let w := match sq with Some sq => apply_status (sr_status_flags sq) w | None => w end in
                  return_after s (resolve slot) (Ok resp) w
              end
          end
      end
  end.

(** The checks before the first transmission. The builder carries the reply
    cache policy of the session. *)
Definition prepare (s : Session) (b : CompoundBuilder) (payload : option bytes)
    : result CompoundBuilder :=
  let* b := apply_sequence_cache_policy b (s_max_cached_response_size s) in
  let* _ := enforce_max_operations b (s_max_operations s) in
  let* _ := enforce_request_size s (remaining (encode_with_header b auth (s_minor_version s)))
              (match payload with Some d => remaining d | None => 0 end) in
  Ok b.

(** A turn once the slot is held and the generation is accepted. *)
Definition turn_body (fuel : nat) (s : Session) (slot : AcquiredSlot) (seq : Z)
    (b : CompoundBuilder) (ctx : RequestContext) (payload : option bytes) (progress : option nat)
    (attempt : Z) (w : W) : option (turn_result * W) :=
  match prepare s b payload with
  | Err e => Some (return_after s slot (Err e) w)
  | Panic => Some (return_after s slot Panic w)
  | Ok b =>
      let q := {| rq_session := s; rq_seq := seq; rq_builder := b; rq_class := operation_class_of b;
                  rq_context := ctx; rq_payload := payload |} in
      match exchange fuel q slot w with
      | None => None
      | Some (Ok resp, slot, w) => Some (settle q progress slot resp attempt w)
      | Some (r, slot, w) => Some (return_after s slot r w)
      end
  end.

(** One turn of the outer loop. *)
Definition turn (fuel : nat) (tag : bytes) (payload : option bytes) (progress : option nat)
    (build_ops : CompoundBuilder -> CompoundBuilder) (attempt : Z) (w : W)
    : option (turn_result * W) :=
  let '(s, w) := on (get_session env) w in
  let '(r, w) := on (acquire_slot env s) w in
  match r with
  | Err e => Some (Return (Err e), w)
  | Panic => Some (Return Panic, w)
  | Ok slot =>
      let seq := sequence_now env s slot w.1 in
      let b := build_ops (sequence (session_id s) seq (slot_id slot) (highest_now env s w.1)
                            (builder_new tag)) in
      let ctx := request_context tag s (slot_id slot) seq in
      let stale := match required_generation b with
                   | Some required => if negb (required =? s_generation s) then Some required else None
                   | None => None
                   end in
      match stale with
      | Some required =>
          Some (return_after s slot
            (Err (stale_generation_error (operation_class_of b) ctx required (s_generation s))) w)
      | None => turn_body fuel s slot seq b ctx payload progress attempt w
      end
  end.

(** [compound_budgeted]; [None] when the fuel runs out. *)
Fixpoint compound_loop (fuel : nat) (tag : bytes) (payload : option bytes) (progress : option nat)
    (build_ops : CompoundBuilder -> CompoundBuilder) (attempt : Z) (w : W)
    : option (result CompoundResponse * W) :=
  match fuel with
  | O => None
  | S fuel' =>
      match turn fuel tag payload progress build_ops attempt w with
      | None => None
      | Some (Return r, w) => Some (r, w)
      | Some (Reissue attempt, w) => compound_loop fuel' tag payload progress build_ops attempt w
      end
  end.

Definition compound_budgeted (fuel : nat) (tag : bytes) (payload : option bytes)
    (progress : option nat) (build_ops : CompoundBuilder -> CompoundBuilder) (st : St)
    : option (result CompoundResponse * W) :=
  compound_loop fuel tag payload progress build_ops 0 (st, []).

(** *** Data servers *)

(** [compound_ds_budgeted] after the inner loop. *)
Definition ds_settle (q : request) (slot : AcquiredSlot) (resp : CompoundResponse) (w : W)
    : turn_result * W :=
  let s := rq_session q in
  let wrap := sent_error (rq_class q) (rq_context q) in
  let resp := with_session_generation resp (s_generation s) in
  match op_ok resp 0 with
  | Err e => settle_error q slot e w
  | Panic => return_after s slot Panic w
  | Ok op =>
      match validate_sequence_result op (session_id s) (sequence_now env s slot w.1) (slot_id slot) with
      | Err e => return_after s (fence_on_drop slot) (Err (wrap e)) w
      | Panic => return_after s slot Panic w
      | Ok sq =>
          let '(r, w) := on (update_limits env s (sr_highest_slot_id sq)
                               (sr_target_highest_slot_id sq)) w in
          match r with
          | Err e => return_after s (fence_on_drop slot) (Err (wrap e)) w
          | Panic => return_after s slot Panic w
          | Ok _ =>
              let w := on_ (advance_now env s slot) (emit (EvAdvanced (session_id s) (slot_id slot)) w) in
              match check_resp_status resp with
              | Err e => if is_server_busy e then settle_busy q slot resp 0 w else settle_error q slot e w
              | Panic => return_after s slot Panic w
              | Ok _ => return_after s (resolve slot) (Ok resp) w
              end
          end
      end
  end.

Definition ds_turn (fuel : nat) (s : Session) (tag : bytes) (payload : option bytes)
    (build_ops : CompoundBuilder -> CompoundBuilder) (w : W) : option (turn_result * W) :=
  let '(r, w) := on (acquire_slot env s) w in
  match r with
  | Err e => Some (Return (Err e), w)
  | Panic => Some (Return Panic, w)
  | Ok slot =>
      let seq := sequence_now env s slot w.1 in
      let b := build_ops (sequence (session_id s) seq (slot_id slot) (highest_now env s w.1)
                            (builder_new tag)) in
      match prepare s b payload with
      | Err e => Some (return_after s slot (Err e) w)
      | Panic => Some (return_after s slot Panic w)
      | Ok b =>
          let q := {| rq_session := s; rq_seq := seq; rq_builder := b;
                      rq_class := operation_class_of b;
                      rq_context := request_context tag s (slot_id slot) seq;
                      rq_payload := Some (default [] payload) |} in
          match exchange fuel q slot w with
          | None => None
          | Some (Ok resp, slot, w) => Some (ds_settle q slot resp w)
          | Some (r, slot, w) => Some (return_after s slot r w)
          end
      end
  end.

Fixpoint compound_ds_budgeted (fuel : nat) (s : Session) (tag : bytes) (payload : option bytes)
    (build_ops : CompoundBuilder -> CompoundBuilder) (w : W) : option (result CompoundResponse * W) :=
  match fuel with
  | O => None
  | S fuel' =>
      match ds_turn fuel s tag payload build_ops w with
      | None => None
      | Some (Return r, w) => Some (r, w)
      | Some (Reissue _, w) => compound_ds_budgeted fuel' s tag payload build_ops w
      end
  end.
End Engine.

(** ** What the engine relies on *)

(** A retry budget that every accepted backoff spends and nothing refills (a
    nested [establish] shares it), and slots that are handed out unfenced. *)
Class EnvLaws {St : Type} (env : Env St) : Type := {
  budget_left : St -> nat;
  backoff_spends : forall ctx e st u st',
    budget_backoff env ctx e st = (Ok u, st') -> (budget_left st' < budget_left st)%nat;
  get_session_budget : forall st, (budget_left (snd (get_session env st)) <= budget_left st)%nat;
  acquire_budget : forall s st, (budget_left (snd (acquire_slot env s st)) <= budget_left st)%nat;
  limits_budget : forall s h t st, (budget_left (snd (update_limits env s h t st)) <= budget_left st)%nat;
  advance_budget : forall s sl st, (budget_left (advance_now env s sl st) <= budget_left st)%nat;
  drop_budget : forall s sl st, (budget_left (drop_now env s sl st) <= budget_left st)%nat;
  call_budget : forall b p st, (budget_left (snd (rpc_call env b p st)) <= budget_left st)%nat;
  action_budget : forall a st, (budget_left (seq_action env a st) <= budget_left st)%nat;
  establish_budget : forall st, (budget_left (snd (establish env st)) <= budget_left st)%nat;
  transition_budget : forall g st, (budget_left (transition env g st) <= budget_left st)%nat;
  publish_budget : forall g s st, (budget_left (snd (publish_session env g s st)) <= budget_left st)%nat;
  acquire_released : forall s st slot st',
    acquire_slot env s st = (Ok slot, st') -> disposition slot = Release;
}.

(** ** The abstract protocol

    An automaton over events that says what one operation may do: send under one
    identity, send the identical request again only while the server refuses its
    SEQUENCE, advance the slot on a validated SEQUENCE, give an answered slot
    back without an advance only for a reason that [unadvanced] allows, and start
    over under another identity only after a reply that excludes a completed
    mutation. *)

(** The reply starts with a SEQUENCE that succeeded. *)
Definition sequence_acknowledged (d : CompoundResponse) : bool :=
  match results d with
  | op :: _ => (op_opcode op =? op_u32 OpNum.Sequence) && bool_decide (op_status op = NFS4_OK)
  | [] => false
  end.

(** The reply reports every replay-sensitive operation as not done. *)
Definition nothing_mutated (b : CompoundBuilder) (d : CompoundResponse) : Prop :=
  forall i q p, ops b !! i = Some q -> results d !! i = Some p -> op_status p = NFS4_OK ->
    class (opcode q) <> ReplaySensitive.

(** The session was lost, and the request holds no operation that is bound to
    its session. *)
Definition lost_session (b : CompoundBuilder) (d : CompoundResponse) : Prop :=
  session_lost (resp_status d) = true /\ requires_original_session b = false.

Definition may_reissue (b : CompoundBuilder) (d : CompoundResponse) : Prop :=
  nothing_mutated b d \/ lost_session b d.

Inductive astate : Type :=
| AIdle
| ASent (sid : bytes) (slot seq : Z) (b : CompoundBuilder) (p : option bytes)
    (reply : result CompoundResponse)
| AAdvanced (sid : bytes) (slot : Z) (b : CompoundBuilder) (d : CompoundResponse)
| AEnd.

Section Protocol.
(** When the slot of an answered request may be given back, in the given way,
    although its sequence number was not advanced. *)
Context (unadvanced : bytes -> Z -> Z -> CompoundBuilder -> CompoundResponse -> SlotDisposition -> Prop).

Inductive spec_step : astate -> event -> astate -> Prop :=
| sp_send sid slot seq b p r : spec_step AIdle (EvSent sid slot seq b p r) (ASent sid slot seq b p r)
| sp_resend sid slot seq b p d r : sequence_busy d = true ->
    spec_step (ASent sid slot seq b p (Ok d)) (EvSent sid slot seq b p r) (ASent sid slot seq b p r)
| sp_advance sid slot seq b p d op rest sq :
    results d = op :: rest -> validate_sequence_result op sid seq slot = Ok sq ->
    spec_step (ASent sid slot seq b p (Ok d)) (EvAdvanced sid slot) (AAdvanced sid slot b d)
| sp_refuse sid slot : spec_step AIdle (EvDropped sid slot Release) AEnd
| sp_lost sid slot seq b p r : is_ok r = false ->
    spec_step (ASent sid slot seq b p r)
      (EvDropped sid slot (if bool_decide (operation_class_of b = ReadOnly) then Release else Fence)) AEnd
| sp_done sid slot seq b p d x : unadvanced sid slot seq b d x ->
    spec_step (ASent sid slot seq b p (Ok d)) (EvDropped sid slot x) AEnd
| sp_done_advanced sid slot b d x : spec_step (AAdvanced sid slot b d) (EvDropped sid slot x) AEnd
| sp_reissue sid slot seq b p d : unadvanced sid slot seq b d Release -> may_reissue b d ->
    spec_step (ASent sid slot seq b p (Ok d)) (EvDropped sid slot Release) AIdle
| sp_reissue_advanced sid slot b d : may_reissue b d ->
    spec_step (AAdvanced sid slot b d) (EvDropped sid slot Release) AIdle.

Inductive spec_run : astate -> list event -> astate -> Prop :=
| run_nil s : spec_run s [] s
| run_step s e s' tr s'' : spec_step s e s' -> spec_run s' tr s'' -> spec_run s (e :: tr) s''.

Lemma spec_run_app s tr s' tr' s'' :
  spec_run s tr s' -> spec_run s' tr' s'' -> spec_run s (tr ++ tr') s''.
Proof. induction 1; cbn; [done|]. intros. econstructor; eauto. Qed.

Lemma spec_run_one s e s' : spec_step s e s' -> spec_run s [e] s'.
Proof. intros. econstructor; [done|constructor]. Qed.

(** *** Consequences of the protocol *)

Definition is_send (e : event) : bool := match e with EvSent _ _ _ _ _ _ => true | _ => false end.

Definition excludes_mutation (b : CompoundBuilder) (r : result CompoundResponse) : Prop :=
  exists d, r = Ok d /\ (sequence_busy d = true \/ may_reissue b d).

Lemma no_send_after_end tr s : spec_run AEnd tr s -> tr = [].
Proof. inversion 1 as [|? ? ? ? ? Hs]; [done|]. inversion Hs. Qed.

Lemma advanced_then_send sid slot b d tr s :
  spec_run (AAdvanced sid slot b d) tr s -> existsb is_send tr = true -> may_reissue b d.
Proof.
  inversion 1 as [|? ? ? ? ? Hs Hr]; subst; [done|]. inversion Hs; subst; [|done].
  apply no_send_after_end in Hr. subst. done.
Qed.

Lemma sent_then_send sid slot seq b p r tr s :
  spec_run (ASent sid slot seq b p r) tr s -> existsb is_send tr = true -> excludes_mutation b r.
Proof.
  inversion 1 as [|? ? ? ? ? Hs Hr]; subst; [done|]. unfold excludes_mutation.
  inversion Hs; subst; cbn [existsb is_send orb]; intros He; eauto.
  - eapply advanced_then_send in Hr; eauto.
  - apply no_send_after_end in Hr. by subst.
  - apply no_send_after_end in Hr. by subst.
Qed.

Lemma spec_run_at s l e l' s' :
  spec_run s (l ++ e :: l') s' -> exists s1 s2, spec_step s1 e s2 /\ spec_run s2 l' s'.
Proof.
  revert s. induction l as [|x l IH]; intros s; cbn; inversion 1; subst; eauto.
Qed.

Lemma send_state s1 sid slot seq b p r s2 :
  spec_step s1 (EvSent sid slot seq b p r) s2 -> s2 = ASent sid slot seq b p r.
Proof. by inversion 1. Qed.

Lemma unanswered_is_dropped sid slot seq b p r tr s :
  spec_run (ASent sid slot seq b p r) tr s -> is_ok r = false ->
  tr = [] \/ (tr = [EvDropped sid slot (if bool_decide (operation_class_of b = ReadOnly)
                                       then Release else Fence)] /\ s = AEnd).
Proof.
  inversion 1 as [|? ? ? ? ? Hs Hr]; subst; [by left|]. intros Hk.
  inversion Hs; subst; try done. pose proof (no_send_after_end _ _ Hr). subst. inversion Hr. by right.
Qed.

(** [w'] continues [w] by events that take the automaton from [a] to [a']. *)
Definition ext {St : Type} (a : astate) (w : St * list event) (a' : astate) (w' : St * list event) : Prop :=
  exists evs, w'.2 = w.2 ++ evs /\ spec_run a evs a'.

Lemma ext_same {St} a (w w' : St * list event) : w'.2 = w.2 -> ext a w a w'.
Proof using. intros Hw. exists []. rewrite Hw, app_nil_r. split; [done|constructor]. Qed.

Lemma ext_trans {St} a (w : St * list event) a' w' a'' w'' : ext a w a' w' -> ext a' w' a'' w'' -> ext a w a'' w''.
Proof using.
  intros (e1 & H1 & R1) (e2 & H2 & R2). exists (e1 ++ e2). rewrite H2, H1, app_assoc.
  split; [done|by eapply spec_run_app].
Qed.

Lemma ext_one {St} a (w : St * list event) a' w' e : w'.2 = w.2 ++ [e] -> spec_step a e a' -> ext a w a' w'.
Proof using. intros H1 H2. exists [e]. split; [done|by apply spec_run_one]. Qed.

Lemma give_back_ext {St} (env : Env St) a s slot w a' :
  spec_step a (EvDropped (session_id s) (slot_id slot) (disposition slot)) a' ->
  ext a w a' (give_back env s slot w).
Proof using. intros. by eapply ext_one. Qed.
End Protocol.

(** The engine gives an answered slot back without an advance only when the
    server did not accept the SEQUENCE, or, fenced, when the accepted SEQUENCE
    does not carry the identity that was sent or the slot limits it announces
    are refused. *)
Definition unadvanced {St} (env : Env St) (sid : bytes) (slot seq : Z) (b : CompoundBuilder)
    (d : CompoundResponse) (x : SlotDisposition) : Prop :=
  sequence_acknowledged d = false \/
  exists op rest, results d = op :: rest /\
    match validate_sequence_result op sid seq slot with
    | Ok sq => exists s st, session_id s = sid /\
        match (update_limits env s (sr_highest_slot_id sq) (sr_target_highest_slot_id sq) st).1 with
        | Ok _ => False
        | Err _ => x = Fence
        | Panic => True
        end
    | Err _ => x = Fence
    | Panic => False
    end.

(** ** The engine implements the protocol *)

Section Refinement.
Context {St : Type} (env : Env St) `{!EnvLaws env} (auth : Auth).
#[local] Notation ext := (ext (unadvanced env)).
#[local] Notation spec_step := (spec_step (unadvanced env)).

Lemma on_trace {A} (f : St -> A * St) w a w' : on f w = (a, w') -> w'.2 = w.2.
Proof using. unfold on. destruct (f w.1). by intros [= _ <-]. Qed.

Lemma apply_status_trace flags w : (apply_status env flags w).2 = w.2.
Proof using.
  unfold apply_status. revert w. induction (handle_seq_status flags) as [|a l IH]; intros w; cbn; [done|].
  by rewrite IH.
Qed.

(** The automaton's state after the request's latest transmission. *)
Abbreviation sent q slot r :=
  (ASent (session_id (rq_session q)) (slot_id slot) (rq_seq q) (rq_builder q) (rq_payload q) r).

Definition ready_to_send (q : request) (slot : AcquiredSlot) (a : astate) : Prop :=
  a = AIdle \/ exists d, a = sent q slot (Ok d) /\ sequence_busy d = true.

Lemma sequence_busy_refused d : sequence_busy d = true -> sequence_acknowledged d = false.
Proof using.
  unfold sequence_busy, sequence_acknowledged. destruct (results d) as [|op [|]]; [done| |done].
  intros [[_ H]%andb_true_iff _]%andb_true_iff. apply andb_false_iff. right.
  apply bool_decide_eq_false_2. intros E. by rewrite E in H.
Qed.

(** How the inner loop leaves the slot. *)
Definition exchange_post (q : request) (r reply : result CompoundResponse) (slot' : AcquiredSlot) : Prop :=
  (is_ok reply = false /\ r = reply /\
   disposition slot' = (if bool_decide (rq_class q = ReadOnly) then Release else Fence)) \/
  (exists d, reply = Ok d /\ r = Ok d /\ sequence_busy d = false) \/
  (exists d, reply = Ok d /\ is_ok r = false /\ sequence_busy d = true).

Lemma exchange_ext fuel q : forall slot a w r slot' w',
  ready_to_send q slot a -> disposition slot = Release ->
  exchange env auth fuel q slot w = Some (r, slot', w') ->
  exists reply, ext a w (sent q slot reply) w' /\ slot_id slot' = slot_id slot /\
    exchange_post q r reply slot'.
Proof using.
  induction fuel as [|fuel IH]; intros slot a w r slot' w' Ha Hd; cbn [exchange]; [done|].
  set (slot1 := if bool_decide (rq_class q = ReadOnly) then slot else fence_on_drop slot).
  assert (Hid : slot_id slot1 = slot_id slot) by (unfold slot1; by case_bool_decide).
  assert (Hdd : disposition slot1 = if bool_decide (rq_class q = ReadOnly) then Release else Fence)
    by (unfold slot1; by case_bool_decide).
  destruct (transmit env auth q slot1 w) as [reply w1] eqn:Et.
  assert (Hw1 : ext a w (sent q slot reply) w1).
  { unfold transmit in Et. destruct (on _ w) as [r0 w0] eqn:Eo. apply on_trace in Eo.
    injection Et as <- <-. rewrite Hid. eapply ext_one.
    - cbn. by rewrite Eo.
    - destruct Ha as [->|(d & -> & Hb)]; by constructor. }
  destruct reply as [d|e|].
  2,3: intros [= <- <- <-]; eexists; split_and!; [exact Hw1|done|by left].
  destruct (sequence_busy d) eqn:Hb.
  - destruct (on _ w1) as [r1 w2] eqn:Eo. apply on_trace in Eo.
    assert (Hw2 : ext a w (sent q slot (Ok d)) w2) by (eapply ext_trans; [exact Hw1|by apply ext_same]).
    destruct r1 as [u|e|].
    2,3: intros [= <- <- <-]; eexists; split_and!; [exact Hw2|done|right; right; by exists d].
    intros Hx. apply (IH _ (sent q (resolve slot1) (Ok d))) in Hx as (reply & Hr & Hi & Hp).
    2:{ right. eauto. } 2:{ done. }
    cbn [slot_id resolve] in *. rewrite Hid in *. exists reply. split_and!; [by eapply ext_trans|done|done].
  - intros [= <- <- <-]. eexists. split_and!; [exact Hw1|done|right; left; by exists d].
Qed.

(** The automaton's state once the reply's SEQUENCE is checked: the slot is
    advanced, or may be given back as it is, [fenced] when it has to be. *)
Definition after_sequence (q : request) (slot : AcquiredSlot) (d : CompoundResponse) (fenced : bool)
    (a : astate) : Prop :=
  a = AAdvanced (session_id (rq_session q)) (slot_id slot) (rq_builder q) d \/
  a = sent q slot (Ok d) /\
  forall x, (fenced = true -> x = Fence) ->
    unadvanced env (session_id (rq_session q)) (slot_id slot) (rq_seq q) (rq_builder q) d x.

Definition is_err {A} (r : result A) : bool := match r with Err _ => true | _ => false end.

Lemma validate_sequence_no_panic op sid seq slot : validate_sequence_result op sid seq slot <> Panic.
Proof using. eapply wpo_no_panic, wpo_validate_sequence. Qed.

Lemma check_sequence_ext q slot d g w r w' :
  check_sequence env q slot (with_session_generation d g) w = (r, w') ->
  exists a, after_sequence q slot d (is_err r) a /\ ext (sent q slot (Ok d)) w a w'.
Proof using.
  unfold check_sequence. cbn [results with_session_generation].
  assert (Hsame : forall (r : result (option SequenceResult)) (w1 : St * list event), w1.2 = w.2 ->
    (forall x, (is_err r = true -> x = Fence) ->
      unadvanced env (session_id (rq_session q)) (slot_id slot) (rq_seq q) (rq_builder q) d x) ->
    exists a, after_sequence q slot d (is_err r) a /\ ext (sent q slot (Ok d)) w a w1).
  { intros r1 w1 Hw Hu. eexists. split; [by right|by apply ext_same]. }
  unfold unadvanced, sequence_acknowledged in Hsame.
  destruct (results d) as [|op rest] eqn:Er; [intros [= <- <-]; apply Hsame; auto|].
  destruct (_ && _); [|intros [= <- <-]; apply Hsame; auto].
  destruct (validate_sequence_result op _ _ _) as [sq|e|] eqn:Ev.
  2: { intros [= <- <-]. apply Hsame; [done|]. intros x Hx. right. exists op, rest. rewrite Ev. auto. }
  2: by apply validate_sequence_no_panic in Ev.
  destruct (on _ w) as [r0 w0] eqn:Eo. pose proof (on_trace _ _ _ _ Eo) as Et.
  unfold on in Eo. destruct (update_limits env _ _ _ w.1) as [r1 st1] eqn:El. injection Eo as <- <-.
  destruct r1; intros [= <- <-].
  - exists (AAdvanced (session_id (rq_session q)) (slot_id slot) (rq_builder q) d). split; [by left|].
    eapply ext_one; [done|]. by apply (sp_advance _ _ _ _ _ _ _ op rest sq).
  - apply Hsame; [done|]. intros x Hx. right. exists op, rest. split; [done|]. rewrite Ev.
    exists (rq_session q), w.1. rewrite El. split; [done|by apply Hx].
  - apply Hsame; [done|]. intros x Hx. right. exists op, rest. split; [done|]. rewrite Ev.
    exists (rq_session q), w.1. by rewrite El.
Qed.

Lemma drop_ends q slot d f a x :
  after_sequence q slot d f a -> (f = true -> x = Fence) ->
  spec_step a (EvDropped (session_id (rq_session q)) (slot_id slot) x) AEnd.
Proof using. intros [->|[-> Hu]] Hx; constructor. by apply Hu. Qed.

Lemma drop_reissues q slot d a :
  after_sequence q slot d false a -> may_reissue (rq_builder q) d ->
  spec_step a (EvDropped (session_id (rq_session q)) (slot_id slot) Release) AIdle.
Proof using. intros [->|[-> Hu]] ?; constructor; [done| |done]. by apply Hu. Qed.

(** What a turn of the loop guarantees: it can start over only from [AIdle]. *)
Definition turn_post (a : astate) (w : St * list event) (t : turn_result) (w' : St * list event) : Prop :=
  exists a', ext a w a' w' /\ match t with Return _ => a' = AEnd \/ a' = AIdle | Reissue _ => a' = AIdle end.

Lemma return_after_post q slot d f a slot' r w :
  after_sequence q slot d f a -> slot_id slot' = slot_id slot -> (f = true -> disposition slot' = Fence) ->
  turn_post a w (return_after env (rq_session q) slot' r w).1 (return_after env (rq_session q) slot' r w).2.
Proof using.
  intros Ha Hi Hf. exists AEnd. split; [|by left]. apply give_back_ext. rewrite Hi. by eapply drop_ends.
Qed.

Lemma turn_post_ext a w a' w' t w'' : ext a w a' w' -> turn_post a' w' t w'' -> turn_post a w t w''.
Proof using. intros H1 (a2 & H2 & H3). exists a2. split; [by eapply ext_trans|done]. Qed.

Lemma settle_busy_post q slot d g attempt a w t w' :
  after_sequence q slot d false a ->
  settle_busy env q slot (with_session_generation d g) attempt w = (t, w') -> turn_post a w t w'.
Proof using.
  intros Ha. unfold settle_busy.
  change (can_retry_busy (rq_builder q) (with_session_generation d g)) with (can_retry_busy (rq_builder q) d).
  assert (Hret : forall r t w', return_after env (rq_session q) (resolve slot) r w = (t, w') -> turn_post a w t w').
  { intros r t0 w0 E. pose proof (return_after_post q slot d false a (resolve slot) r w Ha eq_refl) as H. rewrite E in H. by apply H. }
  destruct (can_retry_busy (rq_builder q) d) as [[|]|e|] eqn:Ec; [|by apply Hret..].
  assert (Hm : may_reissue (rq_builder q) d).
  { left. intros i qq p Hq Hp Hs. destruct (can_retry_busy_scan _ _ _ Ec) as [[H _] _]. by eapply H. }
  destruct (on _ (give_back _ _ _ w)) as [r1 w1] eqn:Eo. apply on_trace in Eo.
  assert (He : ext a w AIdle w1).
  { eapply ext_trans; [apply (give_back_ext _ env _ (rq_session q) (resolve slot)); by eapply drop_reissues|].
    by apply ext_same. }
  destruct r1; intros [= <- <-]; exists AIdle; auto.
Qed.

Lemma recover_trace s attempt w t w' : recover env s attempt w = (t, w') -> w'.2 = w.2.
Proof using.
  unfold recover. destruct (on (get_session env) w) as [c w1] eqn:E1. apply on_trace in E1.
  destruct (negb _); [by intros [= _ <-]|].
  destruct (on (establish env) w1) as [r w2] eqn:E2. apply on_trace in E2.
  destruct r; [|intros [= _ <-]; congruence..].
  destruct (on _ (on_ _ w2)) as [r w3] eqn:E3. apply on_trace in E3. cbn in E3.
  destruct r as [[]| |]; intros [= _ <-]; congruence.
Qed.

Lemma settle_error_post q slot d a e w t w' :
  after_sequence q slot d false a -> settle_error env q slot e w = (t, w') -> turn_post a w t w'.
Proof using.
  intros Ha. unfold settle_error. set (slot' := match operation_outcome _ with None => _ | Some _ => _ end).
  intros E. pose proof (return_after_post q slot d false a slot' (Err (sent_error (rq_class q) (rq_context q) e)) w Ha) as H.
  rewrite E in H. apply H; [|done]. unfold slot'. by destruct (operation_outcome _).
Qed.

Lemma settle_post q progress slot d attempt w t w' :
  settle env q progress slot d attempt w = (t, w') -> turn_post (sent q slot (Ok d)) w t w'.
Proof using.
  unfold settle. destruct (check_sequence _ _ _ _ _) as [sq w1] eqn:Ec.
  destruct (check_sequence_ext _ _ _ _ _ _ _ Ec) as (a & Ha & He).
  intros E. eapply turn_post_ext; [exact He|]. revert E.
  assert (Hret : forall slot' r w2 t w', slot_id slot' = slot_id slot -> w2.2 = w1.2 ->
    (is_err sq = true -> disposition slot' = Fence) ->
    return_after env (rq_session q) slot' r w2 = (t, w') -> turn_post a w1 t w').
  { intros slot' r w2 t0 w0 Hi Hw Hf E. eapply turn_post_ext; [by apply ext_same|].
    pose proof (return_after_post q slot d _ a slot' r w2 Ha Hi Hf) as H. by rewrite E in H. }
  destruct sq as [sq|e|]; [|by apply Hret..].
  assert (Hrest : forall t w', match check_resp_status (with_session_generation d (s_generation (rq_session q))) with
    | Err (Nfs4 st as e) =>
        if delay_or_grace st then settle_busy env q slot (with_session_generation d (s_generation (rq_session q))) attempt w1
        else if session_lost st && requires_original_session (rq_builder q)
        then return_after env (rq_session q) slot (Err (uncertain_error (rq_class q) (rq_context q) e)) w1
        else if session_lost st && (attempt <? DELAY_RETRY_MAX)
        then recover env (rq_session q) (attempt + 1) (give_back env (rq_session q) (resolve slot) w1)
        else settle_error env q slot e w1
    | Err e => settle_error env q slot e w1
    | Panic => return_after env (rq_session q) slot Panic w1
    | Ok _ =>
        match op_ok (with_session_generation d (s_generation (rq_session q))) 0 with
        | Err e => return_after env (rq_session q) slot (Err (sent_error (rq_class q) (rq_context q) e)) w1
        | Panic => return_after env (rq_session q) slot Panic w1
        | Ok _ =>
            let w := match sq with Some sq => apply_status env (sr_status_flags sq) w1 | None => w1 end in
            return_after env (rq_session q) (resolve slot) (Ok (with_session_generation d (s_generation (rq_session q)))) w
        end
    end = (t, w') -> turn_post a w1 t w').
  { clear t w'. intros t w'. unfold check_resp_status. cbn [resp_status with_session_generation].
    case_bool_decide as Hs.
    - destruct (op_ok _ 0); [|by apply Hret..]. cbv zeta. apply Hret; [done| |done].
      destruct sq; [apply apply_status_trace|done].
    - destruct (delay_or_grace (resp_status d)); [by apply settle_busy_post|].
      destruct (session_lost (resp_status d) && requires_original_session (rq_builder q)) eqn:Eo; [by apply Hret|].
      destruct (session_lost (resp_status d) && (attempt <? DELAY_RETRY_MAX)) eqn:El;
        [|by eapply settle_error_post].
      intros E. pose proof (recover_trace _ _ _ _ _ E) as Ht.
      apply andb_true_iff in El as [El _]. rewrite El in Eo. cbn in Eo.
      exists AIdle. split; [|by destruct t; auto].
      eapply ext_trans; [|by apply ext_same].
      apply (give_back_ext _ env _ (rq_session q) (resolve slot)). eapply drop_reissues; [done|]. by right. }
  destruct sq as [sq|]; [|by apply Hrest].
  destruct (progressed progress _); [|by apply Hrest].
  apply Hret; [done|apply apply_status_trace|done].
Qed.

Lemma return_idle s slot r w :
  disposition slot = Release -> turn_post AIdle w (Return r) (give_back env s slot w).
Proof using.
  intros Hd. exists AEnd. split; [|by left]. apply give_back_ext. rewrite Hd. constructor.
Qed.

Lemma exchange_error_post q slot w reply slot' r w' :
  ext AIdle w (sent q slot reply) w' -> slot_id slot' = slot_id slot -> is_ok r = false ->
  rq_class q = operation_class_of (rq_builder q) -> exchange_post q r reply slot' ->
  turn_post AIdle w (Return r) (give_back env (rq_session q) slot' w').
Proof using.
  intros He Hi Hr Hc Hp. exists AEnd. split; [|by left]. eapply ext_trans; [exact He|].
  apply give_back_ext. rewrite Hi. destruct Hp as [(Hk & -> & ->)|[(d & -> & -> & _)|(d & -> & _ & Hb)]].
  - rewrite Hc. by constructor.
  - done.
  - constructor. left. by apply sequence_busy_refused.
Qed.

Lemma turn_body_post fuel s slot seq b ctx payload progress attempt w t w' :
  disposition slot = Release ->
  turn_body env auth fuel s slot seq b ctx payload progress attempt w = Some (t, w') ->
  turn_post AIdle w t w'.
Proof using.
  intros Hd. unfold turn_body. destruct (prepare _ _ _ _) as [b'|e|].
  2,3: intros [= <- <-]; by apply return_idle.
  set (q := Build_request _ _ _ _ _ _).
  destruct (exchange env auth fuel q slot w) as [[[r slot'] w1]|] eqn:Ex; [|done].
  eapply (exchange_ext _ q slot AIdle) in Ex as (reply & He & Hi & Hp); [|by left|done].
  destruct r as [d|e|].
  - destruct Hp as [(Hk & Hx & _)|[(d0 & -> & [= ->] & _)|(d0 & _ & Hk & _)]]; [by subst| |done].
    intros [= E]. eapply turn_post_ext; [exact He|]. rewrite <- Hi. by eapply settle_post.
  - intros [= <- <-]. by eapply (exchange_error_post q slot).
  - intros [= <- <-]. by eapply (exchange_error_post q slot).
Qed.

Lemma turn_ext fuel tag payload progress build_ops attempt w t w' :
  turn env auth fuel tag payload progress build_ops attempt w = Some (t, w') -> turn_post AIdle w t w'.
Proof using EnvLaws0.
  unfold turn. destruct (on (get_session env) w) as [s w1] eqn:E1. pose proof (on_trace _ _ _ _ E1) as T1.
  destruct (on (acquire_slot env s) w1) as [r w2] eqn:E2. pose proof (on_trace _ _ _ _ E2) as T2.
  assert (He : ext AIdle w AIdle w2) by (apply ext_same; congruence).
  destruct r as [slot|e|].
  2,3: intros [= <- <-]; exists AIdle; auto.
  assert (Hd : disposition slot = Release).
  { unfold on in E2. destruct (acquire_slot env s w1.1) as [r0 st0] eqn:Ea. injection E2 as -> <-.
    by eapply acquire_released. }
  intros E. eapply turn_post_ext; [exact He|]. revert E. cbv zeta.
  destruct (match required_generation _ with Some _ => _ | None => _ end).
  - intros [= <- <-]. by apply return_idle.
  - by apply turn_body_post.
Qed.

Lemma compound_loop_ext fuel tag payload progress build_ops : forall attempt w r w',
  compound_loop env auth fuel tag payload progress build_ops attempt w = Some (r, w') ->
  exists a, ext AIdle w a w' /\ (a = AEnd \/ a = AIdle).
Proof using EnvLaws0.
  induction fuel as [|fuel IH]; intros attempt w r w'; cbn [compound_loop]; [done|].
  destruct (turn _ _ _ _ _ _ _ _ _) as [[t w1]|] eqn:Et; [|done].
  apply turn_ext in Et as (a & He & Ha). destruct t as [r0|attempt'].
  - intros [= <- <-]. eauto.
  - subst. intros E. apply IH in E as (a' & He' & Ha'). exists a'. split; [by eapply ext_trans|done].
Qed.
End Refinement.

(** ** The engine terminates *)

Section Termination.
Context {St : Type} (env : Env St) `{!EnvLaws env} (auth : Auth).

Abbreviation left w := (budget_left (fst w)).

Lemma on_left {A} (f : St -> A * St) w a w' :
  (forall st, (budget_left (snd (f st)) <= budget_left st)%nat) -> on f w = (a, w') -> (left w' <= left w)%nat.
Proof using.
  intros Hf. unfold on. specialize (Hf w.1). destruct (f w.1). by intros [= _ <-].
Qed.

Lemma backoff_left ctx e w r w' :
  on (budget_backoff env ctx e) w = (Ok r, w') -> (left w' < left w)%nat.
Proof using.
  unfold on. destruct (budget_backoff _ _ _ _) eqn:E. intros [= -> <-]. by eapply backoff_spends.
Qed.

Lemma give_back_left s slot w : (left (give_back env s slot w) <= left w)%nat.
Proof using. cbn. apply drop_budget. Qed.

Lemma transmit_left q slot w r w' : transmit env auth q slot w = (r, w') -> (left w' <= left w)%nat.
Proof using.
  unfold transmit. destruct (on _ w) as [r0 w0] eqn:E. intros [= _ <-]. cbn.
  eapply on_left in E; [done|]. intros. apply call_budget.
Qed.

(** Either the loop ends, or it leaves the budget at most as it was. *)
Lemma exchange_total fuel q : forall slot w, (left w < fuel)%nat ->
  exists r slot' w', exchange env auth fuel q slot w = Some (r, slot', w') /\
    (is_ok r = true -> left w' <= left w)%nat.
Proof using.
  induction fuel as [|fuel IH]; intros slot w Hf; [lia|]. cbn [exchange].
  set (slot1 := if bool_decide _ then slot else _).
  destruct (transmit env auth q slot1 w) as [reply w1] eqn:Et. apply transmit_left in Et.
  destruct reply as [d|e|]; [|by repeat eexists..].
  destruct (sequence_busy d); [|eexists _, _, _; split; [done|lia]].
  destruct (on _ w1) as [[u|e|] w2] eqn:Eo; [|by repeat eexists..].
  apply backoff_left in Eo. destruct (IH (resolve slot1) w2) as (r & s' & w' & -> & Hl); [lia|].
  eexists _, _, _. split; [done|]. intros Hk. specialize (Hl Hk). lia.
Qed.

Definition measure (attempt : Z) (w : St * list event) : Z :=
  Z.of_nat (left w) + (DELAY_RETRY_MAX - attempt).

(** A turn that starts over has less left, and a legal attempt number. *)
Definition shrinks (attempt : Z) (w : St * list event) (t : turn_result) (w' : St * list event) : Prop :=
  match t with
  | Return _ => True
  | Reissue attempt' => measure attempt' w' < measure attempt w /\ attempt' <= DELAY_RETRY_MAX
  end.

Lemma recover_shrinks s attempt w t w' w0 :
  attempt < DELAY_RETRY_MAX -> (left w <= left w0)%nat ->
  recover env s (attempt + 1) w = (t, w') -> shrinks attempt w0 t w'.
Proof using.
  intros Ha Hw. unfold recover.
  destruct (on (get_session env) w) as [c w1] eqn:E1. apply on_left in E1; [|apply get_session_budget].
  destruct (negb _); [intros [= <- <-]; cbn; unfold measure; lia|].
  destruct (on (establish env) w1) as [r w2] eqn:E2. apply on_left in E2; [|apply establish_budget].
  destruct r; [|by intros [= <- <-]..].
  destruct (on _ (on_ _ w2)) as [r w3] eqn:E3. apply on_left in E3; [|intros; apply publish_budget].
  assert (left (on_ (transition env (sat_add64 (s_generation s) 1)) w2) <= left w2)%nat by apply transition_budget.
  destruct r as [[]| |]; intros [= <- <-]; cbn; try done. unfold measure. lia.
Qed.

Lemma settle_busy_shrinks q slot resp attempt w t w' w0 :
  attempt <= DELAY_RETRY_MAX -> (left w <= left w0)%nat ->
  settle_busy env q slot resp attempt w = (t, w') -> shrinks attempt w0 t w'.
Proof using.
  intros Ha Hw. unfold settle_busy. destruct (can_retry_busy _ _) as [[]| |].
  2-4: by intros [= <- <-].
  pose proof (give_back_left (rq_session q) (resolve slot) w).
  destruct (on _ (give_back _ _ _ w)) as [r1 w1] eqn:Eo.
  destruct r1; [|by intros [= <- <-]..]. apply backoff_left in Eo.
  intros [= <- <-]. cbn. unfold measure. lia.
Qed.

Lemma check_sequence_left q slot resp w r w' :
  check_sequence env q slot resp w = (r, w') -> (left w' <= left w)%nat.
Proof using.
  unfold check_sequence. destruct (results resp); [by intros [= _ <-]|].
  destruct (_ && _); [|by intros [= _ <-]].
  destruct (validate_sequence_result _ _ _ _); [|by intros [= _ <-]..].
  destruct (on _ w) as [r0 w0] eqn:Eo. apply on_left in Eo; [|intros; apply limits_budget].
  destruct r0; intros [= _ <-]; cbn; [|done..]. etrans; [apply advance_budget|done].
Qed.

Lemma settle_error_return q slot e w : exists r, (settle_error env q slot e w).1 = Return r.
Proof using. by eexists. Qed.

Lemma settle_shrinks q progress slot resp attempt w t w' :
  attempt <= DELAY_RETRY_MAX ->
  settle env q progress slot resp attempt w = (t, w') -> shrinks attempt w t w'.
Proof using.
  intros Ha. unfold settle. destruct (check_sequence _ _ _ _ _) as [sq w1] eqn:Ec.
  apply check_sequence_left in Ec. destruct sq as [sq|e|]; [|by intros [= <- <-]..].
  assert (Hg : forall s sl r w2 t w', return_after env s sl r w2 = (t, w') -> shrinks attempt w t w')
    by (by intros * [= <- <-]).
  unfold check_resp_status. cbn [resp_status with_session_generation].
  destruct sq as [sq|]; [destruct (progressed _ _); [by apply Hg|]|].
  all: case_bool_decide; [destruct (op_ok _ 0); by apply Hg|].
  all: destruct (delay_or_grace _); [by apply settle_busy_shrinks|].
  all: destruct (_ && requires_original_session _); [by apply Hg|].
  all: destruct (_ && (attempt <? DELAY_RETRY_MAX)) eqn:E; [|by apply Hg].
  all: apply andb_true_iff in E as [_ E]; apply Z.ltb_lt in E.
  all: apply recover_shrinks; [done|]; etrans; [apply give_back_left|done].
Qed.

Lemma turn_total fuel tag payload progress build_ops attempt w :
  (left w < fuel)%nat -> attempt <= DELAY_RETRY_MAX ->
  exists t w', turn env auth fuel tag payload progress build_ops attempt w = Some (t, w') /\
    shrinks attempt w t w'.
Proof using.
  intros Hf Ha. unfold turn.
  destruct (on (get_session env) w) as [s w1] eqn:E1. apply on_left in E1; [|apply get_session_budget].
  destruct (on (acquire_slot env s) w1) as [r w2] eqn:E2. apply on_left in E2; [|apply acquire_budget].
  destruct r as [slot|e|]; [|by repeat eexists..]. cbv zeta.
  destruct (match required_generation _ with Some _ => _ | None => _ end); [by repeat eexists|].
  unfold turn_body. destruct (prepare _ _ _ _) as [b|e|]; [|by repeat eexists..].
  set (q := Build_request _ _ _ _ _ _).
  destruct (exchange_total fuel q slot w2) as (r & slot' & w3 & -> & Hl); [lia|].
  destruct r as [d|e|]; [|by repeat eexists..].
  destruct (settle env q progress slot' d attempt w3) as [t w'] eqn:Es.
  exists t, w'. split; [done|]. apply settle_shrinks in Es; [|done]. specialize (Hl eq_refl).
  destruct t; [done|]. unfold shrinks, measure in *. lia.
Qed.

Lemma compound_loop_total fuel tag payload progress build_ops : forall attempt w,
  attempt <= DELAY_RETRY_MAX -> measure attempt w < Z.of_nat fuel ->
  exists r w', compound_loop env auth fuel tag payload progress build_ops attempt w = Some (r, w').
Proof using.
  induction fuel as [|fuel IH]; intros attempt w Ha Hm; [unfold measure in Hm; lia|].
  cbn [compound_loop].
  destruct (turn_total (S fuel) tag payload progress build_ops attempt w) as (t & w' & -> & Hs);
    [unfold measure in Hm; lia|done|].
  destruct t as [r|attempt']; [by repeat eexists|]. destruct Hs as [Hs Ha'].
  apply IH; [done|lia].
Qed.
End Termination.

(** ** One task on one mount

    The interface instantiated by the models of the other components: the slot
    table of [SlotTable], the holder of [Session] and the budget of [Retry]. The
    network is a script of replies, and the clock stands still. *)

Record Local : Type := {
  lc_holder : SessionHolder;
  lc_budget : Budget;
  lc_replies : list (result bytes);
  lc_sessions : list (result Session);
}.

Definition lc_set_table (st : Local) (t : SlotTable) : Local :=
  {| lc_holder := {| inner := with_table (inner (lc_holder st)) t;
                     holder_pnfs_mds := holder_pnfs_mds (lc_holder st) |};
     lc_budget := lc_budget st; lc_replies := lc_replies st; lc_sessions := lc_sessions st |}.
Definition lc_table (st : Local) : SlotTable := slot_table (inner (lc_holder st)).

Definition still_clock : Observed :=
  {| now_entry := 0; now_armed := 0; now_after := 0; cancelled := false |}.
Definition no_locals : TaskLocals := {| tl_budget := None; tl_caller := None |}.

Definition lc_acquire (_ : Session) (st : Local) : result AcquiredSlot * Local :=
  match acquire_round (lc_table st) with
  | Some (Ok (slot, t)) => (Ok slot, lc_set_table st t)
  | Some (Err e) => (Err e, st)
  | Some Panic => (Panic, st)
  | None => (Err (Rpc "blocked"), st)
  end.

Definition lc_limits (_ : Session) (highest target : Z) (st : Local) : result () * Local :=
  match update_sequence_slot_limits (lc_table st) highest target with
  | Ok t => (Ok (), lc_set_table st t)
  | Err e => (Err e, st)
  | Panic => (Panic, st)
  end.

Definition lc_call (_ : bytes) (_ : option bytes) (st : Local) : result bytes * Local :=
  match lc_replies st with
  | [] => (Err (Io ConnectionReset (IoMessage "connection lost")), st)
  | r :: rest => (r, {| lc_holder := lc_holder st; lc_budget := lc_budget st; lc_replies := rest;
                        lc_sessions := lc_sessions st |})
  end.

Definition lc_backoff (ctx : RequestContext) (e : NfsError) (st : Local) : result () * Local :=
  let '(r, b) := backoff (fun lo _ => lo) no_locals (lc_budget st) ctx e still_clock in
  (let* _ := r in Ok (), {| lc_holder := lc_holder st; lc_budget := b; lc_replies := lc_replies st;
                            lc_sessions := lc_sessions st |}).

Definition lc_establish (st : Local) : result Session * Local :=
  match lc_sessions st with
  | [] => (Err (Rpc "server unreachable"), st)
  | r :: rest => (r, {| lc_holder := lc_holder st; lc_budget := lc_budget st;
                        lc_replies := lc_replies st; lc_sessions := rest |})
  end.

Definition lc_publish (expected : Z) (s : Session) (st : Local) : result bool * Local :=
  let '(r, h, _) := replace_if_current (fun (_ : ()) _ _ _ _ _ => Ok ()) (lc_holder st) () expected s in
  (r, {| lc_holder := h; lc_budget := lc_budget st; lc_replies := lc_replies st;
         lc_sessions := lc_sessions st |}).

Definition local_env : Env Local := {|
  get_session st := (inner (lc_holder st), st);
  acquire_slot := lc_acquire;
  sequence_now _ slot st := default 0 (current_sequence_id (lc_table st) slot);
  highest_now _ st := highest_slot_id (lc_table st);
  update_limits := lc_limits;
  advance_now _ slot st := lc_set_table st (advance_slot (lc_table st) slot);
  drop_now _ slot st := lc_set_table st (drop_slot (lc_table st) slot);
  rpc_call := lc_call;
  budget_backoff := lc_backoff;
  seq_action _ st := st;
  establish := lc_establish;
  transition _ st := st;
  publish_session := lc_publish;
  show_error _ := "error";
|}.

Definition lc_left (st : Local) : nat := Z.to_nat (MAX_RETRIES - retries (lc_budget st)).

Lemma lc_acquire_budget s st : lc_budget (snd (lc_acquire s st)) = lc_budget st.
Proof. unfold lc_acquire. by destruct (acquire_round _) as [[[] | |]|]. Qed.

Lemma lc_acquire_released s st slot st' :
  lc_acquire s st = (Ok slot, st') -> disposition slot = Release.
Proof.
  unfold lc_acquire, acquire_round. destruct (sem_acquire _) as [[t| |]|]; try done.
  destruct (pool_take _ _) as [[id pool]|]; [|done]. unfold acquired.
  destruct (slot_mask id); [|done]. cbv zeta.
  destruct (slots _ !! _); [|done]. by intros [= <- _].
Qed.

#[global] Instance local_laws : EnvLaws local_env.
Proof.
  refine {| budget_left := lc_left |}; unfold lc_left; cbn.
  - intros ctx e st u st' E. unfold lc_backoff in E.
    destruct (backoff _ _ _ _ _ _) as [r b] eqn:Eb.
    unfold backoff in Eb. destruct (_ <=? _); [by injection Eb as <- <-|].
    destruct (Z.ltb_spec (retries (lc_budget st)) MAX_RETRIES); [|by injection Eb as <- <-].
    cbn [negb] in Eb. injection Eb as _ <-. injection E as _ <-. cbn. lia.
  - done.
  - intros s st. by rewrite lc_acquire_budget.
  - intros s h t st. unfold lc_limits. by destruct (update_sequence_slot_limits _ _ _).
  - done.
  - done.
  - intros b p st. unfold lc_call. by destruct (lc_replies st).
  - done.
  - intros st. unfold lc_establish. by destruct (lc_sessions st).
  - done.
  - intros g s st. unfold lc_publish. by destruct (replace_if_current _ _ _ _ _) as [[r h] c].
  - apply lc_acquire_released.
Defined.

(** A session with one slot, and the replies to a COMPOUND that removes a file:
    the server delays it, then refuses the SEQUENCE once, then the connection
    is lost. *)
Definition demo_session : Session :=
  {| s_minor_version := V1; s_generation := 1; session_id := zeros 16; client_id := 7;
     slot_table := new 1; s_max_request_size := 4096; s_max_response_size := 4096;
     s_max_cached_response_size := 4096; s_max_operations := 16; backchannel_max_requests := 1;
     backchannel_max_request_size := 4096; backchannel_max_operations := 2; s_pnfs_mds := false |}.

Definition reply_sequence_ok (seq : Z) : bytes :=
  be_bytes 4 53 ++ be_bytes 4 0 ++ zeros 16 ++ be_bytes 4 seq ++ be_bytes 4 0 ++ be_bytes 4 0 ++
  be_bytes 4 0 ++ be_bytes 4 0.
Definition reply_header (status n : Z) : bytes := be_bytes 4 status ++ be_bytes 4 0 ++ be_bytes 4 n.
(** SEQUENCE and PUTFH succeed, REMOVE is delayed (10008). *)
Definition reply_delayed : bytes :=
  reply_header 10008 3 ++ reply_sequence_ok 1 ++ be_bytes 4 22 ++ be_bytes 4 0 ++
  be_bytes 4 28 ++ be_bytes 4 10008.
(** The SEQUENCE alone is refused with NFS4ERR_DELAY. *)
Definition reply_sequence_refused : bytes :=
  reply_header 10008 1 ++ be_bytes 4 53 ++ be_bytes 4 10008.

Definition demo_local : Local :=
  {| lc_holder := {| inner := demo_session; holder_pnfs_mds := false |};
     lc_budget := budget_new no_locals 0;
     lc_replies := [Ok reply_delayed; Ok reply_sequence_refused];
     lc_sessions := [] |}.

Definition demo_ops (b : CompoundBuilder) : CompoundBuilder :=
  Compound41.remove (of_str "f") (putfh (of_str "root") b).

Definition demo_run : option (result CompoundResponse * (Local * list event)) :=
  compound_budgeted local_env new_null 33 (of_str "remove") None None demo_ops demo_local.
Definition demo_trace : list event := match demo_run with Some (_, (_, tr)) => tr | None => [] end.

(** The run: advance and release after the delayed reply, two transmissions
    under the next sequence number, and the slot fenced when no answer comes. *)
Definition event_digest (e : event) : Z * Z * bool :=
  match e with
  | EvSent _ _ seq _ _ r => (0, seq, is_ok r)
  | EvAdvanced _ slot => (1, slot, true)
  | EvDropped _ slot d => (2, slot, bool_decide (d = Release))
  end.

Example demo_trace_digest :
  map event_digest demo_trace =
  [(0, 1, true); (1, 0, true); (2, 0, true); (0, 2, true); (0, 2, false); (2, 0, false)].
Proof. vm_compute. reflexivity. Qed.

(** ** Properties of the engine *)

Lemma sequence_busy_nothing_mutated b d : sequence_busy d = true -> nothing_mutated b d.
Proof.
  unfold sequence_busy. destruct (results d) as [|op [|op' l]] eqn:Er; [done| |done].
  intros H. apply andb_true_iff in H as [H _]. apply andb_true_iff in H as [_ H].
  intros i q p _ Hp Hs. rewrite Er in Hp. destruct i; [|done]. cbn in Hp. simplify_eq.
  by rewrite Hs in H.
Qed.

Section Properties.
Context {St : Type} (env : Env St) `{!EnvLaws env} (auth : Auth).
Context (fuel : nat) (tag : bytes) (payload : option bytes) (progress : option nat).
Context (build_ops : CompoundBuilder -> CompoundBuilder) (st : St).

Lemma compound_trace r st' tr :
  compound_budgeted env auth fuel tag payload progress build_ops st = Some (r, (st', tr)) ->
  exists a, spec_run (unadvanced env) AIdle tr a /\ (a = AEnd \/ a = AIdle).
Proof using EnvLaws0.
  intros E. destruct (compound_loop_ext env auth _ _ _ _ _ _ _ _ _ E) as (a & (evs & Ht & Hr) & Ha).
  cbn in Ht. subst. eauto.
Qed.
End Properties.



(** C1: an operation is never sent again after it may have changed the file
    system: every transmission but the last has a decoded reply, and that reply
    either reports no replay-sensitive operation as completed, or says that the
    whole session is gone while the request holds no operation that is bound to
    its session. *)
Theorem no_completed_mutation_resent {St} (env : Env St) `{!EnvLaws env} auth fuel tag payload
    progress build_ops st r st' tr before sid slot seq b p reply later :
  compound_budgeted env auth fuel tag payload progress build_ops st = Some (r, (st', tr)) ->
  tr = before ++ EvSent sid slot seq b p reply :: later -> existsb is_send later = true ->
  exists d, reply = Ok d /\ (nothing_mutated b d \/ lost_session b d).
Proof.
  intros E -> Hs. destruct (compound_trace env auth _ _ _ _ _ _ _ _ _ E) as (a & Hr & _).
  apply spec_run_at in Hr as (s1 & s2 & H1 & H2). apply send_state in H1. subst.
  apply sent_then_send in H2 as (d & -> & Hd); [|done]. exists d. split; [done|].
  destruct Hd as [Hd|Hd]; [left; by apply sequence_busy_nothing_mutated|done].
Qed.

Lemma demo_run_some : exists r st',
  compound_budgeted local_env new_null 33 (of_str "remove") None None demo_ops demo_local =
  Some (r, (st', demo_trace)).
Proof. unfold demo_trace, demo_run. vm_compute. by eexists _, _. Qed.

Lemma no_completed_mutation_resent_witness :
  exists sid slot seq b p reply d,
    demo_trace !! 0%nat = Some (EvSent sid slot seq b p reply) /\
    reply = Ok d /\ (nothing_mutated b d \/ lost_session b d).
Proof.
  destruct demo_run_some as (r & st' & E).
  assert (H : exists sid slot seq b p reply later,
    demo_trace = [] ++ EvSent sid slot seq b p reply :: later /\ existsb is_send later = true)
    by (vm_compute; by repeat eexists).
  destruct H as (sid & slot & seq & b & p & reply & later & Ht & Hl).
  destruct (no_completed_mutation_resent local_env new_null 33 (of_str "remove") None None demo_ops
              demo_local r st' demo_trace [] sid slot seq b p reply later E Ht Hl) as (d & Hd & Hm).
  exists sid, slot, seq, b, p, reply, d. split; [rewrite Ht; reflexivity|]. split; assumption.
Defined.

(** C3: when a request that is not read-only gets no usable reply, it is the
    last transmission of the operation and its slot is fenced: the sequence
    number whose outcome is unknown is never handed to another request. *)
Theorem unanswered_mutation_fences_slot {St} (env : Env St) `{!EnvLaws env} auth fuel tag payload
    progress build_ops st r st' tr before sid slot seq b p reply later :
  compound_budgeted env auth fuel tag payload progress build_ops st = Some (r, (st', tr)) ->
  tr = before ++ EvSent sid slot seq b p reply :: later ->
  is_ok reply = false -> operation_class_of b <> ReadOnly ->
  later = [EvDropped sid slot Fence].
Proof.
  intros E -> Hk Hc. destruct (compound_trace env auth _ _ _ _ _ _ _ _ _ E) as (a & Hr & Ha).
  apply spec_run_at in Hr as (s1 & s2 & H1 & H2). apply send_state in H1. subst.
  pose proof H2 as H3. apply unanswered_is_dropped in H3 as [->|[-> _]]; [|by rewrite bool_decide_eq_false_2|done].
  inversion H2; subst. by destruct Ha.
Qed.

Lemma unanswered_mutation_fences_slot_witness :
  last demo_trace = Some (EvDropped (zeros 16) 0 Fence).
Proof.
  destruct demo_run_some as (r & st' & E).
  assert (H : exists before seq b p reply later,
    demo_trace = before ++ EvSent (zeros 16) 0 seq b p reply :: later /\
    is_ok reply = false /\ operation_class_of b <> ReadOnly).
  { exists (firstn 4 demo_trace). vm_compute. repeat eexists. discriminate. }
  destruct H as (before & seq & b & p & reply & later & Ht & Hk & Hc).
  rewrite (unanswered_mutation_fences_slot local_env new_null 33 (of_str "remove") None None demo_ops
              demo_local r st' demo_trace before (zeros 16) 0 seq b p reply later E Ht Hk Hc) in Ht.
  rewrite Ht, last_app. reflexivity.
Defined.

(** C4: every operation of the engine ends: with one unit of fuel more than the
    retries left in the budget and the 16 session recoveries allowed, the loops
    return a result whatever the server answers. *)
Theorem compound_terminates {St} (env : Env St) `{!EnvLaws env} auth fuel tag payload progress
    build_ops st :
  Z.of_nat (budget_left st) + DELAY_RETRY_MAX < Z.of_nat fuel ->
  exists r st' tr,
    compound_budgeted env auth fuel tag payload progress build_ops st = Some (r, (st', tr)).
Proof.
  intros Hf. destruct (compound_loop_total env auth fuel tag payload progress build_ops 0 (st, []))
    as (r & [st' tr] & E).
  - unfold DELAY_RETRY_MAX, MAX_RETRIES. lia.
  - unfold measure. cbn. lia.
  - by exists r, st', tr.
Qed.

Lemma compound_terminates_witness :
  exists r st' tr,
    compound_budgeted local_env new_null 33 (of_str "remove") None None demo_ops demo_local =
    Some (r, (st', tr)).
Proof. apply (compound_terminates local_env). vm_compute. reflexivity. Defined.
