(* ===== verification/Layout.v ===== *)
(** * pNFS layouts: wire formats and striping

    Models the data types, decoders and striping arithmetic of
    [src/src/nfs41/layout.rs]: LAYOUTGET replies and the split of a byte range
    into stripe chunks. *)
From S2P Require Import Prelude Errors Xdr4.
From stdpp Require Import base list numbers strings countable.
#[local] Open Scope Z_scope.

(** ** Data *)

Inductive LayoutType : Type := NfsV41Files | Osd2Objects | BlockVolume.
#[global] Instance LayoutType_eq_dec : EqDecision LayoutType.
Proof. solve_decision. Defined.

Inductive IoMode : Type := IoRead | IoReadWrite.
#[global] Instance IoMode_eq_dec : EqDecision IoMode.
Proof. solve_decision. Defined.

Record FilesLayout : Type := {
  device_id : bytes;
  stripe_unit : Z;
  is_dense : bool;
  commit_thru_mds : bool;
  first_stripe_index : Z;
  pattern_offset : Z;
  fh_list : list bytes;
}.

Inductive LayoutContent : Type :=
| Files (f : FilesLayout)
| OpaqueContent (b : bytes).

Record LayoutSegment : Type := {
  seg_offset : Z;
  seg_length : Z;
  iomode : IoMode;
  layout_type : LayoutType;
  content : LayoutContent;
}.

Record Layout : Type := {
  lo_generation : Z;
  lo_stateid : bytes;
  return_on_close : bool;
  segments : list LayoutSegment;
}.

(** [std::net::SocketAddr]: IPv4 addresses as 32-bit, IPv6 as 128-bit words. *)
Inductive SocketAddr : Type :=
| V4 (ip port : Z)
| V6 (ip port : Z).
#[global] Instance SocketAddr_eq_dec : EqDecision SocketAddr.
Proof. solve_decision. Defined.
#[global] Instance SocketAddr_countable : Countable SocketAddr.
Proof.
  refine (inj_countable'
    (fun a => match a with V4 i p => inl (i, p) | V6 i p => inr (i, p) end)
    (fun x => match x with inl (i, p) => V4 i p | inr (i, p) => V6 i p end) _).
  by intros [].
Defined.

Record DeviceInfo : Type := {
  stripe_indices : list Z;
  ds_addrs : list (list SocketAddr);
}.

Record StripeChunk : Type := { ds_index : Z; file_offset : Z; ck_ds_offset : Z; ck_length : Z }.

(** ** Segments *)

Definition covers (s : LayoutSegment) (offset : Z) : bool :=
  (seg_offset s <=? offset) &&
  ((seg_length s =? u64_max) ||
   match checked_add64 (seg_offset s) (seg_length s) with
   | None => true
   | Some e => offset <? e
   end).

Definition segment_end (s : LayoutSegment) : Z :=
  if seg_length s =? u64_max then u64_max else sat_add64 (seg_offset s) (seg_length s).

Definition layout_segments_overlap (left right : LayoutSegment) : bool :=
  (seg_offset left <? segment_end right) && (seg_offset right <? segment_end left).

(** ** LAYOUTGET *)

Definition NFL4_UFLG_DENSE : Z := 1.
Definition NFL4_UFLG_COMMIT_THRU_MDS : Z := 2.
Definition NFL4_UFLG_STRIPE_UNIT_SIZE_MASK : Z := 4294967232.

Definition decode_fh (data : bytes) : result (bytes * bytes) :=
  let* _ := require 4 (Xdr "files_layout fh truncated") data in
  let* (fh_len, data) := get_u32 data in
  let* _ := require (padded fh_len) (Xdr "files_layout fh data truncated") data in
  let* fh := slice_to fh_len data in
  let* data := advance (padded fh_len) data in
  Ok (fh, data).

Definition decode_files_layout (data : bytes) : result FilesLayout :=
  let* _ := require 16 (Xdr "files_layout deviceid truncated") data in
  let* (dev, data) := split_to 16 data in
  let* _ := require 4 (Xdr "files_layout nfl_util truncated") data in
  let* (nfl_util, data) := get_u32 data in
  let* _ := require 4 (Xdr "files_layout first_stripe_index truncated") data in
  let* (first, data) := get_u32 data in
  let* _ := require 8 (Xdr "files_layout pattern_offset truncated") data in
  let* (pattern, data) := get_u64 data in
  let* _ := require 4 (Xdr "files_layout fh_list length truncated") data in
  let* (num_fhs, data) := get_u32 data in
  if 4096 <? num_fhs
  then Err (Xdr ("files_layout has " +:+ fmtZ num_fhs +:+ " FHs, max 4096"))
  else
    let* (fhs, _) := collect num_fhs decode_fh data in
    Ok {| device_id := dev; stripe_unit := Z.land nfl_util NFL4_UFLG_STRIPE_UNIT_SIZE_MASK;
          is_dense := negb (Z.land nfl_util NFL4_UFLG_DENSE =? 0);
          commit_thru_mds := negb (Z.land nfl_util NFL4_UFLG_COMMIT_THRU_MDS =? 0);
          first_stripe_index := first; pattern_offset := pattern; fh_list := fhs |}.

Definition iomode_of (v : Z) : IoMode :=
  match v with 1 => IoRead | 2 => IoReadWrite | _ => IoRead end.
Definition layout_type_of (v : Z) : LayoutType :=
  match v with 1 => NfsV41Files | 2 => Osd2Objects | 3 => BlockVolume | _ => NfsV41Files end.

(** The padding after an opaque, skipped when it is there. *)
Definition skip_pad (pad : Z) (data : bytes) : result bytes :=
  if pad <=? remaining data then advance pad data else Ok data.

Definition decode_layout_segment (data : bytes) : result (LayoutSegment * bytes) :=
  let* _ := require 24 (Xdr "layout4 segment header truncated") data in
  let* (offset, data) := get_u64 data in
  let* (len, data) := get_u64 data in
  let* (iomode_val, data) := get_u32 data in
  let* (layout_type_val, data) := get_u32 data in
  let lt := layout_type_of layout_type_val in
  let* _ := require 4 (Xdr "layout_content length truncated") data in
  let* (content_len, data) := get_u32 data in
  let* _ := require (padded content_len) (Xdr "layout_content data truncated") data in
  let* (content_data, data) := split_to content_len data in
  let* data := skip_pad (padded content_len - content_len) data in
  let* c := (if bool_decide (lt = NfsV41Files)
             then let* f := decode_files_layout content_data in Ok (Files f)
             else Ok (OpaqueContent content_data)) in
  Ok ({| seg_offset := offset; seg_length := len; iomode := iomode_of iomode_val;
         layout_type := lt; content := c |}, data).

Definition decode_layoutget_response (data : bytes) : result (Layout * bytes) :=
  let* _ := require 4 (Xdr "LAYOUTGET return_on_close truncated") data in
  let* (roc, data) := get_u32 data in
  let* _ := require 16 (Xdr "LAYOUTGET stateid truncated") data in
  let* (sid, data) := split_to 16 data in
  let* _ := require 4 (Xdr "LAYOUTGET segments array truncated") data in
  let* (num_segments, data) := get_u32 data in
  if 1024 <? num_segments
  then Err (Xdr ("LAYOUTGET has " +:+ fmtZ num_segments +:+ " segments, max 1024"))
  else
    let* (segs, data) := collect num_segments decode_layout_segment data in
    Ok ({| lo_generation := 0; lo_stateid := sid; return_on_close := negb (roc =? 0);
           segments := segs |}, data).

(** ** Striping *)

(** The sum is taken in 64 bits; [stripe_unit >= 64] keeps it from wrapping. *)
Definition stripe_ds_index (offset stripe_unit first_stripe_index stripe_count : Z) : Z :=
  wrap64 (offset / stripe_unit + first_stripe_index) mod stripe_count.

Definition ds_offset (file_offset stripe_unit first_stripe_index stripe_count : Z)
    (is_dense : bool) : Z :=
  let stripe_num := file_offset / stripe_unit in
  let offset_in_stripe := file_offset mod stripe_unit in
  if is_dense
  then let ds_stripe_num := stripe_num / stripe_count in
       ds_stripe_num * stripe_unit + offset_in_stripe
  else file_offset.

(** One turn of the loop at [pos]. *)
Definition stripe_chunk (pos end_ stripe_unit : Z) (is_dense : bool)
    (first_stripe_index stripe_count pattern_offset : Z) : StripeChunk * Z :=
  let adjusted := pos - pattern_offset in
  let chunk_end := Z.min end_ (sat_add64 pos (stripe_unit - adjusted mod stripe_unit)) in
  ({| ds_index := stripe_ds_index adjusted stripe_unit first_stripe_index stripe_count;
      file_offset := pos;
      ck_ds_offset := if is_dense
                      then ds_offset adjusted stripe_unit first_stripe_index stripe_count true
                      else pos;
      ck_length := wrap32 (chunk_end - pos) |}, chunk_end).

(** [while pos < end]; [None] when the fuel runs out. *)
Fixpoint split_loop (fuel : nat) (pos end_ stripe_unit : Z) (is_dense : bool)
    (first_stripe_index stripe_count pattern_offset : Z) : option (list StripeChunk) :=
  if pos <? end_ then
    match fuel with
    | O => None
    | S fuel =>
        let '(c, next) := stripe_chunk pos end_ stripe_unit is_dense first_stripe_index
                            stripe_count pattern_offset in
        match split_loop fuel next end_ stripe_unit is_dense first_stripe_index stripe_count
                pattern_offset with
        | Some l => Some (c :: l)
        | None => None
        end
    end
  else Some [].

(** Enough turns: one per stripe boundary inside the range, and one more. *)
Definition split_fuel (count stripe_unit : Z) : nat := Z.to_nat (count / stripe_unit + 2).

Definition split_into_stripes (offset count stripe_unit : Z) (is_dense : bool)
    (first_stripe_index stripe_count pattern_offset : Z) : option (list StripeChunk) :=
  if (stripe_unit =? 0) || (stripe_count =? 0) || (offset <? pattern_offset) then Some []
  else
    let end_ := sat_add64 offset count in
    split_loop (split_fuel count stripe_unit) offset end_ stripe_unit is_dense first_stripe_index
      stripe_count pattern_offset.

(** ** Striping properties *)

(** [contiguous a l b]: the chunks cover [a, b) in order. *)
Inductive contiguous : Z -> list StripeChunk -> Z -> Prop :=
| contiguous_nil a : contiguous a [] a
| contiguous_cons a c l b : file_offset c = a -> 0 < ck_length c ->
    contiguous (a + ck_length c) l b -> contiguous a (c :: l) b.

Section Striping.
Context (su first n pattern : Z) (dense : bool).
Context (Hsu : 64 <= su < 2 ^ 32) (Hfirst : is_u32 first) (Hn : 1 <= n < 2 ^ 32).
Context (Hpattern : 0 <= pattern).

(** A chunk that stays inside one stripe and is sent to that stripe's place. *)
Record chunk_ok (c : StripeChunk) : Prop := {
  co_one_stripe : (file_offset c - pattern) / su = (file_offset c + ck_length c - 1 - pattern) / su;
  co_index : ds_index c = ((file_offset c - pattern) / su + first) mod n;
  co_range : 0 <= ds_index c < n;
  co_offset : ck_ds_offset c =
    if dense then (file_offset c - pattern) / su / n * su + (file_offset c - pattern) mod su
    else file_offset c;
}.

Lemma chunk_step pos end_ :
  pattern <= pos < end_ -> end_ <= u64_max -> end_ - pos < 2 ^ 32 ->
  let '(c, next) := stripe_chunk pos end_ su dense first n pattern in
  chunk_ok c /\ file_offset c = pos /\ next = pos + ck_length c /\ pos < next <= end_ /\
  (next < end_ -> (next - pattern) / su = (pos - pattern) / su + 1).
Proof using All.
  intros Hpos Hend Hlen. unfold stripe_chunk, sat_add64.
  pose proof (Z.mod_pos_bound (pos - pattern) su ltac:(lia)) as Hm.
  pose proof (Z.div_mod (pos - pattern) su ltac:(lia)) as Hdm.
  set (q := (pos - pattern) / su) in *. set (r := (pos - pattern) mod su) in *.
  set (next := Z.min end_ (Z.min (pos + (su - r)) u64_max)).
  assert (Hnext : next = Z.min end_ (pos + (su - r))) by lia.
  assert (Hw : wrap32 (next - pos) = next - pos) by (unfold wrap32; rewrite Z.mod_small; lia).
  assert (Hq : forall x, 0 <= x < su -> (q * su + x) / su = q).
  { intros x Hx. rewrite Z.div_add_l, Z.div_small by lia. lia. }
  assert (Hq0 : 0 <= q < 2 ^ 58).
  { split; [apply Z.div_pos; lia|]. apply Z.div_lt_upper_bound; [lia|]. unfold u64_max in *. nia. }
  assert (Hidx : wrap64 (q + first) = q + first)
    by (unfold wrap64; rewrite Z.mod_small; unfold_int; lia).
  cbn [file_offset ck_length ds_index ck_ds_offset]. rewrite Hw. split_and!; try lia.
  - constructor; cbn [file_offset ck_length ds_index ck_ds_offset]; rewrite ?Hw.
    + fold q. replace (pos + (next - pos) - 1 - pattern) with (q * su + (r + (next - pos) - 1)) by lia.
      rewrite Hq by lia. done.
    + unfold stripe_ds_index. fold q. by rewrite Hidx.
    + unfold stripe_ds_index. apply Z.mod_pos_bound. lia.
    + by destruct dense.
  - intros Hlt. replace (next - pattern) with (q * su + su) by lia.
    rewrite <- Z.mul_succ_l, Z.div_mul by lia. lia.
Qed.

Lemma split_loop_spec fuel : forall pos end_,
  pattern <= pos <= end_ -> end_ <= u64_max -> end_ - pos < 2 ^ 32 ->
  (pos < end_ -> (end_ - 1 - pattern) / su - (pos - pattern) / su + 1 <= Z.of_nat fuel) ->
  exists l, split_loop fuel pos end_ su dense first n pattern = Some l /\
    contiguous pos l end_ /\ Forall chunk_ok l.
Proof using All.
  induction fuel as [|fuel IH]; intros pos end_ Hpos Hend Hlen Hfuel.
  - cbn [split_loop]. destruct (Z.ltb_spec pos end_) as [Hlt|].
    + specialize (Hfuel Hlt).
      assert ((pos - pattern) / su <= (end_ - 1 - pattern) / su) by (apply Z.div_le_mono; lia). lia.
    + exists []. replace end_ with pos by lia. split_and!; [done|constructor|constructor].
  - cbn [split_loop]. destruct (Z.ltb_spec pos end_) as [Hlt|].
    2:{ exists []. replace end_ with pos by lia. split_and!; [done|constructor|constructor]. }
    pose proof (chunk_step pos end_ ltac:(lia) Hend Hlen) as Hc.
    destruct (stripe_chunk pos end_ su dense first n pattern) as [c next].
    destruct Hc as (Hok & Hfo & Hnx & Hb & Hstep).
    destruct (IH next end_) as (l & Hl & Hcon & Hall); [lia|lia|lia| |].
    { intros Hlt'. rewrite (Hstep Hlt'). specialize (Hfuel Hlt). lia. }
    rewrite Hl. exists (c :: l). split_and!; [done| |by constructor].
    constructor; [done|lia|]. by rewrite <- Hnx.
Qed.

Lemma split_fuel_enough offset count :
  pattern <= offset -> 0 < count ->
  (offset + count - 1 - pattern) / su - (offset - pattern) / su + 1 <=
  Z.of_nat (split_fuel count su).
Proof using Hsu.
  intros Ho Hc. unfold split_fuel.
  assert (0 <= count / su) by (apply Z.div_pos; lia).
  rewrite Z2Nat.id by lia.
  replace (offset + count - 1 - pattern) with ((offset - pattern) + (count - 1)) by lia.
  set (x := offset - pattern) in *. assert (0 <= x) by lia. clearbody x. clear Ho.
  Z.to_euclidean_division_equations. nia.
Qed.
End Striping.

(** The split of a whole range. *)
Lemma split_range offset count su dense first n pattern :
  64 <= su < 2 ^ 32 -> is_u32 first -> 1 <= n < 2 ^ 32 -> 0 <= pattern <= offset ->
  is_u32 count -> offset + count <= u64_max ->
  exists l, split_into_stripes offset count su dense first n pattern = Some l /\
    contiguous offset l (offset + count) /\ Forall (chunk_ok su first n pattern dense) l.
Proof.
  intros Hsu Hfirst Hn Hp Hc Hend. unfold split_into_stripes.
  destruct (Z.eqb_spec su 0); [lia|]. destruct (Z.eqb_spec n 0); [lia|].
  destruct (Z.ltb_spec offset pattern); [lia|]. cbn [orb].
  unfold sat_add64. rewrite Z.min_l by lia.
  apply split_loop_spec; try (unfold_int; lia). intros Hlt.
  apply split_fuel_enough; try done; lia.
Qed.

(** Splitting an I/O range into stripe chunks terminates and partitions the
    range: the chunks follow each other without gap or overlap up to its end,
    none crosses a stripe boundary, and each goes to the stripe-table entry and
    data-server offset of RFC 8881 (13.4.1 and 13.4.4). *)
Theorem split_into_stripes_partition offset count su dense first n pattern :
  64 <= su < 2 ^ 32 -> is_u32 first -> 1 <= n < 2 ^ 32 -> 0 <= pattern <= offset ->
  is_u32 count -> offset + count <= u64_max ->
  exists l, split_into_stripes offset count su dense first n pattern = Some l /\
    contiguous offset l (offset + count) /\ Forall (chunk_ok su first n pattern dense) l.
Proof. apply split_range. Qed.

Lemma split_into_stripes_partition_witness :
  exists l, split_into_stripes 100 300 128 true 1 2 50 = Some l /\
    contiguous 100 l (100 + 300) /\ Forall (chunk_ok 128 1 2 50 true) l.
Proof. apply split_into_stripes_partition; unfold is_u32, u64_max; lia. Defined.

(** Dense packing loses nothing: two file offsets that map to the same
    stripe-table entry and the same offset in its data file are equal, so no
    two parts of a file are written to the same place. *)
Theorem dense_placement_injective su first n p q :
  64 <= su < 2 ^ 32 -> is_u32 first -> 1 <= n < 2 ^ 32 -> is_u64 p -> is_u64 q ->
  stripe_ds_index p su first n = stripe_ds_index q su first n ->
  ds_offset p su first n true = ds_offset q su first n true -> p = q.
Proof.
  intros Hsu Hf Hn Hp Hq. unfold stripe_ds_index, ds_offset.
  assert (Hs : forall x, is_u64 x -> wrap64 (x / su + first) = x / su + first).
  { intros x Hx. assert (0 <= x / su < 2 ^ 58).
    { split; [apply Z.div_pos; unfold_int; lia|]. apply Z.div_lt_upper_bound; unfold_int; nia. }
    unfold wrap64. rewrite Z.mod_small; unfold_int; lia. }
  rewrite !Hs by done. intros Hi Ho.
  pose proof (Z.div_mod p su ltac:(lia)) as Dp. pose proof (Z.div_mod q su ltac:(lia)) as Dq.
  pose proof (Z.mod_pos_bound p su ltac:(lia)) as Mp. pose proof (Z.mod_pos_bound q su ltac:(lia)) as Mq.
  set (sp := p / su) in *. set (sq := q / su) in *.
  assert (Hrow : sp / n = sq / n /\ p mod su = q mod su).
  { pose proof (Z.div_add_l (sp / n) su (p mod su) ltac:(lia)) as E1.
    pose proof (Z.div_add_l (sq / n) su (q mod su) ltac:(lia)) as E2.
    rewrite (Z.div_small (p mod su)), (Z.div_small (q mod su)) in * by lia.
    rewrite Ho in E1. split; lia. }
  assert (Hcol : sp mod n = sq mod n).
  { replace sp with (sp + first - first) by lia. replace sq with (sq + first - first) by lia.
    rewrite (Zminus_mod (sp + first)), (Zminus_mod (sq + first)), Hi. done. }
  pose proof (Z.div_mod sp n ltac:(lia)). pose proof (Z.div_mod sq n ltac:(lia)).
  destruct Hrow as [Hr1 Hr2]. rewrite Hr1 in *. rewrite Hcol in *. rewrite Dp, Dq. lia.
Qed.

Lemma dense_placement_injective_witness : 300 = 300.
Proof.
  apply (dense_placement_injective 64 1 3 300 300); unfold is_u32, is_u64; try lia; reflexivity.
Defined.

(** ** Totality of the LAYOUTGET decoder *)

Lemma wpo_decode_fh data : wpo (decode_fh data) (fun '(_, r) => r `suffix_of` data).
Proof. unfold decode_fh. wp. pose proof (padded_ge v). wp. suffix_tac. Qed.

(** Bounds on a decoded file layout: its words fit their types and a stripe
    unit is a multiple of 64, so a nonzero one is at least 64. *)
Record files_ok (f : FilesLayout) : Prop := {
  fo_unit : is_u32 (stripe_unit f) /\ stripe_unit f mod 64 = 0;
  fo_first : is_u32 (first_stripe_index f);
  fo_pattern : is_u64 (pattern_offset f);
  fo_device : remaining (device_id f) = 16;
  fo_fhs : Z.of_nat (length (fh_list f)) <= 4096;
}.

Lemma stripe_mask u : is_u32 u ->
  is_u32 (Z.land u NFL4_UFLG_STRIPE_UNIT_SIZE_MASK) /\
  Z.land u NFL4_UFLG_STRIPE_UNIT_SIZE_MASK mod 64 = 0.
Proof.
  intros Hu. unfold NFL4_UFLG_STRIPE_UNIT_SIZE_MASK.
  change 4294967232 with (Z.shiftl (Z.ones 26) 6).
  assert (E : Z.land u (Z.shiftl (Z.ones 26) 6) = Z.shiftl (Z.land (Z.shiftr u 6) (Z.ones 26)) 6).
  { apply Z.bits_inj'. intros i Hi. rewrite Z.land_spec, !Z.shiftl_spec by lia.
    destruct (Z.ltb_spec (i - 6) 0).
    - rewrite !(Z.testbit_neg_r _ (i - 6)) by lia. apply andb_false_r.
    - rewrite Z.land_spec, Z.shiftr_spec by lia. by replace (i - 6 + 6) with i by lia. }
  rewrite E, Z.land_ones, Z.shiftl_mul_pow2, Z.shiftr_div_pow2 by lia.
  split; [|apply Z.mod_mul; lia].
  unfold_int. pose proof (Z.mod_pos_bound (u / 2 ^ 6) (2 ^ 26) ltac:(lia)). lia.
Qed.

Lemma wpo_decode_files_layout data : wpo (decode_files_layout data) files_ok.
Proof.
  unfold decode_files_layout. wp. bool_hyps. pose proof (stripe_mask v ltac:(done)) as [Hm1 Hm2].
  match goal with |- wpo (collect ?k decode_fh ?d) _ =>
    pose proof (wpo_collect k decode_fh (fun _ => True) d (fun _ => True)) as Hc;
    pose proof (collect_length k decode_fh d) as Hl;
    destruct (collect k decode_fh d) as [[l r]| |]; cbn [wpo] end.
  - specialize (Hl l r ltac:(unfold_int; lia) eq_refl). constructor; cbn; try done. lia.
  - done.
  - apply Hc; [|done]. intros b _. wp_call wpo_decode_fh. by intros [x y] ?.
Qed.

Definition segment_ok (s : LayoutSegment) : Prop :=
  is_u64 (seg_offset s) /\ is_u64 (seg_length s) /\
  match content s with Files f => files_ok f | OpaqueContent _ => True end.

Lemma wpo_decode_layout_segment data :
  wpo (decode_layout_segment data) (fun '(s, r) => segment_ok s /\ r `suffix_of` data).
Proof.
  unfold decode_layout_segment, skip_pad. wp. pose proof (padded_ge v3). wp; bool_hyps; wp.
  all: try (cbn; by split; [|suffix_tac]).
  all: wp_call wpo_decode_files_layout; intros f Hf; wp; cbn; by split; [|suffix_tac].
Qed.

(** Decoding a LAYOUTGET reply never panics; every accepted file layout has
    a stripe unit that is a multiple of 64 bytes, at most 4096 filehandles, and
    words inside their types, which is what the striping arithmetic needs. *)
Theorem decode_layoutget_safe data :
  decode_layoutget_response data <> Panic /\
  (forall l rest, decode_layoutget_response data = Ok (l, rest) ->
     remaining (lo_stateid l) = 16 /\ Forall segment_ok (segments l)).
Proof.
  enough (H : wpo (decode_layoutget_response data) (fun '(l, _) =>
    remaining (lo_stateid l) = 16 /\ Forall segment_ok (segments l))).
  { split; [by eapply wpo_no_panic|]. intros l rest E. by rewrite E in H. }
  unfold decode_layoutget_response. wp.
  apply wpo_collect with (P := segment_ok); [intros; apply wpo_decode_layout_segment|].
  intros l r Hl _. wp. cbn. by split.
Qed.
