(* ===== verification/Device.v ===== *)
(** * pNFS devices

    Models the device half of [src/src/nfs41/layout.rs]: universal addresses
    ([parse_netaddr4]), the GETDEVICEINFO reply, and the choice among multipath
    addresses. The address parsers of the standard library that the code calls
    ([str::split], [rfind], [u8::from_str], [Ipv6Addr::from_str]) are written
    out over bytes. *)
From S2P Require Import Prelude Errors Xdr4 Layout.
From stdpp Require Import base list numbers strings.
#[local] Open Scope Z_scope.

(** ** Text helpers *)

Definition DOT : Z := 46.
Definition COLON : Z := 58.
Definition is_char (c : Z) (b : byte) : bool := byte_val b =? c.

(** [s.split(c).collect()] *)
Fixpoint split_on (c : Z) (s : bytes) : list bytes :=
  match s with
  | [] => [[]]
  | b :: s =>
      if is_char c b then [] :: split_on c s
      else match split_on c s with
           | [] => [[b]]
           | w :: ws => (b :: w) :: ws
           end
  end.

(** [s.rfind(c)]: the index of the last occurrence. *)
Fixpoint rfind (c : Z) (s : bytes) : option nat :=
  match s with
  | [] => None
  | b :: s => match rfind c s with
              | Some i => Some (S i)
              | None => if is_char c b then Some 0%nat else None
              end
  end.

(** ** [Ipv6Addr::from_str] *)

Definition hex_digit (b : byte) : option Z :=
  let v := byte_val b in
  if (48 <=? v) && (v <=? 57) then Some (v - 48)
  else if (97 <=? v) && (v <=? 102) then Some (v - 87)
  else if (65 <=? v) && (v <=? 70) then Some (v - 55)
  else None.

(** [Parser::read_number]: at most [max_digits] digits in [radix], the value at
    most [max], without a leading zero unless allowed. *)
Fixpoint read_digits (digit : byte -> option Z) (radix max : Z) (max_digits : nat) (acc : Z)
    (count : nat) (s : bytes) : option (Z * nat * bytes) :=
  match s with
  | [] => Some (acc, count, [])
  | b :: s' =>
      match digit b with
      | None => Some (acc, count, s)
      | Some d =>
          if max <? acc * radix + d then None
          else match max_digits with
               | O => None
               | S m => read_digits digit radix max m (acc * radix + d) (S count) s'
               end
      end
  end.

Definition read_number (digit : byte -> option Z) (radix max : Z) (max_digits : nat)
    (allow_zero_prefix : bool) (s : bytes) : option (Z * bytes) :=
  let leading_zero := match s with b :: _ => byte_val b =? 48 | [] => false end in
  match read_digits digit radix max max_digits 0 0 s with
  | Some (_, O, _) | None => None
  | Some (v, n, rest) =>
      if negb allow_zero_prefix && leading_zero && (1 <? n)%nat then None else Some (v, rest)
  end.

Definition read_char (c : Z) (s : bytes) : option bytes :=
  match s with b :: s => if is_char c b then Some s else None | [] => None end.

(** [read_separator(sep, index, inner)]: the separator precedes every element
    but the first. *)
Definition read_separator {A} (sep : Z) (index : nat) (inner : bytes -> option (A * bytes))
    (s : bytes) : option (A * bytes) :=
  match index with
  | O => inner s
  | S _ => match read_char sep s with Some s => inner s | None => None end
  end.

Definition read_octet : bytes -> option (Z * bytes) := read_number digit_of 10 255 3 false.

Definition read_ipv4 (s : bytes) : option (Z * bytes) :=
  match read_separator DOT 0 read_octet s with
  | None => None
  | Some (a, s) =>
  match read_separator DOT 1 read_octet s with
  | None => None
  | Some (b, s) =>
  match read_separator DOT 2 read_octet s with
  | None => None
  | Some (c, s) =>
  match read_separator DOT 3 read_octet s with
  | None => None
  | Some (d, s) => Some (((a * 256 + b) * 256 + c) * 256 + d, s)
  end end end end.

Definition read_group : bytes -> option (Z * bytes) := read_number hex_digit 16 65535 4 true.

(** [read_groups]: [todo] slots are left, [i] are filled; the result is the
    groups, whether an IPv4 tail ended them, and the rest. *)
Fixpoint read_groups (todo i : nat) (acc : list Z) (s : bytes) : list Z * bool * bytes :=
  match todo with
  | O => (acc, false, s)
  | S todo' =>
      let v4 := match todo' with
                | O => None
                | S _ => read_separator COLON i read_ipv4 s
                end in
      match v4 with
      | Some (w, s) => (acc ++ [w / 65536; w mod 65536], true, s)
      | None =>
          match read_separator COLON i read_group s with
          | Some (g, s) => read_groups todo' (S i) (acc ++ [g]) s
          | None => (acc, false, s)
          end
      end
  end.

Definition groups_val (l : list Z) : Z := fold_left (fun a g => a * 65536 + g) l 0.

Definition parse_ipv6 (s : bytes) : option Z :=
  let '(head, head_v4, s) := read_groups 8 0 [] s in
  if (length head =? 8)%nat
  then match s with [] => Some (groups_val head) | _ => None end
  else if head_v4 then None
  else match read_char COLON s with
       | None => None
       | Some s =>
           match read_char COLON s with
           | None => None
           | Some s =>
               let '(tail, _, s) := read_groups (8 - (length head + 1)) 0 [] s in
               match s with
               | [] => Some (groups_val (head ++ replicate (8 - length head - length tail) 0 ++ tail))
               | _ => None
               end
           end
       end.

(** ** Universal addresses *)

Definition addr_octet (s : bytes) : result Z :=
  match parse_u8 s with
  | Some v => Ok v
  | None => Err (Xdr ("invalid address octet: " +:+ to_str s))
  end.

Definition parse_tcp (r_addr : bytes) : result SocketAddr :=
  match split_on DOT r_addr with
  | [h1; h2; h3; h4; p1; p2] =>
      let* a := addr_octet h1 in
      let* b := addr_octet h2 in
      let* c := addr_octet h3 in
      let* d := addr_octet h4 in
      let* p := addr_octet p1 in
      let* q := addr_octet p2 in
      Ok (V4 (((a * 256 + b) * 256 + c) * 256 + d) (p * 256 + q))
  | _ => Err (Xdr ("invalid tcp r_addr (expected 6 dot-separated fields): " +:+ to_str r_addr))
  end.

Definition parse_tcp6 (r_addr : bytes) : result SocketAddr :=
  match rfind DOT r_addr with
  | None => Err (Xdr ("invalid tcp6 r_addr (missing port): " +:+ to_str r_addr))
  | Some last =>
      match rfind DOT (firstn last r_addr) with
      | None => Err (Xdr ("invalid tcp6 r_addr (missing port octets): " +:+ to_str r_addr))
      | Some dot2 =>
          let ip_part := firstn dot2 r_addr in
          match split_on DOT (skipn (S dot2) r_addr) with
          | [o1; o2] =>
              let* p1 := addr_octet o1 in
              let* p2 := addr_octet o2 in
              match parse_ipv6 ip_part with
              | Some ip => Ok (V6 ip (p1 * 256 + p2))
              | None => Err (Xdr ("invalid IPv6 address: " +:+ to_str ip_part))
              end
          | _ => Err (Xdr ("invalid tcp6 r_addr port part: " +:+ to_str r_addr))
          end
      end
  end.

Definition parse_netaddr4 (r_netid r_addr : bytes) : result SocketAddr :=
  if bool_decide (r_netid = of_str "tcp") then parse_tcp r_addr
  else if bool_decide (r_netid = of_str "tcp6") then parse_tcp6 r_addr
  else Err (Xdr ("unsupported netid: " +:+ to_str r_netid)).

(** ** GETDEVICEINFO *)

Definition read_xdr_string (data : bytes) : result (bytes * bytes) :=
  let* _ := require 4 (Xdr "XDR string length truncated") data in
  let* (len, data) := get_u32 data in
  let* _ := require (padded len) (Xdr "XDR string data truncated") data in
  let* s := slice_to len data in
  if negb (utf8_valid s) then Err (Xdr "XDR string not valid UTF-8")
  else let* data := advance (padded len) data in Ok (s, data).

Definition decode_netaddr (body : bytes) : result (SocketAddr * bytes) :=
  let* (r_netid, body) := read_xdr_string body in
  let* (r_addr, body) := read_xdr_string body in
  let* addr := parse_netaddr4 r_netid r_addr in
  Ok (addr, body).

Definition decode_multipath (body : bytes) : result (list SocketAddr * bytes) :=
  let* _ := require 4 (Xdr "GETDEVICEINFO multipath_list length truncated") body in
  let* (num_addrs, body) := get_u32 body in
  if 256 <? num_addrs
  then Err (Xdr ("GETDEVICEINFO DS has " +:+ fmtZ num_addrs +:+ " addresses, max 256"))
  else collect num_addrs decode_netaddr body.

Definition decode_ds_addr (body : bytes) : result DeviceInfo :=
  let* _ := require 4 (Xdr "GETDEVICEINFO stripe_indices length truncated") body in
  let* (num_indices, body) := get_u32 body in
  if 4096 <? num_indices
  then Err (Xdr ("GETDEVICEINFO has " +:+ fmtZ num_indices +:+ " stripe_indices, max 4096"))
  else
    let* _ := require (num_indices * 4) (Xdr "GETDEVICEINFO stripe_indices data truncated") body in
    let* (indices, body) := collect num_indices get_u32 body in
    let* _ := require 4 (Xdr "GETDEVICEINFO multipath_ds_list length truncated") body in
    let* (num_ds, body) := get_u32 body in
    if 4096 <? num_ds
    then Err (Xdr ("GETDEVICEINFO has " +:+ fmtZ num_ds +:+ " data servers, max 4096"))
    else
      let* (addrs, _) := collect num_ds decode_multipath body in
      Ok {| stripe_indices := indices; ds_addrs := addrs |}.

Definition decode_getdeviceinfo_response (data : bytes) : result (DeviceInfo * bytes) :=
  let* _ := require 4 (Xdr "GETDEVICEINFO layout_type truncated") data in
  let* (lt, data) := get_u32 data in
  if negb (lt =? 1) then Err (Xdr ("GETDEVICEINFO unsupported layout type: " +:+ fmtZ lt))
  else
    let* _ := require 4 (Xdr "GETDEVICEINFO da_addr_body length truncated") data in
    let* (body_len, data) := get_u32 data in
    let* _ := require (padded body_len) (Xdr "GETDEVICEINFO da_addr_body truncated") data in
    let* (body, data) := split_to body_len data in
    let* data := skip_pad (padded body_len - body_len) data in
    let* info := decode_ds_addr body in
    Ok (info, data).

(** ** Choosing an address *)

Definition is_degenerate_device (d : DeviceInfo) (server : SocketAddr) : bool :=
  negb (bool_decide (ds_addrs d = [])) &&
  forallb (fun paths => bool_decide (head paths = Some server)) (ds_addrs d).

(** [leading_zeros] of a [w]-bit word. *)
Definition leading_zeros (w x : Z) : Z := if x =? 0 then w else w - 1 - Z.log2 x.

Definition addr_prefix_len (a b : SocketAddr) : Z :=
  match a, b with
  | V4 x _, V4 y _ => leading_zeros 32 (Z.lxor x y)
  | V6 x _, V6 y _ => leading_zeros 128 (Z.lxor x y)
  | _, _ => 0
  end.

Definition is_v4 (a : SocketAddr) : bool := match a with V4 _ _ => true | V6 _ _ => false end.

(** The sort key, ordered as a tuple. *)
Definition affinity_key (server a : SocketAddr) : Z * Z * Z :=
  (b2z (negb (bool_decide (a = server))), b2z (negb (Bool.eqb (is_v4 a) (is_v4 server))),
   u32_max - addr_prefix_len a server).

Definition key_le (x y : Z * Z * Z) : bool :=
  let '(a, b, c) := x in let '(a', b', c') := y in
  (a <? a') || ((a =? a') && ((b <? b') || ((b =? b') && (c <=? c')))).

(** [slice::sort_by_key], a stable sort. *)
Fixpoint insert_by {A} (le : A -> A -> bool) (x : A) (l : list A) : list A :=
  match l with
  | [] => [x]
  | y :: l' => if le x y then x :: l else y :: insert_by le x l'
  end.
Definition sort_by {A} (le : A -> A -> bool) (l : list A) : list A :=
  fold_right (insert_by le) [] l.

Definition sort_multipath_by_affinity (d : DeviceInfo) (server : SocketAddr) : DeviceInfo :=
  {| stripe_indices := stripe_indices d;
     ds_addrs := map (sort_by (fun a b => key_le (affinity_key server a) (affinity_key server b)))
                   (ds_addrs d) |}.

Example tcp6_demo :
  parse_netaddr4 (of_str "tcp6") (of_str "fe80::1.8.1") = Ok (V6 (0xfe80 * 2 ^ 112 + 1) 2049).
Proof. vm_compute. reflexivity. Qed.

Example tcp6_mapped_demo :
  parse_netaddr4 (of_str "tcp6") (of_str "::ffff:10.0.0.1.8.1") =
  Ok (V6 (0xffff * 2 ^ 32 + 0x0a000001) 2049).
Proof. vm_compute. reflexivity. Qed.

(** ** Universal addresses are read back *)

(** The universal address of an IPv4 endpoint (RFC 5665, 5.2.3.3):
    [h1.h2.h3.h4.p1.p2] in decimal. *)
Definition dotted (l : list Z) : bytes :=
  match l with
  | [] => []
  | x :: l => dec x ++ concat (map (fun y => of_str "." ++ dec y) l)
  end.

Definition uaddr4 (ip port : Z) : bytes :=
  dotted [ip / 2 ^ 24; ip / 2 ^ 16 mod 256; ip / 2 ^ 8 mod 256; ip mod 256; port / 256; port mod 256].

Lemma split_on_app c s t :
  Forall (fun b => is_char c b = false) s ->
  split_on c (s ++ t) =
  match split_on c t with [] => [s] | w :: ws => (s ++ w) :: ws end.
Proof.
  induction 1 as [|b s Hb Hs IH]; cbn [app split_on].
  - destruct t as [|b t]; [done|]. cbn [split_on].
    destruct (is_char c b); [done|]. by destruct (split_on c t).
  - rewrite Hb, IH. by destruct (split_on c t).
Qed.

Lemma split_on_sep s t :
  Forall (fun b => is_char DOT b = false) s ->
  split_on DOT (s ++ of_str "." ++ t) = s :: split_on DOT t.
Proof. intros Hs. rewrite split_on_app by done. cbn. by rewrite app_nil_r. Qed.

Lemma split_on_end s : Forall (fun b => is_char DOT b = false) s -> split_on DOT s = [s].
Proof. intros Hs. rewrite <- (app_nil_r s) at 1. rewrite split_on_app by done. cbn. by rewrite app_nil_r. Qed.

Lemma dec_no_dot z : Forall (fun b => is_char DOT b = false) (dec z).
Proof.
  unfold dec. apply Forall_rev. eapply Forall_impl; [apply dec_rev_digits|].
  intros b Hb. unfold digit_of in Hb. unfold is_char, DOT.
  destruct (Z.leb_spec 0 (byte_val b - 48)), (Z.leb_spec (byte_val b - 48) 9);
    simpl in Hb; try done. apply Z.eqb_neq. lia.
Qed.

Lemma addr_octet_dec z : 0 <= z < 256 -> addr_octet (dec z) = Ok z.
Proof. intros Hz. unfold addr_octet, parse_u8. rewrite parse_unsigned_dec; [done|lia|unfold u64_max; lia]. Qed.

(** The universal address of every IPv4 endpoint parses back to that
    endpoint: no address or port a server can advertise is refused or
    misread. *)
Theorem tcp_uaddr_roundtrip ip port :
  is_u32 ip -> 0 <= port < 65536 ->
  parse_netaddr4 (of_str "tcp") (uaddr4 ip port) = Ok (V4 ip port).
Proof.
  intros Hip Hport. unfold is_u32 in Hip.
  unfold parse_netaddr4. rewrite bool_decide_eq_true_2 by done. unfold parse_tcp, uaddr4, dotted.
  cbn [map concat]. rewrite app_nil_r, <- !app_assoc.
  rewrite !split_on_sep, split_on_end by apply dec_no_dot.
  rewrite !addr_octet_dec by (Z.to_euclidean_division_equations; lia).
  cbn [obind]. do 2 f_equal; Z.to_euclidean_division_equations; lia.
Qed.

Lemma tcp_uaddr_roundtrip_witness :
  parse_netaddr4 (of_str "tcp") (uaddr4 0x0a000001 2049) = Ok (V4 0x0a000001 2049).
Proof. apply tcp_uaddr_roundtrip; unfold is_u32; lia. Defined.

(** ** Totality of the GETDEVICEINFO decoder *)

Lemma wpo_addr_octet s : wpo (addr_octet s) (fun _ => True).
Proof. unfold addr_octet. by wp. Qed.

Lemma wpo_parse_netaddr4 n a : wpo (parse_netaddr4 n a) (fun _ => True).
Proof.
  unfold parse_netaddr4, parse_tcp, parse_tcp6. wp; try done;
    repeat match goal with |- wpo (match ?x with _ => _ end) _ => destruct x end; wp; try done;
    repeat (wp_call wpo_addr_octet; intros ? _; wp); done.
Qed.

Lemma wpo_read_xdr_string data : wpo (read_xdr_string data) (fun '(_, r) => r `suffix_of` data).
Proof. unfold read_xdr_string. wp. pose proof (padded_ge v). wp. suffix_tac. Qed.

Lemma wpo_decode_netaddr data :
  wpo (decode_netaddr data) (fun '(_, r) => True /\ r `suffix_of` data).
Proof.
  unfold decode_netaddr. wp. wp_call wpo_read_xdr_string. intros [a r1] H1. wp.
  wp_call wpo_read_xdr_string. intros [b r2] H2. wp.
  wp_call wpo_parse_netaddr4. intros c _. wp. split; [done|suffix_tac].
Qed.

Lemma wpo_decode_multipath data :
  wpo (decode_multipath data) (fun '(l, r) => Z.of_nat (length l) <= 256 /\ r `suffix_of` data).
Proof.
  unfold decode_multipath. wp. bool_hyps.
  pose proof (collect_length v decode_netaddr rest) as Hl.
  pose proof (wpo_collect v decode_netaddr (fun _ => True) rest (fun '(_, r) => r `suffix_of` rest)) as Hc.
  specialize (Hc ltac:(by intros; apply wpo_decode_netaddr) ltac:(by intros)).
  destruct (collect v decode_netaddr rest) as [[l r]| |]; cbn in *; try done.
  specialize (Hl l r ltac:(unfold_int; lia) eq_refl). split; [lia|suffix_tac].
Qed.

(** The bounds on a decoded device. *)
Record device_ok (d : DeviceInfo) : Prop := {
  do_indices : Z.of_nat (length (stripe_indices d)) <= 4096;
  do_servers : Z.of_nat (length (ds_addrs d)) <= 4096;
  do_paths : Forall (fun l => Z.of_nat (length l) <= 256) (ds_addrs d);
}.

Lemma wpo_get_u32s n data :
  0 <= n -> n * 4 <= remaining data ->
  wpo (collect (E := NfsError) n get_u32 data) (fun '(l, r) => Z.of_nat (length l) = n /\ r `suffix_of` data).
Proof.
  intros Hn Hr. rewrite collect_nat.
  enough (H : forall m (acc : list Z) b, 4 * Z.of_nat m <= remaining b -> b `suffix_of` data ->
    wpo (loop_nat m (fun '(acc, buf) => let* (a, buf) := get_u32 (E := NfsError) buf in Ok (acc ++ [a], buf)) (acc, b))
      (fun '(l, r) => length l = (length acc + m)%nat /\ r `suffix_of` data)).
  { eapply wpo_mono; [apply H; [lia|done]|]. intros [l r] [H1 H2]. cbn in H1. split; [lia|done]. }
  clear. induction m as [|m IH]; intros acc b Hb Hs; cbn [loop_nat].
  - wp. split; [lia|done].
  - wp. eapply wpo_mono; [apply IH; [lia|suffix_tac]|]. intros [l r] [Hn1 H2].
    rewrite length_app in Hn1. cbn in Hn1. split; [lia|done].
Qed.

Lemma wpo_decode_ds_addr data : wpo (decode_ds_addr data) device_ok.
Proof.
  unfold decode_ds_addr. wp. bool_hyps. eapply wpo_mono.
  { apply wpo_get_u32s; unfold_int; lia. }
  intros [idx b] [Hi Hb]. wp. bool_hyps.
  match goal with |- wpo (collect ?k decode_multipath ?d) _ =>
    pose proof (wpo_collect k decode_multipath (fun l => Z.of_nat (length l) <= 256) d
                  (fun '(l, _) => Forall (fun l => Z.of_nat (length l) <= 256) l)) as Hc;
    pose proof (collect_length k decode_multipath d) as Hl end.
  specialize (Hc ltac:(by intros; apply wpo_decode_multipath) ltac:(by intros)).
  destruct (collect _ decode_multipath _) as [[l r]| |]; cbn [wpo] in *; try done.
  specialize (Hl l r ltac:(unfold_int; lia) eq_refl). constructor; cbn; try done; lia.
Qed.

(** Decoding a GETDEVICEINFO reply never panics, and an accepted device has
    at most 4096 stripe indices and 4096 data servers with at most 256 addresses
    each. *)
Theorem decode_getdeviceinfo_safe data :
  decode_getdeviceinfo_response data <> Panic /\
  (forall d rest, decode_getdeviceinfo_response data = Ok (d, rest) -> device_ok d).
Proof.
  enough (H : wpo (decode_getdeviceinfo_response data) (fun '(d, _) => device_ok d)).
  { split; [by eapply wpo_no_panic|]. intros d rest E. by rewrite E in H. }
  unfold decode_getdeviceinfo_response, skip_pad. wp. pose proof (padded_ge v0). wp; bool_hyps; wp.
  all: wp_call wpo_decode_ds_addr; intros d Hd; by wp.
Qed.

(** ** The preferred address *)

Section SortBy.
Context {A : Type} (le : A -> A -> bool).
Context (le_total : forall x y, le x y = false -> le y x = true).
Context (le_trans : forall x y z, le x y = true -> le y z = true -> le x z = true).

Definition le_head (x : A) (l : list A) : Prop := Forall (fun y => le x y = true) l.

Inductive sorted_by : list A -> Prop :=
| sorted_by_nil : sorted_by []
| sorted_by_cons x l : le_head x l -> sorted_by l -> sorted_by (x :: l).

Lemma insert_by_perm x l : Permutation (insert_by le x l) (x :: l).
Proof using.
  induction l as [|y l IH]; cbn; [done|]. destruct (le x y); [done|]. rewrite IH. constructor.
Qed.

Lemma sort_by_perm l : Permutation (sort_by le l) l.
Proof using. induction l as [|x l IH]; cbn; [done|]. by rewrite insert_by_perm, IH. Qed.

Lemma insert_by_sorted x l : sorted_by l -> sorted_by (insert_by le x l).
Proof using le_total le_trans.
  induction 1 as [|y l Hy Hl IH]; cbn; [by repeat constructor|].
  destruct (le x y) eqn:E.
  - constructor; [|by constructor]. constructor; [done|].
    eapply Forall_impl; [exact Hy|]. cbn. eauto.
  - constructor; [|done]. unfold le_head. rewrite insert_by_perm. constructor; [by apply le_total|done].
Qed.

Lemma sort_by_sorted l : sorted_by (sort_by le l).
Proof using le_total le_trans.
  induction l; cbn; [constructor|by apply insert_by_sorted].
Qed.
End SortBy.

Lemma key_le_total x y : key_le x y = false -> key_le y x = true.
Proof. destruct x as [[a b] c], y as [[a' b'] c']. unfold key_le. lia. Qed.

Lemma key_le_trans x y z : key_le x y = true -> key_le y z = true -> key_le x z = true.
Proof. destruct x as [[a b] c], y as [[a' b'] c'], z as [[a'' b''] c'']. unfold key_le. lia. Qed.

Abbreviation nearer server := (fun a b => key_le (affinity_key server a) (affinity_key server b)).

Lemma paths_sorted server l : sorted_by (nearer server) (sort_by (nearer server) l).
Proof. apply sort_by_sorted; intros *; [apply key_le_total|apply key_le_trans]. Qed.

(** Only the server's own address has a key that is least. *)
Lemma exact_is_least server a : key_le (affinity_key server a) (affinity_key server server) = true -> a = server.
Proof.
  unfold affinity_key, key_le. rewrite (bool_decide_eq_true_2 (server = server)) by done.
  case_bool_decide; [done|]. cbn. done.
Qed.

(** Ordering a data server's addresses by affinity keeps exactly the
    addresses it advertised, puts nearer ones first, and makes the metadata
    server's own address the preferred one whenever it is among them, so that
    an all-local device is recognised as degenerate. *)
Theorem affinity_order_correct d server :
  let d' := sort_multipath_by_affinity d server in
  Forall2 (@Permutation SocketAddr) (ds_addrs d') (ds_addrs d) /\
  Forall (sorted_by (nearer server)) (ds_addrs d') /\
  (forall i paths, ds_addrs d !! i = Some paths -> server ∈ paths ->
     exists rest, ds_addrs d' !! i = Some (server :: rest)) /\
  (is_degenerate_device d' server = true <->
   ds_addrs d <> [] /\ Forall (fun paths => server ∈ paths) (ds_addrs d)).
Proof.
  set (srt := sort_by (nearer server)).
  assert (Hhead : forall paths, server ∈ paths -> exists rest, srt paths = server :: rest).
  { intros paths Hin. pose proof (sort_by_perm (nearer server) paths) as Hp.
    pose proof (paths_sorted server paths) as Hs. fold srt in Hp, Hs.
    assert (Hin' : server ∈ srt paths) by by rewrite Hp.
    destruct Hs as [|x l Hx Hl]; [by apply not_elem_of_nil in Hin'|].
    apply elem_of_cons in Hin' as [->|Hin']; [by eexists|].
    unfold le_head in Hx. rewrite Forall_forall in Hx. specialize (Hx _ Hin'). cbv beta in Hx.
    apply exact_is_least in Hx. subst. by eexists. }
  intros d'. split_and!.
  - unfold d', sort_multipath_by_affinity. cbn. induction (ds_addrs d); constructor; [apply sort_by_perm|done].
  - unfold d', sort_multipath_by_affinity. cbn. apply Forall_map, Forall_true. apply paths_sorted.
  - intros i paths Hi Hin. unfold d', sort_multipath_by_affinity. cbn.
    rewrite list_lookup_fmap, Hi. cbn. destruct (Hhead _ Hin) as [rest Hr]. exists rest. f_equal. exact Hr.
  - unfold is_degenerate_device, d', sort_multipath_by_affinity. cbn [ds_addrs].
    rewrite andb_true_iff, negb_true_iff, bool_decide_eq_false. fold srt.
    assert (Hnil : map srt (ds_addrs d) <> [] <-> ds_addrs d <> []) by (destruct (ds_addrs d); done).
    rewrite Hnil, forallb_forall, Forall_forall.
    assert (Hone : forall paths, bool_decide (head (srt paths) = Some server) = true <-> server ∈ paths).
    { intros paths. rewrite bool_decide_eq_true. split.
      - intros Hh. rewrite <- (sort_by_perm (nearer server) paths). fold srt.
        destruct (srt paths); [done|]. cbn in Hh. simplify_eq. by left.
      - intros Hin. destruct (Hhead _ Hin) as [rest ->]. done. }
    split; intros [H1 H2]; split; try done.
    + intros paths Hin. apply Hone, H2, in_map. by apply list_elem_of_In.
    + intros paths (p & <- & Hin)%in_map_iff. apply Hone, H2. by apply list_elem_of_In.
Qed.
