(* ===== verification/Gates.v ===== *)
(** * Singleflight gates

    Models the gate tables of [LayoutManager] in [src/src/nfs41/layout.rs]:
    [layout_fetch_gate], [device_fetch_gate], [data_server_init_gate] and
    [file_io_gate] are the same code over different keys. A table maps a key to
    a [Weak] reference to a lock; the callers own the [Arc]s. The state keeps
    the list of live [Arc]s, so the strong count of a lock is the number of its
    occurrences there. *)
From S2P Require Import Prelude Xdr4 Layout.
From stdpp Require Import base list numbers gmap relations.
#[local] Open Scope Z_scope.

Section Gates.
Context {K : Type} `{Countable K}.

(** A lock is known by the order of its allocation. *)
Record GateTable : Type := {
  weak : gmap K nat;
  held : list (K * nat);
  allocated : nat;
}.

Definition gates_new : GateTable := {| weak := ∅; held := []; allocated := 0 |}.

Definition strong_count (g : GateTable) (lock : nat) : nat :=
  length (filter (fun e => e.2 = lock) (held g)).

(** [Weak::upgrade] *)
Definition upgrade (g : GateTable) (key : K) : option nat :=
  match weak g !! key with
  | Some lock => if (0 <? strong_count g lock)%nat then Some lock else None
  | None => None
  end.

Definition gate_for (g : GateTable) (key : K) : nat * GateTable :=
  match upgrade g key with
  | Some lock => (lock, {| weak := weak g; held := (key, lock) :: held g; allocated := allocated g |})
  | None =>
      let live := filter (fun e : K * nat => (0 < strong_count g e.2)%nat) (weak g) in
      let lock := allocated g in
      (lock, {| weak := <[key := lock]> live; held := (key, lock) :: held g;
                allocated := S (allocated g) |})
  end.

(** The drop of one [Arc]. *)
Fixpoint remove_one (e : K * nat) (l : list (K * nat)) : list (K * nat) :=
  match l with
  | [] => []
  | x :: l => if bool_decide (x = e) then l else x :: remove_one e l
  end.
Definition drop_gate (g : GateTable) (e : K * nat) : GateTable :=
  {| weak := weak g; held := remove_one e (held g); allocated := allocated g |}.

Inductive gate_step : GateTable -> GateTable -> Prop :=
| step_gate_for g key : gate_step g (snd (gate_for g key))
| step_drop_gate g e : gate_step g (drop_gate g e).

(** ** Properties *)

(** Every live reference is the one its key's entry designates, and locks are
    allocated once. *)
Record gates_ok (g : GateTable) : Prop := {
  go_held : forall k lock, (k, lock) ∈ held g -> weak g !! k = Some lock;
  go_inj : forall k k' lock, weak g !! k = Some lock -> weak g !! k' = Some lock -> k = k';
  go_fresh : forall k lock, weak g !! k = Some lock -> (lock < allocated g)%nat;
}.

Lemma strong_count_held g k lock : (k, lock) ∈ held g -> (0 < strong_count g lock)%nat.
Proof.
  intros Hin. unfold strong_count.
  assert (Hf : (k, lock) ∈ filter (fun e => e.2 = lock) (held g)) by (apply list_elem_of_filter; done).
  destruct (filter _ (held g)); [by apply not_elem_of_nil in Hf|]. cbn. lia.
Qed.

Lemma remove_one_incl e l x : x ∈ remove_one e l -> x ∈ l.
Proof.
  induction l as [|y l IH]; cbn; [done|]. case_bool_decide; rewrite !elem_of_cons; [auto|].
  intros [->|Hx]; auto.
Qed.

Lemma gate_for_ok g key : gates_ok g -> gates_ok (snd (gate_for g key)).
Proof.
  intros [Hh Hi Hf]. unfold gate_for, upgrade.
  destruct (weak g !! key) as [lock|] eqn:Ek; [destruct (Nat.ltb_spec 0 (strong_count g lock)) as [|Hz]|].
  { split; cbn; [|done|done]. intros k l [[= -> ->]|]%elem_of_cons; auto. }
  all: assert (Hno : forall l, (key, l) ∉ held g) by
    (intros l Hin; pose proof (Hh _ _ Hin) as E; rewrite Ek in E; simplify_eq;
     try (apply strong_count_held in Hin; lia)).
  all: split; cbn.
  all: try (intros k l [[= -> ->]|Hin]%elem_of_cons; [apply lookup_insert_eq|];
            destruct (decide (k = key)) as [->|Hne]; [by destruct (Hno l)|];
            rewrite lookup_insert_ne by done; apply map_lookup_filter_Some;
            split; [by apply Hh|cbn; by apply strong_count_held in Hin]).
  all: try (intros k k' l; rewrite !lookup_insert_Some, !map_lookup_filter_Some;
            intros [[<- <-]|(? & Hk & _)] [[<- E]|(? & Hk' & _)]; try done;
            try (apply Hf in Hk; lia); try (apply Hf in Hk'; lia); by eapply Hi).
  all: intros k l; rewrite lookup_insert_Some, map_lookup_filter_Some;
    intros [[<- <-]|(? & Hk & _)]; [lia|apply Hf in Hk; lia].
Qed.

Lemma gate_step_ok g g' : gate_step g g' -> gates_ok g -> gates_ok g'.
Proof.
  intros [g0 key|g0 e] Hok; [by apply gate_for_ok|]. destruct Hok as [Hh Hi Hf].
  split; cbn; try done. intros k lock Hin. by apply remove_one_incl, Hh in Hin.
Qed.

Lemma gates_reachable_ok g : rtc gate_step gates_new g -> gates_ok g.
Proof.
  intros Hr. assert (H0 : gates_ok gates_new) by (split; cbn; [set_solver|by simplify_map_eq|by simplify_map_eq]).
  revert H0. induction Hr as [|g1 g2 g3 H1 _ IH]; [done|]. intros Hok. by apply IH, (gate_step_ok g1).
Qed.
End Gates.

Arguments GateTable K {EqDecision0 H}.

(** A gate table gives every caller that works on a key the same lock while
    any of them still holds it, and callers on different keys different locks,
    in every order of requests and drops: fetches of one key are serialised,
    and unrelated keys never wait for each other. *)
Theorem gate_singleflight {K} `{Countable K} (g : GateTable K) k1 l1 k2 l2 :
  rtc gate_step gates_new g -> (k1, l1) ∈ held g -> (k2, l2) ∈ held g ->
  (k1 = k2 <-> l1 = l2) /\ fst (gate_for g k1) = l1.
Proof.
  intros Hr H1 H2. destruct (gates_reachable_ok g Hr) as [Hh Hi Hf].
  pose proof (Hh _ _ H1) as E1. pose proof (Hh _ _ H2) as E2. split.
  - split; intros ->; [congruence|by eapply Hi].
  - unfold gate_for, upgrade. rewrite E1.
    pose proof (strong_count_held g _ _ H1). destruct (Nat.ltb_spec 0 (strong_count g l1)); [done|lia].
Qed.

Definition demo_gates : GateTable (Z * bytes) :=
  let g := snd (gate_for gates_new (1, zeros 4)) in
  let g := snd (gate_for g (1, zeros 4)) in
  let g := snd (gate_for g (2, zeros 4)) in
  drop_gate g (1, zeros 4, 0%nat).

Lemma gate_singleflight_witness :
  ((1, zeros 4) = (2, zeros 4) <-> 0%nat = 1%nat) /\ fst (gate_for demo_gates (1, zeros 4)) = 0%nat.
Proof.
  apply (gate_singleflight demo_gates (1, zeros 4) 0%nat (2, zeros 4) 1%nat).
  - eapply rtc_l; [apply (step_gate_for _ (1, zeros 4))|].
    eapply rtc_l; [apply (step_gate_for _ (1, zeros 4))|].
    eapply rtc_l; [apply (step_gate_for _ (2, zeros 4))|].
    eapply rtc_l; [apply (step_drop_gate _ (1, zeros 4, 0%nat))|]. apply rtc_refl.
  - by apply (bool_decide_unpack _); vm_compute.
  - by apply (bool_decide_unpack _); vm_compute.
Defined.
