(* ===== verification/LayoutMgr.v ===== *)
(** * The layout manager

    Models [LayoutManager] of [src/src/nfs41/layout.rs]: the per-file layouts,
    dirty ranges and pending writes, the device cache with its revision, the
    data-server connections with their negative cache, the singleflight gates,
    and the generation that fences all of them. Every method body between two
    await points is one function on the manager's state; [mgr_op] collects them
    and [run] applies an interleaving. Lock acquisition itself is not modelled:
    each method holds the write lock of the map it changes from its check to its
    update. *)
From S2P Require Import Prelude Errors Xdr4 Session Layout Device.
From stdpp Require Import base list numbers strings gmap.
#[local] Open Scope Z_scope.

(** ** State *)

Record DirtyRange : Type := { dr_generation : Z; dr_start : Z; dr_end : Z; revision : Z }.
#[global] Instance DirtyRange_eq_dec : EqDecision DirtyRange.
Proof. solve_decision. Defined.

(** [rpc::Client] is known by an identity. *)
Record DsConnection : Type := { ds_client : Z; ds_session : Session; owner_generation : Z }.

(** Pending writes are [Arc]s shared with the callers: the map keeps their
    identities. *)
Record LayoutManager : Type := {
  layouts : gmap bytes Layout;
  data_servers : gmap SocketAddr DsConnection;
  device_cache : gmap bytes (Z * DeviceInfo);
  device_revision : Z;
  dirty : gmap bytes DirtyRange;
  pending_writes : gmap bytes (list nat);
  degenerate_logged : bool;
  unreachable_ds : gset SocketAddr;
  noresvport : bool;
  active_generation : Z;
}.

Definition LayoutManager_new (noresvport : bool) : LayoutManager :=
  {| layouts := ∅; data_servers := ∅; device_cache := ∅; device_revision := 0; dirty := ∅;
     pending_writes := ∅; degenerate_logged := false; unreachable_ds := ∅;
     noresvport := noresvport; active_generation := 1 |}.

(** Functional updates of one field. *)
Definition set_layouts (m : LayoutManager) v : LayoutManager :=
  {| layouts := v; data_servers := data_servers m; device_cache := device_cache m;
     device_revision := device_revision m; dirty := dirty m; pending_writes := pending_writes m;
     degenerate_logged := degenerate_logged m; unreachable_ds := unreachable_ds m;
     noresvport := noresvport m; active_generation := active_generation m |}.
Definition set_data_servers (m : LayoutManager) v : LayoutManager :=
  {| layouts := layouts m; data_servers := v; device_cache := device_cache m;
     device_revision := device_revision m; dirty := dirty m; pending_writes := pending_writes m;
     degenerate_logged := degenerate_logged m; unreachable_ds := unreachable_ds m;
     noresvport := noresvport m; active_generation := active_generation m |}.
Definition set_devices (m : LayoutManager) rev v : LayoutManager :=
  {| layouts := layouts m; data_servers := data_servers m; device_cache := v;
     device_revision := rev; dirty := dirty m; pending_writes := pending_writes m;
     degenerate_logged := degenerate_logged m; unreachable_ds := unreachable_ds m;
     noresvport := noresvport m; active_generation := active_generation m |}.
Definition set_dirty (m : LayoutManager) v : LayoutManager :=
  {| layouts := layouts m; data_servers := data_servers m; device_cache := device_cache m;
     device_revision := device_revision m; dirty := v; pending_writes := pending_writes m;
     degenerate_logged := degenerate_logged m; unreachable_ds := unreachable_ds m;
     noresvport := noresvport m; active_generation := active_generation m |}.
Definition set_pending (m : LayoutManager) v : LayoutManager :=
  {| layouts := layouts m; data_servers := data_servers m; device_cache := device_cache m;
     device_revision := device_revision m; dirty := dirty m; pending_writes := v;
     degenerate_logged := degenerate_logged m; unreachable_ds := unreachable_ds m;
     noresvport := noresvport m; active_generation := active_generation m |}.
Definition set_unreachable (m : LayoutManager) v : LayoutManager :=
  {| layouts := layouts m; data_servers := data_servers m; device_cache := device_cache m;
     device_revision := device_revision m; dirty := dirty m; pending_writes := pending_writes m;
     degenerate_logged := degenerate_logged m; unreachable_ds := v;
     noresvport := noresvport m; active_generation := active_generation m |}.
Definition set_generation (m : LayoutManager) g : LayoutManager :=
  {| layouts := layouts m; data_servers := data_servers m; device_cache := device_cache m;
     device_revision := device_revision m; dirty := dirty m; pending_writes := pending_writes m;
     degenerate_logged := degenerate_logged m; unreachable_ds := unreachable_ds m;
     noresvport := noresvport m; active_generation := g |}.
Definition set_logged (m : LayoutManager) b : LayoutManager :=
  {| layouts := layouts m; data_servers := data_servers m; device_cache := device_cache m;
     device_revision := device_revision m; dirty := dirty m; pending_writes := pending_writes m;
     degenerate_logged := b; unreachable_ds := unreachable_ds m;
     noresvport := noresvport m; active_generation := active_generation m |}.

(** ** Generation transition *)

Definition clear_devices (m : LayoutManager) : LayoutManager :=
  set_devices m (wrap64 (device_revision m + 1)) ∅.

(** The steps of [transition_to] after the fence is published, in order. The
    layouts and the connections are cleared under their locks; the dirty ranges
    follow after the gates, which are awaited, and the devices. A cancelled
    transition runs a prefix. *)
Definition clear_owned (m : LayoutManager) : LayoutManager :=
  set_data_servers (set_layouts m ∅) ∅.
Definition clear_dirty (m : LayoutManager) : LayoutManager := set_dirty m ∅.
Definition clear_pending (m : LayoutManager) : LayoutManager := set_pending m ∅.
Definition clear_unreachable (m : LayoutManager) : LayoutManager := set_unreachable m ∅.

Definition transition_steps (generation : Z) : list (LayoutManager -> LayoutManager) :=
  [fun m => set_generation m generation; clear_owned; clear_devices; clear_dirty; clear_pending;
   clear_unreachable].

Definition transition_to (m : LayoutManager) (generation : Z) : LayoutManager :=
  foldl (fun m f => f m) m (transition_steps generation).

(** ** Layouts *)

Definition with_lo_generation (l : Layout) (g : Z) : Layout :=
  {| lo_generation := g; lo_stateid := lo_stateid l; return_on_close := return_on_close l;
     segments := segments l |}.

Definition store_layout_at (m : LayoutManager) (fh : bytes) (generation : Z) (layout : Layout)
    : bool * LayoutManager :=
  if negb (generation =? active_generation m) then (false, m)
  else (true, set_layouts m (<[fh := with_lo_generation layout generation]> (layouts m))).

Definition get_layout (m : LayoutManager) (fh : bytes) : option Layout :=
  match layouts m !! fh with
  | Some l => if lo_generation l =? active_generation m then Some l else None
  | None => None
  end.

Definition get_layout_covering (m : LayoutManager) (fh : bytes) (offset : Z) : option Layout :=
  match get_layout m fh with
  | Some l => if existsb (fun s => covers s offset) (segments l) then Some l else None
  | None => None
  end.

(** The segments kept from the current layout, and the merged list. *)
Definition retained (old new : list LayoutSegment) : list LayoutSegment :=
  filter (fun o => existsb (layout_segments_overlap o) new = false) old.

Definition merge_segments (old new : list LayoutSegment) : list LayoutSegment :=
  sort_by (fun a b => seg_offset a <=? seg_offset b) (retained old new ++ new).

Definition merge_layout (m : LayoutManager) (fh : bytes) (update : Layout) : LayoutManager :=
  if negb (lo_generation update =? active_generation m) then m
  else match layouts m !! fh with
       | Some current =>
           set_layouts m (<[fh :=
             {| lo_generation := lo_generation current; lo_stateid := lo_stateid update;
                return_on_close := return_on_close current || return_on_close update;
                segments := merge_segments (segments current) (segments update) |}]> (layouts m))
       | None => set_layouts m (<[fh := update]> (layouts m))
       end.

Definition remove_layout (m : LayoutManager) (fh : bytes) : option Layout * LayoutManager :=
  (layouts m !! fh, set_layouts m (delete fh (layouts m))).

Definition invalidate_layout_segments (m : LayoutManager) (fh : bytes) : LayoutManager :=
  match layouts m !! fh with
  | Some l => set_layouts m (<[fh := {| lo_generation := lo_generation l;
                lo_stateid := lo_stateid l; return_on_close := return_on_close l;
                segments := [] |}]> (layouts m))
  | None => m
  end.

Definition clear (m : LayoutManager) : LayoutManager :=
  clear_pending (set_dirty (clear_devices (set_layouts m ∅)) ∅).

(** ** Dirty ranges *)

Definition mark_dirty_at (m : LayoutManager) (fh : bytes) (generation start end_ : Z)
    : bool * LayoutManager :=
  if negb (generation =? active_generation m) then (false, m)
  else
    let r := match dirty m !! fh with
             | Some r => {| dr_generation := dr_generation r; dr_start := Z.min (dr_start r) start;
                            dr_end := Z.max (dr_end r) end_; revision := wrap64 (revision r + 1) |}
             | None => {| dr_generation := generation; dr_start := start; dr_end := end_;
                          revision := 0 |}
             end in
    (true, set_dirty m (<[fh := r]> (dirty m))).

Definition snapshot_dirty (m : LayoutManager) (fh : bytes) : option DirtyRange :=
  match dirty m !! fh with
  | Some r => if dr_generation r =? active_generation m then Some r else None
  | None => None
  end.

Definition acknowledge_dirty (m : LayoutManager) (fh : bytes) (committed : DirtyRange)
    : bool * LayoutManager :=
  let unchanged := bool_decide (dirty m !! fh = Some committed) &&
                   (dr_generation committed =? active_generation m) in
  (unchanged, if unchanged then set_dirty m (delete fh (dirty m)) else m).

(** ** Pending writes *)

Definition register_write (m : LayoutManager) (fh : bytes) (w : nat) : LayoutManager :=
  set_pending m (<[fh := default [] (pending_writes m !! fh) ++ [w]]> (pending_writes m)).

Definition get_pending_writes (m : LayoutManager) (fh : bytes) : list nat :=
  default [] (pending_writes m !! fh).

(** [is_done] is the [done] flag of each shared write. *)
Definition prune_completed_writes (is_done : nat -> bool) (m : LayoutManager) (fh : bytes)
    : LayoutManager :=
  match pending_writes m !! fh with
  | None => m
  | Some writes =>
      match filter (fun w => is_done w = false) writes with
      | [] => set_pending m (delete fh (pending_writes m))
      | kept => set_pending m (<[fh := kept]> (pending_writes m))
      end
  end.

(** ** Devices *)

Definition store_device_if_current (m : LayoutManager) (device : bytes) (generation rev : Z)
    (info : DeviceInfo) : bool * LayoutManager :=
  if negb (generation =? active_generation m) || negb (rev =? device_revision m) then (false, m)
  else (true, set_devices m (device_revision m) (<[device := (generation, info)]> (device_cache m))).

Definition get_device (m : LayoutManager) (device : bytes) : option DeviceInfo :=
  match device_cache m !! device with
  | Some (owner, info) => if owner =? active_generation m then Some info else None
  | None => None
  end.

Definition invalidate_device (m : LayoutManager) (device : bytes) (generation : Z)
    (notified : bool) : LayoutManager :=
  if negb (generation =? active_generation m) then m
  else
    let m' := set_devices m (wrap64 (device_revision m + 1)) (delete device (device_cache m)) in
    match device_cache m !! device with
    | Some (_, info) =>
        if notified
        then set_unreachable m' (unreachable_ds m ∖ list_to_set (concat (ds_addrs info)))
        else m'
    | None => m'
    end.

(** ** Data servers *)

Definition should_negative_cache_ds_error (e : NfsError) : bool :=
  match e with
  | Io (ConnectionRefused | HostUnreachable | NetworkUnreachable | TimedOut) _ => true
  | _ => false
  end.

Definition mark_ds_unreachable_at (m : LayoutManager) (addr : SocketAddr) (generation : Z)
    : bool * LayoutManager :=
  if negb (generation =? active_generation m) then (false, m)
  else (true, set_unreachable m ({[addr]} ∪ unreachable_ds m)).

Definition is_ds_unreachable (m : LayoutManager) (addr : SocketAddr) : bool :=
  bool_decide (addr ∈ unreachable_ds m).

Definition should_log_degenerate (m : LayoutManager) : bool * LayoutManager :=
  (negb (degenerate_logged m), set_logged m true).

Definition cached_data_server (m : LayoutManager) (addr : SocketAddr) (generation : Z)
    : option DsConnection :=
  match data_servers m !! addr with
  | Some c => if owner_generation c =? generation then Some c else None
  | None => None
  end.

(** [get_data_server] up to the gate: [None] when a connection has to be made. *)
Definition ds_fast_path (m : LayoutManager) (addr : SocketAddr) (generation : Z)
    : result (option DsConnection) :=
  if negb (generation =? active_generation m)
  then Err (Rpc "refusing data-server I/O for stale MDS generation")
  else Ok (cached_data_server m addr generation).

(** Under the gate, before connecting. [show_addr] is the [Display] of an
    address, which only reaches error texts. *)
Definition ds_gated_check (show_addr : SocketAddr -> string) (m : LayoutManager)
    (addr : SocketAddr) (generation : Z) : result (option DsConnection) :=
  if negb (generation =? active_generation m)
  then Err (Rpc "refusing data-server initialization for stale MDS generation")
  else match cached_data_server m addr generation with
       | Some c => Ok (Some c)
       | None =>
           if is_ds_unreachable m addr
           then Err (Rpc ("pNFS data server " +:+ show_addr addr +:+ " marked unreachable"))
           else Ok None
       end.

(** The outcome of connecting and establishing a session under the timeout. *)
Inductive ConnectOutcome : Type :=
| Connected (client : Z) (s : Session)
| ConnectFailed (e : NfsError)
| ConnectTimedOut.

(** After connecting. The flag says whether the fresh connection is destroyed in
    the background. *)
Definition ds_publish (show_addr : SocketAddr -> string) (m : LayoutManager) (addr : SocketAddr)
    (generation : Z) (o : ConnectOutcome) : result DsConnection * bool * LayoutManager :=
  match o with
  | ConnectFailed e =>
      (Err e, false, if should_negative_cache_ds_error e
                     then snd (mark_ds_unreachable_at m addr generation) else m)
  | ConnectTimedOut =>
      (Err (Rpc ("pNFS data server " +:+ show_addr addr +:+ " connect timed out")), false,
       snd (mark_ds_unreachable_at m addr generation))
  | Connected client s =>
      let conn := {| ds_client := client; ds_session := s; owner_generation := generation |} in
      if negb (active_generation m =? generation)
      then (Err (Rpc "discarding data-server connection from stale MDS generation"), true, m)
      else (Ok conn, false, set_data_servers m (<[addr := conn]> (data_servers m)))
  end.

Definition remove_data_server (m : LayoutManager) (addr : SocketAddr)
    : option DsConnection * LayoutManager :=
  (data_servers m !! addr, set_data_servers m (delete addr (data_servers m))).

Definition drain_data_servers (m : LayoutManager) : list (SocketAddr * DsConnection) * LayoutManager :=
  (map_to_list (data_servers m), set_data_servers m ∅).

(** ** Interleavings *)

(** One atomic step of some task, with the arguments that task carries. *)
Inductive mgr_op : Type :=
| OpStoreLayout (fh : bytes) (g : Z) (l : Layout)
| OpMergeLayout (fh : bytes) (l : Layout)
| OpRemoveLayout (fh : bytes)
| OpInvalidateSegments (fh : bytes)
| OpClear
| OpMarkDirty (fh : bytes) (g start end_ : Z)
| OpAcknowledge (fh : bytes) (r : DirtyRange)
| OpRegister (fh : bytes) (w : nat)
| OpPrune (is_done : nat -> bool) (fh : bytes)
| OpStoreDevice (d : bytes) (g rev : Z) (info : DeviceInfo)
| OpInvalidateDevice (d : bytes) (g : Z) (notified : bool)
| OpPublishDs (addr : SocketAddr) (g : Z) (o : ConnectOutcome)
| OpRemoveDs (addr : SocketAddr)
| OpDrainDs
| OpMarkUnreachable (addr : SocketAddr) (g : Z)
| OpLogDegenerate
| OpPublishGeneration (g : Z)
| OpClearOwned
| OpClearDirty
| OpClearDevices
| OpClearPending
| OpClearUnreachable.

Definition mgr_step (m : LayoutManager) (o : mgr_op) : LayoutManager :=
  match o with
  | OpStoreLayout fh g l => snd (store_layout_at m fh g l)
  | OpMergeLayout fh l => merge_layout m fh l
  | OpRemoveLayout fh => snd (remove_layout m fh)
  | OpInvalidateSegments fh => invalidate_layout_segments m fh
  | OpClear => clear m
  | OpMarkDirty fh g s e => snd (mark_dirty_at m fh g s e)
  | OpAcknowledge fh r => snd (acknowledge_dirty m fh r)
  | OpRegister fh w => register_write m fh w
  | OpPrune is_done fh => prune_completed_writes is_done m fh
  | OpStoreDevice d g rev info => snd (store_device_if_current m d g rev info)
  | OpInvalidateDevice d g n => invalidate_device m d g n
  | OpPublishDs addr g o => snd (ds_publish (fun _ => "addr") m addr g o)
  | OpRemoveDs addr => snd (remove_data_server m addr)
  | OpDrainDs => snd (drain_data_servers m)
  | OpMarkUnreachable addr g => snd (mark_ds_unreachable_at m addr g)
  | OpLogDegenerate => snd (should_log_degenerate m)
  | OpPublishGeneration g => set_generation m g
  | OpClearOwned => clear_owned m
  | OpClearDirty => clear_dirty m
  | OpClearDevices => clear_devices m
  | OpClearPending => clear_pending m
  | OpClearUnreachable => clear_unreachable m
  end.

Definition run (m : LayoutManager) (ops : list mgr_op) : LayoutManager := foldl mgr_step m ops.

Lemma run_cons m o ops : run m (o :: ops) = run (mgr_step m o) ops.
Proof. done. Qed.

(** [transition_to] is its steps run without interruption. *)
Lemma transition_to_run m g :
  transition_to m g =
  run m [OpPublishGeneration g; OpClearOwned; OpClearDevices; OpClearDirty; OpClearPending; OpClearUnreachable].
Proof. done. Qed.

(** Case analysis on one step: unfold it and split its tests. *)
Ltac mgr_cases :=
  unfold store_layout_at, merge_layout, remove_layout, invalidate_layout_segments, clear,
    mark_dirty_at, acknowledge_dirty, register_write, prune_completed_writes,
    store_device_if_current, invalidate_device, ds_publish, mark_ds_unreachable_at,
    remove_data_server, drain_data_servers, should_log_degenerate, clear_owned, clear_dirty, clear_devices,
    clear_pending, clear_unreachable in *;
  repeat match goal with
  | |- context [match ?x with _ => _ end] =>
      lazymatch x with
      | context [match _ with _ => _ end] => fail
      | _ => destruct x eqn:?
      end; cbn [fst snd] in *
  end; cbn in *.

(** ** Merging layouts *)

Definition disjoint_segments : list LayoutSegment -> Prop :=
  ForallOrdPairs (fun a b => layout_segments_overlap a b = false).

Lemma overlap_sym a b : layout_segments_overlap a b = layout_segments_overlap b a.
Proof. apply andb_comm. Qed.

Lemma ForallOrdPairs_perm {A} (R : A -> A -> Prop) l k :
  (forall a b, R a b -> R b a) -> Permutation l k -> ForallOrdPairs R l -> ForallOrdPairs R k.
Proof.
  intros Hsym. induction 1 as [|x l k Hp IH|x y l|l k k2 _ IH1 _ IH2]; intros H; auto.
  - inversion H; subst. constructor; [by rewrite <- Hp|auto].
  - inversion H as [|? ? Hy H']; subst. inversion H' as [|? ? Hx H'']; subst.
    inversion Hy; subst. repeat constructor; auto.
Qed.

Lemma ForallOrdPairs_app {A} (R : A -> A -> Prop) l k :
  ForallOrdPairs R l -> ForallOrdPairs R k -> Forall (fun a => Forall (R a) k) l ->
  ForallOrdPairs R (l ++ k).
Proof.
  induction 1 as [|a l Ha Hl IH]; intros Hk HF; [done|]. inversion HF; subst. cbn. constructor.
  - apply Forall_app; auto.
  - auto.
Qed.

Lemma ForallOrdPairs_filter {A} (P : A -> Prop) `{!forall x, Decision (P x)} (R : A -> A -> Prop) l :
  ForallOrdPairs R l -> ForallOrdPairs R (filter P l).
Proof.
  induction 1 as [|a l Ha Hl IH]; [constructor|]. rewrite filter_cons. destruct (decide (P a)); [|done].
  constructor; [|done]. apply Forall_forall. intros x Hx. apply list_elem_of_filter in Hx as [_ Hx].
  rewrite Forall_forall in Ha. auto.
Qed.

Lemma retained_disjoint old new :
  Forall (fun o => Forall (fun n => layout_segments_overlap o n = false) new) (retained old new).
Proof.
  apply Forall_forall. intros o Ho. apply list_elem_of_filter in Ho as [Ho _].
  apply Forall_forall. intros n Hn. apply list_elem_of_In in Hn.
  destruct (layout_segments_overlap o n) eqn:E; [|done].
  assert (existsb (layout_segments_overlap o) new = true) by (apply existsb_exists; eauto). congruence.
Qed.

Lemma merge_segments_disjoint old new :
  disjoint_segments old -> disjoint_segments new -> disjoint_segments (merge_segments old new).
Proof.
  intros Ho Hn. unfold merge_segments. eapply ForallOrdPairs_perm; [|symmetry; apply sort_by_perm|].
  - intros a b. by rewrite overlap_sym.
  - apply ForallOrdPairs_app; [by apply ForallOrdPairs_filter|done|apply retained_disjoint].
Qed.

(** Two segments that serve the same byte overlap; the last byte of the 64-bit
    range is excluded because the code's exclusive end saturates there. *)
Lemma covers_overlap a b x :
  is_u64 x -> x < u64_max -> covers a x = true -> covers b x = true -> layout_segments_overlap a b = true.
Proof.
  intros Hx Hlt. unfold covers, layout_segments_overlap, segment_end, checked_add64, sat_add64.
  intros Ha Hb. bool_hyps. apply andb_true_iff.
  split; apply Z.ltb_lt; repeat case_match; bool_hyps; simplify_eq; cbn in *; bool_hyps; lia.
Qed.

(** A LAYOUTGET reply merged into a cached layout leaves a layout whose
    segments do not overlap and are sorted by offset; at every byte the new
    reply covers, the segment found for I/O is one of the new reply's, and at
    every byte only old retained segments cover, the mapping is the old one. *)
Theorem merge_layout_prefers_update m fh cur upd :
  layouts m !! fh = Some cur -> lo_generation upd = active_generation m ->
  disjoint_segments (segments cur) -> disjoint_segments (segments upd) ->
  exists l, layouts (merge_layout m fh upd) !! fh = Some l /\
    lo_stateid l = lo_stateid upd /\ disjoint_segments (segments l) /\
    sorted_by (fun a b => seg_offset a <=? seg_offset b) (segments l) /\
    (forall s, s ∈ segments upd -> s ∈ segments l) /\
    (forall x s, is_u64 x -> x < u64_max -> s ∈ segments l -> covers s x = true ->
       (exists t, t ∈ segments upd /\ covers t x = true) -> s ∈ segments upd) /\
    (forall s, s ∈ segments l -> s ∈ segments upd \/ s ∈ segments cur).
Proof.
  intros Hcur Hgen Hdc Hdu. unfold merge_layout. rewrite Hgen, Z.eqb_refl, Hcur. cbn [negb layouts set_layouts].
  rewrite lookup_insert_eq. eexists. split; [done|]. cbn [lo_stateid segments].
  assert (Hel : forall s, s ∈ merge_segments (segments cur) (segments upd) <->
    s ∈ retained (segments cur) (segments upd) \/ s ∈ segments upd).
  { intros s. unfold merge_segments. rewrite (sort_by_perm _ _). apply elem_of_app. }
  split_and!; [done|by apply merge_segments_disjoint| | | |].
  - apply sort_by_sorted; intros *; lia.
  - intros s Hs. apply Hel. by right.
  - intros x s Hx Hlt Hs Hc (t & Ht & Htc). apply Hel in Hs as [Hs|Hs]; [|done].
    pose proof (retained_disjoint (segments cur) (segments upd)) as Hr.
    rewrite Forall_forall in Hr. specialize (Hr s Hs). rewrite Forall_forall in Hr.
    specialize (Hr t Ht). rewrite (covers_overlap s t x) in Hr by done. done.
  - intros s Hs. apply Hel in Hs as [Hs|Hs]; [|by left]. right. by apply list_elem_of_filter in Hs as [_ ?].
Qed.

Definition demo_segment (off len : Z) : LayoutSegment :=
  {| seg_offset := off; seg_length := len; iomode := IoRead; layout_type := Osd2Objects;
     content := OpaqueContent [] |}.
Definition demo_layout (off len : Z) : Layout :=
  {| lo_generation := 1; lo_stateid := zeros 16; return_on_close := false;
     segments := [demo_segment off len] |}.
Definition demo_manager : LayoutManager :=
  set_layouts (LayoutManager_new false) {[ zeros 4 := demo_layout 0 100 ]}.

Lemma merge_layout_prefers_update_witness :
  exists l, layouts (merge_layout demo_manager (zeros 4) (demo_layout 50 100)) !! zeros 4 = Some l /\
    disjoint_segments (segments l).
Proof.
  destruct (merge_layout_prefers_update demo_manager (zeros 4) (demo_layout 0 100) (demo_layout 50 100))
    as (l & Hl & _ & Hd & _).
  - apply lookup_singleton_eq.
  - done.
  - by repeat constructor.
  - by repeat constructor.
  - exists l. by split.
Defined.

(** ** Dirty ranges survive a racing LAYOUTCOMMIT *)

(** A step that does not discard the file's dirty range: acknowledgements of
    that file and the bulk clears are excluded. The code's callers hold the
    file's exclusive I/O gate from snapshot to acknowledgement, which serialises
    the acknowledgements of one file. *)
Definition keeps_dirty (fh : bytes) (o : mgr_op) : Prop :=
  match o with
  | OpAcknowledge fh' _ => fh' <> fh
  | OpClear | OpClearDirty => False
  | _ => True
  end.

(** The ranges of [fh] that the steps mark, as accepted along the run. *)
Fixpoint accepted_marks (fh : bytes) (m : LayoutManager) (ops : list mgr_op) : list (Z * Z) :=
  match ops with
  | [] => []
  | o :: ops =>
      let rest := accepted_marks fh (mgr_step m o) ops in
      match o with
      | OpMarkDirty fh' g s e =>
          if bool_decide (fh' = fh) && fst (mark_dirty_at m fh' g s e) then (s, e) :: rest else rest
      | _ => rest
      end
  end.

Definition contains_range (r : DirtyRange) (p : Z * Z) : Prop := dr_start r <= p.1 /\ p.2 <= dr_end r.

(** A step keeps the entry, or it is an accepted mark that widens it. *)
Lemma dirty_step fh o m r :
  keeps_dirty fh o -> dirty m !! fh = Some r ->
  (accepted_marks fh m [o] = [] /\ dirty (mgr_step m o) !! fh = Some r) \/
  (exists s e, accepted_marks fh m [o] = [(s, e)] /\
     dirty (mgr_step m o) !! fh =
       Some {| dr_generation := dr_generation r; dr_start := Z.min (dr_start r) s;
               dr_end := Z.max (dr_end r) e; revision := wrap64 (revision r + 1) |}).
Proof.
  intros Hk Hr. destruct o; cbn [keeps_dirty accepted_marks mgr_step] in *; try done.
  all: try (left; split; [done|]; mgr_cases; by simplify_map_eq).
  - (* mark *) unfold mark_dirty_at. destruct (g =? active_generation m) eqn:E; cbn [negb fst snd].
    2:{ left. rewrite andb_false_r. by split. }
    rewrite andb_true_r. case_bool_decide as Hf.
    + subst. right. rewrite Hr. eexists _, _. split; [done|]. cbn. by rewrite lookup_insert_eq.
    + left. split; [done|]. cbn. by rewrite lookup_insert_ne.
Qed.

Lemma accepted_marks_cons fh m o ops :
  accepted_marks fh m (o :: ops) = accepted_marks fh m [o] ++ accepted_marks fh (mgr_step m o) ops.
Proof. destruct o; cbn [accepted_marks]; try done. by destruct (_ && _). Qed.

Lemma wrap64_shift a b : wrap64 (wrap64 (a + 1) + b) = wrap64 (a + (1 + b)).
Proof. unfold wrap64. rewrite Z.add_mod_idemp_l by lia. f_equal. lia. Qed.

Lemma dirty_run fh ops : forall m r,
  Forall (keeps_dirty fh) ops -> dirty m !! fh = Some r -> is_u64 (revision r) ->
  let marks := accepted_marks fh m ops in
  exists r', dirty (run m ops) !! fh = Some r' /\ dr_generation r' = dr_generation r /\
    revision r' = wrap64 (revision r + Z.of_nat (length marks)) /\
    contains_range r' (dr_start r, dr_end r) /\ Forall (contains_range r') marks /\
    (marks = [] -> r' = r).
Proof.
  induction ops as [|o ops IH]; intros m r Hk Hr Hu marks; unfold marks.
  - exists r. cbn. split_and!; try done; try (split; cbn; lia); try constructor.
    rewrite Z.add_0_r. unfold wrap64. by rewrite Z.mod_small.
  - inversion Hk as [|? ? Ho Hops]; subst. rewrite accepted_marks_cons, run_cons.
    destruct (dirty_step fh o m r Ho Hr) as [[-> Hr1]|(s & e & -> & Hr1)].
    + apply (IH _ _ Hops Hr1 Hu).
    + destruct (IH _ _ Hops Hr1) as (r' & H1 & H2 & H3 & [H4 H5] & H6 & _).
      { cbn. unfold wrap64, is_u64. apply Z.mod_pos_bound. lia. }
      exists r'. cbn [dr_generation revision dr_start dr_end fst snd] in *. split_and!; try done.
      * rewrite H3, wrap64_shift. cbn [app length]. f_equal. lia.
      * unfold contains_range. cbn. lia.
      * cbn [app]. constructor; [|done]. unfold contains_range. cbn. lia.
Qed.

(** Acknowledging a LAYOUTCOMMIT never loses a write that raced with it.
    After any interleaving between the snapshot and the acknowledgement, the
    acknowledgement succeeds only if no write was recorded for the file in
    between; otherwise the file keeps a dirty range that contains the snapshot
    and every range recorded since. The bound on the interleaving is the period
    of the 64-bit revision counter. *)
Theorem acknowledge_loses_no_mark m fh r ops :
  snapshot_dirty m fh = Some r -> is_u64 (revision r) ->
  Forall (keeps_dirty fh) ops -> Z.of_nat (length (accepted_marks fh m ops)) < 2 ^ 64 ->
  let marks := accepted_marks fh m ops in
  let '(acked, m') := acknowledge_dirty (run m ops) fh r in
  (acked = true -> marks = [] /\ dirty m' !! fh = None) /\
  (acked = false -> exists r', dirty m' !! fh = Some r' /\
     contains_range r' (dr_start r, dr_end r) /\ Forall (contains_range r') marks).
Proof.
  intros Hs Hu Hk Hlen marks. unfold snapshot_dirty in Hs.
  destruct (dirty m !! fh) as [r0|] eqn:Hr; [|done]. destruct (dr_generation r0 =? _); simplify_eq.
  destruct (dirty_run fh ops m r Hk Hr Hu) as (r' & H1 & H2 & H3 & H4 & H5 & H6).
  unfold acknowledge_dirty. destruct (_ && _) eqn:E; split; try done; intros _.
  - apply andb_true_iff in E as [E _]. apply bool_decide_eq_true in E. rewrite H1 in E. simplify_eq.
    split; [|cbn; apply lookup_delete_eq].
    fold marks in H3, Hlen. destruct marks as [|p l]; [done|]. exfalso.
    unfold wrap64, is_u64 in *. cbn [length] in *.
    pose proof (Z.div_mod (revision r + Z.of_nat (S (length l))) (2 ^ 64) ltac:(lia)). nia.
  - eauto.
Qed.

Lemma acknowledge_loses_no_mark_witness :
  let m := snd (mark_dirty_at (LayoutManager_new false) (zeros 4) 1 0 10) in
  exists r', dirty (run m [OpMarkDirty (zeros 4) 1 5 20]) !! zeros 4 = Some r' /\
    contains_range r' (0, 10).
Proof.
  pose proof (acknowledge_loses_no_mark
    (snd (mark_dirty_at (LayoutManager_new false) (zeros 4) 1 0 10)) (zeros 4)
    {| dr_generation := 1; dr_start := 0; dr_end := 10; revision := 0 |}
    [OpMarkDirty (zeros 4) 1 5 20]) as H.
  specialize (H eq_refl ltac:(unfold is_u64; cbn; lia) ltac:(by repeat constructor) eq_refl).
  destruct H as [_ H]. destruct (H eq_refl) as (r' & H1 & H2 & _). exists r'. by split.
Defined.

(** ** A device notification makes a racing GETDEVICEINFO stale *)

(** A notification that the manager acts on, or a bulk clear. *)
Definition device_event (m : LayoutManager) (o : mgr_op) : bool :=
  match o with
  | OpInvalidateDevice _ g _ => g =? active_generation m
  | OpClear | OpClearDevices => true
  | _ => false
  end.

Fixpoint device_events (m : LayoutManager) (ops : list mgr_op) : nat :=
  match ops with
  | [] => 0
  | o :: ops => (if device_event m o then 1 else 0) + device_events (mgr_step m o) ops
  end.

Lemma device_revision_step m o :
  device_revision (mgr_step m o) =
  if device_event m o then wrap64 (device_revision m + 1) else device_revision m.
Proof.
  destruct o; cbn [mgr_step device_event]; mgr_cases; try done.
Qed.

Lemma device_revision_run ops : forall m, is_u64 (device_revision m) ->
  device_revision (run m ops) = wrap64 (device_revision m + Z.of_nat (device_events m ops)).
Proof.
  induction ops as [|o ops IH]; intros m Hm; cbn [device_events].
  - cbn. rewrite Z.add_0_r. unfold wrap64. by rewrite Z.mod_small.
  - rewrite run_cons, IH; rewrite device_revision_step.
    + destruct (device_event m o); [rewrite wrap64_shift|]; f_equal; lia.
    + destruct (device_event m o); [|done]. unfold wrap64, is_u64. apply Z.mod_pos_bound. lia.
Qed.

(** A device mapping fetched by GETDEVICEINFO is cached only if no device
    notification or cache clear happened since the fetch read the revision:
    whatever the other tasks did meanwhile, a store that would publish a stale
    mapping is refused and leaves the cache as it was. *)
Theorem stale_device_never_cached m ops d g info :
  is_u64 (device_revision m) -> Z.of_nat (device_events m ops) < 2 ^ 64 ->
  device_events m ops <> 0%nat ->
  store_device_if_current (run m ops) d g (device_revision m) info = (false, run m ops).
Proof.
  intros Hu Hlen Hne. unfold store_device_if_current.
  rewrite (device_revision_run ops m Hu).
  destruct (Z.eqb_spec (device_revision m) (wrap64 (device_revision m + Z.of_nat (device_events m ops)))) as [E|];
    [|by rewrite orb_true_r].
  exfalso. unfold wrap64, is_u64 in *.
  pose proof (Z.div_mod (device_revision m + Z.of_nat (device_events m ops)) (2 ^ 64) ltac:(lia)). nia.
Qed.

Lemma stale_device_never_cached_witness :
  let m := LayoutManager_new false in
  let ops := [OpInvalidateDevice (zeros 16) 1 true] in
  store_device_if_current (run m ops) (zeros 16) 1 (device_revision m)
    {| stripe_indices := []; ds_addrs := [] |} = (false, run m ops).
Proof. apply stale_device_never_cached; [unfold is_u64; cbn; lia|vm_compute; reflexivity|vm_compute; discriminate]. Defined.

(** ** The generation fence *)

(** No entry is owned by [g]. *)
Record unowned (m : LayoutManager) (g : Z) : Prop := {
  un_layouts : map_Forall (fun _ l => lo_generation l <> g) (layouts m);
  un_servers : map_Forall (fun _ c => owner_generation c <> g) (data_servers m);
  un_devices : map_Forall (fun _ e => fst e <> g) (device_cache m);
  un_dirty : map_Forall (fun _ r => dr_generation r <> g) (dirty m);
}.

(** A step of a task that still works for another generation than [g], or of the
    transition to [g]. *)
Definition stale_op (g : Z) (o : mgr_op) : Prop :=
  match o with
  | OpStoreLayout _ g' _ | OpMarkDirty _ g' _ _ | OpStoreDevice _ g' _ _
  | OpInvalidateDevice _ g' _ | OpPublishDs _ g' _ | OpMarkUnreachable _ g' => g' <> g
  | OpMergeLayout _ l => lo_generation l <> g
  | OpPublishGeneration g' => g' = g
  | _ => True
  end.

Lemma stale_step g m o :
  stale_op g o -> active_generation m = g -> unowned m g ->
  active_generation (mgr_step m o) = g /\ unowned (mgr_step m o) g.
Proof.
  intros Ho Hg [H1 H2 H3 H4]. destruct o; cbn [mgr_step stale_op] in *.
  all: mgr_cases; bool_hyps; try (subst; done).
  all: split; [done|]; constructor; cbn;
    try done; try apply map_Forall_empty; try (by apply map_Forall_delete).
  all: try (apply map_Forall_insert_2; [cbn|done]).
  all: try match goal with H : layouts _ !! _ = Some _ |- _ => by apply (H1 _ _ H) end.
  all: exfalso; congruence.
Qed.

Lemma stale_run g ops : forall m,
  Forall (stale_op g) ops -> active_generation m = g -> unowned m g ->
  active_generation (run m ops) = g /\ unowned (run m ops) g.
Proof.
  induction ops as [|o ops IH]; intros m Hf Hg Hu; [done|]. inversion Hf; subst.
  rewrite run_cons. destruct (stale_step (active_generation m) m o) as [Hg' Hu']; try done.
  by apply IH.
Qed.

(** C15: once a new generation is published, no task still working for an older
    one and no interrupted part of the clean-up can make a stale layout, device,
    data-server connection or dirty range visible: under every interleaving of
    such steps all lookups under the new generation find nothing, so a
    recovered mount starts with empty caches even if the transition is
    cancelled halfway. *)
Theorem generation_fence m g ops :
  unowned m g -> Forall (stale_op g) ops ->
  let m' := run m (OpPublishGeneration g :: ops) in
  (forall fh, get_layout m' fh = None) /\ (forall d, get_device m' d = None) /\
  (forall addr, cached_data_server m' addr g = None) /\ (forall fh, snapshot_dirty m' fh = None).
Proof.
  intros Hu Hf m'.
  destruct (stale_run g ops (set_generation m g)) as [Hg [H1 H2 H3 H4]]; [done|done|by destruct Hu|].
  change (run (set_generation m g) ops) with m' in Hg, H1, H2, H3, H4.
  split_and!; intros k; unfold get_layout, get_device, cached_data_server, snapshot_dirty; rewrite ?Hg.
  - destruct (layouts m' !! k) as [l|] eqn:E; [|done]. apply H1 in E. by apply Z.eqb_neq in E as ->.
  - destruct (device_cache m' !! k) as [[o i]|] eqn:E; [|done]. apply H3 in E. cbn in E.
    by apply Z.eqb_neq in E as ->.
  - destruct (data_servers m' !! k) as [c|] eqn:E; [|done]. apply H2 in E. by apply Z.eqb_neq in E as ->.
  - destruct (dirty m' !! k) as [r|] eqn:E; [|done]. apply H4 in E. by apply Z.eqb_neq in E as ->.
Qed.

Lemma generation_fence_witness :
  get_layout (run demo_manager [OpPublishGeneration 2; OpMergeLayout (zeros 4) (demo_layout 0 7)])
    (zeros 4) = None.
Proof.
  destruct (generation_fence demo_manager 2 [OpMergeLayout (zeros 4) (demo_layout 0 7)]) as [H _].
  - constructor; cbn; try apply map_Forall_empty. by apply map_Forall_singleton.
  - by repeat constructor.
  - exact (H (zeros 4)).
Defined.
