(* ===== verification/Callback.v ===== *)
(** * The callback server

    Models [src/src/nfs41/callback.rs]: the backchannel session with its bounded
    replay cache, the parsing of a CB_COMPOUND call, the recalls it queues and
    the device notifications it applies to the layout manager, and the encoding
    of the reply. The handler runs under the session's lock, so one call is one
    function on the state. *)
From S2P Require Import Prelude Errors Xdr4 Compound41 Layout LayoutMgr.
From stdpp Require Import base list numbers strings gmap.
#[local] Open Scope Z_scope.

Definition MAX_CB_OPS : Z := 64.
Definition MAX_REFERRING_LISTS : Z := 256.

(** The numeric statuses as [callback.rs] declares them. *)
Definition CB_OK : Z := 0.
Definition CBERR_DELAY : Z := 10008.
Definition CBERR_BADXDR : Z := 10036.
Definition CBERR_BADSESSION : Z := 10052.
Definition CBERR_BADSLOT : Z := 10053.
Definition CBERR_OP_ILLEGAL : Z := 10044.
Definition CBERR_SEQ_FALSE_RETRY : Z := 10062.
Definition CBERR_SEQ_MISORDERED : Z := 10063.
Definition CBERR_OP_NOT_IN_SESSION : Z := 10071.
Definition CBERR_MINOR_VERS_MISMATCH : Z := 10021.
Definition CBERR_INVAL : Z := 22.

Definition CB_RECALL : Z := 4.
Definition CB_LAYOUTRECALL : Z := 5.
Definition CB_SEQUENCE : Z := 11.
Definition CB_NOTIFY_DEVICEID : Z := 14.
Definition CB_PROGRAM : Z := 0x40000000.

(** ** State *)

Inductive RecallNotification : Type :=
| Delegation (stateid : bytes) (truncate : bool) (fh : bytes)
| LayoutFile (stateid fh : bytes) (offset length iomode : Z)
| LayoutAll.

Record CallbackSlot : Type := {
  next_sequence : Z;
  slot_request : option bytes;
  compound_reply : option bytes;
}.

Record CallbackSession : Type := {
  cb_minor_version : MinorVersion;
  cb_session_id : bytes;
  cb_generation : Z;
  cb_max_request_size : Z;
  cb_max_operations : Z;
  cb_slots : list CallbackSlot;
}.

(** The bounded [mpsc] channel of the recall handler. *)
Record Channel : Type := { queued : list RecallNotification; capacity : nat; receiver_alive : bool }.

(** What a callback may change besides the session. *)
Record Effects : Type := { channel : Channel; manager : LayoutManager }.

(** [try_send] *)
Definition try_send (c : Channel) (n : RecallNotification) : bool * Channel :=
  if receiver_alive c && (length (queued c) <? capacity c)%nat
  then (true, {| queued := queued c ++ [n]; capacity := capacity c; receiver_alive := true |})
  else (false, c).

Definition callback_slots (max_requests : Z) : list CallbackSlot :=
  replicate (Z.to_nat (Z.max max_requests 1))
    {| next_sequence := 1; slot_request := None; compound_reply := None |}.

Definition clamp_ops (n : Z) : Z := Z.min (Z.max n 1) MAX_CB_OPS.

Definition new_negotiated (session_id : bytes) (generation max_requests max_request_size
    max_operations : Z) (v : MinorVersion) : CallbackSession :=
  {| cb_minor_version := v; cb_session_id := session_id; cb_generation := generation;
     cb_max_request_size := Z.max max_request_size 1; cb_max_operations := clamp_ops max_operations;
     cb_slots := callback_slots max_requests |}.

Definition update_session (s : CallbackSession) (session_id : bytes) (generation max_requests
    max_request_size max_operations : Z) : result CallbackSession :=
  if generation <? cb_generation s then Err (Rpc "refusing stale callback session publication")
  else if (generation =? cb_generation s) && bool_decide (session_id = cb_session_id s) then Ok s
  else Ok {| cb_minor_version := cb_minor_version s; cb_session_id := session_id;
             cb_generation := generation; cb_max_request_size := Z.max max_request_size 1;
             cb_max_operations := clamp_ops max_operations; cb_slots := callback_slots max_requests |}.

Definition set_slot (s : CallbackSession) (i : nat) (x : CallbackSlot) : CallbackSession :=
  {| cb_minor_version := cb_minor_version s; cb_session_id := cb_session_id s;
     cb_generation := cb_generation s; cb_max_request_size := cb_max_request_size s;
     cb_max_operations := cb_max_operations s; cb_slots := <[i := x]> (cb_slots s) |}.

(** ** Replies *)

Definition write_opaque (value : bytes) : bytes :=
  be_bytes 4 (remaining value) ++ value ++ zeros (pad_len (remaining value)).

Definition cb_op_status (opcode status : Z) : bytes := be_bytes 4 opcode ++ be_bytes 4 status.

Definition compound_body (tag : bytes) (status : Z) (replies : list bytes) : bytes :=
  be_bytes 4 status ++ write_opaque tag ++ be_bytes 4 (Z.of_nat (length replies)) ++ concat replies.

Definition compound_error_body (tag : bytes) (status : Z) : bytes := compound_body tag status [].

Definition build_rpc_reply (xid : Z) (body : bytes) : bytes :=
  be_bytes 4 xid ++ be_bytes 4 1 ++ be_bytes 4 0 ++ be_bytes 4 0 ++ be_bytes 4 0 ++ be_bytes 4 0 ++ body.

(** ** Parsing *)

Definition read_opaque (buf : bytes) : result (bytes * bytes) :=
  let* _ := require 4 (Xdr "opaque length truncated") buf in
  let* (len, buf) := get_u32 buf in
  let* _ := require (padded len) (Xdr "opaque data truncated") buf in
  let* value := slice_to len buf in
  let* buf := advance (padded len) buf in
  Ok (value, buf).

Definition read_rpc_auth (buf : bytes) : result (Z * Z * bytes) :=
  let* _ := require 8 (Xdr "RPC auth truncated") buf in
  let* (flavor, buf) := get_u32 buf in
  let* (len, buf) := get_u32 buf in
  let* _ := require (padded len) (Xdr "RPC auth body truncated") buf in
  let* buf := advance (padded len) buf in
  Ok (flavor, len, buf).

Record SequenceArgs : Type := { sa_session_id : bytes; sa_sequence_id : Z; sa_slot_id : Z }.

Definition skip_referring (buf : bytes) : result bytes :=
  let* _ := require 20 (Xdr "referring call list truncated") buf in
  let* buf := advance 16 buf in
  let* (calls, buf) := get_u32 buf in
  let* _ := require (calls * 8) (Xdr "referring calls truncated") buf in
  advance (calls * 8) buf.

Definition parse_sequence (buf : bytes) : result (SequenceArgs * bytes) :=
  let* _ := require 32 (Xdr "CB_SEQUENCE truncated") buf in
  let* (sid, buf) := split_to 16 buf in
  let* (seq, buf) := get_u32 buf in
  let* (slot, buf) := get_u32 buf in
  let* (_, buf) := get_u32 buf in
  let* (_, buf) := get_u32 buf in
  let* _ := require 4 (Xdr "referring call list count truncated") buf in
  let* (count, buf) := get_u32 buf in
  if MAX_REFERRING_LISTS <? count then Err (Xdr "too many referring call lists")
  else
    let* buf := for_count count skip_referring buf in
    Ok ({| sa_session_id := sid; sa_sequence_id := seq; sa_slot_id := slot |}, buf).

Definition sequence_reply (s : SequenceArgs) (max_slot : Z) (session_id : bytes) : bytes :=
  cb_op_status CB_SEQUENCE CB_OK ++ session_id ++ be_bytes 4 (sa_sequence_id s) ++
  be_bytes 4 (sa_slot_id s) ++ be_bytes 4 max_slot ++ be_bytes 4 max_slot.

(** *** Device notifications *)

(** One CHANGE (bit 2) or DELETE (bit 4) value, when its bit is set. *)
Definition read_device_value (mask bit size : Z) (st : list bytes * bytes)
    : result (list bytes * bytes) :=
  let '(devices, values) := st in
  if Z.land mask bit =? 0 then Ok (devices, values)
  else
    let* _ := require size (Xdr "device notification value truncated") values in
    let* (layout_type, values) := get_u32 values in
    let* (device, values) := split_to 16 values in
    let* values :=
      (if bit =? 2 then
         let* (immediate, values) := get_u32 values in
         if 1 <? immediate then Err (Xdr "invalid device notification boolean") else Ok values
       else Ok values) in
    Ok (if layout_type =? 1 then devices ++ [device] else devices, values).

Definition zero_word (buf : bytes) : result bytes :=
  let* (w, buf) := get_u32 buf in
  if negb (w =? 0) then Err (Xdr "unknown device notification type") else Ok buf.

Definition read_notification (st : list bytes * bytes) : result (list bytes * bytes) :=
  let '(devices, buf) := st in
  let* _ := require 8 (Xdr "invalid device notification bitmap") buf in
  let* (words, buf) := get_u32 buf in
  if (words =? 0) || (remaining buf / 4 <? words) then Err (Xdr "device notification bitmap truncated")
  else
    let* (mask, buf) := get_u32 buf in
    let* buf := for_count (words - 1) zero_word buf in
    if (mask =? 0) || negb (Z.ldiff mask 6 =? 0) then Err (Xdr "unknown device notification type")
    else
      let* (values, buf) := read_opaque buf in
      let* st := read_device_value mask 2 24 (devices, values) in
      let* (devices, values) := read_device_value mask 4 20 st in
      match values with
      | [] => Ok (devices, buf)
      | _ => Err (Xdr "trailing device notification values")
      end.

Definition parse_device_notifications (buf : bytes) : result (list bytes * bytes) :=
  let* _ := require 4 (Xdr "device notification count truncated") buf in
  let* (count, buf) := get_u32 buf in
  if (4096 <? count) || (remaining buf / 12 <? count)
  then Err (Xdr "device notification count exceeds payload")
  else for_count count read_notification ([], buf).

(** *** Operations *)

(** Each returns the reply, its status, the rest of the request and the
    effects. A malformed operation leaves the cursor where it failed; the loop
    stops there, so that position is never read. *)
Definition cb_bad (opcode status : Z) (buf : bytes) (fx : Effects) : result (bytes * Z * bytes * Effects) :=
  Ok (cb_op_status opcode status, status, buf, fx).

Definition cb_notify (opcode : Z) (n : RecallNotification) (buf : bytes) (fx : Effects)
    : result (bytes * Z * bytes * Effects) :=
  let '(sent, c) := try_send (channel fx) n in
  let status := if sent then CB_OK else CBERR_DELAY in
  Ok (cb_op_status opcode status, status, buf, {| channel := c; manager := manager fx |}).

Definition parse_recall (opcode : Z) (buf : bytes) (fx : Effects)
    : result (bytes * Z * bytes * Effects) :=
  if remaining buf <? 20 then cb_bad opcode CBERR_BADXDR buf fx
  else
    let* (stateid, buf) := split_to 16 buf in
    let* (t, buf) := get_u32 buf in
    match read_opaque buf with
    | Ok (fh, buf) => cb_notify opcode (Delegation stateid (negb (t =? 0)) fh) buf fx
    | Err _ => cb_bad opcode CBERR_BADXDR buf fx
    | Panic => Panic
    end.

Definition parse_layout_recall (opcode : Z) (buf : bytes) (fx : Effects)
    : result (bytes * Z * bytes * Effects) :=
  if remaining buf <? 16 then cb_bad opcode CBERR_BADXDR buf fx
  else
    let* (_, buf) := get_u32 buf in
    let* (iomode, buf) := get_u32 buf in
    let* (_, buf) := get_u32 buf in
    let* (recall_type, buf) := get_u32 buf in
    match recall_type with
    | 1 =>
        match read_opaque buf with
        | Err _ => cb_bad opcode CBERR_BADXDR buf fx
        | Panic => Panic
        | Ok (fh, buf) =>
            if remaining buf <? 32 then cb_bad opcode CBERR_BADXDR buf fx
            else
              let* (offset, buf) := get_u64 buf in
              let* (len, buf) := get_u64 buf in
              let* (stateid, buf) := split_to 16 buf in
              cb_notify opcode (LayoutFile stateid fh offset len iomode) buf fx
        end
    | 2 => if remaining buf <? 16 then cb_bad opcode CBERR_BADXDR buf fx
           else let* buf := advance 16 buf in cb_notify opcode LayoutAll buf fx
    | 3 => cb_notify opcode LayoutAll buf fx
    | _ => cb_bad opcode CBERR_INVAL buf fx
    end.

Definition notify_devices (devices : list bytes) (generation : Z) (m : LayoutManager) : LayoutManager :=
  foldl (fun m d => invalidate_device m d generation true) m devices.

Definition parse_callback_op (opcode : Z) (buf : bytes) (generation : Z) (fx : Effects)
    : result (bytes * Z * bytes * Effects) :=
  if opcode =? CB_RECALL then parse_recall opcode buf fx
  else if opcode =? CB_LAYOUTRECALL then parse_layout_recall opcode buf fx
  else if opcode =? CB_NOTIFY_DEVICEID then
    match parse_device_notifications buf with
    | Ok (devices, buf) =>
        Ok (cb_op_status opcode CB_OK, CB_OK, buf,
            {| channel := channel fx; manager := notify_devices devices generation (manager fx) |})
    | Err _ => cb_bad opcode CBERR_BADXDR buf fx
    | Panic => Panic
    end
  else cb_bad opcode CBERR_OP_ILLEGAL buf fx.

(** [for _ in 1..num_ops] with its breaks: [n] operations are left. *)
Fixpoint callback_ops (n : nat) (generation : Z) (buf : bytes) (replies : list bytes) (status : Z)
    (fx : Effects) : result (list bytes * Z * Effects) :=
  match n with
  | O => Ok (replies, status, fx)
  | S n =>
      if remaining buf <? 4 then Ok (replies, CBERR_BADXDR, fx)
      else
        let* (opcode, buf) := get_u32 buf in
        let* (reply, op_status, buf, fx) := parse_callback_op opcode buf generation fx in
        if negb (op_status =? CB_OK) then Ok (replies ++ [reply], op_status, fx)
        else callback_ops n generation buf (replies ++ [reply]) op_status fx
  end.

(** ** The handler *)

Definition cb_seq_error (tag : bytes) (status : Z) : bytes :=
  compound_body tag status [cb_op_status CB_SEQUENCE status].

(** A call on an accepted slot with the next sequence number: run it, advance
    the slot and cache request and reply. *)
Definition execute_callback (tag request buf : bytes) (num_ops : Z) (sq : SequenceArgs)
    (s : CallbackSession) (fx : Effects) : result (bytes * CallbackSession * Effects) :=
  let max_slot := Z.of_nat (length (cb_slots s)) - 1 in
  let* (replies, status, fx) :=
    callback_ops (Z.to_nat (num_ops - 1)) (cb_generation s) buf
      [sequence_reply sq max_slot (cb_session_id s)] CB_OK fx in
  let reply := compound_body tag status replies in
  Ok (reply,
      set_slot s (Z.to_nat (sa_slot_id sq))
        {| next_sequence := wrap32 (sa_sequence_id sq + 1); slot_request := Some request;
           compound_reply := Some reply |}, fx).

(** The slot decides: replay, refuse or execute. *)
Definition on_slot (tag request buf : bytes) (num_ops : Z) (sq : SequenceArgs) (slot : CallbackSlot)
    (s : CallbackSession) (fx : Effects) : result (bytes * CallbackSession * Effects) :=
  if (sa_sequence_id sq =? wrap32 (next_sequence slot - 1)) && bool_decide (is_Some (slot_request slot))
  then match compound_reply slot with
       | Some reply =>
           if bool_decide (slot_request slot = Some request) then Ok (reply, s, fx)
           else Ok (cb_seq_error tag CBERR_SEQ_FALSE_RETRY, s, fx)
       | None => Ok (cb_seq_error tag CBERR_SEQ_FALSE_RETRY, s, fx)
       end
  else if negb (sa_sequence_id sq =? next_sequence slot)
  then Ok (cb_seq_error tag CBERR_SEQ_MISORDERED, s, fx)
  else execute_callback tag request buf num_ops sq s fx.

Definition parse_compound (request : bytes) (s : CallbackSession) (fx : Effects)
    : result (bytes * CallbackSession * Effects) :=
  let* (tag, buf) := read_opaque request in
  let* _ := require 12 (Xdr "CB_COMPOUND args truncated") buf in
  let* (minor_version, buf) := get_u32 buf in
  let* (_, buf) := get_u32 buf in
  let* (num_ops, buf) := get_u32 buf in
  if negb (minor_version =? MinorVersion_u32 (cb_minor_version s))
  then Ok (compound_error_body tag CBERR_MINOR_VERS_MISMATCH, s, fx)
  else if (cb_max_request_size s <? remaining request) || (cb_max_operations s <? num_ops)
  then Ok (compound_error_body tag CBERR_BADXDR, s, fx)
  else if num_ops =? 0 then Ok (compound_body tag CB_OK [], s, fx)
  else if remaining buf <? 4 then Ok (compound_error_body tag CBERR_BADXDR, s, fx)
  else
    let* (first_opcode, buf) := get_u32 buf in
    if negb (first_opcode =? CB_SEQUENCE)
    then Ok (compound_body tag CBERR_OP_NOT_IN_SESSION
               [cb_op_status first_opcode CBERR_OP_NOT_IN_SESSION], s, fx)
    else
      match parse_sequence buf with
      | Err _ => Ok (cb_seq_error tag CBERR_BADXDR, s, fx)
      | Panic => Panic
      | Ok (sq, buf) =>
          if negb (bool_decide (sa_session_id sq = cb_session_id s))
          then Ok (cb_seq_error tag CBERR_BADSESSION, s, fx)
          else match cb_slots s !! Z.to_nat (sa_slot_id sq) with
               | None => Ok (cb_seq_error tag CBERR_BADSLOT, s, fx)
               | Some slot => on_slot tag request buf num_ops sq slot s fx
               end
      end.

Definition parse_rpc_call (xid : Z) (buf : bytes) (s : CallbackSession) (fx : Effects)
    : result (bytes * CallbackSession * Effects) :=
  let* _ := require 20 (Xdr "CB RPC header too short") buf in
  let* (msg_type, buf) := get_u32 buf in
  let* (rpc_version, buf) := get_u32 buf in
  let* (program, buf) := get_u32 buf in
  let* (version, buf) := get_u32 buf in
  let* (procedure, buf) := get_u32 buf in
  if negb (msg_type =? 0) || negb (rpc_version =? 2) || negb (program =? CB_PROGRAM)
     || negb (version =? 1)
  then Err (Rpc ("invalid callback RPC header type=" +:+ fmtZ msg_type +:+ " rpc=" +:+
                 fmtZ rpc_version +:+ " program=" +:+ fmtZ program +:+ " version=" +:+ fmtZ version))
  else
    let* (flavor1, len1, buf) := read_rpc_auth buf in
    let* (flavor2, len2, buf) := read_rpc_auth buf in
    if negb (flavor1 =? 0) || negb (len1 =? 0) || negb (flavor2 =? 0) || negb (len2 =? 0)
    then Err (Rpc "callback RPC authentication does not match negotiated AUTH_NONE")
    else if procedure =? 0 then Ok (build_rpc_reply xid [], s, fx)
    else if negb (procedure =? 1)
    then Err (Rpc ("unsupported callback procedure " +:+ fmtZ procedure))
    else
      let* (compound, s, fx) := parse_compound buf s fx in
      Ok (build_rpc_reply xid compound, s, fx).

(** [handle_cb_rpc]: the reply, if any, and the new state. An error of the
    parser is answered without having changed anything. *)
Definition handle_cb_rpc (frame : bytes) (s : CallbackSession) (fx : Effects)
    : result (option bytes * CallbackSession * Effects) :=
  if remaining frame <? 4 then Ok (None, s, fx)
  else
    let* (xid, buf) := get_u32 frame in
    match parse_rpc_call xid buf s fx with
    | Ok (reply, s, fx) => Ok (Some reply, s, fx)
    | Err _ => Ok (Some (build_rpc_reply xid (compound_error_body [] CBERR_BADXDR)), s, fx)
    | Panic => Panic
    end.

(** ** Totality *)

Lemma wpo_read_opaque buf : wpo (read_opaque buf) (fun '(_, r) => r `suffix_of` buf).
Proof. unfold read_opaque. wp. pose proof (padded_ge v). wp. suffix_tac. Qed.

Lemma wpo_read_rpc_auth buf : wpo (read_rpc_auth buf) (fun _ => True).
Proof. unfold read_rpc_auth. wp. pose proof (padded_ge v0). by wp. Qed.

Lemma wpo_parse_sequence buf : wpo (parse_sequence buf) (fun _ => True).
Proof.
  unfold parse_sequence. wp. eapply (wpo_for_count _ _ (fun _ => True)); [done| |by intros; wp].
  intros b _. unfold skip_referring. by wp.
Qed.

Lemma wpo_read_device_value mask bit size st :
  bit = 2 /\ size = 24 \/ bit = 4 /\ size = 20 -> wpo (read_device_value mask bit size st) (fun _ => True).
Proof.
  intros Hs. destruct st as [ds vs]. unfold read_device_value. wp; try done.
  all: destruct Hs as [[-> ->]|[-> ->]]; wp; done.
Qed.

Lemma wpo_zero_words n : forall buf,
  4 * Z.of_nat n <= remaining buf -> wpo (loop_nat n zero_word buf) (fun _ => True).
Proof.
  induction n as [|n IH]; intros buf Hn; cbn [loop_nat]; [done|]. wp. unfold zero_word. wp.
  apply IH. lia.
Qed.

Lemma wpo_read_notification st : wpo (read_notification st) (fun _ => True).
Proof.
  destruct st as [ds buf]. unfold read_notification. wp. bool_hyps.
  rewrite for_count_nat. eapply wpo_mono.
  { apply wpo_zero_words. pose proof (Z.mul_div_le (remaining rest) 4 ltac:(lia)). unfold_int. lia. }
  intros b _. wp. wp_call wpo_read_opaque. intros [vs b2] _. wp.
  wp_call wpo_read_device_value; [by left|]. intros st _. wp.
  wp_call wpo_read_device_value; [by right|]. intros [ds' vs'] _. destruct vs'; by wp.
Qed.

Lemma wpo_parse_device_notifications buf : wpo (parse_device_notifications buf) (fun _ => True).
Proof.
  unfold parse_device_notifications. wp. eapply (wpo_for_count _ _ (fun _ => True)); [done| |done].
  intros st _. apply wpo_read_notification.
Qed.

(** A callback operation always answers: it neither panics nor fails. *)
Definition answers {A} (o : result A) : Prop := match o with Ok _ => True | _ => False end.

Lemma cb_notify_answers opcode n buf fx : answers (cb_notify opcode n buf fx).
Proof. unfold cb_notify. by destruct (try_send _ _). Qed.

Lemma get_u32_ok buf : 4 <= remaining buf ->
  exists v rest, @get_u32 NfsError buf = Ok (v, rest) /\ remaining rest = remaining buf - 4.
Proof.
  intros H. unfold get_u32, get_uint. destruct (Z.ltb_spec (remaining buf) (Z.of_nat 4)); [lia|].
  eexists _, _. split; [done|]. rlia.
Qed.

Lemma get_u64_ok buf : 8 <= remaining buf ->
  exists v rest, @get_u64 NfsError buf = Ok (v, rest) /\ remaining rest = remaining buf - 8.
Proof.
  intros H. unfold get_u64, get_uint. destruct (Z.ltb_spec (remaining buf) (Z.of_nat 8)); [lia|].
  eexists _, _. split; [done|]. rlia.
Qed.

Lemma split_to_ok n buf : 0 <= n <= remaining buf ->
  exists a rest, @split_to NfsError n buf = Ok (a, rest) /\ remaining rest = remaining buf - n.
Proof.
  intros H. unfold split_to. destruct (Z.ltb_spec (remaining buf) n); [lia|].
  eexists _, _. split; [done|]. by apply remaining_skipn.
Qed.

(** Reduce the next read of a buffer known to be long enough. *)
Ltac read_ok :=
  match goal with
  | |- context [obind (get_u32 ?b) _] =>
      destruct (get_u32_ok b) as (? & ? & -> & ?); [lia|]; cbn [obind]
  | |- context [obind (get_u64 ?b) _] =>
      destruct (get_u64_ok b) as (? & ? & -> & ?); [lia|]; cbn [obind]
  | |- context [obind (split_to ?n ?b) _] =>
      destruct (split_to_ok n b) as (? & ? & -> & ?); [lia|]; cbn [obind]
  end.

Lemma parse_recall_answers opcode buf fx : answers (parse_recall opcode buf fx).
Proof.
  unfold parse_recall. destruct (Z.ltb_spec (remaining buf) 20); [done|]. repeat read_ok.
  match goal with |- context [read_opaque ?b] => pose proof (wpo_read_opaque b) as Hr end.
  destruct (read_opaque _) as [[fh b]|e|]; [apply cb_notify_answers|done|done].
Qed.

Lemma parse_layout_recall_answers opcode buf fx : answers (parse_layout_recall opcode buf fx).
Proof.
  unfold parse_layout_recall. destruct (Z.ltb_spec (remaining buf) 16); [done|]. repeat read_ok.
  repeat case_match; try done; try apply cb_notify_answers.
  all: bool_hyps; repeat read_ok; try apply cb_notify_answers.
  - unfold advance. case_match; bool_hyps; [lia|]. apply cb_notify_answers.
  - match goal with H : read_opaque ?b = _ |- _ => pose proof (wpo_read_opaque b) as Hr; by rewrite H in Hr end.
Qed.

Lemma parse_callback_op_answers opcode buf g fx : answers (parse_callback_op opcode buf g fx).
Proof.
  unfold parse_callback_op. repeat case_match; try done; [apply parse_recall_answers|apply parse_layout_recall_answers|].
  pose proof (wpo_parse_device_notifications buf) as Hr.
  match goal with H : parse_device_notifications buf = _ |- _ => by rewrite H in Hr end.
Qed.

Lemma callback_ops_answers n g : forall buf replies status fx,
  answers (callback_ops n g buf replies status fx).
Proof.
  induction n as [|n IH]; intros buf replies status fx; cbn [callback_ops]; [done|].
  destruct (Z.ltb_spec (remaining buf) 4); [done|]. read_ok.
  pose proof (parse_callback_op_answers x x0 g fx) as Ha.
  destruct (parse_callback_op _ _ _ _) as [[[[reply st] b] fx']|e|]; [|done..]. cbn [obind].
  destruct (negb _); [done|]. apply IH.
Qed.

Lemma execute_answers tag request buf n sq s fx : answers (execute_callback tag request buf n sq s fx).
Proof.
  unfold execute_callback. pose proof (callback_ops_answers (Z.to_nat (n - 1)) (cb_generation s) buf
    [sequence_reply sq (Z.of_nat (length (cb_slots s)) - 1) (cb_session_id s)] CB_OK fx) as Ha.
  by destruct (callback_ops _ _ _ _ _ _) as [[[r st] fx']|e|].
Qed.

Lemma wpo_answers {A} (o : result A) : answers o -> wpo o (fun _ => True).
Proof. by destruct o. Qed.

Lemma wpo_parse_compound request s fx : wpo (parse_compound request s fx) (fun _ => True).
Proof.
  unfold parse_compound. wp. wp_call wpo_read_opaque. intros [tag buf] _. wp; try done. bool_hyps. wp; try done.
  pose proof (wpo_parse_sequence rest2) as Hs.
  destruct (parse_sequence rest2) as [[sq b]|e|]; try done. wp; try done.
  unfold on_slot. wp; try done. apply wpo_answers, execute_answers.
Qed.

(** No frame a server can send on the backchannel, well-formed or not, makes
    the callback handler panic, and every frame that carries a transaction
    identifier gets an answer. *)
Theorem handle_cb_rpc_total frame s fx :
  exists reply s' fx', handle_cb_rpc frame s fx = Ok (reply, s', fx') /\
    (4 <= remaining frame -> is_Some reply).
Proof.
  unfold handle_cb_rpc. destruct (Z.ltb_spec (remaining frame) 4).
  { eexists _, _, _. split; [done|lia]. }
  read_ok. assert (Hp : wpo (parse_rpc_call x x0 s fx) (fun _ => True)).
  { unfold parse_rpc_call. wp. wp_call wpo_read_rpc_auth. intros [[f1 l1] b1] _. wp.
    wp_call wpo_read_rpc_auth. intros [[f2 l2] b2] _. wp; try done.
    wp_call wpo_parse_compound. intros [[c s'] fx'] _. by wp. }
  destruct (parse_rpc_call x x0 s fx) as [[[reply s'] fx']|e|]; [| |done]; eexists _, _, _; by split.
Qed.

(** ** Exactly-once execution *)

(** The same negotiated session, whatever its slots hold. *)
Record same_session (s s' : CallbackSession) : Prop := {
  ss_minor : cb_minor_version s' = cb_minor_version s;
  ss_id : cb_session_id s' = cb_session_id s;
  ss_size : cb_max_request_size s' = cb_max_request_size s;
  ss_ops : cb_max_operations s' = cb_max_operations s;
}.

Lemma parse_sequence_u32 buf sq rest : parse_sequence buf = Ok (sq, rest) -> is_u32 (sa_sequence_id sq).
Proof.
  enough (H : wpo (parse_sequence buf) (fun '(sq, _) => is_u32 (sa_sequence_id sq))) by (by intros E; rewrite E in H).
  unfold parse_sequence. wp. eapply (wpo_for_count _ _ (fun _ => True)); [done| |by intros; wp].
  intros b _. unfold skip_referring. by wp.
Qed.

Lemma wrap32_pred q : is_u32 q -> wrap32 (wrap32 (q + 1) - 1) = q.
Proof.
  intros Hq. unfold wrap32. rewrite Zminus_mod_idemp_l. replace (q + 1 - 1) with q by lia.
  by apply Z.mod_small.
Qed.

(** What the slot stage does: nothing, or an execution that leaves the slot ready
    to answer the same request from its cache. *)
Lemma on_slot_once tag request buf n sq slot s fx r s1 fx1 :
  cb_slots s !! Z.to_nat (sa_slot_id sq) = Some slot -> is_u32 (sa_sequence_id sq) ->
  on_slot tag request buf n sq slot s fx = Ok (r, s1, fx1) ->
  (s1 = s /\ fx1 = fx) \/
  exists slot', s1 = set_slot s (Z.to_nat (sa_slot_id sq)) slot' /\
    next_sequence slot' = wrap32 (next_sequence slot + 1) /\
    forall buf2 n2 s2 fx2, on_slot tag request buf2 n2 sq slot' s2 fx2 = Ok (r, s2, fx2).
Proof.
  intros Hs Hq. unfold on_slot at 1.
  destruct (_ && _). { repeat case_match; intros [= <- <- <-]; by left. }
  destruct (Z.eqb_spec (sa_sequence_id sq) (next_sequence slot)) as [E|]; cbn [negb];
    [|intros [= <- <- <-]; by left].
  unfold execute_callback. destruct (callback_ops _ _ _ _ _ _) as [[[replies st] fx']|e|]; [|done..].
  cbn [obind]. intros [= <- <- <-]. right. eexists. split; [done|]. cbn. split; [by rewrite E|].
  intros buf2 n2 s2 fx2. unfold on_slot. cbn. rewrite wrap32_pred by done. rewrite Z.eqb_refl.
  rewrite !bool_decide_eq_true_2 by (done || by eexists). done.
Qed.

(** C16: a callback takes effect at most once. A call either changes nothing at
    all (it is refused, or answered from the cache), or it consumes the next
    sequence number of one slot; from then on, while that slot holds its entry,
    every retransmission of the same call in the same session gets the same
    reply and changes nothing: no recall is queued twice and no device is
    invalidated twice. *)
Theorem callback_effects_once request s fx r s1 fx1 :
  parse_compound request s fx = Ok (r, s1, fx1) ->
  (s1 = s /\ fx1 = fx) \/
  exists i slot slot', cb_slots s !! i = Some slot /\ s1 = set_slot s i slot' /\
    next_sequence slot' = wrap32 (next_sequence slot + 1) /\
    (forall s2 fx2, same_session s1 s2 -> cb_slots s2 !! i = Some slot' ->
       parse_compound request s2 fx2 = Ok (r, s2, fx2)).
Proof.
  unfold parse_compound.
  destruct (read_opaque request) as [[tag buf]|e|]; cbn [obind]; [|done..].
  destruct (require 12 _ buf); cbn [obind]; [|done..].
  destruct (get_u32 buf) as [[minor b1]|e|]; cbn [obind]; [|done..].
  destruct (get_u32 b1) as [[ident b2]|e|]; cbn [obind]; [|done..].
  destruct (get_u32 b2) as [[num_ops b3]|e|]; cbn [obind]; [|done..].
  destruct (negb (minor =? _)) eqn:E1; [intros [= <- <- <-]; by left|].
  destruct (_ || _) eqn:E2; [intros [= <- <- <-]; by left|].
  destruct (num_ops =? 0) eqn:E3; [intros [= <- <- <-]; by left|].
  destruct (remaining b3 <? 4) eqn:E4; [intros [= <- <- <-]; by left|].
  destruct (get_u32 b3) as [[first b4]|e|]; cbn [obind]; [|done..].
  destruct (negb (first =? CB_SEQUENCE)) eqn:E5; [intros [= <- <- <-]; by left|].
  destruct (parse_sequence b4) as [[sq b5]|e|] eqn:Es; [|intros [= <- <- <-]; by left|done].
  destruct (negb (bool_decide (sa_session_id sq = _))) eqn:E6; [intros [= <- <- <-]; by left|].
  destruct (cb_slots s !! _) as [slot|] eqn:El; [|intros [= <- <- <-]; by left].
  intros H. apply on_slot_once in H as [H|(slot' & -> & Hn & Hr)]; [by left| |done|by eapply parse_sequence_u32].
  right. exists (Z.to_nat (sa_slot_id sq)), slot, slot'. split_and!; [done|done|done|].
  intros s2 fx2 [S1 S2 S3 S4] Hl. cbn in S1, S2, S3, S4.
  rewrite S1, S2, S3, S4, E1, E2, E6, Hl. apply Hr.
Qed.

(** A CB_COMPOUND with CB_SEQUENCE and a CB_RECALL. *)
Definition demo_cb_session : CallbackSession := new_negotiated (zeros 16) 1 1 4096 2 V1.
Definition demo_effects : Effects :=
  {| channel := {| queued := []; capacity := 4; receiver_alive := true |};
     manager := LayoutManager_new false |}.
Definition demo_recall : bytes :=
  be_bytes 4 0 ++ be_bytes 4 1 ++ be_bytes 4 0 ++ be_bytes 4 2 ++
  be_bytes 4 11 ++ zeros 16 ++ be_bytes 4 1 ++ be_bytes 4 0 ++ be_bytes 4 0 ++ be_bytes 4 0 ++
  be_bytes 4 0 ++ be_bytes 4 4 ++ zeros 16 ++ be_bytes 4 0 ++ be_bytes 4 4 ++ zeros 4.

Example demo_recall_runs :
  match parse_compound demo_recall demo_cb_session demo_effects with
  | Ok (_, s1, fx1) =>
      match parse_compound demo_recall s1 fx1 with
      | Ok (_, _, fx2) => (length (queued (channel fx1)), length (queued (channel fx2))) = (1, 1)%nat
      | _ => False
      end
  | _ => False
  end.
Proof. vm_compute. reflexivity. Qed.

Lemma callback_effects_once_witness :
  exists r s1 fx1, parse_compound demo_recall demo_cb_session demo_effects = Ok (r, s1, fx1) /\
    ((s1 = demo_cb_session /\ fx1 = demo_effects) \/
     exists i slot slot', cb_slots demo_cb_session !! i = Some slot /\
       s1 = set_slot demo_cb_session i slot' /\
       next_sequence slot' = wrap32 (next_sequence slot + 1) /\
       (forall s2 fx2, same_session s1 s2 -> cb_slots s2 !! i = Some slot' ->
          parse_compound demo_recall s2 fx2 = Ok (r, s2, fx2))).
Proof.
  destruct (parse_compound demo_recall demo_cb_session demo_effects) as [[[r s1] fx1]|e|] eqn:E.
  - exists r, s1, fx1. split; [reflexivity|].
    exact (callback_effects_once demo_recall demo_cb_session demo_effects r s1 fx1 E).
  - vm_compute in E. discriminate.
  - vm_compute in E. discriminate.
Defined.

(** ** Publishing a session *)

(** Publishing a callback session never goes back to an older generation;
    publishing the current one again keeps the replay cache, and a new one
    starts every slot empty at sequence 1 with at least one slot. *)
Theorem update_session_monotone s sid g reqs size ops_ s' :
  update_session s sid g reqs size ops_ = Ok s' ->
  cb_generation s <= cb_generation s' /\ cb_generation s' = g /\ cb_session_id s' = sid /\
  (s' = s \/
   (cb_slots s' <> [] /\
    Forall (fun x => next_sequence x = 1 /\ slot_request x = None /\ compound_reply x = None)
      (cb_slots s'))).
Proof.
  unfold update_session. destruct (Z.ltb_spec g (cb_generation s)) as [|Hg]; [done|].
  destruct (_ && _) eqn:E.
  - intros [= <-]. apply andb_true_iff in E as [E1 E2]. apply Z.eqb_eq in E1.
    apply bool_decide_eq_true in E2. split_and!; try done; by left.
  - intros [= <-]. cbn. split_and!; try done. right. unfold callback_slots. split.
    + destruct (Z.to_nat (Z.max reqs 1)) eqn:Ez; [lia|done].
    + by apply Forall_replicate.
Qed.

Lemma update_session_monotone_witness :
  exists s', update_session demo_cb_session (zeros 16) 2 1 4096 2 = Ok s' /\
    cb_generation demo_cb_session <= cb_generation s'.
Proof.
  eexists. split; [reflexivity|].
  exact (proj1 (update_session_monotone demo_cb_session (zeros 16) 2 1 4096 2 _ eq_refl)).
Defined.
