(* ===== verification/PnfsIo.v ===== *)
(** * pNFS input and output

    Models [src/src/nfs41/pnfs_io.rs]: which data server and filehandle a stripe
    goes to, the loops that finish short READs and WRITEs on one data server,
    the classification of a settled batch, and the plan that makes retained
    writes durable (data COMMITs with their verifiers, then LAYOUTCOMMIT). What
    these functions send goes through parameters; the COMMIT calls go through
    [CommitIo], as in the source. *)
From S2P Require Import Prelude Errors Xdr4 Acl4 Compound41 V42 Response41 Layout Device LayoutMgr.
From stdpp Require Import base list numbers strings.
#[local] Open Scope Z_scope.

(** ** Stripe targets *)

Definition file_layout_stripe_count (d : DeviceInfo) (fh_count : Z) (is_dense : bool)
    (first_stripe_index : Z) : option Z :=
  let count := Z.of_nat (length (stripe_indices d)) in
  if u32_max <? count then None
  else
    let valid_handles :=
      if is_dense then fh_count =? count
      else (fh_count <=? 1) || (fh_count =? Z.of_nat (length (ds_addrs d))) in
    if (count <=? first_stripe_index) || negb valid_handles
       || existsb (fun index => match ds_addrs d !! Z.to_nat index with
                                | None => true
                                | Some l => bool_decide (l = [])
                                end) (stripe_indices d)
    then None else Some count.

Definition stripe_target (d : DeviceInfo) (stripe_index : Z) (is_dense : bool)
    (handles : list bytes) (open_fh : bytes) : option (bytes * SocketAddr) :=
  match stripe_indices d !! Z.to_nat stripe_index with
  | None => None
  | Some physical =>
      match ds_addrs d !! Z.to_nat physical with
      | Some (addr :: _) =>
          let fh :=
            if is_dense then handles !! Z.to_nat stripe_index
            else match handles with
                 | [] => Some open_fh
                 | [h] => Some h
                 | _ => handles !! Z.to_nat physical
                 end in
          match fh with Some fh => Some (fh, addr) | None => None end
      | _ => None
      end
  end.

Definition file_layout_target (d : DeviceInfo) (stripe_index : Z) (is_dense : bool)
    (handles : list bytes) (open_fh : bytes) : result (bytes * SocketAddr) :=
  match stripe_target d stripe_index is_dense handles open_fh with
  | Some t => Ok t
  | None => Err (Rpc ("invalid file-layout stripe " +:+ fmtZ stripe_index))
  end.

Definition find_covering_segment (l : Layout) (offset : Z) : option LayoutSegment :=
  List.find (fun s => covers s offset) (segments l).

(** ** Errors *)

Definition stop_pnfs_fallback (e : NfsError) : bool :=
  match e with ServerBusy _ => true | _ => false end ||
  (bool_decide (error_kind e = Interrupted) && bool_decide (request_transmission e = Some NotSent)).

Definition uncertain_pnfs_write (ctx : RequestContext) (src : NfsError) : NfsError :=
  OperationOutcome (OperationOutcomeError_new Uncertain ReplaySensitive VerifyThenResume ctx src).

Definition write_verifier_changed (p : NFSVersion) : NfsError :=
  OperationOutcome (OperationOutcomeError_new Uncertain ReplaySensitive VerifyThenResume
    {| operation := "write_verifier"; protocol := p; request_id := None |}
    (Rpc "WRITE verifier changed before COMMIT")).

Definition is_rejection (e : NfsError) : bool :=
  match e with Nfs4 NFS4ERR_STALE | ServerBusy _ => true | _ => false end.

Definition ds_error_after_progress (e : NfsError) (confirmed : Z) (p : NFSVersion) : NfsError :=
  if (0 <? confirmed) && is_rejection e
  then uncertain_pnfs_write {| operation := "pnfs_write"; protocol := p; request_id := None |} e
  else e.

(** [error.operation_outcome().is_some_and(|o| o.context().operation == "write_verifier")] *)
Definition verifier_changed (e : NfsError) : bool :=
  match operation_outcome e with
  | Some o => bool_decide (operation (context o) = "write_verifier"%string)
  | None => false
  end.

(** ** Assembling reads *)

Record ReadAssembly : Type := { ra_first : bytes; ra_joined : option bytes; ra_capacity : Z }.

Definition ra_new (capacity : Z) : ReadAssembly :=
  {| ra_first := []; ra_joined := None; ra_capacity := capacity |}.
Definition ra_len (r : ReadAssembly) : Z :=
  match ra_joined r with Some d => remaining d | None => remaining (ra_first r) end.
Definition ra_push (r : ReadAssembly) (piece : bytes) : ReadAssembly :=
  match piece with
  | [] => r
  | _ =>
      match ra_joined r with
      | Some d => {| ra_first := ra_first r; ra_joined := Some (d ++ piece); ra_capacity := ra_capacity r |}
      | None =>
          match ra_first r with
          | [] => {| ra_first := piece; ra_joined := None; ra_capacity := ra_capacity r |}
          | first => {| ra_first := []; ra_joined := Some (first ++ piece); ra_capacity := ra_capacity r |}
          end
      end
  end.
Definition ra_freeze (r : ReadAssembly) : bytes :=
  match ra_joined r with Some d => d | None => ra_first r end.

(** ** One stripe on one data server *)

Record PlannedDsWrite : Type := {
  pw_file_offset : Z; pw_stripe_index : Z; pw_ds_fh : bytes; pw_ds_addr : SocketAddr;
  pw_ds_offset : Z; pw_data : bytes;
}.

Record DsWriteReply : Type := {
  wr_file_offset : Z; wr_written : Z; wr_committed : WriteCommitted; wr_data : bytes;
  wr_verifier : bytes; wr_ds_addr : SocketAddr; wr_ds_fh : bytes; wr_ds_offset : Z;
}.

Section DsLoops.
Context {St : Type}.
(** [ds_read_chunk] and [ds_write_chunk] at an offset of the data file. *)
Context (ds_read : Z -> Z -> St -> result CompoundResponse * St).
Context (ds_write : Z -> bytes -> St -> result CompoundResponse * St).
Context (p : NFSVersion).

(** The reply of one READ: its data and the end-of-file flag. *)
Definition decode_ds_read (resp : CompoundResponse) (want : Z) : result (bytes * bool) :=
  let* _ := op_ok resp 1 in
  let* op := op_ok resp 2 in
  let* _ := require 8 (Xdr "DS READ result too short") (op_data op) in
  let* (eof, data) := get_u32 (op_data op) in
  let* (n, data) := get_u32 data in
  if (want <? n) || (remaining data <? n) then Err (Xdr "invalid DS READ data length")
  else let* piece := slice_to n data in Ok (piece, negb (eof =? 0)).

(** [while combined.len() < chunk_len]; [None] when the fuel runs out. *)
Fixpoint ds_read_loop (fuel : nat) (chunk_len ds_offset : Z) (acc : ReadAssembly) (st : St)
    : option (result ReadAssembly * St) :=
  if ra_len acc <? chunk_len then
    match fuel with
    | O => None
    | S fuel =>
        let want := chunk_len - ra_len acc in
        let '(r, st) := ds_read (wrap64 (ds_offset + ra_len acc)) want st in
        match obind r (fun resp => decode_ds_read resp want) with
        | Ok (piece, eof) =>
            let acc := ra_push acc piece in
            if eof then Some (Ok acc, st)
            else match piece with
                 | [] => Some (Err (Rpc "DS READ made no progress"), st)
                 | _ => ds_read_loop fuel chunk_len ds_offset acc st
                 end
        | Err e => Some (Err e, st)
        | Panic => Some (Panic, st)
        end
    end
  else Some (Ok acc, st).

(** The data of the chunk and whether it is short. *)
Definition ds_read_complete (fuel : nat) (chunk_len ds_offset : Z) (st : St)
    : option (result (bytes * bool) * St) :=
  match ds_read_loop fuel chunk_len ds_offset (ra_new chunk_len) st with
  | Some (Ok acc, st) => Some (Ok (ra_freeze acc, ra_len acc <? chunk_len), st)
  | Some (Err e, st) => Some (Err e, st)
  | Some (Panic, st) => Some (Panic, st)
  | None => None
  end.

(** The reply of one WRITE: byte count, stability level and verifier. *)
Definition decode_ds_write (resp : CompoundResponse) (done len : Z) : result (Z * Z * bytes) :=
  let* _ := map_err (fun e => ds_error_after_progress e done p) (op_ok resp 1) in
  let* op := map_err (fun e => ds_error_after_progress e done p) (op_ok resp 2) in
  let* _ := require 16 (Xdr "DS WRITE result too short") (op_data op) in
  let* (n, d) := get_u32 (op_data op) in
  let* (committed, d) := get_u32 d in
  if (n =? 0) || (len - done <? n) || (2 <? committed)
  then Err (Rpc "invalid DS WRITE acknowledgement")
  else let* (v, _) := split_to 8 d in Ok (n, committed, v).

Fixpoint ds_write_loop (fuel : nat) (w : PlannedDsWrite) (done level : Z) (verifier : option bytes)
    (st : St) : option (result (Z * Z * option bytes) * St) :=
  let len := remaining (pw_data w) in
  if done <? len then
    match fuel with
    | O => None
    | S fuel =>
        let '(r, st) := ds_write (wrap64 (pw_ds_offset w + done)) (skipn (Z.to_nat done) (pw_data w)) st in
        match obind (map_err (fun e => ds_error_after_progress e done p) r)
                (fun resp => decode_ds_write resp done len) with
        | Ok (n, committed, current) =>
            if match verifier with Some v => negb (bool_decide (v = current)) | None => false end
            then Some (Err (write_verifier_changed p), st)
            else ds_write_loop fuel w (done + n) (Z.min level committed) (Some current) st
        | Err e => Some (Err e, st)
        | Panic => Some (Panic, st)
        end
    end
  else Some (Ok (done, level, verifier), st).

Definition write_ds_attempt (fuel : nat) (w : PlannedDsWrite) (st : St)
    : option (result DsWriteReply * St) :=
  match ds_write_loop fuel w 0 2 None st with
  | None => None
  | Some (Err e, st) => Some (Err e, st)
  | Some (Panic, st) => Some (Panic, st)
  | Some (Ok (done, level, verifier), st) =>
      Some (let* c := WriteCommitted_try_from level in
            Ok {| wr_file_offset := pw_file_offset w; wr_written := wrap32 done; wr_committed := c;
                  wr_data := pw_data w; wr_verifier := default (zeros 8) verifier;
                  wr_ds_addr := pw_ds_addr w; wr_ds_fh := pw_ds_fh w; wr_ds_offset := pw_ds_offset w |},
            st)
  end.

(** Three attempts when the verifier changes midway; [more] are allowed after
    this one and [again] says that one was made before. *)
Fixpoint write_ds_attempts (more : nat) (again : bool) (fuel : nat) (w : PlannedDsWrite) (st : St)
    : option (result DsWriteReply * St) :=
  match write_ds_attempt fuel w st with
  | None => None
  | Some (Err e, st) =>
      match more with
      | S more => if verifier_changed e then write_ds_attempts more true fuel w st
                  else Some (Err (ds_error_after_progress e (b2z again) p), st)
      | O => Some (Err (ds_error_after_progress e (b2z again) p), st)
      end
  | r => r
  end.

Definition write_ds_complete (fuel : nat) (w : PlannedDsWrite) (st : St)
    : option (result DsWriteReply * St) := write_ds_attempts 2 false fuel w st.
End DsLoops.

(** ** Planning a write *)

Definition plan_chunk (d : DeviceInfo) (f : FilesLayout) (fh data : bytes) (offset : Z)
    (stripe_index : Z) (c : StripeChunk) : result PlannedDsWrite :=
  let* (ds_fh, ds_addr) := file_layout_target d (ds_index c) (is_dense f) (fh_list f) fh in
  let chunk_start := file_offset c - offset in
  let* rest := advance chunk_start data in
  let* chunk_data := slice_to (ck_length c) rest in
  Ok {| pw_file_offset := file_offset c; pw_stripe_index := stripe_index; pw_ds_fh := ds_fh;
        pw_ds_addr := ds_addr; pw_ds_offset := ck_ds_offset c; pw_data := chunk_data |}.

Fixpoint plan_chunks (d : DeviceInfo) (f : FilesLayout) (fh data : bytes) (offset : Z)
    (stripe_index : Z) (l : list StripeChunk) : result (list PlannedDsWrite) :=
  match l with
  | [] => Ok []
  | c :: l =>
      let* w := plan_chunk d f fh data offset stripe_index c in
      let* ws := plan_chunks d f fh data offset (stripe_index + 1) l in
      Ok (w :: ws)
  end.

(** The part of the data the segment covers, and its stripes. *)
Definition covered_data (s : LayoutSegment) (offset : Z) (data : bytes) : bytes :=
  firstn (Z.to_nat (Z.max 0 (sat_add64 (seg_offset s) (seg_length s) - offset))) data.

Definition plan_write (d : DeviceInfo) (s : LayoutSegment) (f : FilesLayout) (fh data : bytes)
    (offset stripe_count : Z) : option (result (list PlannedDsWrite)) :=
  let data := covered_data s offset data in
  match split_into_stripes offset (wrap32 (remaining data)) (stripe_unit f) (is_dense f)
          (first_stripe_index f) stripe_count (pattern_offset f) with
  | Some chunks => Some (plan_chunks d f fh data offset 0 chunks)
  | None => None
  end.

(** ** Settling a batch *)

Record DsWriteCompletion : Type := {
  dc_stripe_index : Z; dc_ds_addr : SocketAddr; dc_result : result DsWriteReply
}.

Definition ds_batch_rejected_without_write (l : list DsWriteCompletion) : bool :=
  negb (bool_decide (l = [])) &&
  forallb (fun c => match dc_result c with Err (Nfs4 NFS4ERR_STALE) => true | _ => false end) l.

(** The immutable part of a retained write; [done] and [failed] are flags of the
    shared object. *)
Record PendingWrite : Type := {
  pd_fh : bytes; pd_offset : Z; pd_count : Z; pd_generation : Z; pd_commit_thru_mds : bool;
  pd_replies : list DsWriteReply; pd_done : bool; pd_failed : bool;
}.

Definition committed_rank (c : WriteCommitted) : Z :=
  match c with Unstable => 0 | DataSync => 1 | FileSync => 2 end.
Definition committed_min (a b : WriteCommitted) : WriteCommitted :=
  if committed_rank b <? committed_rank a then b else a.
Definition pending_committed (w : PendingWrite) : WriteCommitted :=
  match map wr_committed (pd_replies w) with
  | [] => Unstable
  | c :: l => fold_left committed_min l c
  end.

(** [WriteOutcome] and [PnfsWriteOutcome]: what a write reports to its caller. *)
Record WriteOutcome : Type := {
  wo_count : Z; wo_committed : WriteCommitted; wo_verifier : option bytes; wo_pnfs : option PendingWrite
}.
Inductive PnfsWriteOutcome : Type :=
| NotAttempted
| Attempted (r : result WriteOutcome)
| RefreshRequired (l : Layout).

Definition ok_replies (l : list DsWriteCompletion) : list DsWriteReply :=
  omap (fun c => match dc_result c with Ok r => Some r | _ => None end) l.

Fixpoint first_busy (l : list DsWriteCompletion) : option NfsError :=
  match l with
  | [] => None
  | c :: l => match dc_result c with
              | Err (ServerBusy b) => Some (ServerBusy b)
              | _ => first_busy l
              end
  end.

(** The first error that is, or records, a refusal by a busy server. *)
Definition busy_source (e : NfsError) : bool :=
  match e with ServerBusy _ => true | _ => false end ||
  match operation_outcome e with Some o => is_server_busy (source o) | None => false end.
Fixpoint first_busy_source (l : list DsWriteCompletion) : option NfsError :=
  match l with
  | [] => None
  | c :: l => match dc_result c with
              | Err e => if busy_source e then Some e else first_busy_source l
              | _ => first_busy_source l
              end
  end.

(** [u32] sums in a release build wrap. *)
Definition sum_written (l : list DsWriteReply) : Z :=
  foldl (fun a r => wrap32 (a + wr_written r)) 0 l.

(** The bytes of the file range up to the last one known to be written; [None]
    of an empty [max()] is replaced by the offset. *)
Definition known_extent (offset : Z) (known : list DsWriteReply) : Z :=
  let ends := map (fun r => wrap64 (wr_file_offset r + wr_written r)) known in
  let last := match ends with [] => offset | e :: l => fold_left Z.max l e end in
  wrap32 (wrap64 (last - offset)).

Section Settle.
(** The [Display] of a failed batch only reaches an error text. *)
Context (ds_batch_diagnostic : list DsWriteCompletion -> string).
Context (fh : bytes) (offset : Z) (layout : Layout) (commit_thru_mds : bool).
(** The layout manager's generation, the session and the protocol at that time. *)
Context (active : Z) (sid : bytes) (p : NFSVersion).

Definition retained_write (count : Z) (replies : list DsWriteReply) (failed : bool) : PendingWrite :=
  {| pd_fh := fh; pd_offset := offset; pd_count := count; pd_generation := lo_generation layout;
     pd_commit_thru_mds := commit_thru_mds; pd_replies := replies; pd_done := false;
     pd_failed := failed |}.

Definition batch_context : RequestContext :=
  {| operation := "pnfs_write"; protocol := p; request_id := Some (Nfs41Session sid 0 0) |}.

(** What the writer reports once every data server answered, and the retained
    write it registers with the layout manager. *)
Definition settle_write_batch (l : list DsWriteCompletion) : PnfsWriteOutcome * option PendingWrite :=
  if forallb (fun c => is_ok (dc_result c)) l then
    if negb (lo_generation layout =? active) then
      (Attempted (Err (uncertain_pnfs_write batch_context
         (Rpc "pNFS WRITE outcome crossed a session generation boundary"))), None)
    else
      let total := sum_written (ok_replies l) in
      let pending := retained_write total (ok_replies l) false in
      (Attempted (Ok {| wo_count := total; wo_committed := pending_committed pending;
                        wo_verifier := None; wo_pnfs := Some pending |}), Some pending)
  else if ds_batch_rejected_without_write l then (RefreshRequired layout, None)
  else if forallb (fun c => match dc_result c with Err e => is_rejection e | _ => false end) l then
    (Attempted (Err (default (Rpc "empty rejected DS batch") (first_busy l))), None)
  else
    let known := ok_replies l in
    let registered := match known with
                      | [] => None
                      | _ => Some (retained_write (known_extent offset known) known true)
                      end in
    (Attempted (Err (uncertain_pnfs_write batch_context
       (default (Rpc ("pNFS DS WRITE results: " +:+ ds_batch_diagnostic l)) (first_busy_source l)))),
     registered).
End Settle.

(** ** Making retained writes durable *)

(** [PendingCommitGuard::drop] *)
Definition guard_drop (l : list PendingWrite) : list PendingWrite :=
  map (fun w => if pd_done w then w
                else {| pd_fh := pd_fh w; pd_offset := pd_offset w; pd_count := pd_count w;
                        pd_generation := pd_generation w; pd_commit_thru_mds := pd_commit_thru_mds w;
                        pd_replies := pd_replies w; pd_done := pd_done w; pd_failed := true |}) l.

Record CommitTarget : Type := { ct_offset : Z; ct_count : Z; ct_expected : list bytes }.
Record CommitPlan : Type := {
  cp_mds : option CommitTarget;
  cp_ds : list (SocketAddr * bytes * CommitTarget);
  cp_layout : option (Z * Z);
}.

(** The derived orders of [SocketAddr] and [Bytes], which order the plan. *)
Definition addr_compare (a b : SocketAddr) : comparison :=
  match a, b with
  | V4 _ _, V6 _ _ => Lt
  | V6 _ _, V4 _ _ => Gt
  | V4 i p, V4 j q | V6 i p, V6 j q =>
      match Z.compare i j with Eq => Z.compare p q | c => c end
  end.
Fixpoint bytes_compare (a b : bytes) : comparison :=
  match a, b with
  | [], [] => Eq
  | [], _ => Lt
  | _, [] => Gt
  | x :: a, y :: b =>
      match Z.compare (byte_val x) (byte_val y) with Eq => bytes_compare a b | c => c end
  end.
Definition key_compare (k k' : SocketAddr * bytes) : comparison :=
  match addr_compare k.1 k'.1 with Eq => bytes_compare k.2 k'.2 | c => c end.

(** [BTreeMap::entry(key).or_default().push(reply)] *)
Fixpoint group_push (key : SocketAddr * bytes) (r : DsWriteReply)
    (m : list (SocketAddr * bytes * list DsWriteReply)) : list (SocketAddr * bytes * list DsWriteReply) :=
  match m with
  | [] => [(key, [r])]
  | (k, g) :: m' =>
      match key_compare key k with
      | Lt => (key, [r]) :: m
      | Eq => (k, g ++ [r]) :: m'
      | Gt => (k, g) :: group_push key r m'
      end
  end.

Definition wire_commit_range (start end_ : Z) : Z * Z :=
  let count := wrap64 (end_ - start) in
  if count <=? u32_max then (start, count) else (0, 0).

(** Bytes past a range, in 64 bits. *)
Definition end_of (offset len : Z) : Z := wrap64 (offset + len).

(** The accumulators of the planning loop. *)
Record PlanAcc : Type := {
  pa_expected : list bytes; pa_start : Z; pa_end : Z;
  pa_groups : list (SocketAddr * bytes * list DsWriteReply); pa_layout : bool;
}.
Definition plan_start : PlanAcc :=
  {| pa_expected := []; pa_start := u64_max; pa_end := 0; pa_groups := []; pa_layout := false |}.

Definition not_file_sync (r : DsWriteReply) : bool := negb (bool_decide (wr_committed r = FileSync)).
Definition is_unstable (r : DsWriteReply) : bool := bool_decide (wr_committed r = Unstable).

Definition plan_write_step (a : PlanAcc) (wb : PendingWrite * list DsWriteReply) : PlanAcc :=
  let '(w, batch) := wb in
  if pd_commit_thru_mds w
  then {| pa_expected := pa_expected a ++ map wr_verifier (List.filter not_file_sync batch);
          pa_start := Z.min (pa_start a) (pd_offset w);
          pa_end := Z.max (pa_end a) (end_of (pd_offset w) (pd_count w));
          pa_groups := pa_groups a; pa_layout := pa_layout a |}
  else {| pa_expected := pa_expected a; pa_start := pa_start a; pa_end := pa_end a;
          pa_groups := foldl (fun m r => group_push (wr_ds_addr r, wr_ds_fh r) r m) (pa_groups a)
                         (List.filter is_unstable batch);
          pa_layout := pa_layout a || existsb not_file_sync batch |}.

Definition min_list (l : list Z) : Z :=
  match l with [] => 0 | x :: l => fold_left Z.min l x end.
Definition max_list (l : list Z) : Z :=
  match l with [] => 0 | x :: l => fold_left Z.max l x end.

Definition group_target (g : list DsWriteReply) : CommitTarget :=
  let '(offset, count) :=
    wire_commit_range (min_list (map wr_ds_offset g))
      (max_list (map (fun r => end_of (wr_ds_offset r) (wr_written r)) g)) in
  {| ct_offset := offset; ct_count := count; ct_expected := map wr_verifier g |}.

Definition plan_commit_batch (pending : list PendingWrite) (replies : list (list DsWriteReply))
    : CommitPlan :=
  let a := foldl plan_write_step plan_start (zip pending replies) in
  {| cp_mds := match pa_expected a with
               | [] => None
               | expected => let '(offset, count) := wire_commit_range (pa_start a) (pa_end a) in
                   Some {| ct_offset := offset; ct_count := count; ct_expected := expected |}
               end;
     cp_ds := map (fun '(k, g) => (k, group_target g)) (pa_groups a);
     cp_layout := if pa_layout a
                  then Some (min_list (map pd_offset pending),
                             max_list (map (fun w => end_of (pd_offset w) (pd_count w)) pending))
                  else None |}.

Definition check_commit_verifier (written : list bytes) (committed : bytes) (p : NFSVersion) : result () :=
  if existsb (fun v => negb (bool_decide (v = committed))) written
  then Err (write_verifier_changed p) else Ok ().

(** The trait [CommitIo]. *)
Record CommitIo (St : Type) : Type := {
  io_protocol : NFSVersion;
  mds_commit : bytes -> Z -> Z -> St -> result bytes * St;
  ds_commit : SocketAddr -> bytes -> Z -> Z -> Z -> St -> result bytes * St;
  layout_commit : bytes -> Z -> Z -> Z -> St -> result () * St;
}.
Arguments io_protocol {St}. Arguments mds_commit {St}. Arguments ds_commit {St}.
Arguments layout_commit {St}.

(** The commits that succeeded, with the verifier each returned. *)
Inductive commit_event : Type :=
| MdsCommitted (offset count : Z) (verifier : bytes)
| DsCommitted (addr : SocketAddr) (fh : bytes) (offset count : Z) (verifier : bytes)
| LayoutCommitted (start end_ : Z).

Section Commit.
Context {St : Type} (io : CommitIo St) (fh : bytes) (generation : Z).

Definition commit_mds (t : option CommitTarget) (w : St * list commit_event)
    : result () * (St * list commit_event) :=
  match t with
  | None => (Ok (), w)
  | Some t =>
      match mds_commit io fh (ct_offset t) (ct_count t) w.1 with
      | (Ok actual, st) =>
          (check_commit_verifier (ct_expected t) actual (io_protocol io),
           (st, w.2 ++ [MdsCommitted (ct_offset t) (ct_count t) actual]))
      | (Err e, st) => (Err e, (st, w.2))
      | (Panic, st) => (Panic, (st, w.2))
      end
  end.

Fixpoint commit_ds (l : list (SocketAddr * bytes * CommitTarget)) (w : St * list commit_event)
    : result () * (St * list commit_event) :=
  match l with
  | [] => (Ok (), w)
  | (addr, ds_fh, t) :: l =>
      match ds_commit io addr ds_fh generation (ct_offset t) (ct_count t) w.1 with
      | (Ok actual, st) =>
          let w := (st, w.2 ++ [DsCommitted addr ds_fh (ct_offset t) (ct_count t) actual]) in
          match check_commit_verifier (ct_expected t) actual (io_protocol io) with
          | Ok _ => commit_ds l w
          | e => (e, w)
          end
      | (Err e, st) => (Err e, (st, w.2))
      | (Panic, st) => (Panic, (st, w.2))
      end
  end.

Definition commit_layout (r : option (Z * Z)) (w : St * list commit_event)
    : result () * (St * list commit_event) :=
  match r with
  | None => (Ok (), w)
  | Some (start, end_) =>
      match layout_commit io fh generation start end_ w.1 with
      | (Ok _, st) => (Ok (), (st, w.2 ++ [LayoutCommitted start end_]))
      | (Err e, st) => (Err e, (st, w.2))
      | (Panic, st) => (Panic, (st, w.2))
      end
  end.

Definition execute_commit_plan (plan : CommitPlan) (st : St)
    : result () * (St * list commit_event) :=
  match commit_mds (cp_mds plan) (st, []) with
  | (Ok _, w) =>
      match commit_ds (cp_ds plan) w with
      | (Ok _, w) => commit_layout (cp_layout plan) w
      | r => r
      end
  | r => r
  end.

Definition commit_ds_batch (pending : list PendingWrite) (replies : list (list DsWriteReply)) (st : St)
    : result () * (St * list commit_event) :=
  execute_commit_plan (plan_commit_batch pending replies) st.
End Commit.

(** ** The plan covers every write *)

Lemma fold_min_le l : forall x y, (y = x \/ y ∈ l) -> fold_left Z.min l x <= y.
Proof.
  induction l as [|z l IH]; intros x y H; cbn [fold_left].
  - destruct H as [->|H]; [lia|by apply not_elem_of_nil in H].
  - destruct H as [->|[->|H]%elem_of_cons].
    + etrans; [apply IH; by left|lia].
    + etrans; [apply IH; by left|lia].
    + apply IH. by right.
Qed.
Lemma min_list_le l y : y ∈ l -> min_list l <= y.
Proof.
  destruct l as [|x l]; [by intros ?%not_elem_of_nil|]. intros H%elem_of_cons. by apply fold_min_le.
Qed.
Lemma fold_min_in l : forall x, fold_left Z.min l x ∈ x :: l.
Proof.
  induction l as [|z l IH]; intros x; cbn [fold_left]; [by left|].
  specialize (IH (Z.min x z)). apply elem_of_cons in IH as [E|H].
  - rewrite E. destruct (Z.min_spec x z) as [[_ ->]|[_ ->]]; [left|right; left].
  - by right; right.
Qed.
Lemma fold_max_ge l : forall x y, (y = x \/ y ∈ l) -> y <= fold_left Z.max l x.
Proof.
  induction l as [|z l IH]; intros x y H; cbn [fold_left].
  - destruct H as [->|H]; [lia|by apply not_elem_of_nil in H].
  - destruct H as [->|[->|H]%elem_of_cons].
    + etrans; [|apply IH; by left]. lia.
    + etrans; [|apply IH; by left]. lia.
    + apply IH. by right.
Qed.
Lemma max_list_ge l y : y ∈ l -> y <= max_list l.
Proof.
  destruct l as [|x l]; [by intros ?%not_elem_of_nil|]. intros H%elem_of_cons. by apply fold_max_ge.
Qed.
Lemma fold_max_in l : forall x, fold_left Z.max l x ∈ x :: l.
Proof.
  induction l as [|z l IH]; intros x; cbn [fold_left]; [by left|].
  specialize (IH (Z.max x z)). apply elem_of_cons in IH as [E|H].
  - rewrite E. destruct (Z.max_spec x z) as [[_ ->]|[_ ->]]; [right; left|left].
  - by right; right.
Qed.

Lemma bytes_compare_eq a : forall b, bytes_compare a b = Eq -> a = b.
Proof.
  induction a as [|x a IH]; intros [|y b]; cbn; try done.
  destruct (Z.compare_spec (byte_val x) (byte_val y)) as [E| |]; try done.
  intros H. f_equal; [|by apply IH]. by rewrite <- (byte_of_val x), E, byte_of_val.
Qed.

Lemma key_compare_eq k k' : key_compare k k' = Eq -> k = k'.
Proof.
  destruct k as [a f], k' as [a' f']. unfold key_compare. cbn.
  destruct (addr_compare a a') eqn:E; try done. intros H%bytes_compare_eq. subst.
  f_equal. destruct a as [i p|i p], a' as [j q|j q]; cbn in E; try done.
  all: destruct (Z.compare_spec i j); try done; apply Z.compare_eq in E; by subst.
Qed.

(** [r] is in the group of key [k]. *)
Definition grouped (m : list (SocketAddr * bytes * list DsWriteReply)) (k : SocketAddr * bytes)
    (r : DsWriteReply) : Prop := exists g, (k, g) ∈ m /\ r ∈ g.

Lemma group_push_self key r m : grouped (group_push key r m) key r.
Proof.
  induction m as [|[k g] m IH]; cbn [group_push].
  - exists [r]. split; by left.
  - destruct (key_compare key k) eqn:E.
    + apply key_compare_eq in E as ->. exists (g ++ [r]). split; [by left|]. apply elem_of_app. right. by left.
    + exists [r]. split; by left.
    + destruct IH as (g' & H1 & H2). exists g'. split; [by right|done].
Qed.

Lemma group_push_mono key r m k x : grouped m k x -> grouped (group_push key r m) k x.
Proof.
  intros (g & H1 & H2). revert H1. induction m as [|[k' g'] m IH]; cbn [group_push]; intros H1.
  - by apply not_elem_of_nil in H1.
  - apply elem_of_cons in H1 as [[= -> ->]|H1]; destruct (key_compare key k').
    + eexists. split; [by left|]. apply elem_of_app. by left.
    + exists g'. split; [right; by left|done].
    + exists g'. split; [by left|done].
    + exists g. split; [by right|done].
    + exists g. split; [by right; right|done].
    + destruct (IH H1) as (g1 & H3 & H4). exists g1. split; [by right|done].
Qed.

Lemma group_pushes_mono l : forall m k x, grouped m k x ->
  grouped (foldl (fun m r => group_push (wr_ds_addr r, wr_ds_fh r) r m) m l) k x.
Proof. induction l as [|r l IH]; intros m k x H; cbn; [done|]. by apply IH, group_push_mono. Qed.

Lemma group_pushes_in l : forall m r, r ∈ l ->
  grouped (foldl (fun m r => group_push (wr_ds_addr r, wr_ds_fh r) r m) m l) (wr_ds_addr r, wr_ds_fh r) r.
Proof.
  induction l as [|r l IH]; intros m r' H; cbn; [by apply not_elem_of_nil in H|].
  apply elem_of_cons in H as [->|H]; [apply group_pushes_mono, group_push_self|by apply IH].
Qed.

(** The accumulators only grow. *)
Record acc_le (a b : PlanAcc) : Prop := {
  al_expected : forall v, v ∈ pa_expected a -> v ∈ pa_expected b;
  al_start : pa_start b <= pa_start a;
  al_end : pa_end a <= pa_end b;
  al_groups : forall k r, grouped (pa_groups a) k r -> grouped (pa_groups b) k r;
  al_layout : pa_layout a = true -> pa_layout b = true;
}.

Lemma acc_le_refl a : acc_le a a.
Proof. by constructor. Qed.
Lemma acc_le_trans a b c : acc_le a b -> acc_le b c -> acc_le a c.
Proof. intros [] []. constructor; auto; lia. Qed.

Lemma plan_step_le a wb : acc_le a (plan_write_step a wb).
Proof.
  destruct wb as [w batch]. unfold plan_write_step. destruct (pd_commit_thru_mds w); constructor; cbn; try done; try lia.
  - intros v Hv. apply elem_of_app. by left.
  - intros k r. apply group_pushes_mono.
  - by intros ->.
Qed.

Lemma plan_fold_le l : forall a, acc_le a (foldl plan_write_step a l).
Proof.
  induction l as [|wb l IH]; intros a; cbn; [apply acc_le_refl|].
  eapply acc_le_trans; [apply plan_step_le|apply IH].
Qed.

Lemma plan_fold_at l : forall a wb, wb ∈ l ->
  exists a0, acc_le (plan_write_step a0 wb) (foldl plan_write_step a l).
Proof.
  induction l as [|x l IH]; intros a wb H; [by apply not_elem_of_nil in H|].
  apply elem_of_cons in H as [->|H]; cbn; [exists a; apply plan_fold_le|by apply IH].
Qed.

(** A COMMIT of [count] bytes at [offset] makes the range durable; a zero count
    at offset zero commits the whole file (RFC 8881, 18.3.3). *)
Definition range_committed (offset count start len : Z) : Prop :=
  (offset = 0 /\ count = 0) \/ (offset <= start /\ start + len <= offset + count).

Lemma wire_range_covers start end_ off cnt a len :
  wire_commit_range start end_ = (off, cnt) -> 0 <= start -> end_ < 2 ^ 64 ->
  start <= a -> a + len <= end_ -> 0 <= len -> range_committed off cnt a len.
Proof.
  intros E Hs He Ha Hl H0. unfold wire_commit_range, wrap64 in E. rewrite Z.mod_small in E by lia.
  destruct (end_ - start <=? u32_max); injection E as <- <-; [right; lia|by left].
Qed.

Lemma check_verifier_ok written v p : check_commit_verifier written v p = Ok () ->
  forall x, x ∈ written -> x = v.
Proof.
  unfold check_commit_verifier. destruct (existsb _ _) eqn:E; [done|]. intros _ x Hx.
  apply list_elem_of_In in Hx. destruct (decide (x = v)) as [|Hn]; [done|]. exfalso.
  assert (existsb (fun v0 => negb (bool_decide (v0 = v))) written = true); [|congruence].
  apply existsb_exists. exists x. split; [done|]. by rewrite bool_decide_eq_false_2.
Qed.

(** ** Executing the plan *)

Section Durable.
Context {St : Type} (io : CommitIo St) (fh : bytes) (g : Z).

Lemma commit_mds_ok t w w' : commit_mds io fh t w = (Ok (), w') ->
  w.2 `prefix_of` w'.2 /\
  (forall x, t = Some x -> forall v, v ∈ ct_expected x -> MdsCommitted (ct_offset x) (ct_count x) v ∈ w'.2).
Proof using.
  unfold commit_mds. destruct t as [t|]; [|by intros [= <-]].
  destruct (mds_commit _ _ _ _ _) as [[v|e|] st]; [|done..]. intros [= Hc <-]. cbn. split; [by eexists|].
  intros x [= <-] y Hy. rewrite (check_verifier_ok _ _ _ Hc y Hy). apply elem_of_app. right. by left.
Qed.

Lemma commit_ds_ok l : forall w w', commit_ds io g l w = (Ok (), w') ->
  w.2 `prefix_of` w'.2 /\
  (forall addr f x, (addr, f, x) ∈ l -> forall v, v ∈ ct_expected x ->
     DsCommitted addr f (ct_offset x) (ct_count x) v ∈ w'.2).
Proof using.
  induction l as [|[[addr f] t] l IH]; intros w w'; cbn [commit_ds].
  { intros [= <-]. split; [done|]. by intros ? ? ? ?%not_elem_of_nil. }
  destruct (ds_commit _ _ _ _ _ _ _) as [[v|e|] st]; [|done..].
  destruct (check_commit_verifier _ _ _) as [u|e|] eqn:Hc; [|done..]. destruct u.
  intros H. apply IH in H as [Hp Hl]. cbn in Hp. split.
  - etrans; [|exact Hp]. by eexists.
  - intros addr' f' x [[= -> -> ->]|Hx]%elem_of_cons y Hy; [|by eapply Hl].
    rewrite (check_verifier_ok _ _ _ Hc y Hy). eapply elem_of_prefix; [|exact Hp].
    apply elem_of_app. right. by left.
Qed.

Lemma commit_layout_ok r w w' : commit_layout io fh g r w = (Ok (), w') ->
  w.2 `prefix_of` w'.2 /\ (forall s e, r = Some (s, e) -> LayoutCommitted s e ∈ w'.2).
Proof using.
  unfold commit_layout. destruct r as [[s e]|]; [|by intros [= <-]].
  destruct (layout_commit _ _ _ _ _ _) as [[u|x|] st]; [|done..]. intros [= <-]. cbn. split; [by eexists|].
  intros ? ? [= -> ->]. apply elem_of_app. right. by left.
Qed.

Lemma execute_ok plan st w : execute_commit_plan io fh g plan st = (Ok (), w) ->
  (forall x, cp_mds plan = Some x -> forall v, v ∈ ct_expected x -> MdsCommitted (ct_offset x) (ct_count x) v ∈ w.2) /\
  (forall addr f x, (addr, f, x) ∈ cp_ds plan -> forall v, v ∈ ct_expected x ->
     DsCommitted addr f (ct_offset x) (ct_count x) v ∈ w.2) /\
  (forall s e, cp_layout plan = Some (s, e) -> LayoutCommitted s e ∈ w.2).
Proof using.
  unfold execute_commit_plan. destruct (commit_mds _ _ _ _) as [[[]|e|] w1] eqn:E1; [|done..].
  destruct (commit_ds _ _ _ _) as [[[]|e|] w2] eqn:E2; [|done..]. intros E3.
  apply commit_mds_ok in E1 as [P1 M]. apply commit_ds_ok in E2 as [P2 D]. apply commit_layout_ok in E3 as [P3 L].
  split_and!; [|intros; eapply elem_of_prefix; [by eapply D|done]|done].
  intros. eapply elem_of_prefix; [by eapply M|]. by etrans.
Qed.
End Durable.

(** Ranges that do not run past the 64-bit file offsets. *)
Definition in_file (offset len : Z) : Prop := 0 <= offset /\ 0 <= len /\ offset + len < 2 ^ 64.

Definition batch_in_file (pending : list PendingWrite) (replies : list (list DsWriteReply)) : Prop :=
  Forall (fun w => in_file (pd_offset w) (pd_count w)) pending /\
  Forall (Forall (fun r => in_file (wr_ds_offset r) (wr_written r))) replies.

Lemma end_of_in_file o l : in_file o l -> end_of o l = o + l.
Proof. intros (? & ? & ?). unfold end_of, wrap64. apply Z.mod_small. lia. Qed.

(** A group's target commits each of its replies. *)
Lemma group_target_covers g r :
  Forall (fun r => in_file (wr_ds_offset r) (wr_written r)) g -> r ∈ g ->
  wr_verifier r ∈ ct_expected (group_target g) /\
  range_committed (ct_offset (group_target g)) (ct_count (group_target g)) (wr_ds_offset r) (wr_written r).
Proof.
  intros Hf Hr. unfold group_target. destruct (wire_commit_range _ _) as [off cnt] eqn:E. cbn.
  split; [by apply list_elem_of_fmap_2|].
  rewrite Forall_forall in Hf. destruct (Hf r Hr) as (H1 & H2 & H3).
  assert (Hne : g <> []) by (by intros ->; apply not_elem_of_nil in Hr).
  eapply wire_range_covers; [exact E| | | | |done].
  - destruct g as [|x g]; [done|]. cbn [map min_list].
    assert (Hin : fold_left Z.min (map wr_ds_offset g) (wr_ds_offset x) ∈ map wr_ds_offset (x :: g)) by apply fold_min_in.
    apply list_elem_of_fmap in Hin as (y & -> & Hy). by apply Hf.
  - destruct g as [|x g]; [done|]. cbn [map max_list].
    match goal with |- fold_left Z.max ?l ?y < _ => assert (Hin : fold_left Z.max l y ∈ y :: l) by apply fold_max_in end.
    change (end_of (wr_ds_offset x) (wr_written x) :: map (fun r => end_of (wr_ds_offset r) (wr_written r)) g)
      with (map (fun r => end_of (wr_ds_offset r) (wr_written r)) (x :: g)) in Hin.
    apply list_elem_of_fmap in Hin as (y & E2 & Hy). rewrite E2, end_of_in_file by (by apply Hf).
    destruct (Hf y Hy) as (_ & _ & ?). lia.
  - apply min_list_le. by apply list_elem_of_fmap_2.
  - rewrite <- end_of_in_file by (by apply Hf). apply max_list_ge.
    by apply (list_elem_of_fmap_2 (fun r => end_of (wr_ds_offset r) (wr_written r))).
Qed.

(** Groups hold only replies of the batches. *)
Lemma group_push_sound key r m k g x :
  (k, g) ∈ group_push key r m -> x ∈ g -> x = r \/ grouped m k x.
Proof.
  induction m as [|[k' g'] m IH]; cbn [group_push]; intros H Hx.
  - apply list_elem_of_singleton in H as [= -> ->]. left. by apply list_elem_of_singleton in Hx.
  - assert (Hold : forall g0, (k, g0) ∈ (k', g') :: m -> x ∈ g0 -> grouped ((k', g') :: m) k x) by (intros g0 ? ?; by exists g0).
    destruct (key_compare key k').
    + apply elem_of_cons in H as [[= -> ->]|H]; [|right; eapply Hold; [by right|done]].
      apply elem_of_app in Hx as [Hx|Hx]; [right; eapply Hold; [by left|done]|left; by apply list_elem_of_singleton in Hx].
    + apply elem_of_cons in H as [[= -> ->]|H]; [left; by apply list_elem_of_singleton in Hx|right; by eapply Hold].
    + apply elem_of_cons in H as [[= -> ->]|H]; [right; eapply Hold; [by left|done]|].
      destruct (IH H Hx) as [->|(g1 & H1 & H2)]; [by left|right]. eapply Hold; [by right|done].
Qed.

Lemma group_pushes_sound P l : forall m,
  (forall k r, grouped m k r -> P r) -> Forall P l ->
  forall k r, grouped (foldl (fun m r => group_push (wr_ds_addr r, wr_ds_fh r) r m) m l) k r -> P r.
Proof.
  induction l as [|x l IH]; intros m Hm Hl; cbn; [done|]. inversion Hl; subst.
  apply IH; [|done]. intros k r (g & H3 & H4). destruct (group_push_sound _ _ _ _ _ _ H3 H4) as [->|]; eauto.
Qed.

Lemma plan_groups_sound P l : forall a,
  (forall k r, grouped (pa_groups a) k r -> P r) -> Forall (fun wb => Forall P wb.2) l ->
  forall k r, grouped (pa_groups (foldl plan_write_step a l)) k r -> P r.
Proof.
  induction l as [|[w batch] l IH]; intros a Ha Hl; cbn; [done|]. inversion Hl as [|? ? Hb Hl']; subst.
  apply IH; [|done]. cbn. destruct (pd_commit_thru_mds w); cbn; [done|].
  apply group_pushes_sound; [done|]. apply Forall_forall. intros r Hr%list_elem_of_In.
  apply filter_In in Hr as [Hr _]. cbn in Hb. rewrite Forall_forall in Hb. apply Hb. by apply list_elem_of_In.
Qed.

(** The range of the MDS commit, when there is one. *)
Lemma plan_mds_bounds l : forall a,
  0 <= pa_start a -> pa_end a < 2 ^ 64 -> Forall (fun wb => in_file (pd_offset wb.1) (pd_count wb.1)) l ->
  0 <= pa_start (foldl plan_write_step a l) /\ pa_end (foldl plan_write_step a l) < 2 ^ 64.
Proof.
  induction l as [|[w batch] l IH]; intros a H1 H2 Hl; cbn; [done|]. inversion Hl as [|? ? Hw Hl']; subst.
  cbn in Hw. destruct Hw as (? & ? & ?).
  apply IH; [| |done]; cbn; destruct (pd_commit_thru_mds w); cbn; try done; try lia.
  rewrite end_of_in_file by done. lia.
Qed.

Lemma zip_elem {A B} (l : list A) (k : list B) i x y :
  l !! i = Some x -> k !! i = Some y -> (x, y) ∈ zip l k.
Proof. intros. apply (list_elem_of_lookup_2 _ i). apply lookup_zip_with_Some. by exists x, y. Qed.

Lemma zip_Forall {A B} (P : A * B -> Prop) (l : list A) (k : list B) :
  (forall x y, x ∈ l -> y ∈ k -> P (x, y)) -> Forall P (zip l k).
Proof.
  intros H. apply Forall_forall. intros [x y] Hin. apply H.
  - by eapply elem_of_zip_l.
  - by eapply elem_of_zip_r.
Qed.

Lemma filter_elem (f : DsWriteReply -> bool) r l : r ∈ l -> f r = true -> r ∈ List.filter f l.
Proof. intros H1 H2. apply list_elem_of_In, filter_In. split; [by apply list_elem_of_In|done]. Qed.

(** *** What the plan contains *)

Section Plan.
Context (pending : list PendingWrite) (replies : list (list DsWriteReply)).
Context (Hf : batch_in_file pending replies).
Context (i : nat) (w : PendingWrite) (batch : list DsWriteReply) (r : DsWriteReply).
Context (Hw : pending !! i = Some w) (Hb : replies !! i = Some batch) (Hr : r ∈ batch).

Let plan := plan_commit_batch pending replies.

Lemma plan_ds_target :
  pd_commit_thru_mds w = false -> wr_committed r = Unstable ->
  exists t, (wr_ds_addr r, wr_ds_fh r, t) ∈ cp_ds plan /\ wr_verifier r ∈ ct_expected t /\
    range_committed (ct_offset t) (ct_count t) (wr_ds_offset r) (wr_written r).
Proof using Hf Hw Hb Hr.
  intros Hm Hu. destruct Hf as [Hf1 Hf2].
  destruct (plan_fold_at (zip pending replies) plan_start (w, batch)) as (a0 & Ha); [by eapply zip_elem|].
  assert (Hg : grouped (pa_groups (plan_write_step a0 (w, batch))) (wr_ds_addr r, wr_ds_fh r) r).
  { cbn. rewrite Hm. cbn. apply group_pushes_in, filter_elem; [done|]. by apply bool_decide_eq_true. }
  apply (al_groups _ _ Ha) in Hg as (g & H1 & H2).
  assert (Hfg : Forall (fun r => in_file (wr_ds_offset r) (wr_written r)) g).
  { apply Forall_forall. intros x Hx.
    eapply (plan_groups_sound (fun r => in_file (wr_ds_offset r) (wr_written r)) (zip pending replies) plan_start).
    - intros k y (g0 & Hg0 & _). by apply not_elem_of_nil in Hg0.
    - apply zip_Forall. intros p b _ Hb'. rewrite Forall_forall in Hf2. by apply Hf2.
    - by exists g. }
  exists (group_target g). split; [|by apply group_target_covers].
  cbn. apply list_elem_of_fmap. exists ((wr_ds_addr r, wr_ds_fh r), g). by split.
Qed.

Lemma plan_mds_target :
  pd_commit_thru_mds w = true -> wr_committed r <> FileSync ->
  exists t, cp_mds plan = Some t /\ wr_verifier r ∈ ct_expected t /\
    range_committed (ct_offset t) (ct_count t) (pd_offset w) (pd_count w).
Proof using Hf Hw Hb Hr.
  intros Hm Hu. destruct Hf as [Hf1 Hf2]. assert (Hfw : in_file (pd_offset w) (pd_count w)).
  { rewrite Forall_forall in Hf1. by apply Hf1, (list_elem_of_lookup_2 _ i). }
  destruct (plan_fold_at (zip pending replies) plan_start (w, batch)) as (a0 & Ha); [by eapply zip_elem|].
  unfold plan, plan_commit_batch. cbn [cp_mds]. set (a := foldl plan_write_step plan_start (zip pending replies)) in *.
  assert (Hv : wr_verifier r ∈ pa_expected a).
  { apply (al_expected _ _ Ha). cbn. rewrite Hm. cbn. apply elem_of_app. right.
    apply list_elem_of_fmap_2, filter_elem; [done|]. unfold not_file_sync. by rewrite bool_decide_eq_false_2. }
  destruct (pa_expected a) as [|v l] eqn:Ee; [by apply not_elem_of_nil in Hv|].
  destruct (wire_commit_range (pa_start a) (pa_end a)) as [off cnt] eqn:Ew.
  eexists. split; [done|]. cbn [ct_expected ct_offset ct_count]. split; [done|].
  pose proof (al_start _ _ Ha) as Hs. pose proof (al_end _ _ Ha) as He. cbn in Hs, He. rewrite Hm in Hs, He. cbn in Hs, He.
  rewrite end_of_in_file in He by done.
  destruct (plan_mds_bounds (zip pending replies) plan_start) as [B1 B2]; cbn; [unfold u64_max; lia|lia| |].
  { apply zip_Forall. intros p b Hp _. rewrite Forall_forall in Hf1. by apply Hf1. }
  fold a in B1, B2. destruct Hfw as (? & ? & ?). eapply wire_range_covers; [exact Ew|lia|lia|lia|lia|done].
Qed.

Lemma plan_layout_target :
  pd_commit_thru_mds w = false -> wr_committed r <> FileSync ->
  exists s e, cp_layout plan = Some (s, e) /\ s <= pd_offset w /\ pd_offset w + pd_count w <= e.
Proof using Hf Hw Hb Hr.
  intros Hm Hu. destruct Hf as [Hf1 Hf2]. assert (Hfw : in_file (pd_offset w) (pd_count w)).
  { rewrite Forall_forall in Hf1. by apply Hf1, (list_elem_of_lookup_2 _ i). }
  assert (Hwp : w ∈ pending) by by apply (list_elem_of_lookup_2 _ i).
  destruct (plan_fold_at (zip pending replies) plan_start (w, batch)) as (a0 & Ha); [by eapply zip_elem|].
  pose proof (al_layout _ _ Ha) as Hl. cbn in Hl. rewrite Hm in Hl. cbn in Hl.
  unfold plan, plan_commit_batch. cbn [cp_layout]. rewrite Hl.
  2:{ apply orb_true_iff. right. apply existsb_exists. exists r. split; [by apply list_elem_of_In|].
      unfold not_file_sync. by rewrite bool_decide_eq_false_2. }
  eexists _, _. split; [done|]. split.
  - by apply min_list_le, list_elem_of_fmap_2.
  - rewrite <- end_of_in_file by done. apply max_list_ge.
    by apply (list_elem_of_fmap_2 (fun w => end_of (pd_offset w) (pd_count w))).
Qed.
End Plan.

(** C7: a successful commit of retained pNFS writes makes every one of them
    durable. For each WRITE receipt: if it was unstable on its data server, a
    COMMIT on that server and data file covered its range and returned the
    receipt's own write verifier, so the server has not lost the data since; if
    it commits through the metadata server, the COMMIT there did; and if it
    was not already stable, a LAYOUTCOMMIT covered the file range. *)
Theorem commit_makes_durable {St} (io : CommitIo St) fh g pending replies st st' tr i w batch r :
  batch_in_file pending replies ->
  commit_ds_batch io fh g pending replies st = (Ok (), (st', tr)) ->
  pending !! i = Some w -> replies !! i = Some batch -> r ∈ batch ->
  (pd_commit_thru_mds w = false -> wr_committed r = Unstable ->
     exists off cnt, DsCommitted (wr_ds_addr r) (wr_ds_fh r) off cnt (wr_verifier r) ∈ tr /\
       range_committed off cnt (wr_ds_offset r) (wr_written r)) /\
  (pd_commit_thru_mds w = true -> wr_committed r <> FileSync ->
     exists off cnt, MdsCommitted off cnt (wr_verifier r) ∈ tr /\
       range_committed off cnt (pd_offset w) (pd_count w)) /\
  (pd_commit_thru_mds w = false -> wr_committed r <> FileSync ->
     exists s e, LayoutCommitted s e ∈ tr /\ s <= pd_offset w /\ pd_offset w + pd_count w <= e).
Proof.
  intros Hf E Hw Hb Hr. apply execute_ok in E as (EM & ED & EL). cbn [snd] in *. split_and!; intros Hm Hu.
  - destruct (plan_ds_target pending replies Hf i w batch r Hw Hb Hr Hm Hu) as (t & H1 & H2 & H3).
    exists (ct_offset t), (ct_count t). split; [by eapply ED|done].
  - destruct (plan_mds_target pending replies Hf i w batch r Hw Hb Hr Hm Hu) as (t & H1 & H2 & H3).
    exists (ct_offset t), (ct_count t). split; [by eapply EM|done].
  - destruct (plan_layout_target pending replies Hf i w batch r Hw Hb Hr Hm Hu) as (s & e & H1 & H2 & H3).
    exists s, e. split; [by apply EL|done].
Qed.

Definition demo_reply (off len : Z) (c : WriteCommitted) : DsWriteReply :=
  {| wr_file_offset := off; wr_written := len; wr_committed := c; wr_data := zeros len;
     wr_verifier := zeros 8; wr_ds_addr := V4 1 2049; wr_ds_fh := zeros 4; wr_ds_offset := off |}.
Definition demo_pending : PendingWrite :=
  {| pd_fh := zeros 4; pd_offset := 0; pd_count := 20; pd_generation := 1; pd_commit_thru_mds := false;
     pd_replies := []; pd_done := false; pd_failed := false |}.
(** Servers that keep their verifier. *)
Definition demo_io : CommitIo () :=
  {| io_protocol := NFSv4p1; mds_commit _ _ _ st := (Ok (zeros 8), st);
     ds_commit _ _ _ _ _ st := (Ok (zeros 8), st); layout_commit _ _ _ _ st := (Ok (), st) |}.

Lemma commit_makes_durable_witness :
  let '(_, (_, tr)) := commit_ds_batch demo_io (zeros 4) 1 [demo_pending]
    [[demo_reply 0 10 Unstable; demo_reply 10 10 DataSync]] () in
  exists off cnt, DsCommitted (V4 1 2049) (zeros 4) off cnt (zeros 8) ∈ tr /\ range_committed off cnt 0 10.
Proof.
  destruct (commit_ds_batch demo_io (zeros 4) 1 [demo_pending]
    [[demo_reply 0 10 Unstable; demo_reply 10 10 DataSync]] ()) as [r [st tr]] eqn:E.
  destruct r as [[]|e|]; [|vm_compute in E; discriminate..].
  apply (commit_makes_durable demo_io (zeros 4) 1 [demo_pending]
    [[demo_reply 0 10 Unstable; demo_reply 10 10 DataSync]] () st tr 0 demo_pending
    [demo_reply 0 10 Unstable; demo_reply 10 10 DataSync] (demo_reply 0 10 Unstable)); try reflexivity.
  - split; repeat constructor; cbn; lia.
  - exact E.
  - by left.
Defined.

(** ** Stripe targets are total *)

Lemma stripe_target_some d handles dense first n open_fh idx :
  file_layout_stripe_count d (Z.of_nat (length handles)) dense first = Some n ->
  0 <= idx < n ->
  exists fh addr, stripe_target d idx dense handles open_fh = Some (fh, addr) /\
    (if dense then handles !! Z.to_nat idx = Some fh else True).
Proof.
  unfold file_layout_stripe_count. destruct (u32_max <? _); [done|].
  destruct (_ || _) eqn:E; [done|]. intros [= <-] Hi.
  apply orb_false_iff in E as [E Hex]. apply orb_false_iff in E as [_ Hv]. apply negb_false_iff in Hv.
  destruct (lookup_lt_is_Some_2 (stripe_indices d) (Z.to_nat idx)) as [physical Hp]; [lia|].
  assert (Hds : exists addr l, ds_addrs d !! Z.to_nat physical = Some (addr :: l)).
  { destruct (ds_addrs d !! Z.to_nat physical) as [[|a l]|] eqn:El; [| by exists a, l |]; exfalso.
    all: assert (Ht : existsb (fun index => match ds_addrs d !! Z.to_nat index with
             | None => true | Some l => bool_decide (l = []) end) (stripe_indices d) = true);
      [|congruence].
    all: apply existsb_exists; exists physical; split; [by apply list_elem_of_In, (list_elem_of_lookup_2 _ (Z.to_nat idx))|].
    all: by rewrite El. }
  destruct Hds as (addr & l & Hds). unfold stripe_target. rewrite Hp, Hds.
  pose proof (lookup_lt_Some _ _ _ Hds) as Hlt. destruct dense.
  - apply Z.eqb_eq in Hv. destruct (lookup_lt_is_Some_2 handles (Z.to_nat idx)) as [fh Hh]; [lia|].
    rewrite Hh. by exists fh, addr.
  - destruct handles as [|h [|h2 hs]]; [by exists open_fh, addr|by exists h, addr|].
    apply orb_true_iff in Hv as [Hv|Hv]; [apply Z.leb_le in Hv; cbn [length] in Hv; lia|].
    apply Z.eqb_eq in Hv. destruct (lookup_lt_is_Some_2 (h :: h2 :: hs) (Z.to_nat physical)) as [fh Hh]; [lia|].
    rewrite Hh. by exists fh, addr.
Qed.

(** Validating the device and filehandle list once, before any data server is
    contacted, is enough: every stripe index the striping can produce then
    resolves to a filehandle and an address, so no write batch fails halfway
    for lack of a target. *)
Theorem validated_stripes_resolve d handles dense first n open_fh idx :
  file_layout_stripe_count d (Z.of_nat (length handles)) dense first = Some n ->
  0 <= idx < n ->
  exists fh addr, file_layout_target d idx dense handles open_fh = Ok (fh, addr) /\
    (if dense then handles !! Z.to_nat idx = Some fh else True).
Proof.
  intros Hn Hi. destruct (stripe_target_some d handles dense first n open_fh idx Hn Hi) as (fh & addr & E & H).
  exists fh, addr. unfold file_layout_target. by rewrite E.
Qed.

Definition demo_device : DeviceInfo :=
  {| stripe_indices := [1; 0]; ds_addrs := [[V4 1 2049]; [V4 2 2049; V4 3 2049]] |}.

Lemma validated_stripes_resolve_witness :
  exists fh addr, file_layout_target demo_device 1 true [zeros 4; zeros 8] [] = Ok (fh, addr) /\
    [zeros 4; zeros 8] !! Z.to_nat 1 = Some fh.
Proof. apply (validated_stripes_resolve demo_device [zeros 4; zeros 8] true 0 2 [] 1); [reflexivity|lia]. Defined.

(** ** A planned write has no holes *)

(** The planned pieces from file offset [pos] on, laid end to end. *)
Inductive laid_out (pos : Z) : list PlannedDsWrite -> bytes -> Prop :=
| laid_nil : laid_out pos [] []
| laid_cons w ws rest : pw_file_offset w = pos -> pw_data w <> [] ->
    laid_out (pos + remaining (pw_data w)) ws rest -> laid_out pos (w :: ws) (pw_data w ++ rest).

Section PlanWrite.
Context (d : DeviceInfo) (f : FilesLayout) (fh data : bytes) (offset n : Z).
Context (Hn : file_layout_stripe_count d (Z.of_nat (length (fh_list f))) (is_dense f)
                (first_stripe_index f) = Some n).

Lemma plan_chunk_ok idx c pos :
  0 <= ds_index c < n -> file_offset c = pos -> 0 < ck_length c -> offset <= pos ->
  pos - offset + ck_length c <= remaining data ->
  exists w, plan_chunk d f fh data offset idx c = Ok w /\ pw_file_offset w = pos /\
    pw_data w = firstn (Z.to_nat (ck_length c)) (skipn (Z.to_nat (pos - offset)) data) /\
    remaining (pw_data w) = ck_length c.
Proof using Hn.
  intros Hi <- Hl Ho Hr. unfold plan_chunk, file_layout_target.
  destruct (stripe_target_some _ _ _ _ _ fh (ds_index c) Hn Hi) as (h & a & -> & _). cbn [obind].
  unfold advance, slice_to.
  destruct (Z.ltb_spec (remaining data) (file_offset c - offset)); [lia|]. cbn [obind].
  rewrite remaining_skipn by lia.
  destruct (Z.ltb_spec (remaining data - (file_offset c - offset)) (ck_length c)); [lia|]. cbn [obind].
  eexists. split; [done|]. cbn. split_and!; try done.
  rewrite remaining_firstn; [done|]. rewrite remaining_skipn; lia.
Qed.

Lemma plan_chunks_ok l : forall pos end_ idx,
  contiguous pos l end_ -> Forall (fun c => 0 <= ds_index c < n) l -> offset <= pos ->
  end_ - offset <= remaining data ->
  exists ws, plan_chunks d f fh data offset idx l = Ok ws /\
    laid_out pos ws (firstn (Z.to_nat (end_ - pos)) (skipn (Z.to_nat (pos - offset)) data)).
Proof using Hn.
  induction l as [|c l IH]; intros pos end_ idx Hc Hf Ho He; inversion Hc as [|a c' l' b Hfo Hl Hc']; subst.
  - exists []. split; [done|]. rewrite Z.sub_diag. constructor.
  - inversion Hf as [|? ? Hi Hf']; subst.
    assert (Hle : file_offset c + ck_length c <= end_).
    { clear -Hc'. remember (file_offset c + ck_length c) as x. clear Heqx.
      induction Hc' as [|x c1 l1 y H1 H2 H3 IH]; lia. }
    destruct (plan_chunk_ok idx c (file_offset c) Hi eq_refl Hl Ho ltac:(lia)) as (w & Ew & Wo & Wd & Wl).
    destruct (IH (file_offset c + ck_length c) end_ (idx + 1) Hc' Hf' ltac:(lia) He) as (ws & Es & Hs).
    exists (w :: ws). cbn [plan_chunks]. rewrite Ew. cbn [obind]. rewrite Es. split; [done|].
    replace (firstn (Z.to_nat (end_ - file_offset c)) (skipn (Z.to_nat (file_offset c - offset)) data))
      with (pw_data w ++ firstn (Z.to_nat (end_ - (file_offset c + ck_length c)))
              (skipn (Z.to_nat (file_offset c + ck_length c - offset)) data)).
    + constructor; [done| |by rewrite Wl]. intros E. rewrite E, remaining_nil in Wl. lia.
    + rewrite Wd. replace (Z.to_nat (file_offset c + ck_length c - offset))
        with (Z.to_nat (file_offset c - offset) + Z.to_nat (ck_length c))%nat by lia.
      rewrite <- drop_drop, take_take_drop. f_equal. lia.
Qed.
End PlanWrite.

(** A write that a segment covers is planned completely before anything is
    sent: the plan exists, its pieces follow each other from the write's offset
    without gap or overlap, and their data is the written data, cut at the end
    of the segment. *)
Theorem planned_write_complete d s f fh data offset n :
  file_layout_stripe_count d (Z.of_nat (length (fh_list f))) (is_dense f) (first_stripe_index f) = Some n ->
  64 <= stripe_unit f < 2 ^ 32 -> is_u32 (first_stripe_index f) -> 0 <= pattern_offset f <= offset ->
  remaining data < 2 ^ 32 -> offset + remaining data <= u64_max ->
  exists ws, plan_write d s f fh data offset n = Some (Ok ws) /\
    laid_out offset ws (covered_data s offset data).
Proof.
  intros Hn Hu Hfi Hp Hd He. unfold plan_write. set (cd := covered_data s offset data).
  assert (Hcd : 0 <= remaining cd <= remaining data).
  { unfold cd, covered_data, remaining. rewrite length_firstn. lia. }
  assert (Hn1 : 1 <= n < 2 ^ 32).
  { revert Hn. unfold file_layout_stripe_count. destruct (Z.ltb_spec u32_max (Z.of_nat (length (stripe_indices d)))); [done|].
    destruct (_ || _) eqn:E; [done|]. intros [= <-]. apply orb_false_iff in E as [E _].
    apply orb_false_iff in E as [E _]. apply Z.leb_gt in E. unfold_int. lia. }
  assert (Hw : wrap32 (remaining cd) = remaining cd) by (apply Z.mod_small; lia). rewrite Hw.
  destruct (split_range offset (remaining cd) (stripe_unit f) (is_dense f) (first_stripe_index f) n
              (pattern_offset f)) as (l & -> & Hc & Hl); [done|done|done|done|unfold is_u32; lia|lia|].
  destruct (plan_chunks_ok d f fh cd offset n Hn l offset (offset + remaining cd) 0 Hc) as (ws & -> & Hlo).
  - eapply Forall_impl; [exact Hl|]. intros c Hk. apply (co_range _ _ _ _ _ _ Hk).
  - lia.
  - lia.
  - exists ws. split; [done|]. rewrite Z.sub_diag in Hlo. cbn [skipn Z.to_nat] in Hlo.
    replace (offset + remaining cd - offset) with (remaining cd) in Hlo by lia.
    rewrite drop_0 in Hlo. unfold remaining in Hlo. by rewrite Nat2Z.id, firstn_all in Hlo.
Qed.

Definition demo_files : FilesLayout :=
  {| device_id := zeros 16; stripe_unit := 64; is_dense := true; commit_thru_mds := false;
     first_stripe_index := 0; pattern_offset := 0; fh_list := [zeros 4; zeros 8] |}.

Lemma planned_write_complete_witness :
  exists ws, plan_write demo_device (demo_segment 0 100) demo_files [] (zeros 150) 10 2 = Some (Ok ws) /\
    laid_out 10 ws (covered_data (demo_segment 0 100) 10 (zeros 150)).
Proof.
  apply (planned_write_complete demo_device (demo_segment 0 100) demo_files [] (zeros 150) 10 2);
    [reflexivity|cbn; lia|unfold is_u32; cbn; lia|cbn; lia|reflexivity|vm_compute; discriminate].
Defined.

(** ** The loops on one data server *)

Lemma ra_freeze_push r piece : ra_freeze (ra_push r piece) = ra_freeze r ++ piece.
Proof.
  destruct r as [first joined cap], piece as [|b piece]; cbn; [by rewrite app_nil_r|].
  destruct joined as [d|]; [done|]. by destruct first.
Qed.

Lemma ra_len_freeze r : ra_len r = remaining (ra_freeze r).
Proof. unfold ra_len, ra_freeze. by destruct (ra_joined r). Qed.

Section ReadLoop.
Context {St : Type} (ds_read : Z -> Z -> St -> result CompoundResponse * St) (file : bytes).

(** A server that answers every READ with data of the file: possibly fewer bytes
    than asked, none only at the end, and the end-of-file flag only there. *)
Definition serves : Prop := forall off n st, 0 <= off -> 0 < n ->
  exists resp st' k eof, ds_read off n st = (Ok resp, st') /\
    decode_ds_read resp n = Ok (firstn k (skipn (Z.to_nat off) file), eof) /\ Z.of_nat k <= n /\
    (eof = false -> firstn k (skipn (Z.to_nat off) file) <> []) /\
    (eof = true -> remaining file <= off + Z.of_nat k).

Lemma ds_read_loop_spec len ds_offset : serves ->
  0 <= ds_offset -> ds_offset + len < 2 ^ 64 ->
  forall fuel acc st, len - ra_len acc <= Z.of_nat fuel ->
  ra_freeze acc `prefix_of` firstn (Z.to_nat len) (skipn (Z.to_nat ds_offset) file) ->
  exists acc' st', ds_read_loop ds_read fuel len ds_offset acc st = Some (Ok acc', st') /\
    ra_freeze acc' = firstn (Z.to_nat len) (skipn (Z.to_nat ds_offset) file).
Proof using.
  intros Hs Ho Hb. set (want := firstn (Z.to_nat len) (skipn (Z.to_nat ds_offset) file)).
  assert (Hwl : remaining want <= Z.max 0 len) by (unfold want, remaining; rewrite length_firstn; lia).
  assert (Hdone : forall acc, ra_freeze acc `prefix_of` want -> remaining want <= ra_len acc -> ra_freeze acc = want).
  { intros acc [x Hx] Hle. rewrite ra_len_freeze, Hx, remaining_app in Hle.
    destruct x; [by rewrite app_nil_r in Hx|]. unfold remaining in Hle. cbn [length] in Hle. lia. }
  induction fuel as [|fuel IH]; intros acc st Hf Hp; cbn [ds_read_loop].
  - destruct (Z.ltb_spec (ra_len acc) len); [lia|]. eexists _, _. split; [done|]. apply Hdone; [done|].
    rewrite ra_len_freeze in *. pose proof (remaining_nonneg (ra_freeze acc)). lia.
  - destruct (Z.ltb_spec (ra_len acc) len) as [Hlt|Hge].
    2:{ eexists _, _. split; [done|]. apply Hdone; [done|].
        rewrite ra_len_freeze in *. pose proof (remaining_nonneg (ra_freeze acc)). lia. }
    assert (H0 : 0 <= ra_len acc) by (rewrite ra_len_freeze; apply remaining_nonneg).
    assert (Hwr : wrap64 (ds_offset + ra_len acc) = ds_offset + ra_len acc)
      by (unfold wrap64; apply Z.mod_small; lia). rewrite Hwr.
    destruct (Hs (ds_offset + ra_len acc) (len - ra_len acc) st ltac:(lia) ltac:(lia))
      as (resp & st' & k & eof & -> & Hd & Hk & Hne & Heof).
    cbn [obind]. rewrite Hd. set (piece := firstn k _) in *.
    assert (Hpre : ra_freeze (ra_push acc piece) `prefix_of` want).
    { rewrite ra_freeze_push. destruct Hp as [x Hx].
      assert (Hacc : ra_freeze acc = firstn (Z.to_nat (ra_len acc)) want).
      { rewrite Hx, ra_len_freeze. unfold remaining. by rewrite Nat2Z.id, take_app_length. }
      assert (Hpc : piece = firstn k (skipn (Z.to_nat (ra_len acc)) want)).
      { unfold piece, want. rewrite skipn_firstn_comm, firstn_firstn, skipn_skipn.
        f_equal; [lia|f_equal; lia]. }
      rewrite Hpc, Hacc at 1. rewrite take_take_drop. apply prefix_take. }
    destruct eof.
    + eexists _, _. split; [done|]. apply Hdone; [done|].
      rewrite ra_len_freeze, ra_freeze_push, remaining_app. unfold piece, want, remaining in *.
      rewrite ra_len_freeze in *. unfold remaining in *. specialize (Heof eq_refl).
      rewrite !length_firstn, !length_skipn. lia.
    + specialize (Hne eq_refl). destruct piece as [|b piece'] eqn:Epc; [done|].
      destruct (IH (ra_push acc (b :: piece')) st') as (acc' & st'' & E & H2).
      { rewrite ra_len_freeze, ra_freeze_push, remaining_app, <- ra_len_freeze. unfold remaining. cbn [length]. lia. }
      { done. }
      exists acc', st''. by split.
Qed.
End ReadLoop.

(** Reading one stripe chunk returns exactly the bytes of the data file in
    the asked range, whatever short reads the server chooses: the loop ends, the
    pieces are joined in order, and the chunk is reported short exactly when
    the file ends inside the range. *)
Theorem ds_read_complete_exact {St} (ds_read : Z -> Z -> St -> result CompoundResponse * St) file
    fuel len ds_offset st :
  serves ds_read file -> 0 <= ds_offset -> 0 < len -> ds_offset + len < 2 ^ 64 ->
  len <= Z.of_nat fuel ->
  exists st', ds_read_complete ds_read fuel len ds_offset st =
    Some (Ok (firstn (Z.to_nat len) (skipn (Z.to_nat ds_offset) file),
              remaining file - ds_offset <? len), st').
Proof.
  intros Hs Ho Hlen Hb Hf.
  destruct (ds_read_loop_spec ds_read file len ds_offset Hs Ho Hb fuel (ra_new len) st) as (acc & st' & E & Ha).
  { cbn. rewrite remaining_nil. lia. } { apply prefix_nil. }
  exists st'. unfold ds_read_complete. rewrite E, ra_len_freeze, Ha. do 4 f_equal.
  unfold remaining. rewrite length_firstn, length_skipn. apply eq_bool_prop_intro. rewrite !Is_true_true, !Z.ltb_lt.
  split; intros; lia.
Qed.

(** A server that sends at most two bytes at a time. *)
Definition demo_file : bytes := of_str "hello".
Definition demo_ds_read (off n : Z) (st : ()) : result CompoundResponse * () :=
  let piece := firstn (Z.to_nat (Z.min n 2)) (skipn (Z.to_nat off) demo_file) in
  let eof := remaining demo_file <=? off + Z.min n 2 in
  (Ok {| resp_tag := []; resp_status := NFS4_OK;
         results := [{| op_opcode := 53; op_status := NFS4_OK; op_data := [] |};
                     {| op_opcode := 22; op_status := NFS4_OK; op_data := [] |};
                     {| op_opcode := 25; op_status := NFS4_OK;
                        op_data := be_bytes 4 (b2z eof) ++ be_bytes 4 (remaining piece) ++ piece ++ [] |}];
         session_generation := 0 |}, st).

Lemma demo_ds_read_serves : serves demo_ds_read demo_file.
Proof.
  intros off n st Ho Hn. set (k := Z.to_nat (Z.min n 2)).
  set (piece := firstn k (skipn (Z.to_nat off) demo_file)).
  assert (Hp : remaining piece <= Z.min n 2) by (unfold piece, k, remaining; rewrite length_firstn; lia).
  assert (H5 : length demo_file = 5%nat) by done.
  eexists _, st, k, (remaining demo_file <=? off + Z.min n 2). split; [done|].
  pose proof (remaining_nonneg piece). split_and!.
  - unfold decode_ds_read. cbn [op_ok results lookup list_lookup op_status]. rewrite bool_decide_eq_true_2 by done.
    cbn [negb obind op_data]. fold k. fold piece.
    rewrite require_ok by (rewrite !remaining_app, !remaining_be, remaining_nil; lia). cbn [obind].
    rewrite get_u32_be by (destruct (_ <=? _); unfold is_u32; cbn; lia). cbn [obind].
    rewrite get_u32_be by (unfold is_u32; lia). cbn [obind].
    destruct (Z.ltb_spec n (remaining piece)); [lia|].
    destruct (Z.ltb_spec (remaining (piece ++ [])) (remaining piece)) as [Hx|];
      [rewrite remaining_app, remaining_nil in Hx; lia|]. cbn [orb].
    rewrite slice_to_app by done. cbn [obind]. by destruct (_ <=? _).
  - unfold k. lia.
  - intros He. apply Z.leb_gt in He. intros E. apply (f_equal length) in E.
    rewrite length_firstn, length_skipn, H5 in E. unfold remaining in He. rewrite H5 in He. unfold k in E. cbn in E. lia.
  - intros He. apply Z.leb_le in He. unfold k. lia.
Qed.

Lemma ds_read_complete_exact_witness :
  exists st', ds_read_complete demo_ds_read 9 9 1 () =
    Some (Ok (firstn (Z.to_nat 9) (skipn (Z.to_nat 1) demo_file), remaining demo_file - 1 <? 9), st').
Proof. apply (ds_read_complete_exact demo_ds_read demo_file 9 9 1 ()); [apply demo_ds_read_serves|lia..]. Defined.

Section WriteLoop.
Context {St : Type} (ds_write : Z -> bytes -> St -> result CompoundResponse * St) (p : NFSVersion).

Lemma decode_ds_write_bounds resp done len n c v :
  decode_ds_write p resp done len = Ok (n, c, v) -> 1 <= n <= len - done /\ 0 <= c <= 2 /\ remaining v = 8.
Proof using.
  enough (H : wpo (decode_ds_write p resp done len)
    (fun '(n, c, v) => 1 <= n <= len - done /\ 0 <= c <= 2 /\ remaining v = 8)) by (by intros E; rewrite E in H).
  unfold decode_ds_write. wp. eapply wpo_mono; [by instantiate (1 := fun _ => True); unfold op_ok; repeat case_match|].
  intros _ _. wp. eapply wpo_mono; [by instantiate (1 := fun _ => True); unfold op_ok; repeat case_match|].
  intros op _. wp. bool_hyps. unfold_int. lia.
Qed.

(** Pieces already acknowledged have the verifier and a level no lower than the
    result's. *)
Lemma ds_write_loop_spec w fuel : forall done level verifier st,
  0 <= done <= remaining (pw_data w) -> remaining (pw_data w) - done <= Z.of_nat fuel -> 0 <= level <= 2 ->
  exists r st', ds_write_loop ds_write p fuel w done level verifier st = Some (r, st') /\
    (forall d l v, r = Ok (d, l, v) ->
       d = remaining (pw_data w) /\ 0 <= l <= level /\
       (forall x, verifier = Some x -> v = Some x) /\ (done < d -> is_Some v)).
Proof using.
  induction fuel as [|fuel IH]; intros done level verifier st Hd Hf Hl; cbn [ds_write_loop].
  - destruct (Z.ltb_spec done (remaining (pw_data w))); [lia|]. eexists _, _. split; [done|].
    intros d l v [= <- <- <-]. split_and!; try lia; done.
  - destruct (Z.ltb_spec done (remaining (pw_data w))) as [Hlt|].
    2:{ eexists _, _. split; [done|]. intros d l v [= <- <- <-]. split_and!; try lia; done. }
    destruct (ds_write _ _ st) as [r st1].
    destruct (obind _ _) as [[[n c] v]|e|] eqn:E; [|by eexists _, _..].
    apply obind_ok_inv in E as (resp & _ & E). apply decode_ds_write_bounds in E as (Hn & Hc & _).
    destruct (match verifier with Some _ => _ | None => _ end) eqn:Ev; [by eexists _, _|].
    destruct (IH (done + n) (Z.min level c) (Some v) st1) as (r2 & st2 & E2 & H2); [lia|lia|lia|].
    exists r2, st2. split; [done|]. intros d l v2 Hr. destruct (H2 d l v2 Hr) as (-> & Hl2 & Hv & _).
    specialize (Hv v eq_refl). subst v2. split_and!; try lia; [|by eexists].
    intros x ->. f_equal. apply negb_false_iff, bool_decide_eq_true in Ev. done.
Qed.

Lemma write_ds_attempt_total w fuel st :
  remaining (pw_data w) <= Z.of_nat fuel -> remaining (pw_data w) < 2 ^ 32 ->
  exists r st', write_ds_attempt ds_write p fuel w st = Some (r, st') /\
    (forall x, r = Ok x -> wr_written x = remaining (pw_data w) /\ wr_data x = pw_data w /\
       wr_ds_addr x = pw_ds_addr w /\ wr_ds_fh x = pw_ds_fh w /\ wr_ds_offset x = pw_ds_offset w).
Proof using.
  intros Hf Hb. pose proof (remaining_nonneg (pw_data w)).
  destruct (ds_write_loop_spec w fuel 0 2 None st) as (r & st' & E & H1); [lia|lia|lia|].
  unfold write_ds_attempt. rewrite E. destruct r as [[[d l] v]|e|]; [|by eexists _, _..].
  destruct (H1 d l v eq_refl) as (-> & Hl & _ & _). eexists _, _. split; [done|]. intros x Hx.
  destruct (WriteCommitted_try_from l); [|done..]. cbn in Hx. injection Hx as <-. cbn. split_and!; try done.
  unfold wrap32. apply Z.mod_small. lia.
Qed.
End WriteLoop.

(** Writing one planned stripe always ends, and a success means that all of
    its bytes were acknowledged: the loop continues after short writes, starts
    over when the server's verifier changes midway, and reports the planned
    range, server and filehandle unchanged. *)
Theorem write_ds_complete_whole {St} (ds_write : Z -> bytes -> St -> result CompoundResponse * St) p
    fuel w st :
  remaining (pw_data w) <= Z.of_nat fuel -> remaining (pw_data w) < 2 ^ 32 ->
  exists r st', write_ds_complete ds_write p fuel w st = Some (r, st') /\
    (forall x, r = Ok x -> wr_written x = remaining (pw_data w) /\ wr_data x = pw_data w /\
       wr_ds_addr x = pw_ds_addr w /\ wr_ds_fh x = pw_ds_fh w /\ wr_ds_offset x = pw_ds_offset w).
Proof.
  intros Hf Hb. unfold write_ds_complete. generalize 2%nat as more. generalize false as again.
  intros again more. revert again st.
  induction more as [|more IH]; intros again st; cbn [write_ds_attempts].
  all: destruct (write_ds_attempt_total ds_write p w fuel st Hf Hb) as (r & st' & -> & Hr).
  all: destruct r as [x|e|]; [by eexists _, _| |by eexists _, _].
  - by eexists _, _.
  - destruct (verifier_changed e); [apply IH|by eexists _, _].
Qed.

(** A server that acknowledges three bytes at a time. *)
Definition demo_ds_write (off : Z) (data : bytes) (st : ()) : result CompoundResponse * () :=
  (Ok {| resp_tag := []; resp_status := NFS4_OK;
         results := [{| op_opcode := 53; op_status := NFS4_OK; op_data := [] |};
                     {| op_opcode := 22; op_status := NFS4_OK; op_data := [] |};
                     {| op_opcode := 38; op_status := NFS4_OK;
                        op_data := be_bytes 4 (Z.min 3 (remaining data)) ++ be_bytes 4 0 ++ zeros 8 |}];
         session_generation := 0 |}, st).
Definition demo_planned : PlannedDsWrite :=
  {| pw_file_offset := 0; pw_stripe_index := 0; pw_ds_fh := zeros 4; pw_ds_addr := V4 1 2049;
     pw_ds_offset := 0; pw_data := demo_file |}.

Lemma write_ds_complete_whole_witness :
  exists r st', write_ds_complete demo_ds_write NFSv4p1 5 demo_planned () = Some (r, st') /\
    (forall x, r = Ok x -> wr_written x = 5 /\ wr_data x = demo_file /\
       wr_ds_addr x = V4 1 2049 /\ wr_ds_fh x = zeros 4 /\ wr_ds_offset x = 0).
Proof. apply (write_ds_complete_whole demo_ds_write NFSv4p1 5 demo_planned ()); vm_compute; congruence. Defined.

Example demo_write_runs :
  match write_ds_complete demo_ds_write NFSv4p1 5 demo_planned () with
  | Some (Ok r, _) => wr_written r
  | _ => 0
  end = 5.
Proof. vm_compute. reflexivity. Qed.

(** ** Settling a batch accounts for every stripe *)

Lemma fold_committed_min l : forall c x, (x = c \/ x ∈ l) ->
  committed_rank (fold_left committed_min l c) <= committed_rank x.
Proof.
  induction l as [|y l IH]; intros c x; cbn.
  - intros [->|H]; [done|by apply elem_of_nil in H].
  - assert (Hm : committed_rank (committed_min c y) <= committed_rank c /\
                 committed_rank (committed_min c y) <= committed_rank y)
      by (unfold committed_min; case_match; lia).
    intros [->|[->|H]%elem_of_cons]; [etrans; [apply IH; by left|lia]..|]. by apply IH; right.
Qed.

Lemma pending_committed_lowest w r : r ∈ pd_replies w ->
  committed_rank (pending_committed w) <= committed_rank (wr_committed r).
Proof.
  intros H. apply (list_elem_of_fmap_2 wr_committed) in H. unfold pending_committed.
  change (wr_committed <$> pd_replies w) with (map wr_committed (pd_replies w)) in H.
  destruct (map wr_committed (pd_replies w)) as [|c l]; [by apply elem_of_nil in H|].
  apply fold_committed_min. by apply elem_of_cons in H.
Qed.

Definition stale_reject (c : DsWriteCompletion) : bool :=
  match dc_result c with Err (Nfs4 NFS4ERR_STALE) => true | _ => false end.
Definition rejected (c : DsWriteCompletion) : bool :=
  match dc_result c with Err e => is_rejection e | _ => false end.

Lemma rejected_no_replies l : forallb rejected l = true -> ok_replies l = [].
Proof.
  induction l as [|[i a r] l IH]; cbn; [done|]. unfold rejected at 1. cbn.
  destruct r; cbn; try done. intros [_ H]%andb_true_iff. by apply IH.
Qed.

(** A refused batch that is not stale throughout has a busy server in it. *)
Lemma rejected_has_busy l : forallb rejected l = true -> forallb stale_reject l = false ->
  exists b, first_busy l = Some (ServerBusy b).
Proof.
  induction l as [|[i a r] l IH]; cbn; [done|]. unfold rejected at 1, stale_reject at 1. cbn.
  intros [H1 H2]%andb_true_iff H3. destruct r as [x|e|]; try done.
  destruct e as [b| | |code| | | | | | | | | | | | | |]; try done; [by exists b|].
  destruct code; try done. by apply IH.
Qed.

(** Settling a striped write accounts for every data server's answer. The
    caller is told to fall back to another path only when every stripe was
    refused before writing; success is reported only when every stripe was
    written in the current session generation, at the weakest stability level
    any server gave, and with all receipts retained for COMMIT. Otherwise the
    write is reported as uncertain, and whatever was written is retained; a plain
    busy error means that no stripe was written. *)
Theorem settled_batch_accounts diag fh offset layout mds active sid p l o reg :
  settle_write_batch diag fh offset layout mds active sid p l = (o, reg) ->
  match o with
  | NotAttempted | Attempted Panic => False
  | RefreshRequired lay => lay = layout /\ l <> [] /\ reg = None /\ forallb stale_reject l = true
  | Attempted (Ok w) =>
      length (ok_replies l) = length l /\ lo_generation layout = active /\ reg = wo_pnfs w /\
      exists pend, reg = Some pend /\ pd_replies pend = ok_replies l /\ pd_done pend = false /\
        forall r, r ∈ ok_replies l -> committed_rank (wo_committed w) <= committed_rank (wr_committed r)
  | Attempted (Err e) =>
      (exists b, e = ServerBusy b /\ forallb rejected l = true /\ ok_replies l = [] /\ reg = None) \/
      (contains_uncertain_outcome e = true /\
       match reg with
       | Some pend => pd_replies pend = ok_replies l /\ pd_failed pend = true
       | None => ok_replies l = [] \/ lo_generation layout <> active
       end)
  end.
Proof.
  unfold settle_write_batch. destruct (forallb (fun c => is_ok (dc_result c)) l) eqn:Hok.
  { assert (Hlen : length (ok_replies l) = length l).
    { clear -Hok. induction l as [|[i a r] l IH]; [done|]. cbn in *. apply andb_true_iff in Hok as [H1 H2].
      destruct r; try done. cbn. f_equal. by apply IH. }
    destruct (Z.eqb_spec (lo_generation layout) active) as [Hg|Hg]; cbn; intros [= <- <-]; [|by right; split; [|right]].
    split_and!; try done. eexists. split_and!; try done. intros r Hr. by apply pending_committed_lowest. }
  destruct (ds_batch_rejected_without_write l) eqn:Hs.
  { apply andb_true_iff in Hs as [H1 H2]. intros [= <- <-]. split_and!; try done.
    by intros ->. }
  change (forallb (fun c => match dc_result c with Err e => is_rejection e | _ => false end) l)
    with (forallb rejected l).
  destruct (forallb rejected l) eqn:Hr.
  - intros [= <- <-]. left.
    assert (Hst : forallb stale_reject l = false).
    { unfold ds_batch_rejected_without_write in Hs. apply andb_false_iff in Hs as [Hs|Hs]; [|exact Hs].
      by destruct l. }
    destruct (rejected_has_busy l Hr Hst) as [b Hb]. exists b. rewrite Hb.
    split_and!; try done. by apply rejected_no_replies.
  - intros [= <- <-]. right. split; [done|]. destruct (ok_replies l); [by left|done].
Qed.

Lemma settled_batch_accounts_witness :
  let l := [{| dc_stripe_index := 0; dc_ds_addr := V4 1 2049; dc_result := Ok (demo_reply 0 10 Unstable) |};
            {| dc_stripe_index := 1; dc_ds_addr := V4 2 2049; dc_result := Err (Nfs4 NFS4ERR_STALE) |}] in
  let lay := {| lo_generation := 1; lo_stateid := []; return_on_close := false; segments := [] |} in
  match settle_write_batch (fun _ => "") (zeros 4) 0 lay false 1 (zeros 16) NFSv4p1 l with
  | (Attempted (Err e), Some pend) => pd_replies pend = [demo_reply 0 10 Unstable] /\ pd_failed pend = true
  | _ => False
  end.
Proof.
  intros l lay.
  destruct (settle_write_batch (fun _ => "") (zeros 4) 0 lay false 1 (zeros 16) NFSv4p1 l) as [o reg] eqn:E.
  pose proof (settled_batch_accounts (fun _ => "") (zeros 4) 0 lay false 1 (zeros 16) NFSv4p1 l o reg E) as H.
  destruct o as [|[w|e|]|lay']; try (vm_compute in E; discriminate E).
  destruct reg as [pend|]; [|vm_compute in E; discriminate E].
  destruct H as [(b & _ & H & _)|[_ H]]; [vm_compute in H; discriminate H|exact H].
Defined.
