(* ===== verification/State41.v ===== *)
(** * Open state

    Models [src/src/nfs41/state.rs]: the open files of a mount, keyed by
    filehandle, with the number of handles that share each OPEN stateid and the
    session generation that granted it. Each method holds the map's lock from
    its first read to its last write, so it is one function on the state;
    [transition_to] publishes the generation before it waits for the lock, and
    is two functions.

    [handle_step] adds the handles the clients of the mount hold, as the open
    and close operations of [src/src/nfs41/write.rs] use the manager. *)
From S2P Require Import Prelude Errors Xdr4.
From stdpp Require Import base list numbers strings gmap relations.
#[local] Open Scope Z_scope.

Module AccessMode.
Inductive t : Type := Read | Write | Both.
#[global] Instance t_eq_dec : EqDecision t.
Proof. solve_decision. Defined.

Definition share_access (m : t) : Z := match m with Read => 1 | Write => 2 | Both => 3 end.

Definition covers (m requested : t) : bool :=
  match m, requested with
  | Both, _ | Read, Read | Write, Write => true
  | _, _ => false
  end.

Definition upgrade (m requested : t) : t :=
  match m, requested with
  | Both, _ | _, Both => Both
  | Read, Write | Write, Read => Both
  | _, _ => m
  end.

(** The upgrade is the least mode that covers both: on the wire, the union of
    the share bits. *)
Lemma upgrade_covers m r x : covers (upgrade m r) x = true <->
  Z.land (share_access x) (Z.lor (share_access m) (share_access r)) = share_access x.
Proof. destruct m, r, x; cbn; split; done. Qed.

Lemma upgrade_l m r x : covers m x = true -> covers (upgrade m r) x = true.
Proof. destruct m, r, x; done. Qed.
Lemma upgrade_r m r : covers (upgrade m r) r = true.
Proof. destruct m, r; done. Qed.
Lemma covers_refl m : covers m m = true.
Proof. by destruct m. Qed.
End AccessMode.

(** ** The manager *)

Record OpenState : Type := {
  os_stateid : StateId; os_access : AccessMode.t; ref_count : Z; os_generation : Z
}.
Record StateManager : Type := { open_files : gmap bytes OpenState; st_active : Z }.

Definition StateManager_new : StateManager := {| open_files := ∅; st_active := 1 |}.

Definition set_files (m : StateManager) (f : gmap bytes OpenState) : StateManager :=
  {| open_files := f; st_active := st_active m |}.

Definition get_stateid (m : StateManager) (fh : bytes) : StateId :=
  match open_files m !! fh with
  | Some st => if (0 <? ref_count st) && (os_generation st =? st_active m) then os_stateid st
               else anonymous
  | None => anonymous
  end.

(** The reference count is a [u32]; in a release build it wraps. *)
Definition register_open (m : StateManager) (fh : bytes) (sid : StateId) (access : AccessMode.t)
    : result StateManager :=
  if negb (generation sid =? st_active m)
  then Err (Rpc ("cannot register OPEN from generation " +:+ fmtZ (generation sid) +:+
                 ", active " +:+ fmtZ (st_active m)))
  else
    let st := match open_files m !! fh with
              | Some st => {| os_stateid := sid; os_access := AccessMode.upgrade (os_access st) access;
                              ref_count := wrap32 (ref_count st + 1);
                              os_generation := generation sid |}
              | None => {| os_stateid := sid; os_access := access; ref_count := 1;
                           os_generation := generation sid |}
              end in
    Ok (set_files m (<[fh := st]> (open_files m))).

Definition release_open (m : StateManager) (fh : bytes) : option StateId * StateManager :=
  match open_files m !! fh with
  | None => (None, m)
  | Some st =>
      if ref_count st =? 0 then (Some (os_stateid st), m)
      else
        let st' := {| os_stateid := os_stateid st; os_access := os_access st;
                      ref_count := Z.max 0 (ref_count st - 1); os_generation := os_generation st |} in
        (if ref_count st' =? 0 then Some (os_stateid st) else None,
         set_files m (<[fh := st']> (open_files m)))
  end.

Definition close_succeeded (m : StateManager) (fh : bytes) (sid : StateId) : StateManager :=
  match open_files m !! fh with
  | Some st => if (ref_count st =? 0) && bool_decide (os_stateid st = sid)
               then set_files m (delete fh (open_files m)) else m
  | None => m
  end.

(** The iteration order of a [HashMap] is not specified: any order will do. *)
Definition drain (m : StateManager) : list (bytes * StateId) * StateManager :=
  (map (fun '(fh, st) => (fh, os_stateid st)) (map_to_list (open_files m)), set_files m ∅).

Definition clear_files (m : StateManager) : StateManager := set_files m ∅.

Definition has_open (m : StateManager) (fh : bytes) (access : AccessMode.t) : option StateId :=
  match open_files m !! fh with
  | Some st => if (0 <? ref_count st) && (os_generation st =? st_active m) &&
                  AccessMode.covers (os_access st) access
               then Some (os_stateid st) else None
  | None => None
  end.

(** [transition_to]: the generation is published before the map is cleared. *)
Definition publish_generation (m : StateManager) (g : Z) : StateManager :=
  {| open_files := open_files m; st_active := g |}.
Definition transition_files (m : StateManager) (g : Z) : StateManager :=
  clear_files (publish_generation m g).

(** ** The handles of the mount's clients *)

(** An open handle. It is lost when the server revoked its state or the session
    was replaced: its stateid is no longer good, but its owner may still close
    it. *)
Record handle : Type := { h_fh : bytes; h_access : AccessMode.t; h_live : bool }.
Definition lose (h : handle) : handle :=
  {| h_fh := h_fh h; h_access := h_access h; h_live := false |}.
Definition live_on (fh : bytes) (h : handle) : bool := h_live h && bool_decide (h_fh h = fh).
Definition live_count (fh : bytes) (hs : list handle) : Z := Z.of_nat (length (List.filter (live_on fh) hs)).

(** The manager, the handles, and whether the caches have been cleared since the
    generation was published. *)
Record world : Type := { mgr : StateManager; handles : list handle; cleared : bool }.
Definition world_new : world := {| mgr := StateManager_new; handles := []; cleared := true |}.

(** One operation of some task. Fewer than 2^32 handles are open at a time. An
    OPEN is registered only after the clean-up of its generation, since
    recovery publishes the new session after [transition_to] has returned. *)
Inductive handle_step : world -> world -> Prop :=
| step_open m hs fh sid a m' : Z.of_nat (length hs) + 1 < 2 ^ 32 ->
    register_open m fh sid a = Ok m' ->
    handle_step {| mgr := m; handles := hs; cleared := true |}
      {| mgr := m'; handles := {| h_fh := fh; h_access := a; h_live := true |} :: hs; cleared := true |}
| step_close m h1 h h2 c : h_live h = true ->
    handle_step {| mgr := m; handles := h1 ++ h :: h2; cleared := c |}
      {| mgr := snd (release_open m (h_fh h)); handles := h1 ++ h2; cleared := c |}
| step_close_lost m h1 h h2 c : h_live h = false -> live_count (h_fh h) (h1 ++ h2) = 0 ->
    handle_step {| mgr := m; handles := h1 ++ h :: h2; cleared := c |}
      {| mgr := snd (release_open m (h_fh h)); handles := h1 ++ h2; cleared := c |}
| step_close_reply m hs fh sid c :
    handle_step {| mgr := m; handles := hs; cleared := c |}
      {| mgr := close_succeeded m fh sid; handles := hs; cleared := c |}
| step_revoked m hs c :
    handle_step {| mgr := m; handles := hs; cleared := c |}
      {| mgr := clear_files m; handles := map lose hs; cleared := c |}
| step_publish m hs g c : st_active m < g ->
    handle_step {| mgr := m; handles := hs; cleared := c |}
      {| mgr := publish_generation m g; handles := map lose hs; cleared := false |}
| step_cleared m hs :
    handle_step {| mgr := m; handles := hs; cleared := false |}
      {| mgr := clear_files m; handles := hs; cleared := true |}.

(** What the manager knows about a file once the caches are cleared. *)
Definition tracks (m : StateManager) (hs : list handle) (fh : bytes) : Prop :=
  match open_files m !! fh with
  | Some st =>
      os_generation st = st_active m /\ generation (os_stateid st) = st_active m /\
      ref_count st = live_count fh hs /\
      Forall (fun h => live_on fh h = true -> AccessMode.covers (os_access st) (h_access h) = true) hs
  | None => live_count fh hs = 0
  end.

Definition open_inv (w : world) : Prop :=
  if cleared w then forall fh, tracks (mgr w) (handles w) fh
  else Forall (fun h => h_live h = false) (handles w) /\
       map_Forall (fun _ st => os_generation st < st_active (mgr w)) (open_files (mgr w)).

Lemma live_count_app fh a b : live_count fh (a ++ b) = live_count fh a + live_count fh b.
Proof. unfold live_count. rewrite List.filter_app, length_app. lia. Qed.
Lemma live_count_cons fh h l : live_count fh (h :: l) = (if live_on fh h then 1 else 0) + live_count fh l.
Proof. unfold live_count. cbn. destruct (live_on fh h); cbn [length]; lia. Qed.
Lemma live_count_nonneg fh l : 0 <= live_count fh l.
Proof. unfold live_count. lia. Qed.
Lemma live_count_le fh l : live_count fh l <= Z.of_nat (length l).
Proof. unfold live_count. induction l as [|h l IH]; cbn; [done|]. case_match; cbn [length]; lia. Qed.
Lemma live_count_lost fh l : Forall (fun h => h_live h = false) l -> live_count fh l = 0.
Proof.
  induction 1 as [|h l Hh Hl IH]; [done|]. rewrite live_count_cons, IH. unfold live_on. by rewrite Hh.
Qed.
Lemma lose_lost l : Forall (fun h => h_live h = false) (map lose l).
Proof. induction l; constructor; done. Qed.
Lemma live_count_in fh h l : h ∈ l -> live_on fh h = true -> 1 <= live_count fh l.
Proof.
  intros (a & b & ->)%list_elem_of_split Hl. rewrite live_count_app, live_count_cons, Hl.
  pose proof (live_count_nonneg fh a). pose proof (live_count_nonneg fh b). lia.
Qed.


(** *** The invariant is kept *)

Lemma release_lookup m fh fh' : open_files (snd (release_open m fh)) !! fh' =
  if decide (fh = fh') then
    match open_files m !! fh with
    | Some st => Some {| os_stateid := os_stateid st; os_access := os_access st;
                         ref_count := if ref_count st =? 0 then ref_count st
                                      else Z.max 0 (ref_count st - 1);
                         os_generation := os_generation st |}
    | None => None
    end
  else open_files m !! fh'.
Proof.
  unfold release_open. destruct (open_files m !! fh) as [st|] eqn:E.
  - destruct (Z.eqb_spec (ref_count st) 0); cbn; case_decide; subst; rewrite ?lookup_insert_eq; try done.
    + rewrite E. by destruct st.
    + by rewrite lookup_insert_ne.
  - cbn. case_decide; by subst.
Qed.
Lemma release_active m fh : st_active (snd (release_open m fh)) = st_active m.
Proof. unfold release_open. repeat case_match; done. Qed.

Lemma tracks_open m hs fh sid a m' : (forall fh, tracks m hs fh) ->
  Z.of_nat (length hs) + 1 < 2 ^ 32 -> register_open m fh sid a = Ok m' ->
  forall fh', tracks m' ({| h_fh := fh; h_access := a; h_live := true |} :: hs) fh'.
Proof.
  intros Ht Hlen. unfold register_open.
  destruct (Z.eqb_spec (generation sid) (st_active m)) as [Hg|]; [|done]. cbn. intros [= <-] fh'.
  specialize (Ht fh'). unfold tracks in *. cbn [open_files set_files st_active] in *.
  assert (Hl : live_on fh' {| h_fh := fh; h_access := a; h_live := true |} = bool_decide (fh = fh')) by done.
  rewrite live_count_cons, Hl.
  pose proof (live_count_le fh' hs). pose proof (live_count_nonneg fh' hs).
  destruct (decide (fh = fh')) as [<-|Hne].
  - rewrite lookup_insert_eq, (bool_decide_eq_true_2 (fh = fh)) by done.
    destruct (open_files m !! fh) as [st|] eqn:E; cbn.
    + destruct Ht as (H1 & H2 & H3 & H4). split_and!; try done.
      * unfold wrap32. rewrite Z.mod_small by lia. lia.
      * constructor; [intros _; apply AccessMode.upgrade_r|].
        eapply Forall_impl; [exact H4|]. cbn. intros h Hh Ho. apply AccessMode.upgrade_l. by apply Hh.
    + split_and!; try done; [lia|]. constructor; [intros _; apply AccessMode.covers_refl|].
      apply Forall_forall. intros h Hin Ho. pose proof (live_count_in fh h hs Hin Ho). lia.
  - rewrite lookup_insert_ne, (bool_decide_eq_false_2 (fh = fh')) by done.
    destruct (open_files m !! fh') as [st|]; [|lia].
    destruct Ht as (H1 & H2 & H3 & H4). split_and!; try done.
    constructor; [|done]. by rewrite Hl, bool_decide_eq_false_2.
Qed.

(** Closing a handle that counts, or one that does not while none is left. *)
Lemma tracks_close m h1 h h2 : (forall fh, tracks m (h1 ++ h :: h2) fh) ->
  h_live h = true \/ live_count (h_fh h) (h1 ++ h2) = 0 ->
  forall fh, tracks (snd (release_open m (h_fh h))) (h1 ++ h2) fh.
Proof.
  intros Ht Hh fh. specialize (Ht fh). unfold tracks in *. rewrite release_lookup, release_active.
  assert (Hc : live_count fh (h1 ++ h :: h2) =
               (if live_on fh h then 1 else 0) + live_count fh (h1 ++ h2)).
  { rewrite !live_count_app, live_count_cons. lia. }
  pose proof (live_count_nonneg fh (h1 ++ h2)).
  assert (HF : forall P, Forall P (h1 ++ h :: h2) -> Forall P (h1 ++ h2)).
  { intros P [? [_ ?]%Forall_cons]%Forall_app. by apply Forall_app. }
  case_decide as Hd.
  - subst fh. assert (Hl : live_on (h_fh h) h = h_live h).
    { unfold live_on. rewrite bool_decide_eq_true_2 by done. apply andb_true_r. }
    rewrite Hl in Hc. rewrite Hc in Ht.
    destruct (open_files m !! h_fh h) as [st|]; cbn.
    + destruct Ht as (H1 & H2 & H3 & H4). split_and!; auto.
      destruct (h_live h), (Z.eqb_spec (ref_count st) 0); lia || (destruct Hh; [done|lia]).
    + destruct (h_live h); lia.
  - assert (Hl : live_on fh h = false).
    { unfold live_on. rewrite bool_decide_eq_false_2 by done. apply andb_false_r. }
    rewrite Hl in Hc.
    destruct (open_files m !! fh) as [st|]; [|lia].
    destruct Ht as (H1 & H2 & H3 & H4). split_and!; auto; lia.
Qed.

Lemma tracks_close_reply m hs fh sid : (forall fh, tracks m hs fh) ->
  forall fh', tracks (close_succeeded m fh sid) hs fh'.
Proof.
  intros Ht fh'. pose proof (Ht fh) as Hf. specialize (Ht fh').
  unfold close_succeeded. destruct (open_files m !! fh) as [st|] eqn:E; [|done].
  destruct (Z.eqb_spec (ref_count st) 0) as [H0|]; cbn; [|done].
  case_bool_decide; [|done]. unfold tracks in *. cbn. rewrite E in Hf.
  destruct (decide (fh = fh')) as [<-|]; [rewrite lookup_delete_eq|by rewrite lookup_delete_ne].
  destruct Hf as (_ & _ & H3 & _). lia.
Qed.

Lemma tracks_cleared m hs : Forall (fun h => h_live h = false) hs ->
  forall fh, tracks (clear_files m) hs fh.
Proof. intros H fh. unfold tracks. cbn. rewrite lookup_empty. by apply live_count_lost. Qed.

Lemma handle_step_inv w w' : open_inv w -> handle_step w w' -> open_inv w'.
Proof.
  intros HI Hs.
  destruct Hs as [m hs fh sid a m' Hl Hr|m h1 h h2 c Hh|m h1 h h2 c Hh Hz|m hs fh sid c|m hs c|m hs g c Hg|m hs];
    unfold open_inv in *; cbn [cleared mgr handles] in *.
  - by eapply tracks_open.
  - destruct c; [apply tracks_close; [done|by left]|].
    destruct HI as [[H1 [H2 H3]%Forall_cons]%Forall_app H4]. congruence.
  - destruct c; [apply tracks_close; [done|by right]|].
    destruct HI as [[H1 [H2 H3]%Forall_cons]%Forall_app H4]. split; [by apply Forall_app|].
    intros fh st. rewrite release_lookup, release_active. case_decide; [|by apply H4].
    destruct (open_files m !! h_fh h) as [st'|] eqn:E; [|done]. intros [= <-]. cbn. by apply (H4 (h_fh h)).
  - destruct c; [by apply tracks_close_reply|]. destruct HI as [H1 H2]. split; [done|].
    unfold close_succeeded. repeat case_match; try done. cbn. by apply map_Forall_delete.
  - destruct c; [apply tracks_cleared, lose_lost|]. split; [apply lose_lost|]. apply map_Forall_empty.
  - split; [apply lose_lost|]. cbn. intros fh st E. destruct c.
    + specialize (HI fh). unfold tracks in HI. rewrite E in HI. destruct HI as [HI _]. lia.
    + destruct HI as [_ HI]. specialize (HI fh st E). cbn in HI. lia.
  - apply tracks_cleared. by destruct HI.
Qed.

Lemma reachable_open_inv w : rtc handle_step world_new w -> open_inv w.
Proof.
  intros H. remember world_new as w0 eqn:E. assert (HI : open_inv w0).
  { subst w0. intros fh. unfold tracks. cbn. by rewrite lookup_empty. }
  clear E. induction H; [done|]. by eauto using handle_step_inv.
Qed.

(** ** Properties *)

Lemma live_has_open m hs h : tracks m hs (h_fh h) -> h ∈ hs -> h_live h = true ->
  exists sid, has_open m (h_fh h) (h_access h) = Some sid /\ generation sid = st_active m.
Proof.
  intros Ht Hin Hl. assert (Ho : live_on (h_fh h) h = true).
  { unfold live_on. rewrite Hl. by apply bool_decide_eq_true_2. }
  pose proof (live_count_in _ _ _ Hin Ho). unfold tracks, has_open in *.
  destruct (open_files m !! h_fh h) as [st|]; [|lia]. destruct Ht as (H1 & H2 & H3 & H4).
  rewrite Forall_forall in H4. rewrite (H4 h Hin Ho), H1, Z.eqb_refl, (proj2 (Z.ltb_lt _ _)) by lia.
  by exists (os_stateid st).
Qed.

Lemma no_live_no_open m hs fh : tracks m hs fh -> live_count fh hs = 0 ->
  (forall a, has_open m fh a = None) /\ get_stateid m fh = anonymous.
Proof.
  unfold tracks, has_open, get_stateid. intros Ht H0. destruct (open_files m !! fh) as [st|]; [|done].
  destruct Ht as (_ & _ & H3 & _). by rewrite H3, H0.
Qed.

Lemma release_last m hs fh : tracks m hs fh -> 1 <= live_count fh hs ->
  is_Some (fst (release_open m fh)) <-> live_count fh hs = 1.
Proof.
  unfold tracks, release_open. intros Ht H1. destruct (open_files m !! fh) as [st|]; [|lia].
  destruct Ht as (_ & _ & H3 & _). destruct (Z.eqb_spec (ref_count st) 0); [lia|]. cbn.
  destruct (Z.eqb_spec (Z.max 0 (ref_count st - 1)) 0); split; try done; intros; [lia|lia].
Qed.

(** The manager's bookkeeping agrees with the handles in use, whatever the
    interleaving of opens, closes, late CLOSE replies, revocations and session
    recoveries. Every live handle finds a stateid of the current generation with
    the access it was opened for; a file without live handles has none; and
    closing a handle asks for a CLOSE on the server exactly when it is the last
    live one of its file. A handle lost in a revocation or recovery is assumed
    to be closed only while no live handle shares its file. *)
Theorem open_state_tracks_handles w fh : rtc handle_step world_new w ->
  (forall h, h ∈ handles w -> h_live h = true -> h_fh h = fh ->
     exists sid, has_open (mgr w) fh (h_access h) = Some sid /\ generation sid = st_active (mgr w)) /\
  (live_count fh (handles w) = 0 ->
     (forall a, has_open (mgr w) fh a = None) /\ get_stateid (mgr w) fh = anonymous) /\
  (1 <= live_count fh (handles w) ->
     (is_Some (fst (release_open (mgr w) fh)) <-> live_count fh (handles w) = 1)).
Proof.
  intros Hr. apply reachable_open_inv in Hr. unfold open_inv in Hr. destruct (cleared w).
  - split_and!.
    + intros h Hin Hl <-. by eapply live_has_open.
    + by apply no_live_no_open.
    + by apply release_last.
  - destruct Hr as [Hl Ha]. rewrite (live_count_lost fh _ Hl). split_and!; [|intros _|lia].
    + intros h Hin Hh _. rewrite Forall_forall in Hl. specialize (Hl h Hin). congruence.
    + unfold has_open, get_stateid. destruct (open_files (mgr w) !! fh) as [st|] eqn:E; [|done].
      specialize (Ha fh st E). cbn in Ha. rewrite (proj2 (Z.eqb_neq _ _)) by lia.
      rewrite !andb_false_r. done.
Qed.

Definition demo_fh : bytes := of_str "fh".
Definition demo_sid (b : Z) : StateId := from_bytes_at (zeros 15 ++ [byte_of b]) 1.

(** A handle for reading and one for writing on the same file. *)
Definition demo_two : world :=
  {| mgr := {| open_files := {[ demo_fh := {| os_stateid := demo_sid 2; os_access := AccessMode.Both;
                                              ref_count := 2; os_generation := 1 |} ]}; st_active := 1 |};
     handles := [{| h_fh := demo_fh; h_access := AccessMode.Write; h_live := true |};
                 {| h_fh := demo_fh; h_access := AccessMode.Read; h_live := true |}];
     cleared := true |}.

Lemma open_state_tracks_handles_witness :
  rtc handle_step world_new demo_two /\
  (exists sid, has_open (mgr demo_two) demo_fh AccessMode.Write = Some sid /\ generation sid = 1) /\
  fst (release_open (mgr demo_two) demo_fh) = None.
Proof.
  assert (H : rtc handle_step world_new demo_two).
  { eapply rtc_l; [by apply (step_open _ _ demo_fh (demo_sid 1) AccessMode.Read)|].
    eapply rtc_l; [by apply (step_open _ _ demo_fh (demo_sid 2) AccessMode.Write)|].
    apply rtc_refl. }
  split; [exact H|]. destruct (open_state_tracks_handles demo_two demo_fh H) as (H1 & _ & H3).
  split; [by apply (H1 {| h_fh := demo_fh; h_access := AccessMode.Write; h_live := true |}); [left| |]|].
  destruct (fst (release_open (mgr demo_two) demo_fh)) eqn:E; [|done].
  exfalso. assert (Hc : live_count demo_fh (handles demo_two) = 1).
  { apply H3; [vm_compute; discriminate|]. by exists s. }
  vm_compute in Hc. discriminate Hc.
Defined.

(** The assumption on lost handles is needed: [release] does not compare
    generations, so closing a handle opened before a recovery releases the
    reference of one opened after it, and its stateid is closed on the server
    while it is in use. *)
Lemma stale_close_takes_live_open : exists m1 m2 m3,
  register_open StateManager_new demo_fh (demo_sid 1) AccessMode.Write = Ok m1 /\
  register_open (transition_files m1 2) demo_fh (from_bytes_at (zeros 16) 2) AccessMode.Write = Ok m2 /\
  release_open m2 demo_fh = (Some (from_bytes_at (zeros 16) 2), m3) /\
  has_open m3 demo_fh AccessMode.Write = None.
Proof.
  pose (get := fun r : result StateManager => match r with Ok m => m | _ => StateManager_new end).
  pose (m1 := get (register_open StateManager_new demo_fh (demo_sid 1) AccessMode.Write)).
  pose (m2 := get (register_open (transition_files m1 2) demo_fh (from_bytes_at (zeros 16) 2) AccessMode.Write)).
  exists m1, m2, (release_open m2 demo_fh).2. split_and!; vm_compute; reflexivity.
Qed.
