(* ===== verification/Compound40.v ===== *)
(** * The NFSv4.0 COMPOUND requests and replies

    Models [src/src/nfs40/compound.rs]: the builder's operations with their
    argument encodings, the reader of each reply, the checks that tell whether an
    operation took effect before the COMPOUND failed, and the decision whether a
    request that met a busy server may be sent again. *)
From S2P Require Import Prelude Errors Xdr4 Attrs4.
From stdpp Require Import base list numbers strings.
#[local] Open Scope Z_scope.

Module V40.
Import Builder40.

Definition OP_SETCLIENTID : Z := 35.
Definition OP_SETCLIENTID_CONFIRM : Z := 36.
Definition OP_SETATTR : Z := 34.
Definition OP_CLOSE : Z := 4.
Definition OP_CREATE : Z := 6.
Definition OP_ACCESS : Z := 3.
Definition OP_COMMIT : Z := 5.
Definition OP_DELEGRETURN : Z := 8.
Definition OP_GETATTR : Z := 9.
Definition OP_LINK : Z := 11.
Definition OP_LOCK : Z := 12.
Definition OP_LOCKT : Z := 13.
Definition OP_LOCKU : Z := 14.
Definition OP_RELEASE_LOCKOWNER : Z := 39.
Definition OP_OPEN : Z := 18.
Definition OP_OPEN_CONFIRM : Z := 20.
Definition OP_READ : Z := 25.
Definition OP_READDIR : Z := 26.
Definition OP_REMOVE : Z := 28.
Definition OP_RENAME : Z := 29.
Definition OP_RENEW : Z := 30.
Definition OP_SAVEFH : Z := 32.
Definition OP_READLINK : Z := 27.
Definition OP_WRITE : Z := 38.
Definition DENIED : Z := 10010.
Definition MAX_LOCK_OWNER_LEN : Z := 1024.
Definition OPEN4_RESULT_CONFIRM : Z := 2.

Inductive DelegationKind : Type := DelegRead | DelegWrite.
Record DelegationGrant : Type := { dg_kind : DelegationKind; dg_stateid : bytes; dg_recall : bool }.
Record OpenResult : Type := {
  or_stateid : bytes; confirm_required : bool; delegation : option DelegationGrant
}.
Record OpenArgs : Type := {
  oa_seqid : Z; oa_share_access : Z; oa_client_id : Z; oa_owner : bytes; oa_filename : bytes;
  oa_create : bool
}.
Record NewLockArgs : Type := {
  nl_lock_type : Z; nl_reclaim : bool; nl_offset : Z; nl_length : Z; nl_open_seqid : Z;
  nl_open_stateid : bytes; nl_lock_seqid : Z; nl_client_id : Z; nl_owner : bytes
}.
Record OpenReclaimArgs : Type := {
  rc_seqid : Z; rc_share_access : Z; rc_client_id : Z; rc_owner : bytes
}.
Record CallbackAddress : Type := { cb_program : Z; cb_netid : bytes; cb_addr : bytes; cb_ident : Z }.
Record SetClientIdArgs : Type := { si_verifier : bytes; si_owner : bytes; si_callback : CallbackAddress }.

Definition CB_PROGRAM : Z := 0x40000000.
Definition DISABLED : CallbackAddress := {| cb_program := 0; cb_netid := []; cb_addr := []; cb_ident := 0 |}.
Definition tcp (addr : bytes) (ident : Z) : CallbackAddress :=
  {| cb_program := CB_PROGRAM; cb_netid := of_str "tcp"; cb_addr := addr; cb_ident := ident |}.

(** ** The builder *)

Definition new40 (tag : bytes) : CompoundBuilder := new tag 0.

Definition setclientid (b : CompoundBuilder) (i : SetClientIdArgs) : CompoundBuilder :=
  operation b OP_SETCLIENTID
    (si_verifier i ++ xdr_opaque (si_owner i) ++ xdr_u32 (cb_program (si_callback i)) ++
     xdr_opaque (cb_netid (si_callback i)) ++ xdr_opaque (cb_addr (si_callback i)) ++
     xdr_u32 (cb_ident (si_callback i))).
Definition setclientid_confirm (b : CompoundBuilder) (client_id : Z) (verifier : bytes) : CompoundBuilder :=
  operation b OP_SETCLIENTID_CONFIRM (xdr_u64 client_id ++ verifier).
Definition delegreturn (b : CompoundBuilder) (stateid : bytes) : CompoundBuilder :=
  operation b OP_DELEGRETURN stateid.

Definition open_with_create_attributes (b : CompoundBuilder) (o : OpenArgs) (guarded : bool)
    (mode : option Z) : CompoundBuilder :=
  let claim :=
    if oa_create o
    then let '(mask, values) := encode_setattr mode None None None None None in
         xdr_u32 1 ++ xdr_bool guarded ++ xdr_bitmap mask ++ xdr_opaque values
    else xdr_u32 0 in
  operation b OP_OPEN
    (xdr_u32 (oa_seqid o) ++ xdr_u32 (oa_share_access o) ++ xdr_u32 0 ++ xdr_u64 (oa_client_id o) ++
     xdr_opaque (oa_owner o) ++ claim ++ xdr_u32 0 ++ xdr_opaque (oa_filename o)).
Definition open (b : CompoundBuilder) (o : OpenArgs) : CompoundBuilder :=
  open_with_create_attributes b o false None.
Definition open_guarded (b : CompoundBuilder) (o : OpenArgs) (mode : option Z) : CompoundBuilder :=
  open_with_create_attributes b o true mode.
Definition open_reclaim (b : CompoundBuilder) (o : OpenReclaimArgs) : CompoundBuilder :=
  operation b OP_OPEN
    (xdr_u32 (rc_seqid o) ++ xdr_u32 (rc_share_access o) ++ xdr_u32 0 ++ xdr_u64 (rc_client_id o) ++
     xdr_opaque (rc_owner o) ++ xdr_u32 0 ++ xdr_u32 1 ++ xdr_u32 0).
Definition open_confirm (b : CompoundBuilder) (stateid : bytes) (seqid : Z) : CompoundBuilder :=
  operation b OP_OPEN_CONFIRM (stateid ++ xdr_u32 seqid).
Definition read (b : CompoundBuilder) (stateid : bytes) (offset count : Z) : CompoundBuilder :=
  operation b OP_READ (stateid ++ xdr_u64 offset ++ xdr_u32 count).
Definition lock_new (b : CompoundBuilder) (l : NewLockArgs) : CompoundBuilder :=
  operation b OP_LOCK
    (xdr_u32 (nl_lock_type l) ++ xdr_bool (nl_reclaim l) ++ xdr_u64 (nl_offset l) ++
     xdr_u64 (nl_length l) ++ xdr_u32 1 ++ xdr_u32 (nl_open_seqid l) ++ nl_open_stateid l ++
     xdr_u32 (nl_lock_seqid l) ++ xdr_u64 (nl_client_id l) ++ xdr_opaque (nl_owner l)).
Definition lockt (b : CompoundBuilder) (lock_type offset len client_id : Z) (owner : bytes) : CompoundBuilder :=
  operation b OP_LOCKT
    (xdr_u32 lock_type ++ xdr_u64 offset ++ xdr_u64 len ++ xdr_u64 client_id ++ xdr_opaque owner).
Definition locku (b : CompoundBuilder) (lock_type seqid : Z) (stateid : bytes) (offset len : Z)
    : CompoundBuilder :=
  operation b OP_LOCKU (xdr_u32 lock_type ++ xdr_u32 seqid ++ stateid ++ xdr_u64 offset ++ xdr_u64 len).
Definition release_lockowner (b : CompoundBuilder) (client_id : Z) (owner : bytes) : CompoundBuilder :=
  operation b OP_RELEASE_LOCKOWNER (xdr_u64 client_id ++ xdr_opaque owner).
Definition renew (b : CompoundBuilder) (client_id : Z) : CompoundBuilder :=
  operation b OP_RENEW (xdr_u64 client_id).
Definition write_header (b : CompoundBuilder) (stateid : bytes) (offset stable data_len : Z) : CompoundBuilder :=
  operation b OP_WRITE (stateid ++ xdr_u64 offset ++ xdr_u32 stable ++ xdr_u32 data_len).
Definition commit (b : CompoundBuilder) (offset count : Z) : CompoundBuilder :=
  operation b OP_COMMIT (xdr_u64 offset ++ xdr_u32 count).
Definition close (b : CompoundBuilder) (seqid : Z) (stateid : bytes) : CompoundBuilder :=
  operation b OP_CLOSE (xdr_u32 seqid ++ stateid).
Definition getattr (b : CompoundBuilder) (bitmap : list Z) : CompoundBuilder :=
  operation b OP_GETATTR (xdr_bitmap bitmap).
Definition access (b : CompoundBuilder) (requested : Z) : CompoundBuilder :=
  operation b OP_ACCESS (xdr_u32 requested).
Definition setattr (b : CompoundBuilder) (stateid : bytes) (bitmap : list Z) (values : bytes) : CompoundBuilder :=
  operation b OP_SETATTR (stateid ++ xdr_bitmap bitmap ++ xdr_opaque values).
Definition create_directory (b : CompoundBuilder) (name : bytes) : CompoundBuilder :=
  operation b OP_CREATE (xdr_u32 2 ++ xdr_opaque name ++ xdr_u32 0 ++ xdr_opaque []).
Definition create_symlink (b : CompoundBuilder) (name target : bytes) : CompoundBuilder :=
  operation b OP_CREATE
    (xdr_u32 5 ++ xdr_opaque target ++ xdr_opaque name ++ xdr_u32 0 ++ xdr_opaque []).
Definition savefh (b : CompoundBuilder) : CompoundBuilder := operation b OP_SAVEFH [].
Definition rename (b : CompoundBuilder) (from to : bytes) : CompoundBuilder :=
  operation b OP_RENAME (xdr_opaque from ++ xdr_opaque to).
Definition link (b : CompoundBuilder) (name : bytes) : CompoundBuilder :=
  operation b OP_LINK (xdr_opaque name).
Definition readlink (b : CompoundBuilder) : CompoundBuilder := operation b OP_READLINK [].
Definition readdir (b : CompoundBuilder) (cookie : Z) (verifier : bytes) (dircount maxcount : Z)
    (bitmap : list Z) : CompoundBuilder :=
  operation b OP_READDIR
    (xdr_u64 cookie ++ verifier ++ xdr_u32 dircount ++ xdr_u32 maxcount ++ xdr_bitmap bitmap).
Definition remove (b : CompoundBuilder) (name : bytes) : CompoundBuilder :=
  operation b OP_REMOVE (xdr_opaque name).

(** ** Replies *)

Definition expect_op (buf : bytes) (expected : Z) (name : string) : result bytes :=
  let* (actual, buf) := take_u32 buf (name +:+ " opcode") in
  if negb (actual =? expected)
  then Err (Xdr (name +:+ " opcode " +:+ fmtZ actual +:+ " does not match " +:+ fmtZ expected))
  else
    let* (status, buf) := take_u32 buf (name +:+ " status") in
    let* _ := check_status status in
    Ok buf.

(** The results of a successful COMPOUND that has [n] operations. *)
Definition counted_ops (buf : bytes) (n : Z) (name : string) : result bytes :=
  let* (count, buf) := response_ops buf in
  if negb (count =? n)
  then Err (Xdr (name +:+ " response has " +:+ fmtZ count +:+ " operations, expected " +:+ fmtZ n))
  else Ok buf.

(** [copy_to_slice] into an array after a test of the length. *)
Definition take_array (n : Z) (e : NfsError) (buf : bytes) : result (bytes * bytes) :=
  let* _ := require n e buf in split_to n buf.

Definition decode_setclientid_response (buf : bytes) : result (Z * bytes) :=
  let* (count, buf) := response_ops buf in
  let mismatch := Err (Xdr "SETCLIENTID response operation mismatch") in
  if negb (count =? 1) then mismatch
  else
    let* (opcode, buf) := take_u32 buf "SETCLIENTID opcode" in
    if negb (opcode =? OP_SETCLIENTID) then mismatch
    else
      let* (status, buf) := take_u32 buf "SETCLIENTID status" in
      let* _ := check_status status in
      let* _ := require 16 (Xdr "SETCLIENTID result truncated") buf in
      let* (client_id, buf) := get_u64 buf in
      let* (verifier, _) := split_to 8 buf in
      Ok (client_id, verifier).

Definition decode_confirm_response (buf : bytes) : result () :=
  let* (count, buf) := response_ops buf in
  let mismatch := Err (Xdr "SETCLIENTID_CONFIRM response operation mismatch") in
  if negb (count =? 1) then mismatch
  else
    let* (opcode, buf) := take_u32 buf "SETCLIENTID_CONFIRM opcode" in
    if negb (opcode =? OP_SETCLIENTID_CONFIRM) then mismatch
    else
      let* (status, _) := take_u32 buf "SETCLIENTID_CONFIRM status" in
      check_status status.

Definition decode_delegreturn_response (buf : bytes) : result () :=
  let* buf := counted_ops buf 2 "DELEGRETURN" in
  let* buf := expect_op buf OP_PUTFH "PUTFH" in
  let* _ := expect_op buf OP_DELEGRETURN "DELEGRETURN" in
  Ok ().

Definition take_stateid (buf : bytes) (what : string) : result (bytes * bytes) :=
  take_array 16 (Xdr (what +:+ " stateid truncated")) buf.

(** The source's [checked_mul] cannot fail on a 32-bit count in a 64-bit [usize]. *)
Definition skip_bitmap (buf : bytes) (what : string) : result bytes :=
  let* (words, buf) := take_u32 buf (what +:+ " bitmap length") in
  if u64_max <? words * 4 then Err (Xdr (what +:+ " bitmap overflow"))
  else
    let* _ := require (words * 4) (Xdr (what +:+ " bitmap truncated")) buf in
    advance (words * 4) buf.

Definition skip_ace (buf : bytes) : result bytes :=
  let* (_, buf) := take_u32 buf "ACE type" in
  let* (_, buf) := take_u32 buf "ACE flags" in
  let* (_, buf) := take_u32 buf "ACE mask" in
  let* (_, buf) := take_opaque buf "ACE who" in
  Ok buf.

Definition skip_space_limit (buf : bytes) : result bytes :=
  let* (limit, buf) := take_u32 buf "space limit" in
  match limit with
  | 1 => let* _ := require 8 (Xdr "delegation size truncated") buf in advance 8 buf
  | 2 => let* _ := require 16 (Xdr "delegation blocks truncated") buf in advance 16 buf
  | value => Err (Xdr ("invalid delegation space limit " +:+ fmtZ value))
  end.

Definition decode_delegation (buf : bytes) : result (option DelegationGrant * bytes) :=
  let* (ty, buf) := take_u32 buf "delegation type" in
  match ty with
  | 0 => Ok (None, buf)
  | 1 =>
      let* (stateid, buf) := take_stateid buf "read delegation" in
      let* (recall, buf) := take_u32 buf "recall" in
      let* buf := skip_ace buf in
      Ok (Some {| dg_kind := DelegRead; dg_stateid := stateid; dg_recall := negb (recall =? 0) |}, buf)
  | 2 =>
      let* (stateid, buf) := take_stateid buf "write delegation" in
      let* (recall, buf) := take_u32 buf "recall" in
      let* buf := skip_space_limit buf in
      let* buf := skip_ace buf in
      Ok (Some {| dg_kind := DelegWrite; dg_stateid := stateid; dg_recall := negb (recall =? 0) |}, buf)
  | value => Err (Xdr ("unsupported delegation type " +:+ fmtZ value))
  end.

Definition decode_open_response (buf : bytes) : result (OpenResult * bytes) :=
  let* buf := counted_ops buf 3 "OPEN" in
  let* buf := expect_op buf OP_PUTFH "PUTFH" in
  let* buf := expect_op buf OP_OPEN "OPEN" in
  let* (stateid, buf) := take_stateid buf "OPEN" in
  let* _ := require 20 (Xdr "OPEN change_info truncated") buf in
  let* buf := advance 20 buf in
  let* (flags, buf) := take_u32 buf "OPEN result flags" in
  let* buf := skip_bitmap buf "OPEN attrset" in
  let* (deleg, buf) := decode_delegation buf in
  let* buf := expect_op buf OP_GETFH "GETFH" in
  let* (fh, _) := take_opaque buf "GETFH filehandle" in
  Ok ({| or_stateid := stateid;
         confirm_required := negb (Z.land flags OPEN4_RESULT_CONFIRM =? 0);
         delegation := deleg |}, fh).

(** [take_u32(..).ok() == Some(v) && k]. *)
Definition next_is (buf : bytes) (what : string) (v : Z) (k : bytes -> bool) : bool :=
  match take_u32 buf what with Ok (x, buf) => (x =? v) && k buf | _ => false end.

Definition succeeded_before_compound_failure (op : Z) (name : string) (buf : bytes) : bool :=
  match take_u32 buf "COMPOUND status" with
  | Ok (overall, buf) =>
      if overall =? 0 then false
      else match take_opaque buf "COMPOUND tag" with
           | Ok (_, buf) =>
               match take_u32 buf "COMPOUND result count" with
               | Ok (count, buf) =>
                   (2 <=? count) &&
                   next_is buf "PUTFH opcode" OP_PUTFH (fun buf =>
                   next_is buf "PUTFH status" 0 (fun buf =>
                   next_is buf (name +:+ " opcode") op (fun buf =>
                   next_is buf (name +:+ " status") 0 (fun _ => true))))
               | _ => false
               end
           | _ => false
           end
  | _ => false
  end.
Definition open_succeeded_before_compound_failure : bytes -> bool :=
  succeeded_before_compound_failure OP_OPEN "OPEN".
Definition create_succeeded_before_compound_failure : bytes -> bool :=
  succeeded_before_compound_failure OP_CREATE "CREATE".

Definition decode_getattr_response (buf : bytes) : result bytes :=
  let* ops := counted_ops buf 2 "GETATTR" in
  let* ops := expect_op ops OP_PUTFH "PUTFH" in
  expect_op ops OP_GETATTR "GETATTR".

(** [a & !b != 0] on 32-bit words. *)
Definition exceeds (a b : Z) : bool := negb (Z.land a (Z.lxor b u32_max) =? 0).

Definition decode_access_response (buf : bytes) : result (Z * Z) :=
  let* ops := counted_ops buf 2 "ACCESS" in
  let* ops := expect_op ops OP_PUTFH "PUTFH" in
  let* ops := expect_op ops OP_ACCESS "ACCESS" in
  let* (supported, ops) := take_u32 ops "ACCESS supported" in
  let* (access, _) := take_u32 ops "ACCESS granted" in
  if exceeds access supported then Err (Xdr "ACCESS granted bits exceed supported bits")
  else Ok (supported, access).

(** The loop over the words: the mask still to compare, and the buffer. *)
Definition setattr_word (s : list Z * bytes) : result (list Z * bytes) :=
  let '(requested, ops) := s in
  let* (set, ops) := take_u32 ops "SETATTR attrsset word" in
  if exceeds set (default 0 (head requested))
  then Err (Xdr "SETATTR response reports an unrequested attribute")
  else Ok (tail requested, ops).
Definition decode_setattr_response (buf : bytes) (requested : list Z) : result () :=
  let* ops := counted_ops buf 2 "SETATTR" in
  let* ops := expect_op ops OP_PUTFH "PUTFH" in
  let* ops := expect_op ops OP_SETATTR "SETATTR" in
  let* (words, ops) := take_u32 ops "SETATTR attrsset length" in
  let* _ := for_count words setattr_word (requested, ops) in
  Ok ().

Definition decode_lookup_getattr_response (buf : bytes) : result (bytes * bytes) :=
  let* ops := counted_ops buf 4 "LOOKUP" in
  let* ops := expect_op ops OP_PUTFH "PUTFH" in
  let* ops := expect_op ops OP_LOOKUP "LOOKUP" in
  let* ops := expect_op ops OP_GETFH "GETFH" in
  let* (fh, ops) := take_opaque ops "GETFH filehandle" in
  let* ops := expect_op ops OP_GETATTR "GETATTR" in
  Ok (fh, ops).

Definition decode_create_response (buf : bytes) : result (bytes * bytes) :=
  let* ops := counted_ops buf 4 "CREATE" in
  let* ops := expect_op ops OP_PUTFH "PUTFH" in
  let* ops := expect_op ops OP_CREATE "CREATE" in
  let* _ := require 20 (Xdr "CREATE change_info truncated") ops in
  let* ops := advance 20 ops in
  let* ops := skip_bitmap ops "CREATE attrset" in
  let* ops := expect_op ops OP_GETFH "GETFH" in
  let* (fh, ops) := take_opaque ops "GETFH filehandle" in
  let* ops := expect_op ops OP_GETATTR "GETATTR" in
  Ok (fh, ops).

Definition decode_remove_response (buf : bytes) : result () :=
  let* ops := counted_ops buf 2 "REMOVE" in
  let* ops := expect_op ops OP_PUTFH "PUTFH" in
  let* ops := expect_op ops OP_REMOVE "REMOVE" in
  require 20 (Xdr "REMOVE change_info truncated") ops.

(** The text of a UTF-8 error is elided. *)
Definition decode_readlink_response (buf : bytes) : result bytes :=
  let* ops := counted_ops buf 2 "READLINK" in
  let* ops := expect_op ops OP_PUTFH "PUTFH" in
  let* ops := expect_op ops OP_READLINK "READLINK" in
  let* (link, _) := take_opaque ops "READLINK target" in
  if utf8_valid link then Ok link else Err (Xdr "READLINK target is not UTF-8: ").

Definition decode_readdir_response (buf : bytes) : result bytes :=
  let* ops := counted_ops buf 2 "READDIR" in
  let* ops := expect_op ops OP_PUTFH "PUTFH" in
  expect_op ops OP_READDIR "READDIR".

Fixpoint expect_ops (ops : bytes) (l : list (Z * string)) : result bytes :=
  match l with
  | [] => Ok ops
  | (opcode, name) :: l => let* ops := expect_op ops opcode name in expect_ops ops l
  end.

Definition decode_rename_response (buf : bytes) : result () :=
  let* ops := counted_ops buf 4 "RENAME" in
  let* ops := expect_ops ops
    [(OP_PUTFH, "PUTFH"%string); (OP_SAVEFH, "SAVEFH"%string); (OP_PUTFH, "PUTFH"%string);
     (OP_RENAME, "RENAME"%string)] in
  require 40 (Xdr "RENAME change_info truncated") ops.

Definition decode_link_response (buf : bytes) : result () :=
  let* ops := counted_ops buf 4 "LINK" in
  let* ops := expect_ops ops
    [(OP_PUTFH, "PUTFH"%string); (OP_SAVEFH, "SAVEFH"%string); (OP_PUTFH, "PUTFH"%string);
     (OP_LINK, "LINK"%string)] in
  require 20 (Xdr "LINK change_info truncated") ops.

Definition decode_lock_denied_result (buf : bytes) (opcode : Z) (name : string) : result () :=
  let* (overall, buf) := take_u32 buf "COMPOUND status" in
  if negb (overall =? DENIED) then Ok ()
  else
    let* (_, buf) := take_opaque buf "COMPOUND tag" in
    let* (count, buf) := take_u32 buf "COMPOUND result count" in
    if negb (count =? 2)
    then Err (Xdr (name +:+ " denied response has " +:+ fmtZ count +:+ " operations, expected 2"))
    else
      let* buf := expect_op buf OP_PUTFH "PUTFH" in
      let* (actual, buf) := take_u32 buf (name +:+ " opcode") in
      if negb (actual =? opcode)
      then Err (Xdr ("expected " +:+ name +:+ " opcode " +:+ fmtZ opcode +:+ ", got " +:+ fmtZ actual))
      else
        let* (status, buf) := take_u32 buf (name +:+ " status") in
        if negb (status =? DENIED)
        then Err (Xdr (name +:+ " status " +:+ fmtZ status +:+ " does not match denied COMPOUND status"))
        else
          let* _ := require 28 (Xdr (name +:+ " denied range truncated")) buf in
          let* (offset, buf) := get_u64 buf in
          let* (len, buf) := get_u64 buf in
          let* (lock_type, buf) := get_u32 buf in
          let* buf := advance 8 buf in
          let* (owner, _) := take_opaque buf (name +:+ " denied owner") in
          if MAX_LOCK_OWNER_LEN <? remaining owner
          then Err (Xdr (name +:+ " denied owner exceeds 1024 bytes"))
          else Err (LockDenied lock_type offset len owner).

Definition decode_stateid_response (buf : bytes) (opcode : Z) (name : string) : result bytes :=
  let* buf := counted_ops buf 2 name in
  let* buf := expect_op buf OP_PUTFH "PUTFH" in
  let* buf := expect_op buf opcode name in
  let* (stateid, _) := take_stateid buf name in
  Ok stateid.

Definition decode_lock_response (buf : bytes) (opcode : Z) (name : string) : result bytes :=
  let* _ := decode_lock_denied_result buf opcode name in
  decode_stateid_response buf opcode name.

Definition decode_lockt_response (buf : bytes) : result () :=
  let* _ := decode_lock_denied_result buf OP_LOCKT "LOCKT" in
  let* ops := counted_ops buf 2 "LOCKT" in
  let* ops := expect_op ops OP_PUTFH "PUTFH" in
  let* _ := expect_op ops OP_LOCKT "LOCKT" in
  Ok ().

Definition decode_release_lockowner_response (buf : bytes) : result () :=
  let* ops := counted_ops buf 1 "RELEASE_LOCKOWNER" in
  let* _ := expect_op ops OP_RELEASE_LOCKOWNER "RELEASE_LOCKOWNER" in
  Ok ().

Definition decode_renew_response (buf : bytes) : result () :=
  let* ops := counted_ops buf 1 "RENEW" in
  let* _ := expect_op ops OP_RENEW "RENEW" in
  Ok ().

(** [read_reply] of [mount.rs]. *)
Definition read_reply (data : bytes) (eof : bool) : result bytes :=
  if bool_decide (data = []) && negb eof then Err (Rpc "READ made no progress without EOF")
  else Ok data.

Definition decode_read_response (buf : bytes) : result bytes :=
  let* buf := counted_ops buf 2 "READ" in
  let* buf := expect_op buf OP_PUTFH "PUTFH" in
  let* buf := expect_op buf OP_READ "READ" in
  let* (eof, buf) := take_u32 buf "READ eof" in
  let* (data, _) := take_opaque buf "READ data" in
  read_reply data (negb (eof =? 0)).

Definition decode_write_response (buf : bytes) : result (Z * Z * bytes) :=
  let* buf := counted_ops buf 2 "WRITE" in
  let* buf := expect_op buf OP_PUTFH "PUTFH" in
  let* buf := expect_op buf OP_WRITE "WRITE" in
  let* (count, buf) := take_u32 buf "WRITE count" in
  let* (committed, buf) := take_u32 buf "WRITE committed" in
  if 2 <? committed
  then Err (Xdr ("WRITE committed value " +:+ fmtZ committed +:+ " is outside stable_how4"))
  else
    let* (verifier, _) := take_array 8 (Xdr "WRITE verifier truncated") buf in
    Ok (count, committed, verifier).

Definition decode_commit_response (buf : bytes) : result bytes :=
  let* buf := counted_ops buf 2 "COMMIT" in
  let* buf := expect_op buf OP_PUTFH "PUTFH" in
  let* buf := expect_op buf OP_COMMIT "COMMIT" in
  let* (verifier, _) := take_array 8 (Xdr "COMMIT verifier truncated") buf in
  Ok verifier.

(** ** May a COMPOUND that met a busy server be sent again? *)

(** The arguments of an operation that changes nothing; [None] for any other. *)
Definition skip_request_args (opcode : Z) (sent : bytes) : result (option bytes) :=
  match opcode with
  | 15 | 22 => let* (_, sent) := take_opaque sent "request argument" in Ok (Some sent)
  | 3 => let* (_, sent) := take_u32 sent "requested access" in Ok (Some sent)
  | 9 =>
      let* (words, sent) := take_u32 sent "request bitmap" in
      if remaining sent / 4 <? words then Err (Xdr "truncated request bitmap")
      else let* sent := advance (words * 4) sent in Ok (Some sent)
  | 10 | 16 | 23 | 24 | 31 | 32 => Ok (Some sent)
  | _ => Ok None
  end.

(** Its result. *)
Definition skip_result (opcode : Z) (buf : bytes) : result bytes :=
  match opcode with
  | 15 | 16 | 22 | 23 | 24 | 31 | 32 => Ok buf
  | 10 => let* (_, buf) := take_opaque buf "GETFH" in Ok buf
  | 9 =>
      let* (words, buf) := take_u32 buf "bitmap" in
      if remaining buf / 4 <? words then Err (Xdr "truncated attribute bitmap")
      else
        let* buf := advance (words * 4) buf in
        let* (_, buf) := take_opaque buf "attributes" in
        Ok buf
  | 3 => if 8 <=? remaining buf then advance 8 buf else Err (Xdr "truncated busy COMPOUND prefix")
  | _ => Err (Xdr "truncated busy COMPOUND prefix")
  end.

(** [check_status(status).err()] *)
Definition status_error (status : Z) : option NfsError :=
  match check_status status with Err e => Some e | _ => None end.

Definition owner_sequenced (opcode : Z) : bool :=
  match opcode with 4 | 12 | 14 | 18 | 20 => true | _ => false end.

(** The loop over the results, [n] of them still to come. *)
Fixpoint busy_walk (n : nat) (overall : Z) (buf sent : bytes) : result (option NfsError) :=
  match n with
  | O => Err (Xdr "busy COMPOUND has no failed operation")
  | S n =>
      let* (opcode, buf) := take_u32 buf "opcode" in
      let* (status, buf) := take_u32 buf "op status" in
      let* (requested, sent) := take_u32 sent "request opcode" in
      if negb (requested =? opcode)
      then Err (Xdr "busy COMPOUND response opcode differs from request")
      else if negb (status =? 0)
      then if negb (Nat.eqb n 0) || negb (status =? overall) || negb (remaining buf =? 0)
           then Err (Xdr "malformed busy COMPOUND result")
           else if owner_sequenced opcode then Ok None
           else Ok (status_error status)
      else
        let* skipped := skip_request_args opcode sent in
        match skipped with
        | None => Ok None
        | Some sent =>
            let* buf := skip_result opcode buf in
            busy_walk n overall buf sent
        end
  end.

Definition skip_auth (sent : bytes) : result bytes :=
  let* (_, sent) := take_u32 sent "auth flavor" in
  let* (_, sent) := take_opaque sent "auth body" in
  Ok sent.

Definition retryable_busy_response (buf request : bytes) : result (option NfsError) :=
  let* (overall, buf) := take_u32 buf "status" in
  if negb ((overall =? 10008) || (overall =? 10013)) then Ok None
  else
    let* (_, buf) := take_opaque buf "tag" in
    let* (count, buf) := take_u32 buf "count" in
    if remaining request <? 16 then Err (Xdr "missing RPC header")
    else
      let* sent := advance 16 request in
      let* sent := skip_auth sent in
      let* sent := skip_auth sent in
      let* (_, sent) := take_opaque sent "request tag" in
      let* (minor, sent) := take_u32 sent "minor version" in
      let* (requested_count, sent) := take_u32 sent "request count" in
      if negb (minor =? 0) || (count =? 0) || (128 <? count) || (requested_count <? count)
      then Err (Xdr "invalid busy COMPOUND operation count or minor version")
      else busy_walk (Z.to_nat count) overall buf sent.

(** ** Readers never panic *)

Lemma wpo_check_status s Q : Q () -> wpo (check_status s) Q.
Proof. intros H. unfold check_status. by repeat case_match. Qed.

(** [wp] through the readers of [Xdr4]. *)
Ltac wp40 :=
  repeat (cbv beta iota; first
    [ wp_step
    | lazymatch goal with
      | |- wpo (take_u32 _ _) _ => wp_call wpo_take_u32; intros [? ?] (? & ? & ?)
      | |- wpo (take_opaque _ _) _ => wp_call wpo_take_opaque; intros [? ?] (? & ? & ?)
      | |- wpo (check_status _) _ => apply wpo_check_status
      end ]).

Lemma wpo_response_ops buf : wpo (response_ops buf) (fun '(c, rest) => is_u32 c /\ rest `suffix_of` buf).
Proof. unfold response_ops. wp40. split; [done|suffix_tac]. Qed.
Lemma wpo_counted_ops buf n name : wpo (counted_ops buf n name) (fun rest => rest `suffix_of` buf).
Proof.
  unfold counted_ops. apply wpo_bind. wp_call wpo_response_ops. intros [c rest] [_ H]. by wp40.
Qed.
Lemma wpo_expect_op buf op name : wpo (expect_op buf op name) (fun rest => rest `suffix_of` buf).
Proof. unfold expect_op. wp40. suffix_tac. Qed.
Lemma wpo_take_array n e buf : 0 <= n ->
  wpo (take_array n e buf) (fun '(v, rest) => remaining v = n /\ rest `suffix_of` buf).
Proof. intros Hn. unfold take_array. wp40. split; [rlia|suffix_tac]. Qed.
Lemma wpo_skip_bitmap buf what : wpo (skip_bitmap buf what) (fun rest => rest `suffix_of` buf).
Proof. unfold skip_bitmap. wp40; ilia || suffix_tac. Qed.
Lemma wpo_skip_ace buf : wpo (skip_ace buf) (fun rest => rest `suffix_of` buf).
Proof. unfold skip_ace. wp40. suffix_tac. Qed.
Lemma wpo_skip_space_limit buf : wpo (skip_space_limit buf) (fun rest => rest `suffix_of` buf).
Proof.
  unfold skip_space_limit. wp40. case_match; [done| |done]. destruct p as [p|[p|p|]|]; try done; wp40; suffix_tac.
Qed.

(** Every reader of a reply that starts with the count and a fixed list of
    operations. *)
Ltac wp_reply :=
  repeat (cbv beta iota; first
    [ wp_step
    | lazymatch goal with
      | |- wpo (take_u32 _ _) _ => wp_call wpo_take_u32; intros [? ?] (? & ? & ?)
      | |- wpo (take_opaque _ _) _ => wp_call wpo_take_opaque; intros [? ?] (? & ? & ?)
      | |- wpo (check_status _) _ => apply wpo_check_status
      | |- wpo (response_ops _) _ => wp_call wpo_response_ops; intros [? ?] (? & ?)
      | |- wpo (counted_ops _ _ _) _ => wp_call wpo_counted_ops; intros ? ?
      | |- wpo (expect_op _ _ _) _ => wp_call wpo_expect_op; intros ? ?
      | |- wpo (take_array _ _ _) _ => wp_call wpo_take_array; [lia|]; intros [? ?] (? & ?)
      | |- wpo (skip_bitmap _ _) _ => wp_call wpo_skip_bitmap; intros ? ?
      | |- wpo (skip_ace _) _ => wp_call wpo_skip_ace; intros ? ?
      | |- wpo (skip_space_limit _) _ => wp_call wpo_skip_space_limit; intros ? ?
      end ]).

Lemma wpo_take_stateid buf what :
  wpo (take_stateid buf what) (fun '(v, rest) => remaining v = 16 /\ rest `suffix_of` buf).
Proof. by apply wpo_take_array. Qed.

Lemma wpo_decode_delegation buf : wpo (decode_delegation buf) (fun _ => True).
Proof.
  unfold decode_delegation, take_stateid. wp_reply. case_match; [done| |done].
  destruct p as [p|[p|p|]|]; try done; by wp_reply.
Qed.

Lemma wpo_expect_ops l ops : wpo (expect_ops ops l) (fun _ => True).
Proof. revert ops. induction l as [|[op name] l IH]; intros ops; [done|]. cbn [expect_ops]. wp_reply. apply IH. Qed.

Lemma wpo_advance_words words buf (Q : bytes -> Prop) : is_u32 words ->
  (remaining buf / 4 <? words) = false -> (forall r, r `suffix_of` buf -> Q r) ->
  wpo (advance (E := NfsError) (words * 4) buf) Q.
Proof.
  intros Hw Hb HQ. bool_hyps. pose proof (Z.mul_div_le (remaining buf) 4).
  apply wpo_advance; [unfold is_u32 in Hw; lia|]. intros r Hr _. by apply HQ.
Qed.

Lemma wpo_skip_request_args op sent : wpo (skip_request_args op sent) (fun _ => True).
Proof.
  unfold skip_request_args. repeat case_match; try done; wp_reply; try done;
    (apply wpo_advance_words; [done|done|]; intros; by wp_reply).
Qed.
Lemma wpo_skip_result op buf : wpo (skip_result op buf) (fun _ => True).
Proof.
  unfold skip_result. repeat case_match; try done; wp_reply; try done;
    (apply wpo_advance_words; [done|done|]; intros; by wp_reply).
Qed.

Lemma wpo_busy_walk n overall buf sent : wpo (busy_walk n overall buf sent) (fun _ => True).
Proof.
  revert buf sent. induction n as [|n IH]; intros buf sent; [done|]. cbn [busy_walk]. wp_reply; try done.
  wp_call wpo_skip_request_args. intros [sent'|] _; [|done]. wp_reply.
  wp_call wpo_skip_result. intros buf' _. apply IH.
Qed.

Lemma wpo_setattr_words n s : wpo (for_count n setattr_word s) (fun _ => True).
Proof.
  apply (wpo_for_count n setattr_word (fun _ => True)); [done| |done].
  intros [l ops] _. unfold setattr_word. by wp_reply.
Qed.

Lemma wpo_lock_denied buf op name : wpo (decode_lock_denied_result buf op name) (fun _ => True).
Proof. unfold decode_lock_denied_result. by wp_reply. Qed.

(** No reply of a server, however malformed, makes a reader of an NFSv4.0
    reply panic: it returns a value or an error. *)
Theorem replies40_never_panic buf request requested opcode name :
  decode_setclientid_response buf <> Panic /\ decode_confirm_response buf <> Panic /\
  decode_delegreturn_response buf <> Panic /\ decode_open_response buf <> Panic /\
  decode_getattr_response buf <> Panic /\ decode_access_response buf <> Panic /\
  decode_setattr_response buf requested <> Panic /\ decode_lookup_getattr_response buf <> Panic /\
  decode_create_response buf <> Panic /\ decode_remove_response buf <> Panic /\
  decode_readlink_response buf <> Panic /\ decode_readdir_response buf <> Panic /\
  decode_rename_response buf <> Panic /\ decode_link_response buf <> Panic /\
  decode_lock_response buf opcode name <> Panic /\ decode_lockt_response buf <> Panic /\
  decode_release_lockowner_response buf <> Panic /\ decode_renew_response buf <> Panic /\
  decode_read_response buf <> Panic /\ decode_write_response buf <> Panic /\
  decode_commit_response buf <> Panic /\ retryable_busy_response buf request <> Panic.
Proof.
  split_and!; apply (wpo_no_panic _ (fun _ => True));
    unfold decode_setclientid_response, decode_confirm_response, decode_delegreturn_response,
      decode_open_response, decode_getattr_response, decode_access_response, decode_setattr_response,
      decode_lookup_getattr_response, decode_create_response, decode_remove_response,
      decode_readlink_response, decode_readdir_response, decode_rename_response, decode_link_response,
      decode_lock_response, decode_stateid_response, decode_lockt_response,
      decode_release_lockowner_response, decode_renew_response, decode_read_response, read_reply,
      decode_write_response, decode_commit_response, retryable_busy_response, skip_auth, take_stateid;
    wp_reply; try done;
    repeat (first [ wp_call wpo_decode_delegation; intros [? ?] _ | wp_call wpo_setattr_words; intros ? _
                  | wp_call wpo_expect_ops; intros ? _ | wp_call wpo_lock_denied; intros ? _
                  | wp_call wpo_busy_walk; intros ? _ ]; wp_reply; try done).
Qed.

(** ** What the busy check decides *)

(** Operations that change nothing on the server, whose results it can skip. *)
Definition navigates (opcode : Z) : bool :=
  match opcode with 3 | 9 | 10 | 15 | 16 | 22 | 23 | 24 | 31 | 32 => true | _ => false end.

(** Arguments as the builder encodes them. *)
Definition built_op (op : Z * bytes) : Prop :=
  is_u32 op.1 /\
  match op.1 with
  | 15 | 22 => exists v, op.2 = xdr_opaque v /\ remaining v < 2 ^ 32
  | 3 => exists v, op.2 = xdr_u32 v /\ is_u32 v
  | 9 => exists l, op.2 = xdr_bitmap l /\ Z.of_nat (length l) < 2 ^ 32
  | 10 | 16 | 23 | 24 | 31 | 32 => op.2 = []
  | _ => True
  end.
Definition enc_ops (l : list (Z * bytes)) : bytes :=
  concat (map (fun '(opcode, args) => xdr_u32 opcode ++ args) l).

(** Skip a bitmap that was written. *)
Lemma skip_words_enc {A} (l : list Z) rest (k : bytes -> result A) e :
  Z.of_nat (length l) < 2 ^ 32 ->
  (let* (words, sent) := take_u32 (xdr_bitmap l ++ rest) e in
   if remaining sent / 4 <? words then Err (Xdr "truncated request bitmap")
   else let* sent := advance (words * 4) sent in k sent) = k rest.
Proof.
  intros Hl. unfold xdr_bitmap. rewrite <- app_assoc, take_u32_enc by ilia. cbn [obind].
  rewrite remaining_app, remaining_concat_u32. destruct (Z.ltb_spec ((4 * Z.of_nat (length l) + remaining rest) / 4) (Z.of_nat (length l))).
  - pose proof (remaining_nonneg rest). assert (Z.of_nat (length l) <= (4 * Z.of_nat (length l) + remaining rest) / 4)
      by (apply Z.div_le_lower_bound; lia). lia.
  - rewrite advance_app by (rewrite remaining_concat_u32; lia). done.
Qed.

Lemma skip_request_args_built op args rest : built_op (op, args) ->
  skip_request_args op (args ++ rest) = Ok (if navigates op then Some rest else None).
Proof.
  intros [_ H]. cbn [fst snd] in H. unfold skip_request_args, navigates.
  destruct op as [|op|op]; [done| |done]. repeat (destruct op as [op|op|]; try done);
    try (destruct H as (v & -> & Hv)); try subst args;
    rewrite ?take_opaque_enc, ?take_u32_enc by done; try done.
  by apply (skip_words_enc v rest (fun sent => Ok (Some sent))).
Qed.

(** What the walk has found when it allows a resend, whatever the reply says. *)
Lemma busy_walk_sound n overall buf ops extra e : Forall built_op ops ->
  busy_walk n overall buf (enc_ops ops ++ extra) = Ok (Some e) -> (n <= length ops)%nat ->
  exists pre op args post, ops = pre ++ (op, args) :: post /\ n = S (length pre) /\
    Forall (fun o => navigates o.1 = true) pre /\ owner_sequenced op = false /\
    overall <> 0 /\ status_error overall = Some e.
Proof.
  revert buf ops. induction n as [|n IH]; intros buf ops Hops H Hn; [done|].
  destruct ops as [|[op args] ops]; [cbn in Hn; lia|]. apply Forall_cons in Hops as [Hop Hops].
  cbn [busy_walk] in H.
  apply obind_ok_inv in H as ([opcode b1] & _ & H). apply obind_ok_inv in H as ([status b2] & _ & H).
  unfold enc_ops in H. cbn [map concat] in H. fold (enc_ops ops) in H.
  rewrite <- !app_assoc, take_u32_enc in H by apply Hop. cbn [obind] in H.
  destruct (Z.eqb_spec op opcode) as [<-|]; [|done]. cbn [negb] in H.
  destruct (Z.eqb_spec status 0) as [->|Hs]; cbn [negb] in H.
  - rewrite skip_request_args_built in H by done. cbn [obind] in H.
    destruct (navigates op) eqn:En; [|done]. apply obind_ok_inv in H as (b3 & _ & H).
    apply IH in H as (pre & op' & args' & post & -> & -> & Hpre & H1 & H2 & H3); [|done|cbn in Hn; lia].
    exists ((op, args) :: pre), op', args', post. split_and!; try done. by constructor.
  - destruct (_ || _) eqn:Eb; [done|]. bool_hyps. destruct (owner_sequenced op) eqn:Eo; [done|].
    injection H as H. subst status. exists [], op, args, ops. split_and!; try done.
    destruct n; [done|]. by cbn in *.
Qed.

(** The request as the walk reads it: past the header, the tag and the count. *)
Definition request_ok (b : CompoundBuilder) (auth : Auth) : Prop :=
  minor_version b = 0 /\ remaining (tag b) < 2 ^ 32 /\ remaining (body auth) < 2 ^ 32 /\
  Z.of_nat (length (ops b)) < 2 ^ 32 /\ Forall built_op (ops b).

Lemma skip_auth_enc a rest : remaining (body a) < 2 ^ 32 -> skip_auth (Auth_encode a ++ rest) = Ok rest.
Proof.
  intros H. unfold skip_auth, Auth_encode. rewrite <- !app_assoc.
  change (be_bytes 4 (flavor_u32 (flavor a))) with (xdr_u32 (flavor_u32 (flavor a))).
  rewrite take_u32_enc by (destruct (flavor a); cbn; ilia). cbn [obind].
  pose proof (take_opaque_enc (body a) "auth body" rest H) as Ho. unfold xdr_opaque, xdr_u32 in Ho.
  rewrite <- !app_assoc in Ho. by rewrite Ho.
Qed.

(** The check with the request's header read. *)
Lemma retryable_busy_eq b auth extra buf : request_ok b auth ->
  retryable_busy_response buf (encode_with_header40 b auth ++ extra) =
  let* (overall, buf) := take_u32 buf "status" in
  if negb ((overall =? 10008) || (overall =? 10013)) then Ok None
  else
    let* (_, buf) := take_opaque buf "tag" in
    let* (count, buf) := take_u32 buf "count" in
    if (count =? 0) || (128 <? count) || (Z.of_nat (length (ops b)) <? count)
    then Err (Xdr "invalid busy COMPOUND operation count or minor version")
    else busy_walk (Z.to_nat count) overall buf (enc_ops (ops b) ++ extra).
Proof.
  intros (Hm & Ht & Hb & Hl & _). unfold retryable_busy_response.
  destruct (take_u32 buf "status") as [[overall b1]|e|]; [|done|done]. cbn [obind].
  destruct (negb _); [done|]. destruct (take_opaque b1 "tag") as [[t b2]|e|]; [|done|done]. cbn [obind].
  destruct (take_u32 b2 "count") as [[count b3]|e|]; [|done|done]. cbn [obind].
  unfold encode_with_header40, Header_encode, encode_body. rewrite <- !app_assoc.
  cbn [rpc_header rpcvers prog vers proc cred verf]. set (tail := Auth_encode auth ++ _).
  assert (Hr : remaining (be_bytes 4 RPC_VERSION ++ be_bytes 4 100003 ++ be_bytes 4 4 ++ be_bytes 4 1) = 16)
    by done.
  replace (be_bytes 4 RPC_VERSION ++ be_bytes 4 100003 ++ be_bytes 4 4 ++ be_bytes 4 1 ++ tail)
    with ((be_bytes 4 RPC_VERSION ++ be_bytes 4 100003 ++ be_bytes 4 4 ++ be_bytes 4 1) ++ tail)
    by (by rewrite <- !app_assoc).
  rewrite remaining_app, Hr, advance_app by done. pose proof (remaining_nonneg tail).
  destruct (Z.ltb_spec (16 + remaining tail) 16); [lia|]. cbn [obind]. unfold tail.
  rewrite skip_auth_enc by done. cbn [obind]. rewrite skip_auth_enc by done. cbn [obind].
  rewrite take_opaque_enc by done. cbn [obind]. rewrite Hm, take_u32_enc by done. cbn [obind].
  rewrite take_u32_enc by ilia. cbn [obind]. rewrite Z.eqb_refl. cbn [negb orb]. done.
Qed.

(** A COMPOUND is sent again after a busy reply only when that cannot repeat
    an effect. Whatever bytes the server answered, if the check says that the
    request may be reissued, then every operation before the one that failed
    changes nothing, the failed one is not ordered by an owner's sequence number,
    and the error to report is a server-busy status. *)
Theorem busy_resend_is_safe b auth extra buf e : request_ok b auth ->
  retryable_busy_response buf (encode_with_header40 b auth ++ extra) = Ok (Some e) ->
  exists pre op args post, ops b = pre ++ (op, args) :: post /\
    Forall (fun o => navigates o.1 = true) pre /\ owner_sequenced op = false /\ is_server_busy e = true.
Proof.
  intros Hok. rewrite retryable_busy_eq by done. intros H. destruct Hok as (_ & _ & _ & _ & Hops).
  apply obind_ok_inv in H as ([overall b1] & _ & H). destruct (negb _) eqn:Eo; [done|].
  apply obind_ok_inv in H as ([t b2] & _ & H). apply obind_ok_inv in H as ([count b3] & _ & H).
  destruct ((count =? 0) || (128 <? count) || (Z.of_nat (length (ops b)) <? count)) eqn:E; [done|]. bool_hyps.
  apply busy_walk_sound in H as (pre & op & args & post & K1 & _ & K2 & K3 & K4 & K5); [|done|lia].
  exists pre, op, args, post. split_and!; try done.
  apply orb_true_iff in Eo as [->%Z.eqb_eq| ->%Z.eqb_eq]; cbn in K5; by injection K5 as <-.
Qed.

(** The result of an operation that changes nothing, as a server encodes it. *)
Definition navigation_result (opcode : Z) (r : bytes) : Prop :=
  match opcode with
  | 10 => exists v, r = xdr_opaque v /\ remaining v < 2 ^ 32
  | 9 => exists l v, r = xdr_bitmap l ++ xdr_opaque v /\ Z.of_nat (length l) < 2 ^ 32 /\ remaining v < 2 ^ 32
  | 3 => remaining r = 8
  | _ => r = []
  end.

Lemma skip_result_enc op r rest : navigates op = true -> navigation_result op r ->
  skip_result op (r ++ rest) = Ok rest.
Proof.
  intros Hn H. unfold skip_result, navigates, navigation_result in *.
  destruct op as [|op|op]; [done| |done]. repeat (destruct op as [op|op|]; try done); try by subst r.
  - destruct H as (l & v & -> & Hl & Hv). rewrite <- app_assoc. unfold xdr_bitmap.
    rewrite <- app_assoc, take_u32_enc by ilia. cbn [obind].
    rewrite remaining_app, remaining_concat_u32.
    assert (Z.of_nat (length l) <= (4 * Z.of_nat (length l) + remaining (xdr_opaque v ++ rest)) / 4)
      by (pose proof (remaining_nonneg (xdr_opaque v ++ rest)); apply Z.div_le_lower_bound; lia).
    destruct (Z.ltb_spec ((4 * Z.of_nat (length l) + remaining (xdr_opaque v ++ rest)) / 4) (Z.of_nat (length l)));
      [lia|].
    rewrite advance_app by (rewrite remaining_concat_u32; lia). cbn [obind].
    rewrite take_opaque_enc by done. done.
  - rewrite remaining_app, H. pose proof (remaining_nonneg rest).
    destruct (Z.leb_spec 8 (8 + remaining rest)); [|lia]. by apply advance_app.
  - destruct H as (v & -> & Hv). by rewrite take_opaque_enc.
Qed.

(** The results of the operations [l], each with its result [r], then the failed
    operation. *)
Definition enc_results (l : list (Z * bytes)) : bytes :=
  concat (map (fun '(op, r) => xdr_u32 op ++ xdr_u32 0 ++ r) l).

Lemma busy_walk_complete overall pre op args post extra results :
  Forall built_op (pre ++ (op, args) :: post) -> Forall (fun o => navigates o.1 = true) pre ->
  Forall2 (fun o r => r.1 = o.1 /\ navigation_result o.1 r.2) pre results ->
  owner_sequenced op = false -> is_u32 overall -> overall <> 0 ->
  busy_walk (S (length pre)) overall (enc_results results ++ xdr_u32 op ++ xdr_u32 overall)
    (enc_ops (pre ++ (op, args) :: post) ++ extra) = Ok (status_error overall).
Proof.
  intros Hb Hn Hr Ho Hu H0. induction Hr as [|[o a] [o' r] pre results [He Hr] _ IH].
  - apply Forall_cons in Hb as [[Hop _] _]. unfold enc_ops, enc_results. cbn [app map concat length busy_walk].
    rewrite take_u32_enc by done. cbn [obind]. rewrite <- (app_nil_r (xdr_u32 overall)), take_u32_enc by done.
    cbn [obind]. rewrite <- !app_assoc, take_u32_enc by done. cbn [obind]. rewrite Z.eqb_refl. cbn [negb].
    apply Z.eqb_neq in H0. rewrite H0, Z.eqb_refl. cbn. by rewrite Ho.
  - cbn in He. subst o'. cbn [app] in Hb. apply Forall_cons in Hb as [Hop Hb]. apply Forall_cons in Hn as [Hn1 Hn]. cbn [fst] in *.
    pose proof Hop as [Hou _]. cbn [fst] in Hou. specialize (IH Hb Hn).
    remember (length pre) as m eqn:Hm. unfold enc_results, enc_ops. cbn [map concat length app]. rewrite <- Hm.
    fold (enc_results results). fold (enc_ops (pre ++ (op, args) :: post)).
    cbn [busy_walk]. rewrite <- !app_assoc, take_u32_enc by done. cbn [obind].
    rewrite take_u32_enc by done. cbn [obind]. rewrite take_u32_enc by done. cbn [obind].
    rewrite !Z.eqb_refl. cbn [negb]. rewrite skip_request_args_built, Hn1 by done. cbn [obind].
    rewrite skip_result_enc by done. cbn [obind]. exact IH.
Qed.

(** And it is sent again whenever it can be: when a server fails an operation
    with a busy status after operations that only navigate and read attributes,
    and the failed operation carries no owner sequence number, the check finds
    the status of the reply and has the request reissued. *)
Theorem busy_resend_is_complete b auth extra overall t pre op args post results :
  request_ok b auth -> ops b = pre ++ (op, args) :: post -> (length pre < 128)%nat ->
  Forall (fun o => navigates o.1 = true) pre ->
  Forall2 (fun o r => r.1 = o.1 /\ navigation_result o.1 r.2) pre results ->
  owner_sequenced op = false -> overall = 10008 \/ overall = 10013 -> remaining t < 2 ^ 32 ->
  retryable_busy_response
    (xdr_u32 overall ++ xdr_opaque t ++ xdr_u32 (Z.of_nat (S (length pre))) ++ enc_results results ++
     xdr_u32 op ++ xdr_u32 overall)
    (encode_with_header40 b auth ++ extra) = Ok (status_error overall).
Proof.
  intros Hok Hops Hlen Hn Hr Ho Hov Ht. rewrite retryable_busy_eq by done.
  assert (Hu : is_u32 overall /\ overall <> 0) by (destruct Hov; subst; split; ilia).
  rewrite take_u32_enc by apply Hu. cbn [obind].
  replace (negb ((overall =? 10008) || (overall =? 10013))) with false by (by destruct Hov; subst).
  rewrite take_opaque_enc by done. cbn [obind]. rewrite take_u32_enc by ilia. cbn [obind].
  rewrite Hops, length_app. cbn [length].
  destruct (Z.eqb_spec (Z.of_nat (S (length pre))) 0); [lia|].
  destruct (Z.ltb_spec 128 (Z.of_nat (S (length pre)))); [lia|].
  destruct (Z.ltb_spec (Z.of_nat (length pre + S (length post))) (Z.of_nat (S (length pre)))); [lia|].
  cbn [orb]. rewrite Nat2Z.id. destruct Hok as (_ & _ & _ & _ & Hb). rewrite Hops in Hb.
  destruct Hu. by apply busy_walk_complete.
Qed.

(** PUTFH, LOOKUP, GETATTR, WRITE: the server was busy at the WRITE. *)
Definition demo_request : CompoundBuilder :=
  write_header (getattr (lookup (putfh (new40 (of_str "w")) (of_str "fh")) (of_str "x")) [16; 2])
    (zeros 16) 0 2 4.
Definition demo_reply : bytes :=
  xdr_u32 10008 ++ xdr_opaque [] ++ xdr_u32 4 ++
  enc_results [(22, []); (15, []); (9, xdr_bitmap [16] ++ xdr_opaque (zeros 8))] ++
  xdr_u32 38 ++ xdr_u32 10008.
Lemma demo_request_ok : request_ok demo_request new_null.
Proof.
  split; [reflexivity|]. split; [vm_compute; reflexivity|]. split; [vm_compute; reflexivity|].
  split; [vm_compute; reflexivity|].
  unfold demo_request, write_header, getattr, lookup, putfh, new40, new, operation,
    OP_PUTFH, OP_LOOKUP, OP_GETATTR, OP_WRITE.
  cbn [ops app]. repeat (apply Forall_cons; split); try (split; [cbn; ilia|cbn [fst snd]]); try done.
  - exists (of_str "fh"). by vm_compute.
  - exists (of_str "x"). by vm_compute.
  - exists [16; 2]. by vm_compute.
Qed.

Lemma busy_resend_is_safe_witness :
  retryable_busy_response demo_reply (encode_with_header40 demo_request new_null ++ []) =
    Ok (Some (Nfs4 NFS4ERR_DELAY)) /\ is_server_busy (Nfs4 NFS4ERR_DELAY) = true.
Proof.
  assert (H : retryable_busy_response demo_reply (encode_with_header40 demo_request new_null ++ []) =
    Ok (Some (Nfs4 NFS4ERR_DELAY))) by (vm_compute; reflexivity).
  split; [exact H|].
  destruct (busy_resend_is_safe demo_request new_null [] demo_reply _ demo_request_ok H)
    as (pre & op & args & post & _ & _ & _ & Hb).
  exact Hb.
Defined.

Lemma busy_resend_is_complete_witness :
  retryable_busy_response demo_reply (encode_with_header40 demo_request new_null ++ []) =
    Ok (Some (Nfs4 NFS4ERR_DELAY)).
Proof.
  refine (busy_resend_is_complete demo_request new_null [] 10008 []
    [(22, xdr_opaque (of_str "fh")); (15, xdr_opaque (of_str "x")); (9, xdr_bitmap [16; 2])] 38
    (zeros 16 ++ xdr_u64 0 ++ xdr_u32 2 ++ xdr_u32 4) []
    [(22, []); (15, []); (9, xdr_bitmap [16] ++ xdr_opaque (zeros 8))]
    demo_request_ok eq_refl _ _ _ eq_refl (or_introl eq_refl) eq_refl).
  - cbn. lia.
  - repeat constructor.
  - repeat constructor. by exists [16], (zeros 8).
Defined.

(** ** The OPEN reply *)

(** A grant as a server encodes it: the limit of a write delegation is a size or
    a number of blocks of a size. *)
Inductive space_limit : Type := LimitSize (n : Z) | LimitBlocks (num_blocks bytes_per_block : Z).
Record wire_ace : Type := { wa_type : Z; wa_flags : Z; wa_mask : Z; wa_who : bytes }.
Inductive wire_delegation : Type :=
| WireNone
| WireRead (stateid : bytes) (recall : bool) (ace : wire_ace)
| WireWrite (stateid : bytes) (recall : bool) (limit : space_limit) (ace : wire_ace).

Definition enc_ace (a : wire_ace) : bytes :=
  xdr_u32 (wa_type a) ++ xdr_u32 (wa_flags a) ++ xdr_u32 (wa_mask a) ++ xdr_opaque (wa_who a).
Definition enc_limit (l : space_limit) : bytes :=
  match l with
  | LimitSize n => xdr_u32 1 ++ xdr_u64 n
  | LimitBlocks n b => xdr_u32 2 ++ xdr_u32 n ++ xdr_u32 b
  end.
Definition enc_delegation (d : wire_delegation) : bytes :=
  match d with
  | WireNone => xdr_u32 0
  | WireRead s r a => xdr_u32 1 ++ s ++ xdr_bool r ++ enc_ace a
  | WireWrite s r l a => xdr_u32 2 ++ s ++ xdr_bool r ++ enc_limit l ++ enc_ace a
  end.
Definition granted (d : wire_delegation) : option DelegationGrant :=
  match d with
  | WireNone => None
  | WireRead s r _ => Some {| dg_kind := DelegRead; dg_stateid := s; dg_recall := r |}
  | WireWrite s r _ _ => Some {| dg_kind := DelegWrite; dg_stateid := s; dg_recall := r |}
  end.
Definition ace_wf (a : wire_ace) : Prop :=
  is_u32 (wa_type a) /\ is_u32 (wa_flags a) /\ is_u32 (wa_mask a) /\ remaining (wa_who a) < 2 ^ 32.
Definition delegation_wf (d : wire_delegation) : Prop :=
  match d with
  | WireNone => True
  | WireRead s _ a => remaining s = 16 /\ ace_wf a
  | WireWrite s _ _ a => remaining s = 16 /\ ace_wf a
  end.
Definition size_limited (d : wire_delegation) : Prop :=
  match d with WireWrite _ _ (LimitBlocks _ _) _ => False | _ => True end.

Definition enc_ok (op : Z) : bytes := xdr_u32 op ++ xdr_u32 0.
Definition enc_open_reply (t stateid change : bytes) (flags : Z) (attrset : list Z) (d : wire_delegation)
    (fh : bytes) : bytes :=
  xdr_u32 0 ++ xdr_opaque t ++ xdr_u32 3 ++ enc_ok OP_PUTFH ++ enc_ok OP_OPEN ++ stateid ++ change ++
  xdr_u32 flags ++ xdr_bitmap attrset ++ enc_delegation d ++ enc_ok OP_GETFH ++ xdr_opaque fh.

Lemma expect_op_enc op name rest : is_u32 op -> expect_op (enc_ok op ++ rest) op name = Ok rest.
Proof.
  intros H. unfold expect_op, enc_ok. rewrite <- app_assoc, take_u32_enc by done. cbn [obind].
  rewrite Z.eqb_refl. cbn [negb]. by rewrite take_u32_enc.
Qed.
Lemma counted_ops_enc t n name rest : remaining t < 2 ^ 32 -> is_u32 n ->
  counted_ops (xdr_u32 0 ++ xdr_opaque t ++ xdr_u32 n ++ rest) n name = Ok rest.
Proof.
  intros Ht Hn. unfold counted_ops, response_ops. rewrite take_u32_enc by done. cbn [obind check_status Z.eqb].
  rewrite take_opaque_enc by done. cbn [obind]. rewrite take_u32_enc by done. cbn [obind].
  by rewrite Z.eqb_refl.
Qed.
Lemma take_array_enc n e v rest : remaining v = n -> take_array n e (v ++ rest) = Ok (v, rest).
Proof.
  intros H. unfold take_array. rewrite require_app by lia. by apply split_to_app.
Qed.
Lemma skip_bitmap_enc l what rest : Z.of_nat (length l) < 2 ^ 32 ->
  skip_bitmap (xdr_bitmap l ++ rest) what = Ok rest.
Proof.
  intros H. unfold skip_bitmap, xdr_bitmap. rewrite <- app_assoc, take_u32_enc by ilia. cbn [obind].
  destruct (Z.ltb_spec u64_max (Z.of_nat (length l) * 4)); [ilia|].
  rewrite require_app by (rewrite remaining_concat_u32; lia). cbn [obind].
  apply advance_app. rewrite remaining_concat_u32. lia.
Qed.
Lemma skip_ace_enc a rest : ace_wf a -> skip_ace (enc_ace a ++ rest) = Ok rest.
Proof.
  intros (H1 & H2 & H3 & H4). unfold skip_ace, enc_ace. rewrite <- !app_assoc.
  do 3 (rewrite take_u32_enc by done; cbn [obind]). by rewrite take_opaque_enc.
Qed.
Lemma take_bool_enc b what rest : take_u32 (xdr_bool b ++ rest) what = Ok (Prelude.b2z b, rest).
Proof. unfold xdr_bool. by destruct b; rewrite take_u32_enc. Qed.
Lemma recall_enc b : negb (Prelude.b2z b =? 0) = b.
Proof. by destruct b. Qed.

Lemma decode_delegation_enc d rest : delegation_wf d -> size_limited d ->
  decode_delegation (enc_delegation d ++ rest) = Ok (granted d, rest).
Proof.
  unfold decode_delegation, take_stateid. destruct d as [|s r a|s r [n|n b] a]; cbn [enc_delegation enc_limit];
    [by rewrite take_u32_enc| | |done]; intros [Hs Ha] _; rewrite <- !app_assoc, take_u32_enc by done; cbn [obind];
    rewrite take_array_enc by done; cbn [obind]; rewrite take_bool_enc; cbn [obind].
  - by rewrite skip_ace_enc; cbn [obind]; rewrite ?recall_enc.
  - unfold skip_space_limit. rewrite take_u32_enc by done. cbn [obind].
    rewrite require_app by (by rewrite remaining_xdr_u64). cbn [obind].
    rewrite advance_app by (apply remaining_xdr_u64). cbn [obind].
    by rewrite skip_ace_enc; cbn [obind]; rewrite ?recall_enc.
Qed.

Lemma confirm_bit flags : negb (Z.land flags OPEN4_RESULT_CONFIRM =? 0) = Z.testbit flags 1.
Proof.
  unfold OPEN4_RESULT_CONFIRM. destruct (Z.testbit flags 1) eqn:E.
  - destruct (Z.eqb_spec (Z.land flags 2) 0) as [H|]; [|done].
    assert (Hb : Z.testbit (Z.land flags 2) 1 = true) by (by rewrite Z.land_spec, E). by rewrite H in Hb.
  - replace (Z.land flags 2) with 0; [done|]. symmetry. apply Z.bits_inj'. intros n Hn.
    rewrite Z.land_spec, Z.bits_0. change 2 with (2 ^ 1). rewrite Z.pow2_bits_eqb by lia.
    destruct (Z.eqb_spec 1 n) as [<-|]; [by rewrite E|apply andb_false_r].
Qed.

(** An OPEN reply is read back as the server wrote it, for every state id,
    flags, attribute bitmap, file handle and delegation, except a write
    delegation whose limit is given in blocks. *)
Theorem open_reply_roundtrip t stateid change flags attrset d fh :
  remaining t < 2 ^ 32 -> remaining stateid = 16 -> remaining change = 20 -> is_u32 flags ->
  Z.of_nat (length attrset) < 2 ^ 32 -> delegation_wf d -> size_limited d -> remaining fh < 2 ^ 32 ->
  decode_open_response (enc_open_reply t stateid change flags attrset d fh) =
    Ok ({| or_stateid := stateid; confirm_required := Z.testbit flags 1; delegation := granted d |}, fh).
Proof.
  intros Ht Hs Hc Hf Ha Hd Hl Hfh. unfold decode_open_response, enc_open_reply, take_stateid.
  rewrite counted_ops_enc by done. cbn [obind]. rewrite expect_op_enc by done. cbn [obind].
  rewrite expect_op_enc by done. cbn [obind]. rewrite take_array_enc by done. cbn [obind].
  rewrite require_app by lia. cbn [obind]. rewrite advance_app by done. cbn [obind].
  rewrite take_u32_enc by done. cbn [obind]. rewrite skip_bitmap_enc by done. cbn [obind].
  rewrite decode_delegation_enc by done. cbn [obind]. rewrite expect_op_enc by done. cbn [obind].
  rewrite <- (app_nil_r (xdr_opaque fh)), take_opaque_enc by done. cbn [obind].
  by rewrite confirm_bit.
Qed.

Definition demo_ace : wire_ace := {| wa_type := 0; wa_flags := 0; wa_mask := 1; wa_who := of_str "EVERYONE@" |}.
Lemma open_reply_roundtrip_witness :
  decode_open_response (enc_open_reply [] (zeros 16) (zeros 20) 2 [16]
    (WireWrite (zeros 16) false (LimitSize 4096) demo_ace) (of_str "fh")) =
  Ok ({| or_stateid := zeros 16; confirm_required := true;
         delegation := Some {| dg_kind := DelegWrite; dg_stateid := zeros 16; dg_recall := false |} |},
      of_str "fh").
Proof.
  apply (open_reply_roundtrip [] (zeros 16) (zeros 20) 2 [16]
    (WireWrite (zeros 16) false (LimitSize 4096) demo_ace) (of_str "fh")); vm_compute; done.
Defined.

(** The exception: a limit in blocks is two 32-bit words, and the reader skips
    sixteen bytes, so that a well-formed grant is not understood. *)
Lemma block_limited_delegation_rejected : exists m,
  decode_open_response (enc_open_reply [] (zeros 16) (zeros 20) 2 [16]
    (WireWrite (zeros 16) false (LimitBlocks 8 512) demo_ace) (of_str "fh")) = Err (Xdr m).
Proof. eexists. vm_compute. reflexivity. Qed.

End V40.
