(* ===== verification/Lease40.v ===== *)
(** * The NFSv4.0 lease

    Models [src/src/nfs40/lease.rs]: what the mount knows about its lease, the
    gate in front of every operation that depends on it, and the task that renews
    it. Times are numbers of nanoseconds. Each atomic access is one step; a read
    of several cells sees what the cells hold at that step. *)
From S2P Require Import Prelude Errors.
From stdpp Require Import base list numbers strings relations.
#[local] Open Scope Z_scope.

Inductive MountLifecycleState : Type :=
| Ready | Reconnecting | Suspect | Recovering | Reclaiming | LostState | Closing | Closed.
#[global] Instance MountLifecycleState_eq_dec : EqDecision MountLifecycleState.
Proof. solve_decision. Defined.

Definition lifecycle_u8 (l : MountLifecycleState) : Z :=
  match l with
  | Ready => 0 | Reconnecting => 1 | Suspect => 2 | Recovering => 3 | Reclaiming => 4
  | LostState => 5 | Closing => 6 | Closed => 7
  end.

Definition lifecycle_debug (l : MountLifecycleState) : string :=
  match l with
  | Ready => "Ready" | Reconnecting => "Reconnecting" | Suspect => "Suspect"
  | Recovering => "Recovering" | Reclaiming => "Reclaiming" | LostState => "LostState"
  | Closing => "Closing" | Closed => "Closed"
  end.

Record LeaseState : Type := {
  ls_lifecycle : Z;
  ls_generation : Z;
  ls_healthy : bool;
  ls_lease_seconds : Z;
  ls_renewals : Z;
  ls_deadline : Z;
}.

Definition lease_duration (s : LeaseState) : Z := ls_lease_seconds s * 1000000000.

Definition lease_ready (generation lease_seconds now : Z) : LeaseState :=
  {| ls_lifecycle := lifecycle_u8 Ready; ls_generation := generation; ls_healthy := true;
     ls_lease_seconds := lease_seconds; ls_renewals := 0;
     ls_deadline := now + lease_seconds * 1000000000 |}.

Record MountHealth : Type := {
  mh_lifecycle : MountLifecycleState; mh_generation : Z; mh_lease_healthy : option bool;
  mh_lease_seconds : option Z; mh_lease_renewals : Z; mh_callback_healthy : option bool
}.

Definition lifecycle_of (v : Z) : MountLifecycleState :=
  if v =? lifecycle_u8 Ready then Ready
  else if v =? lifecycle_u8 Suspect then Suspect
  else if v =? lifecycle_u8 Reconnecting then Reconnecting
  else if v =? lifecycle_u8 Recovering then Recovering
  else if v =? lifecycle_u8 Reclaiming then Reclaiming
  else if v =? lifecycle_u8 LostState then LostState
  else if v =? lifecycle_u8 Closing then Closing
  else if v =? lifecycle_u8 Closed then Closed
  else LostState.

Definition health (s : LeaseState) : MountHealth :=
  {| mh_lifecycle := lifecycle_of (ls_lifecycle s); mh_generation := ls_generation s;
     mh_lease_healthy := Some (ls_healthy s); mh_lease_seconds := Some (ls_lease_seconds s);
     mh_lease_renewals := ls_renewals s; mh_callback_healthy := None |}.

Definition gate_stateful (s : LeaseState) (operation : string) : result () :=
  let lifecycle := mh_lifecycle (health s) in
  if bool_decide (lifecycle = Ready) then Ok ()
  else
    let recovery := if bool_decide (lifecycle = LostState) then Reopen else VerifyThenResume in
    Err (OperationOutcome (OperationOutcomeError_new Uncertain ReplaySensitive recovery
      {| operation := operation; protocol := NFSv4p0; request_id := None |}
      (Rpc ("NFSv4.0 state-dependent operation gated while mount is " +:+ lifecycle_debug lifecycle)))).

(** The loop of [begin_stateful], on what the lease is at each of its three
    reads; [None] while it has not returned. *)
Fixpoint begin_stateful (reads : list (LeaseState * LeaseState * LeaseState)) (operation : string)
    : option (result Z) :=
  match reads with
  | [] => None
  | (before, gate, after) :: reads =>
      match gate_stateful gate operation with
      | Ok _ =>
          if ls_generation before =? ls_generation after then Some (Ok (ls_generation after))
          else begin_stateful reads operation
      | Err e => Some (Err e)
      | Panic => Some Panic
      end
  end.

Definition set_deadline (s : LeaseState) (d : Z) : LeaseState :=
  {| ls_lifecycle := ls_lifecycle s; ls_generation := ls_generation s; ls_healthy := ls_healthy s;
     ls_lease_seconds := ls_lease_seconds s; ls_renewals := ls_renewals s; ls_deadline := d |}.
Definition set_lifecycle (s : LeaseState) (h : bool) (l : MountLifecycleState) : LeaseState :=
  {| ls_lifecycle := lifecycle_u8 l; ls_generation := ls_generation s; ls_healthy := h;
     ls_lease_seconds := ls_lease_seconds s; ls_renewals := ls_renewals s; ls_deadline := ls_deadline s |}.

Definition record_activity (s : LeaseState) (now : Z) : LeaseState :=
  set_deadline s (now + lease_duration s).

Definition validate_stateful (s : LeaseState) (generation : Z) (operation : string) : result () :=
  if (ls_generation s =? generation) && bool_decide (mh_lifecycle (health s) = Ready) then Ok ()
  else gate_stateful s operation.

Definition finish_stateful (s : LeaseState) (generation : Z) (operation : string) (now : Z)
    : result () * LeaseState :=
  if is_ok (validate_stateful s generation operation) then (Ok (), record_activity s now)
  else (gate_stateful s operation, s).

Definition mark_ready (s : LeaseState) (now : Z) : LeaseState :=
  let s := record_activity s now in
  let s := {| ls_lifecycle := ls_lifecycle s; ls_generation := ls_generation s; ls_healthy := ls_healthy s;
              ls_lease_seconds := ls_lease_seconds s; ls_renewals := wrap64 (ls_renewals s + 1);
              ls_deadline := ls_deadline s |} in
  set_lifecycle s true Ready.
Definition mark_suspect (s : LeaseState) : LeaseState := set_lifecycle s false Suspect.
Definition mark_reconnecting (s : LeaseState) : LeaseState := set_lifecycle s false Reconnecting.
Definition mark_recovering (s : LeaseState) : LeaseState := set_lifecycle s false Recovering.
Definition mark_reclaiming (s : LeaseState) : LeaseState := set_lifecycle s (ls_healthy s) Reclaiming.
Definition mark_closing (s : LeaseState) : LeaseState := set_lifecycle s (ls_healthy s) Closing.
Definition mark_closed (s : LeaseState) : LeaseState := set_lifecycle s false Closed.
Definition mark_lost (s : LeaseState) : LeaseState :=
  let s := set_lifecycle s false LostState in
  {| ls_lifecycle := ls_lifecycle s; ls_generation := wrap64 (ls_generation s + 1);
     ls_healthy := ls_healthy s; ls_lease_seconds := ls_lease_seconds s; ls_renewals := ls_renewals s;
     ls_deadline := ls_deadline s |}.

(** ** The renewal task *)

(** [RSettling] awaits a RENEW that was in flight when the lease ran out. *)
Inductive renewal_phase : Type := RSleeping | RCalling | RRecovering | RSettling | REnded.

Definition is_expired (r : result ()) : bool :=
  match r with Err (Nfs4 NFS4ERR_EXPIRED) | Err (Nfs4 NFS4ERR_STALE_CLIENTID) => true | _ => false end.

(** One step of the task at time [now], with or without a recovery handler;
    [stopping] is what the stop channel holds. The select of the call takes any
    branch that is ready. *)
Inductive renewal_step (recovery stopping : bool) (now : Z)
    : LeaseState * renewal_phase -> LeaseState * renewal_phase -> Prop :=
| rn_slept s : renewal_step recovery stopping now (s, RSleeping) (s, RCalling)
| rn_stop s : stopping = true -> renewal_step recovery stopping now (s, RSleeping) (s, REnded)
| rn_ok s : renewal_step recovery stopping now (s, RCalling)
    (mark_ready s now, if stopping then REnded else RSleeping)
| rn_expired s r : is_expired r = true -> recovery = true ->
    renewal_step recovery stopping now (s, RCalling) (mark_recovering s, RRecovering)
| rn_expired_lost s r : is_expired r = true -> recovery = false ->
    renewal_step recovery stopping now (s, RCalling) (mark_lost s, if stopping then REnded else RSleeping)
| rn_failed_late s r : is_ok r = false -> is_expired r = false -> ls_deadline s <= now ->
    renewal_step recovery stopping now (s, RCalling) (mark_lost s, REnded)
| rn_failed s r : is_ok r = false -> is_expired r = false -> now < ls_deadline s ->
    renewal_step recovery stopping now (s, RCalling) (mark_suspect s, if stopping then REnded else RSleeping)
| rn_deadline s : ls_deadline s <= now ->
    renewal_step recovery stopping now (s, RCalling) (mark_lost s, RSettling)
| rn_settled s : renewal_step recovery stopping now (s, RSettling) (s, REnded)
| rn_reclaiming s : renewal_step recovery stopping now (s, RRecovering) (mark_reclaiming s, RRecovering)
| rn_recovered s : renewal_step recovery stopping now (s, RRecovering)
    (mark_ready s now, if stopping then REnded else RSleeping)
| rn_not_recovered s s' : s' = s \/ s' = mark_lost s ->
    renewal_step recovery stopping now (s, RRecovering) (s', if stopping then REnded else RSleeping).

(** The other writers of the lease: an operation that finishes, the reconnect
    handler, and the unmount. *)
Inductive lease_event (now : Z) : LeaseState -> LeaseState -> Prop :=
| le_finish s g op : lease_event now s (finish_stateful s g op now).2
| le_reconnecting s : lease_event now s (mark_reconnecting s)
| le_closing s : lease_event now s (mark_closing s)
| le_closed s : lease_event now s (mark_closed s).

Inductive lease_step (recovery : bool) : LeaseState * renewal_phase -> LeaseState * renewal_phase -> Prop :=
| ls_renewal stopping now c c' : renewal_step recovery stopping now c c' -> lease_step recovery c c'
| ls_other now s s' p : lease_event now s s' -> lease_step recovery (s, p) (s', p).

(** ** What the gate lets through *)

Lemma lifecycle_of_u8 l : lifecycle_of (lifecycle_u8 l) = l.
Proof. by destruct l. Qed.

Lemma gate_ok_ready s op : gate_stateful s op = Ok () <-> lifecycle_of (ls_lifecycle s) = Ready.
Proof. unfold gate_stateful, health. cbn. by case_bool_decide. Qed.

Lemma gate_no_panic s op : gate_stateful s op <> Panic.
Proof. unfold gate_stateful. by repeat case_match. Qed.

(** An operation that starts is told the generation in which the lease was ready. *)
Lemma begin_stateful_ready reads op g : begin_stateful reads op = Some (Ok g) ->
  exists before gate after, (before, gate, after) ∈ reads /\ ls_generation before = g /\
    ls_generation after = g /\ lifecycle_of (ls_lifecycle gate) = Ready.
Proof.
  induction reads as [|[[b gt] a] reads IH]; [done|]. cbn [begin_stateful].
  destruct (gate_stateful gt op) as [[]|e|] eqn:E; [|done|done].
  destruct (Z.eqb_spec (ls_generation b) (ls_generation a)) as [He|].
  - intros [= <-]. exists b, gt, a. split_and!; [left|done|done|by eapply gate_ok_ready].
  - intros H. destruct (IH H) as (b' & gt' & a' & Hin & H1 & H2 & H3). exists b', gt', a'.
    split_and!; try done. by right.
Qed.

(** The validation of a result accepts whatever the gate accepts: it compares the
    generation, but falls back to the gate, so that once the mount is ready again
    a result from an earlier generation is accepted too. *)
Lemma validate_ignores_generation s g op :
  validate_stateful s g op = Ok () <-> lifecycle_of (ls_lifecycle s) = Ready.
Proof.
  unfold validate_stateful. destruct (_ && _) eqn:E; [|apply gate_ok_ready].
  apply andb_true_iff in E as [_ E%bool_decide_eq_true]. unfold health in E. cbn in E. tauto.
Qed.

(** ** Once the lease has run out *)

Lemma finish_lifecycle s g op now : ls_lifecycle (finish_stateful s g op now).2 = ls_lifecycle s.
Proof. unfold finish_stateful. by case_match. Qed.
Lemma finish_not_ready s g op now : lifecycle_of (ls_lifecycle s) <> Ready ->
  (finish_stateful s g op now).2 = s /\ exists e, (finish_stateful s g op now).1 = Err e.
Proof.
  intros H. unfold finish_stateful.
  destruct (validate_stateful s g op) as [[]|e|] eqn:E; [by apply validate_ignores_generation in E| |]; cbn;
    (split; [done|]); destruct (gate_stateful s op) as [[]|e'|] eqn:Eg;
    try (by apply gate_ok_ready in Eg); try (by apply gate_no_panic in Eg); eauto.
Qed.

Definition fenced (c : LeaseState * renewal_phase) : Prop :=
  lifecycle_of (ls_lifecycle c.1) <> Ready /\ (c.2 = RSettling \/ c.2 = REnded).

Lemma fenced_step recovery c c' : lease_step recovery c c' -> fenced c -> fenced c'.
Proof.
  intros Hs [Hl Hp]. destruct Hs as [stopping now c c' Hr|now s s' p He].
  - destruct Hr; cbn in *; destruct Hp as [Hp|Hp]; try done; split; auto.
  - split; [|done]. cbn in *. destruct He; cbn; try done. by rewrite finish_lifecycle.
Qed.

(** A lease that runs out is fenced for good. When its deadline passes while
    a renewal is in flight, or a renewal fails after it, the generation changes at
    once, and from then on, whatever happens to the transport and whatever other
    operations do, no operation that depends on the lease starts, and none that is
    in flight reports success. *)
Theorem expired_lease_is_fenced recovery stopping now s c c' :
  renewal_step recovery stopping now (s, RCalling) c -> ls_lifecycle c.1 = lifecycle_u8 LostState ->
  c.2 = RSettling \/ c.2 = REnded -> rtc (lease_step recovery) c c' ->
  ls_generation c.1 = wrap64 (ls_generation s + 1) /\
  (forall g op t, exists e, (finish_stateful c'.1 g op t).1 = Err e) /\
  (forall reads op g, Forall (fun '(_, gate, _) => gate = c'.1) reads ->
     begin_stateful reads op <> Some (Ok g)).
Proof.
  intros Hr Hl Hp Hsteps. split; [by inversion Hr; subst|].
  assert (Hf : fenced c').
  { assert (H0 : fenced c) by (split; [by rewrite Hl|done]). clear Hr Hl Hp.
    induction Hsteps; eauto using fenced_step. }
  destruct Hf as [Hf _]. split; [intros g op t; by apply finish_not_ready|].
  intros reads op g HF H. apply begin_stateful_ready in H as (b & gt & a & Hin & _ & _ & Hready).
  rewrite Forall_forall in HF. specialize (HF _ Hin). cbn in HF. by subst gt.
Qed.

Lemma expired_lease_is_fenced_witness :
  ls_generation (mark_lost (lease_ready 1 90 0)) = 2 /\
  begin_stateful [(lease_ready 1 90 0, mark_reconnecting (mark_lost (lease_ready 1 90 0)),
                   mark_reconnecting (mark_lost (lease_ready 1 90 0)))] "read" <> Some (Ok 2).
Proof.
  destruct (expired_lease_is_fenced true false 90000000000 (lease_ready 1 90 0)
    (mark_lost (lease_ready 1 90 0), RSettling) (mark_reconnecting (mark_lost (lease_ready 1 90 0)), RSettling))
    as (H1 & _ & H3).
  - apply rn_deadline. cbn. lia.
  - reflexivity.
  - by left.
  - eapply rtc_once, (ls_other _ 0), le_reconnecting.
  - split; [exact H1|]. apply H3. repeat constructor.
Defined.

(** A mount that lost its state and recovered: a result of the old generation is
    accepted. *)
Lemma stale_result_accepted : exists s, ls_generation s <> 1 /\ validate_stateful s 1 "lock" = Ok ().
Proof.
  exists (mark_ready (mark_lost (lease_ready 1 90 0)) 100). split; [done|]. by vm_compute.
Qed.
