(* ===== verification/Lanes40.v ===== *)
(** * NFSv4.0 open and lock owners

    Models [src/src/nfs40/state.rs] (the tables of open and lock owners) and the
    operations of [src/src/nfs40/mount.rs] that create, use and retire them: OPEN,
    LOCK, LOCKU and CLOSE, each ordered by a sequence number of its owner.

    A lane is a shared object behind a mutex; lanes live in a heap and the tables
    hold references. An operation holds its lane from the request to the reply, so
    it is one step on the mount's state. What the server answers is a function of
    the request; what the lease is when an operation reads it is an argument. *)
From S2P Require Import Prelude Errors Xdr4 Attrs4 Compound40 Lease40.
From stdpp Require Import base list numbers strings gmap relations.
#[local] Open Scope Z_scope.

(** ** The tables *)

Record OwnerLane : Type := {
  ol_owner : Z; ol_next_seqid : Z; ol_stateid : bytes; ol_fh : bytes; ol_access : Z;
  ol_write_verifier : option bytes; ol_closing : bool
}.

Record LockLane : Type := {
  ll_owner : Z; ll_open_owner : Z; ll_owner_wire : bytes; ll_next_seqid : Z; ll_stateid : bytes;
  ll_fh : bytes; ll_lock_type : Z; ll_offset : Z; ll_length : Z
}.

(** [Arc] references are numbers. *)
Definition ref : Type := Z.

Module LockState.

Record t : Type := { lanes : gmap bytes ref; aliases : gmap bytes ref }.
Definition default_state : t := {| lanes := ∅; aliases := ∅ |}.

Definition register (s : t) (stateid : bytes) (lane : ref) : t :=
  {| lanes := <[stateid := lane]> (lanes s); aliases := aliases s |}.

Definition by_stateid (s : t) (stateid : bytes) : option ref :=
  match lanes s !! stateid with
  | Some lane => Some lane
  | None => aliases s !! stateid
  end.

Definition others (lane : ref) (m : gmap bytes ref) : gmap bytes ref := filter (fun p => p.2 <> lane) m.

Definition remove (s : t) (stateid : bytes) : t :=
  match lanes s !! stateid with
  | Some lane =>
      {| lanes := others lane (delete stateid (lanes s)); aliases := others lane (aliases s) |}
  | None =>
      match aliases s !! stateid with
      | Some lane =>
          {| lanes := others lane (lanes s); aliases := others lane (delete stateid (aliases s)) |}
      | None => s
      end
  end.

Definition has_fh (s : t) (heap : gmap ref LockLane) (fh : bytes) : bool :=
  existsb (fun lane => match heap !! lane with Some l => bool_decide (ll_fh l = fh) | None => false end)
    (map snd (map_to_list (lanes s))).

Definition rekey (s : t) (old_stateid new_stateid : bytes) (lane : ref) : t :=
  {| lanes := <[new_stateid := lane]> (delete old_stateid (lanes s));
     aliases := <[old_stateid := lane]> (aliases s) |}.

Definition clear (_ : t) : t := {| lanes := ∅; aliases := ∅ |}.

End LockState.

Module OpenState.

Record t : Type := { lanes : gmap Z ref; by_fh : gmap bytes (list Z) }.
Definition default_state : t := {| lanes := ∅; by_fh := ∅ |}.

Definition register (s : t) (owner : Z) (fh : bytes) (lane : ref) : t :=
  {| lanes := <[owner := lane]> (lanes s);
     by_fh := <[fh := default [] (by_fh s !! fh) ++ [owner]]> (by_fh s) |}.

Definition by_owner (s : t) (owner : Z) : option ref := lanes s !! owner.

(** The loop over the owners, newest first. *)
Fixpoint first_with_access (s : t) (heap : gmap ref OwnerLane) (owners : list Z) (required : Z) : option ref :=
  match owners with
  | [] => None
  | owner :: owners =>
      match by_owner s owner with
      | None => None
      | Some lane =>
          if match heap !! lane with
             | Some l => negb (Z.land (ol_access l) required =? 0)
             | None => false
             end
          then Some lane else first_with_access s heap owners required
      end
  end.
Definition for_fh (s : t) (heap : gmap ref OwnerLane) (fh : bytes) (required : Z) : option ref :=
  match by_fh s !! fh with
  | None => None
  | Some owners => first_with_access s heap (rev owners) required
  end.

Definition remove (s : t) (owner : Z) (fh : bytes) : t :=
  {| lanes := delete owner (lanes s);
     by_fh := match by_fh s !! fh with
              | None => by_fh s
              | Some owners =>
                  let owners := filter (fun c => c <> owner) owners in
                  if bool_decide (owners = []) then delete fh (by_fh s) else <[fh := owners]> (by_fh s)
              end |}.

Definition clear (_ : t) : t := {| lanes := ∅; by_fh := ∅ |}.

End OpenState.

Definition encode_owner (issuer owner : Z) : bytes := xdr_u64 issuer ++ xdr_u64 owner.
Definition decode_owner (state : bytes) : option (Z * Z) :=
  if negb (remaining state =? 16) then None
  else Some (be_val (firstn 8 state), be_val (skipn 8 state)).

(** ** The mount *)

Record Mount40 : Type := {
  m_auth : Auth;
  m_client_id : Z;
  m_issuer : Z;
  m_next_owner : Z;
  m_state : OpenState.t;
  m_locks : LockState.t;
  m_open_heap : gmap ref OwnerLane;
  m_lock_heap : gmap ref LockLane;
  m_next_ref : ref;
}.

Definition set_next_owner (m : Mount40) v : Mount40 :=
  {| m_auth := m_auth m; m_client_id := m_client_id m; m_issuer := m_issuer m; m_next_owner := v;
     m_state := m_state m; m_locks := m_locks m; m_open_heap := m_open_heap m;
     m_lock_heap := m_lock_heap m; m_next_ref := m_next_ref m |}.
Definition set_open (m : Mount40) (r : ref) (l : OwnerLane) : Mount40 :=
  {| m_auth := m_auth m; m_client_id := m_client_id m; m_issuer := m_issuer m; m_next_owner := m_next_owner m;
     m_state := m_state m; m_locks := m_locks m; m_open_heap := <[r := l]> (m_open_heap m);
     m_lock_heap := m_lock_heap m; m_next_ref := m_next_ref m |}.
Definition set_lock (m : Mount40) (r : ref) (l : LockLane) : Mount40 :=
  {| m_auth := m_auth m; m_client_id := m_client_id m; m_issuer := m_issuer m; m_next_owner := m_next_owner m;
     m_state := m_state m; m_locks := m_locks m; m_open_heap := m_open_heap m;
     m_lock_heap := <[r := l]> (m_lock_heap m); m_next_ref := m_next_ref m |}.
Definition set_tables (m : Mount40) (s : OpenState.t) (k : LockState.t) : Mount40 :=
  {| m_auth := m_auth m; m_client_id := m_client_id m; m_issuer := m_issuer m; m_next_owner := m_next_owner m;
     m_state := s; m_locks := k; m_open_heap := m_open_heap m;
     m_lock_heap := m_lock_heap m; m_next_ref := m_next_ref m |}.

(** [register]: a new object, and the table's reference to it. *)
Definition register_open (m : Mount40) (l : OwnerLane) : Mount40 :=
  let m' := set_open m (m_next_ref m) l in
  {| m_auth := m_auth m'; m_client_id := m_client_id m'; m_issuer := m_issuer m'; m_next_owner := m_next_owner m';
     m_state := OpenState.register (m_state m') (ol_owner l) (ol_fh l) (m_next_ref m); m_locks := m_locks m';
     m_open_heap := m_open_heap m'; m_lock_heap := m_lock_heap m'; m_next_ref := m_next_ref m + 1 |}.
Definition register_lock (m : Mount40) (l : LockLane) : Mount40 :=
  let m' := set_lock m (m_next_ref m) l in
  {| m_auth := m_auth m'; m_client_id := m_client_id m'; m_issuer := m_issuer m'; m_next_owner := m_next_owner m';
     m_state := m_state m'; m_locks := LockState.register (m_locks m') (ll_stateid l) (m_next_ref m);
     m_open_heap := m_open_heap m'; m_lock_heap := m_lock_heap m'; m_next_ref := m_next_ref m + 1 |}.

Definition with_seqid (l : OwnerLane) (v : Z) : OwnerLane :=
  {| ol_owner := ol_owner l; ol_next_seqid := v; ol_stateid := ol_stateid l; ol_fh := ol_fh l;
     ol_access := ol_access l; ol_write_verifier := ol_write_verifier l; ol_closing := ol_closing l |}.
Definition with_stateid (l : OwnerLane) (v : bytes) : OwnerLane :=
  {| ol_owner := ol_owner l; ol_next_seqid := ol_next_seqid l; ol_stateid := v; ol_fh := ol_fh l;
     ol_access := ol_access l; ol_write_verifier := ol_write_verifier l; ol_closing := ol_closing l |}.
Definition with_closing (l : OwnerLane) : OwnerLane :=
  {| ol_owner := ol_owner l; ol_next_seqid := ol_next_seqid l; ol_stateid := ol_stateid l; ol_fh := ol_fh l;
     ol_access := ol_access l; ol_write_verifier := ol_write_verifier l; ol_closing := true |}.
Definition lock_with (l : LockLane) (seqid : Z) (stateid : bytes) : LockLane :=
  {| ll_owner := ll_owner l; ll_open_owner := ll_open_owner l; ll_owner_wire := ll_owner_wire l;
     ll_next_seqid := seqid; ll_stateid := stateid; ll_fh := ll_fh l; ll_lock_type := ll_lock_type l;
     ll_offset := ll_offset l; ll_length := ll_length l |}.

Definition context40 (operation : string) (owner seqid : Z) : RequestContext :=
  {| operation := operation; protocol := NFSv4p0; request_id := Some (Nfs40Owner owner seqid) |}.
Definition classify (ctx : RequestContext) (e : NfsError) : NfsError :=
  classify_sent_nfs40_error ReplaySensitive ctx e.

(** [{:016x}] *)
Definition hex_digit (d : Z) : byte := byte_of (if d <? 10 then 48 + d else 87 + d).
Definition hex16 (z : Z) : bytes :=
  map (fun i => hex_digit (Z.land (Z.shiftr z (4 * (15 - Z.of_nat i))) 15)) (seq 0 16).

(** Whether the server has moved its owner's sequence number on. *)
Definition exempt_status (status : Z) : bool :=
  bool_decide (status ∈ [10022; 10023; 10025; 10026; 10036; 10018; 10020; 10019]).
Definition consumes_owner_seqid {A : Type} (r : result A) : bool :=
  match r with
  | Ok _ | Err (LockDenied _ _ _ _) => true
  | Err (Nfs4 status) => negb (exempt_status (to_u32 status))
  | _ => false
  end.

(** *** Requests *)

Definition lock_owner_wire (m : Mount40) (owner : Z) : bytes :=
  of_str "nfs-rs-lock-" ++ hex16 (m_issuer m) ++ of_str "-" ++ hex16 owner.
Definition open_owner_wire (m : Mount40) (owner : Z) : bytes :=
  of_str "nfs-rs-" ++ hex16 (m_issuer m) ++ of_str "-" ++ hex16 owner.

Definition lock_request (m : Mount40) (open : OwnerLane) (owner : Z) (fh : bytes)
    (lock_type offset length : Z) : bytes :=
  encode_with_header40
    (V40.lock_new (Builder40.putfh (V40.new40 (of_str "lock")) fh)
      {| V40.nl_lock_type := lock_type; V40.nl_reclaim := false; V40.nl_offset := offset;
         V40.nl_length := length; V40.nl_open_seqid := ol_next_seqid open;
         V40.nl_open_stateid := ol_stateid open; V40.nl_lock_seqid := 0;
         V40.nl_client_id := m_client_id m; V40.nl_owner := lock_owner_wire m owner |}) (m_auth m).
Definition locku_request (m : Mount40) (lane : LockLane) : bytes :=
  encode_with_header40
    (V40.locku (Builder40.putfh (V40.new40 (of_str "locku")) (ll_fh lane)) (ll_lock_type lane)
       (ll_next_seqid lane) (ll_stateid lane) (ll_offset lane) (ll_length lane)) (m_auth m).
Definition release_request (m : Mount40) (lane : LockLane) : bytes :=
  encode_with_header40
    (V40.release_lockowner (V40.new40 (of_str "release-lockowner")) (m_client_id m)
       (ll_owner_wire lane)) (m_auth m).
Definition close_request (m : Mount40) (lane : OwnerLane) : bytes :=
  encode_with_header40
    (V40.close (Builder40.putfh (V40.new40 (of_str "close")) (ol_fh lane))
       (ol_next_seqid lane) (ol_stateid lane)) (m_auth m).
Definition open_tag (create guarded : bool) : string :=
  if guarded then "create_guarded" else if create then "create" else "open".
Definition open_request (m : Mount40) (owner : Z) (dir_fh filename : bytes) (access : Z)
    (create guarded : bool) (mode : option Z) : bytes :=
  let b := Builder40.putfh (V40.new40 (of_str (open_tag create guarded))) dir_fh in
  let args := {| V40.oa_seqid := 0; V40.oa_share_access := access; V40.oa_client_id := m_client_id m;
                 V40.oa_owner := open_owner_wire m owner; V40.oa_filename := filename;
                 V40.oa_create := create |} in
  let b := if guarded then V40.open_guarded b args mode else V40.open b args in
  encode_with_header40 (Builder40.getfh b) (m_auth m).
Definition confirm_request (m : Mount40) (fh stateid : bytes) (seqid : Z) : bytes :=
  encode_with_header40
    (V40.open_confirm (Builder40.putfh (V40.new40 (of_str "open_confirm")) fh) stateid seqid) (m_auth m).
Definition delegreturn_request (m : Mount40) (fh stateid : bytes) : bytes :=
  encode_with_header40
    (V40.delegreturn (Builder40.putfh (V40.new40 (of_str "delegreturn")) fh) stateid) (m_auth m).
Definition CALLBACK_GETATTR_BITMAP : list Z := [0x18].
Definition callback_attributes_request (m : Mount40) (fh : bytes) : bytes :=
  encode_with_header40
    (V40.getattr (Builder40.putfh (V40.new40 (of_str "delegation-getattr")) fh) CALLBACK_GETATTR_BITMAP)
    (m_auth m).

Definition decode_callback_attributes (data : bytes) : result (Z * Z) :=
  let* (bitmap, values, _) := decode_fattr4_envelope data "delegation getattr" in
  if negb (bool_decide (bitmap = CALLBACK_GETATTR_BITMAP)) || negb (remaining values =? 16)
  then Err (Xdr "delegation GETATTR did not return exactly change and size")
  else
    let* (change, values) := get_u64 values in
    let* (size, _) := get_u64 values in
    Ok (change, size).

Section Operations.

(** One call of the transport with one attempt. *)
Context (rpc : bytes -> result bytes).

(** [acquire_lock]; [begun] is what [begin_stateful] returned, [l1] and [l2] the
    lease when it is read after the reply. *)
Definition acquire_lock (m : Mount40) (begun : result Z) (l1 l2 : LeaseState) (now : Z) (open_lane : ref)
    (fh : bytes) (lock_type offset length : Z) : result (bytes * Z) * Mount40 :=
  match begun with
  | Err e => (Err e, m)
  | Panic => (Panic, m)
  | Ok expected_generation =>
      let owner := m_next_owner m in
      let m := set_next_owner m (wrap64 (owner + 1)) in
      match m_open_heap m !! open_lane with
      | None => (Panic, m)
      | Some open =>
          let ctx := context40 "lock" owner 0 in
          match rpc (lock_request m open owner fh lock_type offset length) with
          | Err e => (Err (classify ctx e), m)
          | Panic => (Panic, m)
          | Ok response =>
              let decoded := V40.decode_lock_response response 12 "LOCK" in
              let m := if consumes_owner_seqid decoded
                       then set_open m open_lane (with_seqid open (wrap32 (ol_next_seqid open + 1)))
                       else m in
              match decoded with
              | Err e => (Err (classify ctx e), m)
              | Panic => (Panic, m)
              | Ok stateid =>
                  match (finish_stateful l1 expected_generation "lock" now).1 with
                  | Err e => (Err e, m)
                  | Panic => (Panic, m)
                  | Ok _ =>
                      let m := register_lock m
                        {| ll_owner := owner; ll_open_owner := ol_owner open; ll_owner_wire := lock_owner_wire m owner;
                           ll_next_seqid := 1; ll_stateid := stateid; ll_fh := fh;
                           ll_lock_type := lock_type; ll_offset := offset; ll_length := length |} in
                      match validate_stateful l2 expected_generation "lock" with
                      | Err e => (Err e, set_tables m (m_state m) (LockState.remove (m_locks m) stateid))
                      | Panic => (Panic, m)
                      | Ok _ => (Ok (stateid, expected_generation), m)
                      end
                  end
              end
          end
      end
  end.

Definition locku (m : Mount40) (begun : result Z) (l1 : LeaseState) (now : Z) (fh lock_stateid : bytes)
    (lock_type offset length : Z) : result () * Mount40 :=
  match begun with
  | Err e => (Err e, m)
  | Panic => (Panic, m)
  | Ok expected_generation =>
      if negb (remaining lock_stateid =? 16) then (Err (InvalidInput "lock_stateid must be 16 bytes"), m)
      else
      match LockState.by_stateid (m_locks m) lock_stateid with
      | None => (Err (InvalidInput "NFSv4.0 lock state is unknown or already released"), m)
      | Some r =>
          match m_lock_heap m !! r with
          | None => (Panic, m)
          | Some lane =>
              if negb (bool_decide (ll_fh lane = fh)) || negb (ll_lock_type lane =? lock_type) ||
                 negb (ll_offset lane =? offset) || negb (ll_length lane =? length)
              then (Err (InvalidInput "LOCKU parameters do not match the acquired lock"), m)
              else
                let ctx := context40 "locku" (ll_owner lane) (ll_next_seqid lane) in
                match rpc (locku_request m lane) with
                | Err e => (Err (classify ctx e), m)
                | Panic => (Panic, m)
                | Ok response =>
                    let decoded := V40.decode_lock_response response 14 "LOCKU" in
                    let seqid := if consumes_owner_seqid decoded then wrap32 (ll_next_seqid lane + 1)
                                 else ll_next_seqid lane in
                    match decoded with
                    | Err e => (Err (classify ctx e), set_lock m r (lock_with lane seqid (ll_stateid lane)))
                    | Panic => (Panic, m)
                    | Ok stateid =>
                        let m := set_lock m r (lock_with lane seqid stateid) in
                        let m := set_tables m (m_state m) (LockState.remove (m_locks m) (ll_stateid lane)) in
                        let ctx := context40 "release_lockowner" (ll_owner lane) 0 in
                        match rpc (release_request m lane) with
                        | Err e => (Err (classify ctx e), m)
                        | Panic => (Panic, m)
                        | Ok response =>
                            match V40.decode_release_lockowner_response response with
                            | Err e => (Err (classify ctx e), m)
                            | Panic => (Panic, m)
                            | Ok _ => ((finish_stateful l1 expected_generation "locku" now).1, m)
                            end
                        end
                    end
                end
          end
      end
  end.

(** OPEN_CONFIRM when the server asked for it: the state id and the next number. *)
Definition confirm_open (m : Mount40) (owner : Z) (opened : V40.OpenResult) (fh : bytes) : result (bytes * Z) :=
  if V40.confirm_required opened
  then let ctx := context40 "open_confirm" owner 1 in
       let* response := map_err (classify ctx) (rpc (confirm_request m fh (V40.or_stateid opened) 1)) in
       let* stateid := map_err (classify ctx) (V40.decode_stateid_response response 20 "OPEN_CONFIRM") in
       Ok (stateid, 2)
  else Ok (V40.or_stateid opened, 1).

(** After the registration: the delegation is returned, or kept with the file's
    attributes when the mount keeps delegations ([callbacks] registers it), and
    the lease is checked. *)
Definition settle_open (m : Mount40) (expected_generation : Z) (l1 l2 : LeaseState) (now : Z)
    (callbacks : option (bytes -> V40.DelegationGrant -> Z -> option (Z * Z) -> result ()))
    (owner next_seqid : Z) (opened : V40.OpenResult) (fh : bytes) : result (bytes * bytes) * Mount40 :=
  let returned :=
    match callbacks, V40.delegation opened with
    | None, Some d =>
        let ctx := context40 "delegreturn-after-open" owner next_seqid in
        let* response := map_err (classify ctx) (rpc (delegreturn_request m fh (V40.dg_stateid d))) in
        map_err (classify ctx) (V40.decode_delegreturn_response response)
    | _, _ => Ok ()
    end in
  let attributes :=
    match callbacks, V40.delegation opened with
    | Some _, Some {| V40.dg_kind := V40.DelegWrite |} =>
        match (let* response := rpc (callback_attributes_request m fh) in
               let* data := V40.decode_getattr_response response in
               decode_callback_attributes data) with
        | Ok a => Some a
        | _ => None
        end
    | _, _ => None
    end in
  match (let* _ := returned in
         let* _ := (finish_stateful l1 expected_generation "open" now).1 in
         match callbacks, V40.delegation opened with
         | Some register, Some d => register fh d expected_generation attributes
         | _, _ => Ok ()
         end) with
  | Err e => (Err e, m)
  | Panic => (Panic, m)
  | Ok _ =>
      match validate_stateful l2 expected_generation "open" with
      | Err e => (Err e, set_tables m (OpenState.remove (m_state m) owner fh) (m_locks m))
      | Panic => (Panic, m)
      | Ok _ => (Ok (fh, encode_owner (m_issuer m) owner), m)
      end
  end.

(** [open_file_with_create] *)
Definition open_file_with_create (m : Mount40) (begun : result Z) (l1 l2 : LeaseState) (now : Z)
    (callbacks : option (bytes -> V40.DelegationGrant -> Z -> option (Z * Z) -> result ()))
    (dir_fh filename : bytes) (access : Z) (create guarded : bool) (mode : option Z)
    : result (bytes * bytes) * Mount40 :=
  match begun with
  | Err e => (Err e, m)
  | Panic => (Panic, m)
  | Ok expected_generation =>
      if negb ((access =? 1) || (access =? 2) || (access =? 3))
      then (Err (InvalidInput ("invalid OPEN access " +:+ fmtZ access)), m)
      else
      let owner := m_next_owner m in
      let m := set_next_owner m (wrap64 (owner + 1)) in
      let ctx := context40 (if create then "create" else "open") owner 0 in
      match rpc (open_request m owner dir_fh filename access create guarded mode) with
      | Err e => (Err (classify ctx e), m)
      | Panic => (Panic, m)
      | Ok response =>
          match V40.decode_open_response response with
          | Err e =>
              (Err (if V40.open_succeeded_before_compound_failure response
                    then OperationOutcome (OperationOutcomeError_new Uncertain ReplaySensitive
                           VerifyThenResume ctx e)
                    else classify ctx e), m)
          | Panic => (Panic, m)
          | Ok (opened, fh) =>
              match confirm_open m owner opened fh with
              | Err e => (Err e, m)
              | Panic => (Panic, m)
              | Ok (stateid, next_seqid) =>
                  settle_open
                    (register_open m
                      {| ol_owner := owner; ol_next_seqid := next_seqid; ol_stateid := stateid; ol_fh := fh;
                         ol_access := access; ol_write_verifier := None; ol_closing := false |})
                    expected_generation l1 l2 now callbacks owner next_seqid opened fh
              end
          end
      end
  end.

(** [close_lane]; waiting for the I/O in flight is not part of the model. *)
Definition close_lane (m : Mount40) (begun : result Z) (l1 : LeaseState) (now : Z) (r : ref)
    : result () * Mount40 :=
  match begun with
  | Err e => (Err e, m)
  | Panic => (Panic, m)
  | Ok expected_generation =>
      match m_open_heap m !! r with
      | None => (Panic, m)
      | Some lane =>
          if ol_closing lane
          then (Err (InvalidInput "NFSv4.0 open state is already closing or closed"), m)
          else
            let lane := with_closing lane in
            let m := set_open m r lane in
            let ctx := context40 "close" (ol_owner lane) (ol_next_seqid lane) in
            match rpc (close_request m lane) with
            | Err e => (Err (classify ctx e), m)
            | Panic => (Panic, m)
            | Ok response =>
                match V40.decode_stateid_response response 4 "CLOSE" with
                | Err e => (Err (classify ctx e), m)
                | Panic => (Panic, m)
                | Ok stateid =>
                    let lane := with_seqid (with_stateid lane stateid) (wrap32 (ol_next_seqid lane + 1)) in
                    let m := set_open m r lane in
                    let m := set_tables m (OpenState.remove (m_state m) (ol_owner lane) (ol_fh lane)) (m_locks m) in
                    ((finish_stateful l1 expected_generation "close" now).1, m)
                end
            end
      end
  end.

Definition OPEN_READ : Z := 1.
Definition OPEN_WRITE : Z := 2.
Definition OPEN_BOTH : Z := 3.

(** [close] and [close_stateful]. *)
Definition locks_held : NfsError :=
  InvalidInput "NFSv4.0 CLOSE requires outstanding locks to be released".
Definition close (m : Mount40) (begun : result Z) (l1 : LeaseState) (now : Z) (fh : bytes) : result () * Mount40 :=
  if LockState.has_fh (m_locks m) (m_lock_heap m) fh then (Err locks_held, m)
  else match OpenState.for_fh (m_state m) (m_open_heap m) fh OPEN_BOTH with
       | None => (Err (InvalidInput "NFSv4.0 CLOSE requires an open file"), m)
       | Some r => close_lane m begun l1 now r
       end.
Definition close_stateful (m : Mount40) (begun : result Z) (l1 : LeaseState) (now : Z) (fh : bytes)
    (protocol_state : option bytes) : result () * Mount40 :=
  if LockState.has_fh (m_locks m) (m_lock_heap m) fh then (Err locks_held, m)
  else match protocol_state with
  | None => (Err (InvalidInput "open file has no NFSv4.0 owner state"), m)
  | Some state =>
      match decode_owner state with
      | None => (Err (InvalidInput "invalid NFSv4.0 open state"), m)
      | Some (issuer, owner) =>
          if negb (issuer =? m_issuer m)
          then (Err (InvalidInput "open file belongs to another mount generation"), m)
          else match OpenState.by_owner (m_state m) owner with
          | None => (Err (InvalidInput "NFSv4.0 open state is closed or stale"), m)
          | Some r =>
              match m_open_heap m !! r with
              | None => (Panic, m)
              | Some lane =>
                  if negb (bool_decide (ol_fh lane = fh))
                  then (Err (InvalidInput "NFSv4.0 open state filehandle mismatch"), m)
                  else close_lane m begun l1 now r
              end
          end
      end
  end.

Definition lock_access (lock_type : Z) : Z := if lock_type =? 1 then OPEN_READ else OPEN_WRITE.
Definition lock (m : Mount40) (begun : result Z) (l1 l2 : LeaseState) (now : Z) (fh : bytes)
    (lock_type offset length : Z) : result (bytes * Z) * Mount40 :=
  if negb ((lock_type =? 1) || (lock_type =? 2)) || (length =? 0)
  then (Err (InvalidInput "LOCK requires type 1/2 and non-zero length"), m)
  else match OpenState.for_fh (m_state m) (m_open_heap m) fh (lock_access lock_type) with
       | None => (Err (InvalidInput "NFSv4.0 LOCK requires a compatible open file"), m)
       | Some r => acquire_lock m begun l1 l2 now r fh lock_type offset length
       end.

Record LockToken : Type := {
  lt_fh : bytes; lt_stateid : bytes; lt_lock_type : Z; lt_offset : Z; lt_length : Z; lt_issuer : Z;
  lt_generation : Z
}.
Definition lock_stateful (m : Mount40) (begun : result Z) (l1 l2 : LeaseState) (now : Z) (fh : bytes)
    (lock_type offset length : Z) : result LockToken * Mount40 :=
  match lock m begun l1 l2 now fh lock_type offset length with
  | (Ok (stateid, generation), m) =>
      (Ok {| lt_fh := fh; lt_stateid := stateid; lt_lock_type := lock_type; lt_offset := offset;
             lt_length := length; lt_issuer := m_issuer m; lt_generation := generation |}, m)
  | (Err e, m) => (Err e, m)
  | (Panic, m) => (Panic, m)
  end.
(** [l0] is the lease when the token is checked. *)
Definition unlock_stateful (m : Mount40) (l0 : LeaseState) (begun : result Z) (l1 : LeaseState) (now : Z)
    (t : LockToken) : result () * Mount40 :=
  if negb (lt_issuer t =? m_issuer m) || negb (lt_generation t =? ls_generation l0)
  then (Err (InvalidInput "lock token belongs to another mount generation"), m)
  else locku m begun l1 now (lt_fh t) (lt_stateid t) (lt_lock_type t) (lt_offset t) (lt_length t).

End Operations.

(** ** The lock table against its specification *)

(** What the table promises: every state id a lock has had since it was acquired
    leads to the lock, until the lock is released under any of them. *)
Module LockSpec.

Abbreviation t := (gmap bytes ref).
Inductive op : Type :=
| Register (stateid : bytes) (lane : ref)
| Rekey (old_stateid new_stateid : bytes) (lane : ref)
| Remove (stateid : bytes)
| Clear.

(** State ids a server hands out are new. *)
Definition allowed (s : t) (o : op) : Prop :=
  match o with
  | Register k _ => s !! k = None
  | Rekey old new lane => s !! old = Some lane /\ s !! new = None
  | Remove _ | Clear => True
  end.
Definition step (s : t) (o : op) : t :=
  match o with
  | Register k lane => <[k := lane]> s
  | Rekey _ new lane => <[new := lane]> s
  | Remove k => match s !! k with Some lane => filter (fun p => p.2 <> lane) s | None => s end
  | Clear => ∅
  end.
Definition impl_step (s : LockState.t) (o : op) : LockState.t :=
  match o with
  | Register k lane => LockState.register s k lane
  | Rekey old new lane => LockState.rekey s old new lane
  | Remove k => LockState.remove s k
  | Clear => LockState.clear s
  end.

#[global] Instance allowed_dec s o : Decision (allowed s o).
Proof. destruct o; apply _. Defined.

(** Sequences of operations, each allowed when it is made. *)
Fixpoint run (s : t) (l : list op) : option t :=
  match l with
  | [] => Some s
  | o :: l => if decide (allowed s o) then run (step s o) l else None
  end.
End LockSpec.

Definition lock_rel (s : LockState.t) (a : LockSpec.t) : Prop :=
  LockState.lanes s ##ₘ LockState.aliases s /\ a = LockState.lanes s ∪ LockState.aliases s.

Lemma by_stateid_union s k : LockState.by_stateid s k = (LockState.lanes s ∪ LockState.aliases s) !! k.
Proof.
  unfold LockState.by_stateid. destruct (LockState.lanes s !! k) as [r|] eqn:E.
  - symmetry. by apply lookup_union_Some_l.
  - by rewrite lookup_union_r.
Qed.

Lemma others_union (lane : ref) (m1 m2 : gmap bytes ref) : m1 ##ₘ m2 ->
  LockState.others lane m1 ∪ LockState.others lane m2 = LockState.others lane (m1 ∪ m2).
Proof. intros H. unfold LockState.others. by rewrite map_filter_union. Qed.
Lemma others_disjoint (lane : ref) (m1 m2 : gmap bytes ref) : m1 ##ₘ m2 ->
  LockState.others lane m1 ##ₘ LockState.others lane m2.
Proof. intros H. by apply map_disjoint_filter. Qed.
Lemma others_delete (lane : ref) (k : bytes) (m : gmap bytes ref) : m !! k = Some lane ->
  LockState.others lane (delete k m) = LockState.others lane m.
Proof.
  intros H. unfold LockState.others. apply map_eq. intros i. rewrite !map_lookup_filter.
  destruct (decide (i = k)) as [->|Hne]; [|by rewrite lookup_delete_ne].
  rewrite lookup_delete_eq, H. cbn. by rewrite option_guard_False by (by intros H').
Qed.

Lemma lock_step_rel s a o : lock_rel s a -> LockSpec.allowed a o ->
  lock_rel (LockSpec.impl_step s o) (LockSpec.step a o).
Proof.
  intros [Hd ->] Ha. destruct o as [k r|old new r|k|]; cbn in *.
  - apply lookup_union_None in Ha as [H1 H2]. split; cbn.
    + by apply map_disjoint_insert_l.
    + apply insert_union_l.
  - destruct Ha as [Hold [H1 H2]%lookup_union_None].
    assert (Hne : new <> old).
    { intros ->. rewrite lookup_union_None_2 in Hold by done. done. }
    split; cbn.
    + apply map_disjoint_insert_l. split; [by rewrite lookup_insert_ne|].
      apply map_disjoint_insert_r. split; [apply lookup_delete_eq|]. by apply map_disjoint_delete_l.
    + etrans; [|apply insert_union_l]. f_equal. apply map_eq. intros i.
      destruct (decide (i = old)) as [->|Hi].
      * rewrite Hold. symmetry. rewrite lookup_union_r by apply lookup_delete_eq. apply lookup_insert_eq.
      * rewrite !lookup_union, lookup_delete_ne, lookup_insert_ne by done. done.
  - rewrite <- by_stateid_union. unfold LockState.remove, LockState.by_stateid.
    destruct (LockState.lanes s !! k) as [r|] eqn:E; [|destruct (LockState.aliases s !! k) as [r|] eqn:E2].
    + rewrite others_delete by done. split; cbn; [by apply others_disjoint|by rewrite others_union].
    + rewrite others_delete by done. split; cbn; [by apply others_disjoint|by rewrite others_union].
    + by split.
  - split; cbn; [apply map_disjoint_empty_l|by rewrite map_empty_union].
Qed.

(** C24: the table of locks implements its specification: after any sequence of
    acquisitions, reclaims and releases, with state ids that a server hands out
    once, a state id leads to a lock exactly when the lock has had it and has not
    been released under any of the ids it has had. *)
Theorem lock_table_refines l a : LockSpec.run ∅ l = Some a ->
  forall k, LockState.by_stateid (foldl LockSpec.impl_step LockState.default_state l) k = a !! k.
Proof.
  intros Hrun k. rewrite by_stateid_union.
  assert (Hgen : forall l s0 a0, lock_rel s0 a0 -> LockSpec.run a0 l = Some a ->
    lock_rel (foldl LockSpec.impl_step s0 l) a).
  { clear. induction l as [|o l IH]; intros s0 a0 Hr Hrun; [by injection Hrun as <-|].
    cbn in Hrun. destruct (decide (LockSpec.allowed a0 o)) as [Ha|]; [|done].
    cbn. eapply IH; [|done]. by apply lock_step_rel. }
  destruct (Hgen l LockState.default_state ∅) as [_ ->]; [|done|done].
  split; cbn; [apply map_disjoint_empty_l|by rewrite map_empty_union].
Qed.

(** A lock acquired, reclaimed under a new state id, and released by the old. *)
Definition demo_sid (n : Z) : bytes := be_bytes 1 n.
Lemma lock_table_refines_witness :
  LockState.by_stateid (foldl LockSpec.impl_step LockState.default_state
    [LockSpec.Register (demo_sid 1) 5; LockSpec.Register (demo_sid 2) 6;
     LockSpec.Rekey (demo_sid 1) (demo_sid 3) 5; LockSpec.Remove (demo_sid 1)]) (demo_sid 3) = None.
Proof.
  rewrite (lock_table_refines
    [LockSpec.Register (demo_sid 1) 5; LockSpec.Register (demo_sid 2) 6;
     LockSpec.Rekey (demo_sid 1) (demo_sid 3) 5; LockSpec.Remove (demo_sid 1)]
    {[ demo_sid 2 := 6 ]}); by vm_compute.
Defined.

Lemma owner_roundtrip issuer owner : is_u64 issuer -> is_u64 owner ->
  decode_owner (encode_owner issuer owner) = Some (issuer, owner).
Proof.
  intros Hi Ho. unfold decode_owner, encode_owner. rewrite remaining_app, !remaining_xdr_u64. cbn [Z.eqb negb].
  assert (Hl : length (xdr_u64 issuer) = 8%nat) by apply length_be_bytes.
  rewrite firstn_app, skipn_app, Hl. cbn [Nat.sub firstn skipn]. rewrite app_nil_r.
  rewrite firstn_all2, skipn_all2 by lia. unfold xdr_u64. rewrite app_nil_l, drop_0, !be_val_bytes.
  change (256 ^ Z.of_nat 8) with (2 ^ 64). unfold is_u64 in *. rewrite !Z.mod_small by lia. done.
Qed.

(** ** Sequence numbers *)

(** A server's answer to LOCK or LOCKU (operation [op]) with a status, after its
    PUTFH succeeded; [denied] is the body of a denial. *)
Record denied_range : Type := { dn_offset : Z; dn_length : Z; dn_type : Z; dn_client : Z; dn_owner : bytes }.
Definition denied_ok (d : denied_range) : Prop :=
  is_u64 (dn_offset d) /\ is_u64 (dn_length d) /\ is_u32 (dn_type d) /\ is_u64 (dn_client d) /\
  remaining (dn_owner d) <= 1024.
Definition lock_reply (op status : Z) (t sid : bytes) (d : denied_range) : bytes :=
  xdr_u32 status ++ xdr_opaque t ++ xdr_u32 2 ++ V40.enc_ok OP_PUTFH ++ xdr_u32 op ++ xdr_u32 status ++
  (if status =? 0 then sid
   else if status =? V40.DENIED
   then xdr_u64 (dn_offset d) ++ xdr_u64 (dn_length d) ++ xdr_u32 (dn_type d) ++ xdr_u64 (dn_client d) ++
        xdr_opaque (dn_owner d)
   else []).
(** The statuses of the registry, and NFS4ERR_RESOURCE, which it leaves out. *)
Definition lock_status (status : Z) : Prop :=
  is_u32 status /\ (status = 0 \/ status = 10018 \/ exists s, try_from status = Some s).

Lemma decode_denied op name t sid d : is_u32 op -> remaining t < 2 ^ 32 -> denied_ok d ->
  V40.decode_lock_denied_result (lock_reply op V40.DENIED t sid d) op name =
  Err (LockDenied (dn_type d) (dn_offset d) (dn_length d) (dn_owner d)).
Proof.
  intros Hop Ht (H1 & H2 & H3 & H4 & H5). unfold V40.decode_lock_denied_result, lock_reply.
  rewrite take_u32_enc by done. cbn [obind Z.eqb negb V40.DENIED Pos.eqb].
  rewrite take_opaque_enc by done. cbn [obind]. rewrite take_u32_enc by done. cbn [obind Z.eqb negb Pos.eqb].
  rewrite V40.expect_op_enc by done. cbn [obind]. rewrite take_u32_enc by done. cbn [obind].
  rewrite Z.eqb_refl. cbn [negb]. rewrite take_u32_enc by done. cbn [obind Z.eqb negb Pos.eqb].
  unfold xdr_u64, xdr_u32. rewrite require_ok by (rewrite !remaining_app, !remaining_be; pose proof (remaining_nonneg (xdr_opaque (dn_owner d))); lia).
  cbn [obind]. rewrite get_u64_be by done. cbn [obind]. rewrite get_u64_be by done. cbn [obind].
  rewrite get_u32_be by done. cbn [obind]. rewrite advance_app by (apply (remaining_be 8)). cbn [obind].
  rewrite <- (app_nil_r (xdr_opaque (dn_owner d))), take_opaque_enc by lia. cbn [obind].
  unfold V40.MAX_LOCK_OWNER_LEN. by destruct (Z.ltb_spec 1024 (remaining (dn_owner d))); [lia|].
Qed.

(** What the client makes of the answer. *)
Lemma lock_reply_decoded op name status t sid d : is_u32 op -> remaining t < 2 ^ 32 -> remaining sid = 16 ->
  denied_ok d -> is_u32 status ->
  V40.decode_lock_response (lock_reply op status t sid d) op name =
  if status =? 0 then Ok sid
  else if status =? V40.DENIED
  then Err (LockDenied (dn_type d) (dn_offset d) (dn_length d) (dn_owner d))
  else match try_from status with Some s => Err (Nfs4 s) | None => Err (Xdr "invalid NFSv4 status") end.
Proof.
  intros Hop Ht Hsid Hd Hst. unfold V40.decode_lock_response.
  destruct (Z.eqb_spec status V40.DENIED) as [->|Hnd]; [by rewrite decode_denied|].
  assert (Hden : V40.decode_lock_denied_result (lock_reply op status t sid d) op name = Ok ()).
  { unfold V40.decode_lock_denied_result, lock_reply. rewrite take_u32_enc by done. cbn [obind].
    apply Z.eqb_neq in Hnd. by rewrite Hnd. }
  rewrite Hden. cbn [obind]. unfold V40.decode_stateid_response, lock_reply.
  destruct (Z.eqb_spec status 0) as [->|H0].
  - rewrite V40.counted_ops_enc by done. cbn [obind]. rewrite V40.expect_op_enc by done. cbn [obind].
    rewrite (app_assoc (xdr_u32 op)). change (xdr_u32 op ++ xdr_u32 0) with (V40.enc_ok op).
    rewrite V40.expect_op_enc by done. cbn [obind]. unfold V40.take_stateid.
    assert (Hs : forall e, V40.take_array 16 e sid = Ok (sid, [])).
    { intros e. pose proof (V40.take_array_enc 16 e sid [] Hsid) as H. by rewrite app_nil_r in H. }
    by rewrite Hs.
  - unfold V40.counted_ops, response_ops. rewrite take_u32_enc by done. cbn [obind]. unfold check_status.
    apply Z.eqb_neq in H0. rewrite H0. by destruct (try_from status).
Qed.

Lemma to_u32_try_from v s : try_from v = Some s -> to_u32 s = v.
Proof.
  intros H. unfold try_from in H.
  repeat (match type of H with context[match ?x with _ => _ end] => destruct x end; try done);
    by injection H as <-.
Qed.

(** The client moves its sequence number on exactly when RFC 7530 has the server
    move its own: on every status but the eight exempt ones. *)
Lemma lock_reply_consumes op name status t sid d : is_u32 op -> remaining t < 2 ^ 32 -> remaining sid = 16 ->
  denied_ok d -> lock_status status ->
  consumes_owner_seqid (V40.decode_lock_response (lock_reply op status t sid d) op name) =
  negb (exempt_status status).
Proof.
  intros Hop Ht Hsid Hd [Hu Hs]. rewrite lock_reply_decoded by done.
  destruct (Z.eqb_spec status 0) as [->|H0]; [done|].
  destruct (Z.eqb_spec status V40.DENIED) as [->|Hd']; [done|].
  destruct Hs as [?|[->|[s Hs]]]; [done|done|]. rewrite Hs. cbn. by rewrite (to_u32_try_from _ _ Hs).
Qed.

(** *** What a server reads

    A reader of the sequenced operations of a request, written from RFC 7530 and
    RFC 5531 for the theorems only. *)
Module Rfc7530.
(** The operation behind the leading PUTFH: its number, and what follows. *)
Definition operation (request : bytes) : result (Z * bytes) :=
  let* (_, request) := split_to 16 request in
  let* (_, request) := take_u32 request "credential flavor" in
  let* (_, request) := take_opaque request "credential" in
  let* (_, request) := take_u32 request "verifier flavor" in
  let* (_, request) := take_opaque request "verifier" in
  let* (_, request) := take_opaque request "tag" in
  let* (_, request) := take_u32 request "minor version" in
  let* (_, request) := take_u32 request "operations" in
  let* (op, request) := take_u32 request "operation" in
  if negb (op =? OP_PUTFH) then Err (Xdr "PUTFH expected")
  else let* (_, request) := take_opaque request "file handle" in take_u32 request "operation".
Definition operation_args (op : Z) (request : bytes) : result bytes :=
  let* (op', args) := operation request in if op' =? op then Ok args else Err (Xdr "another operation").

(** OPEN: the number of the open owner. *)
Definition open_seqid (request : bytes) : result Z :=
  let* args := operation_args V40.OP_OPEN request in let* (n, _) := take_u32 args "seqid" in Ok n.
(** OPEN_CONFIRM: the state id and the number of its owner. *)
Definition confirm_seqid (request : bytes) : result (bytes * Z) :=
  let* args := operation_args V40.OP_OPEN_CONFIRM request in
  let* (sid, args) := split_to 16 args in let* (n, _) := take_u32 args "seqid" in Ok (sid, n).
(** LOCK by a new lock owner: type, reclaim, offset, length and the discriminant;
    then the open owner's number and state id and the lock owner's number. *)
Definition lock_seqids (request : bytes) : result (Z * bytes * Z) :=
  let* args := operation_args V40.OP_LOCK request in
  let* (_, args) := split_to 28 args in
  let* (n, args) := take_u32 args "open_seqid" in
  let* (sid, args) := split_to 16 args in
  let* (k, _) := take_u32 args "lock_seqid" in Ok (n, sid, k).
(** LOCKU: the number of the lock owner and its state id. *)
Definition locku_seqid (request : bytes) : result (Z * bytes) :=
  let* args := operation_args V40.OP_LOCKU request in
  let* (_, args) := split_to 4 args in
  let* (n, args) := take_u32 args "seqid" in
  let* (sid, _) := split_to 16 args in Ok (n, sid).

Lemma auth_enc a rest : Auth_encode a ++ rest = xdr_u32 (flavor_u32 (flavor a)) ++ xdr_opaque (body a) ++ rest.
Proof. unfold Auth_encode, xdr_opaque, xdr_u32. by rewrite <- !app_assoc. Qed.
Lemma header_enc h rest : Header_encode h ++ rest =
  (be_bytes 4 (rpcvers h) ++ be_bytes 4 (prog h) ++ be_bytes 4 (vers h) ++ be_bytes 4 (proc h)) ++
  xdr_u32 (flavor_u32 (flavor (cred h))) ++ xdr_opaque (body (cred h)) ++
  xdr_u32 (flavor_u32 (flavor (verf h))) ++ xdr_opaque (body (verf h)) ++ rest.
Proof. unfold Header_encode. by rewrite <- !app_assoc, !auth_enc. Qed.
Lemma flavor_word f : is_u32 (flavor_u32 f).
Proof. by destruct f. Qed.

Lemma operation_read b auth fh op args more :
  Builder40.ops b = (OP_PUTFH, xdr_opaque fh) :: (op, args) :: more -> is_u32 op -> is_u32 (Builder40.minor_version b) ->
  is_u32 (Z.of_nat (length (Builder40.ops b))) ->
  remaining (Builder40.tag b) < 2 ^ 32 -> remaining (body auth) < 2 ^ 32 -> remaining fh < 2 ^ 32 ->
  operation_args op (encode_with_header40 b auth) = Ok (args ++ concat (map (fun '(opcode, args) => xdr_u32 opcode ++ args) more)).
Proof.
  intros Ho Hop Hm Hl Ht Hb Hf. unfold operation_args, operation, encode_with_header40, Builder40.encode_body.
  rewrite header_enc. cbn [rpc_header rpcvers prog vers proc cred verf].
  rewrite split_to_app by done. cbn [obind]. rewrite Ho in *. cbn [map concat length] in *. rewrite <- !app_assoc.
  repeat (first [rewrite take_u32_enc by (apply flavor_word || done) | rewrite take_opaque_enc by done]; cbn [obind]).
  cbn [negb OP_PUTFH Z.eqb Pos.eqb obind]. by rewrite Z.eqb_refl.
Qed.

Section Requests.
Context (m : Mount40) (auth_ok : remaining (body (m_auth m)) < 2 ^ 32).

Lemma open_request_read owner dir_fh name access create guarded mode : remaining dir_fh < 2 ^ 32 ->
  open_seqid (open_request m owner dir_fh name access create guarded mode) = Ok 0.
Proof using auth_ok.
  intros Hf. unfold open_seqid, open_request. cbv zeta.
  assert (H : forall b, Builder40.ops b = [(OP_PUTFH, xdr_opaque dir_fh)] -> remaining (Builder40.tag b) < 2 ^ 32 ->
    Builder40.minor_version b = 0 -> forall guarded mode,
    (let* args := operation_args V40.OP_OPEN (encode_with_header40 (Builder40.getfh (V40.open_with_create_attributes b
      {| V40.oa_seqid := 0; V40.oa_share_access := access; V40.oa_client_id := m_client_id m;
         V40.oa_owner := open_owner_wire m owner; V40.oa_filename := name; V40.oa_create := create |} guarded mode)) (m_auth m)) in
    let* (n, _) := take_u32 args "seqid" in Ok n) = Ok 0).
  { intros b Hb Ht Hm gd md. unfold V40.open_with_create_attributes. destruct (encode_setattr _ _ _ _ _ _) as [mask values].
    erewrite (operation_read _ _ dir_fh V40.OP_OPEN); [| |done|by cbn; rewrite Hm|by cbn; rewrite Hb|done|done|done].
    2: { unfold Builder40.getfh, Builder40.operation. cbn [Builder40.ops]. rewrite Hb. reflexivity. }
    cbn [obind]. rewrite <- !app_assoc, take_u32_enc by done. done. }
  destruct guarded; (apply H; [done|by destruct create|done]).
Qed.

Lemma confirm_request_read fh sid n : remaining fh < 2 ^ 32 -> remaining sid = 16 -> is_u32 n ->
  confirm_seqid (confirm_request m fh sid n) = Ok (sid, n).
Proof using auth_ok.
  intros Hf Hs Hn. unfold confirm_seqid, confirm_request. erewrite operation_read; [|done..]. cbn [obind].
  rewrite <- !app_assoc, split_to_app by done. cbn [obind]. by rewrite take_u32_enc.
Qed.

Lemma lock_request_read open owner fh ty off len : remaining fh < 2 ^ 32 -> is_u32 (ol_next_seqid open) ->
  remaining (ol_stateid open) = 16 ->
  lock_seqids (lock_request m open owner fh ty off len) = Ok (ol_next_seqid open, ol_stateid open, 0).
Proof using auth_ok.
  intros Hf Hn Hs. unfold lock_seqids, lock_request, V40.lock_new. erewrite operation_read; [|done..]. cbn [obind].
  rewrite <- !app_assoc. set (tail := xdr_u32 (V40.nl_open_seqid _) ++ _).
  cbn [V40.nl_lock_type V40.nl_reclaim V40.nl_offset V40.nl_length].
  replace (xdr_u32 ty ++ xdr_bool false ++ xdr_u64 off ++ xdr_u64 len ++ xdr_u32 1 ++ tail) with
    ((xdr_u32 ty ++ xdr_bool false ++ xdr_u64 off ++ xdr_u64 len ++ xdr_u32 1) ++ tail) by (by rewrite <- !app_assoc).
  rewrite split_to_app by done. cbn [obind]. unfold tail. cbn [V40.nl_open_seqid V40.nl_open_stateid V40.nl_lock_seqid].
  rewrite take_u32_enc by done. cbn [obind]. rewrite split_to_app by done. cbn [obind]. by rewrite take_u32_enc.
Qed.

Lemma locku_request_read lane : remaining (ll_fh lane) < 2 ^ 32 -> is_u32 (ll_next_seqid lane) -> remaining (ll_stateid lane) = 16 ->
  locku_seqid (locku_request m lane) = Ok (ll_next_seqid lane, ll_stateid lane).
Proof using auth_ok.
  intros Hf Hn Hs. unfold locku_seqid, locku_request, V40.locku. erewrite operation_read; [|done..]. cbn [obind].
  rewrite <- !app_assoc, split_to_app by done. cbn [obind]. rewrite take_u32_enc by done. cbn [obind]. by rewrite split_to_app.
Qed.
End Requests.
End Rfc7530.

(** *** Client and server agree on every owner's sequence number *)

(** The sequence number a server expects next of each owner. *)
Abbreviation server := (gmap Z Z).

(** An operation of [owner] with number [seqid] that ends with [status]: a number
    that is not the expected one moves nothing. *)
Definition sequenced (srv : server) (owner seqid status : Z) (srv' : server) : Prop :=
  if decide (srv !! owner = Some seqid)
  then srv' = if exempt_status status then srv else <[owner := wrap32 (seqid + 1)]> srv
  else srv' = srv.

(** What the OPEN and the OPEN_CONFIRM that a server granted did to it: the number
    of a new owner is the one after that of its OPEN. *)
Definition open_served (rpc : bytes -> result bytes) (m : Mount40) (owner : Z) (request : bytes)
    (srv : server) : server :=
  match rpc request with
  | Ok response =>
      match V40.decode_open_response response with
      | Ok (opened, fh) =>
          let srv := match Rfc7530.open_seqid request with Ok n => <[owner := wrap32 (n + 1)]> srv | _ => srv end in
          if V40.confirm_required opened
          then let confirm := confirm_request m fh (V40.or_stateid opened) 1 in
               match rpc confirm with
               | Ok response =>
                   match V40.decode_stateid_response response 20 "OPEN_CONFIRM", Rfc7530.confirm_seqid confirm with
                   | Ok _, Ok (_, n) => if decide (srv !! owner = Some n) then <[owner := wrap32 (n + 1)]> srv else srv
                   | _, _ => srv
                   end
               | _ => srv
               end
          else srv
      | _ => srv
      end
  | _ => srv
  end.

(** The sizes that the encoding of a request can carry. *)
Definition fits (m : Mount40) (fh : bytes) : Prop := remaining (body (m_auth m)) < 2 ^ 32 /\ remaining fh < 2 ^ 32.

(** Operations of the mount with a server whose replies arrive: OPEN with a new
    owner, LOCK, LOCKU, CLOSE, and any operation that is refused before it is
    sent. The server takes the numbers from the bytes of the request. The replies
    to LOCK and LOCKU report the status of that operation, that is, their PUTFH
    succeeded. A CLOSE may fail, and then nothing is known of its owner's number.
    The numbers and state ids of the lanes have their widths. *)
Inductive seq_step : Mount40 * server -> Mount40 * server -> Prop :=
| sq_open rpc m srv g l1 l2 now callbacks dir_fh name access create guarded mode res m' :
    open_file_with_create rpc m (Ok g) l1 l2 now callbacks dir_fh name access create guarded mode = (res, m') ->
    m_next_owner m + 1 < 2 ^ 64 -> access = 1 \/ access = 2 \/ access = 3 -> fits m dir_fh ->
    seq_step (m, srv) (m', open_served rpc (set_next_owner m (wrap64 (m_next_owner m + 1))) (m_next_owner m)
      (open_request (set_next_owner m (wrap64 (m_next_owner m + 1))) (m_next_owner m) dir_fh name access
         create guarded mode) srv)
| sq_lock rpc m srv srv1 g l1 l2 now r lane fh ty off len res m' status t sid d n sid0 k request :
    acquire_lock rpc m (Ok g) l1 l2 now r fh ty off len = (res, m') ->
    request = lock_request (set_next_owner m (wrap64 (m_next_owner m + 1))) lane (m_next_owner m) fh ty off len ->
    m_open_heap m !! r = Some lane -> m_next_owner m + 1 < 2 ^ 64 -> fits m fh ->
    is_u32 (ol_next_seqid lane) -> remaining (ol_stateid lane) = 16 ->
    rpc request = Ok (lock_reply 12 status t sid d) ->
    remaining t < 2 ^ 32 -> remaining sid = 16 -> denied_ok d -> lock_status status ->
    Rfc7530.lock_seqids request = Ok (n, sid0, k) -> sequenced srv (ol_owner lane) n status srv1 ->
    seq_step (m, srv) (m', if status =? 0 then <[m_next_owner m := wrap32 (k + 1)]> srv1 else srv1)
| sq_locku rpc m srv srv' g l1 now r lane fh sid0 ty off len res m' status t sid d n sid1 :
    locku rpc m (Ok g) l1 now fh sid0 ty off len = (res, m') ->
    LockState.by_stateid (m_locks m) sid0 = Some r -> m_lock_heap m !! r = Some lane ->
    remaining sid0 = 16 -> ll_fh lane = fh -> ll_lock_type lane = ty -> ll_offset lane = off ->
    ll_length lane = len -> fits m fh -> is_u32 (ll_next_seqid lane) -> remaining (ll_stateid lane) = 16 ->
    rpc (locku_request m lane) = Ok (lock_reply 14 status t sid d) ->
    remaining t < 2 ^ 32 -> remaining sid = 16 -> denied_ok d -> lock_status status ->
    Rfc7530.locku_seqid (locku_request m lane) = Ok (n, sid1) -> sequenced srv (ll_owner lane) n status srv' ->
    seq_step (m, srv) (m', srv')
| sq_close rpc m srv g l1 now r lane res m' v :
    close_lane rpc m (Ok g) l1 now r = (res, m') -> m_open_heap m !! r = Some lane -> ol_closing lane = false ->
    seq_step (m, srv) (m', <[ol_owner lane := v]> srv)
| sq_refused m srv : seq_step (m, srv) (m, srv).

(** A lane by its kind and reference: owner, next number, not closing. *)
Definition lane_at (m : Mount40) (x : bool * ref) : option (Z * Z * bool) :=
  if x.1 then (fun l => (ol_owner l, ol_next_seqid l, negb (ol_closing l))) <$> m_open_heap m !! x.2
  else (fun l => (ll_owner l, ll_next_seqid l, true)) <$> m_lock_heap m !! x.2.

Record agree (c : Mount40 * server) : Prop := {
  ag_seqid : forall x o n, lane_at c.1 x = Some (o, n, true) -> c.2 !! o = Some n;
  ag_inj : forall x y o n n' l l', lane_at c.1 x = Some (o, n, l) -> lane_at c.1 y = Some (o, n', l') -> x = y;
  ag_fresh : forall x o n l, lane_at c.1 x = Some (o, n, l) -> o < m_next_owner c.1 /\ x.2 < m_next_ref c.1;
  ag_next : 0 <= m_next_owner c.1;
}.

(** One lane changes, and only its owner's number at the server. *)
Lemma agree_update m srv m' srv' x o n l n' l' : agree (m, srv) -> lane_at m x = Some (o, n, l) ->
  (forall y, lane_at m' y = if decide (y = x) then Some (o, n', l') else lane_at m y) ->
  m_next_owner m <= m_next_owner m' -> m_next_ref m <= m_next_ref m' ->
  (forall o', o' <> o -> srv' !! o' = srv !! o') -> (l' = true -> srv' !! o = Some n') -> agree (m', srv').
Proof.
  intros [A1 A2 A3 A4] Hx Hm Ho Hr Hsrv Hn. cbn [fst snd] in *.
  assert (Hold : forall y o1 n1 l1, lane_at m' y = Some (o1, n1, l1) -> exists n0 l0, lane_at m y = Some (o1, n0, l0)).
  { intros y o1 n1 l1. rewrite Hm. case_decide as E; [intros [= <- <- <-]; subst; eauto|eauto]. }
  constructor; cbn [fst snd].
  - intros y o1 n1 Hy. rewrite Hm in Hy. case_decide as E; [simplify_eq; by apply Hn|].
    rewrite Hsrv; [by eapply A1|]. intros ->. apply E. by eapply A2.
  - intros y z o1 n1 n2 l1 l2 Hy Hz. apply Hold in Hy as (? & ? & Hy). apply Hold in Hz as (? & ? & Hz). by eapply A2.
  - intros y o1 n1 l1 Hy. apply Hold in Hy as (? & ? & Hy). apply A3 in Hy. lia.  - lia.
Qed.

(** A lane of a new owner appears. *)
Lemma agree_new m srv m' srv' k o n' : agree (m, srv) -> (forall x o1 n l, lane_at m x = Some (o1, n, l) -> o1 <> o) ->
  (forall y, lane_at m' y = if decide (y = (k, m_next_ref m)) then Some (o, n', true) else lane_at m y) ->
  o < m_next_owner m' -> m_next_owner m <= m_next_owner m' -> m_next_ref m < m_next_ref m' ->
  (forall o', o' <> o -> srv' !! o' = srv !! o') -> srv' !! o = Some n' -> agree (m', srv').
Proof.
  intros [A1 A2 A3 A4] Hx Hm Ho Hle Hr Hsrv Hn. cbn [fst snd] in *. constructor; cbn [fst snd].
  - intros y o1 n1 Hy. rewrite Hm in Hy. case_decide as E; [by simplify_eq|].
    rewrite Hsrv; [by eapply A1|]. by eapply Hx.
  - intros y z o1 n1 n2 l1 l2 Hy Hz. rewrite Hm in Hy, Hz.
    case_decide as E1; case_decide as E2; simplify_eq;
      [done|first [by apply Hx in Hz|by apply Hx in Hy]..|].
    by eapply A2.
  - intros y o1 n1 l1 Hy. rewrite Hm in Hy. case_decide as E; [simplify_eq; cbn; lia|].
    apply A3 in Hy. lia.
  - lia.
Qed.

(** Nothing happens to the lanes. *)
Lemma agree_same m srv m' srv' : agree (m, srv) -> (forall y, lane_at m' y = lane_at m y) ->
  m_next_owner m <= m_next_owner m' -> m_next_ref m <= m_next_ref m' ->
  (forall x o n l, lane_at m x = Some (o, n, l) -> srv' !! o = srv !! o) -> agree (m', srv').
Proof.
  intros [A1 A2 A3 A4] Hm Ho Hr Hsrv. cbn [fst snd] in *. constructor; cbn [fst snd].
  - intros y o1 n1. rewrite Hm. intros Hy. erewrite Hsrv by done. by eapply A1.
  - intros y z o1 n1 n2 l1 l2. rewrite !Hm. apply A2.
  - intros y o1 n1 l1. rewrite Hm. intros Hy. apply A3 in Hy. lia.
  - lia.
Qed.

Lemma lane_at_open m r l y : lane_at (set_open m r l) y =
  if decide (y = (true, r)) then Some (ol_owner l, ol_next_seqid l, negb (ol_closing l)) else lane_at m y.
Proof.
  destruct y as [k r']. unfold lane_at. cbn. destruct k; [|by case_decide].
  destruct (decide (r' = r)) as [->|Hr].
  - rewrite lookup_insert_eq, decide_True by done. done.
  - rewrite lookup_insert_ne, decide_False by congruence. done.
Qed.
Lemma lane_at_lock m r l y : lane_at (set_lock m r l) y =
  if decide (y = (false, r)) then Some (ll_owner l, ll_next_seqid l, true) else lane_at m y.
Proof.
  destruct y as [k r']. unfold lane_at. cbn. destruct k; [by case_decide|].
  destruct (decide (r' = r)) as [->|Hr].
  - rewrite lookup_insert_eq, decide_True by done. done.
  - rewrite lookup_insert_ne, decide_False by congruence. done.
Qed.

(** What the server's number does to agreement on one lane. *)
Lemma sequenced_agree srv o n status srv' (l : bool) : sequenced srv o n status srv' ->
  (l = true -> srv !! o = Some n) ->
  (forall o', o' <> o -> srv' !! o' = srv !! o') /\
  (l = true -> srv' !! o = Some (if negb (exempt_status status) then wrap32 (n + 1) else n)).
Proof.
  unfold sequenced. intros H Hl. split.
  - intros o' Ho. case_decide; [|by subst]. destruct (exempt_status status); subst; [done|].
    by rewrite lookup_insert_ne.
  - intros ->. rewrite decide_True in H by auto. destruct (exempt_status status); subst; cbn; [auto|].
    by rewrite lookup_insert_eq.
Qed.

(** LOCK, up to the registration of the lock it granted. *)
Lemma acquire_lock_effect m srv srv1 r lane status : agree (m, srv) ->
  m_open_heap m !! r = Some lane -> m_next_owner m + 1 < 2 ^ 64 ->
  sequenced srv (ol_owner lane) (ol_next_seqid lane) status srv1 ->
  let m0 := set_next_owner m (wrap64 (m_next_owner m + 1)) in
  let m1 := if negb (exempt_status status)
            then set_open m0 r (with_seqid lane (wrap32 (ol_next_seqid lane + 1))) else m0 in
  agree (m1, srv1) /\ m_next_owner m1 = m_next_owner m + 1 /\
  (forall x o n l, lane_at m1 x = Some (o, n, l) -> o < m_next_owner m).
Proof.
  intros HA Hr Hlt Hs m0 m1. pose proof HA as [A1 A2 A3 A4]. cbn [fst snd] in *.
  assert (Hx : lane_at m (true, r) = Some (ol_owner lane, ol_next_seqid lane, negb (ol_closing lane))).
  { unfold lane_at. cbn. by rewrite Hr. }
  assert (Hw : wrap64 (m_next_owner m + 1) = m_next_owner m + 1) by (unfold wrap64; rewrite Z.mod_small; lia).
  assert (Hm1 : forall y, lane_at m1 y = if decide (y = (true, r))
      then Some (ol_owner lane, if negb (exempt_status status) then wrap32 (ol_next_seqid lane + 1)
                                else ol_next_seqid lane, negb (ol_closing lane)) else lane_at m y).
  { intros y. unfold m1. destruct (negb _); [by rewrite lane_at_open|]. case_decide; [by subst|done]. }
  assert (Hno : m_next_owner m1 = m_next_owner m + 1) by (unfold m1; by destruct (negb _)).
  assert (Hnr : m_next_ref m1 = m_next_ref m) by (unfold m1; by destruct (negb _)).
  destruct (sequenced_agree _ _ _ _ _ (negb (ol_closing lane)) Hs) as [S1 S2].
  { intros E. rewrite E in Hx. by eapply A1. }
  split_and!; [|done|].
  - eapply agree_update; [exact HA|exact Hx|exact Hm1|lia|lia|exact S1|exact S2].
  - intros x o n l. rewrite Hm1. case_decide as E; [intros; simplify_eq; by apply A3 in Hx as [? _]|].
    intros H. by apply A3 in H as [? _].
Qed.

Lemma seq_lock_agree rpc m srv srv1 g l1 l2 now r lane fh ty off len res m' status t sid d n sid0 k request :
  agree (m, srv) -> acquire_lock rpc m (Ok g) l1 l2 now r fh ty off len = (res, m') ->
  request = lock_request (set_next_owner m (wrap64 (m_next_owner m + 1))) lane (m_next_owner m) fh ty off len ->
  m_open_heap m !! r = Some lane -> m_next_owner m + 1 < 2 ^ 64 -> fits m fh ->
  is_u32 (ol_next_seqid lane) -> remaining (ol_stateid lane) = 16 ->
  rpc request = Ok (lock_reply 12 status t sid d) ->
  remaining t < 2 ^ 32 -> remaining sid = 16 -> denied_ok d -> lock_status status ->
  Rfc7530.lock_seqids request = Ok (n, sid0, k) -> sequenced srv (ol_owner lane) n status srv1 ->
  agree (m', if status =? 0 then <[m_next_owner m := wrap32 (k + 1)]> srv1 else srv1).
Proof.
  intros HA H Hreq Hr Hlt [Hfa Hff] Hnu Hns Hrpc Ht Hsid Hd Hst Hrd Hs.
  rewrite Hreq, Rfc7530.lock_request_read in Hrd by done. injection Hrd as <- <- <-. change (wrap32 (0 + 1)) with 1.
  unfold acquire_lock in H. cbn [m_open_heap set_next_owner] in H.
  rewrite Hr, <- Hreq, Hrpc in H. rewrite lock_reply_consumes in H by done.
  destruct (acquire_lock_effect m srv srv1 r lane status HA Hr Hlt Hs) as (H1 & Hno & Hf).
  cbv zeta in H1, Hno, Hf.
  set (m1 := if negb (exempt_status status) then _ else _) in *. clearbody m1.
  rewrite lock_reply_decoded in H by (done || apply Hst).
  assert (Hsame : forall m2, (forall y, lane_at m2 y = lane_at m1 y) -> m_next_owner m1 <= m_next_owner m2 ->
    m_next_ref m1 <= m_next_ref m2 -> agree (m2, if status =? 0 then <[m_next_owner m := 1]> srv1 else srv1)).
  { intros m2 Hl Ho Href. eapply agree_same; [exact H1|exact Hl|lia|lia|]. intros x o n l Hx.
    apply Hf in Hx. destruct (status =? 0); [|done]. rewrite lookup_insert_ne by lia. done. }
  destruct (status =? 0) eqn:E0; [|repeat case_match; simplify_eq; by apply Hsame].
  destruct ((finish_stateful l1 g "lock" now).1); simplify_eq; [|by apply Hsame..].
  assert (Hnew : forall m2 w, (forall y, lane_at m2 y = lane_at (register_lock m1
      {| ll_owner := m_next_owner m; ll_open_owner := ol_owner lane;
         ll_owner_wire := w; ll_next_seqid := 1; ll_stateid := sid; ll_fh := fh; ll_lock_type := ty;
         ll_offset := off; ll_length := len |}) y) -> m_next_owner m2 = m_next_owner m1 -> m_next_ref m2 = m_next_ref m1 + 1 ->
    agree (m2, <[m_next_owner m := 1]> srv1)).
  { intros m2 w Hl Ho Href. eapply (agree_new m1 srv1 m2 _ false (m_next_owner m) 1); [exact H1| | |lia|lia|lia| |].
    - intros x o n0 l Hx. apply Hf in Hx. lia.
    - intros y. rewrite Hl. change (lane_at (register_lock m1 ?l) y) with (lane_at (set_lock m1 (m_next_ref m1) l) y).
      by rewrite lane_at_lock.
    - intros o' Ho'. by rewrite lookup_insert_ne.
    - apply lookup_insert_eq. }
  destruct (validate_stateful l2 g "lock"); simplify_eq;
    apply (Hnew _ (lock_owner_wire m1 (m_next_owner m))); done.
Qed.

Lemma seq_locku_agree rpc m srv srv' g l1 now r lane fh sid0 ty off len res m' status t sid d n sid1 :
  agree (m, srv) -> locku rpc m (Ok g) l1 now fh sid0 ty off len = (res, m') ->
  LockState.by_stateid (m_locks m) sid0 = Some r -> m_lock_heap m !! r = Some lane ->
  remaining sid0 = 16 -> ll_fh lane = fh -> ll_lock_type lane = ty -> ll_offset lane = off ->
  ll_length lane = len -> fits m fh -> is_u32 (ll_next_seqid lane) -> remaining (ll_stateid lane) = 16 ->
  rpc (locku_request m lane) = Ok (lock_reply 14 status t sid d) ->
  remaining t < 2 ^ 32 -> remaining sid = 16 -> denied_ok d -> lock_status status ->
  Rfc7530.locku_seqid (locku_request m lane) = Ok (n, sid1) -> sequenced srv (ll_owner lane) n status srv' -> agree (m', srv').
Proof.
  intros HA H Hby Hr H16 Hfh Hty Hoff Hlen [Hfa Hff] Hnu Hns Hrpc Ht Hsid Hd Hst Hrd Hs.
  rewrite Rfc7530.locku_request_read in Hrd by (done || congruence). injection Hrd as <- <-.
  unfold locku in H. cbv zeta in H.
  rewrite H16, Hby, Hr in H. cbn [Z.eqb Pos.eqb negb] in H.
  rewrite bool_decide_eq_true_2 in H by done. subst. rewrite !Z.eqb_refl in H. cbn [negb orb] in H.
  rewrite Hrpc in H. rewrite lock_reply_consumes in H by done. rewrite lock_reply_decoded in H by (done || apply Hst).
  assert (Hx : lane_at m (false, r) = Some (ll_owner lane, ll_next_seqid lane, true)).
  { unfold lane_at. cbn. by rewrite Hr. }
  pose proof HA as [A1 _ _ _]. cbn [fst snd] in A1.
  destruct (sequenced_agree _ _ _ _ _ true Hs) as [S1 S2]; [intros _; by eapply A1|].
  assert (Hnew : forall m2 sid2, (forall y, lane_at m2 y = lane_at (set_lock m r (lock_with lane
      (if negb (exempt_status status) then wrap32 (ll_next_seqid lane + 1) else ll_next_seqid lane) sid2)) y) ->
    m_next_owner m2 = m_next_owner m -> m_next_ref m2 = m_next_ref m -> agree (m2, srv')).
  { intros m2 sid2 Hl Ho Href.
    eapply (agree_update _ _ _ _ _ _ _ _ _ true); [exact HA|exact Hx| |lia|lia|exact S1|exact S2].
    intros y. by rewrite Hl, lane_at_lock. }
  repeat case_match; simplify_eq; eapply Hnew; done.
Qed.

Lemma seq_close_agree rpc m srv g l1 now r lane res m' v : agree (m, srv) ->
  close_lane rpc m (Ok g) l1 now r = (res, m') -> m_open_heap m !! r = Some lane -> ol_closing lane = false ->
  agree (m', <[ol_owner lane := v]> srv).
Proof.
  intros HA H Hr Hc. unfold close_lane in H. cbv zeta in H. rewrite Hr, Hc in H.
  assert (Hx : lane_at m (true, r) = Some (ol_owner lane, ol_next_seqid lane, negb (ol_closing lane))).
  { unfold lane_at. cbn. by rewrite Hr. }
  assert (Hnew : forall m2 l2, (forall y, lane_at m2 y = lane_at (set_open m r l2) y) -> ol_owner l2 = ol_owner lane ->
    ol_closing l2 = true -> m_next_owner m2 = m_next_owner m -> m_next_ref m2 = m_next_ref m ->
    agree (m2, <[ol_owner lane := v]> srv)).
  { intros m2 l2 Hl Howner Hcl Ho Href. eapply (agree_update _ _ _ _ _ _ _ _ (ol_next_seqid l2) false);
      [exact HA|exact Hx| |lia|lia| |done].
    - intros y. rewrite Hl, lane_at_open, Howner, Hcl. done.
    - intros o' Ho'. by rewrite lookup_insert_ne. }
  assert (Htwice : forall m0 l1 l2 y, lane_at (set_open (set_open m0 r l1) r l2) y = lane_at (set_open m0 r l2) y).
  { intros m0 a b y. rewrite !lane_at_open. by case_decide. }
  destruct (rpc _) as [resp|e|]; [|simplify_eq; by eapply Hnew|simplify_eq; by eapply Hnew].
  destruct (V40.decode_stateid_response resp 4 "CLOSE"); simplify_eq; [|by eapply Hnew|by eapply Hnew].
  eapply Hnew; [intros y; etrans; [|apply Htwice]; reflexivity|done..].
Qed.


Lemma lane_at_register_open m l y : lane_at (register_open m l) y =
  if decide (y = (true, m_next_ref m)) then Some (ol_owner l, ol_next_seqid l, negb (ol_closing l))
  else lane_at m y.
Proof. apply lane_at_open. Qed.

Lemma open_reply_sizes buf opened fh : V40.decode_open_response buf = Ok (opened, fh) ->
  remaining (V40.or_stateid opened) = 16 /\ remaining fh < 2 ^ 32.
Proof.
  unfold V40.decode_open_response. intros (b1 & _ & (b2 & _ & (b3 & _ & ([sid b4] & Hs & E)%obind_ok_inv)%obind_ok_inv)%obind_ok_inv)%obind_ok_inv.
  apply obind_ok_inv in E as (u & _ & (b5 & _ & ([flags b6] & _ & (b7 & _ & E)%obind_ok_inv)%obind_ok_inv)%obind_ok_inv).
  apply obind_ok_inv in E as ([deleg b8] & _ & (b9 & _ & ([fh' b10] & Hf & [= <- <-])%obind_ok_inv)%obind_ok_inv).
  pose proof (V40.wpo_take_stateid b3 "OPEN") as Hw. rewrite Hs in Hw.
  pose proof (wpo_take_opaque b9 "GETFH filehandle") as Hw'. rewrite Hf in Hw'. cbn in *. split; [apply Hw|apply Hw'].
Qed.

Lemma settle_open_lanes rpc m g l1 l2 now callbacks owner n opened fh res m' :
  settle_open rpc m g l1 l2 now callbacks owner n opened fh = (res, m') ->
  (forall y, lane_at m' y = lane_at m y) /\ m_next_owner m' = m_next_owner m /\ m_next_ref m' = m_next_ref m.
Proof.
  unfold settle_open. cbv zeta. destruct (obind _ _); [|by intros [= _ <-]..].
  destruct (validate_stateful l2 g "open"); by intros [= _ <-].
Qed.

Lemma seq_open_agree rpc m srv g l1 l2 now callbacks dir_fh name access create guarded mode res m' :
  agree (m, srv) ->
  open_file_with_create rpc m (Ok g) l1 l2 now callbacks dir_fh name access create guarded mode = (res, m') ->
  m_next_owner m + 1 < 2 ^ 64 -> access = 1 \/ access = 2 \/ access = 3 -> fits m dir_fh ->
  agree (m', open_served rpc (set_next_owner m (wrap64 (m_next_owner m + 1))) (m_next_owner m)
      (open_request (set_next_owner m (wrap64 (m_next_owner m + 1))) (m_next_owner m) dir_fh name access
         create guarded mode) srv).
Proof.
  intros HA H Hlt Hacc [Hfa Hff]. unfold open_file_with_create in H. cbv zeta in H.
  replace (negb ((access =? 1) || (access =? 2) || (access =? 3))) with false in H
    by (destruct Hacc as [->|[->| ->]]; done).
  set (o := m_next_owner m) in *. set (m0 := set_next_owner m (wrap64 (o + 1))) in *.
  pose proof HA as [_ _ A3 A4]. cbn [fst snd] in A3, A4.
  assert (Hw : m_next_owner m0 = o + 1) by (cbn; unfold wrap64; rewrite Z.mod_small; lia).
  assert (H0 : forall s, (forall o', o' <> o -> s !! o' = srv !! o') -> agree (m0, s)).
  { intros s Hs. eapply agree_same; [exact HA|done|lia|done|]. intros x o1 n l Hx. apply A3 in Hx. apply Hs. lia. }
  assert (Hf : forall x o1 n l, lane_at m0 x = Some (o1, n, l) -> o1 <> o).
  { intros x o1 n l Hx. change (lane_at m0 x) with (lane_at m x) in Hx. apply A3 in Hx. lia. }
  assert (Hnew : forall m2 s sid fh n, (forall y, lane_at m2 y = lane_at (register_open m0
      {| ol_owner := o; ol_next_seqid := n; ol_stateid := sid; ol_fh := fh; ol_access := access;
         ol_write_verifier := None; ol_closing := false |}) y) ->
    m_next_owner m2 = m_next_owner m0 -> m_next_ref m2 = m_next_ref m0 + 1 ->
    (forall o', o' <> o -> s !! o' = srv !! o') -> s !! o = Some n -> agree (m2, s)).
  { intros m2 s sid fh n Hl Ho Href Hs Hn. eapply (agree_new m0 s m2 s true o n); try done; try lia; [by apply H0|].
    intros y. rewrite Hl, lane_at_register_open. done. }
  unfold open_served. rewrite Rfc7530.open_request_read by done. change (wrap32 (0 + 1)) with 1.
  destruct (rpc (open_request m0 o dir_fh name access create guarded mode)) as [resp|e|];
    [|simplify_eq; by apply H0..].
  destruct (V40.decode_open_response resp) as [[opened fh]|e|] eqn:Eo; [|simplify_eq; by apply H0..].
  apply open_reply_sizes in Eo as [Hsz Hfz]. cbv zeta. rewrite Rfc7530.confirm_request_read by done.
  assert (Hins : forall k s, s = <[o := k]> srv \/ s = <[o := k]> (<[o := 1]> srv) ->
    (forall o', o' <> o -> s !! o' = srv !! o') /\ s !! o = Some k).
  { intros k s [->| ->]; (split; [intros o' Ho'; by rewrite !lookup_insert_ne|apply lookup_insert_eq]). }
  assert (Hset : forall sid n s, (forall o', o' <> o -> s !! o' = srv !! o') -> s !! o = Some n ->
    settle_open rpc (register_open m0 {| ol_owner := o; ol_next_seqid := n; ol_stateid := sid; ol_fh := fh;
      ol_access := access; ol_write_verifier := None; ol_closing := false |}) g l1 l2 now callbacks o n opened fh
      = (res, m') -> agree (m', s)).
  { intros sid n s Hs1 Hs2 Hs. apply settle_open_lanes in Hs as (Hl & Ho & Href). by eapply Hnew. }
  unfold confirm_open in H. destruct (V40.confirm_required opened).
  - destruct (rpc (confirm_request m0 fh (V40.or_stateid opened) 1)) as [r2|e|]; cbn [map_err obind] in H;
      [|simplify_eq; apply H0, (Hins 1); by left..].
    destruct (V40.decode_stateid_response r2 20 "OPEN_CONFIRM") as [sid|e|]; cbn [map_err obind] in H;
      [|simplify_eq; apply H0, (Hins 1); by left..].
    rewrite decide_True by apply lookup_insert_eq. change (wrap32 (1 + 1)) with 2.
    destruct (Hins 2 (<[o := 2]> (<[o := 1]> srv))) as [K1 K2]; [by right|]. by eapply Hset.
  - destruct (Hins 1 (<[o := 1]> srv)) as [K1 K2]; [by left|]. by eapply Hset.
Qed.

Definition mount40_new (auth : Auth) (client_id issuer : Z) : Mount40 :=
  {| m_auth := auth; m_client_id := client_id; m_issuer := issuer; m_next_owner := 1;
     m_state := OpenState.default_state; m_locks := LockState.default_state;
     m_open_heap := ∅; m_lock_heap := ∅; m_next_ref := 0 |}.

Lemma agree_init auth cid issuer : agree (mount40_new auth cid issuer, ∅).
Proof. constructor; cbn; try lia; intros [[] r]; cbn; by rewrite ?lookup_empty. Qed.

Lemma seq_step_agree c c' : seq_step c c' -> agree c -> agree c'.
Proof.
  intros Hs HA. destruct Hs; [by eapply seq_open_agree|by eapply seq_lock_agree|by eapply seq_locku_agree
    |by eapply seq_close_agree|done].
Qed.


(** An OPEN that has to be confirmed. *)
Definition demo_rpc (request : bytes) : result bytes :=
  if bool_decide (length request = 92%nat)
  then Ok (xdr_u32 0 ++ xdr_opaque [] ++ xdr_u32 2 ++ V40.enc_ok OP_PUTFH ++ V40.enc_ok 20 ++ zeros 16)
  else Ok (V40.enc_open_reply [] (zeros 16) (zeros 20) 2 [] V40.WireNone (of_str "fh")).
Definition demo_opened : result (bytes * bytes) * Mount40 :=
  open_file_with_create demo_rpc (mount40_new new_null 7 9) (Ok 1) (lease_ready 1 90 0) (lease_ready 1 90 0) 5
    None (of_str "dir") (of_str "name") 3 false false None.
(** Then a LOCK on it, which the server grants. *)
Definition demo_denied : denied_range := {| dn_offset := 0; dn_length := 0; dn_type := 1; dn_client := 0; dn_owner := [] |}.
Definition demo_locked : result (bytes * Z) * Mount40 :=
  acquire_lock (fun _ => Ok (lock_reply 12 0 [] (zeros 16) demo_denied)) demo_opened.2 (Ok 1) (lease_ready 1 90 0) (lease_ready 1 90 0) 5
    0 (of_str "fh") 2 0 10.
Definition demo_server : server :=
  open_served demo_rpc (set_next_owner (mount40_new new_null 7 9) 2) 1
    (open_request (set_next_owner (mount40_new new_null 7 9) 2) 1 (of_str "dir") (of_str "name") 3 false false None) ∅.

(** Two ways out of agreement. A server that fails the PUTFH of the COMPOUND never
    sees the LOCK, but the client takes the status of the reply for the LOCK's and
    moves its number on. *)
Lemma putfh_failure_moves_client_seqid :
  consumes_owner_seqid (V40.decode_lock_response
    (xdr_u32 70 ++ xdr_opaque [] ++ xdr_u32 1 ++ xdr_u32 OP_PUTFH ++ xdr_u32 70) 12 "LOCK") = true.
Proof. by vm_compute. Qed.

(** When the reply to a LOCK is lost, the client keeps its number, and its next
    LOCK, for another lock owner and range, repeats the number of one the server
    may have carried out. *)
Lemma lost_lock_reply_repeats_seqid m g l1 l2 now r fh ty off len e :
  m_open_heap (acquire_lock (fun _ => Err e) m (Ok g) l1 l2 now r fh ty off len).2 = m_open_heap m.
Proof. unfold acquire_lock. cbn. by destruct (m_open_heap m !! r). Qed.
