(* ===== verification/Rpc.v ===== *)
(** * The RPC transport: records, replies, attempts

    Models [src/src/rpc/mod.rs]: the frame of a call, the reader of one record
    with its fragments, the envelope of a reply, one attempt to send a call and
    wait for its reply, the loop that attempts it again after a lost connection or
    a timeout, transaction ids and the port mapper's answer. Sockets, timers and
    the outcome of a reconnection are arguments: [iteration] says what one turn of
    the loop met. *)
From S2P Require Import Prelude Errors Xdr4.
From Stdlib Require Import Strings.Byte.
From stdpp Require Import base list numbers strings.
#[local] Open Scope Z_scope.

Definition PORTMAP_PROG : Z := 100000.
Definition PORTMAP_VERSION : Z := 2.
Definition MOUNT_PROG : Z := 100005.
Definition NFS_PROG : Z := 100003.
Definition NFSACL_PROG : Z := 100227.
Definition IPPROTO_TCP : Z := 6.
Definition MAX_RPC_RESPONSE : Z := 4 * 1024 * 1024 + 4096.

(** ** Records *)

Definition eof : NfsError := Io UnexpectedEof (IoMessage "early eof").

(** [read_exact] of [n] bytes. *)
Definition read_exact (n : Z) (s : bytes) : result (bytes * bytes) :=
  if remaining s <? n then Err eof else Ok (firstn (Z.to_nat n) s, skipn (Z.to_nat n) s).

Definition read_mark (s : bytes) : result (bool * Z * bytes) :=
  let* (hdr, s) := read_exact 4 s in
  let raw := be_val hdr in
  Ok (negb (Z.land raw 0x80000000 =? 0), Z.land raw 0x7FFFFFFF, s).

(** The loop over the fragments after the first; each takes at least its mark. *)
Fixpoint read_fragments (fuel : nat) (buf s : bytes) : result (bytes * bytes) :=
  match fuel with
  | O => Panic
  | S fuel =>
      let* (last, sz, s) := read_mark s in
      let total := remaining buf + sz in
      if MAX_RPC_RESPONSE <? total
      then Err (Rpc ("RPC accumulated response size " +:+ fmtZ total +:+ " exceeds maximum " +:+
                     fmtZ MAX_RPC_RESPONSE))
      else
        let* (part, s) := read_exact sz s in
        let buf := buf ++ part in
        if (last : bool) then Ok (buf, s) else read_fragments fuel buf s
  end.

Definition read_one_response (s : bytes) : result (Z * bytes * bytes) :=
  let* (last, sz, s) := read_mark s in
  if MAX_RPC_RESPONSE <? sz
  then Err (Rpc ("RPC fragment size " +:+ fmtZ sz +:+ " exceeds maximum " +:+ fmtZ MAX_RPC_RESPONSE))
  else
    let* (buf, s) := read_exact sz s in
    let* (buf, s) := (if (last : bool) then Ok (buf, s) else read_fragments (S (length s)) buf s) in
    if remaining buf <? 4
    then Err (Rpc ("RPC record size " +:+ fmtZ (remaining buf) +:+ " is shorter than XID"))
    else Ok (be_val (firstn 4 buf), buf, s).

(** The frame of a call: mark, transaction id, message type, body, data and its
    padding. *)
Definition data_pad (data : bytes) : Z := (4 - remaining data mod 4) mod 4.
Definition call_frame (xid : Z) (msg_body data : bytes) : bytes :=
  let payload_len := wrap32 (8 + remaining msg_body + remaining data + data_pad data) in
  xdr_u32 (Z.lor payload_len 0x80000000) ++ xdr_u32 xid ++ xdr_u32 0 ++ msg_body ++
  (if bool_decide (data = []) then [] else data ++ zeros (data_pad data)).

(** The reply of a backchannel call. *)
Definition backchannel_frame (reply : bytes) : bytes :=
  xdr_u32 (Z.lor (wrap32 (remaining reply)) 0x80000000) ++ reply.

(** What the reader does with a record. *)
Inductive dispatch : Type := ToBackchannel (data : bytes) | ToCaller (xid : Z) (data : bytes).
Definition dispatch_record (xid : Z) (data : bytes) : dispatch :=
  let msg_type := if 8 <=? remaining data then be_val (firstn 4 (skipn 4 data)) else 1 in
  if msg_type =? 0 then ToBackchannel data else ToCaller xid data.

(** ** The envelope of a reply *)

Definition read_u32_at (res : bytes) (p : Z) : result Z :=
  if remaining res <? p + 4 then Err (Rpc "response truncated")
  else Ok (be_val (firstn 4 (skipn (Z.to_nat p) res))).

(** [res.slice(p..)] *)
Definition slice_from (p : Z) (res : bytes) : result bytes :=
  if remaining res <? p then Panic else Ok (skipn (Z.to_nat p) res).

Definition parse_rpc_response (res : bytes) (xid : Z) : result bytes :=
  if remaining res <? 8 then Err (Rpc "response too short")
  else
    let res_xid := be_val (firstn 4 res) in
    let res_msgtype := be_val (firstn 4 (skipn 4 res)) in
    if negb (res_xid =? xid) then Err (Rpc "response id does not match expected one")
    else if negb (res_msgtype =? 1) then Err (Rpc "response type does not match expected one")
    else
      let* msg_status := read_u32_at res 8 in
      if negb (as_i32 msg_status =? 0) then Err (Rpc "could not parse response due to bad status")
      else
        let* verf_len := read_u32_at res 16 in
        let pos := 20 in
        let verf_padded := verf_len + (4 - verf_len mod 4) mod 4 in
        if remaining res <? pos + verf_padded then Err (Rpc "response truncated (verifier)")
        else
          let pos := pos + verf_padded in
          let* accept_status := read_u32_at res pos in
          let pos := pos + 4 in
          if negb (as_i32 accept_status =? 0)
          then if (1 <=? as_i32 accept_status) && (as_i32 accept_status <=? 3)
               then Err (Unsupported ("RPC service unavailable (accept status " +:+
                                      fmtZ (as_i32 accept_status) +:+ ")"))
               else Err (Rpc "request rejected")
          else slice_from pos res.

(** ** One attempt *)

(** What an attempt of [send_and_receive_inner] met, in the order of its steps. *)
Inductive attempt_event : Type :=
| AtNotReady (e : NfsError)
| AtPendingPoisoned
| AtReaderStopped
| AtTimeoutBeforeWrite
| AtWriteFailed (e : NfsError)
| AtTimeoutWriting
| AtAnswered (r : result bytes)
| AtReaderGone
| AtResponseTimeout.

Definition attempt_result (a : attempt_event) : result bytes :=
  match a with
  | AtNotReady e => Err (transport NotSent e)
  | AtPendingPoisoned => Err (transport NotSent (Rpc "pending map lock poisoned"))
  | AtReaderStopped =>
      Err (transport NotSent (Io NotConnected (IoMessage "RPC connection reader has stopped")))
  | AtTimeoutBeforeWrite => Err (transport NotSent (Io TimedOut (IoMessage "RPC attempt timeout")))
  | AtWriteFailed e => Err (transport Sent e)
  | AtTimeoutWriting => Err (transport Sent (Io TimedOut (IoMessage "RPC attempt timeout")))
  | AtAnswered (Err (Io k p)) => Err (transport Sent (Io k p))
  | AtAnswered r => r
  | AtReaderGone => Err (transport Sent (Io BrokenPipe (IoMessage "reader task terminated")))
  | AtResponseTimeout => Err (transport Sent (Io TimedOut (IoMessage "RPC response timeout")))
  end.

(** Whether the attempt may have put bytes of the call on the wire. *)
Definition attempt_wrote (a : attempt_event) : bool :=
  match a with
  | AtNotReady _ | AtPendingPoisoned | AtReaderStopped | AtTimeoutBeforeWrite => false
  | _ => true
  end.

(** ** The loop *)

Record ReplayPolicy : Type := { max_attempts : nat }.
Definition ONE_ATTEMPT : ReplayPolicy := {| max_attempts := 1 |}.
(** The constructor's assertion. *)
Definition byte_identical (n : nat) : outcome NfsError ReplayPolicy :=
  if Nat.leb n 1 then Panic else Ok {| max_attempts := n |}.

Definition MAX_RECONNECTS : Z := 4.
(** [DisconnectRecovery]; the deadline is part of what an iteration meets. *)
Record DisconnectRecovery : Type := { dr_first : NfsError; dr_reconnects : Z }.
Definition DisconnectRecovery_new (first : NfsError) : DisconnectRecovery :=
  {| dr_first := first; dr_reconnects := 0 |}.
Definition failure (d : DisconnectRecovery) (t : RequestTransmission) : NfsError :=
  if bool_decide (t = Sent) && negb (bool_decide (request_transmission (dr_first d) = Some Sent))
  then transport t (dr_first d) else dr_first d.
(** The delay in milliseconds before the jitter. *)
Definition next_delay (d : DisconnectRecovery) : option (Z * DisconnectRecovery) :=
  if MAX_RECONNECTS <=? dr_reconnects d then None
  else Some (Z.shiftl 20 (dr_reconnects d),
             {| dr_first := dr_first d; dr_reconnects := dr_reconnects d + 1 |}).

(** What one turn of the loop met: whether its deadline had passed, the id it
    drew, the attempt, and the reconnection if there was one. *)
Inductive reconnect_outcome : Type := RcDone (r : result ()) | RcTimedOut.
Record iteration : Type := {
  it_expired : bool; it_xid : Z; it_attempt : attempt_event; it_reconnect : reconnect_outcome
}.

Record call_state : Type := {
  cs_last_error : option NfsError;
  cs_disconnect : option DisconnectRecovery;
  cs_transmission : RequestTransmission;
}.
Definition call_state_new : call_state :=
  {| cs_last_error := None; cs_disconnect := None; cs_transmission := NotSent |}.

Definition budget_exhausted : NfsError := Io TimedOut (IoMessage "RPC total attempt budget exhausted").

(** After the loop. *)
Definition call_failed (st : call_state) : NfsError :=
  match cs_disconnect st with
  | Some d => failure d (cs_transmission st)
  | None => default budget_exhausted (cs_last_error st)
  end.

(** The send-boundary evidence of an error, with what earlier attempts showed. *)
Definition note_transmission (st : call_state) (e : NfsError) : NfsError * RequestTransmission :=
  if bool_decide (request_transmission e = Some Sent) then (e, Sent)
  else if bool_decide (cs_transmission st = Sent) then (transport Sent e, Sent)
  else (e, cs_transmission st).

(** [rest] attempts may still be made; the second result counts those that may
    have written to the wire. *)
Fixpoint call_loop (rest attempt : nat) (bypass : bool) (env : nat -> iteration) (st : call_state)
    : result bytes * nat :=
  match rest with
  | O => (Err (call_failed st), O)
  | S rest =>
      let it := env attempt in
      if it_expired it then (Err (call_failed st), O)
      else
        let wrote := if attempt_wrote (it_attempt it) then 1%nat else 0%nat in
        match attempt_result (it_attempt it) with
        | Ok data => (parse_rpc_response data (it_xid it), wrote)
        | Panic => (Panic, wrote)
        | Err e =>
            let '(e, t) := note_transmission st e in
            let st := {| cs_last_error := cs_last_error st; cs_disconnect := cs_disconnect st;
                         cs_transmission := t |} in
            let again st := let '(r, n) := call_loop rest (S attempt) bypass env st in (r, (wrote + n)%nat) in
            if bypass then (Err e, wrote)
            else if is_connection_lost e
            then
              let recovery := default (DisconnectRecovery_new e) (cs_disconnect st) in
              let st d := {| cs_last_error := cs_last_error st; cs_disconnect := Some d;
                             cs_transmission := cs_transmission st |} in
              if Nat.eqb rest 0 then (Err (call_failed (st recovery)), wrote)
              else match next_delay recovery with
                   | None => (Err (call_failed (st recovery)), wrote)
                   | Some (_, recovery) =>
                       match it_reconnect it with
                       | RcDone (Ok _) => again (st recovery)
                       | RcDone (Err error) =>
                           if is_connection_lost error then again (st recovery)
                           else (Err (call_failed (st recovery)), wrote)
                       | RcDone Panic => (Panic, wrote)
                       | RcTimedOut => (Err (call_failed (st recovery)), wrote)
                       end
                   end
            else if bool_decide (error_kind e = TimedOut)
            then again {| cs_last_error := Some e; cs_disconnect := cs_disconnect st;
                          cs_transmission := cs_transmission st |}
            else match cs_disconnect st with
                 | Some _ => (Err (call_failed st), wrote)
                 | None => (Err e, wrote)
                 end
        end
  end.

(** [get_mux]: which of the two connections a program uses. *)
Inductive mux_name : Type := NfsMux | MountMux.
Definition get_mux (has_mount_mux : bool) (program : Z) : result mux_name :=
  if program =? MOUNT_PROG then Ok (if has_mount_mux then MountMux else NfsMux)
  else if (program =? NFS_PROG) || (program =? PORTMAP_PROG) || (program =? NFSACL_PROG) then Ok NfsMux
  else Err (InvalidInput ("unknown RPC program " +:+ fmtZ program)).
Definition program_of (msg_body : bytes) : Z :=
  if 8 <=? remaining msg_body then be_val (firstn 4 (skipn 4 msg_body)) else NFS_PROG.

Definition call_with_data_inner (has_mount_mux : bool) (msg_body : bytes) (policy : ReplayPolicy)
    (bypass : bool) (env : nat -> iteration) : result bytes * nat :=
  match get_mux has_mount_mux (program_of msg_body) with
  | Ok _ => call_loop (max_attempts policy) 0 bypass env call_state_new
  | Err e => (Err e, O)
  | Panic => (Panic, O)
  end.
Definition call_during_reconnect (has_mount_mux : bool) (msg_body : bytes) (env : nat -> iteration)
    : result bytes * nat :=
  call_with_data_inner has_mount_mux msg_body ONE_ATTEMPT true env.

(** ** Transaction ids *)

(** The counter, seeded with the clock when it is zero: the id and the counter. *)
Definition get_xid (counter now : Z) : Z * Z :=
  let counter := if counter =? 0 then now else counter in
  (wrap32 (counter + 1), wrap32 (counter + 1)).

(** Seconds and milliseconds since the epoch; [None] where the addition overflows. *)
Definition get_current_time (secs millis : Z) : option Z :=
  let t := wrap32 (wrap32 secs * 1000) + millis in
  if t <? 2 ^ 32 then Some t else None.

(** ** The port mapper *)

Definition getport_request (auth : Auth) (prog vers : Z) : bytes :=
  Header_encode (rpc_header PORTMAP_PROG PORTMAP_VERSION 3 auth) ++
  be_bytes 4 prog ++ be_bytes 4 vers ++ be_bytes 4 IPPROTO_TCP ++ be_bytes 4 0.
Definition portmap_null_request (auth : Auth) : bytes :=
  Header_encode (rpc_header PORTMAP_PROG PORTMAP_VERSION 0 auth).

Definition decode_port (res : bytes) : result Z :=
  if negb (remaining res =? 4) then Err (Xdr "GETPORT result must contain exactly 4 bytes")
  else
    let port := be_val res in
    if 65535 <? port then Err (Xdr "GETPORT port exceeds 65535")
    else if port =? 0 then Err (Rpc "GETPORT service is not registered")
    else Ok port.

(** [portmap_calls]; [call] is the client's call with the policy it is given. *)
Definition portmap_calls (call : bytes -> ReplayPolicy -> result bytes) (prog vers : Z) (auth : Auth)
    (max_retries : nat) : result Z :=
  let* policy := byte_identical max_retries in
  let* _ := call (portmap_null_request auth) policy in
  let* res := call (getport_request auth prog vers) policy in
  decode_port res.

(** [portmap]: the first address that answers; the text of the last failure is
    elided. *)
Fixpoint portmap {A : Type} (addrs : list A) (on_addr : A -> result Z) (prog vers : Z) : result Z :=
  match addrs with
  | [] => Err (Rpc ("portmapper lookup failed for prog=" +:+ fmtZ prog +:+ " vers=" +:+ fmtZ vers +:+ ": "))
  | a :: addrs =>
      match on_addr a with
      | Ok port => Ok port
      | Err _ => portmap addrs on_addr prog vers
      | Panic => Panic
      end
  end.

(** ** Theorems *)

(** *** Records *)

(** A record sent in fragments. *)
Definition fragment (last : bool) (d : bytes) : bytes :=
  xdr_u32 (Z.lor (remaining d) (if last then 0x80000000 else 0)) ++ d.
Fixpoint fragments (l : list bytes) : bytes :=
  match l with
  | [] => []
  | [d] => fragment true d
  | d :: l => fragment false d ++ fragments l
  end.

Lemma mark_disjoint n : 0 <= n < 2 ^ 31 -> Z.land n 0x80000000 = 0.
Proof.
  intros H. change 0x80000000 with (2 ^ 31). apply Z.bits_inj'. intros k Hk.
  rewrite Z.land_spec, Z.bits_0, Z.pow2_bits_eqb by lia.
  destruct (Z.eqb_spec 31 k) as [<-|]; [|by rewrite andb_false_r].
  enough (Z.testbit n 31 = false) as -> by done.
  apply Z.testbit_false; [lia|]. by rewrite Z.div_small by lia.
Qed.

Lemma mark_last n : 0 <= n < 2 ^ 31 -> Z.lor n 0x80000000 = n + 2 ^ 31.
Proof.
  intros H. pose proof (mark_disjoint n H) as Hd.
  by rewrite <- Z.lxor_lor, <- Z.add_nocarry_lxor by done.
Qed.

Lemma mark_value n (last : bool) :
  0 <= n < 2 ^ 31 ->
  let raw := Z.lor n (if last then 0x80000000 else 0) in
  is_u32 raw /\ negb (Z.land raw 0x80000000 =? 0) = last /\ Z.land raw 0x7FFFFFFF = n.
Proof.
  intros H raw. subst raw. change 0x7FFFFFFF with (Z.ones 31). rewrite Z.land_ones by lia.
  destruct last.
  - rewrite Z.land_lor_distr_l, mark_disjoint, mark_last by done.
    repeat split; [unfold_int; lia..|]. rewrite <- (Z.mul_1_l (2 ^ 31)) at 1.
    by rewrite Z.mod_add, Z.mod_small by lia.
  - rewrite Z.lor_0_r, mark_disjoint by done.
    repeat split; [unfold_int; lia..|]. by apply Z.mod_small.
Qed.

Lemma read_exact_app a s : read_exact (remaining a) (a ++ s) = Ok (a, s).
Proof.
  unfold read_exact. rewrite remaining_app. pose proof (remaining_nonneg s).
  destruct (Z.ltb_spec (remaining a + remaining s) (remaining a)); [lia|].
  unfold remaining. by rewrite Nat2Z.id, take_app_length, drop_app_length.
Qed.

Lemma read_mark_frame n (last : bool) s :
  0 <= n < 2 ^ 31 ->
  read_mark (xdr_u32 (Z.lor n (if last then 0x80000000 else 0)) ++ s) = Ok (last, n, s).
Proof.
  intros H. destruct (mark_value n last H) as (Hr & Hl & Hn). unfold read_mark, xdr_u32.
  change 4 with (remaining (be_bytes 4 (Z.lor n (if last then 0x80000000 else 0)))) at 1.
  rewrite read_exact_app. cbn [obind]. rewrite be_val_bytes.
  change (256 ^ Z.of_nat 4) with (2 ^ 32). rewrite Z.mod_small by (unfold_int; lia).
  by rewrite Hl, Hn.
Qed.

Lemma read_exact_wp n s (Q : bytes * bytes -> Prop) :
  (forall a rest, (length rest <= length s)%nat -> (n <= Z.of_nat (length s) -> 0 <= n -> Z.of_nat (length rest) = Z.of_nat (length s) - n) ->
     Q (a, rest)) ->
  wpo (read_exact n s) Q.
Proof.
  intros HQ. unfold read_exact. apply wpo_if; [done|]. intros H%Z.ltb_ge. apply HQ.
  - rewrite length_skipn. lia.
  - rewrite length_skipn. lia.
Qed.

Lemma read_mark_wp s (Q : bool * Z * bytes -> Prop) :
  (forall last sz rest, (length rest < length s)%nat -> Q (last, sz, rest)) -> wpo (read_mark s) Q.
Proof.
  intros HQ. unfold read_mark, read_exact. destruct (Z.ltb_spec (remaining s) 4) as [|H]; [done|].
  simpl. apply HQ. rewrite length_skipn. unfold remaining in H. lia.
Qed.

Lemma read_fragments_wp fuel buf s :
  (length s < fuel)%nat -> wpo (read_fragments fuel buf s) (fun _ => True).
Proof.
  revert buf s. induction fuel as [|fuel IH]; intros buf s Hf; [lia|]. cbn [read_fragments].
  apply wpo_bind, read_mark_wp. intros last sz rest Hr. apply wpo_if; [done|]. intros _.
  apply wpo_bind, read_exact_wp. intros part rest' Hr' _. apply wpo_if; [done|]. intros _.
  apply IH. lia.
Qed.

(** Whatever bytes a server sends, reading a record ends with a record or an
    error, and so does taking the envelope off a record, for every expected
    transaction id: no index is out of range and the loop over the fragments
    needs no more turns than the stream has bytes. *)
Theorem transport_input_never_panics s xid :
  read_one_response s <> Panic /\ parse_rpc_response s xid <> Panic.
Proof.
  split.
  - apply (wpo_no_panic _ (fun _ => True)). unfold read_one_response.
    apply wpo_bind, read_mark_wp. intros last sz rest _. apply wpo_if; [done|]. intros _.
    apply wpo_bind, read_exact_wp. intros buf rest' _ _. apply wpo_bind, wpo_if.
    + intros _. simpl. by apply wpo_if.
    + intros _. eapply wpo_mono; [apply read_fragments_wp; lia|]. intros [b r] _. by apply wpo_if.
  - unfold parse_rpc_response, read_u32_at, slice_from, obind.
    repeat first [progress (repeat case_match); simplify_eq/= | done].
    all: rewrite ?Z.ltb_lt, ?Z.ltb_ge in *; lia.
Qed.

Lemma read_fragments_app l rest fuel buf :
  l <> [] -> remaining buf + remaining (concat l) <= MAX_RPC_RESPONSE ->
  (length (fragments l) < fuel)%nat ->
  read_fragments fuel buf (fragments l ++ rest) = Ok (buf ++ concat l, rest).
Proof.
  revert fuel buf. induction l as [|d l IH]; [done|]. intros fuel buf _ Hm Hf.
  destruct fuel as [|fuel]; [lia|]. cbn [concat] in *. rewrite remaining_app in Hm.
  pose proof (remaining_nonneg d). pose proof (remaining_nonneg (concat l)).
  pose proof (remaining_nonneg buf). unfold MAX_RPC_RESPONSE in Hm.
  assert (Hbody : forall (last : bool) tl,
    read_fragments (S fuel) buf (fragment last d ++ tl) =
    if last then Ok (buf ++ d, tl) else read_fragments fuel (buf ++ d) tl).
  { intros last tl. cbn [read_fragments]. unfold fragment. rewrite <- app_assoc.
    rewrite read_mark_frame by lia. cbn [obind].
    destruct (Z.ltb_spec MAX_RPC_RESPONSE (remaining buf + remaining d)) as [Hx|_];
      [unfold MAX_RPC_RESPONSE in Hx; lia|].
    rewrite read_exact_app. done. }
  destruct l as [|d' l'].
  - cbn [fragments concat]. by rewrite Hbody, app_nil_r.
  - remember (d' :: l') as l. assert (Hl : l <> []) by by subst.
    replace (fragments (d :: l)) with (fragment false d ++ fragments l) in * by (by subst).
    rewrite <- app_assoc, Hbody, IH, app_assoc; [done|done| |].
    + rewrite remaining_app. unfold MAX_RPC_RESPONSE. lia.
    + rewrite length_app in Hf. unfold fragment in Hf. rewrite length_app in Hf. unfold xdr_u32 in Hf.
      rewrite length_be_bytes in Hf. lia.
Qed.

Lemma read_record l rest :
  l <> [] -> 4 <= remaining (concat l) <= MAX_RPC_RESPONSE ->
  read_one_response (fragments l ++ rest) = Ok (be_val (firstn 4 (concat l)), concat l, rest).
Proof.
  destruct l as [|d l]; [done|]. intros _ [H4 Hm]. cbn [concat] in *.
  pose proof Hm as Hm'. rewrite remaining_app in Hm'.
  pose proof (remaining_nonneg d). pose proof (remaining_nonneg (concat l)).
  assert (Hbody : forall (last : bool) tl,
    read_one_response (fragment last d ++ tl) =
    let* (buf, s) := (if last then Ok (d, tl) else read_fragments (S (length tl)) d tl) in
    if remaining buf <? 4
    then Err (Rpc ("RPC record size " +:+ fmtZ (remaining buf) +:+ " is shorter than XID"))
    else Ok (be_val (firstn 4 buf), buf, s)).
  { intros last tl. unfold read_one_response, fragment. rewrite <- app_assoc.
    rewrite read_mark_frame by (unfold MAX_RPC_RESPONSE in *; lia). cbn [obind].
    destruct (Z.ltb_spec MAX_RPC_RESPONSE (remaining d)); [lia|].
    by rewrite read_exact_app. }
  assert (Hend : (remaining (d ++ concat l) <? 4) = false) by (apply Z.ltb_ge; lia).
  destruct l as [|d' l'].
  - cbn [fragments concat] in *. rewrite Hbody. cbn [obind]. rewrite app_nil_r in *. by rewrite Hend.
  - remember (d' :: l') as l. assert (Hl : l <> []) by by subst.
    replace (fragments (d :: l)) with (fragment false d ++ fragments l) by (by subst).
    rewrite <- app_assoc, Hbody, read_fragments_app; [|done|by rewrite remaining_app in Hm|].
    + cbn [obind]. by rewrite Hend.
    + rewrite length_app. lia.
Qed.

(** *** Calls and replies *)

(** An accepted, successful reply as the protocol lays it out. *)
Definition accepted_reply (xid flavor : Z) (verf payload : bytes) : bytes :=
  (xdr_u32 xid ++ xdr_u32 1 ++ xdr_u32 0 ++ xdr_u32 flavor ++ xdr_u32 (remaining verf)) ++
  (verf ++ zeros (data_pad verf)) ++ xdr_u32 0 ++ payload.

Lemma read_u32_at_app a v b p :
  remaining a = p -> is_u32 v -> read_u32_at (a ++ xdr_u32 v ++ b) p = Ok v.
Proof.
  intros <- Hv. unfold read_u32_at. rewrite !remaining_app. unfold xdr_u32. rewrite remaining_be.
  pose proof (remaining_nonneg b).
  destruct (Z.ltb_spec (remaining a + (Z.of_nat 4 + remaining b)) (remaining a + 4)); [lia|].
  unfold remaining. rewrite Nat2Z.id, drop_app_length.
  rewrite take_app_length' by by rewrite length_be_bytes.
  rewrite be_val_bytes. change (256 ^ Z.of_nat 4) with (2 ^ 32).
  by rewrite Z.mod_small by (unfold_int; lia).
Qed.

Lemma firstn_xdr_u32 v b : is_u32 v -> be_val (firstn 4 (xdr_u32 v ++ b)) = v.
Proof.
  intros Hv. pose proof (read_u32_at_app [] v b 0 eq_refl Hv) as H. unfold read_u32_at in H.
  destruct (_ <? _); [done|]. by simplify_eq/=.
Qed.

Lemma skip_xdr_u32 v b : skipn 4 (xdr_u32 v ++ b) = b.
Proof. by rewrite drop_app_length' by (unfold xdr_u32; by rewrite length_be_bytes). Qed.

Lemma data_pad_range d : 0 <= data_pad d < 4.
Proof. apply Z.mod_pos_bound. lia. Qed.

Lemma read_u32_at_split r a v b p :
  r = a ++ xdr_u32 v ++ b -> remaining a = p -> is_u32 v -> read_u32_at r p = Ok v.
Proof. intros -> Ha Hv. by apply read_u32_at_app. Qed.

Lemma length_accepted xid flavor verf payload :
  remaining (accepted_reply xid flavor verf payload) =
  24 + remaining verf + data_pad verf + remaining payload.
Proof.
  pose proof (data_pad_range verf). unfold accepted_reply.
  rewrite !remaining_app, remaining_zeros by lia. rewrite !remaining_xdr_u32. lia.
Qed.

Lemma slice_accepted xid flavor verf payload :
  slice_from (24 + remaining verf + data_pad verf) (accepted_reply xid flavor verf payload) = Ok payload.
Proof.
  pose proof (data_pad_range verf). unfold slice_from. rewrite length_accepted.
  pose proof (remaining_nonneg payload).
  destruct (Z.ltb_spec (24 + remaining verf + data_pad verf + remaining payload)
              (24 + remaining verf + data_pad verf)); [lia|].
  unfold accepted_reply. rewrite !app_assoc, drop_app_length'; [done|].
  apply Nat2Z.inj. rewrite Z2Nat.id by (pose proof (remaining_nonneg verf); lia).
  change (Z.of_nat (length ?x)) with (remaining x). rewrite !remaining_app, !remaining_xdr_u32.
  rewrite remaining_zeros by lia. lia.
Qed.

Lemma parse_accepted xid flavor verf payload :
  is_u32 xid -> is_u32 (remaining verf) ->
  parse_rpc_response (accepted_reply xid flavor verf payload) xid = Ok payload.
Proof.
  intros Hx Hv. pose proof (data_pad_range verf) as Hp. pose proof (remaining_nonneg payload).
  pose proof (remaining_nonneg verf). pose proof (length_accepted xid flavor verf payload) as Hlen.
  pose proof (slice_accepted xid flavor verf payload) as Hslice.
  assert (Hz : is_u32 0) by (unfold_int; lia).
  set (r := accepted_reply xid flavor verf payload) in *.
  assert (Hshort : forall n, n <= remaining r -> (remaining r <? n) = false)
    by (intros; by apply Z.ltb_ge).
  assert (E1 : be_val (firstn 4 r) = xid).
  { unfold r, accepted_reply. rewrite <- !app_assoc. by apply firstn_xdr_u32. }
  assert (E2 : be_val (firstn 4 (skipn 4 r)) = 1).
  { unfold r, accepted_reply. rewrite <- !app_assoc, skip_xdr_u32. apply firstn_xdr_u32. unfold_int. lia. }
  assert (E3 : read_u32_at r 8 = Ok 0).
  { eapply (read_u32_at_split r (xdr_u32 xid ++ xdr_u32 1)); [|done|done].
    unfold r, accepted_reply. by rewrite <- !app_assoc. }
  assert (E4 : read_u32_at r 16 = Ok (remaining verf)).
  { eapply (read_u32_at_split r (xdr_u32 xid ++ xdr_u32 1 ++ xdr_u32 0 ++ xdr_u32 flavor)); [|done|done].
    unfold r, accepted_reply. by rewrite <- !app_assoc. }
  assert (E5 : read_u32_at r (20 + (remaining verf + data_pad verf)) = Ok 0).
  { eapply (read_u32_at_split r ((xdr_u32 xid ++ xdr_u32 1 ++ xdr_u32 0 ++ xdr_u32 flavor ++
              xdr_u32 (remaining verf)) ++ verf ++ zeros (data_pad verf))); [|..|done].
    - unfold r, accepted_reply. by rewrite <- !app_assoc.
    - rewrite !remaining_app, !remaining_xdr_u32, remaining_zeros; lia. }
  unfold parse_rpc_response. rewrite Hshort, E1, E2, Z.eqb_refl, E3 by lia. cbn [negb obind Z.eqb Pos.eqb as_i32 Z.ltb].
  change (negb (as_i32 0 =? 0)) with false. cbv iota. rewrite E4. cbn [obind]. fold (data_pad verf).
  rewrite Hshort, E5 by lia. cbn [obind]. change (negb (as_i32 0 =? 0)) with false. cbv iota.
  rewrite <- Hslice. f_equal. lia.
Qed.

(** The accepted reply of a call, sent as one record in any fragments that
    keep within the reader's limit, is read back as the record it was, belongs to
    the caller that waits for its transaction id, gives that caller exactly the
    payload behind the verifier, and leaves the stream at the next record. *)
Theorem reply_reaches_caller xid flavor verf payload l rest :
  is_u32 xid -> is_u32 (remaining verf) -> l <> [] ->
  concat l = accepted_reply xid flavor verf payload ->
  remaining (concat l) <= MAX_RPC_RESPONSE ->
  read_one_response (fragments l ++ rest) = Ok (xid, concat l, rest) /\
  dispatch_record xid (concat l) = ToCaller xid (concat l) /\
  parse_rpc_response (concat l) xid = Ok payload.
Proof.
  intros Hx Hv Hl Hc Hm. rewrite Hc in *. pose proof (length_accepted xid flavor verf payload) as Hlen.
  pose proof (data_pad_range verf). pose proof (remaining_nonneg payload). pose proof (remaining_nonneg verf).
  split_and!.
  - rewrite read_record by (rewrite ?Hc; lia || done). rewrite Hc. do 3 f_equal.
    unfold accepted_reply. rewrite <- !app_assoc. by apply firstn_xdr_u32.
  - unfold dispatch_record. destruct (Z.leb_spec 8 (remaining (accepted_reply xid flavor verf payload))); [|lia].
    unfold accepted_reply at 1. rewrite <- !app_assoc, skip_xdr_u32, firstn_xdr_u32 by (unfold_int; lia).
    done.
  - by apply parse_accepted.
Qed.

Lemma reply_reaches_caller_witness :
  let r := accepted_reply 7 0 [] [x01; x02; x03; x04] in
  let l := [firstn 10 r; []; skipn 10 r] in
  read_one_response (fragments l ++ [xff]) = Ok (7, r, [xff]) /\
  dispatch_record 7 r = ToCaller 7 r /\ parse_rpc_response r 7 = Ok [x01; x02; x03; x04].
Proof.
  intros r l. apply (reply_reaches_caller 7 0 [] [x01; x02; x03; x04] l [xff]);
    [unfold_int; lia|split; by vm_compute|discriminate|reflexivity|by vm_compute].
Defined.

(** The frame a call is sent in is one complete record: a reader of the
    protocol's record marking takes it off the stream whole, with the call's
    transaction id first, the type of a call next, and then the body and the
    data padded to four bytes. The frame is the record whatever the data's
    length, as long as the record fits its 31-bit length. *)
Theorem call_frame_is_one_record xid msg_body data rest :
  is_u32 xid -> remaining msg_body mod 4 = 0 ->
  8 + remaining msg_body + remaining data + data_pad data <= MAX_RPC_RESPONSE ->
  let record := xdr_u32 xid ++ xdr_u32 0 ++ msg_body ++ data ++ zeros (data_pad data) in
  read_one_response (call_frame xid msg_body data ++ rest) = Ok (xid, record, rest) /\
  remaining record mod 4 = 0 /\ dispatch_record xid record = ToBackchannel record.
Proof.
  intros Hx Hb Hm record. pose proof (data_pad_range data). pose proof (remaining_nonneg msg_body).
  pose proof (remaining_nonneg data).
  assert (Hlen : remaining record = 8 + remaining msg_body + remaining data + data_pad data).
  { unfold record. rewrite !remaining_app, !remaining_xdr_u32, remaining_zeros; lia. }
  assert (Hframe : call_frame xid msg_body data = fragments [record]).
  { cbn [fragments]. unfold call_frame, fragment. rewrite Hlen. unfold wrap32.
    rewrite Z.mod_small by (unfold MAX_RPC_RESPONSE in Hm; lia). f_equal. unfold record.
    do 3 f_equal. case_bool_decide; [by subst|done]. }
  split_and!.
  - rewrite Hframe, read_record; cbn [concat]; rewrite ?app_nil_r; [|done|lia].
    do 3 f_equal. by apply firstn_xdr_u32.
  - rewrite Hlen. unfold data_pad. Z.to_euclidean_division_equations. lia.
  - unfold dispatch_record. destruct (Z.leb_spec 8 (remaining record)); [|lia].
    unfold record at 1. rewrite skip_xdr_u32, firstn_xdr_u32 by (unfold_int; lia). done.
Qed.

Lemma call_frame_is_one_record_witness :
  let record := xdr_u32 9 ++ xdr_u32 0 ++ [x00; x00; x00; x02] ++ [xaa] ++ zeros 3 in
  read_one_response (call_frame 9 [x00; x00; x00; x02] [xaa] ++ [xff]) = Ok (9, record, [xff]) /\
  remaining record mod 4 = 0 /\ dispatch_record 9 record = ToBackchannel record.
Proof.
  apply (call_frame_is_one_record 9 [x00; x00; x00; x02] [xaa] [xff]);
    [unfold_int; lia|reflexivity|by vm_compute].
Defined.

(** *** What a failed call says about the wire *)

(** What the reader may hand a caller: a record, a failure of the connection, or
    the refusal of a malformed record. *)
Definition reader_answer (r : result bytes) : Prop :=
  match r with
  | Ok _ | Err (Rpc _) | Err (Io _ (IoMessage _)) => True
  | _ => False
  end.
Definition answers_from_reader (env : nat -> iteration) : Prop :=
  forall i r, it_attempt (env i) = AtAnswered r -> reader_answer r.
Definition no_malformed_record (env : nat -> iteration) : Prop :=
  forall i m, it_attempt (env i) <> AtAnswered (Err (Rpc m)).

(** The evidence the loop carries once [k] attempts have written. *)
Definition evidence (k : nat) (st : call_state) : Prop :=
  (0 < k)%nat ->
  cs_transmission st = Sent /\
  (cs_disconnect st = None -> exists e, cs_last_error st = Some e /\ request_transmission e = Some Sent).

Lemma call_failed_evidence k st :
  evidence k st -> request_transmission (call_failed st) = Some NotSent -> k = O.
Proof.
  intros He Hr. destruct k as [|k]; [done|]. destruct He as [Ht Hl]; [lia|]. exfalso. revert Hr.
  unfold call_failed. destruct (cs_disconnect st) as [d|].
  - unfold failure. rewrite Ht. case_bool_decide; [|done]. case_bool_decide; simpl; congruence.
  - destruct Hl as (e & -> & Hs); [done|]. simpl. by rewrite Hs.
Qed.

Lemma transport_evidence t e : request_transmission (transport t e) = Some t.
Proof. done. Qed.

(** An attempt that wrote and failed shows it, unless the reader refused its
    record. *)
Lemma attempt_evidence a e :
  (forall r, a = AtAnswered r -> reader_answer r) -> (forall m, a <> AtAnswered (Err (Rpc m))) ->
  attempt_result a = Err e -> attempt_wrote a = true -> request_transmission e = Some Sent.
Proof.
  intros Ha Hm. destruct a as [| | | | | |[d|e'|]| |]; try done; try (intros [= <-]; done).
  specialize (Ha _ eq_refl). destruct e'; try done; intros [= <-] _; [done|].
  by edestruct Hm.
Qed.

Lemma parse_not_sent d xid e :
  parse_rpc_response d xid = Err e -> request_transmission e <> Some NotSent.
Proof.
  unfold parse_rpc_response, read_u32_at, slice_from, obind. intros H.
  repeat (case_match; simplify_eq/=; try done).
Qed.

Lemma note_transmission_evidence k st e e' t w :
  evidence k st -> (w = true -> request_transmission e = Some Sent) ->
  note_transmission st e = (e', t) -> (0 < k + (if w : bool then 1 else 0))%nat ->
  t = Sent /\ request_transmission e' = Some Sent.
Proof.
  intros He Hw. unfold note_transmission. case_bool_decide as H1; [by intros [= <- <-]|].
  destruct w; [by destruct H1; auto|]. rewrite Nat.add_0_r. intros Hn Hk.
  destruct (He Hk) as [Ht _]. rewrite Ht in Hn. rewrite bool_decide_eq_true_2 in Hn by done.
  by simplify_eq.
Qed.

Lemma call_loop_writes rest attempt bypass env st :
  (snd (call_loop rest attempt bypass env st) <= rest)%nat.
Proof.
  revert attempt st. induction rest as [|rest IH]; intros attempt st; cbn [call_loop]; [done|].
  assert (Hw : forall st', ((if attempt_wrote (it_attempt (env attempt)) then 1 else 0) +
                 snd (call_loop rest (S attempt) bypass env st') <= S rest)%nat).
  { intros st'. pose proof (IH (S attempt) st'). destruct (attempt_wrote _); lia. }
  assert (H1 : ((if attempt_wrote (it_attempt (env attempt)) then 1 else 0) <= S rest)%nat).
  { destruct (attempt_wrote _); lia. }
  repeat (case_match; simplify_eq/=; try lia; try done);
    match goal with H : call_loop _ _ _ _ ?s = _ |- _ => specialize (Hw s); rewrite H in Hw end; simpl in *; lia.
Qed.

Lemma call_loop_truthful rest attempt bypass env st k e :
  answers_from_reader env -> no_malformed_record env -> evidence k st ->
  (call_loop rest attempt bypass env st).1 = Err e -> request_transmission e = Some NotSent ->
  (k + (call_loop rest attempt bypass env st).2 = 0)%nat.
Proof.
  intros Ha Hm. revert attempt st k. induction rest as [|rest IH]; intros attempt st k He; cbn [call_loop].
  { intros [= <-] Hr. rewrite (call_failed_evidence k st); done. }
  destruct (it_expired (env attempt)).
  { intros [= <-] Hr. rewrite (call_failed_evidence k st); done. }
  destruct (attempt_result (it_attempt (env attempt))) as [d|e0|] eqn:Hres.
  { intros Hp Hn. by destruct (parse_not_sent _ _ _ Hp). }
  2: done.
  pose proof (fun Hw => attempt_evidence _ e0 (Ha attempt) (Hm attempt) Hres Hw) as Hev.
  destruct (note_transmission st e0) as [e1 t] eqn:Hnote.
  pose proof (note_transmission_evidence k st e0 e1 t _ He Hev Hnote) as Hsent.
  set (w := if attempt_wrote (it_attempt (env attempt)) then 1%nat else 0%nat) in *.
  assert (Hag : forall st' (o : result bytes * nat),
    evidence (k + w) st' ->
    o = (let '(r, n) := call_loop rest (S attempt) bypass env st' in (r, (w + n)%nat)) ->
    o.1 = Err e -> request_transmission e = Some NotSent -> (k + o.2 = 0)%nat).
  { intros st' o Hs ->. specialize (IH (S attempt) st' (k + w)%nat Hs).
    destruct (call_loop rest (S attempt) bypass env st'). simpl in *. intros. lia || (rewrite <- IH; [lia|done|done]). }
  assert (Hend : forall st' (o : result bytes * nat),
    evidence (k + w) st' -> o = (Err (call_failed st'), w) ->
    o.1 = Err e -> request_transmission e = Some NotSent -> (k + o.2 = 0)%nat).
  { intros st' o Hs -> [= <-] Hr. by apply (call_failed_evidence _ st'). }
  assert (Hstop : forall o : result bytes * nat, o = (Err e1, w) -> o.1 = Err e ->
    request_transmission e = Some NotSent -> (k + o.2 = 0)%nat).
  { intros o -> [= <-] Hr. simpl. destruct (decide (0 < k + w)%nat) as [Hk|]; [|lia].
    destruct (Hsent Hk). congruence. }
  assert (Hd : forall d l, evidence (k + w) {| cs_last_error := l; cs_disconnect := Some d; cs_transmission := t |}).
  { intros d l Hk. by destruct (Hsent Hk). }
  cbn [cs_last_error cs_disconnect cs_transmission].
  destruct bypass; [by apply Hstop|]. destruct (is_connection_lost e1).
  - destruct (Nat.eqb rest 0); [by eapply Hend|].
    destruct (next_delay _) as [[]|]; [|by eapply Hend].
    destruct (it_reconnect _) as [[u|error|]|]; [by eapply Hag| |done|by eapply Hend].
    destruct (is_connection_lost error); [by eapply Hag|by eapply Hend].
  - case_bool_decide.
    + eapply Hag; [|done]. intros Hk. destruct (Hsent Hk) as [-> Hs]. eauto.
    + destruct (cs_disconnect st) eqn:Hdis; [by eapply Hend|by apply Hstop].
Qed.

(** C33: a call makes at most the attempts its policy allows; and where the policy
    makes a single attempt, or no record is malformed, a call that fails with the
    evidence that it was not sent has put no byte on the wire in any attempt. The
    reader answers with records, connection failures and refusals of malformed
    records. Without the condition the evidence may be wrong
    ([refused_record_reported_not_sent]). *)
Theorem call_not_sent_is_truthful has_mount_mux msg_body policy bypass env e :
  answers_from_reader env -> max_attempts policy = 1%nat \/ no_malformed_record env ->
  let '(r, writes) := call_with_data_inner has_mount_mux msg_body policy bypass env in
  (writes <= max_attempts policy)%nat /\
  (r = Err e -> request_transmission e = Some NotSent -> writes = 0%nat).
Proof.
  intros Ha Hm. unfold call_with_data_inner. destruct (get_mux _ _); [|split; [lia|done]..].
  destruct (call_loop _ _ _ _ _) as [r writes] eqn:Hc. split.
  { pose proof (call_loop_writes (max_attempts policy) 0 bypass env call_state_new) as Hw.
    by rewrite Hc in Hw. }
  intros -> Hr.
  assert (He : evidence 0 call_state_new) by (intros ?; lia).
  destruct Hm as [H1|Hm].
  2: { pose proof (call_loop_truthful (max_attempts policy) 0 bypass env call_state_new 0 e Ha Hm He) as Ht.
       rewrite Hc in Ht. by apply Ht. }
  rewrite H1 in Hc. destruct (it_attempt (env 0%nat)) as [| | | | | |[|[]|]| |] eqn:Hat.
  all: try (pose proof (call_loop_truthful 1 0 bypass (fun _ => env 0%nat) call_state_new 0 e) as Ht;
    change (call_loop 1 0 bypass (fun _ => env 0%nat)) with (call_loop 1 0 bypass env) in Ht;
    rewrite Hc in Ht; apply Ht; [intros ? ?; apply Ha|intros ? ?; congruence|done..]).
  revert Hc. cbn [call_loop]. rewrite Hat. simpl. repeat case_match; intros; simplify_eq/=; done.
Qed.

(** A refused record after a lost connection is reported as a call that was not
    sent, although the second attempt wrote it. *)
Definition refused_after_loss (i : nat) : iteration :=
  {| it_expired := false; it_xid := 1;
     it_attempt := if Nat.eqb i 0 then AtReaderStopped
                   else AtAnswered (Err (Rpc "RPC fragment size 8388608 exceeds maximum 4198400"));
     it_reconnect := RcDone (Ok ()) |}.
Lemma refused_record_reported_not_sent :
  exists e, call_loop 2 0 false refused_after_loss call_state_new = (Err e, 1%nat) /\
    request_transmission e = Some NotSent.
Proof. eexists. split; reflexivity. Qed.

Lemma call_not_sent_is_truthful_witness :
  let env (i : nat) := {| it_expired := Nat.leb 2 i; it_xid := 1;
    it_attempt := AtReaderStopped; it_reconnect := RcDone (Ok ()) |} in
  let e := transport NotSent (Io NotConnected (IoMessage "RPC connection reader has stopped")) in
  call_with_data_inner false [] {| max_attempts := 3 |} false env = (Err e, 0%nat) /\
  (0 <= 3)%nat /\ (Err e = @Err NfsError bytes e -> request_transmission e = Some NotSent -> 0%nat = 0%nat).
Proof.
  intros env e. split; [reflexivity|].
  apply (call_not_sent_is_truthful false [] {| max_attempts := 3 |} false env e); [intros ? ?; done|right; intros ? ?; done].
Defined.
