(* ===== verification/ClientCore.v ===== *)
(** * Admission, draining and teardown of a client

    Models [src/src/client_core.rs]: operations and owned tasks are admitted
    while the client is ready and counted while they run; closing waits for both
    counters, closes the registered resources, unmounts, and publishes one report
    to every caller of [close].

    Every atomic access and every critical section of the code is one step of one
    task; [core_step] interleaves any number of tasks. Interleavings are
    sequentially consistent. [tokio::sync::Notify] is modelled as documented: a
    [Notified] future gets the wake-ups of [notify_waiters] from its creation on.
    What the driver answers is chosen by the step. *)
From S2P Require Import Prelude Errors.
From stdpp Require Import base list numbers strings relations.
#[local] Open Scope Z_scope.

(** ** Data *)

Definition READY : Z := 0.
Definition CLOSING : Z := 1.
Definition CLOSED : Z := 2.

Inductive ClientLifecycle : Type := LcReady | LcClosing | LcClosed.

Record CoreRecoveryEvent : Type := {
  ev_operation : string; ev_safe_path : option string; ev_protocol : NFSVersion;
  ev_outcome : OperationOutcomeKind; ev_recovery : RecoveryAction;
  ev_completed_bytes : option Z; ev_message : string;
}.

Record RecoveryEventQueue : Type := { capacity : Z; dropped : Z; events : list CoreRecoveryEvent }.

(** The two counters and the registry; a mutex is poisoned when a task panicked
    while it held it. *)
Record ClientCore : Type := {
  lifecycle_word : Z;
  next_resource_key : Z;
  in_flight : Z;
  resources : list Z;
  owned_tasks : Z;
  recovery_queue : RecoveryEventQueue;
  close_started : bool;
  close_report : option (list NfsError);
  registry_locked : bool;
  events_poisoned : bool;
  registry_poisoned : bool;
  close_poisoned : bool;
}.

Definition core_build (cap : Z) : ClientCore :=
  {| lifecycle_word := READY; next_resource_key := 1; in_flight := 0; resources := [];
     owned_tasks := 0; recovery_queue := {| capacity := cap; dropped := 0; events := [] |};
     close_started := false; close_report := None; registry_locked := false;
     events_poisoned := false; registry_poisoned := false; close_poisoned := false |}.
Definition core_new : ClientCore := core_build 256.

Definition with_recovery_event_capacity (cap : Z) : result ClientCore :=
  if cap =? 0 then Err (InvalidInput "recovery-event capacity must be positive")
  else Ok (core_build cap).

(** Functional updates of one field. *)
Definition set_lifecycle (c : ClientCore) v : ClientCore :=
  {| lifecycle_word := v; next_resource_key := next_resource_key c; in_flight := in_flight c;
     resources := resources c; owned_tasks := owned_tasks c; recovery_queue := recovery_queue c;
     close_started := close_started c; close_report := close_report c;
     registry_locked := registry_locked c; events_poisoned := events_poisoned c;
     registry_poisoned := registry_poisoned c; close_poisoned := close_poisoned c |}.
Definition set_next_key (c : ClientCore) v : ClientCore :=
  {| lifecycle_word := lifecycle_word c; next_resource_key := v; in_flight := in_flight c;
     resources := resources c; owned_tasks := owned_tasks c; recovery_queue := recovery_queue c;
     close_started := close_started c; close_report := close_report c;
     registry_locked := registry_locked c; events_poisoned := events_poisoned c;
     registry_poisoned := registry_poisoned c; close_poisoned := close_poisoned c |}.
Definition set_counters (c : ClientCore) ops owned : ClientCore :=
  {| lifecycle_word := lifecycle_word c; next_resource_key := next_resource_key c; in_flight := ops;
     resources := resources c; owned_tasks := owned; recovery_queue := recovery_queue c;
     close_started := close_started c; close_report := close_report c;
     registry_locked := registry_locked c; events_poisoned := events_poisoned c;
     registry_poisoned := registry_poisoned c; close_poisoned := close_poisoned c |}.
Definition set_registry (c : ClientCore) v locked : ClientCore :=
  {| lifecycle_word := lifecycle_word c; next_resource_key := next_resource_key c;
     in_flight := in_flight c; resources := v; owned_tasks := owned_tasks c;
     recovery_queue := recovery_queue c; close_started := close_started c;
     close_report := close_report c; registry_locked := locked;
     events_poisoned := events_poisoned c; registry_poisoned := registry_poisoned c;
     close_poisoned := close_poisoned c |}.
Definition set_queue (c : ClientCore) v : ClientCore :=
  {| lifecycle_word := lifecycle_word c; next_resource_key := next_resource_key c;
     in_flight := in_flight c; resources := resources c; owned_tasks := owned_tasks c;
     recovery_queue := v; close_started := close_started c; close_report := close_report c;
     registry_locked := registry_locked c; events_poisoned := events_poisoned c;
     registry_poisoned := registry_poisoned c; close_poisoned := close_poisoned c |}.
Definition set_close (c : ClientCore) started rep : ClientCore :=
  {| lifecycle_word := lifecycle_word c; next_resource_key := next_resource_key c;
     in_flight := in_flight c; resources := resources c; owned_tasks := owned_tasks c;
     recovery_queue := recovery_queue c; close_started := started; close_report := rep;
     registry_locked := registry_locked c; events_poisoned := events_poisoned c;
     registry_poisoned := registry_poisoned c; close_poisoned := close_poisoned c |}.

(** ** Operations that are one critical section or one atomic access *)

Definition ensure_ready (c : ClientCore) : result () :=
  if lifecycle_word c =? READY then Ok ()
  else Err (ClientClosed "connected client is closing or closed").

Definition lifecycle (c : ClientCore) : ClientLifecycle :=
  if lifecycle_word c =? READY then LcReady
  else if lifecycle_word c =? CLOSING then LcClosing else LcClosed.

Definition record_recovery_event (c : ClientCore) (e : CoreRecoveryEvent) : result () * ClientCore :=
  if events_poisoned c then (Err (Rpc "recovery-event queue lock poisoned"), c)
  else
    let q := recovery_queue c in
    let q := if Z.of_nat (length (events q)) =? capacity q
             then {| capacity := capacity q; dropped := sat_add64 (dropped q) 1; events := tail (events q) |}
             else q in
    (Ok (), set_queue c {| capacity := capacity q; dropped := dropped q; events := events q ++ [e] |}).

Definition recovery_events (c : ClientCore) : result (list CoreRecoveryEvent) :=
  if events_poisoned c then Err (Rpc "recovery-event queue lock poisoned")
  else Ok (events (recovery_queue c)).
Definition drain_recovery_events (c : ClientCore) : result (list CoreRecoveryEvent) * ClientCore :=
  if events_poisoned c then (Err (Rpc "recovery-event queue lock poisoned"), c)
  else (Ok (events (recovery_queue c)),
        set_queue c {| capacity := capacity (recovery_queue c);
                       dropped := dropped (recovery_queue c); events := [] |}).
Definition dropped_recovery_event_count (c : ClientCore) : result Z :=
  if events_poisoned c then Err (Rpc "recovery-event queue lock poisoned")
  else Ok (dropped (recovery_queue c)).

Definition allocate_resource_key (c : ClientCore) : result Z * ClientCore :=
  match ensure_ready c with
  | Ok _ => (Ok (next_resource_key c), set_next_key c (wrap64 (next_resource_key c + 1)))
  | Err e => (Err e, c)
  | Panic => (Panic, c)
  end.

(** [position] and [Vec::remove]. *)
Fixpoint remove_first (k : Z) (l : list Z) : option (list Z) :=
  match l with
  | [] => None
  | x :: l => if x =? k then Some l
              else match remove_first k l with Some l' => Some (x :: l') | None => None end
  end.
Definition unregister_resource (c : ClientCore) (k : Z) : result bool * ClientCore :=
  if registry_poisoned c then (Err (Rpc "client resource registry lock poisoned"), c)
  else match remove_first k (resources c) with
       | None => (Ok false, c)
       | Some l => (Ok true, set_registry c l (registry_locked c))
       end.

(** [publish_resource] checks the lifecycle while it holds the registry's lock;
    the lifecycle may change before the key is pushed. *)
Definition publish_check (c : ClientCore) : result ClientCore :=
  if registry_poisoned c then Err (Rpc "client resource registry lock poisoned")
  else match ensure_ready c with
       | Ok _ => Ok (set_registry c (resources c) true)
       | Err e => Err e
       | Panic => Panic
       end.
Definition publish_push (c : ClientCore) (k : Z) : ClientCore :=
  set_registry c (resources c ++ [k]) false.
Definition resource_count (c : ClientCore) : Z := Z.of_nat (length (resources c)).

(** Operations and owned tasks are counted alike. *)
Inductive work : Type := Operation | OwnedTask.
#[global] Instance work_eq_dec : EqDecision work.
Proof. solve_decision. Defined.

Definition counter (k : work) (c : ClientCore) : Z :=
  match k with Operation => in_flight c | OwnedTask => owned_tasks c end.
Definition set_counter (k : work) (c : ClientCore) (v : Z) : ClientCore :=
  match k with
  | Operation => set_counters c v (owned_tasks c)
  | OwnedTask => set_counters c (in_flight c) v
  end.
(** [DrainCounter]: [decrement] also says whether it has to notify. *)
Definition increment (k : work) (c : ClientCore) : ClientCore := set_counter k c (wrap64 (counter k c + 1)).
Definition decrement (k : work) (c : ClientCore) : bool * ClientCore :=
  (counter k c =? 1, set_counter k c (wrap64 (counter k c - 1))).

(** ** Tasks *)

(** Where a task is. An operation or owned task passes [ensure_ready], counts
    itself, passes it again, runs, and leaves; a closer of the client may start
    the cleanup task, and waits for its report. A waiter's flag says whether its
    [Notified] future was woken. *)
Inductive phase : Type :=
| Entering (k : work)
| Checked (k : work)
| Counted (k : work)
| Running (k : work)
| Leaving (k : work)
| Notifying (k : work)
| Publishing (key : Z)
| Pushing (key : Z)
| Unregistering (key : Z)
| CloseCalled
| CloseFirst
| CloseLoop
| CloseCreated (woken : bool)
| CloseAwait (woken : bool)
| CloseReturned (r : list NfsError)
| DrainLoop (k : work)
| DrainMissed (k : work)
| DrainCreated (k : work) (woken : bool)
| DrainAwait (k : work) (woken : bool)
| Taking
| ClosingResources (rest : list Z) (errors : list NfsError)
| Unmounting (errors : list NfsError)
| MarkClosed (errors : list NfsError)
| Reporting (errors : list NfsError)
| ReportNotify
| Finished.

(** [notify_waiters] of a counter and of [close_notify]. *)
Definition wake_drain (k : work) (p : phase) : phase :=
  match p with
  | DrainCreated k' w => DrainCreated k' (w || bool_decide (k' = k))
  | DrainAwait k' w => DrainAwait k' (w || bool_decide (k' = k))
  | _ => p
  end.
Definition wake_close (p : phase) : phase :=
  match p with
  | CloseCreated _ => CloseCreated true
  | CloseAwait _ => CloseAwait true
  | _ => p
  end.

(** After the operations have drained, the owned tasks; then the cleanup. *)
Definition drained (k : work) : phase :=
  match k with Operation => DrainLoop OwnedTask | OwnedTask => Taking end.

(** The errors reported for poisoned locks. *)
Definition poison_errors (c : ClientCore) : list NfsError :=
  (if close_poisoned c then [Rpc "client close-state lock poisoned"] else []) ++
  (if registry_poisoned c then [Rpc "client resource registry lock poisoned"] else []).

Definition push_error (r : result ()) (errors : list NfsError) : list NfsError :=
  match r with Err e => errors ++ [e] | _ => errors end.

Inductive core_event : Type :=
| EvPublished (k : Z)
| EvUnregistered (k : Z)
| EvCleanup
| EvResourceClosed (k : Z) (r : result ())
| EvUmounted (r : result ())
| EvReported (errors : list NfsError).

(** One step of one task: the core, the task, the others, and what it did. *)
Inductive task_step : ClientCore -> phase -> ClientCore -> list phase -> (phase -> phase) ->
    list core_event -> Prop :=
| st_check c k : ensure_ready c = Ok () -> task_step c (Entering k) c [Checked k] id []
| st_check_fail c k e : ensure_ready c = Err e -> task_step c (Entering k) c [Finished] id []
| st_count c k : task_step c (Checked k) (increment k c) [Counted k] id []
| st_recheck c k : ensure_ready c = Ok () -> task_step c (Counted k) c [Running k] id []
| st_recheck_fail c k e : ensure_ready c = Err e -> task_step c (Counted k) c [Leaving k] id []
| st_end c k : task_step c (Running k) c [Leaving k] id []
| st_leave c k last c' : decrement k c = (last, c') ->
    task_step c (Leaving k) c' [if last then Notifying k else Finished] id []
| st_notify c k : task_step c (Notifying k) c [Finished] (wake_drain k) []
| st_publish c key c' : registry_locked c = false -> publish_check c = Ok c' ->
    task_step c (Publishing key) c' [Pushing key] id []
| st_publish_fail c key e : registry_locked c = false -> publish_check c = Err e ->
    task_step c (Publishing key) c [Finished] id []
| st_push c key : task_step c (Pushing key) (publish_push c key) [Finished] id [EvPublished key]
| st_unregister c key c' : registry_locked c = false -> unregister_resource c key = (Ok true, c') ->
    task_step c (Unregistering key) c' [Finished] id [EvUnregistered key]
| st_unregister_none c key r c' : registry_locked c = false -> unregister_resource c key = (r, c') ->
    r <> Ok true -> task_step c (Unregistering key) c' [Finished] id []
| st_close_first c : close_started c = false ->
    task_step c CloseCalled (set_close c true (close_report c)) [CloseFirst] id []
| st_close_later c : close_started c = true -> task_step c CloseCalled c [CloseLoop] id []
| st_close_store c : task_step c CloseFirst (set_lifecycle c CLOSING)
    [CloseLoop; DrainLoop Operation] id []
| st_close_create c : task_step c CloseLoop c [CloseCreated false] id []
| st_close_found c w r : close_report c = Some r -> task_step c (CloseCreated w) c [CloseReturned r] id []
| st_close_wait c w : close_report c = None -> task_step c (CloseCreated w) c [CloseAwait w] id []
| st_close_woken c : task_step c (CloseAwait true) c [CloseLoop] id []
| st_drained c k : counter k c = 0 -> task_step c (DrainLoop k) c [drained k] id []
| st_drain_busy c k : counter k c <> 0 -> task_step c (DrainLoop k) c [DrainMissed k] id []
| st_drain_create c k : task_step c (DrainMissed k) c [DrainCreated k false] id []
| st_drain_zero c k w : counter k c = 0 -> task_step c (DrainCreated k w) c [DrainLoop k] id []
| st_drain_wait c k w : counter k c <> 0 -> task_step c (DrainCreated k w) c [DrainAwait k w] id []
| st_drain_woken c k : task_step c (DrainAwait k true) c [DrainLoop k] id []
| st_take c : registry_locked c = false ->
    task_step c Taking (set_registry c [] false)
      [ClosingResources (resources c) (poison_errors c)] id [EvCleanup]
| st_close_resource c key rest errors r :
    task_step c (ClosingResources (key :: rest) errors) c
      [ClosingResources rest (push_error r errors)] id [EvResourceClosed key r]
| st_resources_done c errors : task_step c (ClosingResources [] errors) c [Unmounting errors] id []
| st_umount c errors r :
    task_step c (Unmounting errors) c [MarkClosed (push_error r errors)] id [EvUmounted r]
| st_mark_closed c errors :
    task_step c (MarkClosed errors) (set_lifecycle c CLOSED) [Reporting errors] id []
| st_report c errors :
    task_step c (Reporting errors) (set_close c (close_started c) (Some errors)) [ReportNotify] id
      [EvReported errors]
| st_report_notify c : task_step c ReportNotify c [Finished] wake_close [].

(** Where a task may start. A running operation or task may start others. *)
Definition starts (p : phase) : bool :=
  match p with Entering _ | Publishing _ | Unregistering _ | CloseCalled => true | _ => false end.

Record world : Type := { core : ClientCore; tasks : list phase; log : list core_event }.
Definition world_new (cap : Z) : world := {| core := core_build cap; tasks := []; log := [] |}.

(** A task panicked while it held one of the locks. *)
Definition poisoned (c c' : ClientCore) : Prop :=
  lifecycle_word c' = lifecycle_word c /\ next_resource_key c' = next_resource_key c /\
  in_flight c' = in_flight c /\ resources c' = resources c /\ owned_tasks c' = owned_tasks c /\
  close_started c' = close_started c /\ close_report c' = close_report c /\
  registry_locked c' = registry_locked c.

(** Fewer than 2^64 tasks exist at a time; finished ones disappear. *)
Inductive core_step : world -> world -> Prop :=
| core_task c l1 p l2 lg c' ps wake evs : task_step c p c' ps wake evs ->
    core_step {| core := c; tasks := l1 ++ p :: l2; log := lg |}
      {| core := c'; tasks := map wake l1 ++ ps ++ map wake l2; log := lg ++ evs |}
| core_spawn c l lg p : starts p = true -> Z.of_nat (length l) + 2 < 2 ^ 64 ->
    core_step {| core := c; tasks := l; log := lg |} {| core := c; tasks := p :: l; log := lg |}
| core_poison c c' l lg : poisoned c c' ->
    core_step {| core := c; tasks := l; log := lg |} {| core := c'; tasks := l; log := lg |}
| core_reap c l1 l2 lg :
    core_step {| core := c; tasks := l1 ++ Finished :: l2; log := lg |}
      {| core := c; tasks := l1 ++ l2; log := lg |}.

Definition reachable (w : world) : Prop := exists cap, rtc core_step (world_new cap) w.

(** ** Counting tasks *)

(** A step of one task changes a sum by what that task changes, when waking does
    not matter to it. *)
Lemma wsum_step (f : phase -> Z) wake l1 p ps l2 : (forall q, f (wake q) = f q) ->
  wsum f (map wake l1 ++ ps ++ map wake l2) = wsum f (l1 ++ p :: l2) - f p + wsum f ps.
Proof. intros H. rewrite !wsum_app, !wsum_map, wsum_cons by done. lia. Qed.

(** What is counted: tasks holding a count, running, notifying; the first closer,
    the cleanup task, how far it is; publishers that hold the registry. *)
Definition is_work (k k' : work) : Z := if decide (k = k') then 1 else 0.
Definition w_counted (k : work) (p : phase) : Z :=
  match p with Counted k' | Running k' | Leaving k' => is_work k k' | _ => 0 end.
Definition w_running (k : work) (p : phase) : Z := match p with Running k' => is_work k k' | _ => 0 end.
Definition w_notifying (k : work) (p : phase) : Z := match p with Notifying k' => is_work k k' | _ => 0 end.
Definition w_first (p : phase) : Z := match p with CloseFirst => 1 | _ => 0 end.
Definition w_draining (k : work) (p : phase) : Z :=
  match p with
  | DrainLoop k' | DrainMissed k' | DrainCreated k' _ | DrainAwait k' _ => is_work k k'
  | _ => 0
  end.
Definition w_taking (p : phase) : Z := match p with Taking => 1 | _ => 0 end.
Definition w_taken (p : phase) : Z :=
  match p with ClosingResources _ _ | Unmounting _ | MarkClosed _ | Reporting _ => 1 | _ => 0 end.
Definition w_umounted (p : phase) : Z := match p with MarkClosed _ | Reporting _ => 1 | _ => 0 end.
Definition w_pushing (p : phase) : Z := match p with Pushing _ => 1 | _ => 0 end.
Definition w_report_notify (p : phase) : Z := match p with ReportNotify => 1 | _ => 0 end.

(** Occurrences of a key. *)
Definition is_key (x y : Z) : Z := if x =? y then 1 else 0.
Definition occ (x : Z) (l : list Z) : Z := wsum (is_key x) l.
Definition w_pending (x : Z) (p : phase) : Z :=
  match p with ClosingResources rest _ => occ x rest | _ => 0 end.
Definition e_published (x : Z) (e : core_event) : Z := match e with EvPublished y => is_key x y | _ => 0 end.
Definition e_unregistered (x : Z) (e : core_event) : Z :=
  match e with EvUnregistered y => is_key x y | _ => 0 end.
Definition e_closed (x : Z) (e : core_event) : Z :=
  match e with EvResourceClosed y _ => is_key x y | _ => 0 end.
Definition e_any_closed (e : core_event) : Z := match e with EvResourceClosed _ _ => 1 | _ => 0 end.
Definition e_cleanup (e : core_event) : Z := match e with EvCleanup => 1 | _ => 0 end.
Definition e_umounted (e : core_event) : Z := match e with EvUmounted _ => 1 | _ => 0 end.

Definition reported (c : ClientCore) : Z :=
  Z.b2z (match close_report c with Some _ => true | None => false end).
Definition cleaning (l : list phase) : Z :=
  wsum (w_draining Operation) l + wsum (w_draining OwnedTask) l + wsum w_taking l + wsum w_taken l.

(** The invariant in three parts: the counters count the tasks; the stages of
    closing follow each other; the registry is accounted for. *)
Record counts_inv (w : world) : Prop := {
  inv_counter : forall k, counter k (core w) = wsum (w_counted k) (tasks w);
  inv_length : Z.of_nat (length (tasks w)) + Z.b2z (lifecycle_word (core w) =? READY) < 2 ^ 64;
}.

Record stage_inv (w : world) : Prop := {
  inv_started : close_started (core w) = false -> lifecycle_word (core w) = READY;
  inv_stage : wsum w_first (tasks w) + cleaning (tasks w) + reported (core w) =
    Z.b2z (close_started (core w));
  inv_ready : lifecycle_word (core w) = READY -> cleaning (tasks w) + reported (core w) = 0;
  inv_first : wsum w_first (tasks w) > 0 -> lifecycle_word (core w) = READY;
  inv_drained : wsum (w_draining OwnedTask) (tasks w) + wsum w_taking (tasks w) +
      wsum w_taken (tasks w) + reported (core w) > 0 -> wsum (w_running Operation) (tasks w) = 0;
  inv_taking : wsum w_taking (tasks w) + wsum w_taken (tasks w) + reported (core w) > 0 ->
      wsum (w_running OwnedTask) (tasks w) = 0;
}.

Record registry_inv (w : world) : Prop := {
  inv_pushing : wsum w_pushing (tasks w) = Z.b2z (registry_locked (core w));
  inv_taken : wsum w_taken (tasks w) + reported (core w) > 0 -> wsum w_pushing (tasks w) = 0;
  inv_empty : wsum w_taken (tasks w) + reported (core w) > 0 -> resources (core w) = [];
  inv_cleanup : wsum e_cleanup (log w) = wsum w_taken (tasks w) + reported (core w);
  inv_umounted : wsum e_umounted (log w) = wsum w_umounted (tasks w) + reported (core w);
  inv_closed : wsum w_taken (tasks w) + reported (core w) = 0 -> wsum e_any_closed (log w) = 0;
  inv_keys : forall x, wsum (e_published x) (log w) = wsum (e_unregistered x) (log w) +
      wsum (e_closed x) (log w) + occ x (resources (core w)) + wsum (w_pending x) (tasks w);
}.

(** ** The invariant is kept *)

Lemma is_work_bounds k k' : 0 <= is_work k k' <= 1.
Proof. unfold is_work. case_decide; lia. Qed.
Lemma is_key_nonneg x y : 0 <= is_key x y.
Proof. unfold is_key. case_match; lia. Qed.

(** Sums of the tasks before and after a step. *)
Ltac wake_tac := let q := fresh in intros q; destruct q; reflexivity.
Ltac nonneg_tac := let q := fresh in
  intros q; destruct q; cbn; repeat case_match;
  try (match goal with |- context[is_work ?a ?b] => pose proof (is_work_bounds a b) end); lia.
Lemma counted_le_length k l : wsum (w_counted k) l <= Z.of_nat (length l).
Proof.
  induction l as [|p l IH]; [done|]. rewrite wsum_cons, length_cons, Nat2Z.inj_succ.
  enough (w_counted k p <= 1) by lia. revert p. nonneg_tac.
Qed.

Lemma decrement_eq k c last c' : decrement k c = (last, c') ->
  last = (counter k c =? 1) /\ c' = set_counter k c (wrap64 (counter k c - 1)).
Proof. by intros [= <- <-]. Qed.
Lemma publish_check_ok c c' : publish_check c = Ok c' ->
  lifecycle_word c = READY /\ c' = set_registry c (resources c) true.
Proof.
  unfold publish_check, ensure_ready. destruct (registry_poisoned c); [done|].
  destruct (Z.eqb_spec (lifecycle_word c) READY); [|done]. by intros [= <-].
Qed.
Lemma remove_first_occ k l l' x : remove_first k l = Some l' -> occ x l = occ x l' + is_key x k.
Proof.
  revert l'. induction l as [|y l IH]; [done|]. intros l'. cbn [remove_first].
  destruct (Z.eqb_spec y k) as [->|].
  - intros [= <-]. unfold occ. rewrite wsum_cons. lia.
  - destruct (remove_first k l) as [r|]; [|done]. intros [= <-]. unfold occ in *.
    rewrite !wsum_cons, (IH r) by done. lia.
Qed.
Lemma unregister_eq c key r c' : unregister_resource c key = (r, c') ->
  (r = Ok true /\ resources c <> [] /\ exists l, c' = set_registry c l (registry_locked c) /\
     forall x, occ x (resources c) = occ x l + is_key x key) \/ (r <> Ok true /\ c' = c).
Proof.
  unfold unregister_resource. destruct (registry_poisoned c); [intros [= <- <-]; by right|].
  destruct (remove_first key (resources c)) as [l|] eqn:E; intros [= <- <-]; [left|by right].
  split_and!; [done|by intros E'; rewrite E' in E|]. exists l. split; [done|].
  intros x. by apply remove_first_occ.
Qed.

Lemma ensure_ready_ok c : ensure_ready c = Ok () <-> lifecycle_word c = READY.
Proof. unfold ensure_ready. destruct (Z.eqb_spec (lifecycle_word c) READY); by split. Qed.
Lemma ensure_ready_err c e : ensure_ready c = Err e -> lifecycle_word c <> READY.
Proof. unfold ensure_ready. by destruct (Z.eqb_spec (lifecycle_word c) READY). Qed.
Lemma reported_bounds c : 0 <= reported c <= 1.
Proof. unfold reported. destruct (match close_report c with Some _ => true | None => false end); cbn; lia. Qed.

(** The equations of the step's guards. *)
Ltac step_guards :=
  repeat match goal with
  | H : ensure_ready _ = Ok () |- _ => apply ensure_ready_ok in H
  | H : ensure_ready _ = Err _ |- _ => apply ensure_ready_err in H
  | H : decrement _ _ = _ |- _ => apply decrement_eq in H as [-> ->]
  | H : publish_check _ = Ok _ |- _ => apply publish_check_ok in H as [? ->]
  | H : unregister_resource _ _ = (Ok true, _) |- _ =>
      apply unregister_eq in H as [(_ & ? & ? & -> & ?)|[? ->]]; [|congruence]
  | H : unregister_resource _ _ = (?r, _), H' : ?r <> Ok true |- _ =>
      apply unregister_eq in H as [(? & _)|[_ ->]]; [congruence|]
  end.

Lemma counted_others k p l1 l2 : w_counted k p = 0 ->
  wsum (w_counted k) (l1 ++ p :: l2) + 1 <= Z.of_nat (length (l1 ++ p :: l2)).
Proof.
  intros Hp. rewrite wsum_app, wsum_cons, Hp, length_app, length_cons.
  pose proof (counted_le_length k l1). pose proof (counted_le_length k l2). lia.
Qed.

Lemma counter_set k0 k c v :
  counter k0 (set_counter k c v) = counter k0 c + is_work k0 k * (v - counter k c).
Proof. unfold is_work. case_decide; destruct k0, k; try congruence; cbn -[Z.mul Z.sub Z.add]; lia. Qed.

Lemma lifecycle_set k c v : lifecycle_word (set_counter k c v) = lifecycle_word c.
Proof. by destruct k. Qed.

Lemma counts_step c l1 p l2 lg c' ps wake evs :
  counts_inv {| core := c; tasks := l1 ++ p :: l2; log := lg |} ->
  (p = CloseFirst -> lifecycle_word c = READY) -> task_step c p c' ps wake evs ->
  counts_inv {| core := c'; tasks := map wake l1 ++ ps ++ map wake l2; log := lg ++ evs |}.
Proof.
  intros [H1 H2] Hf Hs. cbn [core tasks] in *. split; cbn [core tasks].
  - intros k0. pose proof (H1 k0) as H0. pose proof (counted_others k0 p l1 l2) as Ho.
    pose proof (wsum_elem (w_counted k0) p (l1 ++ p :: l2) ltac:(nonneg_tac)
      ltac:(apply elem_of_app; right; left)) as Hge.
    pose proof (wsum_nonneg (w_counted k0) (l1 ++ p :: l2) ltac:(nonneg_tac)) as Hn.
    pose proof (counted_le_length k0 (l1 ++ p :: l2)) as Hle.
    assert (H2' : Z.of_nat (length (l1 ++ p :: l2)) < 2 ^ 64) by (destruct (_ =? _); cbn in H2; lia).
    clear H1 H2 Hf.
    destruct Hs; step_guards;
      (match type of H0 with _ = wsum _ (l1 ++ ?q :: l2) => rewrite (wsum_step _ _ l1 q _ l2) by wake_tac end);
      rewrite <- H0 in *; cbn [w_counted wsum foldr] in *; try lia;
      try (destruct k0; cbn; lia).
    + unfold increment. rewrite counter_set. unfold is_work. case_decide; [|lia]. subst k.
      unfold wrap64. rewrite Z.mod_small by lia. lia.
    + rewrite counter_set. unfold is_work in *. case_decide; [|case_match; cbn; lia]. subst k.
      unfold wrap64. rewrite Z.mod_small by lia. case_match; cbn; lia.
    + destruct k; cbn; lia.
  - enough (Z.of_nat (length (map wake l1 ++ ps ++ map wake l2)) + Z.b2z (lifecycle_word c' =? READY) <=
      Z.of_nat (length (l1 ++ p :: l2)) + Z.b2z (lifecycle_word c =? READY)) by lia.
    rewrite !length_app, !length_map, length_cons. clear H1 H2.
    destruct Hs; step_guards; unfold increment;
      cbn [length lifecycle_word set_close set_registry set_lifecycle publish_push];
      rewrite ?lifecycle_set; try lia.
    + rewrite Hf by done. cbn. lia.
    + destruct (lifecycle_word c =? READY); cbn; lia.
Qed.

Lemma reported_set_counter k c v : reported (set_counter k c v) = reported c.
Proof. by destruct k. Qed.
Lemma reported_set_registry c v l : reported (set_registry c v l) = reported c.
Proof. done. Qed.
Lemma reported_set_lifecycle c v : reported (set_lifecycle c v) = reported c.
Proof. done. Qed.
Lemma reported_kept c s : reported (set_close c s (close_report c)) = reported c.
Proof. done. Qed.
Lemma reported_some c s r : reported (set_close c s (Some r)) = 1.
Proof. done. Qed.
Lemma started_set k c v : close_started (set_counter k c v) = close_started c.
Proof. by destruct k. Qed.
Lemma is_work_same k : is_work k k = 1.
Proof. unfold is_work. by case_decide. Qed.
Lemma is_work_O : is_work Operation OwnedTask = 0.
Proof. done. Qed.
Lemma is_work_T : is_work OwnedTask Operation = 0.
Proof. done. Qed.
Ltac stage_sums q l1 l2 :=
  rewrite ?(wsum_step w_first _ l1 q _ l2), ?(wsum_step (w_draining _) _ l1 q _ l2),
    ?(wsum_step w_taking _ l1 q _ l2), ?(wsum_step w_taken _ l1 q _ l2),
    ?(wsum_step (w_running _) _ l1 q _ l2) by wake_tac.

Lemma stage_step c l1 p l2 lg c' ps wake evs :
  counts_inv {| core := c; tasks := l1 ++ p :: l2; log := lg |} ->
  stage_inv {| core := c; tasks := l1 ++ p :: l2; log := lg |} -> task_step c p c' ps wake evs ->
  stage_inv {| core := c'; tasks := map wake l1 ++ ps ++ map wake l2; log := lg ++ evs |}.
Proof.
  intros [Hc _] [H1 H2 H3 H4 H5 H6] Hs. cbn [core tasks] in *. pose proof (reported_bounds c).
  pose proof (Hc Operation) as Ho. pose proof (Hc OwnedTask) as Hw. clear Hc.
  pose proof (wsum_le (w_running Operation) (w_counted Operation) (l1 ++ p :: l2) ltac:(nonneg_tac)).
  pose proof (wsum_le (w_running OwnedTask) (w_counted OwnedTask) (l1 ++ p :: l2) ltac:(nonneg_tac)).
  assert (Hge : forall f, (forall q, 0 <= f q) -> f p <= wsum f (l1 ++ p :: l2) /\ 0 <= wsum f (l1 ++ p :: l2)).
  { intros f Hf. split; [|by apply wsum_nonneg]. apply wsum_elem; [done|]. apply elem_of_app. right. left. }
  pose proof (Hge w_first ltac:(nonneg_tac)). pose proof (Hge (w_draining Operation) ltac:(nonneg_tac)).
  pose proof (Hge (w_draining OwnedTask) ltac:(nonneg_tac)). pose proof (Hge w_taking ltac:(nonneg_tac)).
  pose proof (Hge w_taken ltac:(nonneg_tac)). pose proof (Hge (w_running Operation) ltac:(nonneg_tac)).
  pose proof (Hge (w_running OwnedTask) ltac:(nonneg_tac)). clear Hge. unfold cleaning in *.
  destruct Hs; step_guards; split; cbn [core tasks]; unfold cleaning;
    (match type of H2 with context[l1 ++ ?q :: l2] => stage_sums q l1 l2 end);
    unfold increment, publish_push;
    rewrite ?reported_set_counter, ?started_set, ?lifecycle_set, ?reported_set_registry,
      ?reported_set_lifecycle, ?reported_kept, ?reported_some;
    cbn [close_started lifecycle_word set_registry set_close set_lifecycle];
    repeat match goal with |- context[if ?b then Notifying _ else _] => destruct b end;
    (match goal with k : work |- _ => destruct k | _ => idtac end);
    cbn [w_first w_draining w_taking w_taken w_running w_counted wsum foldr drained counter] in *;
    rewrite ?is_work_same, ?is_work_O, ?is_work_T in *;
    try assumption; try lia;
    unfold READY, CLOSING, CLOSED in *; destruct (close_started c); cbn [Z.b2z] in *; try done; try lia.
Qed.

Ltac registry_sums q l1 l2 :=
  rewrite ?(wsum_step w_pushing _ l1 q _ l2), ?(wsum_step w_taken _ l1 q _ l2),
    ?(wsum_step w_umounted _ l1 q _ l2), ?(wsum_step (w_pending _) _ l1 q _ l2) by wake_tac.

Lemma occ_app x a b : occ x (a ++ b) = occ x a + occ x b.
Proof. apply wsum_app. Qed.
Lemma occ_cons x y l : occ x (y :: l) = is_key x y + occ x l.
Proof. done. Qed.
Lemma occ_nil x : occ x [] = 0.
Proof. done. Qed.
Lemma locked_set k c v : registry_locked (set_counter k c v) = registry_locked c.
Proof. by destruct k. Qed.
Lemma resources_set k c v : resources (set_counter k c v) = resources c.
Proof. by destruct k. Qed.

Lemma registry_step c l1 p l2 lg c' ps wake evs :
  stage_inv {| core := c; tasks := l1 ++ p :: l2; log := lg |} ->
  registry_inv {| core := c; tasks := l1 ++ p :: l2; log := lg |} -> task_step c p c' ps wake evs ->
  registry_inv {| core := c'; tasks := map wake l1 ++ ps ++ map wake l2; log := lg ++ evs |}.
Proof.
  intros [_ Hst Hr _ _ _] [H1 H2 H3 H4 H5 H6 H7] Hs. cbn [core tasks log] in *. pose proof (reported_bounds c).
  assert (Hge : forall f, (forall q, 0 <= f q) -> f p <= wsum f (l1 ++ p :: l2) /\ 0 <= wsum f (l1 ++ p :: l2)).
  { intros f Hf. split; [|by apply wsum_nonneg]. apply wsum_elem; [done|]. apply elem_of_app. right. left. }
  pose proof (Hge w_taken ltac:(nonneg_tac)). pose proof (Hge w_pushing ltac:(nonneg_tac)).
  assert (Hr' : lifecycle_word c = READY -> wsum w_taken (l1 ++ p :: l2) + reported c = 0).
  { intros E. specialize (Hr E). unfold cleaning in Hr.
    pose proof (Hge (w_draining Operation) ltac:(nonneg_tac)).
    pose proof (Hge (w_draining OwnedTask) ltac:(nonneg_tac)). pose proof (Hge w_taking ltac:(nonneg_tac)). lia. }
  assert (Hone : wsum w_taken (l1 ++ p :: l2) + reported c <= 1).
  { unfold cleaning in Hst. pose proof (Hge (w_draining Operation) ltac:(nonneg_tac)).
    pose proof (Hge (w_draining OwnedTask) ltac:(nonneg_tac)). pose proof (Hge w_taking ltac:(nonneg_tac)).
    pose proof (Hge w_first ltac:(nonneg_tac)). destruct (close_started c); cbn in Hst; lia. }
  clear Hge Hr Hst.
  destruct Hs; step_guards; split; cbn [core tasks log];
    (match type of H2 with context[l1 ++ ?q :: l2] => try (let y := fresh "y" in intros y; specialize (H7 y)); registry_sums q l1 l2 end);
    rewrite ?(wsum_app _ lg);
    unfold increment, publish_push;
    rewrite ?reported_set_counter, ?locked_set, ?resources_set, ?reported_set_registry,
      ?reported_set_lifecycle, ?reported_kept, ?reported_some;
    cbn [registry_locked resources set_registry set_close set_lifecycle];
    repeat match goal with |- context[if ?b then Notifying _ else _] => destruct b end;
    (match goal with |- context[drained ?k] => destruct k | _ => idtac end);
    cbn [w_pushing w_taken w_umounted w_pending wsum foldr drained e_published e_unregistered e_closed
         e_any_closed e_cleanup e_umounted] in *;
    rewrite ?occ_app, ?occ_cons, ?occ_nil in *; cbn [Z.b2z] in *;
    try assumption; try lia; try (intros; apply H3; lia);
    try (destruct (registry_locked c); cbn [Z.b2z] in *; try congruence; lia).
  - intros Hp. exfalso. apply H10. apply H3. lia.
  - rewrite H11 in H7. lia.
Qed.

(** *** Wake-ups and errors *)

Definition w_sleeping (k : work) (p : phase) : Z := match p with DrainAwait k' false => is_work k k' | _ => 0 end.
Definition w_waiting (p : phase) : Z := match p with CloseAwait false => 1 | _ => 0 end.
Definition w_closers (p : phase) : Z :=
  match p with CloseFirst | CloseLoop | CloseCreated _ | CloseAwait _ => 1 | _ => 0 end.

(** A sleeping waiter has someone who will wake it. *)
Record wake_inv (w : world) : Prop := {
  inv_sleeping : forall k, wsum (w_sleeping k) (tasks w) > 0 ->
    wsum (w_counted k) (tasks w) + wsum (w_notifying k) (tasks w) > 0;
  inv_waiting : wsum w_waiting (tasks w) > 0 -> reported (core w) <= wsum w_report_notify (tasks w);
  inv_closers : wsum w_closers (tasks w) > 0 -> close_started (core w) = true;
}.

Lemma wake_drain_sleeping k k' l :
  wsum (w_sleeping k) (map (wake_drain k') l) = if decide (k = k') then 0 else wsum (w_sleeping k) l.
Proof.
  induction l as [|p l IH]; [by case_decide|]. cbn [map]. rewrite !wsum_cons, IH.
  destruct p as [| | | | | | | | | | | | | | | | | |k1 w| | | | | | |]; cbn [wake_drain w_sleeping];
    try (case_decide; lia).
  destruct w; cbn [orb]; [case_decide; lia|].
  case_bool_decide; unfold is_work; repeat case_decide; subst; try congruence; lia.
Qed.
Lemma wake_close_waiting l : wsum w_waiting (map wake_close l) = 0.
Proof. induction l as [|p l IH]; [done|]. cbn [map]. rewrite wsum_cons, IH. by destruct p. Qed.

Lemma wake_step c l1 p l2 lg c' ps wake evs :
  counts_inv {| core := c; tasks := l1 ++ p :: l2; log := lg |} ->
  wake_inv {| core := c; tasks := l1 ++ p :: l2; log := lg |} -> task_step c p c' ps wake evs ->
  wake_inv {| core := c'; tasks := map wake l1 ++ ps ++ map wake l2; log := lg ++ evs |}.
Proof.
  intros [Hc _] [H1 H2 H3] Hs. cbn [core tasks] in *. pose proof (reported_bounds c).
  assert (Hge : forall f, (forall q, 0 <= f q) -> f p <= wsum f (l1 ++ p :: l2) /\ 0 <= wsum f (l1 ++ p :: l2)).
  { intros f Hf. split; [|by apply wsum_nonneg]. apply wsum_elem; [done|]. apply elem_of_app. right. left. }
  pose proof (Hge w_report_notify ltac:(nonneg_tac)). pose proof (Hge w_closers ltac:(nonneg_tac)).
  split; cbn [core tasks].
  - intros k0. specialize (Hc k0). specialize (H1 k0). pose proof (Hge (w_counted k0) ltac:(nonneg_tac)).
    pose proof (Hge (w_notifying k0) ltac:(nonneg_tac)).
    assert (Hsl : forall k', wsum (w_sleeping k0) (map (wake_drain k') l1 ++ [Finished] ++ map (wake_drain k') l2) =
      if decide (k0 = k') then 0 else wsum (w_sleeping k0) l1 + wsum (w_sleeping k0) l2).
    { intros k'. rewrite !wsum_app, !wake_drain_sleeping. cbn. case_decide; lia. }
    clear Hge. destruct Hs;
      (match type of H1 with context[l1 ++ ?q :: l2] =>
         rewrite ?(wsum_step (w_sleeping k0) id l1 q _ l2), ?(wsum_step (w_counted k0) _ l1 q _ l2),
           ?(wsum_step (w_notifying k0) _ l1 q _ l2), ?(wsum_step (w_sleeping k0) wake_close l1 q _ l2)
           by wake_tac end);
      cbn [w_sleeping w_counted w_notifying wsum foldr drained] in *; try lia;
      try (match goal with k : work |- _ => pose proof (is_work_bounds k0 k) end; lia).
    + match goal with H : decrement _ _ = _ |- _ => apply decrement_eq in H as [-> _] end.
      unfold is_work in *. destruct (decide (k0 = k)) as [<-|].
      * destruct (Z.eqb_spec (counter k0 c) 1); cbn [w_sleeping w_counted w_notifying];
          rewrite ?is_work_same; lia.
      * assert (Hz : is_work k0 k = 0) by (unfold is_work; by case_decide).
        destruct (counter k c =? 1); cbn [w_sleeping w_counted w_notifying]; rewrite ?Hz; lia.
    + rewrite Hsl. unfold is_work in *. rewrite wsum_app, wsum_cons in H1. cbn in H1.
      case_decide; [lia|]. lia.
    + destruct k; cbn [w_sleeping w_counted w_notifying drained]; lia.
    + unfold is_work. destruct w; [lia|]. case_decide; [subst k; lia|lia].
  - destruct Hs;
      (match type of H2 with context[l1 ++ ?q :: l2] =>
         rewrite ?(wsum_step w_waiting id l1 q _ l2), ?(wsum_step w_waiting (wake_drain _) l1 q _ l2),
           ?(wsum_step w_report_notify _ l1 q _ l2) by wake_tac end);
      step_guards; unfold increment, publish_push;
      rewrite ?reported_set_counter, ?reported_set_registry, ?reported_set_lifecycle,
        ?reported_kept, ?reported_some;
      try (match goal with |- context[drained ?k] => destruct k end);
      try (match goal with |- context[if ?b then Notifying _ else _] => destruct b end);
      cbn [w_waiting w_report_notify wsum foldr drained] in *; try lia.
    + unfold reported. match goal with H : close_report c = None |- _ => rewrite H end. cbn. lia.
    + rewrite !wsum_app, !wake_close_waiting. cbn. lia.
  - destruct Hs; step_guards; unfold increment, publish_push; rewrite ?started_set;
      cbn [close_started set_registry set_close set_lifecycle];
      (match type of H2 with context[l1 ++ ?q :: l2] =>
         rewrite ?(wsum_step w_closers _ l1 q _ l2) by wake_tac end);
      try (match goal with |- context[drained ?k] => destruct k end);
      try (match goal with |- context[if ?b then Notifying _ else _] => destruct b end);
      cbn [w_closers wsum foldr drained] in *; try done; intros; try (apply H3; lia).
Qed.

(** The errors the cleanup has collected so far. *)
Definition phase_errors (p : phase) : option (list NfsError) :=
  match p with
  | ClosingResources _ errors | Unmounting errors | MarkClosed errors | Reporting errors => Some errors
  | _ => None
  end.
Definition logged (lg : list core_event) (e : NfsError) : Prop :=
  (exists k, EvResourceClosed k (Err e) ∈ lg) \/ EvUmounted (Err e) ∈ lg.
Record errors_inv (w : world) : Prop := {
  inv_errors : forall p errors e, p ∈ tasks w -> phase_errors p = Some errors -> logged (log w) e -> e ∈ errors;
  inv_report : forall errors e, close_report (core w) = Some errors -> logged (log w) e -> e ∈ errors;
}.

Lemma logged_app lg evs e : logged (lg ++ evs) e <-> logged lg e \/ logged evs e.
Proof. unfold logged. setoid_rewrite elem_of_app. naive_solver. Qed.
Lemma logged_nil e : ~ logged [] e.
Proof. intros [[k H]|H]; by apply elem_of_nil in H. Qed.
Lemma phase_errors_taken p : is_Some (phase_errors p) <-> w_taken p = 1.
Proof. destruct p; cbn; split; try done; by intros []. Qed.
Lemma phase_errors_wake wake p : wake = id \/ (exists k, wake = wake_drain k) \/ wake = wake_close ->
  phase_errors (wake p) = phase_errors p.
Proof. intros [->|[[k ->]| ->]]; by destruct p. Qed.
Lemma not_logged lg e : wsum e_any_closed lg = 0 -> wsum e_umounted lg = 0 -> ~ logged lg e.
Proof.
  intros H1 H2 [[k H]|H].
  - apply (wsum_elem e_any_closed) in H; [cbn in H; lia|]. intros []; cbn; lia.
  - apply (wsum_elem e_umounted) in H; [cbn in H; lia|]. intros []; cbn; lia.
Qed.
Lemma push_error_in r errors e : e ∈ errors -> e ∈ push_error r errors.
Proof. intros H. destruct r; cbn; [done| |done]. apply elem_of_app. by left. Qed.
Lemma logged_one_closed k r e errors : logged [EvResourceClosed k r] e -> e ∈ push_error r errors.
Proof.
  intros [[k' H]|H]; apply list_elem_of_singleton in H; [|done]. injection H as <- <-.
  cbn. apply elem_of_app. right. by left.
Qed.
Lemma logged_one_umounted r e errors : logged [EvUmounted r] e -> e ∈ push_error r errors.
Proof.
  intros [[k' H]|H]; apply list_elem_of_singleton in H; [done|]. injection H as <-.
  cbn. apply elem_of_app. right. by left.
Qed.

Lemma step_wakes c p c' ps wake evs : task_step c p c' ps wake evs ->
  wake = id \/ (exists k, wake = wake_drain k) \/ wake = wake_close.
Proof. intros []; eauto. Qed.
Lemma step_logs c p c' ps wake evs e : task_step c p c' ps wake evs -> logged evs e -> w_taken p = 1.
Proof.
  intros Hs Hl. destruct Hs; try done; exfalso; try (by apply logged_nil in Hl);
    destruct Hl as [[? Hl]|Hl]; apply list_elem_of_singleton in Hl; discriminate Hl.
Qed.
Lemma step_report c p c' ps wake evs : task_step c p c' ps wake evs ->
  close_report c' = close_report c \/ exists errors, p = Reporting errors /\ close_report c' = Some errors.
Proof.
  intros []; try (by left); try (left; by destruct k); step_guards; try (by left); try (left; by destruct k).
  right. by eexists.
Qed.
Lemma step_errors c p c' ps wake evs q errors : task_step c p c' ps wake evs -> q ∈ ps ->
  phase_errors q = Some errors ->
  (p = Taking) \/
  exists errors0, phase_errors p = Some errors0 /\
    (forall e, e ∈ errors0 -> e ∈ errors) /\ (forall e, logged evs e -> e ∈ errors).
Proof.
  intros Hs Hq Hp.
  destruct Hs; try (left; done); right;
    repeat (apply elem_of_cons in Hq as [->|Hq]); try (by apply elem_of_nil in Hq); try discriminate Hp;
    try (by destruct k); try (by destruct last0); cbn in Hp; injection Hp as <-; eexists;
    (split; [reflexivity|]); split; intros e; rewrite ?logged_app; try done;
    eauto using push_error_in, logged_one_closed, logged_one_umounted; try (intros []%logged_nil).
Qed.

Lemma taken_alone c l1 p l2 lg : stage_inv {| core := c; tasks := l1 ++ p :: l2; log := lg |} ->
  w_taken p = 1 -> reported c = 0 /\ forall q, q ∈ l1 ++ l2 -> phase_errors q = None.
Proof.
  intros [_ H _ _ _ _] Hp. cbn [core tasks] in H. unfold cleaning in H.
  pose proof (wsum_nonneg w_first (l1 ++ p :: l2) ltac:(nonneg_tac)).
  pose proof (wsum_nonneg (w_draining Operation) (l1 ++ p :: l2) ltac:(nonneg_tac)).
  pose proof (wsum_nonneg (w_draining OwnedTask) (l1 ++ p :: l2) ltac:(nonneg_tac)).
  pose proof (wsum_nonneg w_taking (l1 ++ p :: l2) ltac:(nonneg_tac)).
  rewrite (wsum_app w_taken), wsum_cons, Hp in H. pose proof (reported_bounds c).
  pose proof (wsum_nonneg w_taken l1 ltac:(nonneg_tac)). pose proof (wsum_nonneg w_taken l2 ltac:(nonneg_tac)).
  assert (Z.b2z (close_started c) <= 1) by (destruct (close_started c); cbn; lia).
  split; [lia|]. intros q Hq. apply (wsum_elem w_taken) in Hq; [|nonneg_tac]. rewrite wsum_app in Hq.
  destruct (phase_errors q) eqn:E; [|done]. assert (w_taken q = 1) by (apply phase_errors_taken; by eexists). lia.
Qed.

Lemma taking_unlogged c l lg : stage_inv {| core := c; tasks := l; log := lg |} -> Taking ∈ l ->
  wsum w_taken l = 0 /\ reported c = 0.
Proof.
  intros [_ H _ _ _ _] Hp. cbn [core tasks] in H. unfold cleaning in H.
  pose proof (wsum_nonneg w_first l ltac:(nonneg_tac)).
  pose proof (wsum_nonneg (w_draining Operation) l ltac:(nonneg_tac)).
  pose proof (wsum_nonneg (w_draining OwnedTask) l ltac:(nonneg_tac)).
  pose proof (wsum_nonneg w_taken l ltac:(nonneg_tac)). pose proof (reported_bounds c).
  apply (wsum_elem w_taking) in Hp; [|nonneg_tac]. cbn in Hp.
  assert (Z.b2z (close_started c) <= 1) by (destruct (close_started c); cbn; lia). lia.
Qed.
Lemma reporting_unlogged c er c' ps wake evs e :
  task_step c (Reporting er) c' ps wake evs -> ~ logged evs e.
Proof.
  intros Hs [[k Hl]|Hl]; inversion Hs; subst; apply list_elem_of_singleton in Hl; discriminate Hl.
Qed.

Lemma errors_step c l1 p l2 lg c' ps wake evs :
  stage_inv {| core := c; tasks := l1 ++ p :: l2; log := lg |} ->
  registry_inv {| core := c; tasks := l1 ++ p :: l2; log := lg |} ->
  errors_inv {| core := c; tasks := l1 ++ p :: l2; log := lg |} -> task_step c p c' ps wake evs ->
  errors_inv {| core := c'; tasks := map wake l1 ++ ps ++ map wake l2; log := lg ++ evs |}.
Proof.
  intros HS HR [H1 H2] Hs. cbn [core tasks log] in *.
  pose proof (fun e => step_logs _ _ _ _ _ _ e Hs) as Hlog.
  pose proof (taken_alone _ _ _ _ _ HS) as Hone.
  assert (Hold : forall q errors e, q ∈ l1 ++ l2 -> phase_errors q = Some errors ->
            logged (lg ++ evs) e -> e ∈ errors).
  { intros q errors e Hq Hp [Hl|Hl]%logged_app.
    - apply (H1 q errors e); [|done|done]. apply elem_of_app in Hq as [?|?]; apply elem_of_app; [by left|right].
      by right.
    - destruct (Hone (Hlog e Hl)) as [_ Hn]. specialize (Hn q Hq). congruence. }
  assert (Hp : p ∈ l1 ++ p :: l2) by (apply elem_of_app; right; left).
  split; cbn [core tasks log].
  - intros q errors e Hq Hpe Hl. rewrite !elem_of_app in Hq.
    assert (Hcase : (exists q0, q = wake q0 /\ q0 ∈ l1 ++ l2) \/ q ∈ ps).
    { destruct Hq as [Hq|[Hq|Hq]]; [left|by right|left]; apply list_elem_of_fmap in Hq as (q0 & -> & Hq0);
        exists q0; (split; [done|]); apply elem_of_app; auto. }
    destruct Hcase as [(q0 & -> & Hq0)|Hin].
    + rewrite (phase_errors_wake _ _ (step_wakes _ _ _ _ _ _ Hs)) in Hpe. by eapply Hold.
    + destruct (step_errors _ _ _ _ _ _ _ _ Hs Hin Hpe) as [->|(errors0 & E0 & Hi & Hn)].
      * exfalso. apply logged_app in Hl as [Hl|Hl]; [|by apply Hlog in Hl].
        revert Hl. apply taking_unlogged in HS as [Ht Hz]; [|done].
        destruct HR as [_ _ _ _ Hu Hcl _]. cbn [core tasks log] in *. apply not_logged; [by apply Hcl; lia|].
        pose proof (wsum_le w_umounted w_taken (l1 ++ Taking :: l2) ltac:(nonneg_tac)).
        pose proof (wsum_nonneg w_umounted (l1 ++ Taking :: l2) ltac:(nonneg_tac)). lia.
      * apply logged_app in Hl as [Hl|Hl]; [|by apply Hn]. apply Hi. by apply (H1 p).
  - intros errors e Hr Hl. destruct (step_report _ _ _ _ _ _ Hs) as [E|(er & -> & E)]; rewrite E in Hr.
    + apply logged_app in Hl as [Hl|Hl]; [by eapply H2|].
      destruct (Hone (Hlog e Hl)) as [Hz _]. unfold reported in Hz. by rewrite Hr in Hz.
    + injection Hr as <-. apply logged_app in Hl as [Hl|Hl]; [by apply (H1 (Reporting er))|].
      by apply (reporting_unlogged _ _ _ _ _ _ e Hs) in Hl.
Qed.

(** ** Reachable states *)

Record core_inv (w : world) : Prop := {
  inv_counts : counts_inv w;
  inv_stages : stage_inv w;
  inv_registry : registry_inv w;
  inv_wakes : wake_inv w;
  inv_all_errors : errors_inv w;
}.

(** Tasks that have not begun or have finished do not matter. *)
Definition quiet (p : phase) : bool := starts p || match p with Finished => true | _ => false end.

Lemma quiet_inv c l l' lg :
  (forall f : phase -> Z, (forall q, quiet q = true -> f q = 0) -> wsum f l' = wsum f l) ->
  (forall q, q ∈ l' -> q ∈ l \/ quiet q = true) ->
  Z.of_nat (length l') + Z.b2z (lifecycle_word c =? READY) < 2 ^ 64 ->
  core_inv {| core := c; tasks := l; log := lg |} -> core_inv {| core := c; tasks := l'; log := lg |}.
Proof.
  intros Hf Hin Hlen [[C1 C2] [S1 S2 S3 S4 S5 S6] [R1 R2 R3 R4 R5 R6 R7] [W1 W2 W3] [E1 E2]].
  cbn [core tasks log] in *.
  assert (Hq : forall f : phase -> Z, (forall q, quiet q = true -> f q = 0) -> wsum f l = wsum f l')
    by (intros f Hz; by rewrite Hf).
  split; split; cbn [core tasks log]; unfold cleaning in *; try done;
    try (intros k; specialize (C1 k)); try (intros k; specialize (W1 k)); try (intros k; specialize (R7 k));
    rewrite ?Hf by (intros []; done); try done.
  - apply W1.
  - intros p errors e Hp Hpe Hl. destruct (Hin p Hp) as [?|Hqu]; [by eapply E1|]. by destruct p.
Qed.

Lemma core_step_inv w w' : core_inv w -> core_step w w' -> core_inv w'.
Proof.
  intros [HC HS HR HW HE] Hs. destruct Hs as [c l1 p l2 lg c' ps wake evs Ht|c l lg p Hp Hl|c c' l lg Hp|c l1 l2 lg].
  - split; eauto using stage_step, registry_step, wake_step, errors_step.
    eapply counts_step; [done| |done]. intros ->. destruct HS as [_ _ _ HS _ _]. cbn [core tasks] in HS. apply HS.
    pose proof (wsum_elem w_first CloseFirst (l1 ++ CloseFirst :: l2) ltac:(nonneg_tac)
      ltac:(apply elem_of_app; right; left)) as H. cbn [w_first] in H. lia.
  - apply (quiet_inv c l); [| | |done].
    + intros f Hf. rewrite wsum_cons, Hf; [done|]. unfold quiet. by rewrite Hp.
    + intros q [->|?]%elem_of_cons; [right|by left]. unfold quiet. by rewrite Hp.
    + rewrite length_cons. destruct (lifecycle_word c =? READY); cbn; lia.
  - destruct Hp as (P1 & P2 & P3 & P4 & P5 & P6 & P7 & P8).
    destruct HC as [C1 C2], HS as [S1 S2 S3 S4 S5 S6], HR as [R1 R2 R3 R4 R5 R6 R7], HW as [W1 W2 W3], HE as [E1 E2].
    assert (Hrep : reported c' = reported c) by (unfold reported; by rewrite P7).
    split; split; cbn [core tasks log] in *; rewrite ?Hrep, ?P1, ?P4, ?P6, ?P7, ?P8 in *; try done.
    intros []; [rewrite <- (C1 Operation)|rewrite <- (C1 OwnedTask)]; cbn; congruence.
  - apply (quiet_inv c (l1 ++ Finished :: l2)); [| | |done].
    + intros f Hf. rewrite !wsum_app, wsum_cons, (Hf Finished) by done. lia.
    + intros q Hq. left. rewrite elem_of_app, elem_of_cons. apply elem_of_app in Hq. tauto.
    + destruct HC as [_ HC]. cbn [core tasks] in HC. rewrite length_app, length_cons in HC.
      rewrite length_app. lia.
Qed.

Lemma core_reachable_inv w : reachable w -> core_inv w.
Proof.
  intros [cap Hr]. remember (world_new cap) as w0 eqn:E. assert (HI : core_inv w0).
  { subst w0. split; split; cbn; try done; try lia; try (intros; lia); try (intros []; done).
    all: intros; by apply elem_of_nil in H || done. }
  clear E. induction Hr; [done|]. by eauto using core_step_inv.
Qed.

(** ** Properties *)

Lemma running_counted w k : wsum (w_running k) (tasks w) = 0 -> Running k ∉ tasks w.
Proof.
  intros H Hin. apply (wsum_elem (w_running k)) in Hin; [|nonneg_tac]. cbn [w_running] in Hin.
  rewrite is_work_same in Hin. lia.
Qed.

(** C21: teardown never races with work. From the moment the cleanup takes the
    registered resources, no admitted operation and no owned task is running, no
    resource is registered any more, and no operation will be admitted again,
    whatever the interleaving of admissions, completions, registrations and
    concurrent closes. *)
Theorem teardown_exclusive w : reachable w -> EvCleanup ∈ log w ->
  (forall k, Running k ∉ tasks w) /\ resources (core w) = [] /\
  (forall w' k, rtc core_step w w' -> Running k ∉ tasks w') /\ ensure_ready (core w) <> Ok ().
Proof.
  intros Hr Hin.
  assert (Hkey : forall w, reachable w -> EvCleanup ∈ log w -> forall k, Running k ∉ tasks w).
  { clear w Hr Hin. intros w Hr Hin k. destruct (core_reachable_inv w Hr) as [_ [_ _ _ _ H5 H6] [_ _ _ H4 _ _ _] _ _].
    apply (wsum_elem e_cleanup) in Hin; [|intros []; cbn; lia]. cbn [e_cleanup] in Hin.
    pose proof (wsum_nonneg (w_draining OwnedTask) (tasks w) ltac:(nonneg_tac)).
    pose proof (wsum_nonneg w_taking (tasks w) ltac:(nonneg_tac)).
    apply running_counted. destruct k; [apply H5; lia|apply H6; lia]. }
  split_and!.
  - by apply Hkey.
  - destruct (core_reachable_inv w Hr) as [_ _ [_ _ H3 H4 _ _ _] _ _].
    apply (wsum_elem e_cleanup) in Hin; [|intros []; cbn; lia]. cbn [e_cleanup] in Hin. apply H3. lia.
  - intros w' k Hs. apply Hkey.
    + destruct Hr as [cap Hr]. exists cap. by etrans.
    + clear Hr Hkey. induction Hs as [|w1 w2 w3 Hs _ IH]; [done|]. apply IH.
      destruct Hs; cbn [log] in *; try done. apply elem_of_app. by left.
  - intros E. apply ensure_ready_ok in E. destruct (core_reachable_inv w Hr) as [_ [_ _ H3 _ _ _] [_ _ _ H4 _ _ _] _ _].
    apply (wsum_elem e_cleanup) in Hin; [|intros []; cbn; lia]. cbn [e_cleanup] in Hin.
    specialize (H3 E). unfold cleaning in H3.
    pose proof (wsum_nonneg (w_draining OwnedTask) (tasks w) ltac:(nonneg_tac)).
    pose proof (wsum_nonneg (w_draining Operation) (tasks w) ltac:(nonneg_tac)).
    pose proof (wsum_nonneg w_taking (tasks w) ltac:(nonneg_tac)). lia.
Qed.

(** A client with one resource that is being closed. *)
Definition demo_taken : world :=
  {| core := set_registry (set_lifecycle (set_close (set_registry (core_build 1) [7] false) true None) CLOSING) [] false;
     tasks := [CloseLoop; ClosingResources [7] []; Finished];
     log := [EvPublished 7; EvCleanup] |}.

(** Run the task after [l1] by rule [H]. *)
Ltac run_task l1 H := eapply rtc_l; [eapply (core_task _ l1); H|cbn [map app id drained]].

Lemma demo_taken_reachable : reachable demo_taken.
Proof.
  exists 1. unfold world_new.
  eapply rtc_l; [by apply (core_spawn _ _ _ (Publishing 7))|].
  run_task (@nil phase) ltac:(by eapply st_publish).
  run_task (@nil phase) ltac:(by eapply st_push).
  eapply rtc_l; [by apply (core_spawn _ _ _ CloseCalled)|].
  run_task (@nil phase) ltac:(by eapply st_close_first).
  run_task (@nil phase) ltac:(by eapply st_close_store).
  run_task [CloseLoop] ltac:(by eapply (st_drained _ Operation)).
  run_task [CloseLoop] ltac:(by eapply (st_drained _ OwnedTask)).
  run_task [CloseLoop] ltac:(by eapply st_take).
  apply rtc_refl.
Qed.

Lemma teardown_exclusive_witness : EvCleanup ∈ log demo_taken /\ (forall k, Running k ∉ tasks demo_taken).
Proof.
  assert (H : EvCleanup ∈ log demo_taken) by (right; left).
  split; [exact H|]. apply (teardown_exclusive demo_taken demo_taken_reachable H).
Defined.

(** The report of a close is complete. When it is published, every resource
    that was ever registered has been unregistered by its owner or closed, each
    registration exactly once, the mount has been unmounted exactly once, and
    the report holds every error the driver returned. *)
Theorem close_report_complete w errors : reachable w -> close_report (core w) = Some errors ->
  (forall x, wsum (e_published x) (log w) = wsum (e_unregistered x) (log w) + wsum (e_closed x) (log w)) /\
  wsum e_umounted (log w) = 1 /\ (forall e, logged (log w) e -> e ∈ errors).
Proof.
  intros Hr Er. destruct (core_reachable_inv w Hr) as [_ [_ H2 _ _ _ _] [_ _ R3 _ R5 _ R7] _ [_ E2]].
  assert (Hrep : reported (core w) = 1) by (unfold reported; by rewrite Er).
  pose proof (wsum_nonneg w_first (tasks w) ltac:(nonneg_tac)).
  pose proof (wsum_nonneg (w_draining Operation) (tasks w) ltac:(nonneg_tac)).
  pose proof (wsum_nonneg (w_draining OwnedTask) (tasks w) ltac:(nonneg_tac)).
  pose proof (wsum_nonneg w_taking (tasks w) ltac:(nonneg_tac)).
  pose proof (wsum_nonneg w_taken (tasks w) ltac:(nonneg_tac)).
  pose proof (wsum_nonneg w_umounted (tasks w) ltac:(nonneg_tac)).
  pose proof (wsum_le w_umounted w_taken (tasks w) ltac:(nonneg_tac)).
  assert (Z.b2z (close_started (core w)) <= 1) by (destruct (close_started (core w)); cbn; lia).
  unfold cleaning in H2. split_and!; [|lia|by intros; eapply E2].
  intros x. rewrite R7, R3, occ_nil by lia.
  assert (Hp : wsum (w_pending x) (tasks w) = 0); [|lia].
  assert (Hz : forall l, wsum w_taken l = 0 -> wsum (w_pending x) l = 0); [|apply Hz; lia].
  clear. induction l as [|p l IH]; [done|]. rewrite !wsum_cons.
  pose proof (wsum_nonneg w_taken l ltac:(nonneg_tac)). intros Hs. rewrite IH by (destruct p; cbn in *; lia).
  destruct p; cbn in *; lia.
Qed.

(** The same client after its resource failed to close and it was unmounted. *)
Definition demo_reported : world :=
  {| core := set_close (set_lifecycle (core demo_taken) CLOSED) true (Some [Rpc "busy"]);
     tasks := [CloseLoop; ReportNotify; Finished];
     log := [EvPublished 7; EvCleanup; EvResourceClosed 7 (Err (Rpc "busy")); EvUmounted (Ok ());
             EvReported [Rpc "busy"]] |}.

Lemma demo_reported_reachable : reachable demo_reported.
Proof.
  destruct demo_taken_reachable as [cap H]. exists cap. etrans; [exact H|]. unfold demo_taken.
  run_task [CloseLoop] ltac:(apply (st_close_resource _ 7 [] [] (Err (Rpc "busy")))).
  run_task [CloseLoop] ltac:(apply st_resources_done).
  run_task [CloseLoop] ltac:(apply (st_umount _ _ (Ok ()))).
  run_task [CloseLoop] ltac:(apply st_mark_closed).
  run_task [CloseLoop] ltac:(apply st_report).
  apply rtc_refl.
Qed.

Lemma close_report_complete_witness :
  wsum e_umounted (log demo_reported) = 1 /\ Rpc "busy" ∈ [Rpc "busy"].
Proof.
  destruct (close_report_complete demo_reported [Rpc "busy"] demo_reported_reachable eq_refl) as (_ & H1 & H2).
  split; [exact H1|]. apply H2. left. exists 7. right. right. left.
Defined.

(** A task other than a running operation that can take a step now. *)
Definition enabled (c : ClientCore) (p : phase) : Prop :=
  exists c' ps wake evs, task_step c p c' ps wake evs.
(** Take the step. *)
Ltac fire := unfold enabled; do 4 eexists;
  first [apply (st_umount _ _ (Ok ())) | apply (st_close_resource _ _ _ _ (Ok ()))
        | solve [econstructor; eauto]].
Definition may_progress (w : world) : Prop :=
  exists p, p ∈ tasks w /\ (forall k, p <> Running k) /\ enabled (core w) p.

Lemma counted_progress w k : wsum (w_counted k) (tasks w) + wsum (w_notifying k) (tasks w) > 0 ->
  (exists k, Running k ∈ tasks w) \/ may_progress w.
Proof.
  intros H. destruct (decide (0 < wsum (w_counted k) (tasks w))) as [Hc|Hc].
  - apply wsum_pos in Hc as (p & Hin & Hp); [|nonneg_tac].
    destruct p as [| |k'|k'|k'| | | | | | | | | | | | | | | | | | | | |]; cbn in Hp; try lia.
    + right. exists (Counted k'). split_and!; [done|done|]. 
      destruct (ensure_ready (core w)) as [[]|e|] eqn:E; [fire|fire|].
      unfold ensure_ready in E. by case_match.
    + left. by exists k'.
    + right. exists (Leaving k'). split_and!; [done|done|]. fire.
  - assert (Hn : 0 < wsum (w_notifying k) (tasks w)) by lia. apply wsum_pos in Hn as (p & Hin & Hp); [|nonneg_tac].
    destruct p as [| | | | |k'| | | | | | | | | | | | | | | | | | | |]; cbn in Hp; try lia.
    right. exists (Notifying k'). split_and!; [done|done|]. fire.
Qed.

(** The task that closes the client, wherever it is. *)
Definition w_cleaner (p : phase) : Z :=
  w_first p + (w_draining Operation p + w_draining OwnedTask p + w_taking p + w_taken p).
Lemma w_cleaner_nonneg p : 0 <= w_cleaner p.
Proof.
  unfold w_cleaner. destruct p; cbn [w_first w_draining w_taking w_taken]; try lia;
    pose proof (is_work_bounds Operation k); pose proof (is_work_bounds OwnedTask k); lia.
Qed.
Lemma wsum_cleaner l : wsum w_cleaner l = wsum w_first l + cleaning l.
Proof.
  unfold cleaning. induction l as [|p l IH]; [done|]. rewrite !wsum_cons, IH. unfold w_cleaner. lia.
Qed.

Lemma cleaner_progress w : core_inv w -> wsum w_cleaner (tasks w) > 0 ->
  (exists k, Running k ∈ tasks w) \/ may_progress w.
Proof.
  intros [_ _ [R1 _ _ _ _ _ _] [W1 _ _] _] H.
  destruct (wsum_pos w_cleaner (tasks w)) as (p & Hin & Hp);
    [apply w_cleaner_nonneg|lia|].
  assert (Hmp : (forall k, p <> Running k) -> enabled (core w) p ->
            (exists k, Running k ∈ tasks w) \/ may_progress w) by (right; by exists p).
  destruct p as [| | | | | | | | | | | | | | |k|k|k b|k b| |rest errs| | | | |]; 
    try (exfalso; unfold w_cleaner in Hp; cbn in Hp; lia);
    try (apply Hmp; [done|fire]).
  - destruct (decide (counter k (core w) = 0)); apply Hmp; try done; fire.
  - destruct (decide (counter k (core w) = 0)); apply Hmp; try done; fire.
  - destruct b; [apply Hmp; [done|]; fire|].
    apply (counted_progress w k). apply W1. apply (wsum_elem (w_sleeping k)) in Hin; [|nonneg_tac].
    cbn [w_sleeping] in Hin. rewrite is_work_same in Hin. lia.
  - destruct (registry_locked (core w)) eqn:E; [|apply Hmp; [done|]; fire].
    cbn in R1. destruct (wsum_pos w_pushing (tasks w)) as (q & Hq & Hqp); [nonneg_tac|lia|].
    right. exists q. destruct q; cbn in Hqp; try lia. split_and!; [done|done|]. fire.
  - destruct rest; apply Hmp; try done; fire.
Qed.

(** C22: closing never gets stuck and no wake-up is lost. Whenever some caller of
    [close] has not been given its report, either an admitted operation or owned
    task is still running, or a task other than those can take a step now: the
    counters' and the report's notifications reach every waiter, however they
    interleave with its checks. *)
Theorem close_never_stuck w p : reachable w -> p ∈ tasks w -> w_closers p = 1 ->
  (exists k, Running k ∈ tasks w) \/ may_progress w.
Proof.
  intros Hr Hin Hp. pose proof (core_reachable_inv w Hr) as HI. pose proof HI as [_ [_ S2 _ _ _ _] _ [_ W2 W3] _].
  assert (Hst : close_started (core w) = true).
  { apply W3. apply (wsum_elem w_closers) in Hin; [lia|nonneg_tac]. }
  rewrite Hst in S2. cbn [Z.b2z] in S2. rewrite <- wsum_cleaner in S2. pose proof (reported_bounds (core w)).
  assert (Hmp : (forall k, p <> Running k) -> enabled (core w) p ->
            (exists k, Running k ∈ tasks w) \/ may_progress w) by (right; by exists p).
  assert (Hd : p = CloseAwait false \/ p <> CloseAwait false).
  { destruct p as [| | | | | | | | | | | | |[]| | | | | | | | | | | |]; auto. }
  destruct Hd as [->|Hne].
  - destruct (decide (reported (core w) = 0)); [apply cleaner_progress; [done|lia]|].
    assert (Hw : wsum w_waiting (tasks w) > 0).
    { apply (wsum_elem w_waiting) in Hin; [cbn [w_waiting] in Hin; lia|]. intros []; cbn; try lia. by destruct woken. }
    specialize (W2 Hw). destruct (wsum_pos w_report_notify (tasks w)) as (q & Hq & Hqp); [nonneg_tac|lia|].
    right. exists q. destruct q; cbn in Hqp; try lia. split_and!; [done|done|]. fire.
  - apply Hmp; [by destruct p|].
    destruct p as [| | | | | | | | | | | |b|b| | | | | | | | | | | |]; cbn in Hp; try lia;
      try fire.
    + destruct (close_report (core w)) eqn:E; fire.
    + destruct b; [fire|done].
Qed.

Lemma close_never_stuck_witness : CloseLoop ∈ tasks demo_taken /\
  ((exists k, Running k ∈ tasks demo_taken) \/ may_progress demo_taken).
Proof.
  assert (H : CloseLoop ∈ tasks demo_taken) by left. split; [exact H|].
  exact (close_never_stuck demo_taken CloseLoop demo_taken_reachable H eq_refl).
Defined.
