(* ===== verification/WriteOwner.v ===== *)
(** * Ownership of admitted writes

    Models [src/src/nfs41/write_owner.rs] and its client, [write] of
    [src/src/nfs41/mount.rs]. A write runs in a task of its own, so that it
    settles even when its caller is cancelled: the caller takes the result and
    acknowledges it, or announces that it has abandoned the write, and then the
    task commits the data itself or records an error against the file. A per-file
    lock, shared by the tasks and taken exclusively by the operations that must
    see every write settled, orders the two.

    Every access to a shared cell is one step, and the steps of any number of
    calls interleave. A caller may be cancelled where it awaits, and a task may
    die (panic, or be dropped) where it awaits. What the server answers is chosen
    by the step. The lock is modelled without its queue: whoever may hold it may
    get it. A spawned task is polled at least once. *)
From S2P Require Import Prelude Errors Compound41 Layout V42 PnfsIo.
From stdpp Require Import base list numbers strings gmap relations.
#[local] Open Scope Z_scope.

(** ** The owner *)

(** [gates] maps a file to the lock last made for it, a weak reference: a lock
    is named by a number, and lives as long as a call holds it. *)
Record WriteOwner : Type := {
  wr_minor_version : MinorVersion;
  gates : gmap bytes Z;
  errors : gmap bytes NfsError;
  abandoned : gmap bytes Z;
}.

Definition WriteOwner_new (v : MinorVersion) : WriteOwner :=
  {| wr_minor_version := v; gates := ∅; errors := ∅; abandoned := ∅ |}.

(** [strong_count() != 0] is given by [live], the next unused lock by [fresh]. *)
Definition gate (o : WriteOwner) (fh : bytes) (live : Z -> bool) (fresh : Z) : Z * WriteOwner :=
  let renewed := (fresh, {| wr_minor_version := wr_minor_version o;
                            gates := <[fh := fresh]> (filter (fun p => live p.2 = true) (gates o));
                            errors := errors o; abandoned := abandoned o |}) in
  match gates o !! fh with
  | Some g => if live g then (g, o) else renewed
  | None => renewed
  end.

Definition set_abandoned (o : WriteOwner) a : WriteOwner :=
  {| wr_minor_version := wr_minor_version o; gates := gates o; errors := errors o; abandoned := a |}.

Definition abandon (o : WriteOwner) (fh : bytes) : WriteOwner :=
  set_abandoned o (<[fh := wrap64 (default 0 (abandoned o !! fh) + 1)]> (abandoned o)).

Definition finish_abandoned (o : WriteOwner) (fh : bytes) : WriteOwner :=
  match abandoned o !! fh with
  | Some count =>
      if wrap64 (count - 1) =? 0 then set_abandoned o (delete fh (abandoned o))
      else set_abandoned o (<[fh := wrap64 (count - 1)]> (abandoned o))
  | None => o
  end.

Definition record (o : WriteOwner) (fh : bytes) (e : NfsError) : WriteOwner :=
  match errors o !! fh with
  | Some _ => o
  | None => {| wr_minor_version := wr_minor_version o; gates := gates o;
               errors := <[fh := e]> (errors o); abandoned := abandoned o |}
  end.

Definition version (v : MinorVersion) : NFSVersion := match v with V1 => NFSv4p1 | V2 => NFSv4p2 end.

Definition shared_uncertainty (e : NfsError) (p : NFSVersion) : NfsError :=
  let ctx := match operation_outcome e with
             | Some o => context o
             | None => {| operation := "abandoned_write"; protocol := p; request_id := None |}
             end in
  OperationOutcome (OperationOutcomeError_new Uncertain ReplaySensitive VerifyThenResume ctx
    (Io Other (IoCustom e))).

Definition write_error (o : WriteOwner) (fh : bytes) : option NfsError :=
  match errors o !! fh with
  | Some e => Some (shared_uncertainty e (version (wr_minor_version o)))
  | None => None
  end.

(** [values().next()] of a hash map: the order is not specified. *)
Definition any_error (o : WriteOwner) : option NfsError :=
  match map_to_list (errors o) with
  | (_, e) :: _ => Some (shared_uncertainty e (version (wr_minor_version o)))
  | [] => None
  end.

(** ** One call of [write] and its task *)

(** A [oneshot] channel with nothing to say but that it was used. *)
Inductive channel : Type := ChOpen | ChSent | ChDropped.

(** The caller. [WGate] to [WHaveAll] are [admit]; [WAbandon] to [WGone] the drop
    of an unacknowledged [WriteWaiter]. [BGate] to [BHold] are a caller of
    [barrier]. *)
Inductive wphase : Type :=
| WGate | WLock | WCheck | WCheckErr | WWaitAll | WHaveAll
| WAdmitted | WSpawn | WAwait | WTake
| WAcking (v : option (result WriteOutcome))
| WFail | WFailRecord
| WAbandon | WStore | WDropAck | WGone
| WEnd (v : option (result WriteOutcome))
| BGate | BLock | BHold.

(** What became of a write: its caller has the result, the task committed it, the
    task recorded an error, or the task died. *)
Inductive fate : Type :=
| FAcked (r : result WriteOutcome)
| FCommitted (o : WriteOutcome)
| FRecorded
| FDied.

(** The task. [TDropRecord] to [TDropFinish] are the drop of an unsettled
    [WriteTaskGuard]. *)
Inductive tphase : Type :=
| TNone | TStart | TWriting
| TStore (r : result WriteOutcome)
| TReady (r : result WriteOutcome)
| TAwaitAck (r : result WriteOutcome)
| TTake
| TCommit (o : WriteOutcome)
| TRecord (e : NfsError)
| TSettle (f : fate)
| TFinish (f : fate)
| TDropRecord | TDropSwap | TDropFinish
| TRelease (f : fate)
| TClose (f : fate)
| TDone (f : fate).

(** The file, its lock, the shared cells and where caller and task are. *)
Inductive call : Type :=
| Call (fh : bytes) (g : Z) (slot : option (result WriteOutcome)) (flag : bool)
    (ready ack : channel) (w : wphase) (t : tphase).

Definition c_fh (c : call) : bytes := let '(Call fh _ _ _ _ _ _ _) := c in fh.
Definition c_gate (c : call) : Z := let '(Call _ g _ _ _ _ _ _) := c in g.
Definition c_flag (c : call) : bool := let '(Call _ _ _ flag _ _ _ _) := c in flag.
Definition c_waiter (c : call) : wphase := let '(Call _ _ _ _ _ _ w _) := c in w.
Definition c_task (c : call) : tphase := let '(Call _ _ _ _ _ _ _ t) := c in t.

(** Who holds what: the task holds the shared side until it has settled. *)
Definition task_holds (t : tphase) : bool :=
  match t with TNone | TClose _ | TDone _ => false | _ => true end.
Definition reads (c : call) : bool :=
  match c_waiter c with WCheck | WCheckErr | WAdmitted | WSpawn => true | _ => false end ||
  task_holds (c_task c).
Definition writes (c : call) : bool :=
  match c_waiter c with WHaveAll | BHold => true | _ => false end.
Definition holds (c : call) : bool :=
  match c_waiter c with WLock | WWaitAll | BLock => true | _ => false end || reads c || writes c.

Definition w_reads (g : Z) (c : call) : Z := if reads c && (c_gate c =? g) then 1 else 0.
Definition w_writes (g : Z) (c : call) : Z := if writes c && (c_gate c =? g) then 1 else 0.
(** [strong_count() != 0]. *)
Definition live (l : list call) (g : Z) : bool := existsb (fun c => holds c && (c_gate c =? g)) l.

Definition task_died : NfsError := Rpc "admitted WRITE task ended without settlement".
Definition no_result : NfsError := Rpc "WRITE task ended without a result".

(** ** Steps *)

(** What a step of one call does to the owner and to the call, given the others
    and the next unused lock. *)
Inductive call_step (o : WriteOwner) (others : list call) (fresh : Z) : call -> WriteOwner -> call -> Prop :=
(* admit *)
| s_gate fh g0 g o' : gate o fh (live others) fresh = (g, o') ->
    call_step o others fresh (Call fh g0 None false ChOpen ChOpen WGate TNone)
      o' (Call fh g None false ChOpen ChOpen WLock TNone)
| s_read fh g s fl rd ak t : wsum (w_writes g) others = 0 ->
    call_step o others fresh (Call fh g s fl rd ak WLock t) o (Call fh g s fl rd ak WCheck t)
| s_read_cancel fh g s fl rd ak t :
    call_step o others fresh (Call fh g s fl rd ak WLock t) o (Call fh g s fl rd ak (WEnd None) t)
| s_check_none fh g s fl rd ak t : abandoned o !! fh = None ->
    call_step o others fresh (Call fh g s fl rd ak WCheck t) o (Call fh g s fl rd ak WAdmitted t)
| s_check_some fh g s fl rd ak t n : abandoned o !! fh = Some n ->
    call_step o others fresh (Call fh g s fl rd ak WCheck t) o (Call fh g s fl rd ak WCheckErr t)
| s_check_err fh g s fl rd ak t e : errors o !! fh = Some e ->
    call_step o others fresh (Call fh g s fl rd ak WCheckErr t) o (Call fh g s fl rd ak WAdmitted t)
| s_check_ok fh g s fl rd ak t : errors o !! fh = None ->
    call_step o others fresh (Call fh g s fl rd ak WCheckErr t) o (Call fh g s fl rd ak WWaitAll t)
| s_all fh g s fl rd ak t : wsum (w_writes g) others = 0 -> wsum (w_reads g) others = 0 ->
    call_step o others fresh (Call fh g s fl rd ak WWaitAll t) o (Call fh g s fl rd ak WHaveAll t)
| s_all_cancel fh g s fl rd ak t :
    call_step o others fresh (Call fh g s fl rd ak WWaitAll t) o (Call fh g s fl rd ak (WEnd None) t)
| s_again fh g s fl rd ak t :
    call_step o others fresh (Call fh g s fl rd ak WHaveAll t) o (Call fh g s fl rd ak WLock t)
(* the rest of the caller *)
| s_refused fh g s fl rd ak t e : write_error o fh = Some e ->
    call_step o others fresh (Call fh g s fl rd ak WAdmitted t)
      o (Call fh g s fl rd ak (WEnd (Some (Err e))) t)
| s_admitted fh g s fl rd ak t : write_error o fh = None ->
    call_step o others fresh (Call fh g s fl rd ak WAdmitted t) o (Call fh g s fl rd ak WSpawn t)
| s_spawn fh g s fl rd ak :
    call_step o others fresh (Call fh g s fl rd ak WSpawn TNone) o (Call fh g s fl rd ak WAwait TStart)
| s_spawn_fail fh g s fl rd ak t e :
    call_step o others fresh (Call fh g s fl rd ak WSpawn t)
      o (Call fh g s fl rd ak (WEnd (Some (Err e))) t)
| s_ready fh g s fl ak t :
    call_step o others fresh (Call fh g s fl ChSent ak WAwait t) o (Call fh g s fl ChSent ak WTake t)
| s_take fh g s fl rd ak t :
    call_step o others fresh (Call fh g s fl rd ak WTake t) o (Call fh g None fl rd ak (WAcking s) t)
| s_ack fh g s fl rd ak t v :
    call_step o others fresh (Call fh g s fl rd ak (WAcking v) t)
      o (Call fh g s fl rd ChSent
           (WEnd (Some (default (Err (Rpc "WRITE result was already consumed")) v))) t)
| s_not_ready fh g s fl ak t :
    call_step o others fresh (Call fh g s fl ChDropped ak WAwait t) o (Call fh g s fl ChDropped ChSent WFail t)
| s_fail_record fh g s fl rd ak t :
    call_step o others fresh (Call fh g s fl rd ak WFail t)
      (record o fh no_result) (Call fh g s fl rd ak WFailRecord t)
| s_fail_return fh g s fl rd ak t :
    call_step o others fresh (Call fh g s fl rd ak WFailRecord t)
      o (Call fh g s fl rd ak
           (WEnd (Some (Err (default (uncertain_pnfs_write
              {| operation := "write"; protocol := version (wr_minor_version o); request_id := None |}
              no_result) (write_error o fh))))) t)
(* the drop of a waiter that has not acknowledged *)
| s_cancel fh g s fl rd ak t :
    call_step o others fresh (Call fh g s fl rd ak WAwait t) o (Call fh g s fl rd ak WAbandon t)
| s_abandon fh g s fl rd ak t :
    call_step o others fresh (Call fh g s fl rd ak WAbandon t) (abandon o fh) (Call fh g s fl rd ak WStore t)
| s_store fh g s fl rd ak t :
    call_step o others fresh (Call fh g s fl rd ak WStore t) o (Call fh g s true rd ak WDropAck t)
| s_drop_ack fh g s fl rd ak t :
    call_step o others fresh (Call fh g s fl rd ak WDropAck t) o (Call fh g s fl rd ChDropped WGone t)
(* the task *)
| t_start fh g s fl rd ak w :
    call_step o others fresh (Call fh g s fl rd ak w TStart) o (Call fh g s fl rd ak w TWriting)
| t_written fh g s fl rd ak w r : r <> Panic ->
    call_step o others fresh (Call fh g s fl rd ak w TWriting) o (Call fh g s fl rd ak w (TStore r))
| t_store fh g s fl rd ak w r :
    call_step o others fresh (Call fh g s fl rd ak w (TStore r)) o (Call fh g (Some r) fl rd ak w (TReady r))
| t_ready fh g s fl rd ak w r :
    call_step o others fresh (Call fh g s fl rd ak w (TReady r)) o (Call fh g s fl ChSent ak w (TAwaitAck r))
| t_acked fh g s fl rd w r :
    call_step o others fresh (Call fh g s fl rd ChSent w (TAwaitAck r))
      o (Call fh g s fl rd ChSent w (TSettle (FAcked r)))
| t_abandoned fh g s fl rd w r :
    call_step o others fresh (Call fh g s fl rd ChDropped w (TAwaitAck r))
      o (Call fh g s fl rd ChDropped w TTake)
| t_take_ok fh g fl rd ak w out :
    call_step o others fresh (Call fh g (Some (Ok out)) fl rd ak w TTake)
      o (Call fh g None fl rd ak w (TCommit out))
| t_take_err fh g fl rd ak w e :
    call_step o others fresh (Call fh g (Some (Err e)) fl rd ak w TTake)
      o (Call fh g None fl rd ak w (TRecord e))
| t_take_none fh g fl rd ak w :
    call_step o others fresh (Call fh g None fl rd ak w TTake)
      o (Call fh g None fl rd ak w (TRecord (Rpc "WRITE result was not acknowledged")))
| t_commit_ok fh g s fl rd ak w out :
    call_step o others fresh (Call fh g s fl rd ak w (TCommit out))
      o (Call fh g s fl rd ak w (TSettle (FCommitted out)))
| t_commit_err fh g s fl rd ak w out e :
    call_step o others fresh (Call fh g s fl rd ak w (TCommit out)) o (Call fh g s fl rd ak w (TRecord e))
| t_record fh g s fl rd ak w e :
    call_step o others fresh (Call fh g s fl rd ak w (TRecord e))
      (record o fh e) (Call fh g s fl rd ak w (TSettle FRecorded))
| t_settle fh g s rd ak w f :
    call_step o others fresh (Call fh g s true rd ak w (TSettle f)) o (Call fh g s false rd ak w (TFinish f))
| t_settle_not fh g s rd ak w f :
    call_step o others fresh (Call fh g s false rd ak w (TSettle f)) o (Call fh g s false rd ak w (TRelease f))
| t_finish fh g s fl rd ak w f :
    call_step o others fresh (Call fh g s fl rd ak w (TFinish f))
      (finish_abandoned o fh) (Call fh g s fl rd ak w (TRelease f))
| t_die fh g s fl rd ak w t :
    match t with TWriting | TAwaitAck _ | TCommit _ => True | _ => False end ->
    call_step o others fresh (Call fh g s fl rd ak w t) o (Call fh g s fl rd ak w TDropRecord)
| t_drop_record fh g s fl rd ak w :
    call_step o others fresh (Call fh g s fl rd ak w TDropRecord)
      (record o fh task_died) (Call fh g s fl rd ak w TDropSwap)
| t_drop_swap fh g s rd ak w :
    call_step o others fresh (Call fh g s true rd ak w TDropSwap) o (Call fh g s false rd ak w TDropFinish)
| t_drop_swap_not fh g s rd ak w :
    call_step o others fresh (Call fh g s false rd ak w TDropSwap)
      o (Call fh g s false rd ak w (TRelease FDied))
| t_drop_finish fh g s fl rd ak w :
    call_step o others fresh (Call fh g s fl rd ak w TDropFinish)
      (finish_abandoned o fh) (Call fh g s fl rd ak w (TRelease FDied))
| t_release fh g s fl rd ak w f :
    call_step o others fresh (Call fh g s fl rd ak w (TRelease f)) o (Call fh g s fl rd ak w (TClose f))
| t_close fh g s fl rd ak w f :
    call_step o others fresh (Call fh g s fl rd ak w (TClose f))
      o (Call fh g s fl (match rd with ChOpen => ChDropped | _ => rd end) ak w (TDone f))
(* barrier *)
| b_gate fh g0 g o' : gate o fh (live others) fresh = (g, o') ->
    call_step o others fresh (Call fh g0 None false ChOpen ChOpen BGate TNone)
      o' (Call fh g None false ChOpen ChOpen BLock TNone)
| b_lock fh g s fl rd ak t : wsum (w_writes g) others = 0 -> wsum (w_reads g) others = 0 ->
    call_step o others fresh (Call fh g s fl rd ak BLock t) o (Call fh g s fl rd ak BHold t)
| b_release fh g s fl rd ak t w : match w with BLock | BHold => True | _ => False end ->
    call_step o others fresh (Call fh g s fl rd ak w t) o (Call fh g s fl rd ak (WEnd None) t).

Record world : Type := { owner : WriteOwner; next_gate : Z; calls : list call }.

Definition world_new (v : MinorVersion) : world :=
  {| owner := WriteOwner_new v; next_gate := 0; calls := [] |}.

(** Fewer than 2^62 calls are made. *)
Inductive owner_step : world -> world -> Prop :=
| owner_call o n l1 c l2 o' c' : call_step o (l1 ++ l2) n c o' c' ->
    owner_step {| owner := o; next_gate := n; calls := l1 ++ c :: l2 |}
      {| owner := o'; next_gate := n + 1; calls := l1 ++ c' :: l2 |}
| owner_begin o n l fh w : match w with WGate | BGate => True | _ => False end ->
    Z.of_nat (length l) + 1 < 2 ^ 62 ->
    owner_step {| owner := o; next_gate := n; calls := l |}
      {| owner := o; next_gate := n; calls := Call fh 0 None false ChOpen ChOpen w TNone :: l |}.

Definition reachable (w : world) : Prop := exists v, rtc owner_step (world_new v) w.

(** ** Invariants *)

Definition errs (o : WriteOwner) (fh : bytes) : Prop := is_Some (errors o !! fh).

(** A caller that has neither taken the result nor been told that there is none:
    the flag is set before the acknowledgement is dropped. *)
Definition waiting (w : wphase) (flag : bool) (ack : channel) : Prop :=
  match w with
  | WAwait | WAbandon | WStore => flag = false /\ ack = ChOpen
  | WDropAck => flag = true /\ ack = ChOpen
  | WGone => flag = true /\ ack = ChDropped
  | _ => False
  end.
Definition unspawned (w : wphase) : Prop :=
  match w with
  | WGate | WLock | WCheck | WCheckErr | WWaitAll | WHaveAll | WAdmitted | WSpawn | WEnd _
  | BGate | BLock | BHold => True
  | _ => False
  end.
(** The caller of a task that has died. *)
Definition bereft (w : wphase) (flag : bool) : Prop :=
  match w with
  | WDropAck | WGone => True
  | WAwait | WTake | WAcking _ | WFail | WFailRecord | WAbandon | WStore | WEnd _ => flag = false
  | _ => False
  end.
Definition fate_ok (er : Prop) (w : wphase) (flag : bool) (f : fate) : Prop :=
  match f with
  | FAcked r => w = WEnd (Some r) /\ flag = false
  | FCommitted _ => w = WGone /\ flag = false
  | FRecorded => er /\ w = WGone /\ flag = false
  | FDied => er /\ bereft w flag
  end.

(** What caller, task and cells of one call have to do with each other. *)
Definition call_ok (o : WriteOwner) (c : call) : Prop :=
  let '(Call fh _ s fl rd ak w t) := c in
  match t with
  | TNone => s = None /\ fl = false /\ rd = ChOpen /\ ak = ChOpen /\ unspawned w
  | TStart | TWriting => s = None /\ rd = ChOpen /\ waiting w fl ak
  | TStore r => r <> Panic /\ s = None /\ rd = ChOpen /\ waiting w fl ak
  | TReady r => s = Some r /\ r <> Panic /\ rd = ChOpen /\ waiting w fl ak
  | TAwaitAck r => r <> Panic /\ rd = ChSent /\
      match w with
      | WTake => s = Some r /\ fl = false /\ ak = ChOpen
      | WAcking v => v = Some r /\ fl = false /\ ak = ChOpen
      | WEnd v => v = Some r /\ fl = false /\ ak = ChSent
      | _ => s = Some r /\ waiting w fl ak
      end
  | TTake => w = WGone /\ fl = true /\ ak = ChDropped /\ exists r, s = Some r /\ r <> Panic
  | TCommit _ | TRecord _ => w = WGone /\ fl = true /\ ak = ChDropped
  | TSettle f =>
      match f with
      | FAcked r => w = WEnd (Some r) /\ fl = false
      | FCommitted _ => w = WGone /\ fl = true
      | FRecorded => errs o fh /\ w = WGone /\ fl = true
      | FDied => False
      end
  | TFinish f => match f with FAcked _ | FDied => False | _ => fate_ok (errs o fh) w fl f end
  | TDropRecord => bereft w fl
  | TDropSwap => errs o fh /\ bereft w fl
  | TDropFinish => errs o fh /\ bereft w fl
  | TRelease f | TClose f | TDone f => fate_ok (errs o fh) w fl f
  end.

(** What the abandoned count counts. *)
Definition w_abandoned (fh : bytes) (c : call) : Z :=
  if decide (c_fh c = fh)
  then Z.b2z (c_flag c) + Z.b2z (match c_waiter c with WStore => true | _ => false end) +
       Z.b2z (match c_task c with TFinish _ | TDropFinish => true | _ => false end)
  else 0.
Definition count_of (o : WriteOwner) (fh : bytes) : Z := default 0 (abandoned o !! fh).

Definition gate_ok (o : WriteOwner) (c : call) : Prop :=
  holds c = true -> gates o !! c_fh c = Some (c_gate c).

Record owner_inv (w : world) : Prop := {
  inv_calls : Forall (call_ok (owner w)) (calls w);
  inv_gates : Forall (gate_ok (owner w)) (calls w);
  inv_lock : forall g, wsum (w_writes g) (calls w) <= 1 /\
      (0 < wsum (w_writes g) (calls w) -> wsum (w_reads g) (calls w) = 0);
  inv_count : forall fh, count_of (owner w) fh = wsum (w_abandoned fh) (calls w);
  inv_nonzero : forall fh n, abandoned (owner w) !! fh = Some n -> 0 < n;
  inv_calls_length : Z.of_nat (length (calls w)) < 2 ^ 62;
}.

(** *** Errors are never removed *)

Lemma record_errs o fh e fh' : errs o fh' -> errs (record o fh e) fh'.
Proof.
  unfold record, errs. destruct (errors o !! fh) eqn:E; [done|]. cbn. intros [x Hx].
  destruct (decide (fh = fh')) as [->|]; [congruence|]. rewrite lookup_insert_ne by done. by exists x.
Qed.
Lemma record_recorded o fh e : errs (record o fh e) fh.
Proof.
  unfold record, errs. destruct (errors o !! fh) eqn:E; [rewrite E; by eexists|]. cbn.
  rewrite lookup_insert_eq. by eexists.
Qed.
Lemma gate_errors o fh lv n g o' : gate o fh lv n = (g, o') -> errors o' = errors o /\ abandoned o' = abandoned o.
Proof. unfold gate. repeat case_match; intros [= <- <-]; done. Qed.
Lemma finish_abandoned_errors o fh : errors (finish_abandoned o fh) = errors o /\ gates (finish_abandoned o fh) = gates o.
Proof. unfold finish_abandoned. by repeat case_match. Qed.
Lemma record_rest o fh e : gates (record o fh e) = gates o /\ abandoned (record o fh e) = abandoned o.
Proof. unfold record. by case_match. Qed.

Lemma call_step_errs o others n c o' c' fh : call_step o others n c o' c' -> errs o fh -> errs o' fh.
Proof.
  intros Hs He. destruct Hs; try done; try by apply record_errs.
  - unfold errs. by destruct (gate_errors _ _ _ _ _ _ H) as [-> _].
  - unfold errs. by destruct (finish_abandoned_errors o fh0) as [-> _].
  - unfold errs. by destruct (finish_abandoned_errors o fh0) as [-> _].
  - unfold errs. by destruct (gate_errors _ _ _ _ _ _ H) as [-> _].
Qed.

Lemma fate_ok_mono (P Q : Prop) w fl f : (P -> Q) -> fate_ok P w fl f -> fate_ok Q w fl f.
Proof. destruct f; cbn; tauto. Qed.

Lemma call_ok_mono o o' c : (errs o (c_fh c) -> errs o' (c_fh c)) -> call_ok o c -> call_ok o' c.
Proof.
  destruct c as [fh g s fl rd ak w t]. cbn [c_fh]. intros H. unfold call_ok.
  destruct t; try done; try destruct f; try (by eauto using fate_ok_mono); cbn; tauto.
Qed.

Lemma call_step_fh o others n c o' c' : call_step o others n c o' c' -> c_fh c' = c_fh c.
Proof. by destruct 1. Qed.

(** Cases on the phases and fates a step leaves open. *)
Ltac call_cases :=
  repeat match goal with
  | t : tphase |- _ => destruct t
  | w : wphase |- _ => destruct w
  | f : fate |- _ => destruct f
  end; cbn in *; destruct_and?; subst; simplify_eq; try done; eauto 8 using record_recorded.
Lemma call_step_ok o others n c o' c' : call_step o others n c o' c' -> call_ok o c -> call_ok o' c'.
Proof.
  intros Hs Hok.
  apply (call_ok_mono o o') in Hok; [|intros He; eapply call_step_errs; eassumption].
  destruct Hs; cbn [call_ok] in *; destruct_and?; subst; try done; call_cases.
Qed.

(** *** One lock per file *)

Lemma gate_spec o fh lv n g o' : gate o fh lv n = (g, o') -> gates o' !! fh = Some g /\
  (g = n /\ (forall g0, gates o !! fh = Some g0 -> lv g0 = false) /\
     (forall fh' g', gates o' !! fh' = Some g' -> (fh' = fh /\ g' = n) \/ gates o !! fh' = Some g') /\
     (forall fh' g', fh' <> fh -> gates o !! fh' = Some g' -> lv g' = true -> gates o' !! fh' = Some g')
   \/ lv g = true /\ o' = o).
Proof.
  unfold gate. intros H.
  assert (Hn : (forall g0, gates o !! fh = Some g0 -> lv g0 = false) ->
    (n, {| wr_minor_version := wr_minor_version o;
           gates := <[fh := n]> (filter (fun p => lv p.2 = true) (gates o));
           errors := errors o; abandoned := abandoned o |}) = (g, o') ->
    gates o' !! fh = Some g /\ g = n /\
     (forall fh' g', gates o' !! fh' = Some g' -> (fh' = fh /\ g' = n) \/ gates o !! fh' = Some g') /\
     (forall fh' g', fh' <> fh -> gates o !! fh' = Some g' -> lv g' = true -> gates o' !! fh' = Some g')).
  { intros _ [= <- <-]. cbn. rewrite lookup_insert_eq. split_and!; [done|done| |].
    - intros fh' g' [[-> ->]|[Hne Hf]]%lookup_insert_Some; [by left|right].
      by apply map_lookup_filter_Some in Hf as [? _].
    - intros fh' g' Hne Hg Hl. rewrite lookup_insert_ne by done. by apply map_lookup_filter_Some. }
  destruct (gates o !! fh) as [g0|] eqn:E; [destruct (lv g0) eqn:El|].
  - injection H as <- <-. split; [done|]. by right.
  - destruct Hn as (H1 & -> & H2 & H3); [by intros ? [= <-]|done|]. split; [done|]. left.
    split_and!; try done. by intros ? [= <-].
  - destruct Hn as (H1 & -> & H2 & H3); [done|done|]. split; [done|]. left. by split_and!.
Qed.

Lemma live_in l g c : c ∈ l -> holds c = true -> c_gate c = g -> live l g = true.
Proof.
  intros Hin Hh <-. unfold live. apply existsb_exists. exists c. split; [by apply list_elem_of_In|].
  by rewrite Hh, Z.eqb_refl.
Qed.

(** A step takes a lock's name, or leaves names as they are. *)
Lemma call_step_gates o others n c o' c' : call_step o others n c o' c' ->
  (exists fh, gate o fh (live others) n = (c_gate c', o') /\ c_fh c = fh /\ holds c = false) \/
  (gates o' = gates o /\ c_gate c' = c_gate c /\ (holds c' = true -> call_ok o c -> holds c = true)).
Proof.
  intros Hs. destruct Hs; try (left; eexists; done); right; cbn [c_gate];
    rewrite ?(proj1 (record_rest _ _ _)), ?(proj2 (finish_abandoned_errors _ _)); split_and!; try done;
    intros Hh Hok; unfold holds, reads, writes in *; cbn in *; call_cases.
Qed.

Lemma call_step_gate_ok o l1 l2 n c o' c' : call_step o (l1 ++ l2) n c o' c' -> call_ok o c ->
  Forall (gate_ok o) (l1 ++ c :: l2) -> Forall (gate_ok o') (l1 ++ c' :: l2).
Proof.
  intros Hs Hok HF. pose proof (call_step_fh _ _ _ _ _ _ Hs) as Hfh.
  assert (Hc : gate_ok o c) by (by apply Forall_app in HF as [_ [? _]%Forall_cons]).
  assert (HF' : Forall (gate_ok o) (l1 ++ l2)).
  { apply Forall_app in HF as [? [_ ?]%Forall_cons]. by apply Forall_app. }
  assert (Hall : gate_ok o' c' /\ Forall (gate_ok o') (l1 ++ l2)).
  { destruct (call_step_gates _ _ _ _ _ _ Hs) as [(fh & Hg & Hf & Hh)|(Hg & Hn & Hh)].
    - apply gate_spec in Hg as [Hg Hd]. split; [intros _; by rewrite Hfh, Hf|].
      destruct Hd as [(Hn & H0 & _ & Hkeep)|[_ ->]]; [|done].
      apply Forall_forall. intros x Hx Hhx. rewrite Forall_forall in HF'. specialize (HF' x Hx Hhx).
      pose proof (live_in _ _ _ Hx Hhx eq_refl) as Hl.
      destruct (decide (c_fh x = fh)) as [Hxf|]; [|by apply Hkeep].
      rewrite Hxf in HF'. apply H0 in HF'. congruence.
    - split; [intros Hc'; rewrite Hg, Hfh, Hn; auto|]. eapply Forall_impl; [exact HF'|].
      intros x. unfold gate_ok. by rewrite Hg. }
  destruct Hall as [H1 [H2 H3]%Forall_app]. apply Forall_app. split; [done|]. by constructor.
Qed.

Lemma wsum_middle {A} (f : A -> Z) l1 x l2 : wsum f (l1 ++ x :: l2) = wsum f (l1 ++ l2) + f x.
Proof. rewrite !wsum_app, wsum_cons. lia. Qed.

(** *** The lock *)

Lemma call_step_holds o others n c o' c' : call_step o others n c o' c' -> call_ok o c ->
  (writes c' = false /\ reads c' = false) \/
  c_gate c' = c_gate c /\
  ((writes c' = writes c /\ reads c' = reads c) \/
   (writes c' = writes c /\ reads c' = false) \/
   (wsum (w_writes (c_gate c)) others = 0 /\ writes c' = false) \/
   (wsum (w_writes (c_gate c)) others = 0 /\ wsum (w_reads (c_gate c)) others = 0 /\
      writes c' = true /\ reads c' = false)).
Proof.
  intros Hs Hok. destruct Hs; unfold writes, reads; cbn [c_waiter c_task c_gate task_holds];
    rewrite ?orb_false_r, ?orb_true_r; try (by auto 8);
    try (destruct t; cbn in *; destruct_and?; by auto 8);
    call_cases; auto 10.
Qed.

Lemma w_writes_bounds g c : 0 <= w_writes g c <= 1.
Proof. unfold w_writes. case_match; lia. Qed.
Lemma w_reads_bounds g c : 0 <= w_reads g c <= 1.
Proof. unfold w_reads. case_match; lia. Qed.
Lemma w_writes_nonneg g c : 0 <= w_writes g c.
Proof. apply w_writes_bounds. Qed.
Lemma w_reads_nonneg g c : 0 <= w_reads g c.
Proof. apply w_reads_bounds. Qed.

(** A step keeps a file's lock exclusive. *)
Lemma call_step_lock o l1 l2 n c o' c' g : call_step o (l1 ++ l2) n c o' c' -> call_ok o c ->
  (wsum (w_writes g) (l1 ++ c :: l2) <= 1 /\
     (0 < wsum (w_writes g) (l1 ++ c :: l2) -> wsum (w_reads g) (l1 ++ c :: l2) = 0)) ->
  wsum (w_writes g) (l1 ++ c' :: l2) <= 1 /\
     (0 < wsum (w_writes g) (l1 ++ c' :: l2) -> wsum (w_reads g) (l1 ++ c' :: l2) = 0).
Proof.
  intros Hs Hok. rewrite !wsum_middle. intros [H1 H2].
  pose proof (wsum_nonneg (w_writes g) (l1 ++ l2) (w_writes_nonneg g)).
  pose proof (wsum_nonneg (w_reads g) (l1 ++ l2) (w_reads_nonneg g)).
  pose proof (w_writes_bounds g c). pose proof (w_reads_bounds g c).
  pose proof (w_writes_bounds g c'). pose proof (w_reads_bounds g c').
  destruct (call_step_holds _ _ _ _ _ _ Hs Hok) as [[Hw Hr]|[Hg Hd]].
  - assert (w_writes g c' = 0) by (unfold w_writes; by rewrite Hw).
    assert (w_reads g c' = 0) by (unfold w_reads; by rewrite Hr). lia.
  - destruct (decide (c_gate c = g)) as [<-|Hne].
    + destruct Hd as [[Hw Hr]|[[Hw Hr]|[[Hs1 Hw]|(Hs1 & Hs2 & Hw & Hr)]]];
        unfold w_writes, w_reads in *; rewrite ?Hg, ?Hw, ?Hr, ?Z.eqb_refl, ?andb_true_r in *; cbn in *; try lia.
    + assert (Hz : forall c0, c_gate c0 <> g -> w_writes g c0 = 0 /\ w_reads g c0 = 0).
      { intros c0 Hc0%Z.eqb_neq. unfold w_writes, w_reads. by rewrite Hc0, !andb_false_r. }
      destruct (Hz c), (Hz c'); congruence || lia.
Qed.

(** *** The count of abandoned writes *)

Lemma w_abandoned_bounds fh c : 0 <= w_abandoned fh c <= 3.
Proof.
  assert (Hb : forall b, 0 <= Z.b2z b <= 1) by (intros []; cbn; lia). unfold w_abandoned. case_decide; [|lia].
  repeat match goal with |- context[Z.b2z ?b] => pose proof (Hb b); generalize dependent (Z.b2z b); intros end.
  lia.
Qed.
Lemma abandoned_le fh l : 0 <= wsum (w_abandoned fh) l <= 3 * Z.of_nat (length l).
Proof.
  induction l as [|c l IH]; [done|]. rewrite wsum_cons. cbn [length].
  pose proof (w_abandoned_bounds fh c). lia.
Qed.

Lemma abandon_count o fh fh' : 0 <= count_of o fh < 2 ^ 64 - 1 ->
  count_of (abandon o fh) fh' = count_of o fh' + (if decide (fh = fh') then 1 else 0).
Proof.
  intros H. unfold abandon, count_of in *. cbn. case_decide; subst.
  - rewrite lookup_insert_eq. cbn. unfold wrap64. rewrite Z.mod_small; lia.
  - rewrite lookup_insert_ne by done. lia.
Qed.
Lemma finish_count o fh fh' : 0 < count_of o fh < 2 ^ 64 ->
  count_of (finish_abandoned o fh) fh' = count_of o fh' - (if decide (fh = fh') then 1 else 0).
Proof.
  unfold finish_abandoned, count_of. destruct (abandoned o !! fh) as [k|] eqn:E; cbn; [|lia]. intros H.
  unfold wrap64. rewrite Z.mod_small by lia. destruct (Z.eqb_spec (k - 1) 0); cbn; case_decide; subst.
  - rewrite lookup_delete_eq, E. cbn. lia.
  - rewrite lookup_delete_ne by done. lia.
  - rewrite lookup_insert_eq, E. cbn. lia.
  - rewrite lookup_insert_ne by done. lia.
Qed.

Definition nonzero (o : WriteOwner) : Prop := forall fh n, abandoned o !! fh = Some n -> 0 < n.
Lemma abandon_nonzero o fh : 0 <= count_of o fh < 2 ^ 64 - 1 -> nonzero o -> nonzero (abandon o fh).
Proof.
  intros Hc Hn fh' k. unfold abandon, count_of in *. cbn. intros [[-> <-]|[_ H]]%lookup_insert_Some.
  - unfold wrap64. rewrite Z.mod_small; lia.
  - by eapply Hn.
Qed.
Lemma finish_nonzero o fh : nonzero o -> count_of o fh < 2 ^ 64 -> nonzero (finish_abandoned o fh).
Proof.
  intros Hn Hc fh' k. unfold finish_abandoned, count_of in *.
  destruct (abandoned o !! fh) as [m|] eqn:E; [|apply Hn]. specialize (Hn fh m E) as Hm. cbn in Hc.
  unfold wrap64. rewrite Z.mod_small by lia. destruct (Z.eqb_spec (m - 1) 0); cbn.
  - intros [_ H]%lookup_delete_Some. by eapply Hn.
  - intros [[-> <-]|[_ H]]%lookup_insert_Some; [lia|by eapply Hn].
Qed.

Lemma store_flag o fh g s fl rd ak t : call_ok o (Call fh g s fl rd ak WStore t) -> fl = false.
Proof. intros H. call_cases. Qed.

(** What a step does to the count and to what is counted. *)
Lemma call_step_count o others n c o' c' fh : call_step o others n c o' c' -> call_ok o c ->
  nonzero o -> (forall fh, w_abandoned fh c <= count_of o fh < 2 ^ 64 - 1) ->
  count_of o' fh - count_of o fh = w_abandoned fh c' - w_abandoned fh c /\ nonzero o'.
Proof.
  intros Hs Hok Hn Hc.
  assert (Hz : forall fh, 0 <= count_of o fh < 2 ^ 64 - 1).
  { intros f. specialize (Hc f). pose proof (w_abandoned_bounds f c). lia. }
  assert (Hsame : abandoned o' = abandoned o -> w_abandoned fh c' = w_abandoned fh c ->
    count_of o' fh - count_of o fh = w_abandoned fh c' - w_abandoned fh c /\ nonzero o').
  { intros Ha Hw. unfold count_of, nonzero. rewrite Ha, Hw. split; [lia|done]. }
  assert (Hfin : (forall f, w_abandoned f c = w_abandoned f c' + (if decide (c_fh c = f) then 1 else 0)) ->
    o' = finish_abandoned o (c_fh c) ->
    count_of o' fh - count_of o fh = w_abandoned fh c' - w_abandoned fh c /\ nonzero o').
  { intros Hf ->. assert (0 < count_of o (c_fh c)).
    { specialize (Hf (c_fh c)). rewrite decide_True in Hf by done. specialize (Hc (c_fh c)).
      pose proof (w_abandoned_bounds (c_fh c) c'). lia. }
    specialize (Hz (c_fh c)). rewrite finish_count by lia. rewrite Hf.
    split; [lia|]. apply finish_nonzero; [done|lia]. }
  destruct Hs; try (apply Hsame; [done|]; unfold w_abandoned; cbn [c_fh c_flag c_waiter c_task]; reflexivity);
    try (apply Hsame; [apply record_rest|done]);
    try (apply Hsame; [apply gate_errors in H; tauto|done]).
  - rewrite abandon_count by done. split; [unfold w_abandoned; cbn; case_decide; lia|by apply abandon_nonzero].
  - apply store_flag in Hok as ->. apply Hsame; [done|]. unfold w_abandoned. cbn. case_decide; lia.
  - apply Hsame; [done|]. unfold w_abandoned. cbn. case_decide; lia.
  - apply Hfin; [|done]. intros f0. unfold w_abandoned. cbn. case_decide; lia.
  - apply Hsame; [done|]. by destruct t.
  - apply Hsame; [done|]. unfold w_abandoned. cbn. case_decide; lia.
  - apply Hfin; [|done]. intros f0. unfold w_abandoned. cbn. case_decide; lia.
  - apply Hsame; [done|]. by destruct w.
Qed.

(** *** The invariant holds *)

Lemma world_new_inv v : owner_inv (world_new v).
Proof.
  constructor; cbn; try done.
Qed.

Lemma owner_step_inv w w' : owner_step w w' -> owner_inv w -> owner_inv w'.
Proof.
  intros Hs [I1 I2 I5 I6 I7 I8]. destruct Hs as [o n l1 c l2 o' c' Hc|o n l fh w Hw Hlen]; cbn [owner calls next_gate] in *.
  - assert (Hok : call_ok o c) by (by apply Forall_app in I1 as [_ [? _]%Forall_cons]).
    assert (Hcnt : forall fh, count_of o' fh - count_of o fh = w_abandoned fh c' - w_abandoned fh c /\ nonzero o').
    { intros fh. apply (call_step_count _ _ _ _ _ _ _ Hc Hok I7). intros f. rewrite I6.
      pose proof (abandoned_le f (l1 ++ c :: l2)) as Hle. rewrite wsum_middle in Hle |- *.
      pose proof (abandoned_le f (l1 ++ l2)). lia. }
    constructor; cbn [owner calls next_gate].
    + apply Forall_app in I1 as [H1 [_ H2]%Forall_cons]. apply Forall_app. split; [|constructor];
        [| by eapply call_step_ok|]; (eapply Forall_impl; [eassumption|]); intros x;
        apply call_ok_mono; intros; by eapply call_step_errs.
    + by eapply call_step_gate_ok.
    + intros g. by eapply call_step_lock.
    + intros fh. destruct (Hcnt fh) as [Hd _]. specialize (I6 fh). rewrite wsum_middle in I6 |- *. lia.
    + apply (Hcnt []).
    + rewrite length_app in *. cbn in *. lia.
  - constructor; cbn [owner calls next_gate]; try done.
    + constructor; [|done]. cbn. by destruct w.
    + constructor; [|done]. by destruct w.
    + intros g. specialize (I5 g). rewrite !wsum_cons. unfold w_writes at 1 3, w_reads at 1. by destruct w.
    + intros fh0. rewrite wsum_cons, I6. unfold w_abandoned at 2. case_decide; [|lia]. by destruct w.
    + cbn [length]. lia.
Qed.

Lemma owner_reachable_inv w : reachable w -> owner_inv w.
Proof.
  intros [v H]. revert H. generalize (world_new_inv v). generalize (world_new v).
  intros w0 H0 H. induction H; eauto using owner_step_inv.
Qed.

(** ** Theorems *)

Lemma call_ok_in w c : owner_inv w -> c ∈ calls w -> call_ok (owner w) c.
Proof. intros [I1 _ _ _ _ _] Hin. rewrite Forall_forall in I1. by apply I1. Qed.

Lemma errs_uncertain o fh : errs o fh -> exists e d, write_error o fh = Some e /\
  operation_outcome e = Some d /\ outcome_kind d = Uncertain /\ recovery d = VerifyThenResume.
Proof.
  intros [e He]. unfold write_error. rewrite He. eexists. unfold shared_uncertainty. eexists.
  split_and!; [reflexivity|reflexivity|done|done].
Qed.

(** C23: no admitted write is lost. Once the task of a write lets go of the file,
    its caller has returned with the write's own result, or the caller was
    cancelled and the task has committed the data, or every later write of the
    file is refused with an uncertain outcome; whatever the caller and the task
    were doing when one of them was cancelled or died. *)
Theorem admitted_write_accounted w c f : reachable w -> c ∈ calls w ->
  c_task c = TClose f \/ c_task c = TDone f ->
  match f with
  | FAcked r => c_waiter c = WEnd (Some r)
  | FCommitted _ => c_waiter c = WGone
  | FRecorded | FDied => exists e d, write_error (owner w) (c_fh c) = Some e /\
      operation_outcome e = Some d /\ outcome_kind d = Uncertain /\ recovery d = VerifyThenResume
  end.
Proof.
  intros Hr Hin Ht. pose proof (call_ok_in w c (owner_reachable_inv w Hr) Hin) as Hok.
  assert (Hf : fate_ok (errs (owner w) (c_fh c)) (c_waiter c) (c_flag c) f).
  { destruct c as [fh g s fl rd ak ww t]. cbn [c_task c_fh c_waiter c_flag] in *. by destruct Ht as [-> | ->]. }
  destruct f; cbn in Hf; destruct_and?; try done; by apply errs_uncertain.
Qed.

(** When no error is recorded, an abandoned write that is counted is in its task. *)
Lemma counted_in_task o c : call_ok o c -> errors o !! c_fh c = None -> 0 < w_abandoned (c_fh c) c ->
  task_holds (c_task c) = true.
Proof.
  intros Hok He. assert (Hne : errs o (c_fh c) -> False) by (intros [? ?]; congruence).
  destruct c as [fh g s fl rd ak w t]. unfold w_abandoned. rewrite decide_True by done. cbn in *.
  call_cases.
Qed.

(** Whoever holds a file's lock exclusively: no task of the file holds it. *)
Lemma exclusive_no_task w b c : owner_inv w -> b ∈ calls w -> writes b = true -> c ∈ calls w ->
  c_fh c = c_fh b -> task_holds (c_task c) = false.
Proof.
  intros [_ I2 I5 _ _ _] Hb Hw Hc Hfh. destruct (task_holds (c_task c)) eqn:Ht; [exfalso|done].
  assert (Hrc : reads c = true) by (unfold reads; by rewrite Ht, orb_true_r).
  rewrite Forall_forall in I2.
  assert (Hgb := I2 b Hb ltac:(unfold holds; by rewrite Hw, orb_true_r)).
  assert (Hgc := I2 c Hc ltac:(unfold holds; by rewrite Hrc, orb_true_r)).
  assert (Hg : c_gate c = c_gate b) by congruence. destruct (I5 (c_gate b)) as [_ H0].
  apply (wsum_elem (w_writes (c_gate b))) in Hb; [|apply w_writes_nonneg].
  apply (wsum_elem (w_reads (c_gate b))) in Hc; [|apply w_reads_nonneg].
  unfold w_writes at 1 in Hb. unfold w_reads at 1 in Hc. rewrite Hw, Z.eqb_refl in Hb.
  rewrite Hrc, Hg, Z.eqb_refl in Hc. cbn in Hb, Hc. lia.
Qed.

Lemma abandoned_none w fh : owner_inv w ->
  (forall c, c ∈ calls w -> c_fh c = fh -> w_abandoned fh c = 0) -> abandoned (owner w) !! fh = None.
Proof.
  intros [_ _ _ I6 I7 _] H. destruct (abandoned (owner w) !! fh) as [n|] eqn:E; [exfalso|done].
  specialize (I6 fh). specialize (I7 fh n E). unfold count_of in I6. rewrite E in I6. cbn in I6.
  destruct (wsum_pos (w_abandoned fh) (calls w)) as (c & Hc & Hp); [apply w_abandoned_bounds|lia|].
  destruct (decide (c_fh c = fh)) as [Hf|Hf]; [rewrite (H c Hc Hf) in Hp; lia|].
  unfold w_abandoned in Hp. rewrite decide_False in Hp by done. lia.
Qed.

(** The exclusive side of a file's lock is a barrier. While it is held, by an
    operation that must see every write settled or by a write that waits for the
    abandoned ones, no task of the file is writing; and unless an error is
    recorded for the file, nothing is counted as abandoned, and each write of it
    that was started has been acknowledged by its caller or committed. *)
Theorem barrier_sees_settled_writes w b : reachable w -> b ∈ calls w -> writes b = true ->
  (forall c, c ∈ calls w -> c_fh c = c_fh b -> task_holds (c_task c) = false) /\
  (errors (owner w) !! c_fh b = None -> abandoned (owner w) !! c_fh b = None /\
     forall c, c ∈ calls w -> c_fh c = c_fh b -> c_task c <> TNone ->
       exists f, (c_task c = TClose f \/ c_task c = TDone f) /\
         ((exists r, f = FAcked r /\ c_waiter c = WEnd (Some r)) \/ exists out, f = FCommitted out)).
Proof.
  intros Hr Hb Hw. pose proof (owner_reachable_inv w Hr) as HI.
  assert (Hno : forall c, c ∈ calls w -> c_fh c = c_fh b -> task_holds (c_task c) = false)
    by (intros c Hc Hf; by apply (exclusive_no_task w b c)).
  split; [done|]. intros He. split.
  - apply abandoned_none; [done|]. intros c Hc Hf. rewrite <- Hf in *.
    pose proof (w_abandoned_bounds (c_fh c) c).
    destruct (decide (0 < w_abandoned (c_fh c) c)) as [Hp|]; [|lia].
    apply (counted_in_task (owner w)) in Hp; [|by apply call_ok_in|done]. rewrite Hno in Hp by done. done.
  - intros c Hc Hf Hn. pose proof (call_ok_in w c HI Hc) as Hok. specialize (Hno c Hc Hf).
    rewrite <- Hf in He. destruct c as [fh g s fl rd ak ww t]. cbn in *.
    assert (Hne : errs (owner w) fh -> False) by (intros [? ?]; congruence).
    destruct t as [| | | | | | | | | | | | | | |f|f]; try done; exists f; (split; [by auto|]);
      (destruct f; cbn in Hok;
        [left; eexists; split; [reflexivity|tauto]|right; by eexists|exfalso; tauto|exfalso; tauto]).
Qed.

(** A write that waits for abandoned writes has something to wait for: when
    the file counts abandoned writes and no error is recorded, the task of one of
    them still holds the file's lock, so that waiting for the exclusive side
    blocks until it has settled instead of going round the loop. *)
Theorem admit_waits_for_a_task w fh n : reachable w ->
  abandoned (owner w) !! fh = Some n -> errors (owner w) !! fh = None ->
  exists c, c ∈ calls w /\ c_fh c = fh /\ task_holds (c_task c) = true /\
    gates (owner w) !! fh = Some (c_gate c).
Proof.
  intros Hr Ha He. pose proof (owner_reachable_inv w Hr) as HI. pose proof HI as [_ I2 _ I6 I7 _].
  specialize (I6 fh). specialize (I7 fh n Ha). unfold count_of in I6. rewrite Ha in I6. cbn in I6.
  destruct (wsum_pos (w_abandoned fh) (calls w)) as (c & Hc & Hp); [apply w_abandoned_bounds|lia|].
  destruct (decide (c_fh c = fh)) as [<-|Hf];
    [|unfold w_abandoned in Hp; rewrite decide_False in Hp by done; lia].
  assert (Ht : task_holds (c_task c) = true) by (eapply counted_in_task; [by apply call_ok_in|done|done]).
  exists c. split_and!; try done. rewrite Forall_forall in I2. apply I2; [done|].
  unfold holds, reads. by rewrite Ht, !orb_true_r.
Qed.

(** *** A write whose caller is cancelled, then a barrier *)

Definition demo_fh : bytes := of_str "fh".
Definition demo_outcome : WriteOutcome :=
  {| wo_count := 4; wo_committed := FileSync; wo_verifier := None; wo_pnfs := None |}.
Definition demo_owner : WriteOwner := (gate (WriteOwner_new V1) demo_fh (fun _ => false) 0).2.
Definition demo_settled : WriteOwner := finish_abandoned (abandon demo_owner demo_fh) demo_fh.
Definition demo_write (s : option (result WriteOutcome)) fl rd ak w t : call := Call demo_fh 0 s fl rd ak w t.
Definition demo_abandoned : world :=
  {| owner := abandon demo_owner demo_fh; next_gate := 15;
     calls := [demo_write None true ChSent ChDropped WGone (TCommit demo_outcome)] |}.

Ltac run_call l1 rule :=
  eapply rtc_l; [apply (owner_call _ _ l1); [rule]|]; cbn [app].

Lemma demo_abandoned_reachable : reachable demo_abandoned.
Proof.
  exists V1. eapply rtc_l; [apply (owner_begin _ _ _ demo_fh WGate); [done|cbn; lia]|].
  run_call (@nil call) ltac:(apply (s_gate _ _ _ _ _ 0 demo_owner); reflexivity).
  run_call (@nil call) ltac:(apply s_read; reflexivity).
  run_call (@nil call) ltac:(apply s_check_none; reflexivity).
  run_call (@nil call) ltac:(apply s_admitted; reflexivity).
  run_call (@nil call) ltac:(apply s_spawn).
  run_call (@nil call) ltac:(apply t_start).
  run_call (@nil call) ltac:(apply (t_written _ _ _ _ _ _ _ _ _ _ (Ok demo_outcome)); done).
  run_call (@nil call) ltac:(apply s_cancel).
  run_call (@nil call) ltac:(apply s_abandon).
  run_call (@nil call) ltac:(apply t_store).
  run_call (@nil call) ltac:(apply t_ready).
  run_call (@nil call) ltac:(apply s_store).
  run_call (@nil call) ltac:(apply s_drop_ack).
  run_call (@nil call) ltac:(apply t_abandoned).
  run_call (@nil call) ltac:(apply t_take_ok).
  unfold demo_abandoned. apply rtc_refl.
Qed.

(** The write settled, and a barrier that holds its file. *)
Definition demo_barrier : world :=
  {| owner := (gate demo_settled demo_fh (fun _ => false) 20).2; next_gate := 22;
     calls := [Call demo_fh 20 None false ChOpen ChOpen BHold TNone;
               demo_write None false ChSent ChDropped WGone (TDone (FCommitted demo_outcome))] |}.
Lemma demo_barrier_reachable : reachable demo_barrier.
Proof.
  destruct demo_abandoned_reachable as [v H]. exists v. etrans; [exact H|]. unfold demo_abandoned.
  run_call (@nil call) ltac:(apply t_commit_ok).
  run_call (@nil call) ltac:(apply t_settle).
  run_call (@nil call) ltac:(apply t_finish).
  run_call (@nil call) ltac:(apply t_release).
  run_call (@nil call) ltac:(apply t_close).
  eapply rtc_l; [apply (owner_begin _ _ _ demo_fh BGate); [done|cbn; lia]|].
  run_call (@nil call) ltac:(apply (b_gate _ _ _ _ _ 20); reflexivity).
  run_call (@nil call) ltac:(apply b_lock; reflexivity).
  unfold demo_barrier. apply rtc_refl.
Qed.

Lemma admitted_write_accounted_witness :
  c_task (demo_write None false ChSent ChDropped WGone (TDone (FCommitted demo_outcome))) =
    TDone (FCommitted demo_outcome) /\
  c_waiter (demo_write None false ChSent ChDropped WGone (TDone (FCommitted demo_outcome))) = WGone.
Proof.
  split; [reflexivity|].
  exact (admitted_write_accounted demo_barrier _ (FCommitted demo_outcome) demo_barrier_reachable
    ltac:(right; left) ltac:(right; reflexivity)).
Defined.

Lemma barrier_sees_settled_writes_witness : abandoned (owner demo_barrier) !! demo_fh = None.
Proof.
  assert (Hin : Call demo_fh 20 None false ChOpen ChOpen BHold TNone ∈ calls demo_barrier) by left.
  destruct (barrier_sees_settled_writes demo_barrier _ demo_barrier_reachable Hin eq_refl) as [_ H].
  exact (proj1 (H eq_refl)).
Defined.

Lemma admit_waits_for_a_task_witness : abandoned (owner demo_abandoned) !! demo_fh = Some 1 /\
  exists c, c ∈ calls demo_abandoned /\ task_holds (c_task c) = true.
Proof.
  assert (Ha : abandoned (owner demo_abandoned) !! demo_fh = Some 1) by (vm_compute; reflexivity).
  split; [exact Ha|].
  destruct (admit_waits_for_a_task demo_abandoned demo_fh 1 demo_abandoned_reachable Ha
    ltac:(vm_compute; reflexivity)) as (c & Hc & _ & Ht & _).
  exists c. by split.
Defined.
