(* ===== verification/FileIo.v ===== *)
(** * Chunked reads, durable writes and the file wrapper

    Models [src/src/fileio.rs]. A write is cut into chunks of which at most eight
    are in flight; each is repeated until its bytes are acknowledged, and one
    COMMIT of all acknowledgements ends the call. [batch_step] is one event of
    such a call: an answer to one chunk in flight, the collection of a chunk that
    has ended, or the answer of the COMMIT, in any order the server and the
    executor choose. Reads are the same loop without the COMMIT, collected in the
    order of the file. [BufferedFile] adds the states open, closing and closed. *)
From Stdlib Require Import Strings.Byte.
From S2P Require Import Prelude Errors Compound41 V42 Gates PnfsIo.
From stdpp Require Import base list numbers strings gmap.
#[local] Open Scope Z_scope.

(** ** The gate of a file *)

(** [file_gate]: the table of every mount and file in the process. *)
Definition file_gate (g : GateTable (Z * bytes * Z)) (identity : Z) (fh : bytes) (kind : Z) :=
  gate_for g (identity, fh, kind).

(** ** Writes *)

Definition WRITE_CONCURRENCY : nat := 8.

Definition write_failure (error : NfsError) (p : NFSVersion) (accepted : Z) (commit uncertain : bool) : NfsError :=
  if (accepted =? 0) && negb commit && negb uncertain then error
  else OperationOutcome (with_completed_bytes
         (OperationOutcomeError_new Uncertain ReplaySensitive VerifyThenResume
            {| operation := if commit then "commit" else "write"; protocol := p; request_id := None |}
            error) accepted).

(** [(0..len).step_by(chunk)] *)
Definition step_by (len chunk : Z) : list Z :=
  map (fun i => Z.of_nat i * chunk) (seq 0 (Z.to_nat ((len + chunk - 1) / chunk))).

(** [data.slice(a..b)] *)
Definition slice (a b : Z) (data : bytes) : bytes := firstn (Z.to_nat (b - a)) (skipn (Z.to_nat a) data).

(** The loop of [write_chunk_with]: the offset and the data of the chunk, the
    bytes done, the acknowledgements, and how it ended. *)
Inductive chunk_end : Type := Running | Ended (error : option NfsError).
Record chunk_write : Type := {
  cw_offset : Z; cw_data : bytes; cw_done : Z; cw_receipts : list WriteOutcome; cw_end : chunk_end
}.
Definition invalid_count (p : NFSVersion) (done : Z) : NfsError :=
  write_failure (Rpc "server returned an invalid write count") p done true false.

(** One turn of the loop with the server's answer. *)
Definition chunk_answer (p : NFSVersion) (t : chunk_write) (r : WriteOutcome + NfsError) : chunk_write :=
  let ended e := {| cw_offset := cw_offset t; cw_data := cw_data t; cw_done := cw_done t;
                    cw_receipts := cw_receipts t; cw_end := Ended (Some e) |} in
  match r with
  | inr e => ended e
  | inl o =>
      let n := wo_count o in
      if (n =? 0) || (remaining (cw_data t) - cw_done t <? n) then ended (invalid_count p (cw_done t))
      else
        let done := cw_done t + n in
        {| cw_offset := cw_offset t; cw_data := cw_data t; cw_done := done;
           cw_receipts := cw_receipts t ++ [o];
           cw_end := if done <? remaining (cw_data t) then Running else Ended None |}
  end.

(** [write_all_with]: the state of one attempt. *)
Record batch : Type := {
  bt_attempt : nat;
  bt_chunk : Z;
  bt_ranges : list Z;
  bt_active : list chunk_write;
  bt_accepted : Z;
  bt_receipts : list WriteOutcome;
  bt_failure : option (Z * NfsError);
  bt_uncertain : bool;
}.

(** The calls of [WriteIo] with their answers. *)
Inductive io_call : Type :=
| IoWrite (offset : Z) (data : bytes) (r : WriteOutcome + NfsError)
| IoCommit (offset count : Z) (receipts : list WriteOutcome) (r : () + NfsError).

Inductive call_phase : Type := Writing (b : batch) | Returned (r : result Z).

Inductive io_event : Type :=
| EvWrite (i : nat) (r : WriteOutcome + NfsError)
| EvCollect (i : nat)
| EvCommit (r : () + NfsError).

Definition is_uncertain (e : NfsError) : bool :=
  match operation_outcome e with
  | Some o => bool_decide (outcome_kind o = Uncertain)
  | None => false
  end.
Definition verifier_mismatch (e : NfsError) : bool :=
  match operation_outcome e with
  | Some o => bool_decide (operation (context o) = "write_verifier")
  | None => false
  end.

Section Writes.
Context (p : NFSVersion) (write_chunk_size : nat -> Z) (offset : Z) (data : bytes).
#[local] Notation len := (remaining data).

Definition write_range (chunk start : Z) : chunk_write :=
  let stop := Z.min len (start + chunk) in
  {| cw_offset := offset + start; cw_data := slice start stop data; cw_done := 0;
     cw_receipts := []; cw_end := Running |}.

Definition attempt_start (attempt : nat) : batch :=
  let chunk := Z.max (write_chunk_size attempt) 1 in
  let ranges := step_by len chunk in
  {| bt_attempt := attempt; bt_chunk := chunk; bt_ranges := skipn WRITE_CONCURRENCY ranges;
     bt_active := map (write_range chunk) (firstn WRITE_CONCURRENCY ranges);
     bt_accepted := 0; bt_receipts := []; bt_failure := None; bt_uncertain := false |}.

(** The collection of an ended chunk. *)
Definition settle_chunk (b : batch) (i : nat) (t : chunk_write) (error : option NfsError) : batch :=
  {| bt_attempt := bt_attempt b; bt_chunk := bt_chunk b; bt_ranges := bt_ranges b;
     bt_active := delete i (bt_active b);
     bt_accepted := bt_accepted b + cw_done t; bt_receipts := bt_receipts b ++ cw_receipts t;
     bt_failure :=
       match error with
       | Some e =>
           match bt_failure b with
           | Some (at_, _) => if cw_offset t <? at_ then Some (cw_offset t, e) else bt_failure b
           | None => Some (cw_offset t, e)
           end
       | None => bt_failure b
       end;
     bt_uncertain := bt_uncertain b || match error with Some e => is_uncertain e | None => false end |}.

(** The admission of the next range. *)
Definition admit_next (b : batch) : batch :=
  match bt_failure b, bt_ranges b with
  | None, start :: ranges =>
      {| bt_attempt := bt_attempt b; bt_chunk := bt_chunk b; bt_ranges := ranges;
         bt_active := bt_active b ++ [write_range (bt_chunk b) start];
         bt_accepted := bt_accepted b; bt_receipts := bt_receipts b;
         bt_failure := bt_failure b; bt_uncertain := bt_uncertain b |}
  | _, _ => b
  end.

(** [u32::try_from(len).map_or((0, 0), |n| (offset, n))] *)
Definition commit_range : Z * Z := if len <? 2 ^ 32 then (offset, len) else (0, 0).

(** The end of an attempt. *)
Definition commit_result (b : batch) (r : () + NfsError) : call_phase :=
  match r with
  | inl _ => Returned (Ok len)
  | inr e => if (bt_attempt b <? 2)%nat && verifier_mismatch e then Writing (attempt_start (S (bt_attempt b)))
             else Returned (Err (write_failure e p len true false))
  end.

Definition batch_step (b : batch) (ev : io_event) : option (call_phase * list io_call) :=
  match ev with
  | EvWrite i r =>
      match bt_active b !! i with
      | Some t =>
          match cw_end t with
          | Running =>
              let call := IoWrite (cw_offset t + cw_done t) (skipn (Z.to_nat (cw_done t)) (cw_data t)) r in
              Some (Writing {| bt_attempt := bt_attempt b; bt_chunk := bt_chunk b; bt_ranges := bt_ranges b;
                               bt_active := <[i := chunk_answer p t r]> (bt_active b);
                               bt_accepted := bt_accepted b; bt_receipts := bt_receipts b;
                               bt_failure := bt_failure b; bt_uncertain := bt_uncertain b |}, [call])
          | Ended _ => None
          end
      | None => None
      end
  | EvCollect i =>
      match bt_active b !! i with
      | Some t =>
          match cw_end t with
          | Ended error =>
              let b := admit_next (settle_chunk b i t error) in
              Some (match bt_active b, bt_failure b with
                    | [], Some (_, e) =>
                        Returned (Err (write_failure e p (bt_accepted b) false (bt_uncertain b)))
                    | _, _ => Writing b
                    end, [])
          | Running => None
          end
      | None => None
      end
  | EvCommit r =>
      match bt_active b, bt_failure b with
      | [], None =>
          let '(o, n) := commit_range in
          Some (commit_result b r, [IoCommit o n (bt_receipts b) r])
      | _, _ => None
      end
  end.

(** The call from its start: the checks, then the events. *)
Definition write_all_start : call_phase :=
  match checked_add64 offset len with
  | None => Returned (Err (InvalidInput "write range overflows u64"))
  | Some _ => if len =? 0 then Returned (Ok 0) else Writing (attempt_start 0)
  end.

Fixpoint write_all_run (st : call_phase) (evs : list io_event) : option (call_phase * list io_call) :=
  match evs with
  | [] => Some (st, [])
  | ev :: evs =>
      match st with
      | Returned _ => None
      | Writing b =>
          match batch_step b ev with
          | Some (st, log) =>
              match write_all_run st evs with
              | Some (st, log') => Some (st, log ++ log')
              | None => None
              end
          | None => None
          end
      end
  end.
End Writes.

(** ** Reads *)

Definition READ_CONCURRENCY : nat := 8.

(** The loop over one chunk: [want - got] bytes are still asked for; [answer got]
    is what the server returned at that point. The fuel is the bytes asked for. *)
Fixpoint read_chunk (fuel : nat) (answer : Z -> Z -> result bytes) (pos want got : Z) (pieces : list bytes)
    : result (Z * list bytes) :=
  if want <=? got then Ok (got, pieces)
  else match fuel with
       | O => Panic
       | S fuel =>
           let* data := answer (pos + got) (want - got) in
           if want - got <? remaining data then Err (Rpc "server returned more READ data than requested")
           else if bool_decide (data = []) then Ok (got, pieces)
           else read_chunk fuel answer pos want (got + remaining data) (pieces ++ [data])
       end.

Section Fill.
Context {S : Type} (fill : S -> Z -> bytes -> result S).
Fixpoint fill_pieces (s : S) (at_ : Z) (pieces : list bytes) : result S :=
  match pieces with
  | [] => Ok s
  | piece :: pieces => let* s := fill s at_ piece in fill_pieces s (at_ + remaining piece) pieces
  end.

(** The chunks are read concurrently and consumed in the order of the file. *)
Fixpoint consume (answer : Z -> Z -> result bytes) (offset len chunk : Z) (starts : list Z) (s : S) (completed : Z)
    : result (Z * S) :=
  match starts with
  | [] => Ok (completed, s)
  | start :: starts =>
      let want := Z.min chunk (len - start) in
      let* (got, pieces) := read_chunk (Z.to_nat want) answer (offset + start) want 0 [] in
      let* s := fill_pieces s start pieces in
      let completed := completed + got in
      if got <? want then Ok (completed, s) else consume answer offset len chunk starts s completed
  end.

Definition read_chunks_with (read_chunk_size : Z) (answer : Z -> Z -> result bytes) (offset len : Z) (s : S)
    : result (Z * S) :=
  match checked_add64 offset len with
  | None => Err (InvalidInput "read range overflows u64")
  | Some _ =>
      let chunk := Z.max read_chunk_size 1 in
      consume answer offset len chunk (step_by len chunk) s 0
  end.
End Fill.

(** ** The file wrapper *)

Inductive FileState : Type := Open | Closing | Closed.
#[global] Instance FileState_eq_dec : EqDecision FileState. Proof. solve_decision. Defined.
Definition require_open (s : FileState) : result () :=
  if bool_decide (s = Open) then Ok () else Err (ClosedResource "BufferedFile is closing or closed").

(** How [read_at] joins the pieces: [first] holds a single one, [joined] more. *)
Definition join_piece (st : option bytes * option bytes) (_ : Z) (piece : bytes)
    : result (option bytes * option bytes) :=
  match st with
  | (first, Some data) => Ok (first, Some (data ++ piece))
  | (Some previous, None) => Ok (None, Some (previous ++ piece))
  | (None, None) => Ok (Some piece, None)
  end.
Definition joined_bytes (st : option bytes * option bytes) : bytes :=
  match st with
  | (_, Some data) => data
  | (first, None) => default [] first
  end.
Definition read_at (state : FileState) (read_chunk_size : Z) (answer : Z -> Z -> result bytes) (offset len : Z)
    : result bytes :=
  let* _ := require_open state in
  let* (_, st) := read_chunks_with join_piece read_chunk_size answer offset len (None, None) in
  Ok (joined_bytes st).

(** [write_at]: the state it starts from, and the phase of its write. *)
Definition write_at (state : FileState) (write_chunk_size : nat -> Z) (offset : Z) (data : bytes)
    : result call_phase :=
  let* _ := require_open state in Ok (write_all_start write_chunk_size offset data).
Definition flush (state : FileState) : result () := require_open state.

(** [close]: what became of the mount's CLOSE, if there was one, is [answered];
    [None] is a caller that went away while it waited. *)
Definition close (state : FileState) (answered : option (result ())) : option (result ()) * FileState * bool :=
  match state with
  | Closed => (Some (Ok ()), Closed, false)
  | Closing =>
      (Some (Err (ClosedResource "BufferedFile close did not settle successfully; clean up the mount")), Closing, false)
  | Open =>
      match answered with
      | None => (None, Closing, true)
      | Some (Ok u) => (Some (Ok u), Closed, true)
      | Some r => (Some r, Closing, true)
      end
  end.

(** ** Theorems *)

(** *** The chunks of a range *)

Lemma step_by_elem len chunk s :
  0 < chunk -> 0 <= len ->
  s ∈ step_by len chunk <-> exists i, 0 <= i /\ s = i * chunk /\ s < len.
Proof.
  intros Hc Hl. unfold step_by. rewrite list_elem_of_fmap. split.
  - intros (i & -> & Hi%elem_of_seq). exists (Z.of_nat i). split_and!; [lia|done|].
    pose proof (Z.mul_div_le (len + chunk - 1) chunk Hc). nia.
  - intros (i & Hi & -> & Hlt). exists (Z.to_nat i). split; [lia|]. apply elem_of_seq. split; [lia|].
    assert (i + 1 <= (len + chunk - 1) / chunk); [|lia]. apply Z.div_le_lower_bound; nia.
Qed.

Lemma step_by_NoDup len chunk : 0 < chunk -> NoDup (step_by len chunk).
Proof. intros Hc. unfold step_by. apply NoDup_fmap; [intros i j; nia|apply NoDup_seq]. Qed.

(** The part of the range a chunk covers. *)
Definition chunk_len (len chunk s : Z) : Z := Z.min len (s + chunk) - s.

Lemma step_by_total_aux len chunk k n :
  0 < chunk -> (Z.of_nat (k + n) - 1) * chunk < len ->
  wsum (chunk_len len chunk) (map (fun i => Z.of_nat i * chunk) (seq k n)) =
  if Nat.eqb n 0 then 0 else Z.min len (Z.of_nat (k + n) * chunk) - Z.of_nat k * chunk.
Proof.
  intros Hc. revert k. induction n as [|n IH]; intros k Hn; [done|]. cbn [seq map].
  rewrite wsum_cons, IH by (replace (S k + n)%nat with (k + S n)%nat by lia; done).
  unfold chunk_len. cbn [Nat.eqb]. destruct (Nat.eqb_spec n 0) as [->|].
  - replace (Z.of_nat (k + 1)) with (Z.of_nat k + 1) by lia. lia.
  - replace (S k + n)%nat with (k + S n)%nat by lia.
    assert ((Z.of_nat k + 1) * chunk <= (Z.of_nat (k + S n) - 1) * chunk) by nia. lia.
Qed.

Lemma step_by_total len chunk :
  0 < chunk -> 0 <= len -> wsum (chunk_len len chunk) (step_by len chunk) = len.
Proof.
  intros Hc Hl. pose proof (Z.mul_div_le (len + chunk - 1) chunk Hc).
  pose proof (Z.mul_succ_div_gt (len + chunk - 1) chunk Hc).
  assert (0 <= (len + chunk - 1) / chunk) by (apply Z.div_pos; lia).
  unfold step_by. rewrite step_by_total_aux by (cbn [plus]; nia). cbn [plus].
  destruct (Nat.eqb_spec (Z.to_nat ((len + chunk - 1) / chunk)) 0); nia.
Qed.

Lemma slice_lookup a b data k :
  0 <= a -> 0 <= k < b - a -> slice a b data !! Z.to_nat k = data !! Z.to_nat (a + k).
Proof.
  intros Ha Hk. unfold slice. rewrite lookup_take_lt, lookup_drop by lia. f_equal. lia.
Qed.

Lemma remaining_slice a b data : 0 <= a <= b -> b <= remaining data -> remaining (slice a b data) = b - a.
Proof.
  intros Ha Hb. unfold remaining, slice in *. rewrite length_take, length_drop. lia.
Qed.

(** *** What the server has acknowledged *)

(** An acknowledged write: where, which bytes, and the receipt. *)
Definition ack : Type := (Z * bytes * WriteOutcome)%type.
Definition ack_of (c : io_call) : option ack :=
  match c with
  | IoWrite o d (inl w) =>
      if (wo_count w =? 0) || (remaining d <? wo_count w) then None
      else Some (o, firstn (Z.to_nat (wo_count w)) d, w)
  | _ => None
  end.
Definition acks (log : list io_call) : list ack := omap ack_of log.
Definition ack_bytes (log : list io_call) : Z := wsum (fun a : ack => wo_count a.2) (acks log).

Lemma acks_app a b : acks (a ++ b) = acks a ++ acks b.
Proof. apply omap_app. Qed.
Lemma ack_bytes_app a b : ack_bytes (a ++ b) = ack_bytes a + ack_bytes b.
Proof. unfold ack_bytes. by rewrite acks_app, wsum_app. Qed.

(** *** The attempts of a call

    An attempt ends with its COMMIT; the calls after a COMMIT belong to a
    repetition of the whole write. *)
Definition is_commit (c : io_call) : bool := match c with IoCommit _ _ _ _ => true | _ => false end.
(** The calls after the last COMMIT that was not the last call. *)
Fixpoint last_attempt (log : list io_call) : list io_call :=
  match log with
  | [] => []
  | _ :: rest => if existsb is_commit (List.removelast log) then last_attempt rest else log
  end.

(** [P] is empty or ends with a COMMIT, and [W] has no COMMIT. *)
Definition attempt_after (P W : list io_call) : Prop :=
  (P = [] \/ exists P' c, P = P' ++ [c] /\ is_commit c = true) /\ existsb is_commit W = false.

Lemma last_attempt_app P W c : attempt_after P W -> last_attempt (P ++ W ++ [c]) = W ++ [c].
Proof.
  intros [HP HW]. induction P as [|x P IH]; cbn [app].
  - destruct (W ++ [c]) eqn:E; [done|]. cbn [last_attempt]. rewrite <- E, List.removelast_last. by rewrite HW.
  - assert (Hex : exists P' c', x :: P = P' ++ [c'] /\ is_commit c' = true) by (destruct HP; done).
    destruct Hex as (P' & c' & E & Hc). cbn [last_attempt]. rewrite app_comm_cons, E.
    rewrite app_assoc, List.removelast_last, !existsb_app. cbn [existsb]. rewrite Hc, orb_true_r. cbn.
    apply IH. destruct P' as [|y P']; [left; by injection E|]. injection E as -> ->. right. by exists P', c'.
Qed.

Lemma last_attempt_of P W : attempt_after P W -> W <> [] -> last_attempt (P ++ W) = W.
Proof.
  intros [HP HW] Hn. destruct (exists_last Hn) as (W' & c & ->). apply last_attempt_app. split; [done|].
  rewrite existsb_app in HW. by apply orb_false_iff in HW as [? _].
Qed.

Lemma last_attempt_in log c : c ∈ last_attempt log -> c ∈ log.
Proof.
  induction log as [|x log IH]; [done|]. cbn [last_attempt]. destruct (existsb _ _); [|done].
  intros H. right. by apply IH.
Qed.

(** An answer that leaves the outcome of its write unknown. *)
Definition unknown_answer (c : io_call) : bool :=
  match c with
  | IoWrite o d (inl w) => (wo_count w =? 0) || (remaining d <? wo_count w)
  | IoWrite _ _ (inr e) => is_uncertain e
  | IoCommit _ _ _ _ => false
  end.

Definition event_ok (ev : io_event) : Prop :=
  match ev with EvWrite _ (inl o) => 0 <= wo_count o | _ => True end.

Lemma insert_middle {A} (l1 l2 : list A) (x y : A) : <[length l1 := y]> (l1 ++ x :: l2) = l1 ++ y :: l2.
Proof. rewrite <- (Nat.add_0_r (length l1)), insert_app_r. done. Qed.

Section WriteProofs.
Context (p : NFSVersion) (write_chunk_size : nat -> Z) (offset : Z) (data : bytes).
#[local] Notation len := (remaining data).

(** Every byte of a part of the data has been acknowledged at its place. *)
Definition covered (W : list io_call) (lo hi : Z) : Prop :=
  forall i, lo <= i < hi -> exists o d w, (o, d, w) ∈ acks W /\ o <= offset + i < o + remaining d /\
    d !! Z.to_nat (offset + i - o) = data !! Z.to_nat i.

Lemma covered_app W W' lo hi : covered W lo hi -> covered (W ++ W') lo hi.
Proof.
  intros H i Hi. destruct (H i Hi) as (o & d & w & ? & ? & ?). exists o, d, w.
  rewrite acks_app, elem_of_app. eauto.
Qed.

(** A chunk in flight, or ended and not collected. *)
Record task_ok (chunk : Z) (W : list io_call) (t : chunk_write) (s : Z) : Prop := {
  to_start : s ∈ step_by len chunk;
  to_offset : cw_offset t = offset + s;
  to_data : cw_data t = slice s (Z.min len (s + chunk)) data;
  to_done : 0 <= cw_done t <= remaining (cw_data t);
  to_end : match cw_end t with
           | Running => cw_done t < remaining (cw_data t)
           | Ended None => cw_done t = remaining (cw_data t)
           | Ended (Some _) => True
           end;
  to_covered : covered W s (s + cw_done t);
}.

Record batch_core (b : batch) (W : list io_call) : Prop := {
  bi_chunk : 0 < bt_chunk b;
  bi_tasks : Forall (fun t => exists s, task_ok (bt_chunk b) W t s) (bt_active b);
  bi_starts : forall s, s ∈ step_by len (bt_chunk b) ->
    s ∈ bt_ranges b \/ (exists t, t ∈ bt_active b /\ cw_offset t = offset + s) \/
    bt_failure b <> None \/ covered W s (Z.min len (s + bt_chunk b));
  bi_ranges : forall s, s ∈ bt_ranges b -> s ∈ step_by len (bt_chunk b);
  bi_nodup : NoDup (map cw_offset (bt_active b) ++ map (Z.add offset) (bt_ranges b));
  bi_bound : (length (bt_active b) <= WRITE_CONCURRENCY)%nat;
  bi_receipts : (acks W).*2 ≡ₚ bt_receipts b ++ concat (map cw_receipts (bt_active b));
  bi_accepted : bt_accepted b + wsum cw_done (bt_active b) = ack_bytes W;
  bi_total : bt_failure b = None ->
    bt_accepted b + wsum (fun t => remaining (cw_data t)) (bt_active b) +
    wsum (chunk_len len (bt_chunk b)) (bt_ranges b) = len;
  bi_unknown : forall c, c ∈ W -> unknown_answer c = true ->
    bt_uncertain b = true \/
    exists t e, t ∈ bt_active b /\ cw_end t = Ended (Some e) /\ is_uncertain e = true;
  bi_errors : forall e, (exists s, bt_failure b = Some (s, e)) \/
      (exists t, t ∈ bt_active b /\ cw_end t = Ended (Some e)) ->
    W <> [] /\ (is_uncertain e = true \/ exists o d, IoWrite o d (inr e) ∈ W);
  bi_flag : forall s e, bt_failure b = Some (s, e) -> is_uncertain e = true -> bt_uncertain b = true;
}.
(** Ranges wait only while chunks are in flight. *)
Definition admits (b : batch) : Prop := bt_failure b = None -> bt_ranges b <> [] -> bt_active b <> [].
Definition batch_inv (b : batch) (W : list io_call) : Prop := batch_core b W /\ admits b.

Lemma attempt_start_inv attempt : batch_inv (attempt_start write_chunk_size offset data attempt) [].
Proof.
  unfold attempt_start. set (chunk := Z.max (write_chunk_size attempt) 1).
  assert (Hc : 0 < chunk) by (unfold chunk; lia). pose proof (remaining_nonneg data) as Hl.
  pose proof (take_drop WRITE_CONCURRENCY (step_by len chunk)) as Htd.
  set (first := firstn WRITE_CONCURRENCY (step_by len chunk)) in *.
  set (rest := skipn WRITE_CONCURRENCY (step_by len chunk)) in *.
  assert (Hfirst : forall s, s ∈ first -> s ∈ step_by len chunk).
  { intros s Hs. rewrite <- Htd, elem_of_app. by left. }
  assert (Hstart : forall s, s ∈ step_by len chunk -> 0 <= s < len).
  { intros s (i & ? & -> & ?)%step_by_elem; nia. }
  split; [constructor; cbn [bt_chunk bt_active bt_ranges bt_failure bt_receipts bt_accepted bt_uncertain]|].
  - done.
  - apply Forall_map, Forall_forall. intros s Hs. exists s. specialize (Hfirst s Hs). specialize (Hstart s Hfirst).
    assert (remaining (slice s (Z.min len (s + chunk)) data) = Z.min len (s + chunk) - s)
      by (apply remaining_slice; lia).
    constructor; cbn; try done; [lia|lia|]. intros i Hi. lia.
  - intros s Hs. rewrite <- Htd, elem_of_app in Hs. destruct Hs as [Hs|Hs]; [|by left]. right. left.
    exists (write_range offset data chunk s). split; [|done]. by apply list_elem_of_fmap_2.
  - intros s Hs. rewrite <- Htd, elem_of_app. by right.
  - rewrite map_map. change (map (fun x => _) first) with (map (Z.add offset) first).
    rewrite <- map_app, Htd. apply NoDup_fmap; [intros x y; lia|by apply step_by_NoDup].
  - rewrite length_map. unfold first. rewrite length_firstn. lia.
  - generalize first. clear. intros l. induction l as [|x l IH]; [done|exact IH].
  - assert (wsum cw_done (map (write_range offset data chunk) first) = 0) as ->; [|done].
    generalize first. clear. intros l. induction l; [done|]. cbn [map]. by rewrite wsum_cons.
  - intros _. transitivity (wsum (chunk_len len chunk) (first ++ rest));
      [|rewrite Htd; by apply step_by_total]. rewrite wsum_app. f_equal. rewrite Z.add_0_l.
    assert (Hall : Forall (fun s => 0 <= s < len) first) by (apply Forall_forall; auto).
    revert Hall. generalize first. clear -Hc. intros l Hall. induction Hall as [|s l Hs _ IH]; [done|]. cbn [map].
    rewrite !wsum_cons, IH. cbn [write_range cw_data]. rewrite remaining_slice by lia. done.
  - intros c Hc'. by apply not_elem_of_nil in Hc'.
  - intros e [[s Hs]|(t & Ht & He)]; [done|]. apply list_elem_of_fmap in Ht as (s & -> & _). done.
  - done.
  - intros _ Hr Hf. apply fmap_nil_inv in Hf. unfold rest, first in *.
    destruct (step_by len chunk); [by destruct Hr|done].
Qed.

(** The call a running chunk makes. *)
Definition chunk_call (t : chunk_write) (r : WriteOutcome + NfsError) : io_call :=
  IoWrite (cw_offset t + cw_done t) (skipn (Z.to_nat (cw_done t)) (cw_data t)) r.

Definition answer_ok (r : WriteOutcome + NfsError) : Prop :=
  match r with inl o => 0 <= wo_count o | inr _ => True end.

(** An answer adds to the chunk what it acknowledges. *)
Lemma chunk_answer_acks t r :
  0 <= cw_done t <= remaining (cw_data t) ->
  cw_receipts (chunk_answer p t r) = cw_receipts t ++ (acks [chunk_call t r]).*2 /\
  cw_done (chunk_answer p t r) = cw_done t + ack_bytes [chunk_call t r].
Proof.
  intros Hd. unfold ack_bytes, acks, chunk_call. destruct r as [o|e]; cbn [chunk_answer omap list_omap ack_of].
  2: { cbn. by rewrite app_nil_r, Z.add_0_r. }
  rewrite remaining_skipn by lia. destruct (_ || _) eqn:E; cbn; [by rewrite app_nil_r, Z.add_0_r|].
  split; [done|lia].
Qed.

Lemma chunk_answer_fixed t r :
  cw_offset (chunk_answer p t r) = cw_offset t /\ cw_data (chunk_answer p t r) = cw_data t.
Proof. unfold chunk_answer. destruct r as [o|]; [destruct (_ || _)|]; done. Qed.

Lemma task_mono chunk W W' t s : task_ok chunk W t s -> task_ok chunk (W ++ W') t s.
Proof. intros []. constructor; auto using covered_app. Qed.

Lemma chunk_answer_ok chunk W t s r :
  0 < chunk -> task_ok chunk W t s -> cw_end t = Running -> answer_ok r ->
  task_ok chunk (W ++ [chunk_call t r]) (chunk_answer p t r) s.
Proof.
  intros Hc Ht Hr Ha. destruct (task_mono chunk W [chunk_call t r] t s Ht) as [Hs Ho Hdat Hd He Hcov].
  rewrite Hr in He. destruct r as [o|e]; [|by constructor]. cbn [chunk_answer answer_ok] in *.
  destruct ((wo_count o =? 0) || (remaining (cw_data t) - cw_done t <? wo_count o)) eqn:E; [by constructor|].
  apply orb_false_iff in E as [E1%Z.eqb_neq E2%Z.ltb_ge].
  constructor; cbn [cw_offset cw_data cw_done cw_receipts cw_end]; try done; [lia| |].
  { destruct (Z.ltb_spec (cw_done t + wo_count o) (remaining (cw_data t))); lia. }
  intros i Hi. destruct (decide (i < s + cw_done t)) as [Hlt|Hge]; [apply Hcov; lia|].
  apply step_by_elem in Hs as (k & Hk & -> & Hlt); [|done|apply remaining_nonneg].
  set (s := k * chunk) in *. assert (Hs0 : 0 <= s) by (unfold s; nia).
  pose proof (remaining_slice s (Z.min len (s + chunk)) data ltac:(lia) ltac:(lia)) as Hsl.
  rewrite <- Hdat in Hsl.
  exists (cw_offset t + cw_done t), (firstn (Z.to_nat (wo_count o)) (skipn (Z.to_nat (cw_done t)) (cw_data t))), o.
  split; [|split].
  - rewrite acks_app, elem_of_app. right. unfold acks, chunk_call. cbn [omap list_omap ack_of].
    rewrite remaining_skipn by lia.
    destruct ((wo_count o =? 0) || (remaining (cw_data t) - cw_done t <? wo_count o)) eqn:E;
      [|by left]. apply orb_true_iff in E as [E%Z.eqb_eq|E%Z.ltb_lt]; lia.
  - rewrite remaining_firstn by (rewrite remaining_skipn; lia). lia.
  - rewrite lookup_take_lt, lookup_drop by lia. rewrite Hdat.
    replace (Z.to_nat (cw_done t) + Z.to_nat (offset + i - (cw_offset t + cw_done t)))%nat
      with (Z.to_nat (i - s)) by lia.
    rewrite slice_lookup by lia. f_equal. lia.
Qed.

Lemma invalid_count_uncertain done : is_uncertain (invalid_count p done) = true.
Proof. unfold invalid_count, write_failure. by rewrite andb_false_r. Qed.

(** An answer that says nothing ends its chunk with an error that says so. *)
Lemma chunk_answer_unknown t r :
  0 <= cw_done t <= remaining (cw_data t) ->
  (unknown_answer (chunk_call t r) = true ->
     exists e, cw_end (chunk_answer p t r) = Ended (Some e) /\ is_uncertain e = true) /\
  (forall e, cw_end (chunk_answer p t r) = Ended (Some e) ->
     is_uncertain e = true \/ r = inr e).
Proof.
  intros Hd. unfold chunk_call. destruct r as [o|e]; cbn [unknown_answer chunk_answer].
  - rewrite remaining_skipn by lia. destruct (_ || _); cbn [cw_end].
    + split; [intros _; eexists; split; [done|apply invalid_count_uncertain]|].
      intros e [= <-]. left. apply invalid_count_uncertain.
    + split; [done|]. intros e. by destruct (_ <? _).
  - split; [intros He; by exists e|]. intros e' [= <-]. by right.
Qed.

Lemma write_event_inv b W i t r :
  batch_inv b W -> bt_active b !! i = Some t -> cw_end t = Running -> answer_ok r ->
  batch_inv {| bt_attempt := bt_attempt b; bt_chunk := bt_chunk b; bt_ranges := bt_ranges b;
               bt_active := <[i := chunk_answer p t r]> (bt_active b);
               bt_accepted := bt_accepted b; bt_receipts := bt_receipts b;
               bt_failure := bt_failure b; bt_uncertain := bt_uncertain b |} (W ++ [chunk_call t r]).
Proof.
  intros [[Hc Ht Hst Hrg Hnd Hb Hrc Hacc Htot Hun Her Hfl] Had] Hi Hr Ha.
  destruct (list_elem_of_split_length _ _ _ Hi) as (l1 & l2 & Hact & ->). rewrite Hact in *.
  rewrite insert_middle. set (t' := chunk_answer p t r).
  assert (Htt : exists s, task_ok (bt_chunk b) W t s).
  { rewrite Forall_forall in Ht. apply Ht. rewrite elem_of_app. right. by left. }
  destruct Htt as [s Hts]. pose proof (to_done _ _ _ _ Hts) as Hd.
  destruct (chunk_answer_acks t r Hd) as [Hrec Hdone]. destruct (chunk_answer_fixed t r) as [Hoff Hdata].
  destruct (chunk_answer_unknown t r Hd) as [Hu1 Hu2].
  fold t' in Hrec, Hdone, Hoff, Hdata, Hu1, Hu2.
  assert (Hin : forall x, x ∈ l1 ++ t' :: l2 <-> x ∈ l1 \/ x = t' \/ x ∈ l2).
  { intros x. rewrite elem_of_app, elem_of_cons. tauto. }
  assert (Hin0 : forall x, x ∈ l1 ++ t :: l2 <-> x ∈ l1 \/ x = t \/ x ∈ l2).
  { intros x. rewrite elem_of_app, elem_of_cons. tauto. }
  split; [constructor|intros _ _ Hnil; by apply app_nil in Hnil as [_ ?]];
    cbn [bt_chunk bt_active bt_ranges bt_failure bt_receipts bt_accepted bt_uncertain]; try done.
  - apply Forall_app in Ht as [F1 F2]. apply Forall_cons in F2 as [_ F2].
    apply Forall_app. split; [|apply Forall_cons; split].
    + eapply Forall_impl; [exact F1|]. intros x [s' ?]. exists s'. by apply task_mono.
    + exists s. by apply chunk_answer_ok.
    + eapply Forall_impl; [exact F2|]. intros x [s' ?]. exists s'. by apply task_mono.
  - intros s' Hs'. destruct (Hst s' Hs') as [?|[(x & Hx & Hxo)|[?|?]]]; [by left| |by auto|].
    + right. left. apply Hin0 in Hx as [?|[->|?]]; [exists x|exists t'|exists x]; (split; [apply Hin; auto|congruence]).
    + do 3 right. by apply covered_app.
  - rewrite map_app in *. cbn [map] in *. by rewrite Hoff.
  - rewrite length_app in *. done.
  - rewrite acks_app, fmap_app, Hrc, !map_app. cbn [map]. rewrite Hrec, !concat_app. cbn [concat].
    solve_Permutation.
  - rewrite ack_bytes_app, <- Hacc, !wsum_app, !wsum_cons, Hdone. lia.
  - intros Hf. specialize (Htot Hf). rewrite !wsum_app, !wsum_cons in *. rewrite Hdata. lia.
  - intros c [Hcw|Hcw]%elem_of_app Hunk.
    + destruct (Hun c Hcw Hunk) as [?|(x & e & Hx & He & Hue)]; [by left|]. right.
      exists x, e. split_and!; [|done|done]. apply Hin. apply Hin0 in Hx as [?|[->|?]]; auto. congruence.
    + apply list_elem_of_singleton in Hcw as ->. destruct (Hu1 Hunk) as (e & He & Hue). right.
      exists t', e. split_and!; [apply Hin; auto|done|done].
  - intros e He. split; [by destruct W|].
    assert (Hold : (exists s0, bt_failure b = Some (s0, e)) \/ (exists t0, t0 ∈ l1 ++ t :: l2 /\ cw_end t0 = Ended (Some e))
                   \/ cw_end t' = Ended (Some e)).
    { destruct He as [?|(x & Hx & Hxe)]; [by left|]. apply Hin in Hx as [?|[->|?]]; [|by auto|];
        right; left; exists x; (split; [apply Hin0; auto|done]). }
    destruct Hold as [H|[H|H]].
    + destruct (Her e (or_introl H)) as [_ [?|(o & d & ?)]]; [by left|]. right. exists o, d. rewrite elem_of_app. by left.
    + destruct (Her e (or_intror H)) as [_ [?|(o & d & ?)]]; [by left|]. right. exists o, d. rewrite elem_of_app. by left.
    + destruct (Hu2 e H) as [?| ->]; [by left|]. right. do 2 eexists. rewrite elem_of_app. right. by left.
Qed.

Lemma settle_chunk_core b W i t error :
  batch_core b W -> bt_active b !! i = Some t -> cw_end t = Ended error ->
  batch_core (settle_chunk b i t error) W.
Proof.
  intros [Hc Ht Hst Hrg Hnd Hb Hrc Hacc Htot Hun Her Hfl] Hi He.
  destruct (list_elem_of_split_length _ _ _ Hi) as (l1 & l2 & Hact & ->). rewrite Hact in *.
  assert (Htt : exists s, task_ok (bt_chunk b) W t s).
  { rewrite Forall_forall in Ht. apply Ht. rewrite elem_of_app. right. by left. }
  destruct Htt as [s [_ Hso Hsd Hd Hend Hcov]]. rewrite He in Hend.
  assert (Hin : forall x, x ∈ l1 ++ t :: l2 <-> x ∈ l1 ++ l2 \/ x = t).
  { intros x. rewrite !elem_of_app, elem_of_cons. tauto. }
  unfold settle_chunk. rewrite Hact, delete_middle.
  constructor; cbn [bt_chunk bt_active bt_ranges bt_failure bt_receipts bt_accepted bt_uncertain]; try done.
  - rewrite Forall_forall in *. intros x Hx. apply Ht, Hin. by left.
  - intros s' Hs'. destruct (Hst s' Hs') as [?|[(x & Hx & Hxo)|[Hf|?]]]; [by left| |do 2 right; left|by auto].
    + apply Hin in Hx as [?| ->]; [right; left; by exists x|]. do 2 right.
      destruct error as [e|]; [left; destruct (bt_failure b) as [[]|]; [case_match|]; done|right].
      assert (s' = s) as -> by lia. assert (Hlen := f_equal remaining Hsd).
      apply step_by_elem in Hs' as (k & Hk & -> & Hlt); [|done|apply remaining_nonneg].
      rewrite remaining_slice in Hlen by nia.
      replace (Z.min len (k * bt_chunk b + bt_chunk b)) with (k * bt_chunk b + cw_done t) by lia. done.
    + destruct error; [|done]. destruct (bt_failure b) as [[]|]; [case_match|]; done.
  - rewrite map_app in *. cbn [map] in Hnd. rewrite <- app_assoc in *.
    apply NoDup_ListNoDup. apply NoDup_ListNoDup in Hnd. by apply NoDup_remove_1 in Hnd.
  - rewrite length_app in *. cbn in Hb. lia.
  - rewrite Hrc, !map_app, !concat_app. cbn [map concat]. solve_Permutation.
  - rewrite <- Hacc, !wsum_app, wsum_cons. lia.
  - intros Hf. assert (bt_failure b = None /\ error = None) as [Hf0 ->].
    { destruct error; [|done]. destruct (bt_failure b) as [[]|]; [case_match|]; done. }
    specialize (Htot Hf0). rewrite !wsum_app, wsum_cons in *. lia.
  - intros c Hcw Hu. destruct (Hun c Hcw Hu) as [->|(x & e & Hx & Hxe & Hue)]; [by left|].
    apply Hin in Hx as [Hx| ->]; [right; by exists x, e|]. left. rewrite Hxe in He. injection He as <-.
    by rewrite Hue, orb_true_r.
  - intros e [[s' Hf]|(x & Hx & Hxe)].
    + destruct error as [e'|]; [|apply Her; left; by exists s'].
      assert (Hcase : e = e' \/ exists s0, bt_failure b = Some (s0, e)).
      { destruct (bt_failure b) as [[]|]; [case_match|]; simplify_eq; eauto. }
      destruct Hcase as [->|?]; [|by apply Her; left]. apply Her. right. exists t. split; [|done].
      apply Hin. by right.
    + apply Her. right. exists x. split; [apply Hin; by left|done].
  - intros s' e Hf Hue. destruct error as [e'|]; [|rewrite (Hfl s' e) by done; done].
    destruct (bt_failure b) as [[s0 e0]|]; [case_match|]; simplify_eq; rewrite ?Hue, ?orb_true_r; try done.
    by rewrite (Hfl s' e).
Qed.

Lemma admit_next_inv b W : batch_core b W -> (length (bt_active b) < WRITE_CONCURRENCY)%nat ->
  batch_inv (admit_next offset data b) W.
Proof.
  intros Hcore Hroom. pose proof Hcore as [Hc Ht Hst Hrg Hnd Hb Hrc Hacc Htot Hun Her Hfl]. unfold admit_next.
  destruct (bt_failure b) as [f|] eqn:Hf; [split; [done|unfold admits; by rewrite Hf]|].
  destruct (bt_ranges b) as [|s ranges] eqn:Hr; [split; [done|unfold admits; by rewrite Hr]|].
  assert (Hs : s ∈ step_by len (bt_chunk b)) by (apply Hrg; by left).
  pose proof Hs as (k & Hk & Hks & Hlt)%step_by_elem; [|done|apply remaining_nonneg].
  assert (Hsl : remaining (slice s (Z.min len (s + bt_chunk b)) data) = Z.min len (s + bt_chunk b) - s)
    by (apply remaining_slice; nia).
  split; [constructor|intros _ _ Hnil; by apply app_nil in Hnil as [_ ?]];
    cbn [bt_chunk bt_active bt_ranges bt_failure bt_receipts bt_accepted bt_uncertain]; try done.
  - apply Forall_app. split; [done|]. apply Forall_singleton. exists s.
    constructor; cbn; try done; [lia|lia|]. intros j Hj. lia.
  - intros s' Hs'. destruct (Hst s' Hs') as [H|[(x & Hx & Hxo)|[?|?]]]; [|right; left|done|by auto].
    + apply elem_of_cons in H as [->|?]; [right; left|by left].
      exists (write_range offset data (bt_chunk b) s). split; [|done]. apply elem_of_app. right. by left.
    + exists x. split; [|done]. apply elem_of_app. by left.
  - intros s' Hs'. apply Hrg. by right.
  - rewrite map_app, <- app_assoc. exact Hnd.
  - rewrite length_app. cbn. lia.
  - rewrite Hrc, map_app, concat_app. cbn. by rewrite !app_nil_r.
  - rewrite wsum_app. cbn. lia.
  - intros _. specialize (Htot eq_refl). rewrite wsum_app, !wsum_cons in *. unfold chunk_len in Htot at 1.
    cbn [write_range cw_data]. rewrite Hsl. cbn. lia.
  - intros c Hcw Hu. destruct (Hun c Hcw Hu) as [?|(x & e & Hx & Hxe & Hue)]; [by left|]. right.
    exists x, e. split_and!; [|done|done]. apply elem_of_app. by left.
  - intros e [[s' Hf']|(x & Hx & Hxe)]; [done|]. apply elem_of_app in Hx as [Hx|Hx%list_elem_of_singleton].
    + apply Her. right. by exists x.
    + by subst x.
Qed.

(** *** The whole call *)

(** What an error of the call says of the attempt it ended. *)
Definition error_accounts (e : NfsError) (W : list io_call) : Prop :=
  (exists o, e = OperationOutcome o /\ outcome_kind o = Uncertain /\ completed_bytes o = Some (ack_bytes W)) \/
  (ack_bytes W = 0 /\ (forall c, c ∈ W -> unknown_answer c = false) /\ exists o d, IoWrite o d (inr e) ∈ W).

Definition accounted (st : call_phase) (log : list io_call) : Prop :=
  match st with
  | Writing b => exists P W, log = P ++ W /\ attempt_after P W /\ batch_inv b W /\ (bt_active b = [] -> bt_failure b = None)
  | Returned (Ok n) =>
      n = len /\ exists P W rs, log = P ++ W ++ [IoCommit (commit_range offset data).1 (commit_range offset data).2 rs (inl ())] /\
        attempt_after P W /\ covered W 0 len /\ (acks W).*2 ≡ₚ rs
  | Returned (Err e) => error_accounts e (last_attempt log)
  | Returned Panic => False
  end.

Lemma failure_accounts e n commit u W :
  n = ack_bytes W ->
  (commit = false -> u = false -> n = 0 ->
     (forall c, c ∈ W -> unknown_answer c = false) /\ exists o d, IoWrite o d (inr e) ∈ W) ->
  error_accounts (write_failure e p n commit u) W.
Proof.
  intros Hn Hraw. unfold write_failure.
  destruct ((n =? 0) && negb commit && negb u) eqn:E.
  - apply andb_true_iff in E as [[E1%Z.eqb_eq E2]%andb_true_iff E3]. apply negb_true_iff in E2, E3.
    destruct (Hraw E2 E3 E1) as [H1 H2]. right. split_and!; [congruence|done|done].
  - left. eexists. split; [done|]. split; [done|]. cbn. by rewrite Hn.
Qed.

Lemma drained_covered b W :
  batch_inv b W -> bt_active b = [] -> bt_failure b = None ->
  covered W 0 len /\ ack_bytes W = len /\ (acks W).*2 ≡ₚ bt_receipts b.
Proof.
  intros [[Hc Ht Hst Hrg Hnd Hb Hrc Hacc Htot Hun Her Hfl] Had] Ha Hf.
  assert (Hr : bt_ranges b = []).
  { destruct (bt_ranges b) eqn:Hr; [done|]. exfalso. apply (Had Hf); [by rewrite Hr|done]. }
  rewrite Ha, Hr in *. split_and!.
  - intros i Hi. set (s := i / bt_chunk b * bt_chunk b).
    pose proof (Z.mul_div_le i (bt_chunk b) Hc). pose proof (Z.mul_succ_div_gt i (bt_chunk b) Hc).
    assert (0 <= i / bt_chunk b) by (apply Z.div_pos; lia).
    assert (Hs : s ∈ step_by len (bt_chunk b)).
    { apply step_by_elem; [done|apply remaining_nonneg|]. exists (i / bt_chunk b). split_and!; [done|done|]. unfold s. lia. }
    destruct (Hst s Hs) as [H'|[(x & Hx & _)|[?|Hcov]]]; [by apply not_elem_of_nil in H'|by apply not_elem_of_nil in Hx|done|].
    apply Hcov. unfold s. lia.
  - rewrite <- Hacc. specialize (Htot Hf). cbn in *. lia.
  - rewrite Hrc. cbn. by rewrite app_nil_r.
Qed.

Lemma failed_accounts b W s e :
  batch_inv b W -> bt_active b = [] -> bt_failure b = Some (s, e) -> W <> [] /\
  error_accounts (write_failure e p (bt_accepted b) false (bt_uncertain b)) W.
Proof.
  intros [[Hc Ht Hst Hrg Hnd Hb Hrc Hacc Htot Hun Her Hfl] Had] Ha Hf. rewrite Ha in *.
  split; [by destruct (Her e) as [? _]; [left; exists s|]|].
  apply failure_accounts; [cbn in Hacc; lia|]. intros _ Hu _. split.
  - intros c Hcw. destruct (unknown_answer c) eqn:E; [|done].
    destruct (Hun c Hcw E) as [?|(x & e' & Hx & _)]; [congruence|by apply not_elem_of_nil in Hx].
  - destruct (Her e) as [_ [Hue|?]]; [left; by exists s| |done]. rewrite (Hfl s e Hf Hue) in Hu. done.
Qed.

Lemma batch_step_accounted b log ev st log' :
  accounted (Writing b) log -> event_ok ev ->
  batch_step p write_chunk_size offset data b ev = Some (st, log') -> accounted st (log ++ log').
Proof.
  intros (P & W & -> & Hat & Hinv & Hwait) Hev Hstep. destruct ev as [i r|i|r]; cbn [batch_step] in Hstep.
  - destruct (bt_active b !! i) as [t|] eqn:Hi; [|done]. destruct (cw_end t) eqn:He; [|done]. simplify_eq.
    exists P, (W ++ [chunk_call t r]). split_and!; [by rewrite app_assoc| |by apply write_event_inv|].
    { destruct Hat as [HP HW]. split; [done|]. by rewrite existsb_app, HW. }
    cbn. intros Hnil. apply (f_equal length) in Hnil. rewrite length_insert in Hnil.
    apply lookup_lt_Some in Hi. cbn in Hnil. lia.
  - destruct (bt_active b !! i) as [t|] eqn:Hi; [|done]. destruct (cw_end t) as [|error] eqn:He; [done|].
    assert (Hnew : batch_inv (admit_next offset data (settle_chunk b i t error)) W).
    { apply admit_next_inv; [apply settle_chunk_core; [apply Hinv|done|done]|].
      destruct Hinv as [[_ _ _ _ _ Hb _ _ _ _ _ _] _]. cbn. rewrite length_delete by eauto.
      apply lookup_lt_Some in Hi. lia. }
    set (b' := admit_next _ _ _) in *. simplify_eq. rewrite app_nil_r.
    destruct (bt_active b') eqn:Ha; [|exists P, W; by rewrite Ha].
    destruct (bt_failure b') as [[s e]|] eqn:Hf; [|by exists P, W].
    destruct (failed_accounts b' W s e Hnew Ha Hf). cbn [accounted]. by rewrite last_attempt_of.
  - destruct (bt_active b) eqn:Ha; [|done]. destruct (bt_failure b) eqn:Hf; [done|].
    destruct (drained_covered b W Hinv Ha Hf) as (Hcov & Hsum & Hrs).
    destruct (commit_range offset data) as [o n] eqn:Hcr. simplify_eq. unfold commit_result.
    destruct r as [[]|e].
    + split; [done|]. exists P, W, (bt_receipts b). rewrite Hcr, app_assoc. done.
    + destruct (_ && _).
      * exists (P ++ W ++ [IoCommit o n (bt_receipts b) (inr e)]), [].
        split_and!; [by rewrite app_nil_r, <- app_assoc| |apply attempt_start_inv|done].
        split; [right|done]. eexists (P ++ W), _. rewrite app_assoc. done.
      * cbn [accounted]. rewrite <- app_assoc, last_attempt_app by done.
        apply failure_accounts; [|done]. rewrite ack_bytes_app, Hsum. cbn. lia.
Qed.

Lemma run_accounted evs st log st' log' :
  Forall event_ok evs -> accounted st log ->
  write_all_run p write_chunk_size offset data st evs = Some (st', log') -> accounted st' (log ++ log').
Proof.
  revert st log log'. induction evs as [|ev evs IH]; intros st log log' Hok Hacc Hrun; cbn in Hrun.
  { simplify_eq. by rewrite app_nil_r. }
  destruct st as [b|r]; [|done]. apply Forall_cons in Hok as [Hev Hok].
  destruct (batch_step _ _ _ _ _ _) as [[st1 log1]|] eqn:Hstep; [|done].
  destruct (write_all_run _ _ _ _ _ _) as [[st2 log2]|] eqn:Hrun'; [|done]. simplify_eq.
  rewrite app_assoc. eapply IH; [done| |done]. by eapply batch_step_accounted.
Qed.

Lemma fresh_accounted : accounted (Writing (attempt_start write_chunk_size offset data 0)) [].
Proof. exists [], []. split_and!; [done|split; [by left|done]|apply attempt_start_inv|done]. Qed.

(** A write carries bytes of the data to their place. *)
Definition in_place (c : io_call) : Prop :=
  match c with
  | IoWrite o d _ => offset <= o /\ o + remaining d <= offset + len /\
      forall i, 0 <= i < remaining d -> d !! Z.to_nat i = data !! Z.to_nat (o - offset + i)
  | IoCommit _ _ _ _ => True
  end.

Lemma task_in_place chunk W t s r : 0 < chunk -> task_ok chunk W t s ->
  in_place (IoWrite (cw_offset t + cw_done t) (skipn (Z.to_nat (cw_done t)) (cw_data t)) r).
Proof.
  intros Hc [Hs Ho Hd Hn _ _]. apply step_by_elem in Hs as (i & Hi & -> & Hlt); [|done|apply remaining_nonneg].
  assert (Hl : remaining (cw_data t) = Z.min len (i * chunk + chunk) - i * chunk) by (rewrite Hd; apply remaining_slice; nia).
  assert (Hr : remaining (skipn (Z.to_nat (cw_done t)) (cw_data t)) = remaining (cw_data t) - cw_done t)
    by (unfold remaining in *; rewrite length_drop; lia).
  cbn [in_place]. rewrite Hr, Ho. split_and!; [nia|lia|]. intros k Hk. rewrite lookup_drop, Hd, <- Z2Nat.inj_add by lia.
  rewrite slice_lookup by nia. f_equal. lia.
Qed.

Lemma step_in_place b log ev st log' : accounted (Writing b) log ->
  batch_step p write_chunk_size offset data b ev = Some (st, log') -> Forall in_place log'.
Proof.
  intros (P & W & -> & _ & [Hcore _] & _) Hstep. destruct ev as [i r|i|r]; cbn [batch_step] in Hstep.
  - destruct (bt_active b !! i) as [t|] eqn:Hi; [|done]. destruct (cw_end t); [|done]. simplify_eq. constructor; [|constructor].
    destruct (proj1 (Forall_lookup _ _) (bi_tasks _ _ Hcore) i t Hi) as [s Hs]. by eapply task_in_place, Hs; apply Hcore.
  - destruct (bt_active b !! i) as [t|]; [|done]. destruct (cw_end t); [done|]. by simplify_eq.
  - destruct (bt_active b); [|done]. destruct (bt_failure b); [done|]. destruct (commit_range _ _). simplify_eq. by repeat constructor.
Qed.

Lemma run_in_place evs st log st' log' : Forall event_ok evs -> accounted st log ->
  write_all_run p write_chunk_size offset data st evs = Some (st', log') -> Forall in_place log'.
Proof.
  revert st log log'. induction evs as [|ev evs IH]; intros st log log' Hok Hacc Hrun; cbn in Hrun; [by simplify_eq|].
  destruct st as [b|r]; [|done]. apply Forall_cons in Hok as [Hev Hok].
  destruct (batch_step _ _ _ _ _ _) as [[st1 log1]|] eqn:Hstep; [|done].
  destruct (write_all_run _ _ _ _ _ _) as [[st2 log2]|] eqn:Hrun'; [|done]. simplify_eq.
  apply Forall_app. split; [by eapply step_in_place|]. eapply IH; [done| |done]. by eapply batch_step_accounted.
Qed.
End WriteProofs.

(** The calls of a run carry answers of its events. *)
Lemma run_answers p write_chunk_size offset data evs st st' log o d r :
  write_all_run p write_chunk_size offset data st evs = Some (st', log) -> IoWrite o d r ∈ log -> exists i, EvWrite i r ∈ evs.
Proof.
  revert st log. induction evs as [|ev evs IH]; intros st log Hrun Hin; cbn in Hrun; [simplify_eq; by apply not_elem_of_nil in Hin|].
  destruct st as [b|]; [|done]. destruct (batch_step _ _ _ _ _ _) as [[st1 log1]|] eqn:Hstep; [|done].
  destruct (write_all_run _ _ _ _ _ _) as [[st2 log2]|] eqn:Hrun'; [|done]. simplify_eq.
  apply elem_of_app in Hin as [Hin|Hin]; [|destruct (IH _ _ Hrun' Hin) as [i Hi]; exists i; by right].
  destruct ev as [i r'|i|r']; cbn [batch_step] in Hstep.
  - destruct (bt_active b !! i) as [t|]; [|done]. destruct (cw_end t); [|done]. simplify_eq. apply list_elem_of_singleton in Hin.
    simplify_eq. exists i. by left.
  - destruct (bt_active b !! i) as [t|]; [|done]. destruct (cw_end t); [done|]. simplify_eq. by apply not_elem_of_nil in Hin.
  - destruct (bt_active b); [|done]. destruct (bt_failure b); [done|]. destruct (commit_range _ _). simplify_eq.
    by apply list_elem_of_singleton in Hin.
Qed.

(** A write from its start: its length and that every byte was acknowledged when
    it succeeded, what its error accounts for, and where its calls wrote. *)
Lemma write_all_places p write_chunk_size offset data evs st log : Forall event_ok evs ->
  write_all_run p write_chunk_size offset data (write_all_start write_chunk_size offset data) evs = Some (st, log) ->
  Forall (in_place offset data) log /\
  match st with
  | Returned (Ok n) => n = remaining data /\ covered offset data log 0 (remaining data) /\ offset + remaining data <= u64_max
  | Returned (Err e) => log = [] /\ operation_outcome e = None \/ error_accounts e (last_attempt log)
  | Returned Panic => False
  | Writing _ => True
  end.
Proof.
  intros Hok Hrun. unfold write_all_start, checked_add64 in Hrun.
  destruct (Z.leb_spec (offset + remaining data) u64_max) as [Hle|]; [|destruct evs; [|done]; cbn in Hrun; simplify_eq; split; [constructor|by left]].
  destruct (Z.eqb_spec (remaining data) 0) as [Hz|Hz].
  { destruct evs; [|done]. cbn in Hrun. simplify_eq. split; [done|]. rewrite Hz. split_and!; [done|intros i Hi; lia|lia]. }
  pose proof (fresh_accounted write_chunk_size offset data) as Hf. split; [by eapply run_in_place|].
  pose proof (run_accounted p write_chunk_size offset data evs _ [] _ _ Hok Hf Hrun) as Hacc.
  destruct st as [b|[n|e|]]; [done| |by right|done]. destruct Hacc as (-> & P & W & rs & Hlog & _ & Hc & _).
  cbn in Hlog. subst log. split_and!; [done| |done]. intros i Hi. destruct (Hc i Hi) as (o & d & w & Hin & H). exists o, d, w. split; [|done].
  rewrite !acks_app, !elem_of_app. auto.
Qed.

(** C17: when a write returns success it has returned the length of its data, and
    its last call was a successful COMMIT over exactly the receipts of the
    writes since that attempt began, which together acknowledged every byte of
    the data at its place in the file: no short write, no order in which the
    eight chunks in flight are answered, and no repetition after a lost verifier
    leaves a byte unacknowledged or outside the COMMIT. *)
Theorem write_all_durable p write_chunk_size offset data evs n log :
  Forall event_ok evs ->
  write_all_run p write_chunk_size offset data (write_all_start write_chunk_size offset data) evs =
    Some (Returned (Ok n), log) ->
  n = remaining data /\
  (data = [] /\ log = [] \/
   exists P W rs,
     log = P ++ W ++ [IoCommit (commit_range offset data).1 (commit_range offset data).2 rs (inl ())] /\
     last_attempt log = W ++ [IoCommit (commit_range offset data).1 (commit_range offset data).2 rs (inl ())] /\
     covered offset data W 0 (remaining data) /\ (acks W).*2 ≡ₚ rs).
Proof.
  intros Hok Hrun. unfold write_all_start in Hrun.
  destruct (checked_add64 offset (remaining data)); [|by destruct evs].
  destruct (Z.eqb_spec (remaining data) 0) as [Hz|Hz].
  { destruct evs; [|done]. cbn in Hrun. simplify_eq. split; [done|]. left. split; [|done].
    destruct data; [done|]. unfold remaining in Hz. cbn in Hz. lia. }
  pose proof (run_accounted p write_chunk_size offset data evs _ [] _ _ Hok
    (fresh_accounted write_chunk_size offset data) Hrun) as (-> & P & W & rs & Hlog & Hat & H).
  split; [done|]. right. exists P, W, rs. cbn in Hlog. subst log. split_and!; [done|by apply last_attempt_app|apply H..].
Qed.

(** A write of three bytes in chunks of two, answered out of order and short. *)
Definition receipt (n : Z) : WriteOutcome :=
  {| wo_count := n; wo_committed := Unstable; wo_verifier := None; wo_pnfs := None |}.
Definition demo_write_events : list io_event :=
  [EvWrite 1 (inl (receipt 1)); EvWrite 0 (inl (receipt 1)); EvCollect 1; EvWrite 0 (inl (receipt 1));
   EvCollect 0; EvCommit (inl ())].
Definition demo_write_log : list io_call :=
  [IoWrite 12 [x03] (inl (receipt 1)); IoWrite 10 [x01; x02] (inl (receipt 1));
   IoWrite 11 [x02] (inl (receipt 1)); IoCommit 10 3 [receipt 1; receipt 1; receipt 1] (inl ())].

Lemma write_all_durable_witness :
  let data := [x01; x02; x03] in
  3 = remaining data /\
  (data = [] /\ demo_write_log = [] \/
   exists P W rs,
     demo_write_log = P ++ W ++ [IoCommit (commit_range 10 data).1 (commit_range 10 data).2 rs (inl ())] /\
     last_attempt demo_write_log = W ++ [IoCommit (commit_range 10 data).1 (commit_range 10 data).2 rs (inl ())] /\
     covered 10 data W 0 (remaining data) /\ (acks W).*2 ≡ₚ rs).
Proof.
  intros data. apply (write_all_durable NFSv4p1 (fun _ => 2) 10 data demo_write_events 3 demo_write_log);
    [repeat (apply Forall_cons_2; [by vm_compute|]); by apply Forall_nil_2|vm_compute; reflexivity].
Defined.

(** C18: when a write fails after its range was checked, its error accounts for
    its last attempt, the calls since the COMMIT that made it repeat the whole
    write, or all of its calls when there was no repetition.  Either it is an
    uncertain outcome that carries exactly the number of bytes the server
    acknowledged in that attempt, or it is the server's own answer to one of its
    writes, none of its bytes had been acknowledged, and no other answer left the
    outcome of its write open.  Bytes acknowledged by earlier attempts are not
    reported. *)
Theorem write_all_errors_account p write_chunk_size offset data evs e log :
  Forall event_ok evs -> offset + remaining data < 2 ^ 64 ->
  write_all_run p write_chunk_size offset data (write_all_start write_chunk_size offset data) evs =
    Some (Returned (Err e), log) ->
  error_accounts e (last_attempt log).
Proof.
  intros Hok Hr Hrun. unfold write_all_start, checked_add64 in Hrun.
  destruct (Z.leb_spec (offset + remaining data) u64_max); [|unfold u64_max in *; lia].
  destruct (Z.eqb_spec (remaining data) 0) as [Hz|Hz]; [by destruct evs|].
  exact (run_accounted p write_chunk_size offset data evs _ [] _ _ Hok
    (fresh_accounted write_chunk_size offset data) Hrun).
Qed.

(** The first chunk is acknowledged, the second refused. *)
Definition torn_log : list io_call :=
  [IoWrite 0 [x01; x02] (inl (receipt 2)); IoWrite 2 [x03] (inr (Nfs4 NFS4ERR_NOSPC))].
Lemma write_all_errors_account_witness :
  error_accounts (write_failure (Nfs4 NFS4ERR_NOSPC) NFSv4p1 2 false false) (last_attempt torn_log).
Proof.
  apply (write_all_errors_account NFSv4p1 (fun _ => 2) 0 [x01; x02; x03]
    [EvWrite 0 (inl (receipt 2)); EvWrite 1 (inr (Nfs4 NFS4ERR_NOSPC)); EvCollect 0; EvCollect 0]);
    [repeat (apply Forall_cons_2; [by vm_compute|]); by apply Forall_nil_2|by vm_compute|vm_compute; reflexivity].
Defined.

(** A byte acknowledged before a lost verifier is forgotten when the repetition
    is refused: the error is the refusal alone. *)
Definition lost_verifier : NfsError :=
  OperationOutcome (OperationOutcomeError_new Uncertain ReplaySensitive VerifyThenResume
    {| operation := "write_verifier"; protocol := NFSv4p1; request_id := None |} (Rpc "verifier changed")).
Lemma repeated_attempt_forgets_acks :
  exists log,
    write_all_run NFSv4p1 (fun _ => 4) 0 [x01] (write_all_start (fun _ => 4) 0 [x01])
      [EvWrite 0 (inl (receipt 1)); EvCollect 0; EvCommit (inr lost_verifier);
       EvWrite 0 (inr (Nfs4 NFS4ERR_NOSPC)); EvCollect 0] =
      Some (Returned (Err (Nfs4 NFS4ERR_NOSPC)), log) /\ ack_bytes log = 1.
Proof. eexists. split; vm_compute; reflexivity. Qed.

Section Termination.
Context (p : NFSVersion) (write_chunk_size : nat -> Z) (offset : Z) (data : bytes).
#[local] Notation len := (remaining data).

Definition task_left (t : chunk_write) : Z :=
  1 + match cw_end t with Running => remaining (cw_data t) - cw_done t | Ended _ => 0 end.
Definition batch_left (b : batch) : Z :=
  wsum task_left (bt_active b) + wsum (fun s => 1 + chunk_len len (bt_chunk b) s) (bt_ranges b).
(** A bound on the events that are left. *)
Definition left_ (st : call_phase) : Z :=
  match st with
  | Writing b => (2 - Z.of_nat (bt_attempt b)) * (2 * len + 1) + batch_left b + 1
  | Returned _ => 0
  end.

Lemma step_by_count chunk : 0 < chunk -> Z.of_nat (length (step_by len chunk)) <= len.
Proof.
  intros Hc. unfold step_by. rewrite length_map, length_seq. pose proof (remaining_nonneg data).
  assert (0 <= (len + chunk - 1) / chunk) by (apply Z.div_pos; lia). rewrite Z2Nat.id by done.
  destruct (decide (len = 0)) as [->|]; [rewrite Z.div_small; lia|].
  apply Z.div_le_upper_bound; nia.
Qed.

Lemma wsum_one_plus {A} (f : A -> Z) l : wsum (fun x => 1 + f x) l = Z.of_nat (length l) + wsum f l.
Proof. induction l as [|x l IH]; [done|]. rewrite !wsum_cons, IH. cbn [length]. lia. Qed.

Lemma attempt_start_left attempt : batch_left (attempt_start write_chunk_size offset data attempt) <= 2 * len.
Proof.
  unfold batch_left, attempt_start. set (chunk := Z.max (write_chunk_size attempt) 1).
  assert (Hc : 0 < chunk) by (unfold chunk; lia). pose proof (remaining_nonneg data) as Hl.
  cbn [bt_active bt_ranges bt_chunk].
  assert (Hall : forall l, (forall s, s ∈ l -> 0 <= s < len) ->
    wsum task_left (map (write_range offset data chunk) l) = wsum (fun s => 1 + chunk_len len chunk s) l).
  { intros l H. induction l as [|s l IH]; [done|]. cbn [map]. rewrite !wsum_cons, IH.
    - unfold task_left, chunk_len. cbn [write_range cw_end cw_data cw_done].
      assert (0 <= s < len) by (apply H; by left). rewrite remaining_slice; lia.
    - intros s' Hs'. apply H. by right. }
  rewrite Hall.
  - rewrite <- wsum_app, take_drop, wsum_one_plus, step_by_total by done.
    pose proof (step_by_count chunk Hc). lia.
  - intros s Hs. assert (Hin : s ∈ step_by len chunk).
    { rewrite <- (take_drop WRITE_CONCURRENCY (step_by len chunk)). apply elem_of_app. by left. }
    apply step_by_elem in Hin as (k & ? & -> & ?); [nia|done|done].
Qed.

Lemma task_left_pos W b t :
  batch_inv offset data b W -> t ∈ bt_active b -> 1 <= task_left t /\ 0 <= cw_done t <= remaining (cw_data t).
Proof.
  intros [[_ Ht _ _ _ _ _ _ _ _ _ _] _] Hin. rewrite Forall_forall in Ht.
  destruct (Ht t Hin) as [s []]. unfold task_left. destruct (cw_end t); lia.
Qed.

Lemma chunk_answer_left t r :
  cw_end t = Running -> 0 <= cw_done t < remaining (cw_data t) -> answer_ok r ->
  task_left (chunk_answer p t r) < task_left t.
Proof.
  intros He Hd Ha. unfold task_left. rewrite He. unfold chunk_answer. destruct r as [o|e]; cbn; [|lia].
  cbn in Ha. destruct (Z.eqb_spec (wo_count o) 0); cbn; [lia|].
  destruct (Z.ltb_spec (remaining (cw_data t) - cw_done t) (wo_count o)); cbn; [lia|].
  destruct (_ <? _); lia.
Qed.

Lemma admit_next_left b :
  (forall s, s ∈ bt_ranges b -> s ∈ step_by len (bt_chunk b)) -> 0 < bt_chunk b ->
  batch_left (admit_next offset data b) = batch_left b /\ bt_attempt (admit_next offset data b) = bt_attempt b.
Proof.
  intros Hr Hc. unfold admit_next. destruct (bt_failure b); [done|]. destruct (bt_ranges b) as [|s l] eqn:E; [done|].
  split; [|done]. unfold batch_left. cbn [bt_active bt_ranges bt_chunk]. rewrite E, wsum_app, !wsum_cons.
  assert (Hs : s ∈ step_by len (bt_chunk b)) by (apply Hr; by left).
  apply step_by_elem in Hs as (k & ? & -> & ?); [|done|apply remaining_nonneg].
  unfold task_left, chunk_len. cbn [write_range cw_end cw_data cw_done wsum foldr].
  rewrite remaining_slice by nia. lia.
Qed.

Definition attempts_ok (st : call_phase) : Prop :=
  match st with Writing b => (bt_attempt b <= 2)%nat | Returned _ => True end.

Lemma wsum_nonneg_in {A} (f : A -> Z) l : (forall x, x ∈ l -> 0 <= f x) -> 0 <= wsum f l.
Proof.
  intros H. induction l as [|x l IH]; [done|]. rewrite wsum_cons.
  assert (0 <= f x) by (apply H; by left). assert (0 <= wsum f l) by (apply IH; intros; apply H; by right). lia.
Qed.

Lemma batch_left_nonneg b W : batch_inv offset data b W -> 0 <= batch_left b.
Proof.
  intros Hinv. pose proof Hinv as [[Hc _ _ Hrg _ _ _ _ _ _ _ _] _]. unfold batch_left. apply Z.add_nonneg_nonneg.
  - apply wsum_nonneg_in. intros t Ht. destruct (task_left_pos W b t Hinv Ht). lia.
  - apply wsum_nonneg_in. intros s Hs%Hrg. apply step_by_elem in Hs as (k & ? & -> & ?); [|done|apply remaining_nonneg].
    unfold chunk_len. lia.
Qed.

Lemma left_nonneg st log : accounted offset data st log -> attempts_ok st -> 0 <= left_ st.
Proof.
  destruct st as [b|r]; [|done]. intros (P & W & _ & _ & Hinv & _) Ha. cbn in *.
  pose proof (batch_left_nonneg b W Hinv). pose proof (remaining_nonneg data). nia.
Qed.

Lemma batch_step_left b log ev st log' :
  accounted offset data (Writing b) log -> (bt_attempt b <= 2)%nat -> event_ok ev ->
  batch_step p write_chunk_size offset data b ev = Some (st, log') ->
  attempts_ok st /\ left_ st < left_ (Writing b).
Proof.
  intros (P & W & _ & _ & Hinv & _) Hatt Hev. pose proof (batch_left_nonneg b W Hinv) as Hnn.
  pose proof (remaining_nonneg data) as Hl.
  pose proof Hinv as [[Hc Ht _ Hrg _ _ _ _ _ _ _ _] _]. destruct ev as [i r|i|r]; cbn [batch_step].
  - destruct (bt_active b !! i) as [t|] eqn:Hi; [|done]. destruct (cw_end t) eqn:He; [|done].
    intros [= <- <-]. split; [done|]. destruct (list_elem_of_split_length _ _ _ Hi) as (l1 & l2 & Hact & ->).
    unfold left_, batch_left. cbn [bt_attempt bt_active bt_ranges bt_chunk]. rewrite Hact, insert_middle, !wsum_app, !wsum_cons.
    assert (task_left (chunk_answer p t r) < task_left t); [|lia]. apply chunk_answer_left; [done| |done].
    rewrite Forall_forall in Ht. destruct (Ht t) as [s [_ _ _ Hd Hend _]]; [by eapply list_elem_of_lookup_2|].
    rewrite He in Hend. lia.
  - destruct (bt_active b !! i) as [t|] eqn:Hi; [|done]. destruct (cw_end t) as [|error] eqn:He; [done|].
    destruct (admit_next_left (settle_chunk b i t error)) as [Hleft Hat]; [done|done|].
    intros [= <- <-].
    assert (Hdone : batch_left (settle_chunk b i t error) < batch_left b).
    { unfold batch_left. cbn [settle_chunk bt_active bt_ranges bt_chunk].
      destruct (list_elem_of_split_length _ _ _ Hi) as (l1 & l2 & Hact & ->).
      rewrite Hact, delete_middle, !wsum_app, wsum_cons. unfold task_left at 4. rewrite He. lia. }
    set (b' := admit_next _ _ _) in *.
    assert (H' : attempts_ok (Writing b') /\ left_ (Writing b') < left_ (Writing b)).
    { cbn in *. rewrite Hat, Hleft. cbn. lia. }
    destruct (bt_active b'); [destruct (bt_failure b') as [[]|]|]; try done. cbn in *. split; [done|nia].
  - destruct (bt_active b) eqn:Ha; [|done]. destruct (bt_failure b) eqn:Hf; [done|].
    destruct (commit_range offset data) as [o n]. intros [= <- <-]. unfold commit_result.
    destruct r as [u|e]; [cbn; split; [done|nia]|].
    destruct (Nat.ltb_spec (bt_attempt b) 2); cbn [andb]; [|cbn; split; [done|nia]].
    destruct (verifier_mismatch e); [|cbn; split; [done|nia]].
    split; [cbn; lia|]. cbn [left_ attempt_start bt_attempt].
    pose proof (attempt_start_left (S (bt_attempt b))). nia.
Qed.

Lemma run_left evs st log st' log' :
  Forall event_ok evs -> accounted offset data st log -> attempts_ok st ->
  write_all_run p write_chunk_size offset data st evs = Some (st', log') ->
  Z.of_nat (length evs) <= left_ st /\ attempts_ok st' /\ accounted offset data st' (log ++ log').
Proof.
  revert st log log'. induction evs as [|ev evs IH]; intros st log log' Hok Hacc Hat Hrun; cbn [write_all_run] in Hrun.
  { simplify_eq. rewrite app_nil_r. split_and!; [by eapply left_nonneg|done|done]. }
  destruct st as [b|r]; [|done]. apply Forall_cons in Hok as [Hev Hok].
  destruct (batch_step _ _ _ _ _ _) as [[st1 log1]|] eqn:Hstep; [|done].
  destruct (write_all_run _ _ _ _ _ _) as [[st2 log2]|] eqn:Hrun'; [|done]. simplify_eq.
  destruct (batch_step_left b log ev st1 log1 Hacc Hat Hev Hstep) as [Hat1 Hlt].
  pose proof (batch_step_accounted p write_chunk_size offset data b log ev st1 log1 Hacc Hev Hstep) as Hacc1.
  destruct (IH st1 (log ++ log1) log2 Hok Hacc1 Hat1 Hrun') as (H1 & H2 & H3).
  rewrite app_assoc. split_and!; [cbn [length]; lia|done|done].
Qed.
End Termination.

(** Some event can happen, whatever the server answers. *)
Definition can_continue p write_chunk_size offset data (b : batch) : Prop :=
  (exists i, forall r, is_Some (batch_step p write_chunk_size offset data b (EvWrite i r))) \/
  (exists i, is_Some (batch_step p write_chunk_size offset data b (EvCollect i))) \/
  (forall r, is_Some (batch_step p write_chunk_size offset data b (EvCommit r))).

(** A write ends: no run of it has more than three times twice the number of
    its bytes plus one events, whatever the server answers and in whatever order,
    and as long as it has not returned there is an event that can happen, so it
    neither loops nor gets stuck. *)
Theorem write_all_terminates p write_chunk_size offset data evs st log :
  Forall event_ok evs ->
  write_all_run p write_chunk_size offset data (write_all_start write_chunk_size offset data) evs = Some (st, log) ->
  Z.of_nat (length evs) <= 3 * (2 * remaining data + 1) /\
  forall b, st = Writing b -> can_continue p write_chunk_size offset data b.
Proof.
  intros Hok Hrun. pose proof (remaining_nonneg data). unfold write_all_start in Hrun.
  destruct (checked_add64 offset (remaining data)); [|destruct evs; simplify_eq/=; split; [lia|done]].
  destruct (Z.eqb_spec (remaining data) 0); [destruct evs; simplify_eq/=; split; [lia|done]|].
  destruct (run_left p write_chunk_size offset data evs _ [] st log Hok (fresh_accounted write_chunk_size offset data)
              ltac:(cbn; lia) Hrun) as (Hlen & _ & Hacc).
  split.
  - pose proof (attempt_start_left write_chunk_size offset data 0). cbn [left_ attempt_start bt_attempt] in Hlen. lia.
  - intros b ->. destruct Hacc as (P & W & _ & _ & _ & Hwait). unfold can_continue.
    destruct (bt_active b) as [|t l] eqn:Ha.
    + right. right. intros r. cbn. rewrite Ha, (Hwait eq_refl). destruct (commit_range offset data). by eexists.
    + destruct (cw_end t) eqn:He.
      * left. exists 0%nat. intros r. cbn. rewrite Ha. cbn. rewrite He. by eexists.
      * right. left. exists 0%nat. cbn. rewrite Ha. cbn. rewrite He. by eexists.
Qed.

Lemma write_all_terminates_witness :
  Z.of_nat (length demo_write_events) <= 3 * (2 * 3 + 1) /\
  forall b, Returned (Ok 3) = Writing b -> can_continue NFSv4p1 (fun _ => 2) 10 [x01; x02; x03] b.
Proof.
  apply (write_all_terminates NFSv4p1 (fun _ => 2) 10 [x01; x02; x03] demo_write_events _ demo_write_log);
    [repeat (apply Forall_cons_2; [by vm_compute|]); by apply Forall_nil_2|vm_compute; reflexivity].
Defined.

(** *** Reads *)

Section ReadProofs.
Context (file : bytes) (answer : Z -> Z -> result bytes).

(** The server answers from [file], as shortly as it likes, but with nothing only
    at its end. *)
Definition serves_file : Prop :=
  forall off cnt, 0 < cnt ->
    wpo (answer off cnt) (fun d => d `prefix_of` skipn (Z.to_nat off) file /\ (d = [] -> remaining file <= off)).
(** It answers without an error, and never with more than was asked for. *)
Definition serves_all : Prop :=
  forall off cnt, 0 < cnt -> exists d, answer off cnt = Ok d /\ remaining d <= cnt.

Definition part (pos n : Z) : bytes := firstn (Z.to_nat n) (skipn (Z.to_nat pos) file).

Lemma part_app pos a b : 0 <= pos -> 0 <= a -> 0 <= b -> part pos (a + b) = part pos a ++ part (pos + a) b.
Proof.
  intros. unfold part. rewrite !Z2Nat.inj_add, <- drop_drop by done. symmetry. apply take_take_drop.
Qed.
Lemma part_short pos n : 0 <= pos -> 0 <= n -> remaining (part pos n) < n -> remaining file <= pos + remaining (part pos n).
Proof. intros. unfold part, remaining in *. rewrite length_take, length_drop in *. lia. Qed.
Lemma part_end pos n : 0 <= pos -> remaining file <= pos -> part pos n = [].
Proof. intros. unfold part, remaining in *. rewrite drop_ge by lia. apply take_nil. Qed.
Lemma part_le pos n : 0 <= n -> remaining (part pos n) <= n.
Proof. intros. unfold part, remaining. rewrite length_take. lia. Qed.
Lemma part_prefix pos d : d `prefix_of` skipn (Z.to_nat pos) file -> d = part pos (remaining d).
Proof. intros [k Hk]. unfold part. rewrite Hk. unfold remaining. by rewrite Nat2Z.id, take_app_length. Qed.

Lemma read_chunk_exact fuel pos want got pieces :
  serves_file -> 0 <= pos -> 0 <= got <= want -> want - got <= Z.of_nat fuel ->
  concat pieces = part pos got -> remaining (concat pieces) = got ->
  wpo (read_chunk fuel answer pos want got pieces)
    (fun '(g, ps) => concat ps = part pos want /\ g = remaining (concat ps)).
Proof.
  intros Hs Hp. revert got pieces. induction fuel as [|fuel IH]; intros got pieces Hg Hf Hc Hr; cbn [read_chunk].
  { destruct (Z.leb_spec want got); [|lia]. assert (got = want) as -> by lia. done. }
  destruct (Z.leb_spec want got); [assert (got = want) as -> by lia; done|].
  apply wpo_bind. eapply wpo_mono; [apply Hs; lia|]. intros d [Hd Hnil].
  apply wpo_if; [done|]. intros Hlen%Z.ltb_ge. case_bool_decide as He.
  - subst d. split; [|done]. replace want with (got + (want - got)) by lia.
    rewrite part_app, (part_end (pos + got)), app_nil_r by (auto with lia). done.
  - assert (0 < remaining d) by (destruct d; [done|unfold remaining; cbn; lia]).
    apply IH; [lia|lia| |].
    + rewrite concat_app. cbn [concat]. rewrite app_nil_r, Hc, part_app by lia. f_equal. by apply part_prefix.
    + rewrite concat_app. cbn [concat]. rewrite app_nil_r, remaining_app. lia.
Qed.

Lemma read_chunk_total fuel pos want got pieces :
  serves_all -> 0 <= got <= want -> want - got <= Z.of_nat fuel ->
  exists g ps, read_chunk fuel answer pos want got pieces = Ok (g, ps).
Proof.
  intros Hs. revert got pieces. induction fuel as [|fuel IH]; intros got pieces Hg Hf; cbn [read_chunk].
  { destruct (Z.leb_spec want got); [eauto|lia]. }
  destruct (Z.leb_spec want got); [eauto|].
  destruct (Hs (pos + got) (want - got)) as (d & -> & Hd); [lia|]. cbn [obind].
  destruct (Z.ltb_spec (want - got) (remaining d)); [lia|]. case_bool_decide; [eauto|].
  assert (0 < remaining d) by (destruct d; [done|unfold remaining; cbn; lia]). apply IH; lia.
Qed.

(** A consumer of pieces: [holds s v] says that [s] has taken in the bytes [v]. *)
Section FillProofs.
Context {S : Type} (fill : S -> Z -> bytes -> result S) (holds : S -> bytes -> Prop) (len : Z).
Context (fill_ok : forall s v d, holds s v -> remaining v + remaining d <= len ->
  exists s', fill s (remaining v) d = Ok s' /\ holds s' (v ++ d)).

Lemma fill_all pieces s v : holds s v -> remaining v + remaining (concat pieces) <= len ->
  exists s', fill_pieces fill s (remaining v) pieces = Ok s' /\ holds s' (v ++ concat pieces).
Proof using fill_ok.
  revert s v. induction pieces as [|d pieces IH]; intros s v Hs Hl; cbn [fill_pieces concat] in *; [exists s; by rewrite app_nil_r|].
  rewrite remaining_app in Hl. destruct (fill_ok s v d Hs) as (s1 & -> & H1); [pose proof (remaining_nonneg (concat pieces)); lia|].
  cbn [obind]. rewrite <- remaining_app. destruct (IH s1 (v ++ d) H1) as (s' & -> & H'); [rewrite remaining_app; lia|].
  exists s'. by rewrite app_assoc.
Qed.

Lemma consume_exact offset chunk n k s v :
  serves_file -> 0 <= offset -> 0 < chunk -> 0 <= len ->
  (Z.of_nat (k + n) - 1) * chunk < len <= Z.of_nat (k + n) * chunk ->
  holds s v -> v = part offset (Z.min len (Z.of_nat k * chunk)) -> remaining v = Z.min len (Z.of_nat k * chunk) ->
  wpo (consume fill answer offset len chunk (map (fun i => Z.of_nat i * chunk) (seq k n)) s (remaining v))
    (fun '(c, s) => holds s (part offset len) /\ c = remaining (part offset len)).
Proof using fill_ok.
  intros Hs Ho Hc Hl. revert k s v. induction n as [|n IH]; intros k s v Hk Hh Hv Hr; cbn [seq map consume].
  { rewrite Nat.add_0_r in Hk. rewrite Z.min_l in Hv by lia. by rewrite Hv in *. }
  set (start := Z.of_nat k * chunk) in *. set (want := Z.min chunk (len - start)).
  assert (Hstart : 0 <= start < len) by (unfold start; nia). rewrite (Z.min_r len start) in Hr, Hv by lia.
  apply wpo_bind. eapply wpo_mono.
  { apply read_chunk_exact; [done|lia|lia|lia|done|done]. }
  intros [got pieces] [Hp Hg]. apply wpo_bind.
  assert (Hgot : got <= want) by (rewrite Hg, Hp; apply part_le; lia).
  destruct (fill_all pieces s v Hh) as (s' & Hf & Hh'); [lia|]. rewrite Hr in Hf. rewrite Hf. cbn [wpo].
  assert (Hj' : v ++ concat pieces = part offset (start + want)) by (rewrite Hv, Hp, <- part_app by lia; done).
  assert (Hj2 : remaining v + got = remaining (v ++ concat pieces)) by (rewrite remaining_app; lia). rewrite Hj2.
  destruct (Z.ltb_spec got want) as [Hshort|Hfull].
  - cbn [wpo]. assert (Hall : v ++ concat pieces = part offset len).
    { rewrite Hj'. replace len with (start + want + (len - start - want)) at 1 by lia.
      rewrite (part_app offset (start + want)) by lia.
      rewrite (part_end (offset + (start + want))); [by rewrite app_nil_r|lia|].
      pose proof (part_short (offset + start) want) as Hx. rewrite <- Hp, <- Hg in Hx. lia. }
    by rewrite <- Hall.
  - apply IH; [by replace (Datatypes.S k + n)%nat with (k + Datatypes.S n)%nat by lia|done| |].
    + rewrite Hj'. f_equal. unfold want, start in *. lia.
    + rewrite <- Hj2, Hr. unfold want, start in *. lia.
Qed.

(** [read_chunks_with] from a server of the file. *)
Lemma read_chunks_exact size offset s : serves_file -> 0 <= offset -> 0 <= len -> holds s [] ->
  wpo (read_chunks_with fill size answer offset len s) (fun '(c, s) => holds s (part offset len) /\ c = remaining (part offset len)).
Proof using fill_ok.
  intros Hs Ho Hl Hh. unfold read_chunks_with, checked_add64. destruct (_ <=? _); [|done]. set (chunk := Z.max size 1).
  assert (Hc : 0 < chunk) by (unfold chunk; lia). apply (consume_exact offset chunk _ 0 s []); [done..| |done| |].
  - cbn [plus]. pose proof (Z.mul_div_le (len + chunk - 1) chunk Hc).
    pose proof (Z.mul_succ_div_gt (len + chunk - 1) chunk Hc).
    assert (0 <= (len + chunk - 1) / chunk) by (apply Z.div_pos; lia). rewrite Z2Nat.id by done. nia.
  - cbn. by rewrite Z.min_r by lia.
  - cbn. by rewrite Z.min_r by lia.
Qed.

Lemma consume_total offset chunk starts s c :
  serves_all -> (forall x, x ∈ starts -> x <= len) -> 0 < chunk ->
  (forall s at_ d, exists s', fill s at_ d = Ok s') ->
  exists n s', consume fill answer offset len chunk starts s c = Ok (n, s').
Proof using.
  intros Hs Hin Hc Hfill. revert s c. induction starts as [|x starts IH]; intros s c; cbn [consume]; [eauto|].
  assert (x <= len) by (apply Hin; by left).
  destruct (read_chunk_total (Z.to_nat (Z.min chunk (len - x))) (offset + x) (Z.min chunk (len - x)) 0 [])
    as (g & ps & ->); [done|lia|lia|]. cbn [obind].
  assert (exists s', fill_pieces fill s x ps = Ok s') as [s' ->].
  { clear -Hfill. revert s x. induction ps as [|d ps IHp]; intros s x; cbn; [eauto|]. destruct (Hfill s x d) as [s1 ->]. apply IHp. }
  cbn [obind]. case_match; [eauto|]. apply IH. intros x' Hx'. apply Hin. by right.
Qed.
End FillProofs.

(** Joining the pieces is appending them. *)
Lemma join_ok st at_ d : exists st', join_piece st at_ d = Ok st' /\ joined_bytes st' = joined_bytes st ++ d.
Proof using. destruct st as [[f|] [j|]]; eexists; split; done. Qed.

Lemma read_at_exact_aux size offset len :
  serves_file -> 0 <= offset -> 0 <= len ->
  wpo (read_at Open size answer offset len) (fun d => d = part offset len).
Proof.
  intros Hs Ho Hl. unfold read_at. change (require_open Open) with (Ok (E := NfsError) ()). cbn [obind]. apply wpo_bind.
  eapply wpo_mono; [apply (read_chunks_exact join_piece (fun st v => joined_bytes st = v)); [|done..]|by intros [n st] [H _]].
  intros st v d <- _. apply join_ok.
Qed.
End ReadProofs.

(** Reading a range of an open file that does not change meanwhile returns
    exactly the bytes of the file in the range, up to its end, however short the
    server's answers are and however the range is cut into chunks; it never
    panics, and when the server answers every READ it succeeds. *)
Theorem read_at_exact file answer size offset len :
  serves_file file answer -> 0 <= offset -> 0 <= len ->
  wpo (read_at Open size answer offset len) (fun d => d = part file offset len) /\
  (serves_all answer -> offset + len < 2 ^ 64 -> read_at Open size answer offset len = Ok (part file offset len)).
Proof.
  intros Hs Ho Hl. pose proof (read_at_exact_aux file answer size offset len Hs Ho Hl) as Hw.
  split; [done|]. intros Ha Hr.
  assert (exists d, read_at Open size answer offset len = Ok d) as [d Hd].
  { unfold read_at, read_chunks_with. change (require_open Open) with (Ok (E := NfsError) ()). cbn [obind].
    unfold checked_add64. destruct (Z.leb_spec (offset + len) u64_max); [|unfold u64_max in *; lia].
    destruct (consume_total answer join_piece len offset (Z.max size 1) (step_by len (Z.max size 1)) (None, None) 0)
      as (n & st & ->); [done| |lia| |cbn; eauto].
    - intros s (i & _ & -> & ?)%step_by_elem; lia.
    - intros s at_ d. destruct (join_ok s at_ d) as (s' & -> & _). by exists s'. }
  rewrite Hd in *. cbn in Hw. by rewrite Hw.
Qed.

(** Five bytes in chunks of two from a server that gives one byte at a time. *)
Definition one_byte_server (file : bytes) (off cnt : Z) : result bytes := Ok (part file off 1).
Lemma read_at_exact_witness :
  read_at Open 2 (one_byte_server [x01; x02; x03; x04; x05]) 1 9 = Ok [x02; x03; x04; x05].
Proof.
  apply (read_at_exact [x01; x02; x03; x04; x05] (one_byte_server [x01; x02; x03; x04; x05]) 2 1 9);
    [|lia|lia| |lia].
  - intros off cnt Hc. cbn. split; [apply prefix_take|]. unfold part. intros H.
    destruct (decide (remaining [x01; x02; x03; x04; x05] <= off)); [done|].
    apply (f_equal length) in H. rewrite length_take, length_drop in H. unfold remaining in *. cbn in *. lia.
  - intros off cnt Hc. eexists. split; [done|]. pose proof (part_le [x01; x02; x03; x04; x05] off 1). lia.
Defined.
