(* ===== verification/Callback40.v ===== *)
(** * The NFSv4.0 callback server and the return of delegations

    Models [src/src/nfs40/callback.rs]: the table of delegations, the callback
    program that the server calls (CB_GETATTR and CB_RECALL inside CB_COMPOUND,
    with the replay cache), the records of its connections, and the worker that
    returns recalled delegations. Starting, stopping and binding the service are
    sockets and tasks and are left out; the worker is a step relation at the end,
    together with the operations of the mount that change the table. *)
From Stdlib Require Import Strings.Byte.
From S2P Require Import Prelude Errors Xdr4 Compound40 Gates.
From stdpp Require Import base list numbers strings gmap relations sorting.
#[local] Open Scope Z_scope.

Definition MAX_CALLBACK_RECORD : Z := 64 * 1024.
Definition CALLBACK_REPLAY_CACHE_SIZE : nat := 128.
Definition MAX_CALLBACK_OPERATIONS : Z := 64.
(** The capacity of the channel of recalls. *)
Definition RECALL_CAPACITY : nat := 64.

#[global] Instance DelegationKind_eq_dec : EqDecision V40.DelegationKind.
Proof. solve_decision. Defined.

(** ** State *)

Record DelegationRecord : Type := {
  dr_grant : V40.DelegationGrant; dr_generation : Z; dr_attributes : option (Z * Z); dr_recalling : bool
}.
Record ReplayEntry : Type := { re_xid : Z; re_call : bytes; re_reply : bytes }.
Record RecallNotification : Type := {
  rn_fh : bytes; rn_stateid : bytes; rn_generation : Z; rn_flush : bool
}.

(** The counters and the flags of the service are fields of the state; the
    channel is its queue and whether its receiver is open. *)
Record CallbackState : Type := {
  cs_delegations : gmap bytes DelegationRecord;
  cs_generation : Z;
  cs_queue : list RecallNotification;
  cs_open : bool;
  cs_open_publications : Z;
  cs_grants_received : Z;
  cs_recalls_received : Z;
  cs_returns_completed : Z;
  cs_returns_failed : Z;
  cs_service_healthy : bool;
  cs_worker_healthy : bool;
  cs_replies : list ReplayEntry;
}.
Definition callback_state_new : CallbackState :=
  {| cs_delegations := ∅; cs_generation := 0; cs_queue := []; cs_open := true;
     cs_open_publications := 0; cs_grants_received := 0; cs_recalls_received := 0;
     cs_returns_completed := 0; cs_returns_failed := 0; cs_service_healthy := true;
     cs_worker_healthy := true; cs_replies := [] |}.

Definition set_delegations (s : CallbackState) (d : gmap bytes DelegationRecord) : CallbackState :=
  {| cs_delegations := d; cs_generation := cs_generation s; cs_queue := cs_queue s; cs_open := cs_open s;
     cs_open_publications := cs_open_publications s; cs_grants_received := cs_grants_received s;
     cs_recalls_received := cs_recalls_received s; cs_returns_completed := cs_returns_completed s;
     cs_returns_failed := cs_returns_failed s; cs_service_healthy := cs_service_healthy s;
     cs_worker_healthy := cs_worker_healthy s; cs_replies := cs_replies s |}.
Definition set_generation (s : CallbackState) (g : Z) : CallbackState :=
  {| cs_delegations := cs_delegations s; cs_generation := g; cs_queue := cs_queue s; cs_open := cs_open s;
     cs_open_publications := cs_open_publications s; cs_grants_received := cs_grants_received s;
     cs_recalls_received := cs_recalls_received s; cs_returns_completed := cs_returns_completed s;
     cs_returns_failed := cs_returns_failed s; cs_service_healthy := cs_service_healthy s;
     cs_worker_healthy := cs_worker_healthy s; cs_replies := cs_replies s |}.
Definition set_queue (s : CallbackState) (q : list RecallNotification) (o : bool) : CallbackState :=
  {| cs_delegations := cs_delegations s; cs_generation := cs_generation s; cs_queue := q; cs_open := o;
     cs_open_publications := cs_open_publications s; cs_grants_received := cs_grants_received s;
     cs_recalls_received := cs_recalls_received s; cs_returns_completed := cs_returns_completed s;
     cs_returns_failed := cs_returns_failed s; cs_service_healthy := cs_service_healthy s;
     cs_worker_healthy := cs_worker_healthy s; cs_replies := cs_replies s |}.
(** The counters and the health of the worker. *)
Definition set_stats (s : CallbackState) (publications grants recalls completed failed : Z) (worker : bool)
    : CallbackState :=
  {| cs_delegations := cs_delegations s; cs_generation := cs_generation s; cs_queue := cs_queue s;
     cs_open := cs_open s; cs_open_publications := publications; cs_grants_received := grants;
     cs_recalls_received := recalls; cs_returns_completed := completed;
     cs_returns_failed := failed; cs_service_healthy := cs_service_healthy s;
     cs_worker_healthy := worker; cs_replies := cs_replies s |}.
Definition set_replies (s : CallbackState) (r : list ReplayEntry) : CallbackState :=
  {| cs_delegations := cs_delegations s; cs_generation := cs_generation s; cs_queue := cs_queue s;
     cs_open := cs_open s; cs_open_publications := cs_open_publications s;
     cs_grants_received := cs_grants_received s; cs_recalls_received := cs_recalls_received s;
     cs_returns_completed := cs_returns_completed s; cs_returns_failed := cs_returns_failed s;
     cs_service_healthy := cs_service_healthy s; cs_worker_healthy := cs_worker_healthy s; cs_replies := r |}.

Definition count_recall (s : CallbackState) : CallbackState :=
  set_stats s (cs_open_publications s) (cs_grants_received s) (wrap64 (cs_recalls_received s + 1))
    (cs_returns_completed s) (cs_returns_failed s) (cs_worker_healthy s).
Definition healthy (s : CallbackState) : bool := cs_service_healthy s && cs_worker_healthy s.
Record CallbackStats : Type := {
  grants_received : Z; recalls_received : Z; returns_completed : Z; returns_failed : Z
}.
Definition stats (s : CallbackState) : CallbackStats :=
  {| grants_received := cs_grants_received s; recalls_received := cs_recalls_received s;
     returns_completed := cs_returns_completed s; returns_failed := cs_returns_failed s |}.

(** [Sender::try_send] *)
Definition try_send (s : CallbackState) (n : RecallNotification) : option CallbackState :=
  if cs_open s && (length (cs_queue s) <? RECALL_CAPACITY)%nat
  then Some (set_queue s (cs_queue s ++ [n]) true) else None.

(** ** The replay cache *)

Definition cached_reply (s : CallbackState) (xid : Z) (call : bytes) : option bytes :=
  match List.find (fun r => (re_xid r =? xid) && bool_decide (re_call r = call)) (cs_replies s) with
  | Some r => Some (re_reply r)
  | None => None
  end.
Definition cache_reply (s : CallbackState) (xid : Z) (call reply : bytes) : CallbackState :=
  let replies := if Nat.eqb (length (cs_replies s)) CALLBACK_REPLAY_CACHE_SIZE
                 then tail (cs_replies s) else cs_replies s in
  set_replies s (replies ++ [{| re_xid := xid; re_call := call; re_reply := reply |}]).

(** ** The table *)

Definition is_write (k : V40.DelegationKind) : bool :=
  match k with V40.DelegWrite => true | V40.DelegRead => false end.

Definition with_attributes (r : DelegationRecord) (a : option (Z * Z)) : DelegationRecord :=
  {| dr_grant := dr_grant r; dr_generation := dr_generation r; dr_attributes := a; dr_recalling := dr_recalling r |}.
Definition with_recalling (r : DelegationRecord) (b : bool) : DelegationRecord :=
  {| dr_grant := dr_grant r; dr_generation := dr_generation r; dr_attributes := dr_attributes r; dr_recalling := b |}.

Definition mark_attributes_unknown (s : CallbackState) (fh : bytes) : bool * CallbackState :=
  match cs_delegations s !! fh with
  | Some r => if is_write (V40.dg_kind (dr_grant r))
              then (true, set_delegations s (<[fh := with_attributes r None]> (cs_delegations s)))
              else (false, s)
  | None => (false, s)
  end.
Definition publish_attributes (s : CallbackState) (fh : bytes) (change size : Z) : CallbackState :=
  match cs_delegations s !! fh with
  | Some r => if is_write (V40.dg_kind (dr_grant r))
              then set_delegations s (<[fh := with_attributes r (Some (change, size))]> (cs_delegations s))
              else s
  | None => s
  end.

Definition notification (fh : bytes) (r : DelegationRecord) : RecallNotification :=
  {| rn_fh := fh; rn_stateid := V40.dg_stateid (dr_grant r); rn_generation := dr_generation r;
     rn_flush := is_write (V40.dg_kind (dr_grant r)) |}.

(** [return_all_delegations] up to its sends: the marked table and what is to be
    sent; the order of a hash map's iteration is not specified. *)
Definition mark_all (s : CallbackState) : list RecallNotification * CallbackState :=
  (omap (fun '(fh, r) => if dr_recalling r then None else Some (notification fh r))
     (map_to_list (cs_delegations s)),
   set_delegations s ((fun r => with_recalling r true) <$> cs_delegations s)).

Definition begin_open_publication (s : CallbackState) : CallbackState :=
  set_stats s (cs_open_publications s + 1) (cs_grants_received s) (cs_recalls_received s)
    (cs_returns_completed s) (cs_returns_failed s) (cs_worker_healthy s).
Definition drop_publication (s : CallbackState) : CallbackState :=
  set_stats s (cs_open_publications s - 1) (cs_grants_received s) (cs_recalls_received s)
    (cs_returns_completed s) (cs_returns_failed s) (cs_worker_healthy s).

(** [register_delegation]: the counter and the generation, then the entry, with
    the table locked. *)
Definition register_store (s : CallbackState) (generation : Z) : CallbackState :=
  set_generation
    (set_stats s (cs_open_publications s) (wrap64 (cs_grants_received s + 1)) (cs_recalls_received s)
       (cs_returns_completed s) (cs_returns_failed s) (cs_worker_healthy s)) generation.
Definition register_insert (s : CallbackState) (fh : bytes) (grant : V40.DelegationGrant) (generation : Z)
    (attributes : option (Z * Z)) : CallbackState :=
  let record := {| dr_grant := grant; dr_generation := generation; dr_attributes := attributes;
                   dr_recalling := V40.dg_recall grant |} in
  let s := set_delegations s (<[fh := record]> (cs_delegations s)) in
  if V40.dg_recall grant
  then match try_send s (notification fh record) with
       | Some s => count_recall s
       | None =>
           set_stats (set_delegations s (<[fh := with_recalling record false]> (cs_delegations s)))
             (cs_open_publications s) (cs_grants_received s) (cs_recalls_received s)
             (cs_returns_completed s) (cs_returns_failed s) false
       end
  else s.
Definition register_delegation (s : CallbackState) (fh : bytes) (grant : V40.DelegationGrant) (generation : Z)
    (attributes : option (Z * Z)) : CallbackState :=
  register_insert (register_store s generation) fh grant generation attributes.

Definition clear_delegations (s : CallbackState) : CallbackState := set_delegations s ∅.
Definition invalidate_delegations (s : CallbackState) (generation : Z) : CallbackState :=
  clear_delegations (set_generation s generation).

(** [is_current]: the generation, then the entry. *)
Definition current_generation (s : CallbackState) (n : RecallNotification) : bool :=
  cs_generation s =? rn_generation n.
Definition current_record (s : CallbackState) (n : RecallNotification) : bool :=
  match cs_delegations s !! rn_fh n with
  | Some r => (dr_generation r =? rn_generation n) && bool_decide (V40.dg_stateid (dr_grant r) = rn_stateid n)
  | None => false
  end.
Definition is_current (s : CallbackState) (n : RecallNotification) : bool :=
  current_generation s n && current_record s n.

Definition finish_recall (s : CallbackState) (fh stateid : bytes) (generation : Z) (returned : bool) : CallbackState :=
  match cs_delegations s !! fh with
  | Some r =>
      if (dr_generation r =? generation) && bool_decide (V40.dg_stateid (dr_grant r) = stateid)
      then set_delegations s (if returned then delete fh (cs_delegations s)
                              else <[fh := with_recalling r false]> (cs_delegations s))
      else s
  | None => s
  end.

(** [io_gate]: the lock of a file; entries of dropped locks stay. *)
Definition io_gate (g : GateTable bytes) (fh : bytes) : nat * GateTable bytes :=
  match upgrade g fh with
  | Some lock => (lock, {| weak := weak g; held := (fh, lock) :: held g; allocated := allocated g |})
  | None =>
      let lock := allocated g in
      (lock, {| weak := <[fh := lock]> (weak g); held := (fh, lock) :: held g; allocated := S (allocated g) |})
  end.

(** ** The return of one delegation *)

Section Settle.
Context (rpc : bytes -> result bytes) (auth : Auth).

Definition flush_request (n : RecallNotification) : bytes :=
  encode_with_header40 (V40.commit (Builder40.putfh (V40.new40 (of_str "delegation-flush")) (rn_fh n)) 0 0) auth.
Definition return_request (n : RecallNotification) : bytes :=
  encode_with_header40
    (V40.delegreturn (Builder40.putfh (V40.new40 (of_str "delegreturn")) (rn_fh n)) (rn_stateid n)) auth.

(** Statuses that say the server no longer has the delegation. *)
Definition already_gone (e : NfsError) : bool :=
  match e with
  | Nfs4 (NFS4ERR_ADMIN_REVOKED | NFS4ERR_DELEG_REVOKED | NFS4ERR_EXPIRED | NFS4ERR_BAD_STATEID
         | NFS4ERR_STALE_STATEID | NFS4ERR_OLD_STATEID) => true
  | _ => false
  end.
Definition settle_recall (n : RecallNotification) : result () :=
  let* _ := (if rn_flush n
             then let* response := rpc (flush_request n) in
                  let* _ := V40.decode_commit_response response in Ok ()
             else Ok ()) in
  let* response := rpc (return_request n) in
  match V40.decode_delegreturn_response response with
  | Err e => if already_gone e then Ok () else Err e
  | r => r
  end.
End Settle.

(** What the worker counts after an attempt to return a delegation. *)
Definition count_return (s : CallbackState) (returned : bool) : CallbackState :=
  if returned
  then set_stats s (cs_open_publications s) (cs_grants_received s) (cs_recalls_received s)
         (wrap64 (cs_returns_completed s + 1)) (cs_returns_failed s) true
  else set_stats s (cs_open_publications s) (cs_grants_received s) (cs_recalls_received s)
         (cs_returns_completed s) (wrap64 (cs_returns_failed s + 1)) false.

(** ** The callback program *)

(** [slice.get(a..b)] and [slice.get(a..)] *)
Definition get_range (a b : Z) (l : bytes) : option bytes :=
  if (a <=? b) && (b <=? remaining l) then Some (firstn (Z.to_nat (b - a)) (skipn (Z.to_nat a) l)) else None.
Definition get_from (a : Z) (l : bytes) : option bytes :=
  if a <=? remaining l then Some (skipn (Z.to_nat a) l) else None.
Definition word_at (p : Z) (l : bytes) : option Z := be_val <$> get_range p (p + 4) l.

(** The cursor of the source is what is left of the body. *)
Definition take_word (buf : bytes) (field : string) : result (Z * bytes) :=
  if remaining buf <? 4 then Err (Xdr (field +:+ " truncated"))
  else Ok (be_val (firstn 4 buf), skipn 4 buf).
Definition cb_take_opaque (buf : bytes) (field : string) : result (bytes * bytes) :=
  let* (length, buf) := take_word buf field in
  if remaining buf <? length then Err (Xdr (field +:+ " truncated"))
  else if remaining buf <? padded length then Err (Xdr (field +:+ " padding truncated"))
  else Ok (firstn (Z.to_nat length) buf, skipn (Z.to_nat (padded length)) buf).
Definition take_fixed (buf : bytes) (length : Z) (field : string) : result (bytes * bytes) :=
  if remaining buf <? length then Err (Xdr (field +:+ " truncated"))
  else Ok (firstn (Z.to_nat length) buf, skipn (Z.to_nat length) buf).

Definition words (l : list Z) : bytes := concat (map xdr_u32 l).
Definition rpc_reply (l : list Z) : bytes := words l.
Definition accepted_words (xid : Z) (result : list Z) : bytes := rpc_reply ([xid; 1; 0; 0; 0] ++ result).
Definition accepted_body (xid : Z) (body : bytes) : bytes := rpc_reply [xid; 1; 0; 0; 0; 0] ++ body.

Definition compound_result (status : Z) (padded_tag : bytes) (tag_len result_count : Z) (results : bytes) : bytes :=
  xdr_u32 status ++ xdr_u32 tag_len ++ padded_tag ++ xdr_u32 result_count ++ results.

(** *** Credentials *)

Record RpcAuthEnvelope : Type := {
  credential_flavor : Z; credential : bytes; verifier_flavor : Z; verifier : bytes; env_body : bytes
}.
Definition take_auth (encoded : bytes) : option (Z * bytes * bytes) :=
  flavor ← word_at 0 encoded;
  length ← word_at 4 encoded;
  if 400 <? length then None
  else value ← get_range 8 (8 + length) encoded;
       rest ← get_from (8 + padded length) encoded;
       Some (flavor, value, rest).
Definition decode_rpc_auth (encoded : bytes) : option RpcAuthEnvelope :=
  '(cf, c, encoded) ← take_auth encoded;
  '(vf, v, encoded) ← take_auth encoded;
  Some {| credential_flavor := cf; credential := c; verifier_flavor := vf; verifier := v; env_body := encoded |}.

Definition valid_callback_verifier (flavor : Z) (verifier : bytes) : bool :=
  ((flavor =? 0) && bool_decide (verifier = [])) || ((flavor =? 1) && (remaining verifier =? 4)).
Definition valid_callback_credential (flavor : Z) (credential : bytes) : bool :=
  if flavor =? 0 then bool_decide (credential = [])
  else if negb (flavor =? 1) || (remaining credential <? 20) || negb (remaining credential mod 4 =? 0) then false
  else
    let credential := skipn 4 credential in
    match word_at 0 credential with
    | None => false
    | Some machine_length =>
        if 255 <? machine_length then false
        else match get_from (4 + padded machine_length) credential with
             | None => false
             | Some tail =>
                 if remaining tail <? 12 then false
                 else match word_at 8 tail with
                      | None => false
                      | Some group_count => (group_count <=? 16) && (remaining tail =? 12 + group_count * 4)
                      end
             end
    end.

(** *** CB_COMPOUND *)

(** CB_GETATTR: the bitmap's first word that is not zero, and the answer. *)
Definition requested_word (s : Z * bytes) : result (Z * bytes) :=
  let '(requested, buf) := s in
  let* (word, buf) := take_word buf "CB_GETATTR bitmap word" in
  Ok (if requested =? 0 then word else requested, buf).
Definition getattr_result (s : CallbackState) (fh : bytes) (requested : Z) : Z * bytes :=
  let refused :=
    let status := match cs_delegations s !! fh with
                  | Some r => if is_write (V40.dg_kind (dr_grant r)) && bool_decide (dr_attributes r = None)
                              then 10008 else 10001
                  | None => 10001
                  end in
    (status, words [3; status]) in
  match cs_delegations s !! fh with
  | Some r =>
      match dr_attributes r with
      | Some (change, size) =>
          if is_write (V40.dg_kind (dr_grant r)) && (dr_generation r =? cs_generation s)
          then
            let returned := Z.land requested 0x18 in
            let has_change := negb (Z.land returned 0x08 =? 0) in
            let has_size := negb (Z.land returned 0x10 =? 0) in
            (0, words [3; 0; 1; returned; (b2z has_change + b2z has_size) * 8] ++
                (if has_change then be_bytes 8 change else []) ++ (if has_size then be_bytes 8 size else []))
          else refused
      | None => refused
      end
  | None => refused
  end.

(** CB_RECALL with the generation that was read before the table was locked. *)
Definition recall_status (s : CallbackState) (active_generation : Z) (stateid : bytes) (truncate : bool) (fh : bytes)
    : Z * CallbackState :=
  match cs_delegations s !! fh with
  | None => (if negb (cs_open_publications s =? 0) then 10008 else 10001, s)
  | Some r =>
      if negb (dr_generation r =? active_generation) then (10001, s)
      else if negb (bool_decide (V40.dg_stateid (dr_grant r) = stateid)) then (10025, s)
      else if dr_recalling r then (0, s)
      else match try_send s {| rn_fh := fh; rn_stateid := stateid; rn_generation := dr_generation r;
                               rn_flush := is_write (V40.dg_kind (dr_grant r)) && negb truncate |} with
           | Some s => (0, count_recall (set_delegations s (<[fh := with_recalling r true]> (cs_delegations s))))
           | None => (10008, s)
           end
  end.

(** One operation: its status and result, what is left, and the state. *)
Definition callback_op (s : CallbackState) (buf : bytes) : result (Z * bytes * bytes) * CallbackState :=
  match take_word buf "callback opcode" with
  | Err e => (Err e, s)
  | Panic => (Panic, s)
  | Ok (opcode, buf) =>
      if opcode =? 3
      then (let* (fh, buf) := cb_take_opaque buf "CB_GETATTR filehandle" in
            let* (bitmap_words, buf) := take_word buf "CB_GETATTR bitmap length" in
            if 4 <? bitmap_words then Err (Xdr "CB_GETATTR bitmap exceeds bound")
            else
              let* (requested, buf) := for_count bitmap_words requested_word (0, buf) in
              let '(status, result) := getattr_result s fh requested in
              Ok (status, result, buf), s)
      else if opcode =? 4
      then match (let* (stateid, buf) := take_fixed buf 16 "CB_RECALL stateid" in
                  let* (truncate, buf) := take_word buf "CB_RECALL truncate" in
                  let* (fh, buf) := cb_take_opaque buf "CB_RECALL filehandle" in
                  Ok (stateid, negb (truncate =? 0), fh, buf)) with
           | Ok (stateid, truncate, fh, buf) =>
               let '(status, s) := recall_status s (cs_generation s) stateid truncate fh in
               (Ok (status, words [4; status], buf), s)
           | Err e => (Err e, s)
           | Panic => (Panic, s)
           end
      else (Ok (10044, words [opcode; 10044], buf), s)
  end.

(** The loop: it stops at the first status that is not zero. *)
Fixpoint callback_ops40 (n : nat) (s : CallbackState) (buf : bytes) (count : Z) (results : bytes)
    : result (Z * bytes * Z * bytes) * CallbackState :=
  match n with
  | O => (Ok (0, buf, count, results), s)
  | S n =>
      match callback_op s buf with
      | (Ok (status, result, buf), s) =>
          let count := count + 1 in
          let results := results ++ result in
          if negb (status =? 0) then (Ok (status, buf, count, results), s)
          else callback_ops40 n s buf count results
      | (Err e, s) => (Err e, s)
      | (Panic, s) => (Panic, s)
      end
  end.

Definition compound_reply (s : CallbackState) (body : bytes) : result bytes * CallbackState :=
  if remaining body <? 16 then (Err (Xdr "CB_COMPOUND envelope truncated"), s)
  else
    let tag_len := be_val (firstn 4 body) in
    let padded_tag := padded tag_len in
    if (remaining body <? 4 + padded_tag + 12) || (remaining body <? 4 + tag_len)
    then (Err (Xdr "CB_COMPOUND envelope malformed"), s)
    else
      let tag := firstn (Z.to_nat padded_tag) (skipn 4 body) in
      let rest := skipn (Z.to_nat (4 + padded_tag)) body in
      let minor := be_val (firstn 4 rest) in
      let callback_ident := be_val (firstn 4 (skipn 4 rest)) in
      let operation_count := be_val (firstn 4 (skipn 8 rest)) in
      if negb (minor =? 0) then (Ok (compound_result 10021 tag tag_len 0 []), s)
      else if negb (callback_ident =? 1) then (Ok (compound_result 10001 tag tag_len 0 []), s)
      else if MAX_CALLBACK_OPERATIONS <? operation_count then (Ok (compound_result 10018 tag tag_len 0 []), s)
      else
        match callback_ops40 (Z.to_nat operation_count) s (skipn 12 rest) 0 [] with
        | (Ok (status, buf, count, results), s) =>
            if (status =? 0) && negb (bool_decide (buf = []))
            then (Err (Xdr "CB_COMPOUND has trailing data"), s)
            else (Ok (compound_result status tag tag_len count results), s)
        | (Err e, s) => (Err e, s)
        | (Panic, s) => (Panic, s)
        end.

(** *** The RPC call *)

Definition successful_single_recall (body reply : bytes) : bool :=
  match word_at 0 body with
  | None => false
  | Some tag_length =>
      let minor_offset := 4 + padded tag_length in
      bool_decide (word_at (minor_offset + 8) body = Some 1) &&
      bool_decide (word_at (minor_offset + 12) body = Some 4) && bool_decide (word_at 0 reply = Some 0)
  end.

Definition handle_rpc_call (s : CallbackState) (call : bytes) : result bytes * CallbackState :=
  if (remaining call <? 24) || negb (remaining call mod 4 =? 0)
  then (Err (Xdr "NFSv4.0 callback RPC call has an invalid length"), s)
  else
    let word i := be_val (firstn 4 (skipn (4 * i) call)) in
    let xid := word 0%nat in
    match cached_reply s xid call with
    | Some reply => (Ok reply, s)
    | None =>
        if negb (word 1%nat =? 0) then (Err (Rpc "NFSv4.0 callback RPC message is not a CALL"), s)
        else if negb (word 2%nat =? 2) then (Ok (rpc_reply [xid; 1; 1; 0; 2; 2]), s)
        else if negb (word 3%nat =? V40.CB_PROGRAM) then (Ok (accepted_words xid [1]), s)
        else if negb (word 4%nat =? 1) then (Ok (accepted_words xid [2; 1; 1]), s)
        else if 1 <? word 5%nat then (Ok (accepted_words xid [3]), s)
        else match decode_rpc_auth (skipn 24 call) with
             | None => (Ok (rpc_reply [xid; 1; 1; 1; 1]), s)
             | Some e =>
                 if negb (valid_callback_credential (credential_flavor e) (credential e)) ||
                    negb (valid_callback_verifier (verifier_flavor e) (verifier e))
                 then (Ok (rpc_reply [xid; 1; 1; 1; 1]), s)
                 else if word 5%nat =? 0
                 then (Ok (accepted_words xid [if bool_decide (env_body e = []) then 0 else 4]), s)
                 else match compound_reply s (env_body e) with
                      | (Ok compound, s) =>
                          let reply := accepted_body xid compound in
                          (Ok reply, if successful_single_recall (env_body e) compound
                                     then cache_reply s xid call reply else s)
                      | (Err _, s) => (Ok (accepted_words xid [4]), s)
                      | (Panic, s) => (Panic, s)
                      end
             end
    end.

(** *** A connection *)

Definition cb_eof : NfsError := Io UnexpectedEof (IoMessage "early eof").
(** [read_record]: [None] at the end of the stream. Each turn takes four bytes. *)
Fixpoint read_record (fuel : nat) (stream record : bytes) : result (option (bytes * bytes)) :=
  match fuel with
  | O => Panic
  | S fuel =>
      if remaining stream <? 4
      then if bool_decide (record = []) then Ok None else Err cb_eof
      else
        let marker := be_val (firstn 4 stream) in
        let stream := skipn 4 stream in
        let length := Z.land marker 0x7fffffff in
        if MAX_CALLBACK_RECORD <? remaining record + length
        then Err (Xdr "NFSv4.0 callback RPC record exceeds the configured bound")
        else if remaining stream <? length then Err cb_eof
        else
          let record := record ++ firstn (Z.to_nat length) stream in
          let stream := skipn (Z.to_nat length) stream in
          if negb (Z.land marker 0x80000000 =? 0) then Ok (Some (record, stream))
          else read_record fuel stream record
  end.

(** The loop of a connection over what the peer sends before it closes: the
    state and what is written back. *)
Fixpoint serve_connection (fuel : nat) (s : CallbackState) (stream out : bytes) : result bytes * CallbackState :=
  match fuel with
  | O => (Panic, s)
  | S fuel =>
      match read_record (S (length stream)) stream [] with
      | Ok None => (Ok out, s)
      | Ok (Some (call, stream)) =>
          match handle_rpc_call s call with
          | (Ok reply, s) =>
              serve_connection fuel s stream (out ++ xdr_u32 (Z.lor 0x80000000 (wrap32 (remaining reply))) ++ reply)
          | (Err e, s) => (Err e, s)
          | (Panic, s) => (Panic, s)
          end
      | Err e => (Err e, s)
      | Panic => (Panic, s)
      end
  end.

(** ** The worker and the mount *)

(** Where the worker is with a notification: [is_current] before and after it
    has the file's lock, and the return itself. *)
Inductive worker_phase : Type :=
| WorkIdle
| WorkGeneration (locked : bool) (n : RecallNotification)
| WorkRecord (locked : bool) (n : RecallNotification)
| WorkLock (n : RecallNotification)
| WorkSettle (n : RecallNotification)
| WorkEnded.

(** A delegation is known by file, state id and generation. [w_sending] is what
    [return_all_delegations] has still to send; [w_registered] and [w_returned]
    record which delegations were registered and returned, and [w_generations]
    the generations that were stored, the newest first. *)
Definition deleg : Type := (bytes * bytes * Z)%type.
Definition deleg_of (n : RecallNotification) : deleg := (rn_fh n, rn_stateid n, rn_generation n).
Definition record_of (fh : bytes) (r : DelegationRecord) : deleg :=
  (fh, V40.dg_stateid (dr_grant r), dr_generation r).

Record cb_world : Type := {
  w_state : CallbackState; w_worker : worker_phase; w_sending : list RecallNotification;
  w_registered : list deleg; w_returned : list deleg; w_generations : list Z;
}.
Definition cb_world_new : cb_world :=
  {| w_state := callback_state_new; w_worker := WorkIdle; w_sending := []; w_registered := []; w_returned := [];
     w_generations := [0] |}.

Definition with_state (w : cb_world) (s : CallbackState) : cb_world :=
  {| w_state := s; w_worker := w_worker w; w_sending := w_sending w;
     w_registered := w_registered w; w_returned := w_returned w; w_generations := w_generations w |}.
(** The state after [generation] was stored. *)
Definition with_generation (w : cb_world) (s : CallbackState) (g : Z) : cb_world :=
  {| w_state := s; w_worker := w_worker w; w_sending := w_sending w;
     w_registered := w_registered w; w_returned := w_returned w; w_generations := g :: w_generations w |}.
Definition with_worker (w : cb_world) (s : CallbackState) (p : worker_phase) : cb_world :=
  {| w_state := s; w_worker := p; w_sending := w_sending w;
     w_registered := w_registered w; w_returned := w_returned w; w_generations := w_generations w |}.

(** The changes that a request, a callback or the mount makes to the state. The
    generation that is stored is whatever the caller has, an older one too. An
    insertion uses the generation that its registration has stored; CB_RECALL has
    read any. A grant names a delegation that was
    not granted before: the server's state ids are fresh within a generation. *)
Inductive cb_change (w : cb_world) : cb_world -> Prop :=
| change_store g : cb_change w (with_generation w (register_store (w_state w) g) g)
| change_insert fh grant g attrs : g ∈ w_generations w ->
    (fh, V40.dg_stateid grant, g) ∉ w_registered w ->
    cb_change w {| w_state := register_insert (w_state w) fh grant g attrs; w_worker := w_worker w;
                   w_sending := w_sending w;
                   w_registered := (fh, V40.dg_stateid grant, g) :: w_registered w; w_returned := w_returned w;
                   w_generations := w_generations w |}
| change_invalidate g : cb_change w (with_generation w (set_generation (w_state w) g) g)
| change_clear : cb_change w (with_state w (clear_delegations (w_state w)))
| change_recall g stateid truncate fh :
    cb_change w (with_state w (recall_status (w_state w) g stateid truncate fh).2)
| change_cache xid call reply : cb_change w (with_state w (cache_reply (w_state w) xid call reply))
| change_unknown fh : cb_change w (with_state w (mark_attributes_unknown (w_state w) fh).2)
| change_attributes fh change size : cb_change w (with_state w (publish_attributes (w_state w) fh change size))
| change_begin : cb_change w (with_state w (begin_open_publication (w_state w)))
| change_drop : cb_change w (with_state w (drop_publication (w_state w))).

(** [return_all_delegations] marks every delegation and sends its notifications
    one by one; a send fails when the worker has closed the channel. *)
Inductive cb_cleanup (w : cb_world) : cb_world -> Prop :=
| cleanup_mark :
    cb_cleanup w {| w_state := (mark_all (w_state w)).2; w_worker := w_worker w;
                    w_sending := w_sending w ++ (mark_all (w_state w)).1;
                    w_registered := w_registered w; w_returned := w_returned w; w_generations := w_generations w |}
| cleanup_send n rest s : w_sending w = n :: rest -> try_send (w_state w) n = Some s ->
    cb_cleanup w {| w_state := s; w_worker := w_worker w; w_sending := rest;
                    w_registered := w_registered w; w_returned := w_returned w; w_generations := w_generations w |}
| cleanup_fail : cs_open (w_state w) = false ->
    cb_cleanup w {| w_state := w_state w; w_worker := w_worker w; w_sending := [];
                    w_registered := w_registered w; w_returned := w_returned w; w_generations := w_generations w |}.

Inductive cb_work (w : cb_world) : cb_world -> Prop :=
| work_take n rest : w_worker w = WorkIdle -> cs_queue (w_state w) = n :: rest ->
    cb_work w (with_worker w (set_queue (w_state w) rest (cs_open (w_state w))) (WorkGeneration false n))
| work_close : w_worker w = WorkIdle ->
    cb_work w (with_worker w (set_queue (w_state w) (cs_queue (w_state w)) false) WorkIdle)
| work_end : w_worker w = WorkIdle -> cs_queue (w_state w) = [] -> cs_open (w_state w) = false ->
    cb_work w (with_worker w (w_state w) WorkEnded)
| work_generation locked n : w_worker w = WorkGeneration locked n ->
    cb_work w (with_worker w (w_state w)
      (if current_generation (w_state w) n then WorkRecord locked n else WorkIdle))
| work_record locked n : w_worker w = WorkRecord locked n ->
    cb_work w (with_worker w (w_state w)
      (if current_record (w_state w) n then (if (locked : bool) then WorkSettle n else WorkLock n) else WorkIdle))
| work_lock n : w_worker w = WorkLock n -> cb_work w (with_worker w (w_state w) (WorkGeneration true n))
| work_settle n (returned : bool) : w_worker w = WorkSettle n ->
    cb_work w {| w_state := finish_recall (count_return (w_state w) returned) (rn_fh n) (rn_stateid n)
                              (rn_generation n) returned;
                 w_worker := WorkIdle; w_sending := w_sending w; w_registered := w_registered w;
                 w_returned := if returned then deleg_of n :: w_returned w else w_returned w;
                 w_generations := w_generations w |}.

Inductive cb_step : cb_world -> cb_world -> Prop :=
| step_change w w' : cb_change w w' -> cb_step w w'
| step_cleanup w w' : cb_cleanup w w' -> cb_step w w'
| step_work w w' : cb_work w w' -> cb_step w w'.

(** ** Theorems *)

(** *** Recalls are neither lost nor repeated *)

(** [D] the table, [g] the generation, [o] whether the channel is open and the
    generation never went back, [P] the delegations with a notification on its
    way, [R] the registered ones and [T] the returned ones. *)
Record tracked (D : gmap bytes DelegationRecord) (g : Z) (o : Prop) (P R T : list deleg) : Prop := {
  tr_nodup : NoDup P;
  tr_flag : forall (fh : bytes) r, D !! fh = Some r -> record_of fh r ∈ P -> dr_recalling r = true;
  tr_pending : o -> forall (fh : bytes) r, D !! fh = Some r -> dr_recalling r = true ->
    dr_generation r = g -> record_of fh r ∈ P;
  tr_rgen : o -> forall (fh : bytes) r, D !! fh = Some r -> dr_generation r <= g;
  tr_preg : forall k, k ∈ P -> k ∈ R;
  tr_treg : forall k, k ∈ T -> k ∈ R;
  tr_dreg : forall (fh : bytes) r, D !! fh = Some r -> record_of fh r ∈ R;
  tr_once : NoDup T;
  tr_gone : forall k, k ∈ T -> k ∉ P /\ forall (fh : bytes) r, D !! fh = Some r -> record_of fh r <> k;
}.

Lemma tracked_perm D g o P P' R T : P ≡ₚ P' -> tracked D g o P R T -> tracked D g o P' R T.
Proof.
  intros HP []. assert (Hin : forall k, k ∈ P' <-> k ∈ P) by (intros k; by rewrite HP).
  constructor; try done; [by rewrite <- HP|..]; intros.
  - eapply tr_flag0; [done|by apply Hin].
  - by apply Hin, tr_pending0.
  - by apply tr_preg0, Hin.
  - rewrite Hin. by apply tr_gone0.
Qed.

Lemma tracked_generation D g g' (o o' : Prop) P R T :
  (o' -> o /\ g <= g') -> tracked D g o P R T -> tracked D g' o' P R T.
Proof.
  intros Hg []. constructor; try done.
  - intros [Ho Hle]%Hg fh r Hr Hc He. apply tr_pending0; try done. specialize (tr_rgen0 Ho fh r Hr). lia.
  - intros [Ho Hle]%Hg fh r Hr. specialize (tr_rgen0 Ho fh r Hr). lia.
Qed.

Lemma tracked_condition D g (o o' : Prop) P R T : (o' -> o) -> tracked D g o P R T -> tracked D g o' P R T.
Proof. intros Ho. apply tracked_generation. intros H%Ho. by split. Qed.

Lemma tracked_clear D g o P R T : tracked D g o P R T -> tracked ∅ g o P R T.
Proof. intros []. constructor; try done. intros k Hk. split; [by apply tr_gone0|done]. Qed.

(** A notification leaves without effect when no current delegation waits for it. *)
Lemma tracked_drop D g o k P R T :
  tracked D g o (k :: P) R T ->
  (o -> forall (fh : bytes) r, D !! fh = Some r -> dr_generation r = g -> record_of fh r <> k) ->
  tracked D g o P R T.
Proof.
  intros [] Hk. apply NoDup_cons in tr_nodup0 as [Hn Hnd]. constructor; try done.
  - intros fh r Hr Hin. eapply tr_flag0; [done|by right].
  - intros Ho fh r Hr Hc He. specialize (tr_pending0 Ho fh r Hr Hc He).
    apply elem_of_cons in tr_pending0 as [Heq|?]; [|done]. by destruct (Hk Ho fh r Hr He).
  - intros k' Hk'. apply tr_preg0. by right.
  - intros k' Hk'. destruct (tr_gone0 k' Hk') as [H1 H2]. split; [|done]. set_solver.
Qed.

(** A changed entry that keeps its identity and its flag. *)
Lemma tracked_update D g o P R T (fh : bytes) r r' :
  tracked D g o P R T -> D !! fh = Some r -> record_of fh r' = record_of fh r ->
  dr_recalling r' = dr_recalling r -> tracked (<[fh := r']> D) g o P R T.
Proof.
  intros [] Hr Hk Hc. assert (Hgen : dr_generation r' = dr_generation r) by by injection Hk.
  constructor; try done.
  - intros fh' x [[<- <-]|[? Hx]]%lookup_insert_Some Hin; [|by eapply tr_flag0].
    rewrite Hc. eapply tr_flag0; [done|]. by rewrite <- Hk.
  - intros Ho fh' x [[<- <-]|[? Hx]]%lookup_insert_Some Hcx Hgx; [|by eapply tr_pending0].
    rewrite Hk. apply tr_pending0; congruence.
  - intros Ho fh' x [[<- <-]|[? Hx]]%lookup_insert_Some; [|by eapply tr_rgen0]. rewrite Hgen. by eapply tr_rgen0.
  - intros fh' x [[<- <-]|[? Hx]]%lookup_insert_Some; [|by eapply tr_dreg0]. rewrite Hk. by apply tr_dreg0.
  - intros k Hkt. destruct (tr_gone0 k Hkt) as [? H2]. split; [done|].
    intros fh' x [[<- <-]|[? Hx]]%lookup_insert_Some; [rewrite Hk|]; by apply H2.
Qed.

(** A delegation that was not being recalled is asked for. *)
Lemma tracked_recall D g o P R T (fh : bytes) r :
  tracked D g o P R T -> D !! fh = Some r -> dr_recalling r = false ->
  tracked (<[fh := with_recalling r true]> D) g o (record_of fh r :: P) R T.
Proof.
  intros [] Hr Hc.
  assert (Hnew : record_of fh r ∉ P) by (intros Hin; by rewrite (tr_flag0 fh r Hr Hin) in Hc).
  constructor.
  - by apply NoDup_cons.
  - intros fh' x [[<- <-]|[? Hx]]%lookup_insert_Some; [done|]. intros [Heq|?]%elem_of_cons; [|by eapply tr_flag0].
    by injection Heq.
  - intros Ho fh' x [[<- <-]|[? Hx]]%lookup_insert_Some Hcx Hgx; [by left|]. right. by apply tr_pending0.
  - intros Ho fh' x [[<- <-]|[? Hx]]%lookup_insert_Some; [exact (tr_rgen0 Ho fh r Hr)|by eapply tr_rgen0].
  - intros k [->|?]%elem_of_cons; [by apply tr_dreg0|by apply tr_preg0].
  - done.
  - intros fh' x [[<- <-]|[? Hx]]%lookup_insert_Some; [exact (tr_dreg0 fh r Hr)|by apply tr_dreg0].
  - done.
  - intros k Hk. destruct (tr_gone0 k Hk) as [H1 H2]. split.
    + apply not_elem_of_cons. split; [|done]. intros ->. by apply (H2 fh r Hr).
    + intros fh' x [[<- <-]|[? Hx]]%lookup_insert_Some; [exact (H2 fh r Hr)|by apply H2].
Qed.

(** A new grant. *)
Lemma tracked_insert D g o P R T (fh : bytes) r :
  tracked D g o P R T -> record_of fh r ∉ R -> (o -> dr_generation r <= g) -> dr_recalling r = false ->
  tracked (<[fh := r]> D) g o P (record_of fh r :: R) T.
Proof.
  intros [] Hnew Hg Hc. constructor; try done.
  - intros fh' x [[<- <-]|[? Hx]]%lookup_insert_Some Hin; [|by eapply tr_flag0]. by destruct Hnew; apply tr_preg0.
  - intros Ho fh' x [[<- <-]|[? Hx]]%lookup_insert_Some Hcx Hgx; [congruence|by apply tr_pending0].
  - intros Ho fh' x [[<- <-]|[? Hx]]%lookup_insert_Some; [by apply Hg|by eapply tr_rgen0].
  - intros k Hk. right. by apply tr_preg0.
  - intros k Hk. right. by apply tr_treg0.
  - intros fh' x [[<- <-]|[? Hx]]%lookup_insert_Some; [by left|right; by apply tr_dreg0].
  - intros k Hk. destruct (tr_gone0 k Hk) as [H1 H2]. split; [done|].
    intros fh' x [[<- <-]|[? Hx]]%lookup_insert_Some; [|by apply H2]. intros <-. by destruct Hnew; apply tr_treg0.
Qed.

(** The return of a delegation has ended. *)
Lemma tracked_returned D g o k P R T (fh : bytes) r :
  tracked D g o (k :: P) R T -> D !! fh = Some r -> record_of fh r = k -> tracked (delete fh D) g o P R (k :: T).
Proof.
  intros Htr Hr <-. assert (Hsub : forall (fh' : bytes) x, delete fh D !! fh' = Some x -> fh <> fh' /\ D !! fh' = Some x)
    by (intros fh' x; apply lookup_delete_Some).
  assert (Hd : tracked (delete fh D) g o (record_of fh r :: P) R T).
  { destruct Htr. constructor; try done; intros.
    - destruct (Hsub fh0 r0) as [? ?]; [done|]. by eapply tr_flag0.
    - destruct (Hsub fh0 r0) as [? ?]; [done|]. by apply tr_pending0.
    - destruct (Hsub fh0 r0) as [? ?]; [done|]. by eapply tr_rgen0.
    - destruct (Hsub fh0 r0) as [? ?]; [done|]. by apply tr_dreg0.
    - destruct (tr_gone0 k) as [H1 H2]; [done|]. split; [done|]. intros fh' x Hx. apply H2. by apply Hsub. }
  assert (Hno : forall (fh' : bytes) x, delete fh D !! fh' = Some x -> record_of fh' x <> record_of fh r).
  { intros fh' x [? _]%Hsub. unfold record_of. congruence. }
  destruct Htr as [_ _ _ _ Hpr _ _ _ Hg]. pose proof Hd as [Hnd _ _ _ _ _ _ _ _].
  apply tracked_drop in Hd as []; [|intros _ fh' x Hx _; by apply Hno]. constructor; try done.
  - intros k [->|?]%elem_of_cons; [apply Hpr; by left|by apply tr_treg0].
  - apply NoDup_cons. split; [|done]. intros Hin. destruct (Hg _ Hin) as [H _]. destruct H. by left.
  - intros k [->|Hk]%elem_of_cons; [|by apply tr_gone0]. split; [by apply NoDup_cons in Hnd as [? _]|by apply Hno].
Qed.

Lemma tracked_returned_gone D g o k P R T :
  tracked D g o (k :: P) R T -> (forall (fh : bytes) r, D !! fh = Some r -> record_of fh r <> k) ->
  tracked D g o P R (k :: T).
Proof.
  intros Htr Hno. pose proof Htr as [Hnd _ _ _ Hpr _ _ _ Hg].
  apply tracked_drop in Htr as []; [|intros _ fh x Hx _; by apply Hno]. constructor; try done.
  - intros k' [->|?]%elem_of_cons; [apply Hpr; by left|by apply tr_treg0].
  - apply NoDup_cons. split; [|done]. intros Hin. destruct (Hg _ Hin) as [H _]. destruct H. by left.
  - intros k' [->|Hk]%elem_of_cons; [|by apply tr_gone0]. split; [by apply NoDup_cons in Hnd as [? _]|by apply Hno].
Qed.

Lemma tracked_failed D g o k P R T (fh : bytes) r :
  tracked D g o (k :: P) R T -> D !! fh = Some r -> record_of fh r = k ->
  tracked (<[fh := with_recalling r false]> D) g o P R T.
Proof.
  intros [] Hr <-. apply NoDup_cons in tr_nodup0 as [Hn Hnd]. constructor; try done.
  - intros fh' x [[<- <-]|[? Hx]]%lookup_insert_Some Hin; [done|]. eapply tr_flag0; [done|by right].
  - intros Ho fh' x [[<- <-]|[? Hx]]%lookup_insert_Some Hcx Hgx; [done|].
    specialize (tr_pending0 Ho fh' x Hx Hcx Hgx). apply elem_of_cons in tr_pending0 as [Heq|?]; [|done].
    by injection Heq.
  - intros Ho fh' x [[<- <-]|[? Hx]]%lookup_insert_Some; [exact (tr_rgen0 Ho fh r Hr)|by eapply tr_rgen0].
  - intros k Hk. apply tr_preg0. by right.
  - intros fh' x [[<- <-]|[? Hx]]%lookup_insert_Some; [exact (tr_dreg0 fh r Hr)|by apply tr_dreg0].
  - intros k Hk. destruct (tr_gone0 k Hk) as [H1 H2]. split; [set_solver|].
    intros fh' x [[<- <-]|[? Hx]]%lookup_insert_Some; [exact (H2 fh r Hr)|by apply H2].
Qed.

Lemma nodup_notifications (l : list (bytes * DelegationRecord)) :
  NoDup l.*1 ->
  NoDup (map deleg_of (omap (fun '(fh, r) => if dr_recalling r then None else Some (notification fh r)) l)).
Proof.
  induction l as [|[fh r] l IH]; [by intros; constructor|]. intros [Hn Hl]%NoDup_cons. cbn [omap list_omap].
  destruct (dr_recalling r); [by apply IH|]. cbn [map]. apply NoDup_cons. split; [|by apply IH].
  intros (n & Hk & ([fh' r'] & Hx & Hn')%list_elem_of_omap)%list_elem_of_fmap.
  destruct (dr_recalling r'); [done|]. simplify_eq/=. apply Hn. apply list_elem_of_fmap. by exists (fh', r').
Qed.

(** All delegations are asked for at once. *)
Lemma tracked_mark D g o P R T :
  tracked D g o P R T ->
  tracked ((fun r => with_recalling r true) <$> D) g o
    (P ++ map deleg_of (omap (fun '(fh, r) => if dr_recalling r then None else Some (notification fh r)) (map_to_list D))) R T.
Proof.
  intros [].
  assert (Hin : forall k, k ∈ map deleg_of (omap (fun '(fh, r) => if dr_recalling r then None else Some (notification fh r))
      (map_to_list D)) <-> exists (fh : bytes) r, D !! fh = Some r /\ dr_recalling r = false /\ k = record_of fh r).
  { intros k. split.
    - intros (n & -> & (x & Hx & Hn)%list_elem_of_omap)%list_elem_of_fmap. destruct x as [fh r].
      apply elem_of_map_to_list in Hx. destruct (dr_recalling r) eqn:E; [done|]. exists fh, r. by simplify_eq/=.
    - intros (fh & r & Hr & E & ->). apply list_elem_of_fmap. exists (notification fh r). split; [done|].
      apply list_elem_of_omap. exists (fh, r). rewrite E. split; [by apply elem_of_map_to_list|done]. }
  assert (Hlook : forall (fh : bytes) x, ((fun r => with_recalling r true) <$> D) !! fh = Some x ->
     exists r, D !! fh = Some r /\ x = with_recalling r true).
  { intros fh x Hx. rewrite lookup_fmap in Hx. destruct (D !! fh) as [r|]; simplify_eq/=. eauto. }
  constructor; try done.
  - apply NoDup_app. split_and!; [done| |].
    + intros k Hk (fh & r & Hr & E & ->)%Hin. by rewrite (tr_flag0 fh r Hr Hk) in E.
    + apply nodup_notifications, NoDup_fst_map_to_list.
  - intros fh x (r & _ & ->)%Hlook. done.
  - intros Ho fh x (r & Hr & ->)%Hlook _ He. apply elem_of_app. destruct (dr_recalling r) eqn:E.
    + left. by apply (tr_pending0 Ho fh r).
    + right. apply Hin. by exists fh, r.
  - intros Ho fh x (r & Hr & ->)%Hlook. exact (tr_rgen0 Ho fh r Hr).
  - intros k [Hk|(fh & r & Hr & E & ->)%Hin]%elem_of_app; [by apply tr_preg0|by apply tr_dreg0].
  - intros fh x (r & Hr & ->)%Hlook. exact (tr_dreg0 fh r Hr).
  - intros k Hk. destruct (tr_gone0 k Hk) as [H1 H2]. split.
    + intros [?|(fh & r & Hr & E & ->)%Hin]%elem_of_app; [done|by apply (H2 fh r)].
    + intros fh x (r & Hr & ->)%Hlook. exact (H2 fh r Hr).
Qed.

Definition holder (p : worker_phase) : list RecallNotification :=
  match p with
  | WorkGeneration _ n | WorkRecord _ n | WorkLock n | WorkSettle n => [n]
  | WorkIdle | WorkEnded => []
  end.
(** The notifications on their way. *)
Definition under_way (w : cb_world) : list deleg :=
  map deleg_of (holder (w_worker w) ++ w_sending w ++ cs_queue (w_state w)).
(** No generation was stored after a later one. *)
Definition monotone (w : cb_world) : Prop := StronglySorted Z.ge (w_generations w).
Definition world_ok (w : cb_world) : Prop :=
  head (w_generations w) = Some (cs_generation (w_state w)) /\
  tracked (cs_delegations (w_state w)) (cs_generation (w_state w)) (cs_open (w_state w) = true /\ monotone w)
    (under_way w) (w_registered w) (w_returned w).

Lemma monotone_newest w g :
  head (w_generations w) = Some (cs_generation (w_state w)) -> monotone w -> g ∈ w_generations w ->
  g <= cs_generation (w_state w).
Proof.
  unfold monotone. destruct (w_generations w) as [|g0 l]; [done|]. intros [= ->] [_ Hl]%StronglySorted_inv.
  intros [->|Hin]%elem_of_cons; [done|]. rewrite Forall_forall in Hl. specialize (Hl g Hin). lia.
Qed.
Lemma store_ok w g s :
  world_ok w -> cs_delegations s = cs_delegations (w_state w) -> cs_open s = cs_open (w_state w) ->
  cs_queue s = cs_queue (w_state w) -> cs_generation s = g -> world_ok (with_generation w s g).
Proof.
  intros [Hh Hok] Hd Ho Hq Hg. split; [cbn; by rewrite Hg|]. unfold under_way in *. cbn. rewrite Hd, Hq, Hg.
  eapply tracked_generation; [|exact Hok]. rewrite Ho. intros [? [Hs Hl]%StronglySorted_inv]. split; [done|].
  unfold monotone in *. cbn in Hl. destruct (w_generations w); [done|]. injection Hh as ->.
  apply Forall_cons in Hl as [? _]. lia.
Qed.

Lemma try_send_some s n s' :
  try_send s n = Some s' -> s' = set_queue s (cs_queue s ++ [n]) true /\ cs_open s = true.
Proof.
  unfold try_send. destruct (cs_open s && _) eqn:E; [|done]. apply andb_true_iff in E as [E _]. by intros [= <-].
Qed.

(** The queue with one more notification. *)
Lemma tracked_queued D g o p snd q n R T :
  tracked D g o (deleg_of n :: map deleg_of (holder p ++ snd ++ q)) R T ->
  tracked D g o (map deleg_of (holder p ++ snd ++ q ++ [n])) R T.
Proof.
  apply tracked_perm. change (deleg_of n :: map deleg_of (holder p ++ snd ++ q))
    with (map deleg_of (n :: holder p ++ snd ++ q)). apply Permutation_map.
  rewrite Permutation_cons_append. by rewrite !app_assoc.
Qed.

Lemma insert_ok w fh grant g attrs : world_ok w -> g ∈ w_generations w ->
  (fh, V40.dg_stateid grant, g) ∉ w_registered w ->
  world_ok {| w_state := register_insert (w_state w) fh grant g attrs; w_worker := w_worker w;
              w_sending := w_sending w;
              w_registered := (fh, V40.dg_stateid grant, g) :: w_registered w; w_returned := w_returned w;
              w_generations := w_generations w |}.
Proof.
  intros [Hh Hok] Hg Hnew. split.
  { cbn. unfold register_insert. destruct (V40.dg_recall grant); [|done]. unfold try_send. by destruct (_ && _). }
  unfold under_way, monotone in *.
  set (record b := {| dr_grant := grant; dr_generation := g; dr_attributes := attrs; dr_recalling := b |}).
  assert (Hins : tracked (<[fh := record false]> (cs_delegations (w_state w))) (cs_generation (w_state w))
    (cs_open (w_state w) = true /\ monotone w)
    (map deleg_of (holder (w_worker w) ++ w_sending w ++ cs_queue (w_state w))) ((fh, V40.dg_stateid grant, g) :: w_registered w) (w_returned w)).
  { apply (tracked_insert _ _ _ _ _ _ fh (record false)); try done. intros [_ Hm]. by apply monotone_newest. }
  unfold register_insert. destruct (V40.dg_recall grant) eqn:Hr; cbn [w_state w_worker w_sending w_registered w_returned]; [|done].
  change {| dr_grant := grant; dr_generation := g; dr_attributes := attrs; dr_recalling := true |} with (record true).
  destruct (try_send _ _) as [s'|] eqn:Hs.
  - apply try_send_some in Hs as [-> Ho]. cbn in *. apply tracked_queued.
    apply (tracked_condition _ _ (cs_open (w_state w) = true /\ monotone w)); [by intros [_ ?]|].
    apply (tracked_recall _ _ _ _ _ _ fh (record false)) in Hins; [|by rewrite lookup_insert_eq|done].
    by rewrite insert_insert_eq in Hins.
  - cbn. by rewrite insert_insert_eq.
Qed.

Lemma recall_ok w g stateid truncate fh : world_ok w ->
  world_ok (with_state w (recall_status (w_state w) g stateid truncate fh).2).
Proof.
  intros Hok. unfold recall_status. destruct (cs_delegations (w_state w) !! fh) as [r|] eqn:Hr; [|by destruct w].
  destruct (negb (dr_generation r =? g)) eqn:Hg; [by destruct w|].
  destruct (negb (bool_decide _)) eqn:Hst; [by destruct w|]. destruct (dr_recalling r) eqn:Hc; [by destruct w|].
  apply negb_false_iff, bool_decide_eq_true in Hst.
  destruct (try_send _ _) as [s'|] eqn:Hs; [|by destruct w]. apply try_send_some in Hs as [-> Ho].
  destruct Hok as [Hh Hok]. split; [done|]. unfold under_way in *. cbn in *. apply tracked_queued.
  apply (tracked_condition _ _ (cs_open (w_state w) = true /\ monotone w)); [by intros [_ ?]|].
  apply (tracked_recall _ _ _ _ _ _ fh r) in Hok; [|done|done].
  by replace (deleg_of _) with (record_of fh r) by (unfold deleg_of, record_of; cbn; by rewrite Hst).
Qed.

Lemma change_ok w w' : cb_change w w' -> world_ok w -> world_ok w'.
Proof.
  intros Hc Hok. destruct Hc as [g|fh grant g attrs Hg Hn|g| |g sid t fh|xid call reply|fh|fh c z| |].
  - by apply store_ok.
  - by apply insert_ok.
  - by apply store_ok.
  - destruct Hok as [Hh Hok]. split; [done|by eapply tracked_clear].
  - by apply recall_ok.
  - done.
  - unfold mark_attributes_unknown. destruct (cs_delegations (w_state w) !! fh) as [r|] eqn:Hr; [|by destruct w].
    destruct (is_write _); [|by destruct w]. destruct Hok as [Hh Hok]. split; [done|by eapply tracked_update].
  - unfold publish_attributes. destruct (cs_delegations (w_state w) !! fh) as [r|] eqn:Hr; [|by destruct w].
    destruct (is_write _); [|by destruct w]. destruct Hok as [Hh Hok]. split; [done|by eapply tracked_update].
  - done.
  - done.
Qed.

Lemma cleanup_ok w w' : cb_cleanup w w' -> world_ok w -> world_ok w'.
Proof.
  intros Hc [Hh Hok]. split; [destruct Hc as [|n rest s Hs [-> _]%try_send_some|]; done|].
  unfold under_way in *. destruct Hc as [|n rest s Hs Ht|Ho]; cbn in *.
  - apply tracked_mark in Hok. eapply tracked_perm; [|exact Hok]. rewrite !map_app. solve_Permutation.
  - rewrite Hs in Hok. apply try_send_some in Ht as [-> Ho]. cbn.
    apply (tracked_condition _ _ (cs_open (w_state w) = true /\ monotone w)); [by intros [_ ?]|].
    eapply tracked_perm; [|exact Hok]. apply Permutation_map. rewrite !app_assoc. solve_Permutation.
  - apply (tracked_condition _ _ False); [rewrite Ho; by intros [[=] _]|].
    apply (tracked_condition _ _ _ False) in Hok; [|done].
    assert (Hd : forall l P, tracked (cs_delegations (w_state w)) (cs_generation (w_state w)) False (l ++ P)
        (w_registered w) (w_returned w) ->
      tracked (cs_delegations (w_state w)) (cs_generation (w_state w)) False P (w_registered w) (w_returned w)).
    { intros l P. induction l as [|k l IH]; [done|]. intros H. apply IH. by eapply tracked_drop. }
    apply (Hd (map deleg_of (w_sending w))). eapply tracked_perm; [|exact Hok]. rewrite !map_app. solve_Permutation.
Qed.

Lemma work_generation_kept w w' : cb_work w w' ->
  w_generations w' = w_generations w /\ cs_generation (w_state w') = cs_generation (w_state w).
Proof.
  intros []; try done. split; [done|]. cbn. unfold finish_recall. destruct returned; cbn;
    (destruct (_ !! _); [by destruct (_ && _)|done]).
Qed.

Lemma work_ok w w' : cb_work w w' -> world_ok w -> world_ok w'.
Proof.
  intros Hc [Hh Hok]. split; [by destruct (work_generation_kept w w') as [-> ->]|]. unfold under_way in *.
  destruct Hc as [n rest Hw Hq|Hw|Hw Hq Ho|locked n Hw|locked n Hw|n Hw|n returned Hw]; cbn in *; rewrite ?Hw in *; cbn in *.
  - rewrite Hq in Hok. eapply tracked_perm; [|exact Hok]. rewrite !map_app. cbn. solve_Permutation.
  - eapply tracked_condition; [|exact Hok]. by intros [[=] _].
  - done.
  - unfold current_generation. destruct (Z.eqb_spec (cs_generation (w_state w)) (rn_generation n)); [done|].
    cbn. eapply tracked_drop; [exact Hok|]. intros _ fh r Hr Hg Hk. injection Hk. intros. cbn in *. lia.
  - unfold current_record. destruct (cs_delegations (w_state w) !! rn_fh n) as [r|] eqn:Hr.
    + destruct ((dr_generation r =? rn_generation n) && _) eqn:E; [by destruct locked|]. cbn.
      eapply tracked_drop; [exact Hok|]. intros _ fh x Hx Hg Hk. injection Hk as -> Hsid Hge.
      rewrite Hr in Hx. injection Hx as <-. rewrite Hge, Z.eqb_refl, bool_decide_eq_true_2 in E by done. done.
    + cbn. eapply tracked_drop; [exact Hok|]. intros _ fh x Hx Hg Hk. injection Hk as -> _ _. congruence.
  - done.
  - assert (Hst : forall b, cs_delegations (count_return (w_state w) b) = cs_delegations (w_state w) /\
      cs_generation (count_return (w_state w) b) = cs_generation (w_state w) /\
      cs_open (count_return (w_state w) b) = cs_open (w_state w) /\
      cs_queue (count_return (w_state w) b) = cs_queue (w_state w)) by (intros []; done).
    destruct (Hst returned) as (H1 & H2 & H3 & H4). unfold finish_recall. rewrite H1.
    destruct (cs_delegations (w_state w) !! rn_fh n) as [r|] eqn:Hr.
    + destruct ((dr_generation r =? rn_generation n) && bool_decide (V40.dg_stateid (dr_grant r) = rn_stateid n)) eqn:E.
      * apply andb_true_iff in E as [E1%Z.eqb_eq E2%bool_decide_eq_true]. cbn. rewrite ?H1, ?H2, ?H3, ?H4.
        destruct returned.
        -- eapply tracked_returned; [exact Hok|done|]. unfold record_of, deleg_of. congruence.
        -- eapply tracked_failed; [exact Hok|done|]. unfold record_of, deleg_of. congruence.
      * rewrite ?H1, ?H2, ?H3, ?H4.
        assert (Hno : forall (fh : bytes) x, cs_delegations (w_state w) !! fh = Some x -> record_of fh x <> deleg_of n).
        { intros fh x Hx Hk. injection Hk as -> Hsid Hge. rewrite Hr in Hx. injection Hx as <-.
          by rewrite Hge, Z.eqb_refl, bool_decide_eq_true_2 in E by done. }
        destruct returned; [by apply tracked_returned_gone|]. eapply tracked_drop; [exact Hok|]. intros _ fh x Hx _. by apply Hno.
    + rewrite ?H1, ?H2, ?H3, ?H4.
      assert (Hno : forall (fh : bytes) x, cs_delegations (w_state w) !! fh = Some x -> record_of fh x <> deleg_of n).
      { intros fh x Hx Hk. injection Hk as -> _ _. congruence. }
      destruct returned; [by apply tracked_returned_gone|]. eapply tracked_drop; [exact Hok|]. intros _ fh x Hx _. by apply Hno.
Qed.

Lemma world_ok_new : world_ok cb_world_new.
Proof.
  split; [done|]. constructor; cbn; try by constructor.
  all: intros; first [by rewrite lookup_empty in *|exfalso; by eapply not_elem_of_nil].
Qed.

Lemma cb_reachable_ok w : rtc cb_step cb_world_new w -> world_ok w.
Proof.
  intros Hr. assert (H : forall a b, rtc cb_step a b -> world_ok a -> world_ok b).
  { intros a b. induction 1 as [|a b c Hs _ IH]; [done|]. intros Ha. apply IH.
    destruct Hs; eauto using change_ok, cleanup_ok, work_ok. }
  apply (H _ _ Hr world_ok_new).
Qed.

(** C32: a recall is neither lost nor repeated. In every interleaving of grants,
    callbacks, changes of generation, the cleanup and the worker: while the worker
    takes notifications, and if no registration has put back an older generation,
    each delegation of the current generation that is marked as being recalled has
    a notification on its way to its return. Whatever generations are stored, no
    delegation has two notifications on their way, one that has a notification and
    is still in the table is marked, no granted delegation is returned successfully
    more than once, none that is on its way was returned, and none is returned that
    was never granted. *)
Theorem recalls_tracked w : rtc cb_step cb_world_new w ->
  (cs_open (w_state w) = true -> monotone w -> forall (fh : bytes) r, cs_delegations (w_state w) !! fh = Some r ->
     dr_recalling r = true -> dr_generation r = cs_generation (w_state w) -> record_of fh r ∈ under_way w) /\
  NoDup (under_way w) /\
  (forall (fh : bytes) r, cs_delegations (w_state w) !! fh = Some r -> record_of fh r ∈ under_way w ->
     dr_recalling r = true) /\
  NoDup (w_returned w) /\ (forall k, k ∈ w_returned w -> k ∈ w_registered w /\ k ∉ under_way w).
Proof.
  intros [_ []]%cb_reachable_ok. split_and!; try done.
  - intros Ho Hm. by apply tr_pending0.
  - intros k Hk. split; [by apply tr_treg0|by apply tr_gone0].
Qed.

(** A delegation granted with its recall, while the worker is idle. *)
Definition demo_grant : V40.DelegationGrant :=
  {| V40.dg_kind := V40.DelegWrite; V40.dg_stateid := [x07]; V40.dg_recall := true |}.
Definition demo_record : DelegationRecord :=
  {| dr_grant := demo_grant; dr_generation := 3; dr_attributes := None; dr_recalling := true |}.
Definition demo_recalled : cb_world :=
  {| w_state := register_insert (register_store callback_state_new 3) [x01] demo_grant 3 None;
     w_worker := WorkIdle; w_sending := []; w_registered := [([x01], [x07], 3)]; w_returned := [];
     w_generations := [3; 0] |}.
Lemma demo_recalled_reachable : rtc cb_step cb_world_new demo_recalled.
Proof.
  eapply rtc_l; [apply step_change, (change_store _ 3)|].
  eapply rtc_l; [apply step_change, (change_insert _ [x01] demo_grant 3 None); [by left|by apply not_elem_of_nil]|].
  apply rtc_refl.
Qed.
Lemma recalls_tracked_witness : ([x01], [x07], 3) ∈ under_way demo_recalled /\ NoDup (w_returned demo_recalled).
Proof.
  destruct (recalls_tracked demo_recalled demo_recalled_reachable) as (H1 & _ & _ & H3 & _). split; [|exact H3].
  assert (Hm : monotone demo_recalled) by (repeat constructor; lia).
  apply (H1 eq_refl Hm [x01] demo_record); vm_compute; reflexivity.
Defined.

(** What the condition on the generations is for: an operation that began before
    the lease was lost may still register its grant, and puts its older generation
    back. The worker then drops the notification of a newer delegation, which
    stays marked as being recalled; once the newer generation is stored again, it
    is current, marked, and nothing will return it: CB_RECALL is answered without
    another notification. *)
Definition forgotten_recall : cb_world :=
  {| w_state := register_store (register_store (set_queue (w_state demo_recalled) [] true) 2) 3;
     w_worker := WorkIdle; w_sending := []; w_registered := [([x01], [x07], 3)]; w_returned := [];
     w_generations := [3; 2; 3; 0] |}.
Lemma stale_registration_forgets_recall :
  rtc cb_step cb_world_new forgotten_recall /\
  cs_delegations (w_state forgotten_recall) !! [x01] = Some demo_record /\
  cs_generation (w_state forgotten_recall) = 3 /\ under_way forgotten_recall = [] /\
  recall_status (w_state forgotten_recall) 3 [x07] false [x01] = (0, w_state forgotten_recall).
Proof.
  split; [|by vm_compute]. etrans; [apply demo_recalled_reachable|].
  eapply rtc_l; [apply step_work; by eapply work_take|].
  eapply rtc_l; [apply step_change, (change_store _ 2)|].
  eapply rtc_l; [apply step_work; by eapply work_generation|].
  eapply rtc_l; [apply step_change, (change_store _ 3)|].
  apply rtc_refl.
Qed.

(** *** Calls *)

(** What a callback does to the state is a sequence of the changes above. *)
Lemma callback_op_changes w buf :
  rtc cb_change w (with_state w (callback_op (w_state w) buf).2).
Proof.
  assert (Hsame : forall r : result (Z * bytes * bytes), rtc cb_change w (with_state w (r, w_state w).2))
    by (intros; destruct w; apply rtc_refl).
  unfold callback_op. destruct (take_word buf "callback opcode") as [[opcode buf']|e|]; [|apply Hsame..].
  destruct (opcode =? 3); [apply Hsame|]. destruct (opcode =? 4); [|apply Hsame].
  destruct (let* (_, _) := take_fixed _ _ _ in _) as [[[[stateid t] fh] b]|e|]; [|apply Hsame..].
  destruct (recall_status (w_state w) (cs_generation (w_state w)) stateid t fh) as [status s] eqn:E.
  cbn. apply rtc_once. replace s with (recall_status (w_state w) (cs_generation (w_state w)) stateid t fh).2 by by rewrite E.
  by apply change_recall.
Qed.

Lemma callback_ops_changes n w buf count results :
  rtc cb_change w (with_state w (callback_ops40 n (w_state w) buf count results).2).
Proof.
  revert w buf count results. induction n as [|n IH]; intros w buf count results; cbn [callback_ops40].
  { destruct w. apply rtc_refl. }
  pose proof (callback_op_changes w buf) as H1.
  destruct (callback_op (w_state w) buf) as [[[[status result] buf']|e|] s]; cbn in H1; try exact H1.
  destruct (negb (status =? 0)); [exact H1|]. etrans; [exact H1|].
  exact (IH (with_state w s) buf' (count + 1) (results ++ result)).
Qed.

Lemma handle_changes w call : rtc cb_change w (with_state w (handle_rpc_call (w_state w) call).2).
Proof.
  assert (Hsame : forall r : result bytes, rtc cb_change w (with_state w (r, w_state w).2))
    by (intros; destruct w; apply rtc_refl).
  unfold handle_rpc_call.
  repeat match goal with |- rtc _ _ (with_state _ (if ?c then _ else _).2) => destruct c; [apply Hsame|] end.
  destruct (cached_reply _ _ _); [apply Hsame|].
  repeat match goal with |- rtc _ _ (with_state _ (if ?c then _ else _).2) => destruct c; [apply Hsame|] end.
  destruct (decode_rpc_auth _) as [e|]; [|apply Hsame].
  repeat match goal with |- rtc _ _ (with_state _ (if ?c then _ else _).2) => destruct c; [apply Hsame|] end.
  assert (Hc : rtc cb_change w (with_state w (compound_reply (w_state w) (env_body e)).2)).
  { assert (Hsame' : forall r : result bytes, rtc cb_change w (with_state w (r, w_state w).2))
      by (intros; destruct w; apply rtc_refl).
    unfold compound_reply.
    repeat match goal with |- rtc _ _ (with_state _ (if ?c then _ else _).2) => destruct c; [apply Hsame|] end.
    match goal with |- context [callback_ops40 ?n ?s ?b ?c ?r] =>
      pose proof (callback_ops_changes n w b c r) as H; destruct (callback_ops40 n s b c r) as [[[[[]]]|e'|] s'] end;
      cbn in H; [destruct (_ && _)|..]; exact H. }
  destruct (compound_reply (w_state w) (env_body e)) as [[compound|e'|] s']; cbn in Hc; try exact Hc.
  cbn. destruct (successful_single_recall _ _); [|exact Hc]. etrans; [exact Hc|]. apply rtc_once.
  apply (change_cache (with_state w s')).
Qed.

(** The replay cache after a call. *)
Lemma recall_status_replies s g stateid t fh : cs_replies (recall_status s g stateid t fh).2 = cs_replies s.
Proof.
  unfold recall_status, try_send. by repeat (case_match; simplify_eq/=; try done).
Qed.
Lemma callback_ops_replies n s buf count results : cs_replies (callback_ops40 n s buf count results).2 = cs_replies s.
Proof.
  revert s buf count results. induction n as [|n IH]; intros s buf count results; cbn [callback_ops40]; [done|].
  assert (Hop : cs_replies (callback_op s buf).2 = cs_replies s).
  { unfold callback_op. destruct (take_word _ _) as [[op b]|e|]; [|done..]. destruct (op =? 3); [done|].
    destruct (op =? 4); [|done]. destruct (let* (_, _) := take_fixed _ _ _ in _) as [[[[stateid t] fh] b']|e|]; [|done..].
    pose proof (recall_status_replies s (cs_generation s) stateid t fh). by destruct (recall_status _ _ _ _ _). }
  destruct (callback_op s buf) as [[[[status result] buf']|e|] s']; cbn in Hop; try done.
  destruct (negb (status =? 0)); [done|]. by rewrite IH.
Qed.
Lemma compound_replies s body : cs_replies (compound_reply s body).2 = cs_replies s.
Proof.
  unfold compound_reply.
  repeat match goal with |- cs_replies (if ?c then _ else _).2 = _ => destruct c; [done|] end.
  match goal with |- context [callback_ops40 ?n ?s ?b ?c ?r] =>
    pose proof (callback_ops_replies n s b c r) as Hr; destruct (callback_ops40 n s b c r) as [[[[[]]]|e'|] s'] end;
    cbn in Hr; [destruct (_ && _)|..]; exact Hr.
Qed.

Definition call_xid (call : bytes) : Z := be_val (firstn 4 (skipn 0 call)).

Lemma handle_replies s call r s' : handle_rpc_call s call = (r, s') ->
  cs_replies s' = cs_replies s \/
  (cached_reply s (call_xid call) call = None /\
   exists reply, r = Ok reply /\ cs_replies s' = cs_replies (cache_reply s (call_xid call) call reply)).
Proof.
  unfold handle_rpc_call. change (be_val (firstn 4 (skipn (4 * 0) call))) with (call_xid call).
  assert (Hsame : forall r0 : result bytes, (r0, s) = (r, s') -> cs_replies s' = cs_replies s) by (by intros r0 [= _ <-]).
  repeat match goal with |- (if ?c then _ else _) = _ -> _ => destruct c; [intros; left; by eapply Hsame|] end.
  destruct (cached_reply s (call_xid call) call) eqn:Hc; [intros; left; by eapply Hsame|].
  repeat match goal with |- (if ?c then _ else _) = _ -> _ => destruct c; [intros; left; by eapply Hsame|] end.
  destruct (decode_rpc_auth _) as [e|]; [|intros; left; by eapply Hsame].
  repeat match goal with |- (if ?c then _ else _) = _ -> _ => destruct c; [intros; left; by eapply Hsame|] end.
  pose proof (compound_replies s (env_body e)) as Hr.
  destruct (compound_reply s (env_body e)) as [[compound|e'|] s1]; cbn in Hr; intros Heq; simplify_eq; try by left.
  destruct (successful_single_recall _ _); [|by left]. right. split; [done|]. eexists. split; [done|].
  cbn. by rewrite Hr.
Qed.

Lemma handle_cached s call reply :
  cached_reply s (call_xid call) call = Some reply -> 24 <= remaining call -> remaining call mod 4 = 0 ->
  handle_rpc_call s call = (Ok reply, s).
Proof.
  intros Hc H1 H2. unfold handle_rpc_call. destruct (Z.ltb_spec (remaining call) 24); [lia|].
  rewrite H2. cbn [orb negb Z.eqb]. change (be_val (firstn 4 (skipn (4 * 0) call))) with (call_xid call). by rewrite Hc.
Qed.

Definition same_call (xid : Z) (call : bytes) (r : ReplayEntry) : bool :=
  (re_xid r =? xid) && bool_decide (re_call r = call).

(** An entry of the cache with at most [k] younger ones. *)
Definition remembered (s : CallbackState) (call reply : bytes) (k : nat) : Prop :=
  exists pre post, cs_replies s = pre ++ {| re_xid := call_xid call; re_call := call; re_reply := reply |} :: post /\
    (length post <= k)%nat /\ (length (cs_replies s) <= CALLBACK_REPLAY_CACHE_SIZE)%nat /\
    Forall (fun r => same_call (call_xid call) call r = false) pre.

Lemma remembered_cached s call reply k :
  remembered s call reply k -> cached_reply s (call_xid call) call = Some reply.
Proof.
  intros (pre & post & Heq & _ & _ & Hpre). unfold cached_reply. rewrite Heq. clear Heq.
  induction Hpre as [|x pre Hx _ IH]; cbn [app List.find].
  - cbn. by rewrite Z.eqb_refl, bool_decide_eq_true_2.
  - fold (same_call (call_xid call) call x). by rewrite Hx.
Qed.

Lemma remembered_handle s call reply c k :
  remembered s call reply k -> (k < 127)%nat -> remembered (handle_rpc_call s c).2 call reply (S k).
Proof.
  intros (pre & post & Heq & Hk & Hlen & Hpre) Hlt. destruct (handle_rpc_call s c) as [r s'] eqn:Hh. cbn.
  destruct (handle_replies s c r s' Hh) as [Hr|(_ & rep & _ & Hr)].
  { exists pre, post. rewrite Hr. split_and!; [done|lia|done|done]. }
  unfold cache_reply, CALLBACK_REPLAY_CACHE_SIZE in *. cbn in Hr.
  set (new := {| re_xid := call_xid c; re_call := c; re_reply := rep |}) in *.
  rewrite Heq in *. rewrite length_app in *. cbn [length] in *.
  destruct (Nat.eqb_spec (length pre + S (length post)) 128) as [Hfull|Hroom].
  - destruct pre as [|x pre]; [cbn in Hfull; lia|]. apply Forall_cons in Hpre as [_ Hpre].
    exists pre, (post ++ [new]). rewrite Hr. cbn [tail app]. split_and!.
    + by rewrite <- app_assoc.
    + rewrite length_app. cbn. lia.
    + rewrite !length_app. cbn [length] in *. unfold CALLBACK_REPLAY_CACHE_SIZE. lia.
    + done.
  - exists pre, (post ++ [new]). rewrite Hr. split_and!.
    + by rewrite <- app_assoc.
    + rewrite length_app. cbn. lia.
    + rewrite !length_app. cbn. unfold CALLBACK_REPLAY_CACHE_SIZE. lia.
    + done.
Qed.

Lemma remembered_run calls s call reply k :
  remembered s call reply k -> (k + length calls <= 127)%nat ->
  remembered (foldl (fun s c => (handle_rpc_call s c).2) s calls) call reply (k + length calls).
Proof.
  revert s k. induction calls as [|c calls IH]; intros s k Hr Hk; cbn [foldl length] in *.
  { by rewrite Nat.add_0_r. }
  replace (k + S (length calls))%nat with (S k + length calls)%nat by lia.
  apply IH; [|lia]. apply remembered_handle; [done|lia].
Qed.

(** A retransmitted recall is answered from the cache. When a call was
    executed and its reply cached, every retransmission of it gets the same reply
    and changes nothing, also after up to 127 other calls of any kind. *)
Theorem retransmitted_recall_replayed s call reply s' calls :
  (length (cs_replies s) <= CALLBACK_REPLAY_CACHE_SIZE)%nat ->
  handle_rpc_call s call = (Ok reply, s') -> cached_reply s (call_xid call) call = None ->
  cached_reply s' (call_xid call) call = Some reply -> (length calls <= 127)%nat ->
  let s'' := foldl (fun s c => (handle_rpc_call s c).2) s' calls in
  handle_rpc_call s'' call = (Ok reply, s'').
Proof.
  intros Hlen Hh Hnone Hsome Hcalls s''.
  assert (Hlong : 24 <= remaining call /\ remaining call mod 4 = 0).
  { unfold handle_rpc_call in Hh. destruct (Z.ltb_spec (remaining call) 24); [done|].
    destruct (Z.eqb_spec (remaining call mod 4) 0); [lia|done]. }
  assert (Hpre : Forall (fun r => same_call (call_xid call) call r = false) (cs_replies s)).
  { apply Forall_forall. intros x Hx. unfold cached_reply in Hnone.
    destruct (List.find _ (cs_replies s)) eqn:Hf; [done|].
    apply (List.find_none _ _ Hf). by apply list_elem_of_In. }
  apply handle_cached; [|apply Hlong|apply Hlong].
  apply (remembered_cached _ _ _ (0 + length calls)). apply remembered_run; [|lia].
  destruct (handle_replies s call _ s' Hh) as [Hr|(_ & rep & [= <-] & Hr)].
  { unfold cached_reply in *. rewrite Hr in Hsome. by rewrite Hnone in Hsome. }
  unfold cache_reply, CALLBACK_REPLAY_CACHE_SIZE in *. cbn in Hr.
  exists (if Nat.eqb (length (cs_replies s)) 128 then tail (cs_replies s) else cs_replies s), [].
  rewrite Hr. split_and!; [done|cbn; lia| |].
  - rewrite length_app. cbn. unfold CALLBACK_REPLAY_CACHE_SIZE.
    destruct (Nat.eqb_spec (length (cs_replies s)) 128); destruct (cs_replies s); cbn in *; lia.
  - destruct (Nat.eqb _ _); [|done]. destruct (cs_replies s); [done|]. by apply Forall_cons in Hpre as [_ ?].
Qed.

Definition demo_state : CallbackState :=
  register_delegation callback_state_new [x01]
    {| V40.dg_kind := V40.DelegWrite; V40.dg_stateid := zeros 16; V40.dg_recall := false |} 3 None.
Definition demo_call : bytes :=
  words [9; 0; 2; 0x40000000; 1; 1; 0; 0; 0; 0; 0; 0; 1; 1; 4] ++ zeros 16 ++ words [0; 1] ++ [x01; x00; x00; x00].
Definition demo_answer : bytes := words [9; 1; 0; 0; 0; 0; 0; 0; 1; 4; 0].

Lemma retransmitted_recall_replayed_witness :
  let s' := (handle_rpc_call demo_state demo_call).2 in
  let s'' := foldl (fun s c => (handle_rpc_call s c).2) s' [words [1; 0; 2; 0x40000000; 1; 0; 0; 0; 0; 0]] in
  cs_recalls_received s' = 1 /\ handle_rpc_call s'' demo_call = (Ok demo_answer, s'').
Proof.
  intros s' s''. split; [vm_compute; reflexivity|].
  apply (retransmitted_recall_replayed demo_state demo_call demo_answer s'
           [words [1; 0; 2; 0x40000000; 1; 0; 0; 0; 0; 0]]);
    [apply Nat.leb_le; vm_compute; reflexivity|vm_compute; reflexivity|vm_compute; reflexivity|vm_compute; reflexivity
    |apply Nat.leb_le; vm_compute; reflexivity].
Defined.

(** *** Malformed input *)

Lemma take_word_wp buf field (Q : Z * bytes -> Prop) :
  (forall v rest, Q (v, rest)) -> wpo (take_word buf field) Q.
Proof. intros HQ. unfold take_word. destruct (_ <? _); [done|apply HQ]. Qed.

Lemma callback_op_no_panic s buf : (callback_op s buf).1 <> Panic.
Proof.
  unfold callback_op. destruct (take_word buf _) as [[op b]|e|] eqn:Ht; [|done|].
  2: { unfold take_word in Ht. by destruct (_ <? _). }
  destruct (op =? 3).
  - apply (wpo_no_panic _ (fun _ => True)). unfold cb_take_opaque. cbn [fst].
    apply wpo_bind, wpo_bind, take_word_wp. intros len b1. apply wpo_if; [done|]. intros _. apply wpo_if; [done|].
    intros _. cbn [wpo]. apply wpo_bind, take_word_wp. intros n b2. apply wpo_if; [done|]. intros _.
    apply wpo_bind, (wpo_for_count n requested_word (fun _ => True)); [done| |].
    + intros [r b3] _. unfold requested_word. apply wpo_bind, take_word_wp. done.
    + intros [r b3] _. by destruct (getattr_result _ _ _).
  - destruct (op =? 4); [|done].
    assert (Hp : wpo (let* (stateid, buf) := take_fixed b 16 "CB_RECALL stateid" in
                  let* (truncate, buf) := take_word buf "CB_RECALL truncate" in
                  let* (fh, buf) := cb_take_opaque buf "CB_RECALL filehandle" in
                  Ok (stateid, negb (truncate =? 0), fh, buf)) (fun _ => True)).
    { unfold take_fixed, cb_take_opaque. apply wpo_bind, wpo_if; [done|]. intros _. cbn [wpo].
      apply wpo_bind, take_word_wp. intros t b1. apply wpo_bind, wpo_bind, take_word_wp. intros n b2.
      apply wpo_if; [done|]. intros _. by apply wpo_if. }
    destruct (let* (_, _) := take_fixed _ _ _ in _) as [[[[? ?] ?] ?]|e|]; [|done|done].
    by destruct (recall_status _ _ _ _ _).
Qed.

Lemma callback_ops_no_panic n s buf count results : (callback_ops40 n s buf count results).1 <> Panic.
Proof.
  revert s buf count results. induction n as [|n IH]; intros s buf count results; cbn [callback_ops40]; [done|].
  pose proof (callback_op_no_panic s buf). destruct (callback_op s buf) as [[[[st r] b]|e|] s']; [|done|done].
  destruct (negb _); [done|apply IH].
Qed.

Lemma compound_no_panic s body : (compound_reply s body).1 <> Panic.
Proof.
  unfold compound_reply.
  repeat match goal with |- (if ?c then _ else _).1 <> _ => destruct c; [done|] end.
  match goal with |- context [callback_ops40 ?n ?s ?b ?c ?r] =>
    pose proof (callback_ops_no_panic n s b c r); destruct (callback_ops40 n s b c r) as [[[[[]]]|?|] ?] end; try done.
  by destruct (_ && _).
Qed.

Lemma handle_no_panic s call : (handle_rpc_call s call).1 <> Panic.
Proof.
  unfold handle_rpc_call.
  repeat match goal with |- (if ?c then _ else _).1 <> _ => destruct c; [done|] end.
  destruct (cached_reply _ _ _); [done|].
  repeat match goal with |- (if ?c then _ else _).1 <> _ => destruct c; [done|] end.
  destruct (decode_rpc_auth _) as [e|]; [|done].
  repeat match goal with |- (if ?c then _ else _).1 <> _ => destruct c; [done|] end.
  pose proof (compound_no_panic s (env_body e)). by destruct (compound_reply s (env_body e)) as [[|?|] ?].
Qed.

Lemma read_record_wp fuel stream record :
  (length stream < fuel)%nat ->
  wpo (read_record fuel stream record)
    (fun o => match o with Some (_, rest) => (length rest < length stream)%nat | None => True end).
Proof.
  revert stream record. induction fuel as [|fuel IH]; intros stream record Hf; [lia|]. cbn [read_record].
  destruct (Z.ltb_spec (remaining stream) 4) as [|H4]; [by case_bool_decide|].
  assert (Hs : (length (skipn 4 stream) < length stream)%nat) by (rewrite length_skipn; unfold remaining in H4; lia).
  apply wpo_if; [done|]. intros _. apply wpo_if; [done|]. intros _. apply wpo_if; intros _.
  - cbn [wpo]. rewrite length_skipn. lia.
  - eapply wpo_mono; [apply IH; rewrite length_skipn; lia|]. intros [[r rest]|]; [|done].
    rewrite length_skipn. lia.
Qed.

(** Whatever a peer sends on a callback connection, the service goes through
    it without a panic and ends: record by record, every call that has a complete
    header of type CALL is answered. *)
Theorem callback_connection_total s stream out call :
  (serve_connection (S (length stream)) s stream out).1 <> Panic /\
  (24 <= remaining call -> remaining call mod 4 = 0 -> be_val (firstn 4 (skipn 4 call)) = 0 ->
   exists reply, (handle_rpc_call s call).1 = Ok reply).
Proof.
  split.
  - assert (Hgen : forall fuel s stream out, (length stream < fuel)%nat -> (serve_connection fuel s stream out).1 <> Panic).
    { clear. intros fuel. induction fuel as [|fuel IH]; intros s stream out Hf; [lia|]. cbn [serve_connection].
      pose proof (read_record_wp (S (length stream)) stream [] ltac:(lia)) as Hr.
      destruct (read_record _ _ _) as [[[call rest]|]|e|]; [|done..].
      cbn in Hr. pose proof (handle_no_panic s call). destruct (handle_rpc_call s call) as [[reply|e|] s']; [|done|done].
      apply IH. lia. }
    apply Hgen. lia.
  - intros H1 H2 H3. pose proof (handle_no_panic s call) as Hp. unfold handle_rpc_call in *.
    destruct (Z.ltb_spec (remaining call) 24); [lia|]. rewrite H2 in *.
    change (skipn (4 * 1) call) with (skipn 4 call) in *. rewrite H3 in *. cbn [orb negb Z.eqb] in *.
    repeat match goal with
    | |- exists r, (Ok _, _).1 = _ => by eexists
    | |- exists r, (if ?c then _ else _).1 = _ => destruct c
    | |- exists r, (match ?c with _ => _ end).1 = _ => destruct c
    | |- exists r, (let '(_, _) := ?c in _).1 = _ => destruct c
    end; done.
Qed.
