(* ===== verification/Mux.v ===== *)
(** * The connection multiplexer

    Models [StreamMux] of [src/src/rpc/mod.rs]: many requests share one
    connection; a reader task hands each reply to the request that waits for its
    transaction id; a lost connection fails the waiting requests and is replaced
    by [reconnect], during which new requests wait; [shutdown] ends it all.

    Requests, readers, the reconnection and the shutdown interleave at every
    access to a shared cell. What the network does is chosen by the steps. The
    writer's lock is held over the steps of [reconnect] and [shutdown] that the
    code makes under it; a request writes its frame in one step. A request may
    give up (time out or be dropped) wherever it waits, and [reconnect] may be
    dropped where it awaits; [shutdown] is not dropped. Transaction ids are not
    reused. Locks are not poisoned. *)
From S2P Require Import Prelude Errors Rpc.
From stdpp Require Import base list numbers gmap relations.
#[local] Open Scope Z_scope.

Definition CONNECTION_READY : Z := 0.
Definition CONNECTION_REBINDING : Z := 1.
Definition CONNECTION_FAILED : Z := 2.

(** ** State *)

(** A request in [send_and_receive_inner]. [QArm] has made its [Notified] and
    [QSleep] awaits it; both know whether it was notified since. [QWait] awaits
    the reply on the connection it wrote to. *)
Inductive qphase : Type :=
| QReady
| QArm (woken : bool)
| QSleep (woken : bool)
| QInsert
| QWrite
| QWait (conn : nat)
| QDone.
Record request : Type := { rq_bypass : bool; rq_phase : qphase }.

(** A reader of a connection: [RPublished] has raised [failed_generation] and has
    still to fail the waiting requests, [RDrained] has done so; [RSilent] was
    stopped by [abort]. *)
Inductive rphase : Type := RRunning | RPublished | RDrained | RSilent.
Record reader : Type := { rd_generation : Z; rd_phase : rphase; rd_aborted : bool }.

(** [reconnect(f)], from the time it has [reconnect_lock]. *)
Inductive rc_phase : Type :=
| RcIdle
| RcLocked (f : Z)
| RcConnecting (f : Z)
| RcWriter (f : Z)
| RcChecked (f : Z)
| RcRebinding (f : Z)
| RcAborted (f : Z)
| RcDrained (f : Z)
| RcInstalled (f : Z)
| RcStored
| RcNotify.

Inductive sh_phase : Type := ShIdle | ShFlag | ShAborted | ShLocked | ShDone.

Record StreamMux : Type := {
  mx_generation : Z;
  mx_failed : Z;
  mx_readiness : Z;
  mx_shutdown : bool;
  mx_pending : gset Z;
  mx_readers : list reader;
  mx_handle : option nat;
  mx_closed : bool;
  mx_rc : rc_phase;
  mx_sh : sh_phase;
  mx_requests : gmap Z request;
}.

(** [connect]: the first connection and its reader. *)
Definition mux_connect : StreamMux :=
  {| mx_generation := 0; mx_failed := 0; mx_readiness := CONNECTION_READY; mx_shutdown := false;
     mx_pending := ∅; mx_readers := [{| rd_generation := 0; rd_phase := RRunning; rd_aborted := false |}];
     mx_handle := Some 0%nat; mx_closed := false; mx_rc := RcIdle; mx_sh := ShIdle; mx_requests := ∅ |}.

(** The connection that is installed is the last one. *)
Definition mx_conn (m : StreamMux) : nat := pred (length (mx_readers m)).

Definition set_requests (m : StreamMux) (pending : gset Z) (rs : gmap Z request) : StreamMux :=
  {| mx_generation := mx_generation m; mx_failed := mx_failed m; mx_readiness := mx_readiness m;
     mx_shutdown := mx_shutdown m; mx_pending := pending; mx_readers := mx_readers m; mx_handle := mx_handle m;
     mx_closed := mx_closed m; mx_rc := mx_rc m; mx_sh := mx_sh m; mx_requests := rs |}.
Definition set_readers (m : StreamMux) (failed : Z) (pending : gset Z) (rs : list reader) : StreamMux :=
  {| mx_generation := mx_generation m; mx_failed := failed; mx_readiness := mx_readiness m;
     mx_shutdown := mx_shutdown m; mx_pending := pending; mx_readers := rs; mx_handle := mx_handle m;
     mx_closed := mx_closed m; mx_rc := mx_rc m; mx_sh := mx_sh m; mx_requests := mx_requests m |}.
Definition set_rc (m : StreamMux) (p : rc_phase) : StreamMux :=
  {| mx_generation := mx_generation m; mx_failed := mx_failed m; mx_readiness := mx_readiness m;
     mx_shutdown := mx_shutdown m; mx_pending := mx_pending m; mx_readers := mx_readers m; mx_handle := mx_handle m;
     mx_closed := mx_closed m; mx_rc := p; mx_sh := mx_sh m; mx_requests := mx_requests m |}.
Definition set_readiness (m : StreamMux) (r : Z) (p : rc_phase) : StreamMux :=
  {| mx_generation := mx_generation m; mx_failed := mx_failed m; mx_readiness := r;
     mx_shutdown := mx_shutdown m; mx_pending := mx_pending m; mx_readers := mx_readers m; mx_handle := mx_handle m;
     mx_closed := mx_closed m; mx_rc := p; mx_sh := mx_sh m; mx_requests := mx_requests m |}.

Definition with_phase (r : request) (p : qphase) : request := {| rq_bypass := rq_bypass r; rq_phase := p |}.
Definition set_phase (m : StreamMux) (xid : Z) (r : request) (p : qphase) : StreamMux :=
  set_requests m (mx_pending m) (<[xid := with_phase r p]> (mx_requests m)).

(** Whether the writer's lock is held by [reconnect] or [shutdown]. *)
Definition writer_held (m : StreamMux) : bool :=
  match mx_rc m with
  | RcChecked _ | RcRebinding _ | RcAborted _ | RcDrained _ => true
  | _ => match mx_sh m with ShLocked => true | _ => false end
  end.

(** [notify_waiters]: every [Notified] that exists. *)
Definition wake (r : request) : request :=
  with_phase r (match rq_phase r with QArm _ => QArm true | QSleep _ => QSleep true | p => p end).

(** [JoinHandle::abort] of the reader whose handle is kept. *)
Definition abort_reader (r : reader) : reader :=
  {| rd_generation := rd_generation r; rd_phase := rd_phase r; rd_aborted := true |}.
Definition abort_handle (m : StreamMux) : list reader :=
  match mx_handle m with
  | Some j => alter abort_reader j (mx_readers m)
  | None => mx_readers m
  end.
Definition with_rphase (r : reader) (p : rphase) : reader :=
  {| rd_generation := rd_generation r; rd_phase := p; rd_aborted := rd_aborted r |}.

(** The check under the lock of the pending map. *)
Definition reader_has_stopped (m : StreamMux) : bool := mx_generation m <? mx_failed m.

(** ** Steps *)

(** Requests: [wait_until_ready], the insertion, the write, the reply. *)
Inductive request_step (m : StreamMux) : StreamMux -> Prop :=
| q_start xid bypass : mx_requests m !! xid = None ->
    request_step m (set_requests m (mx_pending m)
      (<[xid := {| rq_bypass := bypass; rq_phase := if (bypass : bool) then QInsert else QReady |}]> (mx_requests m)))
| q_ready xid r : mx_requests m !! xid = Some r -> rq_phase r = QReady ->
    request_step m (set_phase m xid r
      (if mx_readiness m =? CONNECTION_READY then QInsert
       else if mx_readiness m =? CONNECTION_FAILED then QDone else QArm false))
| q_arm xid r woken : mx_requests m !! xid = Some r -> rq_phase r = QArm woken ->
    request_step m (set_phase m xid r
      (if mx_readiness m =? CONNECTION_REBINDING then QSleep woken else QReady))
| q_wake xid r : mx_requests m !! xid = Some r -> rq_phase r = QSleep true ->
    request_step m (set_phase m xid r QReady)
| q_reject xid r : mx_requests m !! xid = Some r -> rq_phase r = QInsert ->
    rq_bypass r = false -> reader_has_stopped m = true -> request_step m (set_phase m xid r QDone)
| q_insert xid r : mx_requests m !! xid = Some r -> rq_phase r = QInsert ->
    rq_bypass r = true \/ reader_has_stopped m = false ->
    request_step m (set_requests m ({[xid]} ∪ mx_pending m) (<[xid := with_phase r QWrite]> (mx_requests m)))
| q_write xid r : mx_requests m !! xid = Some r -> rq_phase r = QWrite -> writer_held m = false ->
    mx_closed m = false -> request_step m (set_phase m xid r (QWait (mx_conn m)))
| q_answer xid r c : mx_requests m !! xid = Some r -> rq_phase r = QWait c -> xid ∉ mx_pending m ->
    request_step m (set_phase m xid r QDone)
(** A failed write, a timeout or a dropped caller; the guard forgets the id. *)
| q_give_up xid r : mx_requests m !! xid = Some r ->
    request_step m (set_requests m (mx_pending m ∖ {[xid]}) (<[xid := with_phase r QDone]> (mx_requests m))).

(** [reader_loop]: a reply, the end of the connection, and an abort, which takes
    effect where the reader awaits. *)
Inductive reader_step (m : StreamMux) : StreamMux -> Prop :=
| r_deliver j r xid : mx_readers m !! j = Some r -> rd_phase r = RRunning ->
    reader_step m (set_readers m (mx_failed m) (mx_pending m ∖ {[xid]}) (mx_readers m))
| r_publish j r : mx_readers m !! j = Some r -> rd_phase r = RRunning ->
    reader_step m (set_readers m (Z.max (mx_failed m) (sat_add64 (rd_generation r) 1)) (mx_pending m)
      (<[j := with_rphase r RPublished]> (mx_readers m)))
| r_drain j r : mx_readers m !! j = Some r -> rd_phase r = RPublished ->
    reader_step m (set_readers m (mx_failed m) ∅ (<[j := with_rphase r RDrained]> (mx_readers m)))
| r_stop j r : mx_readers m !! j = Some r -> rd_phase r = RRunning -> rd_aborted r = true ->
    reader_step m (set_readers m (mx_failed m) (mx_pending m) (<[j := with_rphase r RSilent]> (mx_readers m))).

(** [reconnect]; [f] is the generation its caller saw fail. The handler runs in
    [RcInstalled]; dropping the guard publishes the failure. *)
Inductive reconnect_step (m : StreamMux) : StreamMux -> Prop :=
| rc_lock f : mx_rc m = RcIdle -> f <= mx_generation m -> reconnect_step m (set_rc m (RcLocked f))
| rc_fast f : mx_rc m = RcLocked f ->
    reconnect_step m (set_rc m (if f <? mx_generation m then RcIdle else RcConnecting f))
| rc_connected f : mx_rc m = RcConnecting f -> reconnect_step m (set_rc m (RcWriter f))
| rc_dropped f : mx_rc m = RcConnecting f \/ mx_rc m = RcWriter f -> reconnect_step m (set_rc m RcIdle)
| rc_check f : mx_rc m = RcWriter f -> mx_sh m <> ShLocked ->
    reconnect_step m (set_rc m (if f <? mx_generation m then RcIdle
                                else if mx_shutdown m then RcIdle else RcChecked f))
| rc_rebinding f : mx_rc m = RcChecked f ->
    reconnect_step m (set_readiness m CONNECTION_REBINDING (RcRebinding f))
| rc_abort f : mx_rc m = RcRebinding f ->
    reconnect_step m
      {| mx_generation := mx_generation m; mx_failed := mx_failed m; mx_readiness := mx_readiness m;
         mx_shutdown := mx_shutdown m; mx_pending := mx_pending m; mx_readers := abort_handle m; mx_handle := None;
         mx_closed := mx_closed m; mx_rc := RcAborted f; mx_sh := mx_sh m; mx_requests := mx_requests m |}
| rc_drain f : mx_rc m = RcAborted f ->
    reconnect_step m (set_rc (set_requests m ∅ (mx_requests m)) (RcDrained f))
| rc_install f : mx_rc m = RcDrained f ->
    reconnect_step m
      {| mx_generation := mx_generation m; mx_failed := mx_failed m; mx_readiness := mx_readiness m;
         mx_shutdown := mx_shutdown m; mx_pending := mx_pending m;
         mx_readers := mx_readers m ++ [{| rd_generation := sat_add64 f 1; rd_phase := RRunning; rd_aborted := false |}];
         mx_handle := Some (length (mx_readers m)); mx_closed := false; mx_rc := RcInstalled f;
         mx_sh := mx_sh m; mx_requests := mx_requests m |}
| rc_handler_failed f : mx_rc m = RcInstalled f -> reconnect_step m (set_readiness m CONNECTION_FAILED RcNotify)
| rc_store f : mx_rc m = RcInstalled f ->
    reconnect_step m
      {| mx_generation := sat_add64 f 1; mx_failed := mx_failed m; mx_readiness := mx_readiness m;
         mx_shutdown := mx_shutdown m; mx_pending := mx_pending m; mx_readers := mx_readers m;
         mx_handle := mx_handle m; mx_closed := mx_closed m; mx_rc := RcStored;
         mx_sh := mx_sh m; mx_requests := mx_requests m |}
| rc_publish : mx_rc m = RcStored -> reconnect_step m (set_readiness m CONNECTION_READY RcNotify)
| rc_notify : mx_rc m = RcNotify ->
    reconnect_step m (set_rc (set_requests m (mx_pending m) (wake <$> mx_requests m)) RcIdle).

Inductive shutdown_step (m : StreamMux) : StreamMux -> Prop :=
| sh_flag : mx_sh m = ShIdle ->
    shutdown_step m
      {| mx_generation := mx_generation m; mx_failed := mx_failed m; mx_readiness := mx_readiness m;
         mx_shutdown := true; mx_pending := mx_pending m; mx_readers := mx_readers m; mx_handle := mx_handle m;
         mx_closed := mx_closed m; mx_rc := mx_rc m; mx_sh := ShFlag; mx_requests := mx_requests m |}
| sh_abort : mx_sh m = ShFlag ->
    shutdown_step m
      {| mx_generation := mx_generation m; mx_failed := mx_failed m; mx_readiness := mx_readiness m;
         mx_shutdown := mx_shutdown m; mx_pending := mx_pending m; mx_readers := abort_handle m; mx_handle := None;
         mx_closed := mx_closed m; mx_rc := mx_rc m; mx_sh := ShAborted; mx_requests := mx_requests m |}
| sh_lock : mx_sh m = ShAborted -> writer_held m = false ->
    shutdown_step m
      {| mx_generation := mx_generation m; mx_failed := mx_failed m; mx_readiness := mx_readiness m;
         mx_shutdown := mx_shutdown m; mx_pending := mx_pending m; mx_readers := mx_readers m; mx_handle := mx_handle m;
         mx_closed := true; mx_rc := mx_rc m; mx_sh := ShLocked; mx_requests := mx_requests m |}
| sh_drain : mx_sh m = ShLocked ->
    shutdown_step m
      {| mx_generation := mx_generation m; mx_failed := mx_failed m; mx_readiness := mx_readiness m;
         mx_shutdown := mx_shutdown m; mx_pending := ∅; mx_readers := mx_readers m; mx_handle := mx_handle m;
         mx_closed := mx_closed m; mx_rc := mx_rc m; mx_sh := ShDone; mx_requests := mx_requests m |}.

Inductive mux_step : StreamMux -> StreamMux -> Prop :=
| step_request m m' : request_step m m' -> mux_step m m'
| step_reader m m' : reader_step m m' -> mux_step m m'
| step_reconnect m m' : reconnect_step m m' -> mux_step m m'
| step_shutdown m m' : shutdown_step m m' -> mux_step m m'.

(** ** Properties *)

Definition rc_holds (p : rc_phase) : bool :=
  match p with RcChecked _ | RcRebinding _ | RcAborted _ | RcDrained _ => true | _ => false end.
Definition rc_rebinds (p : rc_phase) : bool :=
  match p with RcRebinding _ | RcAborted _ | RcDrained _ | RcInstalled _ | RcStored => true | _ => false end.
(** A drain of the pending map that is still to come. *)
Definition rc_drain_due (p : rc_phase) : bool := match p with RcAborted _ => true | _ => false end.
Definition sh_drain_due (p : sh_phase) : bool := match p with ShAborted | ShLocked => true | _ => false end.

Definition current (m : StreamMux) (r : reader) : Prop := mx_readers m !! mx_conn m = Some r.
Definition waits (m : StreamMux) (xid : Z) (r : request) (c : nat) : Prop :=
  mx_requests m !! xid = Some r /\ rq_phase r = QWait c /\ xid ∈ mx_pending m.
Definition sent_or_sending (p : qphase) : bool := match p with QWrite | QWait _ => true | _ => false end.

Record mux_inv (m : StreamMux) : Prop := {
  mi_some : mx_readers m <> [];
  mi_gen : 0 <= mx_generation m <= u64_max;
  mi_handle : forall j, mx_handle m = Some j -> j = mx_conn m;
  mi_current : forall r, current m r -> mx_generation m <= rd_generation r <= u64_max /\
    (rd_phase r = RPublished \/ rd_phase r = RDrained -> sat_add64 (rd_generation r) 1 <= mx_failed m) /\
    (rd_phase r = RSilent -> rd_aborted r = true) /\
    (rd_aborted r = true -> (exists f, mx_rc m = RcAborted f \/ mx_rc m = RcDrained f) \/
       mx_sh m = ShAborted \/ mx_sh m = ShLocked \/ mx_sh m = ShDone);
  mi_rc : match mx_rc m with
          | RcLocked f | RcConnecting f | RcWriter f => f <= mx_generation m
          | RcChecked f | RcRebinding f | RcAborted f | RcDrained f => f = mx_generation m
          | RcInstalled f => f = mx_generation m /\ forall r, current m r -> rd_generation r = sat_add64 f 1
          | _ => True
          end;
  mi_sh : match mx_sh m with
          | ShIdle => mx_closed m = false
          | ShFlag | ShAborted => mx_shutdown m = true /\ mx_closed m = false
          | ShLocked | ShDone => mx_shutdown m = true /\ mx_closed m = true /\ rc_holds (mx_rc m) = false
          end;
  mi_wait : forall xid r c, waits m xid r c ->
    c = mx_conn m /\ mx_sh m <> ShDone /\ (forall f, mx_rc m <> RcDrained f);
  mi_drained : mx_generation m < u64_max -> forall xid r cur, mx_requests m !! xid = Some r ->
    rq_bypass r = false -> sent_or_sending (rq_phase r) = true -> xid ∈ mx_pending m -> current m cur ->
    rd_phase cur <> RDrained;
  mi_sleep : forall xid r, mx_requests m !! xid = Some r -> rq_phase r = QSleep false ->
    mx_readiness m = CONNECTION_REBINDING \/ mx_rc m = RcNotify;
  mi_rebind : mx_readiness m = CONNECTION_REBINDING -> rc_rebinds (mx_rc m) = true;
}.

Lemma mux_connect_inv : mux_inv mux_connect.
Proof.
  constructor; try done.
  - by intros j [= <-].
  - intros r [= <-]. split; [done|]. split_and!; try done. by intros [].
  - intros xid r c (H & _). cbn in H. by rewrite lookup_empty in H.
Qed.

(** One request moves to another phase; only its own id may enter the map. *)
Lemma request_moves m P xid r p :
  mux_inv m -> (forall x, x <> xid -> x ∈ P -> x ∈ mx_pending m) ->
  (forall c, p = QWait c -> xid ∈ P -> c = mx_conn m /\ mx_sh m <> ShDone /\ forall f, mx_rc m <> RcDrained f) ->
  (mx_generation m < u64_max -> rq_bypass r = false -> sent_or_sending p = true -> xid ∈ P ->
     forall cur, current m cur -> rd_phase cur <> RDrained) ->
  (p = QSleep false -> mx_readiness m = CONNECTION_REBINDING) ->
  mux_inv (set_requests m P (<[xid := with_phase r p]> (mx_requests m))).
Proof.
  intros [] HP Hw Hd Hs. constructor; try done.
  - intros x q c (Hx & Hq & Hp). cbn in *. apply lookup_insert_Some in Hx as [[<- <-]|[Hne Hx]]; [by apply Hw|].
    apply (mi_wait0 x q c). split_and!; [done|done|]. by apply HP.
  - intros Hg x q cur Hx. cbn in *. apply lookup_insert_Some in Hx as [[<- <-]|[Hne Hx]]; [by intros; eapply Hd|].
    intros. eapply mi_drained0; try done. by apply HP.
  - intros x q Hx Hq. cbn in *. apply lookup_insert_Some in Hx as [[<- <-]|[Hne Hx]]; [left; by apply Hs|by eapply mi_sleep0].
Qed.

Lemma request_step_inv m m' : request_step m m' -> mux_inv m -> mux_inv m'.
Proof.
  intros Hs Hi. destruct Hs as [xid b Hn|xid r Hr Hp|xid r w Hr Hp|xid r Hr Hp|xid r Hr Hp Hb Hst|xid r Hr Hp Hb|
      xid r Hr Hp Hw Hc|xid r c Hr Hp Hx|xid r Hr].
  - change {| rq_bypass := b; rq_phase := if b then QInsert else QReady |}
      with (with_phase {| rq_bypass := b; rq_phase := QReady |} (if b then QInsert else QReady)).
    apply request_moves; try done; by destruct b.
  - apply request_moves; try done; destruct (_ =? _); try done; by destruct (_ =? _).
  - apply request_moves; try done; destruct (Z.eqb_spec (mx_readiness m) CONNECTION_REBINDING); done.
  - by apply request_moves.
  - by apply request_moves.
  - apply request_moves; try done; [set_solver|]. intros Hg Hb' _ _ cur Hcur Hd.
    destruct Hb as [?|Hst]; [congruence|]. unfold reader_has_stopped in Hst. apply Z.ltb_ge in Hst.
    destruct (mi_current m Hi cur Hcur) as ([H1 H1'] & H2 & _). specialize (H2 (or_intror Hd)).
    unfold sat_add64 in H2. lia.
  - apply request_moves; try done.
    + intros c [= <-] Hx. unfold writer_held in Hw. pose proof (mi_sh m Hi) as Hsh. split_and!; [done| |].
      * intros Hd. rewrite Hd in Hsh. destruct Hsh as (_ & Hcl & _). congruence.
      * intros f Hf. by rewrite Hf in Hw.
    + intros Hg Hb _ Hx cur Hcur. eapply (mi_drained m Hi); try done. by rewrite Hp.
  - by apply request_moves.
  - apply request_moves; try done. set_solver.
Qed.

(** Readers change, requests do not; the map only shrinks. *)
Lemma readers_move m failed P rs :
  mux_inv m -> P ⊆ mx_pending m -> length rs = length (mx_readers m) -> mx_failed m <= failed ->
  (forall r, rs !! mx_conn m = Some r -> exists r0, current m r0 /\ rd_generation r = rd_generation r0 /\
     rd_aborted r = rd_aborted r0 /\
     (rd_phase r = RPublished \/ rd_phase r = RDrained -> rd_phase r = rd_phase r0 \/ sat_add64 (rd_generation r) 1 <= failed) /\
     (rd_phase r = RSilent -> rd_aborted r = true) /\
     (rd_phase r = RDrained -> rd_phase r0 = RDrained \/ P = ∅)) ->
  mux_inv (set_readers m failed P rs).
Proof.
  intros Hi HP Hlen Hf Hcur. assert (Hconn : mx_conn (set_readers m failed P rs) = mx_conn m)
    by (unfold mx_conn; cbn; by rewrite Hlen).
  assert (Hc : forall r, current (set_readers m failed P rs) r -> rs !! mx_conn m = Some r).
  { intros r Hr. unfold current in Hr. by rewrite Hconn in Hr. }
  destruct Hi. constructor; try done.
  - cbn. intros ->. destruct (mx_readers m); [done|done].
  - intros j Hj. rewrite Hconn. by apply mi_handle0.
  - intros r Hr%Hc%Hcur. destruct Hr as (r0 & H0 & Hg & Ha & Hph & Hsil & _).
    destruct (mi_current0 r0 H0) as (H1 & H2 & H3 & H4). rewrite Hg, Ha. split_and!; try done.
    + apply H1.
    + apply H1.
    + intros Hp. destruct (Hph Hp) as [He|He]; [|by rewrite Hg in He]. cbn. rewrite He in Hp. specialize (H2 Hp). lia.
    + intros Hs. rewrite <- Ha. by apply Hsil.
  - cbn. destruct (mx_rc m); try done. destruct mi_rc0 as [H1 H2]. split; [done|].
    intros r Hr%Hc%Hcur. destruct Hr as (r0 & H0 & Hg & _). rewrite Hg. by apply H2.
  - intros xid r c (Hx & Hq & Hp). rewrite Hconn. apply (mi_wait0 xid r c). split_and!; [done|done|]. by apply HP.
  - intros Hg xid r cur Hx Hb Hph Hp Hr%Hc%Hcur Hd. destruct Hr as (r0 & H0 & _ & _ & _ & _ & Hdr).
    destruct (Hdr Hd) as [H|H]; [|cbn in Hp; rewrite H in Hp; set_solver].
    eapply (mi_drained0 Hg xid r r0); try done. by apply HP.
Qed.

Lemma reader_step_inv m m' : reader_step m m' -> mux_inv m -> mux_inv m'.
Proof.
  assert (Hins : forall j r r' x, mx_readers m !! j = Some r -> <[j := r']> (mx_readers m) !! mx_conn m = Some x ->
    (j = mx_conn m /\ x = r' /\ current m r) \/ current m x).
  { intros j r r' x Hj Hx. apply list_lookup_insert_Some in Hx as [(-> & -> & _)|[_ Hx]]; [by left|by right]. }
  intros Hs Hi. destruct Hs as [j r xid Hj Hp|j r Hj Hp|j r Hj Hp|j r Hj Hp Ha].
  - apply readers_move; try done; [set_solver|]. intros x Hx. exists x. destruct (mi_current m Hi x Hx) as (_ & _ & H3 & _).
    split_and!; auto.
  - apply readers_move; try done; [by rewrite length_insert|lia|]. intros x Hx.
    destruct (Hins j r _ x Hj Hx) as [(-> & -> & Hc)|Hc].
    + exists r. split_and!; try done. intros _. right. cbn. lia.
    + exists x. destruct (mi_current m Hi x Hc) as (_ & _ & H3 & _). split_and!; auto.
  - apply readers_move; try done; [by rewrite length_insert|]. intros x Hx.
    destruct (Hins j r _ x Hj Hx) as [(-> & -> & Hc)|Hc].
    + exists r. destruct (mi_current m Hi r Hc) as (_ & H2 & _). split_and!; try done; [|by right]. intros _. right. cbn. apply H2. by left.
    + exists x. destruct (mi_current m Hi x Hc) as (_ & _ & H3 & _). split_and!; auto.
  - apply readers_move; try done; [by rewrite length_insert|]. intros x Hx.
    destruct (Hins j r _ x Hj Hx) as [(-> & -> & Hc)|Hc].
    + exists r. split_and!; try done. by intros [|].
    + exists x. destruct (mi_current m Hi x Hc) as (_ & _ & H3 & _). split_and!; auto.
Qed.

(** A step of [reconnect] that only moves on, before it has the writer's lock or
    when it is done. *)
Lemma rc_moves m p :
  mux_inv m -> rc_rebinds (mx_rc m) = false -> mx_rc m <> RcNotify -> rc_rebinds p = false ->
  match p with
  | RcIdle => True
  | RcLocked f | RcConnecting f | RcWriter f => f <= mx_generation m
  | RcChecked f => f = mx_generation m /\ mx_shutdown m = false /\ mx_sh m <> ShLocked
  | _ => False
  end ->
  mux_inv (set_rc m p).
Proof.
  intros [] Hr Hn Hp Hc. constructor; try done.
  - intros r Hcur. destruct (mi_current0 r Hcur) as (H1 & H2 & H3 & H4). split_and!; try done; [apply H1|apply H1|].
    intros Ha. destruct (H4 Ha) as [(f & [Hf|Hf])|?]; [by rewrite Hf in Hr|by rewrite Hf in Hr|by right].
  - cbn. destruct p; try done. apply Hc.
  - cbn. destruct (mx_sh m) eqn:Hs; try done; (destruct mi_sh0 as (H1 & H2 & H3); split_and!; try done);
      destruct p; try done; destruct Hc as (_ & Hc & Hc'); congruence.
  - intros xid r c Hw. destruct (mi_wait0 xid r c Hw) as (H1 & H2 & H3). split_and!; try done. intros f. by destruct p.
  - intros xid r Hx Hq. cbn. left. destruct (mi_sleep0 xid r Hx Hq) as [?|?]; done.
  - cbn. intros H. by rewrite (mi_rebind0 H) in Hr.
Qed.

Lemma abort_current m r :
  mux_inv m -> abort_handle m !! mx_conn m = Some r ->
  exists r0, current m r0 /\ rd_generation r = rd_generation r0 /\ rd_phase r = rd_phase r0 /\
    (rd_phase r = RSilent -> rd_aborted r = true).
Proof.
  intros Hi. unfold abort_handle. destruct (mx_handle m) as [j|] eqn:Hh.
  - pose proof (mi_handle m Hi j Hh) as ->. rewrite list_lookup_alter_eq. unfold current.
    destruct (mx_readers m !! mx_conn m) as [r0|] eqn:E; [|done]. intros [= <-]. by exists r0.
  - intros Hr. exists r. destruct (mi_current m Hi r Hr) as (_ & _ & H3 & _). done.
Qed.

Lemma abort_length m : length (abort_handle m) = length (mx_readers m).
Proof. unfold abort_handle. destruct (mx_handle m); [apply length_alter|done]. Qed.

Lemma abort_inv m sh rc :
  mux_inv m ->
  (rc = mx_rc m /\ sh = ShAborted /\ mx_sh m = ShFlag) \/
  (exists f, mx_rc m = RcRebinding f /\ rc = RcAborted f /\ sh = mx_sh m) ->
  mux_inv {| mx_generation := mx_generation m; mx_failed := mx_failed m; mx_readiness := mx_readiness m;
         mx_shutdown := mx_shutdown m; mx_pending := mx_pending m; mx_readers := abort_handle m; mx_handle := None;
         mx_closed := mx_closed m; mx_rc := rc; mx_sh := sh; mx_requests := mx_requests m |}.
Proof.
  intros Hi Hc. set (m' := Build_StreamMux _ _ _ _ _ _ _ _ _ _ _).
  assert (Hconn : mx_conn m' = mx_conn m) by (unfold mx_conn; cbn; by rewrite abort_length).
  assert (Hcur : forall r, current m' r -> exists r0, current m r0 /\ rd_generation r = rd_generation r0 /\
    rd_phase r = rd_phase r0 /\ (rd_phase r = RSilent -> rd_aborted r = true)).
  { intros r Hr. apply abort_current; [done|]. unfold current in Hr. by rewrite Hconn in Hr. }
  pose proof Hi as []. constructor; try done.
  - cbn. intros H. apply (f_equal length) in H. rewrite abort_length in H. by destruct (mx_readers m).
  - intros r (r0 & H0 & Hg & Hp & Hs)%Hcur. destruct (mi_current0 r0 H0) as (H1 & H2 & H3 & H4).
    cbn. rewrite Hg, Hp in *. split_and!; try done; [apply H1|apply H1|]. intros _.
    destruct Hc as [(_ & -> & _)|(f & _ & -> & _)]; [by right; left|left; by exists f; left].
  - cbn. destruct Hc as [(-> & _ & _)|(f & Hf & -> & _)]; [|by rewrite Hf in mi_rc0].
    destruct (mx_rc m); try done. destruct mi_rc0 as [E1 E2]. split; [done|].
    intros r (r0 & H0 & Hg & _)%Hcur. rewrite Hg. by apply E2.
  - cbn. destruct Hc as [(-> & -> & Hs)|(f & Hf & -> & ->)]; [by rewrite Hs in mi_sh0|].
    destruct (mx_sh m); try done; destruct mi_sh0 as (? & ? & H); by rewrite Hf in H.
  - intros xid r c (Hx & Hq & Hp). rewrite Hconn. destruct (mi_wait0 xid r c) as (H1 & H2 & H3); [done|].
    cbn. split_and!; [done| |].
    + destruct Hc as [(_ & -> & _)|(f & _ & _ & ->)]; done.
    + intros f'. destruct Hc as [(-> & _ & _)|(f & _ & -> & _)]; [apply H3|done].
  - intros Hg xid r cur Hx Hb Hph Hp (r0 & H0 & _ & Hpp & _)%Hcur. rewrite Hpp. by eapply mi_drained0.
  - intros xid r Hx Hq. cbn. destruct (mi_sleep0 xid r Hx Hq) as [?|Hn]; [by left|].
    destruct Hc as [(-> & _ & _)|(f & Hf & -> & _)]; [by right|congruence].
  - cbn. intros H. specialize (mi_rebind0 H). by destruct Hc as [(-> & _ & _)|(f & Hf & -> & _)].
Qed.

Lemma install_inv m f : mux_inv m -> mx_rc m = RcDrained f ->
  mux_inv {| mx_generation := mx_generation m; mx_failed := mx_failed m; mx_readiness := mx_readiness m;
         mx_shutdown := mx_shutdown m; mx_pending := mx_pending m;
         mx_readers := mx_readers m ++ [{| rd_generation := sat_add64 f 1; rd_phase := RRunning; rd_aborted := false |}];
         mx_handle := Some (length (mx_readers m)); mx_closed := false; mx_rc := RcInstalled f;
         mx_sh := mx_sh m; mx_requests := mx_requests m |}.
Proof.
  intros [] Hf. set (m' := Build_StreamMux _ _ _ _ _ _ _ _ _ _ _).
  assert (Hconn : mx_conn m' = length (mx_readers m)) by (unfold mx_conn; cbn; rewrite length_app; cbn; lia).
  assert (Hcur : forall r, current m' r -> r = {| rd_generation := sat_add64 f 1; rd_phase := RRunning; rd_aborted := false |}).
  { intros r Hr. unfold current in Hr. rewrite Hconn in Hr. cbn in Hr. rewrite list_lookup_middle in Hr by done. by injection Hr. }
  rewrite Hf in mi_rc0. constructor; try done.
  - cbn. by destruct (mx_readers m).
  - intros j [= <-]. by rewrite Hconn.
  - intros r ->%Hcur. cbn. unfold sat_add64. split_and!; try done; try lia; by intros [|].
  - cbn. split; [done|]. by intros r ->%Hcur.
  - cbn. destruct (mx_sh m); [done|by destruct mi_sh0|by destruct mi_sh0|destruct mi_sh0 as (? & ? & H); by rewrite Hf in H..].
  - intros xid r c Hw. destruct (mi_wait0 xid r c Hw) as (_ & _ & H). by destruct (H f).
  - intros _ xid r cur _ _ _ _ ->%Hcur. done.
  - intros xid r Hx Hq. cbn. destruct (mi_sleep0 xid r Hx Hq) as [?|Hn]; [by left|congruence].
Qed.

Lemma current_kept m r :
  mux_inv m -> current m r -> mx_rc m <> RcIdle -> rc_drain_due (mx_rc m) = false -> (forall f, mx_rc m <> RcDrained f) ->
  mx_generation m <= rd_generation r <= u64_max /\
    (rd_phase r = RPublished \/ rd_phase r = RDrained -> sat_add64 (rd_generation r) 1 <= mx_failed m) /\
    (rd_phase r = RSilent -> rd_aborted r = true) /\
    (rd_aborted r = true -> mx_sh m = ShAborted \/ mx_sh m = ShLocked \/ mx_sh m = ShDone).
Proof.
  intros Hi Hcur _ Hd Hn. destruct (mi_current m Hi r Hcur) as (H1 & H2 & H3 & H4). repeat (split; [done|]).
  intros Ha. destruct (H4 Ha) as [(f & [Hf|Hf])|?]; [by rewrite Hf in Hd|by destruct (Hn f)|done].
Qed.

(** The readiness and the phase of [reconnect] change, before and after the
    connection is replaced. *)
Lemma readiness_moves m ready p :
  mux_inv m -> rc_drain_due (mx_rc m) = false -> (forall f, mx_rc m <> RcDrained f) -> mx_rc m <> RcIdle ->
  mx_rc m <> RcNotify ->
  (ready = CONNECTION_REBINDING /\ (exists f, p = RcRebinding f /\ mx_rc m = RcChecked f)) \/
  (ready <> CONNECTION_REBINDING /\ p = RcNotify) ->
  mux_inv (set_readiness m ready p).
Proof.
  intros Hi Hd Hn Hne Hnn Hp. pose proof Hi as []. constructor; try done.
  - intros r Hcur. destruct (current_kept m r Hi Hcur Hne Hd Hn) as (H1 & H2 & H3 & H4).
    repeat (split; [done|]). intros Ha. right. by apply H4.
  - cbn. destruct Hp as [(_ & f & -> & Hf)|(_ & ->)]; [by rewrite Hf in mi_rc0|done].
  - cbn. destruct Hp as [(_ & f & -> & Hf)|(_ & ->)]; destruct (mx_sh m); try done; try (by destruct mi_sh0 as (? & ? & ?));
      destruct mi_sh0 as (? & ? & H); by rewrite Hf in H.
  - intros xid r c Hw. destruct (mi_wait0 xid r c Hw) as (H1 & H2 & H3). split_and!; try done.
    intros f. cbn. by destruct Hp as [(_ & f' & -> & Hf)|(_ & ->)].
  - intros xid r Hx Hq. cbn. destruct Hp as [(-> & _)|(_ & ->)]; [by left|by right].
  - cbn. intros H. by destruct Hp as [(_ & f' & -> & Hf)|(? & ->)].
Qed.

Lemma drain_inv m f : mux_inv m -> mx_rc m = RcAborted f ->
  mux_inv (set_rc (set_requests m ∅ (mx_requests m)) (RcDrained f)).
Proof.
  intros [] Hp. rewrite Hp in *. constructor; try done.
  - intros r Hcur. destruct (mi_current0 r Hcur) as (H1 & H2 & H3 & H4). repeat (split; [done|]).
    intros Ha. cbn. destruct (H4 Ha) as [_|?]; [left; exists f; by right|by right].
  - intros xid r c (_ & _ & H). cbn in H. set_solver.
  - intros xid r Hx Hq. destruct (mi_sleep0 xid r Hx Hq); [by left|done].
Qed.

Lemma store_inv m f : mux_inv m -> mx_rc m = RcInstalled f ->
  mux_inv {| mx_generation := sat_add64 f 1; mx_failed := mx_failed m; mx_readiness := mx_readiness m;
         mx_shutdown := mx_shutdown m; mx_pending := mx_pending m; mx_readers := mx_readers m;
         mx_handle := mx_handle m; mx_closed := mx_closed m; mx_rc := RcStored;
         mx_sh := mx_sh m; mx_requests := mx_requests m |}.
Proof.
  intros Hi Hp. pose proof Hi as []. pose proof mi_rc0 as H. rewrite Hp in H. destruct H as [-> Hr].
  constructor; try done.
  - cbn. unfold sat_add64. lia.
  - intros r Hcur. destruct (mi_current0 r Hcur) as (H1 & H2 & H3 & H4). cbn.
    rewrite (Hr r Hcur) in *. split; [unfold sat_add64; lia|]. repeat (split; [done|]).
    intros Ha. destruct (H4 Ha) as [(f' & [?|?])|?]; [congruence|congruence|by right].
  - cbn. destruct (mx_sh m); try done; by destruct mi_sh0 as (? & ? & ?).
  - intros xid r c Hw. by destruct (mi_wait0 xid r c Hw) as (H1 & H2 & H3).
  - intros Hg. apply mi_drained0. cbn in Hg. unfold sat_add64 in Hg. lia.
  - intros xid r Hx Hq. destruct (mi_sleep0 xid r Hx Hq); [by left|congruence].
Qed.

Lemma notify_inv m : mux_inv m -> mx_rc m = RcNotify ->
  mux_inv (set_rc (set_requests m (mx_pending m) (wake <$> mx_requests m)) RcIdle).
Proof.
  intros [] Hp. rewrite Hp in *.
  assert (Hl : forall xid r, (wake <$> mx_requests m) !! xid = Some r -> exists r0, mx_requests m !! xid = Some r0 /\ r = wake r0).
  { intros xid r H. rewrite lookup_fmap in H. destruct (mx_requests m !! xid) as [r0|]; simplify_eq/=. eauto. }
  constructor; try done.
  - intros r Hcur. destruct (mi_current0 r Hcur) as (H1 & H2 & H3 & H4). repeat (split; [done|]).
    intros Ha. destruct (H4 Ha) as [(f' & [?|?])|?]; [done|done|by right].
  - intros xid r c (Hx & Hq & Hpe). apply Hl in Hx as (r0 & Hx & ->). unfold wake in Hq. cbn in Hq.
    destruct (rq_phase r0) eqn:E; try done. destruct (mi_wait0 xid r0 c) as (H1 & H2 & H3); [|done].
    split_and!; try done. congruence.
  - intros Hg xid r cur Hx Hb Hq Hpe Hcur. apply Hl in Hx as (r0 & Hx & ->).
    eapply mi_drained0; try done. unfold wake in Hq. cbn in Hq. by destruct (rq_phase r0).
  - intros xid r Hx Hq. apply Hl in Hx as (r0 & Hx & ->). unfold wake in Hq. cbn in Hq. by destruct (rq_phase r0).
Qed.

Lemma reconnect_step_inv m m' : reconnect_step m m' -> mux_inv m -> mux_inv m'.
Proof.
  intros Hs Hi. pose proof (mi_rc m Hi) as H.
  destruct Hs as [f Hp Hf|f Hp|f Hp|f Hp|f Hp Hsh|f Hp|f Hp|f Hp|f Hp|f Hp|f Hp|Hp|Hp].
  - apply rc_moves; try done; by rewrite Hp.
  - rewrite Hp in H. apply rc_moves; try done; rewrite ?Hp; try done; by destruct (_ <? _).
  - rewrite Hp in H. apply rc_moves; try done; by rewrite Hp.
  - apply rc_moves; try done; destruct Hp as [Hp|Hp]; by rewrite Hp.
  - rewrite Hp in H. apply rc_moves; try done; rewrite ?Hp; try done; destruct (Z.ltb_spec f (mx_generation m)); try done;
      destruct (mx_shutdown m) eqn:E; try done. split_and!; [lia|done|done].
  - apply readiness_moves; try done; rewrite ?Hp; try done. left. split; [done|]. by exists f.
  - apply abort_inv; [done|]. right. by exists f.
  - by apply drain_inv.
  - by apply install_inv.
  - apply readiness_moves; try done; rewrite ?Hp; try done. by right.
  - by apply store_inv.
  - apply readiness_moves; try done; rewrite ?Hp; try done. by right.
  - by apply notify_inv.
Qed.

Lemma shutdown_step_inv m m' : shutdown_step m m' -> mux_inv m -> mux_inv m'.
Proof.
  intros Hs Hi. destruct Hs as [Hp|Hp|Hp Hw|Hp].
  - destruct Hi. rewrite Hp in *. constructor; try done; cbn.
    + intros r Hcur. destruct (mi_current0 r Hcur) as (H1 & H2 & H3 & H4). split_and!; try done; [apply H1|apply H1|].
      intros Ha. destruct (H4 Ha) as [?|[?|[?|?]]]; [by left|done..].
    + intros xid r c Hwt. by destruct (mi_wait0 xid r c Hwt) as (H1 & H2 & H3).
  - apply abort_inv; [done|]. by left.
  - destruct Hi. rewrite Hp in *. constructor; try done; cbn.
    + intros r Hcur. destruct (mi_current0 r Hcur) as (H1 & H2 & H3 & H4). split_and!; try done; [apply H1|apply H1|].
      intros Ha. destruct (H4 Ha) as [?|?]; [by left|right; by right; left].
    + destruct mi_sh0 as [? _]. split_and!; try done. unfold writer_held in Hw. by destruct (mx_rc m).
    + intros xid r c Hwt. by destruct (mi_wait0 xid r c Hwt) as (H1 & H2 & H3).
  - destruct Hi. rewrite Hp in *. constructor; try done; cbn.
    + intros r Hcur. destruct (mi_current0 r Hcur) as (H1 & H2 & H3 & H4). split_and!; try done; [apply H1|apply H1|].
      intros Ha. destruct (H4 Ha) as [?|?]; [by left|by right; right; right].
    + intros xid r c (_ & _ & H). cbn in H. set_solver.
Qed.

Lemma mux_step_inv m m' : mux_step m m' -> mux_inv m -> mux_inv m'.
Proof.
  intros []; eauto using request_step_inv, reader_step_inv, reconnect_step_inv, shutdown_step_inv.
Qed.

Definition mux_reachable (m : StreamMux) : Prop := rtc mux_step mux_connect m.

Lemma mux_reachable_inv m : mux_reachable m -> mux_inv m.
Proof.
  intros H. apply (rtc_ind_r (fun m => mux_inv m) mux_connect) with (z := m) in H; [done|apply mux_connect_inv|].
  intros y z _ Hs IH. by eapply mux_step_inv.
Qed.

(** Who still has to answer or fail the requests that wait: the reader of the
    installed connection, or somebody who is about to drain the map. *)
Definition will_be_settled (m : StreamMux) : Prop :=
  (exists r, current m r /\ rd_phase r = RRunning /\ rd_aborted r = false) \/
  (exists r, current m r /\ rd_phase r = RPublished) \/
  rc_drain_due (mx_rc m) = true \/ sh_drain_due (mx_sh m) = true.

(** C31: no request that waits for readiness is stranded, while generations stay
    below [u64::MAX]. A request that waits for its reply waits on the connection
    that is installed, and either that connection's reader runs (and will deliver
    the reply or fail the request), or the reader has published the loss and is
    about to fail every waiting request, or [reconnect] or [shutdown] is. The one
    exception is a request of the rebind handler, which bypasses readiness and the
    check of the reader: it may wait behind a reader that has drained the map
    ([bypass_request_stranded]). A request that waits for the connection to become
    ready, and was not notified yet, has a [reconnect] in progress that will
    notify it. *)
Theorem request_never_stranded m xid r :
  mux_reachable m -> mx_generation m < u64_max -> mx_requests m !! xid = Some r ->
  (forall c, rq_phase r = QWait c -> xid ∈ mx_pending m ->
     c = mx_conn m /\
     (will_be_settled m \/ rq_bypass r = true /\ exists cur, current m cur /\ rd_phase cur = RDrained)) /\
  (rq_phase r = QSleep false -> rc_rebinds (mx_rc m) = true \/ mx_rc m = RcNotify).
Proof.
  intros Hr Hg Hx. apply mux_reachable_inv in Hr. split.
  - intros c Hq Hp. destruct (mi_wait m Hr xid r c) as (-> & Hsh & Hrc); [done|]. split; [done|].
    destruct (lookup_lt_is_Some_2 (mx_readers m) (mx_conn m)) as [cur Hcur].
    { pose proof (mi_some m Hr). unfold mx_conn. destruct (mx_readers m); [done|cbn; lia]. }
    destruct (mi_current m Hr cur Hcur) as (_ & _ & Hs & Ha). unfold will_be_settled.
    assert (Hd : rq_bypass r = false -> rd_phase cur <> RDrained)
      by (intros Hb; eapply (mi_drained m Hr Hg xid r); try done; by rewrite Hq).
    assert (Hab : rd_aborted cur = true -> rc_drain_due (mx_rc m) = true \/ sh_drain_due (mx_sh m) = true).
    { intros H. destruct (Ha H) as [(f & [->|Hf])|[->|[->|?]]]; auto. by destruct (Hrc f). }
    destruct (rd_phase cur) eqn:E; [|left; eauto| |left; auto].
    + left. destruct (rd_aborted cur) eqn:Ea; [auto|]. left. by exists cur.
    + right. destruct (rq_bypass r); [eauto|by destruct (Hd eq_refl)].
  - intros Hq. destruct (mi_sleep m Hr xid r Hx Hq) as [H|H]; [left; by apply (mi_rebind m Hr)|by right].
Qed.

(** A request that waits while the connection is lost. *)
Definition lost_mux : StreamMux :=
  {| mx_generation := 0; mx_failed := 1; mx_readiness := CONNECTION_READY; mx_shutdown := false;
     mx_pending := {[7]}; mx_readers := [{| rd_generation := 0; rd_phase := RPublished; rd_aborted := false |}];
     mx_handle := Some 0%nat; mx_closed := false; mx_rc := RcIdle; mx_sh := ShIdle;
     mx_requests := {[7 := {| rq_bypass := false; rq_phase := QWait 0 |}]} |}.

Lemma lost_reachable : mux_reachable lost_mux.
Proof.
  eapply rtc_l; [apply step_request, (q_start _ 7 false); reflexivity|].
  eapply rtc_l; [apply step_request; eapply (q_ready _ 7); reflexivity|].
  eapply rtc_l; [apply step_request; eapply (q_insert _ 7); [reflexivity|reflexivity|by right]|].
  eapply rtc_l; [apply step_request; eapply (q_write _ 7); reflexivity|].
  eapply rtc_l; [apply step_reader; eapply (r_publish _ 0); reflexivity|].
  by vm_compute.
Qed.

Lemma request_never_stranded_witness :
  mux_reachable lost_mux /\
  (0%nat = mx_conn lost_mux /\
   (will_be_settled lost_mux \/ false = true /\ exists cur, current lost_mux cur /\ rd_phase cur = RDrained)).
Proof.
  split; [apply lost_reachable|].
  refine (proj1 (request_never_stranded lost_mux 7 {| rq_bypass := false; rq_phase := QWait 0 |} _ _ _) 0%nat _ _);
    [apply lost_reachable|done|reflexivity|done|]. cbn. set_solver.
Defined.

(** The exception exists. The reader of the connection that [reconnect] has just
    installed stops and drains the map; a request of the rebind handler enters
    the map after that, and nobody is left to fail it: it waits until its own
    timeout. *)
Definition stranded_mux : StreamMux :=
  {| mx_generation := 0; mx_failed := 2; mx_readiness := CONNECTION_REBINDING; mx_shutdown := false;
     mx_pending := {[7]};
     mx_readers := [{| rd_generation := 0; rd_phase := RPublished; rd_aborted := true |};
                    {| rd_generation := 1; rd_phase := RDrained; rd_aborted := false |}];
     mx_handle := Some 1%nat; mx_closed := false; mx_rc := RcInstalled 0; mx_sh := ShIdle;
     mx_requests := {[7 := {| rq_bypass := true; rq_phase := QWait 1 |}]} |}.

Lemma bypass_request_stranded :
  mux_reachable stranded_mux /\ waits stranded_mux 7 {| rq_bypass := true; rq_phase := QWait 1 |} 1 /\
  ~ will_be_settled stranded_mux.
Proof.
  split_and!; [|split_and!; [reflexivity|reflexivity|cbn; set_solver]|
    by intros [(r & [= <-] & [=] & _)|[(r & [= <-] & [=])|[[=]|[=]]]]].
  eapply rtc_l; [apply step_reader; eapply (r_publish _ 0); reflexivity|]; vm_compute.
  eapply rtc_l; [apply step_reconnect, (rc_lock _ 0); [reflexivity|by vm_compute]|]; vm_compute.
  eapply rtc_l; [apply step_reconnect, (rc_fast _ 0); reflexivity|]; vm_compute.
  eapply rtc_l; [apply step_reconnect, (rc_connected _ 0); reflexivity|]; vm_compute.
  eapply rtc_l; [apply step_reconnect, (rc_check _ 0); by vm_compute|]; vm_compute.
  eapply rtc_l; [apply step_reconnect, (rc_rebinding _ 0); reflexivity|]; vm_compute.
  eapply rtc_l; [apply step_reconnect, (rc_abort _ 0); reflexivity|]; vm_compute.
  eapply rtc_l; [apply step_reconnect, (rc_drain _ 0); reflexivity|]; vm_compute.
  eapply rtc_l; [apply step_reconnect, (rc_install _ 0); reflexivity|]; vm_compute.
  eapply rtc_l; [apply step_reader; eapply (r_publish _ 1); reflexivity|]; vm_compute.
  eapply rtc_l; [apply step_reader; eapply (r_drain _ 1); reflexivity|]; vm_compute.
  eapply rtc_l; [apply step_request, (q_start _ 7 true); reflexivity|]; vm_compute.
  eapply rtc_l; [apply step_request; eapply (q_insert _ 7); [reflexivity|reflexivity|by left]|]; vm_compute.
  eapply rtc_l; [apply step_request; eapply (q_write _ 7); reflexivity|]; vm_compute.
  done.
Qed.

(** A rebind that fails leaves the generation where it was, but the reader it
    installed has the next one. When that reader stops, the next successful
    [reconnect] reuses its generation: the connection is installed, ready and
    read, and every request is rejected as if its reader had stopped. *)
Definition poisoned_mux : StreamMux :=
  {| mx_generation := 1; mx_failed := 2; mx_readiness := CONNECTION_READY; mx_shutdown := false; mx_pending := ∅;
     mx_readers := [{| rd_generation := 0; rd_phase := RPublished; rd_aborted := true |};
                    {| rd_generation := 1; rd_phase := RPublished; rd_aborted := true |};
                    {| rd_generation := 1; rd_phase := RRunning; rd_aborted := false |}];
     mx_handle := Some 2%nat; mx_closed := false; mx_rc := RcIdle; mx_sh := ShIdle; mx_requests := ∅ |}.

Lemma failed_rebind_poisons_next :
  mux_reachable poisoned_mux /\ mx_readiness poisoned_mux = CONNECTION_READY /\
  (exists r, current poisoned_mux r /\ rd_phase r = RRunning /\ rd_aborted r = false) /\
  reader_has_stopped poisoned_mux = true.
Proof.
  split; [|by split_and!; try done; eexists].
  eapply rtc_l; [apply step_reader; eapply (r_publish _ 0); reflexivity|]; vm_compute.
  eapply rtc_l; [apply step_reconnect, (rc_lock _ 0); [reflexivity|by vm_compute]|]; vm_compute.
  eapply rtc_l; [apply step_reconnect, (rc_fast _ 0); reflexivity|]; vm_compute.
  eapply rtc_l; [apply step_reconnect, (rc_connected _ 0); reflexivity|]; vm_compute.
  eapply rtc_l; [apply step_reconnect, (rc_check _ 0); by vm_compute|]; vm_compute.
  eapply rtc_l; [apply step_reconnect, (rc_rebinding _ 0); reflexivity|]; vm_compute.
  eapply rtc_l; [apply step_reconnect, (rc_abort _ 0); reflexivity|]; vm_compute.
  eapply rtc_l; [apply step_reconnect, (rc_drain _ 0); reflexivity|]; vm_compute.
  eapply rtc_l; [apply step_reconnect, (rc_install _ 0); reflexivity|]; vm_compute.
  eapply rtc_l; [apply step_reader; eapply (r_publish _ 1); reflexivity|]; vm_compute.
  eapply rtc_l; [apply step_reconnect, (rc_handler_failed _ 0); reflexivity|]; vm_compute.
  eapply rtc_l; [apply step_reconnect, rc_notify; reflexivity|]; vm_compute.
  eapply rtc_l; [apply step_reconnect, (rc_lock _ 0); [reflexivity|by vm_compute]|]; vm_compute.
  eapply rtc_l; [apply step_reconnect, (rc_fast _ 0); reflexivity|]; vm_compute.
  eapply rtc_l; [apply step_reconnect, (rc_connected _ 0); reflexivity|]; vm_compute.
  eapply rtc_l; [apply step_reconnect, (rc_check _ 0); by vm_compute|]; vm_compute.
  eapply rtc_l; [apply step_reconnect, (rc_rebinding _ 0); reflexivity|]; vm_compute.
  eapply rtc_l; [apply step_reconnect, (rc_abort _ 0); reflexivity|]; vm_compute.
  eapply rtc_l; [apply step_reconnect, (rc_drain _ 0); reflexivity|]; vm_compute.
  eapply rtc_l; [apply step_reconnect, (rc_install _ 0); reflexivity|]; vm_compute.
  eapply rtc_l; [apply step_reconnect, (rc_store _ 0); reflexivity|]; vm_compute.
  eapply rtc_l; [apply step_reconnect, rc_publish; reflexivity|]; vm_compute.
  eapply rtc_l; [apply step_reconnect, rc_notify; reflexivity|]; vm_compute.
  done.
Qed.
