(* ===== verification/Listing.v ===== *)
(** * Directory listing

    Models how the three protocol versions list a directory page by page: the
    cursor of [src/src/mount.rs], the pages and the stream of
    [src/src/nfs41/readdir.rs], the pages and the streams of
    [src/src/nfs40/mount.rs], and the shared paging of NFSv3
    ([paged_dir_stream] of [src/src/nfs3/mod.rs], [into_page] of
    [src/src/nfs3/readdirplus.rs]). The decoders of single NFSv3 entries are
    generated, so an NFSv3 page is given as its decoded entries.

    A stream is polled to its end here: the result is every item it yields and
    how it ended. The fetch of a page is an argument; it may depend on a state of
    its own, which stands for the server and the mount. *)
From Stdlib Require Import Strings.Byte.
From S2P Require Import Prelude Errors Xdr4 Acl4 Attrs4 Response41.
From stdpp Require Import base list numbers strings gmap.
#[local] Open Scope Z_scope.

(** ** Names: [String::from_utf8_lossy] *)

(** The replacement character, U+FFFD. *)
Definition replacement : bytes := [xef; xbf; xbd].

(** Whether [c] may follow the first byte [b] of a three- or four-byte sequence. *)
Definition second3 (b c : byte) : bool :=
  if in_range 0xE0 0xE0 b then in_range 0xA0 0xBF c
  else if in_range 0xED 0xED b then in_range 0x80 0x9F c else cont_byte c.
Definition second4 (b c : byte) : bool :=
  if in_range 0xF0 0xF0 b then in_range 0x90 0xBF c
  else if in_range 0xF4 0xF4 b then in_range 0x80 0x8F c else cont_byte c.

(** Each maximal prefix of a sequence that cannot be completed is replaced. *)
Fixpoint utf8_lossy (s : bytes) : bytes :=
  match s with
  | [] => []
  | b :: s1 =>
      if in_range 0x00 0x7F b then b :: utf8_lossy s1
      else if in_range 0xC2 0xDF b then
        match s1 with
        | c1 :: s2 => if cont_byte c1 then b :: c1 :: utf8_lossy s2 else replacement ++ utf8_lossy s1
        | [] => replacement
        end
      else if in_range 0xE0 0xEF b then
        match s1 with
        | c1 :: s2 =>
            if second3 b c1 then
              match s2 with
              | c2 :: s3 => if cont_byte c2 then b :: c1 :: c2 :: utf8_lossy s3 else replacement ++ utf8_lossy s2
              | [] => replacement
              end
            else replacement ++ utf8_lossy s1
        | [] => replacement
        end
      else if in_range 0xF0 0xF4 b then
        match s1 with
        | c1 :: s2 =>
            if second4 b c1 then
              match s2 with
              | c2 :: s3 =>
                  if cont_byte c2 then
                    match s3 with
                    | c3 :: s4 =>
                        if cont_byte c3 then b :: c1 :: c2 :: c3 :: utf8_lossy s4 else replacement ++ utf8_lossy s3
                    | [] => replacement
                    end
                  else replacement ++ utf8_lossy s2
              | [] => replacement
              end
            else replacement ++ utf8_lossy s1
        | [] => replacement
        end
      else replacement ++ utf8_lossy s1
  end.

(** ** The cursor *)

Record DirectoryCookie : Type := { dk_cookie : Z; dk_verifier : bytes }.
Record DirectoryCursor : Type := { dc_cookie : Z; dc_verifier : bytes; dc_seen : gset Z }.

Definition cursor_default : DirectoryCursor :=
  {| dc_cookie := 0; dc_verifier := zeros 8; dc_seen := {[0]} |}.
Definition resume (p : DirectoryCookie) : DirectoryCursor :=
  {| dc_cookie := dk_cookie p; dc_verifier := dk_verifier p; dc_seen := {[0; dk_cookie p]} |}.

(** [advance]; the set may have grown also when the page is refused, but the
    cursor is dropped then. *)
Definition cursor_advance (c : DirectoryCursor) (cookie : Z) (verifier : bytes) (entries : nat) (eof : bool)
    : result (bool * DirectoryCursor) :=
  if (negb eof && Nat.eqb entries 0) || (negb (Nat.eqb entries 0) && bool_decide (cookie ∈ dc_seen c))
  then Err (Xdr "READDIR page made no progress or repeated a cookie")
  else Ok (negb eof, {| dc_cookie := cookie; dc_verifier := verifier;
                        dc_seen := if Nat.eqb entries 0 then dc_seen c else {[cookie]} ∪ dc_seen c |}).

Definition cursor_page (c : DirectoryCursor) (last_cookie : Z) (verifier : bytes) (entries : nat) (eof : bool)
    : result DirectoryCookie :=
  let requested := {| dk_cookie := dc_cookie c; dk_verifier := dc_verifier c |} in
  let* (_, c) := cursor_advance c last_cookie verifier entries eof in
  if Nat.eqb entries 0 then Ok requested
  else Ok {| dk_cookie := dc_cookie c; dk_verifier := dc_verifier c |}.

(** ** Limits *)

Definition MAX_IO_SIZE : Z := 4 * 1024 * 1024.
Definition DEFAULT_READDIR_BUFFER : Z := 8192.

Definition directory_reply_limits (explicit : option (Z * Z)) (read_limit : option Z) : Z * Z :=
  match explicit, read_limit with
  | Some e, _ => e
  | None, Some limit => (limit, limit)
  | None, None => (DEFAULT_READDIR_BUFFER, DEFAULT_READDIR_BUFFER)
  end.

Definition negotiated_io_size (server_max : Z) : result Z :=
  let size := Z.min server_max MAX_IO_SIZE in
  if size =? 0 then Err (Xdr "server reported a zero maximum I/O size") else Ok size.

Definition read_reply (data : bytes) (eof : bool) : result bytes :=
  if Nat.eqb (length data) 0 && negb eof then Err (Rpc "READ made no progress without EOF") else Ok data.

(** [directory_limits] of NFSv4.1: the reply must fit the session. *)
Definition directory_limits (tag : bytes) (self_dircount self_maxcount max_response_size : Z) : result (Z * Z) :=
  let overhead := 24 + 4 + 4 + padded (remaining tag) + 4 + 44 + 8 + 8 in
  let maxcount := Z.min self_maxcount (Z.max 0 (max_response_size - overhead)) in
  if maxcount <? 16 then Err (InvalidInput "READDIR maxcount cannot hold an empty page")
  else Ok (Z.min self_dircount maxcount, maxcount).

(** ** Entries *)

Record ReaddirEntry : Type := { re_fileid : Z; re_file_name : bytes }.
Record ReaddirplusEntry : Type := { rpe_fileid : Z; rpe_file_name : bytes; rpe_attr : option Attr; rpe_handle : bytes }.
Record ReaddirplusPage : Type := { rpp_entries : list ReaddirplusEntry; rpp_next : DirectoryCookie; rpp_eof : bool }.

(** ** NFSv4.1 pages *)

Definition decode_string_from_bytes (data : bytes) : result (bytes * bytes) :=
  let* _ := require 4 (Xdr "string length truncated") data in
  let* (len, data) := get_u32 data in
  let* _ := require (padded len) (Xdr "string data truncated") data in
  let* s := slice_to len data in
  let* data := advance (padded len) data in
  Ok (utf8_lossy s, data).

(** Where the reader of a GETATTR envelope stands after it has failed. *)
Definition envelope_left (data : bytes) : bytes :=
  if remaining data <? 4 then data
  else
    let words := be_val (firstn 4 data) in
    let data := skipn 4 data in
    if 16 <? words then data
    else
      let read := Z.min words (remaining data / 4) in
      let data := skipn (Z.to_nat (4 * read)) data in
      if (read <? words) || (remaining data <? 4) then data else skipn 4 data.

(** [decode_entry_fattr4]: the attributes if they can be decoded, and where the
    reader stands in either case. *)
Definition decode_entry_fattr4 (data : bytes) : result (option Attr * bytes) :=
  match decode_getattr_envelope data with
  | Ok (bitmap, vals, rest) =>
      match decode_fattr4_to_attr bitmap vals with
      | Ok (a, _) => Ok (Some a, rest)
      | Err _ => Ok (None, rest)
      | Panic => Panic
      end
  | Err _ => Ok (None, envelope_left data)
  | Panic => Panic
  end.

Definition entry_fileid (attr : option Attr) (cookie : Z) : Z :=
  match attr with Some a => a_fileid a | None => cookie end.
Definition make_entry (cookie : Z) (name : bytes) (attr : option Attr) : ReaddirEntry :=
  {| re_fileid := entry_fileid attr cookie; re_file_name := name |}.
Definition make_plus_entry (cookie : Z) (name : bytes) (attr : option Attr) : ReaddirplusEntry :=
  {| rpe_fileid := entry_fileid attr cookie; rpe_file_name := name; rpe_attr := attr;
     rpe_handle := match attr with Some a => a_filehandle a | None => [] end |}.

(** The entries of a page, up to the end of the list: the result is the entries,
    the cookie of the last one and the rest of the page. An entry takes at least
    twelve bytes, so the length of the page is enough fuel. *)
Fixpoint dirlist {T : Type} (mk : Z -> bytes -> option Attr -> T) (fuel : nat) (last_cookie : Z) (data : bytes)
    : result (list T * Z * bytes) :=
  match fuel with
  | O => Panic
  | S fuel =>
      let* _ := require 4 (Xdr "dirlist4 value_follows truncated") data in
      let* (has_entry, data) := get_u32 data in
      if has_entry =? 0 then Ok ([], last_cookie, data)
      else
        let* _ := require 8 (Xdr "entry4 cookie truncated") data in
        let* (entry_cookie, data) := get_u64 data in
        let* (name, data) := decode_string_from_bytes data in
        let* (attr, data) := decode_entry_fattr4 data in
        let* (l, last, data) := dirlist mk fuel entry_cookie data in
        Ok (mk entry_cookie name attr :: l, last, data)
  end.

(** [readdir_page] and [readdirplus_page] from the data of the READDIR result. *)
Definition decode_page {T : Type} (mk : Z -> bytes -> option Attr -> T) (maxcount cookie : Z) (data : bytes)
    : result (list T * Z * bytes * bool) :=
  if maxcount <? remaining data then Err (Xdr "READDIR reply exceeds requested maxcount")
  else
    let* _ := require 8 (Xdr "READDIR cookieverf truncated") data in
    let* (new_verf, data) := split_to 8 data in
    let* (entries, last_cookie, data) := dirlist mk (S (length data)) cookie data in
    let* _ := require 4 (Xdr "dirlist4 eof truncated") data in
    let* (eof, _) := get_u32 data in
    Ok (entries, last_cookie, new_verf, negb (eof =? 0)).

(** ** Streams *)

Inductive stream_end : Type := Ended | Failed (e : NfsError) | Panicked | Unfinished.

(** The paging both [directory_stream] and [paged_dir_stream] write out: a page
    gives its items, its last cookie, its verifier, the number of entries received
    and whether the directory ended. [Unfinished] means that the fuel ran out. *)
Fixpoint page_stream {T W : Type} (fetch : Z -> bytes -> W -> result (list T * Z * bytes * nat * bool) * W)
    (fuel : nat) (cursor : DirectoryCursor) (w : W) : list T * stream_end * W :=
  match fuel with
  | O => ([], Unfinished, w)
  | S fuel =>
      let '(page, w) := fetch (dc_cookie cursor) (dc_verifier cursor) w in
      match (let* (items, cookie, verifier, received, eof) := page in
             let* (more, cursor) := cursor_advance cursor cookie verifier received eof in
             Ok (items, more, cursor)) with
      | Ok (items, true, cursor) =>
          let '(rest, e, w) := page_stream fetch fuel cursor w in (items ++ rest, e, w)
      | Ok (items, false, _) => (items, Ended, w)
      | Err e => ([], Failed e, w)
      | Panic => ([], Panicked, w)
      end
  end.

Definition counted {T W : Type} (fetch : Z -> bytes -> W -> result (list T * Z * bytes * bool) * W)
    (cookie : Z) (verifier : bytes) (w : W) : result (list T * Z * bytes * nat * bool) * W :=
  let '(page, w) := fetch cookie verifier w in
  (let* (entries, cookie, verifier, eof) := page in Ok (entries, cookie, verifier, length entries, eof), w).

Definition directory_stream {T W : Type} (fetch : Z -> bytes -> W -> result (list T * Z * bytes * bool) * W)
    (fuel : nat) (cursor : DirectoryCursor) (w : W) : list T * stream_end * W :=
  page_stream (counted fetch) fuel cursor w.

(** [readdirplus_page_from] *)
Definition readdirplus_page_from {W : Type}
    (fetch : Z -> bytes -> W -> result (list ReaddirplusEntry * Z * bytes * bool) * W)
    (position : DirectoryCookie) (w : W) : result ReaddirplusPage * W :=
  let '(page, w) := fetch (dk_cookie position) (dk_verifier position) w in
  (let* (entries, last_cookie, verifier, eof) := page in
   let* next := cursor_page (resume position) last_cookie verifier (length entries) eof in
   Ok {| rpp_entries := entries; rpp_next := next; rpp_eof := eof |}, w).

(** ** NFSv3 *)

Record entry3 : Type := { e3_fileid : Z; e3_name : bytes; e3_cookie : Z; e3_attr : option Attr; e3_handle : bytes }.
(** A decoded reply; a verifier that has not eight bytes counts as zero. *)
Record DirectoryReply : Type := { dr_cookieverf : bytes; dr_entries : list entry3; dr_eof : bool }.

Definition reply_verifier (r : DirectoryReply) : bytes :=
  if Nat.eqb (length (dr_cookieverf r)) 8 then dr_cookieverf r else zeros 8.
Definition special_name (name : bytes) : bool :=
  bool_decide (name = [x2e]) || bool_decide (name = [x2e; x2e]).
Definition bytes_to_string (raw : bytes) : bytes := if utf8_valid raw then raw else utf8_lossy raw.
Definition convert_entry3 (e : entry3) : ReaddirEntry :=
  {| re_fileid := e3_fileid e; re_file_name := bytes_to_string (e3_name e) |}.
Definition convert_entry (e : entry3) : ReaddirplusEntry :=
  {| rpe_fileid := e3_fileid e; rpe_file_name := bytes_to_string (e3_name e); rpe_attr := e3_attr e;
     rpe_handle := e3_handle e |}.
Definition last_cookie3 (cookie : Z) (entries : list entry3) : Z :=
  match last entries with Some e => e3_cookie e | None => cookie end.

(** What a page of NFSv3 contributes to the stream. *)
Definition page3 {T W : Type} (convert : entry3 -> T) (fetch : Z -> bytes -> W -> result DirectoryReply * W)
    (cookie : Z) (verifier : bytes) (w : W) : result (list T * Z * bytes * nat * bool) * W :=
  let '(page, w) := fetch cookie verifier w in
  (let* r := page in
   Ok (map convert (List.filter (fun e => negb (special_name (e3_name e))) (dr_entries r)),
       last_cookie3 cookie (dr_entries r), reply_verifier r, length (dr_entries r), dr_eof r), w).

Definition paged_dir_stream {T W : Type} (convert : entry3 -> T) (fetch : Z -> bytes -> W -> result DirectoryReply * W)
    (fuel : nat) (cursor : DirectoryCursor) (w : W) : list T * stream_end * W :=
  page_stream (page3 convert fetch) fuel cursor w.

Definition into_page (r : DirectoryReply) (position : DirectoryCookie) : result ReaddirplusPage :=
  let last_cookie := last_cookie3 (dk_cookie position) (dr_entries r) in
  let* next := cursor_page (resume position) last_cookie (reply_verifier r) (length (dr_entries r)) (dr_eof r) in
  Ok {| rpp_entries := map convert_entry (List.filter (fun e => negb (special_name (e3_name e))) (dr_entries r));
        rpp_next := next; rpp_eof := dr_eof r |}.

(** ** NFSv4.0 *)

Record DirectoryEntry : Type := { de_cookie : Z; de_name : bytes; de_attr : Attr }.

Definition decode_directory_entry (data : bytes) (previous_cookie : Z) : result (DirectoryEntry * bytes) :=
  let* _ := require 12 (Xdr "READDIR entry truncated") data in
  let* (cookie, data) := get_u64 data in
  if cookie =? previous_cookie then Err (Xdr "READDIR entry did not advance cookie")
  else
    let* (name_len, data) := get_u32 data in
    let* _ := require (padded name_len) (Xdr "READDIR entry name truncated") data in
    let* (name, data) := split_to name_len data in
    if negb (utf8_valid name) then Err (Xdr "READDIR entry name is not UTF-8")
    else
      let* data := advance (padded name_len - name_len) data in
      let* (attr, data) := decode_getattr_response data in
      Ok ({| de_cookie := cookie; de_name := name; de_attr := attr |}, data).

(** The entries of a page in reverse order, with an error as the last item of a
    page that is malformed after its first entries, and the end of the list or
    [None] where the page was cut short by such an error. *)
Fixpoint dirlist40 (fuel : nat) (previous_cookie : Z) (data : bytes) (entries : list (result DirectoryEntry))
    : result (list (result DirectoryEntry) * option bytes) :=
  match fuel with
  | O => Panic
  | S fuel =>
      if remaining data <? 4
      then let error := Xdr "READDIR entry discriminator truncated" in
           match entries with [] => Err error | _ => Ok (entries ++ [Err error], None) end
      else
        let* (value, data) := get_u32 data in
        if value =? 0 then Ok (entries, Some data)
        else if negb (value =? 1)
        then Ok (entries ++ [Err (Xdr ("READDIR entry discriminator is " +:+ fmtZ value +:+ ", expected 0 or 1"))], None)
        else
          match decode_directory_entry data previous_cookie with
          | Ok (e, data) => dirlist40 fuel (de_cookie e) data (entries ++ [Ok e])
          | Err error => Ok (entries ++ [Err error], None)
          | Panic => Panic
          end
  end.

Definition decode_directory_page (data : bytes) (initial_cookie : Z)
    : result (bytes * list (result DirectoryEntry) * bool) :=
  let* _ := require 8 (Xdr "READDIR cookie verifier truncated") data in
  let* (verifier, data) := split_to 8 data in
  let* (entries, rest) := dirlist40 (S (length data)) initial_cookie data [] in
  match rest with
  | None => Ok (verifier, entries, true)
  | Some data =>
      if remaining data <? 4
      then let error := Xdr "READDIR eof flag truncated" in
           match entries with [] => Err error | _ => Ok (verifier, entries ++ [Err error], true) end
      else
        let* (value, _) := get_u32 data in
        if value =? 0 then Ok (verifier, entries, false)
        else if value =? 1 then Ok (verifier, entries, true)
        else Ok (verifier, entries ++ [Err (Xdr ("READDIR eof flag is " +:+ fmtZ value +:+ ", expected 0 or 1"))], true)
  end.

Definition validate_readdir_payload (payload : bytes) (maxcount : Z) : result bytes :=
  if maxcount <? remaining payload
  then Err (Xdr ("READDIR payload " +:+ fmtZ (remaining payload) +:+ " exceeds requested maxcount " +:+ fmtZ maxcount))
  else Ok payload.

(** The last entry of a page that was decoded. *)
Definition last_cookie40 (cookie : Z) (entries : list (result DirectoryEntry)) : Z :=
  foldl (fun acc e => match e with Ok e => de_cookie e | _ => acc end) cookie entries.
Definition entry40 (e : DirectoryEntry) : ReaddirEntry :=
  {| re_fileid := a_fileid (de_attr e); re_file_name := de_name e |}.
Definition plus_entry40 (e : DirectoryEntry) : ReaddirplusEntry :=
  {| rpe_fileid := a_fileid (de_attr e); rpe_file_name := de_name e; rpe_attr := Some (de_attr e);
     rpe_handle := a_filehandle (de_attr e) |}.
Definition map_item {A B : Type} (f : A -> B) (r : result A) : result B := let* a := r in Ok (f a).

(** [readdir_page] and [fetch_readdirplus_page] from the payload. *)
Definition decode_page40 {T : Type} (mk : DirectoryEntry -> T) (cookie : Z) (data : bytes)
    : result (list (result T) * Z * bytes * bool) :=
  let* (verifier, entries, eof) := decode_directory_page data cookie in
  Ok (map (map_item mk) entries, last_cookie40 cookie entries, verifier, eof).

(** [readdir] and [readdirplus] of [Mount40]: no cursor. *)
Fixpoint stream40 {T W : Type} (fetch : Z -> bytes -> W -> result (list (result T) * Z * bytes * bool) * W)
    (what : string) (fuel : nat) (cookie : Z) (verifier : bytes) (w : W) : list (result T) * stream_end * W :=
  match fuel with
  | O => ([], Unfinished, w)
  | S fuel =>
      let '(page, w) := fetch cookie verifier w in
      match page with
      | Ok (entries, last_cookie, verifier, eof) =>
          if Nat.eqb (length entries) 0 && negb eof && (last_cookie =? cookie)
          then ([], Failed (Xdr (what +:+ " page made no progress")), w)
          else if eof then (entries, Ended, w)
          else let '(rest, e, w) := stream40 fetch what fuel last_cookie verifier w in (entries ++ rest, e, w)
      | Err e => ([], Failed e, w)
      | Panic => ([], Panicked, w)
      end
  end.

(** [readdirplus_page] of [Mount40]: the first error of the page, if any. *)
Definition readdirplus_page40 {W : Type}
    (fetch : Z -> bytes -> W -> result (list (result ReaddirplusEntry) * Z * bytes * bool) * W)
    (position : DirectoryCookie) (w : W) : result ReaddirplusPage * W :=
  let '(page, w) := fetch (dk_cookie position) (dk_verifier position) w in
  (let* (entries, last_cookie, verifier, eof) := page in
   let received := length entries in
   let* entries := foldr (fun e acc => let* x := e in let* l := acc in Ok (x :: l)) (Ok []) entries in
   let* next := cursor_page (resume position) last_cookie verifier received eof in
   Ok {| rpp_entries := entries; rpp_next := next; rpp_eof := eof |}, w).

(** ** Names *)

Lemma utf8_two b c t : in_range 0x00 0x7F b = false -> in_range 0xC2 0xDF b = true -> cont_byte c = true ->
  utf8_valid (b :: c :: t) = utf8_valid t.
Proof. intros H1 H2 H3. cbn [utf8_valid]. by rewrite H1, H2, H3. Qed.

Lemma utf8_three b c d t : in_range 0x00 0x7F b = false -> in_range 0xC2 0xDF b = false -> in_range 0xE0 0xEF b = true ->
  second3 b c = true -> cont_byte d = true -> utf8_valid (b :: c :: d :: t) = utf8_valid t.
Proof. intros H1 H2 H3 H4 H5. unfold second3 in H4. cbn [utf8_valid]. by rewrite H1, H2, H3, H4, H5. Qed.

Lemma utf8_four b c d e t : in_range 0x00 0x7F b = false -> in_range 0xC2 0xDF b = false -> in_range 0xE0 0xEF b = false ->
  in_range 0xF0 0xF4 b = true -> second4 b c = true -> cont_byte d = true -> cont_byte e = true ->
  utf8_valid (b :: c :: d :: e :: t) = utf8_valid t.
Proof. intros H1 H2 H3 H4 H5 H6 H7. unfold second4 in H5. cbn [utf8_valid]. by rewrite H1, H2, H3, H4, H5, H6, H7. Qed.

Lemma utf8_replaced t : utf8_valid (replacement ++ t) = utf8_valid t.
Proof. done. Qed.

(** What the lossy conversion gives is a string. *)
Lemma utf8_lossy_valid s : utf8_valid (utf8_lossy s) = true.
Proof.
  remember (length s) as n eqn:Hn. assert (Hle : (length s <= n)%nat) by lia. clear Hn. revert s Hle.
  induction n as [|n IH]; intros [|b s] Hle; try done; [by cbn in Hle; lia|]. cbn [utf8_lossy]. cbn in Hle.
  assert (Hs : utf8_valid (replacement ++ utf8_lossy s) = true) by (rewrite utf8_replaced; apply IH; lia).
  destruct (in_range 0x00 0x7F b) eqn:E1; [cbn [utf8_valid]; rewrite E1; apply IH; lia|].
  destruct (in_range 0xC2 0xDF b) eqn:E2.
  { destruct s as [|c s]; [done|]. destruct (cont_byte c) eqn:E; [|done]. rewrite utf8_two by done. apply IH. cbn in Hle. lia. }
  destruct (in_range 0xE0 0xEF b) eqn:E3.
  { destruct s as [|c s]; [done|]. destruct (second3 b c) eqn:E; [|done]. cbn in Hle. destruct s as [|d s]; [done|].
    destruct (cont_byte d) eqn:Ed; [rewrite utf8_three by done|rewrite utf8_replaced]; apply IH; cbn in *; lia. }
  destruct (in_range 0xF0 0xF4 b) eqn:E4; [|done].
  destruct s as [|c s]; [done|]. destruct (second4 b c) eqn:E; [|done]. cbn in Hle. destruct s as [|d s]; [done|].
  destruct (cont_byte d) eqn:Ed; [|rewrite utf8_replaced; apply IH; cbn in *; lia]. destruct s as [|e s]; [done|].
  destruct (cont_byte e) eqn:Ee; [rewrite utf8_four by done|rewrite utf8_replaced]; apply IH; cbn in *; lia.
Qed.

(** A string is left as it is. *)
Lemma utf8_lossy_id s : utf8_valid s = true -> utf8_lossy s = s.
Proof.
  remember (length s) as n eqn:Hn. assert (Hle : (length s <= n)%nat) by lia. clear Hn. revert s Hle.
  induction n as [|n IH]; intros [|b s] Hle Hv; try done; [by cbn in Hle; lia|]. cbn [utf8_lossy]. cbn in Hle.
  destruct (in_range 0x00 0x7F b) eqn:E1; [cbn [utf8_valid] in Hv; rewrite E1 in Hv; f_equal; apply IH; [lia|done]|].
  destruct s as [|c s]; [by cbn [utf8_valid] in Hv; rewrite E1 in Hv|].
  destruct (in_range 0xC2 0xDF b) eqn:E2.
  { cbn [utf8_valid] in Hv. rewrite E1, E2 in Hv. apply andb_true_iff in Hv as [-> Hv].
    do 2 f_equal. apply IH; [cbn in Hle; lia|done]. }
  destruct s as [|d s]; [by cbn [utf8_valid] in Hv; rewrite E1, E2 in Hv|].
  destruct (in_range 0xE0 0xEF b) eqn:E3.
  { cbn [utf8_valid] in Hv. rewrite E1, E2, E3 in Hv. apply andb_true_iff in Hv as [Hv Hs].
    apply andb_true_iff in Hv as [Hc ->]. unfold second3. rewrite Hc. do 3 f_equal. apply IH; [cbn in Hle; lia|done]. }
  destruct s as [|e s]; [by cbn [utf8_valid] in Hv; rewrite E1, E2, E3 in Hv|].
  cbn [utf8_valid] in Hv. rewrite E1, E2, E3 in Hv. apply andb_true_iff in Hv as [Hv Hs].
  apply andb_true_iff in Hv as [Hv ->]. apply andb_true_iff in Hv as [Hv ->]. apply andb_true_iff in Hv as [-> Hc].
  unfold second4. rewrite Hc. do 4 f_equal. apply IH; [cbn in Hle; lia|done].
Qed.

Lemma bytes_to_string_valid raw : utf8_valid (bytes_to_string raw) = true.
Proof. unfold bytes_to_string. destruct (utf8_valid raw) eqn:E; [done|apply utf8_lossy_valid]. Qed.

(** ** No panic, and names are strings *)

Lemma wpo_decode_string_from_bytes data :
  wpo (decode_string_from_bytes data) (fun '(s, rest) => utf8_valid s = true /\ remaining rest <= remaining data - 4).
Proof.
  unfold decode_string_from_bytes. wp. pose proof (padded_ge v). wp. split; [apply utf8_lossy_valid|rlia].
Qed.

Lemma envelope_left_le data : remaining (envelope_left data) <= remaining data.
Proof.
  unfold envelope_left. destruct (Z.ltb_spec (remaining data) 4); [lia|].
  assert (Hs : forall n (l : bytes), remaining (skipn n l) <= remaining l) by (intros; unfold remaining; rewrite length_skipn; lia).
  destruct (_ <? _); [apply Hs|]. destruct (_ || _); repeat (etrans; [apply Hs|]); apply Hs || reflexivity.
Qed.

Lemma wpo_decode_entry_fattr4 data :
  wpo (decode_entry_fattr4 data) (fun '(_, rest) => remaining rest <= remaining data).
Proof.
  unfold decode_entry_fattr4. pose proof (wpo_decode_getattr_envelope data) as H.
  destruct (decode_getattr_envelope data) as [[[bm vals] rest]|e|]; cbn in H; [|apply envelope_left_le|done].
  pose proof (wpo_run_steps bm fattr4_steps Attr_default vals fattr4_steps_total) as Hs.
  unfold decode_fattr4_to_attr. destruct H as (_ & H). apply suffix_length in H.
  destruct (run_steps _ _ _) as [[a r]|e|]; cbn; [unfold remaining; lia..|done].
Qed.

Definition valid_name {T : Type} (name : T -> bytes) (x : T) : Prop := utf8_valid (name x) = true.

Lemma wpo_dirlist {T} (mk : Z -> bytes -> option Attr -> T) (P : T -> Prop) fuel cookie data :
  (forall c name a, utf8_valid name = true -> P (mk c name a)) -> (length data < fuel)%nat ->
  wpo (dirlist mk fuel cookie data) (fun '(l, _, _) => Forall P l).
Proof.
  intros HP. revert cookie data. induction fuel as [|fuel IH]; intros cookie data Hf; [lia|].
  cbn [dirlist]. wp; [constructor|]. wp_call wpo_decode_string_from_bytes. intros [name rest1] [Hn Hr1]. cbn. wp.
  wp_call wpo_decode_entry_fattr4. intros [attr rest2] Hr2. wp. wp_call IH; [unfold remaining in *; lia|].
  intros [[l last] rest3] Hl. wp. constructor; auto.
Qed.

Lemma wpo_decode_page {T} (mk : Z -> bytes -> option Attr -> T) (P : T -> Prop) maxcount cookie data :
  (forall c name a, utf8_valid name = true -> P (mk c name a)) ->
  wpo (decode_page mk maxcount cookie data) (fun '(l, _, _, _) => Forall P l).
Proof.
  intros HP. unfold decode_page. wp. wp_call (wpo_dirlist mk P); [done|lia|].
  intros [[l last] rest'] Hl. wp. done.
Qed.

Lemma wpo_decode_directory_entry data previous :
  wpo (decode_directory_entry data previous) (fun '(e, rest) =>
    utf8_valid (de_name e) = true /\ de_cookie e <> previous /\ remaining rest <= remaining data - 12).
Proof.
  unfold decode_directory_entry. wp. pose proof (padded_ge v0). wp; bool_hyps.
  pose proof (decode_getattr_response_no_panic rest2) as Hn. wp.
  pose proof (wpo_decode_getattr_envelope rest2) as He. unfold decode_getattr_response in *.
  destruct (decode_getattr_envelope rest2) as [[[bm vals] r]|e|]; cbn [obind] in *; [|done..].
  destruct (decode_fattr4_to_attr bm vals) as [[a' r']|e|]; cbn [obind] in *; [|done..].
  destruct He as [_ He]. apply suffix_length in He. wp. cbn. split_and!; [done|done|]. unfold remaining in *. lia.
Qed.

Lemma wpo_dirlist40 fuel previous data acc :
  Forall (fun r => r <> Panic) acc -> (forall e, Ok e ∈ acc -> utf8_valid (de_name e) = true) -> (length data < fuel)%nat ->
  wpo (dirlist40 fuel previous data acc) (fun '(l, _) =>
    Forall (fun r => r <> Panic) l /\ forall e, Ok e ∈ l -> utf8_valid (de_name e) = true).
Proof.
  assert (Herr : forall acc (x : NfsError), Forall (fun r : result DirectoryEntry => r <> Panic) acc ->
    (forall e, Ok e ∈ acc -> utf8_valid (de_name e) = true) ->
    Forall (fun r => r <> Panic) (acc ++ [Err x]) /\ forall e, Ok e ∈ acc ++ [Err x] -> utf8_valid (de_name e) = true).
  { intros acc0 x H1 H2. split; [apply Forall_app; split; [done|by constructor]|].
    intros e [Hx|Hx%list_elem_of_singleton]%elem_of_app; [by apply H2|done]. }
  revert previous data acc. induction fuel as [|fuel IH]; intros previous data acc H1 H2 Hf; [lia|]. cbn [dirlist40].
  apply wpo_if; intros Hr; [destruct acc; [done|apply Herr; done]|]. bool_hyps. wp; [done|by apply Herr|].
  pose proof (wpo_decode_directory_entry rest previous) as Hd.
  destruct (decode_directory_entry rest previous) as [[e rest']|x|]; cbn in Hd; [|by apply Herr|done].
  destruct Hd as (Hn & _ & Hl). apply IH; [|..|unfold remaining in *; lia].
  - apply Forall_app. split; [done|by constructor].
  - intros e' [Hx|Hx%list_elem_of_singleton]%elem_of_app; [by apply H2|by injection Hx as ->].
Qed.

Lemma wpo_decode_directory_page data cookie :
  wpo (decode_directory_page data cookie) (fun '(_, l, _) =>
    Forall (fun r => r <> Panic) l /\ forall e, Ok e ∈ l -> utf8_valid (de_name e) = true).
Proof.
  unfold decode_directory_page. wp. wp_call wpo_dirlist40; [done|set_solver|lia|].
  intros [l [rest'|]] [Hp Hu]; cbn; [|done].
  assert (Herr : forall x : NfsError, Forall (fun r => r <> Panic) (l ++ [Err x]) /\
    forall e, Ok e ∈ l ++ [Err x] -> utf8_valid (de_name e) = true).
  { intros x. split; [apply Forall_app; split; [done|by constructor]|].
    intros e [Hx|Hx%list_elem_of_singleton]%elem_of_app; [by apply Hu|done]. }
  apply wpo_if; intros Hr; [destruct l; [done|apply Herr]|]. bool_hyps. wp; [done|done|apply Herr].
Qed.

(** ** Pages on the wire (RFC 7530, section 16.24; RFC 8881, section 18.23) *)

Record wire_entry : Type := { we_cookie : Z; we_name : bytes; we_bitmap : list Z; we_vals : bytes }.

Definition wire_ok (e : wire_entry) : Prop :=
  is_u64 (we_cookie e) /\ utf8_valid (we_name e) = true /\ remaining (we_name e) < 2 ^ 32 /\
  (length (we_bitmap e) <= 16)%nat /\ Forall is_u32 (we_bitmap e) /\ remaining (we_vals e) < 2 ^ 32.
(** The attributes of an entry, if the values can be decoded. *)
Definition we_attr (e : wire_entry) : option Attr :=
  match decode_fattr4_to_attr (we_bitmap e) (we_vals e) with Ok (a, _) => Some a | _ => None end.

Definition wire_dirent (e : wire_entry) : bytes :=
  be_bytes 4 1 ++ be_bytes 8 (we_cookie e) ++ xdr_opaque (we_name e) ++ xdr_bitmap (we_bitmap e) ++ xdr_opaque (we_vals e).
Definition wire_page (verf : bytes) (es : list wire_entry) (eof : bool) : bytes :=
  verf ++ concat (map wire_dirent es) ++ be_bytes 4 0 ++ be_bytes 4 (b2z eof).

Definition made {T : Type} (mk : Z -> bytes -> option Attr -> T) (e : wire_entry) : T :=
  mk (we_cookie e) (we_name e) (we_attr e).
Definition last_key (cookie : Z) (es : list wire_entry) : Z := foldl (fun _ e => we_cookie e) cookie es.

Lemma decode_string_from_bytes_enc s rest :
  utf8_valid s = true -> remaining s < 2 ^ 32 -> decode_string_from_bytes (xdr_opaque s ++ rest) = Ok (s, rest).
Proof.
  intros Hu Hs. unfold decode_string_from_bytes, xdr_opaque. rewrite <- !app_assoc.
  rewrite require_app by (by rewrite remaining_xdr_u32). cbn [obind].
  unfold xdr_u32. rewrite get_u32_be by (pose proof (remaining_nonneg s); ilia). cbn [obind].
  destruct (opaque_body s rest) as (H1 & H2 & H3).
  rewrite H1; cbn [obind]. rewrite H2; cbn [obind]. rewrite H3; cbn [obind]. by rewrite utf8_lossy_id.
Qed.

Lemma fattr4_to_attr_no_panic bitmap vals : decode_fattr4_to_attr bitmap vals <> Panic.
Proof.
  eapply (wpo_no_panic _ (fun _ => True)). eapply wpo_mono; [apply wpo_run_steps, fattr4_steps_total|]. done.
Qed.

Lemma decode_entry_fattr4_enc e rest : wire_ok e ->
  decode_entry_fattr4 (xdr_bitmap (we_bitmap e) ++ xdr_opaque (we_vals e) ++ rest) = Ok (we_attr e, rest).
Proof.
  intros (_ & _ & _ & H1 & H2 & H3). unfold decode_entry_fattr4. rewrite decode_getattr_envelope_enc by done.
  unfold we_attr. pose proof (fattr4_to_attr_no_panic (we_bitmap e) (we_vals e)) as Hp.
  by destruct (decode_fattr4_to_attr _ _) as [[a r]|x|].
Qed.

Lemma length_wire_dirent e : (4 <= length (wire_dirent e))%nat.
Proof. unfold wire_dirent. rewrite length_app, length_be_bytes. lia. Qed.

Lemma dirlist_wire {T} (mk : Z -> bytes -> option Attr -> T) es fuel cookie rest :
  Forall wire_ok es -> (length es < fuel)%nat ->
  dirlist mk fuel cookie (concat (map wire_dirent es) ++ be_bytes 4 0 ++ rest) =
  Ok (map (made mk) es, last_key cookie es, rest).
Proof.
  intros Hes. revert fuel cookie. induction Hes as [|e es He Hes IH]; intros fuel cookie Hf;
    (destruct fuel as [|fuel]; [by cbn in Hf; lia|]); cbn [dirlist map concat].
  - rewrite app_nil_l. wire. done.
  - unfold wire_dirent. rewrite <- !app_assoc. pose proof He as (H1 & H2 & H3 & _).
    rewrite require_app by (rewrite remaining_be; lia). cbn [obind]. rewrite get_u32_be by done. cbn [obind Z.eqb].
    rewrite require_app by (rewrite remaining_be; lia). cbn [obind]. rewrite get_u64_be by done. cbn [obind].
    rewrite decode_string_from_bytes_enc by done. cbn [obind]. rewrite decode_entry_fattr4_enc by done. cbn [obind].
    rewrite IH by (cbn in Hf; lia). done.
Qed.

Lemma decode_page_wire {T} (mk : Z -> bytes -> option Attr -> T) maxcount cookie verf es eof :
  Forall wire_ok es -> length verf = 8%nat -> remaining (wire_page verf es eof) <= maxcount ->
  decode_page mk maxcount cookie (wire_page verf es eof) = Ok (map (made mk) es, last_key cookie es, verf, eof).
Proof.
  intros Hes Hv Hm. unfold decode_page. destruct (Z.ltb_spec maxcount (remaining (wire_page verf es eof))); [lia|].
  unfold wire_page. assert (Hr : remaining verf = 8) by (unfold remaining; lia).
  rewrite require_app by lia. cbn [obind]. rewrite split_to_app by done. cbn [obind].
  rewrite dirlist_wire; [|done|].
  2:{ rewrite length_app. enough (length es <= length (concat (map wire_dirent es)))%nat by lia. clear.
      induction es as [|e es IH]; [done|]. cbn [map concat length]. rewrite length_app. pose proof (length_wire_dirent e). lia. }
  cbn [obind]. rewrite require_ok by (rewrite remaining_be; lia). cbn [obind].
  rewrite <- (app_nil_r (be_bytes 4 (b2z eof))). rewrite get_u32_be by (destruct eof; done). by destruct eof.
Qed.

Lemma decode_directory_entry_wire e previous rest :
  wire_ok e -> we_cookie e <> previous -> is_Some (we_attr e) ->
  decode_directory_entry (be_bytes 8 (we_cookie e) ++ xdr_opaque (we_name e) ++ xdr_bitmap (we_bitmap e) ++
                          xdr_opaque (we_vals e) ++ rest) previous =
  Ok ({| de_cookie := we_cookie e; de_name := we_name e; de_attr := default Attr_default (we_attr e) |}, rest).
Proof.
  intros (H1 & H2 & H3 & H4 & H5 & H6) Hc [a Ha]. unfold decode_directory_entry. pose proof (remaining_nonneg (we_name e)).
  rewrite require_ok.
  2:{ rewrite !remaining_app, remaining_be, remaining_xdr_opaque. pose proof (padded_ge (remaining (we_name e))).
      pose proof (remaining_nonneg rest). pose proof (remaining_nonneg (xdr_bitmap (we_bitmap e))).
      pose proof (remaining_nonneg (xdr_opaque (we_vals e))). lia. }
  cbn [obind]. rewrite get_u64_be by done. cbn [obind]. destruct (Z.eqb_spec (we_cookie e) previous); [done|].
  unfold xdr_opaque at 1. rewrite <- !app_assoc. unfold xdr_u32. rewrite get_u32_be by ilia. cbn [obind].
  rewrite app_assoc. rewrite require_app.
  2:{ rewrite remaining_app, remaining_zeros, padded_pad_len; [lia|]. pose proof (pad_len_range (remaining (we_name e))). lia. }
  cbn [obind]. rewrite <- app_assoc, split_to_app by done. cbn [obind]. rewrite H2. cbn [negb].
  rewrite advance_app; [|rewrite remaining_zeros, padded_pad_len; [lia|pose proof (pad_len_range (remaining (we_name e))); lia]].
  cbn [obind]. unfold decode_getattr_response. rewrite decode_getattr_envelope_enc by done. cbn [obind].
  unfold we_attr in *. destruct (decode_fattr4_to_attr _ _) as [[a' r]|x|]; [|done..]. cbn. done.
Qed.

(** Consecutive cookies differ, starting after [cookie]. *)
Fixpoint advances (cookie : Z) (es : list wire_entry) : Prop :=
  match es with [] => True | e :: es => we_cookie e <> cookie /\ advances (we_cookie e) es end.

Definition made40 (e : wire_entry) : DirectoryEntry :=
  {| de_cookie := we_cookie e; de_name := we_name e; de_attr := default Attr_default (we_attr e) |}.

Lemma dirlist40_wire es fuel cookie rest acc :
  Forall wire_ok es -> Forall (fun e => is_Some (we_attr e)) es -> advances cookie es -> (length es < fuel)%nat ->
  dirlist40 fuel cookie (concat (map wire_dirent es) ++ be_bytes 4 0 ++ rest) acc =
  Ok (acc ++ map (fun e => Ok (made40 e)) es, Some rest).
Proof.
  intros Hes Ha. revert fuel cookie acc. induction Hes as [|e es He Hes IH]; intros fuel cookie acc Had Hf;
    (destruct fuel as [|fuel]; [by cbn in Hf; lia|]); cbn [dirlist40 map concat].
  - rewrite app_nil_l, app_nil_r. destruct (Z.ltb_spec (remaining (be_bytes 4 0 ++ rest)) 4) as [Hlt|_].
    { rewrite remaining_app, remaining_be in Hlt. pose proof (remaining_nonneg rest). lia. }
    by rewrite get_u32_be by done.
  - apply Forall_cons in Ha as [Hs Ha]. destruct Had as [Hc Had]. unfold wire_dirent. rewrite <- !app_assoc.
    match goal with |- context [remaining ?b <? 4] => destruct (Z.ltb_spec (remaining b) 4) as [Hlt|_] end.
    { rewrite remaining_app, remaining_be in Hlt. match type of Hlt with _ + remaining ?b < _ => pose proof (remaining_nonneg b) end. lia. }
    rewrite get_u32_be by done. cbn [obind Z.eqb negb Pos.eqb]. rewrite decode_directory_entry_wire by done.
    cbn [de_cookie]. rewrite IH; [|done|done|cbn in Hf; lia]. by rewrite <- app_assoc.
Qed.

Lemma last_cookie40_made cookie es : last_cookie40 cookie (map (fun e => Ok (made40 e)) es) = last_key cookie es.
Proof. unfold last_cookie40, last_key. revert cookie. induction es as [|e es IH]; intros cookie; [done|]. apply IH. Qed.

Lemma decode_page40_wire {T} (mk : DirectoryEntry -> T) cookie verf es eof :
  Forall wire_ok es -> Forall (fun e => is_Some (we_attr e)) es -> advances cookie es -> length verf = 8%nat ->
  decode_page40 mk cookie (wire_page verf es eof) =
  Ok (map (fun e => Ok (mk (made40 e))) es, last_key cookie es, verf, eof).
Proof.
  intros Hes Ha Had Hv. unfold decode_page40, decode_directory_page, wire_page.
  assert (Hr : remaining verf = 8) by (unfold remaining; lia).
  rewrite require_app by lia. cbn [obind]. rewrite split_to_app by done. cbn [obind].
  rewrite dirlist40_wire; [|done..|].
  2:{ rewrite length_app. enough (length es <= length (concat (map wire_dirent es)))%nat by lia. clear.
      induction es as [|e es IH]; [done|]. cbn [map concat length]. rewrite length_app. pose proof (length_wire_dirent e). lia. }
  cbn [obind app]. rewrite remaining_be. change (Z.of_nat 4 <? 4) with false. cbn iota.
  rewrite <- (app_nil_r (be_bytes 4 (b2z eof))). rewrite get_u32_be by (destruct eof; done).
  destruct eof; cbn [obind b2z Z.eqb Pos.eqb]; rewrite last_cookie40_made, map_map; done.
Qed.

(** ** An honest server *)

(** The promise of a server over a directory that does not change: a page
    continues after the cookie it is asked for, makes progress unless it ends
    the directory, fits the limit, and carries the directory's verifier, which
    the client gives back with every later cookie. *)
Class WireServer {W : Type} (dir : list wire_entry) (verf : bytes) (maxcount : Z)
    (serve : Z -> bytes -> W -> result bytes * W) : Prop := {
  ws_entries : Forall wire_ok dir;
  ws_cookies : NoDup (0 :: map we_cookie dir);
  ws_verf : length verf = 8%nat;
  ws_page : forall pre post w, dir = pre ++ post ->
    exists run rest eof, post = run ++ rest /\
      (serve (last_key 0 pre) (if Nat.eqb (length pre) 0 then zeros 8 else verf) w).1 = Ok (wire_page verf run eof) /\
      remaining (wire_page verf run eof) <= maxcount /\ (eof = true -> rest = []) /\ (eof = false -> run <> []);
}.

(** The pages of the two versions over the data of READDIR results. *)
Definition fetch41 {T W : Type} (mk : Z -> bytes -> option Attr -> T) (maxcount : Z)
    (serve : Z -> bytes -> W -> result bytes * W) (cookie : Z) (verf : bytes) (w : W) :=
  let '(data, w) := serve cookie verf w in (let* data := data in decode_page mk maxcount cookie data, w).
Definition fetch40 {T W : Type} (mk : DirectoryEntry -> T) (maxcount : Z)
    (serve : Z -> bytes -> W -> result bytes * W) (cookie : Z) (verf : bytes) (w : W) :=
  let '(data, w) := serve cookie verf w in
  (let* payload := data in
   let* data := validate_readdir_payload payload maxcount in decode_page40 mk cookie data, w).

Lemma last_key_app c a b : last_key c (a ++ b) = last_key (last_key c a) b.
Proof. unfold last_key. apply foldl_app. Qed.

Lemma last_key_in c es : es <> [] -> last_key c es ∈ map we_cookie es.
Proof.
  intros H. destruct (exists_last H) as (l & e & ->). rewrite last_key_app. cbn. rewrite map_app. set_solver.
Qed.

Lemma advances_NoDup c es : NoDup (c :: map we_cookie es) -> advances c es.
Proof.
  revert c. induction es as [|e es IH]; intros c; [done|]. cbn [map advances]. rewrite !NoDup_cons.
  intros (H1 & H2 & H3). split; [set_solver|]. apply IH. by apply NoDup_cons.
Qed.

Section Honest.
Context {W : Type} (dir : list wire_entry) (verf : bytes) (maxcount : Z) (serve : Z -> bytes -> W -> result bytes * W).
Context `{HS : !WireServer dir verf maxcount serve}.

(** The cookie a run ends with was not seen before it. *)
Lemma run_ends_fresh pre run rest :
  dir = pre ++ run ++ rest -> run <> [] -> last_key (last_key 0 pre) run ∉ 0 :: map we_cookie pre.
Proof.
  intros Hd Hr Hin. pose proof (last_key_in (last_key 0 pre) run Hr) as Hl. pose proof ws_cookies as Hnd.
  rewrite Hd, !map_app, app_comm_cons in Hnd. apply NoDup_app in Hnd as (_ & Hx & _).
  apply (Hx _ Hin). set_solver.
Qed.

Lemma run_advances pre run rest : dir = pre ++ run ++ rest -> advances (last_key 0 pre) run.
Proof.
  intros Hd. apply advances_NoDup. pose proof ws_cookies as Hnd. rewrite Hd, !map_app in Hnd.
  destruct (decide (pre = [])) as [->|Hp].
  - cbn [app map last_key foldl] in *. rewrite app_comm_cons in Hnd. by apply NoDup_app in Hnd as (? & _ & _).
  - rewrite app_comm_cons in Hnd. pose proof (last_key_in 0 pre Hp) as Hin.
    apply NoDup_app in Hnd as (_ & Hx & Hnd). apply NoDup_cons. split.
    + intros H. apply (Hx (last_key 0 pre)); set_solver.
    + by apply NoDup_app in Hnd as (? & _ & _).
Qed.

Lemma stream41_from {T} (mk : Z -> bytes -> option Attr -> T) fuel pre post cursor w :
  dir = pre ++ post -> (length post < fuel)%nat ->
  dc_cookie cursor = last_key 0 pre -> dc_verifier cursor = (if Nat.eqb (length pre) 0 then zeros 8 else verf) ->
  (forall c, c ∈ dc_seen cursor -> c ∈ 0 :: map we_cookie pre) ->
  (directory_stream (fetch41 mk maxcount serve) fuel cursor w).1 = (map (made mk) post, Ended).
Proof.
  revert pre post cursor w. induction fuel as [|fuel IH]; intros pre post cursor w Hd Hf Hc Hv Hs; [lia|].
  unfold directory_stream. cbn [page_stream]. unfold counted, fetch41. rewrite Hc, Hv.
  destruct (ws_page pre post w Hd) as (run & rest & eof & -> & Hp & Hm & He & Hne).
  destruct (serve _ _ w) as [data w1]. cbn in Hp. subst data. cbn [obind].
  pose proof ws_entries as Hok. rewrite Hd in Hok. apply Forall_app in Hok as [_ Hok]. apply Forall_app in Hok as [Hok _].
  rewrite decode_page_wire by (done || apply ws_verf). cbn [obind]. unfold cursor_advance. rewrite length_map.
  destruct run as [|e0 run0] eqn:Erun; [destruct eof; [|by destruct (Hne eq_refl)]|rewrite <- Erun in *].
  { specialize (He eq_refl) as ->. done. }
  assert (Hr : run <> []) by (by rewrite Erun). assert (Hl : Nat.eqb (length run) 0 = false) by (by rewrite Erun).
  rewrite Hl. cbn [negb andb orb]. rewrite andb_false_r. cbn [orb]. rewrite bool_decide_false by (intros Hin; by apply (run_ends_fresh pre run rest Hd Hr), Hs).
  cbn [obind]. destruct eof; cbn [negb].
  { specialize (He eq_refl) as ->. by rewrite app_nil_r. }
  match goal with |- context [page_stream _ fuel ?c w1] => pose proof (IH (pre ++ run) rest c w1) as IH' end.
  unfold directory_stream in IH'. destruct (page_stream _ _ _ _) as [[items en] w2]. cbn [fst] in *.
  enough (Heq : (items, en) = (map (made mk) rest, Ended)) by (injection Heq as -> ->; by rewrite map_app). apply IH'.
  - by rewrite <- app_assoc.
  - rewrite length_app in Hf. destruct run; [done|cbn in Hf; lia].
  - cbn. by rewrite last_key_app.
  - cbn. rewrite length_app. destruct run; [done|]. by rewrite Nat.add_comm.
  - cbn. intros c [->%elem_of_singleton|Hx]%elem_of_union; rewrite map_app.
    + pose proof (last_key_in (last_key 0 pre) run Hr). set_solver.
    + specialize (Hs c Hx). set_solver.
Qed.

Lemma stream40_from {T} (mk : DirectoryEntry -> T) what fuel pre post w :
  Forall (fun e => is_Some (we_attr e)) dir -> dir = pre ++ post -> (length post < fuel)%nat ->
  (stream40 (fetch40 mk maxcount serve) what fuel (last_key 0 pre) (if Nat.eqb (length pre) 0 then zeros 8 else verf) w).1 =
  (map (fun e => Ok (mk (made40 e))) post, Ended).
Proof.
  intros Ha. revert pre post w. induction fuel as [|fuel IH]; intros pre post w Hd Hf; [lia|].
  cbn [stream40]. unfold fetch40 at 1.
  destruct (ws_page pre post w Hd) as (run & rest & eof & -> & Hp & Hm & He & Hne).
  destruct (serve _ _ w) as [data w1]. cbn in Hp. subst data. cbn [obind].
  pose proof ws_entries as Hok. rewrite Hd in Hok. apply Forall_app in Hok as [_ Hok]. apply Forall_app in Hok as [Hok _].
  pose proof Ha as Har. rewrite Hd in Har. apply Forall_app in Har as [_ Har]. apply Forall_app in Har as [Har _].
  unfold validate_readdir_payload. destruct (Z.ltb_spec maxcount (remaining (wire_page verf run eof))); [lia|]. cbn [obind].
  rewrite decode_page40_wire by (done || apply ws_verf || by eapply run_advances). rewrite length_map.
  destruct eof; cbn [negb].
  { specialize (He eq_refl) as ->. rewrite app_nil_r, andb_false_r. cbn [andb]. done. }
  specialize (Hne eq_refl). destruct run as [|e0 run0] eqn:Erun; [done|]. rewrite <- Erun in *.
  assert (Hl : Nat.eqb (length run) 0 = false) by (by rewrite Erun). rewrite Hl. cbn [andb].
  specialize (IH (pre ++ run) rest w1). rewrite <- app_assoc in IH. specialize (IH Hd).
  rewrite last_key_app, length_app in IH.
  assert (Hz : Nat.eqb (length pre + length run) 0 = false) by (rewrite Erun, Nat.add_comm; done). rewrite Hz in IH.
  destruct (stream40 _ _ _ _ _ w1) as [[items en] w2]. cbn [fst] in *.
  rewrite length_app, Erun in Hf. cbn in Hf.
  assert (Heq : (items, en) = (map (fun e => Ok (mk (made40 e))) rest, Ended)) by (apply IH; lia).
  injection Heq as -> ->. by rewrite map_app.
Qed.
End Honest.

(** ** Properties *)

(** C30: a listing is complete and exact. Against every server that serves a
    directory page by page as the protocol prescribes, in pages of any sizes, the
    NFSv4.1 streams end and yield every entry once, in the server's order, with
    the decoded attributes (an entry whose attribute values cannot be decoded is
    still listed, with its cookie as the file id), and the NFSv4.0 streams yield
    the same when all attributes decode. *)
Theorem readdir_lists_directory {W : Type} dir verf maxcount (serve : Z -> bytes -> W -> result bytes * W) fuel w :
  WireServer dir verf maxcount serve -> (length dir < fuel)%nat ->
  (directory_stream (fetch41 make_entry maxcount serve) fuel cursor_default w).1 = (map (made make_entry) dir, Ended) /\
  (directory_stream (fetch41 make_plus_entry maxcount serve) fuel cursor_default w).1 = (map (made make_plus_entry) dir, Ended) /\
  (Forall (fun e => is_Some (we_attr e)) dir ->
   (stream40 (fetch40 entry40 maxcount serve) "READDIR" fuel 0 (zeros 8) w).1 =
     (map (fun e => Ok (made make_entry e)) dir, Ended) /\
   (stream40 (fetch40 plus_entry40 maxcount serve) "READDIRPLUS" fuel 0 (zeros 8) w).1 =
     (map (fun e => Ok (made make_plus_entry e)) dir, Ended)).
Proof.
  intros HS Hf.
  assert (H41 : forall T (mk : Z -> bytes -> option Attr -> T),
    (directory_stream (fetch41 mk maxcount serve) fuel cursor_default w).1 = (map (made mk) dir, Ended)).
  { intros T mk. apply (stream41_from dir verf maxcount serve mk fuel [] dir); try done. cbn. set_solver. }
  split; [apply H41|]. split; [apply H41|]. intros Ha.
  assert (H40 : forall T (mk : DirectoryEntry -> T) mk41 what,
    Forall (fun e => mk (made40 e) = made mk41 e) dir ->
    (stream40 (fetch40 mk maxcount serve) what fuel 0 (zeros 8) w).1 = (map (fun e => Ok (made mk41 e)) dir, Ended)).
  { intros T mk mk41 what Hmk. pose proof (stream40_from dir verf maxcount serve mk what fuel [] dir w Ha eq_refl Hf) as Hs. cbn [length Nat.eqb] in Hs.
    change (last_key 0 []) with 0 in Hs. rewrite Hs.
    f_equal. clear -Hmk. induction Hmk as [|e es He _ IH]; [done|]. cbn. by rewrite He, IH. }
  split; apply H40; (eapply Forall_impl; [exact Ha|]); intros e [a Hs]; unfold made, made40; by rewrite Hs.
Qed.

(** Two entries in pages of one; the second entry's attributes are not wanted. *)
Definition demo_dir : list wire_entry :=
  [{| we_cookie := 7; we_name := of_str "a"; we_bitmap := [1048576]; we_vals := be_bytes 8 42 |};
   {| we_cookie := 3; we_name := of_str "b"; we_bitmap := [0]; we_vals := [] |}].
Definition demo_verf : bytes := be_bytes 8 99.
Definition demo_serve (cookie : Z) (_ : bytes) (w : ()) : result bytes * () :=
  (Ok (if cookie =? 0 then wire_page demo_verf (firstn 1 demo_dir) false
       else if cookie =? 7 then wire_page demo_verf (skipn 1 demo_dir) true else wire_page demo_verf [] true), w).

Lemma demo_serves : WireServer demo_dir demo_verf 100 demo_serve.
Proof.
  split.
  - repeat constructor; try done; by vm_compute.
  - apply (bool_decide_unpack _). by vm_compute.
  - done.
  - intros pre post w Hd. destruct pre as [|p0 [|p1 pre]]; cbn [app demo_dir] in Hd.
    + subst post. exists (firstn 1 demo_dir), (skipn 1 demo_dir), false. split_and!; try done; by vm_compute.
    + injection Hd as <- <-. exists (skipn 1 demo_dir), [], true. split_and!; try done; by vm_compute.
    + injection Hd as <- <- Hd. destruct pre, post; try done. exists [], [], true. split_and!; try done; by vm_compute.
Qed.

Lemma readdir_lists_directory_witness :
  (directory_stream (fetch41 make_entry 100 demo_serve) 3 cursor_default ()).1 = (map (made make_entry) demo_dir, Ended).
Proof. apply (readdir_lists_directory demo_dir demo_verf 100 demo_serve 3 ()); [apply demo_serves|cbn; lia]. Defined.

Lemma page_stream_ends {T W} (S : gset Z) (fetch : Z -> bytes -> W -> result (list T * Z * bytes * nat * bool) * W) fuel cursor w :
  (forall c v w items cookie verf n eof, (fetch c v w).1 = Ok (items, cookie, verf, n, eof) -> cookie ∈ S) ->
  (size (S ∖ dc_seen cursor) < fuel)%nat -> (page_stream fetch fuel cursor w).1.2 <> Unfinished.
Proof.
  intros HS. revert cursor w. induction fuel as [|fuel IH]; intros cursor w Hf; [lia|]. cbn [page_stream].
  pose proof (HS (dc_cookie cursor) (dc_verifier cursor) w) as HS'.
  destruct (fetch _ _ w) as [[[[[[items cookie] verf] n] eof]|e|] w1]; cbn [obind fst] in *; [|done..].
  specialize (HS' _ _ _ _ _ eq_refl). unfold cursor_advance.
  destruct (Nat.eqb_spec n 0) as [Hn|Hn]; cbn [negb andb].
  - rewrite andb_true_r, orb_false_r. destruct eof; done.
  - rewrite andb_false_r. cbn [orb]. case_bool_decide as Hin; [done|]. cbn [obind]. destruct eof; [done|]. cbn [negb].
    match goal with |- context [page_stream fetch fuel ?c w1] => specialize (IH c w1) end.
    destruct (page_stream _ _ _ _) as [[rest en] w2]. cbn [fst snd] in *. apply IH. cbn.
    assert (Hsub : S ∖ ({[cookie]} ∪ dc_seen cursor) ⊂ S ∖ dc_seen cursor) by set_solver.
    apply subset_size in Hsub. lia.
Qed.

(** No server keeps a listing going forever. Whatever pages it sends, in
    whatever order, as long as it uses finitely many cookies the NFSv4.1 and
    NFSv3 streams end or fail after at most one page more than there are cookies:
    a page boundary never repeats. *)
Theorem listing_terminates {T W : Type} (S : gset Z) fuel w
    (fetch : Z -> bytes -> W -> result (list T * Z * bytes * bool) * W)
    (convert : entry3 -> T) (fetch3 : Z -> bytes -> W -> result DirectoryReply * W) :
  (forall c v w items cookie verf eof, (fetch c v w).1 = Ok (items, cookie, verf, eof) -> cookie ∈ S) ->
  (forall c v w r, (fetch3 c v w).1 = Ok r -> last_cookie3 c (dr_entries r) ∈ S) ->
  (size S < fuel)%nat ->
  (directory_stream fetch fuel cursor_default w).1.2 <> Unfinished /\
  (paged_dir_stream convert fetch3 fuel cursor_default w).1.2 <> Unfinished.
Proof.
  intros H H3 Hf. assert (Hs : (size (S ∖ dc_seen cursor_default) < fuel)%nat).
  { eapply Nat.le_lt_trans; [|exact Hf]. apply subseteq_size. set_solver. }
  split; (eapply page_stream_ends; [|exact Hs]).
  - intros c v w' items cookie verf n eof. unfold counted. specialize (H c v w'). destruct (fetch c v w') as [[[[[l k] vf] e]|e|] w1];
      cbn in *; [|done..]. intros [= <- <- <- <- <-]. by eapply H.
  - intros c v w' items cookie verf n eof. unfold page3. specialize (H3 c v w'). destruct (fetch3 c v w') as [[r|e|] w1];
      cbn in *; [|done..]. intros [= <- <- <- <- <-]. by apply H3.
Qed.

(** A server that sends the same page again and again. *)
Definition stuck_page (_ : Z) (_ : bytes) (w : ()) : result (list Z * Z * bytes * bool) * () := (Ok ([5], 1, demo_verf, false), w).
Definition stuck_page3 (_ : Z) (_ : bytes) (w : ()) : result DirectoryReply * () :=
  (Ok {| dr_cookieverf := demo_verf; dr_eof := false;
         dr_entries := [{| e3_fileid := 5; e3_name := of_str "x"; e3_cookie := 1; e3_attr := None; e3_handle := [] |}] |}, w).

Lemma listing_terminates_witness :
  (directory_stream stuck_page 2 cursor_default ()).1.2 <> Unfinished /\
  (paged_dir_stream e3_fileid stuck_page3 2 cursor_default ()).1.2 <> Unfinished.
Proof.
  apply (listing_terminates {[1]} 2 () stuck_page e3_fileid stuck_page3).
  - intros c v w items cookie verf eof [= <- <- <- <-]. set_solver.
  - intros c v w r [= <-]. cbn. set_solver.
  - rewrite size_singleton. lia.
Defined.

(** The NFSv4.0 streams have no such guard: a server that alternates between two
    pages keeps them going forever. *)
Definition alternating (cookie : Z) (_ : bytes) (w : ()) : result (list (result Z) * Z * bytes * bool) * () :=
  (Ok ([Ok cookie], 3 - cookie, demo_verf, false), w).

Lemma listing40_may_never_end fuel : (stream40 alternating "READDIR" fuel 1 demo_verf ()).1.2 = Unfinished /\
  (stream40 alternating "READDIR" fuel 2 demo_verf ()).1.2 = Unfinished.
Proof.
  induction fuel as [|fuel [IH1 IH2]]; [done|]. cbn [stream40 alternating length Nat.eqb andb].
  change (3 - 1) with 2. change (3 - 2) with 1.
  destruct (stream40 _ _ fuel 1 _ _) as [[? ?] ?], (stream40 _ _ fuel 2 _ _) as [[? ?] ?]. done.
Qed.

(** Whatever bytes a server sends as a directory page, neither version's decoder
    panics. *)
Lemma directory_pages_never_panic maxcount cookie data :
  decode_page make_plus_entry maxcount cookie data <> Panic /\ decode_page40 plus_entry40 cookie data <> Panic.
Proof.
  split; [by apply (wpo_no_panic _ (fun '(l, _, _, _) => Forall (fun e => utf8_valid (rpe_file_name e) = true) l)), wpo_decode_page|].
  apply (wpo_no_panic _ (fun _ => True)). unfold decode_page40. apply wpo_bind.
  eapply wpo_mono; [apply wpo_decode_directory_page|]. by intros [[verifier l] eof] _.
Qed.
