(* ===== verification/Ops41.v ===== *)
(** * File operations of NFSv4.1 and NFSv4.2

    Models the operations of [Mount41] that build one or several COMPOUNDs and
    decode their results: [src/src/nfs41/lookup.rs], [getattr.rs], [read.rs],
    [write.rs], [setattr.rs], [dir_ops.rs], [acl_ops.rs], [readdir.rs],
    [xattr.rs], [v42_ops.rs] and [v42_xattr.rs], and the decoders they share in
    [src/src/nfs41/mount.rs].

    An operation is a function of the mount's state and returns a result and the
    new state. The request engine ([compound]), the pNFS paths and the session's
    values are given by an [Engine]; a call of the engine may change the whole
    state, which covers what other tasks do while the operation waits. The locks
    of the layout manager and of the write owner only order tasks and are left
    out here; errors that the write owner has recorded are part of the state. *)
From Stdlib Require Import Strings.Byte.
From S2P Require Import Prelude Errors WriteOwner Xdr4 Acl4 Attrs4 Compound41 V42 Response41 State41 LayoutMgr Callback PnfsIo Listing.
From stdpp Require Import base list numbers strings gmap.
#[local] Open Scope Z_scope.


(** ** Decoders *)

Definition decode_fh (data : bytes) : result (bytes * bytes) :=
  let* _ := require 4 (Xdr "fh length truncated") data in
  let* (len, data) := get_u32 data in
  let* _ := require (padded len) (Xdr "fh data truncated") data in
  let* fh := slice_to len data in
  let* data := advance (padded len) data in
  Ok (fh, data).

Definition extract_stateid (data : bytes) : result (bytes * bytes) :=
  let* _ := require 16 (Xdr "stateid4 truncated") data in
  split_to 16 data.

(** The delegation of an OPEN result after its state id; [None] for everything
    that cannot be read. *)
Definition extract_open_delegation (data : bytes) : option bytes :=
  if remaining data <? 28 then None
  else
    let words := be_val (firstn 4 (skipn 24 data)) in
    let data := skipn 28 data in
    if (16 <? words) || (remaining data <? words * 4 + 4) then None
    else
      let data := skipn (Z.to_nat (words * 4)) data in
      let delegation_type := be_val (firstn 4 data) in
      let data := skipn 4 data in
      if ((delegation_type =? 1) || (delegation_type =? 2)) && (16 <=? remaining data)
      then Some (firstn 16 data) else None.

Definition parse_change_info (data : bytes) : option (bool * Z * Z) :=
  if remaining data <? 20 then None
  else Some (negb (be_val (firstn 4 data) =? 0), be_val (firstn 8 (skipn 4 data)), be_val (firstn 8 (skipn 12 data))).

(** [data.get_u32()] after a check for all words that follow. *)
Definition decode_access (data : bytes) : result Z :=
  let* _ := require 8 (Xdr "ACCESS result too short") data in
  let* (_, data) := get_u32 data in
  let* (access, _) := get_u32 data in
  Ok access.

Definition decode_read (data : bytes) : result bytes :=
  let* _ := require 4 (Xdr "READ result too short") data in
  let* (eof, data) := get_u32 data in
  let* _ := require 4 (Xdr "READ data length missing") data in
  let* (data_len, data) := get_u32 data in
  let* _ := require data_len (Xdr "READ data truncated") data in
  let* s := slice_to data_len data in
  read_reply s (negb (eof =? 0)).

Definition decode_write (data : bytes) : result WriteOutcome :=
  let* _ := require 16 (Xdr "WRITE result too short") data in
  let* (count, data) := get_u32 data in
  let* (committed, data) := get_u32 data in
  let* (verifier, _) := split_to 8 data in
  let* c := WriteCommitted_try_from committed in
  Ok {| wo_count := count; wo_committed := c; wo_verifier := Some verifier; wo_pnfs := None |}.

Definition decode_commit (data : bytes) : result bytes :=
  let* _ := require 8 (Xdr "COMMIT result too short") data in
  let* (verifier, _) := split_to 8 data in
  Ok verifier.

(** [verify_write_batch] of [mount.rs] *)
Definition verify_write_batch (p : NFSVersion) (writes : list WriteOutcome) (actual : option bytes) : result () :=
  if existsb (fun w => negb (bool_decide (wo_committed w = FileSync)) &&
                       match wo_verifier w with
                       | Some expected => negb (bool_decide (actual = Some expected))
                       | None => false
                       end) writes
  then Err (write_verifier_changed p) else Ok ().

Record ObjRes : Type := { o_fh : bytes; o_attr : option Attr }.

(** The results of [GETFH] and [GETATTR], as most operations end. *)
Definition object_at (r : CompoundResponse) (i : nat) : result ObjRes :=
  let* getfh := op_ok r i in
  let* (fh, _) := decode_fh (op_data getfh) in
  let* getattr := op_ok r (S i) in
  let* (attr, _) := decode_getattr_response (op_data getattr) in
  Ok {| o_fh := fh; o_attr := Some attr |}.

(** Every result from [i] on, [n] of them, is a success. *)
Fixpoint ops_ok (r : CompoundResponse) (i n : nat) : result () :=
  match n with
  | O => Ok ()
  | S n => let* _ := op_ok r i in ops_ok r (S i) n
  end.

(** [path.split('/')] and the filter of [lookup_path] *)
Fixpoint split_slash (cur : bytes) (path : bytes) : list bytes :=
  match path with
  | [] => [cur]
  | c :: path => if bool_decide (c = x2f) then cur :: split_slash [] path else split_slash (cur ++ [c]) path
  end.
Definition components (path : bytes) : list bytes :=
  List.filter (fun c => negb (bool_decide (c = [])) && negb (bool_decide (c = [x2e]))) (split_slash [] path).

(** ** The mount *)

Record Config : Type := {
  root_fh : bytes; retain_delegations : bool; rsize : Z; wsize : Z; self_dircount : Z; self_maxcount : Z;
  minor_version : MinorVersion
}.
Definition protocol_of (c : Config) : NFSVersion := match minor_version c with V1 => NFSv4p1 | V2 => NFSv4p2 end.

Section Mount41.
Context {X : Type}.

(** [m_writes] is the write owner, of which only the recorded errors matter here
    ([WriteOwner] and [Owned42] have its tasks and locks); [m_ext] is the rest:
    sessions, layouts, the server. *)
Record Mount41 : Type := {
  m_state : StateManager; m_recalls : Channel; m_writes : WriteOwner.WriteOwner; m_ext : X
}.
Definition set_state (w : Mount41) (s : StateManager) : Mount41 :=
  {| m_state := s; m_recalls := m_recalls w; m_writes := m_writes w; m_ext := m_ext w |}.
Definition set_recalls (w : Mount41) (c : Channel) : Mount41 :=
  {| m_state := m_state w; m_recalls := c; m_writes := m_writes w; m_ext := m_ext w |}.

Definition M (A : Type) : Type := Mount41 -> result A * Mount41.
Definition retM {A} (a : A) : M A := fun w => (Ok a, w).
Definition failM {A} (e : NfsError) : M A := fun w => (Err e, w).
Definition lift {A} (r : result A) : M A := fun w => (r, w).
Definition gets {A} (f : Mount41 -> A) : M A := fun w => (Ok (f w), w).
Definition bindM {A B} (c : M A) (k : A -> M B) : M B := fun w =>
  match c w with
  | (Ok a, w) => k a w
  | (Err e, w) => (Err e, w)
  | (Panic, w) => (Panic, w)
  end.
(** The result as a value, as for [match result { ... }]. *)
Definition attempt {A} (c : M A) : M (result A) := fun w =>
  match c w with
  | (Panic, w) => (Panic, w)
  | (r, w) => (Ok r, w)
  end.
#[local] Notation "'let!' x ':=' c 'in' k" := (bindM c (fun x => k))
  (at level 10, x pattern, c at level 100, k at level 200).

(** What the operations use of the rest of the mount: [compound] with its write
    data and its progress index, the pNFS paths, and values of the session. *)
Record Engine : Type := {
  engine_compound : option bytes -> option nat -> bytes -> (CompoundBuilder -> CompoundBuilder) -> M CompoundResponse;
  engine_pnfs_read : bytes -> Z -> Z -> M (option (result bytes));
  engine_write_pnfs : bytes -> Z -> bytes -> M (option (result WriteOutcome));
  engine_commit_pending : bytes -> list PendingWrite -> M ();
  engine_flush_layoutcommit : bytes -> M ();
  engine_layoutreturn : bytes -> M ();
  engine_return_on_close : bytes -> Mount41 -> bool;
  engine_client_id : Mount41 -> Z;
  engine_generation : Mount41 -> Z;
  engine_max_response_size : Mount41 -> Z;
}.

Context (cfg : Config) (eng : Engine).

Definition compound (tag : string) := engine_compound eng None None (of_str tag).
Definition compound_write (tag : string) (data : bytes) := engine_compound eng (Some data) None (of_str tag).
Definition compound_preserving_progress (tag : string) (index : nat) := engine_compound eng None (Some index) (of_str tag).

(** ** Lookup and attributes *)

Definition lookup (dir_fh filename : bytes) : M ObjRes :=
  let! resp := compound "lookup"
    (fun b => Compound41.getattr standard_getattr_bitmap (Compound41.getfh (Compound41.lookup_name filename (Compound41.putfh dir_fh b)))) in
  let! _ := lift (ops_ok resp 1 2) in
  lift (object_at resp 3).

Definition lookup_path (path : bytes) : M ObjRes :=
  let comps := components path in
  if Nat.eqb (length comps) 0 then retM {| o_fh := root_fh cfg; o_attr := None |}
  else
    let! resp := compound "lookup_path"
      (fun b => Compound41.getattr standard_getattr_bitmap (Compound41.getfh
         (foldl (fun b c => Compound41.lookup_name c b) (Compound41.putfh (root_fh cfg) b) comps))) in
    let n := length comps in
    let! _ := lift (ops_ok resp 2 n) in
    lift (object_at resp (2 + n)).

Definition getattr (fh : bytes) : M Attr :=
  let! resp := compound "getattr" (fun b => Compound41.getattr standard_getattr_bitmap (Compound41.putfh fh b)) in
  let! _ := lift (op_ok resp 1) in
  let! op := lift (op_ok resp 2) in
  let! (a, _) := lift (decode_getattr_response (op_data op)) in
  retM a.

Definition getattr_path (path : bytes) : M Attr :=
  let! obj := lookup_path path in getattr (o_fh obj).

Definition access (fh : bytes) (mode : Z) : M Z :=
  let! resp := compound "access" (fun b => Compound41.access mode (Compound41.putfh fh b)) in
  let! _ := lift (op_ok resp 1) in
  let! op := lift (op_ok resp 2) in
  lift (decode_access (op_data op)).

Definition access_path (path : bytes) (mode : Z) : M Z :=
  let! obj := lookup_path path in access (o_fh obj) mode.

Definition readlink (fh : bytes) : M bytes :=
  let! resp := compound "readlink" (fun b => Compound41.readlink (Compound41.putfh fh b)) in
  let! _ := lift (op_ok resp 1) in
  let! op := lift (op_ok resp 2) in
  let! (s, _) := lift (decode_string_from_bytes (op_data op)) in
  retM s.

Definition readlink_path (path : bytes) : M bytes :=
  let! obj := lookup_path path in readlink (o_fh obj).

(** ** Reading *)

Definition open_or_anonymous (fh : bytes) (mode : AccessMode.t) (w : Mount41) : StateId :=
  match has_open (m_state w) fh mode with Some sid => sid | None => anonymous end.

Definition mds_read (fh : bytes) (offset count : Z) : M bytes :=
  let! sid := gets (open_or_anonymous fh AccessMode.Read) in
  let! resp := compound "read"
    (fun b => Compound41.read (raw sid) offset count (Compound41.putfh fh (Compound41.require_generation b (generation sid)))) in
  let! _ := lift (op_ok resp 1) in
  let! op := lift (op_ok resp 2) in
  lift (decode_read (op_data op)).

(** [read_budgeted] *)
Definition read (fh : bytes) (offset count : Z) : M bytes :=
  if count =? 0 then retM []
  else
    let! tried := engine_pnfs_read eng fh offset count in
    match tried with
    | Some r => lift r
    | None => mds_read fh offset count
    end.

Definition read_path (path : bytes) (offset count : Z) : M bytes :=
  let! obj := lookup_path path in read (o_fh obj) offset count.

(** ** Writing *)

Definition write_how (fh : bytes) (offset : Z) (data : bytes) (stability : Z) : M WriteOutcome :=
  let! sid := gets (open_or_anonymous fh AccessMode.Write) in
  let data_len := wrap32 (remaining data) in
  let! resp := compound_write "write" data
    (fun b => Compound41.write_header (raw sid) offset stability data_len (Compound41.putfh fh (Compound41.require_generation b (generation sid)))) in
  let! _ := lift (op_ok resp 1) in
  let! op := lift (op_ok resp 2) in
  lift (decode_write (op_data op)).

(** [write_inner]; [Unstable] is stability 0. *)
Definition write_inner (fh : bytes) (offset : Z) (data : bytes) : M WriteOutcome :=
  let! tried := engine_write_pnfs eng fh offset data in
  match tried with
  | Some r => lift r
  | None => write_how fh offset data 0
  end.

Definition commit_with_verifier (fh : bytes) (offset count : Z) : M (option bytes) :=
  let! resp := compound "commit" (fun b => Compound41.commit offset count (Compound41.putfh fh b)) in
  let! _ := lift (op_ok resp 1) in
  let! op := lift (op_ok resp 2) in
  let! v := lift (decode_commit (op_data op)) in
  retM (Some v).

Definition commit (fh : bytes) (offset count : Z) : M () :=
  let! _ := commit_with_verifier fh offset count in retM ().

Definition commit_write_batch_inner (fh : bytes) (offset count : Z) (writes : list WriteOutcome) : M () :=
  let ordinary := List.filter (fun w => match wo_pnfs w with None => true | Some _ => false end) writes in
  let! _ :=
    (if existsb (fun w => negb (bool_decide (wo_committed w = FileSync))) ordinary
     then let! actual := commit_with_verifier fh offset count in
          lift (verify_write_batch (protocol_of cfg) ordinary actual)
     else retM ()) in
  engine_commit_pending eng fh (omap wo_pnfs writes).

(** ** Attributes and locks *)

Definition setattr_op_ok (resp : CompoundResponse) : result () :=
  match results resp !! 2%nat with
  | None => Err (Xdr "SETATTR response missing op at index 2")
  | Some op => if negb (bool_decide (op_status op = NFS4_OK)) then Err (Nfs4 (op_status op)) else Ok ()
  end.

Definition setattr (fh : bytes) (mode uid gid size : option Z) (atime mtime : option Time) : M () :=
  let! _ := (match size with Some _ => engine_flush_layoutcommit eng fh | None => retM () end) in
  let '(attrmask, attr_vals) := encode_setattr mode uid gid size atime mtime in
  let! resp := compound "setattr" (fun b => Compound41.setattr (zeros 16) attrmask attr_vals (Compound41.putfh fh b)) in
  let! _ := lift (op_ok resp 1) in
  lift (setattr_op_ok resp).

(** The guard is read but not sent. *)
Definition setattr_path (path : bytes) (specify_guard : bool) (mode uid gid size : option Z) (atime mtime : option Time) : M () :=
  let! obj := lookup_path path in
  let! _ := (if specify_guard then let! _ := getattr (o_fh obj) in retM () else retM ()) in
  setattr (o_fh obj) mode uid gid size atime mtime.

Definition lock (fh : bytes) (lock_type offset len : Z) : M bytes :=
  let! sid := gets (fun w => get_stateid (m_state w) fh) in
  if bool_decide (sid = anonymous)
  then failM (InvalidInput "file must be opened before locking (call open() first)")
  else
    let! client_id := gets (engine_client_id eng) in
    let! resp := compound "lock"
      (fun b => Compound41.lock lock_type false offset len true (raw sid) 0 0 (of_str "nfs-rs-lock") client_id
                  (Compound41.putfh fh (Compound41.require_generation b (generation sid)))) in
    let! _ := lift (op_ok resp 1) in
    let! op := lift (op_ok resp 2) in
    let! (sid, _) := lift (extract_stateid (op_data op)) in
    retM sid.

Definition locku (fh lock_stateid : bytes) (lock_type offset len : Z) : M () :=
  if (length lock_stateid <? 16)%nat then failM (InvalidInput "lock_stateid must be 16 bytes")
  else
    let! resp := compound "locku" (fun b => Compound41.locku lock_type 0 (firstn 16 lock_stateid) offset len (Compound41.putfh fh b)) in
    lift (ops_ok resp 1 2).

Definition lock_test (fh : bytes) (lock_type offset len : Z) : M () :=
  if negb ((lock_type =? 1) || (lock_type =? 2)) || (len =? 0)
  then failM (InvalidInput "LOCKT requires type 1/2 and non-zero length")
  else
    let! client_id := gets (engine_client_id eng) in
    let! resp := compound "lockt" (fun b => Compound41.lockt lock_type offset len (of_str "nfs-rs-lockt") client_id (Compound41.putfh fh b)) in
    lift (ops_ok resp 1 2).

(** ** Opening and closing *)

Definition access_mode_of (access : Z) : option AccessMode.t :=
  if access =? 1 then Some AccessMode.Read
  else if access =? 2 then Some AccessMode.Write
  else if access =? 3 then Some AccessMode.Both else None.

Definition open_args (mode : AccessMode.t) (client_id : Z) (owner : string) (create_ : bool) (mask : list Z) (vals name : bytes) : OpenArgs :=
  {| oa_seqid := 0; oa_share_access := AccessMode.share_access mode; oa_share_deny := 0; oa_client_id := client_id;
     oa_owner := of_str owner; oa_create := create_; oa_create_attrs_mask := mask; oa_create_attrs_vals := vals;
     oa_claim_file := name; oa_want_no_delegation := negb (retain_delegations cfg) |}.

(** [return_unsolicited_delegation]: best effort. *)
Definition return_unsolicited_delegation (delegation : option bytes) (fh : bytes) : M () := fun w =>
  match delegation with
  | Some sid => (Ok (), set_recalls w (try_send (m_recalls w) (Delegation sid false fh)).2)
  | None => (Ok (), w)
  end.

(** [state.register_open] *)
Definition register (fh : bytes) (sid : bytes) (gen : Z) (mode : AccessMode.t) : M () := fun w =>
  match State41.register_open (m_state w) fh (from_bytes_at sid gen) mode with
  | Ok s => (Ok (), set_state w s)
  | Err e => (Err e, w)
  | Panic => (Panic, w)
  end.

Definition when_ (b : bool) (c : M ()) : M () := if b then c else retM ().

Definition open (dir_fh filename : bytes) (access : Z) : M ObjRes :=
  let mode := match access_mode_of access with Some m => m | None => AccessMode.Both end in
  let! client_id := gets (engine_client_id eng) in
  let o := open_args mode client_id "nfs-rs" false [] [] filename in
  let! resp := compound "open"
    (fun b => Compound41.getattr standard_getattr_bitmap (Compound41.getfh (Compound41.open o (Compound41.putfh dir_fh b)))) in
  let! _ := lift (op_ok resp 1) in
  let! open_op := lift (op_ok resp 2) in
  let! (stateid, open_data) := lift (extract_stateid (op_data open_op)) in
  let! obj := lift (object_at resp 3) in
  let! _ := when_ (negb (retain_delegations cfg))
              (return_unsolicited_delegation (extract_open_delegation open_data) (o_fh obj)) in
  let! _ := register (o_fh obj) stateid (session_generation resp) mode in
  retM obj.

(** The last reference of a file sends CLOSE. *)
Definition release_and_close (fh : bytes) : M () :=
  let! sid := (fun w => let '(s, st) := release_open (m_state w) fh in (Ok s, set_state w st)) in
  match sid with
  | Some sid =>
      let! _ := compound "close" (fun b => Compound41.close 0 (raw sid) (Compound41.putfh fh (Compound41.require_generation b (generation sid)))) in
      fun w => (Ok (), set_state w (close_succeeded (m_state w) fh sid))
  | None => retM ()
  end.

Definition close_file_inner (fh : bytes) (terminal : bool) : M () :=
  let! flushed := attempt (engine_flush_layoutcommit eng fh) in
  let! failure :=
    (match flushed with
     | Err e => retM (Some e)
     | _ =>
         let! due := gets (engine_return_on_close eng fh) in
         if (due : bool) then
           let! returned := attempt (engine_layoutreturn eng fh) in
           retM (match returned with Err e => Some e | _ => None end)
         else retM None
     end) in
  match failure with
  | Some error =>
      if terminal then let! _ := release_and_close fh in failM error else failM error
  | None => release_and_close fh
  end.

Definition close_file (fh : bytes) : M () := close_file_inner fh false.

(** [Mount::close] of the wrapper, below the admission and the barrier. *)
Definition close (fh : bytes) : M () :=
  let! terminal := gets (fun w => bool_decide (is_Some (WriteOwner.write_error (m_writes w) fh))) in
  let! result := attempt (if (terminal : bool) then close_file_inner fh true else close_file fh) in
  let! recorded := gets (fun w => WriteOwner.write_error (m_writes w) fh) in
  match recorded with
  | Some error => failM error
  | None => lift result
  end.

Definition set_file_mode (m : Z) (a : Attr) : Attr := set_mode m a.

Definition create_with_access (dir_fh filename : bytes) (mode : option Z) (access : Z) : M ObjRes :=
  match access_mode_of access with
  | None => failM (InvalidInput ("invalid OPEN access " +:+ fmtZ access))
  | Some access_mode =>
      let! client_id := gets (engine_client_id eng) in
      let o := open_args access_mode client_id "nfs-rs-create" true [] [] filename in
      let! resp := compound "create"
        (fun b => Compound41.getattr standard_getattr_bitmap (Compound41.getfh (Compound41.open o (Compound41.putfh dir_fh b)))) in
      let! _ := lift (op_ok resp 1) in
      let! open_op := lift (op_ok resp 2) in
      let! (stateid, open_data) := lift (extract_stateid (op_data open_op)) in
      let! getfh := lift (op_ok resp 3) in
      let! (fh, _) := lift (decode_fh (op_data getfh)) in
      let! _ := when_ (negb (retain_delegations cfg))
                  (return_unsolicited_delegation (extract_open_delegation open_data) fh) in
      let! getattr := lift (op_ok resp 4) in
      let! (attr, _) := lift (decode_getattr_response (op_data getattr)) in
      let! attr :=
        (match mode with
         | None => retM attr
         | Some m =>
             let '(attrmask, attr_vals) := encode_setattr (Some m) None None None None None in
             let! r := attempt (compound "setattr" (fun b => Compound41.setattr stateid attrmask attr_vals (Compound41.putfh fh b))) in
             retM (match r with Err _ => attr | _ => set_file_mode m attr end)
         end) in
      let! _ := register fh stateid (session_generation resp) access_mode in
      retM {| o_fh := fh; o_attr := Some attr |}
  end.

Definition create (dir_fh filename : bytes) (mode : option Z) : M ObjRes := create_with_access dir_fh filename mode 3.

Definition create_uncertain (error : NfsError) : NfsError :=
  OperationOutcome (OperationOutcomeError_new Uncertain ReplaySensitive VerifyThenResume
    {| operation := "create_guarded"; protocol := protocol_of cfg; request_id := None |} error).

(** The loop of [create_guarded]: at most two turns, the second without
    attributes; the result is the response and whether it carried attributes. *)
Definition guarded_open (dir_fh filename : bytes) (mode : option Z) (access_mode : AccessMode.t) (with_attributes : bool)
    : M CompoundResponse :=
  let '(mask, values) := encode_setattr (if with_attributes then mode else None) None None None None None in
  let! client_id := gets (engine_client_id eng) in
  let o := open_args access_mode client_id "nfs-rs-create" true mask values filename in
  compound_preserving_progress "create_guarded" 2
    (fun b => Compound41.getattr standard_getattr_bitmap (Compound41.getfh (Compound41.open_guarded o (Compound41.putfh dir_fh b)))).

Definition guarded_loop (dir_fh filename : bytes) (mode : option Z) (access_mode : AccessMode.t)
    : M (CompoundResponse * bool) :=
  let! first := attempt (guarded_open dir_fh filename mode access_mode true) in
  match first with
  | Err (Nfs4 NFS4ERR_ATTRNOTSUPP) =>
      if bool_decide (is_Some mode)
      then let! resp := guarded_open dir_fh filename mode access_mode false in retM (resp, false)
      else failM (Nfs4 NFS4ERR_ATTRNOTSUPP)
  | first => let! resp := lift first in retM (resp, true)
  end.

Definition create_guarded (dir_fh filename : bytes) (mode : option Z) (access : Z) : M ObjRes :=
  match access_mode_of access with
  | None => failM (InvalidInput ("invalid OPEN access " +:+ fmtZ access))
  | Some access_mode =>
      let! (resp, with_attributes) := guarded_loop dir_fh filename mode access_mode in
      let! _ := lift (op_ok resp 1) in
      let! open_op := lift (op_ok resp 2) in
      let! (stateid, open_data, fh) := lift (map_err create_uncertain
        (let* (stateid, open_data) := extract_stateid (op_data open_op) in
         let* getfh := op_ok resp 3 in
         let* (fh, _) := decode_fh (op_data getfh) in
         Ok (stateid, open_data, fh))) in
      let! _ := register fh stateid (session_generation resp) access_mode in
      let! _ := when_ (negb (retain_delegations cfg))
                  (return_unsolicited_delegation (extract_open_delegation open_data) fh) in
      let! result := attempt
        (let! getattr := lift (op_ok resp 4) in
         let! (attr, _) := lift (decode_getattr_response (op_data getattr)) in
         if with_attributes then retM attr
         else
           let! _ := setattr fh mode None None None None None in
           retM (match mode with Some m => set_file_mode m attr | None => attr end)) in
      match result with
      | Ok attr => retM {| o_fh := fh; o_attr := Some attr |}
      | Err error => let! _ := attempt (close_file fh) in failM error
      | Panic => fun w => (Panic, w)
      end
  end.

(** ** The name space *)

Definition mkdir (dir_fh dirname : bytes) (mode : Z) : M ObjRes :=
  let! resp := compound "mkdir"
    (fun b => Compound41.getattr standard_getattr_bitmap (Compound41.getfh (Compound41.create 2 dirname [] [] (Compound41.putfh dir_fh b)))) in
  let! _ := lift (ops_ok resp 1 2) in
  let! obj := lift (object_at resp 3) in
  let! r := attempt (setattr (o_fh obj) (Some mode) None None None None None) in
  retM (match r with
        | Err _ => obj
        | _ => {| o_fh := o_fh obj; o_attr := option_map (set_file_mode mode) (o_attr obj) |}
        end).

Definition remove (dir_fh filename : bytes) : M () :=
  let! resp := compound "remove" (fun b => Compound41.remove filename (Compound41.putfh dir_fh b)) in
  lift (ops_ok resp 1 2).
Definition rmdir (dir_fh dirname : bytes) : M () := remove dir_fh dirname.

Definition rename (from_dir_fh from_filename to_dir_fh to_filename : bytes) : M () :=
  let! resp := compound "rename"
    (fun b => Compound41.rename from_filename to_filename (Compound41.putfh to_dir_fh (Compound41.savefh (Compound41.putfh from_dir_fh b)))) in
  lift (ops_ok resp 1 4).

Definition link (src_fh dst_dir_fh dst_filename : bytes) : M Attr :=
  let! resp := compound "link"
    (fun b => Compound41.getattr standard_getattr_bitmap (Compound41.putfh src_fh (Compound41.link dst_filename
                (Compound41.putfh dst_dir_fh (Compound41.savefh (Compound41.putfh src_fh b)))))) in
  let! _ := lift (ops_ok resp 1 5) in
  let! op := lift (op_ok resp 6) in
  let! (a, _) := lift (decode_getattr_response (op_data op)) in
  retM a.

Definition symlink (target dst_dir_fh dst_filename : bytes) : M ObjRes :=
  let! resp := compound "symlink"
    (fun b => Compound41.getattr standard_getattr_bitmap (Compound41.getfh
                (Compound41.create_symlink dst_filename target [] [] (Compound41.putfh dst_dir_fh b)))) in
  let! _ := lift (ops_ok resp 1 2) in
  lift (object_at resp 3).

Definition symlink_with_attrs (target dst_dir_fh dst_filename : bytes) (uid gid : option Z) (atime mtime : option Time)
    : M ObjRes :=
  let '(mask, vals) := encode_setattr None uid gid None atime mtime in
  match mask with
  | [] => symlink target dst_dir_fh dst_filename
  | _ =>
      let! resp := compound "symlink_with_attrs"
        (fun b => Compound41.getattr standard_getattr_bitmap (Compound41.setattr (zeros 16) mask vals (Compound41.getfh
                    (Compound41.create_symlink dst_filename target [] [] (Compound41.putfh dst_dir_fh b))))) in
      let! _ := lift (ops_ok resp 1 2) in
      let! getfh := lift (op_ok resp 3) in
      let! (fh, _) := lift (decode_fh (op_data getfh)) in
      match op_ok resp 4 with
      | Err _ =>
          let! _ := setattr fh None uid gid None atime mtime in
          let! attr := getattr fh in
          retM {| o_fh := fh; o_attr := Some attr |}
      | _ =>
          let! op := lift (op_ok resp 5) in
          let! (attr, _) := lift (decode_getattr_response (op_data op)) in
          retM {| o_fh := fh; o_attr := Some attr |}
      end
  end.

(** ** Paths *)

(** [split_path] of [lib.rs] is modelled with the crate's entry points. *)
Section Paths.
Context (split_path : bytes -> result (bytes * bytes)).

Definition open_path (path : bytes) (access : Z) : M ObjRes :=
  let! (dir, name) := lift (split_path path) in
  let! dir_obj := lookup_path dir in open (o_fh dir_obj) name access.
Definition create_path_with_access (path : bytes) (mode : option Z) (access : Z) : M ObjRes :=
  let! (dir, name) := lift (split_path path) in
  let! dir_obj := lookup_path dir in create_with_access (o_fh dir_obj) name mode access.
Definition create_path (path : bytes) (mode : option Z) : M ObjRes := create_path_with_access path mode 3.
Definition mkdir_path (path : bytes) (mode : Z) : M ObjRes :=
  let! (dir, name) := lift (split_path path) in
  let! dir_obj := lookup_path dir in mkdir (o_fh dir_obj) name mode.
Definition remove_path (path : bytes) : M () :=
  let! (dir, name) := lift (split_path path) in
  let! dir_obj := lookup_path dir in remove (o_fh dir_obj) name.
Definition rmdir_path (path : bytes) : M () := remove_path path.
Definition rename_path (from_path to_path : bytes) : M () :=
  let! (from_dir, from_name) := lift (split_path from_path) in
  let! (to_dir, to_name) := lift (split_path to_path) in
  let! from_obj := lookup_path from_dir in
  let! to_obj := lookup_path to_dir in
  rename (o_fh from_obj) from_name (o_fh to_obj) to_name.
Definition link_path (src_path dst_path : bytes) : M Attr :=
  let! src_obj := lookup_path src_path in
  let! (dst_dir, dst_name) := lift (split_path dst_path) in
  let! dst_dir_obj := lookup_path dst_dir in
  link (o_fh src_obj) (o_fh dst_dir_obj) dst_name.
Definition symlink_path (target dst_path : bytes) : M ObjRes :=
  let! (dst_dir, dst_name) := lift (split_path dst_path) in
  let! dst_dir_obj := lookup_path dst_dir in
  symlink target (o_fh dst_dir_obj) dst_name.
End Paths.

(** ** Directory pages *)

Definition directory_page {T : Type} (mk : Z -> bytes -> option Attr -> T) (tag : string) (attr_request : list Z)
    (fh : bytes) (cookie : Z) (cookieverf : bytes) : M (list T * Z * bytes * bool) :=
  let! max_response := gets (engine_max_response_size eng) in
  let! (dircount, maxcount) := lift (directory_limits (of_str tag) (self_dircount cfg) (self_maxcount cfg) max_response) in
  let! resp := compound tag (fun b => Compound41.readdir cookie cookieverf dircount maxcount attr_request (Compound41.putfh fh b)) in
  let! _ := lift (op_ok resp 1) in
  let! op := lift (op_ok resp 2) in
  lift (decode_page mk maxcount cookie (op_data op)).

Definition readdir_page := directory_page make_entry "readdir" [Z.shiftl 1 20].
Definition readdirplus_page := directory_page make_plus_entry "readdirplus" standard_getattr_bitmap.

Definition readdir (dir_fh : bytes) (fuel : nat) (w : Mount41) : list ReaddirEntry * stream_end * Mount41 :=
  directory_stream (readdir_page dir_fh) fuel cursor_default w.
Definition readdirplus (dir_fh : bytes) (fuel : nat) (w : Mount41) : list ReaddirplusEntry * stream_end * Mount41 :=
  directory_stream (readdirplus_page dir_fh) fuel cursor_default w.

(** ** NFSv4.2 attributes *)

Definition require_v42 : result () :=
  match minor_version cfg with V2 => Ok () | V1 => Err (Unsupported "operation requires NFSv4.2") end.

Record Nfs42Attributes : Type := { supported_attrs : list Z; clone_blksize : option Z; xattr_support : bool }.
Definition supports_attribute (a : Nfs42Attributes) (attribute : Z) : bool :=
  match supported_attrs a !! Z.to_nat (attribute / 32) with
  | Some word => negb (Z.land word (Z.shiftl 1 (attribute mod 32)) =? 0)
  | None => false
  end.

Definition v42_getattr (fh : bytes) (bitmap : list Z) : M (list Z * bytes) :=
  let! reply := compound "v42_attrs" (fun b => Compound41.getattr bitmap (Compound41.putfh fh b)) in
  lift (let* data := result_data reply 2 9 in
        let* (words, data) := word data in
        if (16 <? words) || (remaining data <? words * 4)
        then Err (Xdr "NFSv4.2 attribute bitmap truncated/excessive")
        else
          let* (bitmap, data) := collect words get_u32 data in
          let* (vals, _) := opaque data in
          Ok (bitmap, vals)).

(** The values of [clone_blksize] (77) and [xattr_support] (82). *)
Definition decode_v42_values (actual : Z) (values : bytes) : result (option Z * bool) :=
  let* (blk, values) :=
    (if negb (Z.land actual (Z.shiftl 1 13) =? 0) then let* (v, values) := word values in Ok (Some v, values)
     else Ok (None, values)) in
  let* (xs, values) :=
    (if negb (Z.land actual (Z.shiftl 1 18) =? 0) then decode_bool values else Ok (false, values)) in
  if negb (bool_decide (values = [])) then Err (Xdr "unexpected NFSv4.2 attribute values") else Ok (blk, xs).

Definition v42_attributes (fh : bytes) : M Nfs42Attributes :=
  let! _ := lift require_v42 in
  let! (bitmap, values) := v42_getattr fh [1] in
  if match bitmap with [] => true | w :: _ => Z.land w 1 =? 0 end then failM (Xdr "supported_attrs omitted")
  else
    let! supported := lift
      (let* (words, values) := word values in
       if (16 <? words) || negb (remaining values =? words * 4) then Err (Xdr "invalid supported_attrs bitmap")
       else let* (l, _) := collect words get_u32 values in Ok l) in
    let result := {| supported_attrs := supported; clone_blksize := None; xattr_support := false |} in
    let requested := Z.lor (Z.shiftl (b2z (supports_attribute result 77)) 13)
                           (Z.shiftl (b2z (supports_attribute result 82)) 18) in
    if requested =? 0 then retM result
    else
      let! (bitmap, values) := v42_getattr fh [0; 0; requested] in
      let actual := default 0 (bitmap !! 2%nat) in
      let! (blk, xs) := lift (decode_v42_values actual values) in
      retM {| supported_attrs := supported; clone_blksize := blk; xattr_support := xs |}.

(** ** Access control lists *)

Definition require_acl_attribute (fh : bytes) (attribute : Z) : M () :=
  match minor_version cfg with
  | V1 => retM ()
  | V2 =>
      let! a := v42_attributes fh in
      if supports_attribute a attribute then retM ()
      else failM (Unsupported ("filesystem does not advertise NFSv4 ACL attribute " +:+ fmtZ attribute))
  end.

Definition acl_compound (operation : string) (build : CompoundBuilder -> CompoundBuilder) (tag : string) : M CompoundResponse :=
  let! r := attempt (compound tag build) in
  lift (attrnotsupp_as_unsupported operation r).

Definition getacl (fh : bytes) : M Acl :=
  let! _ := require_acl_attribute fh 12 in
  let! resp := acl_compound "GETACL" (fun b => Compound41.getattr [Z.shiftl 1 12] (Compound41.putfh fh b)) "getacl" in
  let! _ := lift (op_ok resp 1) in
  let! op := lift (op_ok resp 2) in
  let! (a, _) := lift (decode_getattr_acl (op_data op)) in
  retM a.

Definition setacl (fh : bytes) (acl : Acl) : M () :=
  let! _ := require_acl_attribute fh 12 in
  let '(mask, vals) := encode_setattr_acl acl in
  let! resp := acl_compound "SETACL" (fun b => Compound41.setattr (zeros 16) mask vals (Compound41.putfh fh b)) "setacl" in
  let! _ := lift (op_ok resp 1) in
  lift (setattr_op_ok resp).

Definition aclsupport (fh : bytes) : M Z :=
  let! _ := require_acl_attribute fh 13 in
  let! resp := compound "aclsupport" (fun b => Compound41.getattr [Z.shiftl 1 13] (Compound41.putfh fh b)) in
  let! _ := lift (op_ok resp 1) in
  let! op := lift (op_ok resp 2) in
  let! (a, _) := lift (decode_getattr_aclsupport (op_data op)) in
  retM a.

Definition get_acl41 (fh : bytes) (attribute : Z) (operation : string) : M NfsAcl41 :=
  let! _ := require_acl_attribute fh attribute in
  let! resp := acl_compound operation (fun b => Compound41.getattr [0; Z.shiftl 1 (attribute - 32)] (Compound41.putfh fh b)) operation in
  let! _ := lift (op_ok resp 1) in
  let! op := lift (op_ok resp 2) in
  let! (a, _) := lift (decode_getattr_acl41 (op_data op) attribute) in
  retM a.

Definition set_acl41 (fh : bytes) (value : NfsAcl41) (attribute : Z) (operation : string) : M () :=
  let! _ := require_acl_attribute fh attribute in
  let '(mask, vals) := encode_setattr_acl41 value attribute in
  let! resp := acl_compound operation (fun b => Compound41.setattr (zeros 16) mask vals (Compound41.putfh fh b)) operation in
  lift (ops_ok resp 1 2).

Definition getdacl (fh : bytes) : M NfsAcl41 := get_acl41 fh attrnum_DACL "GETDACL".
Definition setdacl (fh : bytes) (value : NfsAcl41) : M () := set_acl41 fh value attrnum_DACL "SETDACL".
Definition getsacl (fh : bytes) : M NfsAcl41 := get_acl41 fh attrnum_SACL "GETSACL".
Definition setsacl (fh : bytes) (value : NfsAcl41) : M () := set_acl41 fh value attrnum_SACL "SETSACL".
End Mount41.

(** ** No operation panics *)

Create HintDb safe.

Definition safe {X A : Type} (c : M (X := X) A) : Prop := forall w, (c w).1 <> Panic.
(** The engine answers every call with a result or an error. *)
Class SafeEngine {X : Type} (eng : Engine (X := X)) : Prop := {
  safe_compound : forall payload progress tag build, safe (engine_compound eng payload progress tag build);
  safe_pnfs_read : forall fh offset count w r w', engine_pnfs_read eng fh offset count w = (r, w') -> r <> Panic /\ r <> Ok (Some Panic);
  safe_write_pnfs : forall fh offset data w r w', engine_write_pnfs eng fh offset data w = (r, w') -> r <> Panic /\ r <> Ok (Some Panic);
  safe_commit_pending : forall fh l, safe (engine_commit_pending eng fh l);
  safe_flush : forall fh, safe (engine_flush_layoutcommit eng fh);
  safe_return : forall fh, safe (engine_layoutreturn eng fh);
}.

Lemma safe_bind {X A C} (c : M (X := X) A) (k : A -> M C) : safe c -> (forall a, safe (k a)) -> safe (bindM c k).
Proof.
  intros Hc Hk w. unfold bindM. specialize (Hc w). destruct (c w) as [[a|e|] w1]; [apply Hk|done|done].
Qed.
Lemma safe_bind_ok {X A C} (r : result A) (k : A -> M (X := X) C) :
  r <> Panic -> (forall a, r = Ok a -> safe (k a)) -> safe (bindM (lift r) k).
Proof. intros Hr Hk w. unfold bindM, lift. destruct r as [a|e|]; [by apply Hk|done|done]. Qed.
Lemma safe_lift {X A} (r : result A) : r <> Panic -> safe (X := X) (lift r).
Proof. intros Hr w. done. Qed.
Lemma safe_attempt {X A} (c : M (X := X) A) : safe c -> safe (attempt c).
Proof. intros Hc w. unfold attempt. specialize (Hc w). by destruct (c w) as [[a|e|] w1]. Qed.
Lemma safe_ret {X A} (a : A) : safe (X := X) (retM a).
Proof. done. Qed.
Lemma safe_fail {X A} e : safe (X := X) (A := A) (failM e).
Proof. done. Qed.
Lemma safe_gets {X A} (f : Mount41 (X := X) -> A) : safe (gets f).
Proof. done. Qed.
Lemma safe_if {X A} (b : bool) (c d : M (X := X) A) : safe c -> safe d -> safe (if b then c else d).
Proof. by destruct b. Qed.

Lemma wpo_panic {A} (o : result A) Q : wpo o Q -> o <> Panic.
Proof. by destruct o. Qed.

Lemma op_ok_no_panic r i : op_ok r i <> Panic.
Proof. unfold op_ok. destruct (results r !! i); [|done]. by destruct (negb _). Qed.
Lemma ops_ok_no_panic r i n : ops_ok r i n <> Panic.
Proof.
  revert i. induction n as [|n IH]; intros i; [done|]. cbn [ops_ok]. pose proof (op_ok_no_panic r i).
  destruct (op_ok r i); cbn [obind]; [apply IH|done|done].
Qed.
Lemma decode_fh_no_panic data : decode_fh data <> Panic.
Proof.
  eapply (wpo_panic _ (fun _ => True)). unfold decode_fh. wp. pose proof (padded_ge v). wp. done.
Qed.
Lemma extract_stateid_no_panic data : extract_stateid data <> Panic.
Proof. eapply (wpo_panic _ (fun _ => True)). unfold extract_stateid. wp. done. Qed.
Lemma object_at_no_panic r i : object_at r i <> Panic.
Proof.
  unfold object_at. pose proof (op_ok_no_panic r i). destruct (op_ok r i) as [op|e|]; cbn [obind]; [|done|done].
  pose proof (decode_fh_no_panic (op_data op)). destruct (decode_fh (op_data op)) as [[fh rest]|e|]; cbn [obind]; [|done|done].
  pose proof (op_ok_no_panic r (S i)). destruct (op_ok r (S i)) as [op'|e|]; cbn [obind]; [|done|done].
  pose proof (decode_getattr_response_no_panic (op_data op')). by destruct (decode_getattr_response (op_data op')) as [[a r']|e|].
Qed.
Lemma decode_access_no_panic data : decode_access data <> Panic.
Proof. eapply (wpo_panic _ (fun _ => True)). unfold decode_access. wp. done. Qed.
Lemma read_reply_no_panic d eof : read_reply d eof <> Panic.
Proof. unfold read_reply. by destruct (_ && _). Qed.
Lemma decode_read_no_panic data : decode_read data <> Panic.
Proof.
  eapply (wpo_panic _ (fun _ => True)). unfold decode_read. wp.
  match goal with |- wpo (read_reply ?d ?e) _ => pose proof (read_reply_no_panic d e); by destruct (read_reply d e) end.
Qed.
Lemma WriteCommitted_no_panic v : WriteCommitted_try_from v <> Panic.
Proof. unfold WriteCommitted_try_from. repeat case_match; done. Qed.
Lemma decode_write_no_panic data : decode_write data <> Panic.
Proof.
  eapply (wpo_panic _ (fun _ => True)). unfold decode_write. wp.
  match goal with |- wpo (WriteCommitted_try_from ?v) _ => pose proof (WriteCommitted_no_panic v); by destruct (WriteCommitted_try_from v) end.
Qed.
Lemma decode_commit_no_panic data : decode_commit data <> Panic.
Proof. eapply (wpo_panic _ (fun _ => True)). unfold decode_commit. wp. done. Qed.
Lemma decode_string_no_panic data : decode_string_from_bytes data <> Panic.
Proof. eapply (wpo_panic _ _), wpo_decode_string_from_bytes. Qed.

#[export] Hint Resolve safe_ret safe_fail safe_gets safe_compound safe_commit_pending safe_flush safe_return
  op_ok_no_panic ops_ok_no_panic decode_fh_no_panic extract_stateid_no_panic object_at_no_panic decode_access_no_panic
  decode_read_no_panic decode_write_no_panic decode_commit_no_panic decode_string_no_panic
  decode_getattr_response_no_panic : safe.

(** One step towards [safe]. *)
Ltac safe_step :=
  lazymatch goal with
  | |- safe (bindM _ _) => apply safe_bind
  | |- safe (lift _) => apply safe_lift
  | |- safe (attempt _) => apply safe_attempt
  | |- safe (if _ then _ else _) => apply safe_if
  | |- safe (match ?x with _ => _ end) => destruct x
  | |- safe (let '(_, _) := ?x in _) => destruct x
  | |- forall _, _ => intros ?
  | |- safe _ => solve [auto with safe | unfold compound, compound_write, compound_preserving_progress; auto with safe]
  | |- _ <> Panic => solve [auto with safe]
  end.
Ltac safe_tac := repeat (safe_step; cbv beta zeta).

Section Safe.
Context {X : Type} (cfg : Config) (eng : Engine (X := X)) `{HE : !SafeEngine eng}.

Lemma safe_lookup_path path : safe (lookup_path cfg eng path).
Proof. unfold lookup_path. safe_tac. Qed.
Lemma safe_getattr fh : safe (getattr eng fh).
Proof. unfold getattr. safe_tac. Qed.
Lemma safe_commit_with_verifier fh offset count : safe (commit_with_verifier eng fh offset count).
Proof. unfold commit_with_verifier. safe_tac. Qed.
End Safe.
#[export] Hint Resolve safe_lookup_path safe_getattr safe_commit_with_verifier : safe.
