(* ===== verification/Ops42.v ===== *)
(** * Extended attributes, server-side copies and sparse files

    Models [src/src/nfs41/xattr.rs] (named attributes of NFSv4.1), and the
    operations of [src/src/nfs41/v42_ops.rs] and [src/src/nfs41/v42_xattr.rs]
    over the interface of Ops41. Loops take fuel; a loop that runs out of it is a
    panic of the model, so a theorem that excludes a panic shows that the fuel
    suffices. *)
From Stdlib Require Import Strings.Byte.
From S2P Require Import Prelude Errors Xdr4 Acl4 Attrs4 Compound41 V42 Response41 State41 LayoutMgr Callback PnfsIo Listing Ops41.
From stdpp Require Import base list numbers strings gmap.
#[local] Open Scope Z_scope.

Section Ops42.
Context {X : Type} (cfg : Config) (eng : Engine (X := X)).
#[local] Notation M := (M (X := X)).
#[local] Notation "'let!' x ':=' c 'in' k" := (bindM c (fun x => k))
  (at level 10, x pattern, c at level 100, k at level 200).

(** ** Named attributes *)

Definition xattr_uncertain (error : NfsError) (completed : Z) (p : NFSVersion) : NfsError :=
  OperationOutcome (with_completed_bytes
    (OperationOutcomeError_new Uncertain ReplaySensitive VerifyThenResume
       {| operation := "setxattr"; protocol := p; request_id := None |} error) completed).

Definition open_attr_dir (fh : bytes) (create : bool) : M bytes :=
  let! resp := compound eng "openattr" (fun b => Compound41.getfh (Compound41.openattr create (Compound41.putfh fh b))) in
  let! _ := lift (ops_ok resp 1 2) in
  let! op := lift (op_ok resp 3) in
  let! (attr_fh, _) := lift (decode_fh (op_data op)) in
  retM attr_fh.

(** The data of one READ of the value: its bytes and whether it is the last. *)
Definition decode_xattr_read (count : Z) (data : bytes) : result (bool * bytes) :=
  let* _ := require 8 (Xdr "xattr READ result truncated") data in
  let* (eof, data) := get_u32 data in
  let* (len, data) := get_u32 data in
  if (count <? len) || (remaining data <? len) then Err (Xdr "xattr READ returned an invalid length")
  else let* s := slice_to len data in Ok (negb (eof =? 0), s).

(** The reading loop; [None] when the fuel runs out, since nothing bounds the
    length of a value but the server. *)
Fixpoint read_value (fuel : nat) (attr_fh value : bytes) : M (option bytes) :=
  match fuel with
  | O => retM None
  | S fuel =>
      let! resp := compound eng "getxattr-read" (fun b => Compound41.read (zeros 16) (remaining value) (rsize cfg) (Compound41.putfh attr_fh b)) in
      let! _ := lift (op_ok resp 1) in
      let! op := lift (op_ok resp 2) in
      let! (eof, s) := lift (decode_xattr_read (rsize cfg) (op_data op)) in
      if (eof : bool) then retM (Some (value ++ s))
      else if bool_decide (s = []) then failM (Rpc "xattr READ made no progress before EOF")
      else read_value fuel attr_fh (value ++ s)
  end.

Definition getxattr (fuel : nat) (fh name : bytes) : M (option bytes) :=
  let! resp := compound eng "getxattr-lookup" (fun b => Compound41.getfh (Compound41.lookup_name name (Compound41.openattr false (Compound41.putfh fh b)))) in
  let! _ := lift (ops_ok resp 1 3) in
  let! op := lift (op_ok resp 4) in
  let! (attr_fh, _) := lift (decode_fh (op_data op)) in
  read_value fuel attr_fh [].

Definition decode_xattr_write (count : Z) (data : bytes) : result Z :=
  let* _ := require 16 (Xdr "xattr WRITE result truncated") data in
  let* (written, data) := get_u32 data in
  let* (committed, _) := get_u32 data in
  if (written =? 0) || (count <? written) || negb (committed =? 2)
  then Err (Rpc "xattr WRITE returned invalid count or stability") else Ok written.

(** The writing loop: the number of bytes acknowledged, also when it fails. *)
Fixpoint write_value (fuel : nat) (attr_fh stateid value : bytes) (gen completed : Z) (w : Mount41)
    : result () * Z * Mount41 :=
  if remaining value <=? completed then (Ok (), completed, w)
  else
    match fuel with
    | O => (Panic, completed, w)
    | S fuel =>
        let end_ := completed + Z.min (remaining value - completed) (wsize cfg) in
        let chunk := firstn (Z.to_nat (end_ - completed)) (skipn (Z.to_nat completed) value) in
        let count := wrap32 (remaining chunk) in
        match (let! resp := compound_write eng "setxattr-write" chunk
                 (fun b => Compound41.write_header stateid completed 2 count (Compound41.putfh attr_fh (Compound41.require_generation b gen))) in
               let! _ := lift (op_ok resp 1) in
               let! op := lift (op_ok resp 2) in
               lift (decode_xattr_write count (op_data op))) w with
        | (Ok written, w) => write_value fuel attr_fh stateid value gen (completed + written) w
        | (Err e, w) => (Err e, completed, w)
        | (Panic, w) => (Panic, completed, w)
        end
    end.

Definition xattr_open_args (client_id : Z) (name : bytes) : OpenArgs :=
  {| oa_seqid := 0; oa_share_access := 3; oa_share_deny := 0; oa_client_id := client_id;
     oa_owner := of_str "nfs-rs-xattr"; oa_create := true; oa_create_attrs_mask := [Z.shiftl 1 4];
     oa_create_attrs_vals := be_bytes 8 0; oa_claim_file := name; oa_want_no_delegation := true |}.

(** After the OPEN: write, CLOSE, and the report of what failed. *)
Definition finish_setxattr (attr_fh stateid value : bytes) (gen : Z) : M () := fun w =>
  let '(write_result, completed, w) := write_value (length value) attr_fh stateid value gen 0 w in
  match write_result with
  | Panic => (Panic, w)
  | _ =>
      (let! close_result := attempt (compound eng "setxattr-close"
          (fun b => Compound41.close 0 stateid (Compound41.putfh attr_fh (Compound41.require_generation b gen)))) in
       let failures := (match write_result with Err e => [("write"%string, e)] | _ => [] end) ++
                       (match close_result with Err e => [("close"%string, e)] | _ => [] end) in
       match failures with
       | [] => retM ()
       | _ => failM (xattr_uncertain (FileClose failures) completed (protocol_of cfg))
       end) w
  end.

Definition setxattr (fh name value : bytes) : M () :=
  let! client_id := gets (engine_client_id eng) in
  let! resp := compound_preserving_progress eng "setxattr-open" 3
    (fun b => Compound41.getfh (Compound41.open (xattr_open_args client_id name) (Compound41.openattr true (Compound41.putfh fh b)))) in
  let! _ := lift (ops_ok resp 1 2) in
  let! open_op := lift (op_ok resp 3) in
  let! (stateid, attr_fh) := lift (map_err (fun e => xattr_uncertain e 0 (protocol_of cfg))
    (let* (stateid, _) := extract_stateid (op_data open_op) in
     let* getfh := op_ok resp 4 in
     let* (attr_fh, _) := decode_fh (op_data getfh) in
     Ok (stateid, attr_fh))) in
  finish_setxattr attr_fh stateid value (session_generation resp).

Definition listxattr (fuel : nat) (fh : bytes) (w : Mount41) : result (list bytes) * stream_end * Mount41 :=
  match open_attr_dir fh false w with
  | (Ok attr_dir_fh, w) =>
      let '(entries, e, w) := readdir cfg eng attr_dir_fh fuel w in
      (match e with
       | Failed error => Err error
       | Panicked => Panic
       | _ => Ok (List.filter (fun n => negb (special_name n)) (map re_file_name entries))
       end, e, w)
  | (Err (Nfs4 NFS4ERR_NOENT), w) => (Ok [], Ended, w)
  | (Err e, w) => (Err e, Ended, w)
  | (Panic, w) => (Panic, Panicked, w)
  end.

Definition removexattr (fh name : bytes) : M () :=
  let! resp := compound eng "removexattr" (fun b => Compound41.remove name (Compound41.openattr false (Compound41.putfh fh b))) in
  lift (ops_ok resp 1 3).

(** ** NFSv4.2 *)

Definition mutation_error (operation : string) (error : NfsError) : NfsError :=
  uncertain_pnfs_write {| operation := operation; protocol := protocol_of cfg; request_id := None |} error.

Definition open_state (fh : bytes) (access : AccessMode.t) : M StateId := fun w =>
  match has_open (m_state w) fh access with
  | Some sid => (Ok sid, w)
  | None => (Err (InvalidInput "NFSv4.2 file operation requires an OPEN with the requested access"), w)
  end.

Definition v42_space (fh : bytes) (offset len : Z) (allocate : bool) : M () :=
  let! _ := lift (require_v42 cfg) in
  if (len =? 0) || negb (bool_decide (is_Some (checked_add64 offset len)))
  then failM (InvalidInput "space operation requires a nonempty, nonoverflowing range")
  else
    let! _ := engine_layoutreturn eng fh in
    let! sid := open_state fh AccessMode.Write in
    let tag := if allocate then "allocate"%string else "deallocate"%string in
    let! resp := compound eng tag (fun b => Compound41.space allocate (raw sid) offset len (Compound41.putfh fh (Compound41.require_generation b (generation sid)))) in
    let! _ := lift (map_err (mutation_error tag) (result_data resp 2 (if allocate then 59 else 62))) in
    retM ().

(** The error a file's owner has recorded ends reads of its data as well. *)
Definition no_write_error (fh : bytes) : M () := fun w =>
  match WriteOwner.write_error (m_writes w) fh with Some e => (Err e, w) | None => (Ok (), w) end.

Record SeekResult : Type := { sk_eof : bool; sk_offset : Z }.

Definition v42_seek (fh : bytes) (offset : Z) (what : SeekContent) : M SeekResult :=
  let! _ := lift (require_v42 cfg) in
  let! _ := no_write_error fh in
  let! _ := engine_flush_layoutcommit eng fh in
  let! sid := open_state fh AccessMode.Read in
  let! resp := compound eng "seek" (fun b => Compound41.seek (raw sid) offset what (Compound41.putfh fh (Compound41.require_generation b (generation sid)))) in
  lift (let* data := result_data resp 2 69 in
        let* (eof, data) := decode_bool data in
        let* (found, _) := decode_u64 data in
        if found <? offset then Err (Xdr "SEEK returned an offset before request")
        else Ok {| sk_eof := eof; sk_offset := found |}).

Definition v42_read_plus (fh : bytes) (offset count : Z) : M ReadPlusResult :=
  let! _ := lift (require_v42 cfg) in
  let count := Z.min count (rsize cfg) in
  if negb (bool_decide (is_Some (checked_add64 offset count))) then failM (InvalidInput "READ_PLUS range overflow")
  else
    let! _ := no_write_error fh in
    let! _ := engine_flush_layoutcommit eng fh in
    let! sid := open_state fh AccessMode.Read in
    let! resp := compound eng "read_plus" (fun b => Compound41.read_plus (raw sid) offset count (Compound41.putfh fh (Compound41.require_generation b (generation sid)))) in
    lift (let* data := result_data resp 2 68 in
          let* (r, _) := decode_read_plus data in
          clip_read_plus r offset count).

(** [handles.sort(); handles.dedup()] for the two files of a copy. *)
Fixpoint bytes_le (a b : bytes) : bool :=
  match a, b with
  | [], _ => true
  | _ :: _, [] => false
  | x :: a, y :: b => if byte_val x =? byte_val y then bytes_le a b else byte_val x <? byte_val y
  end.
Definition sorted_handles (a b : bytes) : list bytes :=
  if bool_decide (a = b) then [a] else if bytes_le a b then [a; b] else [b; a].

Fixpoint return_layouts (l : list bytes) : M () :=
  match l with
  | [] => retM ()
  | fh :: l => let! _ := engine_layoutreturn eng fh in return_layouts l
  end.

(** Within one file the ranges of a CLONE must not overlap. *)
Definition check_same_file (source : bytes) (source_offset destination_offset count : Z) : M () :=
  let! len :=
    (if count =? 0 then let! a := getattr eng source in retM (Z.max 0 (a_filesize a - source_offset))
     else retM count) in
  match checked_add64 source_offset len, checked_add64 destination_offset len with
  | Some source_end, Some destination_end =>
      if (source_offset <? destination_end) && (destination_offset <? source_end)
      then failM (InvalidInput "overlapping same-file CLONE") else retM ()
  | _, _ => failM (InvalidInput "CLONE range overflow")
  end.

Definition copy_tag (clone : bool) : string := if clone then "clone"%string else "copy"%string.

(** What a synchronous reply of COPY may say. *)
Definition copy_reply_bad (r : CopyReply) (destination_offset count : Z) : bool :=
  negb (synchronous r) || negb (consecutive r) ||
  (negb (count =? 0) && ((copy_count r =? 0) || (count <? copy_count r))) ||
  negb (bool_decide (is_Some (checked_add64 destination_offset (copy_count r)))).

(** After the reply: it is committed unless the server says it is stable. *)
Definition finish_copy (clone : bool) (destination : bytes) (gen destination_offset count : Z) (data : bytes) : M Z :=
  let tag := copy_tag clone in
  if clone then retM count
  else
    let! (reply, _) := lift (map_err (mutation_error tag) (decode_copy data)) in
    match callback reply with
    | Some cb =>
        let! _ := attempt (compound eng "offload_cancel"
          (fun b => Compound41.offload_cancel cb (Compound41.putfh destination (Compound41.require_generation b gen)))) in
        failM (mutation_error tag (Rpc "server returned asynchronous COPY despite synchronous requirement; cancellation attempted"))
    | None =>
        if copy_reply_bad reply destination_offset count
        then failM (mutation_error tag (Xdr "invalid synchronous COPY result"))
        else
          let! _ :=
            (if bool_decide (committed reply = FileSync) then retM ()
             else
               let '(offset, len) := if copy_count reply <=? u32_max then (destination_offset, copy_count reply) else (0, 0) in
               let! actual := (fun w => match commit_with_verifier eng destination offset len w with
                                        | (r, w) => (map_err (mutation_error tag) r, w)
                                        end) in
               if negb (bool_decide (actual = Some (copy_verifier reply)))
               then failM (write_verifier_changed (protocol_of cfg)) else retM ()) in
          retM (copy_count reply)
    end.

Definition v42_copy (source destination : bytes) (source_offset destination_offset count : Z) (clone : bool) : M Z :=
  let! _ := lift (require_v42 cfg) in
  if negb (bool_decide (is_Some (checked_add64 source_offset count))) ||
     negb (bool_decide (is_Some (checked_add64 destination_offset count))) ||
     (negb clone && bool_decide (source = destination))
  then failM (InvalidInput "invalid COPY/CLONE range or identical COPY handles")
  else
    let! _ := return_layouts (sorted_handles source destination) in
    let! src := open_state source AccessMode.Read in
    let! dst := open_state destination AccessMode.Write in
    if negb (generation src =? generation dst) then failM (InvalidInput "COPY/CLONE OPEN generation mismatch")
    else
      let! _ := (if bool_decide (source = destination)
                 then check_same_file source source_offset destination_offset count else retM ()) in
      let! resp := compound eng (copy_tag clone)
        (fun b => Compound41.copy_range clone (raw src) (raw dst) source_offset destination_offset count
                    (Compound41.putfh destination (Compound41.savefh (Compound41.putfh source (Compound41.require_generation b (generation src)))))) in
      let! data := lift (map_err (mutation_error (copy_tag clone)) (result_data resp 4 (if clone then 71 else 60))) in
      finish_copy clone destination (generation dst) destination_offset count data.

(** *** Extended attributes of RFC 8276 *)

Definition require_xattrs (fh : bytes) : M () :=
  let! a := v42_attributes cfg eng fh in
  if xattr_support a then retM () else failM (Unsupported "filesystem does not advertise RFC 8276 xattr_support").

Definition v42_getxattr (fh name : bytes) : M bytes :=
  let! _ := lift (validate_name name) in
  let! _ := require_xattrs fh in
  let! resp := compound eng "getxattr42" (fun b => Compound41.getxattr name (Compound41.putfh fh b)) in
  let! data := lift (result_data resp 2 72) in
  let! (v, _) := lift (opaque data) in
  retM v.

Definition v42_setxattr (fh name value : bytes) (mode : XattrSetMode) : M () :=
  let! _ := lift (validate_name name) in
  if MAX_IO_SIZE <? remaining value then failM (InvalidInput "xattr exceeds client payload ceiling")
  else
    let! _ := require_xattrs fh in
    let! resp := compound eng "setxattr42" (fun b => Compound41.setxattr name value mode (Compound41.putfh fh b)) in
    let! _ := lift (map_err (mutation_error "setxattr") (result_data resp 2 73)) in
    retM ().

Definition v42_removexattr (fh name : bytes) : M () :=
  let! _ := lift (validate_name name) in
  let! _ := require_xattrs fh in
  let! resp := compound eng "removexattr42" (fun b => Compound41.removexattr name (Compound41.putfh fh b)) in
  let! _ := lift (map_err (mutation_error "removexattr") (result_data resp 2 75)) in
  retM ().

(** The names are at most 65536 and each page that does not end the list has
    one, so that many turns are enough. *)
Fixpoint list_names (fuel : nat) (fh : bytes) (maximum cookie : Z) (seen : gset Z) (names : list bytes) : M (list bytes) :=
  match fuel with
  | O => fun w => (Panic, w)
  | S fuel =>
      let! resp := compound eng "listxattrs42" (fun b => Compound41.listxattrs cookie maximum (Compound41.putfh fh b)) in
      let! data := lift (result_data resp 2 74) in
      let! (next, page, eof, rest) := lift (decode_list data) in
      if (maximum <? remaining data - remaining rest) || (65536 <? Z.of_nat (length names + length page))
      then failM (Xdr "LISTXATTRS exceeded reply/entry bound")
      else if negb eof && (Nat.eqb (length page) 0 || bool_decide (next ∈ seen))
      then failM (Xdr "LISTXATTRS made no progress or repeated cookie")
      else if eof then retM (names ++ page)
      else list_names fuel fh maximum next ({[next]} ∪ seen) (names ++ page)
  end.

Definition v42_listxattrs (fh : bytes) : M (list bytes) :=
  let! _ := require_xattrs fh in
  let maximum := Z.min (rsize cfg) 4096 in
  if maximum <? 16 then failM (Rpc "channel too small for LISTXATTRS")
  else list_names (Z.to_nat 65537) fh maximum 0 {[0]} [].
End Ops42.

(** ** Inverting a step of an operation *)

Lemma bindM_ok {X A C} (c : M (X := X) A) (k : A -> M C) w r w' :
  bindM c k w = (Ok r, w') -> exists a w1, c w = (Ok a, w1) /\ k a w1 = (Ok r, w').
Proof. unfold bindM. destruct (c w) as [[a|e|] w1]; intros H; [eauto|done|done]. Qed.

Lemma lift_ok {X A} (r : result A) (w : Mount41 (X := X)) a w' : lift r w = (Ok a, w') -> r = Ok a /\ w' = w.
Proof. unfold lift. by intros [= -> ->]. Qed.

(** Take an [Ok] run apart, one call at a time. *)
Ltac run_inv H :=
  repeat lazymatch type of H with
  | bindM _ _ _ = (Ok _, _) => let a := fresh "a" in let w := fresh "w" in let Ha := fresh "Ha" in
      apply bindM_ok in H as (a & w & Ha & H)
  | (let '(_, _) := ?p in _) _ = (Ok _, _) => let a := fresh "a" in let b := fresh "b" in destruct p as [a b]
  end.

(** ** A server for one named attribute *)

Definition reply_data (r : CompoundResponse) (i : nat) (d : bytes) : Prop :=
  exists op rest, op_ok r i = Ok op /\ op_data op = d ++ rest.

(** What RFC 8881 promises for the attribute [name] of [fh], whose file is [afh]
    and whose value is [content]: OPEN with a size of zero truncates it, WRITE
    stores a non-empty prefix of the data at the offset and makes it stable,
    READ returns some of the bytes at the offset and says whether the value ends
    with them, CLOSE changes nothing. Each may fail instead. *)
Class AttrServer {X : Type} (cfg : Config) (eng : Engine (X := X)) (fh name afh sid : bytes)
    (content : Mount41 (X := X) -> bytes) : Prop := {
  as_safe : SafeEngine eng;
  as_sizes : 0 < rsize cfg < 2 ^ 32 /\ 0 < wsize cfg < 2 ^ 32;
  as_names : remaining afh < 2 ^ 32 /\ length sid = 16%nat;
  as_open : forall client_id progress tag build w resp w',
    ops (build (builder_new tag)) =
      ops (Compound41.getfh (Compound41.open (xattr_open_args client_id name) (Compound41.openattr true (Compound41.putfh fh (builder_new tag))))) ->
    engine_compound eng None progress tag build w = (Ok resp, w') ->
    ops_ok resp 1 2 = Ok () /\ reply_data resp 3 sid /\ reply_data resp 4 (xdr_opaque afh) /\ content w' = [];
  as_write : forall chunk offset tag build w resp w',
    0 < remaining chunk -> is_u64 offset ->
    ops (build (builder_new tag)) =
      ops (Compound41.write_header sid offset 2 (remaining chunk) (Compound41.putfh afh (builder_new tag))) ->
    engine_compound eng (Some chunk) None tag build w = (Ok resp, w') ->
    exists n verf, 0 < n <= remaining chunk /\
      reply_data resp 2 (be_bytes 4 n ++ be_bytes 4 2 ++ verf) /\ length verf = 8%nat /\
      content w' = firstn (Z.to_nat offset) (content w) ++ firstn (Z.to_nat n) chunk ++
                   skipn (Z.to_nat (offset + n)) (content w);
  as_close : forall tag build w r w',
    ops (build (builder_new tag)) = ops (Compound41.close 0 sid (Compound41.putfh afh (builder_new tag))) ->
    engine_compound eng None None tag build w = (r, w') -> content w' = content w;
  as_lookup : forall tag build w resp w',
    ops (build (builder_new tag)) = ops (Compound41.getfh (Compound41.lookup_name name (Compound41.openattr false (Compound41.putfh fh (builder_new tag))))) ->
    engine_compound eng None None tag build w = (Ok resp, w') ->
    reply_data resp 4 (xdr_opaque afh) /\ content w' = content w;
  as_read : forall offset tag build w resp w',
    0 <= offset <= remaining (content w) -> is_u64 offset ->
    ops (build (builder_new tag)) = ops (Compound41.read (zeros 16) offset (rsize cfg) (Compound41.putfh afh (builder_new tag))) ->
    engine_compound eng None None tag build w = (Ok resp, w') ->
    content w' = content w /\ exists n eof, 0 <= n <= rsize cfg /\ offset + n <= remaining (content w) /\
      reply_data resp 2 (be_bytes 4 (b2z eof) ++ be_bytes 4 n ++
                         firstn (Z.to_nat n) (skipn (Z.to_nat offset) (content w))) /\
      (eof = true <-> offset + n = remaining (content w));
}.

Section RoundTrip.
Context {X : Type} (cfg : Config) (eng : Engine (X := X)) (fh name afh sid : bytes)
        (content : Mount41 (X := X) -> bytes).
Context `{HS : !AttrServer cfg eng fh name afh sid content}.

Lemma decode_fh_enc h rest : remaining h < 2 ^ 32 -> decode_fh (xdr_opaque h ++ rest) = Ok (h, rest).
Proof.
  intros Hs. unfold decode_fh, xdr_opaque. rewrite <- !app_assoc.
  rewrite require_app by (by rewrite remaining_xdr_u32). cbn [obind].
  unfold xdr_u32. rewrite get_u32_be by (pose proof (remaining_nonneg h); ilia). cbn [obind].
  destruct (opaque_body h rest) as (H1 & H2 & H3).
  rewrite H1; cbn [obind]. rewrite H2; cbn [obind]. by rewrite H3.
Qed.

Lemma xattr_write_reply n count verf rest :
  0 < n <= count -> count < 2 ^ 32 -> length verf = 8%nat ->
  decode_xattr_write count ((be_bytes 4 n ++ be_bytes 4 2 ++ verf) ++ rest) = Ok n.
Proof.
  intros Hn Hc Hv. unfold decode_xattr_write. rewrite <- !app_assoc.
  rewrite require_ok by (rewrite !remaining_app, !remaining_be; unfold remaining; rewrite Hv; lia). cbn [obind].
  rewrite get_u32_be by ilia. cbn [obind]. rewrite get_u32_be by done. cbn [obind].
  destruct (Z.eqb_spec n 0), (Z.ltb_spec count n); try lia. done.
Qed.

(** One chunk at a time; the value written so far is a prefix of the value. *)
Lemma write_value_content value fuel gen completed w r done_ w' :
  remaining value < 2 ^ 32 -> 0 <= completed <= remaining value ->
  content w = firstn (Z.to_nat completed) value ->
  write_value cfg eng fuel afh sid value gen completed w = (r, done_, w') ->
  (r = Ok () -> content w' = value).
Proof.
  intros Hv. revert completed w. induction fuel as [|fuel IH]; intros completed w Hc Hw H Hr; subst r; cbn [write_value] in H.
  - destruct (Z.leb_spec (remaining value) completed); [|done]. injection H as _ <-. rewrite Hw.
    apply firstn_all2. unfold remaining in *. lia.
  - destruct (Z.leb_spec (remaining value) completed) as [Hle|Hlt].
    { injection H as _ <-. rewrite Hw. apply firstn_all2. unfold remaining in *. lia. }
    destruct as_sizes as [_ Hws]. set (n := Z.min (remaining value - completed) (wsize cfg)) in *.
    replace (completed + n - completed) with n in H by lia.
    set (chunk := firstn (Z.to_nat n) (skipn (Z.to_nat completed) value)) in *.
    assert (Hchunk : remaining chunk = n) by (unfold chunk, remaining in *; rewrite length_firstn, length_skipn; lia).
    assert (Hwrap : wrap32 (remaining chunk) = remaining chunk) by (unfold wrap32; apply Z.mod_small; lia).
    rewrite Hwrap in H. match type of H with context [match ?c with _ => _ end] => destruct c as [[k|e|] w1] eqn:Hrun end; [|done|done].
    run_inv Hrun. apply lift_ok in Ha0 as [Ha0 ->]. apply lift_ok in Ha1 as [Ha1 ->]. apply lift_ok in Hrun as [Hk ->].
    unfold compound_write in Ha.
    edestruct (as_write (fh := fh) (name := name) chunk completed) as (m & verf & Hm & (op & rest & Hop & Hdata) & Hverf & Hcont); [lia| | |exact Ha|]; [ilia|reflexivity|].
    assert (a1 = op) as -> by congruence. rewrite Hdata, xattr_write_reply in Hk by (done || lia). injection Hk as <-.
    eapply (IH (completed + m) w0); [lia| |exact H|done].
    rewrite Hcont, Hw. unfold chunk. rewrite Z2Nat.inj_add by lia.
    rewrite take_take, Nat.min_l by lia. rewrite (skipn_all2 (firstn _ value)) by (rewrite length_firstn; lia).
    rewrite app_nil_r. rewrite take_take, Nat.min_l by lia. apply take_take_drop.
Qed.

Lemma xattr_read_reply n eof d rest :
  0 <= n <= rsize cfg -> remaining d = n -> rsize cfg < 2 ^ 32 ->
  decode_xattr_read (rsize cfg) ((be_bytes 4 (b2z eof) ++ be_bytes 4 n ++ d) ++ rest) = Ok (eof, d).
Proof.
  intros Hn Hd Hr. unfold decode_xattr_read. rewrite <- !app_assoc.
  rewrite require_ok by (rewrite !remaining_app, !remaining_be; pose proof (remaining_nonneg rest); lia). cbn [obind].
  rewrite get_u32_be by (destruct eof; done). cbn [obind]. rewrite get_u32_be by ilia. cbn [obind].
  rewrite remaining_app, Hd. pose proof (remaining_nonneg rest).
  destruct (Z.ltb_spec (rsize cfg) n), (Z.ltb_spec (n + remaining rest) n); try lia. cbn [orb].
  rewrite slice_to_app by done. by destruct eof.
Qed.

Lemma read_value_content fuel value w r w' :
  remaining (content w) < 2 ^ 32 -> value `prefix_of` content w -> (length (content w) - length value < fuel)%nat ->
  read_value cfg eng fuel afh value w = (Ok r, w') -> r = Some (content w).
Proof.
  revert value w. induction fuel as [|fuel IH]; intros value w Hb Hp Hf H; [lia|]. cbn [read_value] in H.
  run_inv H. apply lift_ok in Ha0 as [_ ->]. apply lift_ok in Ha1 as [Hop ->]. apply lift_ok in Ha2 as [Hd ->].
  assert (Hle : 0 <= remaining value <= remaining (content w)).
  { apply prefix_length in Hp. unfold remaining. lia. }
  destruct as_sizes as [Hrs _].
  edestruct (as_read (fh := fh) (name := name) (remaining value)) as (Hc & n & e & Hn & Hend & (op & rest & Hop' & Hdata) & Heof);
    [exact Hle| | |exact Ha|]; [ilia|reflexivity|].
  assert (a1 = op) as -> by congruence.
  set (d := firstn (Z.to_nat n) (skipn (Z.to_nat (remaining value)) (content w))) in *.
  assert (Hd' : remaining d = n) by (unfold d, remaining in *; rewrite length_firstn, length_skipn; lia).
  rewrite Hdata, xattr_read_reply in Hd by (done || lia). injection Hd as <- <-.
  assert (Hv : value ++ d = firstn (Z.to_nat (remaining value + n)) (content w)).
  { destruct Hp as [k Hk]. unfold d. rewrite Hk. unfold remaining. rewrite Nat2Z.id, drop_app_length.
    rewrite Z2Nat.inj_add, Nat2Z.id by lia. by rewrite firstn_app_2. }
  destruct e.
  - injection H as <- <-. f_equal. rewrite Hv. apply firstn_all2. pose proof (proj1 Heof eq_refl). unfold remaining in *. lia.
  - case_bool_decide as Hnil; [done|]. rewrite <- Hc in Hv. rewrite <- Hc. eapply (IH (value ++ d) w0); [| | |exact H].
    + by rewrite Hc.
    + rewrite Hv. apply prefix_take.
    + rewrite Hc, length_app. assert (0 < length d)%nat by (destruct d; [done|cbn; lia]).
      apply prefix_length in Hp. unfold remaining in *. lia.
Qed.

Lemma decode_xattr_read_no_panic count data : decode_xattr_read count data <> Panic.
Proof.
  eapply (wpo_panic _ (fun _ => True)). unfold decode_xattr_read. wp. bool_hyps. wp. done.
Qed.
#[local] Hint Resolve decode_xattr_read_no_panic : safe.

Lemma safe_getxattr fuel : safe (getxattr cfg eng fuel fh name).
Proof.
  pose proof as_safe. assert (Hr : forall a v, safe (read_value cfg eng fuel a v)).
  { induction fuel as [|fuel' IH]; intros a v; cbn [read_value]; safe_tac. }
  unfold getxattr. safe_tac.
Qed.

(** What [setxattr] stored, [getxattr] returns. With a server that may store
    less than it is sent and return less than it is asked for, and may fail any
    request, a successful [setxattr] leaves exactly the given value, and a
    [getxattr] that follows, however it is cut into reads, returns exactly it or
    fails; it never returns anything else, and does not read on for ever. *)
Theorem xattr_roundtrip value fuel w w1 r w2 :
  remaining value < 2 ^ 32 ->
  setxattr cfg eng fh name value w = (Ok (), w1) -> (length value < fuel)%nat ->
  getxattr cfg eng fuel fh name w1 = (r, w2) ->
  content w1 = value /\ (r = Ok (Some value) \/ exists e, r = Err e).
Proof.
  intros Hv Hset Hf Hget.
  assert (Hcont : content w1 = value).
  { unfold setxattr in Hset. run_inv Hset. apply lift_ok in Ha3 as [Hst ->].
    apply lift_ok in Ha2 as [Ha2 ->]. apply lift_ok in Ha1 as [_ ->].
    injection Ha as <- <-. unfold compound_preserving_progress in Ha0.
    match type of Ha0 with _ = (_, ?ww) => rename ww into wo end.
    edestruct (as_open (fh := fh) (name := name) (content := content)) as (_ & (op & rest & Hop & Hd) & (op4 & rest4 & Hop4 & Hd4) & Hc); [|exact Ha0|]; [reflexivity|].
    assert (a2 = op) as -> by congruence. destruct as_names as [Hafh Hsid].
    rewrite Hd in Hst. unfold extract_stateid in Hst.
    rewrite require_app in Hst by (unfold remaining; lia). cbn [obind] in Hst.
    rewrite split_to_app in Hst by (unfold remaining; lia). cbn [obind] in Hst. rewrite Hop4 in Hst. cbn [obind] in Hst.
    rewrite Hd4, decode_fh_enc in Hst by done. cbn in Hst. injection Hst as <- <-.
    unfold finish_setxattr in Hset.
    destruct (write_value cfg eng (length value) afh sid value (session_generation a0) 0 wo) as [[wr c] wv] eqn:Hw.
    destruct wr as [[]|e|]; [|by run_inv Hset; destruct a1|done].
    pose proof (write_value_content value _ _ 0 wo _ _ _ Hv ltac:(pose proof (remaining_nonneg value); lia) ltac:(by rewrite Hc) Hw eq_refl) as Hw3.
    run_inv Hset. unfold attempt in Ha. destruct (compound eng "setxattr-close" _ wv) as [cr wc] eqn:Hcl.
    assert (Hc4 : content wc = content wv).
    { eapply (as_close (fh := fh) (name := name)); [|exact Hcl]. reflexivity. }
    destruct cr as [cr|e|]; [|by injection Ha as <- <-|done]. injection Ha as <- <-. cbn in Hset. injection Hset as <-. congruence. }
  split; [done|]. pose proof (safe_getxattr fuel w1) as Hsafe. rewrite Hget in Hsafe. destruct r as [r|e|]; [left|eauto|done].
  unfold getxattr in Hget. run_inv Hget. apply lift_ok in Ha0 as [_ ->]. apply lift_ok in Ha1 as [Hop ->].
  apply lift_ok in Ha2 as [Hfh ->].
  edestruct (as_lookup (fh := fh) (name := name) (content := content)) as ((op & rest & Hop' & Hd) & Hc); [|exact Ha|]; [reflexivity|].
  assert (a1 = op) as -> by congruence. destruct as_names as [Hafh _]. rewrite Hd, decode_fh_enc in Hfh by done. injection Hfh as <- <-.
  rewrite <- Hc in Hcont. f_equal. rewrite <- Hcont. eapply read_value_content; [by rewrite Hcont|apply prefix_nil| |exact Hget].
  rewrite Hcont. cbn. lia.
Qed.
End RoundTrip.

(** A server that stores one byte of each WRITE and returns two bytes per READ. *)
Definition demo_cfg : Config :=
  {| root_fh := of_str "root"; retain_delegations := false; rsize := 4; wsize := 4; self_dircount := 100;
     self_maxcount := 100; minor_version := V1 |}.
Definition demo_ok (o : OpNum.t) (d : bytes) : OpResponse := {| op_opcode := op_u32 o; op_status := NFS4_OK; op_data := d |}.
Definition demo_response (l : list OpResponse) : CompoundResponse :=
  {| resp_tag := []; resp_status := NFS4_OK; results := demo_ok OpNum.Sequence [] :: l; session_generation := 1 |}.
Definition demo_afh : bytes := of_str "attr".
Definition demo_sid : bytes := zeros 16.
Definition set_ext (w : Mount41 (X := bytes)) (v : bytes) : Mount41 (X := bytes) :=
  {| m_state := m_state w; m_recalls := m_recalls w; m_writes := m_writes w; m_ext := v |}.
(** The word after the state id. *)
Definition demo_offset (op : EncodedOp) : Z := be_val (firstn 8 (skipn 16 (args op))).

Definition demo_compound (payload : option bytes) (_ : option nat) (tag : bytes)
    (build : CompoundBuilder -> CompoundBuilder) : M (X := bytes) CompoundResponse := fun w =>
  let l := ops (build (builder_new tag)) in
  match map opcode l with
  | [OpNum.PutFh; OpNum.OpenAttr; OpNum.Open; OpNum.GetFh] =>
      (Ok (demo_response [demo_ok OpNum.PutFh []; demo_ok OpNum.OpenAttr []; demo_ok OpNum.Open demo_sid;
                          demo_ok OpNum.GetFh (xdr_opaque demo_afh)]), set_ext w [])
  | [OpNum.PutFh; OpNum.OpenAttr; OpNum.Lookup; OpNum.GetFh] =>
      (Ok (demo_response [demo_ok OpNum.PutFh []; demo_ok OpNum.OpenAttr []; demo_ok OpNum.Lookup [];
                          demo_ok OpNum.GetFh (xdr_opaque demo_afh)]), w)
  | [OpNum.PutFh; OpNum.Write] =>
      let offset := demo_offset (nth 1 l {| opcode := OpNum.Write; args := [] |}) in
      let chunk := default [] payload in
      (Ok (demo_response [demo_ok OpNum.PutFh []; demo_ok OpNum.Write (be_bytes 4 1 ++ be_bytes 4 2 ++ zeros 8)]),
       set_ext w (firstn (Z.to_nat offset) (m_ext w) ++ firstn 1 chunk ++ skipn (Z.to_nat (offset + 1)) (m_ext w)))
  | [OpNum.PutFh; OpNum.Read] =>
      let offset := demo_offset (nth 1 l {| opcode := OpNum.Read; args := [] |}) in
      let n := Z.min 2 (remaining (m_ext w) - offset) in
      (Ok (demo_response [demo_ok OpNum.PutFh []; demo_ok OpNum.Read
          (be_bytes 4 (b2z (offset + n =? remaining (m_ext w))) ++ be_bytes 4 n ++
           firstn (Z.to_nat n) (skipn (Z.to_nat offset) (m_ext w)))]), w)
  | _ => (Ok (demo_response []), w)
  end.

Definition demo_engine : Engine (X := bytes) :=
  {| engine_compound := demo_compound; engine_pnfs_read := fun _ _ _ => retM None;
     engine_write_pnfs := fun _ _ _ => retM None; engine_commit_pending := fun _ _ => retM ();
     engine_flush_layoutcommit := fun _ => retM (); engine_layoutreturn := fun _ => retM ();
     engine_return_on_close := fun _ _ => false; engine_client_id := fun _ => 7; engine_generation := fun _ => 1;
     engine_max_response_size := fun _ => 65536 |}.
Definition demo_mount : Mount41 (X := bytes) :=
  {| m_state := StateManager_new; m_recalls := {| queued := []; capacity := 1; receiver_alive := true |}; m_writes := WriteOwner.WriteOwner_new V2;
     m_ext := of_str "old" |}.

Lemma demo_engine_safe : SafeEngine demo_engine.
Proof.
  split; try done; [|by intros ? ? ? w r w' [= <- _]..].
  intros payload progress tag build w. cbn. unfold demo_compound. repeat (case_match; try done).
Qed.

Lemma demo_attr_server : AttrServer demo_cfg demo_engine (of_str "f") (of_str "n") demo_afh demo_sid m_ext.
Proof.
  assert (Ho : forall s offset rest o, length s = 16%nat -> is_u64 offset ->
    demo_offset {| opcode := o; args := s ++ xdr_u64 offset ++ rest |} = offset).
  { intros s offset rest o Hs Hoff. unfold demo_offset, xdr_u64. cbn [args]. rewrite <- Hs, drop_app_length.
    rewrite take_app_length' by (by rewrite length_be_bytes). rewrite be_val_bytes. apply Z.mod_small. exact Hoff. }
  split; try done.
  - apply demo_engine_safe.
  - intros client_id progress tag build w resp w' Hops. cbn [engine_compound demo_engine]. unfold demo_compound. rewrite Hops. cbn [map Compound41.getfh Compound41.open Compound41.openattr Compound41.putfh push ops app opcode builder_new].
    intros [= <- <-]. split_and!; [done|by eexists _, []|by eexists _, []|done].
  - intros chunk offset tag build w resp w' Hc Hoff Hops. cbn [engine_compound demo_engine]. unfold demo_compound. rewrite Hops.
    cbn [map Compound41.write_header Compound41.putfh push ops app opcode builder_new nth default]. rewrite Ho by done.
    intros [= <- <-]. exists 1, (zeros 8). split_and!; [lia|lia|by eexists _, []|done|done].
  - intros tag build w r w' Hops. cbn [engine_compound demo_engine]. unfold demo_compound. rewrite Hops. by intros [= _ <-].
  - intros tag build w resp w' Hops. cbn [engine_compound demo_engine]. unfold demo_compound. rewrite Hops. cbn [map Compound41.getfh Compound41.lookup_name Compound41.openattr Compound41.putfh push ops app opcode builder_new].
    intros [= <- <-]. split; [by eexists _, []|done].
  - intros offset tag build w resp w' Hr Hoff Hops. cbn [engine_compound demo_engine]. unfold demo_compound. rewrite Hops.
    cbn [map Compound41.read Compound41.putfh push ops app opcode builder_new nth]. rewrite Ho by done.
    intros [= <- <-]. split; [done|]. exists (Z.min 2 (remaining (m_ext w) - offset)), (offset + Z.min 2 (remaining (m_ext w) - offset) =? remaining (m_ext w)).
    cbn [rsize demo_cfg]. split_and!; [lia|lia|lia|eexists _, []; split; [reflexivity|by rewrite app_nil_r]|apply Z.eqb_eq].
Qed.

Lemma xattr_roundtrip_witness :
  m_ext (setxattr demo_cfg demo_engine (of_str "f") (of_str "n") (of_str "new!!") demo_mount).2 = of_str "new!!" /\
  ((getxattr demo_cfg demo_engine 6 (of_str "f") (of_str "n")
      (setxattr demo_cfg demo_engine (of_str "f") (of_str "n") (of_str "new!!") demo_mount).2).1 = Ok (Some (of_str "new!!")) \/
   exists e, (getxattr demo_cfg demo_engine 6 (of_str "f") (of_str "n")
      (setxattr demo_cfg demo_engine (of_str "f") (of_str "n") (of_str "new!!") demo_mount).2).1 = Err e).
Proof.
  eapply (xattr_roundtrip (HS := demo_attr_server) demo_cfg demo_engine (of_str "f") (of_str "n") demo_afh demo_sid m_ext
    (of_str "new!!") 6 demo_mount); [done|by vm_compute|cbn; lia|apply surjective_pairing].
Defined.

(** ** Listing extended attributes ends *)

Lemma result_data_no_panic r i o : result_data r i o <> Panic.
Proof.
  unfold result_data. pose proof (op_ok_no_panic r i). destruct (op_ok r i); cbn [obind]; [|done|done]. by destruct (negb _).
Qed.
#[export] Hint Resolve result_data_no_panic : safe.

Section Ends.
Context {X : Type} (cfg : Config) (eng : Engine (X := X)) `{HE : !SafeEngine eng}.

Lemma list_names_ends fuel fh maximum cookie seen names w r w' :
  (Z.of_nat (length names) + Z.of_nat fuel >= 65537)%Z -> Z.of_nat (length names) <= 65536 ->
  list_names eng fuel fh maximum cookie seen names w = (r, w') ->
  r <> Panic /\ forall l, r = Ok l -> Z.of_nat (length l) <= 65536.
Proof.
  revert cookie seen names w. induction fuel as [|fuel IH]; intros cookie seen names w Hf Hn H; [lia|].
  cbn [list_names] in H. unfold bindM in H.
  pose proof (safe_compound None None (of_str "listxattrs42") (fun b => Compound41.listxattrs cookie maximum (Compound41.putfh fh b)) w) as Hs.
  unfold compound in H. destruct (engine_compound eng None None _ _ w) as [[resp|e|] w1]; cbn [fst] in Hs; [|by simplify_eq|done].
  unfold lift in H. pose proof (result_data_no_panic resp 2 74) as Hd. destruct (result_data resp 2 74) as [data|e|]; [|by simplify_eq|done].
  pose proof (wpo_panic _ _ (wpo_decode_list data)) as Hl. destruct (decode_list data) as [[[[next page] eof] rest]|e|]; [|by simplify_eq|done].
  destruct (Z.ltb_spec maximum (remaining data - remaining rest)) as [|_]; cbn [orb] in H; [by injection H as <- <-|].
  destruct (Z.ltb_spec 65536 (Z.of_nat (length names + length page))) as [|Hle]; [by injection H as <- <-|].
  destruct eof; cbn [negb andb] in H.
  { injection H as <- <-. split; [done|]. intros l [= <-]. rewrite length_app. lia. }
  destruct page as [|p page]; cbn [length Nat.eqb orb] in H; [by injection H as <- <-|].
  case_bool_decide; [by injection H as <- <-|].
  eapply IH; [| |exact H]; rewrite length_app; cbn [length] in *; lia.
Qed.

Lemma safe_v42_attributes fh : safe (v42_attributes cfg eng fh).
Proof.
  assert (Hw : forall d, word d <> Panic) by (intros; eapply (wpo_panic _ (fun _ => True)); unfold word; wp; done).
  assert (Hb : forall d, decode_bool d <> Panic).
  { intros d. unfold decode_bool. pose proof (Hw d). destruct (word d) as [[v r]|e|]; cbn [obind]; [|done|done]. repeat case_match; done. }
  assert (Hcol : forall n d, 0 <= n -> n * 4 <= remaining d -> @collect NfsError Z n get_u32 d <> Panic).
  { intros n d Hn Hd. eapply (wpo_panic _ (fun _ => True)). rewrite collect_nat.
    enough (Hgen : forall m acc b, (4 * m <= length b)%nat -> wpo (loop_nat m (fun '(acc, buf) =>
      let* (a, buf) := @get_u32 NfsError buf in Ok (acc ++ [a], buf)) (acc, b)) (fun _ => True)) by (apply Hgen; unfold remaining in Hd; lia).
    induction m as [|m IH]; intros acc b Hm; [done|]. cbn [loop_nat]. wp. apply IH. unfold remaining in *. lia. }
  assert (Hg : forall bitmap, safe (v42_getattr eng fh bitmap)).
  { intros bitmap. unfold v42_getattr. apply safe_bind; [unfold compound; auto with safe|]. intros reply. apply safe_lift.
    pose proof (result_data_no_panic reply 2 9). destruct (result_data reply 2 9) as [data|e|]; cbn [obind]; [|done|done].
    eapply (wpo_panic _ (fun _ => True)). unfold word. wp. bool_hyps.
    match goal with |- wpo (collect ?n _ ?d) _ => pose proof (Hcol n d ltac:(ilia) ltac:(lia)) as Hc; destruct (collect n get_u32 d) as [[l d']|e|] end; cbn; [|done|done].
    pose proof (wpo_panic _ _ (wpo_opaque d')) as Ho. destruct (opaque d') as [[vals r]|e|]; done. }
  unfold v42_attributes. apply safe_bind; [apply safe_lift; unfold require_v42; by destruct (minor_version cfg)|].
  intros _. apply safe_bind; [apply Hg|]. intros [bitmap values]. apply safe_if; [apply safe_fail|].
  apply safe_bind.
  { apply safe_lift. eapply (wpo_panic _ (fun _ => True)). unfold word. wp. bool_hyps.
    match goal with H : _ || negb _ = false |- _ => apply orb_false_iff in H as [? ?]; bool_hyps | _ => idtac end.
    match goal with |- wpo (collect ?n _ ?d) _ => pose proof (Hcol n d ltac:(ilia) ltac:(lia)) as Hc; by destruct (collect n get_u32 d) as [[l d']|e|] end. }
  intros supported. apply safe_if; [apply safe_ret|]. apply safe_bind; [apply Hg|]. intros [bitmap' values'].
  apply safe_bind; [|by intros [? ?]]. apply safe_lift. unfold decode_v42_values.
  destruct (negb _); [pose proof (Hw values'); destruct (word values') as [[v r]|e|]; cbn [obind]; [|done|done]|cbn [obind]].
  all: destruct (negb _); [|cbn [obind]; by destruct (negb _)].
  all: match goal with |- context [decode_bool ?d] => pose proof (Hb d); destruct (decode_bool d) as [[? ?]|?|] end; cbn [obind]; [|done|done]; by destruct (negb _).
Qed.

(** Listing the extended attributes of a file ends. Whatever the server
    answers, [v42_listxattrs] returns names or an error within 65537 pages and
    never more than 65536 names. *)
Theorem listxattrs_terminates fh w : forall r w',
  v42_listxattrs cfg eng fh w = (r, w') -> r <> Panic /\ forall l, r = Ok l -> Z.of_nat (length l) <= 65536.
Proof.
  intros r w' H. unfold v42_listxattrs, bindM in H.
  assert (Hq : safe (require_xattrs cfg eng fh)).
  { unfold require_xattrs. apply safe_bind; [apply safe_v42_attributes|]. intros a. by destruct (xattr_support a). }
  specialize (Hq w). destruct (require_xattrs cfg eng fh w) as [[a|e|] w1]; cbn [fst] in Hq; [|by simplify_eq|done].
  destruct (_ <? 16); [by injection H as <- <-|].
  eapply list_names_ends; [| |exact H]; cbn [length]; lia.
Qed.
End Ends.

(** A server with one extended attribute. *)
Definition demo_cfg42 : Config :=
  {| root_fh := of_str "root"; retain_delegations := false; rsize := 4096; wsize := 4096; self_dircount := 100;
     self_maxcount := 100; minor_version := V2 |}.
Definition demo_compound42 (_ : option bytes) (_ : option nat) (tag : bytes)
    (build : CompoundBuilder -> CompoundBuilder) : M (X := bytes) CompoundResponse := fun w =>
  let l := ops (build (builder_new tag)) in
  match map opcode l with
  | [OpNum.PutFh; OpNum.GetAttr] =>
      (Ok (demo_response [demo_ok OpNum.PutFh []; demo_ok OpNum.GetAttr
         (if remaining (args (nth 1 l {| opcode := OpNum.GetAttr; args := [] |})) =? 8
          then xdr_bitmap [1] ++ xdr_opaque (xdr_bitmap [0; 0; 262144])
          else xdr_bitmap [0; 0; 262144] ++ xdr_opaque (be_bytes 4 1))]), w)
  | [OpNum.PutFh; OpNum.ListXattrs] =>
      (Ok (demo_response [demo_ok OpNum.PutFh []; demo_ok OpNum.ListXattrs
         (be_bytes 8 5 ++ be_bytes 4 1 ++ xdr_opaque (of_str "user") ++ be_bytes 4 1)]), w)
  | _ => (Err (Nfs4 NFS4ERR_NOTSUPP), w)
  end.
Definition demo_engine42 : Engine (X := bytes) :=
  {| engine_compound := demo_compound42; engine_pnfs_read := fun _ _ _ => retM None;
     engine_write_pnfs := fun _ _ _ => retM None; engine_commit_pending := fun _ _ => retM ();
     engine_flush_layoutcommit := fun _ => retM (); engine_layoutreturn := fun _ => retM ();
     engine_return_on_close := fun _ _ => false; engine_client_id := fun _ => 7; engine_generation := fun _ => 1;
     engine_max_response_size := fun _ => 65536 |}.

Lemma demo_engine42_safe : SafeEngine demo_engine42.
Proof.
  split; try done; [|by intros ? ? ? w r w' [= <- _]..].
  intros payload progress tag build w. cbn. unfold demo_compound42. repeat (case_match; try done).
Qed.

Lemma listxattrs_terminates_witness :
  (v42_listxattrs demo_cfg42 demo_engine42 (of_str "f") demo_mount).1 = Ok [of_str "user"] /\ Z.of_nat (length [of_str "user"]) <= 65536.
Proof.
  assert (H : v42_listxattrs demo_cfg42 demo_engine42 (of_str "f") demo_mount = (Ok [of_str "user"], demo_mount)) by (by vm_compute).
  split; [by rewrite H|].
  exact (proj2 (listxattrs_terminates (HE := demo_engine42_safe) demo_cfg42 demo_engine42 (of_str "f") demo_mount _ _ H) _ eq_refl).
Defined.

(** ** A copy that is reported is durable *)

Section CopyProps.
Context {X : Type} (cfg : Config) (eng : Engine (X := X)).
#[local] Notation "'let!' x ':=' c 'in' k" := (bindM c (fun x => k))
  (at level 10, x pattern, c at level 100, k at level 200).

Lemma map_err_ok {A} (f : NfsError -> NfsError) (r : result A) a : map_err f r = Ok a -> r = Ok a.
Proof. destruct r; cbn; congruence. Qed.

(** C37: a COPY is reported only when it is durable. When [v42_copy] returns a
    count for a copy, the server answered one COPY request of these ranges with a
    synchronous and consecutive result of exactly that count, not more than was
    asked for and not zero unless the rest of the file was asked for, and either
    declared it stable or answered a COMMIT with the verifier of the copy. *)
Theorem copy_is_durable source destination source_offset destination_offset count w n w' :
  v42_copy cfg eng source destination source_offset destination_offset count false w = (Ok n, w') ->
  source <> destination /\
  exists src dst resp op reply rest w1 w2,
    compound eng "copy" (fun b => Compound41.copy_range false (raw src) (raw dst) source_offset destination_offset count
        (Compound41.putfh destination (Compound41.savefh (Compound41.putfh source (Compound41.require_generation b (generation src)))))) w1 = (Ok resp, w2) /\
    generation src = generation dst /\
    op_ok resp 4 = Ok op /\ decode_copy (op_data op) = Ok (reply, rest) /\
    copy_count reply = n /\ synchronous reply = true /\ consecutive reply = true /\ callback reply = None /\
    (count <> 0 -> n <> 0 /\ n <= count) /\ is_Some (checked_add64 destination_offset n) /\
    (committed reply = FileSync /\ w' = w2 \/
     exists offset len, (offset = destination_offset /\ len = n \/ offset = 0 /\ len = 0) /\
       commit_with_verifier eng destination offset len w2 = (Ok (Some (copy_verifier reply)), w')).
Proof.
  intros H. unfold v42_copy in H. apply bindM_ok in H as (u & w0 & H0 & H). destruct (_ || _ || _) eqn:Hbad; [done|].
  apply orb_false_iff in Hbad as [_ Hsame]. cbn [negb andb] in Hsame. rewrite bool_decide_eq_false in Hsame. split; [done|].
  apply bindM_ok in H as (u1 & wl & _ & H). apply bindM_ok in H as (src & ws & _ & H). apply bindM_ok in H as (dst & wd & _ & H).
  destruct (negb _) eqn:Hgen; [done|]. bool_hyps. rewrite bool_decide_false in H by done.
  apply bindM_ok in H as (u2 & wc & Hc & H). injection Hc as <- <-.
  apply bindM_ok in H as (resp & w2 & Hresp & H). apply bindM_ok in H as (data & w3 & Hdata & H).
  apply lift_ok in Hdata as [Hdata%map_err_ok ->]. unfold result_data in Hdata.
  destruct (op_ok resp 4) as [op|e|] eqn:Hop; cbn [obind] in Hdata; [|done|done]. destruct (negb _) in Hdata; [done|]. injection Hdata as <-.
  unfold finish_copy in H. cbn [copy_tag] in H. apply bindM_ok in H as ([reply rest] & w4 & Hrep & H).
  apply lift_ok in Hrep as [Hrep%map_err_ok ->].
  destruct (callback reply) eqn:Hcb; [by run_inv H|].
  destruct (copy_reply_bad reply destination_offset count) eqn:Hb; [done|].
  apply bindM_ok in H as (u3 & w5 & Hcommit & H). injection H as <- <-.
  unfold copy_reply_bad in Hb. apply orb_false_iff in Hb as [Hb Hadd]. apply orb_false_iff in Hb as [Hb Hcount]. apply orb_false_iff in Hb as [Hsync Hcons].
  exists src, dst, resp, op, reply, rest, wd, w2. split_and!; try done; bool_hyps; try done.
  - intros Hne. destruct (Z.eqb_spec count 0); [done|]. cbn [negb andb] in Hcount. bool_hyps. lia.
  - by apply bool_decide_eq_true in Hadd.
  - case_bool_decide as Hfs; [injection Hcommit as _ <-; by left|]. right.
    assert (Hgo : forall offset len, (let! actual := (fun w => match commit_with_verifier eng destination offset len w with
                                        | (r, w) => (map_err (mutation_error cfg "copy") r, w) end) in
               if negb (bool_decide (actual = Some (copy_verifier reply)))
               then failM (write_verifier_changed (protocol_of cfg)) else retM ()) w2 = (Ok u3, w5) ->
               commit_with_verifier eng destination offset len w2 = (Ok (Some (copy_verifier reply)), w5)).
    { intros offset len Hx. apply bindM_ok in Hx as (actual & w6 & Ha & Hx).
      destruct (commit_with_verifier eng destination offset len w2) as [r6 w7]. injection Ha as Ha ->. apply map_err_ok in Ha as ->.
      case_bool_decide as Hv; cbn [negb] in Hx; [|done]. injection Hx as _ <-. by rewrite Hv. }
    destruct (_ <=? u32_max); [exists destination_offset, (copy_count reply)|exists 0, 0]; (split; [auto|by apply Hgo]).
Qed.
End CopyProps.

(** A server that copies eight bytes without making them stable. *)
Definition copy_compound (_ : option bytes) (_ : option nat) (tag : bytes)
    (build : CompoundBuilder -> CompoundBuilder) : M (X := bytes) CompoundResponse := fun w =>
  match map opcode (ops (build (builder_new tag))) with
  | [OpNum.PutFh; OpNum.SaveFh; OpNum.PutFh; OpNum.Copy] =>
      (Ok (demo_response [demo_ok OpNum.PutFh []; demo_ok OpNum.SaveFh []; demo_ok OpNum.PutFh []; demo_ok OpNum.Copy
         (be_bytes 4 0 ++ be_bytes 8 8 ++ be_bytes 4 0 ++ be_bytes 8 5 ++ be_bytes 4 1 ++ be_bytes 4 1)]), w)
  | [OpNum.PutFh; OpNum.Commit] => (Ok (demo_response [demo_ok OpNum.PutFh []; demo_ok OpNum.Commit (be_bytes 8 5)]), w)
  | _ => (Err (Nfs4 NFS4ERR_NOTSUPP), w)
  end.
Definition copy_engine : Engine (X := bytes) :=
  {| engine_compound := copy_compound; engine_pnfs_read := fun _ _ _ => retM None;
     engine_write_pnfs := fun _ _ _ => retM None; engine_commit_pending := fun _ _ => retM ();
     engine_flush_layoutcommit := fun _ => retM (); engine_layoutreturn := fun _ => retM ();
     engine_return_on_close := fun _ _ => false; engine_client_id := fun _ => 7; engine_generation := fun _ => 1;
     engine_max_response_size := fun _ => 65536 |}.
Definition copy_state (m : AccessMode.t) : OpenState :=
  {| os_stateid := from_bytes_at (zeros 16) 1; os_access := m; ref_count := 1; os_generation := 1 |}.
Definition copy_mount : Mount41 (X := bytes) :=
  set_state demo_mount {| open_files := {[of_str "a" := copy_state AccessMode.Read; of_str "b" := copy_state AccessMode.Write]}; st_active := 1 |}.

Lemma copy_is_durable_witness :
  v42_copy demo_cfg42 copy_engine (of_str "a") (of_str "b") 0 0 8 false copy_mount = (Ok 8, copy_mount) /\ of_str "a" <> of_str "b".
Proof.
  assert (H : v42_copy demo_cfg42 copy_engine (of_str "a") (of_str "b") 0 0 8 false copy_mount = (Ok 8, copy_mount)) by (by vm_compute).
  split; [exact H|]. exact (proj1 (copy_is_durable demo_cfg42 copy_engine _ _ _ _ _ _ _ _ H)).
Defined.

(** A [setxattr] that fails after its OPEN succeeded says so. OPEN has
    already created or truncated the attribute; whatever fails afterwards, the
    error is an uncertain outcome with the number of bytes the server
    acknowledged, never an error that lets the caller believe the old value is
    still there. *)
Theorem setxattr_failure_uncertain {X : Type} cfg (eng : Engine (X := X)) fh name value w resp w1 op e w' :
  engine_compound eng None (Some 3%nat) (of_str "setxattr-open")
    (fun b => Compound41.getfh (Compound41.open (xattr_open_args (engine_client_id eng w) name) (Compound41.openattr true (Compound41.putfh fh b)))) w = (Ok resp, w1) ->
  ops_ok resp 1 2 = Ok () -> op_ok resp 3 = Ok op ->
  setxattr cfg eng fh name value w = (Err e, w') ->
  exists src completed, e = xattr_uncertain src completed (protocol_of cfg) /\ 0 <= completed.
Proof.
  intros Hopen H12 H3 H. unfold setxattr, bindM, gets, compound_preserving_progress in H. rewrite Hopen in H.
  unfold lift in H at 1. rewrite H12 in H. unfold lift in H at 1. rewrite H3 in H. unfold lift in H at 1.
  match type of H with context [map_err ?f ?r] => destruct r as [[sid afh]|x|] end; cbn [map_err] in H; [|injection H as <- _; by eexists _, 0|done].
  unfold finish_setxattr in H.
  destruct (write_value cfg eng (length value) afh sid value (session_generation resp) 0 w1) as [[wr c] wv] eqn:Hw.
  assert (Hc : 0 <= c).
  { enough (Hgen : forall fuel completed w wr c wv, 0 <= completed ->
      write_value cfg eng fuel afh sid value (session_generation resp) completed w = (wr, c, wv) -> 0 <= c) by (by eapply (Hgen _ 0)).
    clear. induction fuel as [|fuel IH]; intros completed w wr c wv Hc H; cbn [write_value] in H;
      (destruct (_ <=? _); [by simplify_eq|]); [by simplify_eq|].
    match type of H with context [match ?c with _ => _ end] => destruct c as [[k|e|] w1] eqn:Hrun end; [|by simplify_eq..].
    run_inv Hrun. apply lift_ok in Hrun as [Hk _]. eapply IH; [|exact H].
    unfold decode_xattr_write in Hk. match type of Hk with context [op_data ?o] => set (d := op_data o) in * end.
    unfold require in Hk. destruct (_ <? 16); [done|]. cbn [obind] in Hk.
    destruct (get_u32 d) as [[n d1]|x|] eqn:Hn; cbn [obind] in Hk; [|done|done].
    destruct (get_u32 d1) as [[m d2]|x|]; cbn [obind] in Hk; [|done|done]. destruct (_ || _); [done|]. injection Hk as <-.
    unfold get_u32, get_uint in Hn. destruct (_ <? _); [done|]. injection Hn as <- _. pose proof (be_val_range (firstn 4 d)). lia. }
  destruct wr as [u|x|]; [| |done].
  all: unfold bindM, attempt in H; destruct (compound eng "setxattr-close" _ wv) as [[cr|ce|] wc]; cbn in H; try done;
       injection H as <- _; by eexists _, _.
Qed.

(** The OPEN succeeds but the reply lacks the file handle. *)
Definition broken_compound (_ : option bytes) (_ : option nat) (_ : bytes)
    (_ : CompoundBuilder -> CompoundBuilder) : M (X := bytes) CompoundResponse := fun w =>
  (Ok (demo_response [demo_ok OpNum.PutFh []; demo_ok OpNum.OpenAttr []; demo_ok OpNum.Open demo_sid]), w).
Definition broken_engine : Engine (X := bytes) :=
  {| engine_compound := broken_compound; engine_pnfs_read := fun _ _ _ => retM None;
     engine_write_pnfs := fun _ _ _ => retM None; engine_commit_pending := fun _ _ => retM ();
     engine_flush_layoutcommit := fun _ => retM (); engine_layoutreturn := fun _ => retM ();
     engine_return_on_close := fun _ _ => false; engine_client_id := fun _ => 7; engine_generation := fun _ => 1;
     engine_max_response_size := fun _ => 65536 |}.

Lemma setxattr_failure_uncertain_witness : exists src completed,
  (setxattr demo_cfg broken_engine (of_str "f") (of_str "n") (of_str "v") demo_mount).1 =
  Err (xattr_uncertain src completed NFSv4p1) /\ 0 <= completed.
Proof.
  destruct (setxattr demo_cfg broken_engine (of_str "f") (of_str "n") (of_str "v") demo_mount) as [r w'] eqn:E.
  destruct r as [u|e|]; [by vm_compute in E| |by vm_compute in E].
  destruct (setxattr_failure_uncertain demo_cfg broken_engine (of_str "f") (of_str "n") (of_str "v") demo_mount _ _ _ e w'
    eq_refl eq_refl eq_refl E) as (src & completed & -> & Hc). by exists src, completed.
Defined.
