(* ===== verification/Entry.v ===== *)
(** * Crate entry points

    Models [src/src/lib.rs]: the mount URL and its parameters, the choice of a
    protocol version, the error a failed mount reports, the privileged source
    ports a connection is bound to, and [split_path]. The url, percent-encoding
    and path-clean crates are parameters; their documented behaviour is stated
    where a theorem needs it. *)
From Stdlib Require Import Strings.Byte.
From S2P Require Import Prelude Errors Device Ops41.
From stdpp Require Import base list numbers strings.
#[local] Open Scope Z_scope.

(** ** Source ports *)

Definition WELL_KNOWN_PORTS : list Z :=
  [1; 7; 9; 11; 13; 15; 20; 21; 22; 23; 25; 37; 42; 43; 49; 53; 67; 68; 69; 70; 79; 80; 88; 102; 110; 111; 119; 123; 135;
   137; 138; 139; 143; 161; 162; 179; 389; 427; 443; 445; 464; 465; 514; 515; 520; 530; 543; 544; 546; 547; 548; 554; 587;
   593; 631; 636; 873; 990; 993; 995].
Definition available_ports : list Z :=
  List.filter (fun p => negb (bool_decide (p ∈ WELL_KNOWN_PORTS))) (map Z.of_nat (seq 1 1023)).

Definition privileged_port_candidates (ports : list Z) (start : nat) : list Z :=
  map (fun offset => nth ((start + offset) mod length ports) ports 0) (seq 0 (length ports)).

Definition is_privileged_port_collision (k : ErrorKind) : bool :=
  match k with AddrInUse | AddrNotAvailable => true | _ => false end.

(** What the operating system answers: an [io::Error] is its kind and payload. *)
Definition IoError : Type := ErrorKind * IoPayload NfsError.
Definition io_err {A : Type} (e : IoError) : result A := Err (Io e.1 e.2).
Definition io (r : option IoError) : result () := match r with Some e => io_err e | None => Ok () end.

Record SocketOps (Stream : Type) : Type := {
  so_new : option IoError;              (* TcpSocket::new_v4 or new_v6 *)
  so_reuseaddr : option IoError;
  so_bind : Z -> option IoError;        (* port 0 lets the system choose *)
  so_connect : Z -> Stream + IoError;   (* connect from the bound port *)
  so_nodelay : Stream -> option IoError;
  so_keepalive : Stream -> option IoError
}.
Arguments so_new {Stream} _.
Arguments so_reuseaddr {Stream} _.
Arguments so_bind {Stream} _ _.
Arguments so_connect {Stream} _ _.
Arguments so_nodelay {Stream} _ _.
Arguments so_keepalive {Stream} _ _.

Section Connect.
Context {Stream : Type} (os : SocketOps Stream) (summary : nat -> ErrorKind -> IoPayload NfsError).

Definition tune_stream (stream : Stream) : result Stream :=
  let* _ := io (so_nodelay os stream) in
  let* _ := io (so_keepalive os stream) in
  Ok stream.
Definition open_socket : result () :=
  let* _ := io (so_new os) in
  io (so_reuseaddr os).

(** One pass of the loop: [inr] goes on with the next port after a collision. *)
Definition port_attempt (port : Z) : result (Stream + ErrorKind) :=
  let* _ := open_socket in
  match so_bind os port with
  | Some e => if is_privileged_port_collision e.1 then Ok (inr e.1) else io_err e
  | None =>
      match so_connect os port with
      | inl stream => let* stream := tune_stream stream in Ok (inl stream)
      | inr e => if is_privileged_port_collision e.1 then Ok (inr e.1) else io_err e
      end
  end.
Fixpoint try_ports (attempted : nat) (candidates : list Z) (last_collision : option ErrorKind) : result Stream :=
  match candidates with
  | [] => let k := default AddrNotAvailable last_collision in Err (Io k (summary attempted k))
  | port :: candidates =>
      let* r := port_attempt port in
      match r with
      | inl stream => Ok stream
      | inr k => try_ports attempted candidates (Some k)
      end
  end.
(** [start] is the random index the candidates begin at. *)
Definition connect_to_target (noresvport : bool) (start : nat) : result Stream :=
  if noresvport then
    let* _ := open_socket in
    let* _ := io (so_bind os 0) in
    match so_connect os 0 with inl stream => tune_stream stream | inr e => io_err e end
  else
    let candidates := privileged_port_candidates available_ports start in
    try_ports (length candidates) candidates None.
End Connect.

(** ** The mount URL *)

Record MountArgs : Type := {
  ma_versions : list NFSVersion; ma_host : bytes; ma_dirpath : bytes; ma_mountport : Z; ma_nfsport : Z;
  ma_uid : Z; ma_gid : Z; ma_readdir_buffer : option (Z * Z); ma_noresvport : bool; ma_retain_delegations : bool
}.

(** What the url crate returns: [u_query] are the decoded parameters. *)
Record Url : Type := {
  u_scheme : bytes; u_has_host : bool; u_host : option bytes; u_port : option Z; u_query : list (bytes * bytes); u_path : bytes;
  u_can_clear_port : bool
}.

(** [From<&str> for NFSVersion] *)
Definition version_of (v : bytes) : NFSVersion :=
  if bool_decide (v = of_str "3") then NFSv3
  else if bool_decide (v = of_str "4.0") then NFSv4p0
  else if bool_decide (v = of_str "4.1") then NFSv4p1
  else if bool_decide (v = of_str "4.2") then NFSv4p2
  else VersionUnknown.

Definition COMMA : Z := 44.

Fixpoint parse_versions (l : list bytes) : result (list NFSVersion) :=
  match l with
  | [] => Ok []
  | v :: l =>
      match version_of v with
      | VersionUnknown => Err (InvalidInput "specified URL contains bad NFS version")
      | version => let* vs := parse_versions l in Ok (version :: vs)
      end
  end.

Definition find_param (u : Url) (name : string) : option bytes :=
  snd <$> List.find (fun p => bool_decide (p.1 = of_str name)) (u_query u).
Definition has_param (u : Url) (name : string) : bool :=
  existsb (fun p => bool_decide (p.1 = of_str name)) (u_query u).

(** [FromStr] of the types used. *)
Definition parse_u16 : bytes -> option Z := parse_unsigned 65535.
Definition parse_bool (s : bytes) : option bool :=
  if bool_decide (s = of_str "true") then Some true else if bool_decide (s = of_str "false") then Some false else None.

Definition get_url_query_param {T : Type} (from_str : bytes -> option T) (u : Url) (name : string) (def : T) (err_msg : string)
    : result T :=
  match find_param u name with
  | Some val => match from_str val with Some v => Ok v | None => Err (InvalidInput err_msg) end
  | None => Ok def
  end.

(** [split_once(',')] *)
Fixpoint split_once (c : Z) (s : bytes) : option (bytes * bytes) :=
  match s with
  | [] => None
  | b :: s => if is_char c b then Some ([], s) else (fun '(x, y) => (b :: x, y)) <$> split_once c s
  end.
Definition bad_readdir_buffer : NfsError := InvalidInput "specified URL contains bad readdir-buffer value".
Definition parse_readdir_buffer_query_param (param : bytes) : result (Z * Z) :=
  match split_once COMMA param with
  | Some (dircount_str, maxcount_str) =>
      match parse_u32 dircount_str with
      | None => Err bad_readdir_buffer
      | Some dircount =>
          match parse_u32 maxcount_str with None => Err bad_readdir_buffer | Some maxcount => Ok (dircount, maxcount) end
      end
  | None => match parse_u32 param with None => Err bad_readdir_buffer | Some count => Ok (count, count) end
  end.

Definition SLASH : byte := x2f.
Definition NUL : byte := x00.
(** [join("/")] *)
Fixpoint join_slash (l : list bytes) : bytes :=
  match l with
  | [] => []
  | [c] => c
  | c :: l => c ++ SLASH :: join_slash l
  end.

Section ParseUrl.
(** [Url::parse] with the text of its error, and [percent_decode_str]. *)
Context (url_parse : bytes -> Url + string) (percent_decode : bytes -> bytes).

Fixpoint decode_components (l : list bytes) : result (list bytes) :=
  match l with
  | [] => Ok []
  | encoded :: l =>
      let decoded := percent_decode encoded in
      if negb (utf8_valid decoded) then Err (InvalidInput "NFS export path is not valid UTF-8")
      else if bool_decide (SLASH ∈ decoded) || bool_decide (NUL ∈ decoded)
      then Err (InvalidInput "NFS export path contains an encoded separator or NUL")
      else let* rest := decode_components l in Ok (decoded :: rest)
  end.

(** [parse_with_params] adds the default version behind the parameters of the URL. *)
Definition with_params (u : Url) : Url :=
  {| u_scheme := u_scheme u; u_has_host := u_has_host u; u_host := u_host u; u_port := u_port u;
     u_query := u_query u ++ [(of_str "version", of_str "3")]; u_path := u_path u; u_can_clear_port := u_can_clear_port u |}.

(** Parameters that were removed. *)
Definition removed_params (u : Url) : result () :=
  if has_param u "writeback" || has_param u "commit_threshold"
  then Err (InvalidInput "writeback and commit_threshold are no longer supported; writes commit before returning")
  else if has_param u "rsize" || has_param u "wsize"
  then Err (InvalidInput "rsize and wsize are negotiated automatically and cannot be configured")
  else if has_param u "readahead"
  then Err (InvalidInput "readahead is no longer supported; reads cover only the requested buffer")
  else Ok ().

Definition parse_url (uid_def gid_def : Z) (url : bytes) : result MountArgs :=
  match url_parse url with
  | inr e => Err (InvalidInput e)
  | inl u =>
      let u := with_params u in
      if negb (bool_decide (u_scheme u = of_str "nfs")) then Err (InvalidInput "specified URL does not have scheme nfs")
      else if negb (u_has_host u) then Err (InvalidInput "specified URL does not contain a host")
      else
        let addr_port := u_port u in
        if negb (u_can_clear_port u) then Err (InvalidInput "cannot clear port on URL")
        else
          match find_param u "version" with
          | None => Err (InvalidInput "missing version parameter")
          | Some version_str =>
              let* versions := parse_versions (split_on COMMA version_str) in
              let versions := match versions with [] => [NFSv4p1; NFSv3] | _ => versions end in
              let* uid := get_url_query_param parse_u32 u "uid" uid_def "specified URL contains bad UID" in
              let* gid := get_url_query_param parse_u32 u "gid" gid_def "specified URL contains bad GID" in
              let* readdir_buffer :=
                (match find_param u "readdir-buffer" with
                 | Some value => let* b := parse_readdir_buffer_query_param value in Ok (Some b)
                 | None => Ok None
                 end) in
              let* nfsport := get_url_query_param parse_u16 u "nfsport" (default 0 addr_port) "specified URL contains bad NFS port" in
              let* mountport := get_url_query_param parse_u16 u "mountport" 0 "specified URL contains bad mount port" in
              let* noresvport := get_url_query_param parse_bool u "noresvport" false "specified URL contains bad noresvport value" in
              let* retain := get_url_query_param parse_bool u "retain-delegations" false
                               "specified URL contains bad retain-delegations value" in
              let* _ := removed_params u in
              let host := default [] (u_host u) in
              let* comps := decode_components (split_slash [] (u_path u)) in
              Ok {| ma_versions := versions; ma_host := host; ma_dirpath := join_slash comps; ma_mountport := mountport;
                    ma_nfsport := nfsport; ma_uid := uid; ma_gid := gid; ma_readdir_buffer := readdir_buffer;
                    ma_noresvport := noresvport; ma_retain_delegations := retain |}
          end
  end.

(** [list_exports] parses a URL made of the host when it is given alone. *)
Definition exports_url (host : bytes) : bytes :=
  if bool_decide (firstn 6 host = of_str "nfs://") then host else of_str "nfs://" ++ host ++ of_str "/.".
End ParseUrl.

(** ** Mounting *)

Section MountVersions.
(** The mount function of each version, and the texts of errors: [display] is
    [to_string] of the error, [inner] that of the value a variant holds. *)
Context {Mounted : Type} (mount_version : NFSVersion -> MountArgs -> result Mounted) (display inner : NfsError -> string).

Definition nfs_error_msg (err : NfsError) : string :=
  match err with
  | Rpc s | Xdr s | Unsupported s | InvalidInput s | ClosedResource s | ModeViolation s | ClientClosed s
  | PositionUncertain s | LostOpenState s => s
  | FileClose [] => "file close completed with errors"
  | FileClose ((_, e) :: _) => "file close completed with errors: " +:+ display e
  | RdattrError code => "rdattr_error: nfsstat4 " +:+ fmtZ code
  | LockDenied _ _ _ _ => display err
  | _ => inner err
  end.

Definition is_unsupported (e : NfsError) : bool := match e with Unsupported _ => true | _ => false end.

(** The text of the unsupported versions, each once next to its repetition. *)
Definition add_unsupported (text msg : string) : string :=
  if bool_decide (text = EmptyString) then msg
  else if bool_decide (text = msg) then text else text +:+ " - " +:+ msg.
Definition squash_mount_errors (errs : list NfsError) : NfsError :=
  let unsupported := fold_left add_unsupported (map nfs_error_msg (List.filter is_unsupported errs)) EmptyString in
  match List.filter (fun e => negb (is_unsupported e)) errs with
  | [] => Unsupported unsupported
  | e :: rest =>
      if bool_decide (rest = []) && bool_decide (unsupported = EmptyString) then e
      else
        let msg := fold_left (fun msg e => msg +:+ " - " +:+ nfs_error_msg e) rest (nfs_error_msg e) in
        Rpc (if bool_decide (unsupported = EmptyString) then msg else msg +:+ " - " +:+ unsupported)
  end.

Definition try_version (args : MountArgs) (v : NFSVersion) : result Mounted :=
  match v with
  | NFSv4 => Err (Unsupported "NFSv4.0 is not supported")
  | VersionUnknown => Panic
  | _ => mount_version v args
  end.
Fixpoint mount_loop (args : MountArgs) (versions : list NFSVersion) (errs : list NfsError) : result Mounted :=
  match versions with
  | [] => Err (squash_mount_errors errs)
  | v :: versions =>
      match try_version args v with
      | Ok m => Ok m
      | Err e => mount_loop args versions (errs ++ [e])
      | Panic => Panic
      end
  end.
Definition mount (args : MountArgs) : result Mounted := mount_loop args (ma_versions args) [].
End MountVersions.

(** [parse_url_and_mount] *)
Definition parse_url_and_mount {Mounted : Type} (url_parse : bytes -> Url + string) (percent_decode : bytes -> bytes)
    (uid_gid : Z * Z) (mount_version : NFSVersion -> MountArgs -> result Mounted) (display inner : NfsError -> string)
    (url : bytes) : result Mounted :=
  let* args := parse_url url_parse percent_decode uid_gid.1 uid_gid.2 url in
  mount mount_version display inner args.

(** ** Paths relative to the mount *)

Section SplitPath.
(** [path_clean::clean] *)
Context (clean : bytes -> bytes).

(** The components of an absolute [Path], and the text of the path they make. *)
Definition abs_path (comps : list bytes) : bytes := SLASH :: join_slash comps.
Definition EQUALS : bytes := of_str "=".
Definition bad_path : NfsError := InvalidInput "invalid path specified".

(** [cleaned] is compared by components ([Path::starts_with] and [eq]); [parent] drops the
    last one, [file_name] is empty for [..], and [\[2..\]] the text "/=" in front. *)
Definition split_path (path : bytes) : result (bytes * bytes) :=
  let cleaned := clean (of_str "/=/" ++ path) in
  match components cleaned with
  | first :: rest =>
      if negb (bool_decide (first = EQUALS)) then Err bad_path
      else
        match rev rest with
        | [] => Ok (of_str "/", [])
        | name :: dir =>
            Ok (skipn 2 (abs_path (first :: rev dir)), if bool_decide (name = of_str "..") then [] else name)
        end
  | [] => Err bad_path
  end.
End SplitPath.

(** A path below the root that [..] never leaves: [stack] holds the components in reverse. *)
Definition DOTDOT : bytes := of_str "..".
Fixpoint lexical (stack : list bytes) (comps : list bytes) : list bytes :=
  match comps with
  | [] => rev stack
  | c :: comps => if bool_decide (c = DOTDOT) then lexical (tail stack) comps else lexical (c :: stack) comps
  end.
Fixpoint stays_below (depth : nat) (comps : list bytes) : bool :=
  match comps with
  | [] => true
  | c :: comps =>
      if bool_decide (c = DOTDOT) then match depth with O => false | S d => stays_below d comps end
      else stays_below (S depth) comps
  end.

(** ** Lemmas on paths *)

Definition plain (c : bytes) : Prop := SLASH ∉ c.
Definition component (c : bytes) : Prop := plain c /\ c <> [] /\ c <> [x2e].

Lemma split_slash_plain cur c rest :
  plain c -> split_slash cur (c ++ SLASH :: rest) = (cur ++ c) :: split_slash [] rest.
Proof.
  revert cur. induction c as [|b c IH]; intros cur Hc; cbn [app split_slash].
  - by rewrite app_nil_r.
  - apply not_elem_of_cons in Hc as [Hb Hc]. rewrite bool_decide_eq_false_2 by (intros ->; by apply Hb).
    rewrite IH by done. by rewrite <- app_assoc.
Qed.
Lemma split_slash_last cur c : plain c -> split_slash cur c = [cur ++ c].
Proof.
  revert cur. induction c as [|b c IH]; intros cur Hc; cbn [app split_slash].
  - by rewrite app_nil_r.
  - apply not_elem_of_cons in Hc as [Hb Hc]. rewrite bool_decide_eq_false_2 by (intros ->; by apply Hb).
    rewrite IH by done. by rewrite <- app_assoc.
Qed.

(** Splitting undoes joining. *)
Lemma split_join comps : comps <> [] -> Forall plain comps -> split_slash [] (join_slash comps) = comps.
Proof.
  intros Hne. induction comps as [|c comps IH]; [done|]. intros [Hc Hcs]%Forall_cons.
  destruct comps as [|d comps]; cbn [join_slash].
  - by rewrite split_slash_last.
  - rewrite split_slash_plain by done. f_equal. by apply IH.
Qed.
Lemma split_slash_wf cur path : plain cur -> Forall plain (split_slash cur path).
Proof.
  revert cur. induction path as [|b path IH]; intros cur Hc; cbn [split_slash]; [by repeat constructor|].
  case_bool_decide.
  - constructor; [done|]. apply IH. by apply not_elem_of_nil.
  - apply IH. unfold plain. rewrite elem_of_app, list_elem_of_singleton. intros [?|He]; [done|]. by apply H.
Qed.
Lemma split_slash_ne cur path : split_slash cur path <> [].
Proof. revert cur. induction path; intros; cbn; [done|]. by case_bool_decide. Qed.

Lemma components_wf path : Forall component (components path).
Proof.
  unfold components. rewrite List.Forall_forall. intros c [Hc Hf]%List.filter_In.
  apply andb_prop in Hf as [?%negb_true_iff%bool_decide_eq_false ?%negb_true_iff%bool_decide_eq_false].
  pose proof (split_slash_wf [] path ltac:(by apply not_elem_of_nil)) as Hp. rewrite List.Forall_forall in Hp.
  split; auto.
Qed.
Lemma components_all l :
  Forall component l -> List.filter (fun c => negb (bool_decide (c = [])) && negb (bool_decide (c = [x2e]))) l = l.
Proof.
  induction 1 as [|c l [_ [H1 H2]] Hl IH]; [done|]. cbn [List.filter].
  rewrite !bool_decide_eq_false_2 by done. cbn. by rewrite IH.
Qed.

(** The components of a clean path are those it is made of. *)
Lemma components_abs comps : Forall component comps -> components (abs_path comps) = comps.
Proof.
  intros H. unfold components, abs_path. cbn [split_slash]. rewrite bool_decide_eq_true_2 by done.
  cbn [List.filter]. destruct comps as [|c comps]; [done|].
  rewrite split_join by (done || (eapply Forall_impl; [exact H|by intros ? []])).
  rewrite bool_decide_eq_true_2 by done. cbn [negb andb]. by apply components_all.
Qed.
Lemma components_rooted path : components (of_str "/=/" ++ path) = EQUALS :: components path.
Proof. reflexivity. Qed.
Lemma components_cons c path :
  component c -> components (c ++ SLASH :: path) = c :: components path.
Proof.
  intros (Hp & H1 & H2). unfold components. rewrite split_slash_plain by done. cbn [List.filter app].
  by rewrite !bool_decide_eq_false_2 by done.
Qed.

Lemma lexical_wf stack comps : Forall component stack -> Forall component comps -> Forall component (lexical stack comps).
Proof.
  intros Hs Hc. revert stack Hs. induction Hc as [|c comps Hc _ IH]; intros stack Hs; cbn [lexical].
  - by apply Forall_rev.
  - case_bool_decide; apply IH; [|by constructor]. by destruct Hs.
Qed.
Lemma lexical_below stack base comps :
  stays_below (length stack) comps = true -> lexical (stack ++ base) comps = rev base ++ lexical stack comps.
Proof.
  revert stack. induction comps as [|c comps IH]; intros stack Hs; cbn [lexical stays_below] in *.
  - apply rev_app_distr.
  - case_bool_decide.
    + destruct stack as [|x stack]; [done|]. by apply IH.
    + by apply (IH (c :: stack)).
Qed.
Lemma lexical_no_dotdot stack comps : DOTDOT ∉ stack -> DOTDOT ∉ lexical stack comps.
Proof.
  revert stack. induction comps as [|c comps IH]; intros stack Hs; cbn [lexical].
  - rewrite list_elem_of_In, <- in_rev, <- list_elem_of_In. done.
  - case_bool_decide; apply IH.
    + destruct stack; [done|]. by apply not_elem_of_cons in Hs as [_ ?].
    + apply not_elem_of_cons. split; congruence.
Qed.

(** The text that components take, each with the separator before it. *)
Definition text_size (comps : list bytes) : nat := sum_list_with (fun c => S (length c)) comps.

Lemma split_slash_size cur path : text_size (split_slash cur path) = S (length cur + length path).
Proof.
  revert cur. induction path as [|c path IH]; intros cur; cbn [split_slash length]; [cbn; lia|].
  case_bool_decide; [cbn; unfold text_size in IH; rewrite IH; cbn; lia|]. rewrite IH, length_app. cbn. lia.
Qed.
Lemma components_size path : (text_size (components path) <= S (length path))%nat.
Proof.
  unfold components. pose proof (split_slash_size [] path) as H. cbn in H. rewrite <- H. clear H.
  induction (split_slash [] path) as [|c l IH]; [done|]. cbn [List.filter text_size sum_list_with].
  destruct (_ && _); cbn; unfold text_size in IH; lia.
Qed.
Lemma text_size_app l l' : text_size (l ++ l') = (text_size l + text_size l')%nat.
Proof. apply sum_list_with_app. Qed.
Lemma text_size_rev l : text_size (rev l) = text_size l.
Proof. induction l as [|c l IH]; [done|]. cbn [rev]. rewrite text_size_app, IH. cbn. unfold text_size. lia. Qed.
Lemma lexical_size stack comps : (text_size (lexical stack comps) <= text_size stack + text_size comps)%nat.
Proof.
  revert stack. induction comps as [|c comps IH]; intros stack; cbn [lexical].
  - rewrite text_size_rev. lia.
  - case_bool_decide; etrans; try apply IH; cbn; unfold text_size; [|lia].
    destruct stack as [|x stack]; cbn; lia.
Qed.
Lemma abs_path_size c comps : length (abs_path (c :: comps)) = text_size (c :: comps).
Proof.
  assert (H : forall c, S (length (join_slash (c :: comps))) = text_size (c :: comps)); [|apply H].
  induction comps as [|x comps IH]; intros y; [cbn; lia|].
  change (join_slash (y :: x :: comps)) with (y ++ SLASH :: join_slash (x :: comps)). rewrite length_app.
  change (text_size (y :: x :: comps)) with (S (length y) + text_size (x :: comps))%nat. rewrite <- IH. cbn [length]. lia.
Qed.

(** ** Splitting a path *)

(** What the callers rely on: the components of the directory and the name of the last one. *)
Definition split_spec (comps : list bytes) : bytes * bytes :=
  match rev comps with
  | [] => (of_str "/", [])
  | [name] => ([], name)
  | name :: dir => (abs_path (rev dir), name)
  end.

Section SplitLaws.
Context (clean : bytes -> bytes).
(** [clean] on an absolute path is the shortest lexical equivalent: [.] and empty
    components are dropped, [..] takes away the one before it, if any. *)
Hypothesis clean_absolute : forall path, clean (SLASH :: path) = abs_path (lexical [] (components (SLASH :: path))).

Lemma clean_components path :
  components (clean (of_str "/=/" ++ path)) = lexical [EQUALS] (components path).
Proof.
  change (of_str "/=/" ++ path) with (SLASH :: (of_str "=/" ++ path)). rewrite clean_absolute.
  change (SLASH :: (of_str "=/" ++ path)) with (of_str "/=/" ++ path). rewrite components_rooted.
  rewrite components_abs; [done|]. apply lexical_wf; [constructor|]. rewrite <- components_rooted. apply components_wf.
Qed.

Lemma split_path_below path :
  stays_below 0 (components path) = true -> split_path clean path = Ok (split_spec (lexical [] (components path))).
Proof.
  intros Hs. unfold split_path. rewrite clean_components, (lexical_below [] [EQUALS]) by done.
  cbn [rev app]. rewrite bool_decide_eq_true_2 by done. cbn [negb].
  assert (DOTDOT ∉ rev (lexical [] (components path))) as Hd
    by (rewrite list_elem_of_In, <- in_rev, <- list_elem_of_In; apply lexical_no_dotdot, not_elem_of_nil).
  unfold split_spec. destruct (rev (lexical [] (components path))) as [|name dir] eqn:E; [done|].
  apply not_elem_of_cons in Hd as [Hd _]. rewrite bool_decide_eq_false_2 by (intros He; by apply Hd).
  destruct dir as [|x dir]; [done|]. do 2 f_equal. cbn [rev]. by destruct (rev dir ++ [x]) eqn:E2; [destruct (rev dir)|].
Qed.

(** The parts are not longer than the path; the mount itself is ["/"]. *)
Lemma split_path_size path dir name :
  split_path clean path = Ok (dir, name) ->
  (length dir <= Nat.max 1 (length path))%nat /\ (length name <= length path)%nat.
Proof.
  unfold split_path. rewrite clean_components.
  pose proof (lexical_size [EQUALS] (components path)) as Hl. pose proof (components_size path) as Hc.
  change (text_size [EQUALS]) with 2%nat in Hl.
  destruct (lexical [EQUALS] (components path)) as [|first rest]; [done|].
  case_bool_decide as Hf; [|done]. subst first. cbn [negb].
  destruct (rev rest) as [|last dir'] eqn:E; [intros [= <- <-]; cbn; lia|].
  apply (f_equal (@rev bytes)) in E. rewrite rev_involutive in E. subst rest. cbn [rev] in Hl.
  change (EQUALS :: rev dir' ++ [last]) with ((EQUALS :: rev dir') ++ [last]) in Hl. rewrite text_size_app in Hl.
  change (text_size (EQUALS :: rev dir')) with (2 + text_size (rev dir'))%nat in Hl.
  change (text_size [last]) with (S (length last) + 0)%nat in Hl.
  pose proof (abs_path_size EQUALS (rev dir')) as Hs.
  change (text_size (EQUALS :: rev dir')) with (2 + text_size (rev dir'))%nat in Hs.
  generalize dependent (abs_path (EQUALS :: rev dir')). intros text Hs [= <- <-]. split.
  - rewrite length_skipn. lia.
  - case_bool_decide; cbn; lia.
Qed.

(** [split_path] on a path that never climbs above the mount returns the directory and the
    last name of its lexical normal form, with no error; the name is never [..] or empty unless the
    path is the mount itself, and contains no separator. *)
Theorem split_path_correct path :
  stays_below 0 (components path) = true ->
  split_path clean path = Ok (split_spec (lexical [] (components path)))
  /\ plain (split_spec (lexical [] (components path))).2
  /\ (lexical [] (components path) <> [] -> component (split_spec (lexical [] (components path))).2
      /\ (split_spec (lexical [] (components path))).2 <> DOTDOT).
Proof.
  intros Hs. split; [by apply split_path_below|].
  assert (Forall component (rev (lexical [] (components path)))) as Hw
    by (apply Forall_rev, lexical_wf; [constructor|apply components_wf]).
  assert (DOTDOT ∉ rev (lexical [] (components path))) as Hd
    by (rewrite list_elem_of_In, <- in_rev, <- list_elem_of_In; apply lexical_no_dotdot, not_elem_of_nil).
  unfold split_spec. destruct (rev (lexical [] (components path))) as [|name dir] eqn:E.
  - apply (f_equal (@rev _)) in E. rewrite rev_involutive in E. rewrite E. split; [by apply not_elem_of_nil|done].
  - apply Forall_cons in Hw as [Hn _]. apply not_elem_of_cons in Hd as [Hd _].
    destruct dir as [|x dir]; (split; [apply Hn|]); intros _; split; try done; intros He; by apply Hd.
Qed.

(** A path that climbs one level above the mount is refused, unless the component it comes back
    through is named [=]. *)
Lemma split_path_escape c path :
  component c -> c <> DOTDOT -> stays_below 0 (components path) = true ->
  split_path clean (of_str "../" ++ c ++ SLASH :: path) =
  (if bool_decide (c = EQUALS) then split_path clean path else Err bad_path).
Proof.
  intros Hc Hd Hs. unfold split_path. rewrite !clean_components.
  change (of_str "../" ++ c ++ SLASH :: path) with (DOTDOT ++ SLASH :: (c ++ SLASH :: path)).
  rewrite !components_cons; [|done|]. 2: { split_and!; [|done|done]. unfold plain. apply (bool_decide_unpack _). by vm_compute. }
  cbn [lexical]. rewrite (bool_decide_eq_true_2 (DOTDOT = DOTDOT)), (bool_decide_eq_false_2 (c = DOTDOT)) by done.
  cbn [tail]. rewrite (lexical_below [] [c]), (lexical_below [] [EQUALS]) by done. cbn [rev app].
  case_bool_decide as He; [by subst c|done].
Qed.
End SplitLaws.

(** A concrete [clean]. *)
Definition lexical_clean (path : bytes) : bytes :=
  match path with b :: _ => if bool_decide (b = SLASH) then abs_path (lexical [] (components path)) else path | [] => path end.

Lemma split_path_correct_witness :
  split_path lexical_clean (of_str "./docs//a/../b.txt") = Ok (of_str "/docs", of_str "b.txt").
Proof.
  destruct (split_path_correct lexical_clean) with (path := of_str "./docs//a/../b.txt") as (H & _).
  - reflexivity.
  - vm_compute. reflexivity.
  - rewrite H. vm_compute. reflexivity.
Defined.

(** "../=/x" leaves the mount and is taken for "x". *)
Lemma split_path_disguised_escape : split_path lexical_clean (of_str "../=/x") = split_path lexical_clean (of_str "x").
Proof. reflexivity. Qed.

(** ** Ports *)

Lemma rotation_nth {A : Type} (l : list A) (d : A) start :
  (start <= length l)%nat ->
  map (fun i => nth ((start + i) mod length l) l d) (seq 0 (length l)) = skipn start l ++ firstn start l.
Proof.
  intros Hs. apply (nth_ext _ _ (nth ((start + 0) mod length l) l d) d).
  - rewrite length_map, length_seq, length_app, length_skipn, length_firstn. lia.
  - intros n. rewrite length_map, length_seq. intros Hn.
    rewrite (map_nth (fun i => nth ((start + i) mod length l) l d)), seq_nth by done. cbn [Nat.add].
    destruct (decide (n < length l - start)%nat).
    + rewrite Nat.mod_small by lia. rewrite app_nth1 by (rewrite length_skipn; lia).
      by rewrite nth_skipn.
    + rewrite app_nth2, length_skipn by (rewrite length_skipn; lia).
      replace ((start + n) mod length l)%nat with (n - (length l - start))%nat.
      * rewrite nth_firstn. by destruct (Nat.ltb_spec (n - (length l - start)) start) as [?|?]; [|lia].
      * replace (start + n)%nat with ((n - (length l - start)) + 1 * length l)%nat at 1 by lia.
        rewrite Nat.Div0.mod_add. by rewrite Nat.mod_small by lia.
Qed.
(** Every port once, whatever the start. *)
Lemma candidates_permutation ports start :
  (start <= length ports)%nat -> privileged_port_candidates ports start ≡ₚ ports.
Proof.
  intros Hs. unfold privileged_port_candidates. rewrite rotation_nth by done.
  rewrite Permutation_app_comm. by rewrite firstn_skipn.
Qed.
Lemma available_port_spec p : p ∈ available_ports <-> 1 <= p < 1024 /\ p ∉ WELL_KNOWN_PORTS.
Proof.
  unfold available_ports. rewrite list_elem_of_In, List.filter_In, in_map_iff, negb_true_iff, bool_decide_eq_false.
  split.
  - intros [(n & <- & Hn%in_seq) Hp]. split; [lia|done].
  - intros [Hr Hp]. split; [|done]. exists (Z.to_nat p). rewrite in_seq. lia.
Qed.

Section ConnectLaws.
Context {Stream : Type} (os : SocketOps Stream) (summary : nat -> ErrorKind -> IoPayload NfsError).

(** A port collides, or a stream comes out of it. *)
Definition collides (p : Z) : Prop := exists k, port_attempt os p = Ok (inr k).
Definition connects (p : Z) (s : Stream) : Prop := port_attempt os p = Ok (inl s).

Lemma try_ports_spec n l last :
  (forall p, p ∈ l -> collides p \/ exists s, connects p s) ->
  match try_ports os summary n l last with
  | Ok s => exists pre p post, l = pre ++ p :: post /\ connects p s /\ Forall collides pre
  | Err e => Forall collides l /\ exists k, e = Io k (summary n k)
             /\ (is_privileged_port_collision (default AddrNotAvailable last) = true -> is_privileged_port_collision k = true)
  | Panic => False
  end.
Proof.
  revert last. induction l as [|p l IH]; intros last Hl; cbn [try_ports].
  - split; [constructor|]. eauto.
  - destruct (Hl p) as [[k Hk]|[s Hs]]; [left| |]; unfold connects in *.
    + rewrite Hk. cbn [obind]. specialize (IH (Some k)). destruct (try_ports os summary n l (Some k)) as [s|e|].
      * destruct IH as (pre & q & post & -> & Hc & Hp); [intros q Hq; apply Hl; by right|].
        exists (p :: pre), q, post. split; [done|]. split; [done|]. constructor; [by exists k|done].
      * destruct IH as (Hc & k' & -> & Hk'); [intros q Hq; apply Hl; by right|].
        split; [constructor; [by exists k|done]|]. exists k'. split; [done|]. intros _. apply Hk'. cbn.
        unfold port_attempt in Hk. destruct (open_socket os); try done. cbn [obind] in Hk.
        destruct (so_bind os p) as [e|].
        { destruct (is_privileged_port_collision e.1) eqn:He; by simplify_eq. }
        destruct (so_connect os p) as [s|e]; [by destruct (tune_stream os s)|].
        destruct (is_privileged_port_collision e.1) eqn:He; by simplify_eq.
      * apply IH. intros q Hq; apply Hl; by right.
    + rewrite Hs. cbn [obind]. exists [], p, l. by split_and!.
Qed.

(** A connection from a privileged port tries every port below 1024 that is not a well known
    one, once, in an order that depends on the start only: when each attempt ends in a connection
    or an address collision it succeeds exactly when some port does not collide, from a port that is
    privileged and not well known, and otherwise reports a collision after all of the ports. *)
Theorem connect_finds_free_port start :
  (start < length available_ports)%nat ->
  (forall p, p ∈ available_ports -> collides p \/ exists s, connects p s) ->
  match connect_to_target os summary false start with
  | Ok s => exists p, connects p s /\ 1 <= p < 1024 /\ p ∉ WELL_KNOWN_PORTS
  | Err e => (forall p, 1 <= p < 1024 -> p ∉ WELL_KNOWN_PORTS -> collides p)
             /\ exists k, is_privileged_port_collision k = true /\ e = Io k (summary (length available_ports) k)
  | Panic => False
  end.
Proof.
  intros Hs Hp. unfold connect_to_target.
  pose proof (candidates_permutation available_ports start (Nat.lt_le_incl _ _ Hs)) as Hperm.
  rewrite (Permutation_length Hperm).
  pose proof (try_ports_spec (length available_ports) (privileged_port_candidates available_ports start) None) as H.
  assert (forall p, p ∈ privileged_port_candidates available_ports start -> collides p \/ exists s, connects p s) as Hq
    by (intros p Hin; apply Hp; by rewrite <- Hperm).
  specialize (H Hq). destruct (try_ports _ _ _ _ _) as [s|e|]; [| |done].
  - destruct H as (pre & p & post & He & Hc & _). exists p. split; [done|].
    apply available_port_spec. rewrite <- Hperm, He. apply elem_of_app. right. by left.
  - destruct H as (Hall & k & -> & Hk). split; [|exists k; by split; [apply Hk|]].
    intros p H1 H2. rewrite Forall_forall in Hall. apply Hall. rewrite Hperm. by apply available_port_spec.
Qed.
End ConnectLaws.

Definition demo_os : SocketOps Z := {|
  so_new := None; so_reuseaddr := None; so_bind p := if p =? 601 then Some (AddrInUse, IoMessage "in use") else None;
  so_connect p := if p =? 600 then inl 7 else inr (AddrNotAvailable, IoMessage "not available");
  so_nodelay _ := None; so_keepalive _ := None |}.

Lemma connect_finds_free_port_witness :
  exists p, connects demo_os p 7 /\ 1 <= p < 1024 /\ p ∉ WELL_KNOWN_PORTS.
Proof.
  assert (connect_to_target demo_os (fun _ _ => IoMessage "all ports failed") false 5 = Ok 7) as E by (vm_compute; reflexivity).
  assert (5 < length available_ports)%nat as Hl by (vm_compute; lia).
  pose proof (connect_finds_free_port demo_os (fun _ _ => IoMessage "all ports failed") 5 Hl) as H. rewrite E in H.
  apply H. intros p _. unfold collides, connects, port_attempt. cbn.
  destruct (p =? 601); cbn; [left; by eexists|]. destruct (p =? 600); cbn; [right|left]; by eexists.
Defined.

(** ** URLs *)

Lemma parse_digits_range max acc s v : 0 <= acc <= max -> parse_digits max acc s = Some v -> 0 <= v <= max.
Proof.
  revert acc. induction s as [|b s IH]; intros acc Ha; cbn [parse_digits]; [by intros [= <-]|].
  destruct (digit_of b) as [d|] eqn:Ed; [|done]. destruct (Z.leb_spec (acc * 10 + d) max); [|done].
  apply IH. unfold digit_of in Ed. repeat case_match; simplify_eq; lia.
Qed.
Lemma parse_unsigned_range max s v : 0 <= max -> parse_unsigned max s = Some v -> 0 <= v <= max.
Proof.
  intros Hm H. unfold parse_unsigned in H. repeat case_match; try done; by eapply parse_digits_range in H.
Qed.
Lemma query_param_in {T : Type} (from_str : bytes -> option T) u name def msg v (P : T -> Prop) :
  P def -> (forall s x, from_str s = Some x -> P x) -> get_url_query_param from_str u name def msg = Ok v -> P v.
Proof. intros Hd Hp. unfold get_url_query_param. repeat case_match; intros [= <-]; eauto. Qed.

Lemma query_u32 u name def msg v :
  is_u32 def -> get_url_query_param parse_u32 u name def msg = Ok v -> 0 <= v <= u32_max.
Proof.
  intros Hd. apply (query_param_in _ _ _ _ _ _ (fun v => 0 <= v <= u32_max)); [unfold is_u32, u32_max in *; lia|]. intros s x. apply parse_unsigned_range. done.
Qed.
Lemma query_u16 u name def msg v :
  0 <= def <= 65535 -> get_url_query_param parse_u16 u name def msg = Ok v -> 0 <= v <= 65535.
Proof. intros Hd. apply (query_param_in _ _ _ _ _ _ (fun v => 0 <= v <= 65535)); [done|]. intros s x. by apply parse_unsigned_range. Qed.
Lemma readdir_buffer_range s d m :
  parse_readdir_buffer_query_param s = Ok (d, m) -> 0 <= d <= u32_max /\ 0 <= m <= u32_max.
Proof.
  unfold parse_readdir_buffer_query_param. intros H. repeat case_match; simplify_eq;
    split; by eapply parse_unsigned_range.
Qed.

Definition supported (v : NFSVersion) : Prop := v = NFSv3 \/ v = NFSv4p0 \/ v = NFSv4p1 \/ v = NFSv4p2.

Lemma parse_versions_supported l vs : parse_versions l = Ok vs -> Forall supported vs /\ length vs = length l.
Proof.
  revert vs. induction l as [|v l IH]; intros vs; cbn [parse_versions]; [by intros [= <-]|].
  unfold version_of, supported in *. repeat case_bool_decide; try done;
    (destruct (parse_versions l) as [ws| |]; try done; cbn [obind]; intros [= <-];
     destruct (IH ws eq_refl) as [Hs Hl]; split; [constructor; [tauto|done]|cbn; by rewrite Hl]).
Qed.
Lemma decode_components_map pd l r :
  decode_components pd l = Ok r -> r = map pd l /\ Forall plain r /\ Forall (fun c => NUL ∉ c) r.
Proof.
  revert r. induction l as [|c l IH]; intros r; cbn [decode_components]; [by intros [= <-]|].
  destruct (utf8_valid (pd c)); [|done]. cbn [negb].
  do 2 case_bool_decide; try done. cbn [orb].
  destruct (decode_components pd l) as [rs| |]; try done. cbn [obind]. intros [= <-].
  destruct (IH rs eq_refl) as (-> & Hs & Hz). split; [done|]. by split; constructor.
Qed.
Lemma join_slash_nul comps : Forall (fun c => NUL ∉ c) comps -> NUL ∉ join_slash comps.
Proof.
  induction 1 as [|c comps Hc _ IH]; [by apply not_elem_of_nil|].
  destruct comps as [|d comps]; [done|]. change (NUL ∉ c ++ SLASH :: join_slash (d :: comps)).
  rewrite elem_of_app, elem_of_cons. by intros [?|[?|?]].
Qed.

Section UrlLaws.
Context (url_parse : bytes -> Url + string) (percent_decode : bytes -> bytes).

Lemma parse_url_accepts uid gid url args :
  is_u32 uid -> is_u32 gid ->
  (forall u p, url_parse url = inl u -> u_port u = Some p -> 0 <= p <= 65535) ->
  parse_url url_parse percent_decode uid gid url = Ok args ->
  exists u, url_parse url = inl u /\ u_scheme u = of_str "nfs" /\ u_has_host u = true
  /\ ma_versions args <> [] /\ Forall supported (ma_versions args)
  /\ 0 <= ma_uid args <= u32_max /\ 0 <= ma_gid args <= u32_max
  /\ 0 <= ma_nfsport args <= 65535 /\ 0 <= ma_mountport args <= 65535
  /\ (forall d m, ma_readdir_buffer args = Some (d, m) -> 0 <= d <= u32_max /\ 0 <= m <= u32_max)
  /\ split_slash [] (ma_dirpath args) = map percent_decode (split_slash [] (u_path u))
  /\ NUL ∉ ma_dirpath args.
Proof.
  intros Hu Hg Hport H. unfold parse_url in H. destruct (url_parse url) as [u|e] eqn:Eu; [|done].
  exists u. split; [done|]. change (u_scheme (with_params u)) with (u_scheme u) in H.
  change (u_has_host (with_params u)) with (u_has_host u) in H.
  case_bool_decide as Hn; [|done]. cbn [negb] in H. destruct (u_has_host u); [|done]. cbn [negb] in H.
  destruct (u_can_clear_port (with_params u)); [|done]. cbn [negb] in H.
  destruct (find_param (with_params u) "version") as [vs|]; [|done].
  destruct (parse_versions (split_on COMMA vs)) as [versions| |] eqn:Ev; try done. cbn [obind] in H.
  apply parse_versions_supported in Ev as [Ev _].
  repeat match type of H with
  | obind ?x _ = _ => let E := fresh "E" in destruct x eqn:E; try discriminate H; cbn [obind] in H
  end.
  injection H as <-. cbn [ma_versions ma_uid ma_gid ma_nfsport ma_mountport ma_dirpath ma_readdir_buffer].
  apply decode_components_map in E7 as (-> & Hp & Hz).
  pose proof (query_u32 _ _ _ _ _ Hu E). pose proof (query_u32 _ _ _ _ _ Hg E0).
  pose proof (query_u16 _ _ 0 _ _ ltac:(lia) E3).
  assert (0 <= default 0 (u_port (with_params u)) <= 65535) as Hd.
  { change (u_port (with_params u)) with (u_port u). destruct (u_port u) as [p|] eqn:Ep; cbn; [by eapply Hport|lia]. }
  pose proof (query_u16 _ _ _ _ _ Hd E2).
  do 2 (split; [done|]). split; [by destruct versions|].
  split; [destruct versions; [by repeat constructor; unfold supported; auto|done]|]. do 4 (split; [done|]).
  split_and!.
  - intros d m ->. destruct (find_param _ _) as [v|]; [|done].
    destruct (parse_readdir_buffer_query_param v) as [[]| |] eqn:Er; try done. cbn in E1. simplify_eq.
    by eapply readdir_buffer_range.
  - apply split_join; [|done]. pose proof (split_slash_ne [] (u_path u)). by destruct (split_slash [] (u_path u)).
  - by apply join_slash_nul.
Qed.

Lemma parse_versions_no_panic l : parse_versions l <> Panic.
Proof. induction l as [|v l IH]; [done|]. cbn. destruct (version_of v), (parse_versions l); done. Qed.
Lemma decode_components_no_panic l : decode_components percent_decode l <> Panic.
Proof.
  induction l as [|c l IH]; [done|]. cbn. destruct (negb _); [done|]. destruct (_ || _); [done|].
  by destruct (decode_components _ _).
Qed.
Lemma query_no_panic {T : Type} (from_str : bytes -> option T) u name def msg :
  get_url_query_param from_str u name def msg <> Panic.
Proof. unfold get_url_query_param. by repeat case_match. Qed.
Lemma readdir_buffer_no_panic v : parse_readdir_buffer_query_param v <> Panic.
Proof. unfold parse_readdir_buffer_query_param. by repeat case_match. Qed.
Lemma removed_no_panic u : removed_params u <> Panic.
Proof. unfold removed_params. by repeat case_match. Qed.

Lemma obind_no_panic {A B : Type} (x : result A) (k : A -> result B) :
  x <> Panic -> (forall a, k a <> Panic) -> obind x k <> Panic.
Proof. by destruct x; cbn; auto. Qed.
Lemma parse_url_no_panic uid gid url : parse_url url_parse percent_decode uid gid url <> Panic.
Proof.
  unfold parse_url. destruct (url_parse url) as [u|]; [|done]. do 3 (destruct (negb _); [done|]).
  destruct (find_param _ _); [|done].
  apply obind_no_panic; [apply parse_versions_no_panic|intros versions].
  do 2 (apply obind_no_panic; [apply query_no_panic|intros ?]).
  apply obind_no_panic; [|intros ?].
  { destruct (find_param _ _); [|done]. apply obind_no_panic; [apply readdir_buffer_no_panic|done]. }
  do 4 (apply obind_no_panic; [apply query_no_panic|intros ?]).
  apply obind_no_panic; [apply removed_no_panic|intros ?].
  by apply obind_no_panic; [apply decode_components_no_panic|].
Qed.

(** What [parse_url] accepts: an nfs URL with a host; versions that are all supported and at least
    one of them; user, group, ports and buffer sizes within their widths; and a path whose components
    are the decoded components of the URL's path one for one, so that no encoded separator makes or
    splits a component, and without a NUL. *)
Theorem parse_url_sound uid gid url args :
  is_u32 uid -> is_u32 gid ->
  (forall u p, url_parse url = inl u -> u_port u = Some p -> 0 <= p <= 65535) ->
  parse_url url_parse percent_decode uid gid url = Ok args ->
  exists u, url_parse url = inl u /\ u_scheme u = of_str "nfs" /\ u_has_host u = true
  /\ ma_versions args <> [] /\ Forall supported (ma_versions args)
  /\ 0 <= ma_uid args <= u32_max /\ 0 <= ma_gid args <= u32_max
  /\ 0 <= ma_nfsport args <= 65535 /\ 0 <= ma_mountport args <= 65535
  /\ (forall d m, ma_readdir_buffer args = Some (d, m) -> 0 <= d <= u32_max /\ 0 <= m <= u32_max)
  /\ split_slash [] (ma_dirpath args) = map percent_decode (split_slash [] (u_path u))
  /\ NUL ∉ ma_dirpath args.
Proof. apply parse_url_accepts. Qed.
End UrlLaws.

(** The URL nfs://srv/a%2Db?version=4.1,3&uid=7, decoded by hand. *)
Definition demo_url : Url := {|
  u_scheme := of_str "nfs"; u_has_host := true; u_host := Some (of_str "srv"); u_port := Some 2049;
  u_query := [(of_str "version", of_str "4.1,3"); (of_str "uid", of_str "7")]; u_path := of_str "/a%2Db";
  u_can_clear_port := true |}.
Definition demo_decode (c : bytes) : bytes := if bool_decide (c = of_str "a%2Db") then of_str "a-b" else c.

Lemma parse_url_sound_witness :
  exists args, parse_url (fun _ => inl demo_url) demo_decode 1000 1000 [] = Ok args
  /\ ma_versions args = [NFSv4p1; NFSv3] /\ ma_uid args = 7 /\ ma_nfsport args = 2049 /\ NUL ∉ ma_dirpath args.
Proof.
  eexists. split; [vm_compute; reflexivity|]. split_and!; [reflexivity|reflexivity|reflexivity|].
  destruct (parse_url_sound (fun _ => inl demo_url) demo_decode 1000 1000 []
    {| ma_versions := [NFSv4p1; NFSv3]; ma_host := of_str "srv"; ma_dirpath := of_str "/a-b"; ma_mountport := 0;
       ma_nfsport := 2049; ma_uid := 7; ma_gid := 1000; ma_readdir_buffer := None; ma_noresvport := false;
       ma_retain_delegations := false |}) as (u & _ & _ & _ & _ & _ & _ & _ & _ & _ & _ & _ & H).
  - unfold is_u32. lia.
  - unfold is_u32. lia.
  - intros u p [= <-] [= <-]. lia.
  - vm_compute. reflexivity.
  - exact H.
Defined.

(** ** The versions of a mount *)

Section MountLaws.
Context {Mounted : Type} (mount_version : NFSVersion -> MountArgs -> result Mounted) (display inner : NfsError -> string).
Context (args : MountArgs).

Definition version_fails (v : NFSVersion) : Prop := exists e, try_version mount_version args v = Err e.
Definition version_unsupported (v : NFSVersion) : Prop := exists m, try_version mount_version args v = Err (Unsupported m).

Lemma squash_unsupported errs :
  is_unsupported (squash_mount_errors display inner errs) = true <-> Forall (fun e => is_unsupported e = true) errs.
Proof.
  unfold squash_mount_errors. split.
  - intros H. apply List.Forall_forall. intros e He. destruct (is_unsupported e) eqn:Ee; [done|exfalso].
    destruct (List.filter (fun e => negb (is_unsupported e)) errs) as [|f rest] eqn:Ef.
    + assert (In e []) by (rewrite <- Ef; apply List.filter_In; by rewrite Ee). done.
    + assert (In f (f :: rest)) as Hf by by left. rewrite <- Ef in Hf. apply List.filter_In in Hf as [_ Hf].
      destruct (_ && _); [|done]. by rewrite H in Hf.
  - intros H. destruct (List.filter (fun e => negb (is_unsupported e)) errs) as [|f rest] eqn:Ef; [done|exfalso].
    assert (In f (f :: rest)) as Hf by by left. rewrite <- Ef in Hf. apply List.filter_In in Hf as [Hi Hf].
    rewrite List.Forall_forall in H. by rewrite H in Hf.
Qed.

Lemma mount_loop_spec versions errs :
  Forall supported versions -> (forall v, mount_version v args <> Panic) ->
  match mount_loop mount_version display inner args versions errs with
  | Ok m => exists pre v post, versions = pre ++ v :: post /\ mount_version v args = Ok m /\ Forall version_fails pre
  | Err e => Forall version_fails versions
             /\ (is_unsupported e = true <->
                 Forall (fun e => is_unsupported e = true) errs /\ Forall version_unsupported versions)
  | Panic => False
  end.
Proof.
  intros Hs Hp. revert errs. induction Hs as [|v versions Hv _ IH]; intros errs; cbn [mount_loop].
  - split; [constructor|]. rewrite squash_unsupported. split; [by split|by intros []].
  - assert (try_version mount_version args v = mount_version v args) as Ht by (by destruct Hv as [->|[->|[->| ->]]]).
    rewrite Ht. destruct (mount_version v args) as [m|e|] eqn:Ev; [| |by apply (Hp v)].
    + exists [], v, versions. split_and!; [done|done|constructor].
    + assert (version_fails v) as Hf by (by exists e). specialize (IH (errs ++ [e])).
      destruct (mount_loop _ _ _ _ _ _) as [m|e'|]; [| |done].
      * destruct IH as (pre & w & post & -> & Hw & Hpre). exists (v :: pre), w, post. split_and!; [done|done|by constructor].
      * destruct IH as [Hall Hiff]. split; [by constructor|]. rewrite Hiff, Forall_app, Forall_singleton, Forall_cons.
        assert (version_unsupported v <-> is_unsupported e = true) as ->; [|tauto].
        unfold version_unsupported. rewrite Ht. destruct e; naive_solver.
Qed.

(** The first version that can be mounted is. *)
Lemma mount_first :
  Forall supported (ma_versions args) -> (forall v, mount_version v args <> Panic) ->
  match mount mount_version display inner args with
  | Ok m => exists pre v post, ma_versions args = pre ++ v :: post /\ mount_version v args = Ok m /\ Forall version_fails pre
  | Err e => Forall version_fails (ma_versions args)
             /\ (is_unsupported e = true <-> Forall version_unsupported (ma_versions args))
  | Panic => False
  end.
Proof.
  intros Hs Hp. pose proof (mount_loop_spec (ma_versions args) [] Hs Hp) as H. unfold mount.
  destruct (mount_loop _ _ _ _ _ _); [done| |done]. destruct H as [H1 H2]. split; [done|].
  rewrite H2. split; [by intros []|]. by split.
Qed.
End MountLaws.

Section MountUrl.
Context {Mounted : Type} (mount_version : NFSVersion -> MountArgs -> result Mounted) (display inner : NfsError -> string).
Context (url_parse : bytes -> Url + string) (percent_decode : bytes -> bytes) (uid gid : Z).

(** [parse_url_and_mount] never panics, whatever the URL. It returns what the first version of the
    URL that can be mounted returns, after every version in front of it has failed; when it fails, the
    URL was refused or every version of it has failed, and in the latter case it calls the mount
    unsupported exactly when every one of them is. *)
Theorem mount_takes_first_version url :
  is_u32 uid -> is_u32 gid ->
  (forall u p, url_parse url = inl u -> u_port u = Some p -> 0 <= p <= 65535) ->
  (forall v args, mount_version v args <> Panic) ->
  match parse_url_and_mount url_parse percent_decode (uid, gid) mount_version display inner url with
  | Ok m => exists args pre v post, parse_url url_parse percent_decode uid gid url = Ok args
            /\ ma_versions args = pre ++ v :: post /\ mount_version v args = Ok m
            /\ Forall (version_fails mount_version args) pre
  | Err e => parse_url url_parse percent_decode uid gid url = Err e
             \/ exists args, parse_url url_parse percent_decode uid gid url = Ok args
                /\ Forall (version_fails mount_version args) (ma_versions args)
                /\ (is_unsupported e = true <-> Forall (version_unsupported mount_version args) (ma_versions args))
  | Panic => False
  end.
Proof.
  intros Hu Hg Hport Hp. unfold parse_url_and_mount. cbn [fst snd].
  pose proof (parse_url_accepts url_parse percent_decode uid gid url) as Hs.
  pose proof (parse_url_no_panic url_parse percent_decode uid gid url) as Hn.
  destruct (parse_url _ _ _ _ _) as [args|e|]; cbn [obind]; [|by left|done].
  destruct (Hs args Hu Hg Hport eq_refl) as (u & _ & _ & _ & _ & Hv & _).
  pose proof (mount_first mount_version display inner args Hv (fun v => Hp v args)) as H.
  destruct (mount _ _ _ _) as [m|e|]; [| |done].
  - destruct H as (pre & v & post & H). by exists args, pre, v, post.
  - right. by exists args.
Qed.
End MountUrl.

Definition demo_mount (v : NFSVersion) (_ : MountArgs) : result Z :=
  match v with NFSv3 => Ok 3 | _ => Err (Unsupported "not this one") end.

Lemma mount_takes_first_version_witness :
  exists args pre v post, parse_url (fun _ => inl demo_url) demo_decode 1000 1000 [] = Ok args
  /\ ma_versions args = pre ++ v :: post /\ demo_mount v args = Ok 3 /\ Forall (version_fails demo_mount args) pre.
Proof.
  assert (parse_url_and_mount (fun _ => inl demo_url) demo_decode (1000, 1000) demo_mount (fun _ => EmptyString)
    (fun _ => EmptyString) [] = Ok 3) as E by (vm_compute; reflexivity).
  pose proof (mount_takes_first_version demo_mount (fun _ => EmptyString) (fun _ => EmptyString) (fun _ => inl demo_url)
    demo_decode 1000 1000 []) as H. rewrite E in H. apply H.
  - unfold is_u32. lia.
  - unfold is_u32. lia.
  - intros u p [= <-] [= <-]. lia.
  - intros [] args; discriminate.
Defined.
