(* ===== verification/Fs41.v ===== *)
(** * File operations against a reference file server

    A specification of what a server does with the COMPOUNDs that the operations
    of Ops41 build: it reads the encoded arguments, keeps the current and the
    saved file handle, stops at the first failure, and lays out its results as
    RFC 8881 prescribes. The file system itself is abstract. The theorems show
    that path operations act on the objects a walk of the path reaches. *)
From Stdlib Require Import Strings.Byte.
From S2P Require Import Prelude Errors Xdr4 Acl4 Attrs4 Compound41 V42 Response41 State41 LayoutMgr Callback PnfsIo Listing Ops41 Ops42 Entry.
From stdpp Require Import base list numbers strings gmap.
#[local] Open Scope Z_scope.

(** ** The server *)

(** What the file system decides: lookups, attributes and changes of names. *)
Record FsSem (S : Type) : Type := {
  fs_child : S -> bytes -> bytes -> nfsstat4 + bytes;
  fs_attrs : S -> bytes -> list Z -> list Z * bytes;
  fs_remove : S -> bytes -> bytes -> nfsstat4 * S;
  fs_rename : S -> bytes -> bytes -> bytes -> bytes -> nfsstat4 * S;
  fs_link : S -> bytes -> bytes -> bytes -> nfsstat4 * S;
}.
Arguments fs_child {S}. Arguments fs_attrs {S}. Arguments fs_remove {S}. Arguments fs_rename {S}. Arguments fs_link {S}.

(** A walk from a directory. *)
Fixpoint walk {S : Type} (f : FsSem S) (s : S) (dir : bytes) (comps : list bytes) : nfsstat4 + bytes :=
  match comps with
  | [] => inr dir
  | c :: comps => match fs_child f s dir c with inl e => inl e | inr fh => walk f s fh comps end
  end.

Section Server.
Context {S : Type} (f : FsSem S).

Record srv : Type := { sv_fs : S; sv_cur : option bytes; sv_saved : option bytes }.
Definition with_cur (s : srv) (fh : bytes) : srv := {| sv_fs := sv_fs s; sv_cur := Some fh; sv_saved := sv_saved s |}.
Definition with_fs (s : srv) (x : S) : srv := {| sv_fs := x; sv_cur := sv_cur s; sv_saved := sv_saved s |}.

Definition one_opaque (a : bytes) : option bytes :=
  match take_opaque a "argument" with Ok (v, []) => Some v | _ => None end.
Definition two_opaques (a : bytes) : option (bytes * bytes) :=
  match take_opaque a "argument" with
  | Ok (v, rest) => match one_opaque rest with Some v' => Some (v, v') | None => None end
  | _ => None
  end.
Definition read_bitmap (a : bytes) : list Z :=
  match (let* (n, a) := @get_u32 NfsError a in collect n bitmap_word a) with Ok (l, []) => l | _ => [] end.

(** [change_info4] *)
Definition change_info : bytes := zeros 20.

(** One operation: its status, the body of its result and the new state. *)
Definition srv_op (s : srv) (op : EncodedOp) : nfsstat4 * bytes * srv :=
  match opcode op, sv_cur s with
  | OpNum.PutFh, _ => match one_opaque (args op) with
                      | Some fh => (NFS4_OK, [], with_cur s fh)
                      | None => (NFS4ERR_BADXDR, [], s)
                      end
  | _, None => (NFS4ERR_NOFILEHANDLE, [], s)
  | OpNum.Lookup, Some dir =>
      match one_opaque (args op) with
      | Some name => match fs_child f (sv_fs s) dir name with
                     | inr fh => (NFS4_OK, [], with_cur s fh)
                     | inl e => (e, [], s)
                     end
      | None => (NFS4ERR_BADXDR, [], s)
      end
  | OpNum.GetFh, Some fh => (NFS4_OK, xdr_opaque fh, s)
  | OpNum.GetAttr, Some fh =>
      let '(bitmap, vals) := fs_attrs f (sv_fs s) fh (read_bitmap (args op)) in
      (NFS4_OK, xdr_bitmap bitmap ++ xdr_opaque vals, s)
  | OpNum.SaveFh, Some fh => (NFS4_OK, [], {| sv_fs := sv_fs s; sv_cur := sv_cur s; sv_saved := Some fh |})
  | OpNum.Remove, Some dir =>
      match one_opaque (args op) with
      | Some name => let '(e, x) := fs_remove f (sv_fs s) dir name in (e, change_info, with_fs s x)
      | None => (NFS4ERR_BADXDR, [], s)
      end
  | OpNum.Rename, Some dst =>
      match two_opaques (args op), sv_saved s with
      | Some (old, new), Some src =>
          let '(e, x) := fs_rename f (sv_fs s) src old dst new in (e, change_info ++ change_info, with_fs s x)
      | _, _ => (NFS4ERR_BADXDR, [], s)
      end
  | OpNum.Link, Some dir =>
      match one_opaque (args op), sv_saved s with
      | Some name, Some src => let '(e, x) := fs_link f (sv_fs s) src dir name in (e, change_info, with_fs s x)
      | _, _ => (NFS4ERR_BADXDR, [], s)
      end
  | _, _ => (NFS4ERR_NOTSUPP, [], s)
  end.

(** A COMPOUND stops at its first failure. *)
Fixpoint srv_run (s : srv) (l : list EncodedOp) : list (OpNum.t * nfsstat4 * bytes) * nfsstat4 * srv :=
  match l with
  | [] => ([], NFS4_OK, s)
  | op :: l =>
      let '(e, body, s') := srv_op s op in
      if bool_decide (e = NFS4_OK)
      then let '(rs, e', s'') := srv_run s' l in ((opcode op, NFS4_OK, body) :: rs, e', s'')
      else ([(opcode op, e, body)], e, s')
  end.
End Server.
Arguments srv : clear implicits.
Arguments srv_op {S}. Arguments srv_run {S}.

Definition start {S : Type} (x : S) : srv S := {| sv_fs := x; sv_cur := None; sv_saved := None |}.

(** ** The engine over this server

    A call either fails in transport, which is no status of the server, or the
    server ran the request: then the caller gets the results when all succeeded,
    and the status of the first failure otherwise (Engine41 shows that the request
    is executed at most once). *)
Class RunsOn {S X : Type} (f : FsSem S) (cfg : Config) (eng : Engine (X := X)) (server : Mount41 (X := X) -> S) : Prop := {
  ro_handles : forall s dir name fh, fs_child f s dir name = inr fh -> remaining fh < 2 ^ 32;
  ro_root : remaining (root_fh cfg) < 2 ^ 32;
  ro_errors : forall s dir name, fs_child f s dir name <> inl NFS4_OK;
  ro_attrs : forall s fh bm, (length (fs_attrs f s fh bm).1 <= 16)%nat /\ Forall is_u32 (fs_attrs f s fh bm).1 /\
    remaining (fs_attrs f s fh bm).2 < 2 ^ 32;
  ro_run : forall tag build w r w', engine_compound eng None None tag build w = (r, w') ->
    let '(rs, e, s') := srv_run f (start (server w)) (ops (build (builder_new tag))) in
    (exists x, r = Err x /\ forall st, x <> Nfs4 st) \/
    (server w' = sv_fs s' /\
     (e = NFS4_OK /\ (exists resp seq, r = Ok resp /\ results resp = op_responses ((OpNum.Sequence, NFS4_OK, seq) :: rs) []) \/
      e <> NFS4_OK /\ r = Err (Nfs4 e)));
}.

(** ** Reading the results *)

Lemma op_responses_at l rest i o st b :
  l !! i = Some (o, st, b) ->
  op_responses l rest !! i =
  Some {| op_opcode := op_u32 o; op_status := st; op_data := b ++ concat (map wire_result (drop (Datatypes.S i) l)) ++ rest |}.
Proof.
  revert i. induction l as [|[[o' st'] b'] l IH]; intros i Hi; [by rewrite lookup_nil in Hi|].
  destruct i as [|i]; cbn in *; [by injection Hi as -> -> ->|]. by apply IH.
Qed.

Lemma op_ok_at resp l i o b :
  results resp = op_responses l [] -> l !! i = Some (o, NFS4_OK, b) ->
  exists op rest, op_ok resp i = Ok op /\ op_data op = b ++ rest.
Proof.
  intros Hr Hl. unfold op_ok. rewrite Hr, (op_responses_at _ _ _ _ _ _ Hl). cbn. eauto.
Qed.

Lemma ops_ok_at resp l i n :
  results resp = op_responses l [] -> (forall k, (i <= k < i + n)%nat -> exists o b, l !! k = Some (o, NFS4_OK, b)) ->
  ops_ok resp i n = Ok ().
Proof.
  intros Hr. revert i. induction n as [|n IH]; intros i Hl; [done|]. cbn [ops_ok].
  destruct (Hl i ltac:(lia)) as (o & b & Hi). destruct (op_ok_at resp l i o b Hr Hi) as (op & rest & -> & _). cbn [obind].
  apply IH. intros k Hk. apply Hl. lia.
Qed.

Lemma one_opaque_enc v : remaining v < 2 ^ 32 -> one_opaque (xdr_opaque v) = Some v.
Proof. intros H. unfold one_opaque. rewrite <- (app_nil_r (xdr_opaque v)), take_opaque_enc by done. done. Qed.

Lemma two_opaques_enc v v' : remaining v < 2 ^ 32 -> remaining v' < 2 ^ 32 ->
  two_opaques (xdr_opaque v ++ xdr_opaque v') = Some (v, v').
Proof. intros H H'. unfold two_opaques. rewrite take_opaque_enc by done. by rewrite one_opaque_enc. Qed.

(** ** Running the requests *)

Definition lookup_op (c : bytes) : EncodedOp := {| opcode := OpNum.Lookup; args := xdr_opaque c |}.

Lemma ops_lookups comps b :
  ops (foldl (fun b c => Compound41.lookup_name c b) b comps) = ops b ++ map lookup_op comps.
Proof.
  revert b. induction comps as [|c comps IH]; intros b; cbn [foldl map]; [by rewrite app_nil_r|].
  rewrite IH. cbn. by rewrite <- app_assoc.
Qed.

Lemma srv_run_app {S} (f : FsSem S) s l1 l2 :
  srv_run f s (l1 ++ l2) =
  let '(rs, e, s') := srv_run f s l1 in
  if bool_decide (e = NFS4_OK) then let '(rs2, e2, s2) := srv_run f s' l2 in (rs ++ rs2, e2, s2) else (rs, e, s').
Proof.
  revert s. induction l1 as [|op l1 IH]; intros s; cbn [srv_run app].
  - rewrite bool_decide_true by done. by destruct (srv_run f s l2) as [[rs e] s'].
  - destruct (srv_op f s op) as [[e body] s']. case_bool_decide as He; [|by rewrite bool_decide_false].
    rewrite IH. destruct (srv_run f s' l1) as [[rs e'] s'']. case_bool_decide; [|done].
    by destruct (srv_run f s'' l2) as [[rs2 e2] s2].
Qed.

Lemma run_lookups {S} (f : FsSem S) s dir comps :
  (forall x d n, fs_child f x d n <> inl NFS4_OK) -> Forall (fun c => remaining c < 2 ^ 32) comps -> sv_cur s = Some dir ->
  match walk f (sv_fs s) dir comps with
  | inr fh => srv_run f s (map lookup_op comps) = (map (fun _ => (OpNum.Lookup, NFS4_OK, [])) comps, NFS4_OK, with_cur s fh)
  | inl e => e <> NFS4_OK /\ exists rs s', srv_run f s (map lookup_op comps) = (rs, e, s') /\ sv_fs s' = sv_fs s
  end.
Proof.
  intros Hne. revert s dir. induction comps as [|c comps IH]; intros s dir Hc Hs; cbn [walk map srv_run].
  { f_equal. destruct s; cbn in *; by subst. }
  apply Forall_cons in Hc as [Hc Hcs]. unfold srv_op at 1 2. cbn [opcode args lookup_op]. rewrite Hs, one_opaque_enc by done.
  pose proof (Hne (sv_fs s) dir c) as Hn.
  destruct (fs_child f (sv_fs s) dir c) as [e|fh] eqn:Hch.
  - split; [congruence|]. rewrite bool_decide_false by congruence. eauto.
  - rewrite bool_decide_true by done. specialize (IH (with_cur s fh) fh Hcs eq_refl). cbn [sv_fs with_cur] in IH.
    destruct (walk f (sv_fs s) fh comps) as [e|fh'].
    + destruct IH as (He & rs & s' & -> & Hs'). eauto.
    + by rewrite IH.
Qed.

Lemma split_slash_short cur path : Forall (fun c => (length c <= length cur + length path)%nat) (split_slash cur path).
Proof.
  revert cur. induction path as [|c path IH]; intros cur; cbn [split_slash length]; [repeat constructor; lia|].
  case_bool_decide.
  - constructor; [lia|]. eapply Forall_impl; [apply IH|]. cbn. intros x Hx. lia.
  - eapply Forall_impl; [apply IH|]. cbn. intros x Hx. rewrite length_app in Hx. cbn in Hx. lia.
Qed.

Lemma components_short path n : remaining path < n -> Forall (fun c => remaining c < n) (components path).
Proof.
  intros Hp. unfold components. apply List.Forall_forall. intros x Hx. apply List.filter_In in Hx as [Hx _].
  pose proof (split_slash_short [] path) as Hs. rewrite List.Forall_forall in Hs. specialize (Hs x Hx). cbn in Hs.
  unfold remaining in *. lia.
Qed.

Lemma walk_handles {S} (f : FsSem S) s dir comps fh :
  (forall d n h, fs_child f s d n = inr h -> remaining h < 2 ^ 32) -> remaining dir < 2 ^ 32 ->
  walk f s dir comps = inr fh -> remaining fh < 2 ^ 32.
Proof.
  intros Hh. revert dir. induction comps as [|c comps IH]; intros dir Hd; cbn [walk]; [by intros [= <-]|].
  destruct (fs_child f s dir c) as [e|h] eqn:Hc; [done|]. eauto.
Qed.

(** GETFH and GETATTR read back. *)
Lemma object_at_read resp l i fh bm vals o :
  results resp = op_responses l [] ->
  l !! i = Some (OpNum.GetFh, NFS4_OK, xdr_opaque fh) -> l !! Datatypes.S i = Some (o, NFS4_OK, xdr_bitmap bm ++ xdr_opaque vals) ->
  remaining fh < 2 ^ 32 -> (length bm <= 16)%nat -> Forall is_u32 bm -> remaining vals < 2 ^ 32 ->
  object_at resp i = let* (attr, _) := decode_fattr4_to_attr bm vals in Ok {| o_fh := fh; o_attr := Some attr |}.
Proof.
  intros Hr Hi Hi' Hfh Hn Hb Hv. unfold object_at.
  destruct (op_ok_at resp l i _ _ Hr Hi) as (op & rest & -> & Hop). cbn [obind]. rewrite Hop, decode_fh_enc by done. cbn [obind].
  destruct (op_ok_at resp l _ _ _ Hr Hi') as (op' & rest' & -> & Hop'). cbn [obind]. unfold decode_getattr_response.
  rewrite Hop', <- app_assoc, decode_getattr_envelope_enc by done. cbn [obind].
  by destruct (decode_fattr4_to_attr bm vals) as [[a r]|e|].
Qed.

Lemma lookup_skip2 {A} (a b : A) l k : (a :: b :: l) !! (Datatypes.S (Datatypes.S k)) = l !! k.
Proof. done. Qed.

(** No status of the server. *)
Definition no_status {A} (r : result A) : Prop := exists x, r = Err x /\ forall st, x <> Nfs4 st.

Section Client.
Context {S X : Type} (f : FsSem S) (cfg : Config) (eng : Engine (X := X)) (server : Mount41 (X := X) -> S).
Context `{HR : !RunsOn f cfg eng server}.

(** One round of the engine. *)
Lemma compound_inv tag build w r w' :
  compound eng tag build w = (r, w') ->
  exists rs e s', srv_run f (start (server w)) (ops (build (builder_new (of_str tag)))) = (rs, e, s') /\
  (no_status r \/
   server w' = sv_fs s' /\
   (e = NFS4_OK /\ (exists resp seq, r = Ok resp /\ results resp = op_responses ((OpNum.Sequence, NFS4_OK, seq) :: rs) []) \/
    e <> NFS4_OK /\ r = Err (Nfs4 e))).
Proof.
  intros Hc. destruct (srv_run f _ _) as [[rs e] s'] eqn:Hs.
  exists rs, e, s'. split; [done|]. unfold compound in Hc. pose proof (ro_run _ _ _ _ _ Hc) as H. rewrite Hs in H. exact H.
Qed.

Lemma run_lookup_path w path tag rs e s' :
  remaining path < 2 ^ 32 ->
  srv_run f (start (server w)) (ops (Compound41.getattr standard_getattr_bitmap (Compound41.getfh
    (foldl (fun b c => Compound41.lookup_name c b) (Compound41.putfh (root_fh cfg) (builder_new tag)) (components path))))) = (rs, e, s') ->
  sv_fs s' = server w /\
  match walk f (server w) (root_fh cfg) (components path) with
  | inl e' => e = e' /\ e' <> NFS4_OK
  | inr fh => e = NFS4_OK /\
      rs = (OpNum.PutFh, NFS4_OK, []) :: map (fun _ => (OpNum.Lookup, NFS4_OK, [])) (components path) ++
           [(OpNum.GetFh, NFS4_OK, xdr_opaque fh);
            (OpNum.GetAttr, NFS4_OK, let '(bm, v) := fs_attrs f (server w) fh (read_bitmap (xdr_bitmap standard_getattr_bitmap)) in
                                     xdr_bitmap bm ++ xdr_opaque v)]
  end.
Proof.
  intros Hp Hrun.
  assert (Hops : forall b, ops (Compound41.getattr standard_getattr_bitmap (Compound41.getfh b)) =
    ops b ++ [{| opcode := OpNum.GetFh; args := [] |}; {| opcode := OpNum.GetAttr; args := xdr_bitmap standard_getattr_bitmap |}]).
  { intros b. cbn. by rewrite <- app_assoc. }
  rewrite Hops, ops_lookups in Hrun. cbn [ops Compound41.putfh push builder_new app] in Hrun. cbn [srv_run] in Hrun.
  unfold srv_op at 1 in Hrun. cbn [opcode args start sv_cur] in Hrun. rewrite one_opaque_enc in Hrun by apply ro_root.
  rewrite bool_decide_true in Hrun by done. rewrite srv_run_app in Hrun.
  pose proof (run_lookups f (with_cur (start (server w)) (root_fh cfg)) (root_fh cfg) (components path) ro_errors
    (components_short _ _ Hp) eq_refl) as Hl. cbn [sv_fs with_cur start] in Hl.
  destruct (walk f (server w) (root_fh cfg) (components path)) as [e'|fh].
  - destruct Hl as (He & rs' & s'' & Hl & Hfs). rewrite Hl, bool_decide_false in Hrun by done. injection Hrun as <- <- <-. done.
  - rewrite Hl, bool_decide_true in Hrun by done. cbn in Hrun.
    destruct (fs_attrs f (server w) fh _) as [bm v]. cbn in Hrun. injection Hrun as <- <- <-. done.
Qed.

(** What [lookup_path] has to answer. *)
Definition lookup_result (s : S) (path : bytes) : result ObjRes :=
  match walk f s (root_fh cfg) (components path) with
  | inl e => Err (Nfs4 e)
  | inr fh =>
      if Nat.eqb (length (components path)) 0 then Ok {| o_fh := fh; o_attr := None |}
      else let '(bm, v) := fs_attrs f s fh (read_bitmap (xdr_bitmap standard_getattr_bitmap)) in
           let* (attr, _) := decode_fattr4_to_attr bm v in Ok {| o_fh := fh; o_attr := Some attr |}
  end.

Lemma lookup_path_result path w r w' :
  remaining path < 2 ^ 32 -> lookup_path cfg eng path w = (r, w') ->
  no_status r \/ server w' = server w /\ r = lookup_result (server w) path.
Proof.
  intros Hp H. unfold lookup_path in H. unfold lookup_result. destruct (Nat.eqb_spec (length (components path)) 0) as [Hn|Hn].
  { apply nil_length_inv in Hn. rewrite Hn. cbn. injection H as <- <-. by right. }
  unfold bindM at 1 in H. destruct (compound eng "lookup_path" _ w) as [rc w1] eqn:Hc.
  destruct (compound_inv _ _ _ _ _ Hc) as (rs & e & s' & Hrun & [(x & -> & Hx)|[Hsv Hres]]).
  { injection H as <- <-. left. by exists x. }
  destruct (run_lookup_path _ _ _ _ _ _ Hp Hrun) as [Hfs Hw]. rewrite Hfs in Hsv.
  destruct (walk f (server w) (root_fh cfg) (components path)) as [e'|fh] eqn:Hwalk.
  { destruct Hw as [-> Hne]. destruct Hres as [[? _]|[_ ->]]; [done|]. injection H as <- <-. by right. }
  destruct Hw as [-> ->]. destruct Hres as [[_ (resp & seq & -> & Hr)]|[? _]]; [|done].
  pose proof (ro_attrs (server w) fh (read_bitmap (xdr_bitmap standard_getattr_bitmap))) as Ha.
  destruct (fs_attrs f (server w) fh _) as [bm v]. cbn [fst snd] in Ha. destruct Ha as (Hbm & Hb & Hv).
  right. unfold bindM, lift in H. rewrite (ops_ok_at _ _ _ _ Hr) in H.
  2:{ intros k Hk. exists OpNum.Lookup, []. destruct k as [|[|k]]; [lia|lia|]. rewrite lookup_skip2.
      rewrite lookup_app_l by (rewrite length_map; lia). rewrite list_lookup_fmap.
      destruct (lookup_lt_is_Some_2 (components path) k ltac:(lia)) as [c ->]. done. }
  rewrite (object_at_read _ _ _ fh bm v OpNum.GetAttr Hr) in H; try done.
  - by injection H as <- <-.
  - cbn [plus]. by rewrite lookup_skip2, lookup_app_r, length_map, Nat.sub_diag by (rewrite length_map; lia).
  - cbn [plus]. rewrite lookup_skip2, lookup_app_r by (rewrite length_map; lia). rewrite length_map.
    by replace (Datatypes.S (length (components path)) - length (components path))%nat with 1%nat by lia.
  - eapply walk_handles; [|apply ro_root|exact Hwalk]. intros d n h. apply ro_handles.
Qed.

Lemma lookup_path_ok path w obj w' :
  remaining path < 2 ^ 32 -> lookup_path cfg eng path w = (Ok obj, w') ->
  server w' = server w /\ walk f (server w) (root_fh cfg) (components path) = inr (o_fh obj).
Proof.
  intros Hp H. destruct (lookup_path_result _ _ _ _ Hp H) as [(x & ? & _)|[Hs Hr]]; [done|]. split; [done|].
  unfold lookup_result in Hr. destruct (walk _ _ _ _) as [e|fh]; [done|]. destruct (Nat.eqb _ 0); [by injection Hr as ->|].
  destruct (fs_attrs _ _ _ _) as [bm v]. destruct (decode_fattr4_to_attr bm v) as [[a ?]|?|]; cbn in Hr; [|done|done].
  by injection Hr as ->.
Qed.

(** Decide whether the last operation succeeded. *)
Ltac status_case e Hrun :=
  repeat (rewrite (bool_decide_true (NFS4_OK = NFS4_OK)) in Hrun by done);
  destruct (decide (e = NFS4_OK)) as [->|];
  [repeat (rewrite (bool_decide_true (NFS4_OK = NFS4_OK)) in Hrun by done)
  |rewrite bool_decide_false in Hrun by done].
#[local] Arguments one_opaque : simpl never.
#[local] Arguments two_opaques : simpl never.
#[local] Arguments xdr_opaque : simpl never.

Lemma walked_short path w fh :
  walk f (server w) (root_fh cfg) (components path) = inr fh -> remaining fh < 2 ^ 32.
Proof. apply walk_handles; [|apply ro_root]. intros d n h. apply ro_handles. Qed.

(** A request of which [lift k] reads the results, when it succeeded. *)
Lemma compound_ok {A} tag build (k : CompoundResponse -> M A) w a w' :
  bindM (compound eng tag build) k w = (Ok a, w') ->
  exists resp w1 rs s', srv_run f (start (server w)) (ops (build (builder_new (of_str tag)))) = (rs, NFS4_OK, s') /\
  server w1 = sv_fs s' /\ k resp w1 = (Ok a, w').
Proof.
  unfold bindM. destruct (compound eng tag build w) as [rc w1] eqn:Hc. intros H.
  destruct (compound_inv _ _ _ _ _ Hc) as (rs & e & s' & Hrun & [(x & -> & _)|[Hs [[-> (resp & seq & -> & Hr)]|[_ ->]]]]); [done| |done].
  by exists resp, w1, rs, s'.
Qed.

Lemma remove_acts dir name w w' :
  remaining dir < 2 ^ 32 -> remaining name < 2 ^ 32 -> Ops41.remove eng dir name w = (Ok (), w') ->
  fs_remove f (server w) dir name = (NFS4_OK, server w').
Proof.
  intros Hd Hn H. apply compound_ok in H as (resp & w1 & rs & s' & Hrun & Hs & Hk). injection Hk as _ <-. rewrite Hs.
  cbn in Hrun. rewrite !one_opaque_enc in Hrun by done. cbn in Hrun.
  destruct (fs_remove f (server w) dir name) as [e x]. cbn in Hrun. status_case e Hrun; cbn in Hrun; injection Hrun; intros; subst; done.
Qed.

Lemma rename_acts src old dst new w w' :
  remaining src < 2 ^ 32 -> remaining old < 2 ^ 32 -> remaining dst < 2 ^ 32 -> remaining new < 2 ^ 32 ->
  Ops41.rename eng src old dst new w = (Ok (), w') ->
  fs_rename f (server w) src old dst new = (NFS4_OK, server w').
Proof.
  intros H1 H2 H3 H4 H. apply compound_ok in H as (resp & w1 & rs & s' & Hrun & Hs & Hk). injection Hk as _ <-. rewrite Hs.
  cbn in Hrun. rewrite !one_opaque_enc in Hrun by done. cbn in Hrun. rewrite ?one_opaque_enc, ?two_opaques_enc in Hrun by done. cbn in Hrun.
  destruct (fs_rename f (server w) src old dst new) as [e x]. cbn in Hrun. status_case e Hrun; cbn in Hrun; injection Hrun; intros; subst; done.
Qed.

Lemma link_acts src dst name w a w' :
  remaining src < 2 ^ 32 -> remaining dst < 2 ^ 32 -> remaining name < 2 ^ 32 ->
  Ops41.link eng src dst name w = (Ok a, w') ->
  fs_link f (server w) src dst name = (NFS4_OK, server w').
Proof.
  intros H1 H2 H3 H. apply compound_ok in H as (resp & w1 & rs & s' & Hrun & Hs & Hk).
  assert (w1 = w') as <-.
  { unfold bindM, lift, retM in Hk. repeat case_match; by simplify_eq/=. }
  cbn in Hrun. rewrite !one_opaque_enc in Hrun by done. cbn in Hrun. rewrite ?one_opaque_enc in Hrun by done. cbn in Hrun.
  destruct (fs_link f (server w) src dst name) as [e x]. cbn in Hrun. status_case e Hrun; [|cbn in Hrun; injection Hrun; intros; subst; done].
  cbn in Hrun.
  rewrite ?one_opaque_enc in Hrun by done. cbn in Hrun. destruct (fs_attrs f x src _) as [bm v]. cbn in Hrun.
  injection Hrun as <- <-. by rewrite Hs.
Qed.

(** Looking up a path finds the object a walk of its components reaches. When
    the requests reach the server, [lookup_path] answers the handle at the end of
    the walk with its decoded attributes, the root itself for an empty path, and
    the server's status at the first component that fails; in every such case the
    file system is unchanged. The only other answer is an error of the transport,
    never a status. *)
Theorem lookup_path_walks path w r w' :
  remaining path < 2 ^ 32 -> lookup_path cfg eng path w = (r, w') ->
  no_status r \/ server w' = server w /\ r = lookup_result (server w) path.
Proof. apply lookup_path_result. Qed.

(** [path_clean::clean] on absolute paths. *)
Context (clean : bytes -> bytes).
Hypothesis clean_absolute : forall path, clean (SLASH :: path) = abs_path (lexical [] (Ops41.components (SLASH :: path))).
#[local] Notation split_path := (Entry.split_path clean).
Lemma split_short p d n :
  remaining p < 2 ^ 32 -> split_path p = Ok (d, n) -> remaining d < 2 ^ 32 /\ remaining n < 2 ^ 32.
Proof. intros Hp H. apply (split_path_size clean clean_absolute) in H. unfold remaining in *. lia. Qed.

Lemma remove_path_acts path w w' :
  remaining path < 2 ^ 32 -> remove_path cfg eng split_path path w = (Ok (), w') ->
  exists dir name d, split_path path = Ok (dir, name) /\
  walk f (server w) (root_fh cfg) (components dir) = inr d /\ fs_remove f (server w) d name = (NFS4_OK, server w').
Proof.
  intros Hp H. unfold remove_path in H. unfold bindM at 1, lift in H.
  destruct (split_path path) as [[dir name]|e|] eqn:Hsp; [|done|done]. destruct (split_short _ _ _ Hp Hsp) as [Hd Hn].
  unfold bindM at 1 in H. destruct (lookup_path cfg eng dir w) as [[obj|e|] w1] eqn:Hl; [|done|done].
  destruct (lookup_path_ok _ _ _ _ Hd Hl) as [Hs Hw]. exists dir, name, (o_fh obj). split_and!; [done..|].
  rewrite <- Hs. apply remove_acts; [by eapply walked_short|done|done].
Qed.

Lemma rename_path_acts from to w w' :
  remaining from < 2 ^ 32 -> remaining to < 2 ^ 32 -> rename_path cfg eng split_path from to w = (Ok (), w') ->
  exists fdir fname fd tdir tname td, split_path from = Ok (fdir, fname) /\ split_path to = Ok (tdir, tname) /\
  walk f (server w) (root_fh cfg) (components fdir) = inr fd /\ walk f (server w) (root_fh cfg) (components tdir) = inr td /\
  fs_rename f (server w) fd fname td tname = (NFS4_OK, server w').
Proof.
  intros Hf Ht H. unfold rename_path in H. unfold bindM at 1, lift in H.
  destruct (split_path from) as [[fdir fname]|e|] eqn:Hsf; [|done|done]. destruct (split_short _ _ _ Hf Hsf) as [Hd Hn].
  unfold bindM at 1 in H. destruct (split_path to) as [[tdir tname]|e|] eqn:Hst; [|done|done].
  destruct (split_short _ _ _ Ht Hst) as [Hd' Hn'].
  unfold bindM at 1 in H. destruct (lookup_path cfg eng fdir w) as [[obj|e|] w1] eqn:Hl; [|done|done].
  destruct (lookup_path_ok _ _ _ _ Hd Hl) as [Hs Hw].
  unfold bindM at 1 in H. destruct (lookup_path cfg eng tdir w1) as [[obj'|e|] w2] eqn:Hl'; [|done|done].
  destruct (lookup_path_ok _ _ _ _ Hd' Hl') as [Hs' Hw']. pose proof (walked_short _ _ _ Hw). pose proof (walked_short _ _ _ Hw').
  rewrite Hs in Hw'. exists fdir, fname, (o_fh obj), tdir, tname, (o_fh obj'). split_and!; [done..|].
  rewrite <- Hs, <- Hs'. by apply rename_acts.
Qed.

Lemma link_path_acts src dst w a w' :
  remaining src < 2 ^ 32 -> remaining dst < 2 ^ 32 -> link_path cfg eng split_path src dst w = (Ok a, w') ->
  exists sf dir name d, split_path dst = Ok (dir, name) /\
  walk f (server w) (root_fh cfg) (components src) = inr sf /\ walk f (server w) (root_fh cfg) (components dir) = inr d /\
  fs_link f (server w) sf d name = (NFS4_OK, server w').
Proof.
  intros Hf Ht H. unfold link_path in H.
  unfold bindM at 1 in H. destruct (lookup_path cfg eng src w) as [[obj|e|] w1] eqn:Hl; [|done|done].
  destruct (lookup_path_ok _ _ _ _ Hf Hl) as [Hs Hw].
  unfold bindM at 1, lift in H. destruct (split_path dst) as [[dir name]|e|] eqn:Hst; [|done|done].
  destruct (split_short _ _ _ Ht Hst) as [Hd' Hn'].
  unfold bindM at 1 in H. destruct (lookup_path cfg eng dir w1) as [[obj'|e|] w2] eqn:Hl'; [|done|done].
  destruct (lookup_path_ok _ _ _ _ Hd' Hl') as [Hs' Hw']. pose proof (walked_short _ _ _ Hw). pose proof (walked_short _ _ _ Hw').
  rewrite Hs in Hw'. exists (o_fh obj), dir, name, (o_fh obj'). split_and!; [done..|].
  rewrite <- Hs, <- Hs'. by eapply link_acts.
Qed.

(** C29: operations on names act on the directories their paths name, once. When
    [remove_path], [rename_path] or [link_path] reports success, the file system
    has changed by exactly one removal, renaming or linking, applied in the
    directories that walks of the parent paths reach, under the names the caller
    gave. *)
Theorem namespace_operations_act :
  (forall path w w', remaining path < 2 ^ 32 -> remove_path cfg eng split_path path w = (Ok (), w') ->
     exists dir name d, split_path path = Ok (dir, name) /\
     walk f (server w) (root_fh cfg) (components dir) = inr d /\ fs_remove f (server w) d name = (NFS4_OK, server w')) /\
  (forall from to w w', remaining from < 2 ^ 32 -> remaining to < 2 ^ 32 ->
     rename_path cfg eng split_path from to w = (Ok (), w') ->
     exists fdir fname fd tdir tname td, split_path from = Ok (fdir, fname) /\ split_path to = Ok (tdir, tname) /\
     walk f (server w) (root_fh cfg) (components fdir) = inr fd /\ walk f (server w) (root_fh cfg) (components tdir) = inr td /\
     fs_rename f (server w) fd fname td tname = (NFS4_OK, server w')) /\
  (forall src dst w a w', remaining src < 2 ^ 32 -> remaining dst < 2 ^ 32 ->
     link_path cfg eng split_path src dst w = (Ok a, w') ->
     exists sf dir name d, split_path dst = Ok (dir, name) /\
     walk f (server w) (root_fh cfg) (components src) = inr sf /\ walk f (server w) (root_fh cfg) (components dir) = inr d /\
     fs_link f (server w) sf d name = (NFS4_OK, server w')).
Proof. split_and!; [apply remove_path_acts|apply rename_path_acts|apply link_path_acts]. Qed.
End Client.

(** ** A file system of named entries, for the witnesses *)

Definition tree : Type := list (bytes * bytes * bytes).
Definition is_entry (dir name : bytes) (x : bytes * bytes * bytes) : bool :=
  let '(d, n, _) := x in bool_decide (d = dir) && bool_decide (n = name).
Definition tree_child (t : tree) (dir name : bytes) : nfsstat4 + bytes :=
  match List.find (is_entry dir name) t with
  | Some (_, _, fh) => if remaining fh <? 128 then inr fh else inl NFS4ERR_BADHANDLE
  | None => inl NFS4ERR_NOENT
  end.
Definition tree_remove (t : tree) (dir name : bytes) : nfsstat4 * tree :=
  match tree_child t dir name with
  | inl e => (e, t)
  | inr _ => (NFS4_OK, List.filter (fun x => negb (is_entry dir name x)) t)
  end.
Definition tree_fs : FsSem tree :=
  {| fs_child := tree_child;
     fs_attrs := fun _ _ _ => ([], []);
     fs_remove := tree_remove;
     fs_rename := fun t src old dst new =>
       match tree_child t src old with
       | inl e => (e, t)
       | inr fh => (NFS4_OK, (dst, new, fh) :: (tree_remove t src old).2)
       end;
     fs_link := fun t fh dir name =>
       match tree_child t dir name with inl _ => (NFS4_OK, (dir, name, fh) :: t) | inr _ => (NFS4ERR_EXIST, t) end |}.

Definition tree_compound (_ : option bytes) (_ : option nat) (tag : bytes) (build : CompoundBuilder -> CompoundBuilder)
    : M (X := tree) CompoundResponse := fun w =>
  let '(rs, e, s') := srv_run tree_fs (start (m_ext w)) (ops (build (builder_new tag))) in
  (if bool_decide (e = NFS4_OK)
   then Ok {| resp_tag := tag; resp_status := NFS4_OK;
              results := op_responses ((OpNum.Sequence, NFS4_OK, []) :: rs) []; session_generation := 1 |}
   else Err (Nfs4 e),
   {| m_state := m_state w; m_recalls := m_recalls w; m_writes := m_writes w; m_ext := sv_fs s' |}).
Definition tree_engine : Engine (X := tree) :=
  {| engine_compound := tree_compound; engine_pnfs_read := fun _ _ _ => retM None;
     engine_write_pnfs := fun _ _ _ => retM None; engine_commit_pending := fun _ _ => retM ();
     engine_flush_layoutcommit := fun _ => retM (); engine_layoutreturn := fun _ => retM ();
     engine_return_on_close := fun _ _ => false; engine_client_id := fun _ => 7; engine_generation := fun _ => 1;
     engine_max_response_size := fun _ => 65536 |}.
Definition tree_mount : Mount41 (X := tree) :=
  {| m_state := StateManager_new; m_recalls := {| queued := []; capacity := 1; receiver_alive := true |}; m_writes := WriteOwner.WriteOwner_new V1;
     m_ext := [(of_str "root", of_str "a", of_str "A"); (of_str "A", of_str "b", of_str "B")] |}.

#[local] Instance tree_runs : RunsOn tree_fs demo_cfg tree_engine m_ext.
Proof.
  split.
  - intros s dir name fh. cbn [fs_child tree_fs]. unfold tree_child. destruct (List.find _ s) as [[[d n] h]|]; [|done].
    destruct (Z.ltb_spec (remaining h) 128); [|done]. intros [= <-]. lia.
  - by vm_compute.
  - intros s dir name. cbn [fs_child tree_fs]. unfold tree_child. by repeat case_match.
  - intros s fh bm. cbn. split_and!; [lia|constructor|done].
  - intros tag build w r w' H. cbn [engine_compound tree_engine] in H. unfold tree_compound in H.
    destruct (srv_run _ _ _) as [[rs e] s']. injection H as <- <-. right. split; [done|].
    case_bool_decide; [left; split; [done|by eexists _, []]|by right].
Qed.

Lemma lookup_path_walks_witness :
  no_status (lookup_path demo_cfg tree_engine (of_str "/a//./b") tree_mount).1 \/
  m_ext (lookup_path demo_cfg tree_engine (of_str "/a//./b") tree_mount).2 = m_ext tree_mount /\
  (lookup_path demo_cfg tree_engine (of_str "/a//./b") tree_mount).1 =
  lookup_result tree_fs demo_cfg (m_ext tree_mount) (of_str "/a//./b").
Proof.
  apply (lookup_path_walks tree_fs demo_cfg tree_engine m_ext (of_str "/a//./b") tree_mount); [by vm_compute|].
  by destruct (lookup_path demo_cfg tree_engine (of_str "/a//./b") tree_mount).
Defined.

(** The lookup finds the file, and a missing name is the server's status. *)
Example lookup_path_found :
  match (lookup_path demo_cfg tree_engine (of_str "/a//./b") tree_mount).1 with Ok o => o_fh o = of_str "B" | _ => False end /\
  (lookup_path demo_cfg tree_engine (of_str "/a/c") tree_mount).1 = Err (Nfs4 NFS4ERR_NOENT).
Proof. by vm_compute. Qed.

Lemma namespace_operations_act_witness :
  exists dir name d, Entry.split_path lexical_clean (of_str "/a/./x/../b") = Ok (dir, name) /\
  walk tree_fs (m_ext tree_mount) (root_fh demo_cfg) (components dir) = inr d /\
  fs_remove tree_fs (m_ext tree_mount) d name =
    (NFS4_OK, m_ext (remove_path demo_cfg tree_engine (Entry.split_path lexical_clean) (of_str "/a/./x/../b") tree_mount).2).
Proof.
  apply (namespace_operations_act tree_fs demo_cfg tree_engine m_ext lexical_clean (fun _ => eq_refl)); [by vm_compute|].
  destruct (remove_path demo_cfg tree_engine (Entry.split_path lexical_clean) (of_str "/a/./x/../b") tree_mount) as [r w'] eqn:H.
  vm_compute in H. by injection H as <- <-.
Defined.

(** A failed SETATTR fails the whole request of [symlink_with_attrs]: its own
    fallback is never reached, and the link stays with default attributes. *)
Lemma symlink_setattr_not_retried {X} (eng : Engine (X := X)) target dir name uid gid atime mtime w w' st :
  (encode_setattr None uid gid None atime mtime).1 <> [] ->
  (forall build, compound eng "symlink_with_attrs" build w = (Err (Nfs4 st), w')) ->
  symlink_with_attrs eng target dir name uid gid atime mtime w = (Err (Nfs4 st), w').
Proof.
  intros Hm Hc. unfold symlink_with_attrs. destruct (encode_setattr _ _ _ _ _ _) as [mask vals]. cbn in Hm.
  destruct mask; [done|]. unfold bindM at 1. by rewrite Hc.
Qed.
