(* ===== verification/FsInfo.v ===== *)
(** * File system information

    Models the readers of file system attributes: the mount parameters, [fsinfo],
    [fsstat] and [pathconf] of [src/src/nfs40/mount.rs] and
    [src/src/nfs41/mount.rs], with the effective transfer sizes. A reader takes
    the reply of GETATTR; the values follow each other in the order of their
    attribute numbers, and which of them are there is said by the bitmap. *)
From Stdlib Require Import Strings.Byte.
From S2P Require Import Prelude Errors Xdr4 Acl4 Attrs4 Device Listing.
From stdpp Require Import base list numbers strings sets.
#[local] Open Scope Z_scope.

(** ** Types of [mount.rs] *)

Record FSInfo : Type := {
  fi_attr : option Attr; rtmax : Z; rtpref : Z; rtmult : Z; wtmax : Z; wtpref : Z; wtmult : Z; dtpref : Z;
  maxfilesize : Z; time_delta : Time; properties : Z
}.
Record FSStat : Type := {
  fs_attr : option Attr; tbytes : Z; fbytes : Z; abytes : Z; tfiles : Z; ffiles : Z; afiles : Z; invarsec : Z
}.
Definition FSStat_default : FSStat :=
  {| fs_attr := None; tbytes := 0; fbytes := 0; abytes := 0; tfiles := 0; ffiles := 0; afiles := 0; invarsec := 0 |}.
Record Pathconf : Type := {
  pc_attr : option Attr; linkmax : Z; name_max : Z; no_trunc : bool; chown_restricted : bool;
  case_insensitive : bool; case_preserving : bool
}.
Record PathconfSupport : Type := {
  ps_linkmax : bool; ps_name_max : bool; ps_no_trunc : bool; ps_chown_restricted : bool;
  ps_case_insensitive : bool; ps_case_preserving : bool
}.
Record SupportedPathconf : Type := { sp_values : Pathconf; sp_available : PathconfSupport; sp_fsid : option (Z * Z) }.

Definition pathconf_default : Pathconf :=
  {| pc_attr := None; linkmax := 32767; name_max := 255; no_trunc := true; chown_restricted := true;
     case_insensitive := false; case_preserving := true |}.
Definition pathconf_support (bitmap : list Z) : PathconfSupport :=
  {| ps_linkmax := bitmap_has bitmap 28; ps_name_max := bitmap_has bitmap 29; ps_no_trunc := bitmap_has bitmap 34;
     ps_chown_restricted := bitmap_has bitmap 18; ps_case_insensitive := bitmap_has bitmap 16;
     ps_case_preserving := bitmap_has bitmap 17 |}.

(** ** NFSv4.0 *)

Definition take_u64_attr (values : bytes) (label : string) : result (Z * bytes) :=
  let* _ := require 8 (Xdr (label +:+ " truncated")) values in get_u64 values.
Definition take_u32_attr (values : bytes) (label : string) : result (Z * bytes) :=
  let* _ := require 4 (Xdr (label +:+ " truncated")) values in get_u32 values.
Definition take_bool_attr (values : bytes) (label : string) : result (bool * bytes) :=
  let* (v, values) := take_u32_attr values label in
  if v =? 0 then Ok (false, values)
  else if v =? 1 then Ok (true, values)
  else Err (Xdr (label +:+ " has invalid boolean value " +:+ fmtZ v)).
Definition take_bitmap4_attr (values : bytes) (label : string) : result (list Z * bytes) :=
  let* (word_count, values) := take_u32_attr values label in
  if remaining values <? word_count * 4 then Err (Xdr (label +:+ " truncated"))
  else collect word_count get_u32 values.
Definition ensure_attr_values_consumed (values : bytes) (label : string) : result () :=
  if bool_decide (values = []) then Ok () else Err (Xdr (label +:+ " has trailing attribute values")).

(** [{missing:?}] *)
Definition fmt_list (l : list Z) : string :=
  "[" +:+ match l with
          | [] => ""
          | x :: l => fold_left (fun s y => s +:+ ", " +:+ fmtZ y) l (fmtZ x)
          end +:+ "]".
Definition require_fattrs (bitmap required : list Z) (operation : string) : result () :=
  let missing := List.filter (fun a => negb (bitmap_has bitmap a)) required in
  if bool_decide (missing = []) then Ok ()
  else Err (Unsupported ("NFSv4.0 " +:+ operation +:+ " server omitted required attributes " +:+ fmt_list missing)).

(** An attribute that may be absent. *)
Definition if_has {A : Type} (bitmap : list Z) (n : Z) (def : A) (read : bytes -> result (A * bytes)) (values : bytes)
    : result (A * bytes) :=
  if bitmap_has bitmap n then read values else Ok (def, values).

(** The bits of [properties]. *)
Definition fsf_bits (link symlink homogeneous cansettime : bool) : Z :=
  Z.lor (Z.lor (Z.lor (b2z link) (Z.shiftl (b2z symlink) 1)) (Z.shiftl (b2z homogeneous) 3)) (Z.shiftl (b2z cansettime) 4).

Definition fsinfo40 (self_rsize self_wsize : Z) (bitmap : list Z) (values : bytes) : result FSInfo :=
  let* _ := require_fattrs bitmap [5; 6; 15; 27; 30; 31; 51] "FSINFO" in
  let* (link, values) := take_bool_attr values "link_support" in
  let* (symlink, values) := take_bool_attr values "symlink_support" in
  let* (cansettime, values) := take_bool_attr values "cansettime" in
  let* (homogeneous, values) := if_has bitmap 26 false (fun v => take_bool_attr v "homogeneous") values in
  let* (maxfilesize, values) := take_u64_attr values "maxfilesize" in
  let* (maxread, values) := take_u64_attr values "maxread" in
  let* (maxwrite, values) := take_u64_attr values "maxwrite" in
  let* _ := require 12 (Xdr "time_delta truncated") values in
  let* (secs, values) := get_i64 values in
  if negb ((0 <=? secs) && (secs <=? u32_max)) then Err (Xdr "time_delta seconds out of range")
  else
    let* (nsecs, values) := get_u32 values in
    let* _ := ensure_attr_values_consumed values "fsinfo" in
    Ok {| fi_attr := None; rtmax := Z.min maxread self_rsize; rtpref := Z.min maxread self_rsize; rtmult := 1;
          wtmax := Z.min maxwrite self_wsize; wtpref := Z.min maxwrite self_wsize; wtmult := 1; dtpref := 0;
          maxfilesize := maxfilesize; time_delta := {| seconds := secs; nseconds := nsecs |};
          properties := fsf_bits link symlink homogeneous cansettime |}.

Definition fsstat40 (bitmap : list Z) (values : bytes) : result FSStat :=
  let* _ := require_fattrs bitmap [21; 22; 23; 42; 43; 44] "FSSTAT" in
  let value n := if_has bitmap n 0 (fun v => take_u64_attr v "fsstat value") in
  let* (afiles, values) := value 21 values in
  let* (ffiles, values) := value 22 values in
  let* (tfiles, values) := value 23 values in
  let* (abytes, values) := value 42 values in
  let* (fbytes, values) := value 43 values in
  let* (tbytes, values) := value 44 values in
  let* _ := ensure_attr_values_consumed values "fsstat" in
  Ok {| fs_attr := None; tbytes := tbytes; fbytes := fbytes; abytes := abytes; tfiles := tfiles; ffiles := ffiles;
        afiles := afiles; invarsec := 0 |}.

Definition query_pathconf (bitmap : list Z) (values : bytes) : result SupportedPathconf :=
  let* _ := require_fattrs bitmap [0; 8] "PATHCONF" in
  let* (_, values) := take_bitmap4_attr values "supported_attrs" in
  let* (major, values) := take_u64_attr values "fsid.major" in
  let* (minor, values) := take_u64_attr values "fsid.minor" in
  let* (ci, values) := if_has bitmap 16 false (fun v => take_bool_attr v "case_insensitive") values in
  let* (cp, values) := if_has bitmap 17 true (fun v => take_bool_attr v "case_preserving") values in
  let* (cr, values) := if_has bitmap 18 true (fun v => take_bool_attr v "chown_restricted") values in
  let* (lm, values) := if_has bitmap 28 32767 (fun v => take_u32_attr v "maxlink") values in
  let* (nm, values) := if_has bitmap 29 255 (fun v => take_u32_attr v "maxname") values in
  let* (nt, values) := if_has bitmap 34 true (fun v => take_bool_attr v "no_trunc") values in
  let* _ := ensure_attr_values_consumed values "pathconf" in
  Ok {| sp_values := {| pc_attr := None; linkmax := lm; name_max := nm; no_trunc := nt; chown_restricted := cr;
                        case_insensitive := ci; case_preserving := cp |};
        sp_available := pathconf_support bitmap; sp_fsid := Some (major, minor) |}.

(** The reply of [query_mount_parameters]: lease time, sizes, whether ACLs are
    supported and whether the read limit was published. *)
Definition query_mount_parameters (bitmap : list Z) (values : bytes) : result (Z * Z * Z * bool * bool) :=
  let* (supported_attrs, values) := if_has bitmap 0 [] (fun v => take_bitmap4_attr v "supported_attrs") values in
  if negb (bitmap_has bitmap 10) || (remaining values <? 4)
  then Err (Xdr "NFSv4.0 lease_time response is missing or malformed")
  else
    let* (seconds, values) := get_u32 values in
    if seconds =? 0 then Err (Xdr "NFSv4.0 lease_time is zero")
    else
      let* (server_maxread, values) := if_has bitmap 30 u64_max (fun v => take_u64_attr v "maxread") values in
      let* (server_maxwrite, values) := if_has bitmap 31 u64_max (fun v => take_u64_attr v "maxwrite") values in
      let* _ := ensure_attr_values_consumed values "mount parameters" in
      let* rsize := negotiated_io_size server_maxread in
      let* wsize := negotiated_io_size server_maxwrite in
      if (rsize =? 0) || (wsize =? 0)
      then Err (Xdr "NFSv4.0 MAXREAD and MAXWRITE produced a zero effective I/O size")
      else Ok (seconds, rsize, wsize, bitmap_has supported_attrs 12, bitmap_has bitmap 30).

(** ** NFSv4.1 *)

(** The bitmap and the values of a GETATTR reply; [limit] is the number of words
    that is accepted, where the reader has one. *)
Definition envelope41 (limit : option (Z * (Z -> NfsError))) (no_count no_word no_len no_vals : string) (data : bytes)
    : result (list Z * bytes) :=
  let* _ := require 4 (Xdr no_count) data in
  let* (bm_len, data) := get_u32 data in
  let* _ := (match limit with
             | Some (n, e) => if n <? bm_len then Err (e bm_len) else Ok ()
             | None => Ok ()
             end) in
  let* (bm, data) := collect bm_len (fun d => let* _ := require 4 (Xdr no_word) d in get_u32 d) data in
  let* _ := require 4 (Xdr no_len) data in
  let* (vals_len, data) := get_u32 data in
  let* _ := require vals_len (Xdr no_vals) data in
  let* (vals, _) := split_to vals_len data in
  Ok (bm, vals).
Definition too_many_words (what : string) (n : Z) : NfsError :=
  Xdr (what +:+ " bitmap has " +:+ fmtZ n +:+ " words, max 16").

(** A value that is there when the bitmap says so and its bytes are left. *)
Definition lenient {A : Type} (bm : list Z) (n len : Z) (def : A) (read : bytes -> result (A * bytes)) (vals : bytes)
    : result (A * bytes) :=
  if bitmap_has bm n && (len <=? remaining vals) then read vals else Ok (def, vals).

Definition read_time (vals : bytes) : result (Time * bytes) :=
  let* (secs, vals) := get_i64 vals in
  let* (nsecs, vals) := get_u32 vals in
  Ok ({| seconds := wrap32 secs; nseconds := nsecs |}, vals).
Definition read_flag (vals : bytes) : result (bool * bytes) :=
  let* (v, vals) := get_u32 vals in Ok (negb (v =? 0), vals).

Definition fsinfo41 (self_rsize self_wsize : Z) (data : bytes) : result FSInfo :=
  let* (bm, vals) := envelope41 None "fsinfo bitmap truncated" "fsinfo bitmap word truncated"
                       "fsinfo vals length truncated" "fsinfo vals data truncated" data in
  let* (maxfilesize, vals) := lenient bm 27 8 u64_max get_u64 vals in
  let* (maxread, vals) := lenient bm 30 8 self_rsize get_u64 vals in
  let* (maxwrite, vals) := lenient bm 31 8 self_wsize get_u64 vals in
  let* (time_delta, _) := lenient bm 51 12 {| seconds := 0; nseconds := 1 |} read_time vals in
  Ok {| fi_attr := None; rtmax := Z.min maxread self_rsize; rtpref := Z.min maxread self_rsize; rtmult := 4096;
        wtmax := Z.min maxwrite self_wsize; wtpref := Z.min maxwrite self_wsize; wtmult := 4096; dtpref := 8192;
        maxfilesize := maxfilesize; time_delta := time_delta; properties := 0x1b |}.

Definition fsstat41 (data : bytes) : result FSStat :=
  let* (bm, vals) := envelope41 (Some (16, too_many_words "fsstat")) "fsstat bitmap truncated" "fsstat bitmap word truncated"
                       "fsstat vals truncated" "fsstat vals data truncated" data in
  let value n := lenient bm n 8 0 get_u64 in
  let* (afiles, vals) := value 21 vals in
  let* (ffiles, vals) := value 22 vals in
  let* (tfiles, vals) := value 23 vals in
  let* (abytes, vals) := value 42 vals in
  let* (fbytes, vals) := value 43 vals in
  let* (tbytes, _) := value 44 vals in
  Ok {| fs_attr := None; tbytes := tbytes; fbytes := fbytes; abytes := abytes; tfiles := tfiles; ffiles := ffiles;
        afiles := afiles; invarsec := 0 |}.

Definition skip_supported (bm : list Z) (vals : bytes) : result bytes :=
  if bitmap_has bm 0 then
    let* _ := require 4 (Xdr "supported_attrs truncated") vals in
    let* (words, vals) := get_u32 vals in
    let* _ := require (words * 4) (Xdr "supported_attrs truncated") vals in
    advance (words * 4) vals
  else Ok vals.
Definition read_fsid (bm : list Z) (vals : bytes) : result (option (Z * Z) * bytes) :=
  if bitmap_has bm 8 then
    let* _ := require 16 (Xdr "fsid truncated") vals in
    let* (major, vals) := get_u64 vals in
    let* (minor, vals) := get_u64 vals in
    Ok (Some (major, minor), vals)
  else Ok (None, vals).

Definition pathconf_with_support (data : bytes) : result SupportedPathconf :=
  let* (bm, vals) := envelope41 None "pathconf bitmap truncated" "pathconf bitmap word truncated"
                       "pathconf vals truncated" "pathconf vals truncated" data in
  let* vals := skip_supported bm vals in
  let* (fsid, vals) := read_fsid bm vals in
  let* (ci, vals) := lenient bm 16 4 false read_flag vals in
  let* (cp, vals) := lenient bm 17 4 true read_flag vals in
  let* (cr, vals) := lenient bm 18 4 true read_flag vals in
  let* (lm, vals) := lenient bm 28 4 32767 get_u32 vals in
  let* (nm, vals) := lenient bm 29 4 255 get_u32 vals in
  let* (nt, _) := lenient bm 34 4 true read_flag vals in
  Ok {| sp_values := {| pc_attr := None; linkmax := lm; name_max := nm; no_trunc := nt; chown_restricted := cr;
                        case_insensitive := ci; case_preserving := cp |};
        sp_available := pathconf_support bm; sp_fsid := fsid |}.

(** *** Limits of a mount *)

Definition NFS41_WRITE_REQUEST_HEADROOM : Z := 4 * 1024.
Definition NFS41_READ_RESPONSE_HEADROOM : Z := 4 * 1024.

Definition session_limit (size headroom : Z) (e : string) : result Z :=
  if headroom <? size then Ok (size - headroom) else Err (Rpc e).
Definition effective_rsize (server_maxread session_max_response_size : Z) : result Z :=
  let* limit := session_limit session_max_response_size NFS41_READ_RESPONSE_HEADROOM
    ("NFSv4.1 session max response size " +:+ fmtZ session_max_response_size +:+ " is too small for READ overhead") in
  let* size := negotiated_io_size server_maxread in
  Ok (Z.min size limit).
Definition effective_wsize (server_maxwrite session_max_request_size : Z) : result Z :=
  let* limit := session_limit session_max_request_size NFS41_WRITE_REQUEST_HEADROOM
    ("NFSv4.1 session max request size " +:+ fmtZ session_max_request_size +:+ " is too small for WRITE overhead") in
  let* size := negotiated_io_size server_maxwrite in
  Ok (Z.min size limit).

(** Seconds between renewals. *)
Definition renewal_interval (server_lease_secs : Z) : Z := Z.min 45 (Z.max 5 (server_lease_secs / 2)).

Definition get_fs_limits (max_response_size max_request_size : Z) (data : bytes) : result (Z * Z * Z * bool) :=
  let* (bm, vals) := envelope41 (Some (16, too_many_words "GETATTR")) "GETATTR bitmap length truncated"
                       "GETATTR bitmap word truncated" "GETATTR attr_vals length truncated" "GETATTR attr_vals truncated" data in
  let* (supported_attrs, vals) :=
    (if bitmap_has bm 0 then
       let* _ := require 4 (Xdr "supported_attrs truncated") vals in
       let* (words, vals) := get_u32 vals in
       let* _ := require (words * 4) (Xdr "supported_attrs truncated") vals in
       collect words get_u32 vals
     else Ok ([], vals)) in
  let* (server_lease_secs, vals) := lenient bm 10 4 90 get_u32 vals in
  let* (server_maxread, vals) := lenient bm 30 8 u64_max get_u64 vals in
  let* (server_maxwrite, _) := lenient bm 31 8 u64_max get_u64 vals in
  let* rsize := effective_rsize server_maxread max_response_size in
  let* wsize := effective_wsize server_maxwrite max_request_size in
  Ok (rsize, wsize, renewal_interval server_lease_secs,
      match supported_attrs with w :: _ => negb (Z.land w (Z.shiftl 1 12) =? 0) | [] => false end).

(** ** Reading back what a server lays out *)

(** The values of the attributes that the bitmap names, in order. *)
Definition laid (bm : list Z) (l : list (Z * bytes)) : bytes :=
  concat (map (fun '(n, w) => if bitmap_has bm n then w else []) l).
Definition bitmap_ok (bm : list Z) : Prop := (length bm <= 16)%nat /\ Forall is_u32 bm.
Definition or_default {A : Type} (bm : list Z) (n : Z) (v def : A) : A := if bitmap_has bm n then v else def.
Definition flag (b : bool) : bytes := xdr_u32 (b2z b).
Definition wire_delta (t : Time) : bytes := be_bytes 8 (seconds t) ++ be_bytes 4 (nseconds t).

Lemma laid_cons bm n w l : laid bm ((n, w) :: l) = (if bitmap_has bm n then w else []) ++ laid bm l.
Proof. done. Qed.

Lemma if_has_read {A} bm n (def v : A) read w rest :
  (forall r, read (w ++ r) = Ok (v, r)) ->
  if_has bm n def read ((if bitmap_has bm n then w else []) ++ rest) = Ok (or_default bm n v def, rest).
Proof. intros H. unfold if_has, or_default. destruct (bitmap_has bm n); [apply H|done]. Qed.

Lemma lenient_read {A} bm n len (def v : A) read w rest :
  remaining w = len -> (forall r, read (w ++ r) = Ok (v, r)) ->
  lenient bm n len def read ((if bitmap_has bm n then w else []) ++ rest) = Ok (or_default bm n v def, rest).
Proof.
  intros Hw H. unfold lenient, or_default. destruct (bitmap_has bm n); [|done]. cbn [andb].
  rewrite remaining_app, Hw. pose proof (remaining_nonneg rest).
  destruct (Z.leb_spec len (len + remaining rest)); [apply H|lia].
Qed.

Lemma take_u32_attr_enc v label rest : is_u32 v -> take_u32_attr (xdr_u32 v ++ rest) label = Ok (v, rest).
Proof. intros H. unfold take_u32_attr. rewrite require_app by (by rewrite remaining_xdr_u32). by apply get_u32_be. Qed.
Lemma take_u64_attr_enc v label rest : is_u64 v -> take_u64_attr (be_bytes 8 v ++ rest) label = Ok (v, rest).
Proof. intros H. unfold take_u64_attr. rewrite require_app by (by rewrite remaining_be). by apply get_u64_be. Qed.
Lemma take_bool_attr_enc b label rest : take_bool_attr (flag b ++ rest) label = Ok (b, rest).
Proof. unfold take_bool_attr, flag. by destruct b; rewrite take_u32_attr_enc by done. Qed.
Lemma read_flag_enc b rest : read_flag (flag b ++ rest) = Ok (b, rest).
Proof. unfold read_flag, flag, xdr_u32. by destruct b; rewrite get_u32_be by done. Qed.
Lemma read_time_enc t rest : is_u32 (seconds t) -> is_u32 (nseconds t) -> read_time (wire_delta t ++ rest) = Ok (t, rest).
Proof.
  intros Hs Hn. unfold read_time, wire_delta. rewrite <- app_assoc, get_i64_be by ilia. cbn [obind].
  rewrite get_u32_be by done. cbn [obind]. unfold wrap32. rewrite Z.mod_small by (unfold is_u32 in Hs; lia). by destruct t.
Qed.

Lemma bitmap_words (bm : list Z) (item : bytes -> result (Z * bytes)) rest :
  (forall w r, is_u32 w -> item (xdr_u32 w ++ r) = Ok (w, r)) -> Forall is_u32 bm ->
  collect (Z.of_nat (length bm)) item (concat (map xdr_u32 bm) ++ rest) = Ok (bm, rest).
Proof.
  intros Hi Hb. apply collect_encoded. intros a r Ha. apply Hi. rewrite Forall_forall in Hb. apply Hb. by apply list_elem_of_In.
Qed.

Lemma take_bitmap4_attr_enc l label rest :
  (length l <= 16)%nat -> Forall is_u32 l -> take_bitmap4_attr (xdr_bitmap l ++ rest) label = Ok (l, rest).
Proof.
  intros Hn Hl. unfold take_bitmap4_attr, xdr_bitmap. rewrite <- app_assoc, take_u32_attr_enc by ilia. cbn [obind].
  destruct (Z.ltb_spec (remaining (concat (map xdr_u32 l) ++ rest)) (Z.of_nat (length l) * 4)) as [H|_].
  { rewrite remaining_app, remaining_concat_u32 in H. pose proof (remaining_nonneg rest). lia. }
  apply bitmap_words; [|done]. intros w r Hw. by apply get_u32_be.
Qed.

Lemma envelope41_enc limit e1 e2 e3 e4 bm vals rest :
  bitmap_ok bm -> remaining vals < 2 ^ 32 ->
  match limit with Some (n, _) => 16 <= n | None => True end ->
  envelope41 limit e1 e2 e3 e4 (xdr_bitmap bm ++ xdr_opaque vals ++ rest) = Ok (bm, vals).
Proof.
  intros [Hn Hb] Hv Hl. pose proof (remaining_nonneg vals). unfold envelope41, xdr_bitmap. rewrite <- !app_assoc.
  rewrite require_app by (by rewrite remaining_xdr_u32). cbn [obind]. unfold xdr_u32 at 1. rewrite get_u32_be by ilia. cbn [obind].
  assert (Hlim : (match limit with
                  | Some (n, e) => if n <? Z.of_nat (length bm) then Err (e (Z.of_nat (length bm))) else Ok ()
                  | None => Ok ()
                  end : result ()) = Ok ()).
  { destruct limit as [[n e]|]; [|done]. by destruct (Z.ltb_spec n (Z.of_nat (length bm))); [lia|]. }
  rewrite Hlim. cbn [obind]. rewrite bitmap_words; [|intros w r Hw; rewrite require_app by (by rewrite remaining_xdr_u32); by apply get_u32_be|done].
  cbn [obind]. unfold xdr_opaque. rewrite <- !app_assoc. rewrite require_app by (by rewrite remaining_xdr_u32). cbn [obind].
  unfold xdr_u32. rewrite get_u32_be by ilia. cbn [obind]. rewrite require_app by done. cbn [obind]. by rewrite split_to_app.
Qed.

Lemma skip_supported_enc bm l rest :
  (length l <= 16)%nat -> skip_supported bm ((if bitmap_has bm 0 then xdr_bitmap l else []) ++ rest) = Ok rest.
Proof.
  intros Hn. unfold skip_supported. destruct (bitmap_has bm 0); [|done]. unfold xdr_bitmap. rewrite <- app_assoc.
  rewrite require_app by (by rewrite remaining_xdr_u32). cbn [obind]. unfold xdr_u32 at 1. rewrite get_u32_be by ilia. cbn [obind].
  rewrite require_app by (rewrite remaining_concat_u32; lia). cbn [obind]. apply advance_app. rewrite remaining_concat_u32. lia.
Qed.

Lemma read_fsid_enc bm major minor rest :
  is_u64 major -> is_u64 minor ->
  read_fsid bm ((if bitmap_has bm 8 then be_bytes 8 major ++ be_bytes 8 minor else []) ++ rest) =
  Ok (if bitmap_has bm 8 then Some (major, minor) else None, rest).
Proof.
  intros Hm Hn. unfold read_fsid. destruct (bitmap_has bm 8); [|done].
  rewrite require_app by (rewrite remaining_app, !remaining_be; lia). cbn [obind]. rewrite <- app_assoc.
  rewrite get_u64_be by done. cbn [obind]. by rewrite get_u64_be by done.
Qed.

Lemma require_fattrs_ok bm l operation : Forall (fun n => bitmap_has bm n = true) l -> require_fattrs bm l operation = Ok ().
Proof.
  intros H. unfold require_fattrs. rewrite bool_decide_true; [done|].
  induction H as [|n l Hn _ IH]; [done|]. cbn [List.filter]. by rewrite Hn.
Qed.

(** What the file system tells about itself. *)
Record fs_facts : Type := {
  ff_link : bool; ff_symlink : bool; ff_cansettime : bool; ff_homogeneous : bool;
  ff_maxfilesize : Z; ff_maxread : Z; ff_maxwrite : Z; ff_delta : Time;
  ff_afiles : Z; ff_ffiles : Z; ff_tfiles : Z; ff_abytes : Z; ff_fbytes : Z; ff_tbytes : Z;
  ff_supported : list Z; ff_major : Z; ff_minor : Z;
  ff_case_insensitive : bool; ff_case_preserving : bool; ff_chown_restricted : bool;
  ff_linkmax : Z; ff_name_max : Z; ff_no_trunc : bool
}.
Record facts_ok (f : fs_facts) : Prop := {
  fo_maxfilesize : is_u64 (ff_maxfilesize f); fo_maxread : is_u64 (ff_maxread f); fo_maxwrite : is_u64 (ff_maxwrite f);
  fo_secs : is_u32 (seconds (ff_delta f)); fo_nsecs : is_u32 (nseconds (ff_delta f));
  fo_afiles : is_u64 (ff_afiles f); fo_ffiles : is_u64 (ff_ffiles f); fo_tfiles : is_u64 (ff_tfiles f);
  fo_abytes : is_u64 (ff_abytes f); fo_fbytes : is_u64 (ff_fbytes f); fo_tbytes : is_u64 (ff_tbytes f);
  fo_supported : (length (ff_supported f) <= 16)%nat /\ Forall is_u32 (ff_supported f);
  fo_major : is_u64 (ff_major f); fo_minor : is_u64 (ff_minor f);
  fo_linkmax : is_u32 (ff_linkmax f); fo_name_max : is_u32 (ff_name_max f)
}.

(** The attributes of RFC 7530 and RFC 8881 by number. *)
Definition info_attrs (f : fs_facts) : list (Z * bytes) :=
  [(5, flag (ff_link f)); (6, flag (ff_symlink f)); (15, flag (ff_cansettime f)); (26, flag (ff_homogeneous f));
   (27, be_bytes 8 (ff_maxfilesize f)); (30, be_bytes 8 (ff_maxread f)); (31, be_bytes 8 (ff_maxwrite f));
   (51, wire_delta (ff_delta f))].
Definition stat_attrs (f : fs_facts) : list (Z * bytes) :=
  [(21, be_bytes 8 (ff_afiles f)); (22, be_bytes 8 (ff_ffiles f)); (23, be_bytes 8 (ff_tfiles f));
   (42, be_bytes 8 (ff_abytes f)); (43, be_bytes 8 (ff_fbytes f)); (44, be_bytes 8 (ff_tbytes f))].
Definition path_attrs (f : fs_facts) : list (Z * bytes) :=
  [(0, xdr_bitmap (ff_supported f)); (8, be_bytes 8 (ff_major f) ++ be_bytes 8 (ff_minor f));
   (16, flag (ff_case_insensitive f)); (17, flag (ff_case_preserving f)); (18, flag (ff_chown_restricted f));
   (28, xdr_u32 (ff_linkmax f)); (29, xdr_u32 (ff_name_max f)); (34, flag (ff_no_trunc f))].

Definition stat_of (bm : list Z) (f : fs_facts) : FSStat :=
  {| fs_attr := None; tbytes := or_default bm 44 (ff_tbytes f) 0; fbytes := or_default bm 43 (ff_fbytes f) 0;
     abytes := or_default bm 42 (ff_abytes f) 0; tfiles := or_default bm 23 (ff_tfiles f) 0;
     ffiles := or_default bm 22 (ff_ffiles f) 0; afiles := or_default bm 21 (ff_afiles f) 0; invarsec := 0 |}.
Definition pathconf_of (bm : list Z) (f : fs_facts) : SupportedPathconf :=
  {| sp_values := {| pc_attr := None; linkmax := or_default bm 28 (ff_linkmax f) 32767;
                     name_max := or_default bm 29 (ff_name_max f) 255; no_trunc := or_default bm 34 (ff_no_trunc f) true;
                     chown_restricted := or_default bm 18 (ff_chown_restricted f) true;
                     case_insensitive := or_default bm 16 (ff_case_insensitive f) false;
                     case_preserving := or_default bm 17 (ff_case_preserving f) true |};
     sp_available := pathconf_support bm;
     sp_fsid := if bitmap_has bm 8 then Some (ff_major f, ff_minor f) else None |}.

(** Read one laid-out attribute. *)
Ltac read_value :=
  intros ?; first [apply take_u64_attr_enc|apply take_u32_attr_enc|apply take_bool_attr_enc
                  |apply get_u64_be|apply get_u32_be|apply read_flag_enc|apply read_time_enc]; assumption.
Ltac read_attr :=
  first [ erewrite if_has_read by read_value | erewrite lenient_read; [|reflexivity|read_value] ]; cbn [obind].

Lemma fsstat40_reads bm f : facts_ok f -> Forall (fun n => bitmap_has bm n = true) [21; 22; 23; 42; 43; 44] ->
  fsstat40 bm (laid bm (stat_attrs f)) = Ok (stat_of bm f).
Proof.
  intros [] Hb. unfold fsstat40, stat_attrs. rewrite require_fattrs_ok by done. cbn [obind]. rewrite !laid_cons. cbv zeta.
  repeat read_attr. done.
Qed.

Lemma fsstat41_reads bm f rest : facts_ok f -> bitmap_ok bm -> remaining (laid bm (stat_attrs f)) < 2 ^ 32 ->
  fsstat41 (xdr_bitmap bm ++ xdr_opaque (laid bm (stat_attrs f)) ++ rest) = Ok (stat_of bm f).
Proof.
  intros [] Hb Hl. unfold fsstat41. rewrite envelope41_enc by done. cbn [obind]. unfold stat_attrs. rewrite !laid_cons. cbv zeta.
  repeat read_attr. done.
Qed.

Lemma query_pathconf_reads bm f : facts_ok f -> bitmap_has bm 0 = true -> bitmap_has bm 8 = true ->
  query_pathconf bm (laid bm (path_attrs f)) = Ok (pathconf_of bm f).
Proof.
  intros [] H0 H8. unfold query_pathconf, path_attrs, pathconf_of. rewrite require_fattrs_ok by (repeat constructor; done).
  cbn [obind]. rewrite !laid_cons, H0, H8. rewrite take_bitmap4_attr_enc by tauto. cbn [obind].
  rewrite <- app_assoc, take_u64_attr_enc by done. cbn [obind]. rewrite take_u64_attr_enc by done. cbn [obind].
  repeat read_attr. done.
Qed.

Lemma pathconf41_reads bm f rest : facts_ok f -> bitmap_ok bm -> remaining (laid bm (path_attrs f)) < 2 ^ 32 ->
  pathconf_with_support (xdr_bitmap bm ++ xdr_opaque (laid bm (path_attrs f)) ++ rest) = Ok (pathconf_of bm f).
Proof.
  intros [] Hb Hl. unfold pathconf_with_support. rewrite envelope41_enc by done. cbn [obind]. unfold path_attrs.
  rewrite !laid_cons, skip_supported_enc by tauto. cbn [obind]. rewrite read_fsid_enc by done. cbn [obind].
  repeat read_attr. done.
Qed.

Lemma fsinfo40_reads rs ws bm f : facts_ok f -> Forall (fun n => bitmap_has bm n = true) [5; 6; 15; 27; 30; 31; 51] ->
  fsinfo40 rs ws bm (laid bm (info_attrs f)) =
  Ok {| fi_attr := None; rtmax := Z.min (ff_maxread f) rs; rtpref := Z.min (ff_maxread f) rs; rtmult := 1;
        wtmax := Z.min (ff_maxwrite f) ws; wtpref := Z.min (ff_maxwrite f) ws; wtmult := 1; dtpref := 0;
        maxfilesize := ff_maxfilesize f; time_delta := ff_delta f;
        properties := fsf_bits (ff_link f) (ff_symlink f) (or_default bm 26 (ff_homogeneous f) false) (ff_cansettime f) |}.
Proof.
  intros [] Hb. unfold fsinfo40. rewrite require_fattrs_ok by done. cbn [obind].
  apply Forall_cons in Hb as [H5 Hb]. apply Forall_cons in Hb as [H6 Hb]. apply Forall_cons in Hb as [H15 Hb].
  apply Forall_cons in Hb as [H27 Hb]. apply Forall_cons in Hb as [H30 Hb]. apply Forall_cons in Hb as [H31 Hb].
  apply Forall_cons in Hb as [H51 _]. unfold info_attrs. rewrite !laid_cons, H5, H6, H15, H27, H30, H31, H51.
  do 3 (rewrite take_bool_attr_enc; cbn [obind]). read_attr. do 3 (rewrite take_u64_attr_enc by done; cbn [obind]).
  rewrite require_app by done. cbn [obind]. unfold wire_delta. rewrite <- app_assoc, get_i64_be by ilia. cbn [obind].
  replace ((0 <=? seconds (ff_delta f)) && (seconds (ff_delta f) <=? u32_max)) with true by (symmetry; apply andb_true_iff; rewrite !Z.leb_le; unfold u32_max; ilia).
  cbn [negb]. rewrite get_u32_be by done. cbn [obind]. cbn. by destruct (ff_delta f).
Qed.

Lemma fsinfo41_reads rs ws bm f rest : facts_ok f -> bitmap_ok bm ->
  (forall n, n ∈ [5; 6; 15; 26] -> bitmap_has bm n = false) -> remaining (laid bm (info_attrs f)) < 2 ^ 32 ->
  fsinfo41 rs ws (xdr_bitmap bm ++ xdr_opaque (laid bm (info_attrs f)) ++ rest) =
  Ok {| fi_attr := None; rtmax := Z.min (or_default bm 30 (ff_maxread f) rs) rs;
        rtpref := Z.min (or_default bm 30 (ff_maxread f) rs) rs; rtmult := 4096;
        wtmax := Z.min (or_default bm 31 (ff_maxwrite f) ws) ws;
        wtpref := Z.min (or_default bm 31 (ff_maxwrite f) ws) ws; wtmult := 4096; dtpref := 8192;
        maxfilesize := or_default bm 27 (ff_maxfilesize f) u64_max;
        time_delta := or_default bm 51 (ff_delta f) {| seconds := 0; nseconds := 1 |}; properties := 0x1b |}.
Proof.
  intros [] Hb Hn Hl. unfold fsinfo41. rewrite envelope41_enc by done. cbn [obind]. unfold info_attrs.
  rewrite !laid_cons, !Hn by set_solver. cbn [app]. repeat read_attr. done.
Qed.

(** What a file system says about itself reaches the caller, in both protocol
    versions and for every subset of the optional attributes. A server that lays
    out the requested attributes in the order of their numbers is read back
    exactly by [fsstat], [pathconf] and [fsinfo], an attribute it left out is
    reported by its documented default, and NFSv4.0 and NFSv4.1 agree on
    [fsstat] and [pathconf]. *)
Theorem fs_attributes_read_back f bm rest rs ws :
  facts_ok f -> bitmap_ok bm -> remaining (laid bm (stat_attrs f)) < 2 ^ 32 -> remaining (laid bm (path_attrs f)) < 2 ^ 32 ->
  fsstat41 (xdr_bitmap bm ++ xdr_opaque (laid bm (stat_attrs f)) ++ rest) = Ok (stat_of bm f) /\
  (Forall (fun n => bitmap_has bm n = true) [21; 22; 23; 42; 43; 44] ->
   fsstat40 bm (laid bm (stat_attrs f)) = Ok (stat_of bm f)) /\
  pathconf_with_support (xdr_bitmap bm ++ xdr_opaque (laid bm (path_attrs f)) ++ rest) = Ok (pathconf_of bm f) /\
  (bitmap_has bm 0 = true -> bitmap_has bm 8 = true ->
   query_pathconf bm (laid bm (path_attrs f)) = Ok (pathconf_of bm f)) /\
  (Forall (fun n => bitmap_has bm n = true) [5; 6; 15; 27; 30; 31; 51] ->
   wpo (fsinfo40 rs ws bm (laid bm (info_attrs f))) (fun i =>
     maxfilesize i = ff_maxfilesize f /\ time_delta i = ff_delta f /\
     rtmax i = Z.min (ff_maxread f) rs /\ wtmax i = Z.min (ff_maxwrite f) ws)).
Proof.
  intros Hf Hb Hs Hp. split_and!; intros.
  - by apply fsstat41_reads.
  - by apply fsstat40_reads.
  - by apply pathconf41_reads.
  - by apply query_pathconf_reads.
  - by rewrite fsinfo40_reads.
Qed.

Definition demo_facts : fs_facts :=
  {| ff_link := true; ff_symlink := true; ff_cansettime := true; ff_homogeneous := false; ff_maxfilesize := 2 ^ 40;
     ff_maxread := 65536; ff_maxwrite := 32768; ff_delta := {| seconds := 0; nseconds := 100 |}; ff_afiles := 10;
     ff_ffiles := 20; ff_tfiles := 30; ff_abytes := 1; ff_fbytes := 2; ff_tbytes := 3; ff_supported := [1; 2];
     ff_major := 7; ff_minor := 8; ff_case_insensitive := true; ff_case_preserving := true; ff_chown_restricted := false;
     ff_linkmax := 12; ff_name_max := 200; ff_no_trunc := true |}.
(** All but the limit on names. *)
Definition demo_bitmap : list Z :=
  [foldr Z.lor 0 (map (Z.shiftl 1) [0; 5; 6; 8; 15; 16; 17; 18; 21; 22; 23; 27; 28; 30; 31]); foldr Z.lor 0 (map (Z.shiftl 1) [10; 11; 12; 19])].

Lemma fs_attributes_read_back_witness :
  fsstat41 (xdr_bitmap demo_bitmap ++ xdr_opaque (laid demo_bitmap (stat_attrs demo_facts)) ++ []) = Ok (stat_of demo_bitmap demo_facts).
Proof.
  edestruct (fs_attributes_read_back demo_facts demo_bitmap [] 4096 4096) as [H _]; [..|exact H].
  - split; unfold is_u64, is_u32; cbn; try lia. split; [lia|repeat constructor; lia].
  - split; [cbn; lia|]. repeat constructor; by vm_compute.
  - by vm_compute.
  - by vm_compute.
Defined.

(** ** Totality *)

Lemma wpo_lenient {A} bm n len (def : A) read vals (P : A -> Prop) :
  P def -> (len <= remaining vals -> wpo (read vals) (fun '(v, _) => P v)) ->
  wpo (lenient bm n len def read vals) (fun '(v, _) => P v).
Proof.
  intros Hd Hr. unfold lenient. destruct (bitmap_has bm n); [|done]. cbn [andb].
  destruct (Z.leb_spec len (remaining vals)); [by apply Hr|done].
Qed.
Lemma wpo_lenient_u64 bm n def vals : is_u64 def -> wpo (lenient bm n 8 def get_u64 vals) (fun '(v, _) => is_u64 v).
Proof. intros Hd. apply (wpo_lenient _ _ _ _ _ _ is_u64); [done|]. intros H. wp. done. Qed.
Lemma wpo_lenient_u32 bm n def vals : is_u32 def -> wpo (lenient bm n 4 def get_u32 vals) (fun '(v, _) => is_u32 v).
Proof. intros Hd. apply (wpo_lenient _ _ _ _ _ _ is_u32); [done|]. intros H. wp. done. Qed.
Lemma wpo_lenient_flag bm n def vals : wpo (lenient bm n 4 def read_flag vals) (fun '(_, _) => True).
Proof. apply (wpo_lenient _ _ _ _ _ _ (fun _ => True)); [done|]. intros H. unfold read_flag. wp. done. Qed.

Lemma wpo_envelope41 limit e1 e2 e3 e4 data : wpo (envelope41 limit e1 e2 e3 e4 data) (fun '(bm, _) => Forall is_u32 bm).
Proof.
  unfold envelope41. apply wpo_bind, wpo_require. intros H4. apply wpo_bind, wpo_get_u32; [wp_side|]. intros n d Hn Hd _. cbv beta iota.
  apply wpo_bind. apply (wpo_mono _ (fun _ => True)).
  { destruct limit as [[k e]|]; [|done]. by destruct (k <? n). }
  intros _ _. apply wpo_bind. apply (wpo_collect _ _ is_u32).
  - intros b Hb. wp. split; [done|suffix_tac].
  - intros bm b Hbm _. wp. done.
Qed.

Lemma negotiated_range server_max size : is_u64 server_max -> negotiated_io_size server_max = Ok size -> 0 < size <= MAX_IO_SIZE.
Proof.
  intros Hs. unfold negotiated_io_size. destruct (Z.eqb_spec (Z.min server_max MAX_IO_SIZE) 0) as [|Hn]; [done|]. intros [= <-].
  unfold is_u64, MAX_IO_SIZE in *. lia.
Qed.
Lemma effective_range server_max session_size headroom text size :
  is_u64 server_max ->
  (let* limit := session_limit session_size headroom text in
   let* s := negotiated_io_size server_max in Ok (Z.min s limit)) = Ok size ->
  0 < size <= MAX_IO_SIZE /\ size + headroom <= session_size.
Proof.
  intros Hs. unfold session_limit. destruct (Z.ltb_spec headroom session_size); [|done]. cbn [obind].
  destruct (negotiated_io_size server_max) as [n|e|] eqn:Hn; [|done|done]. cbn [obind]. intros [= <-].
  pose proof (negotiated_range _ _ Hs Hn). lia.
Qed.

Lemma wpo_get_fs_limits max_response_size max_request_size data :
  wpo (get_fs_limits max_response_size max_request_size data) (fun '(rsize, wsize, interval, _) =>
    0 < rsize <= MAX_IO_SIZE /\ rsize + NFS41_READ_RESPONSE_HEADROOM <= max_response_size /\
    0 < wsize <= MAX_IO_SIZE /\ wsize + NFS41_WRITE_REQUEST_HEADROOM <= max_request_size /\ 5 <= interval <= 45).
Proof.
  unfold get_fs_limits. apply wpo_bind. wp_call wpo_envelope41. intros [bm vals] _. apply wpo_bind.
  apply (wpo_mono _ (fun _ => True)).
  { wp; [|done]. bool_hyps. eapply wpo_mono; [apply wpo_get_u32s; ilia|]. by intros [l r]. }
  intros [sup vals1] _. apply wpo_bind. wp_call wpo_lenient_u32; [done|]. intros [secs vals2] _.
  apply wpo_bind. wp_call wpo_lenient_u64; [done|]. intros [mr vals3] Hmr.
  apply wpo_bind. wp_call wpo_lenient_u64; [done|]. intros [mw vals4] Hmw.
  destruct (effective_rsize mr max_response_size) as [r|e|] eqn:Hr; cbn [obind]; [|done|].
  - destruct (effective_wsize mw max_request_size) as [w|e|] eqn:Hw; cbn [obind]; [|done|].
    + apply effective_range in Hr, Hw; [|done|done]. cbn. unfold renewal_interval. lia.
    + exfalso. revert Hw. unfold effective_wsize, session_limit, negotiated_io_size. by repeat case_match.
  - exfalso. revert Hr. unfold effective_rsize, session_limit, negotiated_io_size. by repeat case_match.
Qed.

(** C36: transfer sizes never exceed what the session can carry. When a mount has
    read its limits, a READ reply of [rsize] bytes and a WRITE request of [wsize]
    bytes fit the session with 4 KiB of headroom, both sizes are positive and at
    most 4 MiB, and the renewal period lies between 5 and 45 seconds; no reply
    makes the reader panic. *)
Theorem io_sizes_fit max_response_size max_request_size data :
  wpo (get_fs_limits max_response_size max_request_size data) (fun '(rsize, wsize, interval, _) =>
    0 < rsize <= MAX_IO_SIZE /\ rsize + NFS41_READ_RESPONSE_HEADROOM <= max_response_size /\
    0 < wsize <= MAX_IO_SIZE /\ wsize + NFS41_WRITE_REQUEST_HEADROOM <= max_request_size /\ 5 <= interval <= 45).
Proof. apply wpo_get_fs_limits. Qed.

(** A lease shorter than five seconds runs out before its first renewal. *)
Lemma short_lease_renewed_late lease : 0 <= lease < 5 -> lease < renewal_interval lease.
Proof. intros H. unfold renewal_interval. assert (lease / 2 < 5) by (apply Z.div_lt_upper_bound; lia). lia. Qed.
