(* ===== verification/MountTrait.v ===== *)
(** * The mount as an interface

    Models what [src/src/mount.rs] defines over the trait [Mount], whatever the
    protocol: the intent of an open ([OpenOptions]), an open file with the state
    its protocol keeps ([OpenFile]), and [open_path_guarded], which opens a file by
    path, creates it when it is missing and truncates it when asked. Operations
    are functions of the mount's state that return a result and the new state. *)
From S2P Require Import Prelude Errors Attrs4 Ops41 Lanes40.
From stdpp Require Import base list numbers strings.
#[local] Open Scope Z_scope.

(** ** Operations with a state *)

Definition SM (W A : Type) : Type := W -> result A * W.

Section Monad.
Context {W : Type}.

Definition ret {A} (a : A) : SM W A := fun w => (Ok a, w).
Definition fail {A} (e : NfsError) : SM W A := fun w => (Err e, w).
Definition raise {A} (r : result A) : SM W A := fun w => (r, w).
Definition asks {A} (f : W -> A) : SM W A := fun w => (Ok (f w), w).
Definition andthen {A B} (c : SM W A) (k : A -> SM W B) : SM W B := fun w =>
  match c w with
  | (Ok a, w) => k a w
  | (Err e, w) => (Err e, w)
  | (Panic, w) => (Panic, w)
  end.
(** The result as a value, as in [match result] or [let _ = ...]. *)
Definition caught {A} (c : SM W A) : SM W (result A) := fun w =>
  match c w with
  | (Panic, w) => (Panic, w)
  | (r, w) => (Ok r, w)
  end.
Definition with_error {A} (f : NfsError -> NfsError) (c : SM W A) : SM W A := fun w =>
  let '(r, w) := c w in (map_err f r, w).
End Monad.

Declare Scope sm_scope.
Notation "'let!' x ':=' c 'in' k" := (andthen c (fun x => k))
  (at level 10, x pattern, c at level 100, k at level 200) : sm_scope.
#[local] Open Scope sm_scope.

Lemma andthen_ok {W A B} (c : SM W A) (k : A -> SM W B) w b w' :
  andthen c k w = (Ok b, w') -> exists a w1, c w = (Ok a, w1) /\ k a w1 = (Ok b, w').
Proof. unfold andthen. destruct (c w) as [[a|e|] w1]; [eauto|done|done]. Qed.
Lemma andthen_err {W A B} (c : SM W A) (k : A -> SM W B) w e w' :
  andthen c k w = (Err e, w') -> c w = (Err e, w') \/ exists a w1, c w = (Ok a, w1) /\ k a w1 = (Err e, w').
Proof. unfold andthen. destruct (c w) as [[a|e'|] w1]; [eauto|intros [= <- <-]; by left|done]. Qed.

(** *** Invariants of a computation *)

(** [c] preserves [I], whatever its result. *)
Definition keeps {W A} (I : W -> Prop) (c : SM W A) : Prop := forall w, I w -> I (snd (c w)).

Section Keeps.
Context {W : Type} (I : W -> Prop).

Lemma keeps_ret {A} (a : A) : keeps I (ret a).
Proof. by intros w. Qed.
Lemma keeps_fail {A} e : keeps I (@fail W A e).
Proof. by intros w. Qed.
Lemma keeps_raise {A} (r : result A) : keeps I (raise r).
Proof. by intros w. Qed.
Lemma keeps_asks {A} (f : W -> A) : keeps I (asks f).
Proof. by intros w. Qed.
Lemma keeps_andthen {A B} (c : SM W A) (k : A -> SM W B) :
  keeps I c -> (forall a, keeps I (k a)) -> keeps I (andthen c k).
Proof. intros Hc Hk w Hw. specialize (Hc w Hw). unfold andthen. destruct (c w) as [[a|e|] w1]; [by apply Hk|done..]. Qed.
Lemma keeps_caught {A} (c : SM W A) : keeps I c -> keeps I (caught c).
Proof. intros Hc w Hw. specialize (Hc w Hw). unfold caught. by destruct (c w) as [[] w1]. Qed.
Lemma keeps_with_error {A} f (c : SM W A) : keeps I c -> keeps I (with_error f c).
Proof. intros Hc w Hw. specialize (Hc w Hw). unfold with_error. by destruct (c w). Qed.
Lemma keeps_run {A} (c : SM W A) w r w' : keeps I c -> c w = (r, w') -> I w -> I w'.
Proof. intros Hc E Hw. specialize (Hc w Hw). by rewrite E in Hc. Qed.
End Keeps.

Create HintDb keeps.
#[export] Hint Resolve keeps_ret keeps_fail keeps_raise keeps_asks keeps_caught keeps_with_error : keeps.

(** One step of such a proof: the next call, or the cases of what it returned. *)
Ltac keeps_step :=
  match goal with
  | |- keeps _ _ => solve [eauto with keeps nocore]
  | |- keeps _ (andthen _ _) => apply keeps_andthen; [|intros]
  | |- keeps _ (match ?x with _ => _ end) => destruct x
  end.

(** ** Opening a file *)

Record OpenFile : Type := { of_object : ObjRes; of_state : option bytes }.
Definition from_object (object : ObjRes) : OpenFile := {| of_object := object; of_state := None |}.
Definition with_protocol_state (object : ObjRes) (state : bytes) : OpenFile := {| of_object := object; of_state := Some state |}.
Definition file_handle (f : OpenFile) : bytes := o_fh (of_object f).

Record OpenOptions : Type := { oo_access : Z; oo_create_mode : option Z; oo_truncate : bool }.
Definition validate (o : OpenOptions) : result () :=
  if negb ((oo_access o =? OPEN_READ) || (oo_access o =? OPEN_WRITE) || (oo_access o =? OPEN_BOTH)) ||
     (oo_truncate o && (oo_access o =? OPEN_READ))
  then Err (InvalidInput "invalid stateful open options") else Ok ().

(** The methods of [Mount] that opening uses; [set_size] is [setattr] with only a
    size. *)
Record MountOps (W : Type) : Type := {
  t_lookup_path : bytes -> SM W ObjRes;
  t_open_stateful : bytes -> bytes -> Z -> SM W OpenFile;
  t_open_path_stateful : bytes -> Z -> SM W OpenFile;
  t_set_size : bytes -> Z -> SM W ();
  t_close_stateful : OpenFile -> SM W ();
}.
Arguments t_lookup_path {W}. Arguments t_open_stateful {W}. Arguments t_open_path_stateful {W}.
Arguments t_set_size {W}. Arguments t_close_stateful {W}.

Section Guarded.
Context {W : Type} (mount : MountOps W) (split_path : bytes -> result (bytes * bytes)).

Definition finish_open (file : OpenFile) (truncate : bool) : SM W OpenFile :=
  if truncate then
    let! r := caught (t_set_size mount (file_handle file) 0) in
    match r with
    | Err error => let! _ := caught (t_close_stateful mount file) in fail error
    | _ => ret file
    end
  else ret file.

Definition open_path_guarded (path : bytes) (options : OpenOptions) (create : bytes -> bytes -> SM W OpenFile) : SM W OpenFile :=
  let! _ := raise (validate options) in
  match oo_create_mode options with
  | None =>
      let! file := t_open_path_stateful mount path (oo_access options) in
      finish_open file (oo_truncate options)
  | Some _ =>
      let! (dir, name) := raise (split_path path) in
      let! obj := t_lookup_path mount dir in
      let parent := o_fh obj in
      let! opened := caught (t_open_stateful mount parent name (oo_access options)) in
      match opened with
      | Ok file => finish_open file (oo_truncate options)
      | Err error =>
          if is_not_found error then
            let! created := caught (create parent name) in
            match created with
            | Ok file => ret file
            | Err error =>
                if is_exist error then
                  let! file := t_open_stateful mount parent name (oo_access options) in
                  finish_open file (oo_truncate options)
                else fail error
            | Panic => raise Panic
            end
          else fail error
      | Panic => raise Panic
      end
  end.

(** ** No open file is leaked *)

(** How each method changes the number of open files: an open or a creation that
    succeeds adds one, a close that succeeds takes one, and nothing else does. *)
Class Counted (opens : W -> Z) (create : bytes -> bytes -> SM W OpenFile) : Prop := {
  cn_lookup : forall p w r w', t_lookup_path mount p w = (r, w') -> opens w' = opens w;
  cn_open : forall d n a w r w', t_open_stateful mount d n a w = (r, w') -> opens w' = opens w + (if is_ok r then 1 else 0);
  cn_open_path : forall p a w r w', t_open_path_stateful mount p a w = (r, w') -> opens w' = opens w + (if is_ok r then 1 else 0);
  cn_size : forall fh n w r w', t_set_size mount fh n w = (r, w') -> opens w' = opens w;
  cn_close : forall f w w', t_close_stateful mount f w = (Ok (), w') -> opens w' = opens w - 1;
  cn_create : forall d n w r w', create d n w = (r, w') -> opens w' = opens w + (if is_ok r then 1 else 0);
}.

(** The call ended in a close that failed. *)
Definition close_failed (w' : W) : Prop := exists f w e, t_close_stateful mount f w = (Err e, w').

Context (opens : W -> Z) (create : bytes -> bytes -> SM W OpenFile) `{HC : !Counted opens create}.

Lemma finish_open_outcome file truncate w r w' :
  finish_open file truncate w = (r, w') ->
  match r with
  | Ok f => f = file /\ opens w' = opens w /\ (truncate = true -> t_set_size mount (file_handle file) 0 w = (Ok (), w'))
  | Err _ => opens w' = opens w - 1 \/ close_failed w'
  | Panic => True
  end.
Proof.
  unfold finish_open. destruct truncate; [|by intros [= <- <-]]. unfold andthen at 1, caught at 1.
  destruct (t_set_size mount (file_handle file) 0 w) as [[[]|e|] w1] eqn:Hs; pose proof (cn_size _ _ _ _ _ Hs) as Hn.
  - intros [= <- <-]. done.
  - unfold andthen, caught. destruct (t_close_stateful mount file w1) as [[[]|e'|] w2] eqn:Hc; intros [= <- <-].
    + left. rewrite (cn_close _ _ _ Hc). lia.
    + right. by exists file, w1, e'.
    + done.
  - by intros [= <- <-].
Qed.

(** What the caller gets and how many files are open afterwards. *)
Definition guarded_post (options : OpenOptions) (w : W) (r : result OpenFile) (w' : W) : Prop :=
  match r with
  | Ok f => opens w' = opens w + 1 /\
            ((exists d n w1, create d n w1 = (Ok f, w')) \/
             (oo_truncate options = true -> exists w1, t_set_size mount (file_handle f) 0 w1 = (Ok (), w')))
  | Err _ => opens w' = opens w \/ close_failed w'
  | Panic => True
  end.

Lemma opened_post options file w w1 r w' :
  opens w1 = opens w + 1 -> finish_open file (oo_truncate options) w1 = (r, w') -> guarded_post options w r w'.
Proof.
  intros Ho H. apply finish_open_outcome in H. destruct r as [f|e|]; cbn; [|destruct H; [left; lia|by right]|done].
  destruct H as (-> & Hn & Ht). split; [lia|]. right. intros Htr. by exists w1; apply Ht.
Qed.

Lemma open_existing_post options d n w w0 r w' :
  opens w0 = opens w ->
  andthen (t_open_stateful mount d n (oo_access options)) (fun file => finish_open file (oo_truncate options)) w0 = (r, w') ->
  guarded_post options w r w'.
Proof.
  intros H0. unfold andthen. destruct (t_open_stateful mount d n (oo_access options) w0) as [[f|e|] w1] eqn:Ho;
    pose proof (cn_open _ _ _ _ _ _ Ho) as Hn; cbn [is_ok] in Hn.
  - apply opened_post. lia.
  - intros [= <- <-]. left. lia.
  - by intros [= <- <-].
Qed.

Lemma create_post options d n w w0 r w' :
  opens w0 = opens w ->
  andthen (caught (create d n)) (fun created =>
    match created with
    | Ok file => ret file
    | Err error =>
        if is_exist error then
          andthen (t_open_stateful mount d n (oo_access options)) (fun file => finish_open file (oo_truncate options))
        else fail error
    | Panic => raise Panic
    end) w0 = (r, w') ->
  guarded_post options w r w'.
Proof.
  intros H0. unfold andthen at 1, caught. destruct (create d n w0) as [[f|e|] w1] eqn:Hc;
    pose proof (cn_create _ _ _ _ _ Hc) as Hn; cbn [is_ok] in Hn.
  - intros [= <- <-]. split; [lia|]. left. by exists d, n, w0.
  - destruct (is_exist e); [apply open_existing_post; lia|]. intros [= <- <-]. left. lia.
  - by intros [= <- <-].
Qed.

(** Opening by path leaks no open file and truncates only what it did not
    create. When [open_path_guarded] succeeds exactly one more file is open, and
    either this call created it, or truncation was not asked for, or setting the
    size to zero succeeded as its last effect. When it fails as many files are
    open as before, unless the close after a failed truncation failed itself.
    Losing the race against another creator is covered. *)
Theorem guarded_open_accounts path options w r w' :
  open_path_guarded path options create w = (r, w') -> guarded_post options w r w'.
Proof.
  unfold open_path_guarded. unfold andthen at 1, raise at 1. destruct (validate options) as [[]|e|]; [|by intros [= <- <-]; left|by intros [= <- <-]].
  destruct (oo_create_mode options) as [mode|].
  - unfold andthen at 1, raise at 1. destruct (split_path path) as [[dir name]|e|]; [|by intros [= <- <-]; left|by intros [= <- <-]].
    unfold andthen at 1. destruct (t_lookup_path mount dir w) as [[obj|e|] w1] eqn:Hl; pose proof (cn_lookup _ _ _ _ Hl) as Hn;
      [|by intros [= <- <-]; left|by intros [= <- <-]].
    unfold andthen at 1, caught at 1.
    destruct (t_open_stateful mount (o_fh obj) name (oo_access options) w1) as [[f|e|] w2] eqn:Ho;
      pose proof (cn_open _ _ _ _ _ _ Ho) as Hn2; cbn [is_ok] in Hn2.
    + apply opened_post. lia.
    + destruct (is_not_found e); [apply create_post; lia|]. intros [= <- <-]. left. lia.
    + by intros [= <- <-].
  - unfold andthen at 1. destruct (t_open_path_stateful mount path (oo_access options) w) as [[f|e|] w1] eqn:Ho;
      pose proof (cn_open_path _ _ _ _ _ Ho) as Hn; cbn [is_ok] in Hn.
    + apply opened_post. lia.
    + intros [= <- <-]. left. lia.
    + by intros [= <- <-].
Qed.
End Guarded.

(** A mount whose files another client creates between the open and the creation. *)
Definition racing_file : OpenFile := from_object {| o_fh := of_str "f"; o_attr := None |}.
Definition racing_mount : MountOps (Z * bool) :=
  {| t_lookup_path := fun _ => ret {| o_fh := of_str "d"; o_attr := None |};
     t_open_stateful := fun _ _ _ w => if w.2 : bool then (Ok racing_file, (w.1 + 1, w.2)) else (Err (Nfs4 NFS4ERR_NOENT), (w.1, true));
     t_open_path_stateful := fun _ _ => fail (Nfs4 NFS4ERR_NOENT);
     t_set_size := fun _ _ => fail (Nfs4 NFS4ERR_ACCESS);
     t_close_stateful := fun _ w => (Ok (), (w.1 - 1, w.2)) |}.
Definition racing_create (_ _ : bytes) : SM (Z * bool) OpenFile := fail (Nfs4 NFS4ERR_EXIST).
Definition racing_options : OpenOptions := {| oo_access := 3; oo_create_mode := Some 420; oo_truncate := true |}.

Lemma racing_counted : Counted racing_mount fst racing_create.
Proof.
  split; cbn.
  - by intros p w r w' [= <- <-].
  - intros d n a [k there] r w'. destruct there; intros [= <- <-]; cbn; lia.
  - intros p a w r w' [= <- <-]. cbn. lia.
  - by intros fh n w r w' [= <- <-].
  - intros f [k there] w' [= <-]. cbn. lia.
  - intros d n w r w' [= <- <-]. cbn. lia.
Qed.

Lemma guarded_open_accounts_witness :
  guarded_post racing_mount fst racing_create racing_options (0, false)
    (open_path_guarded racing_mount (fun p => Ok (p, p)) (of_str "x") racing_options racing_create (0, false)).1
    (open_path_guarded racing_mount (fun p => Ok (p, p)) (of_str "x") racing_options racing_create (0, false)).2 /\
  (open_path_guarded racing_mount (fun p => Ok (p, p)) (of_str "x") racing_options racing_create (0, false)).1 = Err (Nfs4 NFS4ERR_ACCESS).
Proof.
  split; [|by vm_compute]. pose proof racing_counted.
  apply (guarded_open_accounts racing_mount (fun p => Ok (p, p)) fst racing_create (of_str "x")).
  by destruct (open_path_guarded _ _ _ _ _ _).
Defined.
