(* ===== verification/Ops40.v ===== *)
(** * File operations of NFSv4.0

    Models the operations of [Mount40] in [src/src/nfs40/mount.rs] other than OPEN,
    CLOSE, LOCK and LOCKU themselves, which are in Lanes40: attributes, names,
    reading and writing, COMMIT, ACLs, creation by path and unmounting, and the
    calls they go through, which resend a COMPOUND while the server is busy.

    An operation is a function of the mount and returns a result and the new
    mount. A call of the transport may change the whole state, which covers what
    other tasks do while the operation waits. The locks that order I/O and recalls
    of a file are left out. *)
From Stdlib Require Import Strings.Byte.
From S2P Require Import Prelude Errors Xdr4 Acl4 Attrs4 V42 PnfsIo Ops41 Compound40 Lease40 Lanes40 Rpc Callback40 Listing FsInfo MountTrait.
From stdpp Require Import base list numbers strings gmap.
#[local] Open Scope Z_scope.
#[local] Open Scope sm_scope.

Module Mount40Ops.

Definition SAFE_REPLAY : ReplayPolicy := {| max_attempts := 2 |}.

(** The fields of [Mount40] that do not change. *)
Record Config40 : Type := {
  c_root_fh : bytes; c_dircount : Z; c_maxcount : Z; c_rsize : Z; c_wsize : Z; c_acl_supported : bool
}.

(** [{:#x}] *)
Fixpoint drop_zeros (l : bytes) : bytes :=
  match l with
  | [] | [_] => l
  | c :: rest => if bool_decide (c = x30) then drop_zeros rest else l
  end.

Section Ops.
Context {X : Type}.

(** The mount, its lease, the callback state when delegations are kept, and the
    rest: the transport, the server, the clock. *)
Record World : Type := { w_mount : Mount40; w_lease : LeaseState; w_callback : option CallbackState; w_ext : X }.

Abbreviation M := (SM World).

(** What the operations use: one call of the transport, the wait before a resend,
    the clock, OPEN and CLOSE of Lanes40, and the end of the tasks at unmount. *)
Record Engine40 : Type := {
  call_with_data : bytes -> bytes -> ReplayPolicy -> M bytes;
  budget_backoff : RequestContext -> NfsError -> M ();
  clock : World -> Z;
  open_with_create : bytes -> bytes -> Z -> bool -> bool -> option Z -> M (bytes * bytes);
  close_lane : ref -> M ();
  return_all_delegations : M ();
  stop_services : M ();
  stop_transport : M ();
}.

Context (cfg : Config40) (eng : Engine40).

(** ** Calls *)

(** [fuel] bounds the resends; the budget of [backoff] ends the loop before. *)
Fixpoint call_with_busy_retry (fuel : nat) (request data : bytes) (replay : ReplayPolicy) (ctx : RequestContext) : M bytes :=
  match fuel with
  | O => fun w => (Panic, w)
  | S fuel =>
      let! reply := call_with_data eng request data replay in
      let! busy := raise (V40.retryable_busy_response reply request) in
      match busy with
      | None => ret reply
      | Some error => let! _ := budget_backoff eng ctx error in call_with_busy_retry fuel request data replay ctx
      end
  end.

Context (fuel : nat).

Definition settled_call (request : bytes) (c : OperationClass) (ctx : RequestContext) : M bytes :=
  with_error (classify_sent_nfs40_error c ctx) (call_with_busy_retry fuel request [] ONE_ATTEMPT ctx).
Definition activity_settled_call := settled_call.
Definition activity_call (request : bytes) (replay : ReplayPolicy) : M bytes :=
  call_with_busy_retry fuel request [] replay {| operation := "compound"; protocol := NFSv4p0; request_id := None |}.

Definition encode (b : Builder40.CompoundBuilder) (w : World) : bytes := encode_with_header40 b (m_auth (w_mount w)).
Definition at_fh (tag : string) (fh : bytes) : Builder40.CompoundBuilder := Builder40.putfh (V40.new40 (of_str tag)) fh.

(** A request that changes nothing, and one that is sent once. *)
Definition query (b : Builder40.CompoundBuilder) : M bytes :=
  let! request := asks (encode b) in activity_call request SAFE_REPLAY.
Definition settled (name : string) (b : Builder40.CompoundBuilder) : M bytes :=
  let! request := asks (encode b) in activity_settled_call request ReplaySensitive (context40 name 0 0).
Definition settle {A} (name : string) (r : result A) : M A :=
  raise (map_err (classify_sent_nfs40_error ReplaySensitive (context40 name 0 0)) r).

(** ** The lease *)

Definition begin_op (operation : string) : M Z := fun w =>
  (match begin_stateful [(w_lease w, w_lease w, w_lease w)] operation with Some r => r | None => Panic end, w).
Definition set_lease (w : World) (l : LeaseState) : World :=
  {| w_mount := w_mount w; w_lease := l; w_callback := w_callback w; w_ext := w_ext w |}.
Definition set_mount (w : World) (m : Mount40) : World :=
  {| w_mount := m; w_lease := w_lease w; w_callback := w_callback w; w_ext := w_ext w |}.
Definition set_callback (w : World) (c : option CallbackState) : World :=
  {| w_mount := w_mount w; w_lease := w_lease w; w_callback := c; w_ext := w_ext w |}.
Definition finish_op (generation : Z) (operation : string) : M () := fun w =>
  let '(r, l) := finish_stateful (w_lease w) generation operation (clock eng w) in (r, set_lease w l).
Definition validate_op (generation : Z) (operation : string) : M () := fun w =>
  (validate_stateful (w_lease w) generation operation, w).

(** The open file that has this access, if there is one. *)
Definition for_fh (fh : bytes) (required : Z) (w : World) : option ref :=
  OpenState.for_fh (m_state (w_mount w)) (m_open_heap (w_mount w)) fh required.
Definition read_lane (r : ref) : M OwnerLane := fun w =>
  match m_open_heap (w_mount w) !! r with Some lane => (Ok lane, w) | None => (Panic, w) end.

(** ** Attributes *)

(** The attributes a delegation caches are dropped before a change and read again
    after it. *)
Definition mark_unknown (fh : bytes) : M bool := fun w =>
  match w_callback w with
  | Some s => let '(b, s) := mark_attributes_unknown s fh in (Ok b, set_callback w (Some s))
  | None => (Ok false, w)
  end.
Definition query_callback_attributes (fh : bytes) : M (Z * Z) :=
  let! request := asks (encode (V40.getattr (at_fh "delegation-getattr" fh) CALLBACK_GETATTR_BITMAP)) in
  let! response := call_with_data eng request [] SAFE_REPLAY in
  raise (let* data := V40.decode_getattr_response response in decode_callback_attributes data).
Definition refresh_callback_attributes (fh : bytes) : M () :=
  let! callbacks := asks w_callback in
  match callbacks with
  | None => ret ()
  | Some _ =>
      let! r := caught (query_callback_attributes fh) in
      match r with
      | Ok (change, size) => fun w => (Ok (), set_callback w (option_map (fun s => publish_attributes s fh change size) (w_callback w)))
      | _ => ret ()
      end
  end.

Definition query_fattrs (fh : bytes) (bitmap : list Z) (label : string) : M (list Z * bytes) :=
  let! response := query (V40.getattr (at_fh label fh) bitmap) in
  raise (let* data := V40.decode_getattr_response response in
        let* (bm, values, _) := decode_fattr4_envelope data label in Ok (bm, values)).

Definition set_encoded_attributes (operation : string) (fh : bytes) (bitmap : list Z) (values : bytes)
    (invalidate_cached_attributes : bool) : M () :=
  let! _ := (if invalidate_cached_attributes then let! _ := mark_unknown fh in ret () else ret ()) in
  let! lane := asks (for_fh fh OPEN_WRITE) in
  let! (stateid, expected_generation) :=
    (match lane with
     | Some r => let! lane := read_lane r in let! g := begin_op operation in ret (ol_stateid lane, Some g)
     | None => ret (zeros 16, None)
     end) in
  let! response := settled operation (V40.setattr (at_fh operation fh) stateid bitmap values) in
  let! _ := settle operation (V40.decode_setattr_response response bitmap) in
  match expected_generation with Some g => finish_op g operation | None => ret () end.

Definition getattr (fh : bytes) : M Attr :=
  let! response := query (V40.getattr (at_fh "getattr" fh) standard_getattr_bitmap) in
  raise (let* data := V40.decode_getattr_response response in
        let* (attr, _) := decode_getattr_response data in Ok attr).

Definition setattr (fh : bytes) (guard_ctime : option Time) (mode uid gid size : option Z) (atime mtime : option Time) : M () :=
  match guard_ctime with
  | Some _ => fail (Unsupported "NFSv4.0 guarded SETATTR is not representable by RFC 7530 SETATTR")
  | None =>
      let '(bitmap, values) := encode_setattr mode uid gid size atime mtime in
      match bitmap with
      | [] => ret ()
      | _ =>
          let! _ := set_encoded_attributes "setattr" fh bitmap values true in
          refresh_callback_attributes fh
      end
  end.
Definition set_mode_only (fh : bytes) (mode : option Z) : M () := setattr fh None mode None None None None None.

Definition getacl (fh : bytes) : M Acl :=
  let! r := caught (let! response := query (V40.getattr (at_fh "getacl" fh) [Z.shiftl 1 12]) in
                     raise (let* data := V40.decode_getattr_response response in
                           let* (a, _) := decode_getattr_acl data in Ok a)) in
  raise (attrnotsupp_as_unsupported "GETACL" r).
Definition setacl (fh : bytes) (acl_value : Acl) : M () :=
  let '(bitmap, values) := encode_setattr_acl acl_value in
  let! r := caught (set_encoded_attributes "setacl" fh bitmap values false) in
  raise (attrnotsupp_as_unsupported "SETACL" r).
Definition aclsupport (fh : bytes) : M Z :=
  let! response := query (V40.getattr (at_fh "aclsupport" fh) [Z.shiftl 1 13]) in
  raise (let* data := V40.decode_getattr_response response in
        let* (a, _) := decode_getattr_aclsupport data in Ok a).

Definition bits (l : list Z) : Z := foldr Z.lor 0 (map (Z.shiftl 1) l).
Definition fsinfo : M FSInfo :=
  let! (bitmap, values) := query_fattrs (c_root_fh cfg) [bits [5; 6; 15; 26; 27; 30; 31]; bits [19]] "fsinfo" in
  raise (fsinfo40 (c_rsize cfg) (c_wsize cfg) bitmap values).
Definition fsstat : M FSStat :=
  let! (bitmap, values) := query_fattrs (c_root_fh cfg) [bits [21; 22; 23]; bits [10; 11; 12]] "fsstat" in
  raise (fsstat40 bitmap values).
Definition pathconf_with_support (fh : bytes) : M SupportedPathconf :=
  let fh := if bool_decide (fh = []) then c_root_fh cfg else fh in
  let! (bitmap, values) := query_fattrs fh [bits [0; 8; 16; 17; 18; 28; 29]; bits [2]] "pathconf" in
  raise (query_pathconf bitmap values).
Definition pathconf (fh : bytes) : M Pathconf :=
  let! r := pathconf_with_support fh in ret (sp_values r).

Definition access (fh : bytes) (mode : Z) : M Z :=
  if negb (Z.land mode (Z.lxor 0x3f u32_max) =? 0)
  then fail (InvalidInput ("NFSv4 ACCESS mask contains unknown bits: 0x" +:+ to_str (drop_zeros (hex16 mode))))
  else
    let! response := query (V40.access (at_fh "access" fh) mode) in
    raise (let* (_, granted) := V40.decode_access_response response in Ok granted).

(** ** Names *)

Definition lookup (dir_fh filename : bytes) : M ObjRes :=
  let! response := query (V40.getattr (Builder40.getfh (Builder40.lookup (at_fh "lookup" dir_fh) filename)) standard_getattr_bitmap) in
  raise (let* (fh, data) := V40.decode_lookup_getattr_response response in
        let* (attr, _) := decode_getattr_response data in
        Ok {| o_fh := fh; o_attr := Some attr |}).
(** [path.split('/').filter(|part| !part.is_empty())] *)
Definition parts (path : bytes) : list bytes := List.filter (fun c => negb (bool_decide (c = []))) (split_slash [] path).
Fixpoint lookup_parts (object : ObjRes) (l : list bytes) : M ObjRes :=
  match l with
  | [] => ret object
  | component :: l => let! object := lookup (o_fh object) component in lookup_parts object l
  end.
Definition lookup_path (path : bytes) : M ObjRes :=
  lookup_parts {| o_fh := c_root_fh cfg; o_attr := None |} (parts path).

Definition setattr_path (path : bytes) (specify_guard : bool) (mode uid gid size : option Z) (atime mtime : option Time) : M () :=
  let! object := lookup_path path in
  let! guard := (if specify_guard then let! a := getattr (o_fh object) in ret (Some (a_ctime a)) else ret None) in
  setattr (o_fh object) guard mode uid gid size atime mtime.

Definition readlink (fh : bytes) : M bytes :=
  let! response := query (V40.readlink (at_fh "readlink" fh)) in
  raise (V40.decode_readlink_response response).

Definition remove (dir_fh filename : bytes) : M () :=
  let! response := settled "remove" (V40.remove (at_fh "remove" dir_fh) filename) in
  settle "remove" (V40.decode_remove_response response).
Definition rmdir (dir_fh dirname : bytes) : M () := remove dir_fh dirname.
Definition rename (from_dir_fh from_filename to_dir_fh to_filename : bytes) : M () :=
  let! response := settled "rename"
    (V40.rename (Builder40.putfh (V40.savefh (at_fh "rename" from_dir_fh)) to_dir_fh) from_filename to_filename) in
  settle "rename" (V40.decode_rename_response response).
Definition link (src_fh dst_dir_fh dst_filename : bytes) : M Attr :=
  let! response := settled "link"
    (V40.link (Builder40.putfh (V40.savefh (at_fh "link" src_fh)) dst_dir_fh) dst_filename) in
  let! _ := settle "link" (V40.decode_link_response response) in
  getattr src_fh.

Definition classify_create_compound_error (response : bytes) (c : OperationClass) (ctx : RequestContext) (error : NfsError) : NfsError :=
  if V40.create_succeeded_before_compound_failure response
  then OperationOutcome (OperationOutcomeError_new Uncertain c VerifyThenResume ctx error)
  else classify_sent_nfs40_error c ctx error.
(** CREATE, GETFH and GETATTR, and what they answered. *)
Definition create_object (name : string) (b : Builder40.CompoundBuilder) : M ObjRes :=
  let! response := settled name (V40.getattr (Builder40.getfh b) standard_getattr_bitmap) in
  raise (let* (fh, data) := map_err (classify_create_compound_error response ReplaySensitive (context40 name 0 0))
                             (V40.decode_create_response response) in
        let* (attr, _) := decode_getattr_response data in
        Ok {| o_fh := fh; o_attr := Some attr |}).
Definition symlink (src_path dst_dir_fh dst_filename : bytes) : M ObjRes :=
  create_object "symlink" (V40.create_symlink (at_fh "symlink" dst_dir_fh) dst_filename src_path).
Definition mkdir (dir_fh dirname : bytes) (mode : Z) : M ObjRes :=
  let! object := create_object "mkdir" (V40.create_directory (at_fh "mkdir" dir_fh) dirname) in
  let! r := caught (set_mode_only (o_fh object) (Some mode)) in
  match r with
  | Err error => let! _ := caught (remove dir_fh dirname) in fail error
  | _ => ret {| o_fh := o_fh object; o_attr := option_map (set_mode mode) (o_attr object) |}
  end.

(** ** Reading and writing *)

Definition closing_error : NfsError := InvalidInput "NFSv4.0 open state is closing or closed".

Definition read (fh : bytes) (offset count : Z) : M bytes :=
  if count =? 0 then ret []
  else
    let! lane := asks (for_fh fh OPEN_READ) in
    match lane with
    | None =>
        let! response := query (V40.read (at_fh "read" fh) (zeros 16) offset count) in
        raise (V40.decode_read_response response)
    | Some r =>
        let! expected_generation := begin_op "read" in
        let! lane := read_lane r in
        if ol_closing lane then fail closing_error
        else
          let! request := asks (encode (V40.read (at_fh "read" fh) (ol_stateid lane) offset count)) in
          let! response := call_with_busy_retry fuel request [] SAFE_REPLAY
                             {| operation := "read"; protocol := NFSv4p0; request_id := None |} in
          let! data := raise (V40.decode_read_response response) in
          let! _ := finish_op expected_generation "read" in
          ret data
    end.

Definition write_with_stability (fh : bytes) (offset : Z) (data : bytes) (stable : Z) : M (Z * Z * bytes) :=
  let! expected_generation := begin_op "write" in
  if u32_max <? remaining data then fail (InvalidInput "WRITE data exceeds u32::MAX")
  else
    let! lane := asks (for_fh fh OPEN_WRITE) in
    match lane with
    | None => fail (InvalidInput "NFSv4.0 WRITE requires an open file")
    | Some r =>
        let! refresh_delegation_attributes := mark_unknown fh in
        let! lane := read_lane r in
        if ol_closing lane then fail closing_error
        else
          let! request := asks (encode (V40.write_header (at_fh "write" fh) (ol_stateid lane) offset stable (remaining data))) in
          let ctx := context40 "write" (ol_owner lane) (ol_next_seqid lane) in
          let! response := with_error (classify_sent_nfs40_error ReplaySensitive ctx)
                             (call_with_busy_retry fuel request data ONE_ATTEMPT ctx) in
          let! (count, committed, verifier) :=
            raise (map_err (classify_sent_nfs40_error ReplaySensitive ctx) (V40.decode_write_response response)) in
          let! _ := finish_op expected_generation "write" in
          if remaining data <? count then fail (Xdr "WRITE count exceeds request length")
          else
            let! _ := (if (refresh_delegation_attributes : bool) then refresh_callback_attributes fh else ret ()) in
            ret (count, committed, verifier)
    end.
Definition write_how (fh : bytes) (offset : Z) (data : bytes) (stable : Z) : M WriteOutcome :=
  let! (count, committed, verifier) := write_with_stability fh offset data stable in
  let! c := raise (WriteCommitted_try_from committed) in
  ret {| wo_count := count; wo_committed := c; wo_verifier := Some verifier; wo_pnfs := None |}.
(** [Unstable] is 0. *)
Definition write (fh : bytes) (offset : Z) (data : bytes) : M WriteOutcome := write_how fh offset data 0.

Definition commit_verifier (fh : bytes) (offset count : Z) : M bytes :=
  let! response := settled "commit" (V40.commit (at_fh "commit" fh) offset count) in
  settle "commit" (V40.decode_commit_response response).
Definition forget_verifier (l : OwnerLane) : OwnerLane :=
  {| ol_owner := ol_owner l; ol_next_seqid := ol_next_seqid l; ol_stateid := ol_stateid l; ol_fh := ol_fh l;
     ol_access := ol_access l; ol_write_verifier := None; ol_closing := ol_closing l |}.
Definition commit_with_verifier (fh : bytes) (offset count : Z) : M (option bytes) :=
  let! lane := asks (for_fh fh OPEN_WRITE) in
  let! expected_generation := (match lane with Some _ => let! g := begin_op "commit" in ret (Some g) | None => ret None end) in
  let! verifier := commit_verifier fh offset count in
  let! _ := (match expected_generation with Some g => validate_op g "commit" | None => ret () end) in
  match lane with
  | None => ret (Some verifier)
  | Some r =>
      let! lane := read_lane r in
      if match ol_write_verifier lane with Some expected => negb (bool_decide (expected = verifier)) | None => false end
      then fail (write_verifier_changed NFSv4p0)
      else fun w => (Ok (Some verifier), set_mount w (set_open (w_mount w) r (forget_verifier lane)))
  end.
Definition commit (fh : bytes) (offset count : Z) : M () :=
  let! _ := commit_with_verifier fh offset count in ret ().

(** LOCKT with a fresh owner. *)
Definition lock_test (fh : bytes) (lock_type offset length : Z) : M () :=
  if negb ((lock_type =? 1) || (lock_type =? 2)) || (length =? 0)
  then fail (InvalidInput "LOCKT requires type 1/2 and non-zero length")
  else
    let! owner := (fun w => (Ok (m_next_owner (w_mount w)),
                             set_mount w (set_next_owner (w_mount w) (wrap64 (m_next_owner (w_mount w) + 1))))) in
    let! m := asks w_mount in
    let owner_wire := of_str "nfs-rs-lockt-" ++ hex16 (m_issuer m) ++ of_str "-" ++ hex16 owner in
    let! response := query (V40.lockt (at_fh "lockt" fh) lock_type offset length (m_client_id m) owner_wire) in
    raise (V40.decode_lockt_response response).

(** The answer of a directory request, checked against the size it was asked for. *)
Definition readdir_payload (fh : bytes) (cookie : Z) (verifier : bytes) (bitmap : list Z) : M bytes :=
  let! response := query (V40.readdir (at_fh "readdir" fh) cookie verifier (c_dircount cfg) (c_maxcount cfg) bitmap) in
  raise (let* payload := V40.decode_readdir_response response in validate_readdir_payload payload (c_maxcount cfg)).
Definition readdir_page (fh : bytes) (cookie : Z) (verifier : bytes) : M (list (result ReaddirEntry) * Z * bytes * bool) :=
  let! data := readdir_payload fh cookie verifier [Z.shiftl 1 20] in
  raise (decode_page40 entry40 cookie data).
Definition fetch_readdirplus_page (fh : bytes) (cookie : Z) (verifier : bytes) : M (list (result ReaddirplusEntry) * Z * bytes * bool) :=
  let! data := readdir_payload fh cookie verifier standard_getattr_bitmap in
  raise (decode_page40 plus_entry40 cookie data).

(** ** Opening and creating *)

Definition open_file (dir_fh filename : bytes) (access : Z) (create : bool) : M OpenFile :=
  let! (fh, state) := open_with_create eng dir_fh filename access create false None in
  ret (with_protocol_state {| o_fh := fh; o_attr := None |} state).
Definition open_stateful (dir_fh filename : bytes) (access : Z) : M OpenFile := open_file dir_fh filename access false.
Definition open (dir_fh filename : bytes) (access : Z) : M ObjRes :=
  let! file := open_stateful dir_fh filename access in ret (of_object file).

(** [close] and [close_stateful] up to the lane. *)
Definition close (fh : bytes) : M () :=
  let! held := asks (fun w => LockState.has_fh (m_locks (w_mount w)) (m_lock_heap (w_mount w)) fh) in
  if (held : bool) then fail locks_held
  else
    let! lane := asks (for_fh fh OPEN_BOTH) in
    match lane with
    | None => fail (InvalidInput "NFSv4.0 CLOSE requires an open file")
    | Some r => close_lane eng r
    end.
Definition close_stateful (file : OpenFile) : M () :=
  let fh := file_handle file in
  let! held := asks (fun w => LockState.has_fh (m_locks (w_mount w)) (m_lock_heap (w_mount w)) fh) in
  if (held : bool) then fail locks_held
  else
    match of_state file with
    | None => fail (InvalidInput "open file has no NFSv4.0 owner state")
    | Some state =>
        match decode_owner state with
        | None => fail (InvalidInput "invalid NFSv4.0 open state")
        | Some (issuer, owner) =>
            let! m := asks w_mount in
            if negb (issuer =? m_issuer m) then fail (InvalidInput "open file belongs to another mount generation")
            else
              match OpenState.by_owner (m_state m) owner with
              | None => fail (InvalidInput "NFSv4.0 open state is closed or stale")
              | Some r =>
                  let! lane := read_lane r in
                  if negb (bool_decide (ol_fh lane = fh)) then fail (InvalidInput "NFSv4.0 open state filehandle mismatch")
                  else close_lane eng r
              end
        end
    end.

Definition attrnotsupp (e : NfsError) : bool := match e with Nfs4 NFS4ERR_ATTRNOTSUPP => true | _ => false end.
Definition open_guarded (dir_fh filename : bytes) (access : Z) (mode : option Z) : M OpenFile :=
  let open_with mode :=
    let! (fh, state) := open_with_create eng dir_fh filename access true true mode in
    ret (with_protocol_state {| o_fh := fh; o_attr := None |} state) in
  let! first := caught (open_with mode) in
  match first with
  | Err error =>
      if attrnotsupp error && bool_decide (is_Some mode) then
        let! file := open_with None in
        let! r := caught (set_mode_only (file_handle file) mode) in
        match r with
        | Err error => let! _ := caught (close_stateful file) in fail error
        | _ => ret file
        end
      else fail error
  | r => raise r
  end.

Definition create (dir_fh filename : bytes) (mode : option Z) : M ObjRes :=
  let! opened := open_file dir_fh filename OPEN_BOTH true in
  let fh := file_handle opened in
  let! failed :=
    (match mode with
     | None => ret None
     | Some m => let! r := caught (set_mode_only fh (Some m)) in ret (match r with Err e => Some e | _ => None end)
     end) in
  match failed with
  | Some error => let! _ := caught (close fh) in fail error
  | None => let! attr := getattr fh in ret {| o_fh := fh; o_attr := Some attr |}
  end.

(** ** Paths *)

Context (split_path : bytes -> result (bytes * bytes)).

Definition in_parent {A} (path : bytes) (k : bytes -> bytes -> M A) : M A :=
  let! (dir, name) := raise (split_path path) in
  let! parent := lookup_path dir in
  k (o_fh parent) name.
Definition open_path_stateful (path : bytes) (access : Z) : M OpenFile :=
  in_parent path (fun parent name => open_stateful parent name access).
Definition open_path (path : bytes) (access : Z) : M ObjRes :=
  let! file := open_path_stateful path access in ret (of_object file).
Definition create_path (path : bytes) (mode : option Z) : M ObjRes :=
  in_parent path (fun parent name => create parent name mode).
Definition create_path_stateful_with_access (path : bytes) (mode : option Z) (access : Z) : M OpenFile :=
  in_parent path (fun parent name =>
    let! opened := open_file parent name access true in
    match mode with
    | None => ret opened
    | Some m =>
        let! r := caught (set_mode_only (file_handle opened) (Some m)) in
        match r with
        | Err error => let! _ := caught (close_stateful opened) in fail error
        | _ => ret opened
        end
    end).
Definition create_path_stateful (path : bytes) (mode : option Z) : M OpenFile :=
  create_path_stateful_with_access path mode OPEN_BOTH.
Definition remove_path (path : bytes) : M () := in_parent path remove.
Definition rmdir_path (path : bytes) : M () := remove_path path.
Definition mkdir_path (path : bytes) (mode : Z) : M ObjRes := in_parent path (fun parent name => mkdir parent name mode).
Definition symlink_path (src_path dst_path : bytes) : M ObjRes := in_parent dst_path (symlink src_path).
Definition link_path (src_path dst_path : bytes) : M Attr :=
  let! source := lookup_path src_path in
  in_parent dst_path (link (o_fh source)).
Definition rename_path (from_path to_path : bytes) : M () :=
  let! (from_dir, from_name) := raise (split_path from_path) in
  let! (to_dir, to_name) := raise (split_path to_path) in
  let! from_parent := lookup_path from_dir in
  let! to_parent := lookup_path to_dir in
  rename (o_fh from_parent) from_name (o_fh to_parent) to_name.

(** This mount behind the interface of MountTrait. *)
Definition mount40_ops : MountOps World :=
  {| t_lookup_path := lookup_path; t_open_stateful := open_stateful; t_open_path_stateful := open_path_stateful;
     t_set_size := fun fh size => setattr fh None None None None (Some size) None None;
     t_close_stateful := close_stateful |}.
Definition open_path_with_options (path : bytes) (options : OpenOptions) : M OpenFile :=
  open_path_guarded mount40_ops split_path path options
    (fun parent name => open_guarded parent name (oo_access options) (oo_create_mode options)).

(** ** The end of a mount *)

Definition umount : M () :=
  let! _ := (fun w => (Ok (), set_lease w (mark_closing (w_lease w)))) in
  let! _ := caught (stop_services eng) in
  let! callback_cleanup := caught (let! kept := asks w_callback in
                                   match kept with Some _ => return_all_delegations eng | None => ret () end) in
  let! _ := caught (stop_transport eng) in
  let! _ := (fun w => (Ok (), set_lease w (mark_closed (w_lease w)))) in
  raise callback_cleanup.
End Ops.

(** ** A request takes effect at most once *)

(** The status and the number of results in the header of a reply. *)
Definition reply_header (buf : bytes) : option (Z * Z) :=
  match (let* (status, buf) := take_u32 buf "status" in
         let* (_, buf) := take_opaque buf "tag" in
         let* (count, _) := take_u32 buf "count" in Ok (status, count)) with
  | Ok h => Some h
  | _ => None
  end.

Lemma busy_position b auth extra buf e :
  V40.request_ok b auth -> V40.retryable_busy_response buf (encode_with_header40 b auth ++ extra) = Ok (Some e) ->
  exists status count, reply_header buf = Some (status, count) /\ status <> 0 /\
  Forall (fun o => V40.navigates o.1 = true) (firstn (Z.to_nat count - 1) (Builder40.ops b)).
Proof.
  intros Hok. rewrite V40.retryable_busy_eq by done. intros H. destruct Hok as (_ & _ & _ & _ & Hops).
  unfold reply_header. apply obind_ok_inv in H as ([overall b1] & -> & H). cbn [obind]. destruct (negb _); [done|].
  apply obind_ok_inv in H as ([t b2] & -> & H). cbn [obind]. apply obind_ok_inv in H as ([count b3] & -> & H). cbn [obind].
  destruct ((count =? 0) || (128 <? count) || (Z.of_nat (length (Builder40.ops b)) <? count)) eqn:E; [done|]. bool_hyps.
  apply V40.busy_walk_sound in H as (pre & op & args & post & K1 & K2 & K3 & K4 & K5 & _); [|done|lia].
  exists overall, count. split_and!; [done..|]. rewrite K1, K2. cbn [Nat.sub]. by rewrite Nat.sub_0_r, take_app_length.
Qed.

Section Once.
Context {X : Type} (eng : Engine40 (X := X)) (effects : World (X := X) -> Z).

(** How a server that keeps the protocol changes what it stores for one request:
    a transmission executes it at most once, and one whose reply says that it
    failed behind operations that only navigate has changed nothing. Waiting
    changes nothing. *)
Class HonestServer : Prop := {
  hs_once : forall request data w r w', call_with_data eng request data ONE_ATTEMPT w = (r, w') ->
    effects w <= effects w' <= effects w + 1;
  hs_stopped : forall b auth data w reply w' status count,
    call_with_data eng (encode_with_header40 b auth) data ONE_ATTEMPT w = (Ok reply, w') ->
    reply_header reply = Some (status, count) -> status <> 0 ->
    Forall (fun o => V40.navigates o.1 = true) (firstn (Z.to_nat count - 1) (Builder40.ops b)) ->
    effects w' = effects w;
  hs_wait : forall ctx e w r w', budget_backoff eng ctx e w = (r, w') -> effects w' = effects w;
}.
Context `{HS : !HonestServer}.

Lemma busy_retry_once fuel b auth data ctx w r w' :
  V40.request_ok b auth ->
  call_with_busy_retry eng fuel (encode_with_header40 b auth) data ONE_ATTEMPT ctx w = (r, w') ->
  effects w <= effects w' <= effects w + 1.
Proof.
  intros Hok. revert w. induction fuel as [|fuel IH]; intros w; cbn [call_with_busy_retry]; [intros [= <- <-]; lia|].
  unfold andthen at 1. destruct (call_with_data eng _ data ONE_ATTEMPT w) as [[reply|e|] w1] eqn:Hc;
    pose proof (hs_once _ _ _ _ _ Hc) as Honce; [|by intros [= <- <-]..].
  unfold andthen at 1, raise.
  destruct (V40.retryable_busy_response reply (encode_with_header40 b auth)) as [[e|]|e|] eqn:Hb; [|by intros [= <- <-]..].
  rewrite <- (app_nil_r (encode_with_header40 b auth)) in Hb.
  destruct (busy_position _ _ _ _ _ Hok Hb) as (status & count & Hh & Hs & Hn).
  pose proof (hs_stopped _ _ _ _ _ _ _ _ Hc Hh Hs Hn) as Hsame.
  unfold andthen at 1. destruct (budget_backoff eng ctx e w1) as [[[]|e'|] w2] eqn:Hw; pose proof (hs_wait _ _ _ _ _ Hw).
  - intros H1. apply IH in H1. lia.
  - intros [= <- <-]. lia.
  - intros [= <- <-]. lia.
Qed.

(** C35: an NFSv4.0 request that changes something takes effect at most once, also
    when the server is busy and it is sent again. Whatever operations are built
    into it and whatever the server answers, the calls behind REMOVE, RENAME,
    LINK, CREATE, SETATTR and COMMIT execute the request no more than once, and
    so do WRITEs with their data. *)
Theorem mutation40_at_most_once fuel name b data ctx w r w' auth :
  V40.request_ok b auth -> m_auth (w_mount w) = auth ->
  settled eng fuel name b w = (r, w') \/
  (exists r0, call_with_busy_retry eng fuel (encode b w) data ONE_ATTEMPT ctx w = (r0, w')) ->
  effects w <= effects w' <= effects w + 1.
Proof.
  intros Hok <- [H|[r0 H]]; [|by apply busy_retry_once in H].
  unfold settled, andthen, asks, activity_settled_call, settled_call, with_error, encode in H.
  destruct (call_with_busy_retry _ _ _ _ _ _ w) as [r1 w1] eqn:Hc. injection H as _ <-. by apply busy_retry_once in Hc.
Qed.
End Once.
Arguments HonestServer {X}.

(** ** The busy loop ends *)

Section Ends.
Context {X : Type} (eng : Engine40 (X := X)) (left : World (X := X) -> nat).
(** The retry budget: a call does not extend it, a wait uses some of it. *)
Class Budgeted : Prop := {
  bg_call : forall request data replay w r w', call_with_data eng request data replay w = (r, w') -> r <> Panic /\ (left w' <= left w)%nat;
  bg_wait : forall ctx e w r w', budget_backoff eng ctx e w = (r, w') -> r <> Panic /\ (r = Ok () -> left w' < left w)%nat;
}.
Context `{HB : !Budgeted}.

Lemma busy_check_no_panic buf request : V40.retryable_busy_response buf request <> Panic.
Proof. pose proof (V40.replies40_never_panic buf request [] 0 EmptyString) as H. tauto. Qed.

Lemma busy_retry_ends fuel request data replay ctx w :
  (left w < fuel)%nat -> (call_with_busy_retry eng fuel request data replay ctx w).1 <> Panic.
Proof.
  revert w. induction fuel as [|fuel IH]; intros w Hf; [lia|]. cbn [call_with_busy_retry]. unfold andthen at 1.
  destruct (call_with_data eng request data replay w) as [[reply|e|] w1] eqn:Hc; destruct (bg_call _ _ _ _ _ _ Hc) as [Hp Hl]; [|done|done].
  unfold andthen at 1, raise. pose proof (busy_check_no_panic reply request).
  destruct (V40.retryable_busy_response reply request) as [[e|]|e|]; [|done|done|done].
  unfold andthen at 1. destruct (budget_backoff eng ctx e w1) as [[[]|e'|] w2] eqn:Hw; destruct (bg_wait _ _ _ _ _ Hw) as [Hp' Hl'];
    [|done|done]. apply IH. specialize (Hl' eq_refl). lia.
Qed.
End Ends.

(** ** A server that is busy once *)

Definition busy_reply : bytes := xdr_u32 10008 ++ xdr_opaque [] ++ xdr_u32 1 ++ xdr_u32 22 ++ xdr_u32 10008.
Definition done_reply : bytes := xdr_u32 0 ++ xdr_opaque [] ++ xdr_u32 2 ++ xdr_u32 22 ++ xdr_u32 0 ++ xdr_u32 28 ++ xdr_u32 0 ++ zeros 20.
Definition set_ext {X : Type} (w : World (X := X)) (x : X) : World (X := X) :=
  {| w_mount := w_mount w; w_lease := w_lease w; w_callback := w_callback w; w_ext := x |}.
Definition busy_engine : Engine40 (X := Z * bool) :=
  {| call_with_data := fun _ _ _ w =>
       if (w_ext w).2 : bool then (Ok busy_reply, set_ext w ((w_ext w).1, false))
       else (Ok done_reply, set_ext w ((w_ext w).1 + 1, false));
     budget_backoff := fun _ _ => ret (); clock := fun _ => 0;
     open_with_create := fun _ _ _ _ _ _ => fail (Nfs4 NFS4ERR_NOENT); close_lane := fun _ => ret ();
     return_all_delegations := ret (); stop_services := ret (); stop_transport := ret () |}.
Definition busy_world : World (X := Z * bool) :=
  {| w_mount := mount40_new {| flavor := Null; uid := 0; gid := 0; body := [] |} 1 2; w_lease := lease_ready 1 90 0; w_callback := None; w_ext := (0, true) |}.
Definition remove_builder : Builder40.CompoundBuilder := V40.remove (at_fh "remove" (of_str "d")) (of_str "n").

Lemma busy_server_honest : HonestServer busy_engine (fun w => (w_ext w).1).
Proof.
  split.
  - intros request data w r w'. cbn. destruct (w_ext w) as [n b]. destruct b; intros [= <- <-]; cbn; lia.
  - intros b auth data w reply w' status count. cbn. destruct (w_ext w) as [n []]; intros [= <- <-] Hh; cbn; [done|].
    vm_compute in Hh. by injection Hh as <- _.
  - by intros ctx e w r w' [= <- <-].
Qed.

Lemma mutation40_at_most_once_witness :
  (settled busy_engine 5 "remove" remove_builder busy_world).1 = Ok done_reply /\
  0 <= (w_ext (settled busy_engine 5 "remove" remove_builder busy_world).2).1 <= 0 + 1.
Proof.
  split; [by vm_compute|]. pose proof busy_server_honest.
  apply (mutation40_at_most_once busy_engine (fun w => (w_ext w).1) 5 "remove" remove_builder [] (context40 "remove" 0 0) busy_world
    (settled busy_engine 5 "remove" remove_builder busy_world).1 _ {| flavor := Null; uid := 0; gid := 0; body := [] |}).
  - do 4 (split; [by vm_compute|]). unfold remove_builder, V40.remove, at_fh, Builder40.putfh, Builder40.operation, V40.new40, Builder40.new, OP_PUTFH, V40.OP_REMOVE.
    cbn [Builder40.ops app]. repeat (apply Forall_cons; split); try apply Forall_nil_2; (split; [cbn; ilia|cbn [fst snd]]).
    + exists (of_str "d"). by vm_compute.
    + done.
  - done.
  - left. by destruct (settled busy_engine 5 "remove" remove_builder busy_world).
Defined.

(** ** Two shortcomings *)

(** An object whose attributes cannot be read is reported as a plain decoding
    error, although the server created it. *)
Lemma created_with_bad_attributes {X} (eng : Engine40 (X := X)) fuel name b w response w' fh data e :
  settled eng fuel name (V40.getattr (Builder40.getfh b) standard_getattr_bitmap) w = (Ok response, w') ->
  V40.decode_create_response response = Ok (fh, data) -> decode_getattr_response data = Err e ->
  create_object eng fuel name b w = (Err e, w').
Proof. intros Hs Hc Hg. unfold create_object, andthen. rewrite Hs. unfold raise. rewrite Hc. cbn. by rewrite Hg. Qed.

(** No operation stores the verifier of a write in its lane, so COMMIT has nothing
    to compare the server's verifier with. *)
Definition no_verifiers (m : Mount40) : Prop := forall r l, m_open_heap m !! r = Some l -> ol_write_verifier l = None.

Lemma no_verifiers_set m r l : no_verifiers m -> ol_write_verifier l = None -> no_verifiers (set_open m r l).
Proof. intros H Hl r' l'. cbn. rewrite lookup_insert_Some. intros [[<- <-]|[_ ?]]; [done|by eapply H]. Qed.

Lemma lanes_store_no_verifier rpc m begun l1 l2 now : no_verifiers m ->
  (forall r fh ty off len, no_verifiers (Lanes40.acquire_lock rpc m begun l1 l2 now r fh ty off len).2) /\
  (forall callbacks d n a c g mode, no_verifiers (Lanes40.open_file_with_create rpc m begun l1 l2 now callbacks d n a c g mode).2) /\
  (forall r, no_verifiers (Lanes40.close_lane rpc m begun l1 now r).2).
Proof.
  intros H. split_and!.
  - intros r fh ty off len. unfold Lanes40.acquire_lock. destruct begun as [g|e|]; [|done|done]. cbn [m_open_heap set_next_owner].
    destruct (m_open_heap m !! r) as [open|] eqn:Hr; [|done]. pose proof (H _ _ Hr).
    destruct (rpc _) as [resp|e|]; [|done|done].
    assert (H1 : no_verifiers (set_open (set_next_owner m (wrap64 (m_next_owner m + 1))) r (with_seqid open (wrap32 (ol_next_seqid open + 1)))))
      by by apply no_verifiers_set.
    destruct (consumes_owner_seqid _); destruct (V40.decode_lock_response resp 12 "LOCK"); try done;
      destruct (finish_stateful l1 g "lock" now).1; try done; destruct (validate_stateful l2 g "lock"); done.
  - intros callbacks d n a c g mode. unfold Lanes40.open_file_with_create. destruct begun as [gen|e|]; [|done|done].
    destruct (negb _); [done|]. destruct (rpc _) as [resp|e|]; [|done|done].
    destruct (V40.decode_open_response resp) as [[opened fh]|e|]; [|done|done].
    destruct (confirm_open _ _ _ _ _) as [[sid seqid]|e|]; [|done|done]. unfold settle_open. cbv zeta.
    destruct (obind _ _) as [[]|e|]; try destruct (validate_stateful l2 gen "open"); cbn [snd];
      apply (no_verifiers_set (set_next_owner m (wrap64 (m_next_owner m + 1)))); done.
  - intros r. unfold Lanes40.close_lane. destruct begun as [g|e|]; [|done|done].
    destruct (m_open_heap m !! r) as [lane|] eqn:Hr; [|done]. pose proof (H _ _ Hr). destruct (ol_closing lane); [done|].
    assert (H1 : no_verifiers (set_open m r (with_closing lane))) by by apply no_verifiers_set.
    destruct (rpc _) as [resp|e|]; [|done|done]. destruct (V40.decode_stateid_response resp 4 "CLOSE"); [|done|done].
    cbn [snd]. by apply (no_verifiers_set (set_open m r (with_closing lane))).
Qed.

Lemma commit_detects_no_restart {X} (eng : Engine40 (X := X)) fuel fh offset count w r verifier w1 g :
  for_fh fh OPEN_WRITE w = Some r -> begin_op "commit" w = (Ok g, w) ->
  commit_verifier eng fuel fh offset count w = (Ok verifier, w1) -> no_verifiers (w_mount w1) ->
  is_Some (m_open_heap (w_mount w1) !! r) -> validate_stateful (w_lease w1) g "commit" = Ok () ->
  (commit_with_verifier eng fuel fh offset count w).1 = Ok (Some verifier).
Proof.
  intros Hf Hb Hc Hn [lane Hl] Hv. unfold commit_with_verifier, andthen, asks. rewrite Hf, Hb. cbn. rewrite Hc.
  unfold validate_op. rewrite Hv. unfold read_lane. rewrite Hl. by rewrite (Hn _ _ Hl).
Qed.
End Mount40Ops.
