(* ===== verification/Recover40.v ===== *)
(** * Recovery of an NFSv4.0 client

    Models [establish_identity] and [RecoveryContext] of
    [src/src/nfs40/mount.rs]. When a server has lost its state the client
    identifies itself again, reclaims its open files, all at once, and then its
    locks, one after the other for each open owner; if any of it fails, all state
    is given up and the lease is lost.

    A reclaim holds its lane from the request to the reply, so it is one step, and
    the files that are reclaimed at the same time are steps in any order. *)
From Stdlib Require Import Strings.Byte.
From S2P Require Import Prelude Errors Xdr4 Attrs4 Device Compound40 Lease40 Lanes40.
From stdpp Require Import base list numbers strings gmap relations.
#[local] Open Scope Z_scope.

(** ** Identity *)

Record ClientIdentity : Type := { ci_verifier : bytes; ci_owner : bytes }.
(** [ClientIdentity::new]: [verifier] and [id] are random. *)
Definition ClientIdentity_new (verifier : bytes) (id : Z) : ClientIdentity :=
  {| ci_verifier := verifier; ci_owner := of_str "nfs-rs-v4.0-" ++ hex16 id |}.

Section Recovery.
(** What the server answers, one attempt each. *)
Context (rpc : bytes -> result bytes).

Definition establish_identity (auth : Auth) (identity : ClientIdentity) (callback_addr : option bytes) : result Z :=
  let callback := match callback_addr with Some addr => V40.tcp addr 1 | None => V40.DISABLED end in
  let* identity_response := rpc (encode_with_header40
    (V40.setclientid (V40.new40 (of_str "identity"))
       {| V40.si_verifier := ci_verifier identity; V40.si_owner := ci_owner identity; V40.si_callback := callback |}) auth) in
  let* (client_id, confirm_verifier) := V40.decode_setclientid_response identity_response in
  let* confirm_response := rpc (encode_with_header40
    (V40.setclientid_confirm (V40.new40 (of_str "confirm")) client_id confirm_verifier) auth) in
  let* _ := V40.decode_confirm_response confirm_response in
  Ok client_id.

(** ** Reclaims *)

Definition reclaim_open_request (m : Mount40) (client_id : Z) (open : OwnerLane) : bytes :=
  encode_with_header40
    (Builder40.getfh (V40.open_reclaim (Builder40.putfh (V40.new40 (of_str "reclaim-open")) (ol_fh open))
       {| V40.rc_seqid := 0; V40.rc_share_access := ol_access open; V40.rc_client_id := client_id;
          V40.rc_owner := open_owner_wire m (ol_owner open) |})) (m_auth m).
Definition reclaim_delegreturn_request (m : Mount40) (fh stateid : bytes) : bytes :=
  encode_with_header40
    (V40.delegreturn (Builder40.putfh (V40.new40 (of_str "reclaim-delegreturn")) fh) stateid) (m_auth m).

(** The open file of one lane. *)
Definition reclaim_open (m : Mount40) (client_id : Z) (r : ref) : result () * Mount40 :=
  match m_open_heap m !! r with
  | None => (Panic, m)
  | Some open =>
      match (let* response := rpc (reclaim_open_request m client_id open) in
             let* (reclaimed, fh) := V40.decode_open_response response in
             if V40.confirm_required reclaimed || negb (bool_decide (fh = ol_fh open))
             then Err (Xdr "NFSv4.0 reclaim OPEN returned incompatible state")
             else
               let* _ := (match V40.delegation reclaimed with
                          | Some d =>
                              let* response := rpc (reclaim_delegreturn_request m fh (V40.dg_stateid d)) in
                              V40.decode_delegreturn_response response
                          | None => Ok ()
                          end) in
               Ok (V40.or_stateid reclaimed)) with
      | Ok stateid => (Ok (), set_open m r (with_seqid (with_stateid open stateid) 1))
      | Err e => (Err e, m)
      | Panic => (Panic, m)
      end
  end.

Definition reclaim_lock_request (m : Mount40) (client_id : Z) (open : OwnerLane) (lock : LockLane) : bytes :=
  encode_with_header40
    (V40.lock_new (Builder40.putfh (V40.new40 (of_str "reclaim-lock")) (ll_fh lock))
      {| V40.nl_lock_type := ll_lock_type lock; V40.nl_reclaim := true; V40.nl_offset := ll_offset lock;
         V40.nl_length := ll_length lock; V40.nl_open_seqid := ol_next_seqid open;
         V40.nl_open_stateid := ol_stateid open; V40.nl_lock_seqid := 0; V40.nl_client_id := client_id;
         V40.nl_owner := ll_owner_wire lock |}) (m_auth m).

(** The lock of one lane, under the lane of its open owner. *)
Definition reclaim_lock (m : Mount40) (client_id : Z) (r : ref) : result () * Mount40 :=
  match m_lock_heap m !! r with
  | None => (Panic, m)
  | Some lock =>
      match OpenState.by_owner (m_state m) (ll_open_owner lock) with
      | None => (Err (Xdr "NFSv4.0 reclaim LOCK lost its open-owner"), m)
      | Some ro =>
          match m_open_heap m !! ro with
          | None => (Panic, m)
          | Some open =>
              match (let* response := rpc (reclaim_lock_request m client_id open lock) in
                     V40.decode_lock_response response 12 "LOCK") with
              | Ok new_stateid =>
                  let m := set_open m ro (with_seqid open (wrap32 (ol_next_seqid open + 1))) in
                  let m := set_lock m r (lock_with lock 1 new_stateid) in
                  (Ok (), set_tables m (m_state m) (LockState.rekey (m_locks m) (ll_stateid lock) new_stateid r))
              | Err e => (Err e, m)
              | Panic => (Panic, m)
              end
          end
      end
  end.
End Recovery.

(** [OpenState::snapshot] and [LockState::snapshot], in the order of the owners. *)
Definition snapshot_opens (m : Mount40) : list ref :=
  map snd (sort_by (fun a b => a.1 <=? b.1) (map_to_list (OpenState.lanes (m_state m)))).
Definition lock_owner (m : Mount40) (r : ref) : Z := match m_lock_heap m !! r with Some l => ll_owner l | None => 0 end.
Definition snapshot_locks (m : Mount40) : list ref :=
  sort_by (fun a b => lock_owner m a <=? lock_owner m b) (map snd (map_to_list (LockState.lanes (m_locks m)))).

(** [lock_groups]: the locks of each open owner, in the order of the snapshot. *)
Definition add_lane (m : Mount40) (groups : gmap Z (list ref)) (r : ref) : gmap Z (list ref) :=
  match m_lock_heap m !! r with
  | Some lock => <[ll_open_owner lock := default [] (groups !! ll_open_owner lock) ++ [r]]> groups
  | None => groups
  end.
Definition lock_groups (m : Mount40) : list (list ref) :=
  map snd (map_to_list (fold_left (add_lane m) (snapshot_locks m) ∅)).

Definition set_client_id (m : Mount40) (v : Z) : Mount40 :=
  {| m_auth := m_auth m; m_client_id := v; m_issuer := m_issuer m; m_next_owner := m_next_owner m;
     m_state := m_state m; m_locks := m_locks m; m_open_heap := m_open_heap m;
     m_lock_heap := m_lock_heap m; m_next_ref := m_next_ref m |}.

(** ** The whole recovery

    With a server that keeps, for each owner, the sequence number it expects and
    the state id it gave out: it has forgotten all of them, learns an open owner
    from its reclaim and a lock owner from its first lock. *)

Abbreviation reclaim_server := (gmap Z (Z * bytes)).

(** What the server reads in a reclaiming OPEN: the number of the owner, the
    client, and the claim, CLAIM_PREVIOUS being 1. *)
Definition reclaim_open_args (request : bytes) : result (Z * Z * Z) :=
  let* args := Rfc7530.operation_args V40.OP_OPEN request in
  let* (n, args) := take_u32 args "seqid" in
  let* (_, args) := split_to 8 args in
  let* (client, args) := get_u64 args in
  let* (_, args) := take_opaque args "owner" in
  let* (_, args) := take_u32 args "opentype" in
  let* (claim, _) := take_u32 args "claim" in Ok (n, client, claim).
(** And in a LOCK: whether it reclaims, the open owner's number and state id, the
    lock owner's number, and the client. *)
Definition reclaim_lock_args (request : bytes) : result (Z * Z * bytes * Z * Z) :=
  let* args := Rfc7530.operation_args V40.OP_LOCK request in
  let* (_, args) := split_to 4 args in
  let* (reclaim, args) := take_u32 args "reclaim" in
  let* (_, args) := split_to 20 args in
  let* (n, args) := take_u32 args "open_seqid" in
  let* (sid, args) := split_to 16 args in
  let* (k, args) := take_u32 args "lock_seqid" in
  let* (client, _) := get_u64 args in Ok (reclaim, n, sid, k, client).

(** A reclaim of [client_id] that is granted with state id [sid]; the server takes
    note only of a request that it should grant. *)
Definition open_reclaimed (client_id : Z) (request : bytes) (owner : Z) (sid : bytes) (srv : reclaim_server) : reclaim_server :=
  match reclaim_open_args request with
  | Ok (n, client, claim) =>
      if (client =? client_id) && (claim =? 1) then <[owner := (wrap32 (n + 1), sid)]> srv else srv
  | _ => srv
  end.
Definition lock_reclaimed (client_id : Z) (request : bytes) (open_owner owner : Z) (sid : bytes) (srv : reclaim_server) : reclaim_server :=
  match reclaim_lock_args request with
  | Ok (reclaim, n, osid, k, client) =>
      if decide (reclaim = 1 /\ client = client_id /\ srv !! open_owner = Some (n, osid))
      then <[owner := (wrap32 (k + 1), sid)]> (<[open_owner := (wrap32 (n + 1), osid)]> srv)
      else srv
  | _ => srv
  end.

(** Files that are still to be reclaimed; one of them is. *)
Inductive open_step (client_id : Z) : Mount40 * reclaim_server * list ref -> Mount40 * reclaim_server * list ref -> Prop :=
| os_reclaim rpc m srv pre r post open m' response reclaimed fh :
    m_open_heap m !! r = Some open -> fits m (ol_fh open) -> reclaim_open rpc m client_id r = (Ok (), m') ->
    rpc (reclaim_open_request m client_id open) = Ok response -> V40.decode_open_response response = Ok (reclaimed, fh) ->
    open_step client_id (m, srv, pre ++ r :: post)
      (m', open_reclaimed client_id (reclaim_open_request m client_id open) (ol_owner open) (V40.or_stateid reclaimed) srv, pre ++ post).

(** Groups of locks that are still to be reclaimed; the first lock of one is. The
    number and the state id of the open lane have their widths. *)
Definition fresh_stateid (m : Mount40) (sid : bytes) : Prop :=
  LockState.lanes (m_locks m) !! sid = None /\ LockState.aliases (m_locks m) !! sid = None.
Inductive lock_step (client_id : Z)
    : Mount40 * reclaim_server * list (list ref) -> Mount40 * reclaim_server * list (list ref) -> Prop :=
| ls_reclaim rpc m srv pre r group post lock ro open m' response sid :
    m_lock_heap m !! r = Some lock -> OpenState.by_owner (m_state m) (ll_open_owner lock) = Some ro ->
    m_open_heap m !! ro = Some open -> fits m (ll_fh lock) -> is_u32 (ol_next_seqid open) -> remaining (ol_stateid open) = 16 ->
    reclaim_lock rpc m client_id r = (Ok (), m') ->
    rpc (reclaim_lock_request m client_id open lock) = Ok response -> V40.decode_lock_response response 12 "LOCK" = Ok sid ->
    fresh_stateid m sid ->
    lock_step client_id (m, srv, pre ++ (r :: group) :: post)
      (m', lock_reclaimed client_id (reclaim_lock_request m client_id open lock) (ol_owner open) (ll_owner lock) sid srv,
       pre ++ group :: post).

(** [recover] from [m0] when it succeeds. *)
Inductive recovered (m0 : Mount40) : Mount40 -> reclaim_server -> Prop :=
| rec_intro rpc identity callback_addr client_id m1 srv1 m2 srv2 groups : is_u64 client_id ->
    establish_identity rpc (m_auth m0) identity callback_addr = Ok client_id ->
    rtc (open_step client_id) (set_client_id m0 client_id, ∅, snapshot_opens m0) (m1, srv1, []) ->
    rtc (lock_step client_id) (m1, srv1, lock_groups m1) (m2, srv2, groups) -> concat groups = [] ->
    recovered m0 m2 srv2.

(** [recover_or_lose] on the result of [recover]. *)
Definition lost_outcome (error : NfsError) : NfsError :=
  OperationOutcome (OperationOutcomeError_new Uncertain ReplaySensitive Reopen
    {| operation := "nfs40_lease_recovery"; protocol := NFSv4p0; request_id := None |} error).
Definition recover_or_lose (recover : result ()) (m : Mount40) (lease : LeaseState) : result () * Mount40 * LeaseState :=
  match recover with
  | Ok _ => (Ok (), m, lease)
  | Err error => (Err (lost_outcome error), set_tables m (OpenState.clear (m_state m)) (LockState.clear (m_locks m)), mark_lost lease)
  | Panic => (Panic, m, lease)
  end.

(** ** Everything is reclaimed *)

(** The tables of a mount: an entry leads to its lane, and no two lanes have the
    same owner. *)
Record tables_ok (m : Mount40) : Prop := {
  tk_open : forall owner r, OpenState.lanes (m_state m) !! owner = Some r ->
    exists l, m_open_heap m !! r = Some l /\ ol_owner l = owner;
  tk_lock : forall sid r, LockState.lanes (m_locks m) !! sid = Some r ->
    exists l, m_lock_heap m !! r = Some l /\ ll_stateid l = sid;
  tk_owner : forall sid r l owner ro, LockState.lanes (m_locks m) !! sid = Some r -> m_lock_heap m !! r = Some l ->
    OpenState.lanes (m_state m) !! owner = Some ro -> ll_owner l <> owner;
  tk_distinct : forall sid r l sid' r' l', LockState.lanes (m_locks m) !! sid = Some r -> m_lock_heap m !! r = Some l ->
    LockState.lanes (m_locks m) !! sid' = Some r' -> m_lock_heap m !! r' = Some l' -> ll_owner l = ll_owner l' -> r = r';
}.

(** A lane of the table whose number the server expects and whose state id it gave. *)
Definition open_agrees (m : Mount40) (srv : reclaim_server) (owner : Z) (r : ref) : Prop :=
  exists l, m_open_heap m !! r = Some l /\ ol_owner l = owner /\ srv !! owner = Some (ol_next_seqid l, ol_stateid l).

(** *** What the server reads in the requests of the client *)

Lemma reclaim_open_read m client_id open : is_u64 client_id -> fits m (ol_fh open) ->
  reclaim_open_args (reclaim_open_request m client_id open) = Ok (0, client_id, 1).
Proof.
  intros Hc [Hb Hf]. unfold reclaim_open_args, reclaim_open_request, V40.open_reclaim.
  erewrite Rfc7530.operation_read; [|unfold Builder40.getfh, Builder40.operation; reflexivity|done..]. cbn [obind].
  cbn [V40.rc_seqid V40.rc_share_access V40.rc_client_id V40.rc_owner]. rewrite <- !app_assoc, take_u32_enc by done. cbn [obind].
  rewrite (app_assoc (xdr_u32 (ol_access open))), split_to_app by done. cbn [obind]. unfold xdr_u64. rewrite get_u64_be by done. cbn [obind].
  rewrite take_opaque_enc by done. cbn [obind]. rewrite !take_u32_enc by done. cbn [obind]. by rewrite take_u32_enc.
Qed.
Lemma reclaim_lock_read m client_id open lock : is_u64 client_id -> fits m (ll_fh lock) -> is_u32 (ol_next_seqid open) ->
  remaining (ol_stateid open) = 16 ->
  reclaim_lock_args (reclaim_lock_request m client_id open lock) = Ok (1, ol_next_seqid open, ol_stateid open, 0, client_id).
Proof.
  intros Hc [Hb Hf] Hn Hs. unfold reclaim_lock_args, reclaim_lock_request, V40.lock_new.
  erewrite Rfc7530.operation_read; [|unfold Builder40.operation; reflexivity|done..]. cbn [obind].
  cbn [V40.nl_lock_type V40.nl_reclaim V40.nl_offset V40.nl_length V40.nl_open_seqid V40.nl_open_stateid V40.nl_lock_seqid V40.nl_client_id].
  rewrite <- !app_assoc, split_to_app by done. cbn [obind]. change (xdr_bool true) with (xdr_u32 1). rewrite take_u32_enc by done. cbn [obind].
  rewrite (app_assoc (xdr_u64 (ll_length lock))), (app_assoc (xdr_u64 (ll_offset lock))), split_to_app by done. cbn [obind].
  rewrite take_u32_enc by done. cbn [obind]. rewrite split_to_app by done. cbn [obind]. rewrite take_u32_enc by done. cbn [obind].
  unfold xdr_u64. by rewrite get_u64_be.
Qed.

(** *** Open files *)

Record opens_inv (m0 : Mount40) (c : Mount40 * reclaim_server * list ref) : Prop := {
  oi_state : m_state c.1.1 = m_state m0; oi_locks : m_locks c.1.1 = m_locks m0; oi_lock_heap : m_lock_heap c.1.1 = m_lock_heap m0;
  oi_owners : forall r, ol_owner <$> m_open_heap c.1.1 !! r = ol_owner <$> m_open_heap m0 !! r;
  oi_todo : forall r, r ∈ c.2 -> exists owner, OpenState.lanes (m_state m0) !! owner = Some r;
  oi_done : forall owner r, OpenState.lanes (m_state m0) !! owner = Some r -> r ∈ c.2 \/ open_agrees c.1.1 c.1.2 owner r;
}.

Lemma reclaim_open_effect rpc m client_id r m' open :
  m_open_heap m !! r = Some open -> reclaim_open rpc m client_id r = (Ok (), m') ->
  forall response reclaimed fh, rpc (reclaim_open_request m client_id open) = Ok response ->
  V40.decode_open_response response = Ok (reclaimed, fh) ->
  m' = set_open m r (with_seqid (with_stateid open (V40.or_stateid reclaimed)) 1).
Proof.
  unfold reclaim_open. intros -> E response reclaimed fh Hr Hd. rewrite Hr in E. cbn [obind] in E. rewrite Hd in E. cbn [obind] in E.
  destruct (_ || _); [done|]. destruct (match V40.delegation reclaimed with Some _ => _ | None => _ end); [|done|done].
  by injection E as <-.
Qed.

Lemma open_step_inv m0 client_id c c' :
  is_u64 client_id -> tables_ok m0 -> opens_inv m0 c -> open_step client_id c c' -> opens_inv m0 c'.
Proof.
  intros Hid Hk [H1 H2 H3 H4 H5 H6] Hs. destruct Hs as [rpc m srv pre r post open m' response reclaimed fh Hr Hfit Hrec Hrpc Hdec].
  cbn [fst snd] in *. rewrite (reclaim_open_effect _ _ _ _ _ _ Hr Hrec _ _ _ Hrpc Hdec).
  unfold open_reclaimed. rewrite reclaim_open_read by done. rewrite Z.eqb_refl. cbn [andb Z.eqb Pos.eqb]. change (wrap32 (0 + 1)) with 1.
  set (sid := V40.or_stateid reclaimed).
  assert (Hreg : OpenState.lanes (m_state m0) !! ol_owner open = Some r).
  { destruct (H5 r) as [owner Ho]; [set_solver|]. destruct (tk_open _ Hk _ _ Ho) as (l0 & Hl0 & <-).
    specialize (H4 r). rewrite Hr, Hl0 in H4. cbn in H4. injection H4 as ->. done. }
  split; cbn [fst snd]; try done.
  - intros r'. rewrite <- H4. cbn. destruct (decide (r' = r)) as [->|Hn]; [by rewrite lookup_insert_eq, Hr|by rewrite lookup_insert_ne].
  - intros r' Hr'. apply H5. set_solver.
  - intros owner r' Ho. destruct (decide (r' = r)) as [->|Hn].
    + right. assert (ol_owner open = owner) as <-.
      { destruct (tk_open _ Hk _ _ Ho) as (l0 & Hl0 & <-). specialize (H4 r). rewrite Hr, Hl0 in H4. cbn in H4. congruence. }
      exists (with_seqid (with_stateid open sid) 1). cbn. rewrite !lookup_insert_eq. done.
    + destruct (H6 _ _ Ho) as [Hin|(l & Hl & Hlo & Hsrv)]; [left; set_solver|]. right. exists l. cbn.
      rewrite lookup_insert_ne by done. split_and!; [done|done|]. rewrite lookup_insert_ne; [done|]. congruence.
Qed.

Lemma snapshot_opens_spec m r : r ∈ snapshot_opens m <-> exists owner, OpenState.lanes (m_state m) !! owner = Some r.
Proof.
  unfold snapshot_opens. rewrite sort_by_perm. rewrite list_elem_of_fmap. split.
  - intros ([owner r'] & -> & Hin). apply elem_of_map_to_list in Hin. by exists owner.
  - intros [owner Ho]. exists (owner, r). split; [done|]. by apply elem_of_map_to_list.
Qed.

Lemma opens_init m client_id : opens_inv m (set_client_id m client_id, ∅, snapshot_opens m).
Proof.
  split; cbn [fst snd]; try done.
  - intros r Hr. by apply snapshot_opens_spec.
  - intros owner r Ho. left. apply snapshot_opens_spec. by exists owner.
Qed.

Lemma opens_reclaimed m0 client_id m srv :
  is_u64 client_id -> tables_ok m0 -> rtc (open_step client_id) (set_client_id m0 client_id, ∅, snapshot_opens m0) (m, srv, []) ->
  opens_inv m0 (m, srv, []).
Proof.
  intros Hid Hk Hr. pose proof (opens_init m0 client_id) as Hi. revert Hr Hi. generalize (set_client_id m0 client_id, ∅ : reclaim_server, snapshot_opens m0).
  intros c Hr. remember (m, srv, []) as c'. induction Hr as [|c1 c2 c3 Hs Hr IH]; intros Hi; subst; [done|].
  apply IH; [done|]. by eapply open_step_inv.
Qed.

(** *** Locks *)

(** A lock that is still to be reclaimed is as it was; one that was reclaimed is
    found under its old and its new state id. *)
Definition lock_pending (m0 m : Mount40) (sid : bytes) (r : ref) : Prop :=
  m_lock_heap m !! r = m_lock_heap m0 !! r /\ LockState.lanes (m_locks m) !! sid = Some r.
Definition lock_done (m : Mount40) (srv : reclaim_server) (sid : bytes) (r : ref) : Prop :=
  exists l, m_lock_heap m !! r = Some l /\ srv !! ll_owner l = Some (ll_next_seqid l, ll_stateid l) /\
  LockState.lanes (m_locks m) !! ll_stateid l = Some r /\ LockState.lanes (m_locks m) !! sid = None /\
  LockState.aliases (m_locks m) !! sid = Some r.

Record locks_inv (m0 : Mount40) (c : Mount40 * reclaim_server * list (list ref)) : Prop := {
  li_state : m_state c.1.1 = m_state m0;
  li_opens : forall owner r, OpenState.lanes (m_state m0) !! owner = Some r -> open_agrees c.1.1 c.1.2 owner r;
  li_owners : forall r, ll_owner <$> m_lock_heap c.1.1 !! r = ll_owner <$> m_lock_heap m0 !! r;
  li_nodup : NoDup (concat c.2);
  li_known : forall r, r ∈ concat c.2 -> exists sid, LockState.lanes (m_locks m0) !! sid = Some r;
  li_pending : forall sid r, LockState.lanes (m_locks m0) !! sid = Some r -> r ∈ concat c.2 -> lock_pending m0 c.1.1 sid r;
  li_done : forall sid r, LockState.lanes (m_locks m0) !! sid = Some r -> r ∉ concat c.2 -> lock_done c.1.1 c.1.2 sid r;
}.

Lemma reclaim_lock_effect rpc m client_id r m' lock ro open :
  m_lock_heap m !! r = Some lock -> OpenState.by_owner (m_state m) (ll_open_owner lock) = Some ro -> m_open_heap m !! ro = Some open ->
  reclaim_lock rpc m client_id r = (Ok (), m') ->
  forall response sid, rpc (reclaim_lock_request m client_id open lock) = Ok response -> V40.decode_lock_response response 12 "LOCK" = Ok sid ->
  m' = (let m := set_open m ro (with_seqid open (wrap32 (ol_next_seqid open + 1))) in
                    let m := set_lock m r (lock_with lock 1 sid) in
                    set_tables m (m_state m) (LockState.rekey (m_locks m) (ll_stateid lock) sid r)).
Proof.
  intros H1 H2 H3 E response sid Hr Hd. unfold reclaim_lock in E. rewrite H1, H2, H3, Hr in E. cbn [obind] in E. rewrite Hd in E. by injection E as <-.
Qed.

Section LockStep.
Context (m0 : Mount40) (Hk : tables_ok m0).

(** The number of the open owner moves on both sides, and no other's. *)
Lemma lock_step_opens m srv lock ro open r sid :
  m_state m = m_state m0 ->
  (forall owner r, OpenState.lanes (m_state m0) !! owner = Some r -> open_agrees m srv owner r) ->
  OpenState.by_owner (m_state m) (ll_open_owner lock) = Some ro -> m_open_heap m !! ro = Some open ->
  (forall owner r, OpenState.lanes (m_state m0) !! owner = Some r -> ll_owner lock <> owner) ->
  forall owner r', OpenState.lanes (m_state m0) !! owner = Some r' ->
  open_agrees (set_tables (set_lock (set_open m ro (with_seqid open (wrap32 (ol_next_seqid open + 1)))) r (lock_with lock 1 sid))
                 (m_state m) (LockState.rekey (m_locks m) (ll_stateid lock) sid r))
    (<[ll_owner lock := (1, sid)]> (<[ol_owner open := (wrap32 (ol_next_seqid open + 1), ol_stateid open)]> srv)) owner r'.
Proof.
  intros Hst Hop Hby Hro Hne owner r' Ho. unfold OpenState.by_owner in Hby. rewrite Hst in Hby.
  destruct (Hop _ _ Hby) as (l & Hl & Hlo & Hsrv). rewrite Hro in Hl. injection Hl as <-.
  destruct (Hop _ _ Ho) as (l' & Hl' & Hlo' & Hsrv'). unfold open_agrees. cbn.
  destruct (decide (r' = ro)) as [->|Hn].
  - rewrite lookup_insert_eq. rewrite Hro in Hl'. injection Hl' as <-. exists (with_seqid open (wrap32 (ol_next_seqid open + 1))).
    split_and!; [done|done|]. cbn. rewrite lookup_insert_ne by eauto. subst owner. by rewrite lookup_insert_eq.
  - rewrite lookup_insert_ne by done. exists l'. split_and!; [done|done|]. rewrite lookup_insert_ne by eauto.
    rewrite lookup_insert_ne; [done|]. intros He. apply Hn. subst owner. rewrite Hlo in He. rewrite <- He in Ho. congruence.
Qed.

(** The other locks keep their entries. *)
Lemma lock_step_others m srv srv1 lock ro open r sid osid r' :
  LockState.lanes (m_locks m) !! ll_stateid lock = Some r -> fresh_stateid m sid -> r' <> r ->
  (forall o, o <> ol_owner open -> srv1 !! o = srv !! o) ->
  let m' := set_tables (set_lock (set_open m ro (with_seqid open (wrap32 (ol_next_seqid open + 1)))) r (lock_with lock 1 sid))
              (m_state m) (LockState.rekey (m_locks m) (ll_stateid lock) sid r) in
  (lock_pending m0 m osid r' -> lock_pending m0 m' osid r') /\
  (lock_done m srv osid r' -> (forall l, m_lock_heap m !! r' = Some l -> ll_owner l <> ll_owner lock /\ ll_owner l <> ol_owner open) ->
   lock_done m' (<[ll_owner lock := (1, sid)]> srv1) osid r').
Proof.
  intros Hold [Hf1 Hf2] Hn Hsrv m'. unfold m'. split.
  - intros [Hp1 Hp2]. split; cbn; [by rewrite lookup_insert_ne|].
    rewrite lookup_insert_ne by congruence. rewrite lookup_delete_ne by congruence. done.
  - intros (l & Hl & Hs & Hl1 & Hl2 & Hl3) Hne. destruct (Hne _ Hl) as [Hne1 Hne2]. exists l. cbn. rewrite lookup_insert_ne by done.
    split_and!; [done| | | |].
    + rewrite lookup_insert_ne by done. by rewrite Hsrv.
    + rewrite lookup_insert_ne by congruence. rewrite lookup_delete_ne by congruence. done.
    + rewrite lookup_insert_ne by congruence. destruct (decide (ll_stateid lock = osid)) as [->|]; [by rewrite lookup_delete_eq|].
      by rewrite lookup_delete_ne.
    + rewrite lookup_insert_ne by congruence. done.
Qed.
End LockStep.

Lemma lock_step_inv m0 client_id c c' :
  is_u64 client_id -> tables_ok m0 -> locks_inv m0 c -> lock_step client_id c c' -> locks_inv m0 c'.
Proof.
  intros Hid Hk [H1 H2 H3 H4 H5 H6 H7] Hs.
  destruct Hs as [rpc m srv pre r group post lock ro open m' response sid Hr Hby Hro Hfit Hnu Hns Hrec Hrpc Hdec Hfresh]. cbn [fst snd] in *.
  pose proof (reclaim_lock_effect _ _ _ _ _ _ _ _ Hr Hby Hro Hrec _ _ Hrpc Hdec) as Hm'. cbv zeta in Hm'. cbn in Hm'. subst m'.
  assert (Hperm : concat (pre ++ (r :: group) :: post) ≡ₚ r :: concat (pre ++ group :: post)).
  { rewrite !concat_app. cbn [concat app]. symmetry. apply Permutation_middle. }
  assert (Hin : r ∈ concat (pre ++ (r :: group) :: post)) by (rewrite Hperm; left).
  rewrite Hperm in H4. apply NoDup_cons in H4 as [Hnin Hnd].
  destruct (H5 _ Hin) as [sid0 Hsid0]. destruct (H6 _ _ Hsid0 Hin) as [Hp1 Hp2].
  destruct (tk_lock _ Hk _ _ Hsid0) as (lock0 & Hl0 & Hlsid). rewrite Hr, Hl0 in Hp1. injection Hp1 as <-. subst sid0.
  pose proof (H2 _ _ ltac:(unfold OpenState.by_owner in Hby; rewrite H1 in Hby; exact Hby)) as (l & Hl & Hlo & Hsrv).
  rewrite Hro in Hl. injection Hl as <-.
  unfold lock_reclaimed. rewrite reclaim_lock_read by done. rewrite decide_True by (rewrite Hlo; done). change (wrap32 (0 + 1)) with 1.
  set (srv1 := <[ol_owner open := _]> srv).
  assert (Hsrv1 : forall o, o <> ol_owner open -> srv1 !! o = srv !! o) by (intros o Ho; by apply lookup_insert_ne).
  assert (Hlocks : forall osid r' l', LockState.lanes (m_locks m0) !! osid = Some r' -> r' <> r -> m_lock_heap m !! r' = Some l' ->
    ll_owner l' <> ll_owner lock /\ ll_owner l' <> ol_owner open).
  { intros osid r' l' Ho Hn Hl'. pose proof (H3 r') as H3'. rewrite Hl' in H3'. cbn in H3'.
    destruct (m_lock_heap m0 !! r') as [l0'|] eqn:Hl0'; cbn in H3'; [|done]. injection H3' as ->. split.
    - intros He. apply Hn. exact (tk_distinct _ Hk _ _ _ _ _ _ Ho Hl0' Hsid0 Hl0 He).
    - rewrite Hlo. unfold OpenState.by_owner in Hby. rewrite H1 in Hby. exact (tk_owner _ Hk _ _ _ _ _ Ho Hl0' Hby). }
  split; cbn [fst snd].
  - done.
  - eapply lock_step_opens; try done. intros owner r' Ho. exact (tk_owner _ Hk _ _ _ _ _ Hsid0 Hl0 Ho).
  - intros r'. rewrite <- H3. cbn. destruct (decide (r' = r)) as [->|Hn]; [by rewrite lookup_insert_eq, Hr|by rewrite lookup_insert_ne].
  - done.
  - intros r' Hr'. apply H5. rewrite Hperm. by right.
  - intros osid r' Ho Hr'. assert (r' <> r) by congruence. eapply lock_step_others; try done. apply H6; [done|]. rewrite Hperm. by right.
  - intros osid r' Ho Hr'. destruct (decide (r' = r)) as [->|Hn].
    + exists (lock_with lock 1 sid). cbn. rewrite !lookup_insert_eq. destruct (tk_lock _ Hk _ _ Ho) as (l2 & Hl2 & <-).
      rewrite Hl0 in Hl2. injection Hl2 as <-. split_and!; [done|done|done| |by rewrite lookup_insert_eq].
      rewrite lookup_insert_ne; [by rewrite lookup_delete_eq|]. destruct Hfresh as [Hf _]. congruence.
    + eapply lock_step_others; try done; [|by eauto]. apply H7; [done|]. rewrite Hperm. set_solver.
Qed.

(** The groups hold every lock once. *)
Lemma add_lane_perm m groups r : is_Some (m_lock_heap m !! r) ->
  concat (map snd (map_to_list (add_lane m groups r))) ≡ₚ r :: concat (map snd (map_to_list groups)).
Proof.
  intros [lock Hl]. unfold add_lane. rewrite Hl. destruct (groups !! ll_open_owner lock) as [l|] eqn:Hg; cbn [default].
  - rewrite <- (insert_delete_id groups (ll_open_owner lock) l Hg) at 2. rewrite <- insert_delete_eq.
    rewrite !map_to_list_insert by apply lookup_delete_eq. cbn [map snd concat]. rewrite <- app_assoc. cbn [app].
    symmetry. apply Permutation_middle.
  - rewrite map_to_list_insert by done. done.
Qed.
Lemma groups_perm m l groups : Forall (fun r => is_Some (m_lock_heap m !! r)) l ->
  concat (map snd (map_to_list (fold_left (add_lane m) l groups))) ≡ₚ l ++ concat (map snd (map_to_list groups)).
Proof.
  intros Hl. revert groups. induction Hl as [|r l Hr Hl IH]; intros groups; cbn [fold_left app]; [done|].
  rewrite IH, add_lane_perm by done. symmetry. apply Permutation_middle.
Qed.

Lemma snapshot_locks_spec m r : r ∈ snapshot_locks m <-> exists sid, LockState.lanes (m_locks m) !! sid = Some r.
Proof.
  unfold snapshot_locks. rewrite sort_by_perm. rewrite list_elem_of_fmap. split.
  - intros ([sid r'] & -> & Hin). apply elem_of_map_to_list in Hin. by exists sid.
  - intros [sid Ho]. exists (sid, r). split; [done|]. by apply elem_of_map_to_list.
Qed.
Lemma snapshot_locks_nodup m : (forall sid r, LockState.lanes (m_locks m) !! sid = Some r ->
    exists l, m_lock_heap m !! r = Some l /\ ll_stateid l = sid) -> NoDup (snapshot_locks m).
Proof.
  intros Hk. unfold snapshot_locks. rewrite sort_by_perm. apply NoDup_fmap_2_strong; [|apply NoDup_map_to_list].
  intros [sid r] [sid' r'] Hx Hy He. cbn in He. subst r'. apply elem_of_map_to_list in Hx, Hy.
  destruct (Hk _ _ Hx) as (l & Hl & <-). destruct (Hk _ _ Hy) as (l' & Hl' & <-). congruence.
Qed.

Lemma locks_init m0 m srv : tables_ok m0 -> opens_inv m0 (m, srv, []) -> locks_inv m0 (m, srv, lock_groups m).
Proof.
  intros Hk [H1 H2 H3 H4 _ H6]. cbn [fst snd] in *.
  assert (Hlk : forall sid r, LockState.lanes (m_locks m) !! sid = Some r -> exists l, m_lock_heap m !! r = Some l /\ ll_stateid l = sid).
  { rewrite H2, H3. apply (tk_lock _ Hk). }
  assert (Hp : concat (lock_groups m) ≡ₚ snapshot_locks m).
  { unfold lock_groups. rewrite groups_perm, map_to_list_empty; [cbn; by rewrite app_nil_r|].
    apply Forall_forall. intros r [sid Hr]%snapshot_locks_spec. destruct (Hlk _ _ Hr) as (l & -> & _). by eexists. }
  split; cbn [fst snd].
  - done.
  - intros owner r Ho. destruct (H6 _ _ Ho) as [Hin|Ha]; [by apply elem_of_nil in Hin|exact Ha].
  - intros r. by rewrite H3.
  - rewrite Hp. by apply snapshot_locks_nodup.
  - intros r. rewrite Hp, snapshot_locks_spec, H2. done.
  - intros sid r Ho _. split; [by rewrite H3|by rewrite H2].
  - intros sid r Ho Hn. exfalso. apply Hn. rewrite Hp, snapshot_locks_spec, H2. by exists sid.
Qed.

Lemma recovered_inv m0 m srv : tables_ok m0 -> recovered m0 m srv -> exists groups, concat groups = [] /\ locks_inv m0 (m, srv, groups).
Proof.
  intros Hk [rpc identity addr client_id m1 srv1 m2 srv2 groups Hid _ Ho Hl Hc]. exists groups. split; [done|].
  pose proof (locks_init _ _ _ Hk (opens_reclaimed _ _ _ _ Hid Hk Ho)) as Hi. revert Hl Hi.
  generalize (m1, srv1, lock_groups m1). intros c Hl. remember (m2, srv2, groups) as c'.
  induction Hl as [|c1 c2 c3 Hs Hr IH]; intros Hi; subst; [done|]. apply IH; [done|]. by eapply lock_step_inv.
Qed.

(** C34: a recovery that succeeds gives the client all its state back. After the
    server has lost everything, and in every order in which the reclaims of files
    and of the locks of different owners may interleave, each open file and each
    lock that the client held is known to the new server, which takes the numbers,
    the state ids, the client and the claims from the encoded requests: the
    sequence numbers that the client will use for their owners are those the
    server expects, the state ids that it holds for them are those the server gave
    out now, and each lock is found both under the state id its holder has and
    under the new one. *)
Theorem recovery_reclaims_everything m0 m srv :
  tables_ok m0 -> recovered m0 m srv ->
  (forall owner r, OpenState.lanes (m_state m0) !! owner = Some r -> open_agrees m srv owner r) /\
  (forall sid r, LockState.lanes (m_locks m0) !! sid = Some r ->
     exists l, m_lock_heap m !! r = Some l /\ srv !! ll_owner l = Some (ll_next_seqid l, ll_stateid l) /\
     LockState.by_stateid (m_locks m) sid = Some r /\ LockState.by_stateid (m_locks m) (ll_stateid l) = Some r).
Proof.
  intros Hk Hr. destruct (recovered_inv _ _ _ Hk Hr) as (groups & Hg & [_ H2 _ _ _ _ H7]). cbn [fst snd] in *.
  split; [exact H2|]. intros sid r Ho. destruct (H7 _ _ Ho) as (l & Hl & Hs & K1 & K2 & K3); [rewrite Hg; apply not_elem_of_nil|].
  exists l. unfold LockState.by_stateid. by rewrite K1, K2, K3.
Qed.

(** When it fails nothing is kept that the server might not know. *)
Lemma failed_recovery_gives_up m lease e :
  let '(r, m', lease') := recover_or_lose (Err e) m lease in
  r = Err (lost_outcome e) /\ (forall owner, OpenState.by_owner (m_state m') owner = None) /\
  (forall sid, LockState.by_stateid (m_locks m') sid = None) /\ mh_lifecycle (health lease') = LostState.
Proof. cbn. split_and!; try done; intros; unfold OpenState.by_owner, LockState.by_stateid; cbn; by rewrite !lookup_empty. Qed.

(** A client with one file and a lock on it. *)
Definition held_lane : LockLane :=
  {| ll_owner := 2; ll_open_owner := 1; ll_owner_wire := of_str "lo"; ll_next_seqid := 4; ll_stateid := be_bytes 16 1;
     ll_fh := of_str "fh"; ll_lock_type := 2; ll_offset := 0; ll_length := 10 |}.
Definition held_open : OwnerLane :=
  {| ol_owner := 1; ol_next_seqid := 5; ol_stateid := zeros 16; ol_fh := of_str "fh"; ol_access := 3;
     ol_write_verifier := None; ol_closing := false |}.
Definition held_mount : Mount40 := register_lock (register_open (mount40_new new_null 7 9) held_open) held_lane.
Definition identity_rpc (request : bytes) : result bytes :=
  if (80 <? remaining request)
  then Ok (xdr_u32 0 ++ xdr_opaque [] ++ xdr_u32 1 ++ V40.enc_ok 35 ++ xdr_u64 8 ++ zeros 8)
  else Ok (xdr_u32 0 ++ xdr_opaque [] ++ xdr_u32 1 ++ V40.enc_ok 36).
Definition open_rpc (_ : bytes) : result bytes :=
  Ok (V40.enc_open_reply [] (be_bytes 16 2) (zeros 20) 0 [] V40.WireNone (of_str "fh")).
Definition lock_rpc (_ : bytes) : result bytes :=
  Ok (lock_reply 12 0 [] (be_bytes 16 3) demo_denied).
Definition held_identity : ClientIdentity := ClientIdentity_new (zeros 8) 77.
Definition reopened : Mount40 := (reclaim_open open_rpc (set_client_id held_mount 8) 8 0).2.
Definition relocked : Mount40 := (reclaim_lock lock_rpc reopened 8 1).2.
Definition open_server : reclaim_server :=
  open_reclaimed 8 (reclaim_open_request (set_client_id held_mount 8) 8 held_open) 1 (be_bytes 16 2) ∅.
Definition new_server : reclaim_server :=
  lock_reclaimed 8 (reclaim_lock_request reopened 8 (with_seqid (with_stateid held_open (be_bytes 16 2)) 1) held_lane) 1 2 (be_bytes 16 3) open_server.
Example new_server_state : new_server !! 1 = Some (2, be_bytes 16 2) /\ new_server !! 2 = Some (1, be_bytes 16 3).
Proof. vm_compute. done. Qed.

Lemma held_lock sid r : LockState.lanes (m_locks held_mount) !! sid = Some r -> sid = be_bytes 16 1 /\ r = 1.
Proof. cbn. intros H. apply lookup_insert_Some in H as [[<- <-]|[_ H]]; done. Qed.
Lemma held_tables : tables_ok held_mount.
Proof.
  split.
  - intros owner r. cbn. rewrite lookup_insert_Some, lookup_empty. intros [[<- <-]|[_ ?]]; [|done]. eexists. split; [reflexivity|done].
  - intros sid r. cbn. rewrite lookup_insert_Some, lookup_empty. intros [[<- <-]|[_ ?]]; [|done]. eexists. split; [reflexivity|done].
  - intros sid r l owner ro Hs Hl Ho. apply held_lock in Hs as [-> ->]. cbn in Ho. apply lookup_insert_Some in Ho as [[<- _]|[_ Ho]]; [|done].
    vm_compute in Hl. by injection Hl as <-.
  - intros sid r l sid' r' l' Hs _ Hs' _ _. apply held_lock in Hs as [_ ->]. by apply held_lock in Hs' as [_ ->].
Qed.

Lemma reclaimed_pair (x : result () * Mount40) : x.1 = Ok () -> x = (Ok (), x.2).
Proof. destruct x. by intros [= ->]. Qed.
Lemma held_reopened : reclaim_open open_rpc (set_client_id held_mount 8) 8 0 = (Ok (), reopened).
Proof. apply reclaimed_pair. by vm_compute. Qed.
Lemma held_relocked : reclaim_lock lock_rpc reopened 8 1 = (Ok (), relocked).
Proof. apply reclaimed_pair. by vm_compute. Qed.
Lemma held_open_step : open_step 8 (set_client_id held_mount 8, ∅, [0]) (reopened, open_server, []).
Proof.
  assert (K1 : m_open_heap (set_client_id held_mount 8) !! 0 = Some held_open) by by vm_compute.
  assert (K2 : fits (set_client_id held_mount 8) (ol_fh held_open)) by by vm_compute.
  assert (K3 : V40.decode_open_response (V40.enc_open_reply [] (be_bytes 16 2) (zeros 20) 0 [] V40.WireNone (of_str "fh")) =
    Ok ({| V40.or_stateid := be_bytes 16 2; V40.confirm_required := false; V40.delegation := None |}, of_str "fh"))
    by (vm_compute; reflexivity).
  exact (os_reclaim 8 open_rpc (set_client_id held_mount 8) ∅ [] 0 [] held_open reopened _ _ _ K1 K2 held_reopened eq_refl K3).
Qed.
Lemma held_lock_step : lock_step 8 (reopened, open_server, [[1]]) (relocked, new_server, [[]]).
Proof.
  set (open := with_seqid (with_stateid held_open (be_bytes 16 2)) 1).
  assert (K1 : m_lock_heap reopened !! 1 = Some held_lane) by by vm_compute.
  assert (K2 : OpenState.by_owner (m_state reopened) (ll_open_owner held_lane) = Some 0) by by vm_compute.
  assert (K3 : m_open_heap reopened !! 0 = Some open) by by vm_compute.
  assert (K4 : fits reopened (ll_fh held_lane)) by by vm_compute.
  assert (K5 : is_u32 (ol_next_seqid open) /\ remaining (ol_stateid open) = 16) by by vm_compute.
  assert (K6 : V40.decode_lock_response (lock_reply 12 0 [] (be_bytes 16 3) demo_denied) 12 "LOCK" = Ok (be_bytes 16 3))
    by (vm_compute; reflexivity).
  assert (K7 : fresh_stateid reopened (be_bytes 16 3)) by (split; by vm_compute).
  exact (ls_reclaim 8 lock_rpc reopened open_server [] 1 [] [] held_lane 0 open relocked _ _ K1 K2 K3 K4 (proj1 K5) (proj2 K5)
    held_relocked eq_refl K6 K7).
Qed.

Lemma held_recovered : recovered held_mount relocked new_server.
Proof.
  apply (rec_intro held_mount identity_rpc held_identity None 8 reopened open_server relocked new_server [[]]); [by vm_compute|by vm_compute| | |done].
  - change (snapshot_opens held_mount) with [0]. apply rtc_once, held_open_step.
  - assert (Hg : lock_groups reopened = [[1]]) by by vm_compute. rewrite Hg. apply rtc_once, held_lock_step.
Qed.

Lemma recovery_reclaims_everything_witness :
  open_agrees relocked new_server 1 0 /\ LockState.by_stateid (m_locks relocked) (be_bytes 16 1) = Some 1.
Proof.
  destruct (recovery_reclaims_everything held_mount relocked new_server held_tables held_recovered) as [H1 H2]. split.
  - apply H1. by vm_compute.
  - edestruct (H2 (be_bytes 16 1) 1) as (l & _ & _ & H & _); [by vm_compute|exact H].
Defined.
