(* ===== verification/Args3.v ===== *)
(** * NFSv3 requests

    Models the request side of [src/src/nfs3/mod.rs]: the procedures with their
    names, classes and replay policies, the XDR writers, the argument structures
    and how each is laid out behind the RPC header. The payload of WRITE is not
    copied into the request: its length is, and the transport sends the data and
    its padding behind it. *)
From S2P Require Import Prelude Errors Xdr4 Rpc Attrs4.
From stdpp Require Import base list numbers strings.
#[local] Open Scope Z_scope.

(** ** Procedures *)

Inductive MountProc3 : Type := MountNull | MountMount | MountUmount | MountExport.
Definition mount_proc_number (p : MountProc3) : Z :=
  match p with MountNull => 0 | MountMount => 1 | MountUmount => 3 | MountExport => 5 end.

Module NFSProc3.
Inductive t : Type :=
| Null | GetAttr | SetAttr | Lookup | Access | Readlink | Read | Write | Create | Mkdir | Symlink | Remove | Rmdir | Rename
| Link | Readdir | Readdirplus | FSStat | FSInfo | Pathconf | Commit.

(** [self as u32] *)
Definition number (p : t) : Z :=
  match p with
  | Null => 0 | GetAttr => 1 | SetAttr => 2 | Lookup => 3 | Access => 4 | Readlink => 5 | Read => 6 | Write => 7
  | Create => 8 | Mkdir => 9 | Symlink => 10 | Remove => 12 | Rmdir => 13 | Rename => 14 | Link => 15 | Readdir => 16
  | Readdirplus => 17 | FSStat => 18 | FSInfo => 19 | Pathconf => 20 | Commit => 21
  end.

Definition metadata (p : t) : string * OperationClass :=
  match p with
  | Null => ("null", ReadOnly)
  | GetAttr => ("getattr", ReadOnly)
  | SetAttr => ("setattr", ReplaySensitive)
  | Lookup => ("lookup", ReadOnly)
  | Access => ("access", ReadOnly)
  | Readlink => ("readlink", ReadOnly)
  | Read => ("read", ReadOnly)
  | Write => ("write", ReplaySensitive)
  | Create => ("create", ReplaySensitive)
  | Mkdir => ("mkdir", ReplaySensitive)
  | Symlink => ("symlink", ReplaySensitive)
  | Remove => ("remove", ReplaySensitive)
  | Rmdir => ("rmdir", ReplaySensitive)
  | Rename => ("rename", ReplaySensitive)
  | Link => ("link", ReplaySensitive)
  | Readdir => ("readdir", ReadOnly)
  | Readdirplus => ("readdirplus", ReadOnly)
  | FSStat => ("fsstat", ReadOnly)
  | FSInfo => ("fsinfo", ReadOnly)
  | Pathconf => ("pathconf", ReadOnly)
  | Commit => ("commit", ReplaySensitive)
  end%string.
Definition operation_class (p : t) : OperationClass := (metadata p).2.
Definition operation_name (p : t) : string := (metadata p).1.

Definition NFS_RETRIES : nat := 10.
Definition NFS_REPLAY : ReplayPolicy := {| max_attempts := NFS_RETRIES |}.
Definition replay_policy (p : t) : ReplayPolicy :=
  match operation_class p with ReadOnly => NFS_REPLAY | SessionControl | ReplaySensitive => ONE_ATTEMPT end.
Definition request_context (p : t) : RequestContext :=
  {| operation := operation_name p; protocol := NFSv3; request_id := None |}.
End NFSProc3.

Definition MOUNT_RETRIES : nat := 2.
Definition MOUNT_REPLAY : ReplayPolicy := {| max_attempts := MOUNT_RETRIES |}.
(** Timeouts in seconds. *)
Definition METADATA_TIMEOUT : Z := 5.
Definition DATA_TIMEOUT_BASE_SECS : Z := 10.
Definition MIN_BANDWIDTH_BYTES_PER_SEC : Z := 1250000.
Definition data_timeout (data_size : Z) : Z := DATA_TIMEOUT_BASE_SECS + data_size / MIN_BANDWIDTH_BYTES_PER_SEC.

(** ** Writers *)

Definition xdr_i32 (v : Z) : bytes := be_bytes 4 v.
Definition xdr_fixed_bytes (data : bytes) : bytes := data ++ zeros ((4 - remaining data mod 4) mod 4).
Definition xdr_var_bytes (data : bytes) : bytes := xdr_u32 (remaining data) ++ xdr_fixed_bytes data.
Definition xdr_string (s : bytes) : bytes := xdr_var_bytes s.
Definition encode_dirpath (path : bytes) : bytes := xdr_string path.

(** ** Arguments *)

Record diropargs3 : Type := { dop_dir : bytes; dop_name : bytes }.
Definition diropargs3_encode (d : diropargs3) : bytes := xdr_var_bytes (dop_dir d) ++ xdr_string (dop_name d).

(** Each attribute is set or left alone; a time is set to the client's. *)
Record sattr3 : Type := {
  sa_mode : option Z; sa_uid : option Z; sa_gid : option Z; sa_size : option Z; sa_atime : option Time; sa_mtime : option Time
}.
Definition sattr3_default : sattr3 :=
  {| sa_mode := None; sa_uid := None; sa_gid := None; sa_size := None; sa_atime := None; sa_mtime := None |}.

Definition nfstime3_encode (t : Time) : bytes := xdr_u32 (seconds t) ++ xdr_u32 (nseconds t).
Definition set_encode {A : Type} (enc : A -> bytes) (how : Z) (v : option A) : bytes :=
  match v with Some v => xdr_i32 how ++ enc v | None => xdr_i32 0 end.
Definition sattr3_encode (a : sattr3) : bytes :=
  set_encode xdr_u32 1 (sa_mode a) ++ set_encode xdr_u32 1 (sa_uid a) ++ set_encode xdr_u32 1 (sa_gid a) ++
  set_encode xdr_u64 1 (sa_size a) ++ set_encode nfstime3_encode 2 (sa_atime a) ++ set_encode nfstime3_encode 2 (sa_mtime a).

(** [sattrguard3] is an optional time. *)
Definition sattrguard3_encode (g : option Time) : bytes := set_encode nfstime3_encode 1 g.

Inductive createhow3 : Type := UNCHECKED (a : sattr3) | GUARDED (a : sattr3) | EXCLUSIVE (v : bytes).
Definition createhow3_encode (h : createhow3) : bytes :=
  match h with
  | UNCHECKED a => xdr_i32 0 ++ sattr3_encode a
  | GUARDED a => xdr_i32 1 ++ sattr3_encode a
  | EXCLUSIVE v => xdr_i32 2 ++ v
  end.

Inductive WriteStable : Type := Unstable3 | DataSync3 | FileSync3.
Definition as_i32 (s : WriteStable) : Z := match s with Unstable3 => 0 | DataSync3 => 1 | FileSync3 => 2 end.

(** The argument structures, one constructor each. *)
Inductive Args3 : Type :=
| NULL3args
| GETATTR3args (object : bytes)
| ACCESS3args (object : bytes) (access : Z)
| READLINK3args (symlink : bytes)
| READ3args (file : bytes) (offset count : Z)
| WRITE3args (file : bytes) (offset count : Z) (stable : WriteStable) (data : bytes)
| CREATE3args (where_ : diropargs3) (how : createhow3)
| MKDIR3args (where_ : diropargs3) (attrs : sattr3)
| SYMLINK3args (where_ : diropargs3) (symlink_attributes : sattr3) (symlink_data : bytes)
| REMOVE3args (object : diropargs3)
| RMDIR3args (object : diropargs3)
| RENAME3args (from to : diropargs3)
| LINK3args (file : bytes) (link : diropargs3)
| READDIR3args (dir : bytes) (cookie : Z) (cookieverf : bytes) (count : Z)
| READDIRPLUS3args (dir : bytes) (cookie : Z) (cookieverf : bytes) (dircount maxcount : Z)
| FSSTAT3args (fsroot : bytes)
| FSINFO3args (fsroot : bytes)
| PATHCONF3args (object : bytes)
| COMMIT3args (file : bytes) (offset count : Z)
| SETATTR3args (object : bytes) (new_attributes : sattr3) (guard : option Time)
| LOOKUP3args (what : diropargs3).

Definition args_encode (a : Args3) : bytes :=
  match a with
  | NULL3args => []
  | GETATTR3args object => xdr_var_bytes object
  | ACCESS3args object access => xdr_var_bytes object ++ xdr_u32 access
  | READLINK3args symlink => xdr_var_bytes symlink
  | READ3args file offset count => xdr_var_bytes file ++ xdr_u64 offset ++ xdr_u32 count
  | WRITE3args file offset count stable data =>
      xdr_var_bytes file ++ xdr_u64 offset ++ xdr_u32 count ++ xdr_i32 (as_i32 stable) ++ xdr_u32 (remaining data)
  | CREATE3args where_ how => diropargs3_encode where_ ++ createhow3_encode how
  | MKDIR3args where_ attrs => diropargs3_encode where_ ++ sattr3_encode attrs
  | SYMLINK3args where_ attributes data => diropargs3_encode where_ ++ sattr3_encode attributes ++ xdr_string data
  | REMOVE3args object | RMDIR3args object => diropargs3_encode object
  | RENAME3args from to => diropargs3_encode from ++ diropargs3_encode to
  | LINK3args file link => xdr_var_bytes file ++ diropargs3_encode link
  | READDIR3args dir cookie cookieverf count => xdr_var_bytes dir ++ xdr_u64 cookie ++ cookieverf ++ xdr_u32 count
  | READDIRPLUS3args dir cookie cookieverf dircount maxcount =>
      xdr_var_bytes dir ++ xdr_u64 cookie ++ cookieverf ++ xdr_u32 dircount ++ xdr_u32 maxcount
  | FSSTAT3args fsroot | FSINFO3args fsroot => xdr_var_bytes fsroot
  | PATHCONF3args object => xdr_var_bytes object
  | COMMIT3args file offset count => xdr_var_bytes file ++ xdr_u64 offset ++ xdr_u32 count
  | SETATTR3args object new_attributes guard =>
      xdr_var_bytes object ++ sattr3_encode new_attributes ++ sattrguard3_encode guard
  | LOOKUP3args what => diropargs3_encode what
  end.

(** The procedure each structure goes to, by the uses of [nfs3_call!]. *)
Definition procedure_of (a : Args3) : NFSProc3.t :=
  match a with
  | NULL3args => NFSProc3.Null
  | GETATTR3args _ => NFSProc3.GetAttr
  | ACCESS3args _ _ => NFSProc3.Access
  | READLINK3args _ => NFSProc3.Readlink
  | READ3args _ _ _ => NFSProc3.Read
  | WRITE3args _ _ _ _ _ => NFSProc3.Write
  | CREATE3args _ _ => NFSProc3.Create
  | MKDIR3args _ _ => NFSProc3.Mkdir
  | SYMLINK3args _ _ _ => NFSProc3.Symlink
  | REMOVE3args _ => NFSProc3.Remove
  | RMDIR3args _ => NFSProc3.Rmdir
  | RENAME3args _ _ => NFSProc3.Rename
  | LINK3args _ _ => NFSProc3.Link
  | READDIR3args _ _ _ _ => NFSProc3.Readdir
  | READDIRPLUS3args _ _ _ _ _ => NFSProc3.Readdirplus
  | FSSTAT3args _ => NFSProc3.FSStat
  | FSINFO3args _ => NFSProc3.FSInfo
  | PATHCONF3args _ => NFSProc3.Pathconf
  | COMMIT3args _ _ _ => NFSProc3.Commit
  | SETATTR3args _ _ _ => NFSProc3.SetAttr
  | LOOKUP3args _ => NFSProc3.Lookup
  end.
(** The payload that is sent behind the request, and the timeout of the call. *)
Definition payload_of (a : Args3) : bytes := match a with WRITE3args _ _ _ _ data => data | _ => [] end.
Definition timeout_of (a : Args3) : Z :=
  match a with
  | READ3args _ _ count => data_timeout count
  | WRITE3args _ _ _ _ data => data_timeout (remaining data)
  | READDIR3args _ _ _ count => data_timeout count
  | READDIRPLUS3args _ _ _ _ maxcount => data_timeout maxcount
  | _ => METADATA_TIMEOUT
  end.

Definition NFS3_VERSION : Z := 3.
Definition MOUNT3_VERSION : Z := 3.
Definition pack_nfs3 (auth : Auth) (a : Args3) : bytes :=
  Header_encode (rpc_header NFS_PROG NFS3_VERSION (NFSProc3.number (procedure_of a)) auth) ++ args_encode a.

(** ** What a server reads

    A reader of calls written from RFC 5531 and RFC 1813, for the theorem only. *)
Module Rfc1813.
Definition bad (what : string) : NfsError := Rpc what.

Definition take_u64 (buf : bytes) : result (Z * bytes) := let* _ := require 8 (bad "truncated") buf in get_u64 buf.
Definition take_fixed (n : Z) (buf : bytes) : result (bytes * bytes) :=
  let* _ := require n (bad "truncated") buf in split_to n buf.
Definition opaque (buf : bytes) : result (bytes * bytes) := take_opaque buf "opaque".
Definition uint (buf : bytes) : result (Z * bytes) := take_u32 buf "unsigned".
Definition time (buf : bytes) : result (Time * bytes) :=
  let* (s, buf) := uint buf in let* (n, buf) := uint buf in Ok ({| seconds := s; nseconds := n |}, buf).
Definition union {A : Type} (arm : bytes -> result (A * bytes)) (how : Z) (buf : bytes) : result (option A * bytes) :=
  let* (d, buf) := uint buf in
  if d =? 0 then Ok (None, buf)
  else if d =? how then let* (v, buf) := arm buf in Ok (Some v, buf)
  else Err (bad "discriminant").
Definition sattr (buf : bytes) : result (sattr3 * bytes) :=
  let* (mode, buf) := union uint 1 buf in
  let* (u, buf) := union uint 1 buf in
  let* (g, buf) := union uint 1 buf in
  let* (size, buf) := union take_u64 1 buf in
  let* (atime, buf) := union time 2 buf in
  let* (mtime, buf) := union time 2 buf in
  Ok ({| sa_mode := mode; sa_uid := u; sa_gid := g; sa_size := size; sa_atime := atime; sa_mtime := mtime |}, buf).
Definition dirop (buf : bytes) : result (diropargs3 * bytes) :=
  let* (dir, buf) := opaque buf in let* (name, buf) := opaque buf in Ok ({| dop_dir := dir; dop_name := name |}, buf).
Definition createhow (buf : bytes) : result (createhow3 * bytes) :=
  let* (d, buf) := uint buf in
  if d =? 0 then let* (a, buf) := sattr buf in Ok (UNCHECKED a, buf)
  else if d =? 1 then let* (a, buf) := sattr buf in Ok (GUARDED a, buf)
  else if d =? 2 then let* (v, buf) := take_fixed 8 buf in Ok (EXCLUSIVE v, buf)
  else Err (bad "createmode3").
Definition stable_how (buf : bytes) : result (WriteStable * bytes) :=
  let* (d, buf) := uint buf in
  if d =? 0 then Ok (Unstable3, buf) else if d =? 1 then Ok (DataSync3, buf)
  else if d =? 2 then Ok (FileSync3, buf) else Err (bad "stable_how").
Definition span (c : bytes -> Z -> Z -> Args3) (buf : bytes) : result (Args3 * bytes) :=
  let* (file, buf) := opaque buf in let* (offset, buf) := take_u64 buf in let* (count, buf) := uint buf in
  Ok (c file offset count, buf).
Definition handle (c : bytes -> Args3) (buf : bytes) : result (Args3 * bytes) :=
  let* (object, buf) := opaque buf in Ok (c object, buf).
Definition entry (c : diropargs3 -> Args3) (buf : bytes) : result (Args3 * bytes) :=
  let* (d, buf) := dirop buf in Ok (c d, buf).

Definition arguments (procedure : Z) (buf : bytes) : result (Args3 * bytes) :=
  match procedure with
  | 0 => Ok (NULL3args, buf)
  | 1 => handle GETATTR3args buf
  | 2 => let* (object, buf) := opaque buf in let* (a, buf) := sattr buf in let* (g, buf) := union time 1 buf in
         Ok (SETATTR3args object a g, buf)
  | 3 => entry LOOKUP3args buf
  | 4 => let* (object, buf) := opaque buf in let* (access, buf) := uint buf in Ok (ACCESS3args object access, buf)
  | 5 => handle READLINK3args buf
  | 6 => span READ3args buf
  | 7 => let* (file, buf) := opaque buf in let* (offset, buf) := take_u64 buf in let* (count, buf) := uint buf in
         let* (stable, buf) := stable_how buf in let* (data, buf) := opaque buf in
         Ok (WRITE3args file offset count stable data, buf)
  | 8 => let* (d, buf) := dirop buf in let* (how, buf) := createhow buf in Ok (CREATE3args d how, buf)
  | 9 => let* (d, buf) := dirop buf in let* (a, buf) := sattr buf in Ok (MKDIR3args d a, buf)
  | 10 => let* (d, buf) := dirop buf in let* (a, buf) := sattr buf in let* (path, buf) := opaque buf in
          Ok (SYMLINK3args d a path, buf)
  | 12 => entry REMOVE3args buf
  | 13 => entry RMDIR3args buf
  | 14 => let* (from, buf) := dirop buf in let* (to, buf) := dirop buf in Ok (RENAME3args from to, buf)
  | 15 => let* (file, buf) := opaque buf in let* (link, buf) := dirop buf in Ok (LINK3args file link, buf)
  | 16 => let* (dir, buf) := opaque buf in let* (cookie, buf) := take_u64 buf in let* (verf, buf) := take_fixed 8 buf in
          let* (count, buf) := uint buf in Ok (READDIR3args dir cookie verf count, buf)
  | 17 => let* (dir, buf) := opaque buf in let* (cookie, buf) := take_u64 buf in let* (verf, buf) := take_fixed 8 buf in
          let* (dircount, buf) := uint buf in let* (maxcount, buf) := uint buf in
          Ok (READDIRPLUS3args dir cookie verf dircount maxcount, buf)
  | 18 => handle FSSTAT3args buf
  | 19 => handle FSINFO3args buf
  | 20 => handle PATHCONF3args buf
  | 21 => span COMMIT3args buf
  | _ => Err (bad "PROC_UNAVAIL")
  end.

(** A record of one fragment that holds one call of NFS version 3: the transaction id, the
    credentials and the arguments, with nothing behind them. *)
Definition call (s : bytes) : result (Z * Z * bytes * Args3) :=
  let* (last, size, s) := read_mark s in
  if negb last || negb (size =? remaining s) then Err (bad "record")
  else
    let* (xid, s) := uint s in
    let* (mtype, s) := uint s in
    let* (rpcvers, s) := uint s in
    let* (prog, s) := uint s in
    let* (vers, s) := uint s in
    let* (proc, s) := uint s in
    let* (flavor, s) := uint s in
    let* (body, s) := opaque s in
    let* (_, s) := uint s in
    let* (_, s) := opaque s in
    if negb ((mtype =? 0) && (rpcvers =? 2) && (prog =? 100003) && (vers =? 3)) then Err (bad "call")
    else
      let* (a, s) := arguments proc s in
      if negb (bool_decide (s = [])) then Err (bad "trailing") else Ok (xid, flavor, body, a).
End Rfc1813.

(** Values that fit their types. *)
Definition len_ok (v : bytes) : Prop := remaining v < 2 ^ 32.
Definition dirop_ok (d : diropargs3) : Prop := len_ok (dop_dir d) /\ len_ok (dop_name d).
Definition time_ok (t : Time) : Prop := is_u32 (seconds t) /\ is_u32 (nseconds t).
Definition opt_ok {A : Type} (P : A -> Prop) (v : option A) : Prop := match v with Some v => P v | None => True end.
Definition sattr_ok (a : sattr3) : Prop :=
  opt_ok is_u32 (sa_mode a) /\ opt_ok is_u32 (sa_uid a) /\ opt_ok is_u32 (sa_gid a) /\ opt_ok is_u64 (sa_size a) /\
  opt_ok time_ok (sa_atime a) /\ opt_ok time_ok (sa_mtime a).
Definition how_ok (h : createhow3) : Prop :=
  match h with UNCHECKED a | GUARDED a => sattr_ok a | EXCLUSIVE v => remaining v = 8 end.
Definition args_ok (a : Args3) : Prop :=
  match a with
  | NULL3args => True
  | GETATTR3args v | READLINK3args v | FSSTAT3args v | FSINFO3args v | PATHCONF3args v => len_ok v
  | ACCESS3args v access => len_ok v /\ is_u32 access
  | READ3args v offset count | COMMIT3args v offset count => len_ok v /\ is_u64 offset /\ is_u32 count
  | WRITE3args v offset count _ data => len_ok v /\ is_u64 offset /\ is_u32 count /\ len_ok data
  | CREATE3args d how => dirop_ok d /\ how_ok how
  | MKDIR3args d a => dirop_ok d /\ sattr_ok a
  | SYMLINK3args d a path => dirop_ok d /\ sattr_ok a /\ len_ok path
  | REMOVE3args d | RMDIR3args d | LOOKUP3args d => dirop_ok d
  | RENAME3args from to => dirop_ok from /\ dirop_ok to
  | LINK3args v d => len_ok v /\ dirop_ok d
  | READDIR3args v cookie verf count => len_ok v /\ is_u64 cookie /\ remaining verf = 8 /\ is_u32 count
  | READDIRPLUS3args v cookie verf dircount maxcount =>
      len_ok v /\ is_u64 cookie /\ remaining verf = 8 /\ is_u32 dircount /\ is_u32 maxcount
  | SETATTR3args v a g => len_ok v /\ sattr_ok a /\ opt_ok time_ok g
  end.

(** What stands behind the header on the wire. *)
Definition wire3 (a : Args3) : bytes :=
  args_encode a ++ (if bool_decide (payload_of a = []) then [] else payload_of a ++ zeros (data_pad (payload_of a))).

(** ** Reading back *)

Section ReadBack.
Import Rfc1813.

Lemma var_bytes_opaque v : xdr_var_bytes v = xdr_opaque v.
Proof. reflexivity. Qed.
Lemma opaque_enc v rest : len_ok v -> opaque (xdr_var_bytes v ++ rest) = Ok (v, rest).
Proof. intros H. rewrite var_bytes_opaque. by apply take_opaque_enc. Qed.
Lemma uint_enc v rest : is_u32 v -> uint (be_bytes 4 v ++ rest) = Ok (v, rest).
Proof. apply take_u32_enc. Qed.
Lemma take_u64_enc v rest : is_u64 v -> take_u64 (xdr_u64 v ++ rest) = Ok (v, rest).
Proof.
  intros H. unfold take_u64. rewrite require_app by (by rewrite remaining_xdr_u64). by apply get_u64_be.
Qed.
Lemma take_fixed_enc n v rest : remaining v = n -> take_fixed n (v ++ rest) = Ok (v, rest).
Proof. intros H. unfold take_fixed. rewrite require_app by lia. by apply split_to_app. Qed.
Lemma time_enc t rest : time_ok t -> time (nfstime3_encode t ++ rest) = Ok (t, rest).
Proof.
  intros [H1 H2]. unfold time, nfstime3_encode, xdr_u32. rewrite <- !app_assoc, uint_enc by done. cbn [obind].
  rewrite uint_enc by done. by destruct t.
Qed.
Lemma union_enc {A : Type} (P : A -> Prop) enc arm how v rest :
  is_u32 how -> how <> 0 -> (forall v rest, P v -> arm (enc v ++ rest) = Ok (v, rest)) -> opt_ok P v ->
  union arm how (set_encode enc how v ++ rest) = Ok (v, rest).
Proof.
  intros Hh Hn Harm Hv. unfold union, set_encode, xdr_i32. destruct v as [v|].
  - rewrite <- app_assoc, uint_enc by done. cbn [obind]. destruct (Z.eqb_spec how 0); [done|]. rewrite Z.eqb_refl.
    by rewrite Harm.
  - rewrite uint_enc by done. done.
Qed.
Lemma sattr_enc a rest : sattr_ok a -> sattr (sattr3_encode a ++ rest) = Ok (a, rest).
Proof.
  intros (H1 & H2 & H3 & H4 & H5 & H6). unfold sattr, sattr3_encode. rewrite <- !app_assoc.
  do 3 (rewrite (union_enc is_u32); [cbn [obind]|done|done|intros; by apply uint_enc|done]).
  rewrite (union_enc is_u64); [cbn [obind]|done|done|intros; by apply take_u64_enc|done].
  do 2 (rewrite (union_enc time_ok); [cbn [obind]|done|done|intros; by apply time_enc|done]).
  by destruct a.
Qed.
Lemma guard_enc g rest : opt_ok time_ok g -> union time 1 (sattrguard3_encode g ++ rest) = Ok (g, rest).
Proof. intros H. apply (union_enc time_ok); [done|done|intros; by apply time_enc|done]. Qed.
Lemma dirop_enc d rest : dirop_ok d -> dirop (diropargs3_encode d ++ rest) = Ok (d, rest).
Proof.
  intros [H1 H2]. unfold dirop, diropargs3_encode, xdr_string. rewrite <- !app_assoc, opaque_enc by done. cbn [obind].
  rewrite opaque_enc by done. by destruct d.
Qed.
Lemma createhow_enc h rest : how_ok h -> createhow (createhow3_encode h ++ rest) = Ok (h, rest).
Proof.
  intros H. unfold createhow, createhow3_encode, xdr_i32. destruct h; rewrite <- !app_assoc, uint_enc by done; cbn [obind Z.eqb].
  - by rewrite sattr_enc.
  - by rewrite sattr_enc.
  - by rewrite take_fixed_enc.
Qed.
Lemma stable_enc s rest : stable_how (xdr_i32 (as_i32 s) ++ rest) = Ok (s, rest).
Proof. unfold stable_how, xdr_i32. by destruct s; rewrite uint_enc by done. Qed.

(** The length in the request and the data behind it are one opaque. *)
Lemma payload_enc v rest :
  len_ok v ->
  opaque (xdr_u32 (remaining v) ++ (if bool_decide (v = []) then [] else v ++ zeros (data_pad v)) ++ rest) = Ok (v, rest).
Proof.
  intros H. rewrite <- (opaque_enc v rest H). f_equal. unfold xdr_var_bytes, xdr_fixed_bytes. rewrite <- !app_assoc. f_equal.
  case_bool_decide; [by subst|]. by rewrite <- app_assoc.
Qed.

Ltac read_back :=
  repeat (first
    [ rewrite opaque_enc by done | rewrite dirop_enc by done | rewrite sattr_enc by done | rewrite take_u64_enc by done
    | rewrite stable_enc | rewrite createhow_enc by done | rewrite guard_enc by done | rewrite payload_enc by done
    | rewrite take_fixed_enc by done | rewrite uint_enc by done ]; cbn [obind]).

Lemma arguments_enc a rest :
  args_ok a -> arguments (NFSProc3.number (procedure_of a)) (wire3 a ++ rest) = Ok (a, rest).
Proof.
  intros H. unfold wire3, xdr_string. destruct a; cbn [procedure_of NFSProc3.number arguments args_encode payload_of args_ok] in *;
    rewrite ?bool_decide_eq_true_2 by done; unfold handle, span, entry, xdr_string; rewrite <- ?app_assoc; cbn [app];
    unfold xdr_u32; destruct_and?; read_back; done.
Qed.
End ReadBack.

(** The size of the frame behind its mark. *)
Definition frame_size (auth : Auth) (a : Args3) : Z :=
  8 + remaining (pack_nfs3 auth a) + remaining (payload_of a) + data_pad (payload_of a).

Lemma frame_parts xid auth a :
  call_frame xid (pack_nfs3 auth a) (payload_of a) =
  xdr_u32 (Z.lor (wrap32 (frame_size auth a)) 0x80000000) ++ xdr_u32 xid ++ xdr_u32 0 ++ xdr_u32 2 ++ xdr_u32 100003 ++
  xdr_u32 3 ++ xdr_u32 (NFSProc3.number (procedure_of a)) ++ xdr_u32 (flavor_u32 (flavor auth)) ++ xdr_var_bytes (body auth) ++
  xdr_u32 0 ++ xdr_var_bytes [] ++ wire3 a.
Proof.
  unfold call_frame, frame_size, pack_nfs3, Header_encode, rpc_header, Auth_encode, wire3, xdr_var_bytes, xdr_fixed_bytes.
  cbn [rpcvers prog vers proc cred verf flavor body new_null]. rewrite <- !app_assoc. reflexivity.
Qed.
Lemma frame_length xid auth a :
  remaining (call_frame xid (pack_nfs3 auth a) (payload_of a)) = 4 + frame_size auth a.
Proof.
  unfold call_frame, frame_size. rewrite !remaining_app, !remaining_xdr_u32. case_bool_decide as He.
  - rewrite He. change (data_pad []) with 0. change (remaining []) with 0. lia.
  - rewrite remaining_app, remaining_zeros; [lia|]. pose proof (data_pad_range (payload_of a)). lia.
Qed.

(** C39: every NFSv3 request whose frame is under 2^31 bytes means on the wire what was asked. Whatever
    the procedure and its arguments, within the ranges of their XDR types, the frame the client sends is one complete record whose mark gives its length, and a server that
    reads it by RFC 5531 and RFC 1813 finds the transaction id, the credentials, exactly the procedure
    and exactly the arguments, with nothing behind them; the data of a WRITE, which is not part of the
    request buffer, included. *)
Theorem request3_read_back xid auth a :
  is_u32 xid -> len_ok (body auth) -> args_ok a -> frame_size auth a < 2 ^ 31 ->
  Rfc1813.call (call_frame xid (pack_nfs3 auth a) (payload_of a)) = Ok (xid, flavor_u32 (flavor auth), body auth, a).
Proof.
  intros Hx Hb Ha Hs. pose proof (frame_length xid auth a) as Hl. pose proof (frame_parts xid auth a) as Hf.
  assert (0 <= frame_size auth a) by (unfold frame_size; pose proof (data_pad_range (payload_of a));
    pose proof (remaining_nonneg (payload_of a)); pose proof (remaining_nonneg (pack_nfs3 auth a)); lia).
  unfold wrap32 in Hf. rewrite Z.mod_small in Hf by lia. rewrite Hf in Hl. rewrite remaining_app, remaining_xdr_u32 in Hl.
  rewrite Hf. unfold Rfc1813.call. rewrite (read_mark_frame _ true) by lia. cbn [obind negb orb].
  destruct (Z.eqb_spec (frame_size auth a) (remaining (xdr_u32 xid ++ xdr_u32 0 ++ xdr_u32 2 ++ xdr_u32 100003 ++
    xdr_u32 3 ++ xdr_u32 (NFSProc3.number (procedure_of a)) ++ xdr_u32 (flavor_u32 (flavor auth)) ++ xdr_var_bytes (body auth) ++
    xdr_u32 0 ++ xdr_var_bytes [] ++ wire3 a))) as [_|Hne]; [|exfalso; lia]. cbn [negb]. clear Hl Hf.
  assert (is_u32 (NFSProc3.number (procedure_of a))) by (by destruct a). unfold xdr_u32.
  do 6 (rewrite uint_enc by done; cbn [obind]).
  rewrite uint_enc by (by destruct (flavor auth)). cbn [obind]. rewrite opaque_enc by done. cbn [obind].
  rewrite uint_enc by done. cbn [obind]. rewrite opaque_enc by done. cbn [obind andb Z.eqb Pos.eqb negb].
  rewrite <- (app_nil_r (wire3 a)), arguments_enc by done. done.
Qed.

Lemma request3_read_back_witness :
  Rfc1813.call (call_frame 77 (pack_nfs3 new_null (WRITE3args (of_str "fh") 0 5 Unstable3 (of_str "hello"))) (of_str "hello")) =
  Ok (77, 0, [], WRITE3args (of_str "fh") 0 5 Unstable3 (of_str "hello")).
Proof.
  apply (request3_read_back 77 new_null (WRITE3args (of_str "fh") 0 5 Unstable3 (of_str "hello"))).
  - unfold is_u32. lia.
  - vm_compute. reflexivity.
  - unfold args_ok, len_ok, is_u32, is_u64. repeat split; vm_compute; first [reflexivity|discriminate].
  - vm_compute. reflexivity.
Defined.
