(* ===== verification/Nfs3.v ===== *)
(** * The NFSv3 client

    Models the calls of [src/src/nfs3/mod.rs] and the procedures of the files in
    [src/src/nfs3/]: one request with its resends while the server is busy, the
    classification of what may have gone wrong, the conversions of results, every
    procedure and its form by path, and the directory reply of
    [src/src/nfs3/fastxdr/mod.rs]. The decoders that the build generates from
    nfs.x are parameters ([Generated]); so are the transport, the wait before a
    resend and path-clean. *)
From Stdlib Require Import Strings.Byte.
From S2P Require Import Prelude Errors Xdr4 Attrs4 V42 PnfsIo Rpc Listing Ops41 FsInfo MountTrait Entry Args3.
From stdpp Require Import base list numbers strings.
#[local] Open Scope Z_scope.
#[local] Open Scope sm_scope.

(** ** Results *)

(** The generated types, as far as they are used. *)
Record fattr3 : Type := {
  f3_type : Z; f3_mode : Z; f3_nlink : Z; f3_uid : Z; f3_gid : Z; f3_size : Z; f3_used : Z; f3_rdev : Z * Z; f3_fsid : Z;
  f3_fileid : Z; f3_atime : Time; f3_mtime : Time; f3_ctime : Time
}.
Definition post_op_attr : Type := option fattr3.
Definition post_op_fh3 : Type := option bytes.

(** CREATE, MKDIR and SYMLINK have results of the same shape. *)
Record CREATE3resok : Type := { c3_obj : post_op_fh3; c3_obj_attributes : post_op_attr }.
Record LOOKUP3resok : Type := { l3_object : bytes; l3_obj_attributes : post_op_attr }.
Record READ3resok : Type := { r3_eof : bool; r3_data : bytes }.
Record WRITE3resok : Type := { w3_count : Z; w3_committed : WriteStable; w3_verf : bytes }.
Record FSINFO3resok : Type := {
  fi3_attributes : post_op_attr; fi3_rtmax : Z; fi3_rtpref : Z; fi3_rtmult : Z; fi3_wtmax : Z; fi3_wtpref : Z; fi3_wtmult : Z;
  fi3_dtpref : Z; fi3_maxfilesize : Z; fi3_time_delta : Time; fi3_properties : Z
}.
Record FSSTAT3resok : Type := {
  fs3_attributes : post_op_attr; fs3_tbytes : Z; fs3_fbytes : Z; fs3_abytes : Z; fs3_tfiles : Z; fs3_ffiles : Z; fs3_afiles : Z;
  fs3_invarsec : Z
}.
Record PATHCONF3resok : Type := {
  pc3_attributes : post_op_attr; pc3_linkmax : Z; pc3_name_max : Z; pc3_no_trunc : bool; pc3_chown_restricted : bool;
  pc3_case_insensitive : bool; pc3_case_preserving : bool
}.

(** *** Conversions *)

Definition attr_of_fattr3 (a : fattr3) : Attr :=
  {| a_type_ := f3_type a; a_file_mode := f3_mode a; a_nlink := f3_nlink a; a_uid := f3_uid a; a_gid := f3_gid a;
     a_filesize := f3_size a; a_used := f3_used a; a_spec_data := f3_rdev a; a_fsid := f3_fsid a; a_fileid := f3_fileid a;
     a_atime := f3_atime a; a_mtime := f3_mtime a; a_ctime := f3_ctime a; a_acl := None; a_owner := []; a_owner_group := [];
     a_filehandle := [] |}.
Definition attr_of_post_op (a : post_op_attr) : option Attr := attr_of_fattr3 <$> a.
Definition fsinfo_of (ok : FSINFO3resok) : FSInfo :=
  {| fi_attr := attr_of_post_op (fi3_attributes ok); rtmax := fi3_rtmax ok; rtpref := fi3_rtpref ok; rtmult := fi3_rtmult ok;
     wtmax := fi3_wtmax ok; wtpref := fi3_wtpref ok; wtmult := fi3_wtmult ok; dtpref := fi3_dtpref ok;
     maxfilesize := fi3_maxfilesize ok; time_delta := fi3_time_delta ok; properties := fi3_properties ok |}.
Definition fsstat_of (ok : FSSTAT3resok) : FSStat :=
  {| fs_attr := attr_of_post_op (fs3_attributes ok); tbytes := fs3_tbytes ok; fbytes := fs3_fbytes ok; abytes := fs3_abytes ok;
     tfiles := fs3_tfiles ok; ffiles := fs3_ffiles ok; afiles := fs3_afiles ok; invarsec := fs3_invarsec ok |}.
Definition pathconf_of3 (ok : PATHCONF3resok) : Pathconf :=
  {| pc_attr := attr_of_post_op (pc3_attributes ok); linkmax := pc3_linkmax ok; name_max := pc3_name_max ok;
     no_trunc := pc3_no_trunc ok; chown_restricted := pc3_chown_restricted ok; case_insensitive := pc3_case_insensitive ok;
     case_preserving := pc3_case_preserving ok |}.
Definition from_post_op_fh3 (pofh : post_op_fh3) : result bytes :=
  match pofh with Some fh => Ok fh | None => Err (Rpc "bad file handle") end.
(** [From<CREATE3resok>], [From<MKDIR3resok>] and [From<SYMLINK3resok>] *)
Definition created_object (value : CREATE3resok) : result ObjRes :=
  let* fh := from_post_op_fh3 (c3_obj value) in
  Ok {| o_fh := fh; o_attr := attr_of_post_op (c3_obj_attributes value) |}.
Definition found_object (value : LOOKUP3resok) : result ObjRes :=
  Ok {| o_fh := l3_object value; o_attr := attr_of_post_op (l3_obj_attributes value) |}.

(** *** Generated decoders *)

(** [TryFrom<&mut Bytes>]: the value and what is left, or the text of an error. *)
Definition Dec (A : Type) : Type := bytes -> (A * bytes) + string.
Record Generated : Type := {
  g_nfsstat3 : Dec Z; g_post_op_attr : Dec post_op_attr; g_post_op_fh3 : Dec post_op_fh3; g_cookieverf3 : Dec bytes;
  g_fileid3 : Dec Z; g_filename3 : Dec bytes; g_cookie3 : Dec Z; g_u32 : Dec Z; g_bool : Dec bool;
  g_ACCESS : Dec Z; g_COMMIT : Dec bytes; g_CREATE : Dec CREATE3resok; g_MKDIR : Dec CREATE3resok; g_SYMLINK : Dec CREATE3resok;
  g_FSINFO : Dec FSINFO3resok; g_FSSTAT : Dec FSSTAT3resok; g_GETATTR : Dec fattr3; g_LINK : Dec post_op_attr;
  g_LOOKUP : Dec LOOKUP3resok; g_PATHCONF : Dec PATHCONF3resok; g_READ : Dec READ3resok; g_READLINK : Dec bytes;
  g_REMOVE : Dec (); g_RENAME : Dec (); g_RMDIR : Dec (); g_SETATTR : Dec (); g_WRITE : Dec WRITE3resok;
  g_mountstat3 : Dec Z; g_mountres3_ok : Dec bytes
}.

(** *** The directory reply *)

Section Directory.
Context (g : Generated).

Definition dbind {A B : Type} (r : (A * bytes) + string) (k : A -> bytes -> (B * bytes) + string) : (B * bytes) + string :=
  match r with inl (a, v) => k a v | inr e => inr e end.

(** The loop over the entries; an entry takes at least its discriminant. *)
Fixpoint decode_entries (entry : Dec entry3) (fuel : nat) (v : bytes) : (list entry3 * bytes) + string :=
  match fuel with
  | O => inr "out of fuel"%string
  | S fuel =>
      dbind (g_u32 g v) (fun d v =>
        if d =? 0 then inl ([], v)
        else if d =? 1 then
          dbind (entry v) (fun e v => dbind (decode_entries entry fuel v) (fun rest v => inl (e :: rest, v)))
        else inr ("unknown option variant " +:+ fmtZ d)%string)
  end.
Definition decode_directory_reply (entry : Dec entry3) : Dec DirectoryReply := fun v =>
  dbind (g_post_op_attr g v) (fun _ v =>
  dbind (g_cookieverf3 g v) (fun cookieverf v =>
  dbind (decode_entries entry (S (length v)) v) (fun entries v =>
  dbind (g_bool g v) (fun eof v =>
  inl ({| dr_cookieverf := cookieverf; dr_entries := entries; dr_eof := eof |}, v))))).

Definition entry3_dec : Dec entry3 := fun v =>
  dbind (g_fileid3 g v) (fun fileid v => dbind (g_filename3 g v) (fun name v => dbind (g_cookie3 g v) (fun cookie v =>
  inl ({| e3_fileid := fileid; e3_name := name; e3_cookie := cookie; e3_attr := None; e3_handle := [] |}, v)))).
(** The attributes and the handle are converted as [convert_entry] does. *)
Definition entryplus3_dec : Dec entry3 := fun v =>
  dbind (g_fileid3 g v) (fun fileid v => dbind (g_filename3 g v) (fun name v => dbind (g_cookie3 g v) (fun cookie v =>
  dbind (g_post_op_attr g v) (fun attributes v => dbind (g_post_op_fh3 g v) (fun handle v =>
  inl ({| e3_fileid := fileid; e3_name := name; e3_cookie := cookie; e3_attr := attr_of_post_op attributes;
          e3_handle := default [] handle |}, v)))))).
Definition READDIR3resok_dec : Dec DirectoryReply := decode_directory_reply entry3_dec.
Definition READDIRPLUS3resok_dec : Dec DirectoryReply := decode_directory_reply entryplus3_dec.
End Directory.

(** ** Calls *)

(** [Mount]; the client is the engine below. *)
Record Mount3 : Type := {
  m3_auth : Auth; m3_fh : bytes; m3_dir : bytes; m3_dircount : Z; m3_maxcount : Z; m3_rsize : Z; m3_wsize : Z
}.

Record Engine3 (W : Type) : Type := {
  call3 : bytes -> bytes -> ReplayPolicy -> Z -> SM W bytes;
  backoff3 : RequestContext -> NfsError -> SM W ()
}.
Arguments call3 {W}. Arguments backoff3 {W}.

Definition JUKEBOX : Z := 10008.
(** [reply.get(..4) == Some(10008u32.to_be_bytes())] *)
Definition is_jukebox (reply : bytes) : bool := bool_decide (firstn 4 reply = xdr_u32 JUKEBOX).

Section Client.
Context {W : Type} (eng : Engine3 W) (g : Generated) (m : Mount3) (fuel : nat).
Context (split_path : bytes -> result (bytes * bytes)) (clean : bytes -> bytes).

Fixpoint call_with_busy_retry (fuel : nat) (procedure : NFSProc3.t) (request data : bytes) (timeout : Z) : SM W bytes :=
  match fuel with
  | O => fun w => (Panic, w)
  | S fuel =>
      let! reply := call3 eng request data (NFSProc3.replay_policy procedure) timeout in
      if negb (is_jukebox reply) then ret reply
      else
        let! _ := backoff3 eng (NFSProc3.request_context procedure) (Nfs3 JUKEBOX) in
        call_with_busy_retry fuel procedure request data timeout
  end.

(** [nfs3_call!], and the special cases of READ and WRITE, which differ in the timeout and the
    payload only. *)
Definition xdr_error {A : Type} (classify : NfsError -> NfsError) (r : (A * bytes) + string) : result (A * bytes) :=
  match r with inl x => Ok x | inr e => Err (classify (Xdr e)) end.
Definition nfs3_call {A : Type} (dec : Dec A) (args : Args3) : SM W A :=
  let procedure := procedure_of args in
  let classify := classify_sent_nfs3_error (NFSProc3.operation_class procedure) (NFSProc3.request_context procedure) in
  let! reply := with_error classify
                  (call_with_busy_retry fuel procedure (pack_nfs3 (m3_auth m) args) (payload_of args) (timeout_of args)) in
  raise (let* (status, rest) := xdr_error classify (g_nfsstat3 g reply) in
         if status =? 0 then let* (ok, _) := xdr_error classify (dec rest) in Ok ok
         else Err (Nfs3 status)).

Definition null : SM W () :=
  let procedure := NFSProc3.Null in
  let! _ := with_error (classify_sent_nfs3_error (NFSProc3.operation_class procedure) (NFSProc3.request_context procedure))
              (call3 eng (pack_nfs3 (m3_auth m) NULL3args) [] (NFSProc3.replay_policy procedure) METADATA_TIMEOUT) in
  ret ().

(** ** Procedures *)

Definition access (fh : bytes) (mode : Z) : SM W Z := nfs3_call (g_ACCESS g) (ACCESS3args fh mode).
Definition commit_with_verifier (fh : bytes) (offset count : Z) : SM W (option bytes) :=
  let! verifier := nfs3_call (g_COMMIT g) (COMMIT3args fh offset count) in
  if remaining verifier =? 8 then ret (Some verifier) else fail (Xdr "COMMIT verifier must be 8 bytes").
Definition commit (fh : bytes) (offset count : Z) : SM W () :=
  let! _ := nfs3_call (g_COMMIT g) (COMMIT3args fh offset count) in ret ().
Definition lookup (dir_fh filename : bytes) : SM W ObjRes :=
  let! ok := nfs3_call (g_LOOKUP g) (LOOKUP3args {| dop_dir := dir_fh; dop_name := filename |}) in raise (found_object ok).

(** The components of the cleaned path; the root and a backslash are skipped. *)
Definition BACKSLASH : bytes := [x5c].
Definition steps (path : bytes) : list bytes :=
  List.filter (fun n => negb (bool_decide (n = BACKSLASH))) (components (clean path)).
Fixpoint lookup_steps (res : ObjRes) (l : list bytes) : SM W ObjRes :=
  match l with
  | [] => ret res
  | n :: l => let! res := lookup (o_fh res) n in lookup_steps res l
  end.
Definition lookup_path (path : bytes) : SM W ObjRes := lookup_steps {| o_fh := m3_fh m; o_attr := None |} (steps path).

Definition mode_only (mode : option Z) : sattr3 :=
  {| sa_mode := mode; sa_uid := None; sa_gid := None; sa_size := None; sa_atime := None; sa_mtime := None |}.
Definition create_with_guard (dir_fh filename : bytes) (mode : option Z) (guarded : bool) : SM W ObjRes :=
  let attributes := mode_only mode in
  let! ok := nfs3_call (g_CREATE g)
               (CREATE3args {| dop_dir := dir_fh; dop_name := filename |}
                  (if guarded then GUARDED attributes else UNCHECKED attributes)) in
  raise (created_object ok).
Definition create (dir_fh filename : bytes) (mode : option Z) : SM W ObjRes := create_with_guard dir_fh filename mode false.
Definition create_guarded (dir_fh filename : bytes) (mode : option Z) : SM W ObjRes := create_with_guard dir_fh filename mode true.

(** Every [*_path] below splits its path and looks the directory up. *)
Definition in_directory {A : Type} (path : bytes) (k : bytes -> bytes -> SM W A) : SM W A :=
  let! (dir, name) := raise (split_path path) in
  let! parent := lookup_path dir in
  k (o_fh parent) name.
Definition create_path (path : bytes) (mode : option Z) : SM W ObjRes := in_directory path (fun d n => create d n mode).

Definition fsinfo : SM W FSInfo := let! ok := nfs3_call (g_FSINFO g) (FSINFO3args (m3_fh m)) in ret (fsinfo_of ok).
Definition fsstat : SM W FSStat := let! ok := nfs3_call (g_FSSTAT g) (FSSTAT3args (m3_fh m)) in ret (fsstat_of ok).
Definition pathconf (fh : bytes) : SM W Pathconf := let! ok := nfs3_call (g_PATHCONF g) (PATHCONF3args fh) in ret (pathconf_of3 ok).
Definition pathconf_path (path : bytes) : SM W Pathconf := let! res := lookup_path path in pathconf (o_fh res).
Definition getattr (fh : bytes) : SM W Attr := let! ok := nfs3_call (g_GETATTR g) (GETATTR3args fh) in ret (attr_of_fattr3 ok).

Definition link (src_fh dst_dir_fh dst_filename : bytes) : SM W Attr :=
  let! ok := nfs3_call (g_LINK g) (LINK3args src_fh {| dop_dir := dst_dir_fh; dop_name := dst_filename |}) in
  match attr_of_post_op ok with Some a => ret a | None => fail (Rpc "linking failed") end.
Definition link_path (src_path dst_path : bytes) : SM W Attr :=
  let! (dst_dir, dst_filename) := raise (split_path dst_path) in
  let! src := lookup_path src_path in
  let! dst := lookup_path dst_dir in
  link (o_fh src) (o_fh dst) dst_filename.

Definition mkdir (dir_fh dirname : bytes) (mode : Z) : SM W ObjRes :=
  let! ok := nfs3_call (g_MKDIR g) (MKDIR3args {| dop_dir := dir_fh; dop_name := dirname |} (mode_only (Some mode))) in
  raise (created_object ok).
Definition mkdir_path (path : bytes) (mode : Z) : SM W ObjRes := in_directory path (fun d n => mkdir d n mode).

Definition symlink (src_path dst_dir_fh dst_filename : bytes) : SM W ObjRes :=
  let! ok := nfs3_call (g_SYMLINK g)
               (SYMLINK3args {| dop_dir := dst_dir_fh; dop_name := dst_filename |} sattr3_default src_path) in
  raise (created_object ok).
Definition symlink_path (src_path dst_path : bytes) : SM W ObjRes := in_directory dst_path (fun d n => symlink src_path d n).

Definition readlink (fh : bytes) : SM W bytes :=
  let! data := nfs3_call (g_READLINK g) (READLINK3args fh) in ret (bytes_to_string data).
Definition readlink_path (path : bytes) : SM W bytes := let! res := lookup_path path in readlink (o_fh res).

Definition read (fh : bytes) (offset count : Z) : SM W bytes :=
  if count =? 0 then ret []
  else
    let! ok := nfs3_call (g_READ g) (READ3args fh offset (Z.min count (m3_rsize m))) in
    raise (Listing.read_reply (r3_data ok) (r3_eof ok)).
Definition read_path (path : bytes) (offset count : Z) : SM W bytes := let! res := lookup_path path in read (o_fh res) offset count.

Definition committed_of (s : WriteStable) : WriteCommitted :=
  match s with Unstable3 => Unstable | DataSync3 => DataSync | FileSync3 => FileSync end.
Definition write_how (fh : bytes) (offset : Z) (data : bytes) : SM W WriteOutcome :=
  if u32_max <? remaining data then fail (InvalidInput "data length exceeds maximum")
  else
    let! ok := nfs3_call (g_WRITE g) (WRITE3args fh offset (remaining data) Unstable3 data) in
    if negb (remaining (w3_verf ok) =? 8) then fail (Xdr "WRITE verifier must be 8 bytes")
    else ret {| wo_count := w3_count ok; wo_committed := committed_of (w3_committed ok); wo_verifier := Some (w3_verf ok);
                wo_pnfs := None |}.

Definition remove (dir_fh filename : bytes) : SM W () :=
  nfs3_call (g_REMOVE g) (REMOVE3args {| dop_dir := dir_fh; dop_name := filename |}).
Definition remove_path (path : bytes) : SM W () := in_directory path remove.
Definition rmdir (dir_fh dirname : bytes) : SM W () :=
  nfs3_call (g_RMDIR g) (RMDIR3args {| dop_dir := dir_fh; dop_name := dirname |}).
Definition rmdir_path (path : bytes) : SM W () := in_directory path rmdir.

Definition rename (from_dir_fh from_filename to_dir_fh to_filename : bytes) : SM W () :=
  nfs3_call (g_RENAME g)
    (RENAME3args {| dop_dir := from_dir_fh; dop_name := from_filename |} {| dop_dir := to_dir_fh; dop_name := to_filename |}).
Definition rename_path (from to : bytes) : SM W () :=
  let! (from_dir, from_filename) := raise (split_path from) in
  let! (to_dir, to_filename) := raise (split_path to) in
  let! source := lookup_path from_dir in
  let! target := (if bool_decide (from_dir = to_dir) then ret source else lookup_path to_dir) in
  rename (o_fh source) from_filename (o_fh target) to_filename.

Definition setattr (fh : bytes) (guard_ctime : option Time) (mode uid gid size : option Z) (atime mtime : option Time) : SM W () :=
  nfs3_call (g_SETATTR g)
    (SETATTR3args fh {| sa_mode := mode; sa_uid := uid; sa_gid := gid; sa_size := size; sa_atime := atime; sa_mtime := mtime |}
       guard_ctime).
Definition setattr_path (path : bytes) (specify_guard : bool) (mode uid gid size : option Z) (atime mtime : option Time) : SM W () :=
  let! res := lookup_path path in
  let guard_ctime := match specify_guard, o_attr res with true, Some attr => Some (a_ctime attr) | _, _ => None end in
  setattr (o_fh res) guard_ctime mode uid gid size atime mtime.

Definition readdir_at (dir_fh : bytes) (cookie : Z) (cookieverf : bytes) : SM W DirectoryReply :=
  nfs3_call (READDIR3resok_dec g) (READDIR3args dir_fh cookie cookieverf (m3_maxcount m)).
Definition readdirplus_at (dir_fh : bytes) (cookie : Z) (cookieverf : bytes) : SM W DirectoryReply :=
  nfs3_call (READDIRPLUS3resok_dec g) (READDIRPLUS3args dir_fh cookie cookieverf (m3_dircount m) (m3_maxcount m)).
Definition readdirplus_page3 (dir_fh : bytes) (position : DirectoryCookie) : SM W ReaddirplusPage :=
  let! res := readdirplus_at dir_fh (dk_cookie position) (dk_verifier position) in
  raise (into_page res position).

(** The defaults of the trait that a stateless protocol keeps: an open is a lookup and a close nothing. *)
Definition open_stateful (dir_fh filename : bytes) (_ : Z) : SM W OpenFile :=
  let! obj := lookup dir_fh filename in ret (from_object obj).
Definition open_path_stateful (path : bytes) (_ : Z) : SM W OpenFile :=
  let! obj := lookup_path path in ret (from_object obj).
Definition mount3_ops : MountOps W := {|
  t_lookup_path := lookup_path; t_open_stateful := open_stateful; t_open_path_stateful := open_path_stateful;
  t_set_size := fun fh size => setattr fh None None None None (Some size) None None; t_close_stateful := fun _ => ret () |}.
Definition open_path_with_options (path : bytes) (options : OpenOptions) : SM W OpenFile :=
  open_path_guarded mount3_ops split_path path options (fun parent name =>
    let! obj := create_guarded parent name (oo_create_mode options) in ret (from_object obj)).

(** [umount]: trailing slashes are trimmed. *)
Fixpoint trim_leading (l : bytes) : bytes :=
  match l with b :: l' => if bool_decide (b = SLASH) then trim_leading l' else l | [] => [] end.
Definition trim_end_slashes (s : bytes) : bytes := rev (trim_leading (rev s)).
Definition umount : SM W () :=
  let! _ := call3 eng (Header_encode (rpc_header MOUNT_PROG MOUNT3_VERSION (mount_proc_number MountUmount) (m3_auth m)) ++
                       encode_dirpath (trim_end_slashes (m3_dir m))) [] MOUNT_REPLAY METADATA_TIMEOUT in
  ret ().
End Client.

(** ** A mutation takes effect at most once, and its errors tell *)

(** The call may have reached the server and nothing it answered says what became of it. *)
Definition unanswered (e : NfsError) : Prop :=
  request_transmission e = Some Sent
  \/ request_transmission e <> Some NotSent /\ match e with Io _ _ | Rpc _ | Xdr _ => True | _ => False end.
Definition uncertain (e : NfsError) : Prop := exists d, e = OperationOutcome d /\ outcome_kind d = Uncertain.

Lemma classify_unanswered ctx e : unanswered e -> uncertain (classify_sent_nfs3_error ReplaySensitive ctx e).
Proof.
  intros H. unfold classify_sent_nfs3_error, classify_non_authoritative_error.
  rewrite (bool_decide_eq_false_2 (request_transmission e = Some NotSent)) by (destruct H as [->|[? _]]; done).
  destruct (false || bool_decide (request_transmission e = Some Sent) || _) eqn:E; cbn [negb]; [by eexists|exfalso].
  destruct H as [H|[_ H]]; [by rewrite bool_decide_eq_true_2 in E|]. by destruct e; rewrite ?orb_true_r in E.
Qed.

Section Once3.
Context {W : Type} (eng : Engine3 W) (g : Generated) (m : Mount3) (effects : W -> Z).

(** How a server that keeps RFC 1813 changes what it stores for one request: a transmission
    executes it at most once; it has not executed one that it answers with an error status,
    JUKEBOX included; and the transport returns an error only for a call that was not executed or
    that is unanswered. Waiting changes nothing. *)
Class HonestServer3 : Prop := {
  h3_once : forall request data t w r w', call3 eng request data ONE_ATTEMPT t w = (r, w') -> effects w <= effects w' <= effects w + 1;
  h3_jukebox : forall request data t w reply w',
    call3 eng request data ONE_ATTEMPT t w = (Ok reply, w') -> is_jukebox reply = true -> effects w' = effects w;
  h3_status : forall request data t w reply w' status rest,
    call3 eng request data ONE_ATTEMPT t w = (Ok reply, w') -> g_nfsstat3 g reply = inl (status, rest) -> status <> 0 ->
    effects w' = effects w;
  h3_error : forall request data t w e w',
    call3 eng request data ONE_ATTEMPT t w = (Err e, w') -> effects w' = effects w \/ unanswered e;
  h3_wait : forall ctx e w r w', backoff3 eng ctx e w = (r, w') -> effects w' = effects w;
}.
Context `{HS : !HonestServer3}.

Lemma busy_retry3_once fuel p request data t w r w' :
  NFSProc3.operation_class p = ReplaySensitive ->
  call_with_busy_retry eng fuel p request data t w = (r, w') ->
  effects w <= effects w' <= effects w + 1 /\
  match r with
  | Ok reply => forall status rest, g_nfsstat3 g reply = inl (status, rest) -> status <> 0 -> effects w' = effects w
  | Err e => effects w' = effects w \/ unanswered e
  | Panic => True
  end.
Proof.
  intros Hp. revert w. induction fuel as [|fuel IH]; intros w; cbn [call_with_busy_retry]; [intros [= <- <-]; lia|].
  unfold NFSProc3.replay_policy. rewrite Hp. unfold andthen at 1.
  destruct (call3 eng request data ONE_ATTEMPT t w) as [[reply|e|] w1] eqn:Hc; pose proof (h3_once _ _ _ _ _ _ Hc) as H1.
  - destruct (is_jukebox reply) eqn:Hj; cbn [negb].
    + pose proof (h3_jukebox _ _ _ _ _ _ Hc Hj) as H2. unfold andthen at 1.
      destruct (backoff3 eng _ _ w1) as [[[]|e|] w2] eqn:Hb; pose proof (h3_wait _ _ _ _ _ Hb) as H3.
      * intros H. apply IH in H as [H4 H5]. rewrite <- H2, <- H3. done.
      * intros [= <- <-]. split; [lia|]. left. lia.
      * intros [= <- <-]. split; [lia|done].
    + intros [= <- <-]. split; [done|]. intros status rest. by eapply h3_status.
  - intros [= <- <-]. split; [done|]. by eapply h3_error.
  - by intros [= <- <-].
Qed.

(** C38: a procedure of NFSv3 that changes something takes effect at most once, also when the server is
    busy and it is sent again, and its errors tell the truth: when the call fails although the server
    has executed it, the error is an uncertain outcome. For every procedure, arguments and replies,
    malformed ones included. *)
Theorem mutation3_accounted {A : Type} fuel (dec : Dec A) args w r w' :
  NFSProc3.operation_class (procedure_of args) = ReplaySensitive ->
  nfs3_call eng g m fuel dec args w = (r, w') ->
  effects w <= effects w' <= effects w + 1 /\
  (forall e, r = Err e -> effects w' <> effects w -> uncertain e).
Proof.
  intros Hp H. unfold nfs3_call, andthen, with_error in H. rewrite Hp in H.
  destruct (call_with_busy_retry eng fuel _ _ _ _ w) as [r1 w1] eqn:Hc.
  apply busy_retry3_once in Hc as [H1 H2]; [|done]. destruct r1 as [reply|e|]; cbn [map_err] in H.
  - unfold raise in H. injection H as <- <-. split; [done|]. intros e He Hne. unfold xdr_error in He.
    destruct (g_nfsstat3 g reply) as [[status rest]|t] eqn:Hs; cbn [obind] in He.
    + destruct (Z.eqb_spec status 0) as [->|Hn]; [|by rewrite (H2 status rest) in Hne].
      destruct (dec rest) as [[ok rest']|t]; cbn [obind] in He; [done|]. injection He as <-.
      apply classify_unanswered. right. by split.
    + injection He as <-. apply classify_unanswered. right. by split.
  - injection H as <- <-. split; [done|]. intros e' [= <-] Hne. apply classify_unanswered. by destruct H2.
  - injection H as <- <-. by split.
Qed.
End Once3.

(** The loop ends with the retry budget: a call does not extend it, a wait uses some of it. *)
Section Ends3.
Context {W : Type} (eng : Engine3 W) (left : W -> nat).
Class Budgeted3 : Prop := {
  b3_call : forall request data replay t w r w', call3 eng request data replay t w = (r, w') -> r <> Panic /\ (left w' <= left w)%nat;
  b3_wait : forall ctx e w r w', backoff3 eng ctx e w = (r, w') -> r <> Panic /\ (r = Ok () -> left w' < left w)%nat;
}.
Context `{HB : !Budgeted3}.

Lemma busy_retry3_ends fuel p request data t w :
  (left w < fuel)%nat -> (call_with_busy_retry eng fuel p request data t w).1 <> Panic.
Proof.
  revert w. induction fuel as [|fuel IH]; intros w Hf; [lia|]. cbn [call_with_busy_retry]. unfold andthen at 1.
  destruct (call3 eng request data _ t w) as [[reply|e|] w1] eqn:Hc; destruct (b3_call _ _ _ _ _ _ _ Hc) as [Hp Hl]; [|done|done].
  destruct (negb (is_jukebox reply)); [done|]. unfold andthen at 1.
  destruct (backoff3 eng _ _ w1) as [[[]|e'|] w2] eqn:Hw; destruct (b3_wait _ _ _ _ _ Hw) as [Hp' Hl']; [|done|done].
  apply IH. specialize (Hl' eq_refl). lia.
Qed.
End Ends3.

(** ** Two shortcomings

    The handle of a created object and the attributes of a linked file are optional in RFC 1813. When
    the server leaves them out, an operation that succeeded is reported as a definite failure. *)
Lemma created_without_handle {W} (eng : Engine3 W) g m fuel d n mode w w' attrs :
  nfs3_call eng g m fuel (g_CREATE g) (CREATE3args {| dop_dir := d; dop_name := n |} (UNCHECKED (mode_only mode))) w =
    (Ok {| c3_obj := None; c3_obj_attributes := attrs |}, w') ->
  create eng g m fuel d n mode w = (Err (Rpc "bad file handle"), w').
Proof. intros H. unfold create, create_with_guard, andthen. by rewrite H. Qed.
Lemma linked_without_attributes {W} (eng : Engine3 W) g m fuel src d n w w' :
  nfs3_call eng g m fuel (g_LINK g) (LINK3args src {| dop_dir := d; dop_name := n |}) w = (Ok None, w') ->
  link eng g m fuel src d n w = (Err (Rpc "linking failed"), w').
Proof. intros H. unfold link, andthen. by rewrite H. Qed.

(** ** Operations by path *)

Section Paths3.
Context {W : Type} (eng : Engine3 W) (g : Generated) (m : Mount3) (fuel : nat) (clean : bytes -> bytes).
(** [clean] on a path that never climbs above its start. *)
Hypothesis clean_below : forall path, stays_below 0 (components path) = true ->
  components (clean path) = lexical [] (components path).
Hypothesis clean_absolute : forall path, clean (SLASH :: path) = abs_path (lexical [] (components (SLASH :: path))).

Lemma lookup_steps_app res l l' w :
  lookup_steps eng g m fuel res (l ++ l') w =
  andthen (lookup_steps eng g m fuel res l) (fun res => lookup_steps eng g m fuel res l') w.
Proof.
  revert res w. induction l as [|n l IH]; intros res w; [done|]. cbn [app lookup_steps]. unfold andthen at 1 2 3.
  destruct (lookup eng g m fuel (o_fh res) n w) as [[r|e|] w1]; [|done|done]. apply IH.
Qed.
Lemma lexical_stable stack comps :
  DOTDOT ∉ stack -> DOTDOT ∉ comps -> lexical stack comps = rev stack ++ comps.
Proof.
  revert stack. induction comps as [|c comps IH]; intros stack Hs Hc; cbn [lexical]; [by rewrite app_nil_r|].
  apply not_elem_of_cons in Hc as [Hc Hcs]. rewrite bool_decide_eq_false_2 by (intros He; by apply Hc).
  rewrite IH; [|by apply not_elem_of_cons|done]. cbn [rev]. by rewrite <- app_assoc.
Qed.
Lemma lexical_subset x stack comps : x ∉ stack -> x ∉ comps -> x ∉ lexical stack comps.
Proof.
  revert stack. induction comps as [|c comps IH]; intros stack Hs Hc; cbn [lexical].
  - by rewrite list_elem_of_In, <- in_rev, <- list_elem_of_In.
  - apply not_elem_of_cons in Hc as [Hc Hcs]. case_bool_decide; apply IH; try done; [|by apply not_elem_of_cons].
    destruct stack; [done|]. by apply not_elem_of_cons in Hs as [_ ?].
Qed.
Lemma plain_steps comps : BACKSLASH ∉ comps -> List.filter (fun n => negb (bool_decide (n = BACKSLASH))) comps = comps.
Proof.
  induction comps as [|c comps IH]; [done|]. intros [Hc Hcs]%not_elem_of_cons. cbn [List.filter].
  rewrite bool_decide_eq_false_2 by (intros He; by apply Hc). cbn [negb]. by rewrite IH.
Qed.
Lemma stays_below_stable depth comps : DOTDOT ∉ comps -> stays_below depth comps = true.
Proof.
  revert depth. induction comps as [|c comps IH]; intros depth Hc; [done|]. cbn [stays_below].
  apply not_elem_of_cons in Hc as [Hc Hcs]. rewrite bool_decide_eq_false_2 by (intros He; by apply Hc). by apply IH.
Qed.
Lemma steps_abs comps :
  Forall component comps -> DOTDOT ∉ comps ->
  steps clean (abs_path comps) = List.filter (fun n => negb (bool_decide (n = BACKSLASH))) comps.
Proof.
  intros Hw Hd. unfold steps. rewrite clean_below; rewrite components_abs by done; [|by apply stays_below_stable].
  by rewrite lexical_stable by (done || apply not_elem_of_nil).
Qed.

(** C40: operations by such a path act on the entry that looking it up finds. For a path that stays below
    the mount, does not end at it and has no component that is a single backslash, splitting it into a directory and a name, looking the directory
    up and then the name, makes the same calls and gives the same answer as [lookup_path]. *)
Theorem path_operation_finds_entry path w :
  stays_below 0 (components path) = true -> lexical [] (components path) <> [] -> BACKSLASH ∉ components path ->
  in_directory eng g m fuel (split_path clean) clean path (lookup eng g m fuel) w = lookup_path eng g m fuel clean path w.
Proof.
  intros Hs Hne Hb. unfold in_directory, andthen at 1, raise.
  rewrite (split_path_below clean clean_absolute) by done.
  assert (Forall component (lexical [] (components path))) as Hw by (apply lexical_wf; [constructor|apply components_wf]).
  assert (DOTDOT ∉ lexical [] (components path)) as Hd by (apply lexical_no_dotdot, not_elem_of_nil).
  assert (BACKSLASH ∉ lexical [] (components path)) as Hb' by (apply lexical_subset; [apply not_elem_of_nil|done]).
  unfold lookup_path at 2, steps. rewrite clean_below by done.
  destruct (exists_last Hne) as (dir & name & E). rewrite E in *. clear E Hne.
  rewrite plain_steps by done. rewrite lookup_steps_app. cbn [lookup_steps].
  apply Forall_app in Hw as [Hw _]. rewrite not_elem_of_app in Hd. rewrite not_elem_of_app in Hb'.
  assert (lookup_path eng g m fuel clean (split_spec (dir ++ [name])).1 =
          lookup_steps eng g m fuel {| o_fh := m3_fh m; o_attr := None |} dir) as Hdir.
  { unfold split_spec. rewrite rev_app_distr. cbn [rev app]. destruct (rev dir) as [|x rdir] eqn:Er.
    - apply (f_equal (@rev _)) in Er. rewrite rev_involutive in Er. rewrite Er. cbn [fst]. unfold lookup_path, steps.
      by rewrite clean_below.
    - cbn [fst]. unfold lookup_path. rewrite <- Er, rev_involutive, steps_abs, plain_steps by tauto. done. }
  assert ((split_spec (dir ++ [name])).2 = name) as Hname.
  { unfold split_spec. rewrite rev_app_distr. cbn [rev app]. by destruct (rev dir). }
  destruct (split_spec (dir ++ [name])) as [d n]. cbn [fst snd] in *. subst n. rewrite Hdir. unfold andthen.
  destruct (lookup_steps eng g m fuel _ dir w) as [[r|e|] w1]; [|done|done]. by destruct (lookup _ _ _ _ _ _ _) as [[?|?|] ?].
Qed.
End Paths3.

(** A component that is a backslash is skipped, so the path of an entry of that name leads to its
    directory. *)
Lemma backslash_skipped {W} (eng : Engine3 W) g m fuel clean path comps w :
  components (clean path) = comps ++ [BACKSLASH] -> BACKSLASH ∉ comps ->
  lookup_path eng g m fuel clean path w = lookup_steps eng g m fuel {| o_fh := m3_fh m; o_attr := None |} comps w.
Proof.
  intros Hc Hb. unfold lookup_path, steps. rewrite Hc, List.filter_app, plain_steps by done. cbn.
  rewrite bool_decide_eq_true_2 by done. cbn. by rewrite app_nil_r.
Qed.

(** ** Directory replies are read back *)

(** How RFC 1813 lays out what a directory reply holds. *)
Definition enc_fattr3 (a : fattr3) : bytes :=
  xdr_u32 (f3_type a) ++ xdr_u32 (f3_mode a) ++ xdr_u32 (f3_nlink a) ++ xdr_u32 (f3_uid a) ++ xdr_u32 (f3_gid a) ++
  xdr_u64 (f3_size a) ++ xdr_u64 (f3_used a) ++ xdr_u32 (f3_rdev a).1 ++ xdr_u32 (f3_rdev a).2 ++ xdr_u64 (f3_fsid a) ++
  xdr_u64 (f3_fileid a) ++ nfstime3_encode (f3_atime a) ++ nfstime3_encode (f3_mtime a) ++ nfstime3_encode (f3_ctime a).
Definition enc_option {A : Type} (enc : A -> bytes) (v : option A) : bytes :=
  match v with Some v => xdr_u32 1 ++ enc v | None => xdr_u32 0 end.
Definition fattr3_ok (a : fattr3) : Prop :=
  (is_u32 (f3_type a) /\ is_u32 (f3_mode a) /\ is_u32 (f3_nlink a) /\ is_u32 (f3_uid a) /\ is_u32 (f3_gid a)) /\
  (is_u64 (f3_size a) /\ is_u64 (f3_used a) /\ is_u32 (f3_rdev a).1 /\ is_u32 (f3_rdev a).2 /\ is_u64 (f3_fsid a)) /\
  (is_u64 (f3_fileid a) /\ time_ok (f3_atime a) /\ time_ok (f3_mtime a) /\ time_ok (f3_ctime a)).

(** An entry on the server. *)
Record Stored3 : Type := { s3_fileid : Z; s3_name : bytes; s3_cookie : Z; s3_attr : post_op_attr; s3_handle : post_op_fh3 }.
Definition stored_ok (s : Stored3) : Prop :=
  is_u64 (s3_fileid s) /\ len_ok (s3_name s) /\ is_u64 (s3_cookie s) /\ opt_ok fattr3_ok (s3_attr s) /\ opt_ok len_ok (s3_handle s).
Definition enc_entry (plus : bool) (s : Stored3) : bytes :=
  xdr_u64 (s3_fileid s) ++ xdr_var_bytes (s3_name s) ++ xdr_u64 (s3_cookie s) ++
  (if plus then enc_option enc_fattr3 (s3_attr s) ++ enc_option xdr_var_bytes (s3_handle s) else []).
Definition enc_list (plus : bool) (l : list Stored3) : bytes :=
  concat (map (fun s => xdr_u32 1 ++ enc_entry plus s) l) ++ xdr_u32 0.
Definition enc_reply (plus : bool) (dir : post_op_attr) (verf : bytes) (l : list Stored3) (eof : bool) : bytes :=
  enc_option enc_fattr3 dir ++ verf ++ enc_list plus l ++ xdr_bool eof.
(** What the client makes of it. *)
Definition seen3 (plus : bool) (s : Stored3) : entry3 :=
  {| e3_fileid := s3_fileid s; e3_name := s3_name s; e3_cookie := s3_cookie s;
     e3_attr := if plus then attr_of_post_op (s3_attr s) else None;
     e3_handle := if plus then default [] (s3_handle s) else [] |}.

Section DirectoryRoundtrip.
Context (g : Generated).
(** The generated decoders read what nfs.x describes. *)
Class GeneratedLaws : Prop := {
  gl_u32 : forall v rest, is_u32 v -> g_u32 g (xdr_u32 v ++ rest) = inl (v, rest);
  gl_bool : forall b rest, g_bool g (xdr_bool b ++ rest) = inl (b, rest);
  gl_attr : forall a rest, opt_ok fattr3_ok a -> g_post_op_attr g (enc_option enc_fattr3 a ++ rest) = inl (a, rest);
  gl_fh : forall h rest, opt_ok len_ok h -> g_post_op_fh3 g (enc_option xdr_var_bytes h ++ rest) = inl (h, rest);
  gl_verf : forall v rest, remaining v = 8 -> g_cookieverf3 g (v ++ rest) = inl (v, rest);
  gl_fileid : forall v rest, is_u64 v -> g_fileid3 g (xdr_u64 v ++ rest) = inl (v, rest);
  gl_name : forall v rest, len_ok v -> g_filename3 g (xdr_var_bytes v ++ rest) = inl (v, rest);
  gl_cookie : forall v rest, is_u64 v -> g_cookie3 g (xdr_u64 v ++ rest) = inl (v, rest);
}.
Context `{HG : !GeneratedLaws}.

Definition entry_dec (plus : bool) : Dec entry3 := if plus then entryplus3_dec g else entry3_dec g.

Lemma entry_read_back plus s rest : stored_ok s -> entry_dec plus (enc_entry plus s ++ rest) = inl (seen3 plus s, rest).
Proof.
  intros (H1 & H2 & H3 & H4 & H5). unfold entry_dec, enc_entry, seen3. destruct plus; unfold entryplus3_dec, entry3_dec;
    rewrite <- !app_assoc, gl_fileid by done; cbn [dbind]; rewrite gl_name by done; cbn [dbind]; rewrite gl_cookie by done; cbn [dbind].
  - rewrite gl_attr by done. cbn [dbind]. rewrite gl_fh by done. done.
  - done.
Qed.
Lemma entries_read_back plus l fuel rest :
  Forall stored_ok l -> (length l < fuel)%nat ->
  decode_entries g (entry_dec plus) fuel (enc_list plus l ++ rest) = inl (map (seen3 plus) l, rest).
Proof.
  intros Hl. revert fuel. induction Hl as [|s l Hs _ IH]; intros fuel Hf; (destruct fuel as [|fuel]; [cbn in Hf; lia|]);
    cbn [decode_entries enc_list map concat app].
  - unfold enc_list. cbn [map concat app]. by rewrite gl_u32.
  - unfold enc_list. cbn [map concat]. rewrite <- !app_assoc, gl_u32 by done. cbn [dbind Z.eqb Pos.eqb].
    rewrite entry_read_back by done. cbn [dbind]. rewrite app_assoc. fold (enc_list plus l). rewrite IH by (cbn in Hf; lia). done.
Qed.

Lemma enc_list_long plus l : (length l < length (enc_list plus l))%nat.
Proof.
  induction l as [|s l IH]; unfold enc_list in *; cbn [map concat length app] in *.
  - pose proof (remaining_xdr_u32 0). unfold remaining in *. lia.
  - rewrite <- !app_assoc, length_app. pose proof (remaining_xdr_u32 1). unfold remaining in *. rewrite length_app. lia.
Qed.

(** A directory reply of any length is read back entry by entry, in wire order, by READDIR and by
    READDIRPLUS, with each entry's attributes and handle, the cookie verifier and the end mark; the
    decoder's loop has gone through all of it before its bound. *)
Theorem directory_reply_read_back plus dir verf l eof rest :
  opt_ok fattr3_ok dir -> remaining verf = 8 -> Forall stored_ok l ->
  (if plus : bool then READDIRPLUS3resok_dec g else READDIR3resok_dec g) (enc_reply plus dir verf l eof ++ rest) =
  inl ({| dr_cookieverf := verf; dr_entries := map (seen3 plus) l; dr_eof := eof |}, rest).
Proof.
  intros Hd Hv Hl.
  assert (decode_directory_reply g (entry_dec plus) (enc_reply plus dir verf l eof ++ rest) =
    inl ({| dr_cookieverf := verf; dr_entries := map (seen3 plus) l; dr_eof := eof |}, rest)) as H; [|by destruct plus].
  unfold decode_directory_reply, enc_reply. rewrite <- !app_assoc, gl_attr by done. cbn [dbind].
  rewrite gl_verf by done. cbn [dbind]. rewrite entries_read_back; [cbn [dbind]; by rewrite gl_bool|done|].
  rewrite length_app. pose proof (enc_list_long plus l). lia.
Qed.
End DirectoryRoundtrip.

(** ** Concrete decoders *)

Definition dec_of {A : Type} (r : bytes -> result (A * bytes)) : Dec A := fun v =>
  match r v with Ok x => inl x | _ => inr "malformed"%string end.
Definition read_fattr3 (v : bytes) : result (fattr3 * bytes) :=
  let* (ty, v) := Rfc1813.uint v in let* (mode, v) := Rfc1813.uint v in let* (nlink, v) := Rfc1813.uint v in
  let* (u, v) := Rfc1813.uint v in let* (gr, v) := Rfc1813.uint v in let* (size, v) := Rfc1813.take_u64 v in
  let* (used, v) := Rfc1813.take_u64 v in let* (d1, v) := Rfc1813.uint v in let* (d2, v) := Rfc1813.uint v in
  let* (fsid, v) := Rfc1813.take_u64 v in let* (fileid, v) := Rfc1813.take_u64 v in let* (at_, v) := Rfc1813.time v in
  let* (mt, v) := Rfc1813.time v in let* (ct, v) := Rfc1813.time v in
  Ok ({| f3_type := ty; f3_mode := mode; f3_nlink := nlink; f3_uid := u; f3_gid := gr; f3_size := size; f3_used := used;
         f3_rdev := (d1, d2); f3_fsid := fsid; f3_fileid := fileid; f3_atime := at_; f3_mtime := mt; f3_ctime := ct |}, v).
Definition read_bool (v : bytes) : result (bool * bytes) :=
  let* (d, v) := Rfc1813.uint v in
  if d =? 0 then Ok (false, v) else if d =? 1 then Ok (true, v) else Err (Xdr "bool").
Definition dec_pair {A B C : Type} (a : Dec A) (b : Dec B) (k : A -> B -> C) : Dec C := fun v =>
  dbind (a v) (fun x v => dbind (b v) (fun y v => inl (k x y, v))).
Definition dec_none {A : Type} : Dec A := fun _ => inr "not used"%string.
Definition dec_unit : Dec () := fun v => inl ((), v).

Definition demo_generated : Generated :=
  let attr := dec_of (Rfc1813.union read_fattr3 1) in
  let fh := dec_of (Rfc1813.union Rfc1813.opaque 1) in
  let created := dec_pair fh attr (fun o a => {| c3_obj := o; c3_obj_attributes := a |}) in
  {| g_nfsstat3 := dec_of Rfc1813.uint; g_post_op_attr := attr; g_post_op_fh3 := fh; g_cookieverf3 := dec_of (Rfc1813.take_fixed 8);
     g_fileid3 := dec_of Rfc1813.take_u64; g_filename3 := dec_of Rfc1813.opaque; g_cookie3 := dec_of Rfc1813.take_u64;
     g_u32 := dec_of Rfc1813.uint; g_bool := dec_of read_bool;
     g_ACCESS := dec_pair attr (dec_of Rfc1813.uint) (fun _ a => a); g_COMMIT := dec_none; g_CREATE := created; g_MKDIR := created;
     g_SYMLINK := created; g_FSINFO := dec_none; g_FSSTAT := dec_none; g_GETATTR := dec_of read_fattr3; g_LINK := attr;
     g_LOOKUP := dec_pair (dec_of Rfc1813.opaque) attr (fun o a => {| l3_object := o; l3_obj_attributes := a |});
     g_PATHCONF := dec_none; g_READ := dec_none; g_READLINK := dec_pair attr (dec_of Rfc1813.opaque) (fun _ d => d);
     g_REMOVE := dec_unit; g_RENAME := dec_unit; g_RMDIR := dec_unit; g_SETATTR := dec_unit; g_WRITE := dec_none;
     g_mountstat3 := dec_of Rfc1813.uint; g_mountres3_ok := dec_of Rfc1813.opaque |}.

Lemma read_fattr3_enc a rest : fattr3_ok a -> read_fattr3 (enc_fattr3 a ++ rest) = Ok (a, rest).
Proof.
  intros ((? & ? & ? & ? & ?) & (? & ? & ? & ? & ?) & (? & ? & ? & ?)). unfold read_fattr3, enc_fattr3. rewrite <- !app_assoc.
  repeat first [rewrite take_u64_enc by done; cbn [obind] | rewrite time_enc by done; cbn [obind]
               |rewrite uint_enc by done; cbn [obind]].
  destruct a as [? ? ? ? ? ? ? [? ?] ? ? ? ? ?]. done.
Qed.
Lemma enc_option_set {A : Type} (enc : A -> bytes) v : enc_option enc v = set_encode enc 1 v.
Proof. by destruct v. Qed.
Lemma demo_generated_laws : GeneratedLaws demo_generated.
Proof.
  split; intros; cbv beta iota zeta delta [demo_generated g_u32 g_bool g_post_op_attr g_post_op_fh3 g_cookieverf3 g_fileid3
    g_filename3 g_cookie3 dec_of].
  - unfold xdr_u32. by rewrite uint_enc.
  - unfold read_bool, xdr_bool, xdr_u32. by destruct b; rewrite uint_enc.
  - rewrite enc_option_set, (union_enc fattr3_ok); [done|done|done|intros; by apply read_fattr3_enc|done].
  - rewrite enc_option_set, (union_enc len_ok); [done|done|done|intros; by apply opaque_enc|done].
  - by rewrite take_fixed_enc.
  - by rewrite take_u64_enc.
  - by rewrite opaque_enc.
  - by rewrite take_u64_enc.
Qed.

Definition demo_entry (n : Z) : Stored3 :=
  {| s3_fileid := 40 + n; s3_name := of_str "e"; s3_cookie := n; s3_attr := None; s3_handle := Some (of_str "fh") |}.

Lemma directory_reply_read_back_witness :
  READDIRPLUS3resok_dec demo_generated (enc_reply true None (zeros 8) [demo_entry 1; demo_entry 2] true) =
  inl ({| dr_cookieverf := zeros 8; dr_entries := [seen3 true (demo_entry 1); seen3 true (demo_entry 2)]; dr_eof := true |}, []).
Proof.
  pose proof demo_generated_laws as HG.
  pose proof (directory_reply_read_back demo_generated true None (zeros 8) [demo_entry 1; demo_entry 2] true []) as H.
  rewrite app_nil_r in H. apply H.
  - exact I.
  - reflexivity.
  - repeat (apply Forall_cons; split); [..|by apply Forall_nil]; repeat split; vm_compute; first [reflexivity|discriminate].
Defined.

(** A server that is busy once, then removes the file and loses the reply. *)
Definition lossy_engine : Engine3 (Z * bool) := {|
  call3 := fun _ _ _ _ w => if (w.2 : bool) then (Ok (xdr_u32 JUKEBOX ++ xdr_u32 0), (w.1, false))
                            else (Err (transport Sent (Rpc "connection lost")), (w.1 + 1, false));
  backoff3 := fun _ _ => ret () |}.
Definition demo_mount3 : Mount3 :=
  {| m3_auth := new_null; m3_fh := of_str "root"; m3_dir := of_str "/x"; m3_dircount := 8192; m3_maxcount := 8192; m3_rsize := 4096;
     m3_wsize := 4096 |}.
Definition demo_remove : Args3 := REMOVE3args {| dop_dir := of_str "d"; dop_name := of_str "n" |}.

Lemma lossy_honest : HonestServer3 lossy_engine demo_generated (fun w => w.1).
Proof.
  split.
  - intros request data t [n []] r w' [= <- <-]; cbn; lia.
  - intros request data t [n []] reply w'; [|done]. by intros [= <- <-].
  - intros request data t [n []] reply w' status rest; [|done]. by intros [= <- <-].
  - intros request data t [n []] e w'; [done|]. intros [= <- <-]. right. by left.
  - by intros ctx e w r w' [= <- <-].
Qed.

Lemma mutation3_accounted_witness :
  exists e, nfs3_call lossy_engine demo_generated demo_mount3 5 (g_REMOVE demo_generated) demo_remove (0, true) = (Err e, (1, false))
  /\ uncertain e.
Proof.
  eexists. split; [vm_compute; reflexivity|]. pose proof lossy_honest as HS.
  pose proof (mutation3_accounted lossy_engine demo_generated demo_mount3 (fun w => w.1) 5 (g_REMOVE demo_generated) demo_remove (0, true)
    (nfs3_call lossy_engine demo_generated demo_mount3 5 (g_REMOVE demo_generated) demo_remove (0, true)).1 (1, false)) as H.
  apply H; [reflexivity|vm_compute; reflexivity|vm_compute; reflexivity|discriminate].
Defined.

(** A server whose only file is /docs/b. *)
Definition two_level (fh name : bytes) : bytes :=
  if bool_decide (fh = of_str "root" /\ name = of_str "docs") then xdr_u32 0 ++ xdr_opaque (of_str "d") ++ xdr_u32 0
  else if bool_decide (fh = of_str "d" /\ name = of_str "b") then xdr_u32 0 ++ xdr_opaque (of_str "f") ++ xdr_u32 0
  else xdr_u32 2 ++ xdr_u32 0.
Definition two_level_engine : Engine3 Z := {|
  call3 := fun request data _ _ w =>
    (match Rfc1813.call (call_frame 1 request data) with
     | Ok (_, _, _, LOOKUP3args d) => Ok (two_level (dop_dir d) (dop_name d))
     | _ => Err (Rpc "unexpected")
     end, w + 1);
  backoff3 := fun _ _ => ret () |}.
Definition clean_any (path : bytes) : bytes := abs_path (lexical [] (components path)).

Lemma path_operation_finds_entry_witness :
  in_directory two_level_engine demo_generated demo_mount3 5 (split_path clean_any) clean_any (of_str "docs/./b")
    (lookup two_level_engine demo_generated demo_mount3 5) 0 = (Ok {| o_fh := of_str "f"; o_attr := None |}, 2).
Proof.
  rewrite (path_operation_finds_entry two_level_engine demo_generated demo_mount3 5 clean_any).
  - vm_compute. reflexivity.
  - intros path _. unfold clean_any. apply components_abs, lexical_wf; [constructor|apply components_wf].
  - intros path. reflexivity.
  - reflexivity.
  - vm_compute. discriminate.
  - apply (bool_decide_unpack _). vm_compute. exact I.
Defined.
