(* ===== verification/Mount3.v ===== *)
(** * Mounting with NFSv3, exports and POSIX ACLs

    Models [src/src/nfs3/acl.rs] (the NFSACL side protocol), [src/src/nfs3/export.rs]
    (the list of exports) and [src/src/nfs3/mount.rs] (ports, the MNT call, the
    limits of a mount). Connections and name resolution are parameters. *)
From Stdlib Require Import Strings.Byte.
From S2P Require Import Prelude Errors Xdr4 Rpc Attrs4 Listing FsInfo MountTrait Entry Args3 Nfs3.
From stdpp Require Import base list numbers strings.
#[local] Open Scope Z_scope.
#[local] Open Scope sm_scope.

(** ** POSIX ACLs *)

Record PosixAclEntry : Type := { pe_tag : Z; pe_id : Z; pe_permissions : Z }.
Record PosixAcl : Type := { pa_access : list PosixAclEntry; pa_default : list PosixAclEntry }.

Definition ACL_VERSION : Z := 3.
Definition FULL_MASK : Z := 15.
Definition DEFAULT_TAG : Z := 0x1000.
Definition MAX_ENTRIES : Z := 1024.

Definition valid_entry (e : PosixAclEntry) : bool :=
  bool_decide (pe_tag e ∈ [1; 2; 4; 8; 16; 32]) && (pe_permissions e <=? 7).

Definition encode_entry (default : bool) (e : PosixAclEntry) : bytes :=
  xdr_u32 (Z.lor (pe_tag e) (if default then DEFAULT_TAG else 0)) ++ xdr_u32 (pe_id e) ++ xdr_u32 (pe_permissions e).
Definition encode_acl (entries : list PosixAclEntry) (default : bool) : result bytes :=
  if (MAX_ENTRIES <? Z.of_nat (length entries)) || existsb (fun e => negb (valid_entry e)) entries
  then Err (InvalidInput "NFSACL invalid ACL entries or entry limit exceeded")
  else Ok (xdr_u32 (Z.of_nat (length entries)) ++ xdr_u32 (Z.of_nat (length entries)) ++ concat (map (encode_entry default) entries)).

Definition read_u32 (b : bytes) : result (Z * bytes) :=
  let* _ := require 4 (Xdr "truncated NFSACL v3 response") b in get_u32 b.
Definition skip_attrs (b : bytes) : result bytes :=
  let* (d, b) := read_u32 b in
  if d =? 0 then Ok b
  else if d =? 1 then if 84 <=? remaining b then advance 84 b else Err (Xdr "truncated NFSACL post_op_attr")
  else Err (Xdr "invalid NFSACL post_op_attr boolean").
Definition decode_status (g : Generated) (b : bytes) : result bytes :=
  match g_nfsstat3 g b with
  | inr e => Err (Io InvalidData (IoMessage e))
  | inl (status, b) =>
      if status =? 0 then Ok b
      else if status =? 10004 then Err (Unsupported "NFSACL v3 is unsupported for this object")
      else Err (Nfs3 status)
  end.
Definition ensure_empty (b : bytes) : result () :=
  if bool_decide (b = []) then Ok () else Err (Xdr "trailing NFSACL response data").

Definition decode_entry (default : bool) (b : bytes) : result (PosixAclEntry * bytes) :=
  let* (raw_tag, b) := read_u32 b in
  if negb (Bool.eqb (negb (Z.land raw_tag DEFAULT_TAG =? 0)) default) then Err (Xdr "NFSACL access/default entry flag mismatch")
  else
    let* (id, b) := read_u32 b in
    let* (permissions, b) := read_u32 b in
    let e := {| pe_tag := Z.land raw_tag (Z.lnot DEFAULT_TAG); pe_id := id; pe_permissions := permissions |} in
    if valid_entry e then Ok (e, b) else Err (Xdr "NFSACL invalid ACL tag or permissions").
Definition decode_acl (b : bytes) (default : bool) : result (list PosixAclEntry * bytes) :=
  let* (count, b) := read_u32 b in
  let* (array_count, b) := read_u32 b in
  if negb (count =? array_count) || (MAX_ENTRIES <? count) || (remaining b / 12 <? count)
  then Err (Xdr "NFSACL invalid or truncated ACL count/array")
  else collect count (decode_entry default) b.
Definition decode_get (g : Generated) (b : bytes) : result PosixAcl :=
  let* b := decode_status g b in
  let* b := skip_attrs b in
  let* (mask, b) := read_u32 b in
  if negb (mask =? FULL_MASK)
  then Err (Xdr "NFSACL GETACL response does not contain the complete requested ACL mask")
  else
    let* (access, b) := decode_acl b false in
    let* (def, b) := decode_acl b true in
    let* _ := ensure_empty b in
    Ok {| pa_access := access; pa_default := def |}.

Definition acl_context (write : bool) : RequestContext :=
  {| operation := if write then "set_posix_acl" else "get_posix_acl"; protocol := NFSv3; request_id := None |}.

Section AclClient.
Context {W : Type} (eng : Engine3 W) (g : Generated) (auth : Auth).

Definition probe : SM W () :=
  let! reply := call3 eng (Header_encode (rpc_header NFSACL_PROG ACL_VERSION 0 auth)) [] ONE_ATTEMPT METADATA_TIMEOUT in
  if bool_decide (reply = []) then ret () else fail (Xdr "NFSACL NULL returned unexpected data").

Definition acl_request (procedure : Z) (fh : bytes) : result bytes :=
  if bool_decide (fh = []) || (64 <? remaining fh)
  then Err (InvalidInput "NFSACL v3 file handle must contain 1..=64 bytes")
  else Ok (Header_encode (rpc_header NFSACL_PROG ACL_VERSION procedure auth) ++ xdr_var_bytes fh ++ xdr_u32 FULL_MASK).

Definition acl_class (write : bool) : OperationClass := if write then ReplaySensitive else ReadOnly.
Fixpoint acl_call (fuel : nat) (request : bytes) (write : bool) : SM W bytes :=
  match fuel with
  | O => fun w => (Panic, w)
  | S fuel =>
      let replay := if write then ONE_ATTEMPT else NFSProc3.NFS_REPLAY in
      let! reply := with_error (classify_sent_nfs3_error (acl_class write) (acl_context write))
                      (call3 eng request [] replay METADATA_TIMEOUT) in
      if negb (is_jukebox reply) then ret reply
      else let! _ := backoff3 eng (acl_context write) (Nfs3 JUKEBOX) in acl_call fuel request write
  end.

Definition get_posix_acl (fuel : nat) (fh : bytes) : SM W PosixAcl :=
  let! request := raise (acl_request 1 fh) in
  let! reply := acl_call fuel request false in
  raise (map_err (classify_sent_nfs3_error ReadOnly (acl_context false)) (decode_get g reply)).
Definition set_posix_acl (fuel : nat) (fh : bytes) (acl : PosixAcl) : SM W () :=
  let! request := raise (acl_request 2 fh) in
  let! access := raise (encode_acl (pa_access acl) false) in
  let! def := raise (encode_acl (pa_default acl) true) in
  let! reply := acl_call fuel (request ++ access ++ def) true in
  raise (map_err (classify_sent_nfs3_error ReplaySensitive (acl_context true))
           (let* b := decode_status g reply in let* b := skip_attrs b in ensure_empty b)).
End AclClient.

(** ** Exports *)

Record ExportEntry : Type := { ex_path : bytes; ex_groups : list bytes }.

Definition decode_xdr_string (b : bytes) : result (bytes * bytes) :=
  let* _ := require 4 (Xdr "response truncated (string length)") b in
  let* (len, b) := get_u32 b in
  let pad := (4 - len mod 4) mod 4 in
  let* _ := require (len + pad) (Xdr "response truncated (string data)") b in
  let* s := slice_to len b in
  if negb (utf8_valid s) then Err (Xdr "invalid utf-8 sequence")
  else let* b := advance (len + pad) b in Ok (s, b).

(** Both loops take at least four bytes a turn. *)
Fixpoint decode_groups (fuel : nat) (b : bytes) : result (list bytes * bytes) :=
  match fuel with
  | O => Panic
  | S fuel =>
      let* _ := require 4 (Xdr "response truncated (group opt)") b in
      let* (opt, b) := get_u32 b in
      if opt =? 0 then Ok ([], b)
      else
        let* (name, b) := decode_xdr_string b in
        let* (groups, b) := decode_groups fuel b in
        Ok (name :: groups, b)
  end.
Fixpoint decode_export_list (fuel : nat) (b : bytes) : result (list ExportEntry * bytes) :=
  match fuel with
  | O => Panic
  | S fuel =>
      let* _ := require 4 (Xdr "response truncated (export opt)") b in
      let* (opt, b) := get_u32 b in
      if opt =? 0 then Ok ([], b)
      else
        let* (path, b) := decode_xdr_string b in
        let* (groups, b) := decode_groups (S (length b)) b in
        let* (rest, b) := decode_export_list fuel b in
        Ok ({| ex_path := path; ex_groups := groups |} :: rest, b)
  end.
Definition decode_exports (b : bytes) : result (list ExportEntry) :=
  let* (l, _) := decode_export_list (S (length b)) b in Ok l.

Definition export_request (auth : Auth) : bytes :=
  Header_encode (rpc_header MOUNT_PROG MOUNT3_VERSION (mount_proc_number MountExport) auth).
Definition export {W : Type} (eng : Engine3 W) (auth : Auth) : SM W (list ExportEntry) :=
  let! b := call3 eng (export_request auth) [] NFSProc3.NFS_REPLAY METADATA_TIMEOUT in raise (decode_exports b).

(** ** Mounting *)

Definition PORTMAP_PORT : Z := 111.

Section Mounting.
Context {W Addr Mux : Type}.
(** Name resolution, connections, the clock's time-out and the port mapper. *)
Context (resolve : bytes -> SM W (list Addr)) (connect : Addr -> Z -> bool -> SM W Mux)
        (client : Mux -> option Mux -> Engine3 W) (portmap : list Addr -> Z -> Z -> Auth -> nat -> bool -> SM W Z).
Context (g : Generated) (fuel : nat) (stamp : W -> Z).

(** [Client::discover]: the NFS connection first, then the port the port mapper gives. *)
Definition attempt {A : Type} (c : SM W A) : SM W (option A) := fun w =>
  match c w with
  | (Ok a, w) => (Ok (Some a), w)
  | (Err _, w) => (Ok None, w)
  | (Panic, w) => (Panic, w)
  end.
Definition discovery (addr : Addr) (port : Z) (rpc : Engine3 W) (auth : Auth) (noresvport : bool) : SM W (option (Engine3 W)) :=
  let! direct := attempt (probe rpc auth) in
  match direct with
  | Some _ => ret (Some rpc)
  | None =>
      let! found := attempt (portmap [addr] NFSACL_PROG ACL_VERSION auth MOUNT_RETRIES noresvport) in
      match found with
      | None => ret None
      | Some acl_port =>
          if acl_port =? port then ret None
          else
            let! mux := attempt (connect addr acl_port noresvport) in
            match mux with
            | None => ret None
            | Some mux =>
                let c := client mux None in
                let! probed := attempt (probe c auth) in
                ret (match probed with Some _ => Some c | None => None end)
            end
      end
  end.
Definition discover (timed_out : bool) (addr : Addr) (port : Z) (rpc : Engine3 W) (auth : Auth) (noresvport : bool)
    : SM W (option (Engine3 W)) :=
  if timed_out then ret None else discovery addr port rpc auth noresvport.

Definition ensure_port (addrs : list Addr) (port prog vers : Z) (auth : Auth) (max_retries : nat) (noresvport : bool) : SM W Z :=
  if negb (port =? 0) then ret port else portmap addrs prog vers auth max_retries noresvport.

Record Mounted3 : Type := { md_mount : Mount3; md_client : Engine3 W; md_posix_acl : option (Engine3 W) }.

Definition with_limits (m : Mount3) (rsize wsize dircount maxcount : Z) : Mount3 :=
  {| m3_auth := m3_auth m; m3_fh := m3_fh m; m3_dir := m3_dir m; m3_dircount := dircount; m3_maxcount := maxcount;
     m3_rsize := rsize; m3_wsize := wsize |}.
Definition mnt_request (auth : Auth) (dir : bytes) : bytes :=
  Header_encode (rpc_header MOUNT_PROG MOUNT3_VERSION (mount_proc_number MountMount) auth) ++ encode_dirpath (trim_end_slashes dir).
Definition decode_mnt (b : bytes) : result bytes :=
  match g_mountstat3 g b with
  | inr e => Err (Xdr e)
  | inl (status, b) =>
      if negb (status =? 0) then Err (Mount status)
      else match g_mountres3_ok g b with inr e => Err (Xdr e) | inl (fh, _) => Ok fh end
  end.
Definition mount_on_addr (timed_out : bool) (addr : Addr) (nfsport : Z) (args : MountArgs) (auth : Auth) (mountport : Z) : SM W Mounted3 :=
  let! nfs_mux := connect addr nfsport (ma_noresvport args) in
  let! mount_mux := (if negb (mountport =? nfsport)
                     then let! mux := connect addr mountport (ma_noresvport args) in ret (Some mux) else ret None) in
  let rpc := client nfs_mux mount_mux in
  let! reply := call3 rpc (mnt_request auth (ma_dirpath args)) [] MOUNT_REPLAY METADATA_TIMEOUT in
  let! fh := raise (decode_mnt reply) in
  let m := {| m3_auth := auth; m3_fh := fh; m3_dir := ma_dirpath args; m3_dircount := DEFAULT_READDIR_BUFFER;
              m3_maxcount := DEFAULT_READDIR_BUFFER; m3_rsize := 0; m3_wsize := 0 |} in
  let! info := fsinfo rpc g m fuel in
  let! rsize := raise (negotiated_io_size (rtmax info)) in
  let! wsize := raise (negotiated_io_size (wtmax info)) in
  let '(dircount, maxcount) := directory_reply_limits (ma_readdir_buffer args) (Some rsize) in
  let! posix_acl := discover timed_out addr nfsport rpc auth (ma_noresvport args) in
  ret {| md_mount := with_limits m rsize wsize dircount maxcount; md_client := rpc; md_posix_acl := posix_acl |}.

Fixpoint mount_addrs (timed_out : bool) (args : MountArgs) (auth : Auth) (nfsport mountport : Z) (addrs : list Addr)
    (last_error : option NfsError) : SM W Mounted3 :=
  match addrs with
  | [] => fail (default (Rpc "no valid socket address") last_error)
  | addr :: addrs =>
      let! r := caught (mount_on_addr timed_out addr nfsport args auth mountport) in
      match r with
      | Err e => mount_addrs timed_out args auth nfsport mountport addrs (Some e)
      | r => raise r
      end
  end.
(** The two port queries are independent; they are made one after the other here. *)
Definition mount3 (timed_out : bool) (args : MountArgs) : SM W Mounted3 :=
  let! addrs := resolve (ma_host args) in
  let! now := asks stamp in
  let auth := new_unix now (of_str "nfs-rs") (ma_uid args) (ma_gid args) in
  let! nfsport := ensure_port addrs (ma_nfsport args) NFS_PROG NFS3_VERSION auth MOUNT_RETRIES (ma_noresvport args) in
  let! mountport := ensure_port addrs (ma_mountport args) MOUNT_PROG MOUNT3_VERSION auth MOUNT_RETRIES (ma_noresvport args) in
  mount_addrs timed_out args auth nfsport mountport addrs None.

Definition query_exports_on_addr (addr : Addr) (port : Z) (auth : Auth) (max_retries : nat) (noresvport : bool) : SM W (list ExportEntry) :=
  let! mux := connect addr port noresvport in
  let! policy := raise (byte_identical max_retries) in
  let! b := call3 (client mux None) (export_request auth) [] policy METADATA_TIMEOUT in
  raise (decode_exports b).
Fixpoint query_addrs (auth : Auth) (port : Z) (noresvport : bool) (addrs : list Addr) : SM W (list ExportEntry) :=
  match addrs with
  | [] => fail (Rpc "no valid socket address")
  | addr :: addrs =>
      let! r := caught (query_exports_on_addr addr port auth MOUNT_RETRIES noresvport) in
      match r with Err _ => query_addrs auth port noresvport addrs | r => raise r end
  end.
Definition query_exports (args : MountArgs) : SM W (list ExportEntry) :=
  let! addrs := resolve (ma_host args) in
  let! now := asks stamp in
  let auth := new_unix now (of_str "nfs-rs") (ma_uid args) (ma_gid args) in
  let! port := ensure_port addrs (ma_mountport args) MOUNT_PROG MOUNT3_VERSION auth MOUNT_RETRIES (ma_noresvport args) in
  query_addrs auth port (ma_noresvport args) addrs.
End Mounting.

(** ** An ACL that was set is read back *)

Definition entry_ok (e : PosixAclEntry) : Prop := valid_entry e = true /\ is_u32 (pe_id e) /\ 0 <= pe_permissions e.
Definition acl_ok (l : list PosixAclEntry) : Prop := Forall entry_ok l /\ (length l <= 1024)%nat.

Lemma read_u32_enc v rest : is_u32 v -> read_u32 (xdr_u32 v ++ rest) = Ok (v, rest).
Proof. intros H. unfold read_u32. rewrite require_app by (by rewrite remaining_xdr_u32). by apply get_u32_be. Qed.

Lemma valid_tag e : valid_entry e = true -> In (pe_tag e) [1; 2; 4; 8; 16; 32] /\ pe_permissions e <= 7.
Proof. intros [H1%bool_decide_eq_true H2%Z.leb_le]%andb_prop. split; [by apply list_elem_of_In|done]. Qed.

(** The flag of a default entry and the tag of an entry do not disturb each other. *)
Lemma tag_flag tag (d : bool) : In tag [1; 2; 4; 8; 16; 32] ->
  is_u32 (Z.lor tag (if d then DEFAULT_TAG else 0)) /\
  negb (Z.land (Z.lor tag (if d then DEFAULT_TAG else 0)) DEFAULT_TAG =? 0) = d /\
  Z.land (Z.lor tag (if d then DEFAULT_TAG else 0)) (Z.lnot DEFAULT_TAG) = tag.
Proof.
  intros H. cbn in H. unfold is_u32. destruct H as [<-|[<-|[<-|[<-|[<-|[<-|[]]]]]]]; destruct d; vm_compute; repeat split; congruence.
Qed.

Lemma decode_entry_enc d e rest : entry_ok e -> decode_entry d (encode_entry d e ++ rest) = Ok (e, rest).
Proof.
  intros (Hv & Hi & Hp). destruct (valid_tag e Hv) as [Ht Hp7]. destruct (tag_flag (pe_tag e) d Ht) as (H1 & H2 & H3).
  unfold decode_entry, encode_entry. rewrite <- !app_assoc, read_u32_enc by done. cbn [obind]. rewrite H2, Bool.eqb_reflx.
  cbn [negb]. rewrite read_u32_enc by done. cbn [obind]. rewrite read_u32_enc by ilia. cbn [obind]. rewrite H3.
  destruct e as [t i p]. cbn [pe_tag pe_id pe_permissions] in *. by rewrite Hv.
Qed.
Lemma remaining_entries d l : remaining (concat (map (encode_entry d) l)) = 12 * Z.of_nat (length l).
Proof.
  induction l as [|e l IH]; [done|]. cbn [map concat length]. unfold encode_entry at 1.
  rewrite !remaining_app, !remaining_xdr_u32, IH. lia.
Qed.

Lemma acl_list_roundtrip l d rest :
  acl_ok l -> exists b, encode_acl l d = Ok b /\ decode_acl (b ++ rest) d = Ok (l, rest).
Proof.
  intros [Hl Hn]. unfold encode_acl, decode_acl, MAX_ENTRIES. destruct (Z.ltb_spec 1024 (Z.of_nat (length l))); [lia|].
  assert (existsb (fun e => negb (valid_entry e)) l = false) as ->.
  { clear -Hl. induction Hl as [|e l (Hv & _) _ IH]; [done|]. cbn. by rewrite Hv. }
  cbn [orb]. eexists. split; [done|]. rewrite <- !app_assoc. do 2 (rewrite read_u32_enc by ilia; cbn [obind]).
  rewrite Z.eqb_refl, remaining_app, remaining_entries. cbn [negb orb].
  destruct (Z.ltb_spec 1024 (Z.of_nat (length l))); [lia|]. cbn [orb].
  pose proof (remaining_nonneg rest) as Hr.
  destruct (Z.ltb_spec ((12 * Z.of_nat (length l) + remaining rest) / 12) (Z.of_nat (length l))) as [Hlt|_].
  - exfalso. assert (Z.of_nat (length l) <= (12 * Z.of_nat (length l) + remaining rest) / 12)
      by (apply Z.div_le_lower_bound; lia). lia.
  - apply collect_encoded. intros e r He. apply decode_entry_enc. rewrite List.Forall_forall in Hl. by apply Hl.
Qed.

(** An access control list that [set_posix_acl] sends is the one [get_posix_acl] reads. For every ACL
    whose entries have POSIX tags and permissions, at most 1024 in each list and an empty default
    list included, both lists are encoded without an error, and a GETACL reply that carries them, with
    or without the object's attributes, decodes to the same ACL. *)
Theorem posix_acl_roundtrip (g : Generated) acl attrs :
  (forall rest, g_nfsstat3 g (xdr_u32 0 ++ rest) = inl (0, rest)) ->
  acl_ok (pa_access acl) -> acl_ok (pa_default acl) -> opt_ok (fun v => remaining v = 84) attrs ->
  exists access def, encode_acl (pa_access acl) false = Ok access /\ encode_acl (pa_default acl) true = Ok def /\
  decode_get g (xdr_u32 0 ++ enc_option (fun v => v) attrs ++ xdr_u32 FULL_MASK ++ access ++ def) = Ok acl.
Proof.
  intros Hg Ha Hd Hattrs. destruct (acl_list_roundtrip (pa_default acl) true [] Hd) as (def & Ed & Dd). rewrite app_nil_r in Dd.
  destruct (acl_list_roundtrip (pa_access acl) false def Ha) as (access & Ea & Da). exists access, def. split_and!; [done|done|].
  unfold decode_get, decode_status. rewrite Hg. cbn [Z.eqb obind].
  assert (forall rest, skip_attrs (enc_option (fun v => v) attrs ++ rest) = Ok rest) as Hs.
  { intros rest. unfold skip_attrs. destruct attrs as [v|]; cbn [enc_option opt_ok] in *.
    - rewrite <- app_assoc, read_u32_enc by done. cbn [obind Z.eqb Pos.eqb]. rewrite remaining_app. pose proof (remaining_nonneg rest).
      destruct (Z.leb_spec 84 (remaining v + remaining rest)); [|lia]. by apply advance_app.
    - by rewrite read_u32_enc. }
  rewrite Hs. cbn [obind]. rewrite read_u32_enc by done. cbn [obind]. rewrite Z.eqb_refl. cbn [negb]. rewrite Da. cbn [obind].
  rewrite Dd. cbn [obind ensure_empty]. by destruct acl.
Qed.

Lemma demo_generated_status v rest : is_u32 v -> g_nfsstat3 demo_generated (xdr_u32 v ++ rest) = inl (v, rest).
Proof. intros H. cbv beta iota zeta delta [demo_generated g_nfsstat3 dec_of]. unfold xdr_u32. by rewrite uint_enc. Qed.

Definition demo_acl : PosixAcl :=
  {| pa_access := [{| pe_tag := 1; pe_id := 1001; pe_permissions := 6 |}; {| pe_tag := 32; pe_id := 0; pe_permissions := 0 |}];
     pa_default := [{| pe_tag := 16; pe_id := 0; pe_permissions := 5 |}] |}.
Lemma posix_acl_roundtrip_witness :
  exists access def, encode_acl (pa_access demo_acl) false = Ok access /\ encode_acl (pa_default demo_acl) true = Ok def /\
  decode_get demo_generated (xdr_u32 0 ++ xdr_u32 0 ++ xdr_u32 15 ++ access ++ def) = Ok demo_acl.
Proof.
  apply (posix_acl_roundtrip demo_generated demo_acl None).
  - intros rest. apply demo_generated_status. unfold is_u32. lia.
  - split; [|cbn; lia]. repeat (apply Forall_cons; split); [..|apply Forall_nil_2]; repeat split; vm_compute; first [reflexivity|discriminate].
  - split; [|cbn; lia]. repeat (apply Forall_cons; split); [..|apply Forall_nil_2]; repeat split; vm_compute; first [reflexivity|discriminate].
  - exact I.
Defined.

(** ** Exports are read back *)

Definition enc_groups (l : list bytes) : bytes := concat (map (fun n => xdr_u32 1 ++ xdr_var_bytes n) l) ++ xdr_u32 0.
Definition enc_exports (l : list ExportEntry) : bytes :=
  concat (map (fun e => xdr_u32 1 ++ xdr_var_bytes (ex_path e) ++ enc_groups (ex_groups e)) l) ++ xdr_u32 0.
Definition name_ok (n : bytes) : Prop := len_ok n /\ utf8_valid n = true.
Definition export_ok (e : ExportEntry) : Prop := name_ok (ex_path e) /\ Forall name_ok (ex_groups e).

Lemma opt_word v rest (e : NfsError) : is_u32 v ->
  require 4 e (xdr_u32 v ++ rest) = Ok () /\ get_u32 (E := NfsError) (xdr_u32 v ++ rest) = Ok (v, rest).
Proof. intros H. split; [apply require_app; by rewrite remaining_xdr_u32|by apply get_u32_be]. Qed.

Lemma decode_xdr_string_enc n rest : name_ok n -> decode_xdr_string (xdr_var_bytes n ++ rest) = Ok (n, rest).
Proof.
  intros [Hl Hu]. unfold decode_xdr_string, xdr_var_bytes, xdr_fixed_bytes. rewrite <- !app_assoc.
  destruct (opt_word (remaining n) (n ++ zeros ((4 - remaining n mod 4) mod 4) ++ rest) (Xdr "response truncated (string length)")) as [-> ->];
    [unfold len_ok in Hl; pose proof (remaining_nonneg n); ilia|]. cbn [obind].
  pose proof (Z.mod_pos_bound (4 - remaining n mod 4) 4 ltac:(lia)) as Hp.
  assert (remaining (n ++ zeros ((4 - remaining n mod 4) mod 4)) = remaining n + (4 - remaining n mod 4) mod 4) as Hr
    by (rewrite remaining_app, remaining_zeros; lia).
  rewrite app_assoc, require_app by lia. cbn [obind]. rewrite <- app_assoc, slice_to_app by done. cbn [obind]. rewrite Hu. cbn [negb].
  by rewrite app_assoc, advance_app.
Qed.
Lemma decode_groups_enc l fuel rest :
  Forall name_ok l -> (length l < fuel)%nat -> decode_groups fuel (enc_groups l ++ rest) = Ok (l, rest).
Proof.
  intros Hl. revert fuel. induction Hl as [|n l Hn _ IH]; intros [|fuel] Hf; cbn in Hf; try lia; cbn [decode_groups].
  - unfold enc_groups. cbn [map concat app]. by destruct (opt_word 0 rest (Xdr "response truncated (group opt)")) as [-> ->].
  - unfold enc_groups. cbn [map concat]. rewrite <- !app_assoc.
    destruct (opt_word 1 (xdr_var_bytes n ++ concat (map (fun n => xdr_u32 1 ++ xdr_var_bytes n) l) ++ xdr_u32 0 ++ rest)
                (Xdr "response truncated (group opt)")) as [-> ->]; [done|]. cbn [obind Z.eqb].
    rewrite decode_xdr_string_enc by done. cbn [obind]. rewrite app_assoc. fold (enc_groups l). rewrite IH by lia. done.
Qed.
Lemma length_word v : length (xdr_u32 v) = 4%nat.
Proof. pose proof (remaining_xdr_u32 v). unfold remaining in *. lia. Qed.
Lemma enc_groups_long l : (length l < length (enc_groups l))%nat.
Proof.
  induction l as [|n l IH]; unfold enc_groups in *; cbn [map concat length app] in *; rewrite ?length_app, ?length_word in *; lia.
Qed.
Lemma enc_exports_long l : (length l < length (enc_exports l))%nat.
Proof.
  induction l as [|n l IH]; unfold enc_exports in *; cbn [map concat length app] in *; rewrite ?length_app, ?length_word in *; lia.
Qed.
Lemma decode_export_list_enc l fuel rest :
  Forall export_ok l -> (length l < fuel)%nat -> decode_export_list fuel (enc_exports l ++ rest) = Ok (l, rest).
Proof.
  intros Hl. revert fuel. induction Hl as [|e l [Hp Hg] _ IH]; intros [|fuel] Hf; cbn in Hf; try lia; cbn [decode_export_list].
  - unfold enc_exports. cbn [map concat app]. by destruct (opt_word 0 rest (Xdr "response truncated (export opt)")) as [-> ->].
  - unfold enc_exports. cbn [map concat]. rewrite <- !app_assoc.
    set (tail := concat (map (fun e => xdr_u32 1 ++ xdr_var_bytes (ex_path e) ++ enc_groups (ex_groups e)) l) ++ xdr_u32 0 ++ rest).
    destruct (opt_word 1 (xdr_var_bytes (ex_path e) ++ enc_groups (ex_groups e) ++ tail) (Xdr "response truncated (export opt)")) as [-> ->];
      [done|]. cbn [obind Z.eqb]. rewrite decode_xdr_string_enc by done. cbn [obind].
    rewrite decode_groups_enc; [|done|rewrite length_app; pose proof (enc_groups_long (ex_groups e)); lia]. cbn [obind].
    unfold tail. rewrite app_assoc. fold (enc_exports l). rewrite IH by lia. by destruct e.
Qed.

(** No reply makes the reader of exports panic or run out of its bound. *)
Lemma wpo_decode_xdr_string b : wpo (decode_xdr_string b) (fun '(_, rest) => (length rest < length b)%nat).
Proof.
  unfold decode_xdr_string. wp. pose proof (Z.mod_pos_bound (4 - v mod 4) 4 ltac:(lia)) as Hp.
  apply wpo_slice_to; [ilia|]. intros s _ _. apply wpo_if; [done|]. intros _. wp_step. apply wpo_advance; [ilia|]. intros r _ Hr.
  cbn. unfold remaining in *. ilia.
Qed.
Lemma decode_groups_total fuel b :
  (length b < fuel)%nat -> wpo (decode_groups fuel b) (fun '(_, rest) => (length rest < length b)%nat).
Proof.
  revert b. induction fuel as [|fuel IH]; intros b Hf; [lia|]. cbn [decode_groups]. wp; (assert (length rest < length b)%nat by (unfold remaining in *; lia)); [done|].
  wp_call wpo_decode_xdr_string. intros [n r] Hr. cbv beta iota in Hr.
  apply wpo_bind. eapply wpo_mono; [apply IH; lia|]. intros [l r'] Hr'. cbv beta iota in Hr'. cbn. lia.
Qed.
Lemma decode_export_list_total fuel b :
  (length b < fuel)%nat -> wpo (decode_export_list fuel b) (fun _ => True).
Proof.
  revert b. induction fuel as [|fuel IH]; intros b Hf; [lia|]. cbn [decode_export_list]. wp; (assert (length rest < length b)%nat by (unfold remaining in *; lia)); [done|].
  wp_call wpo_decode_xdr_string. intros [n r] Hr. cbv beta iota in Hr.
  apply wpo_bind. eapply wpo_mono; [apply decode_groups_total; lia|]. intros [l r'] Hr'. cbv beta iota in Hr'.
  apply wpo_bind. eapply wpo_mono; [apply IH; lia|]. by intros [].
Qed.

(** The list of exports a server sends is the list the caller gets, for any number of exports and
    groups with names in UTF-8; and on any reply at all, malformed or truncated, the decoder ends with a
    list or an error and never panics. *)
Theorem exports_read_back l rest b :
  (Forall export_ok l -> decode_exports (enc_exports l ++ rest) = Ok l) /\ decode_exports b <> Panic.
Proof.
  split.
  - intros Hl. unfold decode_exports. rewrite decode_export_list_enc; [done|done|].
    rewrite length_app. pose proof (enc_exports_long l). lia.
  - unfold decode_exports. pose proof (decode_export_list_total (S (length b)) b ltac:(lia)) as H.
    by destruct (decode_export_list (S (length b)) b) as [[]| |].
Qed.

Lemma exports_read_back_witness :
  decode_exports (enc_exports [{| ex_path := of_str "/srv"; ex_groups := [of_str "*"] |}]) =
  Ok [{| ex_path := of_str "/srv"; ex_groups := [of_str "*"] |}].
Proof.
  rewrite <- (app_nil_r (enc_exports _)).
  apply (exports_read_back [{| ex_path := of_str "/srv"; ex_groups := [of_str "*"] |}] [] []).
  repeat constructor; vm_compute; reflexivity.
Defined.

(** ** The limits of a mount *)

Section MountLimits.
Context {W Addr Mux : Type}.
Context (resolve : bytes -> SM W (list Addr)) (connect : Addr -> Z -> bool -> SM W Mux)
        (client : Mux -> option Mux -> Engine3 W) (portmap : list Addr -> Z -> Z -> Auth -> nat -> bool -> SM W Z).
Context (g : Generated) (fuel : nat) (stamp : W -> Z).

Definition limits_ok (args : MountArgs) (m : Mount3) : Prop :=
  0 < m3_rsize m <= MAX_IO_SIZE /\ 0 < m3_wsize m <= MAX_IO_SIZE /\
  (m3_dircount m, m3_maxcount m) = directory_reply_limits (ma_readdir_buffer args) (Some (m3_rsize m)) /\
  m3_dir m = ma_dirpath args.

(** FSINFO's sizes are unsigned. *)
Hypothesis fsinfo_unsigned : forall b ok rest, g_FSINFO g b = inl (ok, rest) -> 0 <= fi3_rtmax ok /\ 0 <= fi3_wtmax ok.

Lemma negotiated3_range v s : 0 <= v -> negotiated_io_size v = Ok s -> 0 < s <= MAX_IO_SIZE.
Proof.
  intros Hv. unfold negotiated_io_size, MAX_IO_SIZE. case_match eqn:E; [done|]. apply Z.eqb_neq in E. intros [= <-]. lia.
Qed.
Lemma fsinfo_sizes (rpc : Engine3 W) m w i w' : fsinfo rpc g m fuel w = (Ok i, w') -> 0 <= rtmax i /\ 0 <= wtmax i.
Proof.
  intros H. unfold fsinfo in H. apply andthen_ok in H as (ok & w1 & H & [= <- _]). unfold nfs3_call in H.
  apply andthen_ok in H as (reply & w2 & _ & [= H _]). unfold xdr_error in H.
  destruct (g_nfsstat3 g reply) as [[status rest]|]; [|done]. cbn [obind] in H. destruct (status =? 0); [|done].
  destruct (g_FSINFO g rest) as [[ok' rest']|] eqn:E; [|done]. cbn [obind] in H. injection H as ->. by apply fsinfo_unsigned in E.
Qed.
Lemma mount_on_addr_limits timed_out addr nfsport args auth mountport w md w' :
  mount_on_addr connect client portmap g fuel timed_out addr nfsport args auth mountport w = (Ok md, w') ->
  limits_ok args (md_mount md).
Proof.
  unfold mount_on_addr. intros H. apply andthen_ok in H as (mux & w1 & _ & H). apply andthen_ok in H as (mm & w2 & _ & H).
  apply andthen_ok in H as (reply & w3 & _ & H). apply andthen_ok in H as (fh & w4 & _ & H).
  apply andthen_ok in H as (info & w5 & Hi & H). apply fsinfo_sizes in Hi as [Hr Hw].
  apply andthen_ok in H as (rsize & w6 & [= Hrs _] & H). apply andthen_ok in H as (wsize & w7 & [= Hws _] & H).
  destruct (directory_reply_limits _ _) as [dc mc] eqn:Ed. apply andthen_ok in H as (acl & w8 & _ & [= <- _]).
  unfold limits_ok. cbn. rewrite Ed. split_and!; try done; by eapply negotiated3_range; [|done].
Qed.

(** An NFSv3 mount that succeeds has read and write sizes between 1 byte and 4 MiB, whatever sizes the
    server reports, reads directories in pages of the sizes the URL gives or else of its read size,
    and remembers the path it will unmount; a server that reports a size of zero is refused. *)
Theorem mount3_limits timed_out args w md w' :
  mount3 resolve connect client portmap g fuel stamp timed_out args w = (Ok md, w') -> limits_ok args (md_mount md).
Proof.
  unfold mount3. intros H. apply andthen_ok in H as (addrs & w1 & _ & H). apply andthen_ok in H as (now & w2 & _ & H).
  apply andthen_ok in H as (np & w3 & _ & H). apply andthen_ok in H as (mp & w4 & _ & H).
  revert w4 H. generalize (@None NfsError). induction addrs as [|a addrs IH]; intros last w4 H; cbn [mount_addrs] in H; [done|].
  apply andthen_ok in H as (r & w5 & Hr & H). unfold caught in Hr.
  destruct (mount_on_addr connect client portmap g fuel timed_out a np args _ mp w4) as [[md'|e|] w6] eqn:Em; [| |done].
  - injection Hr as <- <-. unfold raise in H. injection H as <- <-. by eapply mount_on_addr_limits.
  - injection Hr as <- <-. by eapply IH.
Qed.
End MountLimits.

(** A server that answers MNT and FSINFO. *)
Definition fsinfo_generated : Generated :=
  {| g_nfsstat3 := g_nfsstat3 demo_generated; g_post_op_attr := dec_none; g_post_op_fh3 := dec_none; g_cookieverf3 := dec_none;
     g_fileid3 := dec_none; g_filename3 := dec_none; g_cookie3 := dec_none; g_u32 := dec_none; g_bool := dec_none;
     g_ACCESS := dec_none; g_COMMIT := dec_none; g_CREATE := dec_none; g_MKDIR := dec_none; g_SYMLINK := dec_none;
     g_FSINFO := fun v => inl ({| fi3_attributes := None; fi3_rtmax := 2 ^ 30; fi3_rtpref := 0; fi3_rtmult := 0; fi3_wtmax := 65536;
       fi3_wtpref := 0; fi3_wtmult := 0; fi3_dtpref := 0; fi3_maxfilesize := 0; fi3_time_delta := time_zero; fi3_properties := 0 |}, v);
     g_FSSTAT := dec_none; g_GETATTR := dec_none; g_LINK := dec_none; g_LOOKUP := dec_none; g_PATHCONF := dec_none; g_READ := dec_none;
     g_READLINK := dec_none; g_REMOVE := dec_unit; g_RENAME := dec_unit; g_RMDIR := dec_unit; g_SETATTR := dec_unit;
     g_WRITE := dec_none; g_mountstat3 := g_mountstat3 demo_generated; g_mountres3_ok := g_mountres3_ok demo_generated |}.
Definition mnt_engine : Engine3 () :=
  {| call3 := fun _ _ _ _ w => (Ok (xdr_u32 0 ++ xdr_opaque (of_str "root")), w); backoff3 := fun _ _ => ret () |}.
Definition mount_args3 : MountArgs := {|
  ma_versions := [NFSv3]; ma_host := of_str "srv"; ma_dirpath := of_str "/x/"; ma_mountport := 9; ma_nfsport := 9; ma_uid := 0;
  ma_gid := 0; ma_readdir_buffer := None; ma_noresvport := true; ma_retain_delegations := false |}.

Lemma mount3_limits_witness :
  exists md, (mount3 (fun _ => ret [1]) (fun _ _ _ => ret ()) (fun _ _ => mnt_engine) (fun _ _ _ _ _ _ => ret 9) fsinfo_generated 3
    (fun _ => 0) true mount_args3 ()).1 = Ok md /\ limits_ok mount_args3 (md_mount md) /\ m3_rsize (md_mount md) = MAX_IO_SIZE.
Proof.
  eexists. split; [vm_compute; reflexivity|]. split; [|vm_compute; reflexivity].
  apply (mount3_limits (fun _ => ret [1]) (fun _ _ _ => ret ()) (fun _ _ => mnt_engine) (fun _ _ _ _ _ _ => ret 9) fsinfo_generated 3
    (fun _ => 0)) with (timed_out := true) (w := ()) (w' := ()).
  - intros b ok rest [= <- _]. cbn. lia.
  - vm_compute. reflexivity.
Defined.
