(* ===== verification/Pnfs41.v ===== *)
(** * Layouts, data servers and retained writes of a mount

    Models the methods of [Mount41] in [src/src/nfs41/pnfs_io.rs] and
    [write_pnfs] of [src/src/nfs41/write.rs]: fetching layouts and devices,
    connecting to data servers, reading and writing stripes, committing retained
    writes, LAYOUTCOMMIT and LAYOUTRETURN. The file joins [LayoutMgr], [PnfsIo]
    and the mount of [Ops41]: its world is a mount whose extension holds the
    layout manager and the retained writes, which callers share by identity.

    What leaves the process goes through [Ops41.Engine] (requests to the metadata
    server) and [DsOps] (data servers). Every such call may change the whole
    world, which covers the tasks that run meanwhile; [waits] is what they do
    while this task waits for a gate. The requests of one batch are made in plan
    order here. *)
From S2P Require Import Prelude Errors Xdr4 Session Acl4 Compound41 V42 Response41 State41 Layout Device LayoutMgr PnfsIo FsInfo Ops41 MountTrait.
From stdpp Require Import base list numbers strings gmap.
#[local] Open Scope Z_scope.
#[local] Open Scope sm_scope.

(** ** The world *)

Record Pnfs (Y : Type) : Type := {
  pn_mgr : LayoutManager; pn_heap : gmap nat PendingWrite; pn_next : nat; pn_ext : Y
}.
Arguments pn_mgr {Y}. Arguments pn_heap {Y}. Arguments pn_next {Y}. Arguments pn_ext {Y}.

(** Marking several entries of a heap. *)
Lemma lookup_marks (f : PendingWrite -> PendingWrite) ids (h : gmap nat PendingWrite) i : (forall p, f (f p) = f p) ->
  foldr (fun i h => alter f i h) h ids !! i = if bool_decide (i ∈ ids) then f <$> h !! i else h !! i.
Proof.
  intros Hf. induction ids as [|j ids IH]; cbn; [by rewrite bool_decide_eq_false_2 by apply not_elem_of_nil|].
  destruct (decide (i = j)) as [->|Hij].
  - rewrite lookup_alter, IH, (bool_decide_eq_true_2 (j ∈ j :: ids)) by left.
    rewrite decide_True by done.
    case_bool_decide; [|done]. destruct (h !! j); cbn; [|done]. by rewrite Hf.
  - rewrite lookup_alter_ne, IH by done. rewrite (bool_decide_ext (i ∈ j :: ids) (i ∈ ids)); [done|]. rewrite elem_of_cons. tauto.
Qed.

Section Pnfs41.
Context {Y : Type}.
#[local] Notation W := (@Mount41 (Pnfs Y)).
#[local] Notation PM := (SM W).

Definition mgr (w : W) : LayoutManager := pn_mgr (m_ext w).
Definition heap (w : W) : gmap nat PendingWrite := pn_heap (m_ext w).
Definition set_ext (w : W) (x : Pnfs Y) : W :=
  {| m_state := m_state w; m_recalls := m_recalls w; m_writes := m_writes w; m_ext := x |}.
Definition set_mgr (w : W) (m : LayoutManager) : W :=
  set_ext w {| pn_mgr := m; pn_heap := heap w; pn_next := pn_next (m_ext w); pn_ext := pn_ext (m_ext w) |}.
Definition set_heap (w : W) (h : gmap nat PendingWrite) : W :=
  set_ext w {| pn_mgr := mgr w; pn_heap := h; pn_next := pn_next (m_ext w); pn_ext := pn_ext (m_ext w) |}.

(** A method of the layout manager: one that changes it, one that also returns a
    value. *)
Definition mgr_do (f : LayoutManager -> LayoutManager) : PM () := fun w => (Ok (), set_mgr w (f (mgr w))).
Definition mgr_call {A} (f : LayoutManager -> A * LayoutManager) : PM A := fun w =>
  let '(a, m) := f (mgr w) in (Ok a, set_mgr w m).

(** Data servers: connecting (with the session and the timeout), a request on a
    connection with optional WRITE data; the session of the metadata server. *)
Record DsOps : Type := {
  connect_ds : SocketAddr -> PM ConnectOutcome;
  compound_ds : DsConnection -> option bytes -> bytes -> (CompoundBuilder -> CompoundBuilder) -> PM CompoundResponse;
  pnfs_mds : W -> bool;
  session_id_of : W -> bytes;
  waits : W -> W;
}.

Context (cfg : Config) (eng : @Engine (Pnfs Y)) (ds : DsOps) (server_addr : SocketAddr).
(** Texts of errors only. *)
Context (show_addr : SocketAddr -> string) (diagnostic : list DsWriteCompletion -> string).

#[local] Notation protocol_version := (protocol_of cfg).
Definition wait : PM () := fun w => (Ok (), waits ds w).

(** ** Data servers *)

Definition get_data_server (addr : SocketAddr) (generation : Z) : PM DsConnection :=
  let! fast := (fun w => (ds_fast_path (mgr w) addr generation, w)) in
  match fast with
  | Some c => ret c
  | None =>
      let! _ := wait in
      let! gated := (fun w => (ds_gated_check show_addr (mgr w) addr generation, w)) in
      match gated with
      | Some c => ret c
      | None =>
          let! outcome := connect_ds ds addr in
          fun w => let '(r, _, m) := ds_publish show_addr (mgr w) addr generation outcome in (r, set_mgr w m)
      end
  end.

(** The distinct addresses other than the metadata server's, in plan order. *)
Definition preflight_addresses (writes : list PlannedDsWrite) : list SocketAddr :=
  remove_dups (List.filter (fun a => negb (bool_decide (a = server_addr))) (map pw_ds_addr writes)).

Fixpoint connect_all (l : list SocketAddr) (generation : Z) : PM () :=
  match l with
  | [] => ret ()
  | a :: l => let! _ := get_data_server a generation in connect_all l generation
  end.

Definition preflight_write_data_servers (writes : list PlannedDsWrite) (generation : Z) : PM () :=
  connect_all (preflight_addresses writes) generation.

Definition session_gone (r : result CompoundResponse) : bool :=
  match r with Err (Nfs4 (NFS4ERR_BADSESSION | NFS4ERR_DEADSESSION)) => true | _ => false end.

(** READ and WRITE of [len] bytes on a connection, at most what its session
    allows. *)
Definition ds_read_on (c : DsConnection) (ds_fh stateid : bytes) (offset count : Z) : PM CompoundResponse :=
  let! limit := raise (effective_rsize (rsize cfg) (s_max_response_size (ds_session c))) in
  let count := Z.min count limit in
  compound_ds ds c None (of_str "ds-read") (fun b => Compound41.read stateid offset count (Compound41.putfh ds_fh b)).

Definition ds_read_chunk (addr : SocketAddr) (ds_fh stateid : bytes) (generation : Z) (offset count : Z) : PM CompoundResponse :=
  if bool_decide (addr = server_addr) then
    compound eng "ds-read-mds"
      (fun b => Compound41.read stateid offset count (Compound41.putfh ds_fh (Compound41.require_generation b generation)))
  else
    let! c := get_data_server addr generation in
    let! limit := raise (effective_rsize (rsize cfg) (s_max_response_size (ds_session c))) in
    let count := Z.min count limit in
    let! result := caught (compound_ds ds c None (of_str "ds-read")
      (fun b => Compound41.read stateid offset count (Compound41.putfh ds_fh b))) in
    if session_gone result then
      let! _ := mgr_call (fun m => remove_data_server m addr) in
      let! c := get_data_server addr generation in
      ds_read_on c ds_fh stateid offset count
    else raise result.

Definition ds_write_on (c : DsConnection) (ds_fh stateid : bytes) (ds_off : Z) (data : bytes) : PM CompoundResponse :=
  let! limit := raise (effective_wsize (wsize cfg) (s_max_request_size (ds_session c))) in
  let len := wrap32 (Z.min (remaining data) limit) in
  let! data := raise (slice_to len data) in
  compound_ds ds c (Some data) (of_str "ds-write")
    (fun b => Compound41.write_header stateid ds_off 0 len (Compound41.putfh ds_fh b)).

Definition ds_write_chunk (addr : SocketAddr) (ds_fh stateid : bytes) (generation : Z) (ds_off : Z) (data : bytes) : PM CompoundResponse :=
  if bool_decide (addr = server_addr) then
    compound_write eng "ds-write-mds" data
      (fun b => Compound41.write_header stateid ds_off 0 (wrap32 (remaining data))
                  (Compound41.putfh ds_fh (Compound41.require_generation b generation)))
  else
    let! c := get_data_server addr generation in
    let! limit := raise (effective_wsize (wsize cfg) (s_max_request_size (ds_session c))) in
    let len := wrap32 (Z.min (remaining data) limit) in
    let! data := raise (slice_to len data) in
    let! result := caught (compound_ds ds c (Some data) (of_str "ds-write")
      (fun b => Compound41.write_header stateid ds_off 0 len (Compound41.putfh ds_fh b))) in
    if session_gone result then
      let! _ := mgr_call (fun m => remove_data_server m addr) in
      let! c := get_data_server addr generation in
      ds_write_on c ds_fh stateid ds_off data
    else raise result.

Definition ds_commit_chunk (addr : SocketAddr) (ds_fh : bytes) (generation ds_off count : Z) : PM bytes :=
  let! resp :=
    (if bool_decide (addr = server_addr) then
       compound eng "ds-commit-mds" (fun b => Compound41.commit ds_off count (Compound41.putfh ds_fh (Compound41.require_generation b generation)))
     else
       let! c := get_data_server addr generation in
       compound_ds ds c None (of_str "ds-commit") (fun b => Compound41.commit ds_off count (Compound41.putfh ds_fh b))) in
  let! _ := raise (op_ok resp 1) in
  let! op := raise (op_ok resp 2) in
  raise (let* _ := require 8 (Xdr "DS COMMIT result too short") (op_data op) in
         let* (v, _) := split_to 8 (op_data op) in Ok v).

(** ** Layouts and devices *)

Definition LAYOUT4_NFSV4_1_FILES : Z := 1.
Definition iomode_u32 (m : IoMode) : Z := match m with IoRead => 1 | IoReadWrite => 2 end.
Definition iomode_access (m : IoMode) : AccessMode.t :=
  match m with IoRead => AccessMode.Read | IoReadWrite => AccessMode.Write end.

(** One GETDEVICEINFO: [Some] ends the loop of [get_or_fetch_device] with that
    answer. *)
Definition fetch_device (device : bytes) (generation : Z) : PM (option (option DeviceInfo)) :=
  let! rev := asks (fun w => device_revision (mgr w)) in
  let! result := caught (compound eng "getdeviceinfo"
    (fun b => Compound41.getdeviceinfo device 1 (1024 * 1024) (Compound41.putrootfh (Compound41.require_generation b generation)))) in
  match result with
  | Ok resp =>
      match obind (op_ok resp 2) (fun op => decode_getdeviceinfo_response (op_data op)) with
      | Ok (info, _) =>
          let info := sort_multipath_by_affinity info server_addr in
          let! stored := mgr_call (fun m => store_device_if_current m device generation rev info) in
          if stored then let! d := asks (fun w => get_device (mgr w) device) in ret (Some d) else ret None
      | Err _ => ret None
      | Panic => raise Panic
      end
  | Err e => if stop_pnfs_fallback e then fail e else ret (Some None)
  | Panic => raise Panic
  end.

Fixpoint fetch_device_loop (n : nat) (device : bytes) (generation : Z) : PM (option DeviceInfo) :=
  match n with
  | O => ret None
  | S n =>
      let! answer := fetch_device device generation in
      match answer with
      | Some d => ret d
      | None => fetch_device_loop n device generation
      end
  end.

Definition get_or_fetch_device (device : bytes) (generation : Z) : PM (option DeviceInfo) :=
  let! cached := asks (fun w => get_device (mgr w) device) in
  match cached with
  | Some d => ret (Some d)
  | None =>
      let! _ := wait in
      let! cached := asks (fun w => get_device (mgr w) device) in
      match cached with
      | Some d => ret (Some d)
      | None => fetch_device_loop 2 device generation
      end
  end.

(** The device identifiers a layout refers to, each once. *)
Definition layout_devices (l : Layout) : list bytes :=
  foldl (fun seen s => match content s with
                       | Files f => if bool_decide (device_id f ∈ seen) then seen else seen ++ [device_id f]
                       | OpaqueContent _ => seen
                       end) [] (segments l).

Fixpoint fetch_devices (l : list bytes) (generation : Z) : PM () :=
  match l with
  | [] => ret ()
  | d :: l => let! _ := get_or_fetch_device d generation in fetch_devices l generation
  end.
Definition fetch_devices_for_layout (l : Layout) : PM () := fetch_devices (layout_devices l) (lo_generation l).

(** What is done with a LAYOUTGET reply: the manager must accept the layout. *)
Definition accept_layout (fh : bytes) (was_cached : bool) (resp : CompoundResponse) : PM (option Layout) :=
  match obind (op_ok resp 2) (fun op => decode_layoutget_response (op_data op)) with
  | Err _ => ret None
  | Panic => raise Panic
  | Ok (layout, _) =>
      let layout := with_lo_generation layout (session_generation resp) in
      let! accepted :=
        (if was_cached : bool
         then let! _ := mgr_do (fun m => merge_layout m fh layout) in
              asks (fun w => match get_layout (mgr w) fh with Some _ => true | None => false end)
         else mgr_call (fun m => store_layout_at m fh (session_generation resp) layout)) in
      if accepted : bool
      then let! _ := fetch_devices_for_layout layout in asks (fun w => get_layout (mgr w) fh)
      else ret None
  end.

Definition get_or_fetch_layout (fh : bytes) (iomode : IoMode) (offset : Z) : PM (option Layout) :=
  let! enabled := asks (pnfs_mds ds) in
  if negb enabled then ret None
  else
    let! cached := asks (fun w => get_layout_covering (mgr w) fh offset) in
    match cached with
    | Some l => ret (Some l)
    | None =>
        let! generation := asks (fun w => active_generation (mgr w)) in
        let! _ := wait in
        let! now := asks (fun w => active_generation (mgr w)) in
        if negb (generation =? now) then ret None
        else
          let! cached := asks (fun w => get_layout_covering (mgr w) fh offset) in
          match cached with
          | Some l => ret (Some l)
          | None =>
              let! cached := asks (fun w => get_layout (mgr w) fh) in
              let! sid := asks (open_or_anonymous fh (iomode_access iomode)) in
              let stateid := match cached with Some l => lo_stateid l | None => raw sid end in
              let! result := caught (compound eng "layoutget"
                (fun b => Compound41.layoutget false LAYOUT4_NFSV4_1_FILES (iomode_u32 iomode) offset (u64_max - offset) 0
                            stateid (1024 * 1024) (Compound41.putfh fh (Compound41.require_generation b generation)))) in
              match result with
              | Ok resp => accept_layout fh (match cached with Some _ => true | None => false end) resp
              | Err e => if stop_pnfs_fallback e then fail e else ret None
              | Panic => raise Panic
              end
          end
    end.

Definition device_degenerate (d : DeviceInfo) : PM bool :=
  let degenerate := is_degenerate_device d server_addr in
  if degenerate then let! _ := mgr_call should_log_degenerate in ret true else ret false.

Definition device_ds_unreachable (d : DeviceInfo) (w : W) : bool :=
  existsb (fun paths => match paths with
                        | [] => false
                        | addr :: _ => negb (bool_decide (addr = server_addr)) && is_ds_unreachable (mgr w) addr
                        end) (ds_addrs d).

(** A loop whose fuel is at least the number of its turns; running out of fuel
    would show as a panic. *)
Definition loop_result {A} (c : W -> option (result A * W)) : PM A := fun w =>
  match c w with Some r => r | None => (Panic, w) end.

(** ** Reading *)

(** A range of a file layout that can be used: the segment, its file layout, the
    device and the number of stripes. [None] asks for I/O through the metadata
    server. *)
Definition usable_layout (layout : Layout) (offset : Z) : PM (option (LayoutSegment * FilesLayout * DeviceInfo * Z)) :=
  match find_covering_segment layout offset with
  | None => ret None
  | Some seg =>
      match content seg with
      | OpaqueContent _ => ret None
      | Files f =>
          if (stripe_unit f =? 0) || (offset <? pattern_offset f) then ret None
          else
            let! device := get_or_fetch_device (device_id f) (lo_generation layout) in
            match device with
            | None => ret None
            | Some d =>
                match file_layout_stripe_count d (Z.of_nat (length (fh_list f))) (is_dense f) (first_stripe_index f) with
                | None => ret None
                | Some n =>
                    let! degenerate := device_degenerate d in
                    if degenerate : bool then ret None
                    else
                      let! unreachable := asks (device_ds_unreachable d) in
                      if unreachable : bool then ret None else ret (Some (seg, f, d, n))
                end
            end
      end
  end.

Definition read_stripe (d : DeviceInfo) (f : FilesLayout) (fh stateid : bytes) (generation : Z) (c : StripeChunk) : PM (bytes * bool) :=
  let! (ds_fh, addr) := raise (file_layout_target d (ds_index c) (is_dense f) (fh_list f) fh) in
  loop_result (ds_read_complete (ds_read_chunk addr ds_fh stateid generation) (Z.to_nat (ck_length c)) (ck_length c) (ck_ds_offset c)).

Fixpoint read_stripes (d : DeviceInfo) (f : FilesLayout) (fh stateid : bytes) (generation : Z) (l : list StripeChunk) : PM (list (bytes * bool)) :=
  match l with
  | [] => ret []
  | c :: l =>
      let! x := read_stripe d f fh stateid generation c in
      let! xs := read_stripes d f fh stateid generation l in
      ret (x :: xs)
  end.

(** The stripes in order, up to the first short one. *)
Fixpoint join_stripes (acc : ReadAssembly) (l : list (bytes * bool)) : ReadAssembly :=
  match l with
  | [] => acc
  | (piece, short) :: l => if short : bool then ra_push acc piece else join_stripes (ra_push acc piece) l
  end.
Definition assemble (results : list (bytes * bool)) : bytes :=
  match results with
  | [(piece, _)] => piece
  | _ => ra_freeze (join_stripes (ra_new (foldr (fun x n => remaining x.1 + n) 0 results)) results)
  end.

Definition covered_count (seg : LayoutSegment) (offset count : Z) : Z :=
  Z.min count (Z.min u32_max (Z.max 0 (sat_add64 (seg_offset seg) (seg_length seg) - offset))).

Definition pnfs_read_layout (fh : bytes) (offset count : Z) (layout : Layout) : PM (option (result bytes)) :=
  let! usable := caught (usable_layout layout offset) in
  match usable with
  | Err e => ret (Some (Err e))
  | Panic => raise Panic
  | Ok None => ret None
  | Ok (Some (seg, f, d, stripe_count)) =>
      let! sid := asks (open_or_anonymous fh AccessMode.Read) in
      match split_into_stripes offset (covered_count seg offset count) (stripe_unit f) (is_dense f)
              (first_stripe_index f) stripe_count (pattern_offset f) with
      | None => raise Panic
      | Some chunks =>
          let! results := caught (read_stripes d f fh (raw sid) (lo_generation layout) chunks) in
          match results with
          | Ok results =>
              let! now := asks (fun w => active_generation (mgr w)) in
              if negb (lo_generation layout =? now)
              then ret (Some (Err (Rpc "discarding pNFS READ result from stale session generation")))
              else ret (Some (Ok (assemble results)))
          | Err e => ret (Some (Err e))
          | Panic => raise Panic
          end
      end
  end.

(** ** Retained writes *)

Definition is_done (w : W) (i : nat) : bool := match heap w !! i with Some p => pd_done p | None => true end.
Definition has_failed (w : W) (i : nat) : bool := match heap w !! i with Some p => pd_failed p | None => false end.
Definition set_done (p : PendingWrite) : PendingWrite :=
  {| pd_fh := pd_fh p; pd_offset := pd_offset p; pd_count := pd_count p; pd_generation := pd_generation p;
     pd_commit_thru_mds := pd_commit_thru_mds p; pd_replies := pd_replies p; pd_done := true; pd_failed := pd_failed p |}.
Definition set_failed (p : PendingWrite) : PendingWrite :=
  {| pd_fh := pd_fh p; pd_offset := pd_offset p; pd_count := pd_count p; pd_generation := pd_generation p;
     pd_commit_thru_mds := pd_commit_thru_mds p; pd_replies := pd_replies p; pd_done := pd_done p; pd_failed := true |}.

(** [Arc::new] and [register_write] *)
Definition retain (fh : bytes) (p : PendingWrite) : PM () := fun w =>
  let i := pn_next (m_ext w) in
  (Ok (), set_ext w {| pn_mgr := register_write (mgr w) fh i; pn_heap := <[i := p]> (heap w); pn_next := S i;
                       pn_ext := pn_ext (m_ext w) |}).

(** ** Writing *)

Definition write_stripe (stateid : bytes) (generation : Z) (p : PlannedDsWrite) : PM DsWriteReply :=
  loop_result (write_ds_complete (ds_write_chunk (pw_ds_addr p) (pw_ds_fh p) stateid generation) protocol_version
                 (length (pw_data p)) p).

(** Every request of the batch is waited for. *)
Fixpoint settle_ds_batch (stateid : bytes) (generation : Z) (l : list PlannedDsWrite) : PM (list DsWriteCompletion) :=
  match l with
  | [] => ret []
  | p :: l =>
      let! r := caught (write_stripe stateid generation p) in
      let! rs := settle_ds_batch stateid generation l in
      ret ({| dc_stripe_index := pw_stripe_index p; dc_ds_addr := pw_ds_addr p; dc_result := r |} :: rs)
  end.

(** After the batch: the outcome, and the write the manager keeps. *)
Definition finish_batch (fh : bytes) (offset : Z) (layout : Layout) (f : FilesLayout) (completions : list DsWriteCompletion) : PM PnfsWriteOutcome :=
  let! active := asks (fun w => active_generation (mgr w)) in
  let! session := asks (session_id_of ds) in
  let '(outcome, registered) := settle_write_batch diagnostic fh offset layout (commit_thru_mds f) active session protocol_version completions in
  let! _ := match registered with Some p => retain fh p | None => ret () end in
  ret outcome.

Definition pnfs_write (fh : bytes) (offset : Z) (data : bytes) : PM PnfsWriteOutcome :=
  let! fetched := caught (get_or_fetch_layout fh IoReadWrite offset) in
  match fetched with
  | Err e => ret (Attempted (Err e))
  | Panic => raise Panic
  | Ok None => ret NotAttempted
  | Ok (Some layout) =>
      let! usable := caught (usable_layout layout offset) in
      match usable with
      | Err e => ret (Attempted (Err e))
      | Panic => raise Panic
      | Ok None => ret NotAttempted
      | Ok (Some (seg, f, d, stripe_count)) =>
          let! sid := asks (open_or_anonymous fh AccessMode.Write) in
          match plan_write d seg f fh data offset stripe_count with
          | None | Some Panic => raise Panic
          | Some (Err _) => ret NotAttempted
          | Some (Ok writes) =>
              let! ready := caught (preflight_write_data_servers writes (lo_generation layout)) in
              match ready with
              | Err _ => ret (RefreshRequired layout)
              | Panic => raise Panic
              | Ok _ =>
                  let! completions := settle_ds_batch (raw sid) (lo_generation layout) writes in
                  finish_batch fh offset layout f completions
              end
          end
      end
  end.

(** ** LAYOUTCOMMIT *)

Definition layoutcommit_dirty (fh : bytes) : PM bool :=
  let! dirty := asks (fun w => snapshot_dirty (mgr w) fh) in
  match dirty with
  | None => ret true
  | Some r =>
      let! layout := asks (fun w => get_layout (mgr w) fh) in
      match layout with
      | None => fail (Rpc "cannot LAYOUTCOMMIT dirty range without an active layout")
      | Some l =>
          let! resp := compound eng "layoutcommit"
            (fun b => Compound41.layoutcommit (dr_start r) (wrap64 (dr_end r - dr_start r)) false (lo_stateid l)
                        (Some (wrap64 (dr_end r - 1))) LAYOUT4_NFSV4_1_FILES (Compound41.putfh fh b)) in
          let! _ := raise (op_ok resp 1) in
          let! _ := raise (op_ok resp 2) in
          mgr_call (fun m => acknowledge_dirty m fh r)
      end
  end.

(** ** Committing retained writes *)

Definition uncertain_after_ds_write (e : NfsError) (w : W) : NfsError :=
  uncertain_pnfs_write {| operation := "pnfs_write"; protocol := protocol_version;
                          request_id := Some (Nfs41Session (session_id_of ds w) 0 0) |} e.

(** [impl CommitIo for Mount41] *)
Definition mount_commit_io : CommitIo W := {|
  io_protocol := protocol_version;
  mds_commit := fun fh offset count =>
    let! v := commit_with_verifier eng fh offset count in
    match v with Some v => ret v | None => fail (Rpc "missing MDS commit verifier") end;
  ds_commit := fun addr ds_fh generation offset count => ds_commit_chunk addr ds_fh generation offset count;
  layout_commit := fun fh generation start end_ =>
    let! _ := mgr_call (fun m => mark_dirty_at m fh generation start end_) in
    let! _ := layoutcommit_dirty fh in ret ();
|}.

Definition commit_ds_batch_of (fh : bytes) (generation : Z) (pending : list PendingWrite) (replies : list (list DsWriteReply)) : PM () := fun w =>
  let '(r, (w, _)) := commit_ds_batch mount_commit_io fh generation pending replies w in (r, w).

(** Writing the data of a receipt again, on the server that had it. *)
Definition plan_again (r : DsWriteReply) : PlannedDsWrite :=
  {| pw_file_offset := wr_file_offset r; pw_stripe_index := 0; pw_ds_fh := wr_ds_fh r; pw_ds_addr := wr_ds_addr r;
     pw_ds_offset := wr_ds_offset r; pw_data := wr_data r |}.
Definition commit_context : RequestContext := {| operation := "pnfs_commit"; protocol := protocol_version; request_id := None |}.
Fixpoint rewrite_batch (stateid : bytes) (generation : Z) (l : list DsWriteReply) : PM (list DsWriteReply) :=
  match l with
  | [] => ret []
  | r :: l =>
      let! r := with_error (uncertain_pnfs_write commit_context) (write_stripe stateid generation (plan_again r)) in
      let! rs := rewrite_batch stateid generation l in
      ret (r :: rs)
  end.
Fixpoint rewrite_batches (stateid : bytes) (generation : Z) (l : list (list DsWriteReply)) : PM (list (list DsWriteReply)) :=
  match l with
  | [] => ret []
  | b :: l =>
      let! b := rewrite_batch stateid generation b in
      let! bs := rewrite_batches stateid generation l in
      ret (b :: bs)
  end.

Definition mark_done (ids : list nat) (w : W) : W := set_heap w (foldr (fun i h => alter set_done i h) (heap w) ids).
Definition mark_failed (ids : list nat) (w : W) : W :=
  set_heap w (foldr (fun i h => alter (fun p => if pd_done p then p else set_failed p) i h) (heap w) ids).

(** [for attempt in 0..3]; [more] attempts are left after this one. *)
Fixpoint commit_attempts (more : nat) (fh : bytes) (generation : Z) (ids : list nat) (pending : list PendingWrite)
    (replies : list (list DsWriteReply)) : PM () :=
  let! result := caught (commit_ds_batch_of fh generation pending replies) in
  match result with
  | Ok _ =>
      let! now := asks (fun w => active_generation (mgr w)) in
      if negb (generation =? now)
      then fun w => (Err (uncertain_after_ds_write (Rpc "pNFS generation changed during commit") w), w)
      else fun w =>
        let w := mark_done ids w in
        (Ok (), set_mgr w (prune_completed_writes (is_done w) (mgr w) fh))
  | Err e =>
      match more with
      | S more =>
          if verifier_changed e then
            let! sid := asks (open_or_anonymous fh AccessMode.Write) in
            let! replies := rewrite_batches (raw sid) generation replies in
            commit_attempts more fh generation ids pending replies
          else fun w => (Err (uncertain_after_ds_write e w), w)
      | O => fun w => (Err (uncertain_after_ds_write e w), w)
      end
  | Panic => raise Panic
  end.

Definition commit_body (fh : bytes) (ids : list nat) : PM () := fun w =>
  let pending := omap (fun i => heap w !! i) ids in
  match pending with
  | [] => (Ok (), w)
  | first :: _ =>
      if forallb (fun p => bool_decide (pd_fh p = fh) && (pd_generation p =? active_generation (mgr w))) pending
      then commit_attempts 2 fh (pd_generation first) ids pending (map pd_replies pending) w
      else (Err (uncertain_after_ds_write (Rpc "pNFS commit crossed layout generation") w), w)
  end.

(** The guard marks what is not done when the call ends. *)
Definition commit_pending_writes (fh : bytes) (pending : list nat) : PM () := fun w =>
  let w := waits ds w in
  let ids := List.filter (fun i => negb (is_done w i)) pending in
  let '(r, w') := commit_body fh ids w in
  (r, mark_failed ids w').

Definition flush_layoutcommit (fh : bytes) : PM () :=
  let! pending := asks (fun w => get_pending_writes (mgr w) fh) in
  let! _ := commit_pending_writes fh pending in
  let! unchanged := layoutcommit_dirty fh in
  if unchanged : bool then ret ()
  else fail (Rpc "pNFS dirty range changed during LAYOUTCOMMIT; retry before CLOSE").

(** ** Returning layouts *)

Definition return_iomode (l : Layout) : Z := match segments l with [s] => iomode_u32 (iomode s) | _ => 3 end.

Definition layoutreturn_file (fh : bytes) : PM () :=
  let! _ := flush_layoutcommit fh in
  let! layout := asks (fun w => get_layout (mgr w) fh) in
  match layout with
  | None => ret ()
  | Some l =>
      let! resp := compound eng "layoutreturn"
        (fun b => Compound41.layoutreturn false LAYOUT4_NFSV4_1_FILES (return_iomode l) 1 0 u64_max (lo_stateid l) (Compound41.putfh fh b)) in
      let! _ := raise (op_ok resp 1) in
      let! _ := raise (op_ok resp 2) in
      let! _ := mgr_call (fun m => remove_layout m fh) in
      ret ()
  end.

Definition invalidate_devices (l : Layout) (m : LayoutManager) : LayoutManager :=
  foldl (fun m s => match content s with
                    | Files f => invalidate_device m (device_id f) (lo_generation l) false
                    | OpaqueContent _ => m
                    end) m (segments l).

Definition refresh_rejected_layout (fh : bytes) (rejected : Layout) : PM () :=
  let! _ := wait in
  let! now := asks (fun w => active_generation (mgr w)) in
  if negb (lo_generation rejected =? now) then fail (Rpc "pNFS layout refresh crossed a session generation")
  else
    let! current := asks (fun w => get_layout (mgr w) fh) in
    match current with
    | Some l =>
        if bool_decide (lo_stateid l = lo_stateid rejected) then
          let! _ := flush_layoutcommit fh in
          mgr_do (fun m => invalidate_devices rejected (invalidate_layout_segments m fh))
        else ret ()
    | None => ret ()
    end.

Fixpoint return_layouts (l : list bytes) (failure : option NfsError) : PM () :=
  match l with
  | [] => match failure with Some e => fail e | None => ret () end
  | fh :: l =>
      let! _ := wait in
      let! r := caught (layoutreturn_file fh) in
      return_layouts l (match failure, r with
                        | Some e, _ => Some e
                        | None, Err e => Some e
                        | None, _ => None
                        end)
  end.
Definition layoutreturn_all : PM () :=
  let! fhs := asks (fun w => map fst (map_to_list (layouts (mgr w)))) in
  return_layouts fhs None.

(** ** The entry points *)

Fixpoint read_attempts (more : nat) (fh : bytes) (offset count : Z) : PM (option (result bytes)) :=
  let! _ := wait in
  let! fetched := caught (get_or_fetch_layout fh IoRead offset) in
  match fetched with
  | Err e => ret (Some (Err e))
  | Panic => raise Panic
  | Ok None => ret None
  | Ok (Some layout) =>
      let! result := pnfs_read_layout fh offset count layout in
      match result with
      | Some (Err e) =>
          if stop_pnfs_fallback e then ret result
          else
            let! now := asks (fun w => active_generation (mgr w)) in
            if negb (lo_generation layout =? now) then ret result
            else
              let! refreshed := caught (refresh_rejected_layout fh layout) in
              match refreshed with
              | Err e => ret (Some (Err e))
              | Panic => raise Panic
              | Ok _ => match more with O => ret None | S more => read_attempts more fh offset count end
              end
      | _ => ret result
      end
  end.
Definition pnfs_read : bytes -> Z -> Z -> PM (option (result bytes)) := read_attempts 1.

Definition poisoned (fh : bytes) (w : W) : bool :=
  existsb (fun i => has_failed w i && negb (is_done w i)) (get_pending_writes (mgr w) fh).
Definition poisoned_error : NfsError :=
  uncertain_pnfs_write {| operation := "pnfs_write"; protocol := protocol_version; request_id := None |}
    (Rpc "previous pNFS write failed; close and recover before writing again").

Fixpoint write_attempts (more : nat) (fh : bytes) (offset : Z) (data : bytes) : PM (option (result WriteOutcome)) :=
  let! _ := wait in
  let! bad := asks (poisoned fh) in
  if bad : bool then ret (Some (Err poisoned_error))
  else
    let! outcome := pnfs_write fh offset data in
    match outcome with
    | NotAttempted => ret None
    | Attempted r => ret (Some r)
    | RefreshRequired layout =>
        let! refreshed := caught (refresh_rejected_layout fh layout) in
        match refreshed with
        | Err e => ret (Some (Err e))
        | Panic => raise Panic
        | Ok _ => match more with O => ret None | S more => write_attempts more fh offset data end
        end
    end.
Definition write_pnfs : bytes -> Z -> bytes -> PM (option (result WriteOutcome)) := write_attempts 1.

(** ** The loops end *)

Lemma read_loop_total (request : Z -> Z -> PM CompoundResponse) len pos fuel : forall acc w,
  len - ra_len acc <= Z.of_nat fuel -> ds_read_loop request fuel len pos acc w <> None.
Proof using.
  induction fuel as [|fuel IH]; intros acc w Hf; cbn [ds_read_loop]; destruct (Z.ltb_spec (ra_len acc) len); try done; [lia|].
  destruct (request _ _ w) as [r w1]. destruct (obind _ _) as [[piece eof]|e|]; [|done..]. destruct eof; [done|].
  destruct piece as [|x piece]; [done|]. apply IH. rewrite ra_len_freeze, ra_freeze_push, remaining_app, <- ra_len_freeze.
  unfold remaining. cbn [length]. lia.
Qed.

(** The fuel of [read_stripe] and [write_stripe] is enough: no stripe ends because
    of it. *)
Lemma read_stripe_ends (request : Z -> Z -> PM CompoundResponse) len pos w : ds_read_complete request (Z.to_nat len) len pos w <> None.
Proof using.
  unfold ds_read_complete. pose proof (read_loop_total request len pos (Z.to_nat len) (ra_new len) w) as H.
  destruct (ds_read_loop _ _ _ _ _ w) as [[[] ?]|]; try done. intros _. apply H; [|done].
  change (len - remaining [] <= Z.of_nat (Z.to_nat len)). rewrite remaining_nil. lia.
Qed.
Lemma write_stripe_ends (request : Z -> bytes -> PM CompoundResponse) p plan w : remaining (pw_data plan) < 2 ^ 32 ->
  write_ds_complete request p (length (pw_data plan)) plan w <> None.
Proof using.
  intros Hb. unfold write_ds_complete. generalize false. revert w. generalize 2%nat as more.
  induction more as [|more IH]; intros w again; cbn [write_ds_attempts];
    destruct (write_ds_attempt_total request p plan (length (pw_data plan)) w) as (r & w1 & -> & _); try done; destruct r; try done.
  destruct (verifier_changed _); [apply IH|done].
Qed.

(** ** What every operation preserves *)

Section Rely.
(** What the server's replies are trusted for: devices under their identifier and
    layouts of a file. *)
Context (device_true : bytes -> DeviceInfo -> Prop) (layout_true : bytes -> Layout -> Prop).

(** An invariant that the calls to the servers, the other tasks and the updates of
    the layout manager while layouts are fetched keep. *)
Class Rely (I : W -> Prop) : Prop := {
  rl_waits : forall w, I w -> I (waits ds w);
  rl_connect : forall a, keeps I (connect_ds ds a);
  rl_compound : forall t b, keeps I (engine_compound eng None None t b);
  rl_compound_ds : forall c t b, keeps I (compound_ds ds c None t b);
  rl_device_reply : forall d g w resp w' info rest, I w ->
    compound eng "getdeviceinfo"
      (fun b => Compound41.getdeviceinfo d 1 (1024 * 1024) (Compound41.putrootfh (Compound41.require_generation b g))) w = (Ok resp, w') ->
    obind (op_ok resp 2) (fun op => decode_getdeviceinfo_response (op_data op)) = Ok (info, rest) ->
    device_true d (sort_multipath_by_affinity info server_addr);
  rl_layout_reply : forall fh g m o sid w resp w' l rest, I w ->
    compound eng "layoutget"
      (fun b => Compound41.layoutget false LAYOUT4_NFSV4_1_FILES (iomode_u32 m) o (u64_max - o) 0 sid (1024 * 1024)
                  (Compound41.putfh fh (Compound41.require_generation b g))) w = (Ok resp, w') ->
    obind (op_ok resp 2) (fun op => decode_layoutget_response (op_data op)) = Ok (l, rest) ->
    layout_true fh (with_lo_generation l (session_generation resp));
  rl_store_device : forall w d g rev info, I w -> device_true d info ->
    I (set_mgr w (snd (store_device_if_current (mgr w) d g rev info)));
  rl_store_layout : forall w fh g l, I w -> layout_true fh l -> I (set_mgr w (snd (store_layout_at (mgr w) fh g l)));
  rl_merge_layout : forall w fh l, I w -> layout_true fh l -> I (set_mgr w (merge_layout (mgr w) fh l));
  rl_publish : forall a g o w w', connect_ds ds a w = (Ok o, w') -> I w ->
    I (set_mgr w' (snd (ds_publish show_addr (mgr w') a g o)));
  rl_remove_ds : forall w a, I w -> I (set_mgr w (snd (remove_data_server (mgr w) a)));
  rl_logged : forall w, I w -> I (set_mgr w (snd (should_log_degenerate (mgr w))));
}.

Context (I : W -> Prop) `{HI : !Rely I}.

Lemma keeps_wait : keeps I wait.
Proof using HI. intros w. apply rl_waits. Qed.
Lemma keeps_compound t b : keeps I (compound eng t b).
Proof using HI. apply rl_compound. Qed.
Lemma keeps_compound_ds c t b : keeps I (compound_ds ds c None t b).
Proof using HI. apply rl_compound_ds. Qed.
Lemma keeps_logged : keeps I (mgr_call should_log_degenerate).
Proof using HI. intros w. apply rl_logged. Qed.
Lemma keeps_remove_ds a : keeps I (mgr_call (fun m => remove_data_server m a)).
Proof using HI. intros w. apply rl_remove_ds. Qed.
Hint Resolve keeps_wait keeps_compound keeps_compound_ds keeps_logged keeps_remove_ds : keeps.

Lemma keeps_publish a g : keeps I (let! outcome := connect_ds ds a in
  fun w => let '(r, _, m) := ds_publish show_addr (mgr w) a g outcome in (r, set_mgr w m)).
Proof using HI.
  intros w Hw. unfold andthen. pose proof (rl_connect a w Hw) as H. pose proof (rl_publish a g) as Hp.
  destruct (connect_ds ds a w) as [[o|e|] w1] eqn:E; [|done..].
  specialize (Hp o w w1 E Hw). by destruct (ds_publish _ _ _ _ _) as [[r ?] m].
Qed.
Hint Resolve keeps_publish : keeps.
Lemma keeps_data_server a g : keeps I (get_data_server a g).
Proof using HI. unfold get_data_server. repeat keeps_step; by intros w. Qed.
Hint Resolve keeps_data_server : keeps.

Lemma keeps_connect_all l g : keeps I (connect_all l g).
Proof using HI. induction l; cbn; repeat keeps_step. Qed.
Lemma keeps_preflight writes g : keeps I (preflight_write_data_servers writes g).
Proof using HI. apply keeps_connect_all. Qed.

Lemma keeps_fetch_device d g : keeps I (fetch_device d g).
Proof using HI.
  intros w Hw. unfold fetch_device, andthen, asks, caught.
  destruct (compound eng _ _ w) as [[resp|e|] w1] eqn:E; cbn.
  all: assert (H1 : I w1) by (eapply keeps_run; [apply keeps_compound|exact E|done]).
  - destruct (obind _ _) as [[info rest]|e|] eqn:Ed; [|done..].
    unfold mgr_call. pose proof (rl_store_device w1 d g (device_revision (mgr w)) _ H1 (rl_device_reply d g w resp w1 info rest Hw E Ed)) as Hs.
    by destruct (store_device_if_current _ _ _ _ _) as [[] m].
  - by destruct (stop_pnfs_fallback e).
  - done.
Qed.
Hint Resolve keeps_fetch_device keeps_preflight : keeps.

Lemma keeps_device d g : keeps I (get_or_fetch_device d g).
Proof using HI.
  assert (H : forall n, keeps I (fetch_device_loop n d g)) by (induction n; cbn; repeat keeps_step).
  unfold get_or_fetch_device. repeat keeps_step.
Qed.
Hint Resolve keeps_device : keeps.
Lemma keeps_devices l g : keeps I (fetch_devices l g).
Proof using HI. induction l; cbn; repeat keeps_step. Qed.
Hint Resolve keeps_devices : keeps.

Lemma keeps_accept fh cached resp :
  (forall l rest, obind (op_ok resp 2) (fun op => decode_layoutget_response (op_data op)) = Ok (l, rest) ->
     layout_true fh (with_lo_generation l (session_generation resp))) ->
  keeps I (accept_layout fh cached resp).
Proof using HI.
  intros Ht. unfold accept_layout, fetch_devices_for_layout. destruct (obind _ _) as [[l rest]|e|] eqn:Ed; [|repeat keeps_step..].
  specialize (Ht l rest eq_refl). repeat keeps_step.
  - intros w Hw. by apply rl_merge_layout.
  - intros w Hw. pose proof (rl_store_layout w fh (session_generation resp) _ Hw Ht) as H.
    unfold mgr_call. by destruct (store_layout_at _ _ _ _).
Qed.

Lemma keeps_layoutget fh g m o sid cached : keeps I (
  let! result := caught (compound eng "layoutget"
    (fun b => Compound41.layoutget false LAYOUT4_NFSV4_1_FILES (iomode_u32 m) o (u64_max - o) 0
                sid (1024 * 1024) (Compound41.putfh fh (Compound41.require_generation b g)))) in
  match result with
  | Ok resp => accept_layout fh cached resp
  | Err e => if stop_pnfs_fallback e then fail e else ret None
  | Panic => raise Panic
  end).
Proof using HI.
  intros w Hw. unfold andthen, caught. destruct (compound eng _ _ w) as [[resp|e|] w1] eqn:E; cbn.
  all: assert (H1 : I w1) by (eapply keeps_run; [apply keeps_compound|exact E|done]).
  - apply keeps_accept; [|done]. intros l rest El. by eapply (rl_layout_reply fh g m o sid w resp w1 l rest Hw E).
  - by destruct (stop_pnfs_fallback e).
  - done.
Qed.
Hint Resolve keeps_layoutget : keeps.
Lemma keeps_layout fh m o : keeps I (get_or_fetch_layout fh m o).
Proof using HI. unfold get_or_fetch_layout. repeat keeps_step. Qed.
Lemma keeps_usable l o : keeps I (usable_layout l o).
Proof using HI. unfold usable_layout, device_degenerate. repeat keeps_step. Qed.
Lemma keeps_read_chunk a fh sid g o n : keeps I (ds_read_chunk a fh sid g o n).
Proof using HI. unfold ds_read_chunk, ds_read_on. repeat keeps_step. Qed.
End Rely.

#[local] Hint Resolve keeps_wait keeps_compound keeps_compound_ds keeps_logged keeps_remove_ds keeps_data_server keeps_preflight
  keeps_device keeps_layout keeps_usable keeps_read_chunk : keeps.

(** ** Falling back is safe *)

(** A WRITE request that certainly changed nothing: the server answered with an
    error for the filehandle or the WRITE, refused the session, or stayed busy. *)
Definition rejected_write (r : result CompoundResponse) : Prop :=
  match r with
  | Err (Nfs4 _) | Err (ServerBusy _) => True
  | Ok resp => (exists s, op_ok resp 1 = Err (Nfs4 s)) \/ (exists x s, op_ok resp 1 = Ok x /\ op_ok resp 2 = Err (Nfs4 s))
  | _ => False
  end.

(** [stored] is what this task has stored on the servers: only a WRITE that is not
    rejected changes it. *)
Class WritesOnly {V : Type} (stored : W -> V) : Prop := {
  wo_local : forall w x, pn_ext x = pn_ext (m_ext w) -> stored (set_ext w x) = stored w;
  wo_waits : forall w, stored (waits ds w) = stored w;
  wo_connect : forall a w, stored (snd (connect_ds ds a w)) = stored w;
  wo_compound : forall t b w, stored (snd (engine_compound eng None None t b w)) = stored w;
  wo_compound_ds : forall c t b w, stored (snd (compound_ds ds c None t b w)) = stored w;
  wo_write : forall d t b w, rejected_write (fst (engine_compound eng (Some d) None t b w)) ->
    stored (snd (engine_compound eng (Some d) None t b w)) = stored w;
  wo_write_ds : forall c d t b w, rejected_write (fst (compound_ds ds c (Some d) t b w)) ->
    stored (snd (compound_ds ds c (Some d) t b w)) = stored w;
}.

Section Fallback.
Context {V : Type} (stored : W -> V) `{HW : !WritesOnly stored}.
#[local] Notation same v := (fun w : W => stored w = v).

#[local] Instance same_rely v : Rely (fun _ _ => True) (fun _ _ => True) (same v).
Proof using HW.
  split; try done; intros; try (intros w' <-).
  - subst. apply wo_waits.
  - apply wo_connect.
  - apply wo_compound.
  - apply wo_compound_ds.
  - subst. by apply wo_local.
  - subst. by apply wo_local.
  - subst. by apply wo_local.
  - subst. transitivity (stored w'); [by apply wo_local|]. pose proof (wo_connect a w) as H1. by rewrite H in H1.
  - subst. by apply wo_local.
  - subst. by apply wo_local.
Qed.

Lemma same_run {A} (c : PM A) w r w' : (forall v, keeps (same v) c) -> c w = (r, w') -> stored w' = stored w.
Proof using. intros Hc E. by eapply (keeps_run _ c w r w' (Hc (stored w)) E). Qed.

(** [c] stores nothing when its result is a rejection. *)
Definition quiet (c : PM CompoundResponse) : Prop :=
  forall w r w', c w = (r, w') -> rejected_write r -> stored w' = stored w.

Lemma quiet_andthen {A} (c : PM A) (k : A -> PM CompoundResponse) :
  (forall v, keeps (same v) c) -> (forall a, quiet (k a)) -> quiet (andthen c k).
Proof using.
  intros Hc Hk w r w'. unfold andthen. destruct (c w) as [[a|e|] w1] eqn:E.
  all: pose proof (same_run c w _ w1 Hc E) as H1.
  - intros E2 Hr. rewrite <- H1. by apply (Hk a w1 r w').
  - by intros [= <- <-].
  - by intros [= <- <-].
Qed.
Lemma quiet_write_ds c d t b : quiet (compound_ds ds c (Some d) t b).
Proof using HW. intros w r w' E. pose proof (wo_write_ds c d t b w) as H. by rewrite E in H. Qed.
(** A second request after the session was refused. *)
Lemma quiet_retry (c again : PM CompoundResponse) : quiet c -> quiet again ->
  quiet (let! result := caught c in if session_gone result then again else raise result).
Proof using.
  intros Hc Ha w r w'. unfold andthen, caught. destruct (c w) as [r1 w1] eqn:E.
  destruct (session_gone r1) eqn:Eg.
  - assert (H1 : stored w1 = stored w) by (apply (Hc w r1 w1 E); by destruct r1 as [|[]|]).
    destruct r1 as [|e|]; [done| |done]. rewrite Eg, <- H1. apply Ha.
  - destruct r1 as [resp|e|]; rewrite ?Eg; intros [= <- <-]; by apply (Hc w _ w1 E).
Qed.

Lemma quiet_write_chunk a fh sid g o data : quiet (ds_write_chunk a fh sid g o data).
Proof using HW.
  unfold ds_write_chunk, ds_write_on. destruct (bool_decide _).
  - intros w r w' E. unfold compound_write in E.
    match type of E with engine_compound _ _ _ ?t ?b _ = _ => pose proof (wo_write data t b w) as H end. by rewrite E in H.
  - repeat (apply quiet_andthen; [intros v; by eauto using same_rely with keeps nocore|intros]).
    apply quiet_retry; [apply quiet_write_ds|].
    repeat (apply quiet_andthen; [intros v; by eauto using same_rely with keeps nocore|intros]). apply quiet_write_ds.
Qed.

Lemma after_progress_not_rejection e done p :
  is_rejection (ds_error_after_progress e done p) = true -> done <= 0 /\ is_rejection e = true.
Proof using.
  unfold ds_error_after_progress. destruct (Z.ltb_spec 0 done); [|by intros; split]. rewrite andb_true_l.
  destruct (is_rejection e) eqn:E; [done|congruence].
Qed.

Lemma op_ok_rejection resp i e done p : op_ok resp i = Err e ->
  is_rejection (ds_error_after_progress e done p) = true -> done <= 0 /\ exists s, e = Nfs4 s.
Proof using.
  intros E [Hd Hr]%after_progress_not_rejection. split; [done|]. unfold op_ok in E.
  repeat case_match; simplify_eq; by eexists.
Qed.

Lemma decode_write_rejection p resp done len e :
  decode_ds_write p resp done len = Err e -> is_rejection e = true -> done <= 0 /\ rejected_write (Ok resp).
Proof using.
  unfold decode_ds_write. intros E Hr.
  destruct (op_ok resp 1) as [x|e1|] eqn:E1; cbn in E; [|injection E as <-|done].
  2:{ destruct (op_ok_rejection _ _ _ _ _ E1 Hr) as (Hd & s & ->). split; [done|]. left. by exists s. }
  destruct (op_ok resp 2) as [y|e2|] eqn:E2; cbn in E; [|injection E as <-|done].
  2:{ destruct (op_ok_rejection _ _ _ _ _ E2 Hr) as (Hd & s & ->). split; [done|]. right. by exists x, s. }
  exfalso. unfold require, get_u32, get_uint, split_to in E. repeat (case_match; cbn in E; simplify_eq).
Qed.

Lemma bad_level_not_rejection l e : WriteCommitted_try_from l = Err e -> is_rejection e = false.
Proof using. unfold WriteCommitted_try_from. destruct l as [|[[]|[]|]|]; by intros [= <-]. Qed.

Section Stripe.
Context (a : SocketAddr) (fh sid : bytes) (g : Z).
#[local] Notation request := (ds_write_chunk a fh sid g).
#[local] Notation p := protocol_version.

(** One piece of the loop. *)
Lemma write_piece_rejection o data done len w r w1 e : request o data w = (r, w1) ->
  obind (map_err (fun e => ds_error_after_progress e done p) r) (fun resp => decode_ds_write p resp done len) = Err e ->
  is_rejection e = true -> done <= 0 /\ stored w1 = stored w.
Proof using HW.
  intros E Ed Hr. assert (H : done <= 0 /\ rejected_write r).
  { destruct r as [resp|e0|]; cbn in Ed; [by eapply decode_write_rejection| |done].
    injection Ed as <-. apply after_progress_not_rejection in Hr as [? Hr]. split; [done|]. by destruct e0 as []. }
  destruct H as [? H]. split; [done|]. by apply (quiet_write_chunk a fh sid g o data w r w1 E).
Qed.

Lemma write_loop_rejection plan fuel : forall done level v w e w', 0 <= done ->
  ds_write_loop request p fuel plan done level v w = Some (Err e, w') -> is_rejection e = true ->
  done = 0 /\ stored w' = stored w.
Proof using HW.
  induction fuel as [|fuel IH]; intros done level v w e w' Hd; cbn [ds_write_loop]; destruct (_ <? _); try (intros; discriminate).
  destruct (request _ _ w) as [r w1] eqn:E. destruct (obind _ _) as [[[n c] cur]|e0|] eqn:Ed; [| |discriminate].
  - apply obind_ok_inv in Ed as (resp & _ & Ed). apply decode_ds_write_bounds in Ed as (Hn & _).
    destruct (match v with Some _ => _ | None => _ end); [by intros [= <- <-]|].
    intros E2 Hr. assert (H0 : 0 <= done + n) by lia. destruct (IH _ _ _ _ _ _ H0 E2 Hr). lia.
  - intros [= <- <-] Hr. destruct (write_piece_rejection _ _ _ _ _ _ _ _ E Ed Hr). split; [lia|done].
Qed.

Lemma write_attempts_rejection plan fuel more : forall again w e w',
  write_ds_attempts request p more again fuel plan w = Some (Err e, w') -> is_rejection e = true ->
  again = false /\ stored w' = stored w.
Proof using HW.
  assert (H1 : forall w e w', write_ds_attempt request p fuel plan w = Some (Err e, w') -> is_rejection e = true -> stored w' = stored w).
  { intros w e w'. unfold write_ds_attempt. destruct (ds_write_loop _ _ _ _ _ _ _ _) as [[[[[d l] v]|e0|] w1]|] eqn:E; try done.
    - destruct (WriteCommitted_try_from l) as [c|e0|] eqn:Ec; cbn; intros [= <- <-] Hr.
      by rewrite (bad_level_not_rejection _ _ Ec) in Hr.
    - intros [= <- <-] Hr. by eapply (write_loop_rejection plan fuel 0). }
  assert (H2 : forall again w e w', write_ds_attempt request p fuel plan w = Some (Err e, w') ->
    is_rejection (ds_error_after_progress e (b2z again) p) = true -> again = false /\ stored w' = stored w).
  { intros again w e w' E [Hd Hr]%after_progress_not_rejection. split; [by destruct again|by eapply H1]. }
  induction more as [|more IH]; intros again w e w'; cbn [write_ds_attempts];
    destruct (write_ds_attempt _ _ _ _ w) as [[[x|e0|] w1]|] eqn:E; try done.
  - intros [= <- <-]. by apply H2.
  - destruct (verifier_changed e0).
    + intros E2 Hr. by destruct (IH _ _ _ _ E2 Hr).
    + intros [= <- <-]. by apply H2.
Qed.
End Stripe.

Lemma settle_rejection sid g l : forall w cs w',
  settle_ds_batch sid g l w = (Ok cs, w') ->
  Forall (fun c => exists e, dc_result c = Err e /\ is_rejection e = true) cs -> stored w' = stored w.
Proof using HW.
  induction l as [|pl l IH]; intros w cs w'; cbn [settle_ds_batch]; [by intros [= <- <-]|].
  unfold andthen, caught. destruct (write_stripe sid g pl w) as [r w1] eqn:E1.
  assert (H : (exists e, r = Err e /\ is_rejection e = true) -> stored w1 = stored w).
  { intros (e & -> & Hr). unfold write_stripe, loop_result in E1.
    destruct (write_ds_complete _ _ _ _ w) as [x|] eqn:E; [|done]. subst x.
    by apply (write_attempts_rejection _ _ _ _ _ _ _ _ _ _ _ E). }
  assert (Hnp : r = Panic \/ exists r', caught (fun _ => (r, w1)) w = (Ok r', w1) /\ r' = r) by (destruct r; eauto).
  destruct Hnp as [->|(r' & Ec & ->)]; [done|]. unfold caught in Ec. rewrite Ec. clear Ec.
  destruct (settle_ds_batch sid g l w1) as [[rs|e|] w2] eqn:E2; [|done..]. intros Ecs Hall.
  injection Ecs as <- <-. apply Forall_cons_1 in Hall as [Hx Hall]. rewrite (IH _ _ _ E2 Hall). by apply H.
Qed.

(** Outcomes after which the write is made elsewhere, or again. *)
Definition retryable (o : PnfsWriteOutcome) : Prop :=
  match o with NotAttempted | RefreshRequired _ | Attempted (Err (ServerBusy _)) => True | _ => False end.

Lemma settled_retryable fh offset layout mds active session p cs :
  retryable (fst (settle_write_batch diagnostic fh offset layout mds active session p cs)) ->
  Forall (fun c => exists e, dc_result c = Err e /\ is_rejection e = true) cs.
Proof using.
  assert (H : forall cs, forallb (fun c => match dc_result c with Err e => is_rejection e | _ => false end) cs = true ->
    Forall (fun c => exists e, dc_result c = Err e /\ is_rejection e = true) cs).
  { intros l Hl. apply Forall_forall. intros c Hc. rewrite forallb_forall in Hl. specialize (Hl c (proj1 (list_elem_of_In _ _) Hc)).
    destruct (dc_result c); [done|by eexists|done]. }
  unfold settle_write_batch. destruct (forallb (fun c => is_ok _) cs); [by destruct (negb _)|].
  destruct (ds_batch_rejected_without_write cs) eqn:E.
  - intros _. unfold ds_batch_rejected_without_write in E. apply andb_true_iff in E as [_ E]. apply H. revert E.
    rewrite !forallb_forall. intros E c Hc. specialize (E c Hc). by repeat case_match.
  - destruct (forallb _ cs) eqn:E2; [intros _; by apply H|done].
Qed.

Lemma finish_batch_stored fh offset layout f cs w r w' :
  finish_batch fh offset layout f cs w = (r, w') ->
  stored w' = stored w /\ (forall o, r = Ok o -> retryable o ->
    Forall (fun c => exists e, dc_result c = Err e /\ is_rejection e = true) cs).
Proof using HW.
  unfold finish_batch, andthen, asks, retain. pose proof (settled_retryable fh offset layout (commit_thru_mds f)
    (active_generation (mgr w)) (session_id_of ds w) protocol_version cs) as H.
  destruct (settle_write_batch _ _ _ _ _ _ _ _ _) as [o [p|]]; intros [= <- <-]; split; try done.
  - by apply wo_local.
  - by intros o' [= <-].
  - by intros o' [= <-].
Qed.

Lemma same_caught {A B} (c : PM A) (k : result A -> PM B) w r w' : (forall v, keeps (same v) c) ->
  (let! x := caught c in k x) w = (r, w') -> exists x w1, stored w1 = stored w /\
    ((x = Panic /\ r = Panic /\ w' = w1) \/ k x w1 = (r, w')).
Proof using.
  intros Hc. unfold andthen, caught. destruct (c w) as [x w1] eqn:E. pose proof (same_run c w x w1 Hc E).
  exists x, w1. split; [done|]. destruct x; [by right|by right|left]. by simplify_eq.
Qed.

(** C9: A pNFS write that the caller may make again, through the metadata server
    or with a new layout, has stored nothing on any server: [NotAttempted] and
    [RefreshRequired] are only returned when no WRITE was sent, or when every
    data server rejected every piece before writing, and a busy error means the
    same. Fetching the layout and the device, connecting, refused sessions and
    short writes are all covered; a piece acknowledged before a later rejection
    makes the outcome uncertain instead. *)
Theorem fallback_stored_nothing fh offset data w o w' :
  pnfs_write fh offset data w = (Ok o, w') -> retryable o -> stored w' = stored w.
Proof using HW.
  unfold pnfs_write. intros E Ho.
  apply same_caught in E as (fetched & w1 & H1 & [(-> & ? & ->)|E]); [done| |intros v; by eauto using same_rely with keeps nocore].
  rewrite <- H1. destruct fetched as [[layout|]|e|]; [|by injection E as <- <-..|done].
  apply same_caught in E as (usable & w2 & H2 & [(-> & ? & ->)|E]); [done| |intros v; by eauto using same_rely with keeps nocore].
  rewrite <- H2. destruct usable as [[[[[seg f] d] n]|]|e|]; [|by injection E as <- <-..|done].
  cbn in E. destruct (plan_write d seg f fh data offset n) as [[writes|e|]|]; [|by injection E as <- <-|done|done].
  apply same_caught in E as (ready & w3 & H3 & [(-> & ? & ->)|E]); [done| |intros v; by eauto using same_rely with keeps nocore].
  rewrite <- H3. destruct ready as [[]|e|]; [|by injection E as <- <-|done].
  unfold andthen at 1 in E. destruct (settle_ds_batch _ _ writes w3) as [[cs|e|] w4] eqn:E4; [|done..].
  apply finish_batch_stored in E as [H5 H6]. rewrite H5. by apply (settle_rejection _ _ _ _ _ _ E4), (H6 o).
Qed.
End Fallback.

(** ** Retained writes are settled or fenced *)

Lemma heap_set_mgr w m : heap (set_mgr w m) = heap w.
Proof using. done. Qed.
Lemma heap_set_heap w h : heap (set_heap w h) = h.
Proof using. done. Qed.
Lemma mgr_set_heap w h : mgr (set_heap w h) = mgr w.
Proof using. done. Qed.

Lemma done_after_mark ids w i : i ∈ ids -> is_done (mark_done ids w) i = true.
Proof using.
  intros Hi. unfold is_done, mark_done. rewrite heap_set_heap, lookup_marks, bool_decide_eq_true_2 by done.
  by destruct (heap w !! i).
Qed.

Lemma done_mark_failed ids w i : is_done (mark_failed ids w) i = is_done w i.
Proof using.
  unfold is_done, mark_failed. rewrite heap_set_heap, lookup_marks; [|intros p; by destruct (pd_done p) eqn:E; cbn; rewrite ?E].
  case_bool_decide; [|done]. destruct (heap w !! i) as [p|]; [|done]. cbn. by destruct (pd_done p) eqn:E; cbn; rewrite ?E.
Qed.
Lemma failed_after_mark ids w i : i ∈ ids -> is_done w i = false -> has_failed (mark_failed ids w) i = true.
Proof using.
  intros Hi. unfold is_done, has_failed, mark_failed. rewrite heap_set_heap, lookup_marks, bool_decide_eq_true_2 by
    (try done; intros p; by destruct (pd_done p) eqn:E; cbn; rewrite ?E).
  destruct (heap w !! i) as [p|]; [|done]. cbn. by intros ->.
Qed.

(** The receipts of a retained write, possibly written again: same servers, same
    ranges, same data. *)
Definition same_target (r r' : DsWriteReply) : Prop :=
  wr_ds_addr r' = wr_ds_addr r /\ wr_ds_fh r' = wr_ds_fh r /\ wr_ds_offset r' = wr_ds_offset r /\
  wr_data r' = wr_data r /\ wr_file_offset r' = wr_file_offset r.
Definition same_receipts : list (list DsWriteReply) -> list (list DsWriteReply) -> Prop := Forall2 (Forall2 same_target).

#[local] Instance same_target_refl : Reflexive same_target.
Proof using. by intros r. Qed.
#[local] Instance same_target_trans : Transitive same_target.
Proof using. intros a b c (?&?&?&?&?) (?&?&?&?&?). repeat split; congruence. Qed.

Lemma write_attempt_target request p fuel plan (w : W) x w' :
  write_ds_attempt request p fuel plan w = Some (Ok x, w') ->
  wr_ds_addr x = pw_ds_addr plan /\ wr_ds_fh x = pw_ds_fh plan /\ wr_ds_offset x = pw_ds_offset plan /\
  wr_data x = pw_data plan /\ wr_file_offset x = pw_file_offset plan.
Proof using.
  unfold write_ds_attempt. destruct (ds_write_loop _ _ _ _ _ _ _ _) as [[[[[d l] v]|e|] w1]|]; try done.
  destruct (WriteCommitted_try_from l); cbn; [|done..]. by intros [= <- <-].
Qed.
Lemma write_stripe_target sid g plan w x w' : write_stripe sid g plan w = (Ok x, w') ->
  wr_ds_addr x = pw_ds_addr plan /\ wr_ds_fh x = pw_ds_fh plan /\ wr_ds_offset x = pw_ds_offset plan /\
  wr_data x = pw_data plan /\ wr_file_offset x = pw_file_offset plan.
Proof using.
  unfold write_stripe, loop_result, write_ds_complete. destruct (write_ds_attempts _ _ _ _ _ _ _) as [y|] eqn:E; [|done].
  intros ->. revert E. generalize false, w. generalize 2%nat as more. induction more as [|more IH]; intros again w0; cbn [write_ds_attempts].
  all: destruct (write_ds_attempt _ _ _ _ w0) as [[[y|e|] w1]|] eqn:E; try done.
  all: try (intros [= <- <-]; by eapply write_attempt_target).
  destruct (verifier_changed e); [apply IH|done].
Qed.

Lemma rewrite_batch_same sid g l : forall w l' w', rewrite_batch sid g l w = (Ok l', w') -> Forall2 same_target l l'.
Proof using.
  induction l as [|r l IH]; intros w l' w'; cbn; [by intros [= <- <-]|].
  intros (x & w1 & E1 & (xs & w2 & E2 & [= <- <-])%andthen_ok)%andthen_ok. constructor; [|by eapply IH].
  unfold with_error in E1. destruct (write_stripe _ _ _ w) as [[y|e|] w3] eqn:E; try done. injection E1 as <- <-.
  by apply write_stripe_target in E.
Qed.
Lemma rewrite_batches_same sid g l : forall w l' w', rewrite_batches sid g l w = (Ok l', w') -> same_receipts l l'.
Proof using.
  induction l as [|b l IH]; intros w l' w'; cbn; [by intros [= <- <-]; constructor|].
  intros (x & w1 & E1%rewrite_batch_same & (xs & w2 & E2%IH & [= <- <-])%andthen_ok)%andthen_ok. by constructor.
Qed.

(** The commit that made the writes durable. *)
Definition committed_by (fh : bytes) (g : Z) (pending : list PendingWrite) (w2 : W) : Prop :=
  exists replies w1 tr, same_receipts (map pd_replies pending) replies /\
    commit_ds_batch mount_commit_io fh g pending replies w1 = (Ok (), (w2, tr)) /\ active_generation (mgr w2) = g.

Lemma commit_attempts_ok more fh g ids pending : forall replies w w',
  same_receipts (map pd_replies pending) replies ->
  commit_attempts more fh g ids pending replies w = (Ok (), w') ->
  exists w2, committed_by fh g pending w2 /\
    w' = set_mgr (mark_done ids w2) (prune_completed_writes (is_done (mark_done ids w2)) (mgr w2) fh).
Proof using.
  induction more as [|more IH]; intros replies w w' Hs; cbn [commit_attempts];
    intros (r & w1 & E1 & E2)%andthen_ok; unfold caught, commit_ds_batch_of in E1;
    destruct (commit_ds_batch _ _ _ _ _ w) as [[[]|e|] [w2 tr]] eqn:E; try done; injection E1 as <- <-.
  1,3: unfold andthen, asks in E2; destruct (negb (g =? active_generation (mgr w2))) eqn:Eg; [done|];
       injection E2 as <-; exists w2; split; [|done]; exists replies, w, tr; split_and!; try done;
       apply negb_false_iff, Z.eqb_eq in Eg; by symmetry.
  - done.
  - destruct (verifier_changed e); [|done].
    apply andthen_ok in E2 as (sid & w3 & [= <- <-] & (replies' & w4 & E4%rewrite_batches_same & E5)%andthen_ok).
    eapply (IH replies'); [|exact E5]. unfold same_receipts in *. by etrans.
Qed.

Lemma pruned_not_done isd m fh i : i ∈ get_pending_writes (prune_completed_writes isd m fh) fh -> isd i = false.
Proof using.
  unfold prune_completed_writes, get_pending_writes. destruct (pending_writes m !! fh) as [l|] eqn:E; [|rewrite E; by intros ?%not_elem_of_nil].
  destruct (filter _ l) as [|j kept] eqn:Ef; cbn; simplify_map_eq; [by intros ?%not_elem_of_nil|].
  rewrite <- Ef. by intros [? _]%list_elem_of_filter.
Qed.
Lemma prune_generation isd m fh : active_generation (prune_completed_writes isd m fh) = active_generation m.
Proof using. unfold prune_completed_writes. by repeat case_match. Qed.

(** The writes a commit has to settle. *)
Definition unsettled (w : W) (pending : list nat) : list nat := List.filter (fun i => negb (is_done w i)) pending.

Lemma unsettled_elem w pending i : i ∈ unsettled w pending -> is_done w i = false.
Proof using. intros [_ H]%list_elem_of_In%filter_In. by apply negb_true_iff. Qed.

Lemma unsettled_lookup w pending : unsettled w pending <> [] -> omap (fun i => heap w !! i) (unsettled w pending) <> [].
Proof using.
  destruct (unsettled w pending) as [|i ids] eqn:E; [done|]. intros _.
  assert (Hi : is_done w i = false) by (apply (unsettled_elem w pending); rewrite E; by left).
  unfold is_done in Hi. cbn. by destruct (heap w !! i).
Qed.

Lemma commit_body_ok fh ids w w' : commit_body fh ids w = (Ok (), w') ->
  omap (fun i => heap w !! i) ids <> [] ->
  exists g w2, committed_by fh g (omap (fun i => heap w !! i) ids) w2 /\
    w' = set_mgr (mark_done ids w2) (prune_completed_writes (is_done (mark_done ids w2)) (mgr w2) fh).
Proof using.
  unfold commit_body. destruct (omap _ ids) as [|first rest]; [done|]. destruct (forallb _ _); [|done].
  intros E _. apply commit_attempts_ok in E as (w2 & H1 & H2); [by eexists _, w2|].
  apply Forall_Forall2_diag, Forall_true. intros b. by apply Forall_Forall2_diag, Forall_true.
Qed.

(** C10: Committing retained pNFS writes either settles them or fences the file.
    On success every write that was not done is done, and one batch of COMMITs
    and a LAYOUTCOMMIT succeeded for their receipts, on the servers and ranges
    the data was written to (after writing it again when a verifier had
    changed), in the generation that is active at the end; the manager keeps none
    of them. On any failure each write that is still not done is marked failed,
    and while the manager keeps one such write the file counts as poisoned, so
    that no later write goes to the data servers. *)
Theorem retained_writes_settle fh pending w r w' :
  commit_pending_writes fh pending w = (r, w') ->
  let ids := unsettled (waits ds w) pending in
  (r = Ok () ->
     (forall i, i ∈ ids -> is_done w' i = true /\ i ∉ get_pending_writes (mgr w') fh) \/ ids = []) /\
  (r = Ok () -> ids <> [] ->
     exists w2, committed_by fh (active_generation (mgr w')) (omap (fun i => heap (waits ds w) !! i) ids) w2) /\
  (forall i, i ∈ ids -> is_done w' i = false ->
     has_failed w' i = true /\ (i ∈ get_pending_writes (mgr w') fh -> poisoned fh w' = true)).
Proof using.
  unfold commit_pending_writes. fold (unsettled (waits ds w) pending). set (ids := unsettled _ _).
  destruct (commit_body fh ids (waits ds w)) as [r1 w1] eqn:E. intros [= <- <-]. cbn.
  assert (Hok : r1 = Ok () -> ids <> [] -> exists g w2,
    committed_by fh g (omap (fun i => heap (waits ds w) !! i) ids) w2 /\
    w1 = set_mgr (mark_done ids w2) (prune_completed_writes (is_done (mark_done ids w2)) (mgr w2) fh)).
  { intros -> Hne. by apply commit_body_ok, unsettled_lookup. }
  split_and!.
  - intros Hr. destruct ids as [|j ids'] eqn:Ei; [by right|left]. intros i Hi.
    destruct (Hok Hr ltac:(done)) as (g & w2 & _ & ->). rewrite done_mark_failed. split.
    + change (is_done (mark_done (j :: ids') w2) i = true). by apply done_after_mark.
    + intros Hin%pruned_not_done. by rewrite done_after_mark in Hin.
  - intros Hr Hne. destruct (Hok Hr Hne) as (g & w2 & Hc & ->). exists w2.
    destruct Hc as (replies & w3 & tr & Hs & Hb & Hg). cbn. rewrite prune_generation, Hg. by exists replies, w3, tr.
  - intros i Hi Hd. rewrite done_mark_failed in Hd. pose proof (failed_after_mark ids w1 i Hi Hd) as Hf.
    split; [done|]. intros Hin. unfold poisoned. apply existsb_exists. exists i. split; [by apply list_elem_of_In|].
    by rewrite Hf, done_mark_failed, Hd.
Qed.

(** ** A layout is returned last *)

Lemma layoutcommit_clean fh w w' : layoutcommit_dirty fh w = (Ok true, w') -> snapshot_dirty (mgr w') fh = None.
Proof using.
  unfold layoutcommit_dirty, andthen, asks. destruct (snapshot_dirty (mgr w) fh) as [r|] eqn:E; [|by intros [= <-]].
  destruct (get_layout _ _); [|done]. destruct (compound _ _ _ w) as [[resp|e|] w1]; [|done..].
  destruct (op_ok resp 1); [|done..]. cbn. destruct (op_ok resp 2); [|done..]. cbn. unfold mgr_call, acknowledge_dirty.
  destruct (_ && _); [|done]. intros [= <-]. unfold snapshot_dirty. cbn. by rewrite lookup_delete_eq.
Qed.

Lemma flush_clean fh w w' : flush_layoutcommit fh w = (Ok (), w') ->
  snapshot_dirty (mgr w') fh = None /\
  exists w1, commit_pending_writes fh (get_pending_writes (mgr w) fh) w = (Ok (), w1) /\ layoutcommit_dirty fh w1 = (Ok true, w').
Proof using.
  intros (l & w0 & [= <- <-] & ([] & w1 & E1 & (b & w2 & E2 & E3)%andthen_ok)%andthen_ok)%andthen_ok.
  destruct b; [|done]. injection E3 as <-. split; [by eapply layoutcommit_clean|]. by exists w1.
Qed.

(** C11: A layout goes back to the server only when nothing depends on it. A
    successful return means that the retained writes of the file were committed
    first, that the dirty range was acknowledged or empty before LAYOUTRETURN was
    sent, and that the mount has no layout for the file afterwards; when that
    commit fails its error is the result and LAYOUTRETURN is not sent. *)
Theorem layout_returned_last fh w r w' :
  layoutreturn_file fh w = (r, w') ->
  (r = Ok () -> exists w0 w1,
     commit_pending_writes fh (get_pending_writes (mgr w) fh) w = (Ok (), w0) /\
     layoutcommit_dirty fh w0 = (Ok true, w1) /\ snapshot_dirty (mgr w1) fh = None /\
     (get_layout (mgr w1) fh = None /\ w' = w1 \/
      exists l resp w2, get_layout (mgr w1) fh = Some l /\ is_ok (op_ok resp 2) = true /\
        compound eng "layoutreturn" (fun b => Compound41.layoutreturn false LAYOUT4_NFSV4_1_FILES (return_iomode l) 1 0 u64_max
                                                (lo_stateid l) (Compound41.putfh fh b)) w1 = (Ok resp, w2) /\
        w' = set_mgr w2 (snd (remove_layout (mgr w2) fh))) /\
     get_layout (mgr w') fh = None) /\
  (forall e w1, flush_layoutcommit fh w = (Err e, w1) -> r = Err e /\ w' = w1).
Proof using.
  unfold layoutreturn_file. intros E. split.
  - intros ->. apply andthen_ok in E as ([] & w1 & Ef & E). apply flush_clean in Ef as (Hd & w0 & Hc & Hl).
    exists w0, w1. do 3 (split; [done|]). unfold andthen, asks in E. destruct (get_layout (mgr w1) fh) as [l|] eqn:El.
    + destruct (compound eng _ _ w1) as [[resp|e|] w2] eqn:Ec; [|done..].
      destruct (op_ok resp 1); [|done..]. cbn in E. destruct (op_ok resp 2) eqn:E2; [|done..]. cbn in E. injection E as <-.
      split; [right; exists l, resp, w2; by rewrite E2|]. unfold get_layout. cbn. by rewrite lookup_delete_eq.
    + injection E as <-. split; [by left|done].
  - intros e w1 Hf. unfold andthen at 1 in E. rewrite Hf in E. by injection E as <- <-.
Qed.

(** ** What committing and refreshing preserve *)

Section RelyCommit.
Context (device_true : bytes -> DeviceInfo -> Prop) (layout_true : bytes -> Layout -> Prop) (I : W -> Prop).

Class RelyCommit : Prop := {
  rc_rely :: Rely device_true layout_true I;
  rc_compound : forall d t b, keeps I (engine_compound eng (Some d) None t b);
  rc_compound_ds : forall c d t b, keeps I (compound_ds ds c (Some d) t b);
  rc_heap : forall w h, I w -> I (set_heap w h);
  rc_mark_dirty : forall w fh g a b, I w -> I (set_mgr w (snd (mark_dirty_at (mgr w) fh g a b)));
  rc_acknowledge : forall w fh r, I w -> I (set_mgr w (snd (acknowledge_dirty (mgr w) fh r)));
  rc_prune : forall w isd fh, I w -> I (set_mgr w (prune_completed_writes isd (mgr w) fh));
  rc_invalidate : forall w fh, I w -> I (set_mgr w (invalidate_layout_segments (mgr w) fh));
  rc_forget_device : forall w d g b, I w -> I (set_mgr w (invalidate_device (mgr w) d g b));
}.
Context `{HC : !RelyCommit}.

Lemma keeps_compound_write t d b : keeps I (compound_write eng t d b).
Proof using HC. apply rc_compound. Qed.
Lemma keeps_ds_data c d t b : keeps I (compound_ds ds c (Some d) t b).
Proof using HC. apply rc_compound_ds. Qed.
Hint Resolve rc_rely keeps_compound_write keeps_ds_data : keeps.
Lemma keeps_write_chunk a fh sid g o data : keeps I (ds_write_chunk a fh sid g o data).
Proof using HC. unfold ds_write_chunk, ds_write_on. repeat keeps_step. Qed.
Lemma keeps_commit_chunk a fh g o n : keeps I (ds_commit_chunk a fh g o n).
Proof using HC. unfold ds_commit_chunk. repeat keeps_step. Qed.

Lemma keeps_write_loop a fh sid g pl fuel : forall dn level v w r w', I w ->
  ds_write_loop (ds_write_chunk a fh sid g) protocol_version fuel pl dn level v w = Some (r, w') -> I w'.
Proof using HC.
  induction fuel as [|fuel IH]; intros dn level v w r w' Hw; cbn [ds_write_loop]; destruct (_ <? _); try (by intros [= <- <-]).
  destruct (ds_write_chunk _ _ _ _ _ _ w) as [r1 w1] eqn:E.
  assert (H1 : I w1) by (eapply keeps_run; [apply keeps_write_chunk|exact E|done]).
  destruct (obind _ _) as [[[n c] cur]|e|]; [|by intros [= <- <-]..].
  destruct (match v with Some _ => _ | None => _ end); [by intros [= <- <-]|by apply IH].
Qed.
Lemma keeps_write_stripe sid g pl : keeps I (write_stripe sid g pl).
Proof using HC.
  assert (H1 : forall w r w', I w -> write_ds_attempt (ds_write_chunk (pw_ds_addr pl) (pw_ds_fh pl) sid g) protocol_version (length (pw_data pl)) pl w = Some (r, w') -> I w').
  { intros w r w' Hw. unfold write_ds_attempt. destruct (ds_write_loop _ _ _ _ _ _ _ w) as [[[[[d l] v]|e|] w1]|] eqn:E; [| | |done].
    all: intros [= _ <-]; by eapply keeps_write_loop. }
  assert (H2 : forall more again w r w', I w -> write_ds_attempts (ds_write_chunk (pw_ds_addr pl) (pw_ds_fh pl) sid g) protocol_version more again (length (pw_data pl)) pl w = Some (r, w') -> I w').
  { induction more as [|more IH]; intros again w r w' Hw; cbn [write_ds_attempts];
      destruct (write_ds_attempt _ _ _ _ w) as [[r1 w1]|] eqn:E; try done; pose proof (H1 _ _ _ Hw E);
      destruct r1; try (by intros [= <- <-]). destruct (verifier_changed _); [by apply IH|by intros [= <- <-]]. }
  intros w Hw. unfold write_stripe, loop_result, write_ds_complete.
  destruct (write_ds_attempts _ _ _ _ _ _ w) as [[r w1]|] eqn:E; [by eapply H2|done].
Qed.
Hint Resolve keeps_write_stripe keeps_commit_chunk : keeps.

Lemma keeps_rewrite sid g l : keeps I (rewrite_batches sid g l).
Proof using HC.
  assert (H : forall l, keeps I (rewrite_batch sid g l)) by (induction l0; cbn; repeat keeps_step).
  induction l; cbn; repeat keeps_step.
Qed.

Lemma keeps_layoutcommit fh : keeps I (layoutcommit_dirty fh).
Proof using HC.
  unfold layoutcommit_dirty. repeat keeps_step. intros w Hw.
  match goal with |- context [acknowledge_dirty _ fh ?r] => pose proof (rc_acknowledge w fh r Hw) as H end.
  unfold mgr_call. by destruct (acknowledge_dirty _ _ _).
Qed.
Hint Resolve keeps_rewrite keeps_layoutcommit : keeps.
Lemma keeps_mark_dirty fh g a b : keeps I (mgr_call (fun m => mark_dirty_at m fh g a b)).
Proof using HC. intros w Hw. pose proof (rc_mark_dirty w fh g a b Hw). unfold mgr_call. by destruct (mark_dirty_at _ _ _ _ _). Qed.
Hint Resolve keeps_mark_dirty : keeps.
Lemma keeps_mds_commit fh o n : keeps I (mds_commit mount_commit_io fh o n).
Proof using HC.
  cbn. apply keeps_andthen; [|intros []; repeat keeps_step]. unfold commit_with_verifier.
  apply (keeps_andthen I (compound eng _ _)); [apply (keeps_compound _ _ I)|intros resp].
  apply (keeps_andthen I (raise (op_ok resp 1))); [apply keeps_raise|intros _].
  apply (keeps_andthen I (raise (op_ok resp 2))); [apply keeps_raise|intros op].
  apply (keeps_andthen I (raise (decode_commit (op_data op)))); [apply keeps_raise|intros v]. apply (keeps_ret I (Some v)).
Qed.
Lemma keeps_layout_commit fh g a b : keeps I (layout_commit mount_commit_io fh g a b).
Proof using HC. cbn. repeat keeps_step. Qed.

Lemma keeps_commit_batch fh g pending replies : keeps I (commit_ds_batch_of fh g pending replies).
Proof using HC.
  intros w Hw. unfold commit_ds_batch_of, commit_ds_batch, execute_commit_plan. set (plan := plan_commit_batch _ _).
  assert (H1 : I (fst (snd (commit_mds mount_commit_io fh (cp_mds plan) (w, []))))).
  { unfold commit_mds. destruct (cp_mds plan) as [t|]; [|done]. pose proof (keeps_mds_commit fh (ct_offset t) (ct_count t) w Hw) as H.
    change (fst (w, @nil commit_event)) with w. by destruct (mds_commit _ _ _ _ w) as [[] w1]. }
  assert (H2 : forall l ws, I (fst ws) -> I (fst (snd (commit_ds mount_commit_io g l ws)))).
  { induction l as [|[[a h] t] l IH]; intros ws Hws; cbn [commit_ds]; [done|].
    pose proof (keeps_commit_chunk a h g (ct_offset t) (ct_count t) (fst ws) Hws) as H. cbn [ds_commit mount_commit_io].
    destruct (ds_commit_chunk _ _ _ _ _ (fst ws)) as [[v|e|] w1]; [|done..]. destruct (check_commit_verifier _ _ _); [by apply IH|done..]. }
  assert (H3 : forall x ws, I (fst ws) -> I (fst (snd (commit_layout mount_commit_io fh g x ws)))).
  { intros [[a b]|] ws Hws; [|done]. unfold commit_layout. pose proof (keeps_layout_commit fh g a b (fst ws) Hws) as H.
    by destruct (layout_commit _ _ _ _ _ (fst ws)) as [[] w1]. }
  destruct (commit_mds _ _ _ _) as [[x|e|] ws]; [|by destruct ws..]. specialize (H2 (cp_ds plan) ws H1).
  destruct (commit_ds _ _ _ ws) as [[y|e|] ws2]; [|by destruct ws2..]. specialize (H3 (cp_layout plan) ws2 H2).
  by destruct (commit_layout _ _ _ _ ws2) as [r [w1 tr]].
Qed.
Hint Resolve keeps_commit_batch : keeps.

Lemma keeps_commit_attempts more fh g ids pending : forall replies, keeps I (commit_attempts more fh g ids pending replies).
Proof using HC.
  induction more as [|more IH]; intros replies; cbn [commit_attempts]; repeat keeps_step; try (by intros w Hw).
  all: intros w Hw; by apply rc_prune, rc_heap.
Qed.

Lemma keeps_commit_pending fh pending : keeps I (commit_pending_writes fh pending).
Proof using HC.
  intros w Hw. unfold commit_pending_writes. pose proof (rl_waits _ _ w Hw) as H0. set (ids := List.filter _ _).
  assert (H : I (snd (commit_body fh ids (waits ds w)))).
  { unfold commit_body. destruct (omap _ _); [done|]. destruct (forallb _ _); [|done]. by apply keeps_commit_attempts. }
  destruct (commit_body _ _ _) as [r w1]. by apply rc_heap.
Qed.
Hint Resolve keeps_commit_pending : keeps.
Lemma keeps_flush fh : keeps I (flush_layoutcommit fh).
Proof using HC. unfold flush_layoutcommit. repeat keeps_step. Qed.
Hint Resolve keeps_flush : keeps.

Lemma keeps_invalidate_devices l fh : keeps I (mgr_do (fun m => invalidate_devices l (invalidate_layout_segments m fh))).
Proof using HC.
  intros w Hw. cbn. unfold invalidate_devices. pose proof (rc_invalidate w fh Hw) as H.
  revert H. generalize (invalidate_layout_segments (mgr w) fh). induction (segments l) as [|s segs IH]; intros m Hm; cbn [foldl]; [done|].
  apply IH. destruct (content s); [|done]. by apply (rc_forget_device (set_mgr w m)).
Qed.
Hint Resolve keeps_invalidate_devices : keeps.
Lemma keeps_refresh fh l : keeps I (refresh_rejected_layout fh l).
Proof using HC. unfold refresh_rejected_layout. repeat keeps_step. Qed.
End RelyCommit.

(** ** Reads return the file *)

Lemma device_from_manager d g w info w' :
  get_or_fetch_device d g w = (Ok (Some info), w') -> get_device (mgr w') d = Some info.
Proof using.
  assert (H1 : forall w r w', fetch_device d g w = (Ok (Some (Some r)), w') -> get_device (mgr w') d = Some r).
  { intros w1 r w2. unfold fetch_device, andthen, asks, caught. destruct (compound _ _ _ w1) as [[resp|e|] w3]; [| |done].
    - destruct (obind _ _) as [[i rest]|e|]; [|done..]. unfold mgr_call.
      destruct (store_device_if_current _ _ _ _ _) as [[] m]; [|done]. by intros [= H <-].
    - by destruct (stop_pnfs_fallback e). }
  assert (H2 : forall n w r w', fetch_device_loop n d g w = (Ok (Some r), w') -> get_device (mgr w') d = Some r).
  { induction n as [|n IH]; intros w1 r w2; cbn; [done|]. intros (a & w3 & E1 & E2)%andthen_ok.
    destruct a as [[x|]|]; [|done|by eapply IH]. injection E2 as -> ->. by eapply H1. }
  unfold get_or_fetch_device, andthen, asks. destruct (get_device (mgr w) d) eqn:E; [by intros [= <- <-]|]. cbn.
  destruct (get_device (mgr (waits ds w)) d) eqn:E'; [by intros [= <- <-]|]. apply (H2 2%nat).
Qed.

Lemma layout_from_manager fh m o w l w' :
  get_or_fetch_layout fh m o w = (Ok (Some l), w') -> get_layout (mgr w') fh = Some l.
Proof using.
  assert (Hc : forall w l, get_layout_covering (mgr w) fh o = Some l -> get_layout (mgr w) fh = Some l).
  { intros w1 l1. unfold get_layout_covering. destruct (get_layout _ _); [|done]. by destruct (existsb _ _); [intros [= ->]|]. }
  assert (Ha : forall b resp w l w', accept_layout fh b resp w = (Ok (Some l), w') -> get_layout (mgr w') fh = Some l).
  { intros b resp w1 l1 w2. unfold accept_layout. destruct (obind _ _) as [[x rest]|e|]; [|done..].
    intros (acc & w3 & _ & E)%andthen_ok. destruct acc; [|done].
    apply andthen_ok in E as (? & w4 & _ & [= E <-]). done. }
  unfold get_or_fetch_layout. intros (en & w1 & [= <- <-] & E)%andthen_ok. destruct (negb _); [done|].
  unfold andthen, asks, wait, caught in E. destruct (get_layout_covering (mgr w) fh o) eqn:Ec; [injection E as <- <-; by apply Hc|].
  destruct (negb _); [done|]. destruct (get_layout_covering (mgr (waits ds w)) fh o) eqn:Ec'; [injection E as <- <-; by apply Hc|].
  destruct (compound _ _ _ _) as [[resp|e|] w2]; [by eapply Ha| |done]. by destruct (stop_pnfs_fallback e).
Qed.

Lemma usable_from_manager layout offset w seg f d n w' :
  usable_layout layout offset w = (Ok (Some (seg, f, d, n)), w') ->
  find_covering_segment layout offset = Some seg /\ content seg = Files f /\ stripe_unit f <> 0 /\ pattern_offset f <= offset /\
  file_layout_stripe_count d (Z.of_nat (length (fh_list f))) (is_dense f) (first_stripe_index f) = Some n /\
  exists w1, get_or_fetch_device (device_id f) (lo_generation layout) w = (Ok (Some d), w1).
Proof using.
  unfold usable_layout. destruct (find_covering_segment _ _) as [s|]; [|done]. destruct (content s) as [f'|] eqn:Ef; [|done].
  destruct (_ || _) eqn:Eo; [done|]. intros (d' & w1 & E1 & E)%andthen_ok. destruct d' as [d'|]; [|done].
  destruct (file_layout_stripe_count _ _ _ _) as [n'|] eqn:En; [|done].
  apply andthen_ok in E as (dg & w2 & _ & E). destruct dg; [done|]. apply andthen_ok in E as (un & w3 & _ & E).
  destruct un; [done|]. injection E as -> -> -> -> _. apply orb_false_iff in Eo as [E2%Z.eqb_neq E3%Z.ltb_ge].
  by eauto 10.
Qed.

(** The bytes of a file in a range. *)
Definition part (file : bytes) (pos n : Z) : bytes := firstn (Z.to_nat n) (skipn (Z.to_nat pos) file).

(** A READ reply with data of the data file, which claims its end only there. *)
Definition good_read (file : bytes) (off n : Z) (resp : CompoundResponse) : Prop :=
  forall want piece eof, n <= want -> decode_ds_read resp want = Ok (piece, eof) ->
  piece = part file off (remaining piece) /\ (eof = true -> remaining file <= off + remaining piece).

(** Where the stripe table places a byte of the file. *)
Definition byte_index (f : FilesLayout) (n o : Z) : Z := ((o - pattern_offset f) / stripe_unit f + first_stripe_index f) mod n.
Definition byte_place (f : FilesLayout) (n o : Z) : Z :=
  if is_dense f then (o - pattern_offset f) / stripe_unit f / n * stripe_unit f + (o - pattern_offset f) mod stripe_unit f else o.

Section ReadFile.
(** [fh] is the file with the bytes [file]; [contents] are the data files,
    [addr_of] is the server a connection leads to. *)
Context (fh file : bytes) (contents : SocketAddr -> bytes -> bytes) (addr_of : DsConnection -> SocketAddr).
(** Which file layouts and devices the metadata server has handed out. *)
Context (granted : FilesLayout -> Prop) (known : bytes -> DeviceInfo -> Prop).

(** A layout and a device put every byte of the file where the data servers have
    it. *)
Record striped (f : FilesLayout) (d : DeviceInfo) (n : Z) : Prop := {
  sd_unit : stripe_unit f <> 0 -> 64 <= stripe_unit f < 2 ^ 32;
  sd_first : is_u32 (first_stripe_index f);
  sd_pattern : 0 <= pattern_offset f;
  sd_byte : forall o ds_fh addr, pattern_offset f <= o ->
    file_layout_target d (byte_index f n o) (is_dense f) (fh_list f) fh = Ok (ds_fh, addr) ->
    contents addr ds_fh !! Z.to_nat (byte_place f n o) = file !! Z.to_nat o;
}.

Definition granted_segment (s : LayoutSegment) : Prop :=
  is_u64 (seg_offset s) /\ match content s with Files f => granted f | OpaqueContent _ => True end.
Definition granted_layout (h : bytes) (l : Layout) : Prop := h = fh -> Forall granted_segment (segments l).

(** Connections lead where they are filed; layouts and devices are the server's. *)
Record truthful (w : W) : Prop := {
  tr_servers : forall a c, data_servers (mgr w) !! a = Some c -> addr_of c = a;
  tr_layout : forall l, layouts (mgr w) !! fh = Some l -> Forall granted_segment (segments l);
  tr_device : forall d g info, device_cache (mgr w) !! d = Some (g, info) -> known d info;
}.

(** The servers and the other tasks. *)
Class FileServed : Prop := {
  fs_waits : forall w, truthful w -> truthful (waits ds w);
  fs_connect : forall a, keeps truthful (connect_ds ds a);
  fs_compound : forall d t b, keeps truthful (engine_compound eng d None t b);
  fs_compound_ds : forall c d t b, keeps truthful (compound_ds ds c d t b);
  fs_connected : forall a w client s w' g, connect_ds ds a w = (Ok (Connected client s), w') ->
    addr_of {| ds_client := client; ds_session := s; owner_generation := g |} = a;
  fs_device_reply : forall d g w resp w' info rest, truthful w ->
    compound eng "getdeviceinfo"
      (fun b => Compound41.getdeviceinfo d 1 (1024 * 1024) (Compound41.putrootfh (Compound41.require_generation b g))) w = (Ok resp, w') ->
    obind (op_ok resp 2) (fun op => decode_getdeviceinfo_response (op_data op)) = Ok (info, rest) ->
    known d (sort_multipath_by_affinity info server_addr);
  fs_layout_reply : forall h g m o sid w resp w' l rest, truthful w ->
    compound eng "layoutget"
      (fun b => Compound41.layoutget false LAYOUT4_NFSV4_1_FILES (iomode_u32 m) o (u64_max - o) 0 sid (1024 * 1024)
                  (Compound41.putfh h (Compound41.require_generation b g))) w = (Ok resp, w') ->
    obind (op_ok resp 2) (fun op => decode_layoutget_response (op_data op)) = Ok (l, rest) ->
    granted_layout h l;
  fs_striped : forall f d n, granted f -> known (device_id f) d ->
    file_layout_stripe_count d (Z.of_nat (length (fh_list f))) (is_dense f) (first_stripe_index f) = Some n -> striped f d n;
  fs_read_mds : forall ds_fh sid off n g w resp w', is_u64 off ->
    compound eng "ds-read-mds" (fun b => Compound41.read sid off n (Compound41.putfh ds_fh (Compound41.require_generation b g))) w = (Ok resp, w') ->
    good_read (contents server_addr ds_fh) off n resp;
  fs_read_ds : forall c ds_fh sid off n w resp w', is_u64 off ->
    compound_ds ds c None (of_str "ds-read") (fun b => Compound41.read sid off n (Compound41.putfh ds_fh b)) w = (Ok resp, w') ->
    good_read (contents (addr_of c) ds_fh) off n resp;
}.
Context `{HF : !FileServed}.

Lemma truthful_mgr w m : truthful w ->
  (forall a c, data_servers m !! a = Some c -> data_servers (mgr w) !! a = Some c \/ addr_of c = a) ->
  (forall l, layouts m !! fh = Some l -> layouts (mgr w) !! fh = Some l \/ Forall granted_segment (segments l)) ->
  (forall d x, device_cache m !! d = Some x -> device_cache (mgr w) !! d = Some x \/ known d (snd x)) ->
  truthful (set_mgr w m).
Proof using.
  intros [H1 H2 H3] Ha Hl Hd. constructor; cbn.
  - intros a c H. by destruct (Ha a c H); [apply H1|].
  - intros l H. by destruct (Hl l H); [apply H2|].
  - intros d g info H. destruct (Hd d _ H); [by eapply H3|done].
Qed.

Lemma merge_granted old new : Forall granted_segment old -> Forall granted_segment new -> Forall granted_segment (merge_segments old new).
Proof using.
  intros Ho Hn. unfold merge_segments. rewrite (sort_by_perm _ (retained old new ++ new)). apply Forall_app. split; [|done].
  unfold retained. rewrite Forall_forall in Ho |- *. intros x [_ Hx]%list_elem_of_filter. by apply Ho.
Qed.

#[local] Instance truthful_rely : Rely known granted_layout truthful.
Proof using HF.
  split.
  - apply fs_waits.
  - apply fs_connect.
  - intros. apply fs_compound.
  - intros. apply fs_compound_ds.
  - apply fs_device_reply.
  - intros h g m o sid w resp w' l rest Hw E Ed. exact (fs_layout_reply h g m o sid w resp w' l rest Hw E Ed).
  - intros w d g rev info Hw Hi. apply truthful_mgr; [done|..]; unfold store_device_if_current; destruct (_ || _); cbn; auto.
    intros d' x. destruct (decide (d = d')) as [->|]; simplify_map_eq; auto. intros [= <-]. by right.
  - intros w h g l Hw Hl. apply truthful_mgr; [done|..]; unfold store_layout_at; destruct (negb _); cbn; auto.
    intros l'. destruct (decide (h = fh)) as [->|]; simplify_map_eq; auto. intros [= <-]. right. by apply Hl.
  - intros w h l Hw Hl. apply truthful_mgr; [done|..]; unfold merge_layout; destruct (negb _); cbn; auto.
    all: destruct (layouts (mgr w) !! h) as [c|] eqn:Ec; cbn; auto.
    all: intros l'; destruct (decide (h = fh)) as [->|]; simplify_map_eq; auto; intros [= <-]; right.
    + apply merge_granted; [by eapply tr_layout|by apply Hl].
    + by apply Hl.
  - intros a g o w w' E Hw. pose proof (keeps_run _ _ _ _ _ (fs_connect a) E Hw) as H1.
    apply truthful_mgr; [done|..]; destruct o as [cl s|e|]; cbn; unfold mark_ds_unreachable_at;
      repeat (case_match; cbn; auto).
    intros a' c. destruct (decide (a = a')) as [->|]; simplify_map_eq; auto. intros [= <-]. right. by eapply fs_connected.
  - intros w a Hw. apply truthful_mgr; [done|..]; cbn; auto. intros a' c [_ H]%lookup_delete_Some. by left.
  - intros w Hw. apply truthful_mgr; [done|..]; cbn; auto.
Qed.

#[local] Instance truthful_commit : RelyCommit known granted_layout truthful.
Proof using HF.
  split; [apply truthful_rely|intros; apply fs_compound|intros; apply fs_compound_ds|..].
  - intros w h [H1 H2 H3]. by constructor.
  - intros w h g a b Hw. apply truthful_mgr; [done|..]; unfold mark_dirty_at; destruct (negb _); cbn; auto.
  - intros w h r Hw. apply truthful_mgr; [done|..]; unfold acknowledge_dirty; cbn; destruct (_ && _); cbn; auto.
  - intros w isd h Hw. apply truthful_mgr; [done|..]; unfold prune_completed_writes; repeat (case_match; cbn; auto).
  - intros w h Hw. apply truthful_mgr; [done|..]; unfold invalidate_layout_segments; destruct (layouts (mgr w) !! h) as [l0|]; cbn; auto.
    intros l. destruct (decide (h = fh)) as [->|]; simplify_map_eq; auto. intros [= <-]. by right.
  - intros w d g b Hw. apply truthful_mgr; [done|..]; unfold invalidate_device; destruct (negb _); cbn; auto;
      destruct (device_cache (mgr w) !! d) as [[? ?]|]; [destruct b| |destruct b| |destruct b|]; cbn; auto.
    all: intros d' x [_ H]%lookup_delete_Some; by left.
Qed.

Lemma data_server_addr a g w c w' : truthful w -> get_data_server a g w = (Ok c, w') -> addr_of c = a.
Proof using HF.
  intros Hw. unfold get_data_server, andthen, ds_fast_path.
  assert (Hc : forall w, truthful w -> forall c, cached_data_server (mgr w) a g = Some c -> addr_of c = a).
  { intros w1 H1 c1. unfold cached_data_server. destruct (data_servers (mgr w1) !! a) eqn:E; [|done].
    destruct (_ =? _); [|done]. intros [= <-]. by eapply tr_servers. }
  destruct (negb _); [done|]. destruct (cached_data_server (mgr w) a g) eqn:E; [intros [= <- <-]; by eapply Hc|].
  unfold wait, ds_gated_check. destruct (negb _); [done|]. pose proof (fs_waits w Hw) as H1.
  destruct (cached_data_server (mgr (waits ds w)) a g) eqn:E1; [intros [= <- <-]; by eapply Hc|].
  destruct (is_ds_unreachable _ _); [done|]. destruct (connect_ds ds a (waits ds w)) as [[o|e|] w2] eqn:E2; [|done..].
  destruct o as [cl s|e|]; cbn; [|done..]. destruct (negb _); [done|]. intros [= <- <-]. by eapply fs_connected.
Qed.

Lemma good_read_more f off n m resp : good_read f off n resp -> n <= m -> good_read f off m resp.
Proof using. intros H Hle want piece eof Hw. apply H. lia. Qed.

Lemma read_chunk_good a ds_fh sid g off n w resp w' : truthful w -> is_u64 off ->
  ds_read_chunk a ds_fh sid g off n w = (Ok resp, w') -> good_read (contents a ds_fh) off n resp.
Proof using HF.
  intros Hw Hoff. unfold ds_read_chunk. destruct (bool_decide_reflect (a = server_addr)) as [->|]; [by apply fs_read_mds|].
  intros (c & w1 & E1 & (limit & w2 & E2 & (r & w3 & E3 & E)%andthen_ok)%andthen_ok)%andthen_ok.
  pose proof (data_server_addr _ _ _ _ _ Hw E1) as Ha. injection E2 as _ <-.
  pose proof (keeps_run _ _ _ _ _ (keeps_data_server known granted_layout truthful a g) E1 Hw) as H1.
  unfold caught in E3. destruct (compound_ds ds c _ _ _ w1) as [r1 w4] eqn:E4.
  pose proof (keeps_run _ _ _ _ _ (fs_compound_ds c None _ _) E4 H1) as H4.
  destruct (session_gone r) eqn:Eg.
  - assert (r1 = r /\ w3 = w4) as [-> ->] by (destruct r1; by simplify_eq).
    apply andthen_ok in E as (x & w5 & E5 & (c' & w6 & E6 & (limit' & w7 & E7 & E)%andthen_ok)%andthen_ok). injection E5 as _ <-.
    assert (H5 : truthful (set_mgr w4 (snd (remove_data_server (mgr w4) a)))) by (by apply (rl_remove_ds known granted_layout)).
    rewrite <- (data_server_addr _ _ _ _ _ H5 E6). eapply good_read_more; [by eapply fs_read_ds|lia].
  - injection E as ->. destruct r1; simplify_eq. eapply good_read_more; [by eapply fs_read_ds|lia].
Qed.

Lemma part_length f pos n : 0 <= pos -> 0 <= n -> remaining (part f pos n) = Z.min n (Z.max 0 (remaining f - pos)).
Proof using. intros. unfold part, remaining. rewrite length_take, length_drop. lia. Qed.
Lemma part_split f pos a b : 0 <= pos -> 0 <= a -> 0 <= b -> part f pos (a + b) = part f pos a ++ part f (pos + a) b.
Proof using. intros. unfold part. rewrite !Z2Nat.inj_add, <- drop_drop by done. symmetry. apply take_take_drop. Qed.
Lemma part_all f pos n m : 0 <= pos -> remaining f <= pos + n -> 0 <= n <= m -> part f pos m = part f pos n.
Proof using. intros H1 H2 H3. unfold part, remaining in *. by rewrite !take_ge by (rewrite length_drop; lia). Qed.

Lemma decode_read_length resp want piece eof : 0 <= want -> decode_ds_read resp want = Ok (piece, eof) -> remaining piece <= want.
Proof using.
  unfold decode_ds_read. intros Hwant (x & _ & (op & _ & (y & _ & ([e d] & _ & ([n d2] & En & E)%obind_ok_inv)%obind_ok_inv)%obind_ok_inv)%obind_ok_inv)%obind_ok_inv.
  destruct (_ || _) eqn:Eo; [done|]. apply orb_false_iff in Eo as [H1%Z.ltb_ge H2%Z.ltb_ge].
  apply obind_ok_inv in E as (s & Es & [= <- _]). unfold slice_to in Es. destruct (_ <? _); [done|]. injection Es as <-.
  unfold remaining in *. rewrite length_take. lia.
Qed.

Section OneStripe.
Context (a : SocketAddr) (ds_fh sid : bytes) (g len pos : Z).
Context (Hpos : 0 <= pos) (Hend : pos + len < 2 ^ 64) (Hlen : 0 <= len).
#[local] Notation data := (contents a ds_fh).

(** The pieces read so far are the beginning of the range. *)
Lemma read_loop_exact fuel : forall acc w acc' w', truthful w ->
  ra_freeze acc = part data pos (ra_len acc) -> ra_len acc <= len ->
  ds_read_loop (ds_read_chunk a ds_fh sid g) fuel len pos acc w = Some (Ok acc', w') ->
  truthful w' /\ ra_freeze acc' = part data pos len.
Proof using HF Hpos Hend Hlen.
  induction fuel as [|fuel IH]; intros acc w acc' w' Hw Hacc Hle; cbn [ds_read_loop];
    (destruct (Z.ltb_spec (ra_len acc) len); [|intros [= <- <-]; split; [done|]; rewrite Hacc; f_equal; lia]); [done|].
  pose proof (ra_len_freeze acc) as Hl0. pose proof (remaining_nonneg (ra_freeze acc)) as H0.
  assert (Hwr : wrap64 (pos + ra_len acc) = pos + ra_len acc) by (unfold wrap64; apply Z.mod_small; lia). rewrite Hwr.
  assert (Hoff : is_u64 (pos + ra_len acc)) by (unfold is_u64; lia).
  destruct (ds_read_chunk _ _ _ _ _ _ w) as [r w1] eqn:E.
  pose proof (keeps_run _ _ _ _ _ (keeps_read_chunk known granted_layout truthful a ds_fh sid g _ _) E Hw) as H1.
  destruct r as [resp|e|]; cbn [obind]; [|done..]. destruct (decode_ds_read resp _) as [[piece eof]|e|] eqn:Ed; [|done..].
  destruct (read_chunk_good _ _ _ _ _ _ _ _ _ Hw Hoff E (len - ra_len acc) piece eof ltac:(lia) Ed) as [Hp He].
  assert (Hwant : 0 <= len - ra_len acc) by lia.
  pose proof (decode_read_length _ _ _ _ Hwant Ed) as Hpl. pose proof (remaining_nonneg piece) as Hp0.
  assert (Hnew : ra_freeze (ra_push acc piece) = part data pos (ra_len acc + remaining piece)).
  { rewrite ra_freeze_push, part_split, <- Hacc, <- Hp by lia. done. }
  assert (Hnl : ra_len (ra_push acc piece) = ra_len acc + remaining piece).
  { rewrite !ra_len_freeze, ra_freeze_push, remaining_app. lia. }
  destruct eof.
  - intros [= <- <-]. split; [done|]. rewrite Hnew. symmetry. apply part_all; [lia| |lia]. specialize (He eq_refl). lia.
  - rewrite <- Hnl in Hnew. assert (Hle' : ra_len (ra_push acc piece) <= len) by lia.
    destruct piece as [|x piece0]; [done|]. by apply IH.
Qed.

Lemma read_stripe_piece w x w' : truthful w ->
  loop_result (ds_read_complete (ds_read_chunk a ds_fh sid g) (Z.to_nat len) len pos) w = (Ok x, w') ->
  truthful w' /\ x = (part data pos len, remaining (part data pos len) <? len).
Proof using HF Hpos Hend Hlen.
  intros Hw. unfold loop_result, ds_read_complete.
  destruct (ds_read_loop _ _ _ _ _ w) as [[[acc|e|] w1]|] eqn:E; [|done..]. intros [= <- <-].
  apply read_loop_exact in E as [H1 H2]; [|done|done|change (remaining [] <= len); by rewrite remaining_nil]. split; [done|]. by rewrite H2, ra_len_freeze, H2.
Qed.
End OneStripe.

(** A chunk inside one stripe has the bytes of the file. *)
Lemma chunk_part f d n c ds_fh addr : striped f d n -> 64 <= stripe_unit f -> 1 <= n -> pattern_offset f <= file_offset c -> 0 < ck_length c ->
  chunk_ok (stripe_unit f) (first_stripe_index f) n (pattern_offset f) (is_dense f) c ->
  file_layout_target d (ds_index c) (is_dense f) (fh_list f) fh = Ok (ds_fh, addr) ->
  0 <= ck_ds_offset c <= file_offset c /\
  part (contents addr ds_fh) (ck_ds_offset c) (ck_length c) = part file (file_offset c) (ck_length c).
Proof using.
  intros Hs Hsu Hn Hpat Hlen [Hone Hidx _ Hoff] Ht. pose proof (sd_pattern _ _ _ Hs) as Hp0.
  set (su := stripe_unit f) in *. set (o := file_offset c) in *. set (p := pattern_offset f) in *.
  assert (Hpl : byte_place f n o = ck_ds_offset c) by (by rewrite Hoff).
  assert (Hq : forall i, 0 <= i < ck_length c -> (o + i - p) / su = (o - p) / su).
  { intros i Hi. apply Z.le_antisymm; [rewrite Hone|]; apply Z.div_le_mono; lia. }
  assert (Hm : forall i, 0 <= i < ck_length c -> (o + i - p) mod su = (o - p) mod su + i).
  { intros i Hi. rewrite !Z.mod_eq, Hq by lia. lia. }
  assert (Hi : forall i, 0 <= i < ck_length c -> byte_index f n (o + i) = ds_index c /\ byte_place f n (o + i) = ck_ds_offset c + i).
  { intros i Hi. unfold byte_index, byte_place. fold su p. rewrite Hq, Hidx by done. split; [done|]. rewrite Hoff.
    destruct (is_dense f); [|done]. rewrite Hm by done. lia. }
  assert (Hb : 0 <= ck_ds_offset c <= o).
  { rewrite Hoff. destruct (is_dense f); [|lia]. pose proof (Z.div_pos (o - p) su ltac:(lia) ltac:(lia)) as Hq0.
    pose proof (Z.mod_pos_bound (o - p) su ltac:(lia)) as Hm0. pose proof (Z.div_mod (o - p) su ltac:(lia)) as Hdm.
    assert (0 <= (o - p) / su / n <= (o - p) / su) by (split; [apply Z.div_pos; lia|apply Z.div_le_upper_bound; nia]). nia. }
  split; [done|]. apply list_eq. intros i. unfold part.
  destruct (Nat.lt_ge_cases i (Z.to_nat (ck_length c))) as [Hlt|]; [|by rewrite !lookup_take_ge].
  rewrite !lookup_take_lt, !lookup_drop by done. destruct (Hi (Z.of_nat i) ltac:(lia)) as [Hx Hy].
  replace (Z.to_nat (ck_ds_offset c) + i)%nat with (Z.to_nat (byte_place f n (o + Z.of_nat i))) by lia.
  replace (Z.to_nat o + i)%nat with (Z.to_nat (o + Z.of_nat i)) by lia.
  apply (sd_byte _ _ _ Hs); [lia|]. by rewrite Hx.
Qed.

Lemma contiguous_le a l b : contiguous a l b -> a <= b.
Proof using. induction 1; lia. Qed.

(** What each stripe returns. *)
Definition stripe_result (c : StripeChunk) (x : bytes * bool) : Prop :=
  x = (part file (file_offset c) (ck_length c), remaining (part file (file_offset c) (ck_length c)) <? ck_length c).

Lemma read_stripes_exact f d n sid g l : striped f d n -> 64 <= stripe_unit f -> 1 <= n -> forall pos end_ w xs w', truthful w ->
  pattern_offset f <= pos -> end_ <= u64_max -> contiguous pos l end_ ->
  Forall (chunk_ok (stripe_unit f) (first_stripe_index f) n (pattern_offset f) (is_dense f)) l ->
  read_stripes d f fh sid g l w = (Ok xs, w') -> truthful w' /\ Forall2 stripe_result l xs /\ pos <= end_.
Proof using HF.
  intros Hs Hsu Hn. induction l as [|c l IH]; intros pos end_ w xs w' Hw Hpos Hend Hc Hok; cbn [read_stripes].
  - intros [= <- <-]. inversion Hc; subst. by split_and!; [done|constructor|lia].
  - intros (x & w1 & E1 & (ys & w2 & E2 & [= <- <-])%andthen_ok)%andthen_ok.
    inversion Hc as [|? ? ? ? Hfo Hlen Hc']; subst. apply Forall_cons_1 in Hok as [Hok1 Hok].
    apply andthen_ok in E1 as ([ds_fh addr] & w3 & [= Et <-] & E1).
    destruct (chunk_part f d n c ds_fh addr Hs Hsu Hn Hpos Hlen Hok1 Et) as [Hds Hpart].
    assert (Hle : file_offset c + ck_length c <= end_).
    { by eapply contiguous_le. }
    apply read_stripe_piece in E1 as [H1 ->]; [|lia|unfold u64_max in *; lia|lia|done].
    assert (Hnp : pattern_offset f <= file_offset c + ck_length c) by lia.
    destruct (IH _ _ _ _ _ H1 Hnp Hend Hc' Hok E2) as (H2 & H3 & _). split_and!; [done| |lia].
    constructor; [|done]. unfold stripe_result. by rewrite Hpart.
Qed.

Lemma join_exact l : forall pos end_ xs acc, 0 <= pos -> contiguous pos l end_ -> Forall2 stripe_result l xs ->
  ra_freeze (join_stripes acc xs) = ra_freeze acc ++ part file pos (end_ - pos).
Proof using.
  induction l as [|c l IH]; intros pos end_ xs acc Hpos Hc Hx; inversion Hx as [|? x ? xs' Hx1 Hx2]; subst; inversion Hc as [|? ? ? ? Hfo Hlen Hc']; subst.
  - cbn. unfold part. by rewrite Z.sub_diag, app_nil_r.
  - assert (Hle : file_offset c + ck_length c <= end_) by (by eapply contiguous_le).
    rewrite Hx1. cbn [join_stripes]. destruct (Z.ltb_spec (remaining (part file (file_offset c) (ck_length c))) (ck_length c)) as [Hs|Hs].
    + rewrite ra_freeze_push. f_equal. symmetry. apply part_all; [done| |lia]. rewrite part_length in Hs by lia. lia.
    + rewrite (IH (file_offset c + ck_length c) end_ xs') by (done || lia). rewrite ra_freeze_push, <- app_assoc. f_equal.
      rewrite <- part_split by lia. f_equal. lia.
Qed.

Lemma assemble_exact l pos end_ xs : 0 <= pos -> contiguous pos l end_ -> Forall2 stripe_result l xs ->
  assemble xs = part file pos (end_ - pos).
Proof using.
  intros Hpos Hc Hx. unfold assemble. destruct xs as [|[x sh] [|y xs]].
  - by rewrite (join_exact l pos end_).
  - inversion Hx as [|c ? l' ? Hx1 Hx2]; subst. inversion Hx2; subst. inversion Hc as [|? ? ? ? Hfo Hlen Hc']; subst.
    inversion Hc'; subst. injection Hx1 as -> _. f_equal. lia.
  - by rewrite (join_exact l pos end_).
Qed.

Lemma keeps_read_stripe d f sid g c : keeps truthful (read_stripe d f fh sid g c).
Proof using HF.
  unfold read_stripe. apply keeps_andthen; [apply keeps_raise|intros [ds_fh a]].
  assert (H : forall fuel len pos acc w r w', truthful w ->
    ds_read_loop (ds_read_chunk a ds_fh sid g) fuel len pos acc w = Some (r, w') -> truthful w').
  { induction fuel as [|fuel IH]; intros len pos acc w r w' Hw; cbn [ds_read_loop]; destruct (_ <? _); try (by intros [= <- <-]).
    destruct (ds_read_chunk _ _ _ _ _ _ w) as [r1 w1] eqn:E.
    pose proof (keeps_run _ _ _ _ _ (keeps_read_chunk known granted_layout truthful a ds_fh sid g _ _) E Hw) as H1.
    destruct (obind _ _) as [[piece eof]|e|]; [|by intros [= <- <-]..].
    destruct eof; [by intros [= <- <-]|]. destruct piece; [by intros [= <- <-]|by apply IH]. }
  intros w Hw. unfold loop_result, ds_read_complete.
  destruct (ds_read_loop _ _ _ _ _ w) as [[[acc|e|] w1]|] eqn:E; [by eapply H..|done].
Qed.
Lemma keeps_read_stripes d f sid g l : keeps truthful (read_stripes d f fh sid g l).
Proof using HF. induction l; cbn; repeat keeps_step; apply keeps_read_stripe. Qed.
Lemma keeps_read_layout offset count layout : keeps truthful (pnfs_read_layout fh offset count layout).
Proof using HF.
  unfold pnfs_read_layout. pose proof (keeps_usable known granted_layout truthful) as Hu. pose proof keeps_read_stripes as Hr.
  repeat keeps_step.
Qed.

Lemma stripe_count_bounds d k dense first n : file_layout_stripe_count d k dense first = Some n -> 0 <= first -> 1 <= n < 2 ^ 32.
Proof using.
  unfold file_layout_stripe_count. destruct (Z.ltb_spec u32_max (Z.of_nat (length (stripe_indices d)))); [done|].
  destruct (Z.leb_spec (Z.of_nat (length (stripe_indices d))) first); [done|]. cbn [orb].
  destruct (_ || _); [done|]. intros [= <-]. unfold u32_max in *. lia.
Qed.

Lemma covered_count_bounds seg offset count : 0 <= offset <= u64_max -> is_u32 count ->
  is_u32 (covered_count seg offset count) /\ offset + covered_count seg offset count <= u64_max.
Proof using. intros Ho Hc. unfold covered_count, sat_add64. unfold_int. lia. Qed.

Lemma covered_progress seg offset count : 0 <= offset < u64_max -> is_u32 count -> is_u64 (seg_offset seg) -> covers seg offset = true ->
  part file offset (covered_count seg offset count) = part file offset (covered_count seg offset count) /\
  covered_count seg offset count <= count /\ (0 < count -> 0 < covered_count seg offset count).
Proof using.
  intros Ho Hc [Hso _] Hcov. split; [done|]. unfold covers, covered_count, sat_add64, checked_add64 in *.
  assert (H32 : 0 < u32_max) by done. destruct Hc as [Hc0 _]. revert Ho H32 Hcov. generalize u64_max, u32_max. intros u v Ho Hv Hcov.
  apply andb_true_iff in Hcov as [H1%Z.leb_le H2]. apply orb_true_iff in H2 as [H2%Z.eqb_eq|H2]; [lia|].
  destruct (Z.leb_spec (seg_offset seg + seg_length seg) u); [apply Z.ltb_lt in H2|]; lia.
Qed.

Lemma read_layout_exact offset count layout w data w' : truthful w -> Forall granted_segment (segments layout) ->
  0 <= offset <= u64_max -> is_u32 count ->
  pnfs_read_layout fh offset count layout w = (Ok (Some (Ok data)), w') ->
  lo_generation layout = active_generation (mgr w') /\
  exists seg, find_covering_segment layout offset = Some seg /\ data = part file offset (covered_count seg offset count).
Proof using HF.
  intros Hw Hg Ho Hc. unfold pnfs_read_layout. intros (u & w1 & E1 & E)%andthen_ok. unfold caught in E1.
  destruct (usable_layout layout offset w) as [ux w0] eqn:Eu.
  pose proof (keeps_run _ _ _ _ _ (keeps_usable known granted_layout truthful layout offset) Eu Hw) as H0.
  destruct ux as [[[[[seg f] d] n]|]|e|]; simplify_eq; [|done..].
  apply usable_from_manager in Eu as (Hseg & Hf & Hsu & Hpat & Hn & w2 & Ed).
  assert (Hst : striped f d n).
  { apply fs_striped; [|..|done].
    - apply find_some in Hseg as [Hin _]. rewrite Forall_forall in Hg. specialize (Hg seg (proj2 (list_elem_of_In _ _) Hin)).
      destruct Hg as [_ Hg]. by rewrite Hf in Hg.
    - pose proof (keeps_run _ _ _ _ _ (keeps_device known granted_layout truthful _ _) Ed Hw) as H2.
      apply device_from_manager in Ed. unfold get_device in Ed.
      destruct (device_cache (mgr w2) !! device_id f) as [[g info]|] eqn:Ec; [|done]. destruct (_ =? _); [|done].
      injection Ed as <-. by eapply (tr_device w2). }
  pose proof (sd_first _ _ _ Hst) as Hfi. pose proof (sd_unit _ _ _ Hst Hsu) as Hsu'. pose proof (sd_pattern _ _ _ Hst) as Hp0.
  assert (Hfi0 : 0 <= first_stripe_index f) by (unfold is_u32 in Hfi; lia).
  pose proof (stripe_count_bounds _ _ _ _ _ Hn Hfi0) as Hnb. destruct (covered_count_bounds seg offset count Ho Hc) as [Hcc Hce].
  destruct (split_range offset (covered_count seg offset count) (stripe_unit f) (is_dense f) (first_stripe_index f) n (pattern_offset f)
    Hsu' Hfi Hnb ltac:(lia) Hcc Hce) as (chunks & Es & Hcon & Hok).
  apply andthen_ok in E as (sid & w3 & [= <- <-] & E). rewrite Es in E. apply andthen_ok in E as (rs & w4 & E4 & E).
  unfold caught in E4. destruct (read_stripes _ _ _ _ _ _ w1) as [[xs|e|] w5] eqn:E5; simplify_eq.
  assert (Hn1 : 1 <= n) by lia. assert (H64 : 64 <= stripe_unit f) by lia.
  destruct (read_stripes_exact _ _ _ _ _ _ Hst H64 Hn1 _ _ _ _ _ H0 Hpat Hce Hcon Hok E5) as (H5 & Hxs & _).
  unfold andthen, asks in E. destruct (negb _) eqn:Eg; [done|]. injection E as <- <-.
  apply negb_false_iff, Z.eqb_eq in Eg. split; [done|]. exists seg. split; [done|].
  rewrite (assemble_exact chunks offset (offset + covered_count seg offset count)) by (done || lia). f_equal. lia.
Qed.

(** C8: A pNFS read returns the bytes of the file. Whatever layout is cached,
    fetched or refreshed on the way, whichever connections have to be made again
    and however the data servers split their replies, successful data is the
    part of the file that starts at the offset, no longer than was asked for and
    not empty unless the file ends there. Dense and sparse layouts, with any
    first stripe index and pattern offset, are covered: the data servers are only
    assumed to hold each byte where the stripe table puts it and to answer READ
    with their data. The layout's generation was still the active one when the
    data was assembled. *)
Theorem pnfs_read_exact offset count w data w' : truthful w -> 0 <= offset < u64_max -> is_u32 count ->
  pnfs_read fh offset count w = (Ok (Some (Ok data)), w') ->
  exists n, data = part file offset n /\ n <= count /\ (0 < count -> 0 < n).
Proof using HF.
  unfold pnfs_read. intros Hw Ho Hc. revert w Hw. generalize 1%nat as more.
  induction more as [|more IH]; intros w Hw; cbn [read_attempts]; intros (x & w0 & [= _ <-] & (y & w1 & E1 & E)%andthen_ok)%andthen_ok.
  all: pose proof (fs_waits w Hw) as H0; unfold caught in E1;
       destruct (get_or_fetch_layout fh IoRead offset (waits ds w)) as [lx w2] eqn:El;
       pose proof (keeps_run _ _ _ _ _ (keeps_layout known granted_layout truthful fh IoRead offset) El H0) as H2;
       destruct lx as [[layout|]|e|]; simplify_eq; try done.
  all: apply layout_from_manager in El; assert (Hg : Forall granted_segment (segments layout))
         by (unfold get_layout in El; destruct (layouts (mgr w1) !! fh) eqn:Ef; [|done]; destruct (_ =? _); [|done];
             injection El as <-; by apply (tr_layout w1)).
  all: apply andthen_ok in E as (z & w3 & E3 & E);
       pose proof (keeps_run _ _ _ _ _ (keeps_read_layout offset count layout) E3 H2) as H3.
  all: destruct z as [[d|e|]|]; try done.
  1,3: injection E as -> ->; apply read_layout_exact in E3 as (_ & seg & Hs & ->); [|done|done|unfold_int; lia|done];
       exists (covered_count seg offset count); apply find_some in Hs as [Hin Hcov]; rewrite Forall_forall in Hg;
       apply covered_progress; [done|done| |done]; by apply Hg, list_elem_of_In.
  all: destruct (stop_pnfs_fallback e); [done|]; apply andthen_ok in E as (now & w4 & [= <- <-] & E); destruct (negb _); [done|];
       apply andthen_ok in E as (rf & w5 & E5 & E); unfold caught in E5;
       destruct (refresh_rejected_layout fh layout w3) as [rr w6] eqn:Er;
       pose proof (keeps_run _ _ _ _ _ (keeps_refresh known granted_layout truthful fh layout) Er H3) as H6;
       destruct rr; simplify_eq; try done.
  by apply (IH w5).
Qed.
End ReadFile.
End Pnfs41.

(** ** A server to run against *)

Definition demo_bytes : bytes := of_str "hello".
Definition demo_mds : SocketAddr := V4 10 2049.
Definition demo_ds : SocketAddr := V4 11 2049.
Definition demo_layout_files : FilesLayout :=
  {| device_id := zeros 16; stripe_unit := 64; is_dense := false; commit_thru_mds := false;
     first_stripe_index := 0; pattern_offset := 0; fh_list := [] |}.
Definition demo_granted : Layout :=
  {| lo_generation := 1; lo_stateid := zeros 16; return_on_close := false;
     segments := [{| seg_offset := 0; seg_length := 1000; iomode := IoReadWrite; layout_type := NfsV41Files;
                     content := Files demo_layout_files |}] |}.
Definition demo_one_server : DeviceInfo := {| stripe_indices := [0]; ds_addrs := [[demo_ds]] |}.
Definition demo_receipt : DsWriteReply :=
  {| wr_file_offset := 0; wr_written := 5; wr_committed := Unstable; wr_data := demo_bytes; wr_verifier := zeros 8;
     wr_ds_addr := demo_ds; wr_ds_fh := zeros 4; wr_ds_offset := 0 |}.
Definition demo_retained : PendingWrite :=
  {| pd_fh := zeros 4; pd_offset := 0; pd_count := 5; pd_generation := 1; pd_commit_thru_mds := false;
     pd_replies := [demo_receipt]; pd_done := false; pd_failed := false |}.

(** It reads from the file, commits, and rejects every WRITE. *)
Definition demo_answer (o : EncodedOp) : bytes :=
  match opcode o with
  | OpNum.Read =>
      let off := be_val (firstn 8 (skipn (length (args o) - 12) (args o))) in
      let rest := skipn (Z.to_nat off) demo_bytes in
      be_bytes 4 1 ++ be_bytes 4 (remaining rest) ++ rest
  | OpNum.Commit => zeros 8
  | _ => []
  end.
Definition demo_response (b : CompoundBuilder -> CompoundBuilder) : CompoundResponse :=
  {| resp_tag := []; resp_status := NFS4_OK;
     results := map (fun d => {| op_opcode := 0; op_status := NFS4_OK; op_data := d |}) ([] :: map demo_answer (ops (b (builder_new []))));
     session_generation := 1 |}.
Definition demo_call (d : option bytes) (b : CompoundBuilder -> CompoundBuilder) : SM (@Mount41 (Pnfs (list bytes))) CompoundResponse := fun w =>
  match d with
  | Some _ => (Err (Nfs4 NFS4ERR_STALE), w)
  | None => (Ok (demo_response b), w)
  end.
Definition demo_pnfs_engine : @Engine (Pnfs (list bytes)) :=
  {| engine_compound := fun d _ _ b => demo_call d b; engine_pnfs_read := fun _ _ _ => retM None;
     engine_write_pnfs := fun _ _ _ => retM None; engine_commit_pending := fun _ _ => retM ();
     engine_flush_layoutcommit := fun _ => retM (); engine_layoutreturn := fun _ => retM ();
     engine_return_on_close := fun _ _ => false; engine_client_id := fun _ => 7; engine_generation := fun _ => 1;
     engine_max_response_size := fun _ => 65536 |}.
Definition demo_ds_session : Session :=
  {| s_minor_version := V1; s_generation := 1; session_id := zeros 16; client_id := 7;
     slot_table := SlotTable.new 1; s_max_request_size := 65536; s_max_response_size := 65536;
     s_max_cached_response_size := 4096; s_max_operations := 16; backchannel_max_requests := 1;
     backchannel_max_request_size := 4096; backchannel_max_operations := 2; s_pnfs_mds := false |}.
(** A connection is known by the host it leads to. *)
Definition addr_number (a : SocketAddr) : Z := match a with V4 i _ => i | V6 i _ => i end.
Definition demo_ds_ops : @DsOps (list bytes) :=
  {| connect_ds := fun a w => (Ok (if bool_decide (a = V4 (addr_number a) 2049) then Connected (addr_number a) demo_ds_session
                                 else ConnectFailed (Rpc "unknown server")), w);
     compound_ds := fun _ d _ b => demo_call d b; pnfs_mds := fun _ => true; session_id_of := fun _ => zeros 16; waits := fun w => w |}.
Definition demo_config : Config :=
  {| root_fh := []; retain_delegations := false; rsize := 65536; wsize := 65536; self_dircount := 0; self_maxcount := 0; minor_version := V1 |}.
Definition demo_world : @Mount41 (Pnfs (list bytes)) :=
  {| m_state := StateManager_new; m_recalls := {| Callback.queued := []; Callback.capacity := 1; Callback.receiver_alive := true |}; m_writes := WriteOwner.WriteOwner_new V1;
     m_ext := {| pn_mgr := {| layouts := {[ zeros 4 := demo_granted ]}; data_servers := ∅;
                              device_cache := {[ zeros 16 := (1, demo_one_server) ]}; device_revision := 0; dirty := ∅;
                              pending_writes := {[ zeros 4 := [0%nat] ]}; degenerate_logged := false; unreachable_ds := ∅;
                              noresvport := false; active_generation := 1 |};
                 pn_heap := {[ 0%nat := demo_retained ]}; pn_next := 1; pn_ext := [] |} |}.
Definition demo_show (a : SocketAddr) : string := "ds".
Definition demo_diagnostic (l : list DsWriteCompletion) : string := "".

#[local] Instance demo_writes_only : WritesOnly demo_pnfs_engine demo_ds_ops (fun w => pn_ext (m_ext w)).
Proof. by split; intros. Qed.

Lemma run_of {A B} (x : A * B) a : fst x = a -> x = (a, snd x).
Proof. destruct x. by intros <-. Qed.

Definition demo_write_run := pnfs_write demo_config demo_pnfs_engine demo_ds_ops demo_mds demo_show demo_diagnostic (zeros 4) 0 demo_bytes demo_world.
Example demo_write_rejected : fst demo_write_run = Ok (RefreshRequired demo_granted).
Proof. vm_compute. reflexivity. Qed.
Lemma fallback_stored_nothing_witness :
  fst demo_write_run = Ok (RefreshRequired demo_granted) /\ pn_ext (m_ext (snd demo_write_run)) = [].
Proof.
  split; [apply demo_write_rejected|].
  apply (fallback_stored_nothing demo_config demo_pnfs_engine demo_ds_ops demo_mds demo_show demo_diagnostic
    (fun w => pn_ext (m_ext w)) (zeros 4) 0 demo_bytes demo_world (RefreshRequired demo_granted)); [apply run_of, demo_write_rejected|exact Logic.I].
Defined.

Definition demo_commit_run := commit_pending_writes demo_config demo_pnfs_engine demo_ds_ops demo_mds demo_show (zeros 4) [0%nat] demo_world.
Example demo_commit_ok : fst demo_commit_run = Ok ().
Proof. vm_compute. reflexivity. Qed.
Lemma retained_writes_settle_witness :
  is_done (snd demo_commit_run) 0 = true /\
  exists w2, committed_by demo_config demo_pnfs_engine demo_ds_ops demo_mds demo_show (zeros 4) (active_generation (mgr (snd demo_commit_run)))
               [demo_retained] w2.
Proof.
  destruct (retained_writes_settle demo_config demo_pnfs_engine demo_ds_ops demo_mds demo_show (zeros 4) [0%nat] demo_world (Ok ())
    (snd demo_commit_run) (run_of _ _ demo_commit_ok)) as (H1 & H2 & _).
  split.
  - destruct (H1 eq_refl) as [H|H]; [|discriminate H]. apply (H 0%nat). by left.
  - apply (H2 eq_refl). discriminate.
Defined.

Definition demo_return_run := layoutreturn_file demo_config demo_pnfs_engine demo_ds_ops demo_mds demo_show (zeros 4) demo_world.
Example demo_return_ok : fst demo_return_run = Ok ().
Proof. vm_compute. reflexivity. Qed.
Lemma layout_returned_last_witness : get_layout (mgr (snd demo_return_run)) (zeros 4) = None.
Proof.
  destruct (layout_returned_last demo_config demo_pnfs_engine demo_ds_ops demo_mds demo_show (zeros 4) demo_world (Ok ())
    (snd demo_return_run) (run_of _ _ demo_return_ok)) as [H _].
  by destruct (H eq_refl) as (w0 & w1 & _ & _ & _ & _ & Hn).
Defined.

(** The data server at [demo_ds] holds the file under every handle. *)
Definition demo_contents (a : SocketAddr) (fh : bytes) : bytes := demo_bytes.
Definition demo_addr_of (c : DsConnection) : SocketAddr := V4 (ds_client c) 2049.
Definition demo_world_truthful := truthful (Y := list bytes) (zeros 4) demo_addr_of (fun f => f = demo_layout_files) (fun _ d => d = demo_one_server).

Lemma demo_response_read off sid n ds_fh b0 want piece eof : is_u64 off ->
  decode_ds_read (demo_response (fun b => Compound41.read sid off n (Compound41.putfh ds_fh (b0 b)))) want = Ok (piece, eof) ->
  ops (b0 (builder_new [])) = [] -> piece = skipn (Z.to_nat off) demo_bytes.
Proof.
  intros Ho E Hb. unfold decode_ds_read, op_ok, demo_response, Compound41.read, Compound41.putfh, push in E. cbn [results ops args opcode] in E.
  rewrite Hb in E. cbn [app map demo_answer opcode args results lookup list_lookup op_status op_data] in E.
  rewrite bool_decide_eq_true_2 in E by done. cbn [negb obind op_data] in E.
  assert (Hx : be_val (take 8 (drop (length (sid ++ xdr_u64 off ++ xdr_u32 n) - 12) (sid ++ xdr_u64 off ++ xdr_u32 n))) = off).
  { rewrite drop_app_length' by (rewrite !length_app; unfold xdr_u64, xdr_u32; rewrite !length_be_bytes; lia).
    unfold xdr_u64. rewrite take_app_length' by (by rewrite length_be_bytes). rewrite be_val_bytes. by apply Z.mod_small. }
  rewrite Hx in E. set (rest := drop (Z.to_nat off) demo_bytes) in *.
  assert (Hr : is_u32 (remaining rest)) by (unfold rest, is_u32, remaining; rewrite length_drop; cbn; lia).
  rewrite require_ok in E by (rewrite !remaining_app, !remaining_be; pose proof (remaining_nonneg rest); lia). cbn [obind] in E.
  rewrite get_u32_be in E by (unfold is_u32; lia). cbn [obind] in E. rewrite get_u32_be in E by done. cbn [obind] in E.
  destruct (_ || _); [done|]. rewrite <- (app_nil_r rest) in E at 2. rewrite slice_to_app in E by done. by injection E as <- _.
Qed.

Lemma demo_good_read off sid n ds_fh b0 a : is_u64 off -> ops (b0 (builder_new [])) = [] ->
  good_read (demo_contents a ds_fh) off n (demo_response (fun b => Compound41.read sid off n (Compound41.putfh ds_fh (b0 b)))).
Proof.
  intros Ho Hb want piece eof Hn E. pose proof (demo_response_read _ _ _ _ _ _ _ _ Ho E Hb) as ->. unfold is_u64 in Ho.
  unfold demo_contents, part, remaining. rewrite Nat2Z.id, firstn_all. split; [done|]. intros _. rewrite length_drop. lia.
Qed.

#[local] Instance demo_served : FileServed demo_pnfs_engine demo_ds_ops demo_mds (zeros 4) demo_bytes demo_contents demo_addr_of
  (fun f => f = demo_layout_files) (fun _ d => d = demo_one_server).
Proof.
  split.
  - done.
  - by intros a w.
  - intros [|] t b w; done.
  - intros c [|] t b w; done.
  - intros a w client s w' g. cbn. case_bool_decide as Ha; [|done]. intros [= <- _ _]. done.
  - intros d g w resp w' info rest _ [= <- <-]. discriminate.
  - intros h g m o sid w resp w' l rest _ [= <- <-]. discriminate.
  - intros f d n -> -> [= <-]. split; cbn; try (unfold_int; lia). intros o ds_fh a Ho Ht. by unfold byte_place.
  - intros ds_fh sid off n g w resp w' Ho [= <- <-]. by apply (demo_good_read off sid n ds_fh (fun b => Compound41.require_generation b g)).
  - intros c ds_fh sid off n w resp w' Ho [= <- <-]. by apply (demo_good_read off sid n ds_fh (fun b => b)).
Qed.

Definition demo_read_run := pnfs_read demo_config demo_pnfs_engine demo_ds_ops demo_mds demo_show (zeros 4) 1 20 demo_world.
Example demo_read_ok : fst demo_read_run = Ok (Some (Ok (of_str "ello"))).
Proof. vm_compute. reflexivity. Qed.
Lemma demo_truthful : demo_world_truthful demo_world.
Proof.
  split; cbn.
  - intros a c H. by rewrite lookup_empty in H.
  - intros l H. rewrite lookup_singleton_eq in H. injection H as <-. repeat constructor; cbn; unfold_int; lia.
  - intros d g info [_ H]%lookup_singleton_Some. by injection H as <- <-.
Qed.
Lemma pnfs_read_exact_witness : exists n, of_str "ello" = part demo_bytes 1 n /\ n <= 20 /\ (0 < 20 -> 0 < n).
Proof.
  apply (pnfs_read_exact demo_config demo_pnfs_engine demo_ds_ops demo_mds demo_show (zeros 4) demo_bytes demo_contents demo_addr_of
    (fun f => f = demo_layout_files) (fun _ d => d = demo_one_server) 1 20 demo_world (of_str "ello") (snd demo_read_run));
    [apply demo_truthful|vm_compute; split; [discriminate|reflexivity]|unfold is_u32; lia|apply run_of, demo_read_ok].
Defined.
