(* ===== verification/Recall41.v ===== *)
(** * Background requests of an NFSv4.1 mount

    Models the requests of [src/src/nfs41/mount.rs] and [src/src/nfs41/lease.rs]
    that do not go through the request engine: the task that answers recalls
    ([handle_recalls], [send_recall_return]), the renewal task
    ([LeaseRenewal::start]), the task that reports the end of reclaims after a
    restart (spawned by [handle_seq_status]), the requests that set up a mount
    ([bind_connection], [navigate_to_export], [get_fs_limits]) and the mount
    itself ([mount_on_addr], [mount]).

    They share the slots of the session with the engine, so they are written over
    its interface [Env] and leave their events in the same trace.  The recall and
    renewal tasks keep the engine's protocol; the report after a restart and the
    requests of the set-up do not, as two examples at the end show. *)
From S2P Require Import Prelude Errors Retry SlotTable Xdr4 Acl4 V42 Compound41 Response41 Session Engine41 Layout LayoutMgr Callback Listing FsInfo MountTrait.
From stdpp Require Import base list numbers strings gmap.
#[local] Open Scope Z_scope.

(** ** Errors that are not a status of the server *)

(** Decoding fails with an error of the encoding; the statuses of a reply are data. *)
Definition plain {A} (r : result A) : Prop := forall s, r <> Err (Nfs4 s).

Lemma plain_bind {A B} (r : result A) (f : A -> result B) : plain r -> (forall a, plain (f a)) -> plain (obind r f).
Proof. intros Hr Hf s. destruct r as [a|e|]; cbn; [apply Hf| |done]. intros [= ->]. by apply (Hr s). Qed.
Lemma plain_ok {A} (a : A) : plain (Ok a).
Proof. by intros s. Qed.
Lemma plain_panic {A} : plain (Panic : result A).
Proof. by intros s. Qed.
Lemma plain_xdr {A} t : plain (Err (Xdr t) : result A).
Proof. by intros s. Qed.

Lemma plain_rpc {A} t : plain (Err (Rpc t) : result A).
Proof. by intros s. Qed.

Create HintDb plain.
#[export] Hint Resolve plain_ok plain_panic plain_xdr plain_rpc : plain.
Ltac plain := repeat first [ solve [auto with plain] | apply plain_bind; [|intros ?] | case_match | progress cbn beta iota ].
Tactic Notation "plain_by" reference(d) := intros; unfold d; plain.

Lemma plain_require n e b : plain (Err e : result ()) -> plain (require n e b).
Proof. intros H. unfold require. plain. Qed.
Lemma plain_advance n b : plain (advance n b).
Proof. plain_by advance. Qed.
Lemma plain_slice n b : plain (slice_to n b).
Proof. plain_by slice_to. Qed.
Lemma plain_split n b : plain (split_to n b).
Proof. plain_by split_to. Qed.
Lemma plain_uint n b : plain (get_uint n b).
Proof. plain_by get_uint. Qed.
Lemma plain_u32 b : plain (get_u32 b).
Proof. apply plain_uint. Qed.
Lemma plain_u64 b : plain (get_u64 b).
Proof. apply plain_uint. Qed.
Lemma plain_for {A} n (f : A -> result A) a : (forall a, plain (f a)) -> plain (for_count n f a).
Proof.
  intros Hf. rewrite for_count_nat. revert a. induction (Z.to_nat n) as [|m IH]; intros a; cbn; [apply plain_ok|].
  by apply plain_bind.
Qed.
Lemma plain_collect {A} n (f : bytes -> result (A * bytes)) b : (forall b, plain (f b)) -> plain (collect n f b).
Proof. intros Hf. apply plain_for. intros [l b']. apply plain_bind; [done|]. intros [x y]. apply plain_ok. Qed.
#[export] Hint Resolve plain_require plain_advance plain_slice plain_split plain_u32 plain_u64 plain_for plain_collect : plain.

(** The decoders, from the inside out. *)
Lemma plain_decode_nfsstat4 b : plain (decode_nfsstat4 b).
Proof. plain_by decode_nfsstat4. Qed.
Lemma plain_decode_string b : plain (decode_string b).
Proof. plain_by decode_string. Qed.
Lemma plain_skip_var_bytes b : plain (skip_var_bytes b).
Proof. plain_by skip_var_bytes. Qed.
Lemma plain_skip_bitmap b : plain (skip_bitmap b).
Proof. plain_by skip_bitmap. Qed.
Lemma plain_skip_bytes n w b : plain (skip_bytes n w b).
Proof. plain_by skip_bytes. Qed.
Lemma plain_skip_word w b : plain (skip_word w b).
Proof. plain_by skip_word. Qed.
#[export] Hint Resolve plain_decode_nfsstat4 plain_decode_string plain_skip_var_bytes plain_skip_bitmap plain_skip_bytes plain_skip_word : plain.
Lemma plain_skip_fattr4 b : plain (skip_fattr4 b).
Proof. plain_by skip_fattr4. Qed.
Lemma plain_skip_change_info b : plain (skip_change_info b).
Proof. plain_by skip_change_info. Qed.
Lemma plain_skip_stateid4 b : plain (skip_stateid4 b).
Proof. plain_by skip_stateid4. Qed.
Lemma plain_take_opaque b w : plain (take_opaque b w).
Proof. plain_by take_opaque. Qed.
Lemma plain_decode_utf8str b : plain (decode_utf8str b).
Proof. plain_by decode_utf8str. Qed.
Lemma plain_AceType_try_from b : plain (AceType_try_from b).
Proof. plain_by AceType_try_from. Qed.
Lemma plain_WriteCommitted_try_from b : plain (WriteCommitted_try_from b).
Proof. plain_by WriteCommitted_try_from. Qed.
Lemma plain_word b : plain (word b).
Proof. plain_by word. Qed.
Lemma plain_decode_u64 b : plain (decode_u64 b).
Proof. plain_by decode_u64. Qed.
#[export] Hint Resolve plain_skip_fattr4 plain_skip_change_info plain_skip_stateid4 plain_take_opaque plain_decode_utf8str plain_AceType_try_from plain_WriteCommitted_try_from plain_word plain_decode_u64 : plain.
Lemma plain_decode_nfsace4 b : plain (decode_nfsace4 b).
Proof. plain_by decode_nfsace4. Qed.
Lemma plain_decode_bool b : plain (decode_bool b).
Proof. plain_by decode_bool. Qed.
Lemma plain_opaque b : plain (opaque b).
Proof. plain_by opaque. Qed.
Lemma plain_decode_callback_stateid b : plain (decode_callback_stateid b).
Proof. plain_by decode_callback_stateid. Qed.
Lemma plain_skip_entry4 b : plain (skip_entry4 b).
Proof. plain_by skip_entry4. Qed.
Lemma plain_skip_space_limit b : plain (skip_space_limit b).
Proof. plain_by skip_space_limit. Qed.
Lemma plain_skip_impl_id b : plain (skip_impl_id b).
Proof. plain_by skip_impl_id. Qed.
Lemma plain_skip_channel_attrs b : plain (skip_channel_attrs b).
Proof. plain_by skip_channel_attrs. Qed.
Lemma plain_skip_layout4 b : plain (skip_layout4 b).
Proof. plain_by skip_layout4. Qed.
#[export] Hint Resolve plain_decode_nfsace4 plain_decode_bool plain_opaque plain_decode_callback_stateid plain_skip_entry4 plain_skip_space_limit plain_skip_impl_id plain_skip_channel_attrs plain_skip_layout4 : plain.
Lemma plain_entries fuel n b : plain (skip_entry4_loop fuel n b).
Proof. revert n b. induction fuel as [|fuel IH]; intros n b; cbn [skip_entry4_loop]; plain. Qed.
Lemma plain_skip_entry4_list b : plain (skip_entry4_list b).
Proof. apply plain_entries. Qed.
#[export] Hint Resolve plain_skip_entry4_list : plain.
Lemma plain_skip_open_delegation b : plain (skip_open_delegation b).
Proof. plain_by skip_open_delegation. Qed.
Lemma plain_skip_state_protect b : plain (skip_state_protect b).
Proof. plain_by skip_state_protect. Qed.
Lemma plain_decode_copy b : plain (decode_copy b).
Proof. plain_by decode_copy. Qed.
Lemma plain_decode_read_plus_content b : plain (decode_read_plus_content b).
Proof. plain_by decode_read_plus_content. Qed.
Lemma plain_decode_xattr_name b : plain (decode_xattr_name b).
Proof. plain_by decode_xattr_name. Qed.
#[export] Hint Resolve plain_skip_open_delegation plain_skip_state_protect plain_decode_copy plain_decode_read_plus_content plain_decode_xattr_name : plain.
Lemma plain_skip_exchange_id_result b : plain (skip_exchange_id_result b).
Proof. plain_by skip_exchange_id_result. Qed.
Lemma plain_skip_create_session_result b : plain (skip_create_session_result b).
Proof. plain_by skip_create_session_result. Qed.
Lemma plain_skip_layoutget_result b : plain (skip_layoutget_result b).
Proof. plain_by skip_layoutget_result. Qed.
Lemma plain_decode_read_plus b : plain (decode_read_plus b).
Proof. plain_by decode_read_plus. Qed.
Lemma plain_decode_list b : plain (decode_list b).
Proof. plain_by decode_list. Qed.
Lemma plain_skip_error_result o s b : plain (skip_error_result o s b).
Proof. plain_by skip_error_result. Qed.
#[export] Hint Resolve plain_skip_exchange_id_result plain_skip_create_session_result plain_skip_layoutget_result plain_decode_read_plus plain_decode_list plain_skip_error_result : plain.

(** The tables of results, then a whole reply. *)
Definition plain_table (o : option (result bytes)) : Prop := forall r, o = Some r -> plain r.
Lemma plain_first_some l d : Forall plain_table l -> plain d -> plain (first_some l d).
Proof. induction 1 as [|[r|] l Hr _ IH]; intros Hd; cbn; [done|by apply Hr|by apply IH]. Qed.
Ltac plain_table d := intros; intros r; unfold d; case_match; intros [=]; subst; plain.
Lemma plain_v42 o b : plain_table (skip_v42_result o b).
Proof. plain_table skip_v42_result. Qed.
Lemma plain_data o b : plain_table (skip_data_result o b).
Proof. plain_table skip_data_result. Qed.
Lemma plain_state o b : plain_table (skip_state_result o b).
Proof. plain_table skip_state_result. Qed.
Lemma plain_pnfs o b : plain_table (skip_pnfs_result o b).
Proof. plain_table skip_pnfs_result. Qed.
Lemma plain_skip_op_result o s b : plain (skip_op_result o s b).
Proof.
  unfold skip_op_result. case_match; [plain|]. case_match; [|plain].
  apply plain_first_some; [|plain]. repeat constructor; auto using plain_v42, plain_data, plain_state, plain_pnfs.
Qed.
#[export] Hint Resolve plain_skip_op_result : plain.
Lemma plain_decode_op b : plain (decode_op b).
Proof. plain_by decode_op. Qed.
#[export] Hint Resolve plain_decode_op : plain.
Lemma plain_decode_response b : plain (decode_response b).
Proof. plain_by decode_response. Qed.
Lemma plain_renewal_wire_bounds q p mq mp : plain (validate_renewal_wire_bounds q p mq mp).
Proof. plain_by validate_renewal_wire_bounds. Qed.
#[export] Hint Resolve plain_decode_response plain_renewal_wire_bounds : plain.

(** ** Returning what the server recalls *)

Section Background.
Context {St : Type} (env : Env St) (auth : Auth).
#[local] Notation W := (St * list event)%type.
(** The layout manager in the shared state, and what the other tasks do while this
    one waits for the exclusive gate of a file. *)
Context (manager_of : St -> LayoutManager) (set_manager : LayoutManager -> St -> St) (file_gate : bytes -> St -> St).

Definition mgr_on {A} (f : LayoutManager -> A * LayoutManager) (w : W) : A * W :=
  let '(a, m) := f (manager_of w.1) in (a, on_ (set_manager m) w).

(** The reply of a background request, with the checks on its size. *)
Definition checked_reply (s : Session) (c : OperationClass) (ctx : RequestContext) (requested : Z) (r : result bytes) : result CompoundResponse :=
  let* reply := map_err (sent_error c ctx) r in
  let* _ := enforce_response_size s (remaining reply) in
  let* (d, _) := map_err (sent_error c ctx) (decode_response reply) in
  let* _ := enforce_response_operations s d requested in
  Ok d.

(** Every operation that was asked for has a result, and all of them succeeded. *)
Definition all_done (b : CompoundBuilder) (d : CompoundResponse) : bool :=
  (Z.of_nat (length (results d)) =? op_count b) && is_ok (op_ok d 0) && is_ok (check_resp_status d).

(** A validated SEQUENCE moves the slot on. *)
Definition accept_sequence (s : Session) (slot : AcquiredSlot) (seq : Z) (d : CompoundResponse) (w : W) : result bool * W :=
  match obind (op_ok d 0) (fun op => validate_sequence_result op (session_id s) seq (slot_id slot)) with
  | Err _ => (Ok false, w)
  | Panic => (Panic, w)
  | Ok sq =>
      let '(r, w) := on (update_limits env s (sr_highest_slot_id sq) (sr_target_highest_slot_id sq)) w in
      match r with
      | Ok _ => (Ok true, on_ (advance_now env s slot) (emit (EvAdvanced (session_id s) (slot_id slot)) w))
      | Err _ => (Ok false, w)
      | Panic => (Panic, w)
      end
  end.

Definition recall_error (c : OperationClass) (ctx : RequestContext) (d : CompoundResponse) : NfsError :=
  match check_resp_status d with
  | Err e => sent_error c ctx e
  | _ => sent_error c ctx (Xdr "recall return missing valid SEQUENCE")
  end.

(** [true] when the COMPOUND was carried out completely. *)
Definition send_recall_return (build_ops : CompoundBuilder -> CompoundBuilder) (w : W) : result bool * W :=
  let '(s, w) := on (get_session env) w in
  let '(r, w) := on (acquire_slot env s) w in
  match r with
  | Err _ => (Ok false, w)
  | Panic => (Panic, w)
  | Ok slot =>
      let seq := sequence_id slot in
      let b := build_ops (sequence (session_id s) seq (slot_id slot) (highest_now env s w.1) (builder_new (of_str "recall_return"))) in
      match prepare auth s b None with
      | Err _ => (Ok false, give_back env s slot w)
      | Panic => (Panic, give_back env s slot w)
      | Ok b =>
          let c := operation_class_of b in
          let ctx := request_context (of_str "recall_return") s (slot_id slot) seq in
          let slot := fence_on_drop slot in
          let '(r, w) := on (rpc_call env (encode_with_header b auth (s_minor_version s)) None) w in
          let reply := checked_reply s c ctx (op_count b) r in
          let w := emit (EvSent (session_id s) (slot_id slot) seq b None reply) w in
          match reply with
          | Err _ => (Ok false, give_back env s slot w)
          | Panic => (Panic, give_back env s slot w)
          | Ok d =>
              let '(ok, w) := accept_sequence s slot seq d w in
              match ok with
              | Panic => (Panic, give_back env s slot w)
              | Err e => (Err e, give_back env s slot w)
              | Ok ok =>
                  if all_done b d then (Ok ok, give_back env s (if ok then resolve slot else slot) w)
                  else
                    let slot := match operation_outcome (recall_error c ctx d) with None => resolve slot | Some _ => slot end in
                    (Ok false, give_back env s slot w)
              end
          end
      end
  end.

Definition return_ops (dirty : option DirtyRange) (fh stateid : bytes) (iomode offset len : Z) (b : CompoundBuilder) : CompoundBuilder :=
  let b := Compound41.putfh fh b in
  let b := match dirty with
           | Some r => Compound41.layoutcommit (dr_start r) (wrap64 (dr_end r - dr_start r)) false stateid
                         (Some (wrap64 (dr_end r - 1))) 1 b
           | None => b
           end in
  Compound41.layoutreturn false 1 iomode 1 offset len stateid b.

(** One file: [true] when the layout was given up. *)
Definition return_file (fh stateid : bytes) (iomode offset len : Z) (w : W) : result bool * W :=
  let w := on_ (file_gate fh) w in
  let dirty := snapshot_dirty (manager_of w.1) fh in
  let '(r, w) := send_recall_return (return_ops dirty fh stateid iomode offset len) w in
  match r with
  | Ok returned =>
      let '(acknowledged, w) :=
        match dirty with
        | Some d => if returned then mgr_on (fun m => acknowledge_dirty m fh d) w else (false, w)
        | None => (returned, w)
        end in
      if returned && acknowledged
      then let '(_, w) := mgr_on (fun m => remove_layout m fh) w in (Ok true, w)
      else (Ok false, w)
  | Err e => (Err e, w)
  | Panic => (Panic, w)
  end.

(** [layout_recalls_received] and [layout_returns_completed] *)
Record RecallStats : Type := { recalls_received : Z; returns_completed : Z }.

Definition layout_iomode (l : Layout) : Z :=
  match segments l with [s] => match iomode s with IoRead => 1 | IoReadWrite => 2 end | _ => 3 end.

Fixpoint return_all (l : list (bytes * Layout)) (w : W) : result () * W :=
  match l with
  | [] => (Ok (), w)
  | (fh, layout) :: l =>
      let '(r, w) := return_file fh (lo_stateid layout) (layout_iomode layout) 0 u64_max w in
      match r with
      | Ok _ => return_all l w
      | Err e => (Err e, w)
      | Panic => (Panic, w)
      end
  end.

Definition handle_recall (n : RecallNotification) (c : RecallStats) (w : W) : result RecallStats * W :=
  match n with
  | Delegation stateid _ fh =>
      let '(r, w) := send_recall_return (fun b => Compound41.delegreturn stateid (Compound41.putfh fh b)) w in
      (let* _ := r in Ok c, w)
  | LayoutFile stateid fh offset len iomode =>
      let c := {| recalls_received := wrap64 (recalls_received c + 1); returns_completed := returns_completed c |} in
      let '(r, w) := return_file fh stateid iomode offset len w in
      (let* returned := r in
       Ok (if returned then {| recalls_received := recalls_received c; returns_completed := wrap64 (returns_completed c + 1) |} else c), w)
  | LayoutAll =>
      let '(r, w) := return_all (map_to_list (layouts (manager_of w.1))) w in
      (let* _ := r in Ok c, w)
  end.

(** The task: the notifications in the order of the channel. *)
Fixpoint handle_recalls (l : list RecallNotification) (c : RecallStats) (w : W) : result RecallStats * W :=
  match l with
  | [] => (Ok c, w)
  | n :: l =>
      let '(r, w) := handle_recall n c w in
      match r with
      | Ok c => handle_recalls l c w
      | Err e => (Err e, w)
      | Panic => (Panic, w)
      end
  end.

(** ** Renewing the lease *)

(** One turn of the renewal task after its sleep: the new health. *)
Definition renew (w : W) : result LeaseHealth * W :=
  let '(s, w) := on (get_session env) w in
  let '(r, w) := on (acquire_slot env s) w in
  match r with
  | Err e => (Ok (health_from_error e), w)
  | Panic => (Panic, w)
  | Ok slot =>
      let seq := sequence_id slot in
      let b := sequence (session_id s) seq (slot_id slot) (highest_now env s w.1) (builder_new (of_str "renew")) in
      match enforce_max_operations b (s_max_operations s) with
      | Err _ => (Ok ProtocolFailure, give_back env s slot w)
      | Panic => (Panic, give_back env s slot w)
      | Ok _ =>
          let buf := encode_with_header b auth (s_minor_version s) in
          let slot := fence_on_drop slot in
          let '(r, w) := on (rpc_call env buf None) w in
          let reply :=
            let* bytes := r in
            let* _ := validate_renewal_wire_bounds (remaining buf) (remaining bytes) (s_max_request_size s) (s_max_response_size s) in
            let* (d, _) := decode_response bytes in Ok d in
          let w := emit (EvSent (session_id s) (slot_id slot) seq b None reply) w in
          match obind reply (fun d => validate_renewal_response d (session_id s) seq (slot_id slot)) with
          | Ok sq =>
              let '(r, w) := on (update_limits env s (sr_highest_slot_id sq) (sr_target_highest_slot_id sq)) w in
              match r with
              | Ok _ =>
                  let w := on_ (advance_now env s slot) (emit (EvAdvanced (session_id s) (slot_id slot)) w) in
                  (Ok Healthy, give_back env s (resolve slot) w)
              | Err _ => (Ok ProtocolFailure, give_back env s slot w)
              | Panic => (Panic, give_back env s slot w)
              end
          | Err e =>
              (Ok (health_from_error e), give_back env s (match e with Nfs4 _ => resolve slot | _ => slot end) w)
          | Panic => (Panic, give_back env s slot w)
          end
      end
  end.

(** [n] turns; [sleep] is what the other tasks do meanwhile. *)
Fixpoint renewal_task (sleep : St -> St) (n : nat) (health : LeaseHealth) (w : W) : result LeaseHealth * W :=
  match n with
  | O => (Ok health, w)
  | S n =>
      let '(r, w) := renew (on_ sleep w) in
      match r with
      | Ok health => renewal_task sleep n health w
      | Err e => (Err e, w)
      | Panic => (Panic, w)
      end
  end.

(** ** Reporting the end of reclaims

    The task that [handle_seq_status] spawns when the server restarted.  It
    advances the slot after any first result that succeeded, without looking at
    its identity. *)
Definition reclaim_complete_task (sleep : St -> St) (w : W) : result () * W :=
  let w := on_ sleep w in
  let '(s, w) := on (get_session env) w in
  let '(r, w) := on (acquire_slot env s) w in
  match r with
  | Err _ => (Ok (), w)
  | Panic => (Panic, w)
  | Ok slot =>
      let seq := sequence_now env s slot w.1 in
      let b := Compound41.reclaim_complete false
                 (sequence (session_id s) seq (slot_id slot) (highest_now env s w.1) (builder_new (of_str "reclaim_complete"))) in
      let slot := fence_on_drop slot in
      let '(r, w) := on (rpc_call env (encode_with_header b auth (s_minor_version s)) None) w in
      let reply := let* bytes := r in let* (d, _) := decode_response bytes in Ok d in
      let w := emit (EvSent (session_id s) (slot_id slot) seq b None reply) w in
      match reply with
      | Err _ => (Ok (), give_back env s slot w)
      | Panic => (Panic, give_back env s slot w)
      | Ok d =>
          let sequence_ok := is_ok (op_ok d 0) in
          let w := if sequence_ok
                   then on_ (advance_now env s slot) (emit (EvAdvanced (session_id s) (slot_id slot)) w) else w in
          let slot :=
            match check_resp_status d with
            | Ok _ => resolve slot
            | Err (Nfs4 NFS4ERR_RETRY_UNCACHED_REP) | Err (Nfs4 NFS4ERR_SEQ_FALSE_RETRY) => slot
            | _ => resolve slot
            end in
          (Ok (), give_back env s slot w)
      end
  end.

(** ** Setting up a mount *)

Definition bind_connection_request (session_id : bytes) (v : MinorVersion) : bytes :=
  encode_with_header (bind_conn_to_session session_id 3 false (builder_new (of_str "bind_conn"))) auth v.

Definition validate_bound_connection (response expected_session_id : bytes) : result Z :=
  let* (response, _) := decode_response response in
  let* op := op_ok response 0 in
  let* _ := require 20 (Xdr "BIND_CONN_TO_SESSION result truncated") (op_data op) in
  let* (confirmed, data) := split_to 16 (op_data op) in
  let* (direction, _) := get_u32 data in
  if negb (bool_decide (confirmed = expected_session_id))
  then Err (Rpc "BIND_CONN_TO_SESSION returned a mismatched session ID")
  else if Z.land direction 2 =? 0
  then Err (Rpc ("BIND_CONN_TO_SESSION did not restore the required backchannel: direction " +:+ fmtZ direction))
  else Ok direction.

(** A call on the new connection or during its reconnection; both are [call]. *)
Definition bind_connection (s : Session) (st : St) : result Z * St :=
  let '(r, st) := rpc_call env (bind_connection_request (session_id s) (s_minor_version s)) None st in
  (let* response := r in validate_bound_connection response (session_id s), st).

(** A request of the set-up on the fresh session; [check] looks at the results
    before the slot moves on. *)
Definition bootstrap {A} (s : Session) (tag : string) (ops : CompoundBuilder -> CompoundBuilder)
    (check : CompoundResponse -> result A) (w : W) : result A * W :=
  let '(r, w) := on (acquire_slot env s) w in
  match r with
  | Err e => (Err e, w)
  | Panic => (Panic, w)
  | Ok slot =>
      let seq := sequence_id slot in
      let b := ops (sequence (session_id s) seq (slot_id slot) (highest_now env s w.1) (builder_new (of_str tag))) in
      let buf := encode_with_header b auth (s_minor_version s) in
      match (let* _ := enforce_max_operations b (s_max_operations s) in enforce_request_size s (remaining buf) 0) with
      | Err e => (Err e, give_back env s slot w)
      | Panic => (Panic, give_back env s slot w)
      | Ok _ =>
          let '(r, w) := on (rpc_call env buf None) w in
          let reply :=
            let* bytes := r in
            let* _ := enforce_response_size s (remaining bytes) in
            let* (d, _) := decode_response bytes in
            let* _ := enforce_response_operations s d (op_count b) in Ok d in
          let w := emit (EvSent (session_id s) (slot_id slot) seq b None reply) w in
          match (let* d := reply in let* _ := check_resp_status d in let* op := op_ok d 0 in Ok (d, op)) with
          | Err e => (Err e, give_back env s slot w)
          | Panic => (Panic, give_back env s slot w)
          | Ok (d, op) =>
              match validate_sequence_result op (session_id s) seq (slot_id slot) with
              | Err e => (Err e, give_back env s (fence_on_drop slot) w)
              | Panic => (Panic, give_back env s slot w)
              | Ok sq =>
                  let '(r, w) := on (update_limits env s (sr_highest_slot_id sq) (sr_target_highest_slot_id sq)) w in
                  match r with
                  | Err e => (Err e, give_back env s (fence_on_drop slot) w)
                  | Panic => (Panic, give_back env s slot w)
                  | Ok _ =>
                      match check d with
                      | Ok a =>
                          let w := on_ (advance_now env s slot) (emit (EvAdvanced (session_id s) (slot_id slot)) w) in
                          (Ok a, give_back env s slot w)
                      | Err e => (Err e, give_back env s slot w)
                      | Panic => (Panic, give_back env s slot w)
                      end
                  end
              end
          end
      end
  end.

(** [split('/')] without the empty components *)
Fixpoint split_path_on (cur path : bytes) : list bytes :=
  match path with
  | [] => [cur]
  | c :: path => if bool_decide (c = Byte.x2f) then cur :: split_path_on [] path else split_path_on (cur ++ [c]) path
  end.
Definition export_components (dirpath : bytes) : list bytes :=
  List.filter (fun c => negb (bool_decide (c = []))) (split_path_on [] dirpath).

(** Results [i] to [i + n - 1]. *)
Fixpoint results_ok (d : CompoundResponse) (i n : nat) : result () :=
  match n with
  | O => Ok ()
  | S n => let* _ := op_ok d i in results_ok d (S i) n
  end.

Definition navigate_to_export (s : Session) (dirpath : bytes) (w : W) : result bytes * W :=
  let comps := export_components dirpath in
  bootstrap s "navigate"
    (fun b => Compound41.getfh (foldl (fun b c => Compound41.lookup_name c b) (Compound41.putrootfh b) comps))
    (fun d =>
       let* _ := results_ok d 1 (S (length comps)) in
       let* op := op_ok d (2 + length comps) in
       let* _ := require 4 (Xdr "GETFH result missing fh length") (op_data op) in
       let* (fh_len, data) := get_u32 (op_data op) in
       let* _ := require (padded fh_len) (Xdr "GETFH result fh data truncated") data in
       slice_to fh_len data) w.

Definition fs_limits_bitmap : list Z := [Z.lor (Z.lor (Z.lor 1 (Z.shiftl 1 10)) (Z.shiftl 1 30)) (Z.shiftl 1 31)].
Definition fetch_fs_limits (s : Session) (root_fh : bytes) (w : W) : result (Z * Z * Z * bool) * W :=
  let '(r, w) := bootstrap s "fsinfo" (fun b => Compound41.getattr fs_limits_bitmap (Compound41.putfh root_fh b))
    (fun d => let* _ := op_ok d 1 in op_ok d 2) w in
  (let* op := r in get_fs_limits (s_max_response_size s) (s_max_request_size s) (op_data op), w).

(** What [mount_on_addr] leaves behind: the fields of [Mount41] that it computes. *)
Record Mounted41 : Type := {
  mt_session : Session; mt_root_fh : bytes; mt_rsize : Z; mt_wsize : Z; mt_dircount : Z; mt_maxcount : Z;
  mt_acl_supported : bool; mt_renewal_interval : Z; mt_direction : Z; mt_retain_delegations : bool; mt_callback : CallbackSession
}.

(** Connecting the transport to an address. *)
Context {Addr : Type} (connect : Addr -> bool -> St -> result () * St).

(** [establish] ends with RECLAIM_COMPLETE on the session it returns
    ([Session.reclaim_loop]).  No other task can reach that session before it
    returns, and a session whose RECLAIM_COMPLETE fails is dropped with its slots,
    so those requests leave no events here. *)
Definition mount_on_addr41 (addr : Addr) (dirpath : bytes) (readdir_buffer : option (Z * Z)) (noresvport retain : bool) (w : W)
    : result Mounted41 * W :=
  let '(r, w) := on (connect addr noresvport) w in
  match r with
  | Err e => (Err e, w)
  | Panic => (Panic, w)
  | Ok _ =>
      let '(r, w) := on (establish env) w in
      match r with
      | Err e => (Err e, w)
      | Panic => (Panic, w)
      | Ok raw_session =>
          let s := inner (holder_new raw_session) in
          let '(r, w) := navigate_to_export s dirpath w in
          match r with
          | Err e => (Err e, w)
          | Panic => (Panic, w)
          | Ok root_fh =>
              let '(r, w) := fetch_fs_limits s root_fh w in
              match r with
              | Err e => (Err e, w)
              | Panic => (Panic, w)
              | Ok (rsize, wsize, interval, acl) =>
                  let '(dircount, maxcount) := directory_reply_limits readdir_buffer (Some rsize) in
                  let cb := new_negotiated (session_id s) (s_generation s) (backchannel_max_requests s)
                              (backchannel_max_request_size s) (backchannel_max_operations s) (s_minor_version s) in
                  let '(r, w) := on (bind_connection s) w in
                  (let* direction := r in
                   Ok {| mt_session := s; mt_root_fh := root_fh; mt_rsize := rsize; mt_wsize := wsize; mt_dircount := dircount;
                         mt_maxcount := maxcount; mt_acl_supported := acl; mt_renewal_interval := interval;
                         mt_direction := direction; mt_retain_delegations := retain; mt_callback := cb |}, w)
              end
          end
      end
  end.

Fixpoint mount_addrs41 (addrs : list Addr) (last_error : option NfsError) (dirpath : bytes) (readdir_buffer : option (Z * Z))
    (noresvport retain : bool) (w : W) : result Mounted41 * W :=
  match addrs with
  | [] => (Err (default (Rpc "NFSv4.1 resolved no addresses") last_error), w)
  | addr :: addrs =>
      let '(r, w) := mount_on_addr41 addr dirpath readdir_buffer noresvport retain w in
      match r with
      | Err e => mount_addrs41 addrs (Some e) dirpath readdir_buffer noresvport retain w
      | _ => (r, w)
      end
  end.

(** Name resolution yields the addresses or an error. *)
Definition mount41 (resolved : result (list Addr)) (dirpath : bytes) (readdir_buffer : option (Z * Z)) (noresvport retain : bool) (w : W)
    : result Mounted41 * W :=
  match resolved with
  | Ok addrs => mount_addrs41 addrs None dirpath readdir_buffer noresvport retain w
  | Err e => (Err e, w)
  | Panic => (Panic, w)
  end.

(** ** Background requests keep the slot protocol *)

(** The operations are not read-only, whatever SEQUENCE they follow. *)
Definition mutating (build_ops : CompoundBuilder -> CompoundBuilder) : Prop := forall sid seq slot highest t,
  operation_class_of (build_ops (sequence sid seq slot highest (builder_new t))) <> ReadOnly.

Lemma cache_policy_class b n b' : apply_sequence_cache_policy b n = Ok b' -> operation_class_of b' = operation_class_of b.
Proof using.
  unfold apply_sequence_cache_policy. destruct (_ && _); [done|]. unfold operation_class_of.
  destruct (ops b) as [|s rest]; [done|]. destruct (_ || _); [done|]. by intros [= <-].
Qed.
Lemma prepare_class s b p b' : prepare auth s b p = Ok b' -> operation_class_of b' = operation_class_of b.
Proof using.
  intros (b1 & H1%cache_policy_class & (x & _ & (y & _ & [= <-])%obind_ok_inv)%obind_ok_inv)%obind_ok_inv. done.
Qed.

(** The reply has the form of an answer to the request: it repeats the tag,
    stops at the first operation that failed, whose status is the status of the
    whole, and a SEQUENCE that succeeded has its 36 bytes. *)
Definition answers_request (b : CompoundBuilder) (d : CompoundResponse) : Prop :=
  resp_tag d = tag b /\ (length (results d) <= length (ops b))%nat /\
  (exists op, last (results d) = Some op /\ op_status op = resp_status d) /\
  forall op rest, results d = op :: rest -> op_status op = NFS4_OK -> remaining (op_data op) = 36.

(** These requests give an answered slot back without an advance when the server
    did not accept the SEQUENCE; else only when the engine would, or after a
    reply that does not answer the request, and then fenced unless that reply
    reports an error. *)
Definition background_unadvanced (sid : bytes) (slot seq : Z) (b : CompoundBuilder)
    (d : CompoundResponse) (x : SlotDisposition) : Prop :=
  sequence_acknowledged d = false \/
  (unadvanced env sid slot seq b d Fence \/ ~ answers_request b d) /\ (x = Fence \/ resp_status d <> NFS4_OK).

Context `{HE : !EnvLaws env}.
#[local] Notation extends := (ext background_unadvanced (St := St)).
#[local] Notation spec_step := (spec_step background_unadvanced).
#[local] Notation spec_run := (spec_run background_unadvanced).

Lemma accept_sequence_ext s slot seq b d w r w' : accept_sequence s slot seq d w = (r, w') ->
  let sent := ASent (session_id s) (slot_id slot) seq b None (Ok d) in
  (extends sent w sent w' /\ r <> Ok true /\ unadvanced env (session_id s) (slot_id slot) seq b d Fence) \/
  (extends sent w (AAdvanced (session_id s) (slot_id slot) b d) w' /\ r = Ok true /\ w'.2 = w.2 ++ [EvAdvanced (session_id s) (slot_id slot)]).
Proof using.
  unfold accept_sequence. destruct (obind _ _) as [sq|e|] eqn:Ev; intros E.
  2: { injection E as <- <-. left. split_and!; [by apply ext_same|done|]. unfold unadvanced, sequence_acknowledged.
       unfold op_ok in Ev. destruct (results d) as [|op rest]; [by left|]. cbn in Ev.
       destruct (bool_decide_reflect (op_status op = NFS4_OK)); [|left; apply andb_false_r]. cbn in Ev.
       right. exists op, rest. by rewrite Ev. }
  2: { exfalso. revert Ev. unfold op_ok. repeat case_match; try done. apply validate_sequence_no_panic. }
  apply obind_ok_inv in Ev as (op & Hop & Ev). unfold op_ok in Hop. destruct (results d) as [|op' rest] eqn:Er; [done|].
  cbn in Hop. destruct (negb _); [done|]. injection Hop as ->.
  unfold on in E. destruct (update_limits env _ _ _ w.1) as [x st1] eqn:El.
  destruct x; injection E as <- <-; [right|left..].
  1: split_and!; [|done..]. 1: eapply ext_one; [done|by econstructor].
  all: split_and!; [by apply ext_same|done|]; right; exists op, rest; rewrite Ev; split; [done|];
    exists s, w.1; by rewrite El.
Qed.

(** What a request leaves behind: one turn of the protocol. *)
Definition one_turn (w w' : W) : Prop := exists a, extends AIdle w a w' /\ (a = AEnd \/ a = AIdle).

Lemma one_turn_none w w' : w'.2 = w.2 -> one_turn w w'.
Proof using. intros H. exists AIdle. split; [by apply ext_same|by right]. Qed.
Lemma one_turn_drop a s slot w w1 : extends AIdle w a w1 ->
  spec_step a (EvDropped (session_id s) (slot_id slot) (disposition slot)) AEnd -> one_turn w (give_back env s slot w1).
Proof using. intros H1 H2. exists AEnd. split; [|by left]. eapply ext_trans; [exact H1|by apply give_back_ext]. Qed.

Lemma lost_dropped sid slot seq b p (r : result CompoundResponse) : is_ok r = false -> operation_class_of b <> ReadOnly ->
  spec_step (ASent sid slot seq b p r) (EvDropped sid slot Fence) AEnd.
Proof using.
  intros Hr Hc. replace Fence with (if bool_decide (operation_class_of b = ReadOnly) then Release else Fence); [by constructor|].
  by rewrite bool_decide_eq_false_2.
Qed.
Lemma lost_read_dropped sid slot seq b p (r : result CompoundResponse) : is_ok r = false -> operation_class_of b = ReadOnly ->
  spec_step (ASent sid slot seq b p r) (EvDropped sid slot Release) AEnd.
Proof using.
  intros Hr Hc. replace Release with (if bool_decide (operation_class_of b = ReadOnly) then Release else Fence); [by constructor|].
  by rewrite bool_decide_eq_true_2.
Qed.

Lemma send_ext s slot seq b p reply w w1 : w1.2 = w.2 ->
  extends AIdle w (ASent (session_id s) (slot_id slot) seq b p reply) (emit (EvSent (session_id s) (slot_id slot) seq b p reply) w1).
Proof using. intros H. eapply ext_one; [cbn; by rewrite H|constructor]. Qed.

(** The last events of a COMPOUND that was carried out. *)
Definition completed (b : CompoundBuilder) (w' : W) : Prop :=
  exists tr sid slot seq d, w'.2 = tr ++ [EvSent sid slot seq b None (Ok d); EvAdvanced sid slot; EvDropped sid slot Release] /\
    all_done b d = true.

(** Only an error of the server settles the fate of a recall that was answered. *)
Lemma recall_error_definite c ctx d : operation_outcome (recall_error c ctx d) = None -> resp_status d <> NFS4_OK.
Proof using.
  unfold recall_error, check_resp_status. case_bool_decide; [|done]. by destruct c.
Qed.

Lemma recall_return_turn build_ops w r w' : mutating build_ops -> send_recall_return build_ops w = (r, w') ->
  one_turn w w' /\ (r = Ok true -> exists s sq sl hi b, prepare auth s (build_ops (sequence (session_id s) sq sl hi (builder_new (of_str "recall_return")))) None = Ok b /\ completed b w').
Proof using HE.
  intros Hm. unfold send_recall_return. destruct (on (get_session env) w) as [s w0] eqn:E0. apply on_trace in E0.
  destruct (on (acquire_slot env s) w0) as [sl w1] eqn:E1. pose proof (on_trace _ _ _ _ E1) as T1.
  assert (T : w1.2 = w.2) by congruence.
  destruct sl as [slot|e|]; [|intros [= <- <-]; split; [by apply one_turn_none|done]..].
  assert (Hd : disposition slot = Release).
  { unfold on in E1. destruct (acquire_slot env s w0.1) as [x st] eqn:Ea. injection E1 as -> _. by eapply acquire_released. }
  match goal with |- context [prepare auth s ?b0 None] => set (b0' := b0); destruct (prepare auth s b0' None) as [b|e|] eqn:Ep end.
  2,3: intros [= <- <-]; split; [|done]; eapply one_turn_drop; [by apply ext_same|rewrite Hd; constructor].
  destruct (on (rpc_call _ _ _) w1) as [x w2] eqn:E2. apply on_trace in E2. cbn [slot_id fence_on_drop].
  set (reply := checked_reply _ _ _ _ x).
  set (w3 := emit _ w2). assert (H3 : extends AIdle w (ASent (session_id s) (slot_id slot) (sequence_id slot) b None reply) w3)
    by (apply send_ext; congruence).
  assert (Hf : operation_class_of b <> ReadOnly) by (rewrite (prepare_class _ _ _ _ Ep); apply Hm).
  destruct reply as [d|e|] eqn:Er.
  2,3: intros [= <- <-]; split; [|done]; eapply one_turn_drop; [exact H3|by apply lost_dropped].
  destruct (accept_sequence s (fence_on_drop slot) (sequence_id slot) d w3) as [ok w4] eqn:Ea.
  apply (accept_sequence_ext _ _ _ b) in Ea. cbn [slot_id fence_on_drop] in Ea.
  assert (Hend : exists a, extends AIdle w a w4 /\ forall y, (ok <> Ok true -> y = Fence \/ resp_status d <> NFS4_OK) ->
    spec_step a (EvDropped (session_id s) (slot_id slot) y) AEnd).
  { destruct Ea as [(Ha & Hne & Hu)|(Ha & _ & _)]; (eexists; split; [eapply ext_trans; [exact H3|exact Ha]|intros y Hy; constructor]).
    right. auto. }
  destruct Hend as (a & Ha & Hs).
  destruct ok as [ok|e|]; [|intros [= <- <-]; split; [eapply (one_turn_drop a); [done|apply Hs; by left]|done]..].
  destruct (all_done b d) eqn:Ead.
  - intros [= <- <-]. split; [eapply (one_turn_drop a); [done|destruct ok; apply Hs; [done|by left]]|]. intros [= ->].
    destruct Ea as [(_ & Hne & _)|(_ & _ & Ht)]; [done|]. exists s, (sequence_id slot), (slot_id slot), (highest_now env s w1.1), b.
    split; [exact Ep|]. exists w2.2, (session_id s), (slot_id slot), (sequence_id slot), d. split; [|done].
    cbn. rewrite Ht. cbn. by rewrite <- !app_assoc.
  - destruct (operation_outcome _) eqn:Eo; intros [= <- <-]; (split; [eapply (one_turn_drop a); [done|apply Hs; intros _]|done]);
      [by left|right; by eapply recall_error_definite].
Qed.
(** An acquired slot is given back to the table unless a request was lost. *)
Lemma acquired_release s w slot w1 : on (acquire_slot env s) w = (Ok slot, w1) -> disposition slot = Release.
Proof using HE.
  unfold on. destruct (acquire_slot env s w.1) as [x st] eqn:Ea. intros [= -> _]. by eapply acquire_released.
Qed.

(** The errors of the transport are not statuses of the server. *)
Context (transport_plain : forall buf p st, plain (fst (rpc_call env buf p st))).

Lemma on_call_plain buf p w x w' : on (rpc_call env buf p) w = (x, w') -> plain x.
Proof using transport_plain. unfold on. pose proof (transport_plain buf p w.1) as H. destruct (rpc_call _ _ _ _). by intros [= <- _]. Qed.

Lemma health_error_ill e : health_from_error e <> Healthy.
Proof using. unfold health_from_error. by repeat case_match. Qed.

Lemma renewal_validated d sid seq slot sq : validate_renewal_response d sid seq slot = Ok sq ->
  exists op, results d = [op] /\ validate_sequence_result op sid seq slot = Ok sq.
Proof using.
  unfold validate_renewal_response. intros (u & _ & H)%obind_ok_inv. destruct (negb _); [done|].
  destruct (length (results d) =? 1)%nat eqn:El; cbn [negb] in H; [|done]. apply Nat.eqb_eq in El.
  apply obind_ok_inv in H as (op & Hop & H). repeat (destruct (negb _); [done|]). exists op. split; [|done].
  unfold op_ok in Hop. destruct (results d) as [|o [|]]; [done| |done]. cbn in Hop. destruct (negb _); [done|]. by injection Hop as ->.
Qed.

Lemma validate_sequence_plain op sid seq slot : plain (validate_sequence_result op sid seq slot).
Proof using. unfold validate_sequence_result. plain. Qed.

Lemma renewal_no_panic d sid seq slot : validate_renewal_response d sid seq slot <> Panic.
Proof using.
  unfold validate_renewal_response, check_resp_status, op_ok.
  repeat (case_match; cbn [obind]; try done). apply validate_sequence_no_panic.
Qed.

(** A renewal is refused for the status of its reply, for its form, or for the
    identity of its SEQUENCE. *)
Lemma renewal_refused d sid seq slot e hi : let b := sequence sid seq slot hi (builder_new (of_str "renew")) in
  validate_renewal_response d sid seq slot = Err e ->
  background_unadvanced sid slot seq b d (match e with Nfs4 _ => Release | _ => Fence end).
Proof using.
  intros b. unfold validate_renewal_response, check_resp_status, background_unadvanced.
  destruct (sequence_acknowledged d) eqn:Ea; [|by left]. unfold sequence_acknowledged in Ea.
  destruct (results d) as [|op rest] eqn:Er; [done|]. apply andb_true_iff in Ea as [Ho Hk%bool_decide_eq_true].
  intros E. right. case_bool_decide as Hs; cbn [obind] in E.
  2: { injection E as <-. split; [right|by right]. intros (_ & Hl & (op' & Hlast & Hop) & _). rewrite Er in Hl, Hlast.
       destruct rest; [|cbn in Hl; lia]. injection Hlast as ->. congruence. }
  destruct (bool_decide_reflect (resp_tag d = of_str "renew")) as [Ht|Ht]; cbn [negb] in E.
  2: { injection E as <-. split; [right|by left]. by intros [? _]. }
  destruct (Nat.eqb_spec (length (op :: rest)) 1) as [Hl|Hl]; cbn [negb] in E.
  2: { injection E as <-. split; [right|by left]. intros (_ & Hle & _). rewrite Er in Hle. cbn in Hl, Hle. lia. }
  unfold op_ok in E. rewrite Er in E. cbn [lookup list_lookup] in E. rewrite bool_decide_eq_true_2 in E by done.
  cbn [negb obind] in E. rewrite Ho in E. cbn [negb] in E.
  destruct (Z.eqb_spec (remaining (op_data op)) 36) as [H36|H36]; cbn [negb] in E.
  2: { injection E as <-. split; [right|by left]. intros (_ & _ & _ & H). by eapply H36, H. }
  assert (He : forall st, e <> Nfs4 st).
  { intros st ->. by eapply validate_sequence_plain. }
  split; [left|destruct e; auto; by edestruct He]. right. exists op, rest. by rewrite E.
Qed.

(** One turn of the renewal keeps the protocol, and is healthy only when the server answered the SEQUENCE that was sent. *)
Lemma renew_turn w r w' : renew w = (r, w') ->
  one_turn w w' /\ (r = Ok Healthy -> exists tr sid slot seq b d op sq,
    w'.2 = tr ++ [EvSent sid slot seq b None (Ok d); EvAdvanced sid slot; EvDropped sid slot Release] /\
    results d = [op] /\ validate_sequence_result op sid seq slot = Ok sq).
Proof using HE transport_plain.
  unfold renew. destruct (on (get_session env) w) as [s w0] eqn:E0. apply on_trace in E0.
  destruct (on (acquire_slot env s) w0) as [sl w1] eqn:E1. pose proof (on_trace _ _ _ _ E1) as T1.
  assert (T : w1.2 = w.2) by congruence.
  destruct sl as [slot|e|].
  2: { intros [= <- <-]. split; [by apply one_turn_none|]. intros [= H]. by apply health_error_ill in H. }
  2: { intros [= <- <-]. split; [by apply one_turn_none|done]. }
  pose proof (acquired_release _ _ _ _ E1) as Hd. set (b := sequence _ _ _ _ _).
  assert (Hc : operation_class_of b <> ReadOnly) by done.
  destruct (enforce_max_operations b _).
  2,3: intros [= <- <-]; split; [|done]; eapply one_turn_drop; [by apply ext_same|rewrite Hd; constructor].
  destruct (on (rpc_call _ _ _) w1) as [x w2] eqn:E2. pose proof (on_call_plain _ _ _ _ _ E2) as Hp. apply on_trace in E2.
  cbn [slot_id fence_on_drop]. set (reply := obind x _).
  assert (Hr : plain reply) by (subst reply; plain).
  set (w3 := emit _ w2). assert (H3 : extends AIdle w (ASent (session_id s) (slot_id slot) (sequence_id slot) b None reply) w3)
    by (apply send_ext; congruence).
  destruct (obind reply _) as [sq|e|] eqn:Ev.
  - apply obind_ok_inv in Ev as (d & Ed & (op & Eop & Hop)%renewal_validated). rewrite Ed in H3.
    destruct (on (update_limits _ _ _ _) w3) as [y w4] eqn:E4. pose proof (on_trace _ _ _ _ E4) as T4.
    destruct y as [y|e|]; intros [= <- <-].
    2,3: split; [|done]; eapply one_turn_drop; [eapply ext_trans; [exact H3|by apply ext_same]|].
    2,3: apply sp_done; right; (split; [left|by left]); right; exists op, []; (split; [done|]); cbn [slot_id fence_on_drop]; rewrite Hop;
      exists s, w3.1; unfold on in E4; destruct (update_limits _ _ _ _ _) as [y' st'']; injection E4 as -> _; done.
    split.
    + eapply one_turn_drop; [eapply ext_trans; [exact H3|eapply ext_one; [cbn; by rewrite T4|by econstructor]]|constructor].
    + intros _. exists w2.2, (session_id s), (slot_id slot), (sequence_id slot), b, d, op, sq. split; [|done].
      cbn. rewrite T4. unfold w3. rewrite Ed. cbn. by rewrite <- !app_assoc.
  - intros [= <- <-]. split; [|intros [= H]; by apply health_error_ill in H].
    eapply one_turn_drop; [exact H3|]. destruct reply as [d|e'|]; [| |done].
    + pose proof (renewal_refused d _ _ _ e (highest_now env s w1.1) Ev) as H. destruct e; by apply sp_done.
    + injection Ev as ->. destruct e; try (by apply lost_dropped). by edestruct Hr.
  - intros [= <- <-]. split; [|done]. eapply one_turn_drop; [exact H3|]. destruct reply as [d| |]; [|done|by apply lost_dropped].
    exfalso. revert Ev. apply renewal_no_panic.
Qed.
(** *** Any number of turns *)

Definition turns (w w' : W) : Prop := exists trs, w'.2 = w.2 ++ concat trs /\
  Forall (fun tr => exists a, spec_run AIdle tr a /\ (a = AEnd \/ a = AIdle)) trs.

Lemma turns_none w w' : w'.2 = w.2 -> turns w w'.
Proof using. intros H. exists []. split; [by rewrite H, app_nil_r|constructor]. Qed.
Lemma turns_one w w' : one_turn w w' -> turns w w'.
Proof using.
  intros (a & (tr & Ht & Hr) & Ha). exists [tr]. cbn. rewrite app_nil_r. split; [done|]. repeat constructor. by exists a.
Qed.
Lemma turns_trans w w1 w2 : turns w w1 -> turns w1 w2 -> turns w w2.
Proof using.
  intros (t1 & E1 & H1) (t2 & E2 & H2). exists (t1 ++ t2). rewrite E2, E1, concat_app, app_assoc. split; [done|]. by apply Forall_app.
Qed.
Lemma turns_on {A} (f : St -> A * St) w a w1 w2 : on f w = (a, w1) -> turns w1 w2 -> turns w w2.
Proof using. intros H. apply turns_trans, turns_none. by eapply on_trace. Qed.
Lemma mgr_on_trace {A} (f : LayoutManager -> A * LayoutManager) w : (mgr_on f w).2.2 = w.2.
Proof using. unfold mgr_on. by destruct (f _). Qed.

Lemma delegreturn_mutating stateid fh : mutating (fun b => Compound41.delegreturn stateid (Compound41.putfh fh b)).
Proof using. by intros sid seq slot hi t. Qed.
Lemma return_ops_mutating dirty fh stateid m off len : mutating (return_ops dirty fh stateid m off len).
Proof using. intros sid seq slot hi t. by destruct dirty. Qed.

Lemma send_recall_turns build_ops w r w' : mutating build_ops -> send_recall_return build_ops w = (r, w') -> turns w w'.
Proof using HE. intros Hm E. by destruct (recall_return_turn _ _ _ _ Hm E) as [H%turns_one _]. Qed.

Lemma return_file_turns fh stateid m off len w r w' : return_file fh stateid m off len w = (r, w') -> turns w w'.
Proof using HE.
  unfold return_file. destruct (send_recall_return _ _) as [x w1] eqn:Es.
  apply send_recall_turns in Es; [|apply return_ops_mutating].
  intros E. eapply turns_trans; [exact Es|]. apply turns_none.
  destruct x as [b|e|]; [|by injection E as _ <-..].
  set (y := match snapshot_dirty _ _ with Some _ => _ | None => _ end) in E.
  assert (Hy : y.2.2 = w1.2) by (subst y; destruct (snapshot_dirty _ _); [destruct b|]; [apply mgr_on_trace|done..]).
  destruct y as [ack w2]. cbn in Hy. destruct (b && ack); [|by injection E as _ <-].
  pose proof (mgr_on_trace (fun m => remove_layout m fh) w2) as Hr.
  destruct (mgr_on _ w2) as [o w3]. injection E as _ <-. cbn in Hr. congruence.
Qed.

Lemma return_all_turns l w r w' : return_all l w = (r, w') -> turns w w'.
Proof using HE.
  revert w r w'. induction l as [|[fh layout] l IH]; intros w r w'; cbn [return_all]; [intros [= _ <-]; by apply turns_none|].
  destruct (return_file _ _ _ _ _ w) as [x w1] eqn:E1. apply return_file_turns in E1.
  destruct x; [|by intros [= _ <-]..]. intros E. eapply turns_trans; [exact E1|by eapply IH].
Qed.

Lemma handle_recall_turns n c w r w' : handle_recall n c w = (r, w') -> turns w w'.
Proof using HE.
  destruct n as [sid' tr fh|sid' fh off len m|]; cbn [handle_recall].
  - destruct (send_recall_return _ w) as [x w1] eqn:E1. intros [= _ <-]. by eapply send_recall_turns, E1; apply delegreturn_mutating.
  - destruct (return_file _ _ _ _ _ w) as [x w1] eqn:E1. intros [= _ <-]. by eapply return_file_turns.
  - destruct (return_all _ w) as [x w1] eqn:E1. intros [= _ <-]. by eapply return_all_turns.
Qed.

Lemma handle_recalls_turns l c w r w' : handle_recalls l c w = (r, w') -> turns w w'.
Proof using HE.
  revert c w. induction l as [|n l IH]; intros c w; cbn [handle_recalls]; [intros [= _ <-]; by apply turns_none|].
  destruct (handle_recall n c w) as [x w1] eqn:E1. apply handle_recall_turns in E1.
  destruct x; [|by intros [= _ <-]..]. intros E. eapply turns_trans; [exact E1|by eapply IH].
Qed.

Lemma renewal_turns sleep n h w r w' : renewal_task sleep n h w = (r, w') -> turns w w'.
Proof using HE transport_plain.
  revert h w. induction n as [|n IH]; intros h w; cbn [renewal_task]; [intros [= _ <-]; by apply turns_none|].
  destruct (renew (on_ sleep w)) as [x w1] eqn:E1. apply renew_turn in E1 as [E1%turns_one _].
  assert (E1' : turns w w1) by (eapply turns_trans, E1; by apply turns_none).
  destruct x; [|by intros [= _ <-]..]. intros E. eapply turns_trans; [exact E1'|by eapply IH].
Qed.

(** C13: the recall task and the renewal task, which do not go through the
    request engine, keep its slot protocol.  Whatever the transport answers,
    their events are a sequence of runs of the protocol, each of which ends with
    its slot given back: a request is sent on an acquired slot; a slot whose
    SEQUENCE was accepted under the sent identity moves on exactly once; it is
    given back without an advance only when the SEQUENCE was not accepted or was
    rejected, or when the reply does not answer the request; and a request whose
    reply was lost leaves its slot fenced. *)
Theorem background_keeps_protocol :
  (forall l c w r w', handle_recalls l c w = (r, w') -> turns w w') /\
  (forall sleep n h w r w', renewal_task sleep n h w = (r, w') -> turns w w').
Proof using HE transport_plain. split; [apply handle_recalls_turns|apply renewal_turns]. Qed.

(** *** Giving up a layout *)

Lemma prepare_tail s b b' : prepare auth s b None = Ok b' -> skipn 1 (ops b') = skipn 1 (ops b).
Proof using.
  intros (b1 & H1 & (x & _ & (y & _ & [= <-])%obind_ok_inv)%obind_ok_inv)%obind_ok_inv.
  unfold apply_sequence_cache_policy in H1. destruct (_ && _); [done|]. destruct (ops b) as [|o rest]; [done|].
  destruct (_ || _); [done|]. by injection H1 as <-.
Qed.

(** The manager is a part of the state of its own. *)
Context (manager_lens : forall m st, manager_of (set_manager m st) = m).

Lemma mgr_on_manager {A} (f : LayoutManager -> A * LayoutManager) w a w1 :
  mgr_on f w = (a, w1) -> f (manager_of w.1) = (a, manager_of w1.1) /\ w1.2 = w.2.
Proof using manager_lens. unfold mgr_on. destruct (f _). intros [= -> <-]. cbn. by rewrite manager_lens. Qed.

Lemma acknowledged m fh d a m' : acknowledge_dirty m fh d = (a, m') ->
  (a = true -> snapshot_dirty m' fh = None) /\ (a = false -> m' = m).
Proof using.
  unfold acknowledge_dirty. destruct (_ && _) eqn:E; intros [= <- <-]; (split; [intros|done]); try done.
  unfold snapshot_dirty. cbn. by rewrite lookup_delete_eq.
Qed.

(** C12: a recalled layout is given up only after the server has carried out, as
    one COMPOUND and completely, the commit of what was written through it and its
    return; the range is then no longer dirty and the layout is no longer used.
    When the request or one of its operations fails, or more was written
    meanwhile, the layouts and the dirty ranges stay as the request left them. *)
Theorem recalled_layout_given_up fh stateid m off len w x w' : return_file fh stateid m off len w = (Ok x, w') ->
  let w0 := on_ (file_gate fh) w in
  let dirty := snapshot_dirty (manager_of w0.1) fh in
  if x
  then (exists b, skipn 1 (ops b) = ops (return_ops dirty fh stateid m off len (builder_new [])) /\ completed b w') /\
       get_layout (manager_of w'.1) fh = None /\ (dirty <> None -> snapshot_dirty (manager_of w'.1) fh = None)
  else exists y w1, send_recall_return (return_ops dirty fh stateid m off len) w0 = (Ok y, w1) /\ manager_of w'.1 = manager_of w1.1.
Proof using HE manager_lens.
  unfold return_file. set (w0 := on_ _ w). set (dirty := snapshot_dirty _ _).
  destruct (send_recall_return _ w0) as [y w1] eqn:Es. destruct y as [y|e|]; [|done..].
  pose proof (recall_return_turn _ _ _ _ (return_ops_mutating dirty fh stateid m off len) Es) as [_ Hdone].
  set (z := match dirty with Some _ => _ | None => _ end).
  assert (Hz : z.2.2 = w1.2 /\ (z.1 && y = true -> dirty <> None -> snapshot_dirty (manager_of z.2.1) fh = None) /\
    (y && z.1 = false -> manager_of z.2.1 = manager_of w1.1)).
  { subst z. destruct dirty as [d|]; [destruct y|]; [|split_and!; [done|by cbn|done]|split_and!; [done|by intros|done]].
    destruct (mgr_on (fun m => acknowledge_dirty m fh d) w1) as [a w2] eqn:Em. apply mgr_on_manager in Em as [[H1 H2]%acknowledged Ht2]. cbn [fst snd andb].
    split_and!; [done|intros [-> _]%andb_true_iff _; by apply H1|by apply H2]. }
  destruct z as [ack w2]. cbn [fst snd] in Hz. destruct Hz as (Ht & Hok & Hno).
  destruct (y && ack) eqn:Ey.
  - destruct (mgr_on (fun m => remove_layout m fh) w2) as [o w3] eqn:Em. apply mgr_on_manager in Em as [Hm Ht3]. intros [= <- <-].
    apply andb_true_iff in Ey as [-> ->]. injection Hm as _ Hm.
    destruct (Hdone eq_refl) as (s & sq & sl & hi & b & Hp%prepare_tail & tr & sid & slot & seq & d & Hw & Hd).
    split_and!; [exists b; split; [by rewrite Hp; destruct dirty|]| |].
    + exists tr, sid, slot, seq, d. split; [|done]. congruence.
    + rewrite <- Hm. unfold get_layout. cbn. by rewrite lookup_delete_eq.
    + intros Hn. rewrite <- Hm. exact (Hok eq_refl Hn).
  - intros [= <- <-]. exists y, w1. split; [done|]. by apply Hno.
Qed.

(** *** What a mount has checked *)

Lemma bound_connection response sid direction : validate_bound_connection response sid = Ok direction ->
  exists d rest op tail, decode_response response = Ok (d, rest) /\ op_ok d 0 = Ok op /\
    op_data op = sid ++ be_bytes 4 direction ++ tail /\ Z.testbit direction 1 = true.
Proof using.
  unfold validate_bound_connection. intros ([d rest] & Ed & (op & Eo & (u & Hr & H)%obind_ok_inv)%obind_ok_inv)%obind_ok_inv.
  apply obind_ok_inv in H as ([sid' data] & [Hs Hl]%split_to_inv & ([v tail] & Hv & H)%obind_ok_inv); [|lia].
  destruct (bool_decide_reflect (sid' = sid)) as [->|]; cbn [negb] in H; [|done].
  destruct (Z.eqb_spec (Z.land v 2) 0) as [|Hb]; [done|]. injection H as ->.
  apply get_u32_inv in Hv as [_ ->]. exists d, rest, op, tail. split_and!; [done..|].
  destruct (Z.testbit direction 1) eqn:Et; [done|]. exfalso. apply Hb. change 2 with (2 ^ 1). apply Z.bits_inj'. intros n Hn.
  rewrite Z.land_spec, Z.bits_0, Z.pow2_bits_eqb by lia.
  destruct (Z.eqb_spec 1 n) as [<-|]; [by rewrite Et|by rewrite andb_false_r].
Qed.

Lemma mount_on_addr_bound a path rb np rt w m w' : mount_on_addr41 a path rb np rt w = (Ok m, w') ->
  mt_callback m = new_negotiated (session_id (mt_session m)) (s_generation (mt_session m)) (backchannel_max_requests (mt_session m))
    (backchannel_max_request_size (mt_session m)) (backchannel_max_operations (mt_session m)) (s_minor_version (mt_session m)) /\
  s_generation (mt_session m) = 1 /\ exists st response st', rpc_call env (bind_connection_request (session_id (mt_session m)) (s_minor_version (mt_session m))) None st =
    (Ok response, st') /\ validate_bound_connection response (session_id (mt_session m)) = Ok (mt_direction m).
Proof using.
  unfold mount_on_addr41. destruct (on (connect a np) w) as [[[]|e|] w1]; [|done..].
  destruct (on (establish env) w1) as [[raw|e|] w2]; [|done..]. set (s := inner (holder_new raw)).
  destruct (navigate_to_export s path w2) as [[fh|e|] w3]; [|done..].
  destruct (fetch_fs_limits s fh w3) as [[[[[rs ws] iv] acl]|e|] w4]; [|done..].
  destruct (directory_reply_limits _ _) as [dc mc]. destruct (on (bind_connection s) w4) as [x w5] eqn:Eb.
  intros [= (dir & -> & [= <-])%obind_ok_inv <-]. cbn [mt_session mt_callback mt_direction]. split; [done|]. split; [done|].
  unfold on, bind_connection in Eb. destruct (rpc_call _ _ _ w4.1) as [resp st'] eqn:Ec.
  injection Eb as (response & -> & Hv)%obind_ok_inv _. by exists w4.1, response, st'.
Qed.

Lemma mount_addrs_first addrs e path rb np rt w m w' : mount_addrs41 addrs e path rb np rt w = (Ok m, w') ->
  exists before addr after e0 w0, addrs = before ++ addr :: after /\ mount_addrs41 before e path rb np rt w = (Err e0, w0) /\
    mount_on_addr41 addr path rb np rt w0 = (Ok m, w').
Proof using.
  revert e w. induction addrs as [|a addrs IH]; intros e w; cbn [mount_addrs41]; [done|].
  destruct (mount_on_addr41 a _ _ _ _ w) as [x w1] eqn:E1. destruct x as [m'|e'|].
  - intros [= -> ->]. by eexists [], a, addrs, _, w.
  - intros (before & addr & after & e0 & w0 & -> & H1 & H2)%IH. exists (a :: before), addr, after, e0, w0.
    split_and!; [done| |done]. cbn [mount_addrs41]. by rewrite E1.
  - done.
Qed.

(** A mount succeeds on the first address of the name that works: the
    addresses before it fail on their own.  The session it returns is the one
    that the server bound to the connection, both directions of it: the reply
    to BIND_CONN_TO_SESSION repeats the identifier of the session and grants the
    back channel, and the callback state is set up for that session, in the first
    generation. *)
Theorem mount_binds_both_directions resolved path rb np rt w m w' : mount41 resolved path rb np rt w = (Ok m, w') ->
  (exists before addr after e w0, resolved = Ok (before ++ addr :: after) /\
     mount41 (Ok before) path rb np rt w = (Err e, w0) /\ mount_on_addr41 addr path rb np rt w0 = (Ok m, w')) /\
  cb_session_id (mt_callback m) = session_id (mt_session m) /\ cb_generation (mt_callback m) = s_generation (mt_session m) /\ s_generation (mt_session m) = 1 /\
  (exists st response st' d rest op tail,
     rpc_call env (bind_connection_request (session_id (mt_session m)) (s_minor_version (mt_session m))) None st = (Ok response, st') /\
     decode_response response = Ok (d, rest) /\ op_ok d 0 = Ok op /\
     op_data op = session_id (mt_session m) ++ be_bytes 4 (mt_direction m) ++ tail) /\
  Z.testbit (mt_direction m) 1 = true.
Proof using.
  unfold mount41. destruct resolved as [addrs|e|]; [|done..].
  intros (before & addr & after & e0 & w0 & -> & H1 & H2)%mount_addrs_first.
  pose proof (mount_on_addr_bound _ _ _ _ _ _ _ _ H2) as (Hcb & Hgen & st & response & st' & Hc & (d & rest & op & tail & Hd & Ho & Hb & Ht)%bound_connection).
  rewrite Hcb. split_and!; [by eexists before, addr, after, _, w0|done..| |done].
  by exists st, response, st', d, rest, op, tail.
Qed.
End Background.

(** ** A client with a layout *)

(** The state of a client beside a layout manager. *)
Definition on_client {X St A} (f : St -> A * St) (st : X * St) : A * (X * St) := let '(a, c) := f st.2 in (a, (st.1, c)).
Definition beside (X : Type) {St : Type} (env : Env St) : Env (X * St) := {|
  get_session := on_client (get_session env);
  acquire_slot s := on_client (acquire_slot env s);
  sequence_now s slot st := sequence_now env s slot st.2;
  highest_now s st := highest_now env s st.2;
  update_limits s h t := on_client (update_limits env s h t);
  advance_now s slot st := (st.1, advance_now env s slot st.2);
  drop_now s slot st := (st.1, drop_now env s slot st.2);
  rpc_call b p := on_client (rpc_call env b p);
  budget_backoff c e := on_client (budget_backoff env c e);
  seq_action a st := (st.1, seq_action env a st.2);
  establish := on_client (establish env);
  transition g st := (st.1, transition env g st.2);
  publish_session g s := on_client (publish_session env g s);
  show_error := show_error env;
|}.

Lemma on_client_state {X St A} (f : St -> A * St) (st : X * St) a st' : on_client f st = (a, st') -> f st.2 = (a, st'.2).
Proof. unfold on_client. destruct (f _). by intros [= -> <-]. Qed.
Lemma on_client_snd {X St A} (f : St -> A * St) (st : X * St) : (snd (on_client f st)).2 = snd (f st.2).
Proof. unfold on_client. by destruct (f _). Qed.

#[global] Instance beside_laws X {St} (env : Env St) `{HE : !EnvLaws env} : EnvLaws (beside X env).
Proof.
  refine {| budget_left := fun st => budget_left st.2 |}; cbn; intros *; rewrite ?on_client_snd.
  1: intros ?%on_client_state; by eapply backoff_spends.
  11: intros ?%on_client_state; by eapply acquire_released.
  1: apply get_session_budget. 1: apply acquire_budget. 1: apply limits_budget. 1: apply advance_budget. 1: apply drop_budget.
  1: apply call_budget. 1: apply action_budget. 1: apply establish_budget. 1: apply transition_budget. apply publish_budget.
Defined.

(** A client whose transport reports every failure as a lost connection, beside
    a layout manager. *)
Definition wired_call (b : bytes) (p : option bytes) (st : Local) : result bytes * Local :=
  let '(r, st) := lc_call b p st in (map_err (fun _ => Io ConnectionReset (IoMessage "connection lost")) r, st).
Definition wired : Env Local :=
  {| get_session := get_session local_env; acquire_slot := acquire_slot local_env; sequence_now := sequence_now local_env;
     highest_now := highest_now local_env; update_limits := update_limits local_env; advance_now := advance_now local_env;
     drop_now := drop_now local_env; rpc_call := wired_call; budget_backoff := budget_backoff local_env;
     seq_action := seq_action local_env; establish := establish local_env; transition := transition local_env;
     publish_session := publish_session local_env; show_error := show_error local_env |}.
Lemma wired_call_left b p st : lc_left (snd (wired_call b p st)) = lc_left (snd (lc_call b p st)).
Proof. unfold wired_call. by destruct (lc_call b p st). Qed.
#[global] Instance wired_laws : EnvLaws wired.
Proof.
  refine {| budget_left := lc_left |}; cbn; try exact (fun st => le_n _); try exact (fun _ st => le_n _); try exact (fun _ _ st => le_n _).
  - exact (@backoff_spends _ _ local_laws).
  - exact (@acquire_budget _ _ local_laws).
  - exact (@limits_budget _ _ local_laws).
  - intros b p st. rewrite wired_call_left. exact (@call_budget _ _ local_laws b p st).
  - exact (@establish_budget _ _ local_laws).
  - exact (@publish_budget _ _ local_laws).
  - exact (@acquire_released _ _ local_laws).
Defined.

Definition client : Env (LayoutManager * Local) := beside LayoutManager wired.
Lemma client_plain buf p st : plain (fst (rpc_call client buf p st)).
Proof.
  cbn. unfold on_client, wired_call. destruct (lc_call buf p st.2) as [r c]. cbn. by destruct r.
Qed.
Definition put_manager (m : LayoutManager) (st : LayoutManager * Local) : LayoutManager * Local := (m, st.2).
Definition no_gate (_ : bytes) (st : LayoutManager * Local) : LayoutManager * Local := st.

(** A layout of which a part was written and not committed, and a write that was
    retained for a second attempt. *)
Definition written_manager : LayoutManager :=
  {| layouts := {[ zeros 4 := demo_layout 0 100 ]}; data_servers := ∅; device_cache := ∅; device_revision := 0;
     dirty := {[ zeros 4 := {| dr_generation := 1; dr_start := 8; dr_end := 24; revision := 0 |} ]};
     pending_writes := {[ zeros 4 := [5%nat] ]}; degenerate_logged := false; unreachable_ds := ∅; noresvport := false;
     active_generation := 1 |}.
(** SEQUENCE, PUTFH, LAYOUTCOMMIT and LAYOUTRETURN succeed. *)
Definition reply_returned : bytes :=
  reply_header 0 4 ++ reply_sequence_ok 1 ++ be_bytes 4 22 ++ be_bytes 4 0 ++ be_bytes 4 49 ++ be_bytes 4 0 ++ be_bytes 4 0 ++
  be_bytes 4 51 ++ be_bytes 4 0 ++ be_bytes 4 0.
Definition client_with (replies : list (result bytes)) (sessions : list (result Session)) : LayoutManager * Local :=
  (written_manager, {| lc_holder := lc_holder demo_local; lc_budget := lc_budget demo_local; lc_replies := replies; lc_sessions := sessions |}).

Definition demo_recall : result RecallStats * ((LayoutManager * Local) * list event) :=
  handle_recalls client new_null fst put_manager no_gate [LayoutFile (zeros 16) (zeros 4) 0 100 1]
    {| recalls_received := 0; returns_completed := 0 |} (client_with [Ok reply_returned] [], []).

Example demo_recall_done : demo_recall.1 = Ok {| recalls_received := 1; returns_completed := 1 |}.
Proof. vm_compute. reflexivity. Qed.

(** The layout is returned although a retained write was not settled: nothing on
    this path looks at the retained writes, and the next attempt has no layout
    to commit through. *)
Example retained_write_outlives_layout :
  let m := fst demo_recall.2.1 in
  get_layout m (zeros 4) = None /\ snapshot_dirty m (zeros 4) = None /\ get_pending_writes m (zeros 4) = [5%nat].
Proof. vm_compute. done. Qed.

Lemma recalled_layout_given_up_witness : get_layout (fst demo_recall.2.1) (zeros 4) = None.
Proof.
  assert (E : return_file client new_null fst put_manager no_gate (zeros 4) (zeros 16) 1 0 100 (client_with [Ok reply_returned] [], []) =
    (Ok true, demo_recall.2)).
  { by vm_compute. }
  apply (recalled_layout_given_up client new_null fst put_manager no_gate (fun m st => eq_refl)) in E as (_ & H & _). exact H.
Defined.

(** Two addresses, of which the first refuses the connection. *)
Definition connects (a np : bool) (st : LayoutManager * Local) : result () * (LayoutManager * Local) :=
  (if a then Ok () else Err (Io ConnectionRefused (IoMessage "refused")), st).
Definition reply_sequence_at (seq : Z) : bytes :=
  be_bytes 4 53 ++ be_bytes 4 0 ++ zeros 16 ++ be_bytes 4 seq ++ zeros 16.
Definition wide_session : Session :=
  {| s_minor_version := V1; s_generation := 1; session_id := zeros 16; client_id := 7; slot_table := new 1;
     s_max_request_size := 65536; s_max_response_size := 65536; s_max_cached_response_size := 4096; s_max_operations := 16;
     backchannel_max_requests := 1; backchannel_max_request_size := 4096; backchannel_max_operations := 2; s_pnfs_mds := false |}.
Definition mount_replies : list (result bytes) :=
  [Ok (reply_header 0 4 ++ reply_sequence_at 1 ++ be_bytes 4 24 ++ be_bytes 4 0 ++ be_bytes 4 15 ++ be_bytes 4 0 ++
       be_bytes 4 10 ++ be_bytes 4 0 ++ xdr_opaque (of_str "root"));
   Ok (reply_header 0 3 ++ reply_sequence_at 2 ++ be_bytes 4 22 ++ be_bytes 4 0 ++ be_bytes 4 9 ++ be_bytes 4 0 ++
       xdr_bitmap fs_limits_bitmap ++
       xdr_opaque (be_bytes 4 1 ++ be_bytes 4 4096 ++ be_bytes 4 90 ++ be_bytes 8 32768 ++ be_bytes 8 16384));
   Ok (reply_header 0 1 ++ be_bytes 4 41 ++ be_bytes 4 0 ++ zeros 16 ++ be_bytes 4 3 ++ be_bytes 4 0)].
Definition demo_mount : result Mounted41 * ((LayoutManager * Local) * list event) :=
  mount41 client new_null connects (Ok [false; true]) (of_str "/export") None false false (client_with mount_replies [Ok wide_session], []).
Definition demo_mounted : option Mounted41 := match demo_mount.1 with Ok m => Some m | _ => None end.
Example demo_mount_done :
  option_map (fun m => (mt_root_fh m, (mt_rsize m, mt_wsize m, mt_direction m, mt_acl_supported m))) demo_mounted =
  Some (of_str "root", (32768, 16384, 3, true)).
Proof. vm_compute. reflexivity. Qed.

(** A renewal whose SEQUENCE is answered, and one whose reply is lost. *)
Definition demo_renewal : result LeaseHealth * ((LayoutManager * Local) * list event) :=
  renewal_task client new_null (fun st => st) 2 Healthy
    (client_with [Ok (be_bytes 4 0 ++ xdr_opaque (of_str "renew") ++ be_bytes 4 1 ++ reply_sequence_ok 1)] [], []).
Example demo_renewal_events :
  map event_digest demo_renewal.2.2 = [(0, 1, true); (1, 0, true); (2, 0, true); (0, 2, false); (2, 0, false)].
Proof. vm_compute. reflexivity. Qed.

(** The report after a restart moves the slot on for a SEQUENCE result of another
    session and slot, where the engine would fence the slot; a lost reply fences it. *)
Definition foreign_sequence : bytes :=
  be_bytes 4 53 ++ be_bytes 4 0 ++ repeat Byte.xff 16 ++ be_bytes 4 77 ++ be_bytes 4 5 ++ be_bytes 4 0 ++ be_bytes 4 0 ++ be_bytes 4 0.
Definition demo_reclaim (replies : list (result bytes)) : list event :=
  (reclaim_complete_task client new_null (fun st => st) (client_with replies [], [])).2.2.
Example reclaim_task_advances_unvalidated :
  map event_digest (demo_reclaim [Ok (reply_header 0 2 ++ foreign_sequence ++ be_bytes 4 58 ++ be_bytes 4 0)]) =
    [(0, 1, true); (1, 0, true); (2, 0, true)] /\
  map event_digest (demo_reclaim []) = [(0, 1, false); (2, 0, false)].
Proof. vm_compute. done. Qed.

(** A request of the set-up whose second operation fails gives its slot back
    under the sequence number that the server has already used. *)
Definition demo_failed_mount : list event :=
  (navigate_to_export client new_null wide_session (of_str "/export")
     (client_with [Ok (reply_header 2 3 ++ reply_sequence_at 1 ++ be_bytes 4 24 ++ be_bytes 4 0 ++ be_bytes 4 15 ++ be_bytes 4 2)] [], [])).2.2.
Example bootstrap_releases_used_sequence : map event_digest demo_failed_mount = [(0, 1, true); (2, 0, true)].
Proof. vm_compute. reflexivity. Qed.

#[local] Strategy expand [demo_mount demo_recall demo_renewal].
Lemma paired {A B} (p : A * B) {a} : p.1 = a -> p = (a, p.2).
Proof. destruct p. by intros <-. Qed.
Lemma demo_mount_ok : exists m, demo_mount.1 = Ok m.
Proof. eexists. vm_compute. reflexivity. Qed.

Lemma mount_binds_both_directions_witness : exists m, demo_mount.1 = Ok m /\ cb_session_id (mt_callback m) = session_id (mt_session m) /\
  Z.testbit (mt_direction m) 1 = true.
Proof.
  destruct demo_mount_ok as [m E]. exists m. split; [exact E|].
  destruct (mount_binds_both_directions client new_null connects (Ok [false; true]) (of_str "/export") None false false
    (client_with mount_replies [Ok wide_session], []) m demo_mount.2 (paired demo_mount E)) as (_ & H1 & _ & _ & _ & H2).
  split; [exact H1|exact H2].
Defined.

Lemma background_keeps_protocol_witness :
  turns client (client_with [Ok reply_returned] [], []) demo_recall.2 /\ turns client (client_with [] [], []) demo_renewal.2.
Proof.
  destruct (background_keeps_protocol client new_null fst put_manager no_gate client_plain) as (H1 & H2).
  split; [exact (H1 _ _ _ _ _ (paired demo_recall eq_refl))|exact (H2 _ _ _ _ _ _ (paired demo_renewal eq_refl))].
Defined.
