(* ===== verification/Teardown41.v ===== *)
(** * Unmounting an NFSv4.1 mount

    Models [Mount41::teardown], [decode_destroy_response]
    ([src/src/nfs41/mount.rs]) and [DsConnection::destroy]
    ([src/src/nfs41/layout.rs]) over the world of [Pnfs41].  The theorem shows that
    an unmount makes every request it owes the servers, whatever fails, and
    reports success only when all of them succeeded. *)
From S2P Require Import Prelude Errors Xdr4 Acl4 Session Compound41 V42 Response41 State41 Layout Device LayoutMgr PnfsIo Ops41 MountTrait Pnfs41.
From stdpp Require Import base list numbers strings gmap.
#[local] Open Scope Z_scope.
#[local] Open Scope sm_scope.

Definition decode_destroy_response (data : bytes) (expected_opcode : Z) : result () :=
  let* (reply, _) := decode_response data in
  let* _ := check_resp_status reply in
  let* operation := op_ok reply 0 in
  if negb (length (results reply) =? 1)%nat || negb (op_opcode operation =? expected_opcode)
     || negb (bool_decide (op_data operation = []))
  then Err (Xdr "invalid destroy COMPOUND response")
  else Ok ().

Section Teardown.
Context {Y : Type}.
#[local] Notation W := (@Mount41 (Pnfs Y)).
#[local] Notation PM := (SM W).

(** Stopping the background tasks, the current session, calls without a session
    to the metadata server and to a data server, closing the transport. *)
Record ClosingOps : Type := {
  stop_tasks : W -> W;
  current_session : W -> Session;
  call_mds : bytes -> PM bytes;
  call_ds : DsConnection -> bytes -> PM bytes;
  shutdown : W -> W;
}.
Context (cfg : Config) (eng : @Engine (Pnfs Y)) (ds : @DsOps Y) (server_addr : SocketAddr) (show_addr : SocketAddr -> string).
Context (auth : Auth) (closing : ClosingOps).

Definition destroy_session_request (t : string) (s : Session) : bytes :=
  encode_with_header (destroy_session (session_id s) (builder_new (of_str t))) auth (s_minor_version s).
Definition destroy_client_request (t : string) (s : Session) : bytes :=
  encode_with_header (destroy_client_id (client_id s) (builder_new (of_str t))) auth (s_minor_version s).

(** [DsConnection::destroy] *)
Definition ds_destroy (c : DsConnection) : PM () :=
  let! _ := caught (call_ds closing c (destroy_session_request "ds_destroy_session" (ds_session c))) in
  let! _ := caught (call_ds closing c (destroy_client_request "ds_destroy_clientid" (ds_session c))) in
  ret ().

Fixpoint destroy_connections (l : list (SocketAddr * DsConnection)) : PM () :=
  match l with
  | [] => ret ()
  | (_, c) :: l => let! _ := ds_destroy c in destroy_connections l
  end.

(** [failure.get_or_insert(error)] *)
Definition note {A} (failure : option NfsError) (r : result A) : option NfsError :=
  match failure, r with
  | Some e, _ => Some e
  | None, Err e => Some e
  | None, _ => None
  end.

Definition close_ops (fh : bytes) (sid : StateId) (b : CompoundBuilder) : CompoundBuilder :=
  Compound41.close 0 (raw sid) (Compound41.putfh fh (Compound41.require_generation b (generation sid))).
Fixpoint close_files (l : list (bytes * StateId)) (failure : option NfsError) : PM (option NfsError) :=
  match l with
  | [] => ret failure
  | (fh, sid) :: l =>
      let! r := caught (let! reply := compound eng "close" (close_ops fh sid) in raise (op_ok reply 2)) in
      close_files l (note failure r)
  end.

(** A bare COMPOUND with one operation that destroys the session or the client. *)
Definition destroy (request : bytes) (opcode : Z) (failure : option NfsError) : PM (option NfsError) :=
  let! r := caught (let! reply := call_mds closing request in raise (decode_destroy_response reply opcode)) in
  ret (note failure r).

(** An error of an abandoned write. *)
Definition recorded_error (w : W) : option NfsError :=
  WriteOwner.any_error (m_writes w).

Definition teardown : PM () :=
  let! _ := (fun w => (Ok (), stop_tasks closing w)) in
  let! r := caught (layoutreturn_all cfg eng ds server_addr show_addr) in
  let failure := note None r in
  let! open_files := (fun w => let '(l, s) := drain (m_state w) in (Ok l, set_state w s)) in
  let! failure := close_files open_files failure in
  let! servers := mgr_call drain_data_servers in
  let! _ := destroy_connections servers in
  let! s := asks (current_session closing) in
  let! failure := destroy (destroy_session_request "destroy_session" s) 44 failure in
  let! failure := destroy (destroy_client_request "destroy_clientid" s) 57 failure in
  let! _ := (fun w => (Ok (), shutdown closing w)) in
  let! e := asks recorded_error in
  match e, failure with
  | Some e, _ => fail e
  | None, Some e => fail e
  | None, None => ret ()
  end.

(** ** What an unmount sends *)

Inductive request : Type :=
| QCompound (t : bytes) (b : CompoundBuilder) (r : result CompoundResponse)
| QBare (buf : bytes) (r : result bytes)
| QDs (c : DsConnection) (buf : bytes) (r : result bytes).

(** [log] records the requests of the world in order. *)
Class Logged (log : W -> list request) : Prop := {
  lg_local : forall w x, pn_ext x = pn_ext (m_ext w) -> log (set_ext w x) = log w;
  lg_state : forall w s, log (set_state w s) = log w;
  lg_waits : forall w, log (waits ds w) = log w;
  lg_stop : forall w, log (stop_tasks closing w) = log w;
  lg_shutdown : forall w, log (shutdown closing w) = log w;
  lg_connect : forall a w, log w `prefix_of` log (snd (connect_ds ds a w));
  lg_compound_ds : forall c d t b w, log w `prefix_of` log (snd (compound_ds ds c d t b w));
  lg_compound : forall d t b w, log (snd (engine_compound eng d None t b w)) =
    log w ++ [QCompound t (b (builder_new [])) (fst (engine_compound eng d None t b w))];
  lg_call_mds : forall buf w, log (snd (call_mds closing buf w)) = log w ++ [QBare buf (fst (call_mds closing buf w))];
  lg_call_ds : forall c buf w, log (snd (call_ds closing c buf w)) = log w ++ [QDs c buf (fst (call_ds closing c buf w))];
}.
Context (log : W -> list request) `{HL : !Logged log}.

(** The requests so far stay where they are. *)
#[local] Notation since l := (fun w : W => l `prefix_of` log w).

Lemma since_local l (w : W) x : l `prefix_of` log w -> pn_ext x = pn_ext (m_ext w) -> l `prefix_of` log (set_ext w x).
Proof using HL. intros H Hx. by rewrite lg_local. Qed.
Lemma since_compound l d t b : keeps (since l) (engine_compound eng d None t b).
Proof using HL. intros w Hw. rewrite lg_compound. by apply prefix_app_r. Qed.

#[local] Instance since_rely l : RelyCommit eng ds server_addr show_addr (fun _ _ => True) (fun _ _ => True) (since l).
Proof using HL.
  split; [split|..]; intros; try done; try (solve [by apply since_local]); try (solve [by apply since_compound]).
  - by rewrite lg_waits.
  - intros w Hw. etrans; [exact Hw|apply lg_connect].
  - intros w Hw. etrans; [exact Hw|apply lg_compound_ds].
  - apply since_local; [|done]. pose proof (lg_connect a w) as Hc. rewrite H in Hc. by etrans.
  - intros w Hw. etrans; [exact Hw|apply lg_compound_ds].
Qed.

Lemma return_file_since l fh : keeps (since l) (layoutreturn_file cfg eng ds server_addr show_addr fh).
Proof using HL.
  unfold layoutreturn_file. apply keeps_andthen; [by eapply keeps_flush, since_rely|intros _].
  apply keeps_andthen; [apply keeps_asks|intros [layout|]]; [|apply keeps_ret].
  apply keeps_andthen; [apply since_compound|intros resp]. apply keeps_andthen; [apply keeps_raise|intros _].
  apply keeps_andthen; [apply keeps_raise|intros _]. apply keeps_andthen; [|intros _; apply keeps_ret].
  intros w Hw. by apply since_local.
Qed.
Lemma return_all_since l : keeps (since l) (layoutreturn_all cfg eng ds server_addr show_addr).
Proof using HL.
  apply keeps_andthen; [apply keeps_asks|intros fhs]. generalize (@None NfsError).
  induction fhs as [|fh fhs IH]; intros f; cbn [return_layouts]; [destruct f; [apply keeps_fail|apply keeps_ret]|].
  apply keeps_andthen; [intros w Hw; cbn; by rewrite lg_waits|intros _].
  apply keeps_andthen; [apply keeps_caught, return_file_since|intros r]. apply IH.
Qed.

(** *** The stages *)

Lemma note_none {A} f (r : result A) : r <> Panic -> note f r = None <-> f = None /\ is_ok r = true.
Proof using. destruct f, r; cbn; intros; split; try done; by intros []. Qed.

(** The CLOSE of an open file, and that it was carried out. *)
Definition is_close (x : bytes * StateId) (q : request) : Prop :=
  exists r, q = QCompound (of_str "close") (close_ops x.1 x.2 (builder_new [])) r.
Definition close_ok (q : request) : Prop := exists t b d, q = QCompound t b (Ok d) /\ is_ok (op_ok d 2) = true.

Lemma close_files_log l : forall f w f' w', close_files l f w = (Ok f', w') ->
  exists qs, log w' = log w ++ qs /\ Forall2 is_close l qs /\ (f' = None <-> f = None /\ Forall close_ok qs).
Proof using HL.
  induction l as [|[fh sid] l IH]; intros f w f' w'; cbn [close_files].
  { intros [= <- <-]. exists []. rewrite app_nil_r. split_and!; [done..|]. split; [by split|by intros []]. }
  intros (x & w1 & E1 & (qs & Hl & Hf & Hn)%IH)%andthen_ok. unfold caught, andthen, raise, compound in E1.
  pose proof (lg_compound None (of_str "close") (close_ops fh sid) w) as Hlog.
  destruct (engine_compound _ _ _ _ _ w) as [y w2]. cbn in Hlog. exists (QCompound (of_str "close") (close_ops fh sid (builder_new [])) y :: qs).
  assert (Hx : w1 = w2 /\ x <> Panic /\ (is_ok x = true <-> close_ok (QCompound (of_str "close") (close_ops fh sid (builder_new [])) y))).
  { unfold close_ok. destruct y as [d|e|]; [destruct (op_ok d 2) eqn:E2|..]; try done; injection E1 as <- <-; split_and!; try done;
      (split; [intros; try done; by exists (of_str "close"), (close_ops fh sid (builder_new [])), d; rewrite E2|]);
      intros (t & b & d' & [= <- <- <-] & H) || intros (t & b & d' & [=] & H); by rewrite ?E2 in H. }
  destruct Hx as (-> & Hp & Hok). split_and!.
  - by rewrite Hl, Hlog, <- app_assoc.
  - constructor; [by eexists|done].
  - rewrite Hn, (note_none f x Hp), Forall_cons, <- Hok. split; [by intros [[? ?] ?]|by intros [? [? ?]]].
Qed.

(** The two requests of a connection to a data server. *)
Definition is_ds_destroy (c : DsConnection) (qs : list request) : Prop := exists r1 r2,
  qs = [QDs c (destroy_session_request "ds_destroy_session" (ds_session c)) r1;
        QDs c (destroy_client_request "ds_destroy_clientid" (ds_session c)) r2].

Lemma destroy_connections_log l : forall w w', destroy_connections l w = (Ok (), w') ->
  exists qss, log w' = log w ++ concat qss /\ Forall2 is_ds_destroy (map snd l) qss.
Proof using HL.
  induction l as [|[a c] l IH]; intros w w'; cbn [destroy_connections].
  { intros [= <-]. exists []. by rewrite app_nil_r. }
  intros ([] & w1 & E1 & (qss & Hl & Hf)%IH)%andthen_ok. unfold ds_destroy, andthen, caught in E1.
  pose proof (lg_call_ds c (destroy_session_request "ds_destroy_session" (ds_session c)) w) as H1.
  destruct (call_ds _ _ _ w) as [x w2]. cbn in H1.
  assert (E2 : exists y, call_ds closing c (destroy_client_request "ds_destroy_clientid" (ds_session c)) w2 = (y, w1)).
  { destruct x; [..|done]; destruct (call_ds _ _ _ w2) as [[] w3]; try done; injection E1 as <-; by eexists. }
  destruct E2 as [y E2]. pose proof (lg_call_ds c (destroy_client_request "ds_destroy_clientid" (ds_session c)) w2) as H2.
  rewrite E2 in H2. cbn in H2. eexists (_ :: qss). split; [|constructor; [by exists x, y|done]].
  cbn. by rewrite Hl, H2, H1, <- !app_assoc.
Qed.

Lemma destroy_log request opcode f w f' w' : destroy request opcode f w = (Ok f', w') ->
  exists r, log w' = log w ++ [QBare request r] /\ (f' = None <-> f = None /\ exists reply, r = Ok reply /\ decode_destroy_response reply opcode = Ok ()).
Proof using HL.
  unfold destroy. intros (x & w1 & E1 & [= <- <-])%andthen_ok. unfold caught, andthen, raise in E1.
  pose proof (lg_call_mds request w) as Hl. destruct (call_mds _ _ w) as [y w2]. cbn in Hl. exists y.
  assert (Hx : w1 = w2 /\ x <> Panic /\ (is_ok x = true <-> exists reply, y = Ok reply /\ decode_destroy_response reply opcode = Ok ())).
  { destruct y as [d|e|]; [destruct (decode_destroy_response d opcode) as [[]|e|] eqn:E2|..]; try done; injection E1 as <- <-; split_and!; try done.
    - split; [by exists d|done].
    - split; [done|intros (d' & [= <-] & H); by rewrite E2 in H].
    - split; [done|by intros (d' & [=] & H)]. }
  destruct Hx as (-> & Hp & Hok). split; [done|]. by rewrite (note_none f x Hp), Hok.
Qed.
(** A stage does not stop the unmount. *)
Definition goes_on {A} (c : PM A) : Prop := forall w, forall e, fst (c w) <> Err e.
Lemma goes_on_caught {A} (c : PM A) : goes_on (caught c).
Proof using. intros w e. unfold caught. by destruct (c w) as [[] w1]. Qed.
Lemma goes_on_andthen {A B} (c : PM A) (k : A -> PM B) : goes_on c -> (forall a, goes_on (k a)) -> goes_on (andthen c k).
Proof using. intros Hc Hk w e. unfold andthen. specialize (Hc w). destruct (c w) as [[a|e'|] w1]; [apply Hk| |done]. by destruct (Hc e'). Qed.
Lemma goes_on_ret {A} (a : A) : goes_on (ret a).
Proof using. done. Qed.
Lemma goes_on_close l f : goes_on (close_files l f).
Proof using.
  revert f. induction l as [|[fh sid] l IH]; intros f; cbn [close_files]; [apply goes_on_ret|]. apply goes_on_andthen; [apply goes_on_caught|auto].
Qed.
Lemma goes_on_connections l : goes_on (destroy_connections l).
Proof using.
  induction l as [|[a c] l IH]; cbn [destroy_connections]; [apply goes_on_ret|]. apply goes_on_andthen; [|auto].
  repeat (apply goes_on_andthen; [apply goes_on_caught|intros _]). apply goes_on_ret.
Qed.
Lemma goes_on_destroy q o f : goes_on (destroy q o f).
Proof using. apply goes_on_andthen; [apply goes_on_caught|]. intros r. apply goes_on_ret. Qed.
Lemma goes_on_next {A B} (c : PM A) (k : A -> PM B) w r w' : goes_on c -> andthen c k w = (r, w') -> r <> Panic ->
  exists a w1, c w = (Ok a, w1) /\ k a w1 = (r, w').
Proof using.
  intros Hc. specialize (Hc w). unfold andthen. destruct (c w) as [[a|e|] w1]; [by eauto|by destruct (Hc e)|by intros [= <- <-]].
Qed.

(** C14: an unmount makes every request it owes the servers, whatever fails on the
    way: it returns the layouts, closes every open file it was left with, destroys
    the session and the client of every data server it had connected, then its
    own session and its client, in this order and each once.  It reports success
    exactly when no write had failed unnoticed, the layouts were returned, every
    CLOSE was carried out and both destructions were confirmed; otherwise an
    error. *)
Theorem teardown_owes_nothing w r w' : teardown w = (r, w') -> r <> Panic ->
  exists (w1 w2 w3 : W) returned f returns closes servers r1 r2,
    layoutreturn_all cfg eng ds server_addr show_addr (stop_tasks closing w) = (returned, w1) /\
    close_files (fst (drain (m_state w1))) (note None returned) (set_state w1 (snd (drain (m_state w1)))) = (Ok f, w2) /\
    destroy_connections (fst (drain_data_servers (mgr w2))) (set_mgr w2 (snd (drain_data_servers (mgr w2)))) = (Ok (), w3) /\
    Forall2 is_close (fst (drain (m_state w1))) closes /\
    Forall2 is_ds_destroy (map snd (fst (drain_data_servers (mgr w2)))) servers /\
    log w' = log w ++ returns ++ closes ++ concat servers ++
      [QBare (destroy_session_request "destroy_session" (current_session closing w3)) r1;
       QBare (destroy_client_request "destroy_clientid" (current_session closing w3)) r2] /\
    (r = Ok () <-> returned = Ok () /\ Forall close_ok closes /\
       (exists reply, r1 = Ok reply /\ decode_destroy_response reply 44 = Ok ()) /\
       (exists reply, r2 = Ok reply /\ decode_destroy_response reply 57 = Ok ()) /\ recorded_error w' = None).
Proof using HL.
  intros E Hr. unfold teardown in E. apply goes_on_next in E as ([] & w0 & [= <-] & E); [|done..].
  apply goes_on_next in E as (returned & w1 & E1 & E); [|apply goes_on_caught|done].
  apply goes_on_next in E as (opens & w2 & [= <- <-] & E); [|done..].
  apply goes_on_next in E as (f1 & w3 & E3 & E); [|apply goes_on_close|done].
  apply goes_on_next in E as (conns & w4 & [= <- <-] & E); [|done..].
  apply goes_on_next in E as ([] & w5 & E5 & E); [|apply goes_on_connections|done].
  apply goes_on_next in E as (s & w6 & [= <- <-] & E); [|done..].
  apply goes_on_next in E as (f2 & w7 & E7 & E); [|apply goes_on_destroy|done].
  apply goes_on_next in E as (f3 & w8 & E8 & E); [|apply goes_on_destroy|done].
  apply goes_on_next in E as ([] & w9 & [= <-] & E); [|done..].
  apply goes_on_next in E as (e & w10 & [= <- <-] & E); [|done..].
  pose proof (close_files_log _ _ _ _ _ E3) as (closes & L3 & F3 & N3).
  pose proof (destroy_connections_log _ _ _ E5) as (servers & L5 & F5).
  apply destroy_log in E7 as (r1 & L7 & N7). apply destroy_log in E8 as (r2 & L8 & N8).
  assert (H1 : layoutreturn_all cfg eng ds server_addr show_addr (stop_tasks closing w) = (returned, w1) /\ returned <> Panic).
  { unfold caught in E1. destruct (layoutreturn_all _ _ _ _ _ _) as [[] ?]; simplify_eq; done. }
  destruct H1 as [H1 Hp]. destruct (keeps_run _ _ _ _ _ (return_all_since (log (stop_tasks closing w))) H1 (reflexivity _)) as [returns L1].
  exists w1, w3, w5, returned, f1, returns, closes, servers, r1, r2.
  assert (Hw : w' = shutdown closing w8) by (destruct (recorded_error _); [|destruct f3]; by injection E as _ <-).
  split_and!; [done..| |].
  - rewrite Hw, lg_shutdown, L8, L7, L5. unfold set_mgr at 1. rewrite lg_local by done. rewrite L3, lg_state, L1, lg_stop.
    by rewrite <- !app_assoc.
  - rewrite (note_none None returned Hp) in N3. rewrite <- Hw in E. rewrite N3 in N7. rewrite N7 in N8.
    assert (Hok : r = Ok () <-> f3 = None /\ recorded_error w' = None).
    { destruct (recorded_error w'), f3; injection E as <-; split; try done; by intros []. }
    rewrite Hok, N8. destruct returned as [[]|e|]; cbn; split; intros; destruct_and?; by split_and?.
Qed.
End Teardown.

(** ** A mount to close *)

(** Its servers answer every request, and the world records them. *)
#[local] Notation LW := (@Mount41 (Pnfs (list request))).
Definition append_log (q : request) (w : LW) : LW :=
  set_ext w {| pn_mgr := mgr w; pn_heap := heap w; pn_next := pn_next (m_ext w); pn_ext := pn_ext (m_ext w) ++ [q] |}.
Definition logged_engine : @Engine (Pnfs (list request)) :=
  {| engine_compound := fun _ _ t b w => (Ok (demo_response b), append_log (QCompound t (b (builder_new [])) (Ok (demo_response b))) w);
     engine_pnfs_read := fun _ _ _ => retM None; engine_write_pnfs := fun _ _ _ => retM None; engine_commit_pending := fun _ _ => retM ();
     engine_flush_layoutcommit := fun _ => retM (); engine_layoutreturn := fun _ => retM ();
     engine_return_on_close := fun _ _ => false; engine_client_id := fun _ => 7; engine_generation := fun _ => 1;
     engine_max_response_size := fun _ => 65536 |}.
Definition logged_ds : @DsOps (list request) :=
  {| connect_ds := fun a w => (Ok (ConnectFailed (Rpc "unknown server")), w); compound_ds := fun _ _ _ b w => (Ok (demo_response b), w);
     pnfs_mds := fun _ => true; session_id_of := fun _ => zeros 16; waits := fun w => w |}.
Definition destroyed (opcode : Z) : bytes := be_bytes 4 0 ++ be_bytes 4 0 ++ be_bytes 4 1 ++ be_bytes 4 opcode ++ be_bytes 4 0.
Definition logged_closing : @ClosingOps (list request) :=
  {| stop_tasks := fun w => w; current_session := fun _ => demo_ds_session;
     call_mds := fun buf w =>
       let r := Ok (destroyed (if bool_decide (buf = destroy_session_request new_null "destroy_session" demo_ds_session) then 44 else 57)) in
       (r, append_log (QBare buf r) w);
     call_ds := fun c buf w => let r := Err (Rpc "data server gone") in (r, append_log (QDs c buf r) w);
     shutdown := fun w => w |}.
Definition logged_world : LW :=
  {| m_state := {| open_files := {[ zeros 4 := {| os_stateid := anonymous; os_access := AccessMode.Write; ref_count := 1; os_generation := 1 |} ]};
                   st_active := 1 |};
     m_recalls := m_recalls demo_world; m_writes := WriteOwner.WriteOwner_new V1;
     m_ext := {| pn_mgr := {| layouts := {[ zeros 4 := demo_granted ]};
                              data_servers := {[ demo_ds := {| ds_client := 1; ds_session := demo_ds_session; owner_generation := 1 |} ]};
                              device_cache := ∅; device_revision := 0; dirty := ∅; pending_writes := ∅; degenerate_logged := false;
                              unreachable_ds := ∅; noresvport := false; active_generation := 1 |};
                 pn_heap := ∅; pn_next := 1; pn_ext := [] |} |}.
#[local] Instance logged_logs : Logged logged_engine logged_ds logged_closing (fun w => pn_ext (m_ext w)).
Proof. split; intros; cbn; done || (by rewrite app_nil_r) || reflexivity. Qed.

Definition demo_teardown := teardown demo_config logged_engine logged_ds demo_mds demo_show new_null logged_closing logged_world.
(** The layout is returned, the file closed, and four requests destroy sessions
    and clients, although the data server does not answer. *)
Example demo_teardown_done : fst demo_teardown = Ok () /\ length (pn_ext (m_ext (snd demo_teardown))) = 6%nat.
Proof. vm_compute. done. Qed.

Lemma teardown_owes_nothing_witness : exists w1, layoutreturn_all demo_config logged_engine logged_ds demo_mds demo_show logged_world = (Ok (), w1).
Proof.
  destruct (teardown_owes_nothing demo_config logged_engine logged_ds demo_mds demo_show new_null logged_closing (fun w => pn_ext (m_ext w))
    logged_world (Ok ()) (snd demo_teardown) (run_of demo_teardown _ (proj1 demo_teardown_done)) ltac:(discriminate))
    as (w1 & w2 & w3 & returned & f & returns & closes & servers & r1 & r2 & H1 & _ & _ & _ & _ & _ & H).
  exists w1. destruct (proj1 H eq_refl) as [Hr _]. rewrite Hr in H1. exact H1.
Defined.
