(* ===== verification/PyFile.v ===== *)
(** * The file objects of the Python adapter

    Models [FileMode], [FileResource], [AdapterResources], [open_file],
    [close_file] and the observation of abandoned operations of
    [src/src/python_adapter.rs]: the object behind a Python file, with a position,
    the mode it was opened in, and the states that make it refuse work.  Test
    support (a feature of its own) is left out.

    Relative operations hold [relative_gate], mutations hold [mutation_gate], so
    each is one function of the object.  What the server answers meanwhile is an
    argument: [answer] to READ, the events of a chunked write ([FileIo]), the
    size GETATTR reports.  The theorems compare the object with a plain file of
    bytes and a position. *)
From Stdlib Require Import Strings.Byte.
From S2P Require Import Prelude Errors Compound41 V42 PnfsIo FileIo ClientCore Ops41 MountTrait.
From stdpp Require Import base list numbers strings gmap.
#[local] Open Scope Z_scope.

(** ** Modes *)

Record FileMode : Type := { fm_readable : bool; fm_writable : bool; fm_append : bool; fm_create : bool; fm_truncate : bool }.

Definition has_plus (mode : string) : bool := existsb (fun c => bool_decide (c = x2b)) (of_str mode).
Definition FileMode_parse (mode : string) : result FileMode :=
  let base := head (of_str mode) in
  let update := has_plus mode in
  let valid := existsb (String.eqb mode) ["rb"; "wb"; "ab"; "r+b"; "w+b"; "a+b"]%string in
  if negb valid then Err (ModeViolation "unsupported binary file mode")
  else Ok {| fm_readable := bool_decide (base = Some x72) || update;
             fm_writable := negb (bool_decide (base = Some x72)) || update;
             fm_append := bool_decide (base = Some x61);
             fm_create := bool_decide (base = Some x77) || bool_decide (base = Some x61);
             fm_truncate := bool_decide (base = Some x77) |}.

(** [OPEN_BOTH], [OPEN_WRITE] and [OPEN_READ] *)
Definition mode_access (m : FileMode) : Z :=
  match fm_readable m, fm_writable m with
  | true, true => 3
  | false, true => 2
  | _, _ => 1
  end.
(** 0o666 *)
Definition create_permissions (m : FileMode) : option Z := if fm_create m then Some 438 else None.

Definition mode_options (m : FileMode) : OpenOptions :=
  {| oo_access := mode_access m; oo_create_mode := create_permissions m; oo_truncate := fm_truncate m |}.

(** What a mode asks of the mount is a request the mount accepts. *)
Lemma mode_options_valid mode m : FileMode_parse mode = Ok m -> validate (mode_options m) = Ok ().
Proof.
  unfold FileMode_parse. destruct (existsb _ _) eqn:Hv; [|done]. apply existsb_exists in Hv as (x & Hin & ->%String.eqb_eq).
  intros H. repeat destruct Hin as [<-|Hin]; [vm_compute in H; injection H as <-; done..|done].
Qed.

(** ** The object *)

(** [fr_started], [fr_file] and [fr_result] are [FileCloseState]. *)
Record FileResource : Type := {
  fr_mode : FileMode; fr_max_read : Z; fr_max_write : Z; fr_protocol : NFSVersion; fr_lifecycle : Z; fr_position : Z;
  fr_uncertain : bool; fr_lost : bool; fr_recovery_generation : Z;
  fr_started : bool; fr_file : option OpenFile; fr_result : option (result ())
}.

Definition FileResource_mount (mode : FileMode) (position max_read max_write generation : Z) (p : NFSVersion) (file : OpenFile) : FileResource :=
  {| fr_mode := mode; fr_max_read := Z.max max_read 1; fr_max_write := Z.max max_write 1; fr_protocol := p; fr_lifecycle := 0;
     fr_position := position; fr_uncertain := false; fr_lost := false; fr_recovery_generation := generation;
     fr_started := false; fr_file := Some file; fr_result := None |}.

Definition set_position (f : FileResource) (position : Z) (uncertain : bool) : FileResource :=
  {| fr_mode := fr_mode f; fr_max_read := fr_max_read f; fr_max_write := fr_max_write f; fr_protocol := fr_protocol f;
     fr_lifecycle := fr_lifecycle f; fr_position := position; fr_uncertain := uncertain; fr_lost := fr_lost f;
     fr_recovery_generation := fr_recovery_generation f; fr_started := fr_started f; fr_file := fr_file f; fr_result := fr_result f |}.
Definition set_lost (f : FileResource) : FileResource :=
  {| fr_mode := fr_mode f; fr_max_read := fr_max_read f; fr_max_write := fr_max_write f; fr_protocol := fr_protocol f;
     fr_lifecycle := fr_lifecycle f; fr_position := fr_position f; fr_uncertain := fr_uncertain f; fr_lost := true;
     fr_recovery_generation := fr_recovery_generation f; fr_started := fr_started f; fr_file := fr_file f; fr_result := fr_result f |}.
Definition set_closing (f : FileResource) (started : bool) (file : option OpenFile) (r : option (result ())) : FileResource :=
  {| fr_mode := fr_mode f; fr_max_read := fr_max_read f; fr_max_write := fr_max_write f; fr_protocol := fr_protocol f;
     fr_lifecycle := 1; fr_position := fr_position f; fr_uncertain := fr_uncertain f; fr_lost := fr_lost f;
     fr_recovery_generation := fr_recovery_generation f; fr_started := started; fr_file := file; fr_result := r |}.

Definition closed (f : FileResource) : bool := negb (fr_lifecycle f =? 0).
Definition closed_error : NfsError := ClosedResource "I/O operation on closed file".
Definition lost_error : NfsError := LostOpenState "open file state or remote identity was lost; reopen the file".
Definition uncertain_error : NfsError := PositionUncertain "file position is uncertain; seek to an absolute offset".

(** [others] is what happens to the object while the gate is awaited, [generation]
    the one the mount reports then. *)
Definition begin_operation (others : FileResource -> FileResource) (generation : Z) (f : FileResource) : result () * FileResource :=
  if closed f then (Err closed_error, f)
  else
    let f := others f in
    let f := if negb (generation =? fr_recovery_generation f) then set_lost f else f in
    (if fr_lost f then Err lost_error else if closed f then Err closed_error else Ok (), f).

Definition tell (f : FileResource) : result Z :=
  if fr_lost f then Err lost_error else if closed f then Err closed_error else Ok (fr_position f).

(** *** Reading *)

Definition push_piece (l : list bytes) (_ : Z) (piece : bytes) : result (list bytes) := Ok (l ++ [piece]).

(** [read_at] without a size: windows of [max_read * READ_CONCURRENCY] bytes until
    one is short. *)
Fixpoint read_windows (fuel : nat) (max_read : Z) (answer : Z -> Z -> result bytes) (current : Z) (pieces : list bytes) (len : Z)
    : option (result (list bytes * Z)) :=
  match fuel with
  | O => None
  | S fuel =>
      let window := Z.min (Z.min (max_read * Z.of_nat READ_CONCURRENCY) (u64_max - current)) u64_max in
      if window =? 0 then Some (Ok (pieces, len))
      else
        match read_chunks_with push_piece max_read answer current window pieces with
        | Err e => Some (Err e)
        | Panic => Some Panic
        | Ok (count, pieces) =>
            match checked_add64 len count with
            | None => Some (Err (InvalidInput "read result is too large"))
            | Some len => if count <? window then Some (Ok (pieces, len)) else read_windows fuel max_read answer (current + count) pieces len
            end
        end
  end.

Definition read_at (fuel : nat) (f : FileResource) (answer : Z -> Z -> result bytes) (offset size : Z) : option (result (list bytes * Z)) :=
  if negb (fm_readable (fr_mode f)) then Some (Err (ModeViolation "file is not readable"))
  else if size <? -1 then Some (Err (InvalidInput "read size must be -1 or non-negative"))
  else if size =? -1 then read_windows fuel (fr_max_read f) answer offset [] 0
  else if size =? 0 then Some (Ok ([], 0))
  else Some (let* (count, pieces) := read_chunks_with push_piece (fr_max_read f) answer offset size [] in
             match checked_add64 0 count with
             | None => Err (InvalidInput "read result is too large")
             | Some len => Ok (pieces, len)
             end).

Definition read (fuel : nat) (answer : Z -> Z -> result bytes) (size : Z) (f : FileResource) : option (result bytes * FileResource) :=
  if fr_uncertain f then Some (Err uncertain_error, f)
  else match read_at fuel f answer (fr_position f) size with
       | None => None
       | Some (Ok (pieces, len)) => Some (Ok (concat pieces), set_position f (sat_add64 (fr_position f) len) (fr_uncertain f))
       | Some (Err e) => Some (Err e, f)
       | Some Panic => Some (Panic, f)
       end.

(** [ReadTarget::fill]; the caller keeps the view exported, so that the buffer is
    there and writable. *)
Definition fill_target (buffer : bytes) (offset : Z) (data : bytes) : result bytes :=
  match checked_add64 offset (remaining data) with
  | Some end_ =>
      if end_ <=? remaining buffer
      then Ok (firstn (Z.to_nat offset) buffer ++ data ++ skipn (Z.to_nat end_) buffer)
      else Err (InvalidInput "readinto buffer range is invalid")
  | None => Err (InvalidInput "readinto buffer range is invalid")
  end.

Definition read_into_at (f : FileResource) (answer : Z -> Z -> result bytes) (offset : Z) (target : bytes) : result (Z * bytes) :=
  if negb (fm_readable (fr_mode f)) then Err (ModeViolation "file is not readable")
  else read_chunks_with fill_target (fr_max_read f) answer offset (remaining target) target.

(** The addition to the position may overflow in principle. *)
Definition read_into (answer : Z -> Z -> result bytes) (target : bytes) (f : FileResource) : result (Z * bytes) * FileResource :=
  if fr_uncertain f then (Err uncertain_error, f)
  else match read_into_at f answer (fr_position f) target with
       | Ok (count, target) =>
           match checked_add64 (fr_position f) count with
           | Some position => (Ok (count, target), set_position f position (fr_uncertain f))
           | None => (Panic, f)
           end
       | r => (r, f)
       end.

(** *** Writing *)

(** The calls the write made, with its result; [None] while it has not returned. *)
Definition write_complete_at (f : FileResource) (evs : list io_event) (offset : Z) (data : bytes) : option (result Z * list io_call) :=
  if negb (fm_writable (fr_mode f)) then Some (Err (ModeViolation "file is not writable"), [])
  else
    let chunk (_ : nat) := Z.max (fr_max_write f) 1 in
    match write_all_run (fr_protocol f) chunk offset data (write_all_start chunk offset data) evs with
    | Some (Returned r, log) => Some (r, log)
    | _ => None
    end.

Definition write_at (f : FileResource) (evs : list io_event) (offset : Z) (data : bytes) : option (result Z * list io_call) :=
  if fm_append (fr_mode f) then Some (Err (ModeViolation "positional writes are unavailable in append mode"), [])
  else write_complete_at f evs offset data.

(** What the result of a write at [position] leaves of the position. *)
Definition written (f : FileResource) (position : Z) (r : result Z) : FileResource :=
  match r with
  | Ok n => set_position f (sat_add64 position n) (fr_uncertain f)
  | Err e =>
      match operation_outcome e with
      | Some o =>
          if bool_decide (outcome_kind o = Uncertain) then set_position f (fr_position f) true
          else match completed_bytes o with
               | Some confirmed => set_position f (sat_add64 position confirmed) (fr_uncertain f)
               | None => f
               end
      | None => f
      end
  | Panic => f
  end.

(** [size] is what [current_size] answers in append mode. *)
Definition write (size : result Z) (evs : list io_event) (data : bytes) (f : FileResource)
    : option (result Z * list io_call * FileResource) :=
  if fr_uncertain f then Some (Err uncertain_error, [], f)
  else
    match (if fm_append (fr_mode f) then size else Ok (fr_position f)) with
    | Err e => Some (Err e, [], f)
    | Panic => Some (Panic, [], f)
    | Ok position =>
        match write_complete_at f evs position data with
        | None => None
        | Some (r, log) => Some (r, log, written f position r)
        end
    end.

(** [answered] is the result of SETATTR; the second component is the size it was
    sent with. *)
Definition truncate (answered : result ()) (size : option Z) (f : FileResource) : result Z * option Z :=
  if negb (fm_writable (fr_mode f)) then (Err (ModeViolation "file is not writable"), None)
  else
    let size := default (fr_position f) size in
    (let* _ := answered in Ok size, Some size).

Definition flush_inner (f : FileResource) : result () := Ok ().

(** *** The position *)

(** [offset] is an [i64]; the sum is computed in 128 bits. *)
Definition seek (size : result Z) (offset whence : Z) (f : FileResource) : result Z * FileResource :=
  if negb (whence =? 0) && fr_uncertain f
  then (Err (PositionUncertain "file position is uncertain; only absolute seek is allowed"), f)
  else
    let base := match whence with
                | 0 => Ok 0
                | 1 => Ok (fr_position f)
                | 2 => size
                | _ => Err (InvalidInput "whence must be SEEK_SET, SEEK_CUR, or SEEK_END")
                end in
    match base with
    | Err e => (Err e, f)
    | Panic => (Panic, f)
    | Ok base =>
        let next := base + offset in
        if (next <? 0) || (u64_max <? next) then (Err (InvalidInput "negative seek position"), f)
        else (Ok next, set_position f next (if whence =? 0 then false else fr_uncertain f))
    end.

(** *** Closing *)

(** A caller of [close]: whether it is the one that starts the task, with the file
    the task takes. *)
Definition close_enter (f : FileResource) : option (option OpenFile) * FileResource :=
  if fr_started f then (None, set_closing f (fr_started f) (fr_file f) (fr_result f))
  else (Some (fr_file f), set_closing f true None (fr_result f)).

(** The task: [answered] is the result of [close_stateful], which is called when
    there is a file. *)
Definition close_task (f : FileResource) (file : option OpenFile) (answered : result ()) : result () :=
  let commit := match flush_inner f with Err e => [("commit"%string, e)] | _ => [] end in
  let close := match file, answered with Some _, Err e => [("close"%string, e)] | _, _ => [] end in
  match commit ++ close with
  | [] => Ok ()
  | errors => Err (FileClose errors)
  end.

(** The object with the close tasks that run, the files whose close was sent and
    what callers of [close] were told. *)
Record CloseWorld : Type := {
  cl_res : FileResource; cl_tasks : list (option OpenFile); cl_sent : list OpenFile; cl_told : list (result ())
}.

(** Everything but the close state. *)
Definition same_close (f f' : FileResource) : Prop :=
  fr_lifecycle f' = fr_lifecycle f /\ fr_started f' = fr_started f /\ fr_file f' = fr_file f /\ fr_result f' = fr_result f.

Inductive close_step : CloseWorld -> CloseWorld -> Prop :=
| cs_operate w f : same_close (cl_res w) f ->
    close_step w {| cl_res := f; cl_tasks := cl_tasks w; cl_sent := cl_sent w; cl_told := cl_told w |}
| cs_enter w task f : close_enter (cl_res w) = (task, f) ->
    close_step w {| cl_res := f; cl_tasks := cl_tasks w ++ option_list task; cl_sent := cl_sent w; cl_told := cl_told w |}
| cs_task w before file after answered : cl_tasks w = before ++ file :: after ->
    close_step w {| cl_res := set_closing (cl_res w) (fr_started (cl_res w)) (fr_file (cl_res w))
                                (Some (close_task (cl_res w) file answered));
                    cl_tasks := before ++ after; cl_sent := cl_sent w ++ option_list file; cl_told := cl_told w |}
| cs_told w r : fr_started (cl_res w) = true -> fr_result (cl_res w) = Some r ->
    close_step w {| cl_res := cl_res w; cl_tasks := cl_tasks w; cl_sent := cl_sent w; cl_told := cl_told w ++ [r] |}.

Definition opened_world (f : FileResource) : CloseWorld := {| cl_res := f; cl_tasks := []; cl_sent := []; cl_told := [] |}.

(** ** The registry of open files *)

Record Adapter : Type := { ad_core : ClientCore; ad_files : gmap Z FileResource }.

(** [publish_resource] *)
Definition publish_resource (c : ClientCore) (k : Z) : result () * ClientCore :=
  match publish_check c with
  | Ok c => (Ok (), publish_push c k)
  | Err e => (Err e, c)
  | Panic => (Panic, c)
  end.

(** The result of an open, the adapter, and the files whose close was sent.
    [opened] and [size] are what the mount answers, [closing] is what happens to
    the core while it does. *)
Definition open_file (mode : string) (opened : OpenOptions -> result OpenFile) (size : result Z) (max_read max_write generation : Z) (p : NFSVersion)
    (closing : ClientCore -> ClientCore) (a : Adapter) : result (Z * FileResource) * Adapter * list OpenFile :=
  match FileMode_parse mode with
  | Err e => (Err e, a, [])
  | Panic => (Panic, a, [])
  | Ok mode =>
      match opened (mode_options mode) with
      | Err e => (Err e, a, [])
      | Panic => (Panic, a, [])
      | Ok file =>
          let a := {| ad_core := closing (ad_core a); ad_files := ad_files a |} in
          match (if fm_append mode then size else Ok 0) with
          | Err e => (Err e, a, [file])
          | Panic => (Panic, a, [file])
          | Ok position =>
              let resource := FileResource_mount mode position max_read max_write generation p file in
              let '(key, core) := allocate_resource_key (ad_core a) in
              match key with
              | Err e => (Err e, {| ad_core := core; ad_files := ad_files a |}, [])
              | Panic => (Panic, {| ad_core := core; ad_files := ad_files a |}, [])
              | Ok key =>
                  let files := <[key := resource]> (ad_files a) in
                  let '(published, core) := publish_resource core key in
                  match published with
                  | Ok _ => (Ok (key, resource), {| ad_core := core; ad_files := files |}, [])
                  | Err e => (Err e, {| ad_core := core; ad_files := delete key files |}, [file])
                  | Panic => (Panic, {| ad_core := core; ad_files := files |}, [])
                  end
              end
          end
      end
  end.

(** [result] is the report of [FileResource::close]. *)
Definition close_file (key : Z) (report : result ()) (a : Adapter) : result () * Adapter :=
  let '(r, core) := unregister_resource (ad_core a) key in
  match r with
  | Err e => (Err e, {| ad_core := core; ad_files := ad_files a |})
  | Panic => (Panic, {| ad_core := core; ad_files := ad_files a |})
  | Ok _ => (report, {| ad_core := core; ad_files := delete key (ad_files a) |})
  end.

(** ** What a failure means for the object *)

Section Observed.
(** Whether the payload of an I/O error is a [SharedNfsFailure]. *)
Context (is_shared_failure : IoPayload NfsError -> bool).

Fixpoint error_loses_open_state (e : NfsError) : bool :=
  match e with
  | LostOpenState _ => true
  | Nfs3 code => (code =? 70) || (code =? 10001)
  | Nfs4 status =>
      match status with
      | NFS4ERR_STALE | NFS4ERR_BADHANDLE | NFS4ERR_FHEXPIRED | NFS4ERR_STALE_STATEID | NFS4ERR_OLD_STATEID
      | NFS4ERR_BAD_STATEID | NFS4ERR_EXPIRED | NFS4ERR_ADMIN_REVOKED | NFS4ERR_DELEG_REVOKED => true
      | _ => false
      end
  | OperationOutcome d => error_loses_open_state (source d)
  | Io _ (IoCustom src as payload) => is_shared_failure payload && error_loses_open_state src
  | FileClose failures => existsb (fun f => error_loses_open_state f.2) failures
  | _ => false
  end.

Definition observe_file_result {A} (r : result A) (f : FileResource) : FileResource :=
  match r with Err e => if error_loses_open_state e then set_lost f else f | _ => f end.
End Observed.

(** The event of an operation whose caller is gone. *)
Definition abandoned_event (safe_path : option string) (e : NfsError) : option CoreRecoveryEvent :=
  match e with
  | OperationOutcome d =>
      match outcome_kind d with
      | Uncertain | SafeToRetry =>
          Some {| ev_operation := operation (context d); ev_safe_path := safe_path; ev_protocol := protocol (context d);
                  ev_outcome := outcome_kind d; ev_recovery := recovery d; ev_completed_bytes := completed_bytes d;
                  ev_message := "abandoned operation completed with a recovery-relevant failure" |}
      | _ => None
      end
  | LostOpenState _ =>
      Some {| ev_operation := "open state"; ev_safe_path := safe_path; ev_protocol := VersionUnknown; ev_outcome := Uncertain;
              ev_recovery := Reopen; ev_completed_bytes := None; ev_message := "abandoned operation lost open state" |}
  | _ => None
  end.

Definition record_event (c : ClientCore) (e : option CoreRecoveryEvent) : ClientCore :=
  match e with Some e => snd (record_recovery_event c e) | None => c end.
Fixpoint record_abandoned_error (safe_path : option string) (e : NfsError) (c : ClientCore) : ClientCore :=
  match e with
  | FileClose failures => fold_left (fun c f => record_abandoned_error safe_path f.2 c) failures c
  | _ => record_event c (abandoned_event safe_path e)
  end.
Definition record_abandoned_close_error (safe_path : string) (e : NfsError) (c : ClientCore) : ClientCore :=
  match e with
  | FileClose failures => fold_left (fun c f => record_abandoned_error (Some safe_path) f.2 c) failures c
  | _ => record_abandoned_error (Some safe_path) e c
  end.

(** ** Reading the file *)

Definition byte_at (c : bytes) (i : Z) : Byte.byte := default x00 (c !! Z.to_nat i).

Lemma push_holds pieces s v d : concat s = concat pieces ++ v -> exists s', push_piece s (remaining v) d = Ok s' /\ concat s' = concat pieces ++ v ++ d.
Proof. intros H. exists (s ++ [d]). split; [done|]. rewrite concat_app, H. cbn. by rewrite app_nil_r, app_assoc. Qed.

Lemma read_pieces_exact c answer size offset len pieces : serves_file c answer -> 0 <= offset -> 0 <= len ->
  wpo (read_chunks_with push_piece size answer offset len pieces)
    (fun '(n, ps) => concat ps = concat pieces ++ part c offset len /\ n = remaining (part c offset len)).
Proof.
  intros Hs Ho Hl. apply (read_chunks_exact c answer push_piece (fun s v => concat s = concat pieces ++ v)); [|done..|by rewrite app_nil_r].
  intros s v d H _. destruct (push_holds pieces s v d H) as (s' & H1 & H2). by exists s'.
Qed.

Lemma read_pieces_total answer size offset len (pieces : list bytes) : serves_all answer -> 0 <= len -> offset + len <= u64_max ->
  exists n ps, read_chunks_with push_piece size answer offset len pieces = Ok (n, ps).
Proof.
  intros Ha Hl Hr. unfold read_chunks_with, checked_add64. destruct (Z.leb_spec (offset + len) u64_max); [|lia].
  apply consume_total; [done| |lia|by eexists]. intros x (i & _ & -> & ?)%step_by_elem; lia.
Qed.

Lemma part_rest c pos n : 0 <= pos -> 0 <= n -> remaining c <= pos + n -> part c pos n = skipn (Z.to_nat pos) c.
Proof. intros. unfold part, remaining in *. apply take_ge. rewrite length_drop. lia. Qed.

Section Windows.
Context (c : bytes) (answer : Z -> Z -> result bytes) (max_read offset : Z).
Context (Hs : serves_file c answer) (Hc : remaining c <= u64_max) (Hm : 0 < max_read) (Ho : 0 <= offset <= u64_max).

(** The windows up to the end of the file; all of them but the last are full. *)
Lemma read_windows_exact fuel current pieces : offset <= current <= u64_max -> remaining c - current < Z.of_nat fuel -> (0 < fuel)%nat ->
  concat pieces = part c offset (current - offset) -> remaining (concat pieces) = current - offset ->
  exists r, read_windows fuel max_read answer current pieces (current - offset) = Some r /\
    wpo r (fun '(ps, n) => concat ps = skipn (Z.to_nat offset) c /\ n = remaining (concat ps)) /\
    (serves_all answer -> exists x, r = Ok x).
Proof using Hs Hc Hm Ho.
  revert current pieces. induction fuel as [|fuel IH]; intros current pieces Hcur Hf Hpos Hp Hr; [lia|]. cbn [read_windows].
  set (window := Z.min _ u64_max). assert (Hw : 0 <= window <= u64_max - current) by (unfold window, READ_CONCURRENCY; lia).
  destruct (Z.eqb_spec window 0) as [Hz|Hz].
  { assert (current = u64_max) by (unfold window, READ_CONCURRENCY in Hz; lia). eexists. split; [done|].
    rewrite (part_rest c) in Hp by lia. split; [|by eexists]. cbn. split; [done|]. by rewrite Hr. }
  pose proof (read_pieces_exact c answer max_read current window pieces Hs ltac:(lia) ltac:(lia)) as He.
  pose proof (read_pieces_total answer max_read current window pieces) as Ht.
  destruct (read_chunks_with _ _ _ _ _ _) as [[count ps]|e|]; [|eexists; split; [done|]; split; [done|]; intros Ha;
    destruct Ht as (n & ps & [=]); [done|lia|lia]..].
  cbn in He. destruct He as [Hps Hcount].
  assert (Hall : concat ps = part c offset (current + window - offset)).
  { rewrite Hps, Hp. replace current with (offset + (current - offset)) at 2 by lia.
    rewrite <- part_app by lia. f_equal. lia. }
  pose proof (part_le c current window ltac:(lia)) as Hle. rewrite <- Hcount in Hle.
  assert (Hrem : remaining (concat ps) = current - offset + count) by (rewrite Hps, remaining_app; lia).
  pose proof (remaining_nonneg (part c current window)) as Hnn. rewrite <- Hcount in Hnn.
  unfold checked_add64. destruct (Z.leb_spec (current - offset + count) u64_max); [|lia].
  destruct (Z.ltb_spec count window) as [Hlt|Hge].
  - eexists. split; [done|]. split; [|by eexists]. cbn. split; [|by rewrite Hrem]. rewrite Hall. apply part_rest; [lia..|].
    pose proof (part_short c current window). lia.
  - assert (Hcw : count = window) by lia. replace (current - offset + count) with (current + count - offset) by lia.
    pose proof (remaining_nonneg c). assert (current + window <= remaining c).
    { unfold part, remaining in Hcount. rewrite length_take, length_drop in Hcount. unfold remaining. lia. }
    apply IH; [lia..|rewrite Hall; f_equal; lia|lia].
Qed.
End Windows.

(** ** What a write leaves in the file *)

(** Writing bytes into a file: a hole is filled with zeros, and writing nothing
    does nothing. *)
Definition overwrite (c : bytes) (off : Z) (d : bytes) : bytes :=
  match d with
  | [] => c
  | _ => resize (Z.to_nat off) x00 c ++ d ++ skipn (Z.to_nat off + length d) c
  end.

(** What a server may have made of the file after the calls of a write: a byte no
    call wrote to keeps its value, an acknowledged byte is one that some call
    brought there, and the file grows only as far as a call wrote. *)
Record effect (c : bytes) (log : list io_call) (c' : bytes) : Prop := {
  ef_kept : forall i, 0 <= i < remaining c' -> (forall o d r, IoWrite o d r ∈ log -> ~ (o <= i < o + remaining d)) ->
    c' !! Z.to_nat i = Some (byte_at c i);
  ef_acked : forall i o d w, (o, d, w) ∈ acks log -> o <= i < o + remaining d ->
    exists o' d' r, IoWrite o' d' r ∈ log /\ o' <= i < o' + remaining d' /\ c' !! Z.to_nat i = d' !! Z.to_nat (i - o');
  ef_size : remaining c <= remaining c' /\
    (remaining c < remaining c' -> exists o d r, IoWrite o d r ∈ log /\ 0 < remaining d /\ remaining c' <= o + remaining d);
}.

Lemma overwrite_length c off d : d <> [] -> 0 <= off -> remaining (overwrite c off d) = Z.max (remaining c) (off + remaining d).
Proof.
  intros Hd Ho. unfold overwrite, remaining. destruct d as [|x d]; [done|]. rewrite !length_app, length_resize, length_drop. lia.
Qed.
Lemma overwrite_new c off d i : 0 <= off -> 0 <= i < remaining d -> overwrite c off d !! Z.to_nat (off + i) = d !! Z.to_nat i.
Proof.
  intros Ho Hi. unfold overwrite. destruct d as [|x d]; [rewrite remaining_nil in Hi; lia|]. unfold remaining in Hi.
  rewrite lookup_app_r by (rewrite length_resize; lia). rewrite length_resize, lookup_app_l by (cbn [length] in *; lia). f_equal. lia.
Qed.
Lemma overwrite_old c off d i : 0 <= off -> 0 <= i < remaining (overwrite c off d) -> ~ (off <= i < off + remaining d) ->
  overwrite c off d !! Z.to_nat i = Some (byte_at c i).
Proof.
  intros Ho Hi Hn. unfold byte_at. destruct d as [|x d].
  { unfold overwrite, remaining in *. destruct (lookup_lt_is_Some_2 c (Z.to_nat i)) as [b ->]; [lia|done]. }
  assert (Hl := Hi). rewrite overwrite_length in Hl by done. unfold overwrite. set (d' := x :: d) in *.
  destruct (decide (i < off)) as [Hlt|Hge].
  - rewrite lookup_app_l by (rewrite length_resize; lia). destruct (decide (Z.to_nat i < length c)%nat) as [Hc|Hc].
    + rewrite lookup_resize by lia. destruct (lookup_lt_is_Some_2 c (Z.to_nat i) Hc) as [b ->]. done.
    + rewrite lookup_resize_new by lia. by rewrite (lookup_ge_None_2 c) by lia.
  - rewrite lookup_app_r by (rewrite length_resize; lia). rewrite length_resize. unfold remaining in *. rewrite lookup_app_r by lia.
    rewrite lookup_drop. replace (_ + (_ - _ - _))%nat with (Z.to_nat i) by lia.
    destruct (lookup_lt_is_Some_2 c (Z.to_nat i)) as [b ->]; [lia|done].
Qed.

(** A file that has the new bytes in their range and the old ones elsewhere. *)
Lemma overwritten c off d c' : 0 <= off -> remaining c' = remaining (overwrite c off d) ->
  (forall i, 0 <= i < remaining d -> c' !! Z.to_nat (off + i) = d !! Z.to_nat i) ->
  (forall i, 0 <= i < remaining c' -> ~ (off <= i < off + remaining d) -> c' !! Z.to_nat i = Some (byte_at c i)) ->
  c' = overwrite c off d.
Proof.
  intros Ho Hl Hnew Hold. apply list_eq. intros k. rewrite <- (Nat2Z.id k). set (i := Z.of_nat k).
  destruct (decide (i < remaining c')) as [Hi|Hi].
  - destruct (decide (off <= i < off + remaining d)) as [Hin|Hout].
    + replace i with (off + (i - off)) by lia. rewrite Hnew, overwrite_new by lia. done.
    + rewrite Hold, overwrite_old by lia. done.
  - unfold remaining in *. rewrite !lookup_ge_None_2 by lia. done.
Qed.

Lemma write_effect c off data log c' : 0 <= off -> Forall (in_place off data) log -> effect c log c' ->
  covered off data log 0 (remaining data) -> c' = overwrite c off data.
Proof.
  intros Ho Hin [Hk Ha [Hs1 Hs2]] Hcov. assert (Hat : forall o d r, IoWrite o d r ∈ log -> in_place off data (IoWrite o d r))
    by (intros o d r H; by eapply (proj1 (Forall_forall _ _) Hin)).
  assert (Hnew : forall i, 0 <= i < remaining data -> c' !! Z.to_nat (off + i) = data !! Z.to_nat i).
  { intros i Hi. destruct (Hcov i Hi) as (o & d & w & Hack & Hoi & _).
    destruct (Ha (off + i) o d w Hack Hoi) as (o' & d' & r & Hw & Ho' & ->).
    destruct (Hat _ _ _ Hw) as (_ & _ & Hd). rewrite Hd by lia. f_equal. lia. }
  apply overwritten; [done| |done|].
  - destruct (decide (data = [])) as [->|Hne].
    + change (remaining c' = remaining c). destruct (Z.eq_dec (remaining c) (remaining c')) as [He|Hne]; [done|].
      destruct Hs2 as (o & d & r & Hw & Hd & _); [lia|]. destruct (Hat _ _ _ Hw) as (H1 & H2 & _). rewrite remaining_nil in H2. lia.
    + rewrite overwrite_length by done. assert (0 < remaining data) by (destruct data; [done|]; unfold remaining; cbn; lia).
      assert (off + remaining data <= remaining c').
      { assert (is_Some (c' !! Z.to_nat (off + (remaining data - 1)))) as Hl%lookup_lt_is_Some.
        { rewrite Hnew by lia. apply lookup_lt_is_Some. unfold remaining in *. lia. }
        unfold remaining in *. lia. }
      destruct (Z.eq_dec (remaining c) (remaining c')) as [He|Hne']; [lia|].
      destruct Hs2 as (o & d & r & Hw & _ & Hle); [lia|]. destruct (Hat _ _ _ Hw) as (_ & H2 & _). lia.
  - intros i Hi Hout. apply Hk; [done|]. intros o d r Hw Hoi. destruct (Hat _ _ _ Hw) as (H1 & H2 & _). lia.
Qed.

(** ** The object is a file with a position *)

Definition spec_read (c : bytes) (pos size : Z) : bytes := if size =? -1 then skipn (Z.to_nat pos) c else part c pos size.

Lemma spec_read_end c pos size : 0 <= pos <= u64_max -> remaining c <= u64_max -> pos + remaining (spec_read c pos size) <= u64_max.
Proof.
  intros Hp Hc. unfold spec_read, part, remaining in *. destruct (_ =? _); rewrite ?length_take, length_drop; lia.
Qed.

Lemma read_at_refines f c fuel answer offset size : 0 <= offset <= u64_max -> remaining c <= u64_max ->
  0 < fr_max_read f -> serves_file c answer -> remaining c < Z.of_nat fuel ->
  exists r, read_at fuel f answer offset size = Some r /\
    wpo r (fun '(ps, n) => fm_readable (fr_mode f) = true /\ -1 <= size /\ concat ps = spec_read c offset size /\ n = remaining (concat ps)) /\
    (fm_readable (fr_mode f) = true -> -1 <= size -> serves_all answer -> offset + size <= u64_max -> exists x, r = Ok x).
Proof.
  intros Hp Hc Hm Hs Hf. unfold read_at. destruct (fm_readable (fr_mode f)) eqn:Hr; cbn [negb]; [|by eexists].
  destruct (Z.ltb_spec size (-1)); [eexists; split; [done|]; split; [done|lia]|]. unfold spec_read.
  destruct (Z.eqb_spec size (-1)) as [->|Hne].
  { destruct (read_windows_exact c answer (fr_max_read f) offset Hs Hc Hm Hp fuel offset [])
      as (x & Hx & Hw & Ht); [lia|lia|pose proof (remaining_nonneg c); lia|by rewrite Z.sub_diag|by rewrite Z.sub_diag|].
    rewrite Z.sub_diag in Hx. exists x. split; [done|]. split; [eapply wpo_mono; [done|]; by intros [ps n] [? ?]|]. auto. }
  destruct (Z.eqb_spec size 0) as [->|Hnz]; [eexists; split; [done|]; split; [done|by eexists]|].
  pose proof (read_pieces_exact c answer (fr_max_read f) offset size [] Hs) as He. eexists. split; [done|]. split.
  - apply wpo_bind. eapply wpo_mono; [apply He; lia|]. intros [n ps] [H1 ->]. cbn in H1.
    destruct (checked_add64 _ _) as [k|] eqn:Ek; [|done]. unfold checked_add64 in Ek. destruct (_ <=? _); [|done]. injection Ek as <-.
    cbn. rewrite H1. split_and!; [done|lia|done|done].
  - intros _ _ Ha Hle. destruct (read_pieces_total answer (fr_max_read f) offset size []) as (n & ps & Hok); [done|lia|lia|].
    rewrite Hok in *. cbn in He |- *. destruct He as [_ ->]; [lia..|]. unfold checked_add64.
    pose proof (part_le c offset size). destruct (Z.leb_spec (0 + remaining (part c offset size)) u64_max); [by eexists|lia].
Qed.

(** A buffer that has taken in [v] from its start. *)
Definition filled (target s v : bytes) : Prop := s = v ++ skipn (length v) target /\ remaining v <= remaining target.
Lemma fill_target_ok target s v d : remaining target <= u64_max -> filled target s v -> remaining v + remaining d <= remaining target ->
  exists s', fill_target s (remaining v) d = Ok s' /\ filled target s' (v ++ d).
Proof.
  intros Ht [-> Hv] Hl. unfold fill_target, checked_add64. destruct (Z.leb_spec (remaining v + remaining d) u64_max); [|lia].
  assert (Hlen : remaining (v ++ skipn (length v) target) = remaining target).
  { unfold remaining in *. rewrite length_app, length_drop. lia. }
  rewrite Hlen. destruct (Z.leb_spec (remaining v + remaining d) (remaining target)); [|lia]. eexists. split; [done|].
  split; [|rewrite remaining_app; lia]. unfold remaining in *. rewrite <- app_assoc, length_app. rewrite Nat2Z.id, take_app_length. do 2 f_equal.
  replace (Z.to_nat _) with (length v + length d)%nat by lia.
  rewrite skipn_app. rewrite (drop_ge v) by lia. cbn. rewrite drop_drop. f_equal. lia.
Qed.

Lemma read_into_at_refines f c answer offset target : 0 <= offset -> remaining target <= u64_max -> serves_file c answer ->
  wpo (read_into_at f answer offset target)
    (fun '(n, t) => fm_readable (fr_mode f) = true /\ n = remaining (part c offset (remaining target)) /\
       t = part c offset (remaining target) ++ skipn (Z.to_nat n) target).
Proof.
  intros Ho Ht Hs. unfold read_into_at. destruct (fm_readable (fr_mode f)); [|done]. cbn [negb].
  eapply wpo_mono; [apply (read_chunks_exact c answer fill_target (filled target) (remaining target));
    [by intros; apply fill_target_ok|done|done|apply remaining_nonneg|split; [done|apply remaining_nonneg]]|].
  intros [n t] [[-> _] ->]. split_and!; [done..|]. by unfold remaining; rewrite Nat2Z.id.
Qed.

(** A file in which only the range of a write may have changed. *)
Definition touched (c : bytes) (off : Z) (d c' : bytes) : Prop :=
  remaining c <= remaining c' <= Z.max (remaining c) (off + remaining d) /\
  forall i, 0 <= i < remaining c' -> ~ (off <= i < off + remaining d) -> c' !! Z.to_nat i = Some (byte_at c i).

Lemma touched_refl c off d : touched c off d c.
Proof.
  split; [lia|]. intros i Hi _. unfold byte_at. destruct (lookup_lt_is_Some_2 c (Z.to_nat i)) as [b ->]; [unfold remaining in *; lia|done].
Qed.

Lemma effect_touched c off data log c' : Forall (in_place off data) log -> effect c log c' -> touched c off data c'.
Proof.
  intros Hin [Hk _ [Hs1 Hs2]]. assert (Hat : forall o d r, IoWrite o d r ∈ log -> in_place off data (IoWrite o d r))
    by (intros o d r H; by eapply (proj1 (Forall_forall _ _) Hin)). split.
  - split; [done|]. destruct (Z.eq_dec (remaining c) (remaining c')) as [He|Hne]; [lia|].
    destruct Hs2 as (o & d & r & Hw & _ & Hle); [lia|]. destruct (Hat _ _ _ Hw) as (_ & H2 & _). lia.
  - intros i Hi Hout. apply Hk; [done|]. intros o d r Hw Hoi. destruct (Hat _ _ _ Hw) as (H1 & H2 & _). lia.
Qed.

(** A write answered by the mount: its counts, and the confirmed bytes its errors
    carry, are unsigned. *)
Definition answered_ok (ev : io_event) : Prop :=
  event_ok ev /\ match ev with EvWrite _ (inr e) => forall o n, operation_outcome e = Some o -> completed_bytes o = Some n -> 0 <= n | _ => True end.

Lemma answered_event evs : Forall answered_ok evs -> Forall event_ok evs.
Proof. intros H. eapply Forall_impl; [exact H|]. by intros ev []. Qed.

Lemma write_complete_refines f c evs off data r log c' : 0 <= off -> Forall answered_ok evs ->
  write_complete_at f evs off data = Some (r, log) -> effect c log c' -> touched c off data c' /\
  match r with
  | Ok n => fm_writable (fr_mode f) = true /\ n = remaining data /\ c' = overwrite c off data /\ off + remaining data <= u64_max
  | Err e => (log = [] /\ operation_outcome e = None \/ error_accounts e (last_attempt log)) /\
             (is_uncertain e = false -> forall o n, operation_outcome e = Some o -> completed_bytes o = Some n -> 0 <= n)
  | Panic => False
  end.
Proof.
  intros Ho Hev. unfold write_complete_at. destruct (fm_writable _) eqn:Hw; cbn [negb].
  2:{ intros [= <- <-] He. split; [by eapply effect_touched; [constructor|]|]. split; [by left|done]. }
  match goal with |- context [write_all_run ?p ?k ?o ?d ?s ?e] => destruct (write_all_run p k o d s e) as [[[b|r'] log']|] eqn:Er end; [done| |done].
  intros [= -> ->] He. pose proof (write_all_places _ _ _ _ _ _ _ (answered_event _ Hev) Er) as [Hin Hr].
  split; [by eapply effect_touched|]. destruct r as [n|e|]; [|split; [done|]|done].
  - destruct Hr as (-> & Hcov & Hle). split_and!; [done|done| |done]. by eapply write_effect.
  - intros Hu o n Hoo Hn. destruct Hr as [[_ H]|[(o' & -> & Hk & _)|(_ & _ & o' & d & H)]].
    + by rewrite Hoo in H.
    + unfold is_uncertain in Hu. rewrite Hoo in Hu. cbn in Hoo. simplify_eq. rewrite bool_decide_true in Hu by done. done.
    + destruct (run_answers _ _ _ _ _ _ _ _ o' d (inr e) Er) as [i Hi]; [by apply last_attempt_in|].
      destruct (proj1 (Forall_forall _ _) Hev _ Hi) as [_ Hx]. by eapply Hx.
Qed.

(** *** The abstract file *)

Inductive py_call : Type :=
| PyRead (size : Z) | PyReadAt (offset size : Z) | PyReadInto (target : bytes) | PyReadIntoAt (target : bytes) (offset : Z)
| PyWrite (data : bytes) | PyWriteAt (data : bytes) (offset : Z) | PySeek (offset whence : Z) | PyTruncate (size : option Z) | PyTell | PyFlush.
Inductive py_value : Type := PvBytes (d : bytes) | PvFilled (n : Z) (target : bytes) | PvNumber (n : Z) | PvNone.

(** The position, or the last one known before it became uncertain. *)
Inductive cursor : Type := Certain (p : Z) | Uncertain_since (last : Z).
Definition certain (q : cursor) : option Z := match q with Certain p => Some p | Uncertain_since _ => None end.
Definition last_known (q : cursor) : Z := match q with Certain p | Uncertain_since p => p end.
(** The bytes and the position. *)
Definition plain : Type := (bytes * cursor)%type.

Definition needs_position (call : py_call) : bool := match call with PyRead _ | PyReadInto _ | PyWrite _ => true | _ => false end.
(** A call that may fail without a trace: a read, or one that asks for the size. *)
Definition may_fail (mode : FileMode) (call : py_call) : bool :=
  match call with
  | PyRead _ | PyReadAt _ _ | PyReadInto _ | PyReadIntoAt _ _ => true
  | PyWrite _ => fm_append mode
  | PySeek _ whence => whence =? 2
  | _ => false
  end.
Definition write_start (mode : FileMode) (c : bytes) (p : Z) : Z := if fm_append mode then remaining c else p.
(** The position after a write at [at_] failed. *)
Definition position_after (at_ p : Z) (e : NfsError) : cursor :=
  match operation_outcome e with
  | Some o => if bool_decide (outcome_kind o = Uncertain) then Uncertain_since p
              else match completed_bytes o with Some n => Certain (Z.min (at_ + n) u64_max) | None => Certain p end
  | None => Certain p
  end.
Definition seek_base (c : bytes) (q : cursor) (whence : Z) : option Z :=
  match whence with
  | 0 => Some 0
  | 1 => certain q
  | 2 => match certain q with Some _ => Some (remaining c) | None => None end
  | _ => None
  end.
Definition seek_target (c : bytes) (q : cursor) (offset whence : Z) : option Z :=
  match seek_base c q whence with
  | Some base => if (0 <=? base + offset) && (base + offset <=? u64_max) then Some (base + offset) else None
  | None => None
  end.

Inductive plain_step (mode : FileMode) : plain -> py_call -> result py_value -> plain -> Prop :=
| pl_read c p size : fm_readable mode = true -> -1 <= size ->
    plain_step mode (c, Certain p) (PyRead size) (Ok (PvBytes (spec_read c p size))) (c, Certain (p + remaining (spec_read c p size)))
| pl_read_at c q offset size : fm_readable mode = true -> -1 <= size ->
    plain_step mode (c, q) (PyReadAt offset size) (Ok (PvBytes (spec_read c offset size))) (c, q)
| pl_fill c p t n : fm_readable mode = true -> n = remaining (part c p (remaining t)) ->
    plain_step mode (c, Certain p) (PyReadInto t) (Ok (PvFilled n (part c p (remaining t) ++ skipn (Z.to_nat n) t))) (c, Certain (p + n))
| pl_fill_at c q t offset n : fm_readable mode = true -> n = remaining (part c offset (remaining t)) ->
    plain_step mode (c, q) (PyReadIntoAt t offset) (Ok (PvFilled n (part c offset (remaining t) ++ skipn (Z.to_nat n) t))) (c, q)
| pl_write c p d : fm_writable mode = true ->
    plain_step mode (c, Certain p) (PyWrite d) (Ok (PvNumber (remaining d)))
      (overwrite c (write_start mode c p) d, Certain (write_start mode c p + remaining d))
| pl_write_failed c p d e c' : touched c (write_start mode c p) d c' ->
    plain_step mode (c, Certain p) (PyWrite d) (Err e) (c', position_after (write_start mode c p) p e)
| pl_write_at c q d offset : fm_writable mode = true -> fm_append mode = false ->
    plain_step mode (c, q) (PyWriteAt d offset) (Ok (PvNumber (remaining d))) (overwrite c offset d, q)
| pl_write_at_failed c q d offset e c' : touched c offset d c' -> plain_step mode (c, q) (PyWriteAt d offset) (Err e) (c', q)
| pl_seek c q offset whence next : seek_target c q offset whence = Some next ->
    plain_step mode (c, q) (PySeek offset whence) (Ok (PvNumber next)) (c, Certain next)
| pl_seek_refused c q offset whence e : seek_target c q offset whence = None ->
    plain_step mode (c, q) (PySeek offset whence) (Err e) (c, q)
| pl_truncate c q size n : fm_writable mode = true -> n = default (last_known q) size ->
    plain_step mode (c, q) (PyTruncate size) (Ok (PvNumber n)) (resize (Z.to_nat n) x00 c, q)
| pl_truncate_failed c q size n e c' : n = default (last_known q) size -> c' = c \/ c' = resize (Z.to_nat n) x00 c ->
    plain_step mode (c, q) (PyTruncate size) (Err e) (c', q)
| pl_tell c q : plain_step mode (c, q) PyTell (Ok (PvNumber (last_known q))) (c, q)
| pl_flush c q : plain_step mode (c, q) PyFlush (Ok PvNone) (c, q)
| pl_failed c q call e : may_fail mode call = true -> (needs_position call = true -> certain q <> None) -> plain_step mode (c, q) call (Err e) (c, q)
| pl_uncertain c p call : needs_position call = true ->
    plain_step mode (c, Uncertain_since p) call (Err uncertain_error) (c, Uncertain_since p).

(** *** One call of the object against a server that has the file *)

Definition answer_map {A B} (g : A -> B) (r : result A) : result B := let* x := r in Ok (g x).
(** GETATTR tells the size of the file or fails. *)
Definition tells_size (c : bytes) (size : result Z) : Prop := size = Ok (remaining c) \/ exists e, size = Err e.
(** What SETATTR of a size does to the file. *)
Definition sized (c : bytes) (answered : result ()) (sent : option Z) (c' : bytes) : Prop :=
  match sent, answered with
  | None, _ => c' = c
  | Some n, Ok _ => c' = resize (Z.to_nat n) x00 c
  | Some n, Err _ => c' = c \/ c' = resize (Z.to_nat n) x00 c
  | Some _, Panic => False
  end.

Inductive op_step (c : bytes) (f : FileResource) : py_call -> result py_value -> bytes -> FileResource -> Prop :=
| op_read fuel answer size r f' : remaining c < Z.of_nat fuel -> serves_file c answer -> read fuel answer size f = Some (r, f') ->
    op_step c f (PyRead size) (answer_map PvBytes r) c f'
| op_read_at fuel answer offset size r : remaining c < Z.of_nat fuel -> serves_file c answer -> 0 <= offset <= u64_max ->
    read_at fuel f answer offset size = Some r -> op_step c f (PyReadAt offset size) (answer_map (fun x => PvBytes (concat x.1)) r) c f
| op_fill answer t r f' : remaining t <= u64_max -> serves_file c answer -> read_into answer t f = (r, f') ->
    op_step c f (PyReadInto t) (answer_map (fun x => PvFilled x.1 x.2) r) c f'
| op_fill_at answer t offset : remaining t <= u64_max -> serves_file c answer -> 0 <= offset <= u64_max ->
    op_step c f (PyReadIntoAt t offset) (answer_map (fun x => PvFilled x.1 x.2) (read_into_at f answer offset t)) c f
| op_write size evs d r log f' c' : tells_size c size -> Forall answered_ok evs -> write size evs d f = Some (r, log, f') ->
    effect c log c' -> remaining c' <= u64_max -> op_step c f (PyWrite d) (answer_map PvNumber r) c' f'
| op_write_at evs d offset r log c' : Forall answered_ok evs -> 0 <= offset <= u64_max -> write_at f evs offset d = Some (r, log) ->
    effect c log c' -> remaining c' <= u64_max -> op_step c f (PyWriteAt d offset) (answer_map PvNumber r) c' f
| op_seek size offset whence r f' : tells_size c size -> seek size offset whence f = (r, f') ->
    op_step c f (PySeek offset whence) (answer_map PvNumber r) c f'
| op_truncate answered size r sent c' : (forall n, size = Some n -> 0 <= n <= u64_max) ->
    truncate answered size f = (r, sent) -> sized c answered sent c' -> op_step c f (PyTruncate size) (answer_map PvNumber r) c' f
| op_flush : op_step c f PyFlush (answer_map (fun _ => PvNone) (flush_inner f)) c f.

Definition sound (c : bytes) (f : FileResource) : Prop := 0 <= fr_position f <= u64_max /\ 0 < fr_max_read f /\ remaining c <= u64_max.
Definition abs_position (f : FileResource) : cursor :=
  if fr_uncertain f then Uncertain_since (fr_position f) else Certain (fr_position f).

(** An operation moves the position, and touches nothing else of the object. *)
Definition moved (f f' : FileResource) : Prop := f' = set_position f (fr_position f') (fr_uncertain f').
Lemma moved_refl f : moved f f. Proof. by destruct f. Qed.
Lemma moved_set f p u : moved f (set_position f p u). Proof. done. Qed.

Definition simulated (c : bytes) (f : FileResource) (call : py_call) (r : result py_value) (c' : bytes) (f' : FileResource) : Prop :=
  plain_step (fr_mode f) (c, abs_position f) call r (c', abs_position f') /\ moved f f' /\ sound c' f'.

Lemma read_simulated c f fuel answer size r f' : sound c f -> remaining c < Z.of_nat fuel -> serves_file c answer ->
  read fuel answer size f = Some (r, f') -> simulated c f (PyRead size) (answer_map PvBytes r) c f'.
Proof.
  intros (Hp & Hm & Hc) Hf Hs. unfold read, simulated, abs_position. destruct (fr_uncertain f) eqn:Hu.
  { intros [= <- <-]. rewrite Hu. split; [by apply pl_uncertain|]. split; [apply moved_refl|done]. }
  destruct (read_at_refines f c fuel answer (fr_position f) size Hp Hc Hm Hs Hf) as (x & -> & Hw & _).
  destruct x as [[ps n]|e|]; [| |done].
  - cbn in Hw. destruct Hw as (Hr & Hsz & Hd & ->). intros [= <- <-]. cbn. rewrite Hd.
    pose proof (spec_read_end c (fr_position f) size Hp Hc) as He. pose proof (remaining_nonneg (spec_read c (fr_position f) size)).
    assert (Hsat : sat_add64 (fr_position f) (remaining (spec_read c (fr_position f) size)) =
      fr_position f + remaining (spec_read c (fr_position f) size)) by (unfold sat_add64; lia). rewrite Hsat.
    split; [by apply pl_read|]. split; [done|]. split_and!; cbn; [lia..|done|done].
  - intros [= <- <-]. rewrite Hu. split; [by apply pl_failed|]. split; [apply moved_refl|done].
Qed.

Lemma read_into_simulated c f answer t r f' : sound c f -> remaining t <= u64_max -> serves_file c answer ->
  read_into answer t f = (r, f') -> simulated c f (PyReadInto t) (answer_map (fun x => PvFilled x.1 x.2) r) c f'.
Proof.
  intros (Hp & Hm & Hc) Ht Hs. unfold read_into, simulated, abs_position. destruct (fr_uncertain f) eqn:Hu.
  { intros [= <- <-]. rewrite Hu. split; [by apply pl_uncertain|]. split; [apply moved_refl|done]. }
  pose proof (read_into_at_refines f c answer (fr_position f) t ltac:(lia) Ht Hs) as Hw.
  destruct (read_into_at _ _ _ _) as [[n t']|e|]; [| |done].
  - cbn in Hw. destruct Hw as (Hr & -> & ->). set (n := remaining (part c _ _)).
    assert (He : fr_position f + n <= u64_max).
    { unfold n, part, remaining in *. rewrite length_take, length_drop. lia. }
    pose proof (remaining_nonneg (part c (fr_position f) (remaining t))) as Hn. fold n in Hn.
    unfold checked_add64. destruct (Z.leb_spec (fr_position f + n) u64_max); [|lia]. intros [= <- <-]. cbn.
    split; [by apply pl_fill|]. split; [done|]. split_and!; cbn; [lia..|done|done].
  - intros [= <- <-]. rewrite Hu. split; [by apply pl_failed|]. split; [apply moved_refl|done].
Qed.

Lemma effect_nothing c c' : effect c [] c' -> c' = c.
Proof. intros He. apply (write_effect c 0 [] [] c'); [done|constructor|done|]. intros i. rewrite remaining_nil. lia. Qed.

(** The position a write leaves is the one the specification has. *)
Lemma written_after f at_ e : fr_uncertain f = false -> abs_position (written f at_ (Err e)) = position_after at_ (fr_position f) e.
Proof.
  intros Hu. unfold written, position_after, abs_position. destruct (operation_outcome e) as [o|]; [|by rewrite Hu].
  destruct (bool_decide _); [done|]. destruct (completed_bytes o); [|by rewrite Hu]. cbn. by rewrite Hu.
Qed.
Lemma written_moved f at_ r : moved f (written f at_ r).
Proof. unfold written. destruct r; repeat case_match; (apply moved_set || apply moved_refl). Qed.

Lemma write_simulated c f size evs d r log f' c' : sound c f -> tells_size c size -> Forall answered_ok evs ->
  write size evs d f = Some (r, log, f') -> effect c log c' -> remaining c' <= u64_max ->
  simulated c f (PyWrite d) (answer_map PvNumber r) c' f'.
Proof.
  intros (Hp & Hm & Hc) Hsize Hev. unfold write, simulated. destruct (fr_uncertain f) eqn:Hu.
  { intros [= <- <- <-] ->%effect_nothing Hc'. unfold abs_position. rewrite Hu.
    split; [by apply pl_uncertain|]. split; [apply moved_refl|done]. }
  assert (Hq : abs_position f = Certain (fr_position f)) by (unfold abs_position; by rewrite Hu). rewrite Hq.
  destruct (if fm_append (fr_mode f) then size else Ok (fr_position f)) as [at_|e|] eqn:Hat.
  2:{ intros [= <- <- <-] ->%effect_nothing Hc'. rewrite Hq. split; [|split; [apply moved_refl|done]]. apply pl_failed; [|done].
      cbn. by destruct (fm_append _). }
  2:{ destruct (fm_append _); [|done]. subst size. by destruct Hsize as [|[]]. }
  assert (at_ = write_start (fr_mode f) c (fr_position f)) as ->.
  { unfold write_start. destruct (fm_append _); [|by simplify_eq]. subst size. destruct Hsize as [|[]]; by simplify_eq. }
  set (at_ := write_start _ _ _). assert (Ha : 0 <= at_ <= u64_max)
    by (unfold at_, write_start; destruct (fm_append _); [pose proof (remaining_nonneg c)|]; lia).
  destruct (write_complete_at _ _ _ _) as [[r' log']|] eqn:Ew; [|done]. intros [= -> -> <-] He Hc'.
  destruct (write_complete_refines f c evs at_ d r log c' ltac:(lia) Hev Ew He) as [Ht Hr].
  split; [|split; [apply written_moved|]].
  - destruct r as [n|e|]; [| |done].
    + destruct Hr as (Hw & -> & -> & Hle). unfold written, abs_position. cbn. rewrite Hu.
      replace (sat_add64 at_ (remaining d)) with (at_ + remaining d) by (unfold sat_add64; lia). by apply pl_write.
    + rewrite written_after by done. cbn. by apply pl_write_failed.
  - split; [|split; [by unfold written; repeat case_match|done]]. destruct r as [n|e|]; [| |done].
    + destruct Hr as (_ & -> & _ & Hle). pose proof (remaining_nonneg d). cbn. unfold sat_add64. lia.
    + destruct Hr as [_ Hr]. unfold written, is_uncertain in *. destruct (operation_outcome e) as [o|]; [|done].
      destruct (bool_decide _); [done|]. destruct (completed_bytes o) as [k|] eqn:Ek; [|done].
      specialize (Hr eq_refl o k eq_refl Ek). cbn. unfold sat_add64. lia.
Qed.

Lemma seek_simulated c f size offset whence r f' : sound c f -> tells_size c size -> seek size offset whence f = (r, f') ->
  simulated c f (PySeek offset whence) (answer_map PvNumber r) c f'.
Proof.
  intros (Hp & Hm & Hc) Hsize. unfold seek, simulated.
  assert (Hsame : forall e, seek_target c (abs_position f) offset whence = None ->
    plain_step (fr_mode f) (c, abs_position f) (PySeek offset whence) (Err e) (c, abs_position f) /\ moved f f /\ sound c f).
  { intros e Hn. split; [by apply pl_seek_refused|]. split; [apply moved_refl|done]. }
  destruct (negb (whence =? 0) && fr_uncertain f) eqn:Hg.
  { intros [= <- <-]. apply Hsame. apply andb_true_iff in Hg as [Hz%negb_true_iff%Z.eqb_neq Hu].
    unfold seek_target, seek_base, abs_position. rewrite Hu. by destruct whence as [|[[]|[]|]|]. }
  assert (Hbase : match (match whence with 0 => Ok 0 | 1 => Ok (fr_position f) | 2 => size
                   | _ => Err (InvalidInput "whence must be SEEK_SET, SEEK_CUR, or SEEK_END") end) with
    | Ok b => seek_base c (abs_position f) whence = Some b
    | Err e => whence = 2 \/ seek_base c (abs_position f) whence = None
    | Panic => False end).
  { destruct (Z.eqb_spec whence 0) as [->|Hz]; [done|]. cbn in Hg. unfold seek_base, abs_position. rewrite Hg.
    destruct Hsize as [->|[e ->]]; destruct whence as [|[[]|[]|]|]; auto. }
  destruct (match whence with 0 => Ok 0 | 1 => Ok (fr_position f) | 2 => size | _ => _ end) as [b|e|]; [| |done].
  - unfold seek_target in Hsame. rewrite Hbase in Hsame.
    destruct (Z.ltb_spec (b + offset) 0), (Z.ltb_spec u64_max (b + offset)); cbn;
      [intros [= <- <-]; apply Hsame; repeat case_match; try done; lia..|]. intros [= <- <-].
    assert (Hu : (if whence =? 0 then false else fr_uncertain f) = false) by (by destruct (whence =? 0)).
    split; [|split; [done|]; split_and!; cbn; [lia|lia|done|done]]. unfold abs_position at 2. cbn. rewrite Hu. apply pl_seek.
    unfold seek_target. rewrite Hbase. destruct (Z.leb_spec 0 (b + offset)), (Z.leb_spec (b + offset) u64_max); (done || lia).
  - intros [= <- <-]. destruct Hbase as [->|Hn]; [|apply Hsame; unfold seek_target; by rewrite Hn].
    split; [by apply pl_failed|]. split; [apply moved_refl|done].
Qed.

Lemma truncate_simulated c f answered size r sent c' : sound c f ->
  (forall n, size = Some n -> 0 <= n <= u64_max) -> truncate answered size f = (r, sent) -> sized c answered sent c' ->
  simulated c f (PyTruncate size) (answer_map PvNumber r) c' f.
Proof.
  intros (Hp & Hm & Hc) Hsz. unfold truncate. set (n := default (fr_position f) size).
  assert (Hn : n = default (last_known (abs_position f)) size /\ 0 <= n <= u64_max).
  { unfold n, abs_position. destruct size as [m|]; [split; [done|by apply Hsz]|]. by destruct (fr_uncertain f). }
  destruct Hn as [Hn Hb]. assert (Hsound : c' = c \/ c' = resize (Z.to_nat n) x00 c -> sound c' f).
  { intros [->| ->]; (split; [done|]; split; [done|]); [done|]. unfold remaining. rewrite length_resize. lia. }
  destruct (fm_writable (fr_mode f)) eqn:Hw; cbn [negb]; intros [= <- <-] Hs; cbn in Hs.
  - destruct answered as [[]|e|]; [| |done]; (split; [|split; [apply moved_refl|apply Hsound; auto]]).
    + subst c'. by apply pl_truncate.
    + by eapply pl_truncate_failed.
  - split; [|split; [apply moved_refl|apply Hsound; auto]]. eapply (pl_truncate_failed _ _ _ _ n); auto.
Qed.

Lemma op_simulated c f call r c' f' : sound c f -> op_step c f call r c' f' -> simulated c f call r c' f'.
Proof.
  intros Hso Hop. destruct Hop; [by eapply read_simulated| |by eapply read_into_simulated| |by eapply write_simulated| |by eapply seek_simulated|by eapply truncate_simulated|];
    destruct Hso as (Hp & Hm & Hc); (split; [|split; [apply moved_refl|]]).
  - destruct (read_at_refines f c fuel answer offset size) as (x & Hx & Hw & _); [done..|]. simplify_eq. destruct r as [[ps n]|e|]; [| |done].
    + destruct Hw as (Hr & Hsz & Hd & _). cbn. rewrite Hd. by apply pl_read_at.
    + by apply pl_failed.
  - done.
  - pose proof (read_into_at_refines f c answer offset t ltac:(lia) ltac:(done) ltac:(done)) as Hw.
    destruct (read_into_at _ _ _ _) as [[n t']|e|]; [| |done].
    + destruct Hw as (Hr & -> & ->). cbn. by apply pl_fill_at.
    + by apply pl_failed.
  - done.
  - unfold write_at in *. destruct (fm_append (fr_mode f)) eqn:Happ; [simplify_eq; apply pl_write_at_failed|].
    { match goal with H : effect _ [] _ |- _ => apply effect_nothing in H as -> end. apply touched_refl. }
    match goal with H : write_complete_at _ _ _ _ = _, H' : effect _ _ _ |- _ =>
      destruct (write_complete_refines f c evs offset d r log c' ltac:(lia) ltac:(done) H H') as [Ht Hr] end.
    destruct r as [n|e|]; [|by apply pl_write_at_failed|done]. destruct Hr as (Hw & -> & -> & _). by apply pl_write_at.
  - done.
  - apply pl_flush.
  - done.
Qed.

(** *** The object between its calls *)

Section Object.
Context (is_shared_failure : IoPayload NfsError -> bool).
#[local] Notation observe := (observe_file_result is_shared_failure).

(** A call: [begin_operation], the operation, and the observation of its result;
    [tell] alone does without them. [generation] is the one the mount reports. *)
Inductive py_step : bytes * FileResource -> py_call -> result py_value -> bytes * FileResource -> Prop :=
| py_refused c f call generation e f' : call <> PyTell -> begin_operation (fun f => f) generation f = (Err e, f') ->
    py_step (c, f) call (Err e) (c, observe (Err (A := py_value) e) f')
| py_done c f call generation f1 r c' f' : begin_operation (fun f => f) generation f = (Ok (), f1) -> op_step c f1 call r c' f' ->
    py_step (c, f) call r (c', observe r f')
| py_tell c f : py_step (c, f) PyTell (answer_map PvNumber (tell f)) (c, f).

Inductive py_run : bytes * FileResource -> list (py_call * result py_value) -> bytes * FileResource -> Prop :=
| run_end s : py_run s [] s
| run_call s call r s1 trace s' : py_step s call r s1 -> py_run s1 trace s' -> py_run s ((call, r) :: trace) s'.

Definition loses {A} (r : result A) : bool := match r with Err e => error_loses_open_state is_shared_failure e | _ => false end.

(** The abstract file until its open state is lost; from then on every call fails
    and does nothing. *)
Inductive file_step (mode : FileMode) : plain * bool -> py_call -> result py_value -> plain * bool -> Prop :=
| fs_gone s call : file_step mode (s, false) call (Err lost_error) (s, false)
| fs_lose s call : file_step mode (s, true) call (Err lost_error) (s, false)
| fs_do s call r s' : plain_step mode s call r s' -> file_step mode (s, true) call r (s', negb (loses r)).
Inductive file_run (mode : FileMode) : plain * bool -> list (py_call * result py_value) -> plain * bool -> Prop :=
| file_end s : file_run mode s [] s
| file_call s call r s1 trace s' : file_step mode s call r s1 -> file_run mode s1 trace s' -> file_run mode s ((call, r) :: trace) s'.

Definition abs (c : bytes) (f : FileResource) : plain * bool := (c, abs_position f, negb (fr_lost f)).

(** What no call changes. *)
Definition kept (f f' : FileResource) : Prop :=
  fr_mode f' = fr_mode f /\ same_close f f' /\ fr_recovery_generation f' = fr_recovery_generation f.

Lemma moved_kept f f' : moved f f' -> kept f f' /\ fr_lost f' = fr_lost f.
Proof. intros ->. done. Qed.
Lemma kept_trans f f1 f2 : kept f f1 -> kept f1 f2 -> kept f f2.
Proof. unfold kept, same_close. intuition congruence. Qed.
Lemma observe_kept {A} (r : result A) f : kept f (observe r f) /\ abs_position (observe r f) = abs_position f /\
  fr_lost (observe r f) = fr_lost f || loses r /\ (forall c, sound c f -> sound c (observe r f)).
Proof. unfold observe_file_result, loses. destruct r as [|e|]; [|destruct (error_loses_open_state _ e)|]; by rewrite ?orb_true_r, ?orb_false_r. Qed.

Lemma step_simulated c f call r c' f' : sound c f -> fr_lifecycle f = 0 -> py_step (c, f) call r (c', f') ->
  file_step (fr_mode f) (abs c f) call r (abs c' f') /\ sound c' f' /\ kept f f'.
Proof.
  intros Hso Hl Hs. inversion Hs as [? ? ? g e f1 Hnt Hb|? ? ? g f1 ? ? f2 Hb Hop|]; subst.
  3: { split; [|done]. unfold tell, closed, abs. rewrite Hl. destruct (fr_lost f') eqn:Hlost; [apply fs_gone|].
       apply fs_do. cbn. replace (fr_position f') with (last_known (abs_position f')); [apply pl_tell|].
       unfold abs_position. by destruct (fr_uncertain f'). }
  all: unfold begin_operation, closed in Hb; rewrite Hl in Hb; cbn in Hb.
  - assert (e = lost_error /\ (f1 = set_lost f \/ f1 = f)) as [-> Hf1].
    { destruct (negb (g =? _)); cbn in Hb; [simplify_eq; auto|]. destruct (fr_lost f); [simplify_eq; auto|by rewrite Hl in Hb]. }
    assert (Hset : forall f', f' = set_lost f -> file_step (fr_mode f) (abs c' f) call (Err lost_error) (abs c' f') /\ sound c' f' /\ kept f f').
    { intros f' ->. split; [|done]. unfold abs. destruct (fr_lost f); [apply fs_gone|apply fs_lose]. }
    cbn. destruct Hf1 as [-> | ->]; by apply Hset.
  - destruct (negb (g =? fr_recovery_generation f)) eqn:Hg; [done|]. destruct (fr_lost f) eqn:Hlost; [done|].
    rewrite Hl in Hb. injection Hb as <-. destruct (op_simulated _ _ _ _ _ _ Hso Hop) as (Hp & Hm & Hsd).
    apply moved_kept in Hm as [Hm Hlo]. destruct (observe_kept r f2) as (Hk & Hq & Hlo' & Hsd').
    split; [|split; [by apply Hsd'|by eapply kept_trans]]. unfold abs. rewrite Hq, Hlo', Hlo, Hlost. by apply fs_do.
Qed.

Lemma run_simulated c f trace c' f' : sound c f -> fr_lifecycle f = 0 -> py_run (c, f) trace (c', f') ->
  file_run (fr_mode f) (abs c f) trace (abs c' f') /\ sound c' f' /\ kept f f'.
Proof.
  intros Hso Hl Hrun. remember (c, f) as s eqn:Es. remember (c', f') as s' eqn:Es'. revert c f Es Hso Hl.
  induction Hrun as [s|s call r [c1 f1] trace s' Hs Hrun IH]; intros c f -> Hso Hl; [simplify_eq; by split_and!; [constructor|apply Hso..|]|].
  destruct (step_simulated _ _ _ _ _ _ Hso Hl Hs) as (Hfs & Hso1 & Hk). assert (Hl1 : fr_lifecycle f1 = 0) by (by destruct Hk as (_ & [-> _] & _)).
  destruct (IH Es' c1 f1 eq_refl Hso1 Hl1) as (Hfr & Hso' & Hk'). rewrite (proj1 Hk) in Hfr.
  split_and!; [by econstructor|apply Hso'..|]. by eapply kept_trans.
Qed.
End Object.

(** C19: whatever the server does within its protocol, the calls on a Python file
    object and their results are those of a plain file with a position: a read
    returns exactly the bytes at the position (all of them for size -1, in windows,
    whatever the chunks and the short answers), a readinto fills the buffer with
    them, a successful write leaves exactly its bytes at the position or, in
    append mode, at the end, and moves behind them; a failed one changes no byte
    outside its range and makes the position uncertain when its outcome is.  At an
    uncertain position reads, readintos, writes and seeks relative to it fail
    without an effect until a seek from the start, whereas tell answers the
    position from before the write and truncate without a size cuts the file
    there.  At a certain one tell, seek and truncate do as on a plain file.  Once
    the open state is lost every call fails and does nothing.  Moreover a read of
    an object that is not lost succeeds when the server answers. *)
Theorem python_file_refines is_shared_failure mode position max_read max_write generation p file c trace c' f' :
  0 <= position <= u64_max -> remaining c <= u64_max ->
  py_run is_shared_failure (c, FileResource_mount mode position max_read max_write generation p file) trace (c', f') ->
  file_run is_shared_failure mode (c, Certain position, true) trace (c', abs_position f', negb (fr_lost f')) /\
  forall fuel answer size q, abs_position f' = Certain q -> fm_readable mode = true -> -1 <= size -> q + size <= u64_max ->
    serves_file c' answer -> serves_all answer -> remaining c' < Z.of_nat fuel ->
    exists f'', read fuel answer size f' = Some (Ok (spec_read c' q size), f'').
Proof.
  intros Hp Hc Hrun. set (f := FileResource_mount _ _ _ _ _ _ _) in *.
  assert (Hso : sound c f) by (split; [done|]; split; [cbn; lia|done]).
  destruct (run_simulated _ _ _ _ _ _ Hso eq_refl Hrun) as (Hfr & Hso' & Hk). split; [exact Hfr|].
  intros fuel answer size q Hq Hr Hsz Hle Hs Ha Hfu. destruct Hso' as (Hp' & Hm' & Hc').
  unfold abs_position in Hq. unfold read. destruct (fr_uncertain f'); [done|]. injection Hq as <-.
  destruct (read_at_refines f' c' fuel answer (fr_position f') size) as (r & -> & Hw & Ht); [done..|].
  destruct Ht as [[ps n] ->]; [by rewrite (proj1 Hk)|done..|]. cbn in Hw. destruct Hw as (_ & _ & -> & _). by eexists.
Qed.

(** Two bytes are read from, the second is written to, and the position goes back
    to the start. *)
Definition demo_opened : OpenFile := from_object {| o_fh := [x01]; o_attr := None |}.
Definition demo_mode : FileMode := {| fm_readable := true; fm_writable := true; fm_append := false; fm_create := false; fm_truncate := false |}.
Definition demo_file (position : Z) : FileResource := FileResource_mount demo_mode position 1 4 0 NFSv4p1 demo_opened.
Definition demo_byte_events : list io_event := [EvWrite 0 (inl (receipt 1)); EvCollect 0; EvCommit (inl ())].
Definition demo_byte_log : list io_call := [IoWrite 1 [x07] (inl (receipt 1)); IoCommit 1 1 [receipt 1] (inl ())].
Definition demo_trace : list (py_call * result py_value) :=
  [(PyRead 1, Ok (PvBytes [x00])); (PyWrite [x07], Ok (PvNumber 1)); (PyTell, Ok (PvNumber 2)); (PySeek 0 0, Ok (PvNumber 0))].

Lemma one_byte_serves file : 0 < remaining file -> serves_file file (one_byte_server file) /\ serves_all (one_byte_server file).
Proof.
  intros Hf. split; intros off cnt Hc; cbn.
  - split; [apply prefix_take|]. unfold part. intros H. destruct (decide (remaining file <= off)); [done|].
    apply (f_equal length) in H. rewrite length_take, length_drop in H. unfold remaining in *. cbn [length] in *. lia.
  - eexists. split; [done|]. unfold part, remaining. rewrite length_take. lia.
Qed.

Lemma demo_effect : effect [x00; x01] demo_byte_log [x00; x07].
Proof.
  split.
  - intros i Hi Hn. assert (H2 : remaining [x00; x07] = 2) by done. rewrite H2 in Hi. destruct (Z.eq_dec i 1) as [->|]; [|by assert (i = 0) as -> by lia].
    exfalso. eapply (Hn 1); [by left|vm_compute; split; [intros [=]|done]].
  - intros i o d w Hin Hoi. apply list_elem_of_singleton in Hin as [= -> -> ->]. exists 1, [x07], (inl (receipt 1)).
    split; [by left|]. split; [done|]. assert (i = 1) as -> by (unfold remaining in Hoi; cbn in Hoi; lia). done.
  - split; [done|]. intros H. vm_compute in H. done.
Qed.

Lemma demo_run_python : py_run (fun _ => false) ([x00; x01], demo_file 0) demo_trace ([x00; x07], demo_file 0).
Proof.
  pose proof (one_byte_serves [x00; x01] eq_refl) as [Hs _].
  eapply run_call; [eapply (py_done _ _ _ _ 0); [done|];
    apply (op_read [x00; x01] (demo_file 0) 4 (one_byte_server [x00; x01]) 1 (Ok [x00]) (demo_file 1)); [by vm_compute|done|by vm_compute]|].
  eapply run_call; [eapply (py_done _ _ _ _ 0); [done|];
    apply (op_write [x00; x01] (demo_file 1) (Ok 2) demo_byte_events [x07] (Ok 1) demo_byte_log (demo_file 2)); [by left| |by vm_compute|apply demo_effect|by vm_compute]|].
  { repeat (apply Forall_cons_2; [by vm_compute|]). apply Forall_nil_2. }
  eapply run_call; [apply py_tell|].
  eapply run_call; [eapply (py_done _ _ _ _ 0); [done|];
    apply (op_seek [x00; x07] (demo_file 2) (Ok 2) 0 0 (Ok 0) (demo_file 0)); [by left|done]|]. apply run_end.
Qed.

Lemma python_file_refines_witness :
  file_run (fun _ => false) demo_mode ([x00; x01], Certain 0, true) demo_trace ([x00; x07], Certain 0, true) /\
  exists f'', read 9 (one_byte_server [x00; x07]) (-1) (demo_file 0) = Some (Ok [x00; x07], f'').
Proof.
  pose proof (one_byte_serves [x00; x07] eq_refl) as [Hs Ha].
  destruct (python_file_refines (fun _ => false) demo_mode 0 1 4 0 NFSv4p1 demo_opened [x00; x01] demo_trace [x00; x07] (demo_file 0))
    as [H1 H2]; [by vm_compute|by vm_compute|apply demo_run_python|].
  split; [exact H1|]. apply (H2 9%nat (one_byte_server [x00; x07]) (-1) 0); [done|done|done|by vm_compute|done|done|by vm_compute].
Defined.

(** *** What the documentation of the object leaves out *)

(** A write of which one byte was acknowledged before the second was refused. *)
Definition torn_events : list io_event := [EvWrite 0 (inl (receipt 1)); EvWrite 0 (inr (Nfs4 NFS4ERR_NOSPC)); EvCollect 0].

(** The position is uncertain, [tell] answers the one from before the write, and a
    truncate without a size cuts the file there. *)
Lemma uncertain_position_used :
  exists e log f', write (Ok 0) torn_events [x01; x02] (demo_file 0) = Some (Err e, log, f') /\ ack_bytes log = 1 /\
    fr_uncertain f' = true /\ tell f' = Ok 0 /\ truncate (Ok ()) None f' = (Ok 0, Some 0).
Proof. eexists _, _, _. split; [vm_compute; reflexivity|]. by vm_compute. Qed.

(** A file opened while the client began to close: no key is given out, and the
    file is neither registered nor closed. *)
Lemma open_leaks_while_closing :
  exists e a, open_file "rb" (fun _ => Ok demo_opened) (Ok 0) 1 1 0 NFSv4p1 (fun c => set_lifecycle c CLOSING)
    {| ad_core := core_new; ad_files := ∅ |} = (Err e, a, []) /\ ad_files a = ∅.
Proof. eexists _, _. split; vm_compute; reflexivity. Qed.

(** ** Closing *)

(** Before the first close, while its task runs, and after. *)
Inductive close_phase (file : OpenFile) (w : CloseWorld) : Prop :=
| cp_open : fr_lifecycle (cl_res w) = 0 -> fr_started (cl_res w) = false -> fr_file (cl_res w) = Some file ->
    fr_result (cl_res w) = None -> cl_tasks w = [] -> cl_sent w = [] -> cl_told w = [] -> close_phase file w
| cp_running : closed (cl_res w) = true -> fr_started (cl_res w) = true -> fr_result (cl_res w) = None -> cl_tasks w = [Some file] ->
    cl_sent w = [] -> cl_told w = [] -> close_phase file w
| cp_done r : closed (cl_res w) = true -> fr_started (cl_res w) = true -> fr_result (cl_res w) = Some r -> cl_tasks w = [] ->
    cl_sent w = [file] -> Forall (eq r) (cl_told w) -> close_phase file w.

Lemma singleton_split {A} (x y : A) before after : [x] = before ++ y :: after -> before = [] /\ after = [] /\ y = x.
Proof. destruct before as [|b before]; cbn; [by intros [= -> <-]|]. intros [= _ H]. by destruct before. Qed.

Lemma close_step_phase file w w' : close_phase file w -> close_step w w' -> close_phase file w'.
Proof.
  intros Hph Hs. destruct Hs as [w f (Hl & Hst & Hf & Hr)|w task f He|w before t after answered Ht|w r Hst Hr].
  - destruct Hph as [H1 H2 H3 H4|H1 H2 H3|r H1 H2 H3]; [apply cp_open|apply cp_running|apply (cp_done _ _ r)];
      cbn; rewrite ?Hl, ?Hst, ?Hf, ?Hr; try done; unfold closed in *; by rewrite Hl.
  - unfold close_enter in He. destruct Hph as [H1 H2 H3 H4 H5|H1 H2 H3 H4|r H1 H2 H3 H4]; rewrite H2 in He; injection He as <- <-.
    + apply cp_running; cbn; rewrite ?H3, ?H5; done.
    + apply cp_running; cbn; rewrite ?app_nil_r; done.
    + apply (cp_done _ _ r); cbn; rewrite ?app_nil_r; done.
  - destruct Hph as [H1 H2 H3 H4 H5|H1 H2 H3 H4 H5 H6|r H1 H2 H3 H4]; [rewrite H5 in Ht; by destruct before| |rewrite H4 in Ht; by destruct before].
    rewrite H4 in Ht. apply singleton_split in Ht as (-> & -> & ->).
    eapply cp_done; cbn; [done|done|done|done|by rewrite H5|by rewrite H6].
  - destruct Hph as [H1 H2|H1 H2 H3|r' H1 H2 H3 H4 H5 H6]; [congruence..|]. rewrite H3 in Hr. injection Hr as <-.
    apply (cp_done _ _ r'); [done..|]. cbn. apply Forall_app. by split; [|constructor].
Qed.

(** C20: however many callers close a Python file object, while operations run on
    it and before or after its close has been sent, the open file is given up at
    most once; every caller is told the same report, and only after the close was
    sent; from the first call on operations are refused; and a caller that waits
    waits for a task that runs or can be told the report. *)
Theorem python_file_closes_once mode position max_read max_write generation p file w :
  rtc close_step (opened_world (FileResource_mount mode position max_read max_write generation p file)) w ->
  (cl_sent w = [] \/ cl_sent w = [file]) /\
  (forall r, r ∈ cl_told w -> cl_sent w = [file] /\ fr_result (cl_res w) = Some r) /\
  (fr_started (cl_res w) = true -> forall others g, (begin_operation others g (cl_res w)).1 = Err closed_error) /\
  (fr_started (cl_res w) = true -> cl_tasks w = [Some file] \/ is_Some (fr_result (cl_res w))).
Proof.
  intros Hrun. assert (Hph : close_phase file w).
  { set (w0 := opened_world _) in *. assert (H0 : close_phase file w0) by (by apply cp_open). clearbody w0.
    induction Hrun; [done|]. eauto using close_step_phase. }
  assert (Hgate : closed (cl_res w) = true -> forall others g, (begin_operation others g (cl_res w)).1 = Err closed_error)
    by (intros Hc others g; unfold begin_operation; by rewrite Hc).
  destruct Hph as [H1 H2 H3 H4 H5 H6 H7|H1 H2 H3 H4 H5 H6|r H1 H2 H3 H4 H5 H6].
  - rewrite H7, H2. split_and!; [by left|intros r Hr; by apply not_elem_of_nil in Hr|done|done].
  - rewrite H6. split_and!; [by left|intros r Hr; by apply not_elem_of_nil in Hr|auto|auto].
  - split_and!; [by right| |auto|intros _; right; by eexists]. intros r' Hr. split; [done|].
    rewrite Forall_forall in H6. by rewrite <- (H6 _ Hr).
Qed.

(** Two callers, the server refuses the close, both hear of it. *)
Definition refused_close : result () := Err (FileClose [("close"%string, Nfs4 NFS4ERR_IO)]).
Definition demo_closed_world : CloseWorld :=
  {| cl_res := set_closing (demo_file 0) true None (Some refused_close); cl_tasks := []; cl_sent := [demo_opened];
     cl_told := [refused_close; refused_close] |}.
Lemma python_file_closes_once_witness :
  (forall r, r ∈ cl_told demo_closed_world -> cl_sent demo_closed_world = [demo_opened] /\ fr_result (cl_res demo_closed_world) = Some r) /\
  (begin_operation (fun f => f) 0 (cl_res demo_closed_world)).1 = Err closed_error.
Proof.
  destruct (python_file_closes_once demo_mode 0 1 4 0 NFSv4p1 demo_opened demo_closed_world) as (_ & H1 & H2 & _).
  - eapply rtc_l; [by eapply cs_enter|]. eapply rtc_l; [by eapply cs_enter|].
    eapply rtc_l; [by apply (cs_task _ [] (Some demo_opened) [] (Err (Nfs4 NFS4ERR_IO)))|].
    eapply rtc_l; [by eapply (cs_told _ refused_close)|]. eapply rtc_l; [by eapply (cs_told _ refused_close)|]. apply rtc_refl.
  - split; [exact H1|]. by apply H2.
Defined.
