(* ===== verification/Owned42.v ===== *)
(** * Owned mutations of NFSv4.2

    Models [run_owned] of [src/src/nfs41/v42_ops.rs], in which ALLOCATE,
    DEALLOCATE, COPY, CLONE and the changes of extended attributes run: the caller
    takes the locks of the files it touches in the order of their handles, fails
    when one of them has an abandoned error, and hands the locks to a task of its
    own that does the work, keeps the result until the caller acknowledges it, and
    records an uncertain result that nobody took against the file.

    As in [WriteOwner], every access to a shared cell is one step, steps of any
    number of operations interleave, a caller may be cancelled and a task may die
    where it awaits, what the work answers is chosen by the step, and a spawned
    task is polled at least once.  [WriteOwner] shows that the calls on a file
    share one lock, so that here a lock is named by its file.  The other operations
    of the mount hold at most one of these locks and wait for none while they do:
    [others] has their locks and whether they are held exclusively. *)
From Stdlib Require Import Strings.Byte.
From S2P Require Import Prelude Errors Compound41 V42 PnfsIo FileIo WriteOwner.
From stdpp Require Import base list numbers strings gmap relations sorting.
#[local] Open Scope Z_scope.

(** ** The order of the locks *)

(** [Ord] of [Bytes]. *)
Fixpoint handle_cmp (a b : bytes) : comparison :=
  match a, b with
  | [], [] => Eq
  | [], _ :: _ => Lt
  | _ :: _, [] => Gt
  | x :: a, y :: b => match N.compare (Byte.to_N x) (Byte.to_N y) with Eq => handle_cmp a b | c => c end
  end.
Definition handle_le (a b : bytes) : Prop := handle_cmp a b <> Gt.
Definition handle_lt (a b : bytes) : Prop := handle_cmp a b = Lt.
#[global] Instance handle_le_dec : RelDecision handle_le.
Proof. intros a b. unfold handle_le. apply _. Defined.

(** [Vec::dedup] *)
Fixpoint dedup (l : list bytes) : list bytes :=
  match l with
  | x :: (y :: _) as r => if decide (x = y) then dedup r else x :: dedup r
  | _ => l
  end.
Definition lock_order (source : option bytes) (destination : bytes) : list bytes :=
  dedup (merge_sort handle_le (destination :: option_list source)).

(** ** One operation *)

Section Owned.
Context {A : Type}.

(** The caller. [CLock rest] waits for the first lock of [rest], [CCheck] has it
    and looks for an error of its file; [CAbandon] to [CGone] are the drop of an
    unacknowledged [WriteWaiter]. *)
Inductive cphase : Type :=
| CLock (rest : list bytes) | CCheck (fh : bytes) (rest : list bytes) | CSpawn
| CAwait | CTake | CAcking (v : option (result A)) | CFail
| CAbandon | CStore | CDropAck | CGone
| CEnd (v : option (result A)).

(** What became of a mutation: its caller has the result, nobody took a result
    that needed no record, it was recorded, or the task died. *)
Inductive mfate : Type := MAcked (r : result A) | MUnclaimed (r : result A) | MRecorded | MDied.

Inductive mphase : Type :=
| MNone | MStart | MWork
| MStore (r : result A) | MReady (r : result A) | MAwaitAck (r : result A)
| MTake | MRecord (e : NfsError)
| MSettle (f : mfate) | MFinish (f : mfate)
| MDropRecord | MDropSwap | MDropFinish
| MRelease (f : mfate) | MClose (f : mfate) | MDone (f : mfate).

(** The file that is read, the file that is changed, the locks that are held (by the caller, later by the
    task), the shared cells, and where caller and task are. *)
Inductive op : Type :=
| Op (src : option bytes) (fh : bytes) (held : list bytes) (slot : option (result A)) (flag : bool) (ready ack : channel) (w : cphase) (t : mphase).

Definition o_source (c : op) : option bytes := let '(Op src _ _ _ _ _ _ _ _) := c in src.
Definition o_file (c : op) : bytes := let '(Op _ fh _ _ _ _ _ _ _) := c in fh.
Definition o_held (c : op) : list bytes := let '(Op _ _ held _ _ _ _ _ _) := c in held.
Definition o_caller (c : op) : cphase := let '(Op _ _ _ _ _ _ _ w _) := c in w.
Definition o_task (c : op) : mphase := let '(Op _ _ _ _ _ _ _ _ t) := c in t.

Definition op_new (source : option bytes) (destination : bytes) : op :=
  Op source destination [] None false ChOpen ChOpen (CLock (lock_order source destination)) MNone.

Definition died_error : NfsError := Rpc "admitted NFSv4.2 mutation task ended without settlement".
Definition no_value : NfsError := Rpc "NFSv4.2 operation task ended without result".
(** [mutation_error] of the mount; its version is the owner's. *)
Definition v42_error (o : WriteOwner) : NfsError :=
  uncertain_pnfs_write {| operation := "v42"; protocol := version (wr_minor_version o); request_id := None |} no_value.
Definition unclaimed (r : option (result A)) : option NfsError :=
  match r with Some (Err e) => if is_uncertain e then Some e else None | _ => None end.

(** ** Steps *)

(** A step that neither cancels a caller nor kills a task. [taken] says whether a
    lock is held. *)
Inductive op_go (o : WriteOwner) (taken : bytes -> Prop) : op -> WriteOwner -> op -> Prop :=
(* the locks *)
| g_lock src fh held s fl rd ak h rest : ~ taken h ->
    op_go o taken (Op src fh held s fl rd ak (CLock (h :: rest)) MNone) o (Op src fh (held ++ [h]) s fl rd ak (CCheck h rest) MNone)
| g_check src fh held s fl rd ak h rest : write_error o h = None ->
    op_go o taken (Op src fh held s fl rd ak (CCheck h rest) MNone) o (Op src fh held s fl rd ak (CLock rest) MNone)
| g_refused src fh held s fl rd ak h rest e : write_error o h = Some e ->
    op_go o taken (Op src fh held s fl rd ak (CCheck h rest) MNone) o (Op src fh [] s fl rd ak (CEnd (Some (Err e))) MNone)
| g_locked src fh held s fl rd ak :
    op_go o taken (Op src fh held s fl rd ak (CLock []) MNone) o (Op src fh held s fl rd ak CSpawn MNone)
(* the rest of the caller *)
| g_spawn src fh held s fl rd ak :
    op_go o taken (Op src fh held s fl rd ak CSpawn MNone) o (Op src fh held s fl rd ak CAwait MStart)
| g_spawn_fail src fh held s fl rd ak e :
    op_go o taken (Op src fh held s fl rd ak CSpawn MNone) o (Op src fh [] s fl rd ak (CEnd (Some (Err e))) MNone)
| g_ready src fh held s fl ak t :
    op_go o taken (Op src fh held s fl ChSent ak CAwait t) o (Op src fh held s fl ChSent ak CTake t)
| g_take src fh held s fl rd ak t :
    op_go o taken (Op src fh held s fl rd ak CTake t) o (Op src fh held None fl rd ak (CAcking s) t)
| g_ack src fh held s fl rd ak t v :
    op_go o taken (Op src fh held s fl rd ak (CAcking v) t)
      o (Op src fh held s fl rd ChSent (CEnd (Some (default (Err (Rpc "NFSv4.2 operation result already consumed")) v))) t)
| g_not_ready src fh held s fl ak t :
    op_go o taken (Op src fh held s fl ChDropped ak CAwait t) o (Op src fh held s fl ChDropped ChSent CFail t)
| g_fail src fh held s fl rd ak t :
    op_go o taken (Op src fh held s fl rd ak CFail t)
      o (Op src fh held s fl rd ak (CEnd (Some (Err (default (v42_error o) (write_error o fh))))) t)
| g_abandon src fh held s fl rd ak t :
    op_go o taken (Op src fh held s fl rd ak CAbandon t) (abandon o fh) (Op src fh held s fl rd ak CStore t)
| g_store src fh held s fl rd ak t :
    op_go o taken (Op src fh held s fl rd ak CStore t) o (Op src fh held s true rd ak CDropAck t)
| g_drop_ack src fh held s fl rd ak t :
    op_go o taken (Op src fh held s fl rd ak CDropAck t) o (Op src fh held s fl rd ChDropped CGone t)
(* the task *)
| m_start src fh held s fl rd ak w :
    op_go o taken (Op src fh held s fl rd ak w MStart) o (Op src fh held s fl rd ak w MWork)
| m_worked src fh held s fl rd ak w r : r <> Panic ->
    op_go o taken (Op src fh held s fl rd ak w MWork) o (Op src fh held s fl rd ak w (MStore r))
| m_store src fh held s fl rd ak w r :
    op_go o taken (Op src fh held s fl rd ak w (MStore r)) o (Op src fh held (Some r) fl rd ak w (MReady r))
| m_ready src fh held s fl rd ak w r :
    op_go o taken (Op src fh held s fl rd ak w (MReady r)) o (Op src fh held s fl ChSent ak w (MAwaitAck r))
| m_acked src fh held s fl rd w r :
    op_go o taken (Op src fh held s fl rd ChSent w (MAwaitAck r)) o (Op src fh held s fl rd ChSent w (MSettle (MAcked r)))
| m_abandoned src fh held s fl rd w r :
    op_go o taken (Op src fh held s fl rd ChDropped w (MAwaitAck r)) o (Op src fh held s fl rd ChDropped w MTake)
| m_take_record src fh held s fl rd ak w e : unclaimed s = Some e ->
    op_go o taken (Op src fh held s fl rd ak w MTake) o (Op src fh held None fl rd ak w (MRecord e))
| m_take_quiet src fh held s fl rd ak w : unclaimed s = None ->
    op_go o taken (Op src fh held s fl rd ak w MTake) o (Op src fh held None fl rd ak w (MSettle (MUnclaimed (default Panic s))))
| m_record src fh held s fl rd ak w e :
    op_go o taken (Op src fh held s fl rd ak w (MRecord e)) (record o fh e) (Op src fh held s fl rd ak w (MSettle MRecorded))
| m_settle src fh held s rd ak w f :
    op_go o taken (Op src fh held s true rd ak w (MSettle f)) o (Op src fh held s false rd ak w (MFinish f))
| m_settle_not src fh held s rd ak w f :
    op_go o taken (Op src fh held s false rd ak w (MSettle f)) o (Op src fh held s false rd ak w (MRelease f))
| m_finish src fh held s fl rd ak w f :
    op_go o taken (Op src fh held s fl rd ak w (MFinish f)) (finish_abandoned o fh) (Op src fh held s fl rd ak w (MRelease f))
| m_drop_record src fh held s fl rd ak w :
    op_go o taken (Op src fh held s fl rd ak w MDropRecord) (record o fh died_error) (Op src fh held s fl rd ak w MDropSwap)
| m_drop_swap src fh held s rd ak w :
    op_go o taken (Op src fh held s true rd ak w MDropSwap) o (Op src fh held s false rd ak w MDropFinish)
| m_drop_swap_not src fh held s rd ak w :
    op_go o taken (Op src fh held s false rd ak w MDropSwap) o (Op src fh held s false rd ak w (MRelease MDied))
| m_drop_finish src fh held s fl rd ak w :
    op_go o taken (Op src fh held s fl rd ak w MDropFinish) (finish_abandoned o fh) (Op src fh held s fl rd ak w (MRelease MDied))
| m_release src fh held s fl rd ak w f :
    op_go o taken (Op src fh held s fl rd ak w (MRelease f)) o (Op src fh [] s fl rd ak w (MClose f))
| m_close src fh held s fl rd ak w f :
    op_go o taken (Op src fh held s fl rd ak w (MClose f))
      o (Op src fh held s fl (match rd with ChOpen => ChDropped | _ => rd end) ak w (MDone f)).

(** A caller that waits for a lock or for the task is cancelled, or the task dies. *)
Inductive op_stop : op -> op -> Prop :=
| x_lock src fh held s fl rd ak h rest : op_stop (Op src fh held s fl rd ak (CLock (h :: rest)) MNone) (Op src fh [] s fl rd ak (CEnd None) MNone)
| x_await src fh held s fl rd ak t : op_stop (Op src fh held s fl rd ak CAwait t) (Op src fh held s fl rd ak CAbandon t)
| x_die src fh held s fl rd ak w t : match t with MWork | MAwaitAck _ => True | _ => False end ->
    op_stop (Op src fh held s fl rd ak w t) (Op src fh held s fl rd ak w MDropRecord).

Record owned : Type := { ow_owner : WriteOwner; ow_others : list (bytes * bool); ow_ops : list op }.

Definition excl (w : owned) : list bytes := concat (o_held <$> ow_ops w) ++ ((filter (fun p => p.2 = true) (ow_others w)).*1).
Definition taken (w : owned) (fh : bytes) : Prop := fh ∈ excl w \/ fh ∈ (ow_others w).*1.

(** Progress: of an operation, or another operation of the mount that ends. *)
Inductive owned_go : owned -> owned -> Prop :=
| go_op o ot l1 c l2 o' c' : op_go o (taken {| ow_owner := o; ow_others := ot; ow_ops := l1 ++ c :: l2 |}) c o' c' ->
    owned_go {| ow_owner := o; ow_others := ot; ow_ops := l1 ++ c :: l2 |} {| ow_owner := o'; ow_others := ot; ow_ops := l1 ++ c' :: l2 |}
| go_other o l1 p l2 ops : owned_go {| ow_owner := o; ow_others := l1 ++ p :: l2; ow_ops := ops |} {| ow_owner := o; ow_others := l1 ++ l2; ow_ops := ops |}.

(** Everything: also cancellations, new operations, and what the other operations
    of the mount do, which may record errors against the files they lock. *)
Inductive owned_step : owned -> owned -> Prop :=
| os_go w w' : owned_go w w' -> owned_step w w'
| os_stop o ot l1 c l2 c' : op_stop c c' ->
    owned_step {| ow_owner := o; ow_others := ot; ow_ops := l1 ++ c :: l2 |} {| ow_owner := o; ow_others := ot; ow_ops := l1 ++ c' :: l2 |}
| os_begin w source destination :
    owned_step w {| ow_owner := ow_owner w; ow_others := ow_others w; ow_ops := op_new source destination :: ow_ops w |}
| os_shared w fh : fh ∉ excl w ->
    owned_step w {| ow_owner := ow_owner w; ow_others := (fh, false) :: ow_others w; ow_ops := ow_ops w |}
| os_exclusive w fh : ~ taken w fh ->
    owned_step w {| ow_owner := ow_owner w; ow_others := (fh, true) :: ow_others w; ow_ops := ow_ops w |}
| os_record w fh e : fh ∈ (ow_others w).*1 ->
    owned_step w {| ow_owner := record (ow_owner w) fh e; ow_others := ow_others w; ow_ops := ow_ops w |}.

Definition owned_new (v : MinorVersion) : owned := {| ow_owner := WriteOwner_new v; ow_others := []; ow_ops := [] |}.
Definition owned_reachable (w : owned) : Prop := exists v, rtc owned_step (owned_new v) w.
End Owned.

(** ** The order is a strict total order *)

Lemma handle_cmp_refl a : handle_cmp a a = Eq.
Proof. induction a as [|x a IH]; [done|]. cbn. by rewrite N.compare_refl. Qed.
Lemma handle_cmp_eq a b : handle_cmp a b = Eq -> a = b.
Proof.
  revert b. induction a as [|x a IH]; intros [|y b]; try done. cbn. destruct (N.compare_spec (Byte.to_N x) (Byte.to_N y)) as [Hxy| |]; try done.
  intros H. f_equal; [|by apply IH]. apply (f_equal Byte.of_N) in Hxy. rewrite !Byte.of_to_N in Hxy. by simplify_eq.
Qed.
Lemma handle_cmp_flip a b : handle_cmp b a = CompOpp (handle_cmp a b).
Proof.
  revert b. induction a as [|x a IH]; intros [|y b]; try done. cbn. rewrite (N.compare_antisym (Byte.to_N x)).
  destruct (N.compare (Byte.to_N x) (Byte.to_N y)); [apply IH|done..].
Qed.
Lemma handle_lt_trans a b c : handle_lt a b -> handle_lt b c -> handle_lt a c.
Proof.
  unfold handle_lt. revert b c. induction a as [|x a IH]; intros [|y b] [|z c]; try done. cbn.
  destruct (N.compare_spec (Byte.to_N x) (Byte.to_N y)) as [->|Hxy|]; try done.
  - destruct (N.compare_spec (Byte.to_N y) (Byte.to_N z)); try done. apply IH.
  - intros _. destruct (N.compare_spec (Byte.to_N y) (Byte.to_N z)) as [Hyz|Hyz|]; try done; intros _;
      (assert (Hxz : (Byte.to_N x < Byte.to_N z)%N) by lia; by apply N.compare_lt_iff in Hxz as ->).
Qed.
Lemma handle_lt_irrefl a : ~ handle_lt a a.
Proof. unfold handle_lt. by rewrite handle_cmp_refl. Qed.
#[global] Instance handle_le_total : Total handle_le.
Proof. intros a b. unfold handle_le. rewrite (handle_cmp_flip a b). destruct (handle_cmp a b); cbn; auto. Qed.
Lemma handle_le_lt a b : handle_le a b -> a <> b -> handle_lt a b.
Proof. unfold handle_le, handle_lt. intros H Hne. destruct (handle_cmp a b) eqn:E; [by apply handle_cmp_eq in E|done|done]. Qed.

(** The locks of an operation are taken in strictly increasing order. *)
Lemma dedup_cons x y l : dedup (x :: y :: l) = if decide (x = y) then dedup (y :: l) else x :: dedup (y :: l).
Proof. done. Qed.
Lemma dedup_head x l : exists r, dedup (x :: l) = x :: r.
Proof.
  revert x. induction l as [|y l IH]; intros x; [by eexists|]. rewrite dedup_cons. destruct (decide (x = y)) as [->|]; [apply IH|by eexists].
Qed.
Lemma dedup_in x l : x ∈ dedup l <-> x ∈ l.
Proof.
  induction l as [|y l IH]; [done|]. destruct l as [|z l]; [done|]. rewrite dedup_cons. destruct (decide (y = z)) as [->|].
  - rewrite IH. set_solver.
  - rewrite !elem_of_cons, IH. set_solver.
Qed.
Lemma dedup_sorted l : Sorted handle_le l -> Sorted handle_lt (dedup l).
Proof.
  induction 1 as [|x l Hs IH Hh]; [constructor|]. destruct l as [|y l]; [by repeat constructor|]. rewrite dedup_cons.
  destruct (decide (x = y)) as [->|Hne]; [done|]. constructor; [done|]. destruct (dedup_head y l) as [r ->]. constructor.
  inversion_clear Hh. by apply handle_le_lt.
Qed.
Lemma lock_order_sorted source destination : StronglySorted handle_lt (lock_order source destination).
Proof.
  apply Sorted_StronglySorted; [intros a b c; apply handle_lt_trans|]. apply dedup_sorted, Sorted_merge_sort. apply _.
Qed.
Lemma lock_order_in source destination fh : fh ∈ lock_order source destination <-> fh = destination \/ source = Some fh.
Proof.
  unfold lock_order. rewrite dedup_in, merge_sort_Permutation, elem_of_cons. destruct source as [x|]; cbn; rewrite ?elem_of_cons; set_solver.
Qed.
Arguments cphase : clear implicits.
Arguments mfate : clear implicits.
Arguments mphase : clear implicits.
Arguments op : clear implicits.
Arguments owned : clear implicits.

Section Invariant.
Context {A : Type}.
#[local] Notation op := (op A).
#[local] Notation owned := (owned A).

(** ** One operation: its caller, its task and its cells *)

(** A caller that has neither taken the result nor been told that there is none. *)
Definition awaiting (w : cphase A) (flag : bool) (ack : channel) : Prop :=
  match w with
  | CAwait | CAbandon | CStore => flag = false /\ ack = ChOpen
  | CDropAck => flag = true /\ ack = ChOpen
  | CGone => flag = true /\ ack = ChDropped
  | _ => False
  end.
(** The caller of a task that has died. *)
Definition orphan (w : cphase A) : Prop := match w with CLock _ | CCheck _ _ | CSpawn => False | _ => True end.
Definition mfate_ok (er : Prop) (w : cphase A) (f : mfate A) : Prop :=
  match f with
  | MAcked r => w = CEnd (Some r)
  | MUnclaimed r => w = CGone /\ unclaimed (Some r) = None /\ r <> Panic
  | MRecorded => er /\ w = CGone
  | MDied => er /\ orphan w
  end.

Definition op_ok (o : WriteOwner) (c : op) : Prop :=
  let '(Op src fh held s fl rd ak w t) := c in
  match t with
  | MNone => s = None /\ fl = false /\ rd = ChOpen /\ ak = ChOpen /\
      match w with
      | CLock rest => held ++ rest = lock_order src fh
      | CCheck h rest => held ++ rest = lock_order src fh /\ exists l, held = l ++ [h]
      | CSpawn => held = lock_order src fh
      | CEnd _ => held = []
      | _ => False
      end
  | MClose f => held = [] /\ mfate_ok (errs o fh) w f
  | MDone f => held = [] /\ rd <> ChOpen /\ mfate_ok (errs o fh) w f
  | _ => held = lock_order src fh /\
      match t with
      | MStart | MWork => s = None /\ rd = ChOpen /\ awaiting w fl ak
      | MStore r => r <> Panic /\ s = None /\ rd = ChOpen /\ awaiting w fl ak
      | MReady r => r <> Panic /\ s = Some r /\ rd = ChOpen /\ awaiting w fl ak
      | MAwaitAck r => r <> Panic /\ rd = ChSent /\
          match w with
          | CTake => s = Some r /\ fl = false /\ ak = ChOpen
          | CAcking v => v = Some r /\ fl = false /\ ak = ChOpen
          | CEnd v => v = Some r /\ fl = false /\ ak = ChSent
          | _ => s = Some r /\ awaiting w fl ak
          end
      | MTake => w = CGone /\ exists r, s = Some r /\ r <> Panic
      | MRecord e => w = CGone
      | MDropRecord => orphan w
      | MDropSwap | MDropFinish => errs o fh /\ orphan w
      | MSettle f | MFinish f | MRelease f => mfate_ok (errs o fh) w f
      | _ => True
      end
  end.

Lemma mfate_mono (P Q : Prop) w f : (P -> Q) -> mfate_ok P w f -> mfate_ok Q w f.
Proof. destruct f; cbn; tauto. Qed.
Lemma op_ok_mono o o' (c : op) : (errs o (o_file c) -> errs o' (o_file c)) -> op_ok o c -> op_ok o' c.
Proof.
  destruct c as [src fh held s fl rd ak w t]. cbn [o_file]. intros H. unfold op_ok. destruct t; try done; intuition eauto using mfate_mono.
Qed.

Lemma go_errs o tk (c : op) o' c' fh : op_go o tk c o' c' -> errs o fh -> errs o' fh.
Proof.
  intros Hs He. destruct Hs; try done; try by apply record_errs.
  - unfold errs. by destruct (finish_abandoned_errors o fh0) as [-> _].
  - unfold errs. by destruct (finish_abandoned_errors o fh0) as [-> _].
Qed.
Lemma go_same o tk (c : op) o' c' : op_go o tk c o' c' -> o_file c' = o_file c /\ o_source c' = o_source c.
Proof. by destruct 1. Qed.

Ltac op_cases :=
  repeat match goal with
  | t : mphase A |- _ => destruct t
  | w : cphase A |- _ => destruct w
  | f : mfate A |- _ => destruct f
  end; cbn in *; destruct_and?; subst; simplify_eq; try done; eauto 8 using record_recorded.

Lemma go_ok o tk (c : op) o' c' : op_go o tk c o' c' -> op_ok o c -> op_ok o' c'.
Proof.
  intros Hs Hok. apply (op_ok_mono o o') in Hok; [|intros He; eapply go_errs; eassumption].
  destruct Hs; cbn [op_ok] in *; destruct_and?; subst; try done; try (by op_cases).
  - rewrite <- app_assoc. eauto 10.
  - match goal with H : _ ++ [] = _ |- _ => rewrite app_nil_r in H; by subst end.
  - match goal with H : exists _, _ |- _ => destruct H as (r & -> & Hr) end. done.
  - by destruct rd.
Qed.
Lemma stop_ok o (c c' : op) : op_stop c c' -> op_ok o c -> op_ok o c'.
Proof. intros Hs Hok. destruct Hs; [cbn [op_ok] in *; destruct_and?; by subst|by op_cases|]. destruct t; try done; op_cases. Qed.

(** ** The locks *)

(** A step gives up all locks of its operation, takes a free one, or neither. *)
Lemma go_held o tk (c : op) o' c' : op_go o tk c o' c' ->
  o_held c' = o_held c \/ o_held c' = [] \/ exists h, o_held c' = o_held c ++ [h] /\ ~ tk h.
Proof. intros Hs. destruct Hs; cbn; eauto 6. Qed.
Lemma stop_held (c c' : op) : op_stop c c' -> o_file c' = o_file c /\ (o_held c' = o_held c \/ o_held c' = []).
Proof. intros Hs. destruct Hs; cbn; auto. Qed.

(** The locks whose files were found without an error, while their operation has
    recorded none. *)
Definition checked (c : op) : list bytes :=
  match o_task c with
  | MNone => match o_caller c with CCheck h _ => removelast (o_held c) | _ => o_held c end
  | MStart | MWork | MStore _ | MReady _ | MAwaitAck _ | MTake | MRecord _ => o_held c
  | _ => []
  end.

Lemma checked_held c : checked c ⊆ o_held c.
Proof.
  unfold checked. destruct (o_task c); try done; try (intros x Hx; by apply not_elem_of_nil in Hx). destruct (o_caller c); try done.
  intros x. destruct (o_held c) as [|y l] eqn:E using rev_ind; [done|]. rewrite removelast_last. set_solver.
Qed.

(** Errors other than of the operation's own file stay, and its own file is one it
    has the lock of. *)
Lemma go_owner o tk (c : op) o' c' h : op_go o tk c o' c' -> op_ok o c -> errors o !! h = None -> h ∉ o_held c -> errors o' !! h = None.
Proof.
  intros Hs Hok Hn Hh. destruct Hs; try done; try (by rewrite (proj1 (finish_abandoned_errors _ _)));
    (unfold record; destruct (errors o !! fh) eqn:E; [done|]; cbn; rewrite lookup_insert_ne; [done|]; intros <-; apply Hh; cbn in *;
     destruct Hok as [-> _]; by apply lock_order_in; left).
Qed.

Lemma go_checked o tk (c : op) o' c' h : op_go o tk c o' c' -> op_ok o c -> (forall x, x ∈ checked c -> errors o !! x = None) ->
  h ∈ checked c' -> errors o' !! h = None.
Proof.
  intros Hs Hok Hc Hin. destruct Hs; cbn in *; try (by apply not_elem_of_nil in Hin); try (by apply Hc); try (by op_cases).
  - rewrite removelast_last in Hin. by apply Hc.
  - destruct_and?. match goal with H : exists _, _ |- _ => destruct H as (l & ->) end. rewrite removelast_last in Hc.
    apply elem_of_app in Hin as [Hin| ->%list_elem_of_singleton]; [by apply Hc|].
    unfold write_error in *. by destruct (errors o !! h0).
Qed.
Lemma stop_checked (c c' : op) : op_stop c c' -> checked c' ⊆ checked c.
Proof. intros Hs. destruct Hs; cbn; [set_solver|by destruct t|set_solver]. Qed.

(** ** All operations *)

Record owned_inv (w : owned) : Prop := {
  oi_ops : Forall (op_ok (ow_owner w)) (ow_ops w);
  oi_excl : NoDup (excl w);
  oi_shared : forall fh, (fh, false) ∈ ow_others w -> fh ∉ excl w;
  oi_clean : forall c h, c ∈ ow_ops w -> h ∈ checked c -> errors (ow_owner w) !! h = None;
}.

Lemma elem_of_held x (c : op) l : c ∈ l -> x ∈ o_held c -> x ∈ concat (o_held <$> l).
Proof.
  intros Hc Hx. apply list_elem_of_In, in_concat. exists (o_held c). split; [|by apply list_elem_of_In].
  apply list_elem_of_In. by apply list_elem_of_fmap_2.
Qed.

Lemma excl_middle o ot (l1 : list op) c l2 : excl {| ow_owner := o; ow_others := ot; ow_ops := l1 ++ c :: l2 |} ≡ₚ
  o_held c ++ excl {| ow_owner := o; ow_others := ot; ow_ops := l1 ++ l2 |}.
Proof. unfold excl. cbn. rewrite !fmap_app, !concat_app. cbn. rewrite <- !app_assoc. apply Permutation_app_swap_app. Qed.

Lemma excl_other (w : owned) fh : fh ∈ (ow_others w).*1 -> (fh, false) ∈ ow_others w \/ fh ∈ ((filter (fun p => p.2 = true) (ow_others w)).*1).
Proof.
  intros ([x b] & -> & Hin)%list_elem_of_fmap. destruct b; [right|by left]. apply list_elem_of_fmap. exists (x, true).
  split; [done|]. by apply list_elem_of_filter.
Qed.

(** Replacing an operation by one with no more locks, or with one that was free. *)
Lemma inv_replace o o' ot (l1 : list op) c l2 c' :
  let w := {| ow_owner := o; ow_others := ot; ow_ops := l1 ++ c :: l2 |} in
  owned_inv w -> op_ok o' c' -> (forall fh, errs o fh -> errs o' fh) ->
  (o_held c' = o_held c \/ o_held c' = [] \/ exists h, o_held c' = o_held c ++ [h] /\ ~ taken w h) ->
  (forall h, errors o !! h = None -> h ∉ o_held c -> errors o' !! h = None) ->
  (forall h, h ∈ checked c' -> errors o' !! h = None) ->
  owned_inv {| ow_owner := o'; ow_others := ot; ow_ops := l1 ++ c' :: l2 |}.
Proof.
  intros w [Hops Hex Hsh Hcl] Hok Herr Hheld Hkeep Hck. unfold w in *. clear w. cbn [ow_owner ow_others ow_ops] in Hops, Hsh, Hcl.
  assert (Hsub : forall x, x ∈ o_held c' -> x ∈ o_held c \/ ~ taken {| ow_owner := o; ow_others := ot; ow_ops := l1 ++ c :: l2 |} x).
  { intros x Hx. destruct Hheld as [He|[He|(h & He & Hh)]]; rewrite He in Hx; [by left|by apply not_elem_of_nil in Hx|].
    apply elem_of_app in Hx as [?| ->%list_elem_of_singleton]; [by left|by right]. }
  assert (Hrest : excl {| ow_owner := o; ow_others := ot; ow_ops := l1 ++ l2 |} = excl {| ow_owner := o'; ow_others := ot; ow_ops := l1 ++ l2 |})
    by done.
  rewrite excl_middle in Hex. apply NoDup_app in Hex as (Hn1 & Hdis & Hn2). split; cbn [ow_owner ow_others ow_ops].
  - apply Forall_app in Hops as [H1 [_ H2]%Forall_cons]. apply Forall_app. split; [|constructor; [done|]];
      (eapply Forall_impl; [eassumption|]; intros x Hx; eapply op_ok_mono, Hx; apply Herr).
  - rewrite excl_middle, <- Hrest. apply NoDup_app. split_and!; [| |done].
    + destruct Hheld as [->|[->|(h & -> & Hh)]]; [done|constructor|]. apply NoDup_app. split_and!; [done| |apply NoDup_singleton].
      intros x Hx ->%list_elem_of_singleton. apply Hh. left. rewrite excl_middle. apply elem_of_app. by left.
    + intros x Hx Hx'. destruct (Hsub x Hx) as [Ho|Hnt]; [by eapply Hdis|]. apply Hnt. left. rewrite excl_middle. apply elem_of_app. by right.
  - intros fh Hin. rewrite excl_middle, <- Hrest. specialize (Hsh fh Hin). rewrite excl_middle, elem_of_app in Hsh.
    rewrite elem_of_app. intros [Hx|Hx]; [|by apply Hsh; right]. destruct (Hsub fh Hx) as [Ho|Hnt]; [by apply Hsh; left|].
    apply Hnt. right. apply list_elem_of_fmap. by exists (fh, false).
  - intros x h Hin Hh. apply elem_of_app in Hin as [Hin|[->|Hin]%elem_of_cons]; [|by apply Hck|].
    all: apply Hkeep; [eapply Hcl; [|done]; set_solver|]; intros Hc; apply (Hdis h Hc); unfold excl; cbn; apply elem_of_app; left;
      rewrite fmap_app, concat_app; apply elem_of_app; apply checked_held in Hh.
    + left. by eapply elem_of_held.
    + right. by eapply elem_of_held.
Qed.


(** The same operations under other locks of the rest of the mount. *)
Lemma inv_others o o' ot ot' (l : list op) :
  owned_inv {| ow_owner := o; ow_others := ot; ow_ops := l |} -> (forall fh, errs o fh -> errs o' fh) ->
  NoDup (excl {| ow_owner := o'; ow_others := ot'; ow_ops := l |}) ->
  (forall fh, (fh, false) ∈ ot' -> fh ∉ excl {| ow_owner := o'; ow_others := ot'; ow_ops := l |}) ->
  (forall h, errors o !! h = None -> h ∈ concat (o_held <$> l) -> errors o' !! h = None) ->
  owned_inv {| ow_owner := o'; ow_others := ot'; ow_ops := l |}.
Proof.
  intros [Hops Hex Hsh Hcl] Herr Hn Hs Hk. cbn [ow_owner ow_others ow_ops] in *. split; cbn [ow_owner ow_others ow_ops]; [|done|done|].
  - eapply Forall_impl; [exact Hops|]. intros x Hx. eapply op_ok_mono, Hx. apply Herr.
  - intros c h Hin Hh. apply Hk; [by eapply Hcl|]. eapply elem_of_held; [done|]. by apply checked_held.
Qed.

Lemma owned_go_inv (w w' : owned) : owned_go w w' -> owned_inv w -> owned_inv w'.
Proof.
  intros Hs Hinv. destruct Hs as [o ot l1 c l2 o' c' Hgo|o l1 p l2 ops].
  - assert (Hok : op_ok o c) by (apply (proj1 (Forall_forall _ _) (oi_ops _ Hinv)); cbn; set_solver).
    eapply inv_replace; [exact Hinv|by eapply go_ok|intros; by eapply go_errs|by eapply go_held|intros; by eapply go_owner|].
    intros h Hh. eapply go_checked; [done|done| |done]. intros x Hx. apply (oi_clean _ Hinv c x); [cbn; set_solver|done].
  - pose proof (oi_excl _ Hinv) as Hex. pose proof (oi_shared _ Hinv) as Hsh.
    assert (Hsub : excl {| ow_owner := o; ow_others := l1 ++ l2; ow_ops := ops |} `sublist_of`
      excl {| ow_owner := o; ow_others := l1 ++ p :: l2; ow_ops := ops |}).
    { unfold excl. cbn. apply sublist_app; [done|]. rewrite !filter_app, !fmap_app. apply sublist_app; [done|].
      rewrite filter_cons. destruct (decide _); [by apply sublist_cons|done]. }
    eapply inv_others; [exact Hinv|done| | |done].
    + by eapply sublist_NoDup.
    + intros fh Hin Hx. apply (Hsh fh); [cbn; set_solver|]. by eapply elem_of_sublist.
Qed.

Lemma record_other o fh e h : h <> fh -> errors o !! h = None -> errors (record o fh e) !! h = None.
Proof. intros Hne Hn. unfold record. destruct (errors o !! fh); [done|]. cbn. by rewrite lookup_insert_ne. Qed.

Lemma owned_step_inv (w w' : owned) : owned_step w w' -> owned_inv w -> owned_inv w'.
Proof.
  intros Hs Hinv. destruct Hs as [w w' Hgo|o ot l1 c l2 c' Hst|[o ot ops] src dst|[o ot ops] fh Hfh|[o ot ops] fh Hfh|[o ot ops] fh e Hfh].
  - by eapply owned_go_inv.
  - assert (Hok : op_ok o c) by (apply (proj1 (Forall_forall _ _) (oi_ops _ Hinv)); cbn; set_solver).
    destruct (stop_held _ _ Hst) as [_ Hh]. eapply inv_replace; [exact Hinv|by eapply stop_ok|done|tauto|done|].
    intros h Hc. apply (oi_clean _ Hinv c h); [cbn; set_solver|]. by apply (stop_checked _ _ Hst).
  - destruct Hinv as [Hops Hex Hsh Hcl]. split; cbn [ow_owner ow_others ow_ops] in *.
    + by constructor.
    + exact Hex.
    + exact Hsh.
    + intros c h [->|Hin]%elem_of_cons Hh; [by apply not_elem_of_nil in Hh|by eapply Hcl].
  - destruct Hinv as [Hops Hex Hsh Hcl] eqn:E. clear E. eapply inv_others; [exact Hinv|done| | |done].
    + exact Hex.
    + intros x [[= ->]|Hin]%elem_of_cons; [exact Hfh|by apply Hsh].
  - destruct Hinv as [Hops Hex Hsh Hcl] eqn:E. clear E.
    assert (Hp : excl {| ow_owner := o; ow_others := (fh, true) :: ot; ow_ops := ops |} ≡ₚ fh :: excl {| ow_owner := o; ow_others := ot; ow_ops := ops |}).
    { unfold excl. cbn. by rewrite Permutation_middle. }
    eapply inv_others; [exact Hinv|done| | |done].
    + rewrite Hp. constructor; [|done]. intros H. apply Hfh. by left.
    + intros x Hin. apply elem_of_cons in Hin as [[=]|Hin]. rewrite Hp. intros [->|Hx]%elem_of_cons; [|by eapply Hsh].
      apply Hfh. right. by apply (list_elem_of_fmap_2 fst _ (fh, false)).
  - pose proof (oi_excl _ Hinv) as Hex. pose proof (oi_shared _ Hinv) as Hsh.
    eapply inv_others; [exact Hinv|intros; by apply record_errs|exact Hex|exact Hsh|].
    intros h Hn Hh. apply record_other; [|done]. intros ->. destruct (excl_other _ _ Hfh) as [Hf|Hf].
    + apply (Hsh _ Hf). unfold excl. cbn. apply elem_of_app. by left.
    + unfold excl in Hex. cbn in Hex. apply NoDup_app in Hex as (_ & Hd & _). by apply (Hd fh).
Qed.

Lemma owned_reachable_inv (w : owned) : owned_reachable w -> owned_inv w.
Proof.
  intros [v Hr]. assert (H0 : owned_inv (owned_new v)).
  { split; cbn; [constructor|constructor|set_solver|set_solver]. }
  revert H0. generalize (owned_new (A := A) v) as w0, Hr. clear. intros w0 Hr. induction Hr; eauto using owned_step_inv.
Qed.

(** ** Progress *)

Definition op_finished (c : op) : Prop :=
  match o_caller c with CEnd _ | CGone => True | _ => False end /\ match o_task c with MNone | MDone _ => True | _ => False end.

(** A caller that is past its locks goes on once it has heard from its task. *)
Lemma caller_goes o tk src fh held s fl rd ak (w : cphase A) t : orphan w -> rd <> ChOpen ->
  match w with CEnd _ | CGone => False | _ => True end -> exists o' c', op_go o tk (Op src fh held s fl rd ak w t) o' c'.
Proof.
  intros Ho Hr Hw. destruct w; try done; [destruct rd; [done|eexists _, _; apply g_ready|eexists _, _; apply g_not_ready]|..]; eexists _, _.
  - apply g_take.
  - apply g_ack.
  - apply g_fail.
  - apply g_abandon.
  - apply g_store.
  - apply g_drop_ack.
Qed.

(** An operation has ended, can go on, or waits for a lock. *)
Lemma op_progress o tk (c : op) : op_ok o c ->
  op_finished c \/ (exists o' c', op_go o tk c o' c') \/ (exists h rest, o_caller c = CLock (h :: rest) /\ o_task c = MNone).
Proof.
  destruct c as [src fh held s fl rd ak w t]. intros Hok. unfold op_finished. cbn [o_caller o_task].
  destruct t as [| | |r|r|r| |e|f|f| | | |f|f|f].
  - cbn in Hok. destruct Hok as (_ & _ & _ & _ & Hw). destruct w as [[|h rest]|h rest| | | | | | | | | |]; try done.
    + right; left. eexists _, _. apply g_locked.
    + right; right. by eexists _, _.
    + right; left. destruct (write_error o h) eqn:E; eexists _, _; [by eapply g_refused|by apply g_check].
    + right; left. eexists _, _. apply g_spawn.
    + by left.
  - right; left. eexists _, _. apply m_start.
  - right; left. eexists _, _. by apply (m_worked _ _ _ _ _ _ _ _ _ _ (Err died_error)).
  - right; left. eexists _, _. apply m_store.
  - right; left. eexists _, _. apply m_ready.
  - right; left. destruct ak; [|eexists _, _; apply m_acked|eexists _, _; apply m_abandoned].
    destruct Hok as (_ & _ & -> & Hw). apply caller_goes; [by destruct w; cbn in Hw; destruct_and?|done|by destruct w; cbn in Hw; destruct_and?].
  - right; left. destruct (unclaimed s) eqn:E; eexists _, _; [by eapply m_take_record|by eapply m_take_quiet].
  - right; left. eexists _, _. apply m_record.
  - right; left. destruct fl; eexists _, _; [apply m_settle|apply m_settle_not].
  - right; left. eexists _, _. apply m_finish.
  - right; left. eexists _, _. apply m_drop_record.
  - right; left. destruct fl; eexists _, _; [apply m_drop_swap|apply m_drop_swap_not].
  - right; left. eexists _, _. apply m_drop_finish.
  - right; left. eexists _, _. apply m_release.
  - right; left. eexists _, _. apply m_close.
  - destruct Hok as (_ & Hr & Hf). assert (Ho : orphan w) by (destruct f; cbn in Hf; destruct_and?; by subst).
    assert (Hend : match w with CEnd _ | CGone => True | _ => False end \/ match w with CEnd _ | CGone => False | _ => True end)
      by (destruct w; auto). destruct Hend; [by left|right; left; by apply caller_goes].
Qed.

(** A list with no greatest element is empty. *)
Lemma no_maximum l : (forall x, x ∈ l -> exists y, y ∈ l /\ handle_lt x y) -> l = [].
Proof.
  intros H. destruct (decide (l = [])) as [|Hne]; [done|]. exfalso.
  assert (Hm : exists m, m ∈ l /\ forall y, y ∈ l -> ~ handle_lt m y).
  { clear H. induction l as [|x l IH]; [done|]. destruct (decide (l = [])) as [->|Hl].
    - exists x. split; [by left|]. intros y ->%list_elem_of_singleton. apply handle_lt_irrefl.
    - destruct (IH Hl) as (m & Hin & Hm). destruct (handle_cmp m x) eqn:E.
      + exists m. split; [by right|]. intros y [->|Hy]%elem_of_cons; [unfold handle_lt; by rewrite E|by apply Hm].
      + exists x. split; [by left|]. intros y [->|Hy]%elem_of_cons; [apply handle_lt_irrefl|]. intros Hxy.
        by apply (Hm y Hy), (handle_lt_trans m x).
      + exists m. split; [by right|]. intros y [->|Hy]%elem_of_cons; [unfold handle_lt; by rewrite E|by apply Hm]. }
  destruct Hm as (m & Hin & Hm). destruct (H m Hin) as (y & Hy & Hlt). by apply (Hm y).
Qed.

Lemma finished_held o (c : op) : op_ok o c -> op_finished c -> o_held c = [].
Proof.
  destruct c as [src fh held s fl rd ak w t]. intros Hok [Hw Ht]. cbn in Hw, Ht |- *.
  destruct t; try done; cbn in Hok; destruct_and?; [by destruct w|done].
Qed.

Definition waits_for (c : op) : option bytes := match o_caller c, o_task c with CLock (h :: _), MNone => Some h | _, _ => None end.

(** The locks an operation holds come before the one it waits for. *)
Lemma waits_above o (c : op) h x : op_ok o c -> waits_for c = Some h -> x ∈ o_held c -> handle_lt x h.
Proof.
  destruct c as [src fh held s fl rd ak w t]. unfold waits_for. cbn [o_caller o_task o_held].
  destruct w as [[|h' rest]|h' rest| | | | | | | | | |]; try done. destruct t; try done. intros Hok [= ->] Hx.
  destruct Hok as (_ & _ & _ & _ & Heq). pose proof (lock_order_sorted src fh) as Hs. rewrite <- Heq in Hs.
  apply (StronglySorted_app_1_elem_of handle_lt held (h :: rest)); [done|done|by left].
Qed.

Lemma owned_progress (w : owned) : owned_inv w -> (exists w', owned_go w w') \/ (Forall op_finished (ow_ops w) /\ ow_others w = []).
Proof.
  intros Hinv. destruct w as [o ot ops]. destruct ot as [|p ot]; [|left; eexists; apply (go_other _ [])].
  set (w := {| ow_owner := o; ow_others := []; ow_ops := ops |}) in *.
  assert (Hgo : forall c o' c', c ∈ ops -> op_go o (taken w) c o' c' -> exists w', owned_go w w').
  { intros c o' c' (l1 & l2 & Heq)%list_elem_of_split Hg. unfold w in *. rewrite Heq in *. eexists. by apply go_op. }
  assert (Hcases : (exists w', owned_go w w') \/ Forall (fun c => op_finished c \/ is_Some (waits_for c)) ops).
  { assert (Hops : Forall (op_ok o) ops) by apply Hinv. clear Hinv. clearbody w.
    assert (Hin : forall c, c ∈ ops -> op_ok o c) by (by apply Forall_forall).
    clear Hops. induction ops as [|c l IH]; [by right|]. destruct IH as [?|Hl]; [set_solver|set_solver|by left|].
    destruct (op_progress o (taken w) c) as [Hf|[(o' & c' & Hg)|(h & rest & Hw & Ht)]]; [apply Hin; by left| | |].
    - right. constructor; auto.
    - left. eapply Hgo; [by left|done].
    - right. constructor; [|done]. right. unfold waits_for. rewrite Hw, Ht. by eexists. }
  destruct Hcases as [?|Hall]; [by left|]. destruct (decide (Forall (fun h => h ∈ excl w) (omap waits_for ops))) as [Htk|Hnt].
  - right. split; [|done]. assert (Hnil : omap waits_for ops = []).
    { apply no_maximum. intros h Hh. pose proof (proj1 (Forall_forall _ _) Htk h Hh) as Hex. unfold excl in Hex. cbn in Hex.
      rewrite app_nil_r in Hex. apply list_elem_of_In, in_concat in Hex as (hs & Hhs & Hx). apply list_elem_of_In in Hhs, Hx.
      apply list_elem_of_fmap in Hhs as (c & -> & Hc). assert (Hok : op_ok o c) by (apply (proj1 (Forall_forall _ _) (oi_ops _ Hinv)); done).
      destruct (proj1 (Forall_forall _ _) Hall c Hc) as [Hf|[h' Hw]].
      - exfalso. by rewrite (finished_held o c) in Hx; [apply not_elem_of_nil in Hx| |].
      - exists h'. split; [|by eapply waits_above]. apply list_elem_of_omap. by exists c. }
    eapply Forall_impl; [apply Forall_and; split; [exact Hall|apply Forall_forall; intros c Hc; exact Hc]|].
    intros c [[?|[h Hw]] Hc]; [done|]. assert (h ∈ omap waits_for ops) as Hh by (apply list_elem_of_omap; by exists c).
    rewrite Hnil in Hh. by apply not_elem_of_nil in Hh.
  - left. apply not_Forall_Exists in Hnt; [|apply _]. apply Exists_exists in Hnt as (h & Hh & Hn).
    apply list_elem_of_omap in Hh as (c & Hc & Hw). destruct c as [src fh held s fl rd ak w' t]. unfold waits_for in Hw. cbn in Hw.
    destruct w' as [[|h' rest]|h' rest| | | | | | | | | |]; try done. destruct t; try done. injection Hw as ->.
    eapply Hgo; [done|]. apply g_lock. intros [?|Hx]; [done|]. by apply not_elem_of_nil in Hx.
Qed.

(** Every step of progress comes closer to the end. *)
Definition caller_left (w : cphase A) : nat :=
  match w with
  | CLock rest => 21 + 2 * length rest
  | CCheck _ rest => 22 + 2 * length rest
  | CSpawn => 20 | CAwait => 5 | CTake => 2 | CAcking _ => 1 | CFail => 1
  | CAbandon => 3 | CStore => 2 | CDropAck => 1 | CGone | CEnd _ => 0
  end.
Definition task_left (t : mphase A) : nat :=
  match t with
  | MNone | MDone _ => 0
  | MStart => 12 | MWork => 11 | MStore _ => 10 | MReady _ => 9 | MAwaitAck _ => 8 | MTake => 7 | MRecord _ => 6
  | MSettle _ => 5 | MFinish _ => 4 | MRelease _ => 3 | MClose _ => 2
  | MDropRecord => 7 | MDropSwap => 6 | MDropFinish => 5
  end.
Definition op_left (c : op) : nat := caller_left (o_caller c) + task_left (o_task c).
Definition owned_left (w : owned) : nat := sum_list_with op_left (ow_ops w) + length (ow_others w).

Lemma op_go_left o tk (c : op) o' c' : op_go o tk c o' c' -> (op_left c' < op_left c)%nat.
Proof. intros Hs. destruct Hs; unfold op_left; cbn; lia. Qed.
Lemma owned_go_left (w w' : owned) : owned_go w w' -> (owned_left w' < owned_left w)%nat.
Proof.
  intros Hs. unfold owned_left. destruct Hs as [o ot l1 c l2 o' c' Hg|o l1 p l2 ops]; cbn [ow_ops ow_others].
  - apply op_go_left in Hg. rewrite !sum_list_with_app. cbn. lia.
  - rewrite !length_app. cbn. lia.
Qed.

Lemma owned_go_run n (w w' : owned) : nsteps owned_go n w w' -> owned_inv w -> owned_inv w' /\ (n + owned_left w' <= owned_left w)%nat.
Proof.
  induction 1 as [w|n w w1 w' Hg Hr IH]; intros Hinv; [split; [done|lia]|]. destruct IH as [H1 H2]; [by eapply owned_go_inv|].
  apply owned_go_left in Hg. split; [done|lia].
Qed.

Lemma owned_step_errs (w w' : owned) fh : owned_step w w' -> errs (ow_owner w) fh -> errs (ow_owner w') fh.
Proof.
  intros Hs He. destruct Hs as [w w' [o ot l1 c l2 o' c' Hg|]|? ? ? ? ? ? ?| | | |]; try done; [by eapply go_errs|by apply record_errs].
Qed.
Lemma owned_run_errs (w w' : owned) fh : rtc owned_step w w' -> errs (ow_owner w) fh -> errs (ow_owner w') fh.
Proof. induction 1; eauto using owned_step_errs. Qed.

(** A recorded error refuses the operation that looks for it. *)
Lemma errs_refuse o tk (c : op) o' c' fh rest : op_ok o c -> errs o fh -> o_caller c = CCheck fh rest -> op_go o tk c o' c' ->
  exists e d, o_caller c' = CEnd (Some (Err e)) /\ operation_outcome e = Some d /\ outcome_kind d = Uncertain.
Proof.
  intros Hok He Hw Hg. destruct (errs_uncertain _ _ He) as (e & d & Hwe & Hd & Hk & _). exists e, d.
  destruct c as [src dst held s fl rd ak w t]. cbn in Hw. subst w.
  assert (t = MNone) as ->. { destruct t; cbn in Hok; destruct_and?; try done; match goal with f : mfate A |- _ => destruct f end; cbn in *; by destruct_and?. }
  inversion Hg; subst; [congruence|]. cbn. split_and!; [congruence|done..].
Qed.

(** Two places of an operation that hold one lock are the same. *)
Lemma held_once (w : owned) l1 c l2 h : owned_inv w -> ow_ops w = l1 ++ c :: l2 -> h ∈ o_held c ->
  (forall x, (h, x) ∉ ow_others w) /\ forall c', c' ∈ l1 ++ l2 -> h ∉ o_held c'.
Proof.
  intros Hinv Heq Hh. destruct w as [o ot ops]. cbn [ow_ops ow_others] in *. subst ops.
  pose proof (oi_excl _ Hinv) as Hex. pose proof (oi_shared _ Hinv) as Hsh. rewrite excl_middle in Hex. apply NoDup_app in Hex as (_ & Hd & _).
  specialize (Hd h Hh). unfold excl in Hd. cbn in Hd. rewrite elem_of_app in Hd. split.
  - intros [] Hin.
    + apply Hd. right. apply list_elem_of_fmap. exists (h, true). split; [done|]. by apply list_elem_of_filter.
    + apply (Hsh h Hin). rewrite excl_middle. apply elem_of_app. by left.
  - intros c' Hc' Hx. apply Hd. left. by eapply elem_of_held.
Qed.
End Invariant.
Arguments owned_left {_} _.

(** C26: the mutations that lock two files cannot block one another, or the other
    operations on a file, for ever: whatever was cancelled or died before, steps
    of progress, in any order, are at most as many as the measure of the state,
    and when none is possible every operation has ended: its caller was told a
    result or is gone, its task has settled, and no lock is held. *)
Theorem owned_mutations_all_end {A} (w w' : owned A) n : owned_reachable w -> nsteps owned_go n w w' ->
  (n <= owned_left w)%nat /\
  ((forall w'', ~ owned_go w' w'') -> Forall op_finished (ow_ops w') /\ ow_others w' = [] /\ excl w' = []).
Proof.
  intros Hr%owned_reachable_inv Hn. destruct (owned_go_run _ _ _ Hn Hr) as [Hinv Hl]. split; [lia|]. intros Hstuck.
  destruct (owned_progress w' Hinv) as [[w'' Hg]|[Hf Ho]]; [by apply Hstuck in Hg|]. split_and!; [done..|].
  unfold excl. rewrite Ho. cbn. rewrite app_nil_r. pose proof (oi_ops _ Hinv) as Hops. clear -Hf Hops.
  induction (ow_ops w') as [|c l IH]; [done|]. apply Forall_cons in Hf as [Hf1 Hf2], Hops as [Ho1 Ho2].
  cbn. rewrite (finished_held _ _ Ho1 Hf1). by apply IH.
Qed.

(** C27: a mutation is sent only while its operation alone holds the locks of the
    files it reads and changes, and when neither has an error of an abandoned
    mutation; and its outcome is not lost: its caller was told it, or it went
    unclaimed and was not uncertain, or an error is recorded against the file,
    which stays and refuses every later operation. *)
Theorem owned_mutation_accounted {A} (w : owned A) c : owned_reachable w -> c ∈ ow_ops w ->
  (o_task c = MWork -> forall h, h = o_file c \/ o_source c = Some h ->
     h ∈ o_held c /\ write_error (ow_owner w) h = None /\ (forall x, (h, x) ∉ ow_others w) /\
     forall l1 l2 c', ow_ops w = l1 ++ c :: l2 -> c' ∈ l1 ++ l2 -> h ∉ o_held c') /\
  (forall f, o_task c = MDone f ->
     match f with
     | MAcked r => o_caller c = CEnd (Some r)
     | MUnclaimed r => o_caller c = CGone /\ forall e, r = Err e -> is_uncertain e = false
     | MRecorded | MDied => forall w' c' o' c'', rtc owned_step w w' -> c' ∈ ow_ops w' ->
         (exists rest, o_caller c' = CCheck (o_file c) rest) -> op_go (ow_owner w') (taken w') c' o' c'' ->
         exists e d, o_caller c'' = CEnd (Some (Err e)) /\ operation_outcome e = Some d /\ outcome_kind d = Uncertain
     end).
Proof.
  intros Hr Hc. pose proof (owned_reachable_inv _ Hr) as Hinv.
  assert (Hok : op_ok (ow_owner w) c) by (by apply (proj1 (Forall_forall _ _) (oi_ops _ Hinv))). split.
  - intros Ht h Hh. destruct c as [src fh held s fl rd ak wc t]. cbn in Ht, Hh. subst t. destruct Hok as [Hheld _].
    assert (Hin : h ∈ held) by (rewrite Hheld; apply lock_order_in; tauto). split; [done|]. split; [|split].
    + unfold write_error. by rewrite (oi_clean _ Hinv _ h Hc).
    + apply list_elem_of_split in Hc as (l1 & l2 & Heq). by apply (held_once w l1 _ l2 h Hinv Heq).
    + intros l1 l2 c' Heq. by apply (held_once w l1 _ l2 h Hinv Heq).
  - intros f Hf. assert (Hfate : mfate_ok (errs (ow_owner w) (o_file c)) (o_caller c) f).
    { destruct c as [src fh held s fl rd ak wc t]. cbn in Hf. subst t. by destruct Hok as (_ & _ & ?). }
    assert (Hrefuse : errs (ow_owner w) (o_file c) -> forall w' c' o' c'', rtc owned_step w w' -> c' ∈ ow_ops w' ->
         (exists rest, o_caller c' = CCheck (o_file c) rest) -> op_go (ow_owner w') (taken w') c' o' c'' ->
         exists e d, o_caller c'' = CEnd (Some (Err e)) /\ operation_outcome e = Some d /\ outcome_kind d = Uncertain).
    { intros He w' c' o' c'' Hrun Hc' [rest Hw] Hg. assert (Hr' : owned_reachable w') by (destruct Hr as [v Hr]; exists v; by etrans).
      eapply errs_refuse; [|by eapply owned_run_errs|done|done].
      by apply (proj1 (Forall_forall _ _) (oi_ops _ (owned_reachable_inv _ Hr'))). }
    destruct f; cbn in Hfate; [done| |apply Hrefuse, Hfate..]. destruct Hfate as (-> & Hu & _). split; [done|].
    intros e ->. cbn in Hu. by destruct (is_uncertain e).
Qed.

(** Two copies in opposite directions: both start with the lock of the smaller
    handle, so that one of them gets both. *)
Definition copies (first : op ()) : owned () := {| ow_owner := WriteOwner_new V2; ow_others := []; ow_ops := [first; op_new (Some [x01]) [x02]] |}.
Definition copy_locking : op () := Op (Some [x02]) [x01] [[x01]] None false ChOpen ChOpen (CCheck [x01] [[x02]]) MNone.
Lemma owned_mutations_all_end_witness :
  o_caller (op_new (A := ()) (Some [x02]) [x01]) = o_caller (op_new (A := ()) (Some [x01]) [x02]) /\
  (1 <= owned_left (copies (op_new (Some [x02]) [x01])))%nat /\
  ((forall w'', ~ owned_go (copies copy_locking) w'') -> Forall op_finished (ow_ops (copies copy_locking))).
Proof.
  split; [by vm_compute|].
  destruct (owned_mutations_all_end (copies (op_new (Some [x02]) [x01])) (copies copy_locking) 1) as [H1 H2].
  - exists V2. eapply rtc_l; [apply (os_begin _ (Some [x01]) [x02])|]. eapply rtc_l; [apply (os_begin _ (Some [x02]) [x01])|]. apply rtc_refl.
  - eapply nsteps_l; [|apply nsteps_O]. apply (go_op _ _ [] _ [_]). apply (g_lock _ _ _ _ [] None false ChOpen ChOpen [x01] [[x02]]).
    intros [H|H]; vm_compute in H; by apply not_elem_of_nil in H.
  - split; [exact H1|]. intros H. by apply H2.
Defined.

(** An ALLOCATE that is being answered. *)
Definition allocating (held : list bytes) (w : cphase ()) (t : mphase ()) : owned () :=
  {| ow_owner := WriteOwner_new V2; ow_others := []; ow_ops := [Op None [x01] held None false ChOpen ChOpen w t] |}.
Lemma owned_mutation_accounted_witness :
  write_error (ow_owner (allocating [[x01]] CAwait MWork)) [x01] = None /\ [x01] ∈ o_held (Op None [x01] [[x01]] None false ChOpen ChOpen CAwait (MWork (A := ()))).
Proof.
  destruct (owned_mutation_accounted (allocating [[x01]] CAwait MWork) (Op None [x01] [[x01]] None false ChOpen ChOpen CAwait MWork)) as [H _].
  - exists V2. eapply rtc_l; [apply (os_begin _ None [x01])|].
    eapply rtc_l; [apply os_go, (go_op _ _ [] _ []); apply (g_lock _ _ _ _ [] None false ChOpen ChOpen [x01] [])|].
    { intros [H|H]; vm_compute in H; by apply not_elem_of_nil in H. }
    eapply rtc_l; [apply os_go, (go_op _ _ [] _ []); by apply g_check|]. eapply rtc_l; [apply os_go, (go_op _ _ [] _ []); apply g_locked|].
    eapply rtc_l; [apply os_go, (go_op _ _ [] _ []); apply g_spawn|]. eapply rtc_l; [apply os_go, (go_op _ _ [] _ []); apply m_start|]. apply rtc_refl.
  - by left.
  - destruct (H eq_refl [x01]) as (H1 & H2 & _); [by left|]. done.
Defined.
