(* ===== verification/Wrapper41.v ===== *)
(** * The public mount of NFSv4.1 and NFSv4.2

    Models [Mount41Wrapper] of [src/src/nfs41/mount.rs], the implementation of the
    [Mount] trait over [Mount41]: admission through the client core, the barriers
    of a file with the errors of abandoned writes, lock tokens, the choice between
    named and extended attributes, health, capabilities and the streams of
    directory entries.

    The operations below are those of [Ops41] and [Ops42]; a call that is neither
    cancelled nor dropped is a function of the mount.  [core] is the client core at
    the time of the call ([ClientCore] has the counting of admitted operations,
    [WriteOwner] and [Owned42] the tasks and locks). *)
From Stdlib Require Import Strings.Byte.
From S2P Require Import Prelude Errors Compound41 Response41 V42 Acl4 Attrs4 PnfsIo Session Lease40 Lanes40 State41 ClientCore WriteOwner MountTrait Ops41 Ops42 Owned42.
From stdpp Require Import base list numbers strings gmap.
#[local] Open Scope Z_scope.

(** ** Reports *)

Record MountCapabilities : Type := {
  mc_acl : bool; mc_posix_acl : bool; mc_named_attributes : bool; mc_locks : bool; mc_callbacks : bool;
  mc_delegation_retention : bool; mc_pnfs : bool; mc_session_diagnostics : bool
}.
Definition capabilities (acl_supported pnfs_mds : bool) (cfg : Config) : MountCapabilities :=
  {| mc_acl := acl_supported; mc_posix_acl := false; mc_named_attributes := false; mc_locks := true; mc_callbacks := true;
     mc_delegation_retention := retain_delegations cfg; mc_pnfs := pnfs_mds; mc_session_diagnostics := true |}.

Definition wrapper_health (core : ClientCore) (lease : LeaseHealth) : MountHealth :=
  let lease_healthy := match lease with Healthy => true | _ => false end in
  {| mh_lifecycle := match ClientCore.lifecycle core with
                     | LcClosing => Closing
                     | LcClosed => Closed
                     | LcReady => if lease_healthy then Ready else Recovering
                     end;
     mh_generation := 0; mh_lease_healthy := Some lease_healthy; mh_lease_seconds := None; mh_lease_renewals := 0;
     mh_callback_healthy := None |}.

Module Mount41Wrapper.
Section Wrapper.
Context {X : Type} (cfg : Config) (eng : Engine (X := X)) (core : ClientCore) (issuer : Z) (split_path : bytes -> result (bytes * bytes)).
#[local] Notation M := (M (X := X)).
#[local] Notation "'let!' x ':=' c 'in' k" := (bindM c (fun x => k)) (at level 10, x pattern, c at level 100, k at level 200).

(** [self.core.begin_operation()?] *)
Definition admitted {A} (op : M A) : M A := let! _ := lift (ensure_ready core) in op.

(** [barrier] and the error check after the operation. *)
Definition barred {A} (fh : bytes) (op : M A) : M A :=
  let! r := attempt op in
  let! recorded := gets (fun w => WriteOwner.write_error (m_writes w) fh) in
  match recorded with
  | Some error => failM error
  | None => lift r
  end.

(** [run_owned] *)
Fixpoint no_errors (files : list bytes) : M () :=
  match files with
  | [] => retM ()
  | fh :: files => let! _ := no_write_error fh in no_errors files
  end.
Definition run_owned {A} (source : option bytes) (destination : bytes) (work : M A) : M A :=
  let! _ := no_errors (lock_order source destination) in work.

(** ** Files *)

Definition close (fh : bytes) : M () := admitted (Ops41.close eng fh).
Definition write (fh : bytes) (offset : Z) (data : bytes) : M WriteOutcome :=
  admitted (let! _ := no_write_error fh in Ops41.write_inner eng fh offset data).
Definition commit (fh : bytes) (offset count : Z) : M () := admitted (barred fh (Ops41.commit eng fh offset count)).
Definition commit_write_batch (fh : bytes) (offset count : Z) (writes : list WriteOutcome) : M () :=
  admitted (barred fh (Ops41.commit_write_batch_inner cfg eng fh offset count writes)).
Definition commit_with_verifier (fh : bytes) (offset count : Z) : M (option bytes) :=
  admitted (barred fh (Ops41.commit_with_verifier eng fh offset count)).
Definition commit_path (path : bytes) (offset count : Z) : M () :=
  admitted (let! object := Ops41.lookup_path cfg eng path in barred (o_fh object) (Ops41.commit eng (o_fh object) offset count)).

Definition allocate (fh : bytes) (offset len : Z) : M () := admitted (run_owned None fh (v42_space cfg eng fh offset len true)).
Definition deallocate (fh : bytes) (offset len : Z) : M () := admitted (run_owned None fh (v42_space cfg eng fh offset len false)).
Definition copy_range (source destination : bytes) (source_offset destination_offset count : Z) : M Z :=
  admitted (run_owned (Some source) destination (v42_copy cfg eng source destination source_offset destination_offset count false)).
Definition clone_range (source destination : bytes) (source_offset destination_offset count : Z) : M () :=
  admitted (run_owned (Some source) destination
    (let! _ := v42_copy cfg eng source destination source_offset destination_offset count true in retM ())).

(** ** Extended attributes: [Either] is [XattrSetMode::Either]. *)

Definition is_v42 : bool := bool_decide (protocol_of cfg = NFSv4p2).
Definition setxattr_with_mode (fh name value : bytes) (mode : XattrSetMode) : M () :=
  admitted (run_owned None fh (v42_setxattr cfg eng fh name value mode)).
Definition getxattr (fuel : nat) (fh name : bytes) : M (option bytes) :=
  admitted (if is_v42 then let! v := v42_getxattr cfg eng fh name in retM (Some v) else Ops42.getxattr cfg eng fuel fh name).
Definition setxattr (fh name value : bytes) : M () :=
  admitted (if is_v42 then run_owned None fh (v42_setxattr cfg eng fh name value XattrEither) else Ops42.setxattr cfg eng fh name value).
Definition removexattr (fh name : bytes) : M () :=
  admitted (if is_v42 then run_owned None fh (v42_removexattr cfg eng fh name) else Ops42.removexattr eng fh name).

(** ** Locks *)

Definition lock (fh : bytes) (lock_type offset len : Z) : M bytes := admitted (Ops41.lock eng fh lock_type offset len).
Definition lock_changed : NfsError :=
  OperationOutcome (OperationOutcomeError_new Uncertain ReplaySensitive Reopen
    {| operation := "lock"; protocol := protocol_of cfg; request_id := None |} (Rpc "session generation changed while acquiring lock")).
Definition lock_stateful (fh : bytes) (lock_type offset len : Z) : M LockToken :=
  admitted (let! generation := gets (engine_generation eng) in
            let! stateid := Ops41.lock eng fh lock_type offset len in
            let! now := gets (engine_generation eng) in
            if negb (now =? generation) then failM lock_changed
            else retM {| lt_fh := fh; lt_stateid := stateid; lt_lock_type := lock_type; lt_offset := offset; lt_length := len;
                         lt_issuer := issuer; lt_generation := generation |}).
Definition unlock_stateful (t : LockToken) : M () :=
  admitted (let! generation := gets (engine_generation eng) in
            if negb (lt_issuer t =? issuer) || negb (lt_generation t =? generation)
            then failM (InvalidInput "lock token belongs to another mount or recovery generation")
            else Ops41.locku eng (lt_fh t) (lt_stateid t) (lt_lock_type t) (lt_offset t) (lt_length t)).
(** ** Operations that only pass the admission *)

Definition lookup (dir_fh filename : bytes) : M ObjRes := admitted (Ops41.lookup eng dir_fh filename).
Definition lookup_path (path : bytes) : M ObjRes := admitted (Ops41.lookup_path cfg eng path).
Definition getattr (fh : bytes) : M Attr := admitted (Ops41.getattr eng fh).
Definition getattr_path (path : bytes) : M Attr := admitted (Ops41.getattr_path cfg eng path).
Definition access (fh : bytes) (mode : Z) : M Z := admitted (Ops41.access eng fh mode).
Definition access_path (path : bytes) (mode : Z) : M Z := admitted (Ops41.access_path cfg eng path mode).
Definition read (fh : bytes) (offset count : Z) : M bytes := admitted (Ops41.read eng fh offset count).
Definition read_path (path : bytes) (offset count : Z) : M bytes := admitted (Ops41.read_path cfg eng path offset count).
Definition readlink (fh : bytes) : M bytes := admitted (Ops41.readlink eng fh).
Definition readlink_path (path : bytes) : M bytes := admitted (Ops41.readlink_path cfg eng path).
Definition open (dir_fh filename : bytes) (access : Z) : M ObjRes := admitted (Ops41.open cfg eng dir_fh filename access).
Definition open_path (path : bytes) (access : Z) : M ObjRes := admitted (Ops41.open_path cfg eng split_path path access).
Definition create (dir_fh filename : bytes) (mode : option Z) : M ObjRes := admitted (Ops41.create cfg eng dir_fh filename mode).
Definition create_path (path : bytes) (mode : option Z) : M ObjRes := admitted (Ops41.create_path cfg eng split_path path mode).
Definition create_path_stateful_with_access (path : bytes) (mode : option Z) (access : Z) : M OpenFile :=
  admitted (let! object := Ops41.create_path_with_access cfg eng split_path path mode access in retM (from_object object)).
Definition mkdir (dir_fh dirname : bytes) (mode : Z) : M ObjRes := admitted (Ops41.mkdir eng dir_fh dirname mode).
Definition mkdir_path (path : bytes) (mode : Z) : M ObjRes := admitted (Ops41.mkdir_path cfg eng split_path path mode).
Definition remove (dir_fh filename : bytes) : M () := admitted (Ops41.remove eng dir_fh filename).
Definition remove_path (path : bytes) : M () := admitted (Ops41.remove_path cfg eng split_path path).
Definition rmdir (dir_fh dirname : bytes) : M () := admitted (Ops41.rmdir eng dir_fh dirname).
Definition rmdir_path (path : bytes) : M () := admitted (Ops41.rmdir_path cfg eng split_path path).
Definition rename (from_dir_fh from_name to_dir_fh to_name : bytes) : M () := admitted (Ops41.rename eng from_dir_fh from_name to_dir_fh to_name).
Definition rename_path (from_path to_path : bytes) : M () := admitted (Ops41.rename_path cfg eng split_path from_path to_path).
Definition link (src_fh dst_dir_fh dst_name : bytes) : M Attr := admitted (Ops41.link eng src_fh dst_dir_fh dst_name).
Definition link_path (src_path dst_path : bytes) : M Attr := admitted (Ops41.link_path cfg eng split_path src_path dst_path).
Definition symlink (target dst_dir_fh dst_name : bytes) : M ObjRes := admitted (Ops41.symlink eng target dst_dir_fh dst_name).
Definition symlink_path (target dst_path : bytes) : M ObjRes := admitted (Ops41.symlink_path cfg eng split_path target dst_path).
Definition setattr (fh : bytes) (mode uid gid size : option Z) (atime mtime : option Time) : M () :=
  admitted (Ops41.setattr eng fh mode uid gid size atime mtime).
Definition setattr_path (path : bytes) (specify_guard : bool) (mode uid gid size : option Z) (atime mtime : option Time) : M () :=
  admitted (Ops41.setattr_path cfg eng path specify_guard mode uid gid size atime mtime).
Definition lock_test (fh : bytes) (lock_type offset len : Z) : M () := admitted (Ops41.lock_test eng fh lock_type offset len).
Definition locku (fh lock_stateid : bytes) (lock_type offset len : Z) : M () := admitted (Ops41.locku eng fh lock_stateid lock_type offset len).
Definition seek_content (fh : bytes) (offset : Z) (what : SeekContent) : M SeekResult := admitted (v42_seek cfg eng fh offset what).
Definition read_plus (fh : bytes) (offset count : Z) : M ReadPlusResult := admitted (v42_read_plus cfg eng fh offset count).
Definition nfs42_attributes (fh : bytes) : M Nfs42Attributes := admitted (v42_attributes cfg eng fh).
Definition getacl (fh : bytes) : M Acl := admitted (Ops41.getacl cfg eng fh).
Definition setacl (fh : bytes) (acl : Acl) : M () := admitted (Ops41.setacl cfg eng fh acl).
Definition getdacl (fh : bytes) : M NfsAcl41 := admitted (Ops41.getdacl cfg eng fh).
Definition setdacl (fh : bytes) (acl : NfsAcl41) : M () := admitted (Ops41.setdacl cfg eng fh acl).
Definition getsacl (fh : bytes) : M NfsAcl41 := admitted (Ops41.getsacl cfg eng fh).
Definition setsacl (fh : bytes) (acl : NfsAcl41) : M () := admitted (Ops41.setsacl cfg eng fh acl).
Definition aclsupport (fh : bytes) : M Z := admitted (Ops41.aclsupport cfg eng fh).
(** No delegation is ever held. *)
Definition delegreturn (message : string) : M () := admitted (failM (Rpc message)).
Definition delegpurge : M () := admitted (failM (Unsupported "DELEGPURGE not supported")).

(** [umount]: the errors the core reports. *)
Definition umount (report : list NfsError) : result () :=
  match report with [] => Ok () | errors => Err (FileClose (map (fun e => ("umount"%string, e)) errors)) end.

(** [ready_stream]: [cores] are the core before and after each item was awaited. *)
Fixpoint ready_stream {A} (items : list (result A)) (cores : list (ClientCore * ClientCore)) {struct cores} : list (result A) :=
  match cores with
  | [] => []
  | (before, after) :: cores =>
      match ensure_ready before with
      | Err e => [Err e]
      | Panic => [Panic]
      | Ok _ =>
          match items with
          | Err e :: _ => [Err e]
          | Panic :: _ => [Panic]
          | [] => match ensure_ready after with Err e => [Err e] | _ => [] end
          | Ok x :: items => match ensure_ready after with Err e => [Err e] | Panic => [Panic] | Ok _ => Ok x :: ready_stream items cores end
          end
      end
  end.
End Wrapper.
End Mount41Wrapper.

(** ** A file with an abandoned write *)

(** The computations of [Ops41] in the logic of [MountTrait]. *)
Section KeepsM.
Context {X : Type} (I : Mount41 (X := X) -> Prop).
Lemma keeps_bindM {A B} (c : M A) (k : A -> M B) : keeps I c -> (forall a, keeps I (k a)) -> keeps I (bindM c k).
Proof. apply keeps_andthen. Qed.
Lemma keeps_attempt {A} (c : M A) : keeps I c -> keeps I (attempt c).
Proof. apply keeps_caught. Qed.
Lemma keeps_lift {A} (r : result A) : keeps I (lift r).
Proof. apply keeps_raise. Qed.
Lemma keeps_gets {A} (f : Mount41 -> A) : keeps I (gets f).
Proof. apply keeps_asks. Qed.
Lemma keeps_retM {A} (a : A) : keeps I (retM a).
Proof. apply keeps_ret. Qed.
Lemma keeps_failM {A} e : keeps I (failM (A := A) e).
Proof. apply keeps_fail. Qed.
End KeepsM.
#[export] Hint Resolve keeps_lift keeps_gets keeps_retM keeps_failM : keeps.
Ltac keepsM :=
  repeat (keeps_step || match goal with
    | |- keeps _ (bindM _ _) => apply keeps_bindM; [|intro]
    | |- keeps _ (attempt _) => apply keeps_attempt
    end).

(** The write owner has recorded an error for the file. *)
Definition recorded {X} (fh : bytes) (w : Mount41 (X := X)) : Prop := is_Some (WriteOwner.write_error (m_writes w) fh).

(** What is asked of the rest of the mount: no recorded error is removed. *)
Record keeps_errors {X} (eng : Engine (X := X)) : Prop := {
  ke_compound : forall fh d i t b, keeps (recorded fh) (engine_compound eng d i t b);
  ke_flush : forall fh f, keeps (recorded fh) (engine_flush_layoutcommit eng f);
  ke_return : forall fh f, keeps (recorded fh) (engine_layoutreturn eng f);
  ke_pending : forall fh f l, keeps (recorded fh) (engine_commit_pending eng f l);
}.

Section Sticky.
Context {X : Type} (cfg : Config) (eng : Engine (X := X)) (fh : bytes) (He : keeps_errors eng).
#[local] Notation I := (recorded (X := X) fh).

Lemma keeps_commit_with_verifier f o n : keeps I (Ops41.commit_with_verifier eng f o n).
Proof using He. unfold Ops41.commit_with_verifier, compound. keepsM. apply He. Qed.
Lemma keeps_commit f o n : keeps I (Ops41.commit eng f o n).
Proof using He. unfold Ops41.commit. keepsM. apply keeps_commit_with_verifier. Qed.
Lemma keeps_commit_writes f o n ws : keeps I (commit_write_batch_inner cfg eng f o n ws).
Proof using He. unfold commit_write_batch_inner. keepsM; [apply keeps_commit_with_verifier|apply He]. Qed.
Lemma keeps_release f : keeps I (release_and_close eng f).
Proof using He.
  unfold release_and_close, compound. apply keeps_bindM; [|intros sid; destruct sid; keepsM; [apply He|by intros w]].
  intros w Hw. destruct (release_open _ _). exact Hw.
Qed.
Lemma keeps_close_inner f t : keeps I (close_file_inner eng f t).
Proof using He. unfold close_file_inner. keepsM; try apply He; apply keeps_release. Qed.

(** What a call reports of a file whose error is recorded, and what it leaves:
    the error that the write owner answers for the file, unless it panics. *)
Definition reports_error {A} (r : result A) (w' : Mount41 (X := X)) : Prop :=
  I w' /\ (r = Panic \/ exists e, WriteOwner.write_error (m_writes w') fh = Some e /\ r = Err e).
Definition reports {A} (c : M (X := X) A) (w : Mount41) : Prop := exists r w', c w = (r, w') /\ reports_error r w'.

(** After the operation the error is found. *)
Lemma barred_reports {A} (op : M A) w : keeps I op -> I w -> reports (Mount41Wrapper.barred fh op) w.
Proof using.
  intros Hk Hw. specialize (Hk w Hw). unfold reports, Mount41Wrapper.barred, bindM, attempt, gets. destruct (op w) as [[x|e|] w']; cbn in Hk |- *.
  1,2: destruct Hk as [e' He']; rewrite He'; cbn; eexists _, _; (split; [done|]); (split; [by eexists|]); right; by exists e'.
  eexists _, _. split; [done|]. split; [done|by left].
Qed.
Lemma no_errors_refuses files w : I w -> fh ∈ files -> exists e, Mount41Wrapper.no_errors files w = (Err e, w).
Proof using.
  intros [e Hw] Hin. induction files as [|f files IH]; [by apply not_elem_of_nil in Hin|]. cbn. unfold bindM, no_write_error.
  destruct (WriteOwner.write_error (m_writes w) f) as [e'|] eqn:Ef; [by eexists|]. apply elem_of_cons in Hin as [<-|Hin]; [congruence|by apply IH].
Qed.
Lemma owned_refuses {A} source destination (work : M A) w : I w -> (fh = destination \/ source = Some fh) ->
  exists e, Mount41Wrapper.run_owned source destination work w = (Err e, w).
Proof using.
  intros Hw Hin. unfold Mount41Wrapper.run_owned, bindM. destruct (no_errors_refuses (lock_order source destination) w Hw) as [e ->]; [|by eexists].
  by apply lock_order_in.
Qed.
(** The call is refused because the client is closing, or reports the error. *)
Definition fails_on {A} (core : ClientCore) (c : M (X := X) A) (w : Mount41) : Prop :=
  exists r w', c w = (r, w') /\ (forall x, r <> Ok x) /\ I w' /\ (ensure_ready core = Ok () -> reports_error r w').
Definition refuses {A} (c : M (X := X) A) (w : Mount41) : Prop := exists e, c w = (Err e, w).

Lemma admitted_fails {A} core (op : M A) w : I w -> reports op w -> fails_on core (Mount41Wrapper.admitted core op) w.
Proof using.
  intros Hw (r & w' & Hop & Hr). unfold fails_on, Mount41Wrapper.admitted, bindM, lift, ensure_ready. destruct (_ =? _).
  - exists r, w'. split_and!; [done| |apply Hr|done]. destruct Hr as [_ [->|(e & _ & ->)]]; done.
  - eexists _, w. by split_and!.
Qed.
Lemma admitted_refuses {A} core (op : M A) w : refuses op w -> refuses (Mount41Wrapper.admitted core op) w.
Proof using.
  intros (e & Hop). unfold refuses, Mount41Wrapper.admitted, bindM, lift, ensure_ready. destruct (_ =? _); [by exists e|by eexists].
Qed.
End Sticky.

(** C28: an abandoned write whose outcome is unknown is not papered over by these
    calls. Once the write owner has recorded an error for a file, no call that
    promises durability (close, commit, commit_with_verifier, commit_write_batch)
    reports success, whatever the server answers to the requests it still makes;
    it reports the recorded error, as an uncertain outcome, and the error stays.
    Write, allocate, deallocate, a copy or clone from or to the file, and on
    NFSv4.2 setting or removing an extended attribute are refused before anything
    is sent.  Setattr, the calls for access control lists and the named attributes
    of NFSv4.1 do not look at the record and are not covered. *)
Theorem recorded_error_sticks {X} cfg (eng : Engine (X := X)) core fh w : keeps_errors eng -> recorded fh w ->
  (fails_on fh core (Mount41Wrapper.close eng core fh) w /\
   (forall offset n, fails_on fh core (Mount41Wrapper.commit eng core fh offset n) w /\
     fails_on fh core (Mount41Wrapper.commit_with_verifier eng core fh offset n) w /\
     forall writes, fails_on fh core (Mount41Wrapper.commit_write_batch cfg eng core fh offset n writes) w)) /\
  (forall e, WriteOwner.write_error (m_writes w) fh = Some e -> exists o, e = OperationOutcome o /\ outcome_kind o = Uncertain) /\
  (forall offset data, refuses (Mount41Wrapper.write eng core fh offset data) w) /\
  (forall offset len, refuses (Mount41Wrapper.allocate cfg eng core fh offset len) w /\
     refuses (Mount41Wrapper.deallocate cfg eng core fh offset len) w) /\
  (forall source destination o1 o2 n, fh = source \/ fh = destination ->
     refuses (Mount41Wrapper.copy_range cfg eng core source destination o1 o2 n) w /\
     refuses (Mount41Wrapper.clone_range cfg eng core source destination o1 o2 n) w) /\
  (forall name value mode, refuses (Mount41Wrapper.setxattr_with_mode cfg eng core fh name value mode) w) /\
  (Mount41Wrapper.is_v42 cfg = true -> forall name value,
     refuses (Mount41Wrapper.setxattr cfg eng core fh name value) w /\ refuses (Mount41Wrapper.removexattr cfg eng core fh name) w).
Proof.
  intros He Hw.
  assert (Hown : forall A source destination (work : M A), fh = source \/ fh = destination ->
    refuses (Mount41Wrapper.admitted core (Mount41Wrapper.run_owned (Some source) destination work)) w).
  { intros A source destination work Hf. apply admitted_refuses, (owned_refuses fh); [done|]. destruct Hf as [-> | ->]; auto. }
  assert (Hone : forall A (work : M A), refuses (Mount41Wrapper.admitted core (Mount41Wrapper.run_owned None fh work)) w).
  { intros A work. apply admitted_refuses, (owned_refuses fh); [done|by left]. }
  split_and!; [| | | |..].
  - apply admitted_fails; [done|]. destruct Hw as [e Hw].
    assert (Hb : Ops41.close eng fh w = Mount41Wrapper.barred fh (close_file_inner eng fh true) w).
    { unfold Ops41.close, Mount41Wrapper.barred, bindM, gets. rewrite bool_decide_true by (rewrite Hw; by eexists). done. }
    unfold reports. rewrite Hb. apply barred_reports; [by apply keeps_close_inner|by eexists].
  - intros offset n. split_and!; [| |intros writes]; (apply admitted_fails; [done|]; apply barred_reports; [|done]);
      [by apply keeps_commit|by apply keeps_commit_with_verifier|by apply keeps_commit_writes].
  - intros e He'. unfold WriteOwner.write_error in He'. destruct (errors _ !! fh); [|done]. injection He' as <-. by eexists.
  - intros offset data. apply admitted_refuses. destruct Hw as [e Hw]. exists e. unfold bindM, no_write_error. by rewrite Hw.
  - intros offset len. split; apply Hone.
  - intros source destination o1 o2 n Hf. split; by apply Hown.
  - intros name value mode. apply Hone.
  - intros Hv name value. unfold Mount41Wrapper.setxattr, Mount41Wrapper.removexattr. rewrite Hv. split; apply Hone.
Qed.

(** A server that acknowledges COMMIT, and a file of which a write was abandoned. *)
Definition abandoned_mount : Mount41 (X := bytes) :=
  {| m_state := m_state copy_mount; m_recalls := m_recalls copy_mount; m_writes := WriteOwner.record (WriteOwner.WriteOwner_new V2) (of_str "b") (Rpc "WRITE result was not acknowledged");
     m_ext := m_ext copy_mount |}.
Lemma copy_engine_keeps : keeps_errors copy_engine.
Proof.
  split; [|intros; by intros w..]. intros fh d i t b w Hw. cbn. unfold copy_compound. by repeat case_match.
Qed.
Lemma recorded_error_sticks_witness :
  (Mount41Wrapper.commit copy_engine core_new (of_str "a") 0 8 abandoned_mount).1 = Ok () /\
  fails_on (of_str "b") core_new (Mount41Wrapper.commit copy_engine core_new (of_str "b") 0 8) abandoned_mount /\
  refuses (Mount41Wrapper.copy_range demo_cfg42 copy_engine core_new (of_str "a") (of_str "b") 0 0 8) abandoned_mount.
Proof.
  split; [by vm_compute|].
  destruct (recorded_error_sticks demo_cfg42 copy_engine core_new (of_str "b") abandoned_mount copy_engine_keeps) as ([_ H1] & _ & _ & _ & H2 & _).
  - by eexists.
  - split; [apply H1|]. apply H2. by right.
Defined.

(** ** Lock tokens *)

(** A byte-range lock is released only where it was taken: a token is handed
    out only when the session was the same before and after the LOCK, and it is
    stamped with the mount and the generation; releasing it sends the LOCKU of
    exactly that lock when mount and generation are still those, and otherwise is
    refused without sending anything. *)
Theorem lock_token_confined {X} cfg (eng : Engine (X := X)) core issuer fh kind offset len w t w' :
  Mount41Wrapper.lock_stateful cfg eng core issuer fh kind offset len w = (Ok t, w') ->
  engine_generation eng w = engine_generation eng w' /\
  (Mount41Wrapper.lock eng core fh kind offset len w) = (Ok (lt_stateid t), w') /\
  forall core' issuer' w2,
    issuer' = issuer /\ engine_generation eng w2 = engine_generation eng w /\
      Mount41Wrapper.unlock_stateful eng core' issuer' t w2 = Mount41Wrapper.locku eng core' fh (lt_stateid t) kind offset len w2 \/
    (issuer' <> issuer \/ engine_generation eng w2 <> engine_generation eng w) /\ refuses (Mount41Wrapper.unlock_stateful eng core' issuer' t) w2.
Proof.
  unfold Mount41Wrapper.lock_stateful, Mount41Wrapper.lock, Mount41Wrapper.admitted, bindM, lift, gets.
  destruct (ensure_ready core); [|done..]. destruct (Ops41.lock eng fh kind offset len w) as [[sid|e|] w1]; [|done..].
  destruct (Z.eqb_spec (engine_generation eng w1) (engine_generation eng w)) as [Hg|Hg]; [|done]. cbn. intros [= <- <-].
  split_and!; [done|done|]. intros core' issuer' w2. unfold refuses, Mount41Wrapper.unlock_stateful, Mount41Wrapper.locku, Mount41Wrapper.admitted, bindM, lift, gets.
  cbn. destruct (Z.eqb_spec issuer issuer') as [->|Hi], (Z.eqb_spec (engine_generation eng w) (engine_generation eng w2)) as [Hw|Hw].
  - left. split_and!; [done|done|]. by destruct (ensure_ready core').
  - right. split; [right; congruence|]. unfold ensure_ready. destruct (_ =? _); by eexists.
  - right. split; [left; congruence|]. unfold ensure_ready. destruct (_ =? _); by eexists.
  - right. split; [left; congruence|]. unfold ensure_ready. destruct (_ =? _); by eexists.
Qed.

(** A server that grants every lock; the generation is the length of [m_ext]. *)
Definition lock_compound (_ : option bytes) (_ : option nat) (tag : bytes)
    (build : CompoundBuilder -> CompoundBuilder) : M (X := bytes) CompoundResponse := fun w =>
  match map opcode (ops (build (builder_new tag))) with
  | [OpNum.PutFh; OpNum.Lock] => (Ok (demo_response [demo_ok OpNum.PutFh []; demo_ok OpNum.Lock demo_sid]), w)
  | [OpNum.PutFh; OpNum.Locku] => (Ok (demo_response [demo_ok OpNum.PutFh []; demo_ok OpNum.Locku demo_sid]), w)
  | _ => (Err (Nfs4 NFS4ERR_NOTSUPP), w)
  end.
Definition lock_engine : Engine (X := bytes) :=
  {| engine_compound := lock_compound; engine_pnfs_read := fun _ _ _ => retM None;
     engine_write_pnfs := fun _ _ _ => retM None; engine_commit_pending := fun _ _ => retM ();
     engine_flush_layoutcommit := fun _ => retM (); engine_layoutreturn := fun _ => retM ();
     engine_return_on_close := fun _ _ => false; engine_client_id := fun _ => 7; engine_generation := fun w => remaining (m_ext w);
     engine_max_response_size := fun _ => 65536 |}.
Definition demo_token : LockToken :=
  {| lt_fh := of_str "b"; lt_stateid := demo_sid; lt_lock_type := 2; lt_offset := 0; lt_length := 9; lt_issuer := 4; lt_generation := 3 |}.
Lemma lock_token_confined_witness :
  Mount41Wrapper.lock_stateful demo_cfg42 lock_engine core_new 4 (of_str "b") 2 0 9 copy_mount = (Ok demo_token, copy_mount) /\
  refuses (Mount41Wrapper.unlock_stateful lock_engine core_new 4 demo_token) (set_ext copy_mount (of_str "newer")) /\
  (Mount41Wrapper.unlock_stateful lock_engine core_new 4 demo_token copy_mount).1 = Ok ().
Proof.
  assert (H : Mount41Wrapper.lock_stateful demo_cfg42 lock_engine core_new 4 (of_str "b") 2 0 9 copy_mount = (Ok demo_token, copy_mount)) by (by vm_compute).
  split; [exact H|]. split; [|by vm_compute].
  destruct (lock_token_confined demo_cfg42 lock_engine core_new 4 (of_str "b") 2 0 9 copy_mount demo_token copy_mount H) as (_ & _ & Hu).
  destruct (Hu core_new 4 (set_ext copy_mount (of_str "newer"))) as [(_ & Hg & _)|[_ Hr]]; [by vm_compute in Hg|exact Hr].
Defined.

(** The health of the mount never tells its generation. *)
Lemma health_without_generation core lease : mh_generation (wrapper_health core lease) = 0.
Proof. done. Qed.

(** ** Streams *)

(** What a stream delivers is a prefix of what the directory yields, each item
    delivered while the client was ready, and the end or one error. *)
Lemma ready_stream_prefix {A} (items : list (result A)) cores :
  exists n tail, Mount41Wrapper.ready_stream items cores = firstn n items ++ tail /\ (length tail <= 1)%nat /\
    Forall (fun c => ensure_ready c.1 = Ok () /\ ensure_ready c.2 = Ok ()) (firstn n cores) /\ forall x, Ok x ∉ tail.
Proof.
  revert items. induction cores as [|[b a] cores IH]; intros items.
  { exists 0%nat, []. split_and!; [done|cbn; lia|by rewrite take_nil|]. intros x. apply not_elem_of_nil. }
  cbn. destruct (ensure_ready b) as [[]|e|] eqn:Eb.
  2:{ exists 0%nat, [Err e]. split_and!; [done|cbn; lia|done|]. intros x Hx. by apply list_elem_of_singleton in Hx. }
  2:{ exists 0%nat, [Panic]. split_and!; [done|cbn; lia|done|]. intros x Hx. by apply list_elem_of_singleton in Hx. }
  assert (Hone : forall r : result A, (forall x, r <> Ok x) -> exists n tail, [r] = firstn n items ++ tail /\ (length tail <= 1)%nat /\
    Forall (fun c => ensure_ready c.1 = Ok () /\ ensure_ready c.2 = Ok ()) (firstn n ((b, a) :: cores)) /\ forall x, Ok x ∉ tail).
  { intros r Hr. exists 0%nat, [r]. split_and!; [done|cbn; lia|done|]. intros x Hx. apply list_elem_of_singleton in Hx. by apply (Hr x). }
  destruct items as [|[x|e|] items]; [|destruct (ensure_ready a) as [[]|e|] eqn:Ea|by apply Hone|by apply Hone].
  - destruct (ensure_ready a); [|by apply Hone|]; (exists 0%nat, []; split_and!; [done|cbn; lia|done|intros x; apply not_elem_of_nil]).
  - destruct (IH items) as (n & tl & -> & Hl & Hf & Hx). exists (S n), tl. split_and!; [done|done| |done]. cbn. constructor; [|done]. done.
  - by apply Hone.
  - by apply Hone.
Qed.
